(* ===== verification/_CoqProject ===== *)
-Q . S2P
Prelude.v
CLib.v
Sys.v
ErrorFunctions.v
Calls.v
GetNum.v
ReadWrite.v
InotifyCache.v
InotifyTree.v
InotifyEvents.v
InotifyInv.v
InotifyProps.v
InotifyMain.v
Environ.v
Execlp.v
System.v
SemOps.v
Semaphores.v
ShmXfr.v
Caps.v
Userns.v
NsCapable.v
Formats.v
Acl.v
Bpf.v
Memory.v
Cmsg.v
UnixSockets.v
Scm.v
ScmToy.v
Seccomp.v
Notify.v
Steps.v
Locks.v
ThreadIncr.v
ProdCons.v
OneTimeInit.v
Strerror.v
Malloc.v
FileServer.v
MultiJoin.v
FifoSeqnum.v
FifoLive.v
RecordLocks.v
PidFile.v
FcntlLocking.v
InetSockets.v
Children.v
MultiSigchld.v
SimpleInit.v
Listener.v
MqNotify.v
SemInit.v
PthreadBarrier.v
Process.v
Pty.v
Daemon.v
Relay.v
SeqService.v
Tail.v
DirName.v
Getcwd.v
KvServer.v
Copy.v
Trace.v
SysvIpc.v
PosixIpc.v
NsPrograms.v
Launchers.v
SmallPrograms.v
Datagrams.v
Sync.v
