(* ===== verification/Prelude.v ===== *)
(** * A verification of programs of "The Linux Programming Interface"

    The repository (src/) is a large collection of small C programs: the
    example programs of the book under book-src/, one directory per chapter,
    around a small common library (book-src/lib), and solutions of exercises.
    This development models the parts that hold logic of their own, by a
    shallow embedding: every C function is a definition in the state monad of
    this file, in the order of its statements, with its early returns, and
    proves what it does on every branch.

    ** Layers

    - Prelude (this file): how a C computation ends ([outcome]), the monad [M],
      loops ([iter], with fuel; [for_each]), partial-correctness triples
      ([post], [triple], [keeps]) with their hint database and tactics
      ([keeps_tac], [munfold]), and a rule for loops that terminate
      ([iter_total]).
    - CLib: C integers with their wrap-around, <string.h>, decimal output,
      strtol() and atoi(), and their round trips.
    - Sys: errno, environ and stdio as a lens of the state ([HasLibc]); read(2)
      and write(2) as classes ([ReadOS], [WriteOS]) with the laws callers rely
      on ([ReadSpec], [WriteSpec]) and a scripted instance for the witnesses.

    ** Components (file: source, under book-src/)

    - ErrorFunctions: lib/error_functions.c, ename.c.inc. GetNum: lib/get_num.c.
    - ReadWrite: sockets/read_line.c, read_line_buf.c, rdwrn.c. A single
      specification of a line, shared by the two readers.
    - InotifyCache, InotifyTree, InotifyEvents: inotify/inotify_dtree.c, a
      monitor that keeps a cache of watch descriptors and pathnames in step
      with a directory tree. The state is the record [dtree] (the file-scope
      variables and the state of the kernel); the kernel is the class
      [InotifyOS]. InotifyInv has the invariant of the cache and a lemma for
      each operation, InotifyProps what renames and removals do to the cache
      and that the event loop gets on, InotifyMain the invariant of the whole
      program and a toy kernel on which the program runs.
    - Environ: proc/setenv.c, over the environ array. Execlp: procexec/execlp.c,
      with its memory. System: procexec/system.c, with signals and children.
    - SemOps: svsem/svsem_op.c. Semaphores: svsem/binary_sems.c, event_flags.c.
      ShmXfr: svshm/svshm_xfr_writer.c and _reader.c, two processes as step
      functions, and all their interleavings as a relation.
    - Caps: cap/cap_functions.c and the capability options of
      namespaces/userns_child_exec.c. Userns: the rest of that program and
      userns_functions.c, with the protocol between parent and child as a
      step relation. NsCapable: namespaces/ns_capable.c.
    - Formats: small codecs (files/file_perms.c, procexec/print_wait_status.c
      and comptToLL() of acct_v3_view.c, timers/itimerspec_from_str.c,
      users_groups/ugid_functions.c, tty/tty_functions.c).
    - Acl: acl/acl_update.c, over libacl as the class [AclOS]; its theorems
      speak of an ACL as a map from tags and qualifiers to permissions.
    - Bpf: the filters of the programs of seccomp/, as instruction lists, and an
      interpreter of classic BPF. Seccomp: the programs that install, load and
      dump them. Notify: seccomp/seccomp_user_notification.c, target and tracer.
    - UnixSockets: sockets/unix_sockets.c. Scm: scm_functions.c and the six
      programs that pass descriptors and credentials; the control message is an
      array of bytes that the macros of Cmsg walk. ScmToy: a kernel for both.
    - ThreadIncr: threads/thread_incr.c and its variants with a mutex, a spinlock,
      a read-write lock (threads/) and a semaphore (psem/). ProdCons:
      threads/prod_condvar.c and prod_no_condvar.c. MultiJoin:
      threads/thread_multijoin.c. OneTimeInit: threads/one_time_init.c.
      PthreadBarrier: threads/pthread_barrier_demo.c. In these
      every thread, main() included, is a step function, and the interleavings of
      the steps are a relation; a wait on a condition variable releases the mutex
      and can end without a signal, a given number of times. Strerror: the three
      strerror() of threads/ and their test.
    - Malloc: exercises/07-memory-allocation/malloc.c, a first-fit allocator.
    - FileServer: svmsg/svmsg_file_server.c and svmsg_file_client.c.
    - FifoSeqnum, FifoLive: pipes/fifo_seqnum_server.c and _client.c, one server
      and any number of clients over FIFOs; safety and progress.
    - RecordLocks: filelock/region_locking.c over the kernel's table of record
      locks. PidFile: create_pid_file.c, run by many processes. FcntlLocking:
      i_fcntl_locking.c. InetSockets: sockets/inet_sockets.c. SeqService:
      sockets/is_seqnum_sv.c, is_seqnum_v2_sv.c, their clients and the solution of
      an exercise, on the functions of ReadWrite and InetSockets.
    - Children: the children of a process as the kernel keeps them, and waitpid().
      On it MultiSigchld (procexec/multi_SIGCHLD.c) and SimpleInit
      (namespaces/simple_init.c), with a handler that interrupts main().
    - Listener: a message queue, its one registration for a notification, and the
      class of programs that are notified; MqNotify: the six instances,
      pmsg/mq_notify_{sig,sigwaitinfo,via_signal,siginfo,thread,via_thread}.c.
    - SemInit: svsem/svsem_good_init.c and svsem_bad_init.c, run by many processes.
    - Process: the descriptors, session and terminal of a process, and the calls on
      them as a class with laws. On it Pty (pty/pty_master_open.c and _bsd.c, two
      instances of the class [PtyMaster], and pty_fork.c, proved against that
      class), Relay (pty/script.c, unbuffer.c) and Daemon (daemons/become_daemon.c).
    - Tail (exercises/13-file-io-buffering/tail.c), DirName (dirname-basename.c of
      exercises/31-...), Getcwd (getcwd.c of exercises/18-...), KvServer (kv_server.c
      of exercises/59-...). Copy: the programs that copy (fileio/copy.c,
      filebuff/copy.c, three exercises, sockets/us_xfr*.c, pipes/simple_pipe.c and
      change_case.c) over one loop.
    - Sync: pipes/pipe_sync.c and procexec/fork_sig_sync.c as step relations.
    - Trace: programs whose effect is the sequence of the calls they make. The
      calls are a family indexed by the types of their results, [TraceOS] and
      [TraceSpec] say that a call is recorded and that any of them may fail, and
      the rules run_* and performs_* follow a program. On it SysvIpc (svmsg/, svsem/, svshm/),
      PosixIpc (pmsg/, psem/, pshm/), NsPrograms (namespaces/unshare.c, ns_exec.c,
      ns_run.c, ns_child_exec.c), Launchers (cap/cap_launcher.c,
      namespaces/cred_launcher.c), SmallPrograms (fileio/seek_io.c,
      filesys/t_mount.c, filelock/t_flock.c, procpri/sched_set.c), Datagrams
      (sockets/ud_ucase_*.c, i6d_ucase_*.c).
    - Steps: what the step relations share (invariants, measures, runs, sums over
      the threads, simulation).

    A definition has the name of the C function; the comment before it names
    the file and the lines. A loop body or a part of a long function is a
    definition of its own when lemmas speak of it.

    ** What the theorems show

    - Invariants and safety: the cache of the monitor is well formed whenever
      the program can be observed, however it ends (InotifyMain.cache_invariant);
      in every interleaving, what the reader of the shared memory has written is
      a prefix of what the writer has read (ShmXfr.shm_transfer_safe); the child
      in new namespaces runs only once its parent has set the maps or has failed
      (Userns.child_waits_for_maps); threads with a lock lose no increment
      (ThreadIncr.thread_incr_locked_correct), a function is initialised once
      (OneTimeInit.one_time_init_correct), blocks of memory do not overlap
      (Malloc.malloc_correct), the tracer of seccomp_user_notification.c makes a
      directory for its target only below the prefix it tests
      (Notify.watchForNotifications_correct). Clients of the FIFO server get
      sequences that do not overlap (FifoSeqnum.fifo_seqnum_unique), and so do those
      of the TCP servers (SeqService.seqnum_servers_correct); one process at
      a time holds a PID file (PidFile.pid_file_single), a semaphore is initialised
      before it is used (SemInit.sem_init_correct), no child stays a zombie
      (SimpleInit.simple_init_correct), no thread passes a barrier early
      (PthreadBarrier.barrier_correct), script and unbuffer lose nothing that they relay
      (Relay.relay_programs_correct), the programs that copy lose nothing
      (Copy.copy_programs_correct), mygetcwd() names the directory it started from
      (Getcwd.mygetcwd_correct), the launchers run a command only with the
      credentials that were asked for (Launchers.launchers_correct).
    - Termination and progress: ShmXfr.shm_transfer_ends,
      InotifyProps.process_round_progress, the threads of ThreadIncr, ProdCons,
      MultiJoin, OneTimeInit and PthreadBarrier (every run ends, and none gets stuck
      before main() has ended it), every request to the FIFO server is served
      (FifoLive.fifo_seqnum_served), one of the processes that want a PID file gets
      it (PidFile.pid_file_one_wins), every child is reaped
      (MultiSigchld.multi_SIGCHLD_correct), no signal or end of file on which a
      parent waits is lost (Sync.sync_programs_correct), and in each functional theorem that no
      fuel runs out ([post] with an ending condition that excludes it).
    - Equivalence: each filter with the decision it documents, for every system
      call (Bpf.filters_decide); the walk through a control message with the list
      of its headers (Scm.multi_recv_walk); the message of strerror() per thread
      (Strerror.strerror_threads).
    - The attributes of a process: what ptyFork() and becomeDaemon() make of its
      descriptors, session and terminal (Pty.ptyFork_correct,
      Daemon.becomeDaemon_correct).
    - Functional behaviour of readers, writers, environment, semaphores, option
      parsers and capabilities, errors included; refinement of the buffered line
      reader to the unbuffered specification (ReadWrite.readLineBuf_correct),
      of the key-value server to a map (KvServer.kv_server_correct), of seek_io to
      commands on the contents of a file (SmallPrograms.small_programs_correct),
      of the FIFO server to a counter (FifoSeqnum.fifo_seqnum_refines), of the six
      notified programs to the protocol of Listener (MqNotify.mq_notify_correct).
    - The calls that a command line asks for, in their order, and what is left when
      one of them fails (SysvIpc.sysv_programs_correct,
      PosixIpc.posix_programs_correct, NsPrograms.namespace_programs_correct).
    - Round trips between printing and parsing: numbers, semaphore operations,
      user IDs, timer specifications, permission strings, ACLs, renames; of
      descriptors through a socket, filters through a file, a file through the
      message queue of its server, messages through a datagram server
      (Datagrams.datagram_programs_correct).
    - Behaviour that is not what the program means to do is stated as such
      (Execlp.execlp_overflow, Execlp.execShScript_undefined,
      SemOps.parseOps_truncates, InotifyProps.secondary_read_eintr,
      Userns.broken_options, NsCapable.report_spurious_failure,
      Acl.explicit_mask_lost, Scm.recvfd_leaks, Notify.tracer_one_request,
      ProdCons.prod_condvar_hangs, Malloc.malloc_overflow,
      FifoSeqnum.reused_pid_overlaps, PidFile.unlink_two_instances,
      InetSockets.inetListen_leaks, SimpleInit.init_hangs, init_takes_terminal,
      init_stopped, handler_clobbers_errno and blank_command,
      Relay.unbuffer_no_program, MqNotify.siginfo_long_messages, NsPrograms.unshare_no_child,
      Sync.PipeSync.child_failed, SemInit.bad_init_loses and sem_op_truncated).

    ** Bounds and fuel

    Loops over a structure (a path, an argument list, an array) take their fuel
    from its length, and the theorems have no hypothesis on fuel. Where a loop
    ends only because the system cooperates (retries after a signal, a chain of
    parents), the fuel is an argument, and the theorem says how much is enough:
    more than the number of interruptions, or than the length of the chain.
    The main loop of the monitor runs for ever; its invariant holds for any fuel.

    ** What is not modelled

    getopt() (its results are an argument); the overflow of the byte counters of
    ShmXfr; signals other than as interruptions of calls, where no handler is named
    above; memory exhaustion where the code does not look at it; the contents of the blocks of Malloc.
    Programs that only demonstrate a call of the kernel, and those that print
    what it reports, have no model. What could be added on the existing layers are
    the echo servers of sockets/, daemons/daemon_SIGHUP.c, altio/self_pipe.c and
    threads/thread_cleanup.c. *)
From stdpp Require Export base tactics list numbers strings gmap sets relations.
From Stdlib Require Export Ascii ZArith Lia.

(** * Scopes and notations *)

Declare Scope c_scope.
Delimit Scope c_scope with c.

#[global] Open Scope string_scope.
#[global] Open Scope Z_scope.
#[global] Open Scope nat_scope.
#[global] Open Scope list_scope.

(** A C string or byte buffer is a list of characters; a literal is written
    as a Rocq string and coerced. *)
Abbreviation bytes := (list ascii).
#[global] Coercion String.list_ascii_of_string : string >-> list.
#[global] Arguments String.list_ascii_of_string !s : simpl nomatch.

Notation "'str' s" := (String.list_ascii_of_string s%string)
  (at level 10, s at level 9, only parsing).

(** * How a C computation ends *)

(** [Done a] returns to its caller with [a]; [Exited n] called [exit(n)] or
    [_exit(n)]; [Aborted] was ended by a signal, by [abort()] or by
    the kernel; [Undefined] did something the C
    standard gives no meaning to (an out-of-bounds access, a null
    dereference, a read of an uninitialised variable); [OutOfFuel] is not a
    behaviour of the program, it says that the bound given to a loop of the
    model was too small. *)
Inductive outcome (A : Type) : Type :=
| Done (a : A)
| Exited (status : Z)
| Aborted
| Undefined
| OutOfFuel.
Arguments Done {A} a.
Arguments Exited {A} status.
Arguments Aborted {A}.
Arguments Undefined {A}.
Arguments OutOfFuel {A}.

(** The result of a system call: a value, or -1 with [errno]. *)
Inductive sysres (A : Type) : Type :=
| SOk (a : A)
| SErr (errno : Z).
Arguments SOk {A} a.
Arguments SErr {A} errno.

(** A computation over the state [S] (the program's variables and the part
    of the system it talks to). *)
Definition M (S A : Type) : Type := S -> outcome A * S.

#[export] Instance M_ret {S} : MRet (M S) := fun A a s => (Done a, s).

#[export] Instance M_bind {S} : MBind (M S) := fun A B k m s =>
  match m s with
  | (Done a, s') => k a s'
  | (Exited n, s') => (Exited n, s')
  | (Aborted, s') => (Aborted, s')
  | (Undefined, s') => (Undefined, s')
  | (OutOfFuel, s') => (OutOfFuel, s')
  end.

Section primitives.
Context {S : Type}.
Definition mget : M S S := fun s => (Done s, s).
Definition gets {A} (f : S -> A) : M S A := fun s => (Done (f s), s).
Definition modify (f : S -> S) : M S unit := fun s => (Done tt, f s).
Definition exit_ {A} (n : Z) : M S A := fun s => (Exited n, s).
Definition abort_ {A} : M S A := fun s => (Aborted, s).
Definition undefined {A} : M S A := fun s => (Undefined, s).
Definition no_fuel {A} : M S A := fun s => (OutOfFuel, s).

(** The value of an option that the code dereferences. *)
Definition deref {A} (o : option A) : M S A :=
  match o with Some a => mret a | None => undefined end.

(** [when b m] is [if (b) m;]. *)
Definition when (b : bool) (m : M S unit) : M S unit :=
  if b then m else mret tt.

(** A loop whose body says whether to go round again with new loop
    variables ([inl]) or to leave with a result ([inr]). *)
Fixpoint iter {X R} (fuel : nat) (body : X -> M S (X + R)) (x : X) : M S R :=
  match fuel with
  | O => no_fuel
  | Datatypes.S fuel' =>
      r ← body x;
      match r with
      | inl x' => iter fuel' body x'
      | inr res => mret res
      end
  end.

(** [for (x in l) f(x);] *)
Fixpoint for_each {X} (l : list X) (f : X -> M S unit) : M S unit :=
  match l with
  | [] => mret tt
  | x :: l' => f x;; for_each l' f
  end.
End primitives.

Definition EXIT_SUCCESS : Z := 0.
Definition EXIT_FAILURE : Z := 1.

(** * Monad laws *)

Section laws.
Context {S : Type}.

Lemma mret_bind {A B} (a : A) (k : A -> M S B) s : (mret a ≫= k) s = k a s.
Proof. reflexivity. Qed.

Lemma bind_done {A B} (m : M S A) (k : A -> M S B) s a s' :
  m s = (Done a, s') -> (m ≫= k) s = k a s'.
Proof. intros H. unfold mbind, M_bind. by rewrite H. Qed.

Lemma bind_bind {A B C} (m : M S A) (k : A -> M S B) (k' : B -> M S C) s :
  ((m ≫= k) ≫= k') s = (m ≫= fun a => k a ≫= k') s.
Proof. unfold mbind, M_bind. by destruct (m s) as [[] ?]. Qed.

Lemma bind_ext {A B} (m : M S A) (k1 k2 : A -> M S B) s :
  (forall a s', k1 a s' = k2 a s') -> (m ≫= k1) s = (m ≫= k2) s.
Proof. intros H. unfold mbind, M_bind. destruct (m s) as [[] ?]; auto. Qed.
End laws.

(** * Triples *)

(** [triple P m Q E]: from a state satisfying [P], a normal return of [m]
    satisfies [Q] and any other ending leaves a state satisfying [E].
    Endings are never [OutOfFuel] ... unless [E] is asked to allow it: the
    ending is a parameter of [E]. *)
Inductive ending := EExit (n : Z) | EAbort | EUndef | EFuel.

Definition post {S A} (Q : A -> S -> Prop) (E : ending -> S -> Prop)
    (r : outcome A * S) : Prop :=
  match r with
  | (Done a, s) => Q a s
  | (Exited n, s) => E (EExit n) s
  | (Aborted, s) => E EAbort s
  | (Undefined, s) => E EUndef s
  | (OutOfFuel, s) => E EFuel s
  end.

Definition triple {S A} (P : S -> Prop) (m : M S A) (Q : A -> S -> Prop)
    (E : ending -> S -> Prop) : Prop :=
  forall s, P s -> post Q E (m s).

Create HintDb triple discriminated.

Section triples.
Context {S : Type}.
Implicit Types (P : S -> Prop) (E : ending -> S -> Prop).

Lemma post_mono {A} (Q Q' : A -> S -> Prop) E E' r :
  (forall a s, Q a s -> Q' a s) -> (forall e s, E e s -> E' e s) ->
  post Q E r -> post Q' E' r.
Proof. destruct r as [[] ?]; simpl; eauto. Qed.

Lemma post_bind {A B} (m : M S A) (k : A -> M S B) Q E s :
  post (fun a s' => post Q E (k a s')) E (m s) -> post Q E ((m ≫= k) s).
Proof. unfold mbind, M_bind. destruct (m s) as [[] ?]; simpl; auto. Qed.

Lemma triple_conseq {A} P P' (m : M S A) Q Q' E E' :
  (forall s, P s -> P' s) ->
  (forall a s, Q' a s -> Q a s) -> (forall e s, E' e s -> E e s) ->
  triple P' m Q' E' -> triple P m Q E.
Proof. intros HP HQ HE Hm s Hs. eapply post_mono; eauto. Qed.

Lemma triple_ret {A} P (a : A) E : triple P (mret a) (fun a' s => a' = a /\ P s) E.
Proof. intros s Hs. simpl. auto. Qed.

Lemma triple_bind {A B} P (m : M S A) (k : A -> M S B) R Q E :
  triple P m R E -> (forall a, triple (R a) (k a) Q E) ->
  triple P (m ≫= k) Q E.
Proof.
  intros Hm Hk s Hs. apply post_bind.
  eapply post_mono; [ | | exact (Hm s Hs)]; [|done]. intros a s' Ha. by apply Hk.
Qed.

(** Rules for the invariant form of a triple, where the precondition, the
    postcondition and the condition on endings are one predicate. *)
Definition keeps {A} P (m : M S A) : Prop :=
  triple P m (fun _ => P) (fun _ => P).

Lemma keeps_ret {A} P (a : A) : keeps P (mret a).
Proof. intros s Hs. exact Hs. Qed.

Lemma keeps_bind {A B} P (m : M S A) (k : A -> M S B) :
  keeps P m -> (forall a, keeps P (k a)) -> keeps P (m ≫= k).
Proof. intros Hm Hk. eapply triple_bind; eauto. Qed.

Lemma keeps_exit {A} P n : keeps P (exit_ n : M S A).
Proof. intros s Hs. exact Hs. Qed.
Lemma keeps_abort {A} P : keeps P (abort_ : M S A).
Proof. intros s Hs. exact Hs. Qed.
Lemma keeps_undefined {A} P : keeps P (undefined : M S A).
Proof. intros s Hs. exact Hs. Qed.
Lemma keeps_no_fuel {A} P : keeps P (no_fuel : M S A).
Proof. intros s Hs. exact Hs. Qed.
Lemma keeps_gets {A} P (f : S -> A) : keeps P (gets f).
Proof. intros s Hs. exact Hs. Qed.
Lemma keeps_mget P : keeps P mget.
Proof. intros s Hs. exact Hs. Qed.
Lemma keeps_modify P f : (forall s, P s -> P (f s)) -> keeps P (modify f).
Proof. intros H s Hs. exact (H s Hs). Qed.
Lemma keeps_deref {A} P (o : option A) : keeps P (deref o).
Proof. destruct o; [apply keeps_ret | apply keeps_undefined]. Qed.
Lemma keeps_when P b m : keeps P m -> keeps P (when b m).
Proof. destruct b; [done | intros; apply keeps_ret]. Qed.

Lemma keeps_iter {X R} P fuel (body : X -> M S (X + R)) x :
  (forall y, keeps P (body y)) -> keeps P (iter fuel body x).
Proof.
  intros Hb. revert x. induction fuel as [|fuel IH]; intros x; simpl.
  - apply keeps_no_fuel.
  - apply keeps_bind; [apply Hb|]. intros [x'|r]; [apply IH | apply keeps_ret].
Qed.

Lemma keeps_for_each {X} P (l : list X) f :
  (forall x, keeps P (f x)) -> keeps P (for_each l f).
Proof.
  intros Hf. induction l as [|x l IH]; simpl.
  - apply keeps_ret.
  - apply keeps_bind; auto.
Qed.

Lemma keeps_run {A} P (m : M S A) s : keeps P m -> P s -> P (m s).2.
Proof. intros Hm Hs. specialize (Hm s Hs). by destruct (m s) as [[] ?]. Qed.
End triples.

#[export] Hint Resolve keeps_ret keeps_bind keeps_exit keeps_abort keeps_undefined
  keeps_no_fuel keeps_gets keeps_mget keeps_deref keeps_when keeps_iter
  keeps_for_each : triple.

(** * Loops that return *)

(** If every round either leaves or makes a measure smaller while keeping an
    invariant, the loop returns, for any fuel above the measure. *)
Section loops.
Context {S X R : Type}.
Context (body : X -> M S (X + R)) (Inv : X -> S -> Prop) (meas : X -> S -> nat).
Context (Q : R -> S -> Prop) (E : ending -> S -> Prop).
Context (Hbody : forall x s, Inv x s ->
  post (fun r s' => match r with
                    | inl x' => Inv x' s' /\ meas x' s' < meas x s
                    | inr res => Q res s'
                    end) E (body x s)).

Lemma iter_total fuel x s :
  Inv x s -> meas x s < fuel -> post Q E (iter fuel body x s).
Proof.
  revert x s. induction fuel as [|fuel IH]; intros x s Hinv Hfuel; [lia|].
  simpl. apply post_bind. eapply post_mono; [| |exact (Hbody x s Hinv)]; [|auto].
  intros [x'|res] s'; simpl; [|auto]. intros [Hinv' Hlt]. apply IH; [done|lia].
Qed.
End loops.

(** * Automation *)

(** Case analysis on the first [match] or [if] of the goal. *)
Ltac case_goal :=
  match goal with
  | |- context [ match ?x with _ => _ end ] => destruct x eqn:?
  end.

(** Proves [keeps P m] by following the structure of [m]. *)
Ltac keeps_step :=
  match goal with
  | |- forall _, _ => intros ?
  | |- keeps _ (mret _) => apply keeps_ret
  | |- keeps _ (mbind _ _) => apply keeps_bind
  | |- keeps _ (exit_ _) => apply keeps_exit
  | |- keeps _ abort_ => apply keeps_abort
  | |- keeps _ undefined => apply keeps_undefined
  | |- keeps _ no_fuel => apply keeps_no_fuel
  | |- keeps _ (gets _) => apply keeps_gets
  | |- keeps _ mget => apply keeps_mget
  | |- keeps _ (deref _) => apply keeps_deref
  | |- keeps _ (when _ _) => apply keeps_when
  | |- keeps _ (iter _ _ _) => apply keeps_iter
  | |- keeps _ (for_each _ _) => apply keeps_for_each
  | |- keeps _ (match ?x with _ => _ end) => destruct x
  | |- keeps _ _ => solve [eauto with triple nocore]
  end.
Ltac keeps_tac := repeat keeps_step.

(** Exposes the state passing of a computation. *)
Ltac munfold :=
  cbv beta iota zeta delta [mbind M_bind mret M_ret modify gets mget exit_ abort_
    undefined no_fuel deref when].

(** * Lists *)

Section lists.
Context {A : Type}.

Lemma take_snoc (l : list A) n x : l !! n = Some x -> take (S n) l = take n l ++ [x].
Proof. intros H. by erewrite take_S_r. Qed.

Lemma drop_lookup_cons (l : list A) n x :
  l !! n = Some x -> drop n l = x :: drop (S n) l.
Proof. intros H. by rewrite (drop_S l x n). Qed.

(** The element at, and after, the end of a prefix. *)
Lemma lookup_app_next (pre l : list A) x y :
  (pre ++ x :: y :: l) !! S (length pre) = Some y.
Proof. by rewrite lookup_app_r, Nat.sub_succ_l, Nat.sub_diag by lia. Qed.
Lemma insert_app_mid (pre l : list A) x y :
  <[length pre := y]> (pre ++ x :: l) = pre ++ y :: l.
Proof. by rewrite insert_app_r_alt, Nat.sub_diag by lia. Qed.
End lists.

(** * Sets *)

Lemma union_singleton_minus (x : Z) (X : gset Z) : x ∉ X -> ({[ x ]} ∪ X) ∖ {[ x ]} = X.
Proof. set_solver. Qed.
