(* ===== verification/CLib.v ===== *)
(** The fragment of C and of its standard library that the modelled sources
    use: fixed-width integers, character classes, <string.h> searches,
    bounded formatting, decimal output and [strtol]. *)
From S2P Require Import Prelude.
#[local] Open Scope Z_scope.

(** * Fixed-width integers *)

Definition wrap_u (w : Z) (z : Z) : Z := z mod 2 ^ w.
Definition wrap_s (w : Z) (z : Z) : Z :=
  let m := z mod 2 ^ w in if m <? 2 ^ (w - 1) then m else m - 2 ^ w.

Definition u8 := wrap_u 8.
Definition u16 := wrap_u 16.
Definition u32 := wrap_u 32.
Definition i16 := wrap_s 16.
Definition i32 := wrap_s 32.

Definition INT_MAX : Z := 2147483647.
Definition INT_MIN : Z := -2147483648.
Definition LONG_MAX : Z := 9223372036854775807.
Definition LONG_MIN : Z := -9223372036854775808.

(** [x & mask], as a C condition. *)
Definition has_bits (x mask : Z) : bool := negb (Z.land x mask =? 0).

Lemma wrap_s_id w z : 0 < w -> - 2 ^ (w - 1) <= z < 2 ^ (w - 1) -> wrap_s w z = z.
Proof.
  intros Hw Hz. unfold wrap_s.
  assert (Hp : 2 ^ w = 2 * 2 ^ (w - 1)).
  { rewrite <- Z.pow_succ_r by lia. f_equal. lia. }
  destruct (Z.ltb_spec z 0).
  - replace (z mod 2 ^ w) with (z + 2 ^ w).
    + destruct (Z.ltb_spec (z + 2 ^ w) (2 ^ (w - 1))); lia.
    + apply Z.mod_unique with (-1); lia.
  - rewrite Z.mod_small by lia. destruct (Z.ltb_spec z (2 ^ (w - 1))); lia.
Qed.

Lemma i32_id z : INT_MIN <= z <= INT_MAX -> i32 z = z.
Proof. unfold INT_MIN, INT_MAX. intros. apply wrap_s_id; [lia|]. simpl. lia. Qed.

Lemma i32_range z : INT_MIN <= i32 z <= INT_MAX.
Proof.
  unfold i32, wrap_s, INT_MIN, INT_MAX. pose proof (Z.mod_pos_bound z (2 ^ 32) ltac:(done)).
  change (2 ^ (32 - 1)) with 2147483648. change (2 ^ 32) with 4294967296 in *.
  destruct (Z.ltb_spec (z mod 4294967296) 2147483648); lia.
Qed.
Lemma u32_range z : 0 <= u32 z < 2 ^ 32.
Proof. apply Z.mod_pos_bound. done. Qed.

Lemma i16_id z : -32768 <= z <= 32767 -> i16 z = z.
Proof. intros. apply wrap_s_id; [lia|]. simpl. lia. Qed.

Lemma u16_id z : 0 <= z < 65536 -> u16 z = z.
Proof. intros. apply Z.mod_small. simpl. lia. Qed.

(** * Characters *)

Definition chr (n : nat) : ascii := ascii_of_nat n.
Definition code (c : ascii) : Z := Z.of_nat (nat_of_ascii c).
Definition newline : ascii := "010"%char.
Definition NUL : ascii := "000"%char.

Definition isdigit (c : ascii) : bool := (48 <=? code c) && (code c <=? 57).
Definition isupper (c : ascii) : bool := (65 <=? code c) && (code c <=? 90).
Definition islower (c : ascii) : bool := (97 <=? code c) && (code c <=? 122).
Definition toupper (c : ascii) : ascii := if islower c then chr (Z.to_nat (code c - 32)) else c.
Definition isalnum (c : ascii) : bool := isdigit c || isupper c || islower c.
Definition isprint (c : ascii) : bool := (32 <=? code c) && (code c <=? 126).
(** space, \t, \n, \v, \f, \r *)
Definition isspace (c : ascii) : bool :=
  (code c =? 32) || ((9 <=? code c) && (code c <=? 13)).

Definition ceq (a b : ascii) : bool := bool_decide (a = b).

(** Case analysis on the letter [c] in [if ceq c x then _ else _]. *)
Lemma ceq_spec a b : reflect (a = b) (ceq a b).
Proof. unfold ceq. case_bool_decide; by constructor. Qed.
(** Evaluates the comparisons of two given letters. *)
Ltac ceq_eval :=
  repeat match goal with
  | |- context [ceq (Ascii ?a ?b ?c ?d ?e ?f ?g ?h) (Ascii ?a' ?b' ?c' ?d' ?e' ?f' ?g' ?h')] =>
      let x := constr:(ceq (Ascii a b c d e f g h) (Ascii a' b' c' d' e' f' g' h')) in
      let v := eval vm_compute in x in change x with v
  end.

(** * <string.h> *)

(** A C string is the list of its characters before the terminating null. *)
Definition cstring (buf : bytes) : bytes :=
  (fix go l := match l with
               | [] => []
               | c :: l' => if ceq c NUL then [] else c :: go l'
               end) buf.

Lemma cstring_id buf : NUL ∉ buf -> cstring buf = buf.
Proof.
  unfold cstring. induction buf as [|c buf IH]; [done|]. rewrite not_elem_of_cons. intros [Hc Hb].
  destruct (ceq_spec c NUL); [congruence|]. f_equal. by apply IH.
Qed.

Definition strlen (s : bytes) : nat := length s.
Definition streq (s t : bytes) : bool := bool_decide (s = t).
(** [strncmp(s, t, n) == 0] *)
Definition strneq (s t : bytes) (n : nat) : bool := bool_decide (take n s = take n t).

(** [strchr(s, c)], as an index; the terminating null is part of the string. *)
Fixpoint index_of (c : ascii) (s : bytes) : option nat :=
  match s with
  | [] => None
  | d :: s' => if ceq d c then Some O else S <$> index_of c s'
  end.
Definition strchr (s : bytes) (c : ascii) : option nat :=
  if ceq c NUL then Some (strlen s) else index_of c s.

(** [s[i]] for [i <= strlen(s)]. *)
Definition char_at (s : bytes) (i : nat) : ascii := default NUL (s !! i).

(** What [snprintf(buf, size, "%s", s)] leaves in [buf], and its result. *)
Definition snprintf (size : nat) (s : bytes) : bytes := take (size - 1) s.

(** [strncpy(dst, src, n)] into a buffer of [n] bytes: the string that
    [dst] then holds when [src] fits. *)
Definition strncpy (src : bytes) (n : nat) : bytes := take n src.

Lemma index_of_Some c s n :
  index_of c s = Some n -> s !! n = Some c /\ c ∉ take n s.
Proof.
  revert n. induction s as [|d s IH]; intros n H; simpl in H; [done|].
  unfold ceq in H. case_bool_decide as Hd.
  - simplify_eq. simpl. split; [done|]. apply not_elem_of_nil.
  - destruct (index_of c s) as [m|] eqn:Hm; simplify_eq/=.
    destruct (IH m eq_refl) as [? ?]. split; [done|].
    rewrite not_elem_of_cons. split; [congruence|done].
Qed.

Lemma index_of_None c s : index_of c s = None <-> c ∉ s.
Proof.
  induction s as [|d s IH]; simpl.
  - split; [intros _; apply not_elem_of_nil|done].
  - rewrite not_elem_of_cons. unfold ceq. case_bool_decide as Hd.
    + split; [done|]. intros [? ?]. congruence.
    + rewrite fmap_None, IH. split; [|tauto]. intros. split; [congruence|done].
Qed.

Lemma index_of_app c s1 s2 : c ∉ s1 -> index_of c (s1 ++ c :: s2) = Some (length s1).
Proof.
  induction s1 as [|d s IH]; simpl; intros H; unfold ceq.
  - by rewrite bool_decide_eq_true_2.
  - rewrite not_elem_of_cons in H. destruct H as [Hd Hs].
    rewrite bool_decide_eq_false_2 by congruence. by rewrite IH.
Qed.

(** Cutting a text at the separator, and what follows it. *)
Lemma strchr_sep c (a b : bytes) : ceq c NUL = false -> c ∉ a ->
  strchr (a ++ c :: b) c = Some (length a).
Proof. intros Hn Ha. unfold strchr. rewrite Hn. by apply index_of_app. Qed.
Lemma strchr_absent c (a : bytes) : ceq c NUL = false -> c ∉ a -> strchr a c = None.
Proof. intros Hn Ha. unfold strchr. rewrite Hn. by apply index_of_None. Qed.
Lemma drop_sep c (a b : bytes) : drop (S (length a)) (a ++ c :: b) = b.
Proof. by rewrite cons_middle, app_assoc, drop_app_length' by (rewrite length_app; simpl; lia). Qed.
Lemma strneq_prefix s t : strneq s t (strlen s) = true <-> s `prefix_of` t.
Proof.
  unfold strneq, strlen. rewrite bool_decide_eq_true, take_ge by lia. split.
  - intros H. exists (drop (length s) t). rewrite H at 1.
    by rewrite take_drop.
  - intros [k ->]. by rewrite take_app_length.
Qed.

(** * Decimal output: printf("%d") and printf("%ld") *)

Definition digit_char (d : Z) : ascii := chr (Z.to_nat (48 + d)).

(** The digits of [n >= 0], most significant first; [fuel] bounds how many. *)
Fixpoint dec_digits (fuel : nat) (n : Z) : bytes :=
  match fuel with
  | O => []
  | S fuel' =>
      if n <? 10 then [digit_char n]
      else dec_digits fuel' (n / 10) ++ [digit_char (n mod 10)]
  end.

(** A number of [k] bits has at most [k + 1] decimal digits. *)
Definition print_nonneg (n : Z) : bytes := dec_digits (S (Z.to_nat (Z.log2 n))) n.
Definition print_dec (z : Z) : bytes :=
  if z <? 0 then "-"%char :: print_nonneg (- z) else print_nonneg z.

(** * strtol and atoi *)

(** The value of a digit in bases up to 36. *)
Definition digit_val (c : ascii) : option Z :=
  if isdigit c then Some (code c - 48)
  else if islower c then Some (code c - 97 + 10)
  else if isupper c then Some (code c - 65 + 10)
  else None.
Definition digit_in (base : Z) (c : ascii) : option Z :=
  match digit_val c with
  | Some d => if d <? base then Some d else None
  | None => None
  end.

(** Accumulates digits; gives the value, whether there was any, and the rest. *)
Fixpoint scan_digits (base acc : Z) (any : bool) (s : bytes) : Z * bool * bytes :=
  match s with
  | c :: s' =>
      match digit_in base c with
      | Some d => scan_digits base (acc * base + d) true s'
      | None => (acc, any, s)
      end
  | [] => (acc, any, s)
  end.

Fixpoint skip_space (s : bytes) : bytes :=
  match s with
  | c :: s' => if isspace c then skip_space s' else s
  | [] => []
  end.

Definition scan_sign (s : bytes) : bool * bytes :=
  match s with
  | c :: s' => if ceq c "-" then (true, s') else if ceq c "+" then (false, s') else (false, s)
  | [] => (false, s)
  end.

(** "0x" or "0X" followed by a hexadecimal digit. *)
Definition hex_prefix (s : bytes) : option bytes :=
  match s with
  | z :: x :: s' =>
      if ceq z "0" && (ceq x "x" || ceq x "X") then
        match s' with
        | d :: _ => match digit_in 16 d with Some _ => Some s' | None => None end
        | [] => None
        end
      else None
  | _ => None
  end.

(** The base that [strtol] uses for base argument [b], and the text left
    once the base's prefix is dropped. *)
Definition scan_base (b : Z) (s : bytes) : Z * bytes :=
  match hex_prefix s with
  | Some s' => if (b =? 0) || (b =? 16) then (16, s')
               else (b, s)
  | None => if b =? 0 then
              match s with
              | c :: _ => if ceq c "0" then (8, s) else (10, s)
              | [] => (10, s)
              end
            else (b, s)
  end.

Record strtol_result := StrtolResult {
  sl_value : Z;
  sl_endptr : bytes;          (* the text at [*endptr] *)
  sl_erange : bool            (* [errno] was set to ERANGE *)
}.

Definition clamp_long (v : Z) : Z * bool :=
  if v >? LONG_MAX then (LONG_MAX, true)
  else if v <? LONG_MIN then (LONG_MIN, true)
  else (v, false).

Definition strtol (s : bytes) (base : Z) : strtol_result :=
  let '(neg, s1) := scan_sign (skip_space s) in
  let '(b, s2) := scan_base base s1 in
  let '(v, any, rest) := scan_digits b 0 false s2 in
  if (any : bool) then
    let '(v', r) := clamp_long (if (neg : bool) then - v else v) in
    StrtolResult v' rest r
  else StrtolResult 0 s false.

(** glibc: [atoi(s)] is [(int) strtol(s, NULL, 10)]. *)
Definition atoi (s : bytes) : Z := i32 (sl_value (strtol s 10)).

(** * Reading back what was printed *)

Lemma code_chr n : (n < 256)%nat -> code (chr n) = Z.of_nat n.
Proof. intros. unfold code, chr. by rewrite nat_ascii_embedding. Qed.

Lemma code_digit_char d : 0 <= d < 10 -> code (digit_char d) = 48 + d.
Proof. intros. unfold digit_char. rewrite code_chr by lia. lia. Qed.

Lemma isdigit_digit_char d : 0 <= d < 10 -> isdigit (digit_char d) = true.
Proof. intros. unfold isdigit. rewrite code_digit_char by done. lia. Qed.

Lemma digit_in_digit_char d : 0 <= d < 10 -> digit_in 10 (digit_char d) = Some d.
Proof.
  intros. unfold digit_in, digit_val. rewrite isdigit_digit_char by done.
  rewrite code_digit_char by done.
  replace (48 + d - 48) with d by lia. by rewrite (proj2 (Z.ltb_lt d 10)) by lia.
Qed.

Lemma isdigit_digit_in c : isdigit c = true -> exists d, digit_in 10 c = Some d.
Proof.
  intros H. unfold digit_in, digit_val. rewrite H. unfold isdigit in H.
  destruct (Z.ltb_spec (code c - 48) 10); [eauto|lia].
Qed.

Lemma isdigit_not_space c : isdigit c = true -> isspace c = false.
Proof. unfold isdigit, isspace. lia. Qed.

Lemma isdigit_not_sign c : isdigit c = true -> ceq c "-" = false /\ ceq c "+" = false.
Proof.
  unfold isdigit, ceq. intros H.
  split; apply bool_decide_eq_false_2; intros ->; vm_compute in H; done.
Qed.

Lemma scan_digits_app base acc any ds rest :
  Forall (fun c => exists d, digit_in base c = Some d) ds ->
  scan_digits base acc any (ds ++ rest) =
  scan_digits base (scan_digits base acc any ds).1.1
              (scan_digits base acc any ds).1.2 rest.
Proof.
  intros H. revert acc any. induction H as [|c ds [d Hd] _ IH]; intros; simpl; [done|].
  rewrite Hd. apply IH.
Qed.

Lemma dec_digits_ok fuel n :
  0 <= n < 10 ^ Z.of_nat fuel -> (0 < fuel)%nat ->
  Forall (fun c => isdigit c = true) (dec_digits fuel n) /\
  dec_digits fuel n <> [] /\
  (forall any, exists b, scan_digits 10 0 any (dec_digits fuel n) = (n, b, []) /\ b = true).
Proof.
  revert n. induction fuel as [|fuel IH]; intros n Hn Hf; [lia|]. simpl.
  destruct (Z.ltb_spec n 10) as [Hlt|Hge].
  - split_and!; [constructor; [apply isdigit_digit_char; lia|done]|done|].
    intros any. simpl. rewrite digit_in_digit_char by lia. eexists. split; [|done].
    do 2 f_equal; lia.
  - assert (Hfuel : (0 < fuel)%nat).
    { destruct fuel; [simpl in Hn; lia|lia]. }
    assert (Hdiv : 0 <= n / 10 < 10 ^ Z.of_nat fuel).
    { split; [apply Z.div_pos; lia|]. apply Z.div_lt_upper_bound; [lia|].
      rewrite <- Z.pow_succ_r by lia. rewrite <- Nat2Z.inj_succ. lia. }
    pose proof (Z.mod_pos_bound n 10 ltac:(lia)) as Hmod.
    destruct (IH _ Hdiv Hfuel) as (Hall & Hne & Hscan). split_and!.
    + apply Forall_app. split; [done|]. constructor; [by apply isdigit_digit_char|done].
    + by destruct (dec_digits fuel (n / 10)).
    + intros any. rewrite scan_digits_app.
      2:{ eapply Forall_impl; [exact Hall|]. simpl. intros. by apply isdigit_digit_in. }
      destruct (Hscan any) as (b & -> & ->). simpl.
      rewrite digit_in_digit_char by done. eexists. split; [|done].
      pose proof (Z.div_mod n 10 ltac:(lia)). do 2 f_equal; lia.
Qed.

Lemma print_nonneg_bound n : 0 <= n -> n < 10 ^ Z.of_nat (S (Z.to_nat (Z.log2 n))).
Proof.
  intros Hn. destruct (decide (n = 0)) as [->|Hne]; [done|].
  pose proof (Z.log2_spec n ltac:(lia)) as [_ Hlt].
  pose proof (Z.log2_nonneg n).
  rewrite Nat2Z.inj_succ, Z2Nat.id by done.
  eapply Z.lt_le_trans; [exact Hlt|]. apply Z.pow_le_mono_l. lia.
Qed.

Lemma print_nonneg_digits n :
  0 <= n -> Forall (fun c => isdigit c = true) (print_nonneg n).
Proof. intros. apply dec_digits_ok; [|lia]. split; [done|by apply print_nonneg_bound]. Qed.

Lemma print_nonneg_head n :
  0 <= n -> exists c l, print_nonneg n = c :: l /\ isdigit c = true.
Proof.
  intros Hn. pose proof (print_nonneg_digits n Hn) as H.
  assert (Hne : print_nonneg n <> []).
  { apply dec_digits_ok; [|lia]. split; [done|by apply print_nonneg_bound]. }
  destruct (print_nonneg n) as [|c l]; [done|]. exists c, l. split; [done|].
  by inversion H.
Qed.

(** The characters that stop a decimal number. *)
Definition stops_number (rest : bytes) : Prop :=
  match rest with [] => True | c :: _ => isdigit c = false end.

Lemma digit_in_10_None c : isdigit c = false -> digit_in 10 c = None.
Proof.
  intros H. unfold digit_in, digit_val. rewrite H.
  destruct (islower c) eqn:Hl; [|destruct (isupper c) eqn:Hu; [|done]].
  - unfold islower in Hl. destruct (Z.ltb_spec (code c - 97 + 10) 10); [lia|done].
  - unfold isupper in Hu. destruct (Z.ltb_spec (code c - 65 + 10) 10); [lia|done].
Qed.

Lemma scan_digits_stop acc any rest :
  stops_number rest -> scan_digits 10 acc any rest = (acc, any, rest).
Proof.
  destruct rest as [|c rest]; simpl; [done|]. intros H. by rewrite digit_in_10_None.
Qed.

Lemma scan_print n any rest :
  0 <= n -> stops_number rest ->
  scan_digits 10 0 any (print_nonneg n ++ rest) = (n, true, rest).
Proof.
  intros Hn Hr.
  assert (Hb : 0 <= n < 10 ^ Z.of_nat (S (Z.to_nat (Z.log2 n)))).
  { split; [done|by apply print_nonneg_bound]. }
  destruct (dec_digits_ok _ _ Hb ltac:(lia)) as (Hall & _ & Hscan).
  destruct (Hscan any) as (b & Hs & ->). unfold print_nonneg.
  rewrite scan_digits_app.
  2:{ eapply Forall_impl; [exact Hall|]. simpl. intros. by apply isdigit_digit_in. }
  rewrite Hs. simpl. by apply scan_digits_stop.
Qed.

Lemma scan_base_10 s : scan_base 10 s = (10, s).
Proof. unfold scan_base. by destruct (hex_prefix s). Qed.

Lemma clamp_long_id v : LONG_MIN <= v <= LONG_MAX -> clamp_long v = (v, false).
Proof.
  intros. unfold clamp_long. destruct (Z.gtb_spec v LONG_MAX); [lia|].
  destruct (Z.ltb_spec v LONG_MIN); [lia|done].
Qed.

(** [strtol] reads back what [printf("%ld")] wrote. *)
Lemma strtol_print z rest :
  LONG_MIN <= z <= LONG_MAX -> stops_number rest ->
  strtol (print_dec z ++ rest) 10 = StrtolResult z rest false.
Proof.
  intros Hz Hr. unfold strtol, print_dec. destruct (Z.ltb_spec z 0) as [Hneg|Hpos].
  - change (("-"%char :: print_nonneg (- z)) ++ rest)
      with ("-"%char :: (print_nonneg (- z) ++ rest)).
    change (skip_space ("-"%char :: (print_nonneg (- z) ++ rest)))
      with ("-"%char :: (print_nonneg (- z) ++ rest)).
    change (scan_sign ("-"%char :: (print_nonneg (- z) ++ rest)))
      with (true, print_nonneg (- z) ++ rest).
    cbv iota beta zeta. rewrite scan_base_10, scan_print by (lia || done).
    rewrite clamp_long_id by lia. by rewrite Z.opp_involutive.
  - destruct (print_nonneg_head z Hpos) as (c & l & Hcl & Hc).
    assert (skip_space (print_nonneg z ++ rest) = print_nonneg z ++ rest) as ->.
    { rewrite Hcl. simpl. by rewrite isdigit_not_space. }
    assert (scan_sign (print_nonneg z ++ rest) = (false, print_nonneg z ++ rest)) as ->.
    { rewrite Hcl. simpl. by destruct (isdigit_not_sign c Hc) as [-> ->]. }
    cbv iota beta zeta. rewrite scan_base_10, scan_print by (lia || done).
    by rewrite clamp_long_id by lia.
Qed.

Lemma atoi_print z rest :
  INT_MIN <= z <= INT_MAX -> stops_number rest -> atoi (print_dec z ++ rest) = z.
Proof.
  intros Hz Hr. unfold atoi. rewrite strtol_print; [|unfold INT_MIN, INT_MAX, LONG_MIN, LONG_MAX in *; lia|done].
  by apply i32_id.
Qed.

(** [strtol] stays within the range of a long. *)
Lemma strtol_range s base : LONG_MIN <= sl_value (strtol s base) <= LONG_MAX.
Proof.
  unfold strtol. destruct (scan_sign _) as [neg s1]. destruct (scan_base _ _) as [b s2].
  destruct (scan_digits _ _ _ _) as [[v []] rest]; [|simpl; unfold LONG_MIN, LONG_MAX; lia].
  unfold clamp_long. set (x := if neg then - v else v).
  destruct (Z.gtb_spec x LONG_MAX); [simpl; unfold LONG_MIN, LONG_MAX; lia|].
  destruct (Z.ltb_spec x LONG_MIN); simpl; unfold LONG_MIN, LONG_MAX in *; lia.
Qed.

Example strtol_dec : strtol " -42abc" 10 = StrtolResult (-42) "abc" false.
Proof. reflexivity. Qed.
Example strtol_hex : strtol "0x1fZ" 0 = StrtolResult 31 "Z" false.
Proof. reflexivity. Qed.
Example strtol_oct : strtol "0755" 0 = StrtolResult 493 "" false.
Proof. reflexivity. Qed.
Example strtol_none : strtol "abc" 10 = StrtolResult 0 "abc" false.
Proof. reflexivity. Qed.
Example print_dec_ex : print_dec (-1024) = String.list_ascii_of_string "-1024".
Proof. reflexivity. Qed.
