(* ===== verification/Sys.v ===== *)
(** The process and system interfaces the modelled programs share: the C
    library's per-process state (errno, environment, stdio buffers) as a lens
    of the program's state, and the read and write system calls as classes
    with the laws their callers rely on. *)
From S2P Require Import Prelude CLib.
#[local] Open Scope Z_scope.

(** * errno values (Linux) *)

Definition EPERM : Z := 1.
Definition ENOENT : Z := 2.
Definition EINTR : Z := 4.
Definition ENOEXEC : Z := 8.
Definition EBADF : Z := 9.
Definition ECHILD : Z := 10.
Definition EAGAIN : Z := 11.
Definition ENOMEM : Z := 12.
Definition EACCES : Z := 13.
Definition EEXIST : Z := 17.
Definition EINVAL : Z := 22.

(** * The C library's state *)

Inductive stream := Stdout | Stderr.

#[export] Instance stream_eq_dec : EqDecision stream.
Proof. solve_decision. Defined.

(** [lc_pending] is what has been written to [stdout] and not yet flushed;
    [lc_out] is what left the process, in order. [stderr] is unbuffered. *)
Record libc := Libc {
  lc_errno : Z;
  lc_environ : list bytes;
  lc_pending : bytes;
  lc_out : list (stream * bytes)
}.

Definition libc0 : libc := Libc 0 [] [] [].

Class HasLibc (S : Type) := {
  libc_of : S -> libc;
  set_libc : libc -> S -> S;
  libc_of_set : forall l s, libc_of (set_libc l s) = l;
  set_libc_of : forall s, set_libc (libc_of s) s = s;
  set_libc_set : forall l l' s, set_libc l (set_libc l' s) = set_libc l s
}.

#[export, refine] Instance libc_has_libc : HasLibc libc :=
  {| libc_of l := l; set_libc l _ := l |}.
Proof. all: done. Defined.

#[export, refine] Instance pair_has_libc {W} : HasLibc (libc * W) :=
  {| libc_of := fst; set_libc l s := (l, snd s) |}.
Proof. all: by intros; repeat match goal with s : _ * _ |- _ => destruct s end. Defined.

Section libc.
Context {S : Type} `{HasLibc S}.

Definition get_errno : M S Z := gets (fun s => lc_errno (libc_of s)).
Definition set_errno (e : Z) : M S unit :=
  modify (fun s => let l := libc_of s in
    set_libc (Libc e (lc_environ l) (lc_pending l) (lc_out l)) s).

(** printf: [stdout] is buffered. *)
Definition printf (txt : bytes) : M S unit :=
  modify (fun s => let l := libc_of s in
    set_libc (Libc (lc_errno l) (lc_environ l) (lc_pending l ++ txt) (lc_out l)) s).

(** fflush(stdout) *)
Definition fflush_stdout : M S unit :=
  modify (fun s => let l := libc_of s in
    set_libc (Libc (lc_errno l) (lc_environ l) []
                   (if lc_pending l is [] then lc_out l
                    else lc_out l ++ [(Stdout, lc_pending l)])) s).

(** fprintf(stderr, ...) *)
Definition eprintf (txt : bytes) : M S unit :=
  modify (fun s => let l := libc_of s in
    set_libc (Libc (lc_errno l) (lc_environ l) (lc_pending l)
                   (lc_out l ++ [(Stderr, txt)])) s).

(** exit(3) flushes stdio, _exit(2) does not. *)
Definition c_exit {A} (n : Z) : M S A := fflush_stdout;; exit_ n.
Definition c__exit {A} (n : Z) : M S A := exit_ n.

(** getenv(3): the value of the first entry "name=value". *)
Definition env_match (name entry : bytes) : bool :=
  strneq entry name (strlen name) && ceq (char_at entry (strlen name)) "=".
Fixpoint env_lookup (name : bytes) (env : list bytes) : option bytes :=
  match env with
  | [] => None
  | e :: env' => if env_match name e then Some (drop (Datatypes.S (strlen name)) e)
                 else env_lookup name env'
  end.
Definition getenv (name : bytes) : M S (option bytes) :=
  gets (fun s => env_lookup name (lc_environ (libc_of s))).
End libc.

(** * read(2) *)

(** The system call: up to [n] bytes from a descriptor. *)
Class ReadOS (S : Type) := sys_read : Z -> nat -> M S (sysres bytes).

(** What its callers rely on: a read returns a nonempty prefix of what is
    still to come on the descriptor unless that is empty (end of file); a
    failed read consumes nothing; only finitely many reads are interrupted
    by a signal handler. *)
Class ReadSpec (S : Type) `{ReadOS S} := {
  input : S -> Z -> bytes;
  signals : S -> nat;
  read_spec : forall fd n s, (0 < n)%nat ->
    post (fun r s' =>
      match r with
      | SOk bs => (length bs <= n)%nat /\ input s fd = bs ++ input s' fd /\
                  (bs = [] -> input s fd = []) /\ (signals s' <= signals s)%nat
      | SErr e => input s' fd = input s fd /\ (signals s' <= signals s)%nat /\
                  (e = EINTR -> (signals s' < signals s)%nat)
      end) (fun _ _ => False) (sys_read fd n s)
}.

(** * write(2) *)

Class WriteOS (S : Type) := sys_write : Z -> bytes -> M S (sysres nat).

(** A write transfers a prefix of the buffer, and says how long it is. *)
Class WriteSpec (S : Type) `{WriteOS S} := {
  output : S -> Z -> bytes;
  wsignals : S -> nat;
  write_spec : forall fd bs s, bs <> [] ->
    post (fun r s' =>
      match r with
      | SOk k => (k <= length bs)%nat /\ output s' fd = output s fd ++ take k bs /\
                 (wsignals s' <= wsignals s)%nat
      | SErr e => output s' fd = output s fd /\ (wsignals s' <= wsignals s)%nat /\
                  (e = EINTR -> (wsignals s' < wsignals s)%nat)
      end) (fun _ _ => False) (sys_write fd bs s)
}.

(** * A scripted system *)

(** An implementation of both interfaces, used to run the programs: one
    input stream, one output stream, and a script that says for each call
    how many bytes it may transfer or which error it fails with. *)
#[local] Arguments Nat.min : simpl never.

Inductive event := Xfer (n : nat) | Fail (e : Z).

Record script := Script {
  sc_in : bytes;
  sc_out : bytes;
  sc_events : list event
}.

Definition next_event (s : script) : event * script :=
  match sc_events s with
  | [] => (Xfer 1000, s)
  | e :: es => (e, Script (sc_in s) (sc_out s) es)
  end.

#[export] Instance script_read : ReadOS script := fun _ n s =>
  match next_event s with
  | (Xfer k, s') =>
      let m := Nat.min n (Nat.max 1 k) in
      (Done (SOk (take m (sc_in s'))),
       Script (drop m (sc_in s')) (sc_out s') (sc_events s'))
  | (Fail e, s') => (Done (SErr e), s')
  end.

#[export] Instance script_write : WriteOS script := fun _ bs s =>
  match next_event s with
  | (Xfer k, s') =>
      let m := Nat.min k (length bs) in
      (Done (SOk m), Script (sc_in s') (sc_out s' ++ take m bs) (sc_events s'))
  | (Fail e, s') => (Done (SErr e), s')
  end.

#[export, refine] Instance script_read_spec : ReadSpec script :=
  {| input s _ := sc_in s; signals s := length (sc_events s) |}.
Proof.
  intros fd n [inp out evs] Hn. unfold sys_read, script_read, next_event. simpl.
  destruct evs as [|[k|e] evs]; simpl.
  - rewrite take_drop. split_and!; [rewrite length_take; lia|done| |lia].
    intros H. destruct inp; [done|]. destruct (n `min` 1000)%nat eqn:Hm; [lia|done].
  - rewrite take_drop. split_and!; [rewrite length_take; lia|done| |lia].
    intros H. destruct inp; [done|]. destruct (n `min` (1 `max` k))%nat eqn:Hm; [lia|done].
  - split_and!; [done|lia|lia].
Defined.

#[export, refine] Instance script_write_spec : WriteSpec script :=
  {| output s _ := sc_out s; wsignals s := length (sc_events s) |}.
Proof.
  intros fd bs [inp out evs] Hbs. unfold sys_write, script_write, next_event. simpl.
  destruct evs as [|[k|e] evs]; simpl; split_and!; (done || lia).
Defined.
