(* ===== verification/ErrorFunctions.v ===== *)
(** book-src/lib/error_functions.c: the diagnostic and termination functions
    every program of the repository calls, with the table of ename.c.inc. *)
From S2P Require Import Prelude CLib Sys.
#[local] Open Scope Z_scope.


(** * ename.c.inc *)

(** Source: book-src/lib/ename.c.inc:1-33 (ename). *)
Definition ename : list bytes := [
   []; str "EPERM"; str "ENOENT"; str "ESRCH"; str "EINTR"; str "EIO";
   str "ENXIO"; str "E2BIG"; str "ENOEXEC"; str "EBADF"; str "ECHILD"; str "EAGAIN/EWOULDBLOCK";
   str "ENOMEM"; str "EACCES"; str "EFAULT"; str "ENOTBLK"; str "EBUSY"; str "EEXIST";
   str "EXDEV"; str "ENODEV"; str "ENOTDIR"; str "EISDIR"; str "EINVAL"; str "ENFILE";
   str "EMFILE"; str "ENOTTY"; str "ETXTBSY"; str "EFBIG"; str "ENOSPC"; str "ESPIPE";
   str "EROFS"; str "EMLINK"; str "EPIPE"; str "EDOM"; str "ERANGE"; str "EDEADLK/EDEADLOCK";
   str "ENAMETOOLONG"; str "ENOLCK"; str "ENOSYS"; str "ENOTEMPTY"; str "ELOOP"; [];
   str "ENOMSG"; str "EIDRM"; str "ECHRNG"; str "EL2NSYNC"; str "EL3HLT"; str "EL3RST";
   str "ELNRNG"; str "EUNATCH"; str "ENOCSI"; str "EL2HLT"; str "EBADE"; str "EBADR";
   str "EXFULL"; str "ENOANO"; str "EBADRQC"; str "EBADSLT"; []; str "EBFONT";
   str "ENOSTR"; str "ENODATA"; str "ETIME"; str "ENOSR"; str "ENONET"; str "ENOPKG";
   str "EREMOTE"; str "ENOLINK"; str "EADV"; str "ESRMNT"; str "ECOMM"; str "EPROTO";
   str "EMULTIHOP"; str "EDOTDOT"; str "EBADMSG"; str "EOVERFLOW"; str "ENOTUNIQ"; str "EBADFD";
   str "EREMCHG"; str "ELIBACC"; str "ELIBBAD"; str "ELIBSCN"; str "ELIBMAX"; str "ELIBEXEC";
   str "EILSEQ"; str "ERESTART"; str "ESTRPIPE"; str "EUSERS"; str "ENOTSOCK"; str "EDESTADDRREQ";
   str "EMSGSIZE"; str "EPROTOTYPE"; str "ENOPROTOOPT"; str "EPROTONOSUPPORT"; str "ESOCKTNOSUPPORT"; str "EOPNOTSUPP/ENOTSUP";
   str "EPFNOSUPPORT"; str "EAFNOSUPPORT"; str "EADDRINUSE"; str "EADDRNOTAVAIL"; str "ENETDOWN"; str "ENETUNREACH";
   str "ENETRESET"; str "ECONNABORTED"; str "ECONNRESET"; str "ENOBUFS"; str "EISCONN"; str "ENOTCONN";
   str "ESHUTDOWN"; str "ETOOMANYREFS"; str "ETIMEDOUT"; str "ECONNREFUSED"; str "EHOSTDOWN"; str "EHOSTUNREACH";
   str "EALREADY"; str "EINPROGRESS"; str "ESTALE"; str "EUCLEAN"; str "ENOTNAM"; str "ENAVAIL";
   str "EISNAM"; str "EREMOTEIO"; str "EDQUOT"; str "ENOMEDIUM"; str "EMEDIUMTYPE"; str "ECANCELED";
   str "ENOKEY"; str "EKEYEXPIRED"; str "EKEYREVOKED"; str "EKEYREJECTED"; str "EOWNERDEAD"; str "ENOTRECOVERABLE";
   str "ERFKILL"; str "EHWPOISON"
].

(** Source: book-src/lib/ename.c.inc:35-35 (MAX_ENAME). *)
Definition MAX_ENAME : Z := 133.

(** * error_functions.c *)

Section error_functions.
Context {S : Type} `{HasLibc S}.
(** strerror(3), of the C library *)
Context (strerror : Z -> bytes).

(** Source: book-src/lib/error_functions.c:57-57 (BUF_SIZE). *)
Definition BUF_SIZE : nat := 500.

(** Source: book-src/lib/error_functions.c:25-42 (terminate). *)
Definition terminate {A} (useExit3 : bool) : M S A :=
  s ← getenv "EF_DUMPCORE";
  match s with
  | Some (_ :: _) => abort_
  | _ => if useExit3 then c_exit EXIT_FAILURE else c__exit EXIT_FAILURE
  end.

(** [(err > 0 && err <= MAX_ENAME) ? ename[err] : "?UNKNOWN?"] *)
(** Source: book-src/lib/error_functions.c:64-65 (ename[err] or ?UNKNOWN?). *)
Definition errName (err : Z) : M S bytes :=
  if (err >? 0) && (err <=? MAX_ENAME)
  then deref (ename !! Z.to_nat err) else mret (str "?UNKNOWN?").

(** [userMsg] is the caller's format and arguments, formatted. *)
(** Source: book-src/lib/error_functions.c:53-82 (outputError). *)
Definition outputError (useErr : bool) (err : Z) (flushStdout : bool) (msg : bytes)
    : M S unit :=
  let userMsg := snprintf BUF_SIZE msg in
  errText ← (if useErr then
      name ← errName err;
      mret (snprintf BUF_SIZE (str " [" ++ name ++ str " " ++ strerror err ++ str "]"))
    else mret (snprintf BUF_SIZE (str ":")));
  let buf := snprintf BUF_SIZE (str "ERROR" ++ errText ++ str " " ++ userMsg ++ [newline]) in
  when flushStdout fflush_stdout;;
  eprintf buf.

(** Source: book-src/lib/error_functions.c:84-100 (errMsg). *)
Definition errMsg (msg : bytes) : M S unit :=
  savedErrno ← get_errno;
  outputError true savedErrno true msg;;
  set_errno savedErrno.

(** Source: book-src/lib/error_functions.c:102-115 (errExit). *)
Definition errExit {A} (msg : bytes) : M S A :=
  e ← get_errno;
  outputError true e true msg;;
  terminate true.

(** Source: book-src/lib/error_functions.c:117-142 (err_exit). *)
Definition err_exit {A} (msg : bytes) : M S A :=
  e ← get_errno;
  outputError true e false msg;;
  terminate false.

(** Source: book-src/lib/error_functions.c:144-157 (errExitEN). *)
Definition errExitEN {A} (errnum : Z) (msg : bytes) : M S A :=
  outputError true errnum true msg;;
  terminate true.

(** Source: book-src/lib/error_functions.c:159-171 (fatal). *)
Definition fatal {A} (msg : bytes) : M S A :=
  outputError false 0 true msg;;
  terminate true.

(** Source: book-src/lib/error_functions.c:173-189 (usageErr). *)
Definition usageErr {A} (msg : bytes) : M S A :=
  fflush_stdout;;
  eprintf (str "Usage: ");;
  eprintf msg;;
  c_exit EXIT_FAILURE.

(** Source: book-src/lib/error_functions.c:191-208 (cmdLineErr). *)
Definition cmdLineErr {A} (msg : bytes) : M S A :=
  fflush_stdout;;
  eprintf (str "Command-line usage error: ");;
  eprintf msg;;
  c_exit EXIT_FAILURE.

(** ** What is proved of them *)

(** The state of the C library once the pending output has left. *)
Definition flushed (l : libc) : libc :=
  Libc (lc_errno l) (lc_environ l) []
       (if lc_pending l is [] then lc_out l else lc_out l ++ [(Stdout, lc_pending l)]).
Definition emitted (diag : bytes) (l : libc) : libc :=
  Libc (lc_errno l) (lc_environ l) (lc_pending l) (lc_out l ++ [(Stderr, diag)]).

(** The name shown for an error number. *)
Definition error_name (err : Z) : bytes :=
  if (err >? 0) && (err <=? MAX_ENAME) then default [] (ename !! Z.to_nat err)
  else str "?UNKNOWN?".

(** The diagnostic of an error number (or, with [None], of no error). *)
Definition diagnostic (err : option Z) (msg : bytes) : bytes :=
  let errText := match err with
    | Some e => str " [" ++ error_name e ++ str " " ++ strerror e ++ str "]"
    | None => str ":"
    end in
  snprintf BUF_SIZE
    (str "ERROR" ++ snprintf BUF_SIZE errText ++ str " " ++ snprintf BUF_SIZE msg ++ [newline]).

(** [ename[err]] is inside the table whenever the guard lets it be read. *)
Lemma ename_in_range err :
  0 < err <= MAX_ENAME -> ename !! Z.to_nat err = Some (error_name err).
Proof.
  intros Hr. unfold error_name.
  destruct (Z.gtb_spec err 0); [|lia]. destruct (Z.leb_spec err MAX_ENAME); [|lia]. simpl andb.
  cbv iota. destruct (ename !! Z.to_nat err) eqn:He; [done|].
  apply lookup_ge_None in He. unfold MAX_ENAME in Hr.
  change (length ename) with 134%nat in He. lia.
Qed.

Lemma errName_run err s : errName err s = (Done (error_name err), s).
Proof.
  unfold errName. destruct ((err >? 0) && (err <=? MAX_ENAME)) eqn:Hg.
  - rewrite ename_in_range by lia. done.
  - unfold error_name. by rewrite Hg.
Qed.

Lemma outputError_run useErr err flushStdout msg s :
  outputError useErr err flushStdout msg s =
  (Done tt, set_libc (emitted (diagnostic (if useErr then Some err else None) msg)
               ((if flushStdout then flushed else id) (libc_of s))) s).
Proof.
  unfold outputError, eprintf, fflush_stdout, diagnostic. munfold.
  destruct useErr; rewrite ?errName_run; destruct flushStdout;
    by rewrite ?libc_of_set, ?set_libc_set.
Qed.

(** Whether EF_DUMPCORE asks for a core dump. *)
Definition dump_core (l : libc) : bool :=
  match env_lookup (str "EF_DUMPCORE") (lc_environ l) with
  | Some (_ :: _) => true
  | _ => false
  end.

Lemma terminate_run A useExit3 s :
  @terminate A useExit3 s =
  if dump_core (libc_of s) then (Aborted, s)
  else (Exited EXIT_FAILURE,
        if useExit3 then set_libc (flushed (libc_of s)) s else s).
Proof.
  unfold terminate, dump_core. unfold mbind, M_bind at 1. simpl.
  destruct (env_lookup _ _) as [[|? ?]|]; [|done|]; by destruct useExit3.
Qed.

(** ErrMsg() flushes stdout, prints one diagnostic naming the error, and
    returns with errno as it was. *)
Theorem errMsg_correct msg s :
  let l := libc_of s in
  errMsg msg s =
  (Done tt, set_libc (emitted (diagnostic (Some (lc_errno l)) msg) (flushed l)) s) /\
  (length (diagnostic (Some (lc_errno l)) msg) < BUF_SIZE)%nat.
Proof.
  split.
  - unfold errMsg, get_errno, set_errno. munfold. rewrite outputError_run. simpl.
    by rewrite libc_of_set, set_libc_set.
  - unfold diagnostic, snprintf at 1. rewrite length_take. unfold BUF_SIZE. lia.
Qed.

(** ErrExit(), errExitEN(), fatal() and err_exit() never return: they
    print their diagnostic and then abort when EF_DUMPCORE is a nonempty
    variable, or else exit with EXIT_FAILURE; all but err_exit() deliver the
    pending output first, which err_exit() leaves behind. *)
Theorem exit_functions_correct A msg errnum s :
  let l := libc_of s in
  let ends := if dump_core l then Aborted else Exited EXIT_FAILURE in
  @errExit A msg s =
    (ends, set_libc (emitted (diagnostic (Some (lc_errno l)) msg) (flushed l)) s) /\
  @errExitEN A errnum msg s =
    (ends, set_libc (emitted (diagnostic (Some errnum) msg) (flushed l)) s) /\
  @fatal A msg s =
    (ends, set_libc (emitted (diagnostic None msg) (flushed l)) s) /\
  @err_exit A msg s =
    (ends, set_libc (emitted (diagnostic (Some (lc_errno l)) msg) l) s).
Proof.
  unfold errExit, errExitEN, fatal, err_exit, get_errno. munfold.
  rewrite !outputError_run, !terminate_run, !libc_of_set. unfold dump_core. simpl.
  destruct (env_lookup _ _) as [[|? ?]|]; simpl; rewrite ?set_libc_set; done.
Qed.
End error_functions.
