(* ===== verification/Calls.v ===== *)
(** Checked system calls: the pattern "if (call == -1) errExit(msg)" of almost
    every program, with perror() or with the functions of the library, and a
    proof rule for it. *)
From S2P Require Import Prelude CLib Sys ErrorFunctions.
#[local] Open Scope Z_scope.

Section calls.
Context {S : Type} `{HasLibc S}.
Context (strerror : Z -> bytes).

(** A call in C: [None] for -1 (or a null pointer), with [errno] set. *)
Definition call {A} (m : M S (sysres A)) : M S (option A) :=
  r ← m;
  match r with
  | SOk a => mret (Some a)
  | SErr e => set_errno e;; mret None
  end.

Lemma call_ok {A} (m : M S (sysres A)) s a s' : m s = (Done (SOk a), s') -> call m s = (Done (Some a), s').
Proof. intros H'. unfold call. by rewrite (bind_done _ _ _ _ _ H'). Qed.
Lemma call_err {A} (m : M S (sysres A)) s e s' :
  m s = (Done (SErr e), s') -> call m s = (Done None, (set_errno e s').2).
Proof. intros H'. unfold call. by rewrite (bind_done _ _ _ _ _ H'). Qed.

(** perror(3) *)
Definition perror (msg : bytes) : M S unit :=
  e ← get_errno;
  eprintf (msg ++ str ": " ++ strerror e ++ [newline]).

Lemma perror_run msg s : perror msg s =
  (Done tt, set_libc (emitted (msg ++ str ": " ++ strerror (lc_errno (libc_of s)) ++ [newline]) (libc_of s)) s).
Proof. reflexivity. Qed.

(** The macro errExit(msg) of programs that do not use the library. *)
Definition perror_exit {A} (msg : bytes) : M S A := perror msg;; c_exit EXIT_FAILURE.

Definition checked_by {A} (die : bytes -> M S A) (m : M S (sysres A)) (msg : bytes) : M S A :=
  r ← call m;
  match r with Some a => mret a | None => die msg end.

(** [if (m == -1) errExit(msg);] in both styles *)
Definition pchecked {A} (m : M S (sysres A)) (msg : bytes) : M S A := checked_by perror_exit m msg.
Definition echecked {A} (m : M S (sysres A)) (msg : bytes) : M S A := checked_by (errExit strerror) m msg.

(** ** The proof rule *)

(** Endings after a diagnostic; [view] is the part of the state that the
    diagnostic leaves alone. *)
Context {V : Type} (view : S -> V) (view_libc : forall l s, view (set_libc l s) = view s).

Definition stops (s : S) (e : ending) (s' : S) : Prop :=
  (e = EExit EXIT_FAILURE \/ e = EAbort) /\ view s' = view s.

Lemma stops_at s s1 e s' : view s1 = view s -> stops s1 e s' -> stops s e s'.
Proof. intros Hf [He Hs]. split; [done|congruence]. Qed.

Lemma perror_exit_stops {A} msg s (Q : A -> S -> Prop) : post Q (stops s) (perror_exit msg s).
Proof.
  unfold perror_exit, perror, c_exit, fflush_stdout, eprintf. munfold. simpl.
  split; [by left|]. by rewrite !view_libc.
Qed.

Lemma errExit_stops {A} msg s (Q : A -> S -> Prop) : post Q (stops s) (errExit strerror msg s).
Proof.
  unfold errExit. rewrite (bind_done get_errno _ s (lc_errno (libc_of s)) s) by done.
  rewrite (bind_done _ _ _ _ _ (outputError_run strerror true _ true msg s)), terminate_run.
  destruct (dump_core _); simpl.
  - split; [by right|]. apply view_libc.
  - split; [by left|]. by rewrite !view_libc.
Qed.

Lemma call_post {A} (m : M S (sysres A)) s (R : sysres A -> S -> Prop) E :
  post R E (m s) ->
  post (fun o s' => exists s1, view s' = view s1 /\
          match o with
          | Some a => R (SOk a) s1 /\ s' = s1
          | None => exists e, R (SErr e) s1 /\ lc_errno (libc_of s') = e
          end) E (call m s).
Proof.
  intros Hm. unfold call. apply post_bind. eapply post_mono; [| |exact Hm]; [|done].
  intros [a|e] s1 Hr; simpl.
  - exists s1. done.
  - exists s1. rewrite view_libc, libc_of_set. split; [done|]. by exists e.
Qed.

Lemma checked_by_spec {A} (die : bytes -> M S A) m msg s (R : sysres A -> S -> Prop) (Q : A -> S -> Prop) :
  (forall s1, post Q (stops s1) (die msg s1)) ->
  post R (fun _ _ => False) (m s) ->
  (forall r s', R r s' -> match r with SOk a => Q a s' | SErr _ => view s' = view s end) ->
  post Q (stops s) (checked_by die m msg s).
Proof.
  intros Hdie Hm HR. unfold checked_by. apply post_bind.
  eapply post_mono; [| |exact (call_post m s R _ Hm)]; [|done].
  intros [a|] s2 (s1 & Hv & Hr).
  - destruct Hr as [Hr ->]. exact (HR _ _ Hr).
  - destruct Hr as (e & Hr & _). apply HR in Hr. eapply post_mono; [| |exact (Hdie s2)]; [done|].
    intros e' s3. apply stops_at. congruence.
Qed.

Lemma pchecked_spec {A} (m : M S (sysres A)) msg s (R : sysres A -> S -> Prop) (Q : A -> S -> Prop) :
  post R (fun _ _ => False) (m s) ->
  (forall r s', R r s' -> match r with SOk a => Q a s' | SErr _ => view s' = view s end) ->
  post Q (stops s) (pchecked m msg s).
Proof. apply checked_by_spec. intros. apply perror_exit_stops. Qed.

Lemma echecked_spec {A} (m : M S (sysres A)) msg s (R : sysres A -> S -> Prop) (Q : A -> S -> Prop) :
  post R (fun _ _ => False) (m s) ->
  (forall r s', R r s' -> match r with SOk a => Q a s' | SErr _ => view s' = view s end) ->
  post Q (stops s) (echecked m msg s).
Proof. apply checked_by_spec. intros. apply errExit_stops. Qed.

Lemma stops_bind {A B} (m : M S A) (k : A -> M S B) Q R s :
  post R (stops s) (m s) ->
  (forall a s', R a s' -> view s' = view s /\ post Q (stops s') (k a s')) ->
  post Q (stops s) ((m ≫= k) s).
Proof.
  intros Hm Hk. apply post_bind. eapply post_mono; [| |exact Hm]; [|done].
  intros a s' Ha. destruct (Hk a s' Ha) as [Hf Hp]. eapply post_mono; [| |exact Hp]; [done|].
  intros e s''. by apply stops_at.
Qed.

(** Output before an ending. *)
Lemma stops_after {B} (m : M S unit) (k : M S B) Q s : (exists s1, m s = (Done tt, s1) /\ view s1 = view s) ->
  (forall s1, post Q (stops s1) (k s1)) -> post Q (stops s) ((m;; k) s).
Proof.
  intros (s1 & Hm & Hv) Hk. rewrite (bind_done _ _ _ _ _ Hm).
  eapply post_mono; [| |exact (Hk s1)]; [done|]. intros e s2. by apply stops_at.
Qed.
Lemma stops_eprintf {B} txt (k : M S B) Q s :
  (forall s1, post Q (stops s1) (k s1)) -> post Q (stops s) ((eprintf txt;; k) s).
Proof. apply stops_after. eexists. split; [reflexivity|]. apply view_libc. Qed.
Lemma stops_flush {B} (k : M S B) Q s :
  (forall s1, post Q (stops s1) (k s1)) -> post Q (stops s) ((fflush_stdout;; k) s).
Proof. apply stops_after. eexists. split; [reflexivity|]. apply view_libc. Qed.
Lemma c_exit_stops {B} Q s : post Q (stops s) (@c_exit _ _ B EXIT_FAILURE s).
Proof. apply stops_flush. intros s1. split; [by left|done]. Qed.
Lemma usageErr_stops {B} msg Q s : post Q (stops s) (@usageErr _ _ B msg s).
Proof. unfold usageErr. apply stops_flush. intros. do 2 (apply stops_eprintf; intros). apply c_exit_stops. Qed.
Lemma fatal_stops {B} msg Q s : post Q (stops s) (@fatal _ _ strerror B msg s).
Proof.
  unfold fatal. rewrite (bind_done _ _ _ _ _ (outputError_run strerror false _ true msg s)), terminate_run.
  destruct (dump_core _); simpl.
  - split; [by right|]. apply view_libc.
  - split; [by left|]. by rewrite !view_libc.
Qed.

(** A step of a computation whose other endings are those of a stop. *)
Lemma stops_then {A B} (m : M S A) (k : A -> M S B) Q (R : A -> S -> Prop) (E : ending -> S -> Prop) s s1 :
  (forall e s', stops s e s' -> E e s') -> view s1 = view s ->
  post R (stops s1) (m s1) -> (forall a s', R a s' -> post Q E (k a s')) -> post Q E ((m ≫= k) s1).
Proof.
  intros HE Hv Hm Hk. apply post_bind. eapply post_mono; [| |exact Hm]; [done|].
  intros e s' Hs. by apply HE, (stops_at s s1).
Qed.
Lemma stops_weaken {A} (m : M S A) Q s : post Q (fun _ _ => False) (m s) -> post Q (stops s) (m s).
Proof. intros Hm. eapply post_mono; [| |exact Hm]; done. Qed.
End calls.

(** A call whose effect is told by the view alone. *)
Section viewed.
Context {S : Type} `{HasLibc S} {V : Type} (view : S -> V) (view_libc : forall l s, view (set_libc l s) = view s).

Lemma call_viewed {A} (m : M S (sysres A)) s (R : sysres A -> V -> Prop) :
  post (fun r s' => R r (view s')) (fun _ _ => False) (m s) ->
  post (fun o s' => match o with Some a => R (SOk a) (view s') | None => exists e, R (SErr e) (view s') end)
    (fun _ _ => False) (call m s).
Proof.
  intros Hm. eapply post_mono; [| |exact (call_post view view_libc m s (fun r s' => R r (view s')) _ Hm)]; [|done].
  intros [a|] s1 (s2 & -> & Hr); [by destruct Hr as [Hr _]|]. destruct Hr as (e & Hr & _). by exists e.
Qed.

(** Sequencing by the view: the rest is run from any state with a view the call allows. *)
Lemma viewed_bind {A B} (m : M S (sysres A)) (k : option A -> M S B) s (R : sysres A -> V -> Prop) Q E :
  post (fun r s' => R r (view s')) (fun _ _ => False) (m s) ->
  (forall a s', R (SOk a) (view s') -> post Q E (k (Some a) s')) ->
  (forall e s', R (SErr e) (view s') -> post Q E (k None s')) ->
  post Q E ((call m ≫= k) s).
Proof.
  intros Hm Hok Herr. apply post_bind. eapply post_mono; [| |exact (call_viewed m s R Hm)]; [|done].
  intros [a|] s1 Hr; [by apply Hok|]. destruct Hr as [e Hr]. by eapply Herr.
Qed.

Lemma keeps_errno v e : keeps (fun s => view s = v) (set_errno e).
Proof. intros s Hs. cbn. by rewrite view_libc. Qed.
Lemma keeps_call {A} v (m : M S (sysres A)) : keeps (fun s => view s = v) m -> keeps (fun s => view s = v) (call m).
Proof. intros Hm. unfold call. apply keeps_bind; [done|]. intros [a|e]; [apply keeps_ret|]. apply keeps_bind; [apply keeps_errno|intros; apply keeps_ret]. Qed.
End viewed.

(** Programs that end with a diagnostic when a call fails: nothing is said of the state they leave. *)
Section failed.
Context {S : Type} `{HasLibc S} (strerror : Z -> bytes).

Definition failed (e : ending) (_ : S) : Prop := e = EExit EXIT_FAILURE \/ e = EAbort.

Lemma errExit_failed {A} msg Q s : post Q failed (@errExit S _ strerror A msg s).
Proof.
  eapply post_mono; [| |exact (errExit_stops strerror (fun _ => tt) (fun _ _ => eq_refl) msg s (fun _ _ => False))]; [done|].
  by intros e s' [He _].
Qed.
(** The value of a call, or -1 with [errno] set. *)
Lemma call_bind {A B} (m : M S (sysres A)) (k : option A -> M S B) (R : sysres A -> S -> Prop) Q E s :
  post R (fun _ _ => False) (m s) -> (forall a s', R (SOk a) s' -> post Q E (k (Some a) s')) ->
  (forall e s', R (SErr e) s' -> post Q E (k None (set_errno e s').2)) ->
  post Q E ((call m ≫= k) s).
Proof.
  intros Hm Hok Herr. unfold call. rewrite bind_bind. apply post_bind. eapply post_mono; [| |exact Hm]; [|done].
  intros [a|e] s' Hr; [by apply Hok|]. by apply Herr.
Qed.
Lemma echecked_bind {A B} (m : M S (sysres A)) msg (k : A -> M S B) (R : sysres A -> S -> Prop) Q s :
  post R (fun _ _ => False) (m s) -> (forall a s', R (SOk a) s' -> post Q failed (k a s')) ->
  post Q failed ((echecked strerror m msg ≫= k) s).
Proof.
  intros Hm Hk. unfold echecked, checked_by. rewrite bind_bind. eapply call_bind; [exact Hm| |].
  - intros a s' Ha. by apply Hk.
  - intros e s' _. apply post_bind, errExit_failed.
Qed.
End failed.
