(* ===== verification/GetNum.v ===== *)
(** book-src/lib/get_num.c: numeric command-line arguments. *)
From S2P Require Import Prelude CLib Sys.
#[local] Open Scope Z_scope.

(** Source: book-src/lib/get_num.h:20-20 (GN_NONNEG). *)
Definition GN_NONNEG : Z := 1.
(** Source: book-src/lib/get_num.h:21-21 (GN_GT_0). *)
Definition GN_GT_0 : Z := 2.
(** Source: book-src/lib/get_num.h:24-24 (GN_ANY_BASE). *)
Definition GN_ANY_BASE : Z := 64.
(** Source: book-src/lib/get_num.h:25-25 (GN_BASE_8). *)
Definition GN_BASE_8 : Z := 128.
(** Source: book-src/lib/get_num.h:26-26 (GN_BASE_16). *)
Definition GN_BASE_16 : Z := 256.

Section get_num.
Context {S : Type} `{HasLibc S}.

(** A [char *] argument may be null. *)
(** Source: book-src/lib/get_num.c:24-39 (gnFail). *)
Definition gnFail {A} (fname msg : bytes) (arg name : option bytes) : M S A :=
  eprintf (fname ++ str " error");;
  match name with
  | Some n => eprintf (str " (in " ++ n ++ str ")")
  | None => mret tt
  end;;
  eprintf (str ": " ++ msg ++ [newline]);;
  match arg with
  | Some (c :: a) => eprintf (str "        offending text: " ++ (c :: a) ++ [newline])
  | _ => mret tt
  end;;
  c_exit EXIT_FAILURE.

(** Source: book-src/lib/get_num.c:41-78 (getNum). *)
Definition getNum (fname : bytes) (arg : option bytes) (flags : Z) (name : option bytes)
    : M S Z :=
  match arg with
  | None | Some [] => gnFail fname (str "null or empty string") arg name
  | Some a =>
      let base := if has_bits flags GN_ANY_BASE then 0
                  else if has_bits flags GN_BASE_8 then 8
                  else if has_bits flags GN_BASE_16 then 16 else 10 in
      let r := strtol a base in
      let res := sl_value r in
      if sl_erange r then gnFail fname (str "strtol() failed") arg name
      else if negb (bool_decide (sl_endptr r = [])) then
        gnFail fname (str "nonnumeric characters") arg name
      else if has_bits flags GN_NONNEG && (res <? 0) then
        gnFail fname (str "negative value not allowed") arg name
      else if has_bits flags GN_GT_0 && (res <=? 0) then
        gnFail fname (str "value must be > 0") arg name
      else mret res
  end.

(** Source: book-src/lib/get_num.c:80-87 (getLong). *)
Definition getLong (arg : option bytes) (flags : Z) (name : option bytes) : M S Z :=
  getNum (str "getLong") arg flags name.

(** Source: book-src/lib/get_num.c:89-103 (getInt). *)
Definition getInt (arg : option bytes) (flags : Z) (name : option bytes) : M S Z :=
  res ← getNum (str "getInt") arg flags name;
  if (res >? INT_MAX) || (res <? INT_MIN)
  then gnFail (str "getInt") (str "integer out of range") arg name
  else mret (i32 res).

(** ** What is proved of them *)

(** The numbers that the flags let through. *)
Definition flag_ok (flags v : Z) : Prop :=
  (has_bits flags GN_NONNEG = true -> 0 <= v) /\
  (has_bits flags GN_GT_0 = true -> 0 < v).

Definition base_of (flags : Z) : Z :=
  if has_bits flags GN_ANY_BASE then 0
  else if has_bits flags GN_BASE_8 then 8
  else if has_bits flags GN_BASE_16 then 16 else 10.

(** [arg] is a complete numeral of value [v] that [flags] allow. *)
Definition denotes (flags : Z) (arg : option bytes) (v : Z) : Prop :=
  exists a, arg = Some a /\ a <> [] /\
    strtol a (base_of flags) = StrtolResult v [] false /\ flag_ok flags v.

Lemma denotes_unique flags arg v w : denotes flags arg v -> denotes flags arg w -> v = w.
Proof. intros (a & -> & _ & Hv & _) (a' & [= <-] & _ & Hw & _). congruence. Qed.

Lemma flag_tests flags v :
  has_bits flags GN_NONNEG && (v <? 0) = false ->
  has_bits flags GN_GT_0 && (v <=? 0) = false -> flag_ok flags v.
Proof.
  intros H1 H2. split; intros Hb; rewrite Hb in *; simpl in *; lia.
Qed.

Lemma gnFail_run {A} fname msg arg name s :
  exists s', @gnFail A fname msg arg name s = (Exited EXIT_FAILURE, s').
Proof.
  unfold gnFail, c_exit, fflush_stdout, eprintf. munfold.
  destruct name, arg as [[|? ?]|]; eauto.
Qed.

Lemma getNum_spec fname arg flags name s :
  match getNum fname arg flags name s with
  | (Done v, s') => s' = s /\ denotes flags arg v
  | (Exited n, _) => n = EXIT_FAILURE /\ forall v, ~ denotes flags arg v
  | _ => False
  end.
Proof.
  assert (Hf : forall msg, (forall v, ~ denotes flags arg v) ->
    match gnFail fname msg arg name s with
    | (Done v, s') => s' = s /\ denotes flags arg v
    | (Exited n, _) => n = EXIT_FAILURE /\ forall v, ~ denotes flags arg v
    | _ => False
    end).
  { intros msg Hno. destruct (@gnFail_run Z fname msg arg name s) as [s' ->]. done. }
  unfold getNum. destruct arg as [[|c a]|].
  1,3: by apply Hf; intros v (? & ? & ? & _); simplify_eq.
  fold (base_of flags). assert (Hne : c :: a <> []) by done.
  remember (c :: a) as a' eqn:Ha'. clear Ha'.
  destruct (strtol a' (base_of flags)) as [v rest er] eqn:Hs; simpl.
  assert (Hsame : forall w, denotes flags (Some a') w -> w = v /\ rest = [] /\ er = false /\ flag_ok flags v).
  { intros w (a0 & [= <-] & _ & Hw & ?). rewrite Hs in Hw. by simplify_eq. }
  destruct er; [apply Hf; intros w (?&?&?&?)%Hsame; done|].
  case_bool_decide as Hr; simpl; [|apply Hf; intros w (?&?&?&?)%Hsame; done].
  destruct (has_bits flags GN_NONNEG && (v <? 0)) eqn:H1.
  { apply Hf. intros w (?&?&?&[Hn _])%Hsame.
    apply andb_true_iff in H1 as [Hb Hv]. specialize (Hn Hb). lia. }
  destruct (has_bits flags GN_GT_0 && (v <=? 0)) eqn:H2.
  { apply Hf. intros w (?&?&?&[_ Hn])%Hsame.
    apply andb_true_iff in H2 as [Hb Hv]. specialize (Hn Hb). lia. }
  simpl. split; [done|]. exists a'. subst rest. split_and!; try done. by apply flag_tests.
Qed.

(** getInt() returns exactly when its argument is a complete numeral, in
    the base the flags select, of a value the flags and the range of an int
    allow, and then returns that value and touches nothing; in every other
    case, null and empty arguments included, it exits with EXIT_FAILURE. *)
Theorem getInt_correct arg flags name s :
  match getInt arg flags name s with
  | (Done v, s') => s' = s /\ denotes flags arg v /\ INT_MIN <= v <= INT_MAX
  | (Exited n, _) => n = EXIT_FAILURE /\
      forall v, denotes flags arg v -> ~ INT_MIN <= v <= INT_MAX
  | _ => False
  end.
Proof.
  unfold getInt, mbind, M_bind.
  pose proof (getNum_spec (str "getInt") arg flags name s) as Hn.
  destruct (getNum _ _ _ _ s) as [[v|n| | |] s']; try done.
  - destruct Hn as [-> Hd]. destruct ((v >? INT_MAX) || (v <? INT_MIN)) eqn:Hr.
    + destruct (@gnFail_run Z (str "getInt") (str "integer out of range") arg name s) as [s' ->].
      split; [done|]. intros w Hw. rewrite (denotes_unique _ _ _ _ Hw Hd). lia.
    + simpl. rewrite i32_id by lia. split_and!; (done || lia).
  - destruct Hn as [-> Hd]. split; [done|]. intros w Hw. by destruct (Hd w).
Qed.

(** A decimal argument printed from an int is read back as that int. *)
Theorem getInt_roundtrip z flags name s
    (Hz : INT_MIN <= z <= INT_MAX) (Hb : base_of flags = 10) (Hf : flag_ok flags z) :
  getInt (Some (print_dec z)) flags name s = (Done z, s).
Proof.
  pose proof (getInt_correct (Some (print_dec z)) flags name s) as Hc.
  assert (Hd : denotes flags (Some (print_dec z)) z).
  { exists (print_dec z). split_and!; [done| | |done].
    - unfold print_dec. destruct (z <? 0) eqn:?; [done|].
      destruct (print_nonneg_head z ltac:(lia)) as (? & ? & -> & _). done.
    - rewrite Hb. rewrite <- (app_nil_r (print_dec z)). apply strtol_print; [|done].
      unfold INT_MIN, INT_MAX, LONG_MIN, LONG_MAX in *. lia. }
  destruct (getInt _ _ _ s) as [[v|n| | |] s']; try done.
  - destruct Hc as (-> & Hv & _). by rewrite (denotes_unique _ _ _ _ Hv Hd).
  - destruct Hc as [_ Hc]. by destruct (Hc z Hd).
Qed.
End get_num.

Lemma getInt_roundtrip_witness :
  getInt (Some (print_dec (-77))) 0 None libc0 = (Done (-77), libc0).
Proof.
  apply (getInt_roundtrip (-77) 0 None libc0).
  - unfold INT_MIN, INT_MAX. lia.
  - reflexivity.
  - split; intros H; discriminate H.
Defined.
