(* ===== verification/ReadWrite.v ===== *)
(** Buffered and complete transfers over read(2) and write(2):
    book-src/sockets/read_line.c, read_line_buf.c and rdwrn.c, proved
    against the interfaces [ReadSpec] and [WriteSpec] of Sys. *)
From S2P Require Import Prelude CLib Sys.

(** * The operations *)

Section operations.
Context {S : Type} `{ReadOS S} `{WriteOS S}.

(** The loop variables of readLine() are [totRead] and the bytes placed in
    [buffer]; its result is the return value with the string left in
    [buffer] ([None] when nothing, not even a terminator, is stored). *)
(** Source: book-src/sockets/read_line.c:29-73 (readLine). *)
Definition readLine (fuel : nat) (fd : Z) (buffer_null : bool) (n : nat)
    : M S (sysres (nat * option bytes)) :=
  if (n =? 0) || buffer_null then mret (SErr EINVAL)
  else iter fuel (fun '(totRead, buf) =>
    numRead ← sys_read fd 1;
    match numRead with
    | SErr e =>
        if (e =? EINTR)%Z then mret (inl (totRead, buf))
        else mret (inr (SErr e))
    | SOk [] =>
        if totRead =? 0 then mret (inr (SOk (0, None)))
        else mret (inr (SOk (totRead, Some buf)))
    | SOk (ch :: _) =>
        let '(totRead, buf) :=
          if totRead <? n - 1 then (Datatypes.S totRead, buf ++ [ch]) else (totRead, buf) in
        if ceq ch newline then mret (inr (SOk (totRead, Some buf)))
        else mret (inl (totRead, buf))
    end) (0, []).

(** Source: book-src/sockets/read_line_buf.h:24-24 (RL_MAX_BUF). *)
Definition RL_MAX_BUF : nat := 10.

(** [rl_buf] holds [None] where the array has not been written yet; [rl_len]
    is -1 after a failed read. *)
(** Source: book-src/sockets/read_line_buf.h:26-31 (struct ReadLineBuf). *)
Record ReadLineBuf := MkReadLineBuf {
  rl_fd : Z;
  rl_buf : list (option ascii);
  rl_next : nat;
  rl_len : Z
}.

(** Source: book-src/sockets/read_line_buf.c:22-28 (readLineBufInit). *)
Definition readLineBufInit (fd : Z) (rlbuf : ReadLineBuf) : ReadLineBuf :=
  MkReadLineBuf fd (rl_buf rlbuf) 0 0%Z.

(** The first part of a round of readLineBuf(): make sure that a character
    is available. *)
(** Source: book-src/sockets/read_line_buf.c:51-63 (readLineBuf, refill). *)
Definition readLineBuf_fill (rl : ReadLineBuf) : M S (ReadLineBuf * sysres bool) :=
  if (rl_len rl <=? Z.of_nat (rl_next rl))%Z then
    r ← sys_read (rl_fd rl) RL_MAX_BUF;
    match r with
    | SErr e => mret (MkReadLineBuf (rl_fd rl) (rl_buf rl) (rl_next rl) (-1)%Z, SErr e)
    | SOk [] => mret (MkReadLineBuf (rl_fd rl) (rl_buf rl) (rl_next rl) 0%Z, SOk false)
    | SOk bs => mret (MkReadLineBuf (rl_fd rl) ((Some <$> bs) ++ drop (length bs) (rl_buf rl))
                        0 (Z.of_nat (length bs)), SOk true)
    end
  else mret (rl, SOk true).

(** The result is the structure, and the bytes placed in [buffer] (their
    number is the return value). *)
(** Source: book-src/sockets/read_line_buf.c:30-76 (readLineBuf). *)
Definition readLineBuf (fuel : nat) (rlbuf : ReadLineBuf) (buffer_null : bool) (n : nat)
    : M S (ReadLineBuf * sysres bytes) :=
  if (n =? 0) || buffer_null then mret (rlbuf, SErr EINVAL)
  else iter fuel (fun '(rl, buffer) =>
    '(rl, more) ← readLineBuf_fill rl;
    match more with
    | SErr e => mret (inr (rl, SErr e))
    | SOk false => mret (inr (rl, SOk buffer))
    | SOk true =>
        c ← deref (mjoin (rl_buf rl !! rl_next rl));
        let rl := MkReadLineBuf (rl_fd rl) (rl_buf rl) (Datatypes.S (rl_next rl)) (rl_len rl) in
        let buffer := if length buffer <? n then buffer ++ [c] else buffer in
        if ceq c newline then mret (inr (rl, SOk buffer))
        else mret (inl (rl, buffer))
    end) (rlbuf, []).

(** The bytes stored in [buffer] so far are the loop variable. *)
(** Source: book-src/sockets/rdwrn.c:21-47 (readn). *)
Definition readn (fuel : nat) (fd : Z) (n : nat) : M S (sysres bytes) :=
  iter fuel (fun buf =>
    if length buf <? n then
      numRead ← sys_read fd (n - length buf);
      match numRead with
      | SOk [] => mret (inr (SOk buf))
      | SErr e => if (e =? EINTR)%Z then mret (inl buf) else mret (inr (SErr e))
      | SOk bs => mret (inl (buf ++ bs))
      end
    else mret (inr (SOk buf))) [].

(** write(2) returning 0 leaves through the [return -1] of the source. *)
(** Source: book-src/sockets/rdwrn.c:49-76 (writen). *)
Definition writen (fuel : nat) (fd : Z) (buffer : bytes) : M S (option nat) :=
  iter fuel (fun totWritten =>
    if totWritten <? length buffer then
      numWritten ← sys_write fd (drop totWritten buffer);
      match numWritten with
      | SErr e => if (e =? EINTR)%Z then mret (inl totWritten) else mret (inr None)
      | SOk 0 => mret (inr None)
      | SOk k => mret (inl (totWritten + k))
      end
    else mret (inr (Some totWritten))) 0.
End operations.

(** * Lines of a stream *)

(** The next line of a stream: up to and including the first newline, or the
    whole stream. *)
Fixpoint line_of (inp : bytes) : bytes :=
  match inp with
  | [] => []
  | c :: inp' => if ceq c newline then [c] else c :: line_of inp'
  end.

Definition rest_of (inp : bytes) : bytes := drop (length (line_of inp)) inp.

Lemma line_rest inp : line_of inp ++ rest_of inp = inp.
Proof.
  unfold rest_of. induction inp as [|c inp IH]; simpl; [done|].
  destruct (ceq c newline); simpl; [by rewrite drop_0|by f_equal].
Qed.

Lemma line_of_nil inp : line_of inp = [] <-> inp = [].
Proof. destruct inp as [|c inp]; simpl; [done|]. by destruct (ceq c newline). Qed.

Lemma line_of_app seen inp : newline ∉ seen -> line_of (seen ++ inp) = seen ++ line_of inp.
Proof.
  induction seen as [|c seen IH]; simpl; [done|]. rewrite not_elem_of_cons.
  intros [Hc Hs]. unfold ceq. rewrite bool_decide_eq_false_2 by congruence.
  by rewrite IH.
Qed.

Lemma line_of_newline seen rest :
  newline ∉ seen -> line_of (seen ++ newline :: rest) = seen ++ [newline].
Proof.
  intros. by rewrite line_of_app.
Qed.

Lemma line_of_last seen : newline ∉ seen -> line_of seen = seen.
Proof.
  intros. rewrite <- (app_nil_r seen) at 1. rewrite line_of_app by done.
  simpl. apply app_nil_r.
Qed.

Lemma rest_of_newline seen rest :
  newline ∉ seen -> rest_of (seen ++ newline :: rest) = rest.
Proof.
  intros. unfold rest_of. rewrite line_of_newline by done.
  replace (seen ++ newline :: rest) with ((seen ++ [newline]) ++ rest)
    by (by rewrite <- app_assoc).
  by rewrite drop_app_length.
Qed.

Lemma rest_of_last seen : newline ∉ seen -> rest_of seen = [].
Proof. intros. unfold rest_of. rewrite line_of_last by done. apply drop_all. Qed.

Lemma not_elem_of_snoc {A} (x y : A) l : x ∉ l -> x <> y -> x ∉ l ++ [y].
Proof. intros. rewrite not_elem_of_app, list_elem_of_singleton. done. Qed.

(** Storing a character only while there is room keeps a prefix. *)
Lemma take_snoc_cap {A} (l : list A) c k :
  (if length (take k l) <? k then take k l ++ [c] else take k l) = take k (l ++ [c]).
Proof.
  rewrite length_take. destruct (Nat.ltb_spec (k `min` length l) k) as [Hlt|Hge].
  - rewrite !take_ge; [done|rewrite length_app; simpl; lia|lia].
  - rewrite take_app_le by lia. done.
Qed.

(** * What is proved of them *)

Section reading.
Context {S : Type} {HO : ReadOS S} {HR : ReadSpec S}.

(** What readLine() does with a stream [inp] and a buffer of [n] bytes. *)
Definition readLine_result (n : nat) (inp : bytes) : nat * option bytes :=
  let buf := take (n - 1) (line_of inp) in
  if bool_decide (buf = [] /\ newline ∉ line_of inp) then (0, None)
  else (length buf, Some buf).

(** The invariant of the loop: [inp0] was split into the bytes consumed,
    none of them a newline, and what is still to come. *)
Definition readLine_inv (fd : Z) (n : nat) (inp0 : bytes) (x : nat * bytes) (s : S) : Prop :=
  exists seen, inp0 = seen ++ input s fd /\ (newline ∉ seen) /\
    x.2 = take (n - 1) seen /\ x.1 = length x.2.

(** readLine() with room for [n] bytes delivers the first [n - 1] bytes of
    the next line, newline included when it fits, whatever pieces the
    descriptor returns and however often it is interrupted, and consumes
    exactly that line; at end of file it returns 0; otherwise it fails with an
    error other than EINTR. It always returns. *)
Theorem readLine_correct fuel fd n s
    (Hn : 0 < n) (Hfuel : length (input s fd) + signals s < fuel) :
  post (fun r s' =>
    match r with
    | SOk res => res = readLine_result n (input s fd) /\
                 input s' fd = rest_of (input s fd)
    | SErr e => e <> EINTR
    end) (fun _ _ => False) (readLine fuel fd false n s).
Proof.
  unfold readLine. destruct (Nat.eqb_spec n 0) as [|_]; [lia|]. simpl orb. cbv iota.
  apply (iter_total _ (readLine_inv fd n (input s fd))
           (fun _ s' => length (input s' fd) + signals s')); [| |lia].
  2:{ exists []. simpl. rewrite take_nil. split_and!; [done|apply not_elem_of_nil|done..]. }
  intros [tot buf] s1 (seen & Hin & Hnl & Hbuf & Htot). simpl in Hbuf, Htot.
  apply post_bind. eapply post_mono; [| |exact (read_spec fd 1 s1 ltac:(lia))]; [|done].
  intros [[|ch bs]|e] s2.
  - intros (_ & Hin2 & Hnil & _). rewrite (Hnil eq_refl) in Hin2, Hin.
    simpl in Hin2. rewrite app_nil_r in Hin. rewrite Hin, rest_of_last by done.
    unfold readLine_result. rewrite line_of_last, <- Hbuf by done.
    subst tot. destruct (decide (buf = [])) as [->|Hne].
    + by rewrite bool_decide_eq_true_2.
    + rewrite bool_decide_eq_false_2 by tauto. by destruct buf.
  - intros (Hlen & Hin2 & _ & Hsig). simpl in Hlen. destruct bs; simpl in *; [|lia].
    rewrite Htot, Hbuf. rewrite Hin2 in Hin.
    assert (Heq : (if length (take (n - 1) seen) <? n - 1
              then (Datatypes.S (length (take (n - 1) seen)), take (n - 1) seen ++ [ch])
              else (length (take (n - 1) seen), take (n - 1) seen)) =
            (length (take (n - 1) (seen ++ [ch])), take (n - 1) (seen ++ [ch]))).
    { rewrite <- take_snoc_cap. destruct (_ <? n - 1); [|done].
      rewrite length_app. simpl. f_equal. lia. }
    rewrite Heq. unfold ceq. case_bool_decide as Hch; simpl.
    + subst ch. rewrite Hin, rest_of_newline by done. split; [|done].
      unfold readLine_result. rewrite line_of_newline by done.
      rewrite bool_decide_eq_false_2; [done|]. intros [_ Hx]. apply Hx.
      apply elem_of_app. right. by apply list_elem_of_singleton.
    + rewrite Hin2. split; [|simpl; lia]. exists (seen ++ [ch]). simpl.
      rewrite <- app_assoc. split_and!; [done| |done|done]. by apply not_elem_of_snoc.
  - intros (Hin2 & Hsig & Hintr). destruct (Z.eqb_spec e EINTR) as [He|He]; simpl; [|done].
    rewrite Hin2. split; [by exists seen; rewrite Hin2|]. specialize (Hintr He). lia.
Qed.

(** The characters of the structure not yet handed out are [p]. *)
Definition holds (rl : ReadLineBuf) (p : bytes) : Prop :=
  drop (rl_next rl) (take (Z.to_nat (rl_len rl)) (rl_buf rl)) = Some <$> p /\
  (p = [] -> (rl_len rl <= Z.of_nat (rl_next rl))%Z) /\
  (rl_len rl <= Z.of_nat (length (rl_buf rl)))%Z.

Lemma holds_init fd rl : holds (readLineBufInit fd rl) [].
Proof. split_and!; simpl; [done|lia|lia]. Qed.

Lemma holds_nonempty rl c p :
  holds rl (c :: p) -> (Z.of_nat (rl_next rl) < rl_len rl)%Z.
Proof.
  intros [Hd _]. destruct (decide (rl_len rl <= Z.of_nat (rl_next rl))%Z) as [Hle|]; [|lia].
  rewrite drop_ge in Hd; [done|]. rewrite length_take. lia.
Qed.

Lemma holds_head rl c p : holds rl (c :: p) -> rl_buf rl !! rl_next rl = Some (Some c).
Proof.
  intros Hh. pose proof (holds_nonempty _ _ _ Hh) as Hlt. destruct Hh as [Hd _].
  assert (Hl : drop (rl_next rl) (take (Z.to_nat (rl_len rl)) (rl_buf rl)) !! 0 = Some (Some c))
    by (by rewrite Hd).
  rewrite lookup_drop, Nat.add_0_r, lookup_take in Hl by lia.
  case_decide; [done|lia].
Qed.

Lemma holds_tail rl c p :
  holds rl (c :: p) ->
  holds (MkReadLineBuf (rl_fd rl) (rl_buf rl) (Datatypes.S (rl_next rl)) (rl_len rl)) p.
Proof.
  intros Hh. pose proof (holds_nonempty _ _ _ Hh) as Hlt. destruct Hh as (Hd & _ & Hlen).
  assert (Hd' : drop (Datatypes.S (rl_next rl)) (take (Z.to_nat (rl_len rl)) (rl_buf rl)) = Some <$> p).
  { rewrite <- Nat.add_1_r, <- drop_drop, Hd. done. }
  split_and!; [exact Hd'| |exact Hlen]. simpl. intros ->.
  apply (f_equal length) in Hd'. rewrite length_drop, length_take in Hd'. simpl in Hd'. lia.
Qed.

Lemma holds_fresh fd bs k buf :
  bs <> [] -> holds (MkReadLineBuf fd ((Some <$> bs) ++ drop k buf) 0 (Z.of_nat (length bs))) bs.
Proof.
  intros Hbs. unfold holds. cbn [rl_next rl_len rl_buf]. split_and!; [|done|].
  - rewrite Nat2Z.id, drop_0. apply take_app_length'. by rewrite length_fmap.
  - rewrite length_app, length_fmap. lia.
Qed.

Lemma readLineBuf_fill_spec rl p s :
  holds rl p ->
  post (fun '(rl', r) s' => rl_fd rl' = rl_fd rl /\
    exists p', holds rl' p' /\ p' ++ input s' (rl_fd rl) = p ++ input s (rl_fd rl) /\
    match r with
    | SOk true => p' <> []
    | SOk false => p ++ input s (rl_fd rl) = []
    | SErr _ => True
    end) (fun _ _ => False) (readLineBuf_fill rl s).
Proof.
  intros Hp. unfold readLineBuf_fill.
  destruct (Z.leb_spec (rl_len rl) (Z.of_nat (rl_next rl))) as [Hle|Hlt].
  - assert (p = []) as ->.
    { destruct p as [|c p]; [done|]. apply holds_nonempty in Hp. lia. }
    apply post_bind. eapply post_mono; [| |exact (read_spec (rl_fd rl) RL_MAX_BUF s ltac:(compute; lia))]; [|done].
    intros [[|b bs]|e] s'; simpl.
    + intros (_ & Hin & Hnil & _). split; [done|]. exists []. split_and!; [|done|auto].
      split_and!; simpl; [by rewrite take_0, drop_nil|lia|lia].
    + intros (_ & Hin & _). split; [done|]. exists (b :: bs). split_and!; [|done|done].
      by apply (holds_fresh _ (b :: bs)).
    + intros (Hin & _). split; [done|]. exists []. split_and!; [|done|done].
      split_and!; simpl; [by rewrite take_0, drop_nil|lia|lia].
  - simpl. split; [done|]. exists p. split_and!; [done|done|].
    intros ->. destruct Hp as (_ & Hp & _). specialize (Hp eq_refl). lia.
Qed.

Definition readLineBuf_inv (fd : Z) (n : nat) (unread0 : bytes)
    (x : ReadLineBuf * bytes) (s : S) : Prop :=
  exists seen p, holds x.1 p /\ rl_fd x.1 = fd /\ unread0 = seen ++ p ++ input s fd /\
    (newline ∉ seen) /\ x.2 = take n seen.

(** readLineBuf() hands out the stream line by line exactly as it would be
    read byte by byte: it stores the first [n] bytes of the next line, leaves
    precisely the bytes after that line for the next call (some buffered in
    the structure, the others still on the descriptor) whatever blocks read()
    returned, never touches an unwritten or out-of-range cell of its buffer,
    and always returns; after a failed read the structure is still usable. *)
Theorem readLineBuf_correct fuel rl p n s
    (Hn : 0 < n) (Hp : holds rl p)
    (Hfuel : length (p ++ input s (rl_fd rl)) < fuel) :
  let unread := p ++ input s (rl_fd rl) in
  post (fun '(rl', r) s' => exists p', holds rl' p' /\ rl_fd rl' = rl_fd rl /\
    match r with
    | SOk buffer => buffer = take n (line_of unread) /\
                    p' ++ input s' (rl_fd rl) = rest_of unread
    | SErr _ => (p' ++ input s' (rl_fd rl)) `suffix_of` unread
    end) (fun _ _ => False) (readLineBuf fuel rl false n s).
Proof.
  intros unread. unfold readLineBuf. destruct (Nat.eqb_spec n 0) as [|_]; [lia|]. simpl orb. cbv iota.
  apply (iter_total _ (readLineBuf_inv (rl_fd rl) n unread)
    (fun x s' => length (drop (rl_next x.1) (take (Z.to_nat (rl_len x.1)) (rl_buf x.1)))
                 + length (input s' (rl_fd rl)))).
  2:{ exists [], p. rewrite take_nil. split_and!; [done..|apply not_elem_of_nil|done]. }
  2:{ destruct Hp as [Hd _]. simpl. rewrite Hd, length_fmap, <- length_app. done. }
  clearbody unread. intros [rl1 buffer] s1 (seen & p1 & Hp1 & Hfd & Hun & Hnl & Hbuf). simpl in Hp1, Hfd, Hbuf.
  apply post_bind. eapply post_mono; [| |exact (readLineBuf_fill_spec rl1 p1 s1 Hp1)]; [|done].
  rewrite Hfd. intros [rl2 [[]|e]] s2 (Hfd2 & p2 & Hp2 & Hin & Hmore); cbv beta iota.
  - destruct p2 as [|c p2]; [done|].
    rewrite (holds_head _ _ _ Hp2). cbn [mjoin option_join deref]. rewrite mret_bind, Hbuf, take_snoc_cap.
    apply holds_tail in Hp2. rewrite Hun, <- Hin. unfold ceq. case_bool_decide as Hc.
    + subst c. exists p2. rewrite <- app_comm_cons. rewrite line_of_newline, rest_of_newline by done.
      split_and!; [done|simpl;congruence|done|done].
    + assert (Hlen : length (drop (rl_next rl1) (take (Z.to_nat (rl_len rl1)) (rl_buf rl1))) = length p1).
      { destruct Hp1 as [-> _]. apply length_fmap. }
      assert (Hlen2 := f_equal length (proj1 Hp2)). rewrite length_fmap in Hlen2.
      assert (Hlen3 := f_equal length Hin). rewrite !length_app in Hlen3.
      simpl in *. split.
      * exists (seen ++ [c]), p2. simpl. rewrite <- app_assoc.
        split_and!; [done|congruence|done|by apply not_elem_of_snoc|done].
      * rewrite Hlen2, Hlen. lia.
  - exists p2. rewrite Hun, <- Hin, Hmore in *. split_and!; [done|congruence| |].
    + rewrite app_nil_r, line_of_last by done. done.
    + rewrite app_nil_r, rest_of_last; done.
  - exists p2. split_and!; [done|congruence|]. exists seen. by rewrite Hun, <- Hin.
Qed.

(** ** readn() *)

Definition readn_inv (fd : Z) (n : nat) (inp0 : bytes) (buf : bytes) (s : S) : Prop :=
  inp0 = buf ++ input s fd /\ length buf <= n.

(** readn() always returns; unless a read fails for another reason than an
    interruption it delivers exactly the first [n] bytes of the stream, or all
    of it when the stream ends before, and consumes exactly those. *)
Theorem readn_correct fuel fd n s (Hfuel : n + signals s < fuel) :
  post (fun r s' =>
    match r with
    | SOk buf => buf = take n (input s fd) /\ input s' fd = drop n (input s fd)
    | SErr e => e <> EINTR
    end) (fun _ _ => False) (readn fuel fd n s).
Proof.
  unfold readn.
  apply (iter_total _ (readn_inv fd n (input s fd))
           (fun buf s' => (n - length buf) + signals s')); [|split; simpl; [done|lia]|simpl; lia].
  intros buf s1 [Hin Hlen]. destruct (Nat.ltb_spec (length buf) n) as [Hlt|Hge].
  - apply post_bind. eapply post_mono; [| |exact (read_spec fd (n - length buf) s1 ltac:(lia))]; [|done].
    intros [[|b bs]|e] s2.
    + intros (_ & Hin2 & Hnil & _). rewrite (Hnil eq_refl) in Hin, Hin2. simpl in Hin2.
      rewrite app_nil_r in Hin. rewrite Hin. simpl. rewrite take_ge, drop_ge by lia. done.
    + intros (Hl & Hin2 & _ & Hsig). rewrite Hin2 in Hin. unfold mret, M_ret, post, readn_inv.
      rewrite length_app, <- app_assoc. split; [split; [done|lia]|simpl in *; lia].
    + intros (Hin2 & Hsig & Hintr). destruct (Z.eqb_spec e EINTR) as [He|He]; simpl; [|done].
      unfold readn_inv. rewrite Hin2. specialize (Hintr He). split; [done|lia].
  - simpl. rewrite Hin, take_app_length', drop_app_length' by lia. done.
Qed.
End reading.

Section writing.
Context {S : Type} {HO : WriteOS S} {HW : WriteSpec S}.

(** writen() always returns; when it returns success the whole buffer has
    been appended to the descriptor's output, in order and once, whatever the
    partial writes were; when it fails a prefix of the buffer has been. *)
Theorem writen_correct fuel fd buffer s (Hfuel : length buffer + wsignals s < fuel) :
  post (fun r s' =>
    match r with
    | Some k => k = length buffer /\ output s' fd = output s fd ++ buffer
    | None => exists k, k < length buffer /\ output s' fd = output s fd ++ take k buffer
    end) (fun _ _ => False) (writen fuel fd buffer s).
Proof.
  unfold writen.
  apply (iter_total _ (fun tot s' => tot <= length buffer /\
            output s' fd = output s fd ++ take tot buffer)
           (fun tot s' => (length buffer - tot) + wsignals s')).
  2:{ split; [lia|]. by rewrite take_0, app_nil_r. }
  2: lia.
  intros tot s1 [Hle Hout]. destruct (Nat.ltb_spec tot (length buffer)) as [Hlt|Hge].
  - assert (Hne : drop tot buffer <> []).
    { intros Hd. apply (f_equal length) in Hd. rewrite length_drop in Hd. simpl in Hd. lia. }
    apply post_bind. eapply post_mono; [| |exact (write_spec fd (drop tot buffer) s1 Hne)]; [|done].
    intros [[|k]|e] s2.
    + intros (_ & Hout2 & _). simpl. exists tot. split; [done|].
      by rewrite Hout2, Hout, app_nil_r.
    + intros (Hk & Hout2 & Hsig). rewrite length_drop in Hk.
      unfold mret, M_ret, post. rewrite Hout2, Hout, <- app_assoc, take_take_drop.
      split; [split; [lia|done]|lia].
    + intros (Hout2 & Hsig & Hintr). destruct (Z.eqb_spec e EINTR) as [He|He]; simpl.
      * rewrite Hout2. specialize (Hintr He). split; [done|lia].
      * exists tot. rewrite Hout2. done.
  - simpl. split; [lia|]. by rewrite Hout, take_ge by lia.
Qed.
End writing.

(** * The programs run *)

Definition demo_script : script :=
  Script (str "ab" ++ [newline] ++ str "cdef") [] [Xfer 1; Fail EINTR; Xfer 2].

Lemma readLine_correct_witness :
  readLine 30 0 false 10 demo_script =
    (Done (SOk (3, Some (str "ab" ++ [newline]))), Script (str "cdef") [] []) /\
  post (fun r s' =>
    match r with
    | SOk res => res = readLine_result 10 (input demo_script 0) /\
                 input s' 0 = rest_of (input demo_script 0)
    | SErr e => e <> EINTR
    end) (fun _ _ => False) (readLine 30 0 false 10 demo_script).
Proof.
  split; [reflexivity|]. apply (readLine_correct (S := script) 30 0 10 demo_script).
  - lia.
  - vm_compute. lia.
Defined.

Definition demo_rl : ReadLineBuf := readLineBufInit 3 (MkReadLineBuf 0 (replicate 10 None) 0 0%Z).

Definition calm_script : script :=
  Script (str "ab" ++ [newline] ++ str "cdef") [] [Xfer 1; Xfer 2].

Lemma readLineBuf_correct_witness :
  let '(r, s') := readLineBuf 30 demo_rl false 10 calm_script in
  (exists rl', r = Done (rl', SOk (str "ab" ++ [newline]))) /\
  post (fun '(rl', r) s' => exists p', holds rl' p' /\ rl_fd rl' = rl_fd demo_rl /\
    match r with
    | SOk buffer => buffer = take 10 (line_of ([] ++ input calm_script 3)) /\
                    p' ++ input s' 3 = rest_of ([] ++ input calm_script 3)
    | SErr _ => (p' ++ input s' 3) `suffix_of` ([] ++ input calm_script 3)
    end) (fun _ _ => False) (readLineBuf 30 demo_rl false 10 calm_script).
Proof.
  split; [eexists; reflexivity|].
  apply (readLineBuf_correct (S := script) 30 demo_rl [] 10 calm_script).
  - lia.
  - apply holds_init.
  - vm_compute. lia.
Defined.

Lemma readn_correct_witness :
  post (fun r s' =>
    match r with
    | SOk buf => buf = take 4 (input demo_script 0) /\ input s' 0 = drop 4 (input demo_script 0)
    | SErr e => e <> EINTR
    end) (fun _ _ => False) (readn 30 0 4 demo_script).
Proof. apply (readn_correct (S := script) 30 0 4 demo_script). vm_compute. lia. Defined.

Lemma writen_correct_witness :
  writen 30 1 (str "hello") demo_script =
    (Done (Some 5), Script (sc_in demo_script) (str "hello") []) /\
  post (fun r s' =>
    match r with
    | Some k => k = length (str "hello") /\ output s' 1 = output demo_script 1 ++ str "hello"
    | None => exists k, k < length (str "hello") /\ output s' 1 = output demo_script 1 ++ take k (str "hello")
    end) (fun _ _ => False) (writen 30 1 (str "hello") demo_script).
Proof.
  split; [reflexivity|]. apply (writen_correct (S := script) 30 1 (str "hello") demo_script).
  vm_compute. lia.
Defined.
