(* ===== verification/InotifyCache.v ===== *)
(** book-src/inotify/inotify_dtree.c, first part: the program's variables, its
    log, the cache of watched directories and the list of root directories. *)
From S2P Require Import Prelude CLib Sys.

(** * The program's state *)

Definition PATH_MAX : nat := 4096.
Definition NAME_MAX : nat := 255.

(** Source: book-src/inotify/inotify_dtree.c:69-70 (VB_BASIC, VB_NOISY). *)
Definition VB_BASIC : Z := 1.
Definition VB_NOISY : Z := 2.

(** Source: book-src/inotify/inotify_dtree.c:180-183 (struct watch). *)
Record watch := Watch {
  wd : Z;                     (* watch descriptor, -1 if the slot is unused *)
  path : bytes                (* cached pathname *)
}.

(** Source: book-src/inotify/inotify_dtree.c:72-77 (command-line settings). *)
Record settings := Settings {
  verboseMask : Z;
  checkCache : bool;
  dumpCache : bool;
  readBufferSize : Z;
  stopFile : option bytes;
  abortOnCacheProblem : bool
}.

(** [inotifyReadCnt] is the file's counter, [reinitCnt] and [overflowCnt] are
    the static variables of reinitialize() and processNextInotifyEvent(),
    [dirCnt] and [ifd] the ones shared with the nftw() callback. *)
(** Source: book-src/inotify/inotify_dtree.c:504-509 (dirCnt, ifd and the counters). *)
Record counters := Counters {
  inotifyReadCnt : Z;
  reinitCnt : Z;
  overflowCnt : Z;
  dirCnt : Z;
  ifd : Z
}.

Section state.
Context {W : Type}.

(** The whole program state: the variables, the C library, the log file (what
    was written to it, if there is one) and the rest of the system [W].
    [cacheSize] is the length of [wlCache], [numRootDirs] that of
    [rootDirPaths], whose entries are null once zapped. *)
(** Source: book-src/inotify/inotify_dtree.c:185-187 (wlCache, cacheSize). *)
Record dtree := Dtree {
  dt_settings : settings;
  dt_counters : counters;
  dt_libc : libc;
  dt_log : option bytes;
  wlCache : list watch;
  rootDirPaths : list (option bytes);
  ignoreRootDirs : Z;
  dt_world : W
}.

Definition set_settings (x : settings) (s : dtree) : dtree :=
  Dtree x (dt_counters s) (dt_libc s) (dt_log s) (wlCache s) (rootDirPaths s) (ignoreRootDirs s) (dt_world s).
Definition set_counters (x : counters) (s : dtree) : dtree :=
  Dtree (dt_settings s) x (dt_libc s) (dt_log s) (wlCache s) (rootDirPaths s) (ignoreRootDirs s) (dt_world s).
Definition set_dt_libc (x : libc) (s : dtree) : dtree :=
  Dtree (dt_settings s) (dt_counters s) x (dt_log s) (wlCache s) (rootDirPaths s) (ignoreRootDirs s) (dt_world s).
Definition set_log (x : option bytes) (s : dtree) : dtree :=
  Dtree (dt_settings s) (dt_counters s) (dt_libc s) x (wlCache s) (rootDirPaths s) (ignoreRootDirs s) (dt_world s).
Definition set_cache (x : list watch) (s : dtree) : dtree :=
  Dtree (dt_settings s) (dt_counters s) (dt_libc s) (dt_log s) x (rootDirPaths s) (ignoreRootDirs s) (dt_world s).
Definition set_roots (x : list (option bytes)) (n : Z) (s : dtree) : dtree :=
  Dtree (dt_settings s) (dt_counters s) (dt_libc s) (dt_log s) (wlCache s) x n (dt_world s).
Definition set_world (x : W) (s : dtree) : dtree :=
  Dtree (dt_settings s) (dt_counters s) (dt_libc s) (dt_log s) (wlCache s) (rootDirPaths s) (ignoreRootDirs s) x.

#[export, refine] Instance dtree_has_libc : HasLibc dtree :=
  {| libc_of := dt_libc; set_libc := set_dt_libc |}.
Proof. all: by intros; repeat match goal with s : dtree |- _ => destruct s end. Defined.

(** A system operation run on the world of the program. *)
Definition os {A} (m : M W A) : M dtree A := fun s =>
  let '(r, w) := m (dt_world s) in (r, set_world w s).
End state.
Arguments dtree : clear implicits.

(** * Log messages *)

Section log.
Context {W : Type}.

(** Source: book-src/inotify/inotify_dtree.c:102-127 (logMessage). *)
Definition logMessage (vb_mask : Z) (msg : bytes) : M (dtree W) unit :=
  mask ← gets (fun s => verboseMask (dt_settings s));
  when ((vb_mask =? 0)%Z || has_bits vb_mask mask) (eprintf msg);;
  modify (fun s => match dt_log s with
                   | Some txt => set_log (Some (txt ++ msg)) s
                   | None => s
                   end).

(** fprintf(logfp, ...), which dereferences [logfp]. *)
Definition fprintf_log (msg : bytes) : M (dtree W) unit :=
  s ← mget;
  txt ← deref (dt_log s);
  modify (set_log (Some (txt ++ msg))).
End log.

(** * The cache *)

Definition watch_live (w : watch) : bool := (0 <=? wd w)%Z.
Definition empty_slot : watch := Watch (-1) [].

(** The loop [for (j = 0; j < cacheSize; j++) if (p(wlCache[j])) return j]. *)
Fixpoint find_slot (p : watch -> bool) (cache : list watch) : option nat :=
  match cache with
  | [] => None
  | w :: cache' => if p w then Some 0 else Datatypes.S <$> find_slot p cache'
  end.

(** The loop over [rootDirPaths], skipping the null entries. *)
Fixpoint find_root (p : bytes) (roots : list (option bytes)) : option nat :=
  match roots with
  | [] => None
  | Some q :: l' => if streq p q then Some 0 else Datatypes.S <$> find_root p l'
  | None :: l' => Datatypes.S <$> find_root p l'
  end.

Section cache.
Context {W : Type}.

(** Source: book-src/inotify/inotify_dtree.c:189-197 (freeCache). *)
Definition freeCache : M (dtree W) unit := modify (set_cache []).

(** The result is the slot number, [None] for -1. *)
(** Source: book-src/inotify/inotify_dtree.c:230-241 (findWatch). *)
Definition findWatch (d : Z) : M (dtree W) (option nat) :=
  gets (fun s => find_slot (fun w => (wd w =? d)%Z) (wlCache s)).

(** Reading [wlCache[slot]]. *)
Definition slot_at (slot : nat) : M (dtree W) watch :=
  s ← mget; deref (wlCache s !! slot).

(** Source: book-src/inotify/inotify_dtree.c:274-285 (markCacheSlotEmpty). *)
Definition markCacheSlotEmpty (slot : nat) : M (dtree W) unit :=
  w ← slot_at slot;
  logMessage VB_NOISY (str "        markCacheSlotEmpty: slot = " ++ print_dec (Z.of_nat slot) ++
    str ";  wd = " ++ print_dec (wd w) ++ str "; path = " ++ path w ++ [newline]);;
  modify (fun s => set_cache (<[slot := empty_slot]> (wlCache s)) s).

(** Source: book-src/inotify/inotify_dtree.c:292-292 (ALLOC_INCR). *)
Definition ALLOC_INCR : nat := 200.

(** [realloc] leaves the new slots uninitialised ([garbage], of the C library,
    gives their content) and may fail, which ends the program. *)
Context (garbage : nat -> watch) (realloc_ok : nat -> bool) (strerror : Z -> bytes).

(** The file's errExit() macro: perror(), then exit(EXIT_FAILURE). *)
(** Source: book-src/inotify/inotify_dtree.c:64-65 (errExit). *)
Definition errExit {A} (msg : bytes) : M (dtree W) A :=
  e ← get_errno;
  eprintf (msg ++ str ": " ++ strerror e ++ [newline]);;
  c_exit EXIT_FAILURE.

(** Source: book-src/inotify/inotify_dtree.c:287-311 (findEmptyCacheSlot). *)
Definition findEmptyCacheSlot : M (dtree W) nat :=
  s ← mget;
  match find_slot (fun w => (wd w =? -1)%Z) (wlCache s) with
  | Some j => mret j
  | None =>
      let old := length (wlCache s) in
      let cacheSize := old + ALLOC_INCR in
      if realloc_ok cacheSize then
        modify (set_cache (wlCache s ++ (garbage <$> seq old ALLOC_INCR)));;
        for_each (seq old ALLOC_INCR) markCacheSlotEmpty;;
        mret (cacheSize - ALLOC_INCR)
      else set_errno ENOMEM;; errExit (str "realloc")
  end.

(** Source: book-src/inotify/inotify_dtree.c:313-326 (addWatchToCache). *)
Definition addWatchToCache (d : Z) (pathname : bytes) : M (dtree W) nat :=
  slot ← findEmptyCacheSlot;
  modify (fun s => set_cache (<[slot := Watch d (strncpy pathname PATH_MAX)]> (wlCache s)) s);;
  mret slot.

(** Source: book-src/inotify/inotify_dtree.c:328-339 (pathnameToCacheSlot). *)
Definition pathnameToCacheSlot (pathname : bytes) : M (dtree W) (option nat) :=
  gets (fun s => find_slot (fun w => watch_live w && streq (path w) pathname) (wlCache s)).

(** Source: book-src/inotify/inotify_dtree.c:341-347 (pathnameInCache). *)
Definition pathnameInCache (pathname : bytes) : M (dtree W) bool :=
  r ← pathnameToCacheSlot pathname; mret (bool_decide (is_Some r)).

(** The lines of a dump and the number of entries. *)
Fixpoint dump_lines (j : nat) (cache : list watch) : bytes * nat :=
  match cache with
  | [] => ([], 0)
  | w :: cache' =>
      let '(txt, cnt) := dump_lines (Datatypes.S j) cache' in
      if watch_live w then
        (print_dec (Z.of_nat j) ++ str ": wd = " ++ print_dec (wd w) ++ str "; " ++
           path w ++ [newline] ++ txt, Datatypes.S cnt)
      else (txt, cnt)
  end.

(** Source: book-src/inotify/inotify_dtree.c:349-367 (dumpCacheToLog). *)
Definition dumpCacheToLog : M (dtree W) unit :=
  s ← mget;
  let '(txt, cnt) := dump_lines 0 (wlCache s) in
  when (bool_decide (txt <> [])) (fprintf_log txt);;
  fprintf_log (str "Total entries: " ++ print_dec (Z.of_nat cnt) ++ [newline]).

(** * Root directories *)

(** The address returned is the index in [rootDirPaths]. *)
(** Source: book-src/inotify/inotify_dtree.c:452-463 (findRootDirPath). *)
Definition findRootDirPath (p : bytes) : M (dtree W) (option nat) :=
  gets (fun s => find_root p (rootDirPaths s)).

(** Source: book-src/inotify/inotify_dtree.c:465-471 (isRootDirPath). *)
Definition isRootDirPath (p : bytes) : M (dtree W) bool :=
  r ← findRootDirPath p; mret (bool_decide (is_Some r)).

(** Source: book-src/inotify/inotify_dtree.c:473-495 (zapRootDirPath). *)
Definition zapRootDirPath (p : bytes) : M (dtree W) unit :=
  printf (str "zapRootDirPath: " ++ p ++ [newline]);;
  r ← findRootDirPath p;
  match r with
  | None =>
      eprintf (str "zapRootDirPath(): path not found!" ++ [newline]);;
      c_exit EXIT_FAILURE
  | Some j =>
      modify (fun s => set_roots (<[j := None]> (rootDirPaths s)) (ignoreRootDirs s + 1) s);;
      s ← mget;
      when (ignoreRootDirs s =? Z.of_nat (length (rootDirPaths s)))%Z
        (eprintf (str "No more root paths left to monitor; bye!" ++ [newline]);;
         c_exit EXIT_SUCCESS)
  end.
End cache.
