(* ===== verification/InotifyTree.v ===== *)
(** book-src/inotify/inotify_dtree.c, second part: watching a directory tree,
    renaming and dropping cached subtrees, rebuilding the cache. *)
From S2P Require Import Prelude CLib Sys InotifyCache.

(** * The system interface *)

Record stat_t := Stat { st_isdir : bool; st_dev : Z; st_ino : Z }.

(** An inotify event; [ev_len] is the size of the name field in bytes, which
    includes the padding. *)
Record inotify_event := Event {
  ev_wd : Z;
  ev_mask : Z;
  ev_cookie : Z;
  ev_len : Z;
  ev_name : bytes
}.

Definition IN_MOVED_FROM : Z := 0x40.
Definition IN_MOVED_TO : Z := 0x80.
Definition IN_CREATE : Z := 0x100.
Definition IN_DELETE_SELF : Z := 0x400.
Definition IN_MOVE_SELF : Z := 0x800.
Definition IN_UNMOUNT : Z := 0x2000.
Definition IN_Q_OVERFLOW : Z := 0x4000.
Definition IN_IGNORED : Z := 0x8000.
Definition IN_ONLYDIR : Z := 0x01000000.
Definition IN_ISDIR : Z := 0x40000000.

(** The calls the program makes: files, inotify, the alarm and the terminal;
    select(2) gives the readable descriptors. nftw(3) is an iterator: [nftw_open] starts a
    walk, [nftw_next] gives the next object, for which nftw() calls the
    program's function, or the end of the walk. A read from the inotify
    descriptor returns whole events. *)
Class InotifyOS (W : Type) := {
  sys_lstat : bytes -> M W (sysres stat_t);
  sys_inotify_init : M W (sysres Z);
  sys_add_watch : Z -> bytes -> Z -> M W (sysres Z);
  sys_rm_watch : Z -> Z -> M W (sysres unit);
  sys_close : Z -> M W (sysres unit);
  sys_create : bytes -> M W (sysres Z);
  nftw_open : bytes -> M W (sysres unit);
  nftw_next : M W (sysres (option (bytes * stat_t)));
  sys_read_events : Z -> Z -> M W (sysres (list inotify_event));
  sys_sigalrm_handler : M W (sysres unit);
  sys_ualarm : Z -> M W (sysres Z);
  sys_read_stdin : Z -> M W (sysres bytes);
  sys_write_file : bytes -> bytes -> M W (sysres unit);
  sys_fopen_log : bytes -> M W (sysres unit);
  sys_select : Z -> M W (sysres (list Z))
}.

(** Every call returns, and descriptors are nonnegative. *)
Definition returns {S A} (m : M S A) : Prop :=
  forall s, post (fun _ _ => True) (fun _ _ => False) (m s).
Definition returns_fd {S} (m : M S (sysres Z)) : Prop :=
  forall s, post (fun r _ => if r is SOk d then (0 <= d)%Z else True) (fun _ _ => False) (m s).

Class InotifySpec (W : Type) `{InotifyOS W} := {
  lstat_returns : forall p, returns (sys_lstat p);
  init_returns : returns_fd sys_inotify_init;
  add_watch_returns : forall fd p fl, returns_fd (sys_add_watch fd p fl);
  rm_watch_returns : forall fd d, returns (sys_rm_watch fd d);
  close_returns : forall fd, returns (sys_close fd);
  create_returns : forall p, returns (sys_create p);
  nftw_open_returns : forall p, returns (nftw_open p);
  nftw_next_returns : returns nftw_next;
  read_events_returns : forall fd n, returns (sys_read_events fd n);
  sigalrm_returns : returns sys_sigalrm_handler;
  ualarm_returns : forall n, returns (sys_ualarm n);
  read_stdin_returns : forall n, returns (sys_read_stdin n);
  write_file_returns : forall p b, returns (sys_write_file p b);
  fopen_log_returns : forall p, returns (sys_fopen_log p);
  select_returns : forall fd, returns (sys_select fd)
}.

(** * The operations *)

Section operations.
Context {W : Type} `{InotifyOS W}.
Context (garbage : nat -> watch) (realloc_ok : nat -> bool) (strerror : Z -> bytes).
(** A bound on the number of objects nftw() visits in one walk. *)
Context (walk_fuel : nat).

(** A system call of the program: on failure it sets [errno] and gives [None]. *)
Definition syscall {A} (m : M W (sysres A)) : M (dtree W) (option A) :=
  r ← os m;
  match r with
  | SOk a => mret (Some a)
  | SErr e => set_errno e;; mret None
  end.

Definition errText : M (dtree W) bytes := e ← get_errno; mret (strerror e).

(** Source: book-src/inotify/inotify_dtree.c:89-100 (createStopFileAndAbort). *)
Definition createStopFileAndAbort {A} : M (dtree W) A :=
  s ← mget;
  f ← deref (stopFile (dt_settings s));
  syscall (sys_create f);;
  dumpCacheToLog;;
  abort_.

(** Source: book-src/inotify/inotify_dtree.c:243-272 (findWatchChecked). *)
Definition findWatchChecked (d : Z) : M (dtree W) (option nat) :=
  slot ← findWatch d;
  match slot with
  | Some j => mret (Some j)
  | None =>
      logMessage 0 (str "Could not find watch " ++ print_dec d ++ [newline]);;
      s ← mget;
      if abortOnCacheProblem (dt_settings s) then createStopFileAndAbort
      else mret None
  end.

(** One slot of the consistency check; the result is the number of failures. *)
Definition checkSlot (j : nat) (failures : nat) : M (dtree W) nat :=
  w ← slot_at j;
  if watch_live w then
    r ← syscall (sys_lstat (path w));
    match r with
    | None =>
        e ← errText;
        logMessage 0 (str "checkCacheConsistency: stat: [slot = " ++ print_dec (Z.of_nat j) ++
          str "; wd = " ++ print_dec (wd w) ++ str "] " ++ path w ++ str ": " ++ e ++ [newline]);;
        mret (Datatypes.S failures)
    | Some sb =>
        if st_isdir sb then mret failures
        else
          logMessage 0 (str "checkCacheConsistency: " ++ path w ++
                        str " is not a directory" ++ [newline]);;
          c_exit EXIT_FAILURE
    end
  else mret failures.

Fixpoint checkSlots (js : list nat) (failures : nat) : M (dtree W) nat :=
  match js with
  | [] => mret failures
  | j :: js' => f ← checkSlot j failures; checkSlots js' f
  end.

(** Source: book-src/inotify/inotify_dtree.c:199-228 (checkCacheConsistency). *)
Definition checkCacheConsistency : M (dtree W) unit :=
  s ← mget;
  failures ← checkSlots (seq 0 (length (wlCache s))) 0;
  when (0 <? failures)
    (logMessage VB_NOISY (str "checkCacheConsistency: " ++ print_dec (Z.of_nat failures) ++
                          str " failures" ++ [newline])).

(** The first loop of copyRootDirPaths(): every argument is a directory. *)
Definition checkRootDir (p : bytes) : M (dtree W) unit :=
  r ← syscall (sys_lstat p);
  match r with
  | None => eprintf (str "lstat() failed on '" ++ p ++ str "'" ++ [newline]);; c_exit EXIT_FAILURE
  | Some sb =>
      if st_isdir sb then mret tt
      else eprintf (str "'" ++ p ++ str "' is not a directory" ++ [newline]);; c_exit EXIT_FAILURE
  end.

Definition same_object (a b : stat_t) : bool :=
  (st_ino a =? st_ino b)%Z && (st_dev a =? st_dev b)%Z.

(** The second loop: [seen] are the paths already copied, with their stat
    structures, in order. *)
Fixpoint copyRoots (seen : list (bytes * stat_t)) (ps : list bytes) : M (dtree W) unit :=
  match ps with
  | [] => mret tt
  | p :: ps' =>
      modify (fun s => set_roots (rootDirPaths s ++ [Some p]) (ignoreRootDirs s) s);;
      r ← syscall (sys_lstat p);
      match r with
      | None => errExit strerror (str "lstat")
      | Some sb =>
          match head (filter (fun q => same_object sb q.2 = true) seen) with
          | Some (q, _) =>
              eprintf (str "Duplicate filesystem objects: " ++ p ++ str ", " ++ q ++ [newline]);;
              c_exit EXIT_FAILURE
          | None => copyRoots (seen ++ [(p, sb)]) ps'
          end
      end
  end.

(** Source: book-src/inotify/inotify_dtree.c:382-450 (copyRootDirPaths). *)
Definition copyRootDirPaths (argv : list bytes) : M (dtree W) unit :=
  for_each argv checkRootDir;;
  modify (set_roots [] 0);;
  copyRoots [] argv;;
  modify (fun s => set_roots (rootDirPaths s) 0 s).

Definition bump_dirCnt (c : counters) : counters :=
  Counters (inotifyReadCnt c) (reinitCnt c) (overflowCnt c) (dirCnt c + 1) (ifd c).

(** The function nftw() calls; it returns 0 to go on, always. *)
(** Source: book-src/inotify/inotify_dtree.c:511-565 (traverseTree). *)
Definition traverseTree (pathname : bytes) (sb : stat_t) : M (dtree W) unit :=
  if negb (st_isdir sb) then mret tt
  else
    let flags := Z.lor (Z.lor (Z.lor IN_CREATE IN_MOVED_FROM) IN_MOVED_TO) IN_DELETE_SELF in
    root ← isRootDirPath pathname;
    let flags := if root : bool then Z.lor flags IN_MOVE_SELF else flags in
    fd ← gets (fun s => ifd (dt_counters s));
    d ← syscall (sys_add_watch fd pathname (Z.lor flags IN_ONLYDIR));
    match d with
    | None =>
        e ← get_errno;
        logMessage VB_BASIC (str "inotify_add_watch: " ++ pathname ++ str ": " ++ strerror e ++ [newline]);;
        if (e =? ENOENT)%Z then mret tt else c_exit EXIT_FAILURE
    | Some d =>
        known ← findWatch d;
        match known with
        | Some _ =>
            logMessage VB_BASIC (str "WD " ++ print_dec d ++ str " already in cache (" ++
                                 pathname ++ str ")" ++ [newline])
        | None =>
            modify (fun s => set_counters (bump_dirCnt (dt_counters s)) s);;
            slot ← addWatchToCache garbage realloc_ok strerror d pathname;
            logMessage VB_NOISY (str "    watchDir: wd = " ++ print_dec d ++ str " [cache slot: " ++
              print_dec (Z.of_nat slot) ++ str "]; " ++ pathname ++ [newline])
        end
    end.

(** nftw(pathname, traverseTree, ...): [None] when the walk fails. *)
Definition nftw_traverse (pathname : bytes) : M (dtree W) (option unit) :=
  o ← syscall (nftw_open pathname);
  match o with
  | None => mret None
  | Some _ =>
      iter walk_fuel (fun _ : unit =>
        n ← syscall nftw_next;
        match n with
        | None => mret (inr None)
        | Some None => mret (inr (Some tt))
        | Some (Some (p, sb)) => traverseTree p sb;; mret (inl tt)
        end) tt
  end.

(** Source: book-src/inotify/inotify_dtree.c:567-590 (watchDir). *)
Definition watchDir (inotifyFd : Z) (pathname : bytes) : M (dtree W) Z :=
  modify (fun s => let c := dt_counters s in
    set_counters (Counters (inotifyReadCnt c) (reinitCnt c) (overflowCnt c) 0 inotifyFd) s);;
  r ← nftw_traverse pathname;
  match r with
  | None =>
      e ← errText;
      logMessage VB_BASIC (str "nftw: " ++ pathname ++ str ": " ++ e ++
        str " (directory probably deleted before we could watch)" ++ [newline])
  | Some _ => mret tt
  end;;
  gets (fun s => dirCnt (dt_counters s)).

(** Source: book-src/inotify/inotify_dtree.c:592-604 (watchSubtree). *)
Definition watchSubtree (inotifyFd : Z) (p : bytes) : M (dtree W) unit :=
  cnt ← watchDir inotifyFd p;
  logMessage VB_BASIC (str "    watchSubtree: " ++ p ++ str ": " ++ print_dec cnt ++
                       str " entries added" ++ [newline]).

(** The test of rewriteCachedPaths() and zapSubtree(): [p] is [dir] or lies
    below it. *)
(** Source: book-src/inotify/inotify_dtree.c:671-673 (strncmp(pn, path, len) and path[len]). *)
Definition under (dir p : bytes) : bool :=
  strneq dir p (strlen dir) &&
  (ceq (char_at p (strlen dir)) "/" || ceq (char_at p (strlen dir)) NUL).

(** One slot of rewriteCachedPaths(). *)
(** Source: book-src/inotify/inotify_dtree.c:628-642 (rewriteCachedPaths, loop body). *)
Definition rewriteSlot (fullPath newPrefix : bytes) (j : nat) : M (dtree W) unit :=
  w ← slot_at j;
  when (under fullPath (path w))
    (let text := newPrefix ++ drop (strlen fullPath) (path w) in
     let newPath := snprintf PATH_MAX text in
     when (PATH_MAX <? length text)
       (logMessage VB_BASIC (str "Truncated pathname: " ++ newPath ++ [newline]));;
     modify (fun s => set_cache (<[j := Watch (wd w) (strncpy newPath PATH_MAX)]> (wlCache s)) s);;
     logMessage VB_NOISY (str "    wd " ++ print_dec (wd w) ++ str " [cache slot " ++
       print_dec (Z.of_nat j) ++ str "] ==> " ++ newPath ++ [newline])).

(** Source: book-src/inotify/inotify_dtree.c:608-643 (rewriteCachedPaths). *)
Definition rewriteCachedPaths (oldPathPrefix oldName newPathPrefix newName : bytes)
    : M (dtree W) unit :=
  let fullPath := snprintf PATH_MAX (oldPathPrefix ++ str "/" ++ oldName) in
  let newPrefix := snprintf PATH_MAX (newPathPrefix ++ str "/" ++ newName) in
  logMessage VB_BASIC (str "Rename: " ++ fullPath ++ str " ==> " ++ newPrefix ++ [newline]);;
  s ← mget;
  for_each (seq 0 (length (wlCache s))) (rewriteSlot fullPath newPrefix).

(** The loop of zapSubtree() from slot [js] on, with [cnt] entries zapped so
    far; the result is [None] for -1. *)
(** Source: book-src/inotify/inotify_dtree.c:667-699 (zapSubtree, loop). *)
Fixpoint zapSlots (inotifyFd : Z) (pn : bytes) (js : list nat) (cnt : nat)
    : M (dtree W) (option nat) :=
  match js with
  | [] => mret (Some cnt)
  | j :: js' =>
      w ← slot_at j;
      if watch_live w && under pn (path w) then
        logMessage VB_NOISY (str "    removing watch: wd = " ++ print_dec (wd w) ++ str " (" ++
                             path w ++ str ")" ++ [newline]);;
        r ← syscall (sys_rm_watch inotifyFd (wd w));
        match r with
        | None =>
            e ← errText;
            logMessage 0 (str "inotify_rm_watch wd = " ++ print_dec (wd w) ++ str " (" ++
                          path w ++ str "): " ++ e ++ [newline]);;
            mret None
        | Some _ =>
            markCacheSlotEmpty j;;
            zapSlots inotifyFd pn js' (Datatypes.S cnt)
        end
      else zapSlots inotifyFd pn js' cnt
  end.

(** Source: book-src/inotify/inotify_dtree.c:645-700 (zapSubtree). *)
Definition zapSubtree (inotifyFd : Z) (p : bytes) : M (dtree W) (option nat) :=
  logMessage VB_NOISY (str "Zapping subtree: " ++ p ++ [newline]);;
  s ← mget;
  zapSlots inotifyFd p (seq 0 (length (wlCache s))) 0.

(** Source: book-src/inotify/inotify_dtree.c:702-750 (reinitialize). *)
Definition reinitialize (oldInotifyFd : Z) : M (dtree W) Z :=
  (if (0 <=? oldInotifyFd)%Z then
     syscall (sys_close oldInotifyFd);;
     modify (fun s => let c := dt_counters s in
       set_counters (Counters (inotifyReadCnt c) (reinitCnt c + 1) (overflowCnt c) (dirCnt c) (ifd c)) s);;
     n ← gets (fun s => reinitCnt (dt_counters s));
     logMessage 0 (str "Reinitializing cache and inotify FD (reinitCnt = " ++ print_dec n ++
                   str ")" ++ [newline])
   else
     logMessage 0 (str "Initializing cache" ++ [newline]);;
     modify (fun s => let c := dt_counters s in
       set_counters (Counters (inotifyReadCnt c) 0 (overflowCnt c) (dirCnt c) (ifd c)) s));;
  fd ← syscall sys_inotify_init;
  match fd with
  | None => errExit strerror (str "inotify_init")
  | Some inotifyFd =>
      logMessage VB_BASIC (str "    new inotifyFd = " ++ print_dec inotifyFd ++ [newline]);;
      freeCache;;
      s ← mget;
      for_each (rootDirPaths s) (fun r =>
        match r with
        | Some p => watchSubtree inotifyFd p
        | None => mret tt
        end);;
      s ← mget;
      when (0 <=? oldInotifyFd)%Z
        (logMessage 0 (str "Rebuilt cache with " ++
           print_dec (Z.of_nat (length (filter watch_live (wlCache s)))) ++
           str " entries" ++ [newline]));;
      mret inotifyFd
  end.
End operations.
