(* ===== verification/InotifyEvents.v ===== *)
(** book-src/inotify/inotify_dtree.c, third part: processing inotify events,
    interactive commands and the main loop. *)
From S2P Require Import Prelude CLib Sys InotifyCache InotifyTree.
#[local] Open Scope Z_scope.

(** sizeof(struct inotify_event), and the size of an event with its name. *)
Definition EV_SIZE : Z := 16.
Definition ev_size (e : inotify_event) : Z := EV_SIZE + ev_len e.
Definition total_size (evs : list inotify_event) : Z := foldr (fun e n => ev_size e + n) 0 evs.

(** Source: book-src/inotify/inotify_dtree.c:84-85 (INOTIFY_READ_BUF_LEN). *)
Definition INOTIFY_READ_BUF_LEN : Z := 100 * (EV_SIZE + Z.of_nat NAME_MAX + 1).

(** printf("%4d") *)
Definition pad4 (b : bytes) : bytes := replicate (4 - length b) " "%char ++ b.

Section events.
Context {W : Type} `{InotifyOS W}.
Context (garbage : nat -> watch) (realloc_ok : nat -> bool) (strerror : Z -> bytes).
Context (walk_fuel : nat).
(** What printf("%p") shows for the address of a string. *)
Context (pointer_text : bytes -> bytes).

(** Source: book-src/inotify/inotify_dtree.c:131-170 (displayInotifyEvent). *)
Definition displayInotifyEvent (ev : inotify_event) : M (dtree W) unit :=
  let flag bit name := when (has_bits (ev_mask ev) bit) (logMessage VB_NOISY name) in
  logMessage VB_NOISY (str "==> wd = " ++ print_dec (ev_wd ev) ++ str "; ");;
  when (ev_cookie ev >? 0)
    (logMessage VB_NOISY (str "cookie = " ++ pad4 (print_dec (ev_cookie ev)) ++ str "; "));;
  logMessage VB_NOISY (str "mask = ");;
  flag IN_ISDIR (str "IN_ISDIR ");;
  flag IN_CREATE (str "IN_CREATE ");;
  flag IN_DELETE_SELF (str "IN_DELETE_SELF ");;
  flag IN_MOVE_SELF (str "IN_MOVE_SELF ");;
  flag IN_MOVED_FROM (str "IN_MOVED_FROM ");;
  flag IN_MOVED_TO (str "IN_MOVED_TO ");;
  flag IN_IGNORED (str "IN_IGNORED ");;
  flag IN_Q_OVERFLOW (str "IN_Q_OVERFLOW ");;
  flag IN_UNMOUNT (str "IN_UNMOUNT ");;
  logMessage VB_NOISY [newline];;
  when (ev_len ev >? 0)
    (logMessage VB_NOISY (str "        name = " ++ ev_name ev ++ [newline])).

(** What a branch of processNextInotifyEvent() does next: [Go] on to the
    common end with the number of bytes consumed, or [Stop] with the value
    returned at once; both with the inotify descriptor. *)
Inductive verdict := Go (evLen inotifyFd : Z) | Stop (ret inotifyFd : Z).

(** [wlCache[evCacheSlot]], where [evCacheSlot] may be uninitialised. *)
Definition event_watch (evCacheSlot : option nat) : M (dtree W) watch :=
  j ← deref evCacheSlot; slot_at j.

(** The cache is inconsistent: rebuild it, and discard the read buffer. *)
(** Source: book-src/inotify/inotify_dtree.c:783-789 (processNextInotifyEvent, reinitialize). *)
Definition rebuild (inotifyFd : Z) : M (dtree W) verdict :=
  fd ← reinitialize garbage realloc_ok strerror walk_fuel inotifyFd;
  mret (Stop INOTIFY_READ_BUF_LEN fd).

(** The value computed into [evCacheSlot]: [None] inside [Some] when it is left
    uninitialised, [None] when the watch is not in the cache. *)
(** Source: book-src/inotify/inotify_dtree.c:771-791 (processNextInotifyEvent, lookup). *)
Definition event_slot (ev : inotify_event) : M (dtree W) (option (option nat)) :=
  if negb (ev_wd ev =? -1) && negb (has_bits (ev_mask ev) IN_IGNORED) then
    j ← findWatchChecked (ev_wd ev);
    match j with
    | Some j => mret (Some (Some j))
    | None => mret None
    end
  else mret (Some None).

(** Source: book-src/inotify/inotify_dtree.c:798-837 (processNextInotifyEvent, new directory). *)
Definition handle_new_dir (inotifyFd evLen : Z) (evCacheSlot : option nat) (ev : inotify_event)
    : M (dtree W) verdict :=
  w ← event_watch evCacheSlot;
  let fullPath := snprintf (PATH_MAX + NAME_MAX) (path w ++ str "/" ++ ev_name ev) in
  logMessage VB_BASIC (str "Directory creation on wd " ++ print_dec (ev_wd ev) ++ str ": " ++
                       fullPath ++ [newline]);;
  cached ← pathnameInCache fullPath;
  when (negb cached) (watchSubtree garbage realloc_ok strerror walk_fuel inotifyFd fullPath);;
  mret (Go evLen inotifyFd).

(** Source: book-src/inotify/inotify_dtree.c:839-852 (processNextInotifyEvent, IN_DELETE_SELF). *)
Definition handle_delete_self (inotifyFd evLen : Z) (evCacheSlot : option nat) (ev : inotify_event)
    : M (dtree W) verdict :=
  j ← deref evCacheSlot;
  w ← slot_at j;
  logMessage VB_BASIC (str "Clearing watchlist item " ++ print_dec (ev_wd ev) ++ str " (" ++
                       path w ++ str ")" ++ [newline]);;
  root ← isRootDirPath (path w);
  when root (zapRootDirPath (path w));;
  markCacheSlotEmpty j;;
  mret (Go evLen inotifyFd).

(** [rest] are the events after [ev] in the buffer; [bufSize] counts the
    bytes from [ev] to the end of what was read. *)
(** Source: book-src/inotify/inotify_dtree.c:853-1002 (processNextInotifyEvent, IN_MOVED_FROM). *)
Definition handle_moved_from (inotifyFd evLen bufSize : Z) (firstTry : bool)
    (evCacheSlot : option nat) (ev : inotify_event) (rest : list inotify_event)
    : M (dtree W) verdict :=
  paired ← (if evLen <? bufSize then
              nextEv ← deref (head rest);
              mret (if has_bits (ev_mask nextEv) IN_MOVED_TO && (ev_cookie nextEv =? ev_cookie ev)
                    then Some nextEv else None)
            else mret None);
  match paired with
  | Some nextEv =>
      nextEvCacheSlot ← findWatchChecked (ev_wd nextEv);
      match nextEvCacheSlot with
      | None => rebuild inotifyFd
      | Some j =>
          w ← event_watch evCacheSlot;
          w' ← slot_at j;
          rewriteCachedPaths (path w) (ev_name ev) (path w') (ev_name nextEv);;
          mret (Go (evLen + ev_size nextEv) inotifyFd)
      end
  | None =>
      if (evLen <? bufSize) || negb firstTry then
        w ← event_watch evCacheSlot;
        logMessage VB_NOISY (str "MOVED_OUT: " ++ pointer_text (path w) ++ str " " ++
                             pointer_text (ev_name ev) ++ [newline]);;
        logMessage VB_NOISY (str "firstTry = " ++ (if firstTry then str "1" else str "0") ++
          str "; remaining bytes = " ++ print_dec (bufSize - evLen) ++ [newline]);;
        let fullPath := snprintf (PATH_MAX + NAME_MAX) (path w ++ str "/" ++ ev_name ev) in
        r ← zapSubtree strerror inotifyFd fullPath;
        match r with
        | None => rebuild inotifyFd
        | Some _ => mret (Go evLen inotifyFd)
        end
      else
        logMessage VB_NOISY (str "HANGING IN_MOVED_FROM" ++ [newline]);;
        mret (Stop (-1) inotifyFd)
  end.

(** Source: book-src/inotify/inotify_dtree.c:1004-1023 (processNextInotifyEvent, IN_Q_OVERFLOW). *)
Definition handle_overflow (inotifyFd : Z) : M (dtree W) verdict :=
  modify (fun s => let c := dt_counters s in
    set_counters (Counters (inotifyReadCnt c) (reinitCnt c) (overflowCnt c + 1) (dirCnt c) (ifd c)) s);;
  c ← gets dt_counters;
  logMessage 0 (str "Queue overflow (" ++ print_dec (overflowCnt c) ++ str ") (inotifyReadCnt = " ++
                print_dec (inotifyReadCnt c) ++ str ")" ++ [newline]);;
  fd ← reinitialize garbage realloc_ok strerror walk_fuel inotifyFd;
  mret (Go INOTIFY_READ_BUF_LEN fd).

(** Source: book-src/inotify/inotify_dtree.c:1025-1036 (processNextInotifyEvent, IN_UNMOUNT). *)
Definition handle_unmount (inotifyFd evLen : Z) (evCacheSlot : option nat) : M (dtree W) verdict :=
  j ← deref evCacheSlot;
  w ← slot_at j;
  logMessage 0 (str "Filesystem unmounted: " ++ path w ++ [newline]);;
  markCacheSlotEmpty j;;
  mret (Go evLen inotifyFd).

(** Source: book-src/inotify/inotify_dtree.c:1038-1064 (processNextInotifyEvent, IN_MOVE_SELF). *)
Definition handle_move_self (inotifyFd evLen : Z) (evCacheSlot : option nat) : M (dtree W) verdict :=
  w ← event_watch evCacheSlot;
  root ← isRootDirPath (path w);
  if root : bool then
    logMessage 0 (str "Root path moved: " ++ path w ++ [newline]);;
    zapRootDirPath (path w);;
    r ← zapSubtree strerror inotifyFd (path w);
    match r with
    | None => rebuild inotifyFd
    | Some _ => mret (Go evLen inotifyFd)
    end
  else mret (Go evLen inotifyFd).

(** The chain of tests on the mask. *)
(** Source: book-src/inotify/inotify_dtree.c:793-1064 (processNextInotifyEvent, dispatch). *)
Definition dispatch (inotifyFd bufSize : Z) (firstTry : bool) (evCacheSlot : option nat)
    (ev : inotify_event) (rest : list inotify_event) : M (dtree W) verdict :=
  let evLen := ev_size ev in
  let mask := ev_mask ev in
  if has_bits mask IN_ISDIR && has_bits mask (Z.lor IN_CREATE IN_MOVED_TO) then
    handle_new_dir inotifyFd evLen evCacheSlot ev
  else if has_bits mask IN_DELETE_SELF then
    handle_delete_self inotifyFd evLen evCacheSlot ev
  else if Z.land mask (Z.lor IN_MOVED_FROM IN_ISDIR) =? Z.lor IN_MOVED_FROM IN_ISDIR then
    handle_moved_from inotifyFd evLen bufSize firstTry evCacheSlot ev rest
  else if has_bits mask IN_Q_OVERFLOW then handle_overflow inotifyFd
  else if has_bits mask IN_UNMOUNT then handle_unmount inotifyFd evLen evCacheSlot
  else if has_bits mask IN_MOVE_SELF then handle_move_self inotifyFd evLen evCacheSlot
  else mret (Go evLen inotifyFd).

(** The result is the number of bytes consumed (-1 to ask for another read)
    with the inotify descriptor. *)
(** Source: book-src/inotify/inotify_dtree.c:752-1073 (processNextInotifyEvent). *)
Definition processNextInotifyEvent (inotifyFd : Z) (ev : inotify_event)
    (rest : list inotify_event) (bufSize : Z) (firstTry : bool) : M (dtree W) (Z * Z) :=
  displayInotifyEvent ev;;
  slot ← event_slot ev;
  v ← match slot with
      | None => rebuild inotifyFd
      | Some evCacheSlot => dispatch inotifyFd bufSize firstTry evCacheSlot ev rest
      end;
  match v with
  | Stop ret fd => mret (ret, fd)
  | Go evLen fd =>
      cfg ← gets dt_settings;
      when (checkCache cfg) (checkCacheConsistency strerror);;
      when (dumpCache cfg) dumpCacheToLog;;
      mret (evLen, fd)
  end.

(** The events left [n] bytes further in the buffer. *)
Fixpoint skip_events (n : Z) (evs : list inotify_event) : list inotify_event :=
  match evs with
  | [] => []
  | e :: evs' => if 0 <? n then skip_events (n - ev_size e) evs' else evs
  end.

Definition bump_readCnt (c : counters) : counters :=
  Counters (inotifyReadCnt c + 1) (reinitCnt c) (overflowCnt c) (dirCnt c) (ifd c).

(** The second read, made when an IN_MOVED_FROM ends the buffer: [numRead]
    bytes are left; the result is the new events and the new [numRead]. *)
(** Source: book-src/inotify/inotify_dtree.c:1149-1198 (processInotifyEvents, second read). *)
Definition secondary_read (inotifyFd numRead : Z) : M (dtree W) (list inotify_event * Z) :=
  syscall (sys_ualarm 2000);;
  r ← syscall (sys_read_events inotifyFd (INOTIFY_READ_BUF_LEN - numRead));
  savedErrno ← get_errno;
  syscall (sys_ualarm 0);;
  set_errno savedErrno;;
  let evs := default [] r in
  let nr := match r with Some evs => total_size evs | None => -1 end in
  e ← get_errno;
  (if (nr =? -1) && negb (e =? EINTR) then errExit strerror (str "read") else mret tt);;
  (if nr =? 0 then
     eprintf (str "read() from inotify fd returned 0!");; c_exit EXIT_FAILURE
   else mret tt);;
  e ← get_errno;
  if negb (e =? -1) then
    modify (fun s => set_counters (bump_readCnt (dt_counters s)) s);;
    c ← gets dt_counters;
    logMessage VB_NOISY ([newline] ++ str "==========> SECONDARY Read " ++
      print_dec (inotifyReadCnt c) ++ str ": got " ++ print_dec nr ++ str " bytes" ++ [newline]);;
    mret (evs, numRead + nr)
  else
    logMessage VB_NOISY ([newline] ++ str "==========> SECONDARY Read got nothing" ++ [newline]);;
    mret (evs, numRead).

(** The buffer from [evp] on is the list of its events and the number of bytes
    counted in it. *)
Record cursor := Cursor {
  cu_fd : Z;
  cu_events : list inotify_event;
  cu_bytes : Z;
  cu_firstTry : bool
}.

(** Source: book-src/inotify/inotify_dtree.c:1126-1200 (processInotifyEvents, loop body). *)
Definition process_round (c : cursor) : M (dtree W) (cursor + Z) :=
  if 0 <? cu_bytes c then
    ev ← deref (head (cu_events c));
    '(evLen, fd) ← processNextInotifyEvent (cu_fd c) ev (tail (cu_events c)) (cu_bytes c) (cu_firstTry c);
    if evLen >? 0 then
      mret (inl (Cursor fd (skip_events evLen (cu_events c)) (cu_bytes c - evLen) true))
    else
      '(evs, n) ← secondary_read fd (cu_bytes c);
      mret (inl (Cursor fd (cu_events c ++ evs) n false))
  else mret (inr (cu_fd c)).

(** With -b the read may ask for more than the buffer holds. *)
(** Source: book-src/inotify/inotify_dtree.c:1081-1201 (processInotifyEvents). *)
Definition processInotifyEvents (fuel : nat) (inotifyFd : Z) : M (dtree W) Z :=
  h ← syscall sys_sigalrm_handler;
  (if h is None then errExit strerror (str "sigaction") else mret tt);;
  cfg ← gets dt_settings;
  let cnt := if readBufferSize cfg >? 0 then readBufferSize cfg else INOTIFY_READ_BUF_LEN in
  r ← syscall (sys_read_events inotifyFd cnt);
  match r with
  | None => errExit strerror (str "read")
  | Some evs =>
      let numRead := total_size evs in
      when (INOTIFY_READ_BUF_LEN <? numRead) undefined;;
      (if numRead =? 0 then
         eprintf (str "read() from inotify fd returned 0!");; c_exit EXIT_FAILURE
       else mret tt);;
      modify (fun s => set_counters (bump_readCnt (dt_counters s)) s);;
      c ← gets dt_counters;
      logMessage VB_NOISY ([newline] ++ str "==========> Read " ++ print_dec (inotifyReadCnt c) ++
        str ": got " ++ print_dec numRead ++ str " bytes" ++ [newline]);;
      iter fuel process_round (Cursor inotifyFd evs numRead true)
  end.

(** ** Interactive commands *)

(** Source: book-src/inotify/inotify_dtree.c:1249-1273 (executeCommand, 'c' and 'C'). *)
Fixpoint verify_slots (quiet : bool) (js : list nat) (cnt failures : nat)
    : M (dtree W) (nat * nat) :=
  match js with
  | [] => mret (cnt, failures)
  | j :: js' =>
      w ← slot_at j;
      if watch_live w then
        let slot := str "[slot = " ++ print_dec (Z.of_nat j) ++ str "; wd = " ++
                    print_dec (wd w) ++ str "] " ++ path w in
        r ← syscall (sys_lstat (path w));
        match r with
        | None =>
            e ← errText strerror;
            when (negb quiet) (logMessage VB_BASIC (str "stat: " ++ slot ++ str ": " ++ e ++ [newline]));;
            verify_slots quiet js' cnt (S failures)
        | Some sb =>
            if st_isdir sb then
              when (negb quiet) (logMessage VB_NOISY (str "OK: " ++ slot ++ [newline]));;
              verify_slots quiet js' (S cnt) failures
            else
              when (negb quiet) (logMessage 0 (path w ++ str " is not a directory" ++ [newline]));;
              c_exit EXIT_FAILURE
        end
      else verify_slots quiet js' cnt failures
  end.

(** Source: book-src/inotify/inotify_dtree.c:1281-1292 (executeCommand, 'l'). *)
Fixpoint list_slots (j : nat) (cache : list watch) (cnt : nat) : M (dtree W) nat :=
  match cache with
  | [] => mret cnt
  | w :: cache' =>
      if watch_live w then
        logMessage 0 (print_dec (Z.of_nat j) ++ str ": " ++ print_dec (wd w) ++ str " " ++
                      path w ++ [newline]);;
        list_slots (S j) cache' (S cnt)
      else list_slots (S j) cache' cnt
  end.

(** sscanf(line, "%c %s\n", &cmd, arg): the command and, if there is one, the
    word that follows. *)
Fixpoint word (l : bytes) : bytes :=
  match l with
  | c :: l' => if isspace c then [] else c :: word l'
  | [] => []
  end.
Definition scan_command (line : bytes) : option (ascii * option bytes) :=
  match line with
  | [] => None
  | c :: l => Some (c, match word (skip_space l) with [] => None | w => Some w end)
  end.

Definition set_verbose (v : Z) (c : settings) : settings :=
  Settings v (checkCache c) (dumpCache c) (readBufferSize c) (stopFile c) (abortOnCacheProblem c).
Definition set_check (b : bool) (c : settings) : settings :=
  Settings (verboseMask c) b (dumpCache c) (readBufferSize c) (stopFile c) (abortOnCacheProblem c).
Definition set_dump (b : bool) (c : settings) : settings :=
  Settings (verboseMask c) (checkCache c) b (readBufferSize c) (stopFile c) (abortOnCacheProblem c).
Definition on_off (b : bool) : M (dtree W) unit :=
  printf ((if b then str "on" else str "off") ++ [newline]).

Definition zapped_text (arg : bytes) (r : option nat) : bytes :=
  str "Zapped: " ++ arg ++ str ", " ++
  print_dec (match r with Some n => Z.of_nat n | None => -1 end) ++ str " entries" ++ [newline].

Definition command_help (cmd : ascii) : bytes :=
  str "Unrecognized command: " ++ [cmd; newline] ++ str "Commands:" ++ [newline] ++
  str "0        Rebuild cache" ++ [newline] ++
  str "a path   Add/refresh pathname watches and cache" ++ [newline] ++
  str "c        Verify cached pathnames" ++ [newline] ++
  str "d        Toggle cache dumping" ++ [newline] ++
  str "l        List cached pathnames" ++ [newline] ++
  str "q        Quit" ++ [newline] ++
  str "v [n]    Toggle/set verbose level for messages to stderr" ++ [newline] ++
  str "             0 = no messages" ++ [newline] ++
  str "             1 = basic messages" ++ [newline] ++
  str "             2 = verbose messages" ++ [newline] ++
  str "             3 = basic and verbose messages" ++ [newline] ++
  str "w file   Write directory list to file" ++ [newline] ++
  str "x        Toggle cache checking" ++ [newline] ++
  str "z path   Zap pathname and watches from cache" ++ [newline].

(** Reading [arg] when sscanf() did not store it is undefined. *)
(** Source: book-src/inotify/inotify_dtree.c:1230-1366 (executeCommand, switch). *)
Definition run_command (inotifyFd : Z) (cmd : ascii) (oarg : option bytes) : M (dtree W) Z :=
  if ceq cmd "a" then
    arg ← deref oarg;
    r ← zapSubtree strerror inotifyFd arg;
    (if r is Some O then logMessage VB_BASIC (str "Adding new subtree: " ++ arg ++ [newline])
     else logMessage VB_BASIC (zapped_text arg r));;
    watchSubtree garbage realloc_ok strerror walk_fuel inotifyFd arg;;
    mret inotifyFd
  else if ceq cmd "c" || ceq cmd "C" then
    s ← mget;
    '(cnt, failures) ← verify_slots (ceq cmd "C") (seq 0 (length (wlCache s))) 0 0;
    logMessage 0 (str "Successfully verified " ++ print_dec (Z.of_nat cnt) ++ str " entries" ++ [newline]);;
    logMessage 0 (str "Failures: " ++ print_dec (Z.of_nat failures) ++ [newline]);;
    mret inotifyFd
  else if ceq cmd "l" then
    s ← mget;
    cnt ← list_slots 0 (wlCache s) 0;
    logMessage VB_BASIC (str "Total entries: " ++ print_dec (Z.of_nat cnt) ++ [newline]);;
    mret inotifyFd
  else if ceq cmd "q" then c_exit EXIT_SUCCESS
  else if ceq cmd "v" then
    match oarg with
    | Some arg => modify (fun s => set_settings (set_verbose (atoi arg) (dt_settings s)) s)
    | None =>
        modify (fun s => set_settings (set_verbose
          (if verboseMask (dt_settings s) =? 0 then 1 else 0) (dt_settings s)) s);;
        s ← mget;
        on_off (negb (verboseMask (dt_settings s) =? 0))
    end;;
    mret inotifyFd
  else if ceq cmd "d" then
    modify (fun s => set_settings (set_dump (negb (dumpCache (dt_settings s))) (dt_settings s)) s);;
    s ← mget; on_off (dumpCache (dt_settings s));;
    mret inotifyFd
  else if ceq cmd "x" then
    modify (fun s => set_settings (set_check (negb (checkCache (dt_settings s))) (dt_settings s)) s);;
    s ← mget; on_off (checkCache (dt_settings s));;
    mret inotifyFd
  else if ceq cmd "w" then
    arg ← deref oarg;
    s ← mget;
    r ← syscall (sys_write_file arg
          (concat ((fun w => path w ++ [newline]) <$>
                   filter (fun w => watch_live w = true) (wlCache s))));
    match r with
    | Some _ => mret inotifyFd
    | None =>                       (* fprintf(NULL), fclose(NULL) *)
        e ← errText strerror; eprintf (str "fopen: " ++ e ++ [newline]);; undefined
    end
  else if ceq cmd "z" then
    arg ← deref oarg;
    r ← zapSubtree strerror inotifyFd arg;
    logMessage VB_BASIC (zapped_text arg r);;
    mret inotifyFd
  else if ceq cmd "0" then
    syscall (sys_close inotifyFd);;
    reinitialize garbage realloc_ok strerror walk_fuel (-1)
  else printf (command_help cmd);; mret inotifyFd.

(** Source: book-src/inotify/inotify_dtree.c:1208-1367 (executeCommand). *)
Definition executeCommand (inotifyFd : Z) : M (dtree W) Z :=
  numRead ← syscall (sys_read_stdin 100);
  match numRead with
  | None | Some [] => printf (str "bye!" ++ [newline]);; c_exit EXIT_FAILURE
  | Some bs =>
      let line := cstring (take (length bs - 1) bs) in
      match scan_command line with
      | None => mret inotifyFd
      | Some (cmd, arg) => run_command inotifyFd cmd arg
      end
  end.

(** ** main() *)

Definition usage_text (pname : bytes) : bytes :=
  str "Usage: " ++ pname ++ str " [options] directory-path" ++ [newline; newline] ++
  str "    -v lvl   Display logging information" ++ [newline] ++
  str "    -l file  Send logging information to a file" ++ [newline] ++
  str "    -x       Check cache consistency after each operation" ++ [newline] ++
  str "    -d       Dump cache to log after every operation" ++ [newline] ++
  str "    -b size  Set buffer size for read() from inotify FD" ++ [newline] ++
  str "    -a file  Abort when cache inconsistency detected, and create 'stop' file" ++ [newline].

(** Source: book-src/inotify/inotify_dtree.c:1371-1387 (usageError). *)
Definition usageError {A} (pname : bytes) : M (dtree W) A :=
  eprintf (usage_text pname);; c_exit EXIT_FAILURE.

(** One result of getopt(3): the option and [optarg]. *)
(** Source: book-src/inotify/inotify_dtree.c:1405-1437 (main, option switch). *)
Definition main_option (pname : bytes) (o : ascii * bytes) : M (dtree W) unit :=
  let '(opt, optarg) := o in
  let upd f := modify (fun s => set_settings (f (dt_settings s)) s) in
  if ceq opt "a" then
    upd (fun c => Settings (verboseMask c) (checkCache c) (dumpCache c) (readBufferSize c) (Some optarg) true)
  else if ceq opt "x" then upd (set_check true)
  else if ceq opt "d" then upd (set_dump true)
  else if ceq opt "v" then upd (set_verbose (atoi optarg))
  else if ceq opt "b" then
    upd (fun c => Settings (verboseMask c) (checkCache c) (dumpCache c) (atoi optarg) (stopFile c) (abortOnCacheProblem c))
  else if ceq opt "l" then
    r ← syscall (sys_fopen_log optarg);
    match r with
    | None => errExit strerror (str "fopen")
    | Some _ => modify (set_log (Some []))
    end
  else usageError pname.

(** One turn of the main loop. *)
(** Source: book-src/inotify/inotify_dtree.c:1457-1473 (main, loop body). *)
Definition main_round (fuel : nat) (pname : bytes) (inotifyFd : Z) : M (dtree W) Z :=
  r ← syscall (sys_select (inotifyFd + 1));
  match r with
  | None => errExit strerror (str "select")
  | Some rfds =>
      inotifyFd ← (if bool_decide (0 ∈ rfds) then
          fd ← executeCommand inotifyFd;
          printf (pname ++ str "> ");; fflush_stdout;; mret fd
        else mret inotifyFd);
      if bool_decide (inotifyFd ∈ rfds) then processInotifyEvents fuel inotifyFd
      else mret inotifyFd
  end.

(** [opts] are the results of getopt(3), [operands] the remaining arguments;
    [turns] bounds the turns of the endless loop. *)
(** Source: book-src/inotify/inotify_dtree.c:1389-1476 (main). *)
Definition main (fuel turns : nat) (pname : bytes) (opts : list (ascii * bytes))
    (operands : list bytes) : M (dtree W) unit :=
  modify (fun s => set_settings (Settings 0 false false (readBufferSize (dt_settings s)) None false) s);;
  for_each opts (main_option pname);;
  (if operands is [] then usageError pname else mret tt);;
  copyRootDirPaths strerror operands;;
  fd ← reinitialize garbage realloc_ok strerror walk_fuel (-1);
  printf (pname ++ str "> ");; fflush_stdout;;
  iter turns (fun fd => fd' ← main_round fuel pname fd; mret (inl fd')) fd.
End events.
