(* ===== verification/InotifyInv.v ===== *)
(** The watch cache of inotify_dtree.c: its well-formedness invariant, kept by
    every operation however it ends, and what the operations on subtrees do. *)
From S2P Require Import Prelude CLib Sys InotifyCache InotifyTree InotifyEvents.

#[local] Opaque ALLOC_INCR PATH_MAX NAME_MAX.

(** * Well-formed caches *)

(** A slot is either unused (descriptor -1, empty path) or has a nonnegative
    descriptor, and no two slots have the same descriptor in use. *)
Definition slot_ok (w : watch) : Prop := w = empty_slot \/ (0 <= wd w)%Z.

Definition wds_unique (cache : list watch) : Prop :=
  forall i j wi wj, cache !! i = Some wi -> cache !! j = Some wj ->
    (0 <= wd wi)%Z -> wd wi = wd wj -> i = j.

Record cache_ok (cache : list watch) : Prop := {
  cache_slots : Forall slot_ok cache;
  cache_unique : wds_unique cache
}.

(** [ignoreRootDirs] counts the root paths that were zapped. *)
Definition roots_ok (roots : list (option bytes)) (ignored : Z) : Prop :=
  ignored = Z.of_nat (length (filter (fun r => r = None) roots)).

Lemma find_slot_Some p cache j :
  find_slot p cache = Some j ->
  exists w, cache !! j = Some w /\ p w = true /\
    forall i w', i < j -> cache !! i = Some w' -> p w' = false.
Proof.
  revert j. induction cache as [|w cache IH]; intros j; simpl; [done|].
  destruct (p w) eqn:Hp.
  - intros [= <-]. exists w. split_and!; [done|done|]. intros. lia.
  - destruct (find_slot p cache) as [k|]; [|done]. intros [= <-].
    destruct (IH k eq_refl) as (w' & Hl & Hw' & Hbefore). exists w'. split_and!; [done|done|].
    intros [|i] w'' Hi; simpl; [by intros [= <-]|]. apply Hbefore. lia.
Qed.

Lemma find_slot_None p cache : find_slot p cache = None <-> Forall (fun w => p w = false) cache.
Proof.
  induction cache as [|w cache IH]; simpl; [split; [constructor|done]|].
  rewrite Forall_cons. destruct (p w) eqn:Hp; [split; [done|by intros [? _]]|].
  rewrite fmap_None, IH. tauto.
Qed.

Lemma cache_ok_nil : cache_ok [].
Proof. split; [constructor|]. intros i j wi wj. by rewrite lookup_nil. Qed.

Lemma cache_ok_app_empty cache n : cache_ok cache -> cache_ok (cache ++ replicate n empty_slot).
Proof.
  intros [Hs Hu]. split.
  - apply Forall_app. split; [done|]. apply Forall_replicate. by left.
  - assert (Hlive : forall i w, (cache ++ replicate n empty_slot) !! i = Some w ->
      (0 <= wd w)%Z -> cache !! i = Some w).
    { intros i w Hi Hw. apply lookup_app_Some in Hi as [Hi|[_ Hi]]; [done|].
      apply lookup_replicate in Hi as [-> _]. simpl in Hw. lia. }
    intros i j wi wj Hi Hj Hw Heq. eapply Hu; eauto. apply Hlive; [done|lia].
Qed.

Lemma cache_ok_clear cache j : cache_ok cache -> cache_ok (<[j := empty_slot]> cache).
Proof.
  intros [Hs Hu]. split.
  - apply Forall_insert; [done|]. by left.
  - assert (Hlive : forall i w, <[j := empty_slot]> cache !! i = Some w ->
      (0 <= wd w)%Z -> cache !! i = Some w).
    { intros i w Hi Hw. apply list_lookup_insert_Some in Hi as [(_ & <- & _)|[_ Hi]]; [|done].
      simpl in Hw. lia. }
    intros i k wi wk Hi Hk Hw Heq. eapply Hu; eauto. apply Hlive; [done|lia].
Qed.

Lemma cache_ok_fill cache j d p :
  cache_ok cache -> (0 <= d)%Z -> Forall (fun w => (wd w =? d)%Z = false) cache ->
  cache_ok (<[j := Watch d p]> cache).
Proof.
  intros [Hs Hu] Hd Hfresh. split.
  - apply Forall_insert; [done|]. by right.
  - assert (Hne : forall i w, cache !! i = Some w -> wd w <> d).
    { intros i w Hi. rewrite Forall_lookup in Hfresh. specialize (Hfresh i w Hi). lia. }
    intros i k wi wk Hi Hk Hw Heq.
    apply list_lookup_insert_Some in Hi as [(-> & <- & _)|[Hij Hi]];
    apply list_lookup_insert_Some in Hk as [(-> & <- & _)|[Hkj Hk]]; simpl in *.
    + done.
    + by destruct (Hne _ _ Hk).
    + by destruct (Hne _ _ Hi).
    + eauto.
Qed.

(** Changing the path of a slot in use. *)
Lemma cache_ok_repath cache j w p :
  cache_ok cache -> cache !! j = Some w -> (0 <= wd w)%Z ->
  cache_ok (<[j := Watch (wd w) p]> cache).
Proof.
  intros [Hs Hu] Hj Hw. split.
  - apply Forall_insert; [done|]. by right.
  - assert (Hback : forall i w', <[j := Watch (wd w) p]> cache !! i = Some w' ->
      exists w0, cache !! i = Some w0 /\ wd w0 = wd w').
    { intros i w' Hi. apply list_lookup_insert_Some in Hi as [(-> & <- & _)|[_ Hi]]; eauto. }
    intros i k wi wk Hi Hk Hwi Heq.
    destruct (Hback _ _ Hi) as (wi' & Hi' & Ei). destruct (Hback _ _ Hk) as (wk' & Hk' & Ek).
    eapply (Hu i k wi' wk'); eauto; congruence.
Qed.

(** * Operations that leave the cache and the roots alone *)

Section inv.
Context {W : Type}.

Definition view (s : dtree W) : list watch * list (option bytes) * Z :=
  (wlCache s, rootDirPaths s, ignoreRootDirs s).

Definition quiet {A} (m : M (dtree W) A) : Prop := forall v, keeps (fun s => view s = v) m.

Lemma quiet_keeps {A} (P : list watch * list (option bytes) * Z -> Prop) (m : M (dtree W) A) :
  quiet m -> keeps (fun s => P (view s)) m.
Proof.
  intros Hm s Hs. eapply post_mono; [| |exact (Hm (view s) s eq_refl)]; simpl; intros ? ? ->; done.
Qed.

Lemma quiet_bind {A B} (m : M (dtree W) A) (k : A -> M (dtree W) B) :
  quiet m -> (forall a, quiet (k a)) -> quiet (m ≫= k).
Proof. intros Hm Hk v. apply keeps_bind; [apply Hm|]. intros a. apply Hk. Qed.
Lemma quiet_ret {A} (a : A) : quiet (mret a).
Proof. intros v. apply keeps_ret. Qed.
Lemma quiet_gets {A} (f : dtree W -> A) : quiet (gets f).
Proof. intros v. apply keeps_gets. Qed.
Lemma quiet_mget : quiet mget.
Proof. intros v. apply keeps_mget. Qed.
Lemma quiet_exit {A} n : quiet (@exit_ (dtree W) A n).
Proof. intros v. apply keeps_exit. Qed.
Lemma quiet_abort {A} : quiet (@abort_ (dtree W) A).
Proof. intros v. apply keeps_abort. Qed.
Lemma quiet_undefined {A} : quiet (@undefined (dtree W) A).
Proof. intros v. apply keeps_undefined. Qed.
Lemma quiet_deref {A} (o : option A) : quiet (deref o : M (dtree W) A).
Proof. intros v. apply keeps_deref. Qed.
Lemma quiet_when b m : quiet m -> quiet (when b m : M (dtree W) unit).
Proof. intros Hm v. apply keeps_when, Hm. Qed.
Lemma quiet_modify f : (forall s, view (f s) = view s) -> quiet (modify f).
Proof. intros Hf v. apply keeps_modify. intros s. by rewrite Hf. Qed.
Lemma quiet_for_each {X} (l : list X) (f : X -> M (dtree W) unit) :
  (forall x, quiet (f x)) -> quiet (for_each l f).
Proof. intros Hf v. apply keeps_for_each. intros. apply Hf. Qed.

Ltac quiet_step :=
  match goal with
  | |- quiet (mret _) => apply quiet_ret
  | |- quiet (mbind _ _) => apply quiet_bind
  | |- quiet (gets _) => apply quiet_gets
  | |- quiet mget => apply quiet_mget
  | |- quiet (exit_ _) => apply quiet_exit
  | |- quiet abort_ => apply quiet_abort
  | |- quiet undefined => apply quiet_undefined
  | |- quiet (deref _) => apply quiet_deref
  | |- quiet (when _ _) => apply quiet_when
  | |- quiet (for_each _ _) => apply quiet_for_each
  | |- quiet (modify _) => apply quiet_modify; intros []; reflexivity
  | |- forall _, _ => intros ?
  | |- quiet (match ?x with _ => _ end) => destruct x
  | |- quiet _ => solve [eauto with quiet nocore]
  end.
Ltac quiet_tac := repeat quiet_step.

Create HintDb quiet discriminated.

Lemma quiet_printf t : quiet (printf t).
Proof. unfold printf. quiet_tac. Qed.
Lemma quiet_eprintf t : quiet (eprintf t).
Proof. unfold eprintf. quiet_tac. Qed.
Lemma quiet_fflush : quiet fflush_stdout.
Proof. unfold fflush_stdout. quiet_tac. Qed.
Lemma quiet_get_errno : quiet get_errno.
Proof. unfold get_errno. quiet_tac. Qed.
Lemma quiet_set_errno e : quiet (set_errno e).
Proof. unfold set_errno. quiet_tac. Qed.
#[local] Hint Resolve quiet_printf quiet_eprintf quiet_fflush quiet_get_errno quiet_set_errno : quiet.

Lemma quiet_c_exit {A} n : quiet (@c_exit (dtree W) _ A n).
Proof. unfold c_exit. quiet_tac. Qed.
#[local] Hint Resolve quiet_c_exit : quiet.
Lemma quiet_errExit {A} strerror msg : quiet (@errExit W strerror A msg).
Proof. unfold errExit. quiet_tac. Qed.
Lemma quiet_log m t : quiet (logMessage (W := W) m t).
Proof.
  unfold logMessage. quiet_tac. apply quiet_modify. intros s. by destruct (dt_log s).
Qed.
#[local] Hint Resolve quiet_errExit quiet_log : quiet.
Lemma quiet_fprintf_log t : quiet (fprintf_log (W := W) t).
Proof. unfold fprintf_log. quiet_tac. Qed.
#[local] Hint Resolve quiet_fprintf_log : quiet.
Lemma quiet_findWatch d : quiet (findWatch (W := W) d).
Proof. unfold findWatch. quiet_tac. Qed.
Lemma quiet_slot_at j : quiet (slot_at (W := W) j).
Proof. unfold slot_at. quiet_tac. Qed.
Lemma quiet_pathnameInCache p : quiet (pathnameInCache (W := W) p).
Proof. unfold pathnameInCache, pathnameToCacheSlot. quiet_tac. Qed.
Lemma quiet_isRootDirPath p : quiet (isRootDirPath (W := W) p).
Proof. unfold isRootDirPath, findRootDirPath. quiet_tac. Qed.
Lemma quiet_dumpCacheToLog : quiet (dumpCacheToLog (W := W)).
Proof. unfold dumpCacheToLog. quiet_tac. Qed.
#[local] Hint Resolve quiet_findWatch quiet_slot_at quiet_pathnameInCache quiet_isRootDirPath
  quiet_dumpCacheToLog : quiet.

Context {HOS : InotifyOS W} {HSP : InotifySpec W}.
Context (garbage : nat -> watch) (realloc_ok : nat -> bool) (strerror : Z -> bytes).
Context (walk_fuel : nat) (pointer_text : bytes -> bytes).

Lemma quiet_os {A} (m : M W A) : quiet (os m).
Proof.
  intros v s Hs. unfold os. destruct (m (dt_world s)) as [[] w]; exact Hs.
Qed.
#[local] Hint Resolve quiet_os : quiet.
Lemma quiet_syscall {A} (m : M W (sysres A)) : quiet (syscall m).
Proof. unfold syscall. quiet_tac. Qed.
Lemma quiet_errText : quiet (errText (W := W) strerror).
Proof. unfold errText. quiet_tac. Qed.
#[local] Hint Resolve quiet_syscall quiet_errText : quiet.
Lemma quiet_findWatchChecked d : quiet (findWatchChecked (W := W) d).
Proof. unfold findWatchChecked, createStopFileAndAbort. quiet_tac. Qed.
Lemma quiet_checkCacheConsistency : quiet (checkCacheConsistency (W := W) strerror).
Proof.
  assert (Hs : forall js f, quiet (checkSlots (W := W) strerror js f)).
  { intros js. induction js as [|j js IH]; intros f; simpl; unfold checkSlot; quiet_tac. }
  unfold checkCacheConsistency. quiet_tac.
Qed.
Lemma quiet_display ev : quiet (displayInotifyEvent (W := W) ev).
Proof. unfold displayInotifyEvent. quiet_tac. Qed.
#[local] Hint Resolve quiet_findWatchChecked quiet_checkCacheConsistency quiet_display : quiet.
Lemma quiet_secondary_read fd n : quiet (secondary_read (W := W) strerror fd n).
Proof. unfold secondary_read. quiet_tac. Qed.
Lemma quiet_event_slot ev : quiet (event_slot (W := W) ev).
Proof. unfold event_slot. quiet_tac. Qed.
Lemma quiet_event_watch o : quiet (event_watch (W := W) o).
Proof. unfold event_watch. quiet_tac. Qed.
#[local] Hint Resolve quiet_secondary_read quiet_event_slot quiet_event_watch : quiet.

(** * The invariant *)

Definition view_ok (v : list watch * list (option bytes) * Z) : Prop :=
  let '(cache, roots, ignored) := v in cache_ok cache /\ roots_ok roots ignored.
Definition Inv (s : dtree W) : Prop := view_ok (view s).

Lemma inv_view s s' : view s' = view s -> Inv s -> Inv s'.
Proof. unfold Inv. by intros ->. Qed.

Lemma inv_quiet {A} (m : M (dtree W) A) : quiet m -> keeps Inv m.
Proof. apply quiet_keeps. Qed.

Lemma inv_modify_cache f :
  (forall c, cache_ok c -> cache_ok (f c)) ->
  keeps Inv (modify (fun s => set_cache (f (wlCache s)) s)).
Proof. intros Hf. apply keeps_modify. intros s [Hc Hr]. split; [by apply Hf|done]. Qed.

(** A log message always returns. *)
Lemma logMessage_run m t (s : dtree W) :
  exists s', logMessage m t s = (Done tt, s') /\ view s' = view s.
Proof.
  unfold logMessage, eprintf. munfold.
  destruct ((m =? 0)%Z || _); simpl; destruct (dt_log s) eqn:Hl; simpl; rewrite ?Hl; eauto.
Qed.

Lemma markCacheSlotEmpty_run j w (s : dtree W) :
  wlCache s !! j = Some w ->
  exists s', markCacheSlotEmpty j s = (Done tt, s') /\
    view s' = (<[j := empty_slot]> (wlCache s), rootDirPaths s, ignoreRootDirs s).
Proof.
  intros Hj. unfold markCacheSlotEmpty, slot_at. munfold. rewrite Hj.
  edestruct logMessage_run as (s' & -> & Hv). eexists. split; [done|].
  unfold view in *. simpl. injection Hv as -> -> ->. done.
Qed.

Lemma keeps_markCacheSlotEmpty j : keeps Inv (markCacheSlotEmpty (W := W) j).
Proof.
  unfold markCacheSlotEmpty. apply keeps_bind; [apply inv_quiet; quiet_tac|]. intros w.
  apply keeps_bind; [apply inv_quiet; quiet_tac|]. intros _.
  apply inv_modify_cache. intros c Hc. by apply cache_ok_clear.
Qed.

(** Clearing freshly allocated slots, whatever they contained. *)
Lemma clear_fresh_run pre fresh (s : dtree W) :
  wlCache s = pre ++ fresh ->
  exists s', for_each (seq (length pre) (length fresh)) markCacheSlotEmpty s = (Done tt, s') /\
    view s' = (pre ++ replicate (length fresh) empty_slot, rootDirPaths s, ignoreRootDirs s).
Proof.
  revert pre s. induction fresh as [|w fresh IH]; intros pre s Hs; simpl.
  - exists s. split; [done|]. unfold view. by rewrite Hs.
  - destruct (markCacheSlotEmpty_run (length pre) w s) as (s1 & Hrun & Hv).
    { rewrite Hs. by apply list_lookup_middle. }
    rewrite (bind_done _ _ _ _ _ Hrun). unfold view in Hv. injection Hv as Hv1 Hv2 Hv3.
    destruct (IH (pre ++ [empty_slot]) s1) as (s2 & Hrun2 & Hw2).
    { rewrite Hv1, Hs. rewrite insert_app_r_alt by lia. rewrite Nat.sub_diag. simpl.
      by rewrite <- app_assoc. }
    rewrite length_app in Hrun2. simpl in Hrun2. rewrite Nat.add_1_r in Hrun2.
    exists s2. split; [exact Hrun2|]. rewrite Hw2, Hv2, Hv3, <- app_assoc. done.
Qed.

(** The cache holds no watch [d]. *)
Definition fresh_wd (d : Z) (s : dtree W) : Prop :=
  Forall (fun w => (wd w =? d)%Z = false) (wlCache s).

Lemma findEmptyCacheSlot_spec d :
  (0 <= d)%Z ->
  triple (fun s => Inv s /\ fresh_wd d s) (findEmptyCacheSlot (W := W) garbage realloc_ok strerror)
    (fun _ s => Inv s /\ fresh_wd d s) (fun _ => Inv).
Proof.
  intros Hd s [Hinv Hfresh]. unfold findEmptyCacheSlot. apply post_bind. simpl.
  destruct (find_slot _ (wlCache s)); [done|]. destruct (realloc_ok _).
  - apply post_bind. simpl.
    set (s1 := set_cache _ s). set (g := garbage <$> seq (length (wlCache s)) ALLOC_INCR).
    destruct (clear_fresh_run (wlCache s) g s1) as (s2 & Hrun & Hv); [done|].
    replace (length g) with ALLOC_INCR in * by (unfold g; by rewrite length_fmap, length_seq).
    rewrite (bind_done _ _ _ _ _ Hrun). simpl. unfold Inv, fresh_wd. rewrite Hv.
    injection Hv as -> _ _. destruct Hinv as [Hc Hr]. split.
    + split; [by apply cache_ok_app_empty|done].
    + apply Forall_app. split; [done|]. apply Forall_replicate. apply Z.eqb_neq. unfold empty_slot. simpl. lia.
  - assert (Hq : forall s', view s' = view s -> post (fun _ s => Inv s /\ fresh_wd d s)
              (fun _ => Inv) (@errExit W strerror nat (str "realloc") s')).
    { intros s' Hs'. unfold errExit, c_exit, get_errno, eprintf, fflush_stdout. munfold. simpl.
      unfold Inv in *. rewrite <- Hs' in Hinv. exact Hinv. }
    by apply post_bind, Hq.
Qed.

Lemma addWatchToCache_keeps d p :
  (0 <= d)%Z ->
  triple (fun s => Inv s /\ fresh_wd d s)
    (addWatchToCache (W := W) garbage realloc_ok strerror d p) (fun _ => Inv) (fun _ => Inv).
Proof.
  intros Hd. unfold addWatchToCache.
  eapply triple_bind; [by apply findEmptyCacheSlot_spec|]. intros slot s [[Hc Hr] Hf].
  apply post_bind. simpl. split; [by apply cache_ok_fill|done].
Qed.

(** A system call's result, with the invariant kept. *)
Lemma syscall_inv {A} (m : M W (sysres A)) : keeps Inv (syscall m).
Proof. apply inv_quiet. quiet_tac. Qed.

Lemma add_watch_spec fd p fl :
  triple Inv (syscall (sys_add_watch fd p fl))
    (fun r s => Inv s /\ match r with Some d => (0 <= d)%Z | None => True end) (fun _ => Inv).
Proof.
  intros s Hs. unfold syscall, os. apply post_bind.
  pose proof (add_watch_returns fd p fl (dt_world s)) as Hr. 
  destruct (sys_add_watch fd p fl (dt_world s)) as [[[d|e]| | | |] w]; simpl in *; done.
Qed.

Lemma findWatch_spec d :
  triple Inv (findWatch (W := W) d)
    (fun r s => Inv s /\ (r = None -> fresh_wd d s)) (fun _ => Inv).
Proof. intros s Hs. simpl. split; [done|]. apply find_slot_None. Qed.

Lemma keeps_traverseTree p sb :
  keeps Inv (traverseTree (W := W) garbage realloc_ok strerror p sb).
Proof.
  unfold traverseTree. destruct (negb (st_isdir sb)); [apply keeps_ret|].
  apply keeps_bind; [apply inv_quiet; quiet_tac|]. intros root.
  apply keeps_bind; [apply keeps_gets|]. intros fd.
  eapply triple_bind; [apply add_watch_spec|]. intros [d|].
  - intros s [Hs Hd]. revert s Hs. change (keeps Inv (r ← findWatch d;
      match r with
      | Some _ => logMessage VB_BASIC (str "WD " ++ print_dec d ++ str " already in cache (" ++
                                 p ++ str ")" ++ [newline])
      | None =>
            modify (fun s => set_counters (bump_dirCnt (dt_counters s)) s);;
            slot ← addWatchToCache garbage realloc_ok strerror d p;
            logMessage VB_NOISY (str "    watchDir: wd = " ++ print_dec d ++ str " [cache slot: " ++
              print_dec (Z.of_nat slot) ++ str "]; " ++ p ++ [newline])
      end : M (dtree W) unit)).
    eapply triple_bind; [apply findWatch_spec|]. intros [j|] s [Hs Hf].
    + by apply inv_quiet; [quiet_tac|].
    + apply post_bind. simpl. apply post_bind.
      eapply post_mono; [| |apply (addWatchToCache_keeps d p Hd)]; [| done |].
      * intros slot s' Hs'. by apply inv_quiet; [quiet_tac|].
      * split; [exact Hs|]. by apply Hf.
  - intros s [Hs _]. apply (inv_quiet (e ← get_errno;
        logMessage VB_BASIC (str "inotify_add_watch: " ++ p ++ str ": " ++ strerror e ++ [newline]);;
        if (e =? ENOENT)%Z then mret tt else c_exit EXIT_FAILURE)); [quiet_tac|done].
Qed.

Lemma keeps_watchSubtree fd p :
  keeps Inv (watchSubtree (W := W) garbage realloc_ok strerror walk_fuel fd p).
Proof.
  unfold watchSubtree, watchDir, nftw_traverse.
  apply keeps_bind; [|intros; apply inv_quiet; quiet_tac].
  apply keeps_bind; [apply inv_quiet; quiet_tac|]. intros _.
  apply keeps_bind; [|intros [?|]; apply inv_quiet; quiet_tac].
  apply keeps_bind; [apply syscall_inv|]. intros [u|]; [|apply keeps_ret].
  apply keeps_iter. intros ?. apply keeps_bind; [apply syscall_inv|].
  intros [[[q sb]|]|]; [|apply keeps_ret..].
  apply keeps_bind; [apply keeps_traverseTree|]. intros; apply keeps_ret.
Qed.

(** [under] never holds of the empty path of an unused slot. *)
Lemma under_nonempty dir : dir <> [] -> under dir [] = false.
Proof.
  intros Hne. unfold under, strneq. rewrite take_nil. destruct dir; [done|]. done.
Qed.

Lemma keeps_rewriteSlot full newp j :
  full <> [] -> keeps Inv (rewriteSlot (W := W) full newp j).
Proof.
  intros Hne s Hs. unfold rewriteSlot, slot_at. apply post_bind, post_bind. simpl.
  destruct (wlCache s !! j) as [w|] eqn:Hj; simpl; [|exact Hs].
  destruct (under full (path w)) eqn:Hu; simpl; [|exact Hs].
  assert (Hw : (0 <= wd w)%Z).
  { destruct Hs as [[Hsl _] _]. rewrite Forall_lookup in Hsl. specialize (Hsl _ _ Hj).
    destruct Hsl as [->|?]; [|done]. simpl in Hu. by rewrite under_nonempty in Hu. }
  apply post_bind. set (s1 := s) in *.
  assert (Hlog : quiet (when (PATH_MAX <? length (newp ++ drop (strlen full) (path w)))
       (logMessage (W := W) VB_BASIC (str "Truncated pathname: " ++
          snprintf PATH_MAX (newp ++ drop (strlen full) (path w)) ++ [newline])))) by quiet_tac.
  eapply post_mono; [| |exact (Hlog (view s) s eq_refl)]; cbv beta; [|intros e s' Hv; by apply (inv_view s)].
  intros _ s2 Hv2. apply post_bind. cbn [post modify].
  eapply post_mono; [| |apply (inv_quiet (logMessage _ _)); [quiet_tac|]]; [done|done|].
  injection Hv2 as Hc2 Hr2 Hi2. unfold Inv, view. simpl. rewrite Hc2, Hr2, Hi2.
  destruct Hs as [Hc Hr]. split; [by apply cache_ok_repath|done].
Qed.

(** Follows the structure of a computation: quiet parts at once, the others
    by their lemmas. *)
Ltac inv_step :=
  match goal with
  | |- forall _, _ => intros ?
  | |- keeps Inv _ => solve [apply inv_quiet; quiet_tac]
  | |- keeps Inv _ => solve [eauto with inv nocore]
  | |- keeps Inv (mbind _ _) => apply keeps_bind
  | |- keeps Inv (when _ _) => apply keeps_when
  | |- keeps Inv (for_each _ _) => apply keeps_for_each
  | |- keeps Inv (iter _ _ _) => apply keeps_iter
  | |- keeps Inv (match ?x with _ => _ end) => destruct x
  end.
Ltac inv_tac := repeat inv_step.

Create HintDb inv discriminated.
#[local] Hint Resolve keeps_markCacheSlotEmpty keeps_watchSubtree : inv.

Lemma rename_nonempty old name : snprintf PATH_MAX (old ++ str "/" ++ name) <> [].
Proof. unfold snprintf. change (PATH_MAX - 1) with (S (PATH_MAX - 2)). by destruct old. Qed.

Lemma keeps_rewriteCachedPaths a b c d : keeps Inv (rewriteCachedPaths (W := W) a b c d).
Proof.
  unfold rewriteCachedPaths. inv_tac. apply keeps_rewriteSlot, rename_nonempty.
Qed.

Lemma keeps_zapSlots fd pn js cnt : keeps Inv (zapSlots (W := W) strerror fd pn js cnt).
Proof. revert cnt. induction js as [|j js IH]; intros cnt; simpl; inv_tac. Qed.
#[local] Hint Resolve keeps_rewriteCachedPaths keeps_zapSlots : inv.

Lemma keeps_zapSubtree fd p : keeps Inv (zapSubtree (W := W) strerror fd p).
Proof. unfold zapSubtree. inv_tac. Qed.

Lemma keeps_reinitialize fd :
  keeps Inv (reinitialize (W := W) garbage realloc_ok strerror walk_fuel fd).
Proof.
  assert (Hfree : keeps Inv (freeCache (W := W))).
  { apply (inv_modify_cache (fun _ => [])). intros. apply cache_ok_nil. }
  unfold reinitialize. inv_tac.
Qed.
#[local] Hint Resolve keeps_zapSubtree keeps_reinitialize : inv.

(** ** Root paths *)

Lemma roots_ok_zap roots n j p :
  roots_ok roots n -> roots !! j = Some (Some p) ->
  roots_ok (<[j := None]> roots) (n + 1)%Z.
Proof.
  unfold roots_ok. intros -> Hj. revert j Hj.
  induction roots as [|r roots IH]; intros [|j]; simpl; [done..| |].
  - intros [= ->]. rewrite !filter_cons. simpl. lia.
  - intros Hj. specialize (IH j Hj). rewrite !filter_cons.
    destruct r; simpl in *; rewrite ?decide_True, ?decide_False by done; simpl; lia.
Qed.

Lemma find_root_Some p roots j : find_root p roots = Some j -> roots !! j = Some (Some p).
Proof.
  revert j. induction roots as [|[q|] l IH]; intros j; [done| |]; simpl.
  - unfold streq. case_bool_decide as Hq; [by intros [= <-]; subst|].
    intros H. apply fmap_Some in H as (k & Hk & ->). by apply IH.
  - intros H. apply fmap_Some in H as (k & Hk & ->). by apply IH.
Qed.

Lemma keeps_zapRootDirPath p : keeps Inv (zapRootDirPath (W := W) p).
Proof.
  unfold zapRootDirPath. apply keeps_bind; [inv_tac|]. intros _.
  intros s Hs. apply post_bind. unfold findRootDirPath. cbn [post gets].
  destruct (find_root p (rootDirPaths s)) as [j|] eqn:Hf.
  - apply post_bind. cbn [post modify].
    match goal with |- post _ _ (?m _) => apply (inv_quiet m); [quiet_tac|] end.
    destruct Hs as [Hc Hr]. split; [exact Hc|]. simpl.
    eapply roots_ok_zap; [exact Hr|]. by apply find_root_Some.
  - match goal with |- post _ _ (?m _) => apply (inv_quiet m); [quiet_tac|exact Hs] end.
Qed.
#[local] Hint Resolve keeps_zapRootDirPath : inv.

(** * Events and commands *)

Lemma keeps_rebuild fd :
  keeps Inv (rebuild (W := W) garbage realloc_ok strerror walk_fuel fd).
Proof. unfold rebuild. inv_tac. Qed.
#[local] Hint Resolve keeps_rebuild : inv.

Lemma keeps_dispatch fd n first slot ev rest :
  keeps Inv (dispatch (W := W) garbage realloc_ok strerror walk_fuel pointer_text
               fd n first slot ev rest).
Proof.
  unfold dispatch, handle_new_dir, handle_delete_self, handle_moved_from, handle_overflow,
    handle_unmount, handle_move_self. inv_tac.
Qed.
#[local] Hint Resolve keeps_dispatch : inv.

Lemma keeps_processNextInotifyEvent fd ev rest n first :
  keeps Inv (processNextInotifyEvent (W := W) garbage realloc_ok strerror walk_fuel pointer_text
               fd ev rest n first).
Proof. unfold processNextInotifyEvent. inv_tac. Qed.
#[local] Hint Resolve keeps_processNextInotifyEvent : inv.

Lemma keeps_processInotifyEvents fuel fd :
  keeps Inv (processInotifyEvents (W := W) garbage realloc_ok strerror walk_fuel pointer_text fuel fd).
Proof. unfold processInotifyEvents, process_round. inv_tac. Qed.

Lemma quiet_verify_slots q js c f : quiet (verify_slots (W := W) strerror q js c f).
Proof. revert c f. induction js as [|j js IH]; intros c f; simpl; quiet_tac. Qed.
Lemma quiet_list_slots j c n : quiet (list_slots (W := W) j c n).
Proof. revert j n. induction c as [|w c IH]; intros j n; simpl; quiet_tac. Qed.
#[local] Hint Resolve quiet_verify_slots quiet_list_slots : quiet.
#[local] Hint Resolve keeps_processInotifyEvents : inv.

Lemma keeps_executeCommand fd :
  keeps Inv (executeCommand (W := W) garbage realloc_ok strerror walk_fuel fd).
Proof. unfold executeCommand, run_command. inv_tac. Qed.
#[local] Hint Resolve keeps_executeCommand : inv.

(** The root paths while they are copied. *)
Lemma roots_ok_add roots n p : roots_ok roots n -> roots_ok (roots ++ [Some p]) n.
Proof. unfold roots_ok. intros ->. by rewrite filter_app, length_app, Nat.add_0_r. Qed.

(** No root has been zapped yet. *)
Definition Inv0 (s : dtree W) : Prop := Inv s /\ ignoreRootDirs s = 0%Z.

Lemma inv0_quiet {A} (m : M (dtree W) A) : quiet m -> keeps Inv0 m.
Proof. apply (quiet_keeps (fun v => view_ok v /\ v.2 = 0%Z)). Qed.

Lemma keeps_copyRoots seen ps : keeps Inv0 (copyRoots (W := W) strerror seen ps).
Proof.
  revert seen. induction ps as [|p ps IH]; intros seen; [apply keeps_ret|]. simpl.
  apply keeps_bind.
  - apply keeps_modify. intros s [[Hc Hr] H0]. split; [|done]. split; [done|]. by apply roots_ok_add.
  - intros _. apply keeps_bind; [apply inv0_quiet; quiet_tac|]. intros [sb|];
      [|apply inv0_quiet; quiet_tac].
    destruct (head _) as [[q ?]|]; [apply inv0_quiet; quiet_tac|apply IH].
Qed.

Lemma copyRootDirPaths_spec ps :
  triple (fun s => cache_ok (wlCache s)) (copyRootDirPaths (W := W) strerror ps)
    (fun _ => Inv0) (fun _ s => cache_ok (wlCache s)).
Proof.
  unfold copyRootDirPaths.
  eapply triple_bind.
  { eapply (quiet_keeps (fun v => cache_ok v.1.1)). unfold checkRootDir. quiet_tac. }
  intros ?. eapply (triple_bind _ _ _ (fun _ => Inv0)); [intros s Hs; by split|].
  intros ?. eapply (triple_bind _ _ _ (fun _ => Inv0)).
  { eapply triple_conseq; [| | |apply (keeps_copyRoots [] ps)]; [done|done|]. by intros e s [[? _] _]. }
  intros ? s [[Hc Hr] H0]. simpl. rewrite <- H0. by split.
Qed.

Lemma quiet_main_option pname o : quiet (main_option (W := W) strerror pname o).
Proof. destruct o as [opt arg]. unfold main_option, usageError. quiet_tac.  Qed.

Lemma keeps_main fuel turns pname opts operands :
  triple (fun s => cache_ok (wlCache s))
    (main (W := W) garbage realloc_ok strerror walk_fuel pointer_text fuel turns pname opts operands)
    (fun _ => Inv) (fun _ s => cache_ok (wlCache s)).
Proof.
  assert (HI : forall e : ending, forall s, Inv s -> cache_ok (wlCache s)) by (by intros _ s [? _]).
  assert (Hq : forall A (m : M (dtree W) A), quiet m -> keeps (fun s => cache_ok (wlCache s)) m).
  { intros A m. apply (quiet_keeps (fun v => cache_ok v.1.1)). }
  unfold main. eapply triple_bind; [apply Hq; quiet_tac|]. intros ?.
  eapply triple_bind; [apply Hq; quiet_tac; apply quiet_main_option|]. intros ?.
  eapply triple_bind; [apply Hq; unfold usageError; quiet_tac|]. intros ?.
  eapply triple_bind; [apply copyRootDirPaths_spec|]. intros ?.
  eapply (triple_conseq _ Inv _ _ (fun _ => Inv) _ (fun _ => Inv)); [by intros s []|done|apply HI|].
  apply keeps_bind; [inv_tac|]. intros fd. unfold main_round. inv_tac.
Qed.
End inv.
