(* ===== verification/InotifyProps.v ===== *)
(** inotify_dtree.c: what its operations on cached subtrees do, how the event
    loop advances, and the invariant of the whole program. *)
From S2P Require Import Prelude CLib Sys InotifyCache InotifyTree InotifyEvents InotifyInv.

#[local] Opaque ALLOC_INCR PATH_MAX NAME_MAX.

(** * Reference definitions *)

(** The cached pathname after the rename of [full] to [newp]. *)
Definition renamed (full newp : bytes) (w : watch) : watch :=
  if under full (path w)
  then Watch (wd w) (strncpy (snprintf PATH_MAX (newp ++ drop (strlen full) (path w))) PATH_MAX)
  else w.

(** A slot after a subtree was dropped. *)
Definition zapped (p : bytes) (w : watch) : watch :=
  if watch_live w && under p (path w) then empty_slot else w.
Definition hit (p : bytes) (w : watch) : bool := watch_live w && under p (path w).

(** A C string holds no null character. *)
Definition cstr (p : bytes) : Prop := NUL ∉ p.

Lemma ceq_true c d : ceq c d = true <-> c = d.
Proof. unfold ceq. apply bool_decide_eq_true. Qed.

(** [under dir p] says that the directory [dir] is [p] or one of its parents,
    component-wise: "/a" is not above "/ab". *)
Lemma under_spec dir p : cstr p ->
  under dir p = true <-> p = dir \/ exists r, p = dir ++ ("/"%char :: r).
Proof.
  intros Hp. unfold under. rewrite andb_true_iff, strneq_prefix, orb_true_iff, !ceq_true.
  unfold char_at, strlen. split.
  - intros [[r ->] Hc]. rewrite lookup_app_r, Nat.sub_diag in Hc by lia.
    destruct r as [|c r]; simpl in Hc; [left; by rewrite app_nil_r|]. right.
    destruct Hc as [->| ->]; [by exists r|]. exfalso. apply Hp. apply elem_of_app. right. by left.
  - intros [->|[r ->]].
    + split; [by exists []; rewrite app_nil_r|]. right. by rewrite lookup_ge_None_2.
    + split; [by eexists|]. left. by rewrite list_lookup_middle.
Qed.

(** The rename of a cached path below [full], in a form without buffers. *)
Lemma renamed_under full newp w r :
  path w = full ++ r -> under full (path w) = true -> length (newp ++ r) < PATH_MAX ->
  renamed full newp w = Watch (wd w) (newp ++ r).
Proof.
  intros Hp Hu Hl. unfold renamed. rewrite Hu, Hp. unfold strlen, snprintf, strncpy.
  rewrite drop_app_length, (take_ge (newp ++ r) (PATH_MAX - 1)) by lia.
  by rewrite take_ge by lia.
Qed.

(** Paths that a rename from [full] to [newp] can be undone for. *)
Definition renameable (full newp : bytes) (w : watch) : Prop :=
  cstr (path w) /\ length (path w) < PATH_MAX /\
  length newp + length (path w) < PATH_MAX /\ under newp (path w) = false.

Lemma renamed_back full newp w :
  cstr newp -> renameable full newp w -> renamed newp full (renamed full newp w) = w.
Proof.
  intros Hn (Hp & Hl & Hl2 & Hu). destruct (under full (path w)) eqn:Hf.
  - assert (exists r, path w = full ++ r /\ (r = [] \/ exists r', r = "/"%char :: r')) as (r & Hr & Hc).
    { apply under_spec in Hf as [->|[r ->]]; [exists []|exists ("/"%char :: r)|done];
        split; rewrite ?app_nil_r; eauto. }
    rewrite (renamed_under full newp w r); [|done|done|rewrite Hr, length_app in Hl2; rewrite length_app; lia].
    rewrite (renamed_under newp full _ r); simpl; [by rewrite <- Hr; destruct w|done| |by rewrite <- Hr].
    apply under_spec.
    + unfold cstr in *. rewrite Hr, elem_of_app in Hp. rewrite elem_of_app. tauto.
    + destruct Hc as [->|[r' ->]]; [left; by rewrite app_nil_r|right; eauto].
  - unfold renamed at 2. rewrite Hf. unfold renamed. by rewrite Hu.
Qed.

Section props.
Context {W : Type} {HOS : InotifyOS W}.
Context (garbage : nat -> watch) (realloc_ok : nat -> bool) (strerror : Z -> bytes).
Context (walk_fuel : nat) (pointer_text : bytes -> bytes).

(** Runs the first log message of the goal. *)
Ltac log_step s' Hv :=
  match goal with
  | |- context [logMessage ?m ?t ?s] =>
      let H := fresh in destruct (logMessage_run m t s) as (s' & H & Hv); rewrite H; clear H
  end.

(** ** Renaming *)

Lemma rewriteSlot_run full newp j w (s : dtree W) :
  wlCache s !! j = Some w ->
  exists s', rewriteSlot full newp j s = (Done tt, s') /\
    view s' = (<[j := renamed full newp w]> (wlCache s), rootDirPaths s, ignoreRootDirs s).
Proof.
  intros Hj. unfold rewriteSlot, slot_at, renamed. 
  unfold mbind at 1. unfold M_bind at 1. munfold. rewrite Hj. 
  destruct (under full (path w)); [|exists s; by rewrite list_insert_id].
  set (b := PATH_MAX <? _).
  assert (Hlog : exists s1, (if b then logMessage VB_BASIC (str "Truncated pathname: " ++
       snprintf PATH_MAX (newp ++ drop (strlen full) (path w)) ++ [newline])
     else fun s => (Done tt, s)) s = (Done tt, s1) /\ view s1 = view s).
  { destruct b; [apply logMessage_run|by exists s]. }
  destruct Hlog as (s1 & -> & Hv1). injection Hv1 as Hc1 Hr1 Hi1.
  log_step s2 Hv2. exists s2. split; [done|]. rewrite Hv2. unfold view. simpl. by rewrite Hc1, Hr1, Hi1.
Qed.

(** A loop over the slots that maps a function over the cache. *)
Lemma slots_map_run (body : nat -> M (dtree W) unit) (f : watch -> watch) :
  (forall j w s, wlCache s !! j = Some w -> exists s', body j s = (Done tt, s') /\
      view s' = (<[j := f w]> (wlCache s), rootDirPaths s, ignoreRootDirs s)) ->
  forall post pre s, wlCache s = pre ++ post ->
  exists s', for_each (seq (length pre) (length post)) body s = (Done tt, s') /\
    view s' = (pre ++ (f <$> post), rootDirPaths s, ignoreRootDirs s).
Proof.
  intros Hb post. induction post as [|w post IH]; intros pre s Hs; simpl.
  - exists s. split; [done|]. unfold view. by rewrite Hs.
  - destruct (Hb (length pre) w s) as (s1 & Hrun & Hv).
    { rewrite Hs. by apply list_lookup_middle. }
    rewrite (bind_done _ _ _ _ _ Hrun). injection Hv as Hv1 Hv2 Hv3.
    destruct (IH (pre ++ [f w]) s1) as (s2 & Hrun2 & Hw2).
    { rewrite Hv1, Hs, insert_app_r_alt, Nat.sub_diag by lia. simpl. by rewrite <- app_assoc. }
    rewrite length_app in Hrun2. simpl in Hrun2. rewrite Nat.add_1_r in Hrun2.
    exists s2. split; [exact Hrun2|]. rewrite Hw2, Hv2, Hv3, <- app_assoc. done.
Qed.

(** The prefixes that rewriteCachedPaths() builds. *)
Definition joined (dir name : bytes) : bytes := snprintf PATH_MAX (dir ++ str "/" ++ name).

Lemma rewriteCachedPaths_run oldDir oldName newDir newName (s : dtree W) :
  exists s', rewriteCachedPaths oldDir oldName newDir newName s = (Done tt, s') /\
    wlCache s' = renamed (joined oldDir oldName) (joined newDir newName) <$> wlCache s /\
    rootDirPaths s' = rootDirPaths s /\ ignoreRootDirs s' = ignoreRootDirs s.
Proof.
  unfold rewriteCachedPaths, joined. set (full := snprintf _ _). set (newp := snprintf _ _).
  unfold mbind at 1. unfold M_bind at 1. log_step s1 Hv.
  injection Hv as Hc Hr Hi. cbn [mbind M_bind mget].
  destruct (slots_map_run (rewriteSlot full newp) (renamed full newp)
              (fun j w s => rewriteSlot_run full newp j w s) (wlCache s1) [] s1 eq_refl)
    as (s2 & Hrun & Hv2).
  exists s2. split; [exact Hrun|]. injection Hv2 as -> -> ->. by rewrite Hc, Hr, Hi.
Qed.

(** rewriteCachedPaths() always returns, replaces the prefix of exactly the
    cached pathnames equal to or below the old directory, and leaves the
    descriptors, the order of the slots, the other pathnames and the root
    paths as they were. *)
Theorem rewriteCachedPaths_correct oldDir oldName newDir newName (s : dtree W) :
  exists s', rewriteCachedPaths oldDir oldName newDir newName s = (Done tt, s') /\
    wlCache s' = renamed (joined oldDir oldName) (joined newDir newName) <$> wlCache s /\
    rootDirPaths s' = rootDirPaths s /\ ignoreRootDirs s' = ignoreRootDirs s.
Proof. apply rewriteCachedPaths_run. Qed.

(** Renaming a cached directory to a name that no cached path has, and then
    back, restores the cache: no pathname outside the directory is touched
    (in particular not those that merely have its name as a prefix), none is lost. *)
Theorem rewriteCachedPaths_undo dir name dir' name' (s : dtree W) :
  cstr (joined dir' name') ->
  Forall (renameable (joined dir name) (joined dir' name')) (wlCache s) ->
  exists s', (rewriteCachedPaths dir name dir' name';; rewriteCachedPaths dir' name' dir name) s
               = (Done tt, s') /\ wlCache s' = wlCache s.
Proof.
  intros Hn Hall.
  destruct (rewriteCachedPaths_run dir name dir' name' s) as (s1 & H1 & Hc1 & _).
  destruct (rewriteCachedPaths_run dir' name' dir name s1) as (s2 & H2 & Hc2 & _).
  exists s2. rewrite (bind_done _ _ _ _ _ H1). split; [exact H2|].
  rewrite Hc2, Hc1, <- list_fmap_compose. rewrite <- (list_fmap_id (wlCache s)) at 2.
  apply list_fmap_ext. intros i w Hi. rewrite Forall_lookup in Hall. simpl.
  eapply renamed_back; eauto.
Qed.

(** ** Dropping a subtree *)

Context {HSP : InotifySpec W}.

(** The states a zap may end in: everything under [p] dropped, or stopped at a
    slot that could not be. *)
Definition zap_result (p : bytes) (cnt : nat) (pre post : list watch) (s0 : dtree W)
    (r : option nat) (s : dtree W) : Prop :=
  rootDirPaths s = rootDirPaths s0 /\ ignoreRootDirs s = ignoreRootDirs s0 /\
  match r with
  | Some n => n = cnt + length (filter (fun w => hit p w = true) post) /\
              wlCache s = pre ++ (zapped p <$> post)
  | None => exists post1 w post2, post = post1 ++ w :: post2 /\ hit p w = true /\
              wlCache s = pre ++ (zapped p <$> post1) ++ w :: post2
  end.

Lemma zap_result_cons p cnt pre post s0 s1 r s w :
  rootDirPaths s1 = rootDirPaths s0 -> ignoreRootDirs s1 = ignoreRootDirs s0 ->
  zap_result p (if hit p w then S cnt else cnt) (pre ++ [zapped p w]) post s1 r s ->
  zap_result p cnt pre (w :: post) s0 r s.
Proof.
  intros Hr Hi (Hr1 & Hi1 & H). split_and!; [congruence..|]. destruct r as [n|].
  - destruct H as [-> ->]. rewrite filter_cons, <- app_assoc. split; [|done].
    destruct (hit p w) eqn:Hw; [rewrite decide_True by done|rewrite decide_False by done]; simpl; lia.
  - destruct H as (post1 & w' & post2 & -> & Hw & ->). exists (w :: post1), w', post2.
    split_and!; [done|done|]. by rewrite <- app_assoc.
Qed.

Lemma zapSlots_run fd p post pre cnt (s : dtree W) :
  wlCache s = pre ++ post ->
  Prelude.post (zap_result p cnt pre post s) (fun _ _ => False)
    (zapSlots strerror fd p (seq (length pre) (length post)) cnt s).
Proof.
  revert pre cnt s. induction post as [|w post IH]; intros pre cnt s Hs; simpl.
  { split_and!; [done..|by rewrite Nat.add_0_r|done]. }
  assert (Hj : wlCache s !! length pre = Some w) by (rewrite Hs; by apply list_lookup_middle).
  assert (Hnext : forall cnt' s', view s' = (pre ++ zapped p w :: post, rootDirPaths s, ignoreRootDirs s) ->
    cnt' = (if hit p w then S cnt else cnt) ->
    Prelude.post (zap_result p cnt pre (w :: post) s) (fun _ _ => False)
      (zapSlots strerror fd p (seq (S (length pre)) (length post)) cnt' s')).
  { intros cnt' s' Hv Hcnt. injection Hv as Hc Hr Hi.
    specialize (IH (pre ++ [zapped p w]) cnt' s'). rewrite length_app, Nat.add_1_r in IH.
    eapply post_mono; [| |apply IH]; [|done|rewrite Hc, <- app_assoc; done].
    intros r s'' Hz. eapply zap_result_cons; [exact Hr|exact Hi|]. by rewrite <- Hcnt. }
  apply post_bind. unfold slot_at. munfold. rewrite Hj. cbn [Prelude.post].
  fold (hit p w). destruct (hit p w) eqn:Hh.
  2:{ apply Hnext; [|done]. unfold view, zapped. fold (hit p w). by rewrite Hh, Hs. }
  log_step s1 Hv1. injection Hv1 as Hc1 Hr1 Hi1.
  pose proof (rm_watch_returns fd (wd w) (dt_world s1)) as Hret.
  unfold syscall, os. munfold. destruct (sys_rm_watch fd (wd w) (dt_world s1)) as [[[u|e]| | | |] w1]; [| |done..].
  - cbn -[seq zapSlots markCacheSlotEmpty].
    destruct (markCacheSlotEmpty_run (length pre) w (set_world w1 s1)) as (s2 & -> & Hv2).
    { simpl. by rewrite Hc1. }
    apply Hnext; [|done]. rewrite Hv2. simpl. rewrite Hc1, Hr1, Hi1, Hs.
    rewrite insert_app_r_alt, Nat.sub_diag by lia. simpl. unfold zapped. fold (hit p w). by rewrite Hh.
  - unfold set_errno, errText, get_errno. munfold. log_step s2 Hv2.
    injection Hv2 as Hc2 Hr2 Hi2. simpl in *. split_and!; [congruence..|].
    exists [], w, post. split_and!; [done|done|]. by rewrite Hc2, Hc1, Hs.
Qed.

Lemma zapSubtree_run fd p (s : dtree W) :
  Prelude.post (zap_result p 0 [] (wlCache s) s) (fun _ _ => False) (zapSubtree strerror fd p s).
Proof.
  unfold zapSubtree. apply post_bind. log_step s1 Hv1. injection Hv1 as Hc Hr Hi.
  apply post_bind. cbn [Prelude.post mget].
  eapply post_mono; [| |apply (zapSlots_run fd p (wlCache s1) [] 0 s1 eq_refl)]; [|done].
  intros r s'. unfold zap_result. by rewrite Hc, Hr, Hi.
Qed.

(** zapSubtree() always returns. A result other than -1 is the number of
    cached directories that were equal to or below the path; they are all
    dropped, and every other slot, including the directories whose names
    merely start like the path, is as before. A result of -1 means that
    inotify_rm_watch() failed on one of them: those before it are dropped,
    and it and everything after are as before. *)
Theorem zapSubtree_correct fd p (s : dtree W) :
  Prelude.post (fun r s' =>
    match r with
    | Some n => n = length (filter (fun w => hit p w = true) (wlCache s)) /\
                wlCache s' = zapped p <$> wlCache s /\
                Forall (fun w => hit p w = false) (wlCache s')
    | None => exists done w rest, wlCache s = done ++ w :: rest /\ hit p w = true /\
                wlCache s' = (zapped p <$> done) ++ w :: rest
    end) (fun _ _ => False) (zapSubtree strerror fd p s).
Proof.
  eapply post_mono; [| |apply zapSubtree_run]; [|done].
  intros [n|] s' (_ & _ & H); [|done]. destruct H as [-> ->]. split_and!; [done|done|].
  apply Forall_fmap, Forall_true. intros w. simpl. unfold zapped. fold (hit p w).
  by destruct (hit p w) eqn:Hw.
Qed.

(** ** Advancing through the event buffer *)

(** The only verdicts an event can have. *)
Definition verdict_ok (ev : inotify_event) (n : Z) (first : bool) (v : verdict) : Prop :=
  match v with
  | Go l _ => (0 < l)%Z
  | Stop r _ => r = INOTIFY_READ_BUF_LEN \/
      r = (-1)%Z /\ first = true /\ (n <= ev_size ev)%Z /\
      Z.land (ev_mask ev) (Z.lor IN_MOVED_FROM IN_ISDIR) = Z.lor IN_MOVED_FROM IN_ISDIR
  end.

(** [yields Q m]: whatever state [m] starts from, a normal result satisfies [Q]. *)
Definition yields {A} (Q : A -> Prop) (m : M (dtree W) A) : Prop :=
  forall s, Prelude.post (fun a _ => Q a) (fun _ _ => True) (m s).

Lemma yields_bind {A B} (m : M (dtree W) A) (k : A -> M (dtree W) B) Q :
  (forall a, yields Q (k a)) -> yields Q (m ≫= k).
Proof.
  intros Hk s. apply post_bind. specialize (Hk). destruct (m s) as [[a| | | |] s']; simpl; try done.
  apply Hk.
Qed.
Lemma yields_bind' {A B} (m : M (dtree W) A) (k : A -> M (dtree W) B) R Q :
  yields R m -> (forall a, R a -> yields Q (k a)) -> yields Q (m ≫= k).
Proof.
  intros Hm Hk s. apply post_bind. specialize (Hm s).
  destruct (m s) as [[a| | | |] s']; simpl in *; try done. by apply Hk.
Qed.
Lemma yields_ret {A} (a : A) (Q : A -> Prop) : Q a -> yields Q (mret a : M (dtree W) A).
Proof. by intros H s. Qed.

Ltac yields_step :=
  match goal with
  | |- yields _ (mbind _ _) => apply yields_bind
  | |- forall _, _ => intros ?
  | |- yields _ (if ?b then _ else _) => destruct b eqn:?
  | |- yields _ (match ?x with _ => _ end) => destruct x
  | |- yields _ (mret _) => apply yields_ret
  end.

(** The length field of an event is unsigned. *)
Definition ev_ok (ev : inotify_event) : Prop := (0 <= ev_len ev)%Z.

Lemma buf_len_pos : (0 < INOTIFY_READ_BUF_LEN)%Z.
Proof. unfold INOTIFY_READ_BUF_LEN, EV_SIZE. lia. Qed.

Lemma ev_size_pos ev : ev_ok ev -> (0 < ev_size ev)%Z.
Proof. unfold ev_ok, ev_size, EV_SIZE. lia. Qed.

Lemma rebuild_yields fd ev n first :
  yields (verdict_ok ev n first) (rebuild (W := W) garbage realloc_ok strerror walk_fuel fd).
Proof. unfold rebuild. repeat yields_step. by left. Qed.

Lemma handle_moved_from_yields fd n first slot ev rest :
  ev_ok ev -> Forall ev_ok rest ->
  Z.land (ev_mask ev) (Z.lor IN_MOVED_FROM IN_ISDIR) = Z.lor IN_MOVED_FROM IN_ISDIR ->
  yields (verdict_ok ev n first) (handle_moved_from (W := W) garbage realloc_ok strerror walk_fuel
    pointer_text fd (ev_size ev) n first slot ev rest).
Proof.
  intros Hev Hrest Hmask. pose proof (ev_size_pos ev Hev). unfold handle_moved_from.
  apply (yields_bind' _ _ (fun o => if o is Some e then ev_ok e else True)).
  { destruct rest as [|e rest]; simpl.
    - destruct (_ <? _)%Z; [intros s; done|by apply yields_ret].
    - destruct (_ <? _)%Z; [|by apply yields_ret]. intros s. simpl.
      destruct (_ && _); [by apply Forall_cons in Hrest as [? _]|done]. }
  intros [e|] He.
  - pose proof (ev_size_pos e He).
    repeat first [apply rebuild_yields | yields_step]. simpl. lia.
  - destruct ((ev_size ev <? n)%Z || negb first) eqn:Hc.
    + repeat first [apply rebuild_yields | yields_step]. simpl. lia.
    + apply orb_false_iff in Hc as [Hn Hf]. destruct first; [|done].
      repeat yields_step. right. split_and!; [done|done|lia|done].
Qed.

Lemma dispatch_yields fd n first slot ev rest :
  ev_ok ev -> Forall ev_ok rest ->
  yields (verdict_ok ev n first) (dispatch (W := W) garbage realloc_ok strerror walk_fuel
    pointer_text fd n first slot ev rest).
Proof.
  intros Hev Hrest. pose proof (ev_size_pos ev Hev). unfold dispatch.
  destruct (_ && _); [unfold handle_new_dir; repeat yields_step; simpl; lia|].
  destruct (has_bits _ IN_DELETE_SELF); [unfold handle_delete_self; repeat yields_step; simpl; lia|].
  destruct (_ =? _)%Z eqn:Hm; [apply handle_moved_from_yields; [done|done|lia]|].
  destruct (has_bits _ IN_Q_OVERFLOW).
  { pose proof buf_len_pos. unfold handle_overflow. repeat yields_step. simpl. lia. }
  destruct (has_bits _ IN_UNMOUNT); [unfold handle_unmount; repeat yields_step; simpl; lia|].
  destruct (has_bits _ IN_MOVE_SELF); [|apply yields_ret; simpl; lia].
  unfold handle_move_self. repeat first [apply rebuild_yields | yields_step]; simpl; lia.
Qed.

Lemma next_yields fd ev rest n first :
  ev_ok ev -> Forall ev_ok rest ->
  yields (fun r : Z * Z => (0 < r.1)%Z \/ r.1 = (-1)%Z /\ first = true /\ (n <= ev_size ev)%Z /\
      Z.land (ev_mask ev) (Z.lor IN_MOVED_FROM IN_ISDIR) = Z.lor IN_MOVED_FROM IN_ISDIR)
    (processNextInotifyEvent (W := W) garbage realloc_ok strerror walk_fuel
       pointer_text fd ev rest n first).
Proof.
  intros Hev Hrest. unfold processNextInotifyEvent. do 2 (apply yields_bind; intros ?).
  apply (yields_bind' _ _ (verdict_ok ev n first)).
  { destruct a0; [by apply dispatch_yields|apply rebuild_yields]. }
  intros [l fd'|r fd'] Hv; simpl in Hv.
  - repeat yields_step; by left.
  - apply yields_ret. simpl. destruct Hv as [->|Hv]; [left; apply buf_len_pos|by right].
Qed.

Lemma secondary_yields fd n :
  yields (fun _ => True) (secondary_read (W := W) strerror fd n).
Proof. intros s. by destruct (secondary_read strerror fd n s) as [[] ?]. Qed.

(** Every round of the event loop gets on: it leaves when the buffer is used
    up; otherwise it either consumes at least the event at hand, or, and only
    when that is a directory's IN_MOVED_FROM at the end of the buffer met for the
    first time, it asks for one more read and keeps all the events it had.
    In the round after such a read the event is always consumed. *)
Theorem process_round_progress c :
  Forall ev_ok (cu_events c) ->
  yields (fun r =>
    match r with
    | inr fd => (cu_bytes c <= 0)%Z /\ fd = cu_fd c
    | inl c' =>
        (cu_bytes c' < cu_bytes c)%Z /\ cu_firstTry c' = true /\
          length (cu_events c') < length (cu_events c)
        \/
        cu_firstTry c = true /\ cu_firstTry c' = false /\
          exists ev evs, head (cu_events c) = Some ev /\ cu_events c' = cu_events c ++ evs /\
            (cu_bytes c <= ev_size ev)%Z /\ has_bits (ev_mask ev) IN_MOVED_FROM = true
    end)
    (process_round (W := W) garbage realloc_ok strerror walk_fuel pointer_text c).
Proof.
  intros Hall. unfold process_round. destruct (0 <? cu_bytes c)%Z eqn:Hn;
    [|apply yields_ret; split; [lia|done]].
  destruct (cu_events c) as [|ev evs] eqn:Hevs; [by intros s|].
  apply Forall_cons in Hall as [Hev Hrest].
  apply (yields_bind' _ _ (fun e => e = ev)); [by intros s|]. intros ? ->.
  eapply yields_bind'; [by apply next_yields|]. intros [l fd] Hr. simpl in Hr.
  destruct (l >? 0)%Z eqn:Hl.
  - apply yields_ret. left. simpl. split_and!; [lia|done|].
    assert (Hskip : forall es k, length (skip_events k es) <= length es).
    { induction es as [|e es IH]; intros k; simpl; [lia|]. destruct (0 <? k)%Z; simpl; [|lia].
      specialize (IH (k - ev_size e)%Z). lia. }
    destruct (0 <? l)%Z eqn:?; [|lia]. specialize (Hskip evs (l - ev_size ev)%Z). lia.
  - destruct Hr as [Hr|(-> & Hf & Hle & Hm)]; [lia|]. eapply yields_bind'; [apply secondary_yields|].
    intros [evs' n] _. apply yields_ret. right. split_and!; [done|done|].
    exists ev, evs'. split_and!; [done|done|done|].
    unfold has_bits. destruct (Z.eqb_spec (Z.land (ev_mask ev) IN_MOVED_FROM) 0) as [E|]; [|done].
    exfalso. apply (f_equal (fun z => Z.land z IN_MOVED_FROM)) in Hm.
    rewrite <- Z.land_assoc in Hm. change (Z.land (ev_mask ev) IN_MOVED_FROM = IN_MOVED_FROM) in Hm.
    rewrite E in Hm. done.
Qed.

(** ** The second read *)

Definition readCnt (s : dtree W) : Z := inotifyReadCnt (dt_counters s).

Lemma counters_os {A} (m : M W (sysres A)) (s : dtree W) : returns m ->
  exists r s', syscall m s = (Done r, s') /\ dt_counters s' = dt_counters s.
Proof.
  intros Hm. specialize (Hm (dt_world s)). unfold syscall, os, set_errno. munfold.
  destruct (m (dt_world s)) as [[[a|e]| | | |] w]; try done; simpl; eauto.
Qed.

Lemma logMessage_counters m t (s : dtree W) :
  exists s', logMessage m t s = (Done tt, s') /\ dt_counters s' = dt_counters s.
Proof.
  unfold logMessage, eprintf. munfold.
  destruct ((m =? 0)%Z || _); simpl; destruct (dt_log s) eqn:Hl; simpl; rewrite ?Hl; eauto.
Qed.

(** When the timer interrupts the second read, so that nothing was read,
    processInotifyEvents() still counts it as a read and takes one byte off the
    number of bytes left: the test on the line that tells the two cases apart
    looks at errno, which is never -1. *)
Theorem secondary_read_eintr fd n (s : dtree W) :
  (forall w, (sys_read_events fd (INOTIFY_READ_BUF_LEN - n) w).1 = Done (SErr EINTR)) ->
  exists s', secondary_read strerror fd n s = (Done ([], n - 1)%Z, s') /\
             readCnt s' = (readCnt s + 1)%Z.
Proof.
  intros Hread. unfold secondary_read.
  destruct (counters_os (sys_ualarm 2000) s (ualarm_returns 2000)) as (r1 & s1 & H1 & Hc1).
  rewrite (bind_done _ _ _ _ _ H1).
  assert (exists s2, syscall (sys_read_events fd (INOTIFY_READ_BUF_LEN - n)) s1 = (Done None, s2) /\
    dt_counters s2 = dt_counters s1 /\ get_errno s2 = (Done EINTR, s2)) as (s2 & H2 & Hc2 & He).
  { specialize (Hread (dt_world s1)). unfold syscall, os, set_errno, get_errno. munfold.
    destruct (sys_read_events _ _ _) as [o w]. simpl in Hread. subst o. eexists. split; [done|].
    split; reflexivity. }
  rewrite (bind_done _ _ _ _ _ H2), (bind_done _ _ _ _ _ He).
  destruct (counters_os (sys_ualarm 0) s2 (ualarm_returns 0)) as (r3 & s3 & H3 & Hc3).
  rewrite (bind_done _ _ _ _ _ H3).
  assert (exists s4, set_errno EINTR s3 = (Done tt, s4) /\ dt_counters s4 = dt_counters s3 /\
    get_errno s4 = (Done EINTR, s4)) as (s4 & H4 & Hc4 & He4) by (eexists; split; split; reflexivity).
  rewrite (bind_done _ _ _ _ _ H4), (bind_done _ _ _ _ _ He4). cbv beta zeta. cbv iota.
  change (default [] (@None (list inotify_event))) with (@nil inotify_event).
  change (((-1 =? -1)%Z && negb (EINTR =? EINTR)%Z)) with false. cbv iota. rewrite mret_bind.
  change (-1 =? 0)%Z with false. cbv iota. rewrite mret_bind, (bind_done _ _ _ _ _ He4).
  change (negb (EINTR =? -1)%Z) with true. cbv iota.
  unfold modify, gets. unfold mbind at 1. unfold M_bind at 1. unfold mbind at 1. unfold M_bind at 1.
  unfold mbind at 1. unfold M_bind at 1. cbv beta iota.
  match goal with |- context [logMessage ?m ?t ?st] =>
    destruct (logMessage_counters m t st) as (s5 & -> & Hc5) end.
  exists s5. split; [done|]. unfold readCnt. rewrite Hc5. simpl. congruence.
Qed.
End props.
