(* ===== verification/InotifyMain.v ===== *)
(** inotify_dtree.c: the invariant of the whole program, a small model of a
    kernel that meets the interface the program is proved against, and runs of
    the program on it. *)
From S2P Require Import Prelude CLib Sys InotifyCache InotifyTree InotifyEvents InotifyInv InotifyProps.
#[local] Open Scope Z_scope.

Section program.
Context {W : Type} {HOS : InotifyOS W} {HSP : InotifySpec W}.
Context (garbage : nat -> watch) (realloc_ok : nat -> bool) (strerror : Z -> bytes).
Context (walk_fuel : nat) (pointer_text : bytes -> bytes).

(** C1: The cache is well formed whenever the program can be observed: from a
    state where every slot is unused or holds a descriptor of its own, and the
    count of zapped roots is right, processing events, an interactive command
    or a rebuild ends (by returning, exiting, aborting or otherwise) in such a
    state again, and main(), started with an empty cache, only ever ends with
    a well-formed cache; whatever the kernel, the arguments and the input are. *)
Theorem cache_invariant :
  (forall fuel fd, keeps Inv
     (processInotifyEvents (W := W) garbage realloc_ok strerror walk_fuel pointer_text fuel fd)) /\
  (forall fd, keeps Inv (executeCommand (W := W) garbage realloc_ok strerror walk_fuel fd)) /\
  (forall fd, keeps Inv (reinitialize (W := W) garbage realloc_ok strerror walk_fuel fd)) /\
  (forall fuel turns pname opts operands s, wlCache s = [] ->
     cache_ok (wlCache (main (W := W) garbage realloc_ok strerror walk_fuel pointer_text
                          fuel turns pname opts operands s).2)).
Proof.
  split_and!; [apply keeps_processInotifyEvents|apply keeps_executeCommand|apply keeps_reinitialize|].
  intros fuel turns pname opts operands s Hs.
  assert (H0 : cache_ok (wlCache s)) by (rewrite Hs; apply cache_ok_nil).
  pose proof (keeps_main garbage realloc_ok strerror walk_fuel pointer_text fuel turns pname opts
    operands s H0) as H.
  destruct (main _ _ _ _ _ _ _ _ _ _ s) as [[] s']; try exact H. by destruct H.
Qed.
End program.

(** * A kernel *)

(** A file system as a list of objects, the objects still to be visited by the
    current walk, the watched directories, the results of the reads to come
    and what select(2) will report. *)
Record kernel := Kernel {
  k_tree : list (bytes * stat_t);
  k_walk : list (bytes * stat_t);
  k_watches : list (bytes * Z);
  k_next : Z;
  k_reads : list (sysres (list inotify_event));
  k_stdin : list bytes;
  k_ready : list (list Z)
}.

Definition set_walk w k :=
  Kernel (k_tree k) w (k_watches k) (k_next k) (k_reads k) (k_stdin k) (k_ready k).
Definition set_watches w n k :=
  Kernel (k_tree k) (k_walk k) w n (k_reads k) (k_stdin k) (k_ready k).

Definition k_find (p : bytes) (k : kernel) : option stat_t :=
  snd <$> head (filter (fun o => o.1 = p) (k_tree k)).

#[export] Instance kernel_os : InotifyOS kernel := {
  sys_lstat p := gets (fun k => match k_find p k with Some st => SOk st | None => SErr ENOENT end);
  sys_inotify_init := modify (set_watches [] 1);; mret (SOk 3);
  sys_add_watch fd p fl :=
    k ← mget;
    match k_find p k with
    | None => mret (SErr ENOENT)
    | Some _ =>
        match head (filter (fun o => o.1 = p) (k_watches k)) with
        | Some (_, d) => mret (SOk (Z.abs d))
        | None => modify (set_watches ((p, k_next k) :: k_watches k) (k_next k + 1));;
                  mret (SOk (Z.abs (k_next k)))
        end
    end;
  sys_rm_watch fd d :=
    k ← mget;
    if bool_decide (Exists (fun o => o.2 = d) (k_watches k)) then
      modify (set_watches (filter (fun o => o.2 <> d) (k_watches k)) (k_next k));; mret (SOk tt)
    else mret (SErr EINVAL);
  sys_close fd := mret (SOk tt);
  sys_create p := mret (SOk 4);
  nftw_open p :=
    k ← mget;
    match k_find p k with
    | None => mret (SErr ENOENT)
    | Some _ => modify (set_walk (filter (fun o => under p o.1 = true) (k_tree k)));; mret (SOk tt)
    end;
  nftw_next :=
    k ← mget;
    match k_walk k with
    | [] => mret (SOk None)
    | o :: w => modify (set_walk w);; mret (SOk (Some o))
    end;
  sys_read_events fd n :=
    k ← mget;
    match k_reads k with
    | [] => mret (SErr EINTR)
    | r :: rs => modify (fun k => Kernel (k_tree k) (k_walk k) (k_watches k) (k_next k) rs
                                    (k_stdin k) (k_ready k));; mret r
    end;
  sys_sigalrm_handler := mret (SOk tt);
  sys_ualarm n := mret (SOk 0);
  sys_read_stdin n :=
    k ← mget;
    match k_stdin k with
    | [] => mret (SOk [])
    | l :: ls => modify (fun k => Kernel (k_tree k) (k_walk k) (k_watches k) (k_next k) (k_reads k)
                                    ls (k_ready k));; mret (SOk l)
    end;
  sys_write_file p b := mret (SErr EACCES);
  sys_fopen_log p := mret (SOk tt);
  sys_select n :=
    k ← mget;
    match k_ready k with
    | [] => mret (SOk [0])
    | r :: rs => modify (fun k => Kernel (k_tree k) (k_walk k) (k_watches k) (k_next k) (k_reads k)
                                    (k_stdin k) rs);; mret (SOk r)
    end
}.

#[export] Instance kernel_spec : InotifySpec kernel.
Proof.
  split; unfold returns, returns_fd; intros; cbn -[filter]; munfold; cbn -[filter]; try done;
    repeat (case_goal; cbn -[filter]; try done); try lia.
Qed.

(** * Runs *)

Section runs.
Definition dir (p : bytes) (ino : Z) : bytes * stat_t := (p, Stat true 1 ino).

(** A tree /t with t/a, t/a/x and t/ab, watched by the program. *)
Definition tree0 : list (bytes * stat_t) :=
  [dir (str "/t") 1; dir (str "/t/a") 2; dir (str "/t/a/x") 3; dir (str "/t/ab") 4;
   (str "/t/file", Stat false 1 5)].

(** mv /t/a /t/b, and the creation of /t/b/y at the end of the next buffer. *)
Definition events0 : list inotify_event :=
  [Event 1 (Z.lor IN_MOVED_FROM IN_ISDIR) 7 16 (str "a");
   Event 1 (Z.lor IN_MOVED_TO IN_ISDIR) 7 16 (str "b")].

Definition kernel0 : kernel := Kernel tree0 [] [] 1 [SOk events0] [] [[3]].
Definition state0 : dtree kernel :=
  Dtree (Settings 0 false false 0 None false) (Counters 0 0 0 0 0) libc0 None [] [] 0 kernel0.

Definition cached (s : dtree kernel) : list (Z * bytes) :=
  (fun w => (wd w, path w)) <$> filter (fun w => watch_live w = true) (wlCache s).

(** The program started on /t: it watches the four directories, and after the
    rename knows the two moved ones by their new names. *)
Definition run0 (turns : nat) : outcome unit * dtree kernel :=
  main (fun _ => empty_slot) (fun _ => true) (fun _ => []) 10 (fun b => b) 10 turns
    (str "inotify_dtree") [] [str "/t"] state0.

Example run0_start : cached (run0 0).2 =
  [(1, str "/t"); (2, str "/t/a"); (3, str "/t/a/x"); (4, str "/t/ab")].
Proof. vm_compute. reflexivity. Qed.

Example run0_rename : cached (run0 1).2 =
  [(1, str "/t"); (2, str "/t/b"); (3, str "/t/b/x"); (4, str "/t/ab")].
Proof. vm_compute. reflexivity. Qed.
End runs.

(** ** The theorems on these runs *)

Definition watched0 : dtree kernel := (run0 0).2.

Lemma cache_invariant_witness : cache_ok (wlCache (run0 1).2).
Proof.
  destruct (cache_invariant (W := kernel) (fun _ => empty_slot) (fun _ => true) (fun _ => []) 10
    (fun b => b)) as (_ & _ & _ & H).
  unfold run0. apply H. reflexivity.
Defined.

Lemma rewriteCachedPaths_undo_witness : exists s',
  (rewriteCachedPaths (str "/t") (str "a") (str "/t") (str "b");;
   rewriteCachedPaths (str "/t") (str "b") (str "/t") (str "a")) watched0 = (Done tt, s') /\
  wlCache s' = wlCache watched0.
Proof.
  apply rewriteCachedPaths_undo.
  - by apply (bool_decide_unpack _).
  - assert (Hb : Forall (fun w => bool_decide (NUL ∉ path w) &&
      (Z.of_nat (length (path w)) <? 100)%Z && negb (under (str "/t/b") (path w)) = true)
      (wlCache watched0)) by (vm_compute; repeat constructor).
    eapply Forall_impl; [exact Hb|]. intros w Hw.
    apply andb_true_iff in Hw as [Hw Hu]. apply andb_true_iff in Hw as [Hn Hl].
    apply bool_decide_eq_true in Hn. apply negb_true_iff in Hu.
    split_and!; [done|unfold PATH_MAX; lia|unfold PATH_MAX|exact Hu].
    change (length (joined (str "/t") (str "b"))) with 4%nat. lia.
Defined.

(** Dropping /t/a drops /t/a and /t/a/x but not /t/ab. *)
Lemma zapSubtree_correct_witness :
  post (fun r s' => r = Some 2%nat /\ wlCache s' = zapped (str "/t/a") <$> wlCache watched0)
    (fun _ _ => False) (zapSubtree (fun _ => []) 3 (str "/t/a") watched0).
Proof.
  pose proof (zapSubtree_correct (fun _ => []) 3 (str "/t/a") watched0) as H.
  assert (E : (zapSubtree (fun _ => []) 3 (str "/t/a") watched0).1 = Done (Some 2%nat))
    by (vm_compute; reflexivity).
  destruct (zapSubtree _ _ _ _) as [o s']. simpl in E. subst o.
  destruct H as (_ & H & _). split; [reflexivity|exact H].
Defined.

Lemma process_round_progress_witness :
  yields (fun r =>
    match r with
    | inr fd => (32 <= 0)%Z
    | inl c' => (cu_bytes c' < 32)%Z \/ cu_firstTry c' = false
    end)
    (process_round (W := kernel) (fun _ => empty_slot) (fun _ => true) (fun _ => []) 10 (fun b => b)
       (Cursor 3 [Event 1 (Z.lor IN_MOVED_FROM IN_ISDIR) 7 16 (str "a")] 32 true)).
Proof.
  intros s. eapply post_mono; [| |apply (process_round_progress (fun _ => empty_slot) (fun _ => true)
    (fun _ => []) 10 (fun b => b) (Cursor 3 [Event 1 (Z.lor IN_MOVED_FROM IN_ISDIR) 7 16 (str "a")] 32 true))].
  - intros [c'|fd] s' H; simpl in *; [|by destruct H]. destruct H as [[? _]|(_ & ? & _)]; eauto.
  - done.
  - repeat constructor. unfold ev_ok. simpl. lia.
Defined.

Definition interrupted0 : dtree kernel :=
  Dtree (Settings 0 false false 0 None false) (Counters 1 0 0 0 3) libc0 None [] [] 0
    (Kernel tree0 [] [] 1 [] [] []).

(** A kernel whose reads are all interrupted. *)
Definition interrupted_os : InotifyOS kernel := {|
  sys_lstat := @sys_lstat _ kernel_os;
  sys_inotify_init := @sys_inotify_init _ kernel_os;
  sys_add_watch := @sys_add_watch _ kernel_os;
  sys_rm_watch := @sys_rm_watch _ kernel_os;
  sys_close := @sys_close _ kernel_os;
  sys_create := @sys_create _ kernel_os;
  nftw_open := @nftw_open _ kernel_os;
  nftw_next := @nftw_next _ kernel_os;
  sys_read_events _ _ := mret (SErr EINTR);
  sys_sigalrm_handler := @sys_sigalrm_handler _ kernel_os;
  sys_ualarm := @sys_ualarm _ kernel_os;
  sys_read_stdin := @sys_read_stdin _ kernel_os;
  sys_write_file := @sys_write_file _ kernel_os;
  sys_fopen_log := @sys_fopen_log _ kernel_os;
  sys_select := @sys_select _ kernel_os
|}.

Lemma interrupted_spec : @InotifySpec kernel interrupted_os.
Proof. destruct kernel_spec. by split. Qed.

Lemma secondary_read_eintr_witness : exists s',
  @secondary_read kernel interrupted_os (fun _ => []) 3 32 interrupted0 = (Done ([], 31)%Z, s') /\
  readCnt s' = 2.
Proof.
  apply (@secondary_read_eintr kernel interrupted_os (fun _ => []) interrupted_spec 3 32 interrupted0).
  intros w. reflexivity.
Defined.
