(* ===== verification/Environ.v ===== *)
(** book-src/proc/setenv.c: setenv() and unsetenv() on the environment list. *)
From S2P Require Import Prelude CLib Sys.

Section environ.
Context {S : Type} `{HasLibc S}.

(** [environ] as the array the loops walk: the entries, then a null pointer. *)
Definition env_array (env : list bytes) : list (option bytes) := (Some <$> env) ++ [None].
Fixpoint env_entries (arr : list (option bytes)) : list bytes :=
  match arr with
  | Some e :: arr' => e :: env_entries arr'
  | _ => []
  end.

Definition set_environ (env : list bytes) : M S unit :=
  modify (fun s => let l := libc_of s in
    set_libc (Libc (lc_errno l) env (lc_pending l) (lc_out l)) s).

(** The inner loop: every element from [sp] on becomes its successor, up to
    and including the null pointer. *)
(** Source: book-src/proc/setenv.c:43-44 (unsetenv, inner loop). *)
Fixpoint shift_back (fuel sp : nat) (arr : list (option bytes)) : M S (list (option bytes)) :=
  match fuel with
  | O => no_fuel
  | Datatypes.S fuel' =>
      cur ← deref (arr !! sp);
      match cur with
      | None => mret arr
      | Some _ =>
          next ← deref (arr !! (Datatypes.S sp));
          shift_back fuel' (Datatypes.S sp) (<[sp := next]> arr)
      end
  end.

(** One turn of the outer loop, at [ep]. *)
(** Source: book-src/proc/setenv.c:37-50 (unsetenv, outer loop). *)
Definition unset_round (name : bytes) (st : nat * list (option bytes))
    : M S (nat * list (option bytes) + list (option bytes)) :=
  let '(ep, arr) := st in
  cur ← deref (arr !! ep);
  match cur with
  | None => mret (inr arr)
  | Some e =>
      if strneq e name (strlen name) && ceq (char_at e (strlen name)) "=" then
        arr' ← shift_back (length arr) ep arr;
        mret (inl (ep, arr'))
      else mret (inl (Datatypes.S ep, arr))
  end.

(** The names both functions reject. *)
Definition bad_name (name : option bytes) : bool :=
  match name with
  | None | Some [] => true
  | Some n => bool_decide (is_Some (strchr n "="))
  end.

(** Source: book-src/proc/setenv.c:23-53 (unsetenv). *)
Definition unsetenv (name : option bytes) : M S Z :=
  if bad_name name then set_errno EINVAL;; mret (-1)%Z
  else
    n ← deref name;
    env ← gets (fun s => lc_environ (libc_of s));
    arr ← iter (Datatypes.S (length env)) (unset_round n) (0, env_array env);
    set_environ (env_entries arr);;
    mret 0%Z.

(** putenv(3) of an entry that contains '=': it replaces the entry of the same
    name or is added at the end. *)
Definition entry_name (e : bytes) : bytes :=
  match index_of "=" e with Some n => take n e | None => e end.
Fixpoint put_entry (e : bytes) (env : list bytes) : list bytes :=
  match env with
  | [] => [e]
  | x :: env' => if env_match (entry_name e) x then e :: env' else x :: put_entry e env'
  end.

(** Whether malloc() and putenv() find memory. *)
Context (malloc_ok putenv_ok : bool).

Definition putenv (e : bytes) : M S Z :=
  if putenv_ok then
    env ← gets (fun s => lc_environ (libc_of s));
    set_environ (put_entry e env);; mret 0%Z
  else set_errno ENOMEM;; mret (-1)%Z.

(** Source: book-src/proc/setenv.c:55-81 (setenv). *)
Definition setenv (name value : option bytes) (overwrite : Z) : M S Z :=
  if bad_name name || bool_decide (value = None) then set_errno EINVAL;; mret (-1)%Z
  else
    n ← deref name;
    v ← deref value;
    cur ← getenv n;
    if bool_decide (is_Some cur) && (overwrite =? 0)%Z then mret 0%Z
    else
      unsetenv name;;
      if malloc_ok then
        r ← putenv (n ++ str "=" ++ v);
        mret (if (r =? 0)%Z then 0%Z else (-1)%Z)
      else set_errno ENOMEM;; mret (-1)%Z.

(** * Names and entries *)

Definition good_name (n : bytes) : Prop := n <> [] /\ "="%char ∉ n.

Lemma bad_name_spec n : bad_name (Some n) = false <-> good_name n.
Proof.
  unfold bad_name, good_name. destruct n as [|c n]; [by split; [|intros []]|].
  unfold strchr. rewrite bool_decide_eq_false, <- eq_None_not_Some.
  split; [intros Hn; split; [done|]|intros [_ Hn]]; by apply index_of_None.
Qed.

(** * unsetenv() *)

Lemma shift_back_run pre e rest tl fuel (s : S) :
  length rest + 2 <= fuel ->
  shift_back fuel (length pre) (pre ++ Some e :: (Some <$> rest) ++ None :: tl) s =
  (Done (pre ++ (Some <$> rest) ++ None :: None :: tl), s).
Proof.
  revert pre e fuel. induction rest as [|e' rest IH]; intros pre e [|fuel] Hf; simpl in Hf; try lia;
    cbn [shift_back]; rewrite (list_lookup_middle _ _ _ _ eq_refl); cbn [deref]; rewrite !mret_bind.
  - cbn [fmap list_fmap app]. rewrite lookup_app_next. cbn [deref]. rewrite mret_bind, insert_app_mid.
    destruct fuel as [|fuel]; [lia|]. cbn [shift_back]. by rewrite lookup_app_next.
  - cbn [fmap list_fmap app]. rewrite lookup_app_next. cbn [deref]. rewrite mret_bind, insert_app_mid.
    specialize (IH (pre ++ [Some e']) e' fuel). rewrite length_app, Nat.add_1_r, <- !app_assoc in IH.
    simpl in IH. rewrite IH by lia. done.
Qed.

Lemma unset_loop_run n rest kept k fuel (s : S) :
  length rest < fuel -> Forall (fun e => env_match n e = false) kept ->
  exists j, iter fuel (unset_round n)
    (length kept, (Some <$> kept) ++ (Some <$> rest) ++ replicate (Datatypes.S k) None) s =
  (Done ((Some <$> (kept ++ filter (fun e => env_match n e = false) rest)) ++ replicate (Datatypes.S j) None), s).
Proof.
  revert kept k fuel. induction rest as [|e rest IH]; intros kept k [|fuel] Hf Hk; simpl in Hf; try lia;
    cbn [iter unset_round].
  - exists k. rewrite lookup_app_r, length_fmap, Nat.sub_diag by (rewrite length_fmap; lia).
    simpl. by rewrite app_nil_r.
  - rewrite lookup_app_r, length_fmap, Nat.sub_diag by (rewrite length_fmap; lia).
    cbn [lookup list_lookup fmap list_fmap app deref]. rewrite bind_bind, mret_bind.
    fold (env_match n e). rewrite filter_cons.
    destruct (env_match n e) eqn:He.
    + rewrite decide_False by done. 
      rewrite bind_bind. erewrite bind_done; cycle 1.
      { pose proof (shift_back_run (Some <$> kept) e rest (replicate k None)) as Hsh.
        rewrite length_fmap in Hsh. apply Hsh. rewrite !length_app. simpl.
        rewrite length_app, !length_fmap. simpl. lia. }
      rewrite mret_bind. apply (IH kept (Datatypes.S k) fuel); [lia|done].
    + rewrite decide_True by done. rewrite mret_bind.
      destruct (IH (kept ++ [e]) k fuel) as [j Hj]; [lia|apply Forall_app; by split; repeat constructor|].
      exists j. rewrite length_app, Nat.add_1_r in Hj.
      rewrite !fmap_app, <- !app_assoc in Hj. simpl in Hj. rewrite !fmap_app, <- !app_assoc. exact Hj.
Qed.

Lemma env_entries_array l tl : env_entries ((Some <$> l) ++ None :: tl) = l.
Proof. induction l as [|e l IH]; [done|]. simpl. f_equal. exact IH. Qed.

(** The state with another environment. *)
Definition with_env (env : list bytes) (s : S) : S :=
  let l := libc_of s in set_libc (Libc (lc_errno l) env (lc_pending l) (lc_out l)) s.
Definition environ_of (s : S) : list bytes := lc_environ (libc_of s).

Lemma environ_of_with env s : environ_of (with_env env s) = env.
Proof. unfold environ_of, with_env. by rewrite libc_of_set. Qed.

Lemma unsetenv_run n (s : S) : good_name n ->
  unsetenv (Some n) s = (Done 0%Z, with_env (filter (fun e => env_match n e = false) (environ_of s)) s).
Proof.
  intros Hn. unfold unsetenv. rewrite (proj2 (bad_name_spec n) Hn). cbn [deref]. rewrite mret_bind.
  unfold gets. unfold mbind at 1. unfold M_bind at 1.
  destruct (unset_loop_run n (environ_of s) [] 0 (Datatypes.S (length (environ_of s))) s) as [j Hj];
    [lia|constructor|].
  erewrite bind_done by exact Hj. cbn [app]. 
  unfold set_environ, modify. simpl. rewrite env_entries_array. done.
Qed.

Definition with_errno (e : Z) (s : S) : S :=
  let l := libc_of s in set_libc (Libc e (lc_environ l) (lc_pending l) (lc_out l)) s.

Lemma env_match_spec n e : env_match n e = true <-> exists v, e = n ++ "="%char :: v.
Proof.
  unfold env_match, strneq, strlen, ceq, char_at.
  rewrite andb_true_iff, !bool_decide_eq_true, (take_ge n) by lia. split.
  - intros [Ht Hc]. exists (drop (Datatypes.S (length n)) e).
    destruct (e !! length n) as [c|] eqn:Hl; simpl in Hc; [|done]. subst c.
    rewrite <- Ht at 1. rewrite <- (drop_lookup_cons e _ _ Hl). by rewrite take_drop.
  - intros [v ->]. split; [by rewrite take_app_length|]. by rewrite list_lookup_middle.
Qed.

(** Different names never match the same entry. *)
Lemma env_match_unique n m e : "="%char ∉ n -> "="%char ∉ m ->
  env_match n e = true -> env_match m e = true -> n = m.
Proof.
  rewrite !env_match_spec. intros Hn Hm [v ->] [w Hw].
  pose proof (index_of_app "=" n v Hn) as E1. pose proof (index_of_app "=" m w Hm) as E2.
  rewrite Hw, E2 in E1. injection E1 as E1.
  apply (f_equal (take (length n))) in Hw. rewrite take_app_length in Hw.
  by rewrite <- E1, take_app_length in Hw.
Qed.

Lemma env_lookup_filter_eq n env : env_lookup n (filter (fun e => env_match n e = false) env) = None.
Proof.
  induction env as [|e env IH]; [done|]. rewrite filter_cons.
  destruct (env_match n e) eqn:He; [by rewrite decide_False|].
  rewrite decide_True by done. simpl. by rewrite He.
Qed.

Lemma env_lookup_filter_ne n m env : good_name n -> good_name m -> n <> m ->
  env_lookup m (filter (fun e => env_match n e = false) env) = env_lookup m env.
Proof.
  intros [_ Hn] [_ Hm] Hne. induction env as [|e env IH]; [done|]. rewrite filter_cons. simpl.
  destruct (env_match n e) eqn:He; [rewrite decide_False by done|rewrite decide_True by done; simpl; by rewrite IH].
  destruct (env_match m e) eqn:Hme; [|exact IH]. exfalso. eauto using env_match_unique.
Qed.

Lemma env_lookup_app m env e : env_lookup m (env ++ [e]) =
  match env_lookup m env with Some v => Some v | None => env_lookup m [e] end.
Proof. induction env as [|x env IH]; [done|]. simpl. destruct (env_match m x); [done|exact IH]. Qed.

Lemma put_entry_fresh e env :
  Forall (fun x => env_match (entry_name e) x = false) env -> put_entry e env = env ++ [e].
Proof. induction 1 as [|x env Hx _ IH]; [done|]. simpl. by rewrite Hx, IH. Qed.

Lemma entry_name_app n v : good_name n -> entry_name (n ++ str "=" ++ v) = n.
Proof.
  intros [_ Hn]. unfold entry_name. simpl. by rewrite (index_of_app "=" n v Hn), take_app_length.
Qed.

(** Unsetenv() always returns. For a null, empty or '='-holding name it fails
    with EINVAL and does nothing else. Otherwise it returns 0 having removed
    every entry of that name, and only those, in the order they had, so that
    getenv() no longer finds the name and finds every other as before. *)
Theorem unsetenv_correct name (s : S) :
  unsetenv name s =
    (if bad_name name then (Done (-1)%Z, with_errno EINVAL s)
     else (Done 0%Z, with_env (filter (fun e => env_match (default [] name) e = false) (environ_of s)) s)) /\
  (bad_name name = false ->
   env_lookup (default [] name) (environ_of (unsetenv name s).2) = None /\
   forall m, good_name m -> name <> Some m ->
     env_lookup m (environ_of (unsetenv name s).2) = env_lookup m (environ_of s)).
Proof.
  destruct (bad_name name) eqn:Hb.
  { split; [|done]. unfold unsetenv. by rewrite Hb. }
  destruct name as [n|]; [|done]. apply bad_name_spec in Hb as Hn. rewrite (unsetenv_run n s Hn).
  split; [done|]. intros _. cbn [snd default]. rewrite environ_of_with. split.
  - apply env_lookup_filter_eq.
  - intros m Hm Hne. apply env_lookup_filter_ne; [done|done|congruence].
Qed.

(** The result of setenv() when there is memory. *)
Definition env_after_set (n v : bytes) (env : list bytes) : list bytes :=
  filter (fun e => env_match n e = false) env ++ [n ++ str "=" ++ v].

Lemma putenv_run e (s : S) : putenv_ok = true ->
  putenv e s = (Done 0%Z, with_env (put_entry e (environ_of s)) s).
Proof. unfold putenv. by intros ->. Qed.
Lemma putenv_fail e (s : S) : putenv_ok = false ->
  putenv e s = (Done (-1)%Z, with_errno ENOMEM s).
Proof. unfold putenv. by intros ->. Qed.

Lemma setenv_run n v ov (s : S) : good_name n ->
  bool_decide (is_Some (env_lookup n (environ_of s))) && (ov =? 0)%Z = false ->
  setenv (Some n) (Some v) ov s =
    let s1 := with_env (filter (fun e => env_match n e = false) (environ_of s)) s in
    if malloc_ok && putenv_ok then (Done 0%Z, with_env (env_after_set n v (environ_of s)) s1)
    else (Done (-1)%Z, with_errno ENOMEM s1).
Proof.
  intros Hn Hov. unfold setenv. rewrite (proj2 (bad_name_spec n) Hn). simpl (false || _).
  cbn [deref]. rewrite !mret_bind. unfold getenv, gets. unfold mbind at 1. unfold M_bind at 1.
  change (lc_environ (libc_of s)) with (environ_of s). rewrite Hov.
  erewrite bind_done by apply (unsetenv_run n s Hn). destruct malloc_ok; [|done]. cbv zeta.
  set (s1 := with_env _ s). destruct putenv_ok eqn:Hp; cbn [andb].
  2:{ by rewrite (bind_done _ _ _ _ _ (putenv_fail _ s1 Hp)). }
  rewrite (bind_done _ _ _ _ _ (putenv_run _ s1 Hp)). unfold s1 at 1. rewrite environ_of_with.
  rewrite put_entry_fresh; [done|]. rewrite (entry_name_app n v Hn).
  apply Forall_forall. intros e He. by apply list_elem_of_filter in He as [He _].
Qed.

(** setenv() of a proper name and value does nothing and returns 0 when the
    name has a value that is not to be overwritten. Otherwise, with memory, it
    returns 0, getenv() then gives the value, exactly one entry has the name,
    and every other name keeps its value; without memory it fails with ENOMEM,
    having already removed the old value. *)
Theorem setenv_correct n v ov (s : S) :
  good_name n ->
  let r := setenv (Some n) (Some v) ov s in
  let env' := environ_of r.2 in
  if bool_decide (is_Some (env_lookup n (environ_of s))) && (ov =? 0)%Z then r = (Done 0%Z, s)
  else
    (forall m, good_name m -> m <> n -> env_lookup m env' = env_lookup m (environ_of s)) /\
    if malloc_ok && putenv_ok then
      r.1 = Done 0%Z /\ env_lookup n env' = Some v /\
      length (filter (fun e => env_match n e = true) env') = 1
    else r.1 = Done (-1)%Z /\ env_lookup n env' = None.
Proof.
  intros Hn. cbv zeta. destruct (bool_decide _ && _) eqn:Hov.
  { unfold setenv. rewrite (proj2 (bad_name_spec n) Hn). simpl (false || _).
    cbn [deref]. rewrite !mret_bind. unfold getenv, gets. unfold mbind at 1. unfold M_bind at 1.
    change (lc_environ (libc_of s)) with (environ_of s). by rewrite Hov. }
  rewrite setenv_run by done.
  cbv zeta. set (kept := filter (fun e => env_match n e = false) (environ_of s)).
  assert (Hself : env_match n (n ++ str "=" ++ v) = true) by (apply env_match_spec; by exists v).
  destruct (malloc_ok && putenv_ok); cbn [fst snd].
  - rewrite environ_of_with. unfold env_after_set. fold kept. split_and!; [|done| |].
    + intros m Hm Hne. rewrite env_lookup_app. unfold kept. rewrite env_lookup_filter_ne by done.
      destruct (env_lookup m (environ_of s)); [done|]. cbn [env_lookup].
      destruct (env_match m (n ++ str "=" ++ v)) eqn:Hm'; [|done].
      exfalso. apply Hne. destruct Hn, Hm. eauto using env_match_unique.
    + rewrite env_lookup_app. unfold kept. rewrite env_lookup_filter_eq. cbn [env_lookup].
      rewrite Hself. unfold strlen. f_equal. simpl.
      replace (Datatypes.S (length n)) with (length (n ++ ["="%char])) by (rewrite length_app; simpl; lia).
      change ("="%char :: v) with (["="%char] ++ v). by rewrite app_assoc, drop_app_length.
    + rewrite filter_app, length_app, filter_cons, decide_True by done.
      replace (filter (fun e => env_match n e = true) kept) with (@nil bytes); [done|].
      unfold kept. clear. induction (environ_of s) as [|e env IH]; [done|].
      rewrite filter_cons. destruct (env_match n e) eqn:He; [by rewrite decide_False|].
      by rewrite decide_True, filter_cons, He, decide_False.
  - unfold with_errno, environ_of. rewrite libc_of_set. simpl.
    fold (environ_of (with_env kept s)). rewrite environ_of_with. split_and!; [|done|].
    + intros m Hm Hne. by apply env_lookup_filter_ne.
    + apply env_lookup_filter_eq.
Qed.
End environ.

(** ** On a concrete environment *)

Definition env_libc : libc :=
  Libc 0 [str "A=1"; str "AB=2"; str "B=3"; str "A=4"] [] [].

Lemma setenv_correct_witness :
  env_lookup (str "A") (environ_of (setenv true true (Some (str "A")) (Some (str "9")) 1 env_libc).2)
    = Some (str "9") /\
  env_lookup (str "AB") (environ_of (setenv true true (Some (str "A")) (Some (str "9")) 1 env_libc).2)
    = Some (str "2").
Proof.
  assert (Hg : forall c, c <> "="%char -> good_name [c]).
  { intros c Hc. split; [done|]. intros Hin. apply list_elem_of_singleton in Hin. congruence. }
  assert (HAB : good_name (str "AB")) by (split; [done|by apply (bool_decide_unpack _)]).
  pose proof (setenv_correct true true (str "A") (str "9") 1 env_libc (Hg "A"%char ltac:(done))) as H.
  destruct H as [Hothers [_ [Hv _]]]. split; [exact Hv|]. by rewrite (Hothers (str "AB") HAB).
Defined.
