(* ===== verification/Execlp.v ===== *)
(** book-src/procexec/execlp.c: execlp(3) on top of execve(2). *)
From S2P Require Import Prelude CLib Sys.

(** * Memory and the system call *)

(** A new program image, the last thing a successful execve() leaves of the
    process. *)
Record image := Image {
  im_path : bytes;
  im_argv : list bytes;
  im_envp : list bytes
}.

(** How execlp() ends: it returns, or the process runs another program. *)
Inductive exec_end := Returned (r : Z) | Replaced (im : image).

(** The program's state: the C library and the calls of execve() so far. *)
Definition exec_state : Type := libc * list image.

(** [a[i] = v], undefined outside the array. *)
Definition store {T A} (i : nat) (v : A) (a : list A) : M T (list A) :=
  if i <? length a then mret (<[i := v]> a) else undefined.

(** A string built in a buffer of [size] bytes. *)
Definition in_buffer {T} (size : nat) (s : bytes) : M T bytes :=
  if S (length s) <=? size then mret s else undefined.

(** The strings of a null-terminated vector. *)
Fixpoint vector_of (a : list (option bytes)) : list bytes :=
  match a with
  | Some s :: a' => s :: vector_of a'
  | _ => []
  end.

Section execlp.
(** What execve() says of an image: [None] that it runs it, or an errno. *)
Context (exec_error : image -> option Z).
(** Whether the allocations whose result is tested succeed. *)
Context (argv_ok realloc_ok envp_ok : bool).

Definition execve (path : bytes) (argv : list (option bytes)) (envp : list bytes)
    : M exec_state (option image) :=
  let im := Image path (vector_of argv) envp in
  modify (fun s => (s.1, s.2 ++ [im]));;
  match exec_error im with
  | None => mret (Some im)
  | Some e => set_errno e;; mret None
  end.

Definition SHELL_PATH : bytes := str "/bin/sh".

(** The loop [for (j = 0; j <= argc; j++) shArgv[j + 1] = argv[j];]. *)
Fixpoint copy_args (js : list nat) (argv shArgv : list (option bytes))
    : M exec_state (list (option bytes)) :=
  match js with
  | [] => mret shArgv
  | j :: js' =>
      a ← deref (argv !! j);
      shArgv' ← store (j + 1) a shArgv;
      copy_args js' argv shArgv'
  end.

(** Source: book-src/procexec/execlp.c:36-49 (execShScript). *)
Definition execShScript (argc : nat) (argv : list (option bytes)) (envp : list bytes)
    : M exec_state (option image) :=
  let shArgv := replicate (argc + 1) None in
  shArgv ← store 0 (Some SHELL_PATH) shArgv;
  shArgv ← copy_args (seq 0 (argc + 1)) argv shArgv;
  execve SHELL_PATH shArgv envp.

(** [argv] and its number of items; [argvSize] is what the code believes its
    allocated size to be, the length of the list is what it is. [args] are the
    variable arguments still to come. *)
Record arg_vector := ArgVector {
  av_argv : list (option bytes);
  av_argc : nat;
  av_size : nat;
  av_rest : list (option bytes)
}.

(** One turn; [None] when there is no memory. *)
(** Source: book-src/procexec/execlp.c:85-103 (execlp, argument loop). *)
Definition arg_round (v : arg_vector) : M exec_state (arg_vector + option arg_vector) :=
  last ← deref (av_argv v !! (av_argc v - 1));
  match last with
  | None => mret (inr (Some v))
  | Some _ =>
      grown ← (if av_size v <=? av_argc v + 1 then
                 if realloc_ok then   (* to the size of one pointer *)
                   mret (Some (take 1 (av_argv v), av_size v + 100))
                 else set_errno ENOMEM;; mret None
               else mret (Some (av_argv v, av_size v)));
      match grown with
      | None => mret (inr None)
      | Some (argv, argvSize) =>
          a ← deref (head (av_rest v));
          argv' ← store (av_argc v) a argv;
          mret (inl (ArgVector argv' (av_argc v + 1) argvSize (tail (av_rest v))))
      end
  end.

(** Source: book-src/procexec/execlp.c:70-105 (execlp, argument vector). *)
Definition build_argv (arg : option bytes) (args : list (option bytes))
    : M exec_state (option arg_vector) :=
  if argv_ok then
    argv ← store 0 arg (replicate 100 None);
    iter (S (length args)) arg_round (ArgVector argv 1 100 args)
  else set_errno ENOMEM;; mret None.

(** The search through PATH: the start of the current prefix, whether some
    execve() failed with EACCES, and the last error. *)
Record search := Search {
  se_start : nat;
  se_eacces : bool;
  se_errno : Z
}.

(** Source: book-src/procexec/execlp.c:150-190 (execlp, loop over the prefixes). *)
Definition search_round (PATH filename : bytes) (argc : nat) (argv : list (option bytes))
    (envp : list bytes) (st : search) : M exec_state (search + (image + bool * Z)) :=
  let prStart := se_start st in
  let prEnd := match index_of ":" (drop prStart PATH) with
               | Some n => prStart + n
               | None => prStart + strlen (drop prStart PATH)
               end in
  let size := Nat.max 1 (prEnd - prStart) + strlen filename + 2 in
  let prefix := if prEnd =? prStart then str "." else take (prEnd - prStart) (drop prStart PATH) in
  pathname ← in_buffer size (prefix ++ str "/" ++ filename);
  let morePrefixes := negb (ceq (char_at PATH prEnd) NUL) in
  ok ← execve pathname argv envp;
  match ok with
  | Some im => mret (inr (inl im))
  | None =>
      savedErrno ← get_errno;
      sh ← (if (savedErrno =? EACCES)%Z then mret None
            else if (savedErrno =? ENOEXEC)%Z then execShScript argc argv envp
            else mret None);
      match sh with
      | Some im => mret (inr (inl im))
      | None =>
          let fndEACCES := se_eacces st || (savedErrno =? EACCES)%Z in
          if morePrefixes then mret (inl (Search (S prEnd) fndEACCES savedErrno))
          else mret (inr (inr (fndEACCES, savedErrno)))
      end
  end.

(** Source: book-src/procexec/execlp.c:119-193 (execlp, exec the file). *)
Definition try_exec (filename : bytes) (argc : nat) (argv : list (option bytes)) (envp : list bytes)
    : M exec_state (image + bool * Z) :=
  if bool_decide (is_Some (strchr filename "/")) then
    ok ← execve filename argv envp;
    match ok with
    | Some im => mret (inl im)
    | None =>
        savedErrno ← get_errno;
        sh ← (if (savedErrno =? ENOEXEC)%Z then execShScript argc argv envp else mret None);
        match sh with
        | Some im => mret (inl im)
        | None => mret (inr (false, savedErrno))
        end
    end
  else
    p ← getenv (str "PATH");
    let PATH := match p with
                | None => str "."
                | Some p => if strlen p =? 0 then str "." else p
                end in
    iter (S (length PATH)) (search_round PATH filename argc argv envp) (Search 0 false 0).

(** Source: book-src/procexec/execlp.c:51-205 (execlp). *)
Definition execlp (filename : bytes) (arg : option bytes) (args : list (option bytes))
    : M exec_state exec_end :=
  v ← build_argv arg args;
  match v with
  | None => mret (Returned (-1))
  | Some v =>
      if envp_ok then
        envp ← gets (fun s => lc_environ (libc_of s));
        r ← try_exec filename (av_argc v) (av_argv v) envp;
        match r with
        | inl im => mret (Replaced im)
        | inr (fndEACCES, savedErrno) =>
            set_errno (if fndEACCES : bool then EACCES else savedErrno);;
            mret (Returned (-1))
        end
      else set_errno ENOMEM;; mret (Returned (-1))
  end.

(** * What it should do *)

(** The prefixes of PATH, an empty one being the current directory. *)
Fixpoint split_colon (s : bytes) : list bytes :=
  match s with
  | [] => [[]]
  | c :: s' =>
      if ceq c ":" then [] :: split_colon s'
      else match split_colon s' with
           | p :: ps => (c :: p) :: ps
           | [] => [[c]]
           end
  end.
Definition candidate (filename prefix : bytes) : bytes :=
  (if prefix is [] then str "." else prefix) ++ str "/" ++ filename.

(** The images in the order they should be tried. *)
Definition images (filename : bytes) (argv : list bytes) (env : list bytes) : list image :=
  (fun p => Image p argv env) <$>
    if bool_decide ("/"%char ∈ filename) then [filename]
    else candidate filename <$>
         split_colon (match env_lookup (str "PATH") env with
                      | None | Some [] => str "."
                      | Some p => p
                      end).

(** The images tried up to the first that runs, and how that ends. *)
Fixpoint attempts (ims : list image) (eacces : bool) (err : Z) : list image * (image + bool * Z) :=
  match ims with
  | [] => ([], inr (eacces, err))
  | im :: ims' =>
      match exec_error im with
      | None => ([im], inl im)
      | Some e =>
          let '(tried, r) := attempts ims' (eacces || (e =? EACCES)%Z) e in (im :: tried, r)
      end
  end.

Lemma split_colon_Some s n : index_of ":" s = Some n ->
  split_colon s = take n s :: split_colon (drop (S n) s).
Proof.
  revert n. induction s as [|c s IH]; intros n; simpl; [done|].
  destruct (ceq c ":"); [by intros [= <-]|]. intros H. apply fmap_Some in H as (k & Hk & ->).
  rewrite (IH k Hk). done.
Qed.
Lemma split_colon_None s : index_of ":" s = None -> split_colon s = [s].
Proof.
  induction s as [|c s IH]; simpl; [done|]. destruct (ceq c ":"); [done|].
  intros H. apply fmap_None in H. by rewrite IH.
Qed.

(** ** The search *)

Section search.
Context (PATH filename : bytes) (argc : nat) (argv : list (option bytes)) (envp : list bytes).
Definition search_images (s : bytes) : list image :=
  (fun p => Image (candidate filename p) (vector_of argv) envp) <$> split_colon s.

Lemma execve_run p (s : exec_state) :
  execve p argv envp s =
  match exec_error (Image p (vector_of argv) envp) with
  | None => (Done (Some (Image p (vector_of argv) envp)), (s.1, s.2 ++ [Image p (vector_of argv) envp]))
  | Some e => (Done None, (Libc e (lc_environ s.1) (lc_pending s.1) (lc_out s.1),
                           s.2 ++ [Image p (vector_of argv) envp]))
  end.
Proof. unfold execve. munfold. by destruct (exec_error _). Qed.

Definition first_prefix (s : bytes) : bytes :=
  match index_of ":" s with Some n => take n s | None => s end.

(** One round, at a prefix that ends with a colon or with the string. *)
Lemma search_round_run start ea le (s : exec_state) :
  let rest := drop start PATH in
  let prefix := first_prefix rest in
  let im := Image (candidate filename prefix) (vector_of argv) envp in
  exec_error im <> Some ENOEXEC ->
  search_round PATH filename argc argv envp (Search start ea le) s =
  match exec_error im with
  | None => (Done (inr (inl im)), (s.1, s.2 ++ [im]))
  | Some e =>
      (Done (match index_of ":" rest with
             | Some n => inl (Search (S (start + n)) (ea || (e =? EACCES)%Z) e)
             | None => inr (inr (ea || (e =? EACCES)%Z, e))
             end),
       (Libc e (lc_environ s.1) (lc_pending s.1) (lc_out s.1), s.2 ++ [im]))
  end.
Proof.
  cbv zeta. set (rest := drop start PATH). set (prefix := first_prefix rest).
  intros Hne. unfold search_round. cbn [se_start se_eacces se_errno]. fold rest.
  set (prEnd := match index_of ":" rest with
                | Some n => start + n
                | None => start + strlen rest
                end).
  assert (Hlen : prEnd - start = length prefix /\
    take (prEnd - start) rest = prefix /\
    (prEnd =? start) = bool_decide (prefix = []) /\
    ceq (char_at PATH prEnd) NUL = (if index_of ":" rest is Some _ then false else true)).
  { unfold prEnd, prefix, first_prefix, strlen. destruct (index_of ":" rest) as [n|] eqn:Hi.
    - apply index_of_Some in Hi as [Hn _]. pose proof (lookup_lt_Some _ _ _ Hn).
      replace (start + n - start) with n by lia. rewrite length_take. split_and!; [lia|done| |].
      + destruct n, rest; simpl in *; rewrite ?Nat.add_0_r, ?Nat.eqb_refl; try done; try lia;
          apply Nat.eqb_neq; lia.
      + unfold char_at. unfold rest in Hn. rewrite lookup_drop in Hn. by rewrite Hn.
    - replace (start + length rest - start) with (length rest) by lia. split_and!; [done| | |].
      + by apply take_ge.
      + destruct rest; simpl; [by rewrite Nat.add_0_r, Nat.eqb_refl|apply Nat.eqb_neq; lia].
      + unfold char_at. rewrite lookup_ge_None_2; [done|]. unfold rest. rewrite length_drop. lia. }
  destruct Hlen as (Hl & -> & -> & ->). rewrite Hl.
  assert (Hcand : (if bool_decide (prefix = []) then str "." else prefix) ++ str "/" ++ filename =
                  candidate filename prefix).
  { unfold candidate. by destruct prefix. }
  rewrite Hcand. unfold in_buffer, strlen.
  replace (S (length (candidate filename prefix)) <=? _) with true.
  2:{ symmetry. apply Nat.leb_le. unfold candidate. rewrite length_app.
      destruct prefix; cbn [length app String.list_ascii_of_string]; lia. }
  rewrite mret_bind. unfold mbind at 1. unfold M_bind at 1. rewrite execve_run.
  destruct (exec_error _) as [e|] eqn:He; [|done].
  destruct (e =? EACCES)%Z eqn:Hea.
  - unfold get_errno. munfold. cbn [libc_of fst lc_errno pair_has_libc]. rewrite Hea.
    unfold prEnd. by destruct (index_of ":" rest).
  - assert (Hns : (e =? ENOEXEC)%Z = false) by (apply Z.eqb_neq; congruence).
    unfold get_errno. munfold. cbn [libc_of fst lc_errno pair_has_libc]. rewrite Hea, Hns.
    unfold prEnd. by destruct (index_of ":" rest).
Qed.

Lemma search_run fuel start ea le (s : exec_state) :
  length (drop start PATH) < fuel ->
  Forall (fun im => exec_error im <> Some ENOEXEC) (search_images (drop start PATH)) ->
  let r := attempts (search_images (drop start PATH)) ea le in
  exists l', iter fuel (search_round PATH filename argc argv envp) (Search start ea le) s =
    (Done r.2, (l', s.2 ++ r.1)).
Proof.
  revert start ea le s. induction fuel as [|fuel IH]; intros start ea le s Hf Hall; [lia|].
  cbv zeta. cbn [iter].
  set (rest := drop start PATH) in *. unfold search_images in *.
  destruct (index_of ":" rest) as [n|] eqn:Hi.
  - rewrite (split_colon_Some _ _ Hi) in *. cbn [fmap list_fmap] in *.
    apply Forall_cons in Hall as [Him Hall].
    pose proof (search_round_run start ea le s) as Hr. cbv zeta in Hr. fold rest in Hr.
    unfold first_prefix in Hr. rewrite Hi in Hr. specialize (Hr Him). cbn [attempts].
    destruct (exec_error _) as [e|] eqn:He; rewrite (bind_done _ _ _ _ _ Hr); [|by eexists].
    assert (Hd : drop (S n) rest = drop (S (start + n)) PATH).
    { unfold rest. rewrite drop_drop. f_equal. lia. }
    rewrite Hd in *. apply index_of_Some in Hi as [Hn _]. apply lookup_lt_Some in Hn.
    destruct (IH (S (start + n)) (ea || (e =? EACCES)%Z) e
      (Libc e (lc_environ s.1) (lc_pending s.1) (lc_out s.1), s.2 ++ [Image (candidate filename (take n rest)) (vector_of argv) envp]))
      as [l' Hl']; [rewrite <- Hd, length_drop; lia|done|].
    exists l'. rewrite Hl'. destruct (attempts _ _ _) as [tried r]. cbn [fst snd].
    by rewrite <- app_assoc.
  - rewrite (split_colon_None _ Hi) in *. cbn [fmap list_fmap] in *.
    apply Forall_cons in Hall as [Him _].
    pose proof (search_round_run start ea le s) as Hr. cbv zeta in Hr. fold rest in Hr.
    unfold first_prefix in Hr. rewrite Hi in Hr. specialize (Hr Him). cbn [attempts].
    destruct (exec_error _) as [e|] eqn:He; rewrite (bind_done _ _ _ _ _ Hr); by eexists.
Qed.
End search.

(** The attempts by the first image that runs. *)
Lemma attempts_find ims ea le :
  attempts ims ea le =
  match list_find (fun im => exec_error im = None) ims with
  | Some (k, im) => (take (S k) ims, inl im)
  | None => (ims, inr (ea || bool_decide (EACCES ∈ omap exec_error ims),
                       default le (last (omap exec_error ims))))
  end.
Proof.
  revert ea le. induction ims as [|im ims IH]; intros ea le; [simpl; by rewrite orb_false_r|].
  cbn [attempts list_find omap list_omap]. destruct (exec_error im) as [e|] eqn:He; [|done].
  rewrite decide_False by done. rewrite IH.
  destruct (list_find _ ims) as [[k im']|] eqn:Hf; [done|]. cbn [prod_map fst snd fmap option_fmap option_map]. do 3 f_equal.
  - rewrite <- orb_assoc. f_equal. destruct (Z.eqb_spec e EACCES) as [->|Hne]; cbn [orb].
    + symmetry. apply bool_decide_eq_true. by left.
    + apply bool_decide_ext. rewrite elem_of_cons. split; [by right|]. intros [?|?]; [congruence|done].
  - by destruct (omap exec_error ims) as [|e' l] using rev_ind; rewrite ?last_cons, ?last_snoc.
Qed.

(** ** The argument vector *)

Lemma vector_of_app l tl : vector_of ((Some <$> l) ++ None :: tl) = l.
Proof. induction l as [|x l IH]; [done|]. simpl. f_equal. exact IH. Qed.

Lemma arg_round_run g y rest (s : exec_state) :
  g <> [] -> length g <= 98 ->
  arg_round (ArgVector ((Some <$> g) ++ replicate (100 - length g) None) (length g) 100 (y :: rest)) s =
  (Done (inl (ArgVector ((Some <$> g) ++ y :: replicate (99 - length g) None) (length g + 1) 100 rest)), s).
Proof.
  intros Hg Hlen. unfold arg_round. cbn [av_argv av_argc av_size av_rest].
  assert (Hlast : exists e, ((Some <$> g) ++ replicate (100 - length g) None) !! (length g - 1) = Some (Some e)).
  { destruct g as [|e0 g0 _] using rev_ind; [done|]. exists e0.
    rewrite fmap_app, length_app, <- app_assoc. simpl.
    apply list_lookup_middle. rewrite length_fmap. lia. }
  destruct Hlast as [e ->]. cbn [deref]. rewrite mret_bind.
  replace (100 <=? length g + 1) with false by (symmetry; apply Nat.leb_gt; lia).
  rewrite mret_bind. cbn [head tail deref]. rewrite mret_bind. unfold store.
  replace (length g <? _) with true by
    (symmetry; apply Nat.ltb_lt; rewrite length_app, length_fmap, length_replicate; lia).
  rewrite mret_bind. replace (100 - length g) with (S (99 - length g)) by lia. cbn [replicate].
  assert (E : forall tl, <[length g := y]> ((Some <$> g) ++ None :: tl) = (Some <$> g) ++ y :: tl).
  { intros tl. rewrite <- (length_fmap Some g) at 1. apply insert_app_mid. }
  by rewrite E.
Qed.

Lemma arg_round_end g tl size rest (s : exec_state) :
  arg_round (ArgVector ((Some <$> g) ++ None :: tl) (length g + 1) size rest) s =
  (Done (inr (Some (ArgVector ((Some <$> g) ++ None :: tl) (length g + 1) size rest))), s).
Proof.
  unfold arg_round. cbn [av_argv av_argc av_size av_rest].
  by rewrite Nat.add_sub, list_lookup_middle by (by rewrite length_fmap).
Qed.

(** The vector while it holds the arguments [g]. *)
Definition holding (g : list bytes) (rest : list (option bytes)) : arg_vector :=
  ArgVector ((Some <$> g) ++ replicate (100 - length g) None) (length g) 100 rest.

Lemma arg_loop_prefix l g rest fuel (s : exec_state) :
  g <> [] -> length g + length l <= 99 ->
  iter (length l + fuel) arg_round (holding g ((Some <$> l) ++ rest)) s =
  iter fuel arg_round (holding (g ++ l) rest) s.
Proof.
  unfold holding. revert g. induction l as [|x l IH]; intros g Hg Hlen; simpl in Hlen.
  { by rewrite app_nil_r. }
  cbn [iter length Nat.add fmap list_fmap app].
  rewrite (bind_done _ _ _ _ _ (arg_round_run g _ _ s Hg ltac:(lia))).
  assert (E2 : length g + 1 = length (g ++ [x])) by (by rewrite length_app).
  assert (E1 : (Some <$> g) ++ Some x :: replicate (99 - length g) None =
    (Some <$> (g ++ [x])) ++ replicate (100 - length (g ++ [x])) None).
  { rewrite fmap_app, <- app_assoc, <- E2. by replace (100 - (length g + 1)) with (99 - length g) by lia. }
  rewrite E1, E2. etransitivity; [apply (IH (g ++ [x])); [by destruct g|rewrite <- E2; lia]|].
  by rewrite <- app_assoc.
Qed.

Lemma arg_loop_run l g (s : exec_state) :
  g <> [] -> length g + length l <= 98 ->
  iter (length l + 2) arg_round (holding g ((Some <$> l) ++ [None])) s =
  (Done (Some (ArgVector ((Some <$> (g ++ l)) ++ replicate (100 - length (g ++ l)) None)
                         (length (g ++ l) + 1) 100 [])), s).
Proof.
  intros Hg Hlen. rewrite arg_loop_prefix by (done || lia). cbn [iter]. unfold holding.
  rewrite (bind_done _ _ _ _ _ (arg_round_run (g ++ l) None [] s ltac:(by destruct g) ltac:(rewrite length_app; lia))).
  rewrite (bind_done _ _ _ _ _ (arg_round_end _ _ _ _ _)).
  replace (100 - length (g ++ l)) with (S (99 - length (g ++ l))) by (rewrite length_app; lia). done.
Qed.

Lemma build_argv_run a l (s : exec_state) : argv_ok = true -> length l <= 97 ->
  build_argv (Some a) ((Some <$> l) ++ [None]) s =
  (Done (Some (ArgVector ((Some <$> (a :: l)) ++ replicate (100 - length (a :: l)) None)
                         (length (a :: l) + 1) 100 [])), s).
Proof.
  intros Hok Hl. unfold build_argv. rewrite Hok. unfold store. rewrite length_replicate.
  change (0 <? 100) with true. cbv iota. rewrite mret_bind.
  replace (S (length ((Some <$> l) ++ [None]))) with (length l + 2)
    by (rewrite length_app, length_fmap; simpl; lia).
  apply (arg_loop_run l [a]); [done|simpl; lia].
Qed.

Lemma strchr_slash f : bool_decide (is_Some (strchr f "/")) = bool_decide ("/"%char ∈ f).
Proof.
  apply bool_decide_ext. unfold strchr. destruct (index_of "/" f) as [n|] eqn:Hi.
  - apply index_of_Some in Hi as [Hn _]. split; [intros _|done]. by eapply list_elem_of_lookup_2.
  - apply index_of_None in Hi. split; [by intros []|done].
Qed.

Lemma try_exec_run filename argc argv (s : exec_state) :
  let ims := images filename (vector_of argv) (lc_environ s.1) in
  Forall (fun im => exec_error im <> Some ENOEXEC) ims ->
  let r := attempts ims false 0 in
  exists l' ea e, try_exec filename argc argv (lc_environ s.1) s =
      (Done (match r.2 with inl im => inl im | inr _ => inr (ea, e) end), (l', s.2 ++ r.1)) /\
    forall ea' e', r.2 = inr (ea', e') ->
      (if ea then EACCES else e) = (if ea' then EACCES else e').
Proof.
  cbv zeta. unfold images, try_exec. rewrite strchr_slash. case_bool_decide as Hslash; intros Hall.
  - cbn [fmap list_fmap attempts] in *. apply Forall_cons in Hall as [Hne _].
    unfold mbind at 1. unfold M_bind at 1. rewrite execve_run.
    destruct (exec_error _) as [e|] eqn:He; [|by exists s.1, false, 0%Z].
    assert (Hns : (e =? ENOEXEC)%Z = false) by (apply Z.eqb_neq; congruence).
    unfold get_errno. munfold. cbn [libc_of fst lc_errno pair_has_libc]. rewrite Hns.
    eexists _, false, e. split; [done|]. intros ea' e' [= <- <-]. simpl.
    by destruct (Z.eqb_spec e EACCES) as [->|].
  - unfold getenv, gets. unfold mbind at 1. unfold M_bind at 1.
    change (libc_of s) with s.1. rewrite <- list_fmap_compose in *.
    set (PATH := match env_lookup (str "PATH") (lc_environ s.1) with
                 | Some p => if strlen p =? 0 then str "." else p | None => str "." end).
    assert (HP : match env_lookup (str "PATH") (lc_environ s.1) with
                 | None | Some [] => str "." | Some p => p end = PATH).
    { unfold PATH. by destruct (env_lookup _ _) as [[]|]. }
    rewrite HP in *. 
    destruct (search_run PATH filename argc argv (lc_environ s.1) (S (length PATH)) 0 false 0 s)
      as [l' Hl']; [rewrite drop_0; lia|by rewrite drop_0|].
    rewrite drop_0 in Hl'. change (search_images filename argv (lc_environ s.1) PATH) with
      ((fun p => Image p (vector_of argv) (lc_environ s.1)) ∘ candidate filename <$> split_colon PATH) in Hl'.
    set (r := attempts _ _ _) in *. destruct r as [tried [im|[ea e]]]; cbn [fst snd] in *.
    + exists l', false, 0%Z. by split.
    + exists l', ea, e. split; [exact Hl'|]. by intros ? ? [= -> ->].
Qed.


(** * What it should not do *)

Lemma copy_args_overflow n i argv sh (s : exec_state) :
  i + S n = length sh -> copy_args (seq i (S n)) argv sh s = (Undefined, s).
Proof.
  revert i sh. induction n as [|n IH]; intros i sh Hlen; cbn [seq copy_args].
  - destruct (argv !! i); [|done]. cbn [deref]. rewrite mret_bind. unfold store.
    by replace (i + 1 <? length sh) with false by (symmetry; apply Nat.ltb_ge; lia).
  - destruct (argv !! i); [|done]. cbn [deref]. rewrite mret_bind. unfold store.
    replace (i + 1 <? length sh) with true by (symmetry; apply Nat.ltb_lt; lia).
    rewrite mret_bind. apply (IH (S i)). rewrite length_insert. lia.
Qed.

(** ExecShScript() is undefined on every input: [argc] already counts the
    null pointer that ends [argv], so its array of argc + 1 elements has no room
    for the shell's name and all the elements copied. *)
Theorem execShScript_undefined argc argv envp (s : exec_state) :
  execShScript argc argv envp s = (Undefined, s).
Proof.
  unfold execShScript, store. rewrite length_replicate, Nat.add_1_r. cbn [Nat.ltb Nat.leb].
  rewrite mret_bind.
  assert (E : copy_args (seq 0 (S argc)) argv (<[0:=Some SHELL_PATH]> (replicate (S argc) None)) s
              = (Undefined, s))
    by (apply copy_args_overflow; by rewrite length_insert, length_replicate).
  unfold mbind, M_bind. by rewrite E.
Qed.

(** With 99 arguments or more (the program's name included), execlp() writes
    beyond its argument vector: growing the vector, it asks realloc() for the
    size of one pointer. *)
Theorem execlp_overflow filename a l (s : exec_state) :
  argv_ok = true -> realloc_ok = true -> 98 <= length l ->
  (execlp filename (Some a) ((Some <$> l) ++ [None]) s).1 = Undefined.
Proof.
  intros Hok Hre Hl. unfold execlp, build_argv. rewrite Hok. unfold store. rewrite length_replicate.
  change (0 <? 100) with true. cbv iota. rewrite bind_bind, mret_bind.
  assert (Hsplit : (Some <$> l) ++ [None] = (Some <$> take 98 l) ++ (Some <$> drop 98 l) ++ [None]).
  { by rewrite app_assoc, <- fmap_app, take_drop. }
  rewrite Hsplit. replace (S (length _)) with (length (take 98 l) + S (length (drop 98 l) + 1))
    by (rewrite !length_app, !length_fmap; simpl; lia).
  set (rest := (Some <$> drop 98 l) ++ [None]).
  assert (Hrun : iter (length (take 98 l) + S (length (drop 98 l) + 1)) arg_round
    (holding [a] ((Some <$> take 98 l) ++ rest)) s = (Undefined, s)).
  { assert (H98 : length (take 98 l) = 98) by (rewrite length_take; lia).
    rewrite arg_loop_prefix by (done || (rewrite H98; simpl; lia)). cbn [iter].
    set (g := [a] ++ take 98 l). assert (Hg : length g = 99) by (unfold g; rewrite length_app, H98; done).
    unfold holding, arg_round at 2. cbn [av_argv av_argc av_size av_rest]. rewrite Hg.
    assert (Hlast : exists e, ((Some <$> g) ++ replicate (100 - 99) None) !! (99 - 1) = Some (Some e)).
    { destruct (lookup_lt_is_Some_2 g 98) as [e He]; [lia|]. exists e.
      change (99 - 1) with 98. apply lookup_app_l_Some. by rewrite list_lookup_fmap, He. }
    destruct Hlast as [e He]. rewrite He. cbn [deref]. rewrite bind_bind, mret_bind.
    change (100 <=? 99 + 1) with true. cbv iota. rewrite Hre, bind_bind, mret_bind.
    assert (exists y, head rest = Some y) as [y ->] by (unfold rest; destruct (drop 98 l); by eexists).
    cbn [deref]. rewrite bind_bind, mret_bind, bind_bind.
    unfold store. rewrite length_take. replace (99 <? _) with false by (symmetry; apply Nat.ltb_ge; lia).
    done. }
  unfold holding in Hrun. unfold mbind, M_bind.
  change (<[0:=Some a]> (replicate 100 None)) with ((Some <$> [a]) ++ replicate (100 - length [a]) None).
  cbn [length] in *. by rewrite Hrun.
Qed.
End execlp.

(** ** On a concrete system *)

(** A system where only /usr/bin/prog can be run, and ./prog is not executable. *)
Definition exec_error0 (im : image) : option Z :=
  if streq (im_path im) (str "/usr/bin/prog") then None
  else if streq (im_path im) (str "./prog") then Some EACCES else Some ENOENT.
Definition exec_state0 : exec_state :=
  (Libc 0 [str "PATH=/bin::/usr/bin:/x"] [] [], []).


Lemma execlp_overflow_witness :
  (execlp exec_error0 true true true (str "prog") (Some (str "prog"))
     ((Some <$> replicate 98 (str "x")) ++ [None]) exec_state0).1 = Undefined.
Proof.
  apply (execlp_overflow exec_error0 true true true (str "prog") (str "prog") (replicate 98 (str "x")));
    [reflexivity|reflexivity|]. rewrite length_replicate. lia.
Defined.
