(* ===== verification/System.v ===== *)
(** book-src/procexec/system.c: system(3), with its handling of signals. *)
From S2P Require Import Prelude CLib Sys.

(** * Processes *)

Definition SIGINT : Z := 2.
Definition SIGQUIT : Z := 3.
Definition SIGCHLD : Z := 17.

Inductive sighandler := SIG_DFL | SIG_IGN | Handler (f : Z).

#[export] Instance sighandler_eq_dec : EqDecision sighandler.
Proof. solve_decision. Defined.

(** struct sigaction *)
Record sigaction_t := Sigaction {
  sa_handler : sighandler;
  sa_flags : Z;
  sa_mask : gset Z
}.

(** What a child of fork() ends up as: the shell, started with a signal mask,
    the dispositions of SIGINT and SIGQUIT and its arguments, or gone with an
    exit status. *)
Inductive child :=
| Execed (mask : gset Z) (int quit : sighandler) (path : bytes) (argv : list bytes)
| Gone (status : Z).

(** The calling process and the system it waits for its children in. *)
Record proc (W : Type) := Proc {
  pr_libc : libc;
  pr_mask : gset Z;
  pr_actions : gmap Z sigaction_t;
  pr_children : list child;
  pr_world : W
}.
Arguments Proc {W} _ _ _ _ _.
Arguments pr_libc {W} _.
Arguments pr_mask {W} _.
Arguments pr_actions {W} _.
Arguments pr_children {W} _.
Arguments pr_world {W} _.

#[export, refine] Instance proc_has_libc {W} : HasLibc (proc W) :=
  {| libc_of := pr_libc;
     set_libc l p := Proc l (pr_mask p) (pr_actions p) (pr_children p) (pr_world p) |}.
Proof. all: by intros; repeat match goal with s : proc _ |- _ => destruct s end. Defined.

(** fork(2) as seen by the parent, and waitpid(2) for one child. *)
Class WaitOS (W : Type) := {
  sys_fork : M W (sysres Z);
  sys_waitpid : Z -> M W (sysres Z)
}.

(** Both calls return, and a wait is interrupted only finitely often. *)
Class WaitSpec (W : Type) `{WaitOS W} := {
  interruptions : W -> nat;
  fork_returns : forall w,
    post (fun _ w' => interruptions w' <= interruptions w) (fun _ _ => False) (sys_fork w);
  waitpid_returns : forall p w,
    post (fun r w' => r = SErr EINTR -> interruptions w' < interruptions w)
      (fun _ _ => False) (sys_waitpid p w)
}.

Section system.
Context {W : Type} `{WaitOS W}.

Definition action_of (p : proc W) (sig : Z) : sigaction_t :=
  default (Sigaction SIG_DFL 0 ∅) (pr_actions p !! sig).

(** sigaction(sig, act, oact) *)
Definition sigaction (sig : Z) (act : sigaction_t) : M (proc W) sigaction_t :=
  old ← gets (fun p => action_of p sig);
  modify (fun p => Proc (pr_libc p) (pr_mask p) (<[sig := act]> (pr_actions p)) (pr_children p) (pr_world p));;
  mret old.

(** sigprocmask(how, set, oset), for SIG_BLOCK and SIG_SETMASK *)
Definition sigblock (set : gset Z) : M (proc W) (gset Z) :=
  old ← gets pr_mask;
  modify (fun p => Proc (pr_libc p) (pr_mask p ∪ set) (pr_actions p) (pr_children p) (pr_world p));;
  mret old.
Definition sigsetmask (set : gset Z) : M (proc W) unit :=
  modify (fun p => Proc (pr_libc p) set (pr_actions p) (pr_children p) (pr_world p)).

Definition sys {A} (m : M W (sysres A)) : M (proc W) (option A) :=
  r ← (fun p => let '(o, w) := m (pr_world p) in
                (o, Proc (pr_libc p) (pr_mask p) (pr_actions p) (pr_children p) w));
  match r with
  | SOk a => mret (Some a)
  | SErr e => set_errno e;; mret None
  end.

(** Whether /bin/sh can be executed. *)
Context (shell_ok : bool).

(** execl(): a signal that is caught goes back to its default. *)
Definition exec_handler (h : sighandler) : sighandler :=
  match h with Handler _ => SIG_DFL | h => h end.
Definition execl (path : bytes) (argv : list bytes) : M (proc W) (option child) :=
  if shell_ok then
    p ← mget;
    mret (Some (Execed (pr_mask p) (exec_handler (sa_handler (action_of p SIGINT)))
                  (exec_handler (sa_handler (action_of p SIGQUIT))) path argv))
  else set_errno ENOENT;; mret None.

(** Source: book-src/procexec/system.c:55-73 (system, child). *)
Definition system_child (command : bytes) (origMask : gset Z) (saOrigInt saOrigQuit : sigaction_t)
    : M (proc W) child :=
  let saDefault := Sigaction SIG_DFL 0 ∅ in
  when (bool_decide (sa_handler saOrigInt <> SIG_IGN)) (sigaction SIGINT saDefault;; mret tt);;
  when (bool_decide (sa_handler saOrigQuit <> SIG_IGN)) (sigaction SIGQUIT saDefault;; mret tt);;
  sigsetmask origMask;;
  r ← execl (str "/bin/sh") [str "sh"; str "-c"; command];
  match r with
  | Some c => mret c
  | None => mret (Gone 127)
  end.

(** fork(): the child runs on a copy of the parent's state. *)
Definition fork (child_code : M (proc W) child) : M (proc W) (option Z) :=
  r ← sys sys_fork;
  match r with
  | None => mret None
  | Some pid =>
      p ← mget;
      match child_code p with
      | (Done c, _) =>
          modify (fun p => Proc (pr_libc p) (pr_mask p) (pr_actions p) (pr_children p ++ [c]) (pr_world p));;
          mret (Some pid)
      | _ => undefined
      end
  end.

(** Source: book-src/procexec/system.c:80-85 (system, waitpid loop). *)
Definition wait_round (childPid : Z) (_ : unit) : M (proc W) (unit + Z) :=
  r ← sys (sys_waitpid childPid);
  match r with
  | Some status => mret (inr status)
  | None =>
      e ← get_errno;
      if negb (e =? EINTR)%Z then mret (inr (-1)%Z) else mret (inl tt)
  end.

(** system() of a command that is not null. *)
(** Source: book-src/procexec/system.c:34-100 (system). *)
Definition system_command (fuel : nat) (command : bytes) : M (proc W) Z :=
  origMask ← sigblock {[ SIGCHLD ]};
  let saIgnore := Sigaction SIG_IGN 0 ∅ in
  saOrigInt ← sigaction SIGINT saIgnore;
  saOrigQuit ← sigaction SIGQUIT saIgnore;
  childPid ← fork (system_child command origMask saOrigInt saOrigQuit);
  status ← match childPid with
           | None => mret (-1)%Z
           | Some pid => iter fuel (wait_round pid) tt
           end;
  savedErrno ← get_errno;
  sigsetmask origMask;;
  sigaction SIGINT saOrigInt;;
  sigaction SIGQUIT saOrigQuit;;
  set_errno savedErrno;;
  mret status.

(** Source: book-src/procexec/system.c:23-33 (system). *)
Definition system (fuel : nat) (command : option bytes) : M (proc W) Z :=
  match command with
  | None => r ← system_command fuel (str ":"); mret (if (r =? 0)%Z then 1%Z else 0%Z)
  | Some c => system_command fuel c
  end.

(** * The caller and the child *)

Context {HWS : WaitSpec W}.

(** What a step that only talks to the system leaves alone. *)
Definition same_signals (p p' : proc W) : Prop :=
  pr_mask p' = pr_mask p /\ pr_actions p' = pr_actions p /\ pr_children p' = pr_children p.

Lemma wait_loop_run pid fuel (p : proc W) :
  interruptions (pr_world p) < fuel ->
  post (fun r p' => same_signals p p' /\
                    (r = (-1)%Z \/ exists w w', sys_waitpid pid w = (Done (SOk r), w')))
    (fun _ _ => False) (iter fuel (wait_round pid) tt p).
Proof.
  intros Hf. apply (iter_total (wait_round pid) (fun _ p' => same_signals p p')
    (fun _ p' => interruptions (pr_world p'))); [|done|done].
  intros [] p1 (Hm & Ha & Hc). unfold wait_round, sys. apply post_bind, post_bind. cbn [pr_world].
  pose proof (waitpid_returns pid (pr_world p1)) as Hr.
  destruct (sys_waitpid pid (pr_world p1)) as [[[st|e]| | | |] w1] eqn:Hw; simpl in Hr; try done.
  - split; [done|]. right. by exists (pr_world p1), w1.
  - unfold set_errno, get_errno. munfold. simpl. destruct (Z.eqb_spec e EINTR) as [->|Hne]; simpl.
    + split; [done|]. by apply Hr.
    + split; [done|]. by left.
Qed.

Lemma action_insert p sig a sig' :
  action_of (Proc (pr_libc p) (pr_mask p) (<[sig := a]> (pr_actions p)) (pr_children p) (pr_world p)) sig' =
  if decide (sig = sig') then a else action_of p sig'.
Proof.
  unfold action_of. cbn [pr_actions]. case_decide as Hs.
  - subst. by rewrite lookup_insert_eq.
  - by rewrite lookup_insert_ne.
Qed.

(** The disposition a signal has in the new program. *)
Definition inherited (p : proc W) (sig : Z) : sighandler :=
  if decide (sa_handler (action_of p sig) = SIG_IGN) then SIG_IGN else SIG_DFL.

(** The state in which system() forks, and the child it makes. *)
Definition prepared (p : proc W) : proc W :=
  Proc (pr_libc p) (pr_mask p ∪ {[ SIGCHLD ]})
    (<[SIGQUIT := Sigaction SIG_IGN 0 ∅]> (<[SIGINT := Sigaction SIG_IGN 0 ∅]> (pr_actions p)))
    (pr_children p) (pr_world p).
Definition the_child (p : proc W) (command : bytes) : child :=
  if shell_ok then Execed (pr_mask p) (inherited p SIGINT) (inherited p SIGQUIT) (str "/bin/sh")
                     [str "sh"; str "-c"; command]
  else Gone 127.

Lemma prepared_action p sig : sig = SIGINT \/ sig = SIGQUIT ->
  sa_handler (action_of (prepared p) sig) = SIG_IGN.
Proof.
  unfold action_of, prepared. cbn [pr_actions]. intros [->| ->].
  - by rewrite lookup_insert_ne, lookup_insert_eq by done.
  - by rewrite lookup_insert_eq.
Qed.

Lemma child_run p q command :
  pr_mask q = pr_mask (prepared p) -> pr_actions q = pr_actions (prepared p) ->
  (system_child command (pr_mask p) (action_of p SIGINT) (action_of p SIGQUIT) q).1 =
  Done (the_child p command).
Proof.
  intros Hm Ha. unfold system_child, the_child, inherited.
  assert (Hi : sa_handler (action_of q SIGINT) = SIG_IGN).
  { unfold action_of. rewrite Ha. by apply prepared_action; left. }
  assert (Hq : sa_handler (action_of q SIGQUIT) = SIG_IGN).
  { unfold action_of. rewrite Ha. by apply prepared_action; right. }
  unfold sigaction, sigsetmask, execl. unfold action_of in *.
  destruct (decide (sa_handler (default _ (pr_actions p !! SIGINT)) = SIG_IGN)) as [E1|E1];
  destruct (decide (sa_handler (default _ (pr_actions p !! SIGQUIT)) = SIG_IGN)) as [E2|E2];
    repeat first [rewrite (bool_decide_eq_true_2 (_ <> _)) by done
                 |rewrite (bool_decide_eq_false_2 (_ <> _)) by tauto];
    munfold; destruct shell_ok; try done; cbn [fst pr_actions pr_mask]; do 2 f_equal;
    rewrite ?lookup_insert_eq, ?lookup_insert_ne, ?Hi, ?Hq by done; rewrite ?lookup_insert_eq, ?Hi, ?Hq; done.
Qed.

(** The last four calls of system(). *)
(** system() from the fork on. *)
Definition after_setup (fuel : nat) (command : bytes) (mask : gset Z) (int quit : sigaction_t)
    : M (proc W) Z :=
  childPid ← fork (system_child command mask int quit);
  status ← match childPid with
           | None => mret (-1)%Z
           | Some pid => iter fuel (wait_round pid) tt
           end;
  savedErrno ← get_errno;
  sigsetmask mask;;
  sigaction SIGINT int;;
  sigaction SIGQUIT quit;;
  set_errno savedErrno;;
  mret status.

Lemma setup_run fuel command p :
  system_command fuel command p =
  after_setup fuel command (pr_mask p) (action_of p SIGINT) (action_of p SIGQUIT) (prepared p).
Proof.
  transitivity (after_setup fuel command (pr_mask p) (action_of p SIGINT)
    (action_of (Proc (pr_libc p) (pr_mask p) (<[SIGINT := Sigaction SIG_IGN 0 ∅]> (pr_actions p))
                  (pr_children p) (pr_world p)) SIGQUIT) (prepared p)); [reflexivity|].
  by rewrite action_insert, decide_False.
Qed.

Lemma restored_actions (p p1 : proc W) :
  pr_actions p1 = pr_actions (prepared p) ->
  forall sig, default (Sigaction SIG_DFL 0 ∅)
    (<[SIGQUIT := action_of p SIGQUIT]> (<[SIGINT := action_of p SIGINT]> (pr_actions p1)) !! sig)
    = action_of p sig.
Proof.
  intros -> sig. unfold action_of, prepared. cbn [pr_actions].
  destruct (decide (sig = SIGQUIT)) as [->|Hq]; [by rewrite lookup_insert_eq|].
  rewrite lookup_insert_ne by done.
  destruct (decide (sig = SIGINT)) as [->|Hi]; [by rewrite lookup_insert_eq|].
  by rewrite !lookup_insert_ne by done.
Qed.

(** C31: system() always returns, with the signal mask and every signal disposition
    of its caller as they were, whether or not fork() and waitpid() fail. The
    result is -1 or a status that waitpid() gave for the child that was forked.
    Exactly one child was made unless fork() failed; it runs the command in a
    shell (or exits with status 127 when there is none) under the caller's own
    signal mask, ignoring SIGINT and SIGQUIT only if the caller did. *)
Theorem system_correct fuel command (p : proc W) :
  interruptions (pr_world p) < fuel ->
  post (fun r p' =>
    pr_mask p' = pr_mask p /\
    (forall sig, action_of p' sig = action_of p sig) /\
    (pr_children p' = pr_children p /\ r = (-1)%Z \/
     pr_children p' = pr_children p ++ [the_child p command] /\
       exists pid w, sys_fork (pr_world p) = (Done (SOk pid), w) /\
         (r = (-1)%Z \/ exists w1 w2, sys_waitpid pid w1 = (Done (SOk r), w2))))
    (fun _ _ => False) (system_command fuel command p).
Proof.
  intros Hf. rewrite setup_run. unfold after_setup, fork. apply post_bind, post_bind.
  unfold sys. apply post_bind. change (pr_world (prepared p)) with (pr_world p).
  pose proof (fork_returns (pr_world p)) as Hfork.
  destruct (sys_fork (pr_world p)) as [[[pid|e]| | | |] w] eqn:Ew; simpl in Hfork; try done.
  - cbn [post mret M_ret]. apply post_bind. cbn [post mget].
    set (p1 := Proc _ _ _ _ w).
    pose proof (child_run p p1 command eq_refl eq_refl) as Hc.
    destruct (system_child _ _ _ _ p1) as [o pc]. simpl in Hc. subst o.
    apply post_bind. cbn [post modify mret M_ret]. apply post_bind.
    set (p2 := Proc _ _ _ _ _).
    eapply post_mono; [| |apply (wait_loop_run pid fuel p2); simpl; lia]; [|done].
    cbn beta. intros r p3 ((Hm & Ha & Hch) & Hr). split_and!; [done| |].
    + intros sig. apply (restored_actions p p3). by rewrite Ha.
    + right. split; [exact Hch|]. exists pid, w. split; [done|]. destruct Hr as [?|(w1 & w2 & ?)]; eauto.
  - split_and!; [done| |by left]. intros sig. by apply (restored_actions p (prepared p)).
Qed.
End system.

(** ** On a concrete system *)

(** The results of the waits to come; a wait beyond them gives status 0. *)
Definition wait_script : Type := list (sysres Z).

#[export] Instance wait_script_os : WaitOS wait_script := {
  sys_fork := mret (SOk 100%Z);
  sys_waitpid pid :=
    l ← mget;
    match l with
    | [] => mret (SOk 0%Z)
    | r :: l' => modify (fun _ => l');; mret r
    end
}.
#[export, refine] Instance wait_script_spec : WaitSpec wait_script := {| interruptions := @length _ |}.
Proof.
  - intros w. simpl. done.
  - intros p [|r l]; simpl; [done|]. intros _. lia.
Defined.

(** A caller that catches SIGINT and ignores SIGQUIT; its wait is interrupted
    twice. *)
Definition proc0 : proc wait_script :=
  Proc libc0 {[ 10%Z ]}
    (<[SIGINT := Sigaction (Handler 1) 0 ∅]> (<[SIGQUIT := Sigaction SIG_IGN 0 ∅]> ∅)) []
    [SErr EINTR; SErr EINTR; SOk 256%Z].

Lemma system_correct_witness :
  post (fun r p' => pr_mask p' = {[ 10%Z ]} /\ sa_handler (action_of p' SIGINT) = Handler 1)
    (fun _ _ => False) (system_command true 5 (str "ls") proc0) /\
  (system_command true 5 (str "ls") proc0).1 = Done 256%Z /\
  pr_children (system_command true 5 (str "ls") proc0).2 =
    [Execed {[ 10%Z ]} SIG_DFL SIG_IGN (str "/bin/sh") [str "sh"; str "-c"; str "ls"]].
Proof.
  split; [|split; vm_compute; reflexivity].
  assert (Hf : interruptions (pr_world proc0) < 5) by (simpl; lia).
  eapply post_mono; [| |apply (system_correct true 5 (str "ls") proc0 Hf)]; [|done].
  intros r p' (Hm & Ha & _). split; [exact Hm|]. by rewrite Ha.
Defined.
