(* ===== verification/SemOps.v ===== *)
(** book-src/svsem/svsem_op.c: the notation for System V semaphore operations,
    and the program that performs them. *)
From S2P Require Import Prelude CLib Sys ErrorFunctions GetNum.
#[local] Open Scope Z_scope.

Definition IPC_NOWAIT : Z := 0x800.
Definition SEM_UNDO : Z := 0x1000.

(** Source: book-src/svsem/svsem_op.c:25-26 (MAX_SEMOPS). *)
Definition MAX_SEMOPS : nat := 1000.

(** struct sembuf: an unsigned short and two shorts. *)
Record sembuf := Sembuf { sem_num : Z; sem_op : Z; sem_flg : Z }.

#[export] Instance sembuf_eq_dec : EqDecision sembuf.
Proof. solve_decision. Defined.

(** A text between double quotes. *)
Definition quoted (b : bytes) : bytes := [ascii_of_nat 34] ++ b ++ [ascii_of_nat 34].

Section svsem_op.
Context {S : Type} `{HasLibc S}.
Context (strerror : Z -> bytes).

Definition usage_text (progName : bytes) : bytes :=
  str "Usage: " ++ progName ++ str " semid op[,op...] ..." ++ [newline; newline] ++
  str "'op' is either: <sem#>{+|-}<value>[n][u]" ++ [newline] ++
  str "            or: <sem#>=0[n]" ++ [newline] ++
  str "       " ++ quoted (str "n") ++ str " means include IPC_NOWAIT in 'op'" ++ [newline] ++
  str "       " ++ quoted (str "u") ++ str " means include SEM_UNDO in 'op'" ++ [newline; newline] ++
  str "The operations in each argument are performed in a single semop() call" ++ [newline; newline] ++
  str "e.g.: " ++ progName ++ str " 12345 0+1,1-2un" ++ [newline] ++
  str "      " ++ progName ++ str " 12345 0=0n 1+1,2-1u 1=0" ++ [newline].

(** Source: book-src/svsem/svsem_op.c:28-41 (usageError). *)
Definition usageError {A} (progName : bytes) : M S A :=
  eprintf (usage_text progName);; c_exit EXIT_FAILURE.

(** The loop over the flag letters: the flags, and what follows them. *)
(** Source: book-src/svsem/svsem_op.c:77-85 (parseOps, flags). *)
Fixpoint scan_flags (flg : Z) (flags : bytes) : Z * bytes :=
  match flags with
  | c :: flags' =>
      if ceq c "n" then scan_flags (Z.lor flg IPC_NOWAIT) flags'
      else if ceq c "u" then scan_flags (Z.lor flg SEM_UNDO) flags'
      else (flg, flags)
  | [] => (flg, flags)
  end.

(** One turn of the loop: the operations so far and the text still to parse. *)
(** Source: book-src/svsem/svsem_op.c:53-95 (parseOps, loop body). *)
Definition parse_round (arg : bytes) (st : list sembuf * bytes)
    : M S (list sembuf * bytes + list sembuf) :=
  let '(sops, remaining) := st in
  if (MAX_SEMOPS <=? length sops)%nat then
    cmdLineErr (str "Too many operations (maximum=1000): " ++ quoted arg ++ [newline])
  else if ceq (char_at remaining 0) NUL then
    fatal strerror (str "Trailing comma or empty argument: " ++ quoted arg)
  else if negb (isdigit (char_at remaining 0)) then
    cmdLineErr (str "Expected initial digit: " ++ quoted arg ++ [newline])
  else
    let num := strtol remaining 10 in
    let sign := sl_endptr num in
    if ceq (char_at sign 0) NUL || bool_decide (strchr (str "+-=") (char_at sign 0) = None) then
      cmdLineErr (str "Expected '+', '-', or '=' in " ++ quoted arg ++ [newline])
    else if negb (isdigit (char_at sign 1)) then
      cmdLineErr (str "Expected digit after '" ++ [char_at sign 0] ++ str "' in " ++ quoted arg ++ [newline])
    else
      let val := strtol (drop 1 sign) 10 in
      let op := i16 (sl_value val) in
      op ← (if ceq (char_at sign 0) "-" then mret (i16 (- op))
            else if ceq (char_at sign 0) "=" && negb (op =? 0) then
              cmdLineErr (str "Expected " ++ quoted (str "=0") ++ str " in " ++ quoted arg ++ [newline])
            else mret op);
      let '(flg, flags) := scan_flags 0 (sl_endptr val) in
      if negb (ceq (char_at flags 0) ",") && negb (ceq (char_at flags 0) NUL) then
        cmdLineErr (str "Bad trailing character (" ++ [char_at flags 0] ++ str ") in " ++ quoted arg ++ [newline])
      else
        let sops' := sops ++ [Sembuf (u16 (sl_value num)) op flg] in
        match strchr remaining "," with
        | None => mret (inr sops')
        | Some comma => mret (inl (sops', drop (comma + 1) remaining))
        end.

(** The array filled; its length is the number returned. *)
(** Source: book-src/svsem/svsem_op.c:47-98 (parseOps). *)
Definition parseOps (arg : bytes) : M S (list sembuf) :=
  iter (MAX_SEMOPS + 1) (parse_round arg) ([], arg).

(** The kernel's semop(2), the process id and currTime(). *)
Context (semop : Z -> list sembuf -> M S (sysres unit)) (pid : Z) (currTime : M S bytes).

Definition pad5 (b : bytes) : bytes := replicate (5 - length b) " "%char ++ b.

(** One argument of main(). *)
(** Source: book-src/svsem/svsem_op.c:110-119 (main, loop body). *)
Definition main_arg (semid arg : bytes) : M S unit :=
  sops ← parseOps arg;
  t ← currTime;
  printf (pad5 (print_dec pid) ++ str ", " ++ t ++ str ": about to semop()  [" ++ arg ++ str "]" ++ [newline]);;
  id ← getInt (Some semid) 0 (Some (str "semid"));
  r ← semop id sops;
  match r with
  | SErr e => set_errno e;; errExit strerror (str "semop (PID=" ++ print_dec pid ++ str ")")
  | SOk _ => mret tt
  end;;
  t ← currTime;
  printf (pad5 (print_dec pid) ++ str ", " ++ t ++ str ": semop() completed [" ++ arg ++ str "]" ++ [newline]).

(** Source: book-src/svsem/svsem_op.c:100-123 (main). *)
Definition main (argv : list bytes) : M S unit :=
  progName ← deref (head argv);
  match tail argv with
  | [] => usageError progName
  | semid :: ops =>
      if streq semid (str "--help") then usageError progName
      else for_each ops (main_arg semid);; c_exit EXIT_SUCCESS
  end.
End svsem_op.

(** * Reading back what was written *)

(** An operation in the notation of the usage message. *)
Definition show_op (o : sembuf) : bytes :=
  print_dec (sem_num o) ++
  (if sem_op o =? 0 then str "=0"
   else if sem_op o <? 0 then "-"%char :: print_dec (- sem_op o)
   else "+"%char :: print_dec (sem_op o)) ++
  (if has_bits (sem_flg o) IPC_NOWAIT then str "n" else []) ++
  (if has_bits (sem_flg o) SEM_UNDO then str "u" else []).
Fixpoint show_ops (os : list sembuf) : bytes :=
  match os with
  | [] => []
  | [o] => show_op o
  | o :: os' => show_op o ++ ","%char :: show_ops os'
  end.

(** The fields' ranges; the flags are those of the notation. *)
Definition op_ok (o : sembuf) : Prop :=
  0 <= sem_num o < 65536 /\ - 32768 <= sem_op o < 32768 /\
  sem_flg o ∈ [0; IPC_NOWAIT; SEM_UNDO; Z.lor IPC_NOWAIT SEM_UNDO].

Section roundtrip.
Context {S : Type} `{HasLibc S} (strerror : Z -> bytes).
Implicit Types (s : S).

(** What may follow an operation. *)
Definition op_end (rest : bytes) : Prop := rest = [] \/ exists r, rest = ","%char :: r.

Lemma print_dec_digits n : 0 <= n -> Forall (fun c => isdigit c = true) (print_dec n).
Proof. intros Hn. unfold print_dec. destruct (Z.ltb_spec n 0); [lia|]. by apply print_nonneg_digits. Qed.
Lemma print_dec_head n : 0 <= n -> exists c l, print_dec n = c :: l /\ isdigit c = true.
Proof. intros Hn. unfold print_dec. destruct (Z.ltb_spec n 0); [lia|]. by apply print_nonneg_head. Qed.

Definition show_flags (o : sembuf) : bytes :=
  (if has_bits (sem_flg o) IPC_NOWAIT then str "n" else []) ++
  (if has_bits (sem_flg o) SEM_UNDO then str "u" else []).

(** The sign and the number that an operation is shown with. *)
Definition sign_of (o : sembuf) : ascii :=
  if sem_op o =? 0 then "=" else if sem_op o <? 0 then "-" else "+".

Lemma show_op_parts o : show_op o =
  print_dec (sem_num o) ++ sign_of o :: print_dec (Z.abs (sem_op o)) ++ show_flags o.
Proof.
  unfold show_op, show_flags, sign_of. destruct (Z.eqb_spec (sem_op o) 0) as [->|Hne]; [done|].
  destruct (Z.ltb_spec (sem_op o) 0).
  - by rewrite Z.abs_neq by lia.
  - by rewrite Z.abs_eq by lia.
Qed.

Lemma flags_cases o : op_ok o ->
  (sem_flg o, show_flags o) ∈ [(0, []); (IPC_NOWAIT, str "n"); (SEM_UNDO, str "u");
                               (Z.lor IPC_NOWAIT SEM_UNDO, str "nu")].
Proof.
  intros (_ & _ & Hf). unfold show_flags. rewrite !list_elem_of_In in *. simpl in *.
  destruct Hf as [E|[E|[E|[E|[]]]]]; rewrite <- E; vm_compute; tauto.
Qed.

Lemma scan_flags_run o tl : op_ok o -> op_end tl ->
  scan_flags 0 (show_flags o ++ tl) = (sem_flg o, tl) /\ stops_number (show_flags o ++ tl) /\
  Forall (fun c => c <> ","%char) (show_flags o).
Proof.
  intros Ho Ht. apply flags_cases in Ho. rewrite list_elem_of_In in Ho. simpl in Ho.
  destruct Ho as [E|[E|[E|[E|[]]]]]; injection E as <- <-;
    destruct Ht as [->|[r ->]]; (split_and!; [reflexivity|done|repeat constructor; done]).
Qed.

Lemma sign_facts o :
  isdigit (sign_of o) = false /\ sign_of o <> ","%char /\
  ceq (sign_of o) NUL || bool_decide (strchr (str "+-=") (sign_of o) = None) = false.
Proof. unfold sign_of. destruct (_ =? _); [done|]. by destruct (_ <? _). Qed.

Lemma show_op_no_comma o : op_ok o -> ","%char ∉ show_op o.
Proof.
  intros Ho. rewrite show_op_parts. rewrite elem_of_app, elem_of_cons, elem_of_app.
  assert (Hd : forall n, 0 <= n -> ","%char ∉ print_dec n).
  { intros n Hn Hin. apply (print_dec_digits n) in Hn. rewrite Forall_forall in Hn. by apply Hn in Hin. }
  destruct (scan_flags_run o [] Ho (or_introl eq_refl)) as (_ & _ & Hfl).
  rewrite Forall_forall in Hfl. destruct (sign_facts o) as (_ & Hs & _).
  intros [Hin|[E|[Hin|Hin]]].
  - revert Hin. apply Hd. by destruct Ho as [[? _] _].
  - by rewrite E in Hs.
  - revert Hin. apply Hd. lia.
  - by apply Hfl in Hin.
Qed.

(** Converting the number read to a short gives the operation back. *)
Lemma op_value o : op_ok o -> 
  let op := i16 (Z.abs (sem_op o)) in
  (if ceq (sign_of o) "-" then i16 (- op) else op) = sem_op o /\
  (ceq (sign_of o) "=" = true -> op = 0).
Proof.
  intros (_ & Hr & _). cbv zeta. unfold sign_of.
  destruct (Z.eqb_spec (sem_op o) 0) as [->|Hne]; [by split|].
  destruct (Z.ltb_spec (sem_op o) 0); split; try done.
  - simpl. destruct (decide (sem_op o = -32768)) as [->|]; [reflexivity|].
    rewrite Z.abs_neq, !i16_id by (rewrite ?i16_id; lia). lia.
  - simpl. rewrite Z.abs_eq, i16_id by lia. done.
Qed.

Lemma parse_round_run arg sops o tl (s : S) :
  op_ok o -> op_end tl -> (length sops < MAX_SEMOPS)%nat ->
  parse_round strerror arg (sops, show_op o ++ tl) s =
  (Done (match tl with [] => inr (sops ++ [o]) | _ :: r => inl (sops ++ [o], r) end), s).
Proof.
  intros Ho Ht Hlen. destruct (Ho) as ([Hn1 Hn2] & [Hv1 Hv2] & _).
  unfold parse_round. rewrite (proj2 (Nat.leb_gt _ _) Hlen). rewrite (show_op_parts o).
  destruct (print_dec_head (sem_num o) Hn1) as (c & l & Hc & Hdig).
  destruct (print_dec_head (Z.abs (sem_op o)) ltac:(lia)) as (c' & l' & Hc' & Hdig').
  destruct (scan_flags_run o tl Ho Ht) as (Hflags & Hstop & _).
  assert (Hnul : forall d, isdigit d = true -> ceq d NUL = false).
  { intros d Hd. unfold ceq. apply bool_decide_eq_false. by intros ->. }
  set (t1 := sign_of o :: print_dec (Z.abs (sem_op o)) ++ show_flags o ++ tl).
  assert (Et : (print_dec (sem_num o) ++ sign_of o :: print_dec (Z.abs (sem_op o)) ++ show_flags o) ++ tl
    = print_dec (sem_num o) ++ t1).
  { unfold t1. rewrite <- app_assoc. cbn [app]. by rewrite <- app_assoc. }
  rewrite Et. assert (E0 : char_at (print_dec (sem_num o) ++ t1) 0 = c) by (by rewrite Hc).
  rewrite E0, (Hnul c Hdig), Hdig. cbn [negb].
  destruct (sign_facts o) as (Hsd & _ & Hsign).
  rewrite strtol_print; [|unfold LONG_MIN, LONG_MAX; lia|exact Hsd].
  cbn [sl_endptr sl_value]. change (char_at t1 0) with (sign_of o). rewrite Hsign.
  assert (E1 : char_at t1 1 = c') by (unfold t1; by rewrite Hc').
  rewrite E1, Hdig'. cbn [negb]. change (drop 1 t1) with (print_dec (Z.abs (sem_op o)) ++ show_flags o ++ tl).
  rewrite strtol_print; [|unfold LONG_MIN, LONG_MAX; lia|exact Hstop].
  cbn [sl_endptr sl_value]. destruct (op_value o Ho) as [Hop Hop0]. rewrite Hflags.
  rewrite u16_id by lia. rewrite <- Et, <- show_op_parts.
  assert (Hcomma : strchr (show_op o ++ tl) "," =
    match tl with [] => None | _ => Some (length (show_op o)) end).
  { unfold strchr. change (ceq "," NUL) with false. cbv iota. destruct Ht as [->|[r ->]].
    - rewrite app_nil_r. apply index_of_None. by apply show_op_no_comma.
    - apply index_of_app. by apply show_op_no_comma. }
  rewrite Hcomma.
  assert (Hrec : Sembuf (sem_num o) (sem_op o) (sem_flg o) = o) by (by destruct o).
  assert (Htail : negb (ceq (char_at tl 0) ",") && negb (ceq (char_at tl 0) NUL) = false).
  { by destruct Ht as [->|[r ->]]. }
  rewrite Htail. destruct (ceq (sign_of o) "-") eqn:Hminus; [|destruct (ceq (sign_of o) "=") eqn:Heq].
  - rewrite mret_bind, Hop, Hrec. destruct Ht as [->|[r ->]]; [done|]. by rewrite drop_app_add.
  - rewrite (Hop0 eq_refl) in Hop |- *. cbn [negb andb Z.eqb]. rewrite mret_bind, Hop, Hrec.
    destruct Ht as [->|[r ->]]; [done|]. by rewrite drop_app_add.
  - cbn [andb]. rewrite mret_bind, Hop, Hrec. destruct Ht as [->|[r ->]]; [done|].
    by rewrite drop_app_add.
Qed.

Lemma show_ops_cons o os : show_ops (o :: os) =
  show_op o ++ match os with [] => [] | _ => ","%char :: show_ops os end.
Proof. destruct os; [by rewrite app_nil_r|done]. Qed.

Lemma parse_loop_run arg os sops fuel (s : S) :
  os <> [] -> Forall op_ok os -> (length sops + length os <= MAX_SEMOPS)%nat ->
  (length os <= fuel)%nat ->
  iter fuel (parse_round strerror arg) (sops, show_ops os) s = (Done (sops ++ os), s).
Proof.
  revert sops fuel. induction os as [|o os IH]; intros sops [|fuel] Hne Hall Hlen Hf;
    cbn [length] in Hlen, Hf; try done; [lia|].
  cbn [iter]. apply Forall_cons in Hall as [Ho Hall]. rewrite show_ops_cons.
  set (tl := match os with [] => [] | _ => _ end).
  assert (Htl : op_end tl) by (unfold tl; destruct os; [by left|right; by eexists]).
  rewrite (bind_done _ _ _ _ _ (parse_round_run arg sops o tl s Ho Htl ltac:(lia))). unfold tl.
  destruct os as [|o' os']; [done|]. rewrite IH; [by rewrite <- app_assoc|done|done| |cbn [length] in *; lia].
  rewrite length_app. simpl in *. lia.
Qed.

(** parseOps() reads back any list of 1 to 1000 semaphore operations written
    in its own notation (number, sign, value, then the flag letters, separated by
    commas): every number, operation and flag comes back unchanged, at the full
    range of their types, and nothing is written or set on the way. *)
Theorem parseOps_roundtrip os (s : S) :
  os <> [] -> Forall op_ok os -> (length os <= MAX_SEMOPS)%nat ->
  parseOps strerror (show_ops os) s = (Done os, s).
Proof. intros Hne Hall Hlen. unfold parseOps. apply parse_loop_run; [done|done|done|lia]. Qed.
End roundtrip.

(** The value after '=' is tested only once it is converted to a short, so
    that "0=65536" is accepted where "=0" is required. *)
Theorem parseOps_truncates strerror :
  parseOps (S := libc) strerror (str "0=65536") libc0 = (Done [Sembuf 0 0 0], libc0) /\
  parseOps (S := libc) strerror (str "0=0") libc0 = (Done [Sembuf 0 0 0], libc0).
Proof. split; vm_compute; reflexivity. Qed.

Lemma parseOps_roundtrip_witness :
  parseOps (S := libc) (fun _ => []) (str "0+1,1-2nu,3=0n") libc0 =
  (Done [Sembuf 0 1 0; Sembuf 1 (-2) (Z.lor IPC_NOWAIT SEM_UNDO); Sembuf 3 0 IPC_NOWAIT], libc0).
Proof.
  apply (parseOps_roundtrip (fun _ => [])
    [Sembuf 0 1 0; Sembuf 1 (-2) (Z.lor IPC_NOWAIT SEM_UNDO); Sembuf 3 0 IPC_NOWAIT]).
  - done.
  - repeat constructor; simpl; try lia; set_solver.
  - apply Nat.leb_le. vm_compute. reflexivity.
Defined.
