(* ===== verification/Semaphores.v ===== *)
(** book-src/svsem/binary_sems.c and event_flags.c: binary semaphores and event
    flags made of System V semaphores. *)
From S2P Require Import Prelude CLib Sys SemOps.
#[local] Open Scope Z_scope.

(** semop(2) and semctl(2). *)
Class SemOS (S : Type) := {
  sys_semop : Z -> list sembuf -> M S (sysres unit);
  sys_setval : Z -> Z -> Z -> M S (sysres unit);
  sys_getval : Z -> Z -> M S (sysres Z)
}.

(** What the callers rely on: the calls return; [performed] lists the operations
    of this process that took effect, to which a call adds its own exactly when
    it succeeds; only finitely many calls are interrupted by a handler. *)
Class SemSpec (S : Type) `{SemOS S} `{HasLibc S} := {
  performed : S -> list (Z * sembuf);
  sem_signals : S -> nat;
  semop_spec : forall id op s,
    post (fun r s' =>
      match r with
      | SOk _ => performed s' = performed s ++ [(id, op)]
      | SErr e => performed s' = performed s /\ (e = EINTR -> (sem_signals s' < sem_signals s)%nat)
      end) (fun _ _ => False) (sys_semop id [op] s);
  setval_spec : forall id n v s,
    post (fun _ s' => performed s' = performed s) (fun _ _ => False) (sys_setval id n v s);
  getval_spec : forall id n s,
    post (fun r s' => performed s' = performed s /\ (if r is SOk v then 0 <= v else True))
      (fun _ _ => False) (sys_getval id n s);
  libc_performed : forall l s,
    performed (set_libc l s) = performed s /\ sem_signals (set_libc l s) = sem_signals s
}.

Section semaphores.
Context {S : Type} `{HasLibc S} `{SemOS S}.

(** A call that gives 0, or -1 with [errno] set. *)
Definition call_int (m : M S (sysres unit)) : M S Z :=
  r ← m;
  match r with
  | SOk _ => mret 0
  | SErr e => set_errno e;; mret (-1)
  end.

(** * binary_sems.c *)

(** The two variables that control the functions. *)
(** Source: book-src/svsem/binary_sems.c:22-23 (bsUseSemUndo, bsRetryOnEintr). *)
Record bs_config := BsConfig { bsUseSemUndo : bool; bsRetryOnEintr : bool }.

Context (cfg : bs_config).

(** Source: book-src/svsem/binary_sems.c:25-32 (initSemAvailable). *)
Definition initSemAvailable (semId semNum : Z) : M S Z := call_int (sys_setval semId semNum 1).

(** Source: book-src/svsem/binary_sems.c:34-41 (initSemInUse). *)
Definition initSemInUse (semId semNum : Z) : M S Z := call_int (sys_setval semId semNum 0).

Definition undo_flag : Z := if bsUseSemUndo cfg then SEM_UNDO else 0.

(** Source: book-src/svsem/binary_sems.c:55-57 (reserveSem, loop). *)
Definition reserve_round (semId : Z) (sops : sembuf) (_ : unit) : M S (unit + Z) :=
  r ← call_int (sys_semop semId [sops]);
  if r =? -1 then
    e ← get_errno;
    if negb (e =? EINTR) || negb (bsRetryOnEintr cfg) then mret (inr (-1)) else mret (inl tt)
  else mret (inr 0).

(** Source: book-src/svsem/binary_sems.c:43-60 (reserveSem). *)
Definition reserveSem (fuel : nat) (semId semNum : Z) : M S Z :=
  iter fuel (reserve_round semId (Sembuf (u16 semNum) (-1) undo_flag)) tt.

(** Source: book-src/svsem/binary_sems.c:62-72 (releaseSem). *)
Definition releaseSem (semId semNum : Z) : M S Z :=
  call_int (sys_semop semId [Sembuf (u16 semNum) 1 undo_flag]).

(** * event_flags.c *)

(** Source: book-src/svsem/event_flags.c:39-42 (waitForEventFlag, loop). *)
Definition wait_round (semId : Z) (sops : sembuf) (_ : unit) : M S (unit + Z) :=
  r ← call_int (sys_semop semId [sops]);
  if r =? -1 then
    e ← get_errno;
    if negb (e =? EINTR) then mret (inr (-1)) else mret (inl tt)
  else mret (inr 0).

(** Source: book-src/svsem/event_flags.c:25-43 (waitForEventFlag). *)
Definition waitForEventFlag (fuel : nat) (semId semNum : Z) : M S Z :=
  iter fuel (wait_round semId (Sembuf (u16 semNum) 0 0)) tt.

(** Source: book-src/svsem/event_flags.c:45-54 (clearEventFlag). *)
Definition clearEventFlag (semId semNum : Z) : M S Z := call_int (sys_setval semId semNum 1).

(** Source: book-src/svsem/event_flags.c:56-65 (setEventFlag). *)
Definition setEventFlag (semId semNum : Z) : M S Z := call_int (sys_setval semId semNum 0).

(** The result and, when it is 0, what was stored in [*isSet]. *)
(** Source: book-src/svsem/event_flags.c:67-81 (getFlagState). *)
Definition getFlagState (semId semNum : Z) : M S (Z * option bool) :=
  r ← sys_getval semId semNum;
  match r with
  | SErr e => set_errno e;; mret (-1, None)
  | SOk sem_val => mret (0, Some (sem_val =? 0))
  end.

(** * What they do *)

Context {HSS : SemSpec S}.

Lemma call_int_spec id op s :
  post (fun r s' =>
    r = 0 /\ performed s' = performed s ++ [(id, op)] \/
    r = -1 /\ performed s' = performed s /\
      (lc_errno (libc_of s') = EINTR -> (sem_signals s' < sem_signals s)%nat))
    (fun _ _ => False) (call_int (sys_semop id [op]) s).
Proof.
  unfold call_int. apply post_bind. eapply post_mono; [| |apply (semop_spec id op s)]; [|done].
  intros [u|e] s' Hr; [by left|]. right. destruct Hr as [Hp Hs]. unfold set_errno. munfold. cbn [post].
  destruct (libc_performed (Libc e (lc_environ (libc_of s')) (lc_pending (libc_of s'))
                                   (lc_out (libc_of s'))) s') as [-> ->].
  split_and!; [done|done|]. rewrite libc_of_set. exact Hs.
Qed.

(** A loop around semop() that goes on after some of the interruptions. *)
Lemma semop_loop (body : unit -> M S (unit + Z)) (again : bool) id op fuel s :
  (forall s, body tt s = (r ← call_int (sys_semop id [op]);
               if r =? -1 then
                 e ← get_errno;
                 if negb (e =? EINTR) || negb again then mret (inr (-1)) else mret (inl tt)
               else mret (inr 0)) s) ->
  (sem_signals s < fuel)%nat ->
  post (fun r s' =>
    r = 0 /\ performed s' = performed s ++ [(id, op)] \/
    r = -1 /\ performed s' = performed s /\ (lc_errno (libc_of s') = EINTR -> again = false))
    (fun _ _ => False) (iter fuel body tt s).
Proof.
  intros Hbody Hf. apply (iter_total body (fun _ s' => performed s' = performed s)
    (fun _ s' => sem_signals s')); [|done|done].
  intros [] s1 H1. rewrite Hbody. apply post_bind.
  eapply post_mono; [| |apply (call_int_spec id op s1)]; [|done].
  intros r s2 [(-> & Hp)|(-> & Hp & He)]; cbn [Z.eqb].
  - left. split; [done|]. by rewrite Hp, H1.
  - change (-1 =? -1) with true. cbv iota. unfold get_errno. munfold. cbn.
    match goal with |- context [negb (?x =? EINTR)] => destruct (Z.eqb_spec x EINTR) as [E|E] end;
      cbn [negb orb].
    + destruct again; cbn.
      * split; [congruence|]. by apply He.
      * right. split_and!; [done|congruence|done].
    + right. split_and!; [done|congruence|done].
Qed.

(** ReserveSem() always returns, however often semop() is interrupted. It
    returns 0 having taken the semaphore exactly once, or -1 having taken nothing;
    with bsRetryOnEintr set it never fails because of a signal. The undo flag
    follows bsUseSemUndo. *)
Theorem reserveSem_correct fuel semId semNum s :
  (sem_signals s < fuel)%nat ->
  post (fun r s' =>
    r = 0 /\ performed s' = performed s ++
      [(semId, Sembuf (u16 semNum) (-1) (if bsUseSemUndo cfg then SEM_UNDO else 0))] \/
    r = -1 /\ performed s' = performed s /\
      (bsRetryOnEintr cfg = true -> lc_errno (libc_of s') <> EINTR))
    (fun _ _ => False) (reserveSem fuel semId semNum s).
Proof.
  intros Hf. eapply post_mono; [| |apply (semop_loop _ (bsRetryOnEintr cfg) semId
    (Sembuf (u16 semNum) (-1) undo_flag) fuel s); [by intros|done]]; [|done].
  intros r s' [H'|(-> & Hp & He)]; [by left|right]. split_and!; [done|done|].
  intros Hr E. apply He in E. congruence.
Qed.

(** WaitForEventFlag() always returns: 0 after one completed wait for the value
    0, or -1, never because of a signal, with no effect. *)
Theorem waitForEventFlag_correct fuel semId semNum s :
  (sem_signals s < fuel)%nat ->
  post (fun r s' =>
    r = 0 /\ performed s' = performed s ++ [(semId, Sembuf (u16 semNum) 0 0)] \/
    r = -1 /\ performed s' = performed s /\ lc_errno (libc_of s') <> EINTR)
    (fun _ _ => False) (waitForEventFlag fuel semId semNum s).
Proof.
  intros Hf. eapply post_mono; [| |apply (semop_loop _ true semId
    (Sembuf (u16 semNum) 0 0) fuel s); [|done]]; [|done|].
  - intros r s' [H'|(-> & Hp & He)]; [by left|right]. split_and!; [done|done|].
    intros E. by apply He in E.
  - intros s0. unfold wait_round. apply bind_ext. intros r s1. destruct (r =? -1); [|done].
    apply bind_ext. intros e s2. by rewrite orb_false_r.
Qed.
End semaphores.

(** * A semaphore set *)

(** The values of one set, the operations performed and the results that are
    not success, to come. An operation that would block waits until others have
    made room, so here it succeeds. *)
Record semset := Semset {
  ss_libc : libc;
  ss_values : gmap Z Z;
  ss_done : list (Z * sembuf);
  ss_errors : list (option Z)
}.

#[export, refine] Instance semset_has_libc : HasLibc semset :=
  {| libc_of := ss_libc;
     set_libc l s := Semset l (ss_values s) (ss_done s) (ss_errors s) |}.
Proof. all: by intros; repeat match goal with s : semset |- _ => destruct s end. Defined.

#[export] Instance semset_os : SemOS semset := {
  sys_semop id ops := fun s =>
    match ss_errors s with
    | Some e :: es => (Done (SErr e), Semset (ss_libc s) (ss_values s) (ss_done s) es)
    | es => (Done (SOk tt),
        Semset (ss_libc s)
          (foldr (fun o v => <[sem_num o := Z.max 0 (default 0 (v !! sem_num o) + sem_op o)]> v)
             (ss_values s) ops)
          (ss_done s ++ map (pair id) ops) (tail es))
    end;
  sys_setval id n v := fun s =>
    (Done (SOk tt), Semset (ss_libc s) (<[n := v]> (ss_values s)) (ss_done s) (ss_errors s));
  sys_getval id n := fun s => (Done (SOk (Z.abs (default 0 (ss_values s !! n)))), s)
}.

#[export, refine] Instance semset_spec : SemSpec semset :=
  {| performed := ss_done; sem_signals s := length (ss_errors s) |}.
Proof.
  - intros id op s. simpl. destruct (ss_errors s) as [|[e|] es] eqn:E; simpl; [done| |done].
    split; [done|]. intros _. lia.
  - done.
  - intros id n s. simpl. split; [done|]. lia.
  - done.
Defined.

Lemma reserveSem_correct_witness :
  post (fun r s' => r = 0 \/ lc_errno (ss_libc s') <> EINTR) (fun _ _ => False)
    (reserveSem (BsConfig true true) 5 7 0 (Semset libc0 {[ 0 := 1 ]} [] [Some EINTR; Some EINTR])).
Proof.
  eapply post_mono; [| |apply (reserveSem_correct (BsConfig true true) 5 7 0
    (Semset libc0 {[ 0 := 1 ]} [] [Some EINTR; Some EINTR])); simpl; lia]; [|done].
  intros r s' [[-> _]|(_ & _ & H)]; [by left|right]. by apply H.
Defined.

Lemma waitForEventFlag_correct_witness :
  post (fun r s' => r = 0 \/ lc_errno (ss_libc s') <> EINTR) (fun _ _ => False)
    (waitForEventFlag 5 7 0 (Semset libc0 {[ 0 := 0 ]} [] [Some EINTR])).
Proof.
  eapply post_mono; [| |apply (waitForEventFlag_correct 5 7 0
    (Semset libc0 {[ 0 := 0 ]} [] [Some EINTR])); simpl; lia]; [|done].
  intros r s' [[-> _]|(_ & _ & H)]; [by left|right; exact H].
Defined.
