(* ===== verification/ShmXfr.v ===== *)
(** book-src/svshm/svshm_xfr_writer.c and svshm_xfr_reader.c: two processes that
    pass a stream through shared memory, taking turns with two semaphores. *)
From S2P Require Import Prelude CLib.
#[local] Open Scope Z_scope.

(** * The two processes *)

(** Source: book-src/svshm/svshm_xfr.h:33-34 (BUF_SIZE). *)
Definition BUF_SIZE : nat := 1024.

(** Where the writer is: before the reserve, the read, the release, the test
    and the final reserve and removal; or ended. *)
(** Source: book-src/svshm/svshm_xfr_writer.c:67-99 (main, control points). *)
Inductive wpc := W_reserve | W_read | W_release | W_test | W_drain | W_remove | W_done | W_failed.

(** Where the reader is. *)
(** Source: book-src/svshm/svshm_xfr_reader.c:44-68 (main, control points). *)
Inductive rpc := R_reserve | R_test | R_write | R_release | R_detach | R_final | R_done | R_failed.

#[export] Instance wpc_eq_dec : EqDecision wpc.
Proof. solve_decision. Defined.
#[export] Instance rpc_eq_dec : EqDecision rpc.
Proof. solve_decision. Defined.

(** The semaphores WRITE_SEM and READ_SEM, the shared segment, standard input and
    output, the counters of both programs and whether the IPC objects are gone. *)
(** Source: book-src/svshm/svshm_xfr.h:37-40 (struct shmseg). *)
Record xfr := Xfr {
  x_wpc : wpc;
  x_rpc : rpc;
  x_wsem : Z;
  x_rsem : Z;
  x_cnt : Z;
  x_buf : bytes;
  x_input : bytes;
  x_output : bytes;
  x_wbytes : Z;
  x_wxfrs : Z;
  x_rbytes : Z;
  x_rxfrs : Z;
  x_removed : bool
}.

(** What the system does for a process at its next step: the call completes, is
    interrupted by a signal, transfers [n] bytes, or fails. *)
Inductive event := Go | Intr | Bytes (n : nat) | Error.

Definition set_w (p : wpc) (s : xfr) : xfr :=
  Xfr p (x_rpc s) (x_wsem s) (x_rsem s) (x_cnt s) (x_buf s) (x_input s) (x_output s)
    (x_wbytes s) (x_wxfrs s) (x_rbytes s) (x_rxfrs s) (x_removed s).
Definition set_r (p : rpc) (s : xfr) : xfr :=
  Xfr (x_wpc s) p (x_wsem s) (x_rsem s) (x_cnt s) (x_buf s) (x_input s) (x_output s)
    (x_wbytes s) (x_wxfrs s) (x_rbytes s) (x_rxfrs s) (x_removed s).
Definition add_sems (dw dr : Z) (s : xfr) : xfr :=
  Xfr (x_wpc s) (x_rpc s) (x_wsem s + dw) (x_rsem s + dr) (x_cnt s) (x_buf s) (x_input s) (x_output s)
    (x_wbytes s) (x_wxfrs s) (x_rbytes s) (x_rxfrs s) (x_removed s).

(** One step of the writer, [None] if it has to wait (or [e] cannot happen).
    reserveSem() waits for a positive value and goes on after a signal. *)
(** Source: book-src/svshm/svshm_xfr_writer.c:67-99 (main, transfer loop). *)
Definition writer_step (e : event) (s : xfr) : option xfr :=
  match x_wpc s, e with
  | W_reserve, Go => if 0 <? x_wsem s then Some (set_w W_read (add_sems (-1) 0 s)) else None
  | W_reserve, Intr => Some s
  | W_read, Bytes n =>
      if (n <=? BUF_SIZE)%nat && (n <=? length (x_input s))%nat &&
         bool_decide (n = 0%nat <-> x_input s = []) then
        Some (Xfr W_release (x_rpc s) (x_wsem s) (x_rsem s) (Z.of_nat n)
                (take n (x_input s) ++ drop n (x_buf s)) (drop n (x_input s)) (x_output s)
                (x_wbytes s) (x_wxfrs s) (x_rbytes s) (x_rxfrs s) (x_removed s))
      else None
  | W_read, Error =>
      Some (Xfr W_failed (x_rpc s) (x_wsem s) (x_rsem s) (-1) (x_buf s) (x_input s) (x_output s)
              (x_wbytes s) (x_wxfrs s) (x_rbytes s) (x_rxfrs s) (x_removed s))
  | W_release, Go => Some (set_w W_test (add_sems 0 1 s))
  | W_test, Go =>
      if x_cnt s =? 0 then Some (set_w W_drain s)
      else Some (Xfr W_reserve (x_rpc s) (x_wsem s) (x_rsem s) (x_cnt s) (x_buf s) (x_input s) (x_output s)
              (x_wbytes s + x_cnt s) (x_wxfrs s + 1) (x_rbytes s) (x_rxfrs s) (x_removed s))
  | W_drain, Go => if 0 <? x_wsem s then Some (set_w W_remove (add_sems (-1) 0 s)) else None
  | W_drain, Intr => Some s
  | W_remove, Go =>
      Some (Xfr W_done (x_rpc s) (x_wsem s) (x_rsem s) (x_cnt s) (x_buf s) (x_input s) (x_output s)
              (x_wbytes s) (x_wxfrs s) (x_rbytes s) (x_rxfrs s) true)
  | _, _ => None
  end.

(** One step of the reader; [Bytes n] at its write is a write of [n] bytes. *)
(** Source: book-src/svshm/svshm_xfr_reader.c:44-68 (main, transfer loop). *)
Definition reader_step (e : event) (s : xfr) : option xfr :=
  match x_rpc s, e with
  | R_reserve, Go => if 0 <? x_rsem s then Some (set_r R_test (add_sems 0 (-1) s)) else None
  | R_reserve, Intr => Some s
  | R_test, Go =>
      if x_cnt s =? 0 then Some (set_r R_detach s)
      else Some (Xfr (x_wpc s) R_write (x_wsem s) (x_rsem s) (x_cnt s) (x_buf s) (x_input s) (x_output s)
              (x_wbytes s) (x_wxfrs s) (x_rbytes s + x_cnt s) (x_rxfrs s) (x_removed s))
  | R_write, Bytes n =>
      if Z.of_nat n <=? x_cnt s then
        Some (Xfr (x_wpc s) (if Z.of_nat n =? x_cnt s then R_release else R_failed) (x_wsem s) (x_rsem s)
                (x_cnt s) (x_buf s) (x_input s) (x_output s ++ take n (x_buf s))
                (x_wbytes s) (x_wxfrs s) (x_rbytes s) (x_rxfrs s) (x_removed s))
      else None
  | R_write, Error => Some (set_r R_failed s)
  | R_release, Go =>
      Some (Xfr (x_wpc s) R_reserve (x_wsem s + 1) (x_rsem s) (x_cnt s) (x_buf s) (x_input s) (x_output s)
              (x_wbytes s) (x_wxfrs s) (x_rbytes s) (x_rxfrs s + 1) (x_removed s))
  | R_detach, Go => Some (set_r R_final s)
  | R_final, Go => Some (set_r R_done (add_sems 1 0 s))
  | _, _ => None
  end.

(** Once the two are set up: the writer has the first turn, [cnt] and [buf] are
    whatever the segment holds. *)
(** Source: book-src/svshm/svshm_xfr_writer.c:46-67 (main, initialisation). *)
Definition started (input : bytes) (cnt : Z) (buf : bytes) : xfr :=
  Xfr W_reserve R_reserve 1 0 cnt buf input [] 0 0 0 0 false.

(** Any interleaving of the two. *)
Inductive step (s : xfr) : xfr -> Prop :=
| step_writer e s' : writer_step e s = Some s' -> step s s'
| step_reader e s' : reader_step e s = Some s' -> step s s'.

(** * The invariant *)

Section invariant.
Context (input : bytes).

(** The segment holds the unread data [D]. *)
Definition full (s : xfr) (D : bytes) : Prop :=
  D = take (Z.to_nat (x_cnt s)) (x_buf s) /\ Z.of_nat (length D) = x_cnt s /\
  (x_cnt s = 0 -> x_input s = []).

(** The writer after it gave the reader a turn. *)
Definition writer_late (s : xfr) : Prop :=
  match x_wpc s with
  | W_test => True
  | W_reserve => 0 < x_cnt s
  | W_drain => x_cnt s = 0
  | _ => False
  end.

(** Where the two processes can be together, and the semaphores there. *)
Definition control (s : xfr) (D : bytes) : Prop :=
  match x_rpc s with
  | R_reserve =>
      match x_wpc s with
      | W_read | W_failed => x_wsem s = 0 /\ x_rsem s = 0 /\ D = []
      | W_release => x_wsem s = 0 /\ x_rsem s = 0 /\ full s D
      | W_reserve => x_wsem s = 1 /\ x_rsem s = 0 /\ D = [] \/
                     x_wsem s = 0 /\ x_rsem s = 1 /\ full s D /\ 0 < x_cnt s
      | W_test => x_wsem s = 1 /\ x_rsem s = 0 /\ D = [] /\ 0 < x_cnt s \/
                  x_wsem s = 0 /\ x_rsem s = 1 /\ full s D
      | W_drain => x_wsem s = 0 /\ x_rsem s = 1 /\ full s D /\ x_cnt s = 0
      | _ => False
      end
  | R_test => x_wsem s = 0 /\ x_rsem s = 0 /\ full s D /\ writer_late s
  | R_write => x_wsem s = 0 /\ x_rsem s = 0 /\ full s D /\ 0 < x_cnt s /\ writer_late s
  | R_release => x_wsem s = 0 /\ x_rsem s = 0 /\ D = [] /\ 0 < x_cnt s /\ writer_late s
  | R_failed => x_wsem s = 0 /\ x_rsem s = 0 /\ 0 < x_cnt s /\ writer_late s
  | R_detach | R_final =>
      x_wsem s = 0 /\ x_rsem s = 0 /\ D = [] /\ x_cnt s = 0 /\ x_input s = [] /\ writer_late s
  | R_done =>
      x_rsem s = 0 /\ D = [] /\ x_cnt s = 0 /\ x_input s = [] /\
      match x_wpc s with
      | W_test | W_drain => x_wsem s = 1
      | W_remove | W_done => x_wsem s = 0
      | _ => False
      end
  end.

(** What the byte counters are at each point. *)
Definition counts (s : xfr) (D : bytes) : Prop :=
  x_wbytes s + (match x_wpc s with W_release | W_test => x_cnt s | _ => 0 end) =
    Z.of_nat (length (x_output s) + length D) /\
  (x_rpc s <> R_failed ->
   x_rbytes s = Z.of_nat (length (x_output s)) + (match x_rpc s with R_write => x_cnt s | _ => 0 end)).

Definition Inv (s : xfr) : Prop :=
  exists D, input = x_output s ++ D ++ x_input s /\ control s D /\ counts s D /\
    (x_removed s = true <-> x_wpc s = W_done).

Lemma Inv_started cnt buf : Inv (started input cnt buf).
Proof.
  exists []. unfold control, counts. simpl. split_and!; try done. by left.
Qed.

(** The steps of the writer that only move it or the semaphores. *)
Ltac xfr_solve :=
  unfold control, counts, full, writer_late in *; simpl in *;
  repeat match goal with
  | H : _ /\ _ |- _ => destruct H
  | H : _ \/ _ |- _ => destruct H
  | H : False |- _ => destruct H
  | |- _ /\ _ => split
  | |- _ <-> _ => split
  end; subst; try done; try lia; try tauto; try (intros; lia);
  try (intros _; match goal with H : _ <> R_failed -> _ |- _ =>
                   pose proof (H ltac:(discriminate)) end; lia); try (left; split_and!; (done || lia));
  try (right; split_and!; (done || lia)).

Lemma take_app_take (n : nat) (b c : bytes) : (n <= length b)%nat ->
  take (Z.to_nat (Z.of_nat n)) (take n b ++ c) = take n b.
Proof.
  intros Hn. rewrite Nat2Z.id, take_app_le by (rewrite length_take; lia).
  by rewrite take_take, Nat.min_id.
Qed.

(** Solves the four parts of the invariant after a step that leaves the data alone. *)
Ltac removed_solve Hr := (split; [intros ?%Hr; discriminate|discriminate]).
Ltac part_solve D Hr :=
  exists D; simpl in *; split_and!; [done|xfr_solve|xfr_solve|removed_solve Hr].

Lemma writer_inv e s s' : Inv s -> writer_step e s = Some s' -> Inv s'.
Proof.
  intros (D & Hin & Hc & Hn & Hr) Hs. pose proof (conj (conj Hin Hc) (conj Hn Hr)) as Hold.
  destruct s as [w r ws rs cnt buf inp out wb wx rb rx rm]. unfold writer_step in Hs.
  destruct w, e as [| |n|]; simpl in Hs; try discriminate.
  - destruct (0 <? ws) eqn:Hws; [|done]. injection Hs as <-. destruct r; part_solve D Hr.
  - injection Hs as <-. exists D. tauto.
  - destruct (_ && _) eqn:Hb; [|done]. injection Hs as <-.
    apply andb_true_iff in Hb as [Hb Hz]. apply andb_true_iff in Hb as [_ Hlen].
    apply Nat.leb_le in Hlen. apply bool_decide_eq_true in Hz. clear Hold. unfold control in Hc. simpl in Hin, Hc.
    destruct r; simpl in Hc; try (exfalso; unfold writer_late in Hc; simpl in Hc; tauto).
    destruct Hc as (-> & -> & ->). exists (take n inp). simpl. split_and!.
    + by rewrite take_drop.
    + unfold control, full. simpl. rewrite take_app_take, length_take by done.
      split_and!; try done; [lia|]. intros Hn0. assert (n = 0%nat) by lia. subst n. by rewrite (proj1 Hz eq_refl).
    + unfold counts in *. simpl in *. rewrite length_take. split; [lia|]. intros. destruct Hn as [_ Hn]. rewrite Hn by done. lia.
    + removed_solve Hr.
  - injection Hs as <-. destruct r; part_solve D Hr.
  - injection Hs as <-. destruct r; part_solve D Hr.
  - destruct (cnt =? 0) eqn:Hcnt; injection Hs as <-; destruct r; part_solve D Hr.
  - destruct (0 <? ws) eqn:Hws; [|done]. injection Hs as <-. destruct r; part_solve D Hr.
  - injection Hs as <-. exists D. tauto.
  - injection Hs as <-. exists D. simpl in *.
    split_and!; [done|destruct r; xfr_solve|destruct r; xfr_solve|done].
Qed.

Lemma reader_inv e s s' : Inv s -> reader_step e s = Some s' -> Inv s'.
Proof.
  intros (D & Hin & Hc & Hn & Hr) Hs. pose proof (conj (conj Hin Hc) (conj Hn Hr)) as Hold.
  destruct s as [w r ws rs cnt buf inp out wb wx rb rx rm]. unfold reader_step in Hs.
  destruct r, e as [| |n|]; simpl in Hs; try discriminate.
  - destruct (0 <? rs) eqn:Hrs; [|done]. injection Hs as <-.
    exists D; simpl in *; split_and!; [done|destruct w; xfr_solve|xfr_solve|done].
  - injection Hs as <-. exists D. tauto.
  - destruct (cnt =? 0) eqn:Hcnt; injection Hs as <-; exists D; simpl in *.
    + split_and!; [done| |xfr_solve|done]. unfold control, full, writer_late in *. simpl in *.
      destruct Hc as (-> & -> & (HD & Hl & H0) & Hw). split_and!; try done; [|lia|apply H0; lia].
      apply nil_length_inv. lia.
    + split_and!; [done| |xfr_solve|done]. unfold control, full in *. simpl in *.
      destruct Hc as (-> & -> & (HD & Hl & H0) & Hw). split_and!; try done. lia.
  - destruct (Z.of_nat n <=? cnt) eqn:Hle; [|done]. injection Hs as <-. simpl in *.
    unfold control, full in Hc. simpl in Hc. destruct Hc as (-> & -> & (HD & Hl & H0) & Hcnt & Hw).
    assert (Hsplit : D = take n buf ++ drop n D).
    { rewrite <- (take_drop n D) at 1. f_equal. rewrite HD, take_take. f_equal. lia. }
    exists (drop n D). simpl. split_and!.
    + by rewrite <- app_assoc, (app_assoc (take n buf)), <- Hsplit.
    + unfold control. simpl. destruct (Z.of_nat n =? cnt) eqn:Hnc; [|by split_and!].
      split_and!; try done. apply drop_ge. lia.
    + assert (length D = length (take n buf) + length (drop n D))%nat by (rewrite Hsplit at 1; apply length_app).
      unfold counts in *. simpl in *. destruct Hn as [Hn1 Hn2]. rewrite length_app. split; [lia|].
      destruct (Z.of_nat n =? cnt) eqn:Hnc; [|done]. intros _. rewrite Hn2 by done.
      assert (length (drop n D) = 0)%nat by (rewrite length_drop; lia). lia.
    + done.
  - injection Hs as <-. exists D. simpl in *.
    unfold control, full in Hc. simpl in Hc. destruct Hc as (-> & -> & _ & Hcnt & Hw).
    split_and!; [done|by unfold control|unfold counts in *; simpl in *; split; [tauto|done]|done].
  - injection Hs as <-. exists D; simpl in *; split_and!; [done|destruct w; xfr_solve|xfr_solve|done].
  - injection Hs as <-. exists D; simpl in *; split_and!; [done|destruct w; xfr_solve|xfr_solve|done].
  - injection Hs as <-. exists D; simpl in *; split_and!; [done|destruct w; xfr_solve|xfr_solve|done].
Qed.

Lemma reachable_inv cnt buf s : rtc step (started input cnt buf) s -> Inv s.
Proof.
  intros Hr. cut (forall s0, rtc step s0 s -> Inv s0 -> Inv s); [eauto using Inv_started|].
  clear. intros s0. induction 1 as [|s1 s2 s3 Hst _ IH]; [done|]. intros H1. apply IH.
  destruct Hst as [e s' He|e s' He]; eauto using writer_inv, reader_inv.
Qed.
End invariant.

(** * What the protocol guarantees *)

(** The processes are using the segment for their transfer. *)
Definition writing (s : xfr) : Prop := x_wpc s = W_read \/ x_wpc s = W_release.
Definition reading (s : xfr) : Prop := x_rpc s = R_test \/ x_rpc s = R_write \/ x_rpc s = R_release.


(** ** Termination *)

Definition eof_read (s : xfr) : bool :=
  match x_wpc s with
  | W_reserve | W_read | W_failed => false
  | W_release | W_test => x_cnt s =? 0
  | _ => true
  end.
Definition w_rank (w : wpc) : nat :=
  match w with
  | W_release => 6 | W_test => 5 | W_reserve => 4 | W_drain => 4
  | W_read => 3 | W_remove => 3 | W_done => 2 | W_failed => 0
  end.
Definition r_rank (s : xfr) : nat :=
  match x_rpc s with
  | R_reserve => if (0 <? x_rsem s) || bool_decide (x_wpc s = W_release) then 4 else 0
  | R_test => 3 | R_write => 2 | R_detach => 2 | R_release => 1 | R_final => 1
  | R_done => 0 | R_failed => 0
  end.
Definition work_left (s : xfr) : nat :=
  20 * (length (x_input s) + if eof_read s then 0 else 1) + w_rank (x_wpc s) + r_rank s.

Lemma writer_work input e s s' : Inv input s -> e <> Intr -> writer_step e s = Some s' ->
  (work_left s' < work_left s)%nat.
Proof.
  intros (D & _ & Hc & _) He Hs. unfold control, full, writer_late in Hc.
  destruct s as [w r ws rs cnt buf inp out wb wx rb rx rm]. unfold writer_step in Hs.
  unfold work_left, eof_read, r_rank. simpl in *.
  destruct w, e as [| |n|]; simpl in Hs; try discriminate; try congruence.
  - destruct (0 <? ws); [|done]. injection Hs as <-. simpl.
    destruct r; rewrite ?Z.add_0_r; repeat rewrite bool_decide_eq_false_2 by done; lia.
  - destruct (_ && _) eqn:Hb; [|done]. injection Hs as <-. simpl in *.
    apply andb_true_iff in Hb as [Hb Hz]. apply andb_true_iff in Hb as [_ Hlen].
    apply Nat.leb_le in Hlen. apply bool_decide_eq_true in Hz. rewrite length_drop.
    destruct r; try tauto. rewrite orb_true_r.
    destruct (Z.eqb_spec (Z.of_nat n) 0) as [E|E]; [|destruct (_ || _); lia].
    assert (n = 0%nat) by lia. subst n. rewrite (proj1 Hz eq_refl). simpl. destruct (_ || _); lia.
  - injection Hs as <-. simpl. destruct r; try tauto; repeat rewrite bool_decide_eq_false_2 by done; try lia.
  - injection Hs as <-. simpl. destruct r; try tauto. rewrite ?orb_true_r.
    destruct (cnt =? 0); repeat destruct (_ || _); lia.
  - destruct (cnt =? 0) eqn:Hcnt; injection Hs as <-; simpl; try rewrite Hcnt;
      destruct r; rewrite ?Z.add_0_r; repeat rewrite bool_decide_eq_false_2 by done; lia.
  - destruct (0 <? ws); [|done]. injection Hs as <-. simpl.
    destruct r; rewrite ?Z.add_0_r; repeat rewrite bool_decide_eq_false_2 by done; lia.
  - injection Hs as <-. simpl. destruct r; rewrite ?Z.add_0_r; repeat rewrite bool_decide_eq_false_2 by done; lia.
Qed.

Lemma reader_work input e s s' : Inv input s -> e <> Intr -> reader_step e s = Some s' ->
  (work_left s' < work_left s)%nat.
Proof.
  intros (D & _ & Hc & _) He Hs. unfold control, full, writer_late in Hc.
  destruct s as [w r ws rs cnt buf inp out wb wx rb rx rm]. unfold reader_step in Hs.
  unfold work_left, eof_read, r_rank. simpl in *.
  destruct r, e as [| |n|]; simpl in Hs; try discriminate; try congruence.
  - destruct (0 <? rs); [|done]. injection Hs as <-. simpl. lia.
  - destruct (cnt =? 0) eqn:Hcnt; injection Hs as <-; simpl; rewrite ?Hcnt; lia.
  - destruct (_ <=? cnt); [|done]. injection Hs as <-. simpl. destruct (_ =? cnt); lia.
  - injection Hs as <-. simpl. lia.
  - injection Hs as <-. simpl. destruct Hc as (_ & -> & _ & _ & Hw). simpl.
    destruct w; try tauto; rewrite bool_decide_eq_false_2 by done; lia.
  - injection Hs as <-. simpl. lia.
  - injection Hs as <-. simpl. lia.
Qed.

(** A state where both programs have ended normally. *)
Definition finished (s : xfr) : Prop := x_wpc s = W_done /\ x_rpc s = R_done.

(** Some process can go on, without an error. *)
Lemma can_go_on input s : Inv input s ->
  x_wpc s <> W_failed -> x_rpc s <> R_failed -> finished s \/
  exists s', step s s' /\ (work_left s' < work_left s)%nat /\
             x_wpc s' <> W_failed /\ x_rpc s' <> R_failed.
Proof.
  intros Hinv Hw Hr. pose proof Hinv as (D & _ & Hc & _).
  assert (Hgo : forall (who : event -> xfr -> option xfr) e s', (who = writer_step \/ who = reader_step) ->
    e <> Intr -> who e s = Some s' -> x_wpc s' <> W_failed -> x_rpc s' <> R_failed ->
    finished s \/ exists s', step s s' /\ (work_left s' < work_left s)%nat /\
             x_wpc s' <> W_failed /\ x_rpc s' <> R_failed).
  { intros who e s' [->| ->] He Hs Hw' Hr'; right; exists s'; split_and!; try done.
    - by eapply step_writer.
    - by eapply writer_work.
    - by eapply step_reader.
    - by eapply reader_work. }
  destruct s as [w r ws rs cnt buf inp out wb wx rb rx rm].
  unfold control, full, writer_late in Hc. simpl in *.
  assert (Hwgo : forall s', writer_step Go (Xfr w r ws rs cnt buf inp out wb wx rb rx rm) = Some s' ->
    x_wpc s' <> W_failed -> x_rpc s' <> R_failed -> _) by (intros s'; by eapply Hgo; [left|]).
  assert (Hrgo : forall s', reader_step Go (Xfr w r ws rs cnt buf inp out wb wx rb rx rm) = Some s' ->
    x_wpc s' <> W_failed -> x_rpc s' <> R_failed -> _) by (intros s'; by eapply Hgo; [right|]).
  destruct r.
  - destruct w; try tauto.
    + destruct Hc as [(-> & _)|(_ & -> & _)]; [by eapply Hwgo|by eapply Hrgo].
    + eapply (Hgo writer_step (Bytes (Nat.min BUF_SIZE (length inp)))); [by left|done| | |].
      { unfold writer_step. simpl x_wpc. cbv iota. simpl x_input.
        rewrite (proj2 (Nat.leb_le _ _)) by lia. rewrite (proj2 (Nat.leb_le _ _)) by lia.
        rewrite bool_decide_eq_true_2; [reflexivity|]. unfold BUF_SIZE.
        destruct inp; simpl length; split; intros; try done; lia. }
      all: done.
    + by eapply Hwgo.
    + unfold writer_step in Hwgo. simpl in Hwgo. by destruct (cnt =? 0); eapply Hwgo.
    + destruct Hc as (_ & -> & _). by eapply Hrgo.
  - unfold reader_step in Hrgo. simpl in Hrgo. by destruct (cnt =? 0); eapply Hrgo.
  - destruct Hc as (_ & _ & _ & Hcnt & _).
    eapply (Hgo reader_step (Bytes (Z.to_nat cnt))); [by right|done| | |].
    + unfold reader_step. simpl. rewrite Z2Nat.id, Z.leb_refl by lia. reflexivity.
    + simpl. unfold writer_late in *. by destruct w.
    + simpl. by rewrite Z.eqb_refl.
  - by eapply Hrgo.
  - by eapply Hrgo.
  - by eapply Hrgo.
  - destruct Hc as (_ & _ & -> & _ & Hws). destruct w; try tauto.
    + by eapply Hwgo.
    + subst ws. by eapply Hwgo.
    + by eapply Hwgo.
    + by left.
  - done.
Qed.

(** C3: The two programs cannot block each other for ever: from any state they
    reach without an error, they can go on to the end, where the whole input was
    copied; and they do get there, since every step but an interrupted wait makes
    the work that is left smaller. *)
Theorem shm_transfer_ends input cnt buf s :
  rtc step (started input cnt buf) s ->
  (forall e s', e <> Intr -> writer_step e s = Some s' \/ reader_step e s = Some s' ->
     (work_left s' < work_left s)%nat) /\
  (x_wpc s <> W_failed -> x_rpc s <> R_failed ->
   exists s', rtc step s s' /\ finished s' /\ x_output s' = input).
Proof.
  intros Hr. pose proof (reachable_inv _ _ _ _ Hr) as Hinv. split.
  { intros e s' He [Hs|Hs]; eauto using writer_work, reader_work. }
  remember (work_left s) as k eqn:Hk. revert s Hk Hr Hinv.
  induction k as [k IH] using lt_wf_ind. intros s -> Hr Hinv Hw Hrd.
  destruct (can_go_on input s Hinv Hw Hrd) as [Hfin|(s1 & Hst & Hlt & Hw1 & Hr1)].
  - exists s. split; [done|]. split; [done|]. destruct Hfin as [_ Hd].
    destruct Hinv as (D & Hin & Hc & _). unfold control in Hc. rewrite Hd in Hc.
    destruct Hc as (_ & -> & _ & Hi & _). by rewrite Hi, !app_nil_r in Hin.
  - assert (Hr' : rtc step (started input cnt buf) s1) by (by eapply rtc_r).
    destruct (IH _ Hlt s1 eq_refl Hr' (reachable_inv _ _ _ _ Hr') Hw1 Hr1) as (s' & Hs' & Hf).
    exists s'. split; [by eapply rtc_l|done].
Qed.

(** ** A run *)

(** The first turn of each process on the input "ab", read in one piece. *)
Definition mid_run : option xfr :=
  s ← writer_step Go (started (str "ab") 0 []); s ← writer_step (Bytes 2) s;
  s ← writer_step Go s; s ← reader_step Go s; s ← reader_step Go s; reader_step (Bytes 2) s.
Definition mid_state : xfr := default (started [] 0 []) mid_run.

Lemma mid_reachable : rtc step (started (str "ab") 0 []) mid_state.
Proof.
  eapply rtc_l; [by apply (step_writer _ Go)|]. eapply rtc_l; [by apply (step_writer _ (Bytes 2))|].
  eapply rtc_l; [by apply (step_writer _ Go)|]. eapply rtc_l; [by apply (step_reader _ Go)|].
  eapply rtc_l; [by apply (step_reader _ Go)|]. eapply rtc_l; [by apply (step_reader _ (Bytes 2))|].
  vm_compute. apply rtc_refl.
Qed.


Lemma shm_transfer_ends_witness :
  exists s', rtc step mid_state s' /\ finished s' /\ x_output s' = str "ab".
Proof.
  destruct (shm_transfer_ends (str "ab") 0 [] mid_state mid_reachable) as [_ H].
  apply H; intros [=].
Defined.
