(* ===== verification/Caps.v ===== *)
(** Capabilities and credentials of a process: book-src/cap/cap_functions.c and
    the actions of namespaces/userns_child_exec.c on them. *)
From S2P Require Import Prelude CLib Sys.
From Stdlib Require Import Btauto.
#[local] Open Scope Z_scope.

(** * The interface *)

Definition CAP_EFFECTIVE : Z := 0.
Definition CAP_PERMITTED : Z := 1.
Definition CAP_INHERITABLE : Z := 2.
Definition CAP_CLEAR : Z := 0.
Definition CAP_SET : Z := 1.
Definition PR_CAPBSET_DROP : Z := 24.
Definition PR_SET_SECUREBITS : Z := 28.
Definition PR_CAP_AMBIENT : Z := 47.
Definition PR_CAP_AMBIENT_RAISE : Z := 2.
Definition PR_CAP_AMBIENT_LOWER : Z := 3.
Definition SECBIT_NOROOT : Z := 1.
Definition SECBIT_NO_SETUID_FIXUP : Z := 4.

(** libcap's functions on capability states, and the system calls. [prctl] takes
    the operation and its arguments. *)
Class CapOS (S cap_t : Type) := {
  cap_get_proc : M S (sysres cap_t);
  cap_set_flag : cap_t -> Z -> Z -> Z -> sysres cap_t;
  cap_set_proc : cap_t -> M S (sysres unit);
  cap_free : cap_t -> M S (sysres unit);
  cap_from_name : bytes -> option Z;
  cap_from_text : bytes -> sysres cap_t;
  cap_to_text : cap_t -> sysres bytes;
  sys_prctl : Z -> list Z -> M S (sysres unit);
  sys_setresuid : Z -> Z -> Z -> M S (sysres unit);
  sys_getids : M S (Z * Z * Z * Z);      (* real and effective UID and GID *)
  sys_sleep : Z -> M S unit
}.

(** What libcap documents: [proc_caps] are the process's three sets, of which a
    successful cap_set_flag() changes one bit. *)
Class CapSpec (S cap_t : Type) `{CapOS S cap_t} `{HasLibc S} := {
  proc_caps : S -> cap_t;
  cap_bit : cap_t -> Z -> Z -> bool;
  cap_get_spec : forall s, post (fun r s' => proc_caps s' = proc_caps s /\
      (forall c, r = SOk c -> c = proc_caps s)) (fun _ _ => False) (cap_get_proc s);
  cap_set_flag_spec : forall c flag cap v c', cap_set_flag c flag cap v = SOk c' ->
    forall f n, cap_bit c' f n =
      if bool_decide (f = flag /\ n = cap) then bool_decide (v <> CAP_CLEAR) else cap_bit c f n;
  cap_set_spec : forall c s, post (fun r s' =>
      proc_caps s' = match r with SOk _ => c | SErr _ => proc_caps s end)
      (fun _ _ => False) (cap_set_proc c s);
  cap_free_spec : forall c s, post (fun _ s' => proc_caps s' = proc_caps s)
      (fun _ _ => False) (cap_free c s);
  libc_caps : forall l s, proc_caps (set_libc l s) = proc_caps s
}.

Section caps.
Context {S cap_t : Type} `{HasLibc S} `{CapOS S cap_t}.
Context (strerror : Z -> bytes).

(** A call that returns an object, or null with [errno] set. *)
Definition call {A} (m : M S (sysres A)) : M S (option A) :=
  r ← m;
  match r with
  | SOk a => mret (Some a)
  | SErr e => set_errno e;; mret None
  end.

(** Source: book-src/cap/cap_functions.c:29-64 (modifyCapSetting). *)
Definition modifyCapSetting (flag capability setting : Z) : M S Z :=
  caps ← call cap_get_proc;
  match caps with
  | None => mret (-1)
  | Some caps =>
      caps' ← call (mret (cap_set_flag caps flag capability setting));
      match caps' with
      | None => cap_free caps;; mret (-1)
      | Some caps' =>
          r ← call (cap_set_proc caps');
          match r with
          | None => cap_free caps';; mret (-1)
          | Some _ =>
              r ← call (cap_free caps');
              mret (match r with None => -1 | Some _ => 0 end)
          end
      end
  end.

(** perror(msg), then exit: the errExit() macro of userns_child_exec.c. *)
(** Source: book-src/namespaces/userns_child_exec.c:45-46 (errExit). *)
Definition errExit {A} (msg : bytes) : M S A :=
  e ← get_errno;
  eprintf (msg ++ str ": " ++ strerror e ++ [newline]);;
  c_exit EXIT_FAILURE.

(** CAP_LAST_CAP, of the kernel's headers. *)
Context (CAP_LAST_CAP : nat).

(** Source: book-src/namespaces/userns_child_exec.c:137-150 (raiseInheritableAndAmbientCaps). *)
Definition raiseInheritableAndAmbientCaps (doAmbient : bool) : M S unit :=
  for_each (seq 0 (CAP_LAST_CAP + 1)) (fun cap =>
    modifyCapSetting CAP_INHERITABLE (Z.of_nat cap) CAP_SET;;
    when doAmbient
      (call (sys_prctl PR_CAP_AMBIENT [PR_CAP_AMBIENT_RAISE; Z.of_nat cap; 0; 0]);; mret tt)).

(** The first loop: the offset of the operator (or of the end) and whether a
    character before it names no set. *)
(** Source: book-src/namespaces/userns_child_exec.c:178-184 (modify_individual_capability, scan). *)
Fixpoint scan_op (s : bytes) (bad : bool) : nat * bool :=
  match s with
  | [] => (0%nat, bad)
  | c :: s' =>
      if ceq c "+" || ceq c "-" then (0%nat, bad)
      else
        let '(n, bad') := scan_op s' (bad || bool_decide (strchr (str "peiba") c = None)) in
        (Datatypes.S n, bad')
  end.

(** One letter of the second loop. *)
(** Source: book-src/namespaces/userns_child_exec.c:205-242 (modify_individual_capability, switch). *)
Definition modify_set (op : ascii) (name : bytes) (cap : Z) (p : ascii) : M S unit :=
  let plus := ceq op "+" in
  if ceq p "p" || ceq p "i" || ceq p "e" then
    let flag := if ceq p "p" then CAP_PERMITTED
                else if ceq p "e" then CAP_EFFECTIVE else CAP_INHERITABLE in
    let capval := if plus then CAP_SET else CAP_CLEAR in
    r ← modifyCapSetting flag cap capval;
    if r =? -1 then
      eprintf (str "-X: modifyCapSetting() failed while " ++
               (if capval =? CAP_SET then str "raising" else str "lowering") ++
               str " '" ++ name ++ str "' in '" ++ [p] ++ str "'" ++ [newline]);;
      c_exit EXIT_FAILURE
    else mret tt
  else if ceq p "b" then
    if plus then
      eprintf (str "Can't add capabilities to the bounding set" ++ [newline]);;
      c_exit EXIT_FAILURE
    else
      r ← call (sys_prctl PR_CAPBSET_DROP [cap; 0; 0; 0]);
      match r with
      | None => errExit (str "-X: PR_CAPBSET_DROP")
      | Some _ => mret tt
      end
  else if ceq p "a" then
    r ← call (sys_prctl PR_CAP_AMBIENT
          [if plus then PR_CAP_AMBIENT_RAISE else PR_CAP_AMBIENT_LOWER; cap; 0; 0]);
    match r with
    | None => errExit (str "-X: PR_CAP_AMBIENT")
    | Some _ => mret tt
    end
  else
    eprintf (str "Bad switch case ('-X'): " ++ [p; newline]);;
    c_exit EXIT_FAILURE.

(** Source: book-src/namespaces/userns_child_exec.c:169-244 (modify_individual_capability). *)
Definition modify_individual_capability (optval : bytes) : M S unit :=
  let '(n, bad_cap) := scan_op optval false in
  let op := char_at optval n in
  if ceq op NUL || ceq (char_at optval (n + 1)) NUL || bad_cap then
    eprintf (str "Badly formed -X option" ++ [newline]);; c_exit EXIT_FAILURE
  else
    let name := drop (n + 1) optval in
    match cap_from_name name with
    | None => eprintf (str "-X: bad capability name" ++ [newline]);; c_exit EXIT_FAILURE
    | Some cap => for_each (take n optval) (modify_set op name cap)
    end.

(** One letter of the securebits option. *)
(** Source: book-src/namespaces/userns_child_exec.c:256-264 (set_securebits, switch). *)
Fixpoint scan_securebits (secbits : Z) (p : bytes) : M S Z :=
  match p with
  | [] => mret secbits
  | c :: p' =>
      if ceq c "r" then scan_securebits (Z.lor secbits SECBIT_NOROOT) p'
      else if ceq c "s" then scan_securebits (Z.lor secbits SECBIT_NO_SETUID_FIXUP) p'
      else if ceq c "0" then scan_securebits 0 p'
      else
        eprintf (str "Unexpected value for '-b' (securebits flag): " ++ [c; newline]);;
        c_exit EXIT_FAILURE
  end.

(** [optval] may be null. *)
(** Source: book-src/namespaces/userns_child_exec.c:248-269 (set_securebits). *)
Definition set_securebits (optval : option bytes) : M S unit :=
  v ← deref optval;
  secbits ← scan_securebits 0 v;
  r ← call (sys_prctl PR_SET_SECUREBITS [secbits]);
  match r with
  | None => errExit (str "prctl-PR_SET_SECUREBITS")
  | Some _ => mret tt
  end.

(** uid_t *)
Definition uid (z : Z) : Z := z mod 2 ^ 32.

(** Source: book-src/namespaces/userns_child_exec.c:274-291 (set_process_uids). *)
Definition set_process_uids (optval : bytes) : M S unit :=
  let comma2 := match strchr optval "," with
                | None => None
                | Some comma1 =>
                    match strchr (drop (comma1 + 1) optval) "," with
                    | None => None
                    | Some k => Some (comma1, (comma1 + 1 + k)%nat)
                    end
                end in
  match comma2 with
  | None =>
      eprintf (str "Poorly formed option: -S " ++ optval ++ [newline]);;
      c_exit EXIT_FAILURE
  | Some (comma1, comma2) =>
      (* the commas are overwritten with null characters *)
      let ruid := take comma1 optval in
      let euid := take (comma2 - (comma1 + 1)) (drop (comma1 + 1) optval) in
      let suid := drop (comma2 + 1) optval in
      r ← call (sys_setresuid (uid (atoi ruid)) (uid (atoi euid)) (uid (atoi suid)));
      match r with
      | None => errExit (str "-S failed (setresuid)")
      | Some _ => mret tt
      end
  end.

(** * What they do *)

(** ** -X *)

(** An argument of -X: the sets, the operator and the name. *)
Definition cap_spec_ok (sets : bytes) (op : ascii) (name : bytes) : Prop :=
  Forall (fun c => c ∈ str "peiba") sets /\ (op = "+"%char \/ op = "-"%char) /\
  exists c name', name = c :: name' /\ c <> NUL.

Lemma scan_op_run sets op rest bad :
  Forall (fun c => c ∈ str "peiba") sets -> (op = "+"%char \/ op = "-"%char) ->
  scan_op (sets ++ op :: rest) bad = (length sets, bad).
Proof.
  intros Hs Hop. revert bad. induction Hs as [|c sets Hc _ IH]; intros bad; simpl.
  - by destruct Hop as [->| ->].
  - rewrite IH. rewrite list_elem_of_In in Hc. simpl in Hc.
    destruct Hc as [<-|[<-|[<-|[<-|[<-|[]]]]]]; by destruct bad.
Qed.

Lemma modify_individual_run sets op name s : cap_spec_ok sets op name ->
  modify_individual_capability (sets ++ op :: name) s =
  match cap_from_name name with
  | Some cap => for_each sets (modify_set op name cap) s
  | None => (eprintf (str "-X: bad capability name" ++ [newline]);; c_exit EXIT_FAILURE) s
  end.
Proof.
  intros (Hs & Hop & c & name' & -> & Hc). unfold modify_individual_capability.
  rewrite scan_op_run by done. unfold char_at. rewrite list_lookup_middle by done.
  rewrite Nat.add_1_r, lookup_app_next. cbn [default from_option id].
  replace (ceq op NUL) with false by (by destruct Hop as [->| ->]).
  replace (ceq c NUL) with false by (symmetry; by apply bool_decide_eq_false).
  cbn [orb]. rewrite take_app_length.
  assert (E : drop (Datatypes.S (length sets)) (sets ++ op :: c :: name') = c :: name').
  { change (sets ++ op :: c :: name') with (sets ++ [op] ++ c :: name').
    rewrite app_assoc. replace (Datatypes.S (length sets)) with (length (sets ++ [op]))
      by (rewrite length_app; simpl; lia). by rewrite drop_app_length. }
  rewrite E. by destruct (cap_from_name (c :: name')).
Qed.

(** A malformed argument is one with no such parts. *)
Lemma scan_op_spec s bad n : NUL ∉ s -> scan_op s bad = (n, false) ->
  bad = false /\ Forall (fun c => c ∈ str "peiba") (take n s) /\
  forall op, s !! n = Some op -> op = "+"%char \/ op = "-"%char.
Proof.
  revert bad n. induction s as [|c s IH]; intros bad n Hs; simpl; [by intros [= <- ->]|].
  apply not_elem_of_cons in Hs as [Hnul Hs].
  destruct (ceq c "+" || ceq c "-") eqn:Hc.
  - intros [= <- ->]. split_and!; [done|constructor|]. intros op [= ->].
    apply orb_true_iff in Hc as [Hc|Hc]; apply bool_decide_eq_true in Hc; tauto.
  - destruct (scan_op s _) as [k b] eqn:Hk. intros [= <- ->].
    destruct (IH _ _ Hs Hk) as (Hb & Hall & Hop). apply orb_false_iff in Hb as [-> Hb].
    split_and!; [done| |done]. simpl. constructor; [|done].
    apply bool_decide_eq_false in Hb. unfold strchr in Hb.
    replace (ceq c NUL) with false in Hb by (symmetry; by apply bool_decide_eq_false).
    rewrite index_of_None in Hb. by apply dec_stable.
Qed.

Lemma modify_individual_bad optval s : NUL ∉ optval ->
  (forall sets op name, optval = sets ++ op :: name -> ~ cap_spec_ok sets op name) ->
  exists l, modify_individual_capability optval s = (Exited EXIT_FAILURE, set_libc l s).
Proof.
  intros Hnul Hbad. unfold modify_individual_capability.
  destruct (scan_op optval false) as [n bad] eqn:Hscan.
  destruct (ceq (char_at optval n) NUL || ceq (char_at optval (n + 1)) NUL || bad) eqn:Hc.
  { unfold eprintf, c_exit, fflush_stdout. munfold. eexists. f_equal. by rewrite set_libc_set. }
  exfalso. apply orb_false_iff in Hc as [Hc ->]. apply orb_false_iff in Hc as [Hop Hname].
  destruct (scan_op_spec _ _ _ Hnul Hscan) as (_ & Hall & Hops).
  unfold char_at, ceq in Hop, Hname. apply bool_decide_eq_false in Hop, Hname.
  destruct (optval !! n) as [op|] eqn:Hn; [|done].
  destruct (optval !! (n + 1)%nat) as [c|] eqn:Hn1; [|done]. simpl in Hname.
  rewrite Nat.add_1_r in Hn1.
  apply (Hbad (take n optval) op (drop (Datatypes.S n) optval)).
  - rewrite <- (drop_lookup_cons _ _ _ Hn). by rewrite take_drop.
  - split_and!; [done|by apply Hops|]. rewrite (drop_lookup_cons _ _ _ Hn1). by eauto.
Qed.

(** ** The effect on the sets *)

Context {HCS : CapSpec S cap_t}.

(** The bits [b] with bit [n] of the set [flag] changed. *)
Definition with_bit (flag n : Z) (v : bool) (b : Z -> Z -> bool) : Z -> Z -> bool :=
  fun f m => if bool_decide (f = flag /\ m = n) then v else b f m.
Definition bits (s : S) : Z -> Z -> bool := cap_bit (proc_caps s).
Definition same_bits (b b' : Z -> Z -> bool) : Prop := forall f n, b f n = b' f n.

Lemma caps_call_post {A} (m : M S (sysres A)) s (P : S -> Prop) (Q : A -> Prop) :
  (forall l s', P s' -> P (set_libc l s')) ->
  post (fun r s' => P s' /\ forall a, r = SOk a -> Q a) (fun _ _ => False) (m s) ->
  post (fun r s' => P s' /\ forall a, r = Some a -> Q a) (fun _ _ => False) (call m s).
Proof.
  intros HP Hm. unfold call. apply post_bind. eapply post_mono; [| |exact Hm]; [|done].
  intros [a|e] s' [Hs Hq]; simpl.
  - split; [done|]. intros a' [= ->]. by apply Hq.
  - split; [|done]. by apply HP.
Qed.

Lemma modifyCapSetting_spec flag capability setting s :
  post (fun r s' =>
    let new := with_bit flag capability (bool_decide (setting <> CAP_CLEAR)) (bits s) in
    r = 0 /\ same_bits (bits s') new \/
    r = -1 /\ (proc_caps s' = proc_caps s \/ same_bits (bits s') new))
    (fun _ _ => False) (modifyCapSetting flag capability setting s).
Proof.
  unfold modifyCapSetting. apply post_bind.
  eapply post_mono; [| |apply (caps_call_post cap_get_proc s (fun s' => proc_caps s' = proc_caps s)
    (fun c => c = proc_caps s))]; [|done|by intros; rewrite libc_caps|apply cap_get_spec].
  intros [c|] s1 [H1 Hc]; [|right; split; [done|by left]]. specialize (Hc c eq_refl) as ->.
  apply post_bind.
  assert (Hfree : forall s2, proc_caps s2 = proc_caps s -> forall c', post (fun r s' =>
    let new := with_bit flag capability (bool_decide (setting <> CAP_CLEAR)) (bits s) in
    r = 0 /\ same_bits (bits s') new \/
    r = -1 /\ (proc_caps s' = proc_caps s \/ same_bits (bits s') new)) (fun _ _ => False)
      ((cap_free c';; mret (-1)) s2)).
  { intros s2 H2 c'. apply post_bind. eapply post_mono; [| |apply (cap_free_spec c' s2)]; [|done].
    intros ? s3 H3. right. split; [done|]. left. congruence. }
  unfold call at 1. apply post_bind. cbn [post mret M_ret].
  destruct (cap_set_flag (proc_caps s) flag capability setting) as [c'|e] eqn:Hset.
  2:{ apply Hfree. by rewrite libc_caps. }
  cbn [post mret M_ret]. apply post_bind. unfold call at 1. apply post_bind.
  eapply post_mono; [| |apply (cap_set_spec c' s1)]; [|done]. intros [u|e] s2 H2.
  2:{ apply Hfree. rewrite libc_caps. congruence. }
  cbn [post mret M_ret]. apply post_bind. 
  eapply post_mono; [| |apply (caps_call_post (cap_free c') s2 (fun s' => proc_caps s' = c') (fun _ => True))];
    [|done|by intros; rewrite libc_caps|].
  2:{ eapply post_mono; [| |apply (cap_free_spec c' s2)]; [|done]. intros r s3 H3. split; [congruence|done]. }
  intros r s3 [H3 _]. cbn [post mret M_ret].
  assert (Hnew : same_bits (bits s3) (with_bit flag capability (bool_decide (setting <> CAP_CLEAR)) (bits s))).
  { intros f n. unfold bits, with_bit. rewrite H3. by rewrite (cap_set_flag_spec _ _ _ _ _ Hset). }
  destruct r; [by left|right]. by split; [|right].
Qed.

(** ModifyCapSetting() always returns. When it returns 0, exactly the one
    capability asked for, in the one set asked for, has the setting asked for,
    and every other bit of the three sets is as it was; when it returns -1 the
    sets are as they were, unless all that failed was cap_free(). *)
Theorem modifyCapSetting_correct flag capability setting s :
  post (fun r s' =>
    let new := with_bit flag capability (bool_decide (setting <> CAP_CLEAR)) (bits s) in
    r = 0 /\ same_bits (bits s') new \/
    r = -1 /\ (proc_caps s' = proc_caps s \/ same_bits (bits s') new))
    (fun _ _ => False) (modifyCapSetting flag capability setting s).
Proof. apply modifyCapSetting_spec. Qed.

(** The set that a letter of the option names. *)
Definition letter_flag (p : ascii) : Z :=
  if ceq p "p" then CAP_PERMITTED else if ceq p "e" then CAP_EFFECTIVE else CAP_INHERITABLE.

(** The bits once the sets named by [sets] were changed for [cap]. *)
Definition with_sets (sets : bytes) (cap : Z) (v : bool) (b : Z -> Z -> bool) : Z -> Z -> bool :=
  fun f m => if bool_decide (m = cap /\ f ∈ (letter_flag <$> sets)) then v else b f m.

Lemma modify_set_spec op name cap p s :
  p ∈ str "pie" ->
  post (fun _ s' => same_bits (bits s') (with_bit (letter_flag p) cap (ceq op "+") (bits s)))
    (fun e _ => e = EExit EXIT_FAILURE) (modify_set op name cap p s).
Proof.
  intros Hp. unfold modify_set.
  assert (E : ceq p "p" || ceq p "i" || ceq p "e" = true).
  { rewrite list_elem_of_In in Hp. simpl in Hp. by destruct Hp as [<-|[<-|[<-|[]]]]. }
  rewrite E. fold (letter_flag p). apply post_bind.
  eapply post_mono; [| |apply (modifyCapSetting_spec (letter_flag p) cap _ s)]; [|done].
  intros r s' [[-> Hb]|[-> _]].
  - simpl. by destruct (ceq op "+").
  - change (-1 =? -1) with true. cbv iota. unfold eprintf, c_exit, fflush_stdout. by munfold.
Qed.

Lemma with_sets_cons p sets cap v b f m :
  with_sets (p :: sets) cap v b f m = with_sets sets cap v (with_bit (letter_flag p) cap v b) f m.
Proof.
  unfold with_sets, with_bit. rewrite fmap_cons.
  destruct (bool_decide_reflect (m = cap /\ f ∈ (letter_flag <$> sets))) as [[-> Hin]|Hn].
  - by rewrite bool_decide_eq_true_2 by (split; [done|by right]).
  - destruct (bool_decide_reflect (f = letter_flag p /\ m = cap)) as [[-> ->]|Hn'].
    + by rewrite bool_decide_eq_true_2 by (split; [done|by left]).
    + rewrite bool_decide_eq_false_2; [done|]. rewrite elem_of_cons. tauto.
Qed.

Lemma modify_sets_spec op name cap sets s :
  Forall (fun p => p ∈ str "pie") sets ->
  post (fun _ s' => same_bits (bits s') (with_sets sets cap (ceq op "+") (bits s)))
    (fun e _ => e = EExit EXIT_FAILURE) (for_each sets (modify_set op name cap) s).
Proof.
  intros Hs. revert s. induction Hs as [|p sets Hp _ IH]; intros s; simpl.
  - intros f m. unfold with_sets. rewrite bool_decide_eq_false_2; [done|]. intros [_ Hin].
    by apply not_elem_of_nil in Hin.
  - apply post_bind. eapply post_mono; [| |apply (modify_set_spec op name cap p s Hp)]; [|done].
    intros ? s1 H1. eapply post_mono; [| |apply IH]; [|done]. intros ? s2 H2 f m.
    rewrite H2, with_sets_cons. unfold with_sets. by rewrite H1.
Qed.

(** An argument of -X whose parts are letters of "pie", an operator and the
    name of a capability has, if the program goes on, the effect it describes: the
    capability is in (or out of) exactly the sets named, whatever their order and
    repetitions, and nothing else changed; otherwise the program exits with status
    1. An argument without such parts changes nothing and ends the program. *)
Theorem modify_individual_correct optval s : NUL ∉ optval ->
  (forall sets op name cap, optval = sets ++ op :: name -> cap_spec_ok sets op name ->
     Forall (fun p => p ∈ str "pie") sets -> cap_from_name name = Some cap ->
     post (fun _ s' => same_bits (bits s') (with_sets sets cap (ceq op "+") (bits s)))
       (fun e _ => e = EExit EXIT_FAILURE) (modify_individual_capability optval s)) /\
  ((forall sets op name, optval = sets ++ op :: name -> ~ cap_spec_ok sets op name) ->
     exists l, modify_individual_capability optval s = (Exited EXIT_FAILURE, set_libc l s)).
Proof.
  intros Hnul. split; [|by apply modify_individual_bad].
  intros sets op name cap -> Hok Hpie Hcap. rewrite modify_individual_run, Hcap by done.
  by apply modify_sets_spec.
Qed.

(** ** securebits *)

(** The letters after the last '0'. *)
Fixpoint after_reset (v : bytes) : bytes :=
  match v with
  | [] => []
  | c :: v' => if bool_decide ("0"%char ∈ v') || ceq c "0" then after_reset v' else v
  end.
Definition securebits_of (v : bytes) : Z :=
  let w := after_reset v in
  Z.lor (if bool_decide ("r"%char ∈ w) then SECBIT_NOROOT else 0)
        (if bool_decide ("s"%char ∈ w) then SECBIT_NO_SETUID_FIXUP else 0).

(** The flags of letters without a reset, on top of some flags. *)
Definition flags_on (z : Z) (w : bytes) : Z :=
  Z.lor z (Z.lor (if bool_decide ("r"%char ∈ w) then SECBIT_NOROOT else 0)
                 (if bool_decide ("s"%char ∈ w) then SECBIT_NO_SETUID_FIXUP else 0)).

Lemma after_reset_cons c v : c <> "0"%char ->
  after_reset (c :: v) = if bool_decide ("0"%char ∈ v) then after_reset v else c :: v.
Proof.
  intros Hc. cbn [after_reset]. replace (ceq c "0") with false by (symmetry; by apply bool_decide_eq_false).
  by rewrite orb_false_r.
Qed.

Lemma after_reset_zero v : ("0"%char ∉ v) -> after_reset v = v.
Proof.
  destruct v as [|c v]; [done|]. rewrite not_elem_of_cons. intros [Hc Hv].
  rewrite after_reset_cons by congruence. by rewrite bool_decide_eq_false_2.
Qed.

Lemma elem_cons_ne (c d : ascii) v : c <> d -> bool_decide (c ∈ d :: v) = bool_decide (c ∈ v).
Proof. intros Hne. apply bool_decide_ext. rewrite elem_of_cons. split; [by intros [?|?]|by right]. Qed.

Ltac lor_solve := apply Z.bits_inj'; intros ? ?; rewrite ?Z.lor_spec, ?Z.bits_0; btauto.

Lemma scan_securebits_run v z s : Forall (fun c => c ∈ str "rs0") v ->
  scan_securebits z v s =
  (Done (if bool_decide ("0"%char ∈ v) then securebits_of v else flags_on z v), s).
Proof.
  intros Hv. revert z. induction Hv as [|c v Hc _ IH]; intros z.
  { unfold flags_on. simpl. by rewrite !Z.lor_0_r. }
  rewrite list_elem_of_In in Hc. simpl in Hc. cbn [scan_securebits].
  destruct Hc as [<-|[<-|[<-|[]]]];
    (etransitivity; [apply IH|]); do 2 f_equal.
  - rewrite (elem_cons_ne "0" "r") by done.
    case_bool_decide as Hz.
    + unfold securebits_of. rewrite after_reset_cons by done. by rewrite (bool_decide_eq_true_2 _ Hz).
    + unfold flags_on. rewrite (bool_decide_eq_true_2 ("r"%char ∈ "r"%char :: v)) by (by left).
      rewrite (elem_cons_ne "s" "r") by done.
      destruct (bool_decide ("r"%char ∈ v)); lor_solve.
  - rewrite (elem_cons_ne "0" "s") by done.
    case_bool_decide as Hz.
    + unfold securebits_of. rewrite after_reset_cons by done. by rewrite (bool_decide_eq_true_2 _ Hz).
    + unfold flags_on. rewrite (bool_decide_eq_true_2 ("s"%char ∈ "s"%char :: v)) by (by left).
      rewrite (elem_cons_ne "r" "s") by done.
      destruct (bool_decide ("s"%char ∈ v)); lor_solve.
  - rewrite (bool_decide_eq_true_2 ("0"%char ∈ "0"%char :: v)) by (by left).
    unfold securebits_of. cbn [after_reset]. rewrite orb_true_r.
    case_bool_decide as Hz; [done|]. rewrite (after_reset_zero v Hz). unfold flags_on. by rewrite Z.lor_0_l.
Qed.

Lemma scan_securebits_bad v z s : ~ Forall (fun c => c ∈ str "rs0") v ->
  exists l, scan_securebits z v s = (Exited EXIT_FAILURE, set_libc l s).
Proof.
  revert z. induction v as [|c v IH]; intros z Hv; [by destruct Hv|]. cbn [scan_securebits].
  destruct (decide (c ∈ str "rs0")) as [Hc|Hc].
  - assert (Hv' : ~ Forall (fun c => c ∈ str "rs0") v) by (intros H'; apply Hv; by constructor).
    rewrite list_elem_of_In in Hc. simpl in Hc. destruct Hc as [<-|[<-|[<-|[]]]]; by apply IH.
  - assert (Hne : forall d, d ∈ str "rs0" -> ceq c d = false).
    { intros d Hd. apply bool_decide_eq_false. by intros ->. }
    rewrite !Hne by (by apply (bool_decide_unpack _)).
    unfold eprintf, c_exit, fflush_stdout. munfold. eexists. f_equal. by rewrite set_libc_set.
Qed.

(** set_securebits() of letters "r", "s" and "0" sets the securebits to the
    flags of exactly the letters that follow the last "0"; any other letter ends
    the program with the securebits as they were. *)
Theorem set_securebits_correct v s :
  (Forall (fun c => c ∈ str "rs0") v ->
   set_securebits (Some v) s =
     (r ← call (sys_prctl PR_SET_SECUREBITS [securebits_of v]);
      match r with
      | None => errExit (str "prctl-PR_SET_SECUREBITS")
      | Some _ => mret tt
      end) s) /\
  (~ Forall (fun c => c ∈ str "rs0") v ->
   exists l, set_securebits (Some v) s = (Exited EXIT_FAILURE, set_libc l s)).
Proof.
  unfold set_securebits. cbn [deref]. rewrite !mret_bind. split; intros Hv.
  - rewrite (bind_done _ _ _ _ _ (scan_securebits_run v 0 s Hv)).
    case_bool_decide as Hz; [done|]. unfold securebits_of. by rewrite after_reset_zero by done.
  - destruct (scan_securebits_bad v 0 s Hv) as [l Hl]. exists l. unfold mbind, M_bind. by rewrite Hl.
Qed.

(** ** -S *)

Lemma digits_no_comma z : ","%char ∉ print_dec z.
Proof.
  unfold print_dec. destruct (z <? 0) eqn:E.
  - rewrite not_elem_of_cons. split; [done|]. intros Hin.
    pose proof (print_nonneg_digits (- z) ltac:(lia)) as Hd. rewrite Forall_forall in Hd.
    by apply Hd in Hin.
  - intros Hin. pose proof (print_nonneg_digits z ltac:(lia)) as Hd. rewrite Forall_forall in Hd.
    by apply Hd in Hin.
Qed.

(** Set_process_uids() reads back three user IDs written in decimal and
    separated by commas: it calls setresuid() with exactly these. *)
Theorem set_process_uids_roundtrip r e su s :
  INT_MIN <= r <= INT_MAX -> INT_MIN <= e <= INT_MAX -> INT_MIN <= su <= INT_MAX ->
  set_process_uids (print_dec r ++ ","%char :: print_dec e ++ ","%char :: print_dec su) s =
  (x ← call (sys_setresuid (uid r) (uid e) (uid su));
   match x with
   | None => errExit (str "-S failed (setresuid)")
   | Some _ => mret tt
   end) s.
Proof.
  intros Hr He Hs. unfold set_process_uids, strchr. change (ceq "," NUL) with false. cbv iota.
  set (t := print_dec e ++ ","%char :: print_dec su).
  rewrite (index_of_app "," (print_dec r) t) by apply digits_no_comma.
  assert (Ed : forall a (b : bytes), drop (length a + 1) (a ++ ","%char :: b) = b).
  { intros a b. by rewrite drop_app_add. }
  rewrite Ed. unfold t at 1. rewrite (index_of_app "," (print_dec e) (print_dec su)) by apply digits_no_comma.
  rewrite take_app_length, Ed.
  replace (length (print_dec r) + 1 + length (print_dec e) - (length (print_dec r) + 1))%nat
    with (length (print_dec e)) by lia.
  replace (length (print_dec r) + 1 + length (print_dec e) + 1)%nat
    with (length (print_dec r) + (1 + (length (print_dec e) + 1)))%nat by lia.
  rewrite drop_app_add. change (drop (1 + ?k) (_ :: t)) with (drop k t).
  assert (Ha : forall z, INT_MIN <= z <= INT_MAX -> atoi (print_dec z) = z).
  { intros z Hz. rewrite <- (app_nil_r (print_dec z)). by apply atoi_print. }
  unfold t. rewrite take_app_length, Ed, !Ha by done. done.
Qed.
End caps.

(** * A process *)

(** Three sets of capabilities, and the other settings made. *)
Record capset := Capset { cs_sets : gset (Z * Z); cs_securebits : Z; cs_uids : Z * Z * Z }.
Definition cap_state : Type := libc * capset.

#[export] Instance cap_state_os : CapOS cap_state (gset (Z * Z)) := {
  cap_get_proc := gets (fun s => SOk (cs_sets s.2));
  cap_set_flag c flag cap v :=
    if (cap <? 0) || (40 <? cap) then SErr EINVAL
    else SOk (if v =? CAP_CLEAR then c ∖ {[ (flag, cap) ]} else c ∪ {[ (flag, cap) ]});
  cap_set_proc c :=
    modify (fun s => (s.1, Capset c (cs_securebits s.2) (cs_uids s.2)));; mret (SOk tt);
  cap_free c := mret (SOk tt);
  cap_from_name n := if streq n (str "cap_chown") then Some 0
                     else if streq n (str "cap_kill") then Some 5 else None;
  cap_from_text t := SErr EINVAL;
  cap_to_text c := SOk (str "=");
  sys_prctl op args :=
    modify (fun s => (s.1, Capset (cs_sets s.2) (default 0 (head args)) (cs_uids s.2)));; mret (SOk tt);
  sys_setresuid r e s' :=
    modify (fun s => (s.1, Capset (cs_sets s.2) (cs_securebits s.2) (r, e, s')));; mret (SOk tt);
  sys_getids := mret (0, 0, 0, 0);
  sys_sleep n := mret tt
}.

#[export, refine] Instance cap_state_spec : CapSpec cap_state (gset (Z * Z)) := {|
  proc_caps s := cs_sets s.2;
  cap_bit c f n := bool_decide ((f, n) ∈ c)
|}.
Proof.
  - intros s. simpl. split; [done|]. by intros c [= <-].
  - intros c flag cap v c' Hset f n. simpl in Hset. destruct (_ || _); [done|].
    injection Hset as <-. destruct (Z.eqb_spec v CAP_CLEAR) as [->|Hv].
    + rewrite (bool_decide_eq_false_2 (CAP_CLEAR <> CAP_CLEAR)) by tauto.
      destruct (bool_decide_reflect (f = flag /\ n = cap)) as [[-> ->]|Hfn];
        [apply bool_decide_eq_false; rewrite elem_of_difference, elem_of_singleton; tauto|].
      apply bool_decide_ext. rewrite elem_of_difference, elem_of_singleton.
      split; [tauto|]. intros. split; [done|]. intros [= -> ->]. tauto.
    + rewrite (bool_decide_eq_true_2 (v <> CAP_CLEAR)) by done.
      destruct (bool_decide_reflect (f = flag /\ n = cap)) as [[-> ->]|Hfn];
        [apply bool_decide_eq_true; set_solver|].
      apply bool_decide_ext. rewrite elem_of_union, elem_of_singleton.
      split; [|tauto]. intros [?|[= -> ->]]; [done|tauto].
  - intros c s. by simpl.
  - intros c s. by simpl.
  - intros l [l' c]. by simpl.
Defined.

Definition cap_state0 : cap_state :=
  (libc0, Capset {[ (CAP_PERMITTED, 5); (CAP_PERMITTED, 0) ]} 0 (1000, 1000, 1000)).

Lemma modifyCapSetting_correct_witness :
  post (fun r s' => r = 0 \/ r = -1) (fun _ _ => False)
    (modifyCapSetting (S := cap_state) CAP_EFFECTIVE 5 CAP_SET cap_state0).
Proof.
  eapply post_mono; [| |apply (modifyCapSetting_correct (S := cap_state) CAP_EFFECTIVE 5 CAP_SET cap_state0)];
    [|done].
  intros r s' [[H _]|[H _]]; tauto.
Defined.

(** "-X pe-cap_kill" takes the capability out of two sets. *)
Lemma modify_individual_correct_witness :
  post (fun _ s' => bits s' CAP_PERMITTED 5 = false /\ bits s' CAP_PERMITTED 0 = true)
    (fun e _ => e = EExit EXIT_FAILURE)
    (modify_individual_capability (S := cap_state) (fun _ => []) (str "pe-cap_kill") cap_state0).
Proof.
  assert (Hnul : NUL ∉ str "pe-cap_kill") by (by apply (bool_decide_unpack _)).
  destruct (modify_individual_correct (S := cap_state) (fun _ => []) (str "pe-cap_kill") cap_state0 Hnul)
    as [H _].
  eapply post_mono; [| |apply (H (str "pe") "-"%char (str "cap_kill") 5)]; [|done|reflexivity| | |reflexivity].
  - intros u s' Hb. rewrite !Hb. vm_compute. split; reflexivity.
  - split_and!; [repeat constructor; by apply (bool_decide_unpack _)|by right|].
    exists "c"%char, (str "ap_kill"). split; [reflexivity|by apply (bool_decide_unpack _)].
  - repeat constructor; by apply (bool_decide_unpack _).
Defined.

Lemma set_securebits_correct_witness :
  cs_securebits (set_securebits (S := cap_state) (fun _ => []) (Some (str "s0r")) cap_state0).2.2
    = SECBIT_NOROOT.
Proof.
  destruct (set_securebits_correct (S := cap_state) (cap_t := gset (Z * Z)) (fun _ => []) (str "s0r") cap_state0)
    as [H _].
  rewrite H; [reflexivity|]. repeat constructor; by apply (bool_decide_unpack _).
Defined.

Lemma set_process_uids_roundtrip_witness :
  cs_uids (set_process_uids (S := cap_state) (fun _ => []) (str "1,20,300") cap_state0).2.2 = (1, 20, 300).
Proof.
  pose proof (set_process_uids_roundtrip (S := cap_state) (fun _ => []) 1 20 300 cap_state0) as H.
  change (print_dec 1 ++ ","%char :: print_dec 20 ++ ","%char :: print_dec 300) with (str "1,20,300") in H.
  rewrite H; [reflexivity| | |]; unfold INT_MIN, INT_MAX; lia.
Defined.
