(* ===== verification/Userns.v ===== *)
(** book-src/namespaces/userns_child_exec.c and userns_functions.c: a command run
    in new namespaces, with UID and GID maps set by its parent. *)
From S2P Require Import Prelude CLib Sys Caps.
From S2P Require ErrorFunctions.
#[local] Open Scope Z_scope.

(** * The system *)

Definition CLONE_NEWNS : Z := 0x00020000.
Definition CLONE_NEWCGROUP : Z := 0x02000000.
Definition CLONE_NEWUTS : Z := 0x04000000.
Definition CLONE_NEWIPC : Z := 0x08000000.
Definition CLONE_NEWUSER : Z := 0x10000000.
Definition CLONE_NEWPID : Z := 0x20000000.
Definition CLONE_NEWNET : Z := 0x40000000.
Definition SIGCHLD : Z := 17.
Definition PR_SET_DUMPABLE : Z := 4.
Definition PATH_MAX : nat := 4096.

(** The files of /proc, the pipe, the child and the new program. A write gives
    the number of bytes written. *)
Class UserOS (S : Type) := {
  sys_open_rw : bytes -> M S (sysres Z);
  sys_write_map : Z -> bytes -> M S (sysres Z);
  sys_close_fd : Z -> M S unit;
  sys_pipe : M S (sysres (Z * Z));
  sys_mmap_stack : M S (sysres unit);
  sys_clone : Z -> M S (sysres Z);
  sys_waitpid : Z -> M S (sysres unit);
  sys_read_pipe : Z -> M S (sysres bytes);
  sys_execvp : list bytes -> M S Z       (* the errno of a failed execvp() *)
}.

(** ** The command line *)

(** Source: book-src/namespaces/userns_child_exec.c:50-53 (struct option_list). *)
Record option_item := OptionItem { opt : ascii; opt_val : option bytes }.

(** Source: book-src/namespaces/userns_child_exec.c:55-55 (MAX_OPT). *)
Definition MAX_OPT : nat := 100.

(** Source: book-src/namespaces/userns_child_exec.c:57-67 (struct cmd_options). *)
Record cmd_options := CmdOptions {
  co_argv : list bytes;
  flags : Z;
  create_root_mappings : bool;
  deny_setgroups : bool;
  verbose : bool;
  uid_map : option bytes;
  gid_map : option bytes;
  opt_list : list option_item           (* its length is opt_cnt *)
}.

Section userns.
Context {S cap_t : Type} `{HasLibc S} `{CapOS S cap_t} `{UserOS S}.
Context (strerror : Z -> bytes) (CAP_LAST_CAP : nat).

Definition dq (b : bytes) : bytes := [ascii_of_nat 34] ++ b ++ [ascii_of_nat 34].
Definition fpe (b : bytes) : bytes := str "    " ++ b.
Definition fpl (b : bytes) : bytes := fpe b ++ [newline].

Definition usage_text (pname : bytes) : bytes :=
  str "Usage: " ++ pname ++ str " [options] cmd [arg...]" ++ [newline; newline] ++
  str "Create a child process that executes a shell command in (typically) a new user" ++ [newline] ++
  str "namespace, and possibly also other new namespaces." ++ [newline; newline] ++
  str "Options can be:" ++ [newline; newline] ++
  fpl (str "-C          New cgroup namespace") ++
  fpl (str "-i          New IPC namespace") ++
  fpl (str "-m          New mount namespace") ++
  fpl (str "-n          New network namespace") ++
  fpl (str "-p          New PID namespace") ++
  fpl (str "-u          New UTS namespace") ++
  fpl (str "-U          New user namespace") ++
  fpl (str "-M uid_map  Specify UID map for user namespace") ++
  fpl (str "-G gid_map  Specify GID map for user namespace") ++
  fpl (str "-D          Do not write " ++ dq (str "deny") ++ str " to /proc/PID/setgroups before") ++
  fpl (str "            updating GID map") ++
  fpl (str "-r          Create 'root' mappings: map user's UID and GID to 0 in user") ++
  fpl (str "            namespace (equivalent to: -M '0 <uid> 1' -G '0 <gid> 1')") ++
  fpl (str "-z          Synonym for '-r'") ++
  fpl (str "-v          Display verbose messages" ++ [newline]) ++
  fpl (str "If -r, -M, or -G is specified, -U is required." ++ [newline]) ++
  fpl (str "It is not permitted to specify both -r and either -M or -G.") ++
  fpl [] ++
  fpl (str "Map strings for -M and -G consist of records of the form:") ++
  fpl [] ++
  fpl (str "    ID-inside-ns   ID-outside-ns   len") ++
  fpl [] ++
  fpl (str "A map string can contain multiple records, separated by commas;") ++
  fpl (str "the commas are replaced by newlines before writing to map files.") ++
  [newline] ++
  str "The following additional options (primarily useful when experimenting with user" ++ [newline] ++
  str "namespaces) are repeatable: they are performed in the order that they are" ++ [newline] ++
  str "specified, before 'cmd' is execed:" ++ [newline; newline] ++
  fpl (str "-h          Push all possible capabilities into inheritable set") ++
  fpl (str "-a          Push all possible capabilities into inheritable and") ++
  fpl (str "            ambient sets") ++
  fpl (str "-s <uid>    Set all process UIDs to <uid>") ++
  fpl (str "-S r,e,s    Set real/effective/saved-set UIDs") ++
  fpl (str "-b <bits>   Set securebits flags; 'bits' can be '0' to clear the flags") ++
  fpl (str "            or one or more of:") ++
  fpl (str "                'r' - SECBIT_NOROOT;") ++
  fpl (str "                's' - SECBIT_NO_SETUID_FIXUP") ++
  fpl (str "-d          Display process credentials and capabilities") ++
  fpl (str "-w <nsecs>  Wait (sleep) for <nsecs> seconds") ++
  fpl (str "-x <caps>   Set process capabilities; <caps> as per cap_from_text(3)") ++
  fpl (str "-X [peiba]{+|-}<cap-name>") ++
  fpl (str "            Modify one or more process sets by adding or removing") ++
  fpl (str "            a capability.") ++
  fpl (str "            Each set is modified as an individual operation") ++
  fpl (str "            in the order specified before +/-.").

(** Source: book-src/namespaces/userns_child_exec.c:69-131 (usage). *)
Definition usage {A} (pname : bytes) : M S A :=
  eprintf (usage_text pname);; c_exit EXIT_FAILURE.

Definition with_flag (f : Z) (o : cmd_options) : cmd_options :=
  CmdOptions (co_argv o) (Z.lor (flags o) f) (create_root_mappings o) (deny_setgroups o) (verbose o)
    (uid_map o) (gid_map o) (opt_list o).

(** The letters of the repeatable options, as the switch has them. *)
Definition repeatable : bytes := str "habsdxXw".

(** One option, as getopt(3) gives it: the letter, or '?', and [optarg]. *)
(** Source: book-src/namespaces/userns_child_exec.c:457-496 (parse_command_options, switch). *)
Definition parse_option (pname : bytes) (opts : cmd_options) (o : ascii * option bytes)
    : M S cmd_options :=
  let '(c, optarg) := o in
  if ceq c "C" then mret (with_flag CLONE_NEWCGROUP opts)
  else if ceq c "i" then mret (with_flag CLONE_NEWIPC opts)
  else if ceq c "m" then mret (with_flag CLONE_NEWNS opts)
  else if ceq c "n" then mret (with_flag CLONE_NEWNET opts)
  else if ceq c "p" then mret (with_flag CLONE_NEWPID opts)
  else if ceq c "u" then mret (with_flag CLONE_NEWUTS opts)
  else if ceq c "U" then mret (with_flag CLONE_NEWUSER opts)
  else if ceq c "M" then
    mret (CmdOptions (co_argv opts) (flags opts) (create_root_mappings opts) (deny_setgroups opts)
            (verbose opts) optarg (gid_map opts) (opt_list opts))
  else if ceq c "G" then
    mret (CmdOptions (co_argv opts) (flags opts) (create_root_mappings opts) (deny_setgroups opts)
            (verbose opts) (uid_map opts) optarg (opt_list opts))
  else if ceq c "r" || ceq c "z" then
    mret (CmdOptions (co_argv opts) (flags opts) true (deny_setgroups opts)
            (verbose opts) (uid_map opts) (gid_map opts) (opt_list opts))
  else if ceq c "D" then
    mret (CmdOptions (co_argv opts) (flags opts) (create_root_mappings opts) false
            (verbose opts) (uid_map opts) (gid_map opts) (opt_list opts))
  else if ceq c "v" then
    mret (CmdOptions (co_argv opts) (flags opts) (create_root_mappings opts) (deny_setgroups opts)
            true (uid_map opts) (gid_map opts) (opt_list opts))
  else if bool_decide (c ∈ repeatable) then
    if (MAX_OPT <=? length (opt_list opts))%nat then
      eprintf (str "Too many repeatable options (maximum: 100)" ++ [newline]);; c_exit EXIT_FAILURE
    else
      let val := if ceq c "s" || ceq c "S" || ceq c "x" || ceq c "X" || ceq c "w"
                 then optarg else None in
      mret (CmdOptions (co_argv opts) (flags opts) (create_root_mappings opts) (deny_setgroups opts)
              (verbose opts) (uid_map opts) (gid_map opts) (opt_list opts ++ [OptionItem c val]))
  else usage pname.

Fixpoint parse_options (pname : bytes) (opts : cmd_options) (os : list (ascii * option bytes))
    : M S cmd_options :=
  match os with
  | [] => mret opts
  | o :: os' => opts' ← parse_option pname opts o; parse_options pname opts' os'
  end.

(** [os] are the results of getopt(3), [operands] the arguments from optind on. *)
(** Source: book-src/namespaces/userns_child_exec.c:436-512 (parse_command_options). *)
Definition parse_command_options (pname : bytes) (os : list (ascii * option bytes))
    (operands : list bytes) : M S cmd_options :=
  opts ← parse_options pname (CmdOptions [] 0 false true false None None []) os;
  (if ((bool_decide (is_Some (uid_map opts)) || bool_decide (is_Some (gid_map opts)) ||
        create_root_mappings opts) && negb (has_bits (flags opts) CLONE_NEWUSER)) ||
      (create_root_mappings opts &&
        (bool_decide (is_Some (uid_map opts)) || bool_decide (is_Some (gid_map opts))))
   then usage pname else mret tt);;
  (if operands is [] then usage pname else mret tt);;
  mret (CmdOptions operands (flags opts) (create_root_mappings opts) (deny_setgroups opts)
          (verbose opts) (uid_map opts) (gid_map opts) (opt_list opts)).

(** ** The repeatable options *)

(** The errExit() of userns_functions.c is the library's. *)
(** Source: book-src/namespaces/userns_functions.c:31-51 (display_creds_and_caps). *)
Definition display_creds_and_caps (s : bytes) : M S unit :=
  '(_, euid, _, egid) ← sys_getids;
  printf (s ++ str "eUID = " ++ print_dec euid ++ str "; eGID=" ++ print_dec egid ++ str ";  ");;
  caps ← call cap_get_proc;
  match caps with
  | None => ErrorFunctions.errExit strerror (str "cap_get_proc")
  | Some c =>
      t ← call (mret (cap_to_text c));
      match t with
      | None => ErrorFunctions.errExit strerror (str "cap_to_text")
      | Some t =>
          printf (str "capabilities: " ++ t ++ [newline]);;
          cap_free c;; mret tt
      end
  end.

(** One option, with the number of -d options so far. *)
(** Source: book-src/namespaces/userns_child_exec.c:305-358 (perform_repeatable_options, switch). *)
Definition perform_option (display_cnt : nat) (o : option_item) : M S nat :=
  let c := opt o in
  if ceq c "a" then raiseInheritableAndAmbientCaps CAP_LAST_CAP true;; mret display_cnt
  else if ceq c "b" then set_securebits strerror (opt_val o);; mret display_cnt
  else if ceq c "d" then
    let n := (display_cnt + 1)%nat in
    display_creds_and_caps (snprintf 10 (str "[-d " ++ print_dec (Z.of_nat n) ++ str "] "));;
    mret n
  else if ceq c "h" then raiseInheritableAndAmbientCaps CAP_LAST_CAP false;; mret display_cnt
  else if ceq c "s" then
    v ← deref (opt_val o);
    let newuid := uid (atoi v) in
    r ← call (sys_setresuid newuid newuid newuid);
    match r with
    | None => errExit strerror (str "setresuid")
    | Some _ => mret display_cnt
    end
  else if ceq c "S" then
    v ← deref (opt_val o); set_process_uids strerror v;; mret display_cnt
  else if ceq c "w" then
    v ← deref (opt_val o); sys_sleep (atoi v);; mret display_cnt
  else if ceq c "x" then
    v ← deref (opt_val o);
    caps ← call (mret (cap_from_text v));
    match caps with
    | None => errExit strerror (str "-x: cap_from_text")
    | Some caps =>
        r ← call (cap_set_proc caps);
        match r with
        | None => errExit strerror (str "-x: cap_set_proc()")
        | Some _ => cap_free caps;; mret display_cnt
        end
    end
  else if ceq c "X" then
    v ← deref (opt_val o); modify_individual_capability strerror v;; mret display_cnt
  else
    eprintf (str "Unexpected option (-" ++ [c] ++ str ") in perform_repeatable_options()" ++ [newline]);;
    mret display_cnt.

(** Source: book-src/namespaces/userns_child_exec.c:296-359 (perform_repeatable_options). *)
Fixpoint perform_repeatable_options (display_cnt : nat) (os : list option_item) : M S unit :=
  match os with
  | [] => mret tt
  | o :: os' => n ← perform_option display_cnt o; perform_repeatable_options n os'
  end.

(** ** The maps *)

(** The loop that replaces commas with newlines, in place. *)
(** Source: book-src/namespaces/userns_functions.c:76-79 (update_map, loop). *)
Fixpoint commas_to_newlines (mapping : bytes) : bytes :=
  match mapping with
  | [] => []
  | c :: m => (if ceq c "," then newline else c) :: commas_to_newlines m
  end.

(** Source: book-src/namespaces/userns_functions.c:67-97 (update_map). *)
Definition update_map (mapping map_file : bytes) : M S Z :=
  let mapping' := commas_to_newlines mapping in
  fd ← call (sys_open_rw map_file);
  match fd with
  | None =>
      e ← get_errno;
      eprintf (str "ERROR: open " ++ map_file ++ str ": " ++ strerror e ++ [newline]);;
      mret (-1)
  | Some fd =>
      n ← call (sys_write_map fd mapping');
      status ← (if bool_decide (n = Some (Z.of_nat (length mapping'))) then mret 0
                else
                  e ← get_errno;
                  eprintf (str "ERROR: writing to " ++ map_file ++ str ": " ++ strerror e ++ [newline]);;
                  mret (-1));
      sys_close_fd fd;;
      mret status
  end.

(** Source: book-src/namespaces/userns_functions.c:117-157 (proc_setgroups_write). *)
Definition proc_setgroups_write (child_pid : Z) (text : bytes) : M S Z :=
  let setgroups_path := snprintf PATH_MAX (str "/proc/" ++ print_dec child_pid ++ str "/setgroups") in
  fd ← call (sys_open_rw setgroups_path);
  match fd with
  | None =>
      e ← get_errno;
      if e =? ENOENT then mret 0
      else
        eprintf (str "ERROR: open " ++ setgroups_path ++ str ": " ++ strerror e ++ [newline]);;
        mret (-1)
  | Some fd =>
      n ← call (sys_write_map fd text);
      status ← match n with
               | Some _ => mret 0
               | None =>
                   e ← get_errno;
                   eprintf (str "ERROR: writing to " ++ setgroups_path ++ str ": " ++ strerror e ++ [newline]);;
                   mret (-1)
               end;
      sys_close_fd fd;;
      mret status
  end.

(** The map of a single ID, in a buffer of 100 bytes. *)
Definition root_map (id : Z) : bytes := snprintf 100 (str "0 " ++ print_dec id ++ str " 1").

(** Source: book-src/namespaces/userns_child_exec.c:407-416 (update_child_maps, UID map). *)
Definition update_uid_map (opts : cmd_options) (child_pid : Z) : M S unit :=
  if bool_decide (is_Some (uid_map opts)) || create_root_mappings opts then
    let map_path := snprintf PATH_MAX (str "/proc/" ++ print_dec child_pid ++ str "/uid_map") in
    '(ruid, _, _, _) ← sys_getids;
    m ← deref (if create_root_mappings opts then Some (root_map ruid) else uid_map opts);
    r ← update_map m map_path;
    if r =? -1 then errExit strerror (str "update_map: uid_map") else mret tt
  else mret tt.

(** Source: book-src/namespaces/userns_child_exec.c:418-433 (update_child_maps, GID map). *)
Definition update_gid_map (opts : cmd_options) (child_pid : Z) : M S unit :=
  if bool_decide (is_Some (gid_map opts)) || create_root_mappings opts then
    (if deny_setgroups opts then
       r ← proc_setgroups_write child_pid (str "deny");
       if r =? -1 then errExit strerror (str "proc_setgroups_write") else mret tt
     else mret tt);;
    let map_path := snprintf PATH_MAX (str "/proc/" ++ print_dec child_pid ++ str "/gid_map") in
    '(_, _, rgid, _) ← sys_getids;
    m ← deref (if create_root_mappings opts then Some (root_map rgid) else gid_map opts);
    r ← update_map m map_path;
    if r =? -1 then errExit strerror (str "update_map: gid_map") else mret tt
  else mret tt.

(** Source: book-src/namespaces/userns_child_exec.c:396-434 (update_child_maps). *)
Definition update_child_maps (opts : cmd_options) (child_pid : Z) : M S unit :=
  update_uid_map opts child_pid;;
  update_gid_map opts child_pid.

(** ** The two processes *)

(** The child runs on its own copy of the memory; the pipe's descriptors are
    the ones it inherits. *)
(** Source: book-src/namespaces/userns_child_exec.c:361-394 (childFunc). *)
Definition childFunc (opts : cmd_options) (pipe_fd : Z * Z) : M S unit :=
  sys_close_fd (snd pipe_fd);;
  r ← call (sys_read_pipe (fst pipe_fd));
  (if bool_decide (r = Some []) then mret tt
   else
     eprintf (str "Failure in child: read from pipe returned != 0" ++ [newline]);;
     c_exit EXIT_FAILURE);;
  sys_close_fd (fst pipe_fd);;
  perform_repeatable_options 0 (opt_list opts);;
  cmd ← deref (head (co_argv opts));
  (if verbose opts then printf (str "About to exec: " ++ cmd ++ [newline]) else mret tt);;
  e ← sys_execvp (co_argv opts);
  set_errno e;;
  errExit strerror (str "execvp").

(** The parent; what the child does is the concern of sys_clone(). *)
(** Source: book-src/namespaces/userns_child_exec.c:516-587 (main). *)
Definition main (pname : bytes) (os : list (ascii * option bytes)) (operands : list bytes) : M S unit :=
  opts ← parse_command_options pname os operands;
  r ← call (sys_prctl PR_SET_DUMPABLE [1; 0; 0; 0]);
  (if r is None then errExit strerror (str "prctl-PR_SET_DUMPABLE") else mret tt);;
  p ← call sys_pipe;
  match p with
  | None => errExit strerror (str "pipe")
  | Some pipe_fd =>
      m ← call sys_mmap_stack;
      (if m is None then errExit strerror (str "mmap") else mret tt);;
      pid ← call (sys_clone (Z.lor (flags opts) SIGCHLD));
      match pid with
      | None => errExit strerror (str "clone")
      | Some child_pid =>
          (if verbose opts then
             printf (pname ++ str ": PID of child created by clone() is " ++ print_dec child_pid ++ [newline])
           else mret tt);;
          update_child_maps opts child_pid;;
          sys_close_fd (snd pipe_fd);;
          w ← call (sys_waitpid child_pid);
          (if w is None then errExit strerror (str "waitpid") else mret tt);;
          (if verbose opts then printf (pname ++ str ": terminating" ++ [newline]) else mret tt);;
          c_exit EXIT_SUCCESS
      end
  end.

(** * What the command line means *)

(** The namespace flag of a letter. *)
Definition letter_ns (c : ascii) : Z :=
  if ceq c "C" then CLONE_NEWCGROUP else if ceq c "i" then CLONE_NEWIPC
  else if ceq c "m" then CLONE_NEWNS else if ceq c "n" then CLONE_NEWNET
  else if ceq c "p" then CLONE_NEWPID else if ceq c "u" then CLONE_NEWUTS
  else if ceq c "U" then CLONE_NEWUSER else 0.
(** The last argument given for a letter. *)
Definition last_arg (c : ascii) (os : list (ascii * option bytes)) (d : option bytes) : option bytes :=
  foldl (fun acc o => if ceq o.1 c then o.2 else acc) d os.
(** The repeatable options, in order, and what is kept of them. *)
Definition repeated (os : list (ascii * option bytes)) : list option_item :=
  (fun o => OptionItem o.1 (if bool_decide (o.1 ∈ str "sxXw") then o.2 else None)) <$>
    filter (fun o => o.1 ∈ repeatable) os.
Definition accepted : bytes := str "CimnpuUMGrzDv" ++ repeatable.

Definition options_of (o : cmd_options) (os : list (ascii * option bytes)) : cmd_options :=
  CmdOptions (co_argv o) (foldl (fun z o => Z.lor z (letter_ns o.1)) (flags o) os)
    (create_root_mappings o || existsb (fun o => bool_decide (o.1 ∈ str "rz")) os)
    (deny_setgroups o && negb (existsb (fun o => ceq o.1 "D") os))
    (verbose o || existsb (fun o => ceq o.1 "v") os)
    (last_arg "M" os (uid_map o)) (last_arg "G" os (gid_map o)) (opt_list o ++ repeated os).

Lemma parse_option_run pname o c arg (s : S) :
  c ∈ accepted -> (c ∈ repeatable -> (length (opt_list o) < MAX_OPT)%nat) ->
  parse_option pname o (c, arg) s = (Done (options_of o [(c, arg)]), s).
Proof.
  intros Hc Hlen. rewrite list_elem_of_In in Hc. cbn in Hc.
  unfold options_of, last_arg, repeated. cbn [foldl fst snd].
  assert (Hn : bool_decide (c ∈ repeatable) = true -> (MAX_OPT <=? length (opt_list o))%nat = false).
  { intros Hr. apply Nat.leb_gt, Hlen. by apply bool_decide_eq_true in Hr. }
  clear Hlen.
  destruct o as [av fl cr dn vb um gm ol]. cbn [opt_list] in *.
  repeat (destruct Hc as [<-|Hc]; [unfold parse_option, with_flag;
    cbn -[MAX_OPT Nat.leb CLONE_NEWNS CLONE_NEWCGROUP CLONE_NEWUTS CLONE_NEWIPC CLONE_NEWUSER CLONE_NEWPID
      CLONE_NEWNET Z.lor]; rewrite ?(Hn eq_refl), ?app_nil_r, ?orb_false_r, ?andb_true_r, ?Z.lor_0_r, ?orb_true_r, ?andb_false_r; reflexivity|]).
  done.
Qed.

Lemma options_of_cons o x os : options_of (options_of o [x]) os = options_of o (x :: os).
Proof.
  unfold options_of, last_arg, repeated. destruct x as [c arg]. cbn [foldl existsb fst snd co_argv flags
    create_root_mappings deny_setgroups verbose uid_map gid_map opt_list].
  rewrite !orb_false_r, <- !orb_assoc, <- andb_assoc, <- negb_orb. f_equal.
  rewrite <- app_assoc, <- fmap_app. f_equal.
  rewrite !filter_cons. cbn [fst]. by destruct (decide (c ∈ repeatable)).
Qed.

(** What the loop accepts. *)
Definition options_ok (n : nat) (os : list (ascii * option bytes)) : Prop :=
  Forall (fun o => o.1 ∈ accepted) os /\ (n + length (repeated os) <= MAX_OPT)%nat.

Lemma exits_libc {A B} (msg : bytes) (k : A -> M S B) (s : S) :
  exists l, ((eprintf msg;; c_exit EXIT_FAILURE) ≫= k) s = (Exited EXIT_FAILURE, set_libc l s).
Proof. unfold eprintf, c_exit, fflush_stdout. munfold. eexists. f_equal. by rewrite set_libc_set. Qed.

Lemma repeated_cons c arg os : length (repeated ((c, arg) :: os)) =
  ((if bool_decide (c ∈ repeatable) then 1 else 0) + length (repeated os))%nat.
Proof.
  unfold repeated. rewrite filter_cons. cbn [fst].
  by destruct (decide (c ∈ repeatable)) as [Hc|Hc];
    [rewrite bool_decide_eq_true_2 by done|rewrite bool_decide_eq_false_2 by done].
Qed.

(** A letter that is not accepted, or one repeatable option too many. *)
Lemma parse_option_bad pname o c arg (s : S) {B} (k : cmd_options -> M S B) :
  c ∉ accepted \/ c ∈ repeatable /\ (MAX_OPT <= length (opt_list o))%nat ->
  exists l, (parse_option pname o (c, arg) ≫= k) s = (Exited EXIT_FAILURE, set_libc l s).
Proof.
  intros Hbad.
  assert (Hne : forall d, d ∈ str "CimnpuUMGrzDv" -> ceq c d = false).
  { intros d Hd. apply bool_decide_eq_false. intros ->. unfold accepted in Hbad.
    rewrite elem_of_app in Hbad. destruct Hbad as [Hbad|[Hr _]]; [tauto|].
    rewrite list_elem_of_In in Hd, Hr. simpl in Hd, Hr.
    repeat (destruct Hd as [<-|Hd]; [by repeat (destruct Hr as [Hr|Hr]; [done|])|]). done. }
  unfold parse_option. rewrite !Hne by (by apply (bool_decide_unpack _)). cbn [orb].
  case_bool_decide as Hr; [|apply exits_libc].
  destruct Hbad as [Hbad|[_ Hlen]]; [exfalso; apply Hbad; apply elem_of_app; by right|].
  rewrite (proj2 (Nat.leb_le _ _) Hlen). apply exits_libc.
Qed.

Lemma parse_options_run pname os o (s : S) :
  options_ok (length (opt_list o)) os -> parse_options pname o os s = (Done (options_of o os), s).
Proof.
  revert o. induction os as [|[c arg] os IH]; intros o [Hall Hlen]; cbn [parse_options].
  - unfold options_of, last_arg. cbn. rewrite !orb_false_r, andb_true_r, app_nil_r. by destruct o.
  - apply Forall_cons in Hall as [Hc Hall]. rewrite repeated_cons in Hlen.
    assert (Hrun : parse_option pname o (c, arg) s = (Done (options_of o [(c, arg)]), s)).
    { apply parse_option_run; [done|]. intros Hr. rewrite bool_decide_eq_true_2 in Hlen by done. lia. }
    rewrite (bind_done _ _ _ _ _ Hrun), IH, options_of_cons; [done|]. split; [done|].
    unfold options_of. cbn [opt_list]. rewrite length_app, repeated_cons. cbn [repeated filter]. 
    change (length (repeated [])) with 0%nat. lia.
Qed.

Lemma parse_options_bad pname os o (s : S) {B} (k : cmd_options -> M S B) :
  (length (opt_list o) <= MAX_OPT)%nat -> ~ options_ok (length (opt_list o)) os ->
  exists l, (parse_options pname o os ≫= k) s = (Exited EXIT_FAILURE, set_libc l s).
Proof.
  revert o. induction os as [|[c arg] os IH]; intros o Ho Hbad; cbn [parse_options].
  { exfalso. apply Hbad. split; [constructor|]. cbn. lia. }
  destruct (decide (c ∉ accepted \/ c ∈ repeatable /\ (MAX_OPT <= length (opt_list o))%nat)) as [Hb|Hg].
  { rewrite bind_bind. by apply parse_option_bad. }
  assert (Hc : c ∈ accepted) by (apply dec_stable; tauto).
  assert (Hrun : parse_option pname o (c, arg) s = (Done (options_of o [(c, arg)]), s)).
  { apply parse_option_run; [done|]. intros Hr. apply Nat.nle_gt. tauto. }
  rewrite bind_bind, (bind_done _ _ _ _ _ Hrun).
  assert (Hl : length (opt_list (options_of o [(c, arg)])) =
    (length (opt_list o) + if bool_decide (c ∈ repeatable) then 1 else 0)%nat).
  { unfold options_of. cbn [opt_list]. rewrite length_app, repeated_cons.
    change (length (repeated [])) with 0%nat. lia. }
  apply IH; rewrite Hl.
  - case_bool_decide; [|lia].
    destruct (decide (MAX_OPT <= length (opt_list o))%nat); [exfalso; apply Hg; by right|lia].
  - intros [Hall Hlen]. apply Hbad. split; [by constructor|]. rewrite repeated_cons. lia.
Qed.

(** The options make sense together. *)
Definition maps_ok (o : cmd_options) : Prop :=
  ((is_Some (uid_map o) \/ is_Some (gid_map o) \/ create_root_mappings o = true) ->
     has_bits (flags o) CLONE_NEWUSER = true) /\
  (create_root_mappings o = true -> uid_map o = None /\ gid_map o = None).

Lemma maps_check o :
  (((bool_decide (is_Some (uid_map o)) || bool_decide (is_Some (gid_map o)) ||
        create_root_mappings o) && negb (has_bits (flags o) CLONE_NEWUSER)) ||
      (create_root_mappings o &&
        (bool_decide (is_Some (uid_map o)) || bool_decide (is_Some (gid_map o))))) = false <-> maps_ok o.
Proof.
  unfold maps_ok.
  assert (Hs : forall x : bytes, is_Some (Some x)) by eauto.
  assert (Hn : ~ is_Some (@None bytes)) by (by intros []).
  destruct (create_root_mappings o), (uid_map o) as [u|], (gid_map o) as [g|], (has_bits _ _); simpl;
    intuition (discriminate || eauto).
  all: match goal with H : is_Some (Some _) -> _ |- _ => by specialize (H (Hs _)) end.
Qed.

(** The command line is accepted exactly when every letter is one of the
    program's (-S is not, though the usage message and the code that performs it
    have it), there are at most 100 repeatable options, a map is only given with
    -U, -r excludes -M and -G, and there is a command; what is kept is then the
    union of the namespaces asked for, the last -M and -G, and every repeatable
    option in order with its argument (but -b without). Any other command line
    ends the program with status 1. *)
Theorem parse_command_options_correct pname os operands (s : S) :
  let o := options_of (CmdOptions operands 0 false true false None None []) os in
  let ok := options_ok 0 os /\ maps_ok o /\ operands <> [] in
  (ok -> parse_command_options pname os operands s = (Done o, s)) /\
  (~ ok -> exists l, parse_command_options pname os operands s = (Exited EXIT_FAILURE, set_libc l s)).
Proof.
  cbv zeta. unfold parse_command_options.
  set (o0 := CmdOptions [] 0 false true false None None []).
  assert (Ho : forall P : cmd_options -> Prop, P (options_of (CmdOptions operands 0 false true false None None []) os) ->
    P (CmdOptions operands (flags (options_of o0 os)) (create_root_mappings (options_of o0 os))
         (deny_setgroups (options_of o0 os)) (verbose (options_of o0 os)) (uid_map (options_of o0 os))
         (gid_map (options_of o0 os)) (opt_list (options_of o0 os)))) by done.
  assert (Hm : maps_ok (options_of (CmdOptions operands 0 false true false None None []) os) <->
               maps_ok (options_of o0 os)) by done.
  split.
  - intros (Hok & Hmaps & Hne). rewrite (bind_done _ _ _ _ _ (parse_options_run pname os o0 s Hok)).
    rewrite (proj2 (maps_check _) (proj1 Hm Hmaps)), mret_bind. destruct operands; [done|].
    rewrite mret_bind. done.
  - intros Hbad. destruct (decide (options_ok 0 os)) as [Hok|Hno].
    2:{ apply (parse_options_bad pname os o0); [cbn; lia|done]. }
    rewrite (bind_done _ _ _ _ _ (parse_options_run pname os o0 s Hok)).
    destruct (_ || _) eqn:Hchk; [apply exits_libc|].
    apply maps_check in Hchk. rewrite mret_bind. destruct operands as [|x operands]; [apply exits_libc|].
    exfalso. apply Hbad. split_and!; [done|by apply Hm|done].
Qed.

(** Two of the repeatable options never work: -S ends the program with its
    usage message, and the program performs -b with a null argument, which it
    dereferences. *)
Theorem broken_options pname arg cmd (s : S) :
  (exists l, parse_command_options pname [("S"%char, arg)] [cmd] s = (Exited EXIT_FAILURE, set_libc l s)) /\
  (opts ← parse_command_options pname [("b"%char, arg)] [cmd];
   perform_repeatable_options 0 (opt_list opts)) s = (Undefined, s).
Proof.
  split; [|reflexivity]. unfold parse_command_options, parse_options.
  rewrite bind_bind. apply parse_option_bad. left. by apply (bool_decide_unpack _).
Qed.
End userns.

Lemma parse_command_options_correct_witness :
  parse_command_options (S := libc) (str "userns_child_exec")
    [("U"%char, None); ("r"%char, None); ("s"%char, Some (str "0"))] [str "bash"] libc0 =
  (Done (CmdOptions [str "bash"] CLONE_NEWUSER true true false None None
           [OptionItem "s" (Some (str "0"))]), libc0).
Proof.
  destruct (parse_command_options_correct (str "userns_child_exec")
    [("U"%char, None); ("r"%char, None); ("s"%char, Some (str "0"))] [str "bash"] libc0) as [H _].
  apply H. split_and!.
  - split; [by apply (bool_decide_unpack _)|]. apply Nat.leb_le. vm_compute. reflexivity.
  - split; [intros _; vm_compute; reflexivity|intros _; split; reflexivity].
  - discriminate.
Defined.

(** * Parent and child together *)

(** Where the parent is: before the UID map, before the GID map, before it closes
    the pipe, after that, or ended by an error. *)
(** Source: book-src/namespaces/userns_child_exec.c:568-587 (main, after clone()). *)
Inductive parent_pc := P_uid | P_gid | P_close | P_closed | P_failed.

(** Where the child is: before it closes its write end, at the read, performing
    the options and running the command, or ended. *)
(** Source: book-src/namespaces/userns_child_exec.c:374-393 (childFunc). *)
Inductive child_pc := C_close | C_read | C_run | C_failed.

(** The write ends of the pipe that are open, and the maps that are written. *)
Record sync := Sync {
  sy_parent : parent_pc;
  sy_child : child_pc;
  sy_parent_open : bool;
  sy_child_open : bool;
  sy_uid_done : bool;
  sy_gid_done : bool
}.
Definition sync0 : sync := Sync P_uid C_close true true false false.

(** A step of either; a process that ends closes its descriptors. [uid] and [gid]
    say whether the maps are to be written at all. *)
Inductive sync_step : sync -> sync -> Prop :=
| parent_uid c po co ud gd : sync_step (Sync P_uid c po co ud gd) (Sync P_gid c po co true gd)
| parent_uid_fails c po co ud gd : sync_step (Sync P_uid c po co ud gd) (Sync P_failed c false co ud gd)
| parent_gid c po co ud gd : sync_step (Sync P_gid c po co ud gd) (Sync P_close c po co ud true)
| parent_gid_fails c po co ud gd : sync_step (Sync P_gid c po co ud gd) (Sync P_failed c false co ud gd)
| parent_close c po co ud gd : sync_step (Sync P_close c po co ud gd) (Sync P_closed c false co ud gd)
| child_close p po co ud gd : sync_step (Sync p C_close po co ud gd) (Sync p C_read po false ud gd)
| child_eof p ud gd : sync_step (Sync p C_read false false ud gd) (Sync p C_run false false ud gd)
| child_read_fails p po co ud gd : sync_step (Sync p C_read po co ud gd) (Sync p C_failed po false ud gd).

Definition sync_inv (s : sync) : Prop :=
  (sy_parent s = P_gid \/ sy_parent s = P_close \/ sy_parent s = P_closed -> sy_uid_done s = true) /\
  (sy_parent s = P_close \/ sy_parent s = P_closed -> sy_gid_done s = true) /\
  (sy_parent_open s = false -> sy_parent s = P_closed \/ sy_parent s = P_failed) /\
  (sy_child s = C_run -> sy_parent_open s = false).

Lemma sync_inv_step s s' : sync_step s s' -> sync_inv s -> sync_inv s'.
Proof. unfold sync_inv. destruct 1; simpl; intuition (discriminate || eauto). Qed.

(** In every interleaving of parent and child, the child performs its options
    and runs the command only once the parent is done with both maps, or has
    failed. The second case does happen: when the parent cannot write a map it
    exits, which closes the pipe, and the child goes on without the maps. *)
Theorem child_waits_for_maps :
  (forall s, rtc sync_step sync0 s -> sy_child s = C_run ->
     sy_uid_done s = true /\ sy_gid_done s = true \/ sy_parent s = P_failed) /\
  (exists s, rtc sync_step sync0 s /\ sy_child s = C_run /\ sy_uid_done s = false).
Proof.
  split.
  - intros s Hs. assert (Hinv : sync_inv s).
    { revert Hs. assert (H0 : sync_inv sync0) by (unfold sync_inv; simpl; intuition discriminate).
      intros Hs. induction Hs as [|s1 s2 s3 Hst _ IH]; [done|]. apply IH. by eapply sync_inv_step. }
    destruct Hinv as (Hu & Hg & Hp & Hc). intros Hrun. destruct (Hp (Hc Hrun)) as [E|E]; [|by right].
    left. split; [apply Hu|apply Hg]; tauto.
  - exists (Sync P_failed C_run false false false false). split; [|done].
    eapply rtc_l; [apply child_close|]. eapply rtc_l; [apply parent_uid_fails|].
    eapply rtc_l; [apply child_eof|]. apply rtc_refl.
Qed.
