(* ===== verification/NsCapable.v ===== *)
(** book-src/namespaces/ns_capable.c: which capabilities a process has in a user
    namespace. *)
From S2P Require Import Prelude CLib Sys.
#[local] Open Scope Z_scope.

Definition CLONE_NEWUSER : Z := 0x10000000.
Definition PATH_MAX : nat := 4096.

(** Files, the ioctl() operations on namespaces, /proc/PID/status as the lines
    that fgets() gives, and libcap. *)
Class NsOS (S cap_t : Type) := {
  sys_open : bytes -> M S (sysres Z);
  sys_close : Z -> M S (sysres unit);
  sys_fstat : Z -> M S (sysres (Z * Z));            (* device and inode *)
  ns_get_nstype : Z -> M S (sysres Z);
  ns_get_userns : Z -> M S (sysres Z);
  ns_get_parent : Z -> M S (sysres Z);
  ns_get_owner_uid : Z -> M S (sysres Z);
  sys_fopen_lines : bytes -> M S (sysres (list bytes));
  cap_get_pid : Z -> M S (sysres cap_t);
  cap_to_text : cap_t -> sysres bytes
}.

(** What the kernel documents: [fd_table] gives the namespace behind each open
    descriptor; the descriptors are distinct numbers; every namespace but the
    initial one has a parent, and its device and inode identify it. *)
Class NsSpec (S cap_t : Type) `{NsOS S cap_t} `{HasLibc S} := {
  fd_table : S -> gmap Z Z;
  ns_parent : Z -> option Z;
  ns_stat : Z -> Z * Z;
  ns_stat_inj : forall x y, ns_stat x = ns_stat y -> x = y;
  libc_table : forall l s, fd_table (set_libc l s) = fd_table s;
  get_parent_spec : forall fd x s, fd_table s !! fd = Some x ->
    post (fun r s' =>
      match ns_parent x with
      | Some p => exists fd', r = SOk fd' /\ 0 <= fd' /\ fd_table s !! fd' = None /\
                    fd_table s' = <[fd' := p]> (fd_table s)
      | None => r = SErr EPERM /\ fd_table s' = fd_table s
      end) (fun _ _ => False) (ns_get_parent fd s);
  fstat_spec : forall fd x s, fd_table s !! fd = Some x ->
    post (fun r s' => r = SOk (ns_stat x) /\ fd_table s' = fd_table s)
      (fun _ _ => False) (sys_fstat fd s);
  close_spec : forall fd s,
    post (fun r s' =>
      match fd_table s !! fd with
      | Some _ => r = SOk tt /\ fd_table s' = delete fd (fd_table s)
      | None => r = SErr EBADF /\ fd_table s' = fd_table s
      end) (fun _ _ => False) (sys_close fd s)
}.

Section ns_capable.
Context {S cap_t : Type} `{HasLibc S} `{NsOS S cap_t}.
Context (strerror : Z -> bytes).

Definition call {A} (m : M S (sysres A)) : M S (option A) :=
  r ← m;
  match r with
  | SOk a => mret (Some a)
  | SErr e => set_errno e;; mret None
  end.

(** perror() and exit(). *)
(** Source: book-src/namespaces/ns_capable.c:43-44 (errExit). *)
Definition errExit {A} (msg : bytes) : M S A :=
  e ← get_errno;
  eprintf (msg ++ str ": " ++ strerror e ++ [newline]);;
  c_exit EXIT_FAILURE.

(** The result of a call that must not fail. *)
Definition checked {A} (m : M S (sysres A)) (msg : bytes) : M S A :=
  r ← call m;
  match r with
  | Some a => mret a
  | None => errExit msg
  end.

(** Source: book-src/namespaces/ns_capable.c:51-69 (display_process_capabilities). *)
Definition display_process_capabilities (pid : Z) : M S unit :=
  caps ← checked (cap_get_pid pid) (str "cap_get_proc");
  cap_string ← checked (mret (cap_to_text caps)) (str "cap_to_text");
  printf (str "Capabilities: " ++ cap_string ++ [newline]).

(** One %d or %*d conversion of scanf(): the value and what follows. *)
Definition scan_int (s : bytes) : option (Z * bytes) :=
  let r := strtol s 10 in
  if bool_decide (sl_endptr r = s) then None else Some (i32 (sl_value r), sl_endptr r).

(** sscanf(line, "Uid: %*d %d %*d %*d", &uid), for a line that starts with
    "Uid:": what is stored, if anything. *)
Definition scan_uid (line : bytes) : option Z :=
  match scan_int (skip_space (drop 4 line)) with
  | None => None
  | Some (_, rest) => fst <$> scan_int (skip_space rest)
  end.

(** The loop over the lines. *)
(** Source: book-src/namespaces/ns_capable.c:88-103 (euid_of_process, loop). *)
Fixpoint scan_status (path : bytes) (lines : list bytes) : M S Z :=
  match lines with
  | [] =>
      eprintf (str "Failure scanning for 'Uid:' in " ++ path ++ [newline]);;
      c_exit EXIT_FAILURE
  | line :: lines' =>
      if bool_decide (str "Uid:" `prefix_of` line) then deref (scan_uid line)
      else scan_status path lines'
  end.

(** Source: book-src/namespaces/ns_capable.c:74-104 (euid_of_process). *)
Definition euid_of_process (pid : Z) : M S Z :=
  let path := snprintf PATH_MAX (str "/proc/" ++ print_dec pid ++ str "/status") in
  lines ← checked (sys_fopen_lines path) (str "fopen-/proc/PID/status");
  uid ← scan_status path lines;
  mret (uid mod 2 ^ 32).

(** Source: book-src/namespaces/ns_capable.c:109-123 (ns_equal). *)
Definition ns_equal (nsfd1 nsfd2 : Z) : M S bool :=
  sb1 ← checked (sys_fstat nsfd1) (str "fstat-nsfd1");
  sb2 ← checked (sys_fstat nsfd2) (str "fstat-nsfd2");
  mret ((sb1.1 =? sb2.1) && (sb1.2 =? sb2.2)).

(** Source: book-src/namespaces/ns_capable.c:127-135 (ns_type). *)
Definition ns_type (ns_fd : Z) : M S Z := checked (ns_get_nstype ns_fd) (str "ioctl-NS_GET_NSTYPE").

(** Source: book-src/namespaces/ns_capable.c:140-148 (owning_userns_of). *)
Definition owning_userns_of (ns_fd : Z) : M S Z :=
  checked (ns_get_userns ns_fd) (str "ioctl-NS_GET_USERNS").

(** Source: book-src/namespaces/ns_capable.c:152-163 (uid_of_userns_owner). *)
Definition uid_of_userns_owner (userns_fd : Z) : M S Z :=
  checked (ns_get_owner_uid userns_fd) (str "ioctl-NS_GET_OWNER_UID").

(** Source: book-src/namespaces/ns_capable.c:186-217 (is_ancestor_userns, loop). *)
Definition ancestor_round (fd_x child : Z) : M S (Z + Z) :=
  parent ← call (ns_get_parent child);
  match parent with
  | None =>
      e ← get_errno;
      if negb (e =? EPERM) then errExit (str "ioctl-NS_GET_PARENT") else mret (inr (-1))
  | Some parent =>
      same ← ns_equal parent fd_x;
      if same : bool then call (sys_close parent);; mret (inr child)
      else call (sys_close child);; mret (inl parent)
  end.

(** Source: book-src/namespaces/ns_capable.c:174-218 (is_ancestor_userns). *)
Definition is_ancestor_userns (fuel : nat) (fd_x fd_y : Z) : M S Z :=
  iter fuel (ancestor_round fd_x) fd_y.

(** What main() says of a process in an ancestor namespace. *)
(** Source: book-src/namespaces/ns_capable.c:299-326 (main, ancestor). *)
Definition report_ancestor (pid_str : bytes) (pid desc_userns target_userns : Z) : M S unit :=
  euid ← euid_of_process pid;
  owner ← uid_of_userns_owner desc_userns;
  let is_owner_of_userns := euid =? owner in
  printf (str "PID " ++ pid_str ++ str " is in an ancestor user namespace");;
  printf ((if is_owner_of_userns then str " and its effective UID matches"
           else str ", but its effective UID does not match") ++ [newline]);;
  printf (str "the owner of the immediate child user namespace of that ancestor namespace." ++ [newline]);;
  (if is_owner_of_userns then
     printf (str "Therefore, subject to LSM checks, it has all capabilities in the target" ++ [newline] ++
             str "namespace!" ++ [newline])
   else
     printf (str "Therefore, subject to LSM checks, it has only the capabilities that are in its" ++
             [newline] ++ str "sets, which are:" ++ [newline]);;
     display_process_capabilities pid);;
  if negb (desc_userns =? target_userns) then checked (sys_close desc_userns) (str "close-desc_userns")
  else mret tt.

(** The part of main() from the comparison on. *)
(** Source: book-src/namespaces/ns_capable.c:268-335 (main, report and close). *)
Definition report (fuel : nat) (pid_str : bytes) (pid pid_userns target_userns : Z) : M S unit :=
  same ← ns_equal pid_userns target_userns;
  (if same : bool then
     printf (str "PID " ++ pid_str ++ str " is in the target namespace." ++ [newline]);;
     printf (str "Subject to LSM checks, it has the following capabilities:" ++ [newline]);;
     display_process_capabilities pid
   else
     desc_userns ← is_ancestor_userns fuel pid_userns target_userns;
     if desc_userns =? -1 then
       printf (str "PID " ++ pid_str ++ str " is not in an ancestor user namespace." ++ [newline]);;
       printf (str "Therefore, it has no capabilities in the target namespace." ++ [newline])
     else report_ancestor pid_str pid desc_userns target_userns);;
  checked (sys_close target_userns) (str "close-target_userns");;
  checked (sys_close pid_userns) (str "close-pid_userns");;
  c_exit EXIT_SUCCESS.

(** Source: book-src/namespaces/ns_capable.c:220-263 (main). *)
Definition main (fuel : nat) (argv : list bytes) : M S unit :=
  match argv with
  | [_; pid_str; ns_file] =>
      let pid := atoi pid_str in
      target_ns ← checked (sys_open ns_file) (str "open-ns-file");
      t ← ns_type target_ns;
      target_userns ← (if t =? CLONE_NEWUSER then mret target_ns
                       else
                         u ← owning_userns_of target_ns;
                         call (sys_close target_ns);; mret u);
      let path := snprintf PATH_MAX (str "/proc/" ++ pid_str ++ str "/ns/user") in
      pid_userns ← checked (sys_open path) (str "open-PID");
      report fuel pid_str pid pid_userns target_userns
  | _ =>
      eprintf (str "Usage: " ++ default [] (head argv) ++ str " PID ns-file" ++ [newline]);;
      eprintf ([ascii_of_nat 9] ++ str "'ns-file' is a /proc/PID/ns/xxxx file" ++ [newline]);;
      c_exit EXIT_FAILURE
  end.

(** * The walk through the ancestors *)

Context {HNS : NsSpec S cap_t}.

(** The ancestors of [y], nearest first, are [ps]. *)
Inductive ancestors : Z -> list Z -> Prop :=
| anc_initial y : ns_parent y = None -> ancestors y []
| anc_next y p ps : ns_parent y = Some p -> ancestors p ps -> ancestors y (p :: ps).

(** The namespace just below [x] on the way up from [y]. *)
Fixpoint below (x y : Z) (ps : list Z) : option Z :=
  match ps with
  | [] => None
  | p :: ps' => if decide (p = x) then Some y else below x p ps'
  end.

Lemma checked_post {A} (m : M S (sysres A)) msg a (P : S -> Prop) s :
  post (fun r s' => r = SOk a /\ P s') (fun _ _ => False) (m s) ->
  post (fun r s' => r = a /\ P s') (fun _ _ => False) (checked m msg s).
Proof.
  intros Hm. unfold checked, call. apply post_bind, post_bind.
  eapply post_mono; [| |exact Hm]; [|done]. by intros r s' [-> HP].
Qed.

Lemma ns_equal_spec fd1 fd2 x1 x2 s :
  fd_table s !! fd1 = Some x1 -> fd_table s !! fd2 = Some x2 ->
  post (fun r s' => r = bool_decide (x1 = x2) /\ fd_table s' = fd_table s)
    (fun _ _ => False) (ns_equal fd1 fd2 s).
Proof.
  intros H1 H2. unfold ns_equal. apply post_bind.
  eapply post_mono; [| |apply (checked_post _ _ (ns_stat x1) (fun s' => fd_table s' = fd_table s));
    by apply fstat_spec]; [|done].
  intros r1 s1 [-> E1]. apply post_bind.
  eapply post_mono; [| |apply (checked_post _ _ (ns_stat x2) (fun s' => fd_table s' = fd_table s1));
    apply fstat_spec; by rewrite E1]; [|done].
  intros r2 s2 [-> E2]. cbn [post mret M_ret]. split; [|congruence].
  destruct (bool_decide_reflect (x1 = x2)) as [->|Hne]; [by rewrite !Z.eqb_refl|].
  destruct (ns_stat x1) as [d1 i1] eqn:Es1, (ns_stat x2) as [d2 i2] eqn:Es2. cbn [fst snd].
  destruct (Z.eqb_spec d1 d2) as [->|]; [|done]. destruct (Z.eqb_spec i1 i2) as [->|]; [|done].
  exfalso. apply Hne, ns_stat_inj. congruence.
Qed.

Lemma call_close_spec fd x s : fd_table s !! fd = Some x ->
  post (fun _ s' => fd_table s' = delete fd (fd_table s)) (fun _ _ => False) (call (sys_close fd) s).
Proof.
  intros Hfd. unfold call. apply post_bind. eapply post_mono; [| |apply (close_spec fd s)]; [|done].
  intros r s' Hr. rewrite Hfd in Hr. by destruct Hr as [-> Ht].
Qed.

Lemma ancestor_loop x ps y fd_x child fuel s :
  ancestors y ps -> (length ps < fuel)%nat ->
  fd_table s !! fd_x = Some x -> fd_table s !! child = Some y -> fd_x <> child -> 0 <= child ->
  post (fun r s' => fd_table s' !! fd_x = Some x /\
    match below x y ps with
    | Some z => 0 <= r /\ r <> fd_x /\ fd_table s' !! r = Some z
    | None => r = -1 /\ (ps = [] -> fd_table s' = fd_table s) /\
              (length ps = 1%nat -> fd_table s' !! child = None)
    end) (fun _ _ => False) (iter fuel (ancestor_round fd_x) child s).
Proof.
  intros Hanc. revert fuel child s. induction Hanc as [y Hp|y p ps Hp Hanc IH];
    intros [|fuel] child s Hf Hx Hy Hne Hpos; simpl in Hf; try lia; cbn [iter]; apply post_bind;
    unfold ancestor_round; apply post_bind; unfold call at 1; apply post_bind;
    (eapply post_mono; [| |apply (get_parent_spec child y s Hy)]; [|done]); rewrite Hp.
  - intros r s1 [-> Ht]. unfold set_errno, get_errno. munfold. cbn [post].
    rewrite libc_of_set. cbn. rewrite libc_table, Ht. split_and!; done.
  - intros r s1 (fd' & -> & Hfd' & Hfree & Ht). cbn [post mret M_ret]. apply post_bind.
    assert (Hne' : fd' <> fd_x) by (intros ->; congruence).
    assert (Hne2 : fd' <> child) by (intros ->; congruence).
    assert (Hx1 : fd_table s1 !! fd_x = Some x) by (by rewrite Ht, lookup_insert_ne).
    assert (Hp1 : fd_table s1 !! fd' = Some p) by (by rewrite Ht, lookup_insert_eq).
    assert (Hy1 : fd_table s1 !! child = Some y) by (by rewrite Ht, lookup_insert_ne).
    eapply post_mono; [| |apply (ns_equal_spec fd' fd_x p x s1 Hp1 Hx1)]; [|done].
    intros same s2 [-> Ht2]. cbn [below].
    destruct (bool_decide_reflect (p = x)) as [->|Hpx].
    + rewrite decide_True by done. apply post_bind.
      eapply post_mono; [| |apply (call_close_spec fd' x s2)]; [|done|by rewrite Ht2].
      intros ? s3 Ht3. cbn [post mret M_ret]. rewrite Ht3, Ht2, !lookup_delete_ne by done. done.
    + rewrite decide_False by done. apply post_bind.
      eapply post_mono; [| |apply (call_close_spec child y s2)]; [|done|by rewrite Ht2].
      intros ? s3 Ht3. cbn [post mret M_ret]. 
      eapply post_mono; [| |apply (IH fuel fd' s3)]; [|done|lia| | |congruence|done];
        [|by rewrite Ht3, Ht2, lookup_delete_ne..].
      intros r s' [Hx' Hr]. split; [done|]. destruct (below x p ps); [done|].
      destruct Hr as (-> & Hnil & _). split_and!; [done|done|]. intros Hl.
      rewrite Hnil by (destruct ps; done). by rewrite Ht3, lookup_delete_eq.
Qed.

(** is_ancestor_userns() always returns, and gives -1 exactly when the
    namespace behind [fd_x] is not among the ancestors of the one behind [fd_y];
    otherwise the result is an open descriptor of the namespace just below it in
    the chain of parents. [fd_x] stays open. *)
Theorem is_ancestor_userns_correct x y ps fd_x fd_y fuel s :
  ancestors y ps -> (length ps < fuel)%nat ->
  fd_table s !! fd_x = Some x -> fd_table s !! fd_y = Some y -> fd_x <> fd_y -> 0 <= fd_y ->
  post (fun r s' => fd_table s' !! fd_x = Some x /\ (r = -1 <-> x ∉ ps) /\
      (forall z, below x y ps = Some z -> 0 <= r /\ fd_table s' !! r = Some z))
    (fun _ _ => False) (is_ancestor_userns fuel fd_x fd_y s).
Proof.
  intros Hanc Hf Hx Hy Hne Hpos.
  assert (Hin : below x y ps = None <-> x ∉ ps).
  { clear. revert y. induction ps as [|p ps IH]; intros y; cbn [below].
    - split; [intros _; apply not_elem_of_nil|done].
    - rewrite not_elem_of_cons. destruct (decide (p = x)) as [->|Hpx]; [split; [done|tauto]|].
      rewrite IH. split; [intros; split; [congruence|done]|tauto]. }
  eapply post_mono; [| |apply (ancestor_loop x ps y fd_x fd_y fuel s Hanc Hf Hx Hy Hne Hpos)]; [|done].
  intros r s' [Hx' Hr]. split; [done|]. destruct (below x y ps) as [z|].
  - destruct Hr as (Hr0 & _ & Hz). split; [|by intros ? [= <-]].
    split; [lia|]. intros Hn. by apply Hin in Hn.
  - destruct Hr as [-> _]. split; [|done]. split; [intros _; by apply Hin|done].
Qed.

(** Output leaves the table alone. *)
Lemma printf_table t s : exists s', printf t s = (Done tt, s') /\ fd_table s' = fd_table s.
Proof. unfold printf. munfold. eexists. split; [done|]. apply libc_table. Qed.

Lemma checked_close_bad fd msg s : fd_table s !! fd = None ->
  post (fun _ _ => False) (fun e _ => e = EExit EXIT_FAILURE) (checked (sys_close fd) msg s).
Proof.
  intros Hfd. unfold checked, call. apply post_bind, post_bind.
  eapply post_mono; [| |apply (close_spec fd s)]; [|done]. rewrite Hfd. intros r s' [-> _].
  unfold set_errno, errExit, get_errno, eprintf, c_exit, fflush_stdout. by munfold.
Qed.

(** A failure that is not one: when the target's user namespace is a child of
    the initial one and the process is in neither, so that it has no capabilities
    there, the program says so and then fails, because the walk through the
    ancestors closed the descriptor that main() closes at the end. *)
Theorem report_spurious_failure x y p fd_x fd_y fuel pid_str pid s :
  ns_parent y = Some p -> ns_parent p = None -> x <> y -> x <> p -> (2 <= fuel)%nat ->
  fd_table s !! fd_x = Some x -> fd_table s !! fd_y = Some y -> 0 <= fd_y ->
  post (fun _ _ => False) (fun e _ => e = EExit EXIT_FAILURE) (report fuel pid_str pid fd_x fd_y s).
Proof.
  intros Hyp Hpi Hxy Hxp Hfuel Hx Hy Hpos. unfold report. apply post_bind.
  eapply post_mono; [| |apply (ns_equal_spec fd_x fd_y x y s Hx Hy)]; [|done].
  intros same s1 [-> Ht1]. rewrite bool_decide_eq_false_2 by done. apply post_bind, post_bind.
  assert (Hanc : ancestors y [p]) by (eapply anc_next; [done|by apply anc_initial]).
  assert (Hne : fd_x <> fd_y) by (intros ->; congruence).
  eapply post_mono; [| |apply (ancestor_loop x [p] y fd_x fd_y fuel s1 Hanc)]; [|done|simpl; lia|by rewrite Ht1..|done|done].
  cbn [below]. rewrite decide_False by done. intros r s2 [_ (-> & _ & Hclosed)].
  change (-1 =? -1) with true. cbv iota.
  destruct (printf_table (str "PID " ++ pid_str ++ str " is not in an ancestor user namespace." ++ [newline]) s2)
    as (s3 & E3 & Ht3).
  rewrite (bind_done _ _ _ _ _ E3).
  destruct (printf_table (str "Therefore, it has no capabilities in the target namespace." ++ [newline]) s3)
    as (s4 & E4 & Ht4).
  rewrite E4. cbn [post]. apply post_bind.
  eapply post_mono; [| |apply checked_close_bad]; [done|done|]. rewrite Ht4, Ht3. by apply Hclosed.
Qed.
End ns_capable.

(** * A kernel *)

(** User namespaces 1 (the initial one), 2 and 4 below it, and 3 below 2. *)
Definition parent0 (x : Z) : option Z :=
  if x =? 2 then Some 1 else if x =? 3 then Some 2 else if x =? 4 then Some 1 else None.

Definition ns_state : Type := libc * gmap Z Z.

(** A descriptor above all those in use. *)
Definition new_fd (t : gmap Z Z) : Z := map_fold (fun fd _ m => Z.max fd m) 2 t + 1.

Lemma new_fd_fresh t : 0 <= new_fd t /\ t !! new_fd t = None.
Proof.
  assert (Hb : 2 <= map_fold (fun fd _ m => Z.max fd m) 2 t /\
    forall fd x, t !! fd = Some x -> fd <= map_fold (fun fd _ m => Z.max fd m) 2 t).
  { apply (map_fold_weak_ind (fun m t => 2 <= m /\ forall fd x, t !! fd = Some x -> fd <= m)).
    - split; [lia|]. intros fd x. by rewrite lookup_empty.
    - intros i x m r Hi [Hr Hall]. split; [lia|]. intros fd y.
      destruct (decide (i = fd)) as [->|Hne]; [intros; lia|].
      rewrite lookup_insert_ne by done. intros Hl. apply Hall in Hl. lia. }
  destruct Hb as [H2 Hall]. unfold new_fd. split; [lia|].
  destruct (t !! _) eqn:E; [|done]. apply Hall in E. lia.
Qed.

#[export] Instance ns_state_os : NsOS ns_state unit := {
  sys_open p := mret (SErr ENOENT);
  sys_close fd := fun s =>
    match s.2 !! fd with
    | Some _ => (Done (SOk tt), (s.1, delete fd s.2))
    | None => (Done (SErr EBADF), s)
    end;
  sys_fstat fd := gets (fun s : ns_state =>
    match s.2 !! fd with Some x => SOk (4, x) | None => SErr EBADF end);
  ns_get_nstype fd := mret (SOk CLONE_NEWUSER);
  ns_get_userns fd := mret (SErr EPERM);
  ns_get_parent fd := fun s =>
    match s.2 !! fd with
    | None => (Done (SErr EBADF), s)
    | Some x =>
        match parent0 x with
        | Some p => (Done (SOk (new_fd s.2)), (s.1, <[new_fd s.2 := p]> s.2))
        | None => (Done (SErr EPERM), s)
        end
    end;
  ns_get_owner_uid fd := mret (SOk 1000);
  sys_fopen_lines p := mret (SOk [str "Name: sh"; str "Uid: 1000 1000 1000 1000"]);
  cap_get_pid pid := mret (SOk tt);
  cap_to_text c := SOk (str "=")
}.

#[export, refine] Instance ns_state_spec : NsSpec ns_state unit :=
  {| fd_table := snd; ns_parent := parent0; ns_stat x := (4, x) |}.
Proof.
  - by intros x y [= ->].
  - by intros l [l' t].
  - intros fd x [l t] Hfd. simpl in *. rewrite Hfd. destruct (parent0 x); simpl; [|done].
    destruct (new_fd_fresh t). eauto.
  - intros fd x [l t] Hfd. simpl in *. by rewrite Hfd.
  - intros fd [l t]. simpl. by destruct (t !! fd) eqn:E; simpl; rewrite ?E.
Defined.

(** The process is in namespace 4, the target is 2 (descriptor 3); with
    namespace 3 behind descriptor 5. *)
Definition ns_state0 : ns_state := (libc0, <[3 := 2]> (<[4 := 4]> {[ 5 := 3 ]})).

Lemma is_ancestor_userns_correct_witness :
  post (fun r s' => r = -1) (fun _ _ => False)
    (is_ancestor_userns (S := ns_state) (cap_t := unit) (fun _ => []) 5 4 5 ns_state0).
Proof.
  assert (Hanc : ancestors 3 [2; 1]).
  { apply anc_next; [reflexivity|]. apply anc_next; [reflexivity|]. by apply anc_initial. }
  eapply post_mono; [| |apply (is_ancestor_userns_correct (fun _ => []) 4 3 [2; 1] 4 5 5 ns_state0 Hanc)];
    [|done|simpl; lia|reflexivity|reflexivity|lia|lia].
  intros r s' (_ & Hr & _). apply Hr. by apply (bool_decide_unpack _).
Defined.

Lemma report_spurious_failure_witness :
  post (fun _ _ => False) (fun e _ => e = EExit EXIT_FAILURE)
    (report (S := ns_state) (cap_t := unit) (fun _ => []) 5 (str "77") 77 4 3 ns_state0).
Proof.
  apply (report_spurious_failure (fun _ => []) 4 2 1 4 3 5 (str "77") 77 ns_state0);
    try reflexivity; lia.
Defined.
