(* ===== verification/Formats.v ===== *)
(** Small codecs of book-src: permission strings (files/file_perms.c), process
    accounting numbers (procexec/acct_v3_view.c), wait statuses
    (procexec/print_wait_status.c), timer specifications
    (timers/itimerspec_from_str.c), user and group names
    (users_groups/ugid_functions.c) and terminal modes (tty/tty_functions.c). *)
From S2P Require Import Prelude CLib Sys.
#[local] Open Scope Z_scope.

(** * files/file_perms.c *)

Module FilePerms.

Definition S_ISUID : Z := 0x800.
Definition S_ISGID : Z := 0x400.
Definition S_ISVTX : Z := 0x200.
Definition S_IRUSR : Z := 0x100.
Definition S_IWUSR : Z := 0x80.
Definition S_IXUSR : Z := 0x40.
Definition S_IRGRP : Z := 0x20.
Definition S_IWGRP : Z := 0x10.
Definition S_IXGRP : Z := 0x8.
Definition S_IROTH : Z := 0x4.
Definition S_IWOTH : Z := 0x2.
Definition S_IXOTH : Z := 0x1.

(** Source: book-src/files/file_perms.h:22-23 (FP_SPECIAL). *)
Definition FP_SPECIAL : Z := 1.

(** The string is in a static array, which the next call overwrites. *)
(** Source: book-src/files/file_perms.c:23-49 (filePermStr). *)
Definition filePermStr (perm flags : Z) : bytes :=
  let pick bit c := if has_bits perm bit then c else "-"%char in
  let exec bit special on off :=
    if has_bits perm bit then
      (if has_bits perm special && has_bits flags FP_SPECIAL then on else "x"%char)
    else (if has_bits perm special && has_bits flags FP_SPECIAL then off else "-"%char) in
  [pick S_IRUSR "r"%char; pick S_IWUSR "w"%char; exec S_IXUSR S_ISUID "s"%char "S"%char;
   pick S_IRGRP "r"%char; pick S_IWGRP "w"%char; exec S_IXGRP S_ISGID "s"%char "S"%char;
   pick S_IROTH "r"%char; pick S_IWOTH "w"%char; exec S_IXOTH S_ISVTX "t"%char "T"%char].

(** Reading such a string back, as a person does. *)
Definition bit_of (b : bool) (v : Z) : Z := if b then v else 0.
Definition read_exec (c on off : ascii) (x special : Z) : Z :=
  if ceq c on then x + special else if ceq c off then special else if ceq c "x" then x else 0.
Definition permOfStr (s : bytes) : Z :=
  match s with
  | [a; b; c; d; e; f; g; h; i] =>
      bit_of (ceq a "r") S_IRUSR + bit_of (ceq b "w") S_IWUSR + read_exec c "s" "S" S_IXUSR S_ISUID +
      bit_of (ceq d "r") S_IRGRP + bit_of (ceq e "w") S_IWGRP + read_exec f "s" "S" S_IXGRP S_ISGID +
      bit_of (ceq g "r") S_IROTH + bit_of (ceq h "w") S_IWOTH + read_exec i "t" "T" S_IXOTH S_ISVTX
  | _ => -1
  end.

(** Only the low twelve bits matter. *)
Lemma has_bits_low perm bit : Z.land bit 4095 = bit -> has_bits perm bit = has_bits (Z.land perm 4095) bit.
Proof. intros Hb. unfold has_bits. by rewrite <- Z.land_assoc, (Z.land_comm 4095), Hb. Qed.

Lemma filePermStr_low perm flags : filePermStr perm flags = filePermStr (Z.land perm 4095) flags.
Proof.
  unfold filePermStr.
  rewrite !(has_bits_low perm S_IRUSR), !(has_bits_low perm S_IWUSR), !(has_bits_low perm S_IXUSR),
    !(has_bits_low perm S_ISUID), !(has_bits_low perm S_IRGRP), !(has_bits_low perm S_IWGRP),
    !(has_bits_low perm S_IXGRP), !(has_bits_low perm S_ISGID), !(has_bits_low perm S_IROTH),
    !(has_bits_low perm S_IWOTH), !(has_bits_low perm S_IXOTH), !(has_bits_low perm S_ISVTX) by reflexivity.
  done.
Qed.

Lemma filePermStr_flags perm flags :
  filePermStr perm flags = filePermStr perm (if has_bits flags FP_SPECIAL then 1 else 0).
Proof. unfold filePermStr. by destruct (has_bits flags FP_SPECIAL). Qed.

Definition upto (n : nat) : list Z := Z.of_nat <$> seq 0 n.
Lemma upto_spec n z : 0 <= z < Z.of_nat n -> z ∈ upto n.
Proof.
  intros Hz. apply list_elem_of_fmap. exists (Z.to_nat z). split; [lia|]. apply elem_of_seq. lia.
Qed.

Lemma all_perms_back :
  forallb (fun p => (permOfStr (filePermStr p 1) =? p) && (permOfStr (filePermStr p 0) =? Z.land p 511))
    (upto 4096) = true.
Proof. vm_compute. reflexivity. Qed.

(** FilePermStr() loses nothing: with FP_SPECIAL, all twelve permission bits of
    any mode can be read back from the string (so different permissions give
    different strings); without it the nine rwx bits can. *)
Theorem filePermStr_roundtrip perm flags :
  permOfStr (filePermStr perm flags) =
  Z.land perm (if has_bits flags FP_SPECIAL then 4095 else 511).
Proof.
  rewrite filePermStr_low, filePermStr_flags.
  assert (Hin : Z.land perm 4095 ∈ upto 4096).
  { apply upto_spec. change 4095 with (Z.ones 12). rewrite Z.land_ones by lia.
    change (Z.of_nat 4096) with (2 ^ 12). apply Z.mod_pos_bound. lia. }
  pose proof all_perms_back as Hall. rewrite forallb_forall in Hall.
  apply list_elem_of_In in Hin. specialize (Hall _ Hin). apply andb_true_iff in Hall as [H1 H0].
  destruct (has_bits flags FP_SPECIAL); [lia|]. apply Z.eqb_eq in H0. rewrite H0.
  by rewrite <- Z.land_assoc.
Qed.
End FilePerms.

(** * procexec/acct_v3_view.c *)

Module Acct.

(** Source: book-src/procexec/acct_v3_view.c:64-75 (comptToLL). *)
Definition comptToLL (ct : Z) : Z :=
  let EXP_SIZE := 3 in
  let MANTISSA_SIZE := 13 in
  let MANTISSA_MASK := Z.shiftl 1 MANTISSA_SIZE - 1 in
  let mantissa := Z.land ct MANTISSA_MASK in
  let exp := Z.land (Z.shiftr ct MANTISSA_SIZE) (Z.shiftl 1 EXP_SIZE - 1) in
  Z.shiftl mantissa (exp * 3).

(** comptToLL() decodes the accounting format: a number of 13 bits times a power
    of eight of 3 bits; the result is below 2^34, so nothing is lost in a long long. *)
Theorem comptToLL_correct m e : 0 <= m < 2 ^ 13 -> 0 <= e < 8 ->
  comptToLL (e * 2 ^ 13 + m) = m * 8 ^ e /\ 0 <= comptToLL (e * 2 ^ 13 + m) < 2 ^ 34.
Proof.
  intros Hm He.
  assert (E : comptToLL (e * 2 ^ 13 + m) = m * 8 ^ e).
  { unfold comptToLL. change (Z.shiftl 1 13 - 1) with (Z.ones 13). change (Z.shiftl 1 3 - 1) with (Z.ones 3).
    cbv zeta. rewrite !Z.land_ones, Z.shiftr_div_pow2 by lia.
    rewrite (Z.add_comm (_ * _) m), Z.mod_add, Z.div_add by done.
    rewrite (Z.div_small m), (Z.mod_small m), Z.add_0_l, (Z.mod_small e), Z.shiftl_mul_pow2 by lia.
    by rewrite (Z.mul_comm e 3), Z.pow_mul_r by lia. }
  split; [done|]. rewrite E. assert (0 < 8 ^ e <= 8 ^ 7) by (split; [apply Z.pow_pos_nonneg; lia|apply Z.pow_le_mono_r; lia]).
  change (2 ^ 34) with (2 ^ 13 * 8 ^ 7). nia.
Qed.

Lemma comptToLL_correct_witness : comptToLL (3 * 2 ^ 13 + 5) = 5 * 8 ^ 3.
Proof. apply comptToLL_correct; lia. Defined.
End Acct.

(** * procexec/print_wait_status.c *)

Module WaitStatus.

(** The macros of <sys/wait.h>. *)
Definition WEXITSTATUS (status : Z) : Z := Z.shiftr (Z.land status 0xff00) 8.
Definition WTERMSIG (status : Z) : Z := Z.land status 0x7f.
Definition WSTOPSIG (status : Z) : Z := WEXITSTATUS status.
Definition WIFEXITED (status : Z) : bool := WTERMSIG status =? 0.
Definition WIFSIGNALED (status : Z) : bool := 0 <? Z.shiftr (wrap_s 8 (Z.land status 0x7f + 1)) 1.
Definition WIFSTOPPED (status : Z) : bool := Z.land status 0xff =? 0x7f.
Definition WIFCONTINUED (status : Z) : bool := status =? 0xffff.
Definition WCOREDUMP (status : Z) : bool := has_bits status 0x80.

(** printf("%x") of a number below 2^32. *)
Definition hex_digit (d : Z) : ascii := if d <? 10 then digit_char d else chr (Z.to_nat (87 + d)).
Fixpoint hex_digits (fuel : nat) (n : Z) : bytes :=
  match fuel with
  | O => []
  | S fuel' => if n <? 16 then [hex_digit n] else hex_digits fuel' (n / 16) ++ [hex_digit (n mod 16)]
  end.

(** What can happen to a child, and the status the kernel reports for it. *)
Inductive fate := Ended (code : Z) | Killed (sig : Z) (core : bool) | Stopped (sig : Z) | Continued.
Definition fate_ok (f : fate) : Prop :=
  match f with
  | Ended c => 0 <= c < 256
  | Killed s _ => 1 <= s < 127
  | Stopped s => 1 <= s < 256
  | Continued => True
  end.
Definition encode (f : fate) : Z :=
  match f with
  | Ended c => c * 256
  | Killed s core => s + (if core then 128 else 0)
  | Stopped s => s * 256 + 127
  | Continued => 0xffff
  end.
Definition report (strsignal : Z -> bytes) (f : fate) : bytes :=
  match f with
  | Ended c => str "child exited, status=" ++ print_dec c
  | Killed s core => str "child killed by signal " ++ print_dec s ++ str " (" ++ strsignal s ++ str ")" ++
                     (if core then str " (core dumped)" else [])
  | Stopped s => str "child stopped by signal " ++ print_dec s ++ str " (" ++ strsignal s ++ str ")"
  | Continued => str "child continued"
  end.
Section print.
Context {St : Type} `{HasLibc St}.
(** The names of signals, which depend on the locale. *)
Context (strsignal : Z -> bytes).

(** Source: book-src/procexec/print_wait_status.c:29-61 (printWaitStatus). *)
Definition printWaitStatus (msg : option bytes) (status : Z) : M St unit :=
  match msg with Some m => printf m | None => mret tt end;;
  if WIFEXITED status then
    printf (str "child exited, status=" ++ print_dec (WEXITSTATUS status) ++ [newline])
  else if WIFSIGNALED status then
    printf (str "child killed by signal " ++ print_dec (WTERMSIG status) ++ str " (" ++
            strsignal (WTERMSIG status) ++ str ")");;
    when (WCOREDUMP status) (printf (str " (core dumped)"));;
    printf [newline]
  else if WIFSTOPPED status then
    printf (str "child stopped by signal " ++ print_dec (WSTOPSIG status) ++ str " (" ++
            strsignal (WSTOPSIG status) ++ str ")" ++ [newline])
  else if WIFCONTINUED status then
    printf (str "child continued" ++ [newline])
  else
    printf (str "what happened to this child? (status=" ++ hex_digits 8 (u32 status) ++ str ")" ++ [newline]).

End print.

(** What the macros make of a status. *)
Definition seen (status : Z) : option fate :=
  if WIFEXITED status then Some (Ended (WEXITSTATUS status))
  else if WIFSIGNALED status then Some (Killed (WTERMSIG status) (WCOREDUMP status))
  else if WIFSTOPPED status then Some (Stopped (WSTOPSIG status))
  else if WIFCONTINUED status then Some Continued
  else None.

#[local] Instance fate_eq_dec : EqDecision fate.
Proof. solve_decision. Defined.

Lemma seen_all :
  forallb (fun c => bool_decide (seen (encode (Ended c)) = Some (Ended c))) (FilePerms.upto 256) &&
  forallb (fun c => bool_decide (seen (encode (Killed (c + 1) true)) = Some (Killed (c + 1) true)) &&
                    bool_decide (seen (encode (Killed (c + 1) false)) = Some (Killed (c + 1) false)))
    (FilePerms.upto 126) &&
  forallb (fun c => bool_decide (seen (encode (Stopped (c + 1))) = Some (Stopped (c + 1)))) (FilePerms.upto 255) = true.
Proof. vm_compute. reflexivity. Qed.

Lemma forallb_upto (f : Z -> bool) n z : forallb f (FilePerms.upto n) = true -> 0 <= z < Z.of_nat n -> f z = true.
Proof.
  intros Hall Hz. rewrite forallb_forall in Hall. apply Hall, list_elem_of_In.
  by apply FilePerms.upto_spec.
Qed.

Lemma seen_encode f : fate_ok f -> seen (encode f) = Some f.
Proof.
  pose proof seen_all as Hall. rewrite !andb_true_iff in Hall. destruct Hall as [[He Hk] Hs].
  destruct f as [c|s core|s|]; simpl; intros Hok.
  - apply (forallb_upto _ _ c) in He; [|lia]. by apply bool_decide_eq_true in He.
  - apply (forallb_upto _ _ (s - 1)) in Hk; [|lia]. cbv beta in Hk. rewrite Z.sub_add in Hk.
    apply andb_true_iff in Hk as [Ht Hf]. rewrite bool_decide_eq_true in Ht, Hf. by destruct core.
  - apply (forallb_upto _ _ (s - 1)) in Hs; [|lia]. cbv beta in Hs. rewrite Z.sub_add in Hs.
    by apply bool_decide_eq_true in Hs.
  - reflexivity.
Qed.

Section printed.
Context {St : Type} `{HasLibc St} (strsignal : Z -> bytes).

Lemma printf_twice {A} a b (k : M St A) (s : St) : (printf a;; printf b;; k) s = (printf (a ++ b);; k) s.
Proof.
  unfold printf, modify, mbind, M_bind. rewrite !libc_of_set, set_libc_set. simpl. by rewrite app_assoc.
Qed.
Lemma printf_two a b (s : St) : (printf a;; printf b) s = printf (a ++ b) s.
Proof. exact (printf_twice a b (mret tt) s). Qed.

Lemma printf_nil (s : St) : printf [] s = (Done tt, s).
Proof.
  unfold printf, modify. rewrite app_nil_r.
  replace (Libc _ _ _ _) with (libc_of s) by (by destruct (libc_of s)). by rewrite set_libc_of.
Qed.
Lemma print_opt {A} msg (k : M St A) (s : St) :
  ((match msg with Some m => printf m | None => mret tt end);; k) s = (printf (default [] msg);; k) s.
Proof. destruct msg; [done|]. simpl. by rewrite (bind_done _ _ _ _ _ (printf_nil s)). Qed.

(** PrintWaitStatus() says what happened to the child: for the status of every
    exit, death by a signal (with or without a core dump), stop and resumption it
    prints the optional message and one line with the exit status or the signal;
    its last branch is never taken. *)
Theorem printWaitStatus_correct msg f (s : St) : fate_ok f ->
  printWaitStatus strsignal msg (encode f) s =
  printf (default [] msg ++ report strsignal f ++ [newline]) s.
Proof.
  intros Hf. pose proof (seen_encode f Hf) as Hs. unfold seen in Hs. unfold printWaitStatus.
  generalize dependent (encode f). intros status Hs. rewrite print_opt.
  repeat case_match; simplify_eq; unfold report, when;
    rewrite ?printf_twice; [by rewrite printf_two, <- !app_assoc| |by rewrite printf_two, <- !app_assoc|
    by rewrite printf_two].
  assert (Hn : forall a, (printf a;; mret tt;; printf [newline]) s = printf (a ++ [newline]) s)
    by (intros; apply printf_two).
  destruct (WCOREDUMP status); rewrite ?printf_twice, ?Hn, ?printf_two, <- !app_assoc; reflexivity.
Qed.
End printed.

Lemma printWaitStatus_correct_witness :
  fate_ok (Killed 11 true) /\
  lc_pending (printWaitStatus (fun _ => str "Segmentation fault") (Some (str "x: ")) (encode (Killed 11 true)) libc0).2
  = str "x: child killed by signal 11 (Segmentation fault) (core dumped)" ++ [newline].
Proof.
  split; [simpl; lia|]. rewrite (printWaitStatus_correct (fun _ => str "Segmentation fault") _ (Killed 11 true) libc0).
  - reflexivity.
  - simpl; lia.
Defined.
End WaitStatus.

(** * timers/itimerspec_from_str.c *)

Module TimerSpec.

Record itimerspec := ItimerSpec {
  value_sec : Z; value_nsec : Z; interval_sec : Z; interval_nsec : Z
}.

(** The part before ':' or '/' once a NUL has been stored there. *)
Definition cut (s : bytes) (at_ : option nat) : bytes :=
  match at_ with Some i => take i s | None => s end.

(** [dup] is what strdup() returned; nobody looks whether it is NULL. *)
(** Source: book-src/timers/itimerspec_from_str.c:28-57 (itimerspecFromStr). *)
Definition itimerspecFromStr (dup : option bytes) : outcome itimerspec :=
  match dup with
  | None => Undefined
  | Some dupstr =>
      let cptr := strchr dupstr ":" in
      let first := cut dupstr cptr in
      let sptr := strchr first "/" in
      let vsec := atoi (cut first sptr) in
      let vnsec := match sptr with Some i => atoi (drop (S i) first) | None => 0 end in
      match cptr with
      | None => Done (ItimerSpec vsec vnsec 0 0)
      | Some c =>
          let second := drop (S c) dupstr in
          let sptr := strchr second "/" in
          Done (ItimerSpec vsec vnsec (atoi (cut second sptr))
                 (match sptr with Some i => atoi (drop (S i) second) | None => 0 end))
      end
  end.

(** The form that the comment of the function describes:
    value.sec[/value.nanosec][:interval.sec[/interval.nanosec]]. *)
Definition show_time (t : Z * option Z) : bytes :=
  print_dec t.1 ++ match t.2 with Some n => "/"%char :: print_dec n | None => [] end.
Definition show_spec (v : Z * option Z) (i : option (Z * option Z)) : bytes :=
  show_time v ++ match i with Some i => ":"%char :: show_time i | None => [] end.
Definition spec_of (v : Z * option Z) (i : option (Z * option Z)) : itimerspec :=
  ItimerSpec v.1 (default 0 v.2) (default 0 (fst <$> i)) (default 0 (i ≫= snd)).
Definition int_time (t : Z * option Z) : Prop :=
  INT_MIN <= t.1 <= INT_MAX /\ INT_MIN <= default 0 t.2 <= INT_MAX.

(** A printed number holds digits and a sign only. *)
Lemma print_dec_chars z c : c ∈ print_dec z -> isdigit c = true \/ c = "-"%char.
Proof.
  unfold print_dec. destruct (Z.ltb_spec z 0).
  - rewrite elem_of_cons. intros [->|Hc]; [by right|]. left.
    apply (Forall_forall (fun c => isdigit c = true) (print_nonneg (- z))); [apply print_nonneg_digits; lia|done].
  - intros Hc. left.
    apply (Forall_forall (fun c => isdigit c = true) (print_nonneg z)); [apply print_nonneg_digits; lia|done].
Qed.

Lemma print_dec_no z c : isdigit c = false -> c <> "-"%char -> c ∉ print_dec z.
Proof. intros Hd Hm Hc. destruct (print_dec_chars z c Hc); congruence. Qed.

Lemma atoi_print_all z : INT_MIN <= z <= INT_MAX -> atoi (print_dec z) = z.
Proof. intros Hz. pose proof (atoi_print z [] Hz I) as H. by rewrite app_nil_r in H. Qed.

Lemma cut_sep c (a b : bytes) : cut (a ++ c :: b) (Some (length a)) = a.
Proof. apply take_app_length. Qed.

Lemma time_back t : int_time t ->
  atoi (cut (show_time t) (strchr (show_time t) "/")) = t.1 /\
  match strchr (show_time t) "/" with Some i => atoi (drop (S i) (show_time t)) | None => 0 end = default 0 t.2.
Proof.
  destruct t as [z [n|]]; intros [Hz Hn]; unfold show_time; simpl in *.
  - rewrite strchr_sep, drop_sep by (done || by apply print_dec_no). unfold cut.
    rewrite take_app_length, !atoi_print_all by done. done.
  - rewrite app_nil_r, strchr_absent by (done || by apply print_dec_no). unfold cut.
    by rewrite atoi_print_all.
Qed.

Lemma show_time_no_colon t : ":"%char ∉ show_time t.
Proof.
  destruct t as [z [n|]]; unfold show_time; simpl; rewrite elem_of_app.
  - rewrite elem_of_cons. intros [H|[H|H]]; [|done|]; by apply print_dec_no in H.
  - intros [H|H]; [by apply print_dec_no in H|by apply not_elem_of_nil in H].
Qed.

(** ItimerspecFromStr() reads back every timer specification written in the form
    that its comment gives, whichever of the optional parts are there; what is
    missing becomes 0. *)
Theorem itimerspecFromStr_roundtrip v i :
  int_time v -> (forall t, i = Some t -> int_time t) ->
  itimerspecFromStr (Some (show_spec v i)) = Done (spec_of v i).
Proof.
  intros Hv Hi. unfold itimerspecFromStr, show_spec. destruct (time_back v Hv) as [Hsec Hns].
  destruct i as [t|]; cbv zeta.
  - rewrite strchr_sep, drop_sep by (done || apply show_time_no_colon). rewrite cut_sep. destruct (time_back t (Hi t eq_refl)) as [Hsec' Hns'].
    by rewrite Hsec, Hns, Hsec', Hns'.
  - rewrite app_nil_r, strchr_absent by (done || apply show_time_no_colon). change (cut (show_time v) None) with (show_time v).
    by rewrite Hsec, Hns.
Qed.

Lemma itimerspecFromStr_roundtrip_witness :
  itimerspecFromStr (Some (str "2/500:1")) = Done (ItimerSpec 2 500 1 0).
Proof.
  apply (itimerspecFromStr_roundtrip (2, Some 500) (Some (1, None))).
  - unfold int_time, INT_MIN, INT_MAX; simpl; lia.
  - intros t [= <-]. unfold int_time, INT_MIN, INT_MAX; simpl; lia.
Defined.
End TimerSpec.

(** * users_groups/ugid_functions.c *)

Module Ugid.

(** The system's databases of users and groups: names with their IDs, searched
    in order. *)
Section ids.
Context (db : list (bytes * Z)).

Fixpoint getpwuid (entries : list (bytes * Z)) (uid : Z) : option (bytes * Z) :=
  match entries with
  | [] => None
  | e :: entries' => if e.2 =? uid then Some e else getpwuid entries' uid
  end.
Fixpoint getpwnam (entries : list (bytes * Z)) (name : bytes) : option (bytes * Z) :=
  match entries with
  | [] => None
  | e :: entries' => if streq e.1 name then Some e else getpwnam entries' name
  end.

(** Source: book-src/users_groups/ugid_functions.c:23-30 (userNameFromId). *)
Definition userNameFromId (uid : Z) : option bytes :=
  match getpwuid db uid with None => None | Some pwd => Some pwd.1 end.

(** Source: book-src/users_groups/ugid_functions.c:32-51 (userIdFromName). *)
Definition userIdFromName (name : option bytes) : Z :=
  match name with
  | None => u32 (-1)
  | Some name =>
      if streq name [] then u32 (-1)
      else
        let r := strtol name 10 in
        let u := u32 (sl_value r) in
        if streq (sl_endptr r) [] then u
        else
          match getpwnam db name with
          | None => u32 (-1)
          | Some pwd => pwd.2
          end
  end.

(** Source: book-src/users_groups/ugid_functions.c:53-60 (groupNameFromId). *)
Definition groupNameFromId (gid : Z) : option bytes :=
  match getpwuid db gid with None => None | Some grp => Some grp.1 end.

(** Source: book-src/users_groups/ugid_functions.c:62-81 (groupIdFromName). *)
Definition groupIdFromName (name : option bytes) : Z :=
  match name with
  | None => u32 (-1)
  | Some name =>
      if streq name [] then u32 (-1)
      else
        let r := strtol name 10 in
        let g := u32 (sl_value r) in
        if streq (sl_endptr r) [] then g
        else
          match getpwnam db name with
          | None => u32 (-1)
          | Some grp => grp.2
          end
  end.
End ids.

(** A database as an administrator keeps it: no name twice, and no name that
    strtol() reads to its end (so no empty and no numeric name). *)
Definition well_kept (db : list (bytes * Z)) : Prop :=
  NoDup db.*1 /\ Forall (fun e => sl_endptr (strtol e.1 10) <> []) db.

Lemma getpwuid_in db u e : getpwuid db u = Some e -> e ∈ db /\ e.2 = u.
Proof.
  induction db as [|d db IH]; simpl; [done|]. destruct (Z.eqb_spec d.2 u).
  - intros [= <-]. split; [left|done].
  - intros He. destruct (IH He). split; [by right|done].
Qed.
Lemma getpwnam_in db e : NoDup db.*1 -> e ∈ db -> getpwnam db e.1 = Some e.
Proof.
  induction db as [|d db IH]; simpl; intros Hnd He; [by apply not_elem_of_nil in He|].
  apply NoDup_cons in Hnd as [Hd Hnd]. unfold streq. case_bool_decide as Hc.
  - apply elem_of_cons in He as [->|He]; [done|]. destruct Hd. rewrite Hc. by apply list_elem_of_fmap_2.
  - apply elem_of_cons in He as [->|He]; [done|]. by apply IH.
Qed.

(** The conversions of ugid_functions.c agree: the name found for a user or group ID
    converts back to that ID, whatever other users share it, when names are
    unique and not numbers; and a decimal ID given as a string is that ID. *)
Theorem ugid_roundtrip db u n :
  well_kept db ->
  (userNameFromId db u = Some n -> userIdFromName db (Some n) = u /\ groupIdFromName db (Some n) = u) /\
  (0 <= u < 2 ^ 32 -> userIdFromName db (Some (print_dec u)) = u /\ groupIdFromName db (Some (print_dec u)) = u).
Proof.
  intros [Hnd Hnn]. split.
  - unfold userNameFromId. destruct (getpwuid db u) as [e|] eqn:He; [|done]. intros [= <-].
    apply getpwuid_in in He as [Hin <-]. pose proof (getpwnam_in db e Hnd Hin) as Hback.
    rewrite Forall_forall in Hnn. specialize (Hnn e Hin).
    unfold userIdFromName, groupIdFromName. rewrite Hback. unfold streq.
    rewrite (bool_decide_eq_false_2 (sl_endptr _ = [])) by done.
    rewrite bool_decide_eq_false_2; [done|]. intros Hnil. by rewrite Hnil in Hnn.
  - intros Hu. assert (Hs : strtol (print_dec u) 10 = StrtolResult u [] false).
    { rewrite <- (app_nil_r (print_dec u)). apply strtol_print; [unfold LONG_MIN, LONG_MAX; lia|done]. }
    assert (Hne : streq (print_dec u) [] = false).
    { unfold streq. apply bool_decide_eq_false_2. intros Hnil. rewrite Hnil in Hs.
      unfold print_dec in Hnil. destruct (Z.ltb_spec u 0); [lia|].
      destruct (print_nonneg_head u) as (c & l & Hc & _); [lia|]. by rewrite Hc in Hnil. }
    unfold userIdFromName, groupIdFromName. rewrite Hne, Hs. simpl.
    unfold u32, wrap_u. by rewrite Z.mod_small.
Qed.

Lemma ugid_roundtrip_witness :
  userIdFromName [(str "root", 0); (str "toor", 0)] (Some (str "root")) = 0.
Proof.
  destruct (ugid_roundtrip [(str "root", 0); (str "toor", 0)] 0 (str "root")) as [Hback _].
  - split; [|repeat constructor; done]. apply (bool_decide_unpack _). vm_compute. exact I.
  - apply Hback. reflexivity.
Defined.
End Ugid.

(** * tty/tty_functions.c *)

Module Tty.

(** struct termios of Linux: flag words and control characters. *)
Record termios := Termios {
  c_iflag : Z; c_oflag : Z; c_cflag : Z; c_lflag : Z; c_cc : list Z
}.

Definition IGNBRK : Z := 0x1.
Definition BRKINT : Z := 0x2.
Definition PARMRK : Z := 0x8.
Definition INPCK : Z := 0x10.
Definition ISTRIP : Z := 0x20.
Definition INLCR : Z := 0x40.
Definition IGNCR : Z := 0x80.
Definition ICRNL : Z := 0x100.
Definition IXON : Z := 0x400.
Definition OPOST : Z := 0x1.
Definition ISIG : Z := 0x1.
Definition ICANON : Z := 0x2.
Definition ECHO : Z := 0x8.
Definition IEXTEN : Z := 0x8000.
Definition VTIME : nat := 5.
Definition VMIN : nat := 6.

Definition bits (l : list Z) : Z := foldr Z.lor 0 l.
Definition clear (x mask : Z) : Z := Z.land x (Z.lnot mask).

(** The terminal a descriptor refers to, as tcgetattr(), which does not change
    it, and tcsetattr(TCSAFLUSH) report it. *)
Section tty.
Context {St : Type} (tcgetattr : St -> sysres termios) (tcsetattr : termios -> M St (sysres unit)).

(** [prev]: the caller passed a buffer for the previous settings; they are
    the second component of the result when they were stored. *)
(** Source: book-src/tty/tty_functions.c:29-52 (ttySetCbreak). *)
Definition ttySetCbreak (prev : bool) : M St (Z * option termios) :=
  r ← gets tcgetattr;
  match r with
  | SErr _ => mret (-1, None)
  | SOk t =>
      let saved := if prev then Some t else None in
      let lflag := Z.lor (clear (c_lflag t) (bits [ICANON; ECHO])) ISIG in
      let iflag := clear (c_iflag t) ICRNL in
      let cc := <[VTIME := 0]> (<[VMIN := 1]> (c_cc t)) in
      w ← tcsetattr (Termios iflag (c_oflag t) (c_cflag t) lflag cc);
      match w with SErr _ => mret (-1, saved) | SOk _ => mret (0, saved) end
  end.

(** Source: book-src/tty/tty_functions.c:59-89 (ttySetRaw). *)
Definition ttySetRaw (prev : bool) : M St (Z * option termios) :=
  r ← gets tcgetattr;
  match r with
  | SErr _ => mret (-1, None)
  | SOk t =>
      let saved := if prev then Some t else None in
      let lflag := clear (c_lflag t) (bits [ICANON; ISIG; IEXTEN; ECHO]) in
      let iflag := clear (c_iflag t)
        (bits [BRKINT; ICRNL; IGNBRK; IGNCR; INLCR; INPCK; ISTRIP; IXON; PARMRK]) in
      let oflag := clear (c_oflag t) OPOST in
      let cc := <[VTIME := 0]> (<[VMIN := 1]> (c_cc t)) in
      w ← tcsetattr (Termios iflag oflag (c_cflag t) lflag cc);
      match w with SErr _ => mret (-1, saved) | SOk _ => mret (0, saved) end
  end.
End tty.

Lemma testbit_clear x mask i : 0 <= i -> Z.testbit (clear x mask) i = Z.testbit x i && negb (Z.testbit mask i).
Proof. intros Hi. unfold clear. by rewrite Z.land_spec, Z.lnot_spec by done. Qed.

(** A terminal that takes every setting. *)
Definition get1 (t : termios) : sysres termios := SOk t.
Definition set1 (t : termios) : M termios (sysres unit) := fun _ => (Done (SOk tt), t).

Definition agree_off (mask x y : Z) : Prop :=
  forall i, 0 <= i -> Z.testbit mask i = false -> Z.testbit x i = Z.testbit y i.

Lemma agree_clear mask x : agree_off mask (clear x mask) x.
Proof. intros i Hi Hm. by rewrite testbit_clear, Hm, andb_true_r by done. Qed.
Lemma clear_clears mask x : Z.land (clear x mask) mask = 0.
Proof.
  apply Z.bits_inj'. intros i Hi. rewrite Z.land_spec, testbit_clear, Z.bits_0 by done.
  by destruct (Z.testbit x i), (Z.testbit mask i).
Qed.

(** Only the control characters of noncanonical reads differ. *)
Definition byte_reads (cc cc' : list Z) : Prop :=
  cc' !! VMIN = Some 1 /\ cc' !! VTIME = Some 0 /\
  forall i, i <> VMIN -> i <> VTIME -> cc' !! i = cc !! i.

Lemma byte_reads_set cc : (VMIN < length cc)%nat -> byte_reads cc (<[VTIME := 0]> (<[VMIN := 1]> cc)).
Proof.
  intros Hcc. repeat split.
  - by rewrite list_lookup_insert_ne, list_lookup_insert_eq by done.
  - rewrite list_lookup_insert_eq; [done|]. rewrite length_insert. unfold VMIN, VTIME in *. lia.
  - intros i Hm Ht. by rewrite !list_lookup_insert_ne by congruence.
Qed.

(** [mask] is off in [y], which otherwise is [x]. *)
Definition turned_off (mask x y : Z) : Prop := Z.land y mask = 0 /\ agree_off mask y x.
Lemma turned_off_clear mask x : turned_off mask x (clear x mask).
Proof. split; [apply clear_clears|apply agree_clear]. Qed.

Definition raw_iflags : Z := bits [BRKINT; ICRNL; IGNBRK; IGNCR; INLCR; INPCK; ISTRIP; IXON; PARMRK].
Definition raw_lflags : Z := bits [ICANON; ISIG; IEXTEN; ECHO].

(** TtySetRaw() and ttySetCbreak() turn off exactly the processing that raw and
    cbreak mode go without (and cbreak makes sure of signals), set reads to one byte
    without timeout, and leave every other setting as it was; they hand back the old
    settings when asked to, and with those tcsetattr() restores the terminal. *)
Theorem tty_modes_correct prev t (Hcc : (VMIN < length (c_cc t))%nat) :
  (exists t', ttySetRaw get1 set1 prev t = (Done (0, if prev then Some t else None), t') /\
    turned_off raw_lflags (c_lflag t) (c_lflag t') /\ turned_off raw_iflags (c_iflag t) (c_iflag t') /\
    turned_off OPOST (c_oflag t) (c_oflag t') /\ c_cflag t' = c_cflag t /\ byte_reads (c_cc t) (c_cc t') /\
    set1 t t' = (Done (SOk tt), t)) /\
  (exists t', ttySetCbreak get1 set1 prev t = (Done (0, if prev then Some t else None), t') /\
    Z.land (c_lflag t') (bits [ICANON; ECHO; ISIG]) = ISIG /\
    agree_off (bits [ICANON; ECHO; ISIG]) (c_lflag t') (c_lflag t) /\
    turned_off ICRNL (c_iflag t) (c_iflag t') /\ c_oflag t' = c_oflag t /\ c_cflag t' = c_cflag t /\
    byte_reads (c_cc t) (c_cc t') /\ set1 t t' = (Done (SOk tt), t)).
Proof.
  split.
  - eexists. split; [unfold ttySetRaw; munfold; simpl; reflexivity|].
    cbn [c_lflag c_iflag c_oflag c_cflag c_cc].
    repeat (split; [apply turned_off_clear|]). by split; [|split; [apply byte_reads_set|]].
  - eexists. split; [unfold ttySetCbreak; munfold; simpl; reflexivity|].
    cbn [c_lflag c_iflag c_oflag c_cflag c_cc]. split; [|split; [|split; [apply turned_off_clear|]]].
    + apply Z.bits_inj'. intros i Hi. rewrite Z.land_spec, Z.lor_spec, testbit_clear by done.
      unfold bits, foldr. rewrite !Z.lor_spec, Z.bits_0.
      destruct (decide (i = 0)) as [->|Hn].
      { cbn. by rewrite orb_true_r. }
      assert (Hsig : Z.testbit ISIG i = false) by (apply Z.bits_above_log2; [done|simpl; lia]).
      rewrite Hsig, !orb_false_r.
      by destruct (Z.testbit (c_lflag t) i), (Z.testbit ICANON i), (Z.testbit ECHO i).
    + intros i Hi. unfold bits, foldr. rewrite !Z.lor_spec, Z.bits_0, testbit_clear by done.
      rewrite !Z.lor_spec, Z.bits_0, !orb_false_r, !orb_false_iff. intros (H1 & H2 & H3).
      by rewrite H1, H2, H3, orb_false_r, andb_true_r.
    + by repeat split; apply byte_reads_set.
Qed.

Definition cooked : termios := Termios 0x500 0x5 0xbf 0x8a3b (replicate 32 0).
Lemma tty_modes_correct_witness :
  exists t', ttySetRaw get1 set1 true cooked = (Done (0, Some cooked), t') /\
    turned_off raw_lflags (c_lflag cooked) (c_lflag t').
Proof.
  destruct (tty_modes_correct true cooked) as [(t' & Hr & Hl & _) _].
  - vm_compute. lia.
  - exists t'. by split.
Defined.
End Tty.
