(* ===== verification/Acl.v ===== *)
(** book-src/acl/acl_update.c: changing the access control lists of files. *)
From S2P Require Import Prelude CLib Sys Formats.
From S2P Require ErrorFunctions.
#[local] Open Scope Z_scope.

(** * Access control lists *)

Definition ACL_USER_OBJ : Z := 1.
Definition ACL_USER : Z := 2.
Definition ACL_GROUP_OBJ : Z := 4.
Definition ACL_GROUP : Z := 8.
Definition ACL_MASK : Z := 16.
Definition ACL_OTHER : Z := 32.
Definition ACL_READ : Z := 4.
Definition ACL_WRITE : Z := 2.
Definition ACL_EXECUTE : Z := 1.
Definition ACL_FIRST_ENTRY : Z := 0.
Definition ACL_NEXT_ENTRY : Z := 1.
Definition ACL_TYPE_ACCESS : Z := 0x8000.
Definition ACL_TYPE_DEFAULT : Z := 0x4000.

(** Source: book-src/acl/acl_update.c:27-27 (MAX_ENTRIES). *)
Definition MAX_ENTRIES : Z := 10000.

(** [perms] is [None] where the parser leaves the field unset. *)
(** Source: book-src/acl/acl_update.c:29-33 (struct AccessControlEntry). *)
Record AccessControlEntry := Ace { tag : Z; qual : Z; perms : option Z }.

(** What libacl offers on the ACL in working storage (the program has one at a
    time), on entries [ent] of it and permission sets [pset] of entries. *)
Class AclOS (S ent pset : Type) := {
  acl_get_file : bytes -> Z -> M S (sysres unit);
  acl_set_file : bytes -> Z -> M S (sysres unit);
  acl_delete_def_file : bytes -> M S (sysres unit);
  acl_free : M S (sysres unit);
  acl_free_qualifier : M S (sysres unit);
  acl_get_entry : Z -> M S (sysres (option ent));
  acl_create_entry : M S (sysres ent);
  acl_delete_entry : ent -> M S (sysres unit);
  acl_get_tag_type : ent -> M S (sysres Z);
  acl_set_tag_type : ent -> Z -> M S (sysres unit);
  acl_get_qualifier : ent -> M S (sysres Z);
  acl_set_qualifier : ent -> Z -> M S (sysres unit);
  acl_get_permset : ent -> M S (sysres pset);
  acl_clear_perms : pset -> M S (sysres unit);
  acl_add_perm : pset -> Z -> M S (sysres unit);
  acl_set_permset : ent -> pset -> M S (sysres unit);
  acl_calc_mask : M S (sysres unit);
  acl_valid : M S (sysres unit)
}.

Section acl.
Context {S ent pset : Type} `{HasLibc S} `{AclOS S ent pset}.
Context (strerror : Z -> bytes) (users groups : list (bytes * Z)).

#[local] Abbreviation errExit := (ErrorFunctions.errExit strerror).
#[local] Abbreviation fatal := (ErrorFunctions.fatal strerror).

(** [if (call == -1) errExit(name);] *)
Definition checked {A} (m : M S (sysres A)) (name : bytes) : M S A :=
  r ← m;
  match r with
  | SOk a => mret a
  | SErr e => set_errno e;; errExit name
  end.

(** Source: book-src/acl/acl_update.c:35-64 (usageError). *)
Definition usageError {A} (progName : bytes) (msg : option bytes) (shortUsage : bool) : M S A :=
  match msg with Some msg => eprintf (msg ++ [newline]) | None => mret tt end;;
  if shortUsage then
    eprintf (str "Type '" ++ progName ++ str " --help' for usage information" ++ [newline]);;
    c_exit EXIT_FAILURE
  else
    let fpe msg := eprintf (str "      " ++ msg) in
    eprintf (str "Usage: " ++ progName ++ str " -m acl [-d] [-n] file..." ++ [newline]);;
    eprintf (str "   or: " ++ progName ++ str " -x acl [-d] [-n] file..." ++ [newline]);;
    eprintf (str "   or: " ++ progName ++ str " -k file..." ++ [newline; newline]);;
    eprintf (str "   or: " ++ progName ++ str " -V acl" ++ [newline; newline]);;
    fpe (str "-m  Modify/create ACL entries" ++ [newline]);;
    fpe (str "-x  Remove ACL entries" ++ [newline]);;
    fpe (str "-k  Remove default ACL" ++ [newline; newline]);;
    fpe (str "-V  Check validity of 'acl'" ++ [newline; newline]);;
    fpe (str "'acl' consists of one or more comma-separated entries of the form:" ++ [newline]);;
    fpe ([newline] ++ str "            tag:[qualifier][:[perms]]" ++ [newline; newline]);;
    fpe (str "      'perms' are specified only for -m" ++ [newline; newline]);;
    fpe (str "-d  Apply operation to default ACL" ++ [newline]);;
    fpe (str "-n  Don't recalculate mask entry" ++ [newline]);;
    fpe (str "      NOTE: if you specify this option and have specified" ++ [newline]);;
    fpe (str "      the -m option, then you may encounter errors if the" ++ [newline]);;
    fpe (str "      file does not already have a mask entry." ++ [newline]);;
    c_exit EXIT_FAILURE.

(** * Parsing *)

(** A message, and FALSE. *)
Definition refuse {A} (msg : bytes) : M S (option A) := eprintf (msg ++ [newline]);; mret None.

(** Source: book-src/acl/acl_update.c:158-170 (parseEntrySpec, loop). *)
Fixpoint scan_perms (p : bytes) (acc : Z) : M S (option Z) :=
  match p with
  | [] => mret (Some acc)
  | c :: p' =>
      if ceq c "r" then scan_perms p' (Z.lor acc ACL_READ)
      else if ceq c "w" then scan_perms p' (Z.lor acc ACL_WRITE)
      else if ceq c "x" then scan_perms p' (Z.lor acc ACL_EXECUTE)
      else if negb (ceq c "-") then
        refuse (str "Bad character in permissions string: " ++ [c])
      else scan_perms p' acc
  end.

(** The tag type that the text before the first colon stands for. *)
(** Source: book-src/acl/acl_update.c:113-124 (parseEntrySpec, tag). *)
Definition tag_type (t : bytes) (hasQual : bool) : option Z :=
  if streq t (str "u") || streq t (str "user") then Some (if hasQual then ACL_USER else ACL_USER_OBJ)
  else if streq t (str "g") || streq t (str "group") then
    Some (if hasQual then ACL_GROUP else ACL_GROUP_OBJ)
  else if streq t (str "o") || streq t (str "other") then Some ACL_OTHER
  else if streq t (str "m") || streq t (str "mask") then Some ACL_MASK
  else None.

(** Source: book-src/acl/acl_update.c:131-145 (parseEntrySpec, qualifier). *)
Definition qualifier (tag : Z) (q : bytes) : M S (option Z) :=
  if tag =? ACL_USER then
    let id := Ugid.userIdFromName users (Some q) in
    if id =? u32 (-1) then refuse (str "Bad user ID: " ++ q) else mret (Some id)
  else if tag =? ACL_GROUP then
    let id := Ugid.groupIdFromName groups (Some q) in
    if id =? u32 (-1) then refuse (str "Bad group ID: " ++ q) else mret (Some id)
  else mret (Some 0).

(** The result is the entry, or [None] for FALSE. *)
(** Source: book-src/acl/acl_update.c:79-174 (parseEntrySpec). *)
Definition parseEntrySpec (entryStr : bytes) (permsReqd : bool) : M S (option AccessControlEntry) :=
  match strchr entryStr ":" with
  | None => refuse (str "Missing initial colon in ACL entry: " ++ entryStr)
  | Some colon1 =>
      let rest := drop (Datatypes.S colon1) entryStr in
      let hasQual := negb (ceq (char_at rest 0) NUL) && negb (ceq (char_at rest 0) ":") in
      let tagStr := take colon1 entryStr in
      let colon2 := strchr rest ":" in
      let permStr := match colon2 with Some i => drop (Datatypes.S i) rest | None => [] end in
      let hasPerms := bool_decide (is_Some colon2) && negb (ceq (char_at permStr 0) NUL) in
      if hasPerms && negb permsReqd then refuse (str "Cannot specify permissions here")
      else if negb hasPerms && permsReqd then refuse (str "Must specify permissions")
      else
        match tag_type tagStr hasQual with
        | None => refuse (str "Bad tag: " ++ tagStr)
        | Some tag =>
            q ← qualifier tag (match colon2 with Some i => take i rest | None => rest end);
            match q with
            | None => mret None
            | Some qual =>
                if hasPerms then
                  p ← scan_perms permStr 0;
                  mret (match p with Some perms => Some (Ace tag qual (Some perms)) | None => None end)
                else mret (Some (Ace tag qual None))
            end
        end
  end.

(** One turn of the loop: the text left and the entries parsed so far. *)
(** Source: book-src/acl/acl_update.c:188-206 (parseACL, loop). *)
Definition parse_turn (permsReqd : bool) (st : bytes * list AccessControlEntry)
    : M S (bytes * list AccessControlEntry + option (list AccessControlEntry)) :=
  let '(nextEntry, aclist) := st in
  if MAX_ENTRIES <=? Z.of_nat (length aclist) then
    eprintf (str "Too many entries in ACL" ++ [newline]);; mret (inr None)
  else
    let comma := strchr nextEntry "," in
    e ← parseEntrySpec (match comma with Some i => take i nextEntry | None => nextEntry end) permsReqd;
    match e with
    | None => mret (inr None)
    | Some ace =>
        match comma with
        | None => mret (inr (Some (aclist ++ [ace])))
        | Some i => mret (inl (drop (Datatypes.S i) nextEntry, aclist ++ [ace]))
        end
    end.

(** The entries, whose number is the result of the function; [None] for -1. *)
(** Source: book-src/acl/acl_update.c:180-209 (parseACL). *)
Definition parseACL (aclStr : bytes) (permsReqd : bool) : M S (option (list AccessControlEntry)) :=
  iter (Datatypes.S (length aclStr)) (parse_turn permsReqd) (aclStr, []).

(** * Updating *)

(** One turn of the loop; [ent] is the entry to ask for. *)
(** Source: book-src/acl/acl_update.c:224-268 (findEntry, loop). *)
Definition find_turn (tag qaul : Z) (ent_id : Z) : M S (Z + option ent) :=
  s ← checked (acl_get_entry ent_id) (str "acl_get_entry");
  match s with
  | None => mret (inr None)
  | Some entry =>
      entryTag ← checked (acl_get_tag_type entry) (str "acl_get_tag_type");
      if tag =? entryTag then
        if (tag =? ACL_USER) || (tag =? ACL_GROUP) then
          idp ← checked (acl_get_qualifier entry) (str "acl_get_qualifier");
          checked acl_free_qualifier (str "acl_free");;
          if qaul =? idp then mret (inr (Some entry)) else mret (inl ACL_NEXT_ENTRY)
        else mret (inr (Some entry))
      else mret (inl ACL_NEXT_ENTRY)
  end.

(** Source: book-src/acl/acl_update.c:215-269 (findEntry). *)
Definition findEntry (fuel : nat) (tag qaul : Z) : M S (option ent) :=
  iter fuel (find_turn tag qaul) ACL_FIRST_ENTRY.

(** Source: book-src/acl/acl_update.c:273-296 (setPerms). *)
Definition setPerms (entry : ent) (perms : Z) : M S unit :=
  permset ← checked (acl_get_permset entry) (str "acl_get_permset");
  checked (acl_clear_perms permset) (str "acl_clear_perms");;
  when (has_bits perms ACL_READ) (checked (acl_add_perm permset ACL_READ) (str "acl_add_perm"));;
  when (has_bits perms ACL_WRITE) (checked (acl_add_perm permset ACL_WRITE) (str "acl_add_perm"));;
  when (has_bits perms ACL_EXECUTE) (checked (acl_add_perm permset ACL_EXECUTE) (str "acl_add_perm"));;
  checked (acl_set_permset entry permset) (str "acl_set_permset").

(** Source: book-src/acl/acl_update.c:411-425 (main, new entry). *)
Definition createEntry (a : AccessControlEntry) : M S ent :=
  entry ← checked acl_create_entry (str "acl_create_entry");
  checked (acl_set_tag_type entry (tag a)) (str "acl_set_tag_type");;
  when ((tag a =? ACL_USER) || (tag a =? ACL_GROUP))
    (checked (acl_set_qualifier entry (qual a)) (str "acl_set_qualifier"));;
  mret entry.

(** Reading permissions that the parser did not set is undefined. *)
(** Source: book-src/acl/acl_update.c:402-428 (main, one entry in memory). *)
Definition changeEntry (fuel : nat) (removeACL : bool) (a : AccessControlEntry) : M S unit :=
  entry ← findEntry fuel (tag a) (qual a);
  if removeACL then
    match entry with
    | Some e => checked (acl_delete_entry e) (str "acl_delete_entry")
    | None => mret tt
    end
  else
    e ← match entry with Some e => mret e | None => createEntry a end;
    p ← deref (perms a);
    setPerms e p.

(** Source: book-src/acl/acl_update.c:401-443 (main, one entry). *)
Definition applyEntry (fuel : nat) (removeACL recalcMask : bool) (file : bytes) (type : Z)
    (a : AccessControlEntry) : M S unit :=
  changeEntry fuel removeACL a;;
  when recalcMask (checked acl_calc_mask (str "acl_calc_mask"));;
  checked acl_valid (str "acl_valid");;
  checked (acl_set_file file type) (str "acl_set_file").

(** Source: book-src/acl/acl_update.c:394-446 (main, one file). *)
Definition updateFile (fuel : nat) (removeACL recalcMask : bool) (file : bytes) (type : Z)
    (aclist : list AccessControlEntry) : M S unit :=
  checked (acl_get_file file type) (str "acl_get_file");;
  for_each aclist (applyEntry fuel removeACL recalcMask file type);;
  checked acl_free (str "acl_free").

(** The options of main(). *)
(** Source: book-src/acl/acl_update.c:301-305 (main, variables). *)
Record options := Options {
  recalcMask : bool;
  useDefaultACL : bool;
  modifyACL : bool;
  removeACL : bool;
  removeDefaultACL : bool;
  checkValidity : bool;
  aclSpec : option bytes;
  optCnt : Z
}.

(** One result of getopt(3): the option and [optarg]. *)
(** Source: book-src/acl/acl_update.c:324-359 (main, option switch). *)
Definition main_option (progName : bytes) (o : options) (opt : ascii * bytes) : M S options :=
  let '(c, optarg) := opt in
  if ceq c "m" then
    mret (Options (recalcMask o) (useDefaultACL o) true (removeACL o) (removeDefaultACL o)
            (checkValidity o) (Some optarg) (optCnt o + 1))
  else if ceq c "x" then
    mret (Options (recalcMask o) (useDefaultACL o) (modifyACL o) true (removeDefaultACL o)
            (checkValidity o) (Some optarg) (optCnt o + 1))
  else if ceq c "k" then
    mret (Options (recalcMask o) (useDefaultACL o) (modifyACL o) (removeACL o) true
            (checkValidity o) (aclSpec o) (optCnt o + 1))
  else if ceq c "V" then
    mret (Options (recalcMask o) (useDefaultACL o) (modifyACL o) (removeACL o) (removeDefaultACL o)
            true (Some optarg) (optCnt o + 1))
  else if ceq c "d" then
    mret (Options (recalcMask o) true (modifyACL o) (removeACL o) (removeDefaultACL o)
            (checkValidity o) (aclSpec o) (optCnt o))
  else if ceq c "n" then
    mret (Options false (useDefaultACL o) (modifyACL o) (removeACL o) (removeDefaultACL o)
            (checkValidity o) (aclSpec o) (optCnt o))
  else usageError progName (Some (str "Bad option" ++ [newline])) true.

Fixpoint main_options (progName : bytes) (o : options) (opts : list (ascii * bytes)) : M S options :=
  match opts with
  | [] => mret o
  | opt :: opts' => o' ← main_option progName o opt; main_options progName o' opts'
  end.

(** What is done to each file, [aclist] being the entries of -m or -x. *)
(** Source: book-src/acl/acl_update.c:383-450 (main, files). *)
Definition main_files (fuel : nat) (o : options) (aclist : list AccessControlEntry)
    (files : list bytes) : M S unit :=
  let type := if useDefaultACL o then ACL_TYPE_DEFAULT else ACL_TYPE_ACCESS in
  for_each files (fun file =>
    if removeDefaultACL o then
      checked (acl_delete_def_file file) (str "acl_delete_def_file: " ++ file)
    else if modifyACL o || removeACL o then
      updateFile fuel (removeACL o) (recalcMask o) file type aclist
    else fatal (str "Bad logic!")).

(** [help] is whether there are no arguments or the first is --help; [opts]
    are the results of getopt(3) and [files] the arguments left. *)
(** Source: book-src/acl/acl_update.c:298-453 (main). *)
Definition main (fuel : nat) (progName : bytes) (help : bool) (opts : list (ascii * bytes))
    (files : list bytes) : M S unit :=
  (if help then usageError progName None false else mret tt);;
  o ← main_options progName (Options true false false false false false None 0) opts;
  (if negb (optCnt o =? 1) then
     usageError progName (Some (str "Specify exactly one of -m, -x, -k, or -V" ++ [newline])) true
   else mret tt);;
  (if checkValidity o && useDefaultACL o then
     usageError progName (Some (str "Can't specify -d with -V" ++ [newline])) true
   else mret tt);;
  (if checkValidity o then
     spec ← deref (aclSpec o);
     r ← parseACL spec true;
     match r with
     | None => fatal (str "Bad ACL entry specification")
     | Some _ => printf (str "ACL is valid" ++ [newline]);; c_exit EXIT_SUCCESS
     end
   else mret tt);;
  aclist ← (if modifyACL o || removeACL o then
              spec ← deref (aclSpec o);
              r ← parseACL spec (modifyACL o);
              match r with
              | None => usageError progName (Some (str "Bad ACL specification" ++ [newline])) true
              | Some l => mret l
              end
            else mret []);
  main_files fuel o aclist files;;
  c_exit EXIT_SUCCESS.
End acl.

(** * What is proved of parsing *)

Section parse_props.
Context {S : Type} `{HasLibc S} (users groups : list (bytes * Z)).

(** The parts of an entry: tag, qualifier, and the permissions if there are
    any. *)
Record spec := Spec { s_tag : bytes; s_qual : bytes; s_perms : option bytes }.

Definition show_entry (e : spec) : bytes :=
  s_tag e ++ ":"%char :: s_qual e ++ match s_perms e with Some p => ":"%char :: p | None => [] end.
Fixpoint show_acl (e : spec) (es : list spec) : bytes :=
  match es with
  | [] => show_entry e
  | e' :: es' => show_entry e ++ ","%char :: show_acl e' es'
  end.

(** What an entry means. *)
Definition perm_bit (c : ascii) : Z :=
  if ceq c "r" then ACL_READ else if ceq c "w" then ACL_WRITE
  else if ceq c "x" then ACL_EXECUTE else 0.
Definition perm_bits (acc : Z) (p : bytes) : Z := foldl (fun b c => Z.lor b (perm_bit c)) acc p.

Definition spec_tag (e : spec) : option Z := tag_type (s_tag e) (bool_decide (s_qual e <> [])).
Definition spec_id (t : Z) (q : bytes) : Z :=
  if t =? ACL_USER then Ugid.userIdFromName users (Some q)
  else if t =? ACL_GROUP then Ugid.groupIdFromName groups (Some q) else 0.
Definition spec_entry (e : spec) : AccessControlEntry :=
  let t := default 0 (spec_tag e) in Ace t (spec_id t (s_qual e)) (perm_bits 0 <$> s_perms e).

(** A tag of the program, a qualifier that names a user or group where the tag
    needs one, and permissions if and only if they are required. *)
Definition plain (s : bytes) : Prop := (":"%char ∉ s) /\ (","%char ∉ s) /\ NUL ∉ s.
Definition spec_ok (permsReqd : bool) (e : spec) : Prop :=
  is_Some (spec_tag e) /\ plain (s_qual e) /\
  spec_id (default 0 (spec_tag e)) (s_qual e) <> u32 (-1) /\
  match s_perms e with
  | Some p => permsReqd = true /\ p <> [] /\ Forall (fun c => c ∈ str "rwx-") p
  | None => permsReqd = false
  end.

Lemma scan_perms_run p acc (s : S) : Forall (fun c => c ∈ str "rwx-") p ->
  scan_perms p acc s = (Done (Some (perm_bits acc p)), s).
Proof.
  revert acc. induction p as [|c p IH]; intros acc Hp; [done|].
  apply Forall_cons in Hp as [Hc Hp]. unfold perm_bits. simpl. rewrite <- (IH _ Hp).
  rewrite list_elem_of_In in Hc. simpl in Hc.
  destruct Hc as [<-|[<-|[<-|[<-|[]]]]]; simpl; by rewrite ?Z.lor_0_r.
Qed.

Lemma tag_plain t b : is_Some (tag_type t b) -> plain t.
Proof.
  unfold tag_type, streq. intros [z Hz].
  repeat match goal with
    | Hz : (if bool_decide ?P || bool_decide ?Q then _ else _) = _ |- _ =>
        destruct (bool_decide_reflect P) as [->|]; [by apply (bool_decide_unpack _)|];
        destruct (bool_decide_reflect Q) as [->|]; [by apply (bool_decide_unpack _)|]; simpl in Hz
    end.
  done.
Qed.

Lemma qualifier_run t q (s : S) : spec_id t q <> u32 (-1) ->
  qualifier users groups t q s = (Done (Some (spec_id t q)), s).
Proof.
  unfold qualifier, spec_id. destruct (Z.eqb_spec t ACL_USER), (Z.eqb_spec t ACL_GROUP); intros Hq;
    cbv zeta; by rewrite ?(proj2 (Z.eqb_neq _ _) Hq).
Qed.

Lemma has_qual_bool q o : plain q ->
  let rest := q ++ match o with Some p => ":"%char :: p | None => [] end in
  negb (ceq (char_at rest 0) NUL) && negb (ceq (char_at rest 0) ":") = bool_decide (q <> []).
Proof.
  intros (Hc & _ & Hn). destruct q as [|c q].
  - by destruct o.
  - rewrite bool_decide_eq_true_2 by done. unfold char_at, ceq. simpl.
    rewrite not_elem_of_cons in Hc, Hn. by rewrite !bool_decide_eq_false_2 by (intros ->; tauto).
Qed.

Lemma parseEntrySpec_run permsReqd e (s : S) : spec_ok permsReqd e ->
  parseEntrySpec users groups (show_entry e) permsReqd s = (Done (Some (spec_entry e)), s).
Proof.
  intros ([t Ht] & Hq & Hid & Hp). pose proof (tag_plain (s_tag e) _ ltac:(by exists t)) as Htag.
  unfold parseEntrySpec, show_entry.
  rewrite strchr_sep by (done || apply Htag). cbv zeta. rewrite drop_sep, take_app_length.
  rewrite (has_qual_bool (s_qual e) (s_perms e) Hq).
  unfold spec_tag, spec_entry in *. unfold spec_tag. rewrite Ht in *. simpl in Hid |- *.
  destruct (s_perms e) as [p|].
  - destruct Hp as (-> & Hne & Hp). rewrite strchr_sep, drop_sep, take_app_length by (done || apply Hq).
    destruct p as [|c p]; [done|]. change (char_at (c :: p) 0) with c.
    assert (Hc : ceq c NUL = false).
    { unfold ceq. apply bool_decide_eq_false_2. intros ->. apply Forall_cons in Hp as [Hc _].
      revert Hc. apply (bool_decide_unpack _). vm_compute. exact I. }
    rewrite Hc, bool_decide_eq_true_2 by eauto. cbv beta iota delta [negb andb].

    rewrite (bind_done _ _ _ _ _ (qualifier_run t (s_qual e) s Hid)).
    by rewrite (bind_done _ _ _ _ _ (scan_perms_run (c :: p) 0 s Hp)).
  - subst permsReqd. rewrite app_nil_r, strchr_absent by (done || apply Hq).
    rewrite bool_decide_eq_false_2 by (by intros [? ?]). cbv beta iota delta [negb andb].
    by rewrite (bind_done _ _ _ _ _ (qualifier_run t (s_qual e) s Hid)).
Qed.

Lemma show_entry_no_comma permsReqd e : spec_ok permsReqd e -> ","%char ∉ show_entry e.
Proof.
  intros (Ht & Hq & _ & Hp). apply tag_plain in Ht. unfold show_entry.
  rewrite elem_of_app, elem_of_cons, elem_of_app. intros [Hin|[Hin|[Hin|Hin]]].
  - by apply Ht in Hin.
  - done.
  - by apply Hq in Hin.
  - destruct (s_perms e) as [p|]; [|by apply not_elem_of_nil in Hin].
    apply elem_of_cons in Hin as [Hin|Hin]; [done|]. destruct Hp as (_ & _ & Hp).
    rewrite Forall_forall in Hp. apply Hp in Hin. revert Hin. apply (bool_decide_unpack _). vm_compute. exact I.
Qed.

(** The message for too many entries. *)
Definition too_many : M S (option (list AccessControlEntry)) :=
  eprintf (str "Too many entries in ACL" ++ [newline]);; mret None.

Lemma parse_turn_full permsReqd txt acc (k : _ -> M S _) (s : S) :
  MAX_ENTRIES <= Z.of_nat (length acc) -> (forall s', k (inr None) s' = (Done None, s')) ->
  (parse_turn users groups permsReqd (txt, acc) ≫= k) s = too_many s.
Proof. intros Hacc Hk. unfold parse_turn. rewrite (proj2 (Z.leb_le _ _) Hacc). apply Hk. Qed.

Lemma parse_turn_last permsReqd e acc (s : S) :
  spec_ok permsReqd e -> Z.of_nat (length acc) < MAX_ENTRIES ->
  parse_turn users groups permsReqd (show_entry e, acc) s =
  (Done (inr (Some (acc ++ [spec_entry e]))), s).
Proof.
  intros He Hacc. unfold parse_turn. rewrite (proj2 (Z.leb_gt _ _) Hacc).
  rewrite strchr_absent by (done || by eapply show_entry_no_comma).
  by rewrite (bind_done _ _ _ _ _ (parseEntrySpec_run permsReqd e s He)).
Qed.

Lemma parse_turn_next permsReqd e txt acc (s : S) :
  spec_ok permsReqd e -> Z.of_nat (length acc) < MAX_ENTRIES ->
  parse_turn users groups permsReqd (show_entry e ++ ","%char :: txt, acc) s =
  (Done (inl (txt, acc ++ [spec_entry e])), s).
Proof.
  intros He Hacc. unfold parse_turn. rewrite (proj2 (Z.leb_gt _ _) Hacc).
  rewrite strchr_sep, drop_sep, take_app_length by (done || by eapply show_entry_no_comma).
  by rewrite (bind_done _ _ _ _ _ (parseEntrySpec_run permsReqd e s He)).
Qed.

Lemma parse_turns permsReqd es : forall e acc fuel (s : S),
  Forall (spec_ok permsReqd) (e :: es) -> (length es < fuel)%nat ->
  iter fuel (parse_turn users groups permsReqd) (show_acl e es, acc) s =
  if Z.of_nat (length acc + length es) <? MAX_ENTRIES
  then (Done (Some (acc ++ (spec_entry <$> e :: es))), s) else too_many s.
Proof.
  induction es as [|e' es IH]; intros e acc fuel s Hok Hfuel; apply Forall_cons in Hok as [He Hok];
    (destruct fuel as [|fuel]; [simpl in Hfuel; lia|]); cbn [iter].
  all: destruct (Z.le_gt_cases MAX_ENTRIES (Z.of_nat (length acc))) as [Hmax|Hmax].
  1, 3: rewrite (proj2 (Z.ltb_ge _ _)) by lia; by apply parse_turn_full.
  - rewrite (bind_done _ _ _ _ _ (parse_turn_last permsReqd e acc s He Hmax)).
    simpl length. by rewrite Nat.add_0_r, (proj2 (Z.ltb_lt _ _) Hmax).
  - change (show_acl e (e' :: es)) with (show_entry e ++ ","%char :: show_acl e' es).
    rewrite (bind_done _ _ _ _ _ (parse_turn_next permsReqd e _ acc s He Hmax)).
    rewrite IH by (done || simpl in Hfuel; lia). rewrite length_app. simpl length.
    rewrite <- app_assoc. simpl. by replace (length acc + 1 + length es)%nat with (length acc + Datatypes.S (length es))%nat by lia.
Qed.

Lemma show_acl_length e es : (length es <= length (show_acl e es))%nat.
Proof. revert e. induction es as [|e' es IH]; intros e; simpl; [lia|]. rewrite length_app. simpl. specialize (IH e'). lia. Qed.

(** parseACL() reads back every list of entries written in its syntax, with long or
    short tags, named or numeric qualifiers and any permissions, in order and up to
    10000 of them; a longer list is refused. *)
Theorem parseACL_roundtrip permsReqd e es (s : S) :
  Forall (spec_ok permsReqd) (e :: es) ->
  parseACL users groups (show_acl e es) permsReqd s =
  if Z.of_nat (length (e :: es)) <=? MAX_ENTRIES
  then (Done (Some (spec_entry <$> e :: es)), s) else too_many s.
Proof.
  intros Hok. unfold parseACL. rewrite parse_turns; [|done|pose proof (show_acl_length e es); lia].
  replace (Z.of_nat (length [] + length es) <? MAX_ENTRIES)
    with (Z.of_nat (length (e :: es)) <=? MAX_ENTRIES); [done|].
  apply eq_true_iff_eq. rewrite Z.leb_le, Z.ltb_lt. simpl length. lia.
Qed.
End parse_props.

Definition demo_users : list (bytes * Z) := [(str "root", 0); (str "mtk", 1000)].
Lemma parseACL_roundtrip_witness :
  let es := [Spec (str "user") (str "mtk") (Some (str "r-x")); Spec (str "m") [] (Some (str "rw"))] in
  Forall (spec_ok demo_users [] true) es /\
  parseACL demo_users [] (str "user:mtk:r-x,m::rw") true libc0 =
  (Done (Some [Ace ACL_USER 1000 (Some 5); Ace ACL_MASK 0 (Some 6)]), libc0).
Proof.
  assert (Hok : Forall (spec_ok demo_users [] true)
    [Spec (str "user") (str "mtk") (Some (str "r-x")); Spec (str "m") [] (Some (str "rw"))]).
  { repeat constructor; try (by apply (bool_decide_unpack _)); by eexists. }
  split; [exact Hok|].
  exact (parseACL_roundtrip demo_users [] true (Spec (str "user") (str "mtk") (Some (str "r-x")))
           [Spec (str "m") [] (Some (str "rw"))] libc0 Hok).
Defined.

(** * What libacl documents *)

Record entry := Entry { e_tag : Z; e_qual : Z; e_perms : Z }.

Definition has_qual (t : Z) : bool := (t =? ACL_USER) || (t =? ACL_GROUP).
Definition key_of (t q : Z) : Z * Z := (t, if has_qual t then q else 0).
Definition key (a : entry) : Z * Z := key_of (e_tag a) (e_qual a).

(** A set of entries, no two with the same tag and qualifier, as a map. *)
Definition distinct {ent} `{Countable ent} (m : gmap ent entry) : Prop :=
  forall e1 e2 a1 a2, m !! e1 = Some a1 -> m !! e2 = Some a2 -> key a1 = key a2 -> e1 = e2.
Definition Repr {ent} `{Countable ent} (m : gmap ent entry) (A : gmap (Z * Z) Z) : Prop :=
  distinct m /\ forall k p, A !! k = Some p <-> exists e a, m !! e = Some a /\ key a = k /\ e_perms a = p.

(** The mask is the union of the permissions of the named users, the owning
    group and the named groups. *)
Definition group_class (t : Z) : bool := (t =? ACL_USER) || (t =? ACL_GROUP_OBJ) || (t =? ACL_GROUP).
Definition mask_of (A : gmap (Z * Z) Z) : Z :=
  map_fold (fun k p acc => if group_class k.1 then Z.lor p acc else acc) 0 A.
Definition calc_mask (A : gmap (Z * Z) Z) : gmap (Z * Z) Z := <[(ACL_MASK, 0) := mask_of A]> A.

(** [wk] are the entries of the ACL in working storage, [pend] those that
    ACL_NEXT_ENTRY still has to give, [file_acl] the ACLs of the files. Every
    call may fail, and then changes nothing. *)
Definition same {S ent} `{Countable ent} (wk : S -> gmap ent entry) (pend : S -> list ent)
    (file_acl : S -> bytes -> Z -> gmap (Z * Z) Z) (s s' : S) : Prop :=
  wk s' = wk s /\ pend s' = pend s /\ file_acl s' = file_acl s.
Definition edits {S ent} `{Countable ent} (wk : S -> gmap ent entry)
    (file_acl : S -> bytes -> Z -> gmap (Z * Z) Z) (f : gmap ent entry -> gmap ent entry)
    (r : sysres unit) (s s' : S) : Prop :=
  file_acl s' = file_acl s /\ wk s' = match r with SOk _ => f (wk s) | SErr _ => wk s end.
Definition set_e_perms (f : Z -> Z) (a : entry) : entry := Entry (e_tag a) (e_qual a) (f (e_perms a)).

Class AclSpec (S ent pset : Type) `{Countable ent} `{HasLibc S} `{AclOS S ent pset} := {
  wk : S -> gmap ent entry;
  pend : S -> list ent;
  file_acl : S -> bytes -> Z -> gmap (Z * Z) Z;
  pset_of : pset -> ent;
  libc_acl : forall l s, same wk pend file_acl s (set_libc l s);
  get_file_spec : forall f t s, post (fun r s' => file_acl s' = file_acl s /\
      (r = SOk tt -> Repr (wk s') (file_acl s f t))) (fun _ _ => False) (acl_get_file f t s);
  set_file_spec : forall f t s, post (fun r s' => wk s' = wk s /\
      (r = SOk tt -> forall A, Repr (wk s) A -> file_acl s' f t = A) /\
      (r <> SOk tt -> file_acl s' = file_acl s)) (fun _ _ => False) (acl_set_file f t s);
  free_spec : forall s, post (fun _ s' => file_acl s' = file_acl s) (fun _ _ => False) (acl_free s);
  free_qualifier_spec : forall s, post (fun _ s' => same wk pend file_acl s s')
      (fun _ _ => False) (acl_free_qualifier s);
  first_entry_spec : forall s, post (fun r s' => wk s' = wk s /\ file_acl s' = file_acl s /\
      exists l, l ≡ₚ (map_to_list (wk s)).*1 /\
        match r with SOk (Some e) => l = e :: pend s' | SOk None => l = [] | SErr _ => True end)
      (fun _ _ => False) (acl_get_entry ACL_FIRST_ENTRY s);
  next_entry_spec : forall s, post (fun r s' => wk s' = wk s /\ file_acl s' = file_acl s /\
        match r with SOk (Some e) => pend s = e :: pend s' | SOk None => pend s = [] | SErr _ => True end)
      (fun _ _ => False) (acl_get_entry ACL_NEXT_ENTRY s);
  create_entry_spec : forall s, post (fun r s' => file_acl s' = file_acl s /\
        match r with
        | SOk e => wk s !! e = None /\ exists a, wk s' = <[e := a]> (wk s)
        | SErr _ => wk s' = wk s
        end) (fun _ _ => False) (acl_create_entry s);
  delete_entry_spec : forall e s, post (fun r s' => edits wk file_acl (delete e) r s s')
      (fun _ _ => False) (acl_delete_entry e s);
  get_tag_type_spec : forall e s, post (fun r s' => same wk pend file_acl s s' /\
        forall t, r = SOk t -> exists a, wk s !! e = Some a /\ t = e_tag a)
      (fun _ _ => False) (acl_get_tag_type e s);
  set_tag_type_spec : forall e t s, post (fun r s' =>
        edits wk file_acl (alter (fun a => Entry t (e_qual a) (e_perms a)) e) r s s')
      (fun _ _ => False) (acl_set_tag_type e t s);
  get_qualifier_spec : forall e s, post (fun r s' => same wk pend file_acl s s' /\
        forall q, r = SOk q -> exists a, wk s !! e = Some a /\ q = e_qual a)
      (fun _ _ => False) (acl_get_qualifier e s);
  set_qualifier_spec : forall e q s, post (fun r s' =>
        edits wk file_acl (alter (fun a => Entry (e_tag a) q (e_perms a)) e) r s s')
      (fun _ _ => False) (acl_set_qualifier e q s);
  get_permset_spec : forall e s, post (fun r s' => same wk pend file_acl s s' /\
        forall p, r = SOk p -> pset_of p = e) (fun _ _ => False) (acl_get_permset e s);
  clear_perms_spec : forall p s, post (fun r s' =>
        edits wk file_acl (alter (set_e_perms (fun _ => 0)) (pset_of p)) r s s')
      (fun _ _ => False) (acl_clear_perms p s);
  add_perm_spec : forall p b s, post (fun r s' =>
        edits wk file_acl (alter (set_e_perms (fun x => Z.lor x b)) (pset_of p)) r s s')
      (fun _ _ => False) (acl_add_perm p b s);
  set_permset_spec : forall e p s, post (fun r s' => pset_of p = e -> edits wk file_acl id r s s')
      (fun _ _ => False) (acl_set_permset e p s);
  calc_mask_spec : forall s, post (fun r s' => file_acl s' = file_acl s /\
        (r = SOk tt -> forall A, Repr (wk s) A -> Repr (wk s') (calc_mask A)))
      (fun _ _ => False) (acl_calc_mask s);
  valid_spec : forall s, post (fun _ s' => same wk pend file_acl s s') (fun _ _ => False) (acl_valid s)
}.

(** * Lemmas on representations *)

Section repr.
Context {ent : Type} `{Countable ent}.
Implicit Types (m : gmap ent entry) (A : gmap (Z * Z) Z).

Lemma repr_size m A : Repr m A -> size m = size A.
Proof.
  intros [Hd HA]. rewrite <- (size_dom (D := gset (Z * Z)) A).
  set (K := (fun x : ent * entry => key x.2) <$> map_to_list m).
  assert (Hnd : NoDup K).
  { apply NoDup_fmap_2_strong; [|apply NoDup_map_to_list]. intros [e1 a1] [e2 a2] H1 H2 Hk. simpl in Hk.
    apply elem_of_map_to_list in H1, H2. pose proof (Hd _ _ _ _ H1 H2 Hk). by simplify_eq. }
  assert (Hdom : dom A = list_to_set K).
  { apply set_eq. intros k. rewrite elem_of_dom, elem_of_list_to_set. unfold K. rewrite list_elem_of_fmap. split.
    - intros [p Hp]. apply HA in Hp as (e & a & He & Hk & _). exists (e, a). split; [done|].
      by apply elem_of_map_to_list.
    - intros ([e a] & -> & He). apply elem_of_map_to_list in He. exists (e_perms a). apply HA. eauto. }
  rewrite Hdom, size_list_to_set by done. unfold K. by rewrite length_fmap, length_map_to_list.
Qed.

Lemma repr_delete m A e a : Repr m A -> m !! e = Some a -> Repr (delete e m) (delete (key a) A).
Proof.
  intros [Hd HA] He. split.
  - intros e1 e2 a1 a2 H1 H2. apply lookup_delete_Some in H1 as [_ H1], H2 as [_ H2]. by apply Hd.
  - intros k p. rewrite lookup_delete_Some, HA. split.
    + intros [Hk (e' & a' & He' & Hk' & Hp)]. exists e', a'. rewrite lookup_delete_Some.
      split; [|done]. split; [|done]. intros ->. congruence.
    + intros (e' & a' & He' & Hk & Hp). apply lookup_delete_Some in He' as [Hne He']. split; [|eauto 6].
      intros Heq. apply Hne. apply (Hd e e' a a'); congruence.
Qed.

Lemma repr_insert m A e a : Repr m A -> m !! e = None -> A !! key a = None ->
  Repr (<[e := a]> m) (<[key a := e_perms a]> A).
Proof.
  intros [Hd HA] He Hk.
  assert (Hno : forall e' a', m !! e' = Some a' -> key a' <> key a).
  { intros e' a' He' Hk'. assert (A !! key a = Some (e_perms a')) by (apply HA; eauto). congruence. }
  split.
  - intros e1 e2 a1 a2 H1 H2 Heq. apply lookup_insert_Some in H1 as [[<- <-]|[_ H1]], H2 as [[<- <-]|[_ H2]].
    + done.
    + by destruct (Hno _ _ H2).
    + by destruct (Hno _ _ H1).
    + by apply (Hd _ _ _ _ H1 H2).
  - intros k p. rewrite lookup_insert_Some, HA. split.
    + intros [[<- <-]|[Hne (e' & a' & He' & Hk' & Hp)]].
      * exists e, a. by rewrite lookup_insert_eq.
      * exists e', a'. rewrite lookup_insert_ne by congruence. done.
    + intros (e' & a' & He' & Hk' & Hp). apply lookup_insert_Some in He' as [[<- <-]|[Hne He']]; [by left|].
      right. split; [|eauto]. intros Heq. by apply (Hno _ _ He'); congruence.
Qed.

Lemma repr_replace m A e a a' : Repr m A -> m !! e = Some a -> key a' = key a ->
  Repr (<[e := a']> m) (<[key a' := e_perms a']> A).
Proof.
  intros HR He Hk. rewrite <- insert_delete_eq, <- (insert_delete_eq A).
  apply repr_insert; [rewrite Hk; by eapply repr_delete| |]; apply lookup_delete_eq.
Qed.
End repr.

(** What an entry of -m or -x asks for. *)
Definition change (removeACL : bool) (a : AccessControlEntry) (A : gmap (Z * Z) Z) : gmap (Z * Z) Z :=
  let k := key_of (tag a) (qual a) in
  if removeACL then delete k A else <[k := Z.land (default 0 (perms a)) 7]> A.
Definition step (removeACL recalcMask : bool) (A : gmap (Z * Z) Z) (a : AccessControlEntry) : gmap (Z * Z) Z :=
  let A' := change removeACL a A in if recalcMask then calc_mask A' else A'.

Lemma size_insert_le {K V} `{Countable K} (k : K) (v : V) (m : gmap K V) : (size (<[k := v]> m) <= Datatypes.S (size m))%nat.
Proof.
  destruct (m !! k) as [v'|] eqn:Hk.
  - rewrite map_size_insert_Some by (by eexists). lia.
  - rewrite map_size_insert_None by done. lia.
Qed.

Lemma size_step removeACL recalcMask A a : (size (step removeACL recalcMask A a) <= 2 + size A)%nat.
Proof.
  assert (Hc : (size (change removeACL a A) <= Datatypes.S (size A))%nat).
  { unfold change. destruct removeACL; [|apply size_insert_le].
    rewrite map_size_delete. destruct (A !! _); simpl; lia. }
  unfold step. destruct recalcMask; [|lia]. unfold calc_mask.
  pose proof (size_insert_le (ACL_MASK, 0) (mask_of (change removeACL a A)) (change removeACL a A)). lia.
Qed.

(** Only the three permissions of a mask of permissions are stored. *)
Definition rwx (perms : Z) : Z :=
  let add b x := Z.lor x (if has_bits perms b then b else 0) in add ACL_EXECUTE (add ACL_WRITE (add ACL_READ 0)).
Lemma rwx_land perms : rwx perms = Z.land perms 7.
Proof.
  assert (Hlow : rwx perms = rwx (Z.land perms 7)).
  { unfold rwx, has_bits. rewrite <- !Z.land_assoc. reflexivity. }
  rewrite Hlow. assert (Hin : Z.land perms 7 ∈ FilePerms.upto 8).
  { apply FilePerms.upto_spec. change 7 with (Z.ones 3). rewrite Z.land_ones by lia.
    change (Z.of_nat 8) with (2 ^ 3). apply Z.mod_pos_bound. lia. }
  revert Hin. generalize (Z.land perms 7). intros z Hz. apply list_elem_of_In in Hz.
  assert (Hall : forallb (fun z => rwx z =? z) (FilePerms.upto 8) = true) by (vm_compute; reflexivity).
  rewrite forallb_forall in Hall. apply Z.eqb_eq. by apply Hall.
Qed.

(** * What is proved of updates *)

Section update.
Context {S ent pset : Type} `{HC : Countable ent} {HL : HasLibc S} {HA : AclOS S ent pset}
  {HSp : AclSpec S ent pset}.
Context (strerror : Z -> bytes).

(** The program ends with a diagnostic, and leaves the files as in [s]. *)
Definition stops (s : S) (e : ending) (s' : S) : Prop :=
  (e = EExit EXIT_FAILURE \/ e = EAbort) /\ file_acl s' = file_acl s.

Lemma acl_stops_at s s1 e s' : file_acl s1 = file_acl s -> stops s1 e s' -> stops s e s'.
Proof. intros Hf [He Hs]. split; [done|congruence]. Qed.

Lemma file_acl_libc l s : file_acl (set_libc l s) = file_acl s.
Proof. apply (libc_acl l s). Qed.

Lemma acl_errExit_stops {A} msg s (Q : A -> S -> Prop) :
  post Q (stops s) (ErrorFunctions.errExit strerror msg s).
Proof.
  unfold ErrorFunctions.errExit.
  rewrite (bind_done get_errno _ s (lc_errno (libc_of s)) s) by done.
  rewrite (bind_done _ _ _ _ _ (ErrorFunctions.outputError_run strerror true _ true msg s)).
  rewrite ErrorFunctions.terminate_run. destruct (ErrorFunctions.dump_core _); simpl.
  - split; [by right|]. apply file_acl_libc.
  - split; [by left|]. by rewrite !file_acl_libc.
Qed.

(** A checked call does what the call does, or ends the program. *)
Lemma checked_spec {A} (m : M S (sysres A)) name s (R : sysres A -> S -> Prop) (Q : A -> S -> Prop) :
  post R (fun _ _ => False) (m s) ->
  (forall r s', R r s' -> match r with SOk a => Q a s' | SErr _ => file_acl s' = file_acl s end) ->
  post Q (stops s) (checked strerror m name s).
Proof.
  intros Hm HR. unfold checked. apply post_bind. eapply post_mono; [| |exact Hm]; [|done].
  intros [a|e] s' Hr; apply HR in Hr; [exact Hr|].
  apply post_bind. unfold set_errno, modify. cbn [post].
  eapply post_mono; [| |apply (acl_errExit_stops name)]; [done|].
  intros e' s''. apply acl_stops_at. by rewrite file_acl_libc.
Qed.

Lemma acl_stops_bind {A B} (m : M S A) (k : A -> M S B) Q R s :
  post R (stops s) (m s) ->
  (forall a s', R a s' -> file_acl s' = file_acl s /\ post Q (stops s') (k a s')) ->
  post Q (stops s) ((m ≫= k) s).
Proof.
  intros Hm Hk. apply post_bind. eapply post_mono; [| |exact Hm]; [|done].
  intros a s' Ha. destruct (Hk a s' Ha) as [Hf Hp]. eapply post_mono; [| |exact Hp]; [done|].
  intros e s''. by apply acl_stops_at.
Qed.

(** Changes of the ACL in memory. *)
Definition becomes (f : gmap ent entry -> gmap ent entry) (s s' : S) : Prop :=
  file_acl s' = file_acl s /\ wk s' = f (wk s).

Lemma checked_edit m name f s :
  post (fun r s' => edits wk file_acl f r s s') (fun _ _ => False) (m s) ->
  post (fun _ s' => becomes f s s') (stops s) (checked strerror m name s).
Proof. intros Hm. eapply checked_spec; [exact Hm|]. by intros [[]|e] s' [Hf Hw]. Qed.

Lemma checked_same {A} (m : M S (sysres A)) name s (Q : A -> Prop) :
  post (fun r s' => same wk pend file_acl s s' /\ forall a, r = SOk a -> Q a) (fun _ _ => False) (m s) ->
  post (fun a s' => same wk pend file_acl s s' /\ Q a) (stops s) (checked strerror m name s).
Proof.
  intros Hm. eapply checked_spec; [exact Hm|]. intros [a|e] s' [Hs Hq]; [by auto|apply Hs].
Qed.

Definition matches (t q : Z) (a : entry) : Prop := key a = key_of t q.

Lemma matches_tag t q a : matches t q a -> e_tag a = t.
Proof. unfold matches, key, key_of. by intros [= ->]. Qed.

(** One turn looks at one entry. *)
Lemma look_spec tag q e s :
  post (fun r s' => same wk pend file_acl s s' /\ exists a, wk s !! e = Some a /\
          match r with
          | inr o => o = Some e /\ matches tag q a
          | inl n => n = ACL_NEXT_ENTRY /\ ~ matches tag q a
          end) (stops s)
    ((entryTag ← checked strerror (acl_get_tag_type e) (str "acl_get_tag_type");
      if tag =? entryTag then
        if (tag =? ACL_USER) || (tag =? ACL_GROUP) then
          idp ← checked strerror (acl_get_qualifier e) (str "acl_get_qualifier");
          checked strerror acl_free_qualifier (str "acl_free");;
          if q =? idp then mret (inr (Some e)) else mret (inl ACL_NEXT_ENTRY)
        else mret (inr (Some e))
      else mret (inl ACL_NEXT_ENTRY) : M S (Z + option ent)) s).
Proof.
  eapply acl_stops_bind; [apply checked_same, get_tag_type_spec|].
  intros t s1 [(Hw1 & Hp1 & Hf1) (a & Ha & ->)]. split; [done|]. fold (has_qual tag).
  destruct (Z.eqb_spec tag (e_tag a)) as [->|Hne]; [|].
  2:{ split; [done|]. exists a. split; [done|]. split; [done|]. intros Hm. by apply matches_tag in Hm. }
  destruct (has_qual (e_tag a)) eqn:Hq.
  2:{ split; [done|]. exists a. split; [done|]. split; [done|]. unfold matches, key, key_of. by rewrite Hq. }
  eapply acl_stops_bind; [apply checked_same, get_qualifier_spec|].
  intros i s2 [(Hw2 & Hp2 & Hf2) (a' & Ha' & ->)]. split; [done|].
  assert (a' = a) as -> by congruence.
  eapply acl_stops_bind; [apply (checked_same _ _ _ (fun _ => True)); eapply post_mono; [| |apply free_qualifier_spec]; by auto|].
  intros [] s3 [(Hw3 & Hp3 & Hf3) _]. split; [done|].
  assert (Hsame : same wk pend file_acl s s3) by (repeat split; congruence).
  destruct (Z.eqb_spec q (e_qual a)) as [->|Hne]; (split; [done|]); exists a; (split; [done|]); (split; [done|]).
  - unfold matches, key, key_of. by rewrite Hq.
  - unfold matches, key, key_of. rewrite Hq. congruence.
Qed.

(** The search: what was looked at so far does not match. *)
Definition scanned (t q : Z) (m : gmap ent entry) (rest : list ent) : Prop :=
  exists l seen, l ≡ₚ (map_to_list m).*1 /\ l = seen ++ rest /\
    forall e a, e ∈ seen -> m !! e = Some a -> ~ matches t q a.
Definition find_inv (t q : Z) (s0 : S) (id : Z) (s : S) : Prop :=
  wk s = wk s0 /\ file_acl s = file_acl s0 /\
  (id = ACL_FIRST_ENTRY \/ id = ACL_NEXT_ENTRY /\ scanned t q (wk s) (pend s)).
Definition find_meas (id : Z) (s : S) : nat :=
  if id =? ACL_FIRST_ENTRY then size (wk s) else length (pend s).
Definition find_post (t q : Z) (s0 : S) (r : option ent) (s : S) : Prop :=
  wk s = wk s0 /\ file_acl s = file_acl s0 /\
  match r with
  | Some e => exists a, wk s0 !! e = Some a /\ matches t q a
  | None => forall e a, wk s0 !! e = Some a -> ~ matches t q a
  end.

Lemma scanned_all t q m e a : scanned t q m [] -> m !! e = Some a -> ~ matches t q a.
Proof.
  intros (l & seen & Hl & -> & Hs) He. rewrite app_nil_r in Hl. apply (Hs e a); [|done].
  rewrite Hl. apply list_elem_of_fmap. exists (e, a). split; [done|]. by apply elem_of_map_to_list.
Qed.

Lemma scanned_step t q m e rest :
  scanned t q m (e :: rest) -> (forall a, m !! e = Some a -> ~ matches t q a) -> scanned t q m rest.
Proof.
  intros (l & seen & Hl & -> & Hs) He. exists (seen ++ e :: rest), (seen ++ [e]).
  split; [done|]. split; [by rewrite <- app_assoc|]. intros e' a. rewrite elem_of_app, list_elem_of_singleton.
  intros [Hin| ->]; [by apply Hs|apply He].
Qed.

(** Asking for an entry. *)
Lemma get_entry_spec t q s0 id s : find_inv t q s0 id s ->
  post (fun r s' => wk s' = wk s0 /\ file_acl s' = file_acl s0 /\
          match r with
          | None => scanned t q (wk s0) []
          | Some e => scanned t q (wk s0) (e :: pend s') /\ (length (pend s') < find_meas id s)%nat
          end) (stops s) (checked strerror (acl_get_entry id) (str "acl_get_entry") s).
Proof.
  intros (Hw & Hf & [->|(-> & l & seen & Hl & Heq & Hs)]); eapply checked_spec.
  - apply first_entry_spec.
  - intros [[e|]|e] s' (Hw' & Hf' & l & Hl & Hr); [| |done]; (split; [congruence|]); (split; [congruence|]).
    + split; [exists l, []; rewrite <- Hw; split; [done|]; split; [done|]; intros ? ? Hin; by apply not_elem_of_nil in Hin|].
      unfold find_meas. simpl. apply Permutation_length in Hl. rewrite length_fmap, length_map_to_list in Hl.
      subst l. simpl in Hl. lia.
    + exists l, []. rewrite <- Hw. split; [done|]. split; [done|]. intros ? ? Hin. by apply not_elem_of_nil in Hin.
  - apply next_entry_spec.
  - intros [[e|]|e] s' (Hw' & Hf' & Hr); [| |done]; (split; [congruence|]); (split; [congruence|]).
    + split; [exists l, seen; rewrite <- Hw; split; [done|]; split; [congruence|done]|].
      unfold find_meas. simpl. rewrite Hr. simpl. lia.
    + exists l, seen. rewrite <- Hw. split; [done|]. split; [congruence|done].
Qed.

Lemma find_turn_spec t q s0 id s : find_inv t q s0 id s ->
  post (fun r s' => match r with
                    | inl id' => find_inv t q s0 id' s' /\ (find_meas id' s' < find_meas id s)%nat
                    | inr o => find_post t q s0 o s'
                    end) (stops s) (find_turn strerror t q id s).
Proof.
  intros Hinv. unfold find_turn. eapply acl_stops_bind; [apply (get_entry_spec t q s0 id s Hinv)|].
  destruct Hinv as (Hw & Hf & _).
  intros [e|] s1 (Hw1 & Hf1 & Hr); (split; [congruence|]).
  - destruct Hr as [Hsc Hlt]. eapply post_mono; [| |apply (look_spec t q e s1)]; [|done].
    intros [id'|o] s2 ((Hw2 & Hp2 & Hf2) & a & Ha & Hres).
    + destruct Hres as [-> Hno]. split.
      * split; [congruence|]. split; [congruence|]. right. split; [done|]. rewrite Hw2, Hp2, Hw1.
        apply (scanned_step _ _ _ e); [done|]. intros a' Ha'. rewrite Hw1 in Ha. by simplify_eq.
      * unfold find_meas at 1. change (ACL_NEXT_ENTRY =? ACL_FIRST_ENTRY) with false. cbv iota. by rewrite Hp2.
    + destruct Hres as [-> Hm]. split; [congruence|]. split; [congruence|]. exists a. by rewrite <- Hw1.
  - split; [done|]. split; [done|]. intros e a. by apply scanned_all.
Qed.

Lemma findEntry_spec fuel t q s : (size (wk s) < fuel)%nat ->
  post (find_post t q s) (stops s) (findEntry strerror fuel t q s).
Proof.
  intros Hfuel. unfold findEntry.
  apply (iter_total (find_turn strerror t q) (find_inv t q s) find_meas).
  - intros id s1 Hinv. eapply post_mono; [| |apply (find_turn_spec t q s id s1 Hinv)]; [done|].
    intros e s2. apply acl_stops_at. apply Hinv.
  - split; [done|]. split; [done|]. by left.
  - done.
Qed.

Lemma alter_some (f : entry -> entry) e (m : gmap ent entry) a :
  m !! e = Some a -> alter f e m = <[e := f a]> m.
Proof.
  intros He. apply map_eq. intros i. destruct (decide (e = i)) as [<-|Hne].
  - by rewrite lookup_alter_eq, lookup_insert_eq, He.
  - by rewrite lookup_alter_ne, lookup_insert_ne.
Qed.

(** Adding one permission where it is asked for. *)
Lemma add_spec perms b ps e a s : pset_of ps = e -> wk s !! e = Some a ->
  post (fun _ s' => becomes (<[e := set_e_perms (fun x => Z.lor x (if has_bits perms b then b else 0)) a]>) s s')
    (stops s) (when (has_bits perms b) (checked strerror (acl_add_perm ps b) (str "acl_add_perm")) s).
Proof.
  intros He Ha. unfold when. destruct (has_bits perms b).
  - eapply post_mono; [| |apply checked_edit, add_perm_spec]; [|done].
    intros _ s' [Hf Hw]. split; [done|]. by rewrite Hw, He, (alter_some _ e _ a).
  - split; [done|]. rewrite insert_id; [done|]. rewrite Ha. unfold set_e_perms. rewrite Z.lor_0_r. by destruct a.
Qed.

Lemma setPerms_spec e p a s : wk s !! e = Some a ->
  post (fun _ s' => becomes (<[e := set_e_perms (fun _ => Z.land p 7) a]>) s s') (stops s)
    (setPerms strerror e p s).
Proof.
  intros Ha. unfold setPerms. rewrite <- rwx_land.
  eapply acl_stops_bind; [apply checked_same, get_permset_spec|].
  intros ps s1 [(Hw1 & _ & Hf1) Hps]. split; [done|]. rewrite <- Hw1 in Ha.
  eapply acl_stops_bind; [apply checked_edit, clear_perms_spec|].
  intros _ s2 [Hf2 Hw2]. split; [done|]. rewrite Hps, (alter_some _ e _ a Ha) in Hw2.
  eapply acl_stops_bind; [apply (add_spec p ACL_READ ps e); [done|by rewrite Hw2, lookup_insert_eq]|].
  intros _ s3 [Hf3 Hw3]. split; [done|].
  eapply acl_stops_bind; [apply (add_spec p ACL_WRITE ps e); [done|by rewrite Hw3, lookup_insert_eq]|].
  intros _ s4 [Hf4 Hw4]. split; [done|].
  eapply acl_stops_bind; [apply (add_spec p ACL_EXECUTE ps e); [done|by rewrite Hw4, lookup_insert_eq]|].
  intros _ s5 [Hf5 Hw5]. split; [done|].
  eapply post_mono; [| |apply (checked_edit _ _ id)]; [|done|].
  - intros _ s6 [Hf6 Hw6]. split; [congruence|]. rewrite Hw6, Hw5, Hw4, Hw3, Hw2, Hw1, !insert_insert_eq. done.
  - eapply post_mono; [| |apply set_permset_spec]; [|done]. intros r s6 Hr. by apply Hr.
Qed.

Lemma createEntry_spec a s :
  post (fun e s' => file_acl s' = file_acl s /\ wk s !! e = None /\
          exists x, wk s' = <[e := x]> (wk s) /\ matches (tag a) (qual a) x)
    (stops s) (createEntry strerror a s).
Proof.
  unfold createEntry.
  eapply acl_stops_bind.
  { eapply (checked_spec _ _ _ _ (fun e s' => file_acl s' = file_acl s /\ wk s !! e = None /\
        exists x, wk s' = <[e := x]> (wk s))); [apply create_entry_spec|].
    intros [e|e] s' [Hf Hr]; [|done]. destruct Hr; auto. }
  intros e s1 (Hf1 & He & x & Hw1). split; [done|].
  eapply acl_stops_bind; [apply checked_edit, set_tag_type_spec|].
  intros _ s2 [Hf2 Hw2]. split; [done|].
  rewrite Hw1, (alter_some _ e _ x), insert_insert_eq in Hw2 by apply lookup_insert_eq.
  fold (has_qual (tag a)). unfold when.
  destruct (has_qual (tag a)) eqn:Hq.
  - eapply acl_stops_bind; [apply checked_edit, set_qualifier_spec|].
    intros _ s3 [Hf3 Hw3]. split; [done|]. split; [congruence|]. split; [done|]. eexists.
    rewrite Hw3, Hw2, (alter_some _ e _ (Entry (tag a) (e_qual x) (e_perms x))), insert_insert_eq
      by apply lookup_insert_eq. split; [done|]. done.
  - simpl. split; [congruence|]. split; [done|]. eexists. split; [exact Hw2|].
    unfold matches, key, key_of. simpl. by rewrite Hq.
Qed.

Lemma unmatched (m : gmap ent entry) A t q : Repr m A -> (forall e a, m !! e = Some a -> ~ matches t q a) ->
  A !! key_of t q = None.
Proof.
  intros [_ HRA] Hno. destruct (A !! key_of t q) as [p|] eqn:Hk; [|done].
  apply HRA in Hk as (e & a & He & Hk & _). by destruct (Hno e a He).
Qed.

Lemma changeEntry_spec fuel rm a A s :
  Repr (wk s) A -> (size A < fuel)%nat -> (rm = false -> is_Some (perms a)) ->
  post (fun _ s' => file_acl s' = file_acl s /\ Repr (wk s') (change rm a A)) (stops s)
    (changeEntry strerror fuel rm a s).
Proof.
  intros HR Hfuel Hp. unfold changeEntry.
  eapply acl_stops_bind; [apply findEntry_spec; by rewrite (repr_size _ _ HR)|].
  intros o s1 (Hw1 & Hf1 & Ho). split; [done|]. rewrite <- Hw1 in HR. unfold change. destruct rm.
  - destruct o as [e|].
    + destruct Ho as (x & Hx & Hm). rewrite <- Hw1 in Hx.
      eapply post_mono; [| |apply checked_edit, delete_entry_spec]; [|done].
      intros _ s2 [Hf2 Hw2]. split; [congruence|]. rewrite Hw2, <- Hm. by apply repr_delete.
    + split; [done|]. rewrite <- Hw1 in Ho. rewrite delete_id; [done|]. by eapply unmatched.
  - destruct (Hp eq_refl) as [p Hperm]. rewrite Hperm. simpl default.
    eapply (acl_stops_bind _ _ _ (fun e s2 => file_acl s2 = file_acl s1 /\ exists x, wk s2 !! e = Some x /\
        matches (tag a) (qual a) x /\
        forall x', key x' = key x -> Repr (<[e := x']> (wk s2)) (<[key x' := e_perms x']> A))).
    { destruct o as [e|].
      - destruct Ho as (x & Hx & Hm). rewrite <- Hw1 in Hx. split; [done|]. exists x. split; [done|].
        split; [done|]. intros x' Hk. by eapply repr_replace.
      - eapply post_mono; [| |apply createEntry_spec]; [|done].
        intros e s2 (Hf2 & He & x & Hw2 & Hm). split; [done|]. exists x. rewrite Hw2, lookup_insert_eq.
        split; [done|]. split; [done|]. intros x' Hk. rewrite insert_insert_eq.
        apply repr_insert; [done|done|]. rewrite Hk, Hm. rewrite <- Hw1 in Ho. by eapply unmatched. }
    intros e s2 (Hf2 & x & Hx & Hm & HR2). split; [done|]. apply post_bind. simpl.
    eapply post_mono; [| |apply (setPerms_spec e p x s2 Hx)]; [|done].
    intros _ s3 [Hf3 Hw3]. split; [congruence|]. rewrite Hw3, <- Hm.
    by apply (HR2 (set_e_perms (fun _ => Z.land p 7) x)).
Qed.

Lemma applyEntry_spec fuel rm recalc f ty a A s :
  Repr (wk s) A -> (size A < fuel)%nat -> (rm = false -> is_Some (perms a)) ->
  post (fun _ s' => file_acl s' f ty = step rm recalc A a /\ Repr (wk s') (step rm recalc A a)) (stops s)
    (applyEntry strerror fuel rm recalc f ty a s).
Proof.
  intros HR Hfuel Hp. unfold applyEntry.
  eapply acl_stops_bind; [by eapply changeEntry_spec|]. intros _ s1 [Hf1 HR1]. split; [done|].
  eapply (acl_stops_bind _ _ _ (fun _ s2 => file_acl s2 = file_acl s1 /\ Repr (wk s2) (step rm recalc A a))).
  { unfold step, when. destruct recalc; [|by split].
    eapply checked_spec; [apply calc_mask_spec|]. intros [[]|e] s2 [Hf2 Hm]; [|done]. auto. }
  intros _ s2 [Hf2 HR2]. split; [done|].
  eapply acl_stops_bind; [apply (checked_same _ _ _ (fun _ => True)); eapply post_mono; [| |apply valid_spec]; by auto|].
  intros _ s3 [(Hw3 & _ & Hf3) _]. split; [done|].
  eapply checked_spec; [apply set_file_spec|]. intros [[]|e] s4 (Hw4 & Hok & Hno).
  - rewrite Hw4, Hw3. split; [|done]. apply Hok; [done|]. by rewrite Hw3.
  - by apply Hno.
Qed.

(** The ACL once the entries of a list are applied in order. *)
Definition apply_all (rm recalc : bool) (l : list AccessControlEntry) (A : gmap (Z * Z) Z) : gmap (Z * Z) Z :=
  foldl (step rm recalc) A l.

Definition partly (rm recalc : bool) (l : list AccessControlEntry) (f : bytes) (ty : Z)
    (A : gmap (Z * Z) Z) (e : ending) (s : S) : Prop :=
  (e = EExit EXIT_FAILURE \/ e = EAbort) /\
  exists k, (k <= length l)%nat /\ file_acl s f ty = apply_all rm recalc (take k l) A.

Lemma applyEntries_spec fuel rm recalc f ty l : forall A s,
  Repr (wk s) A -> file_acl s f ty = A -> (size A + 2 * length l < fuel)%nat ->
  (rm = false -> Forall (fun a => is_Some (perms a)) l) ->
  post (fun _ s' => file_acl s' f ty = apply_all rm recalc l A) (partly rm recalc l f ty A)
    (for_each l (applyEntry strerror fuel rm recalc f ty) s).
Proof.
  induction l as [|a l IH]; intros A s HR HfA Hfuel Hp; [done|]. simpl in Hfuel. cbn [for_each].
  assert (Ha : rm = false -> is_Some (perms a)) by (intros Hr; by apply Hp, Forall_cons in Hr as [? _]).
  assert (Hl : rm = false -> Forall (fun a => is_Some (perms a)) l) by (intros Hr; by apply Hp, Forall_cons in Hr as [_ ?]).
  apply post_bind. eapply post_mono; [| |apply (applyEntry_spec fuel rm recalc f ty a A s HR ltac:(lia) Ha)].
  - intros _ s1 [Hf1 HR1]. pose proof (size_step rm recalc A a) as Hsz.
    eapply post_mono; [| |apply (IH (step rm recalc A a) s1 HR1 Hf1 ltac:(lia) Hl)]; [done|].
    intros e s2 (He & k & Hk & Hfk). split; [done|]. exists (Datatypes.S k). split; [simpl; lia|exact Hfk].
  - intros e s1 [He Hf]. split; [done|]. exists 0%nat. split; [lia|]. simpl. by rewrite Hf.
Qed.

Lemma updateFile_run fuel rm recalc f ty l s :
  (size (file_acl s f ty) + 2 * length l < fuel)%nat ->
  (rm = false -> Forall (fun a => is_Some (perms a)) l) ->
  post (fun _ s' => file_acl s' f ty = apply_all rm recalc l (file_acl s f ty))
    (partly rm recalc l f ty (file_acl s f ty))
    (updateFile strerror fuel rm recalc f ty l s).
Proof.
  intros Hfuel Hp. unfold updateFile. apply post_bind.
  eapply post_mono; [| |eapply (checked_spec _ _ _ _ (fun _ s' => file_acl s' = file_acl s /\
    Repr (wk s') (file_acl s f ty))); [apply get_file_spec|]].
  - intros [] s1 [Hf1 HR1]. apply post_bind.
    eapply post_mono; [| |apply (applyEntries_spec fuel rm recalc f ty l (file_acl s f ty) s1)]; try done; [|by rewrite Hf1].
    intros [] s2 Hf2. eapply post_mono; [| |eapply (checked_spec _ _ _ _ (fun _ s3 => file_acl s3 = file_acl s2)); [apply free_spec|]].
    + intros [] s3 Hf3. by rewrite Hf3.
    + intros e s3 [He Hf3]. split; [done|]. exists (length l). rewrite Hf3, take_ge; [|lia]. done.
    + by intros [[]|e] s3 Hf3.
  - intros e s1 [He Hf]. split; [done|]. exists 0%nat. split; [lia|]. by rewrite Hf.
  - intros [[]|e] s1 [Hf Hr]; auto.
Qed.

(** Updating a file always ends. If the program gets through, the file's ACL is the
    old one with every entry set (-m) or removed (-x) in order, and the mask
    recalculated after each unless -n is given; entries that are not named keep
    their permissions. If a call fails the program ends with a diagnostic, and the
    file has the first entries applied and not the others. *)
Theorem updateFile_correct fuel rm recalc f ty l s :
  (size (file_acl s f ty) + 2 * length l < fuel)%nat ->
  (rm = false -> Forall (fun a => is_Some (perms a)) l) ->
  post (fun _ s' => file_acl s' f ty = apply_all rm recalc l (file_acl s f ty))
    (partly rm recalc l f ty (file_acl s f ty))
    (updateFile strerror fuel rm recalc f ty l s).
Proof. apply updateFile_run. Qed.

Lemma mask_of_insert (p : Z) (A : gmap (Z * Z) Z) : A !! (ACL_MASK, 0) = None -> mask_of (<[(ACL_MASK, 0) := p]> A) = mask_of A.
Proof.
  intros Hk. unfold mask_of. rewrite map_fold_insert_L; [done| |done].
  intros [t1 q1] [t2 q2] z1 z2 y _ _ _. simpl. destruct (group_class t1), (group_class t2); [|done..].
  rewrite !Z.lor_assoc. f_equal. apply Z.lor_comm.
Qed.
Lemma mask_of_any (p : Z) (A : gmap (Z * Z) Z) : mask_of (<[(ACL_MASK, 0) := p]> A) = mask_of A.
Proof.
  rewrite <- insert_delete_eq, mask_of_insert by apply lookup_delete_eq.
  destruct (A !! (ACL_MASK, 0)) as [q|] eqn:Hq.
  - rewrite <- (insert_id A (ACL_MASK, 0) q Hq) at 2.
    by rewrite <- insert_delete_eq, mask_of_insert by apply lookup_delete_eq.
  - by rewrite delete_id.
Qed.

(** Without -n a mask entry given to -m has no effect: whatever its permissions, the
    file ends up with the mask that is calculated from the other entries (setfacl,
    of which the program is meant to be a subset, keeps an explicit mask). *)
Theorem explicit_mask_lost fuel f ty p s :
  (size (file_acl s f ty) + 2 < fuel)%nat ->
  post (fun _ s' => file_acl s' f ty = calc_mask (file_acl s f ty))
    (fun e _ => e = EExit EXIT_FAILURE \/ e = EAbort)
    (updateFile strerror fuel false true f ty [Ace ACL_MASK 0 (Some p)] s).
Proof.
  intros Hfuel. eapply post_mono; [| |apply updateFile_run; [simpl; lia|]].
  - intros _ s' ->. unfold apply_all, step, change, calc_mask. simpl.
    by rewrite mask_of_any, insert_insert_eq.
  - by intros e s' [He _].
  - intros _. repeat constructor. by eexists.
Qed.
End update.

(** * An instance of the interface *)

Section toy_lemmas.
Context {ent : Type} `{Countable ent}.
Implicit Types (m : gmap ent entry) (A B : gmap (Z * Z) Z).

Definition acl_keys m : list (Z * Z) := (fun x => key x.2) <$> map_to_list m.
Definition acl_map m : gmap (Z * Z) Z := list_to_map ((fun x => (key x.2, e_perms x.2)) <$> map_to_list m).

Lemma keys_distinct m : NoDup (acl_keys m) -> distinct m.
Proof.
  intros Hnd e1 e2 a1 a2 H1 H2 Hk.
  apply elem_of_map_to_list, list_elem_of_lookup in H1 as [i Hi], H2 as [j Hj].
  assert (i = j) as ->; [|by simplify_eq].
  apply (NoDup_lookup (acl_keys m) i j (key a1) Hnd); unfold acl_keys; rewrite list_lookup_fmap.
  - by rewrite Hi.
  - by rewrite Hj, Hk.
Qed.

Lemma repr_unique m A B : Repr m A -> Repr m B -> A = B.
Proof. intros [_ HA] [_ HB]. apply map_eq. intros k. apply option_eq. intros p. by rewrite HA, HB. Qed.

Lemma acl_map_repr m : NoDup (acl_keys m) -> Repr m (acl_map m).
Proof.
  intros Hnd. split; [by apply keys_distinct|]. intros k p. unfold acl_map.
  rewrite <- elem_of_list_to_map.
  - rewrite list_elem_of_fmap. split.
    + intros ([e a] & [= -> ->] & He). apply elem_of_map_to_list in He. eauto.
    + intros (e & a & He & <- & <-). exists (e, a). split; [done|]. by apply elem_of_map_to_list.
  - rewrite <- list_fmap_compose. exact Hnd.
Qed.

Lemma repr_keys m A : Repr m A -> NoDup (acl_keys m).
Proof.
  intros [Hd _]. apply NoDup_fmap_2_strong; [|apply NoDup_map_to_list].
  intros [e1 a1] [e2 a2] H1 H2 Hk. apply elem_of_map_to_list in H1, H2. simpl in Hk.
  pose proof (Hd _ _ _ _ H1 H2 Hk). by simplify_eq.
Qed.

Lemma acl_map_of m A : Repr m A -> acl_map m = A.
Proof. intros HR. apply (repr_unique m); [|done]. by eapply acl_map_repr, repr_keys. Qed.
End toy_lemmas.

Module Toy.
Record toy := MkToy {
  t_libc : libc;
  t_files : bytes -> Z -> gmap nat entry;
  t_wk : gmap nat entry;
  t_pend : list nat
}.
#[global, refine] Instance toy_has_libc : HasLibc toy :=
  {| libc_of := t_libc; set_libc l s := MkToy l (t_files s) (t_wk s) (t_pend s) |}.
Proof. all: by intros; repeat match goal with s : toy |- _ => destruct s end. Defined.

Definition ok {A} (a : A) (s : toy) : outcome (sysres A) * toy := (Done (SOk a), s).
Definition bad {A} (s : toy) : outcome (sysres A) * toy := (Done (SErr EINVAL), s).
Definition with_wk (m : gmap nat entry) (s : toy) : toy := MkToy (t_libc s) (t_files s) m (t_pend s).
Definition with_pend (l : list nat) (s : toy) : toy := MkToy (t_libc s) (t_files s) (t_wk s) l.
Definition set_file (f : bytes) (t : Z) (m : gmap nat entry) (s : toy) : toy :=
  MkToy (t_libc s) (fun f' t' => if bool_decide (f' = f /\ t' = t) then m else t_files s f' t') (t_wk s) (t_pend s).
Definition give (l : list nat) (s : toy) : outcome (sysres (option nat)) * toy :=
  match l with [] => ok None s | e :: l' => ok (Some e) (with_pend l' s) end.
Definition edit (f : entry -> entry) (e : nat) (s : toy) : outcome (sysres unit) * toy :=
  ok tt (with_wk (alter f e (t_wk s)) s).
Definition mask_entry (m : gmap nat entry) : nat :=
  match find (fun x => bool_decide (key x.2 = (ACL_MASK, 0))) (map_to_list m) with
  | Some x => x.1
  | None => fresh (dom m)
  end.

#[global] Instance toy_os : AclOS toy nat nat := {|
  acl_get_file f t s :=
    if bool_decide (NoDup (acl_keys (t_files s f t))) then ok tt (with_wk (t_files s f t) s) else bad s;
  acl_set_file f t s := ok tt (set_file f t (t_wk s) s);
  acl_delete_def_file f s := ok tt (set_file f ACL_TYPE_DEFAULT ∅ s);
  acl_free s := ok tt (with_wk ∅ s);
  acl_free_qualifier s := ok tt s;
  acl_get_entry id s := if id =? ACL_FIRST_ENTRY then give (map_to_list (t_wk s)).*1 s else give (t_pend s) s;
  acl_create_entry s := let e := fresh (dom (t_wk s)) in ok e (with_wk (<[e := Entry 0 0 0]> (t_wk s)) s);
  acl_delete_entry e s := ok tt (with_wk (delete e (t_wk s)) s);
  acl_get_tag_type e s := match t_wk s !! e with Some a => ok (e_tag a) s | None => bad s end;
  acl_set_tag_type e t := edit (fun a => Entry t (e_qual a) (e_perms a)) e;
  acl_get_qualifier e s := match t_wk s !! e with Some a => ok (e_qual a) s | None => bad s end;
  acl_set_qualifier e q := edit (fun a => Entry (e_tag a) q (e_perms a)) e;
  acl_get_permset e s := ok e s;
  acl_clear_perms p := edit (set_e_perms (fun _ => 0)) p;
  acl_add_perm p b := edit (set_e_perms (fun x => Z.lor x b)) p;
  acl_set_permset e p s := ok tt s;
  acl_calc_mask s := ok tt (with_wk (<[mask_entry (t_wk s) := Entry ACL_MASK 0 (mask_of (acl_map (t_wk s)))]> (t_wk s)) s);
  acl_valid s := ok tt s
|}.

Lemma calc_repr m A : Repr m A -> Repr (<[mask_entry m := Entry ACL_MASK 0 (mask_of (acl_map m))]> m) (calc_mask A).
Proof.
  intros HR. rewrite (acl_map_of m A HR). unfold calc_mask, mask_entry.
  set (a := Entry ACL_MASK 0 (mask_of A)). change (ACL_MASK, 0) with (key a).
  change (mask_of A) with (e_perms a). destruct (find _ _) as [[e x]|] eqn:Hfind.
  - apply find_some in Hfind as [Hin Hk]. apply bool_decide_eq_true in Hk.
    apply list_elem_of_In, elem_of_map_to_list in Hin. by eapply repr_replace.
  - apply repr_insert; [done| |].
    + apply not_elem_of_dom, is_fresh.
    + destruct (A !! key a) as [p|] eqn:Hp; [|done]. apply HR in Hp as (e & x & He & Hk & _).
      assert (Hin : In (e, x) (map_to_list m)) by (by apply list_elem_of_In, elem_of_map_to_list).
      pose proof (find_none _ _ Hfind _ Hin) as Hno. simpl in Hno. by rewrite bool_decide_eq_false, Hk in Hno.
Qed.

#[global, refine] Instance toy_spec : AclSpec toy nat nat := {|
  wk := t_wk; pend := t_pend; file_acl s f t := acl_map (t_files s f t); pset_of p := p
|}.
Proof.
  all: intros; simpl; unfold edits, same; simpl; try done.
  all: try (case_match; simpl; repeat split; intros; simplify_eq; by eauto).
  all: try (repeat split; intros; simplify_eq; by eauto).
  - case_bool_decide as Hnd; simpl; (split; [done|]); intros Hr; [|done]. by apply acl_map_repr.
  - split; [done|]. split; [|intros Hn; by destruct Hn]. intros _ A HR. rewrite bool_decide_eq_true_2 by done.
    by apply acl_map_of.
  - unfold give. destruct (map_to_list (t_wk s)).*1 eqn:Hl; simpl; (split; [done|]); (split; [done|]); eexists; by split.
  - unfold give. destruct (t_pend s) eqn:Hl; simpl; by repeat split.
  - split; [done|]. split; [apply not_elem_of_dom, is_fresh|by eexists].
  - split; [done|]. intros _ A. apply calc_repr.
Defined.

(** A file with user::rw-, group::r-- and other::---. *)
Definition plain_acl : gmap nat entry :=
  {[ 0%nat := Entry ACL_USER_OBJ 0 6; 1%nat := Entry ACL_GROUP_OBJ 0 4; 2%nat := Entry ACL_OTHER 0 0 ]}.
Definition demo : toy := MkToy libc0 (fun _ _ => plain_acl) ∅ [].
End Toy.

Definition no_text (_ : Z) : bytes := [].
Definition toy_acl (s : Toy.toy) := file_acl (ent := nat) (pset := nat) s.
Definition toy_update := updateFile (S := Toy.toy) (ent := nat) (pset := nat) no_text.
Definition add_user : list AccessControlEntry := [Ace ACL_USER 1000 (Some 7)].
Lemma updateFile_correct_witness :
  post (fun _ s' => toy_acl s' (str "f") ACL_TYPE_ACCESS =
          apply_all false true add_user (toy_acl Toy.demo (str "f") ACL_TYPE_ACCESS))
    (partly (ent := nat) (pset := nat) false true add_user (str "f") ACL_TYPE_ACCESS (toy_acl Toy.demo (str "f") ACL_TYPE_ACCESS))
    (toy_update 10 false true (str "f") ACL_TYPE_ACCESS add_user Toy.demo).
Proof.
  apply (updateFile_correct (ent := nat) (pset := nat) no_text 10 false true (str "f") ACL_TYPE_ACCESS add_user Toy.demo).
  - vm_compute. lia.
  - intros _. repeat constructor. by eexists.
Defined.

Lemma explicit_mask_lost_witness :
  post (fun _ s' => toy_acl s' (str "f") ACL_TYPE_ACCESS = calc_mask (toy_acl Toy.demo (str "f") ACL_TYPE_ACCESS))
    (fun e _ => e = EExit EXIT_FAILURE \/ e = EAbort)
    (toy_update 10 false true (str "f") ACL_TYPE_ACCESS [Ace ACL_MASK 0 (Some 7)] Toy.demo).
Proof.
  apply (explicit_mask_lost (ent := nat) (pset := nat) no_text 10 (str "f") ACL_TYPE_ACCESS 7 Toy.demo). vm_compute. lia.
Defined.

(** The update run to its end: the new user's entry and the mask. *)
Example add_user_run :
  let s' := (toy_update 10 false true (str "f") ACL_TYPE_ACCESS add_user Toy.demo).2 in
  (toy_acl s' (str "f") ACL_TYPE_ACCESS !! (ACL_USER, 1000), toy_acl s' (str "f") ACL_TYPE_ACCESS !! (ACL_MASK, 0))
  = (Some 7, Some 7).
Proof. vm_compute. reflexivity. Qed.
