(* ===== verification/Bpf.v ===== *)
(** Classic BPF as seccomp uses it, and the filters of book-src/seccomp/: what
    each of them decides on every system call. *)
From S2P Require Import Prelude CLib Sys.
#[local] Open Scope Z_scope.

(** * The machine *)

(** struct sock_filter *)
Record sock_filter := Insn { code : Z; jt : nat; jf : nat; k : Z }.

Definition BPF_LD : Z := 0x00.
Definition BPF_JMP : Z := 0x05.
Definition BPF_RET : Z := 0x06.
Definition BPF_W : Z := 0x00.
Definition BPF_ABS : Z := 0x20.
Definition BPF_JA : Z := 0x00.
Definition BPF_JEQ : Z := 0x10.
Definition BPF_JGT : Z := 0x20.
Definition BPF_JGE : Z := 0x30.
Definition BPF_JSET : Z := 0x40.
Definition BPF_K : Z := 0x00.
Definition BPF_STMT (c v : Z) : sock_filter := Insn c 0 0 v.
Definition BPF_JUMP (c v : Z) (t f : nat) : sock_filter := Insn c t f v.

(** The instructions of the filters, decoded. *)
Inductive insn :=
| Load (off : Z)
| Jump (n : Z)
| Branch (test : Z -> Z -> bool) (v : Z) (t f : nat)
| Return (v : Z).
Definition test_jeq (A v : Z) : bool := A =? v.
Definition test_jgt (A v : Z) : bool := A >? v.
Definition test_jge (A v : Z) : bool := A >=? v.
Definition test_jset (A v : Z) : bool := has_bits A v.
Definition decode (i : sock_filter) : option insn :=
  let c := code i in
  if c =? Z.lor (Z.lor BPF_LD BPF_W) BPF_ABS then Some (Load (k i))
  else if c =? Z.lor BPF_JMP BPF_JA then Some (Jump (k i))
  else if c =? Z.lor (Z.lor BPF_JMP BPF_JEQ) BPF_K then Some (Branch test_jeq (k i) (jt i) (jf i))
  else if c =? Z.lor (Z.lor BPF_JMP BPF_JGT) BPF_K then Some (Branch test_jgt (k i) (jt i) (jf i))
  else if c =? Z.lor (Z.lor BPF_JMP BPF_JGE) BPF_K then Some (Branch test_jge (k i) (jt i) (jf i))
  else if c =? Z.lor (Z.lor BPF_JMP BPF_JSET) BPF_K then Some (Branch test_jset (k i) (jt i) (jf i))
  else if c =? Z.lor BPF_RET BPF_K then Some (Return (k i))
  else None.

(** struct seccomp_data; the six arguments are 64-bit words. *)
Record seccomp_data := Data { nr : Z; arch : Z; ip : Z; args : list Z }.
Definition arg (d : seccomp_data) (i : nat) : Z := default 0 (args d !! i).

Definition off_nr : Z := 0.
Definition off_arch : Z := 4.
Definition off_arg (i : nat) : Z := 16 + 8 * Z.of_nat i.

(** The 32-bit word at an offset of a seccomp_data, on a little-endian machine. *)
Definition low (x : Z) : Z := x mod 2 ^ 32.
Definition high (x : Z) : Z := (x / 2 ^ 32) mod 2 ^ 32.
Definition word (d : seccomp_data) (off : Z) : option Z :=
  if off =? 0 then Some (u32 (nr d))
  else if off =? 4 then Some (u32 (arch d))
  else if (off mod 4 =? 0) && (8 <=? off) && (off <? 64) then
    let x := if off <? 16 then ip d else arg d (Z.to_nat ((off - 16) / 8)) in
    Some (if off mod 8 =? 0 then low x else high x)
  else None.

(** Runs a program from instruction [pc] with accumulator [A]; [None] if it goes
    wrong (or runs out of fuel). *)
Fixpoint run (fuel : nat) (prog : list sock_filter) (d : seccomp_data) (pc : nat) (A : Z) : option Z :=
  match fuel with
  | O => None
  | S fuel =>
      match prog !! pc ≫= decode with
      | None => None
      | Some (Load off) => match word d off with Some w => run fuel prog d (S pc) w | None => None end
      | Some (Jump n) => run fuel prog d (S pc + Z.to_nat n) A
      | Some (Branch test v t f) =>
          if test A v then run fuel prog d (S pc + t) A else run fuel prog d (S pc + f) A
      | Some (Return v) => Some v
      end
  end.
Definition run_filter (prog : list sock_filter) (d : seccomp_data) : option Z :=
  run (length prog) prog d 0 0.

(** What the kernel checks when a filter is installed: the length, that every
    instruction is known, that loads are aligned and within the data, that
    jumps stay inside and that the last instruction returns. *)
Definition insn_ok (len pc : nat) (i : sock_filter) : bool :=
  match decode i with
  | None => false
  | Some (Load off) => (off mod 4 =? 0) && (0 <=? off) && (off <? 64)
  | Some (Jump n) => (0 <=? n) && (S pc + Z.to_nat n <? len)%nat
  | Some (Branch _ _ t f) => (S pc + t <? len)%nat && (S pc + f <? len)%nat
  | Some (Return v) => (0 <=? v) && (v <? 2 ^ 32)
  end.
Definition is_return (i : sock_filter) : bool :=
  match decode i with Some (Return _) => true | _ => false end.
Fixpoint insns_ok (len pc : nat) (prog : list sock_filter) : bool :=
  match prog with
  | [] => true
  | i :: prog' => insn_ok len pc i && insns_ok len (S pc) prog'
  end.
Definition filter_ok (prog : list sock_filter) : bool :=
  (0 <? length prog)%nat && (length prog <=? Z.to_nat 4096)%nat &&
  insns_ok (length prog) 0 prog &&
  match last prog with Some i => is_return i | None => false end.

(** ** Checked programs do not go wrong *)

Lemma insns_ok_lookup len prog : forall pc0 pc i,
  insns_ok len pc0 prog = true -> prog !! pc = Some i -> insn_ok len (pc0 + pc) i = true.
Proof.
  induction prog as [|j prog IH]; intros pc0 pc i Hok Hi; [done|].
  simpl in Hok. apply andb_true_iff in Hok as [Hj Hok]. destruct pc as [|pc]; simpl in Hi.
  - injection Hi as ->. by rewrite Nat.add_0_r.
  - rewrite <- Nat.add_succ_comm. by apply IH.
Qed.

Lemma word_in_range d off : (off mod 4 =? 0) && (0 <=? off) && (off <? 64) = true -> is_Some (word d off).
Proof.
  intros Hr. unfold word. destruct (Z.eqb_spec off 0); [by eexists|]. destruct (Z.eqb_spec off 4); [by eexists|].
  rewrite !andb_true_iff in Hr. destruct Hr as [[Hm Hlo] Hhi].
  assert (8 <= off).
  { apply Z.eqb_eq in Hm. pose proof (Z.div_mod off 4 ltac:(lia)) as Hd. rewrite Hm in Hd. lia. }
  rewrite Hm, Hhi. rewrite (proj2 (Z.leb_le 8 off)) by done. by eexists.
Qed.

Lemma run_returns prog d : filter_ok prog = true ->
  forall fuel pc A, (pc < length prog)%nat -> (length prog <= fuel + pc)%nat ->
  exists r, run fuel prog d pc A = Some r /\ 0 <= r < 2 ^ 32.
Proof.
  intros Hok. unfold filter_ok in Hok. rewrite !andb_true_iff in Hok. destruct Hok as [[[_ _] Hok] Hlast].
  induction fuel as [|fuel IH]; intros pc A Hpc Hfuel; [lia|].
  destruct (lookup_lt_is_Some_2 prog pc Hpc) as [i Hi].
  pose proof (insns_ok_lookup _ _ _ _ _ Hok Hi) as Hins. simpl in Hins. unfold insn_ok in Hins.
  cbn [run]. rewrite Hi. cbn [mbind option_bind].
  destruct (decode i) as [[off|n|test v t f|v]|] eqn:Hdec; [| | | |done].
  - destruct (word_in_range d off Hins) as [w ->].
    assert (S pc <> length prog).
    { intros Heq. rewrite last_lookup, <- Heq in Hlast. simpl in Hlast. rewrite Hi in Hlast.
      unfold is_return in Hlast. by rewrite Hdec in Hlast. }
    apply IH; lia.
  - apply andb_true_iff in Hins as [_ Hins]. apply Nat.ltb_lt in Hins. apply IH; lia.
  - apply andb_true_iff in Hins as [Ht Hf]. apply Nat.ltb_lt in Ht, Hf. destruct (test A v); apply IH; lia.
  - apply andb_true_iff in Hins as [H0 Hv]. exists v. split; [done|]. lia.
Qed.

Lemma filter_ok_runs prog d : filter_ok prog = true -> exists r, run_filter prog d = Some r /\ 0 <= r < 2 ^ 32.
Proof.
  intros Hok. apply run_returns; [done| |lia]. unfold filter_ok in Hok.
  rewrite !andb_true_iff in Hok. destruct Hok as [[[Hlen _] _] _]. by apply Nat.ltb_lt.
Qed.

(** * Constants of the filters *)

Definition AUDIT_ARCH_X86_64 : Z := 0xC000003E.
Definition AUDIT_ARCH_I386 : Z := 0x40000003.
Definition SECCOMP_RET_KILL_PROCESS : Z := 0x80000000.
Definition SECCOMP_RET_KILL : Z := 0.
Definition SECCOMP_RET_TRAP : Z := 0x00030000.
Definition SECCOMP_RET_ERRNO : Z := 0x00050000.
Definition SECCOMP_RET_USER_NOTIF : Z := 0x7fc00000.
Definition SECCOMP_RET_TRACE : Z := 0x7ff00000.
Definition SECCOMP_RET_LOG : Z := 0x7ffc0000.
Definition SECCOMP_RET_ALLOW : Z := 0x7fff0000.

(** System calls of x86-64, and flags of open(). *)
Definition NR_open : Z := 2.
Definition NR_lseek : Z := 8.
Definition NR_mkdir : Z := 83.
Definition NR_getppid : Z := 110.
Definition NR_openat : Z := 257.
Definition O_WRONLY : Z := 1.
Definition O_RDWR : Z := 2.
Definition O_CREAT : Z := 0x40.
Definition ENOTSUP : Z := 95.

(** Source: book-src/seccomp/seccomp_multiarch.c:141-147 (X32_SYSCALL_BIT, NR_mq_notify_x86_64). *)
Definition X32_SYSCALL_BIT : Z := 0x40000000.
Definition NR_mq_notify_x86_64 : Z := 244.
Definition NR_mq_notify_i386 : Z := 281.
Definition NR_mq_notify_x32 : Z := 527.

Definition LD (off : Z) : sock_filter := BPF_STMT (Z.lor (Z.lor BPF_LD BPF_W) BPF_ABS) off.
Definition JEQ : Z -> nat -> nat -> sock_filter := BPF_JUMP (Z.lor (Z.lor BPF_JMP BPF_JEQ) BPF_K).
Definition JGT : Z -> nat -> nat -> sock_filter := BPF_JUMP (Z.lor (Z.lor BPF_JMP BPF_JGT) BPF_K).
Definition JGE : Z -> nat -> nat -> sock_filter := BPF_JUMP (Z.lor (Z.lor BPF_JMP BPF_JGE) BPF_K).
Definition JSET : Z -> nat -> nat -> sock_filter := BPF_JUMP (Z.lor (Z.lor BPF_JMP BPF_JSET) BPF_K).
Definition JA : Z -> nat -> nat -> sock_filter := BPF_JUMP (Z.lor BPF_JMP BPF_JA).
Definition RET (v : Z) : sock_filter := BPF_STMT (Z.lor BPF_RET BPF_K) v.

(** * The filters *)

(** Source: book-src/seccomp/seccomp_arg64.c:62-111 (install_filter, filter). *)
Definition filter_arg64 : list sock_filter := [
  LD off_arch;
  JEQ AUDIT_ARCH_X86_64 0 2;
  LD off_nr;
  JGE X32_SYSCALL_BIT 0 1;
  RET SECCOMP_RET_KILL_PROCESS;
  JEQ NR_lseek 1 0;
  RET SECCOMP_RET_ALLOW;
  LD (off_arg 1 + 4);
  JEQ 0 1 0;
  RET (Z.lor SECCOMP_RET_ERRNO 2);
  LD (off_arg 1);
  JGT 1000 0 1;
  RET (Z.lor SECCOMP_RET_ERRNO 1);
  RET SECCOMP_RET_ALLOW ].

(** Source: book-src/seccomp/seccomp_control_open.c:50-107 (install_filter, filter). *)
Definition filter_control_open : list sock_filter := [
  LD off_arch;
  JEQ AUDIT_ARCH_X86_64 0 2;
  LD off_nr;
  JGE X32_SYSCALL_BIT 0 1;
  RET SECCOMP_RET_KILL_PROCESS;
  JEQ NR_open 2 0;
  JEQ NR_openat 3 0;
  RET SECCOMP_RET_ALLOW;
  LD (off_arg 1);
  JA 1 0 0;
  LD (off_arg 2);
  JSET O_CREAT 0 1;
  RET SECCOMP_RET_KILL_PROCESS;
  JSET (Z.lor O_WRONLY O_RDWR) 0 1;
  RET (Z.lor SECCOMP_RET_ERRNO ENOTSUP);
  RET SECCOMP_RET_ALLOW ].

(** Source: book-src/seccomp/seccomp_deny_open.c:50-78 (install_filter, filter). *)
Definition filter_deny_open : list sock_filter := [
  LD off_arch;
  JEQ AUDIT_ARCH_X86_64 1 0;
  RET SECCOMP_RET_KILL_PROCESS;
  LD off_nr;
  JGE X32_SYSCALL_BIT 0 1;
  RET SECCOMP_RET_KILL_PROCESS;
  JEQ NR_open 2 0;
  JEQ NR_openat 1 0;
  RET SECCOMP_RET_ALLOW;
  RET SECCOMP_RET_KILL_PROCESS ].

(** Source: book-src/seccomp/seccomp_perf.c:61-89 (install_filter, filter). *)
Definition filter_perf : list sock_filter := [
  LD off_arch;
  JEQ AUDIT_ARCH_X86_64 0 2;
  LD off_nr;
  JGE X32_SYSCALL_BIT 0 1;
  RET SECCOMP_RET_KILL_PROCESS;
  JEQ NR_open 1 0;
  RET SECCOMP_RET_ALLOW;
  RET SECCOMP_RET_KILL_PROCESS ].

(** Source: book-src/seccomp/seccomp_trap_sigsys.c:43-69 (install_filter, filter). *)
Definition filter_trap : list sock_filter := [
  LD off_arch;
  JEQ AUDIT_ARCH_X86_64 1 0;
  RET SECCOMP_RET_KILL;
  LD off_nr;
  JGE X32_SYSCALL_BIT 0 1;
  RET SECCOMP_RET_KILL_PROCESS;
  JEQ NR_getppid 0 1;
  RET SECCOMP_RET_TRAP;
  RET SECCOMP_RET_ALLOW ].

(** Source: book-src/seccomp/seccomp_logging.c:59-82 (install_filter, filter). *)
Definition filter_logging : list sock_filter := [
  LD off_arch;
  JEQ AUDIT_ARCH_X86_64 0 2;
  LD off_nr;
  JGE X32_SYSCALL_BIT 0 1;
  RET SECCOMP_RET_KILL_PROCESS;
  RET SECCOMP_RET_LOG ].

(** Source: book-src/seccomp/seccomp_multiarch.c:159-233 (install_filter, filter). *)
Definition filter_multiarch : list sock_filter := [
  LD off_arch;
  JEQ AUDIT_ARCH_X86_64 0 5;
  LD off_nr;
  JEQ NR_mq_notify_x86_64 0 1;
  RET (Z.lor SECCOMP_RET_ERRNO NR_mq_notify_x86_64);
  JEQ (NR_mq_notify_x32 + X32_SYSCALL_BIT) 0 5;
  RET (Z.lor SECCOMP_RET_ERRNO NR_mq_notify_x32);
  JEQ AUDIT_ARCH_I386 0 4;
  LD off_nr;
  JEQ NR_mq_notify_i386 0 1;
  RET (Z.lor SECCOMP_RET_ERRNO NR_mq_notify_i386);
  RET SECCOMP_RET_ALLOW;
  RET SECCOMP_RET_KILL_PROCESS ].

(** Source: book-src/seccomp/seccomp_user_notification.c:110-117 (X86_64_CHECK_ARCH_AND_LOAD_SYSCALL_NR). *)
Definition X86_64_CHECK_ARCH_AND_LOAD_SYSCALL_NR : list sock_filter := [
  LD off_arch;
  JEQ AUDIT_ARCH_X86_64 0 2;
  LD off_nr;
  JGE X32_SYSCALL_BIT 0 1;
  RET SECCOMP_RET_KILL_PROCESS ].

(** Source: book-src/seccomp/seccomp_user_notification.c:129-140 (installNotifyFilter, filter). *)
Definition filter_notify : list sock_filter := X86_64_CHECK_ARCH_AND_LOAD_SYSCALL_NR ++ [
  JEQ NR_mkdir 0 1;
  RET SECCOMP_RET_USER_NOTIF;
  RET SECCOMP_RET_ALLOW ].

(** The last instruction, { 0, 0, 0, 0 }, is overwritten before the filter is
    installed. *)
(** Source: book-src/seccomp/seccomp_user_notification.c:168-204 (installFilter2, filter). *)
Definition filter2 (secondFilter : Z) : list sock_filter :=
  let filter := X86_64_CHECK_ARCH_AND_LOAD_SYSCALL_NR ++ [
    JEQ NR_mkdir 1 0;
    RET SECCOMP_RET_ALLOW;
    Insn 0 0 0 0 ] in
  let retTrace := RET SECCOMP_RET_TRACE in
  let retErrno := RET (Z.lor SECCOMP_RET_ERRNO ENOTSUP) in
  <[(length filter - 1)%nat := if secondFilter =? SECCOMP_RET_ERRNO then retErrno else retTrace]> filter.

(** * What they decide *)

(** The decision of a filter for x86-64 that refuses the x32 calls. *)
Definition x86_64_only (d : seccomp_data) (policy : Z) : Z :=
  if u32 (arch d) =? AUDIT_ARCH_X86_64 then
    if u32 (nr d) >=? X32_SYSCALL_BIT then SECCOMP_RET_KILL_PROCESS else policy
  else SECCOMP_RET_KILL_PROCESS.

Definition called (n : Z) (d : seccomp_data) : bool := u32 (nr d) =? n.
(** An argument as the 64-bit number that it is. *)
Definition arg64 (d : seccomp_data) (i : nat) : Z := arg d i mod 2 ^ 64.

Definition policy_arg64 (d : seccomp_data) : Z :=
  if called NR_lseek d then
    if arg64 d 1 <=? 1000 then SECCOMP_RET_ALLOW
    else if arg64 d 1 <? 2 ^ 32 then Z.lor SECCOMP_RET_ERRNO 1
    else Z.lor SECCOMP_RET_ERRNO 2
  else SECCOMP_RET_ALLOW.

(** The flags of a call that opens a file. *)
Definition open_flags (d : seccomp_data) : option Z :=
  if called NR_open d then Some (low (arg d 1))
  else if called NR_openat d then Some (low (arg d 2)) else None.
Definition policy_control_open (d : seccomp_data) : Z :=
  match open_flags d with
  | None => SECCOMP_RET_ALLOW
  | Some flags =>
      if has_bits flags O_CREAT then SECCOMP_RET_KILL_PROCESS
      else if has_bits flags O_WRONLY || has_bits flags O_RDWR then Z.lor SECCOMP_RET_ERRNO ENOTSUP
      else SECCOMP_RET_ALLOW
  end.
Definition policy_deny_open (d : seccomp_data) : Z :=
  match open_flags d with Some _ => SECCOMP_RET_KILL_PROCESS | None => SECCOMP_RET_ALLOW end.
Definition policy_perf (d : seccomp_data) : Z :=
  if called NR_open d then SECCOMP_RET_KILL_PROCESS else SECCOMP_RET_ALLOW.
Definition policy_trap (d : seccomp_data) : Z :=
  if called NR_getppid d then SECCOMP_RET_TRAP else SECCOMP_RET_ALLOW.
Definition policy_multiarch (d : seccomp_data) : Z :=
  if u32 (arch d) =? AUDIT_ARCH_X86_64 then
    if called 244 d then Z.lor SECCOMP_RET_ERRNO 244
    else if called (0x40000000 + 527) d then Z.lor SECCOMP_RET_ERRNO 527
    else SECCOMP_RET_ALLOW
  else if u32 (arch d) =? AUDIT_ARCH_I386 then
    if called 281 d then Z.lor SECCOMP_RET_ERRNO 281 else SECCOMP_RET_ALLOW
  else SECCOMP_RET_KILL_PROCESS.
Definition policy_mkdir (action : Z) (d : seccomp_data) : Z :=
  if called NR_mkdir d then action else SECCOMP_RET_ALLOW.

(** ** Running them *)

Lemma word_arg_low d i : (i < 6)%nat -> word d (off_arg i) = Some (low (arg d i)).
Proof. intros Hi. do 6 (destruct i as [|i]; [reflexivity|]). lia. Qed.
Lemma word_arg_high d i : (i < 6)%nat -> word d (off_arg i + 4) = Some (high (arg d i)).
Proof. intros Hi. do 6 (destruct i as [|i]; [reflexivity|]). lia. Qed.

(** Evaluates a filter down to its tests on the data. *)
Ltac run_filter_tac :=
  match goal with
  | |- run_filter ?f ?d = _ =>
      let r := eval cbv -[u32 low high arg nr arch ip test_jeq test_jgt test_jge test_jset] in (run_filter f d) in
      change (run_filter f d) with r
  end.
(** The case analysis on the tests of both sides. *)
Ltac tests_tac :=
  unfold open_flags, x86_64_only, called, test_jeq, test_jgt, test_jge, test_jset,
    AUDIT_ARCH_X86_64, AUDIT_ARCH_I386, X32_SYSCALL_BIT, NR_open, NR_openat, NR_lseek, NR_mkdir,
    NR_getppid, O_CREAT, O_WRONLY, O_RDWR in *; cbn [Z.add Pos.add];
  repeat case_match; try done; try (simplify_eq; done); try lia.

Lemma split64 x : x mod 2 ^ 64 = high x * 2 ^ 32 + low x.
Proof.
  unfold high, low. change (2 ^ 64) with (2 ^ 32 * 2 ^ 32). rewrite Z.rem_mul_r by lia. lia.
Qed.
Lemma low_range x : 0 <= low x < 2 ^ 32.
Proof. apply Z.mod_pos_bound. lia. Qed.
Lemma high_range x : 0 <= high x < 2 ^ 32.
Proof. apply Z.mod_pos_bound. lia. Qed.

Lemma has_bits_lor x a b : has_bits x (Z.lor a b) = has_bits x a || has_bits x b.
Proof.
  unfold has_bits. rewrite Z.land_lor_distr_r.
  destruct (Z.eqb_spec (Z.land x a) 0) as [->|Ha]; [by rewrite Z.lor_0_l|].
  destruct (Z.eqb_spec (Z.lor (Z.land x a) (Z.land x b)) 0) as [Hl|]; [|done].
  by apply Z.lor_eq_0_iff in Hl as [? _].
Qed.

Lemma filter_deny_open_run d : run_filter filter_deny_open d = Some (x86_64_only d (policy_deny_open d)).
Proof. run_filter_tac. unfold policy_deny_open. tests_tac. Qed.

Lemma filter_perf_run d : run_filter filter_perf d = Some (x86_64_only d (policy_perf d)).
Proof. run_filter_tac. unfold policy_perf. tests_tac. Qed.

Lemma filter_logging_run d : run_filter filter_logging d = Some (x86_64_only d SECCOMP_RET_LOG).
Proof. run_filter_tac. tests_tac. Qed.

Lemma filter_notify_run d : run_filter filter_notify d = Some (x86_64_only d (policy_mkdir SECCOMP_RET_USER_NOTIF d)).
Proof. run_filter_tac. unfold policy_mkdir. tests_tac. Qed.

Lemma filter_multiarch_run d : run_filter filter_multiarch d = Some (policy_multiarch d).
Proof. run_filter_tac. unfold policy_multiarch. tests_tac. Qed.

(** The one filter whose first check kills the thread, not the process. *)
Lemma filter_trap_run d : run_filter filter_trap d =
  Some (if u32 (arch d) =? AUDIT_ARCH_X86_64 then x86_64_only d (policy_trap d) else SECCOMP_RET_KILL).
Proof. run_filter_tac. unfold policy_trap. tests_tac. Qed.

Lemma filter2_run f d : run_filter (filter2 f) d = Some (x86_64_only d (policy_mkdir
  (if f =? SECCOMP_RET_ERRNO then Z.lor SECCOMP_RET_ERRNO ENOTSUP else SECCOMP_RET_TRACE) d)).
Proof.
  unfold filter2. destruct (f =? SECCOMP_RET_ERRNO); run_filter_tac; unfold policy_mkdir; tests_tac.
Qed.

Lemma filter_control_open_run d :
  run_filter filter_control_open d = Some (x86_64_only d (policy_control_open d)).
Proof.
  run_filter_tac. unfold policy_control_open. change 3 with (Z.lor O_WRONLY O_RDWR).
  unfold test_jset. rewrite !has_bits_lor. tests_tac.
Qed.

Lemma filter_arg64_run d : run_filter filter_arg64 d = Some (x86_64_only d (policy_arg64 d)).
Proof.
  run_filter_tac. unfold policy_arg64, arg64. rewrite split64.
  pose proof (low_range (arg d 1)). pose proof (high_range (arg d 1)). tests_tac.
Qed.

Lemma arg64_offset_run d off :
  u32 (arch d) = AUDIT_ARCH_X86_64 -> u32 (nr d) = NR_lseek ->
  - 2 ^ 63 <= off < 2 ^ 63 -> arg d 1 = off mod 2 ^ 64 ->
  run_filter filter_arg64 d =
  Some (if (0 <=? off) && (off <=? 1000) then SECCOMP_RET_ALLOW
        else if (0 <=? off) && (off <? 2 ^ 32) then Z.lor SECCOMP_RET_ERRNO 1
        else Z.lor SECCOMP_RET_ERRNO 2).
Proof.
  intros Ha Hn Hoff Harg. rewrite filter_arg64_run. f_equal.
  unfold x86_64_only, policy_arg64, called, arg64. rewrite Ha, Hn, Harg, Z.mod_mod by done.
  change (NR_lseek >=? X32_SYSCALL_BIT) with false. rewrite !Z.eqb_refl.
  destruct (Z.leb_spec 0 off).
  - rewrite (Z.mod_small off) by lia. done.
  - replace (off mod 2 ^ 64) with (off + 2 ^ 64) by (rewrite <- (Z.mod_small (off + 2 ^ 64) (2 ^ 64)) by lia;
      rewrite <- Z.add_mod_idemp_r, Z.mod_same, Z.add_0_r by done; done).
    simpl andb. cbv iota.
    destruct (Z.leb_spec (off + 2 ^ 64) 1000); [lia|]. destruct (Z.ltb_spec (off + 2 ^ 64) (2 ^ 32)); [lia|done].
Qed.

(** * Theorems *)

Definition all_filters : list (list sock_filter) :=
  [filter_arg64; filter_control_open; filter_deny_open; filter_perf; filter_trap; filter_logging;
   filter_multiarch; filter_notify; filter2 SECCOMP_RET_ERRNO; filter2 SECCOMP_RET_TRACE].

(** C33: Every filter of the directory is a well-formed BPF program: the kernel accepts
    it, and on any system call, of any architecture and with any arguments, it runs
    to a 32-bit result without a bad load, jump or instruction. *)
Theorem filters_accepted :
  Forall (fun f => filter_ok f = true /\
    forall d, exists r, run_filter f d = Some r /\ 0 <= r < 2 ^ 32) all_filters.
Proof.
  apply Forall_forall. intros f Hf.
  assert (Hok : filter_ok f = true).
  { revert f Hf. apply Forall_forall. apply (bool_decide_unpack _). vm_compute. exact I. }
  split; [done|]. intros d. by apply filter_ok_runs.
Qed.

(** C25: On every system call each filter gives the decision its program documents: the
    BPF code is equivalent to the policy, with the 64-bit offset of lseek() compared
    as a whole though BPF loads it in halves, and with the flags of open() and
    openat() in their different places. *)
Theorem filters_decide d :
  run_filter filter_arg64 d = Some (x86_64_only d (policy_arg64 d)) /\
  run_filter filter_control_open d = Some (x86_64_only d (policy_control_open d)) /\
  run_filter filter_deny_open d = Some (x86_64_only d (policy_deny_open d)) /\
  run_filter filter_perf d = Some (x86_64_only d (policy_perf d)) /\
  run_filter filter_trap d =
    Some (if u32 (arch d) =? AUDIT_ARCH_X86_64 then x86_64_only d (policy_trap d) else SECCOMP_RET_KILL) /\
  run_filter filter_logging d = Some (x86_64_only d SECCOMP_RET_LOG) /\
  run_filter filter_multiarch d = Some (policy_multiarch d) /\
  run_filter filter_notify d = Some (x86_64_only d (policy_mkdir SECCOMP_RET_USER_NOTIF d)) /\
  (forall f, run_filter (filter2 f) d = Some (x86_64_only d (policy_mkdir
    (if f =? SECCOMP_RET_ERRNO then Z.lor SECCOMP_RET_ERRNO ENOTSUP else SECCOMP_RET_TRACE) d))).
Proof.
  split_and!; auto using filter_arg64_run, filter_control_open_run, filter_deny_open_run, filter_perf_run,
    filter_trap_run, filter_logging_run, filter_multiarch_run, filter_notify_run, filter2_run.
Qed.

(** Seen as the signed number that lseek() takes, the offset passes the filter of
    seccomp_arg64.c exactly from 0 to 1000: offsets above fail with error 1, or 2
    when they do not fit in 32 bits, and so do the negative ones, which the program
    does not mention. *)
Theorem arg64_offset_bounds d off :
  u32 (arch d) = AUDIT_ARCH_X86_64 -> u32 (nr d) = NR_lseek ->
  - 2 ^ 63 <= off < 2 ^ 63 -> arg d 1 = off mod 2 ^ 64 ->
  run_filter filter_arg64 d =
  Some (if (0 <=? off) && (off <=? 1000) then SECCOMP_RET_ALLOW
        else if (0 <=? off) && (off <? 2 ^ 32) then Z.lor SECCOMP_RET_ERRNO 1
        else Z.lor SECCOMP_RET_ERRNO 2).
Proof. apply arg64_offset_run. Qed.

Lemma arg64_offset_bounds_witness :
  run_filter filter_arg64 (Data NR_lseek AUDIT_ARCH_X86_64 0 [3; 2 ^ 64 - 1; 0]) = Some (Z.lor SECCOMP_RET_ERRNO 2).
Proof.
  apply (arg64_offset_bounds (Data NR_lseek AUDIT_ARCH_X86_64 0 [3; 2 ^ 64 - 1; 0]) (-1)); try reflexivity.
  split; [lia|]. lia.
Defined.
