(* ===== verification/Memory.v ===== *)
(** Buffers of bytes: integers of machine width, least significant byte first,
    loads and stores with their bounds. *)
From S2P Require Import Prelude CLib.
#[local] Open Scope Z_scope.

(** * Integers in memory *)

Fixpoint le_bytes (n : nat) (v : Z) : list Z :=
  match n with
  | O => []
  | S n' => v mod 256 :: le_bytes n' (v / 256)
  end.
Fixpoint le_val (bs : list Z) : Z :=
  match bs with
  | [] => 0
  | b :: bs' => b + 256 * le_val bs'
  end.

Lemma length_le_bytes n v : length (le_bytes n v) = n.
Proof. revert v. induction n as [|n IH]; intros v; simpl; [done|]. by rewrite IH. Qed.

Lemma le_val_bytes n v : le_val (le_bytes n v) = v mod 256 ^ Z.of_nat n.
Proof.
  revert v. induction n as [|n IH]; intros v; simpl le_val; [by rewrite Z.mod_1_r|].
  rewrite IH, Nat2Z.inj_succ, Z.pow_succ_r, Z.rem_mul_r by lia. done.
Qed.

Lemma le_val_u32 v : le_val (le_bytes 4 v) = u32 v.
Proof. apply (le_val_bytes 4). Qed.

Lemma i32_u32 v : i32 (u32 v) = i32 v.
Proof. unfold i32, u32, wrap_s, wrap_u. by rewrite Z.mod_mod. Qed.

(** An [int] that was stored is read back. *)
Lemma int_roundtrip v : INT_MIN <= v <= INT_MAX -> i32 (le_val (le_bytes 4 v)) = v.
Proof. intros Hv. by rewrite le_val_u32, i32_u32, i32_id. Qed.

(** * Loads and stores *)

Section buffers.
Context {B : Type}.
Implicit Types buf bs pre post old : list B.

(** [None] when the access is out of bounds. *)
Definition load (off n : nat) buf : option (list B) :=
  if (off + n <=? length buf)%nat then Some (take n (drop off buf)) else None.
Definition store (off : nat) bs buf : option (list B) :=
  if (off + length bs <=? length buf)%nat
  then Some (take off buf ++ bs ++ drop (off + length bs) buf) else None.

Lemma load_mid pre bs post off n :
  off = length pre -> n = length bs -> load off n (pre ++ bs ++ post) = Some bs.
Proof.
  intros -> ->. unfold load. rewrite !length_app.
  destruct (Nat.leb_spec (length pre + length bs) (length pre + (length bs + length post))); [|lia].
  by rewrite drop_app_length, take_app_length.
Qed.

Lemma store_mid pre bs old post off :
  off = length pre -> length old = length bs ->
  store off bs (pre ++ old ++ post) = Some (pre ++ bs ++ post).
Proof.
  intros -> Hlen. unfold store. rewrite !length_app, Hlen.
  destruct (Nat.leb_spec (length pre + length bs) (length pre + (length bs + length post))); [|lia].
  rewrite take_app_length, <- drop_drop, drop_app_length, drop_app_length' by done. done.
Qed.

Lemma length_store off bs buf buf' : store off bs buf = Some buf' -> length buf' = length buf.
Proof.
  unfold store. destruct (Nat.leb_spec (off + length bs) (length buf)); [|done].
  intros [= <-]. rewrite !length_app, length_take, length_drop. lia.
Qed.

(** Any buffer splits at two places within it. *)
Lemma split_at off n buf : (off + n <= length buf)%nat ->
  exists pre old post, buf = pre ++ old ++ post /\ length pre = off /\ length old = n.
Proof.
  intros Hl. exists (take off buf), (take n (drop off buf)), (drop n (drop off buf)).
  rewrite !take_drop. split_and!; [done| |]; rewrite length_take, ?length_drop; lia.
Qed.
End buffers.
