(* ===== verification/Cmsg.v ===== *)
(** Control messages of <sys/socket.h>: the layout that sendmsg(2) and recvmsg(2)
    share with a program, the CMSG macros, and the walk through a buffer. *)
From S2P Require Import Prelude CLib Memory.
#[local] Open Scope Z_scope.

(** * The macros (x86-64, C library of GNU) *)

Definition SOL_SOCKET : Z := 1.
Definition SCM_RIGHTS : Z := 1.
Definition SCM_CREDENTIALS : Z := 2.

(** struct cmsghdr: size_t cmsg_len, int cmsg_level, int cmsg_type. *)
Definition sizeof_cmsghdr : nat := 16.
Definition sizeof_int : nat := 4.
Definition CMSG_ALIGN (len : nat) : nat := ((len + 7) / 8 * 8)%nat.
Definition CMSG_SPACE (len : nat) : nat := (CMSG_ALIGN len + sizeof_cmsghdr)%nat.
Definition CMSG_LEN (len : nat) : nat := (sizeof_cmsghdr + len)%nat.
Definition CMSG_DATA (cmsgp : nat) : nat := (cmsgp + sizeof_cmsghdr)%nat.

(** A pointer to a header is its offset in the buffer, whose length is
    [msg_controllen]. *)
Definition cmsg_len (buf : list Z) (p : nat) : option nat := (fun bs => Z.to_nat (le_val bs)) <$> load p 8 buf.
Definition cmsg_level (buf : list Z) (p : nat) : option Z := (fun bs => i32 (le_val bs)) <$> load (p + 8) 4 buf.
Definition cmsg_type (buf : list Z) (p : nat) : option Z := (fun bs => i32 (le_val bs)) <$> load (p + 12) 4 buf.
Definition set_cmsg_len (p len : nat) (buf : list Z) : option (list Z) := store p (le_bytes 8 (Z.of_nat len)) buf.
Definition set_cmsg_level (p : nat) (v : Z) (buf : list Z) : option (list Z) := store (p + 8) (le_bytes 4 v) buf.
Definition set_cmsg_type (p : nat) (v : Z) (buf : list Z) : option (list Z) := store (p + 12) (le_bytes 4 v) buf.

Definition CMSG_FIRSTHDR (buf : list Z) : option nat :=
  if (sizeof_cmsghdr <=? length buf)%nat then Some 0%nat else None.

(** The next header, if both this message and a header after it fit. *)
Definition CMSG_NXTHDR (buf : list Z) (p : nat) : option nat :=
  match cmsg_len buf p with
  | None => None
  | Some len =>
      if (len <? sizeof_cmsghdr)%nat then None
      else if (length buf <? p + CMSG_ALIGN len + sizeof_cmsghdr)%nat then None
      else Some (p + CMSG_ALIGN len)%nat
  end.

Lemma CMSG_ALIGN_ge n : (n <= CMSG_ALIGN n)%nat.
Proof.
  unfold CMSG_ALIGN. pose proof (Nat.div_mod_eq (n + 7) 8) as Hd.
  pose proof (Nat.mod_upper_bound (n + 7) 8 ltac:(lia)). lia.
Qed.
Lemma CMSG_ALIGN_header n : CMSG_ALIGN (CMSG_LEN n) = CMSG_SPACE n.
Proof.
  unfold CMSG_SPACE, CMSG_ALIGN, CMSG_LEN, sizeof_cmsghdr.
  replace (16 + n + 7)%nat with (n + 7 + 2 * 8)%nat by lia. rewrite Nat.div_add by lia. lia.
Qed.
#[global] Arguments CMSG_ALIGN : simpl never.
#[global] Arguments CMSG_SPACE : simpl never.
#[global] Arguments CMSG_LEN : simpl never.

(** * The walk *)

Record cmsg := Cmsg { cm_level : Z; cm_type : Z; cm_data : list Z }.

Definition header_at (buf : list Z) (p : nat) : option cmsg :=
  len ← cmsg_len buf p;
  level ← cmsg_level buf p;
  type ← cmsg_type buf p;
  data ← load (CMSG_DATA p) (len - sizeof_cmsghdr) buf;
  Some (Cmsg level type data).

(** The messages from a header on, as a loop over CMSG_NXTHDR() finds them. *)
Fixpoint walk (fuel : nat) (buf : list Z) (p : option nat) : option (list cmsg) :=
  match p with
  | None => Some []
  | Some p =>
      match fuel with
      | O => None
      | S fuel => m ← header_at buf p; ms ← walk fuel buf (CMSG_NXTHDR buf p); Some (m :: ms)
      end
  end.

(** The messages of a buffer: [None] when it is malformed. *)
Definition cmsgs (buf : list Z) : option (list cmsg) := walk (S (length buf)) buf (CMSG_FIRSTHDR buf).

(** The offsets that the loop visits. *)
Fixpoint headers (fuel : nat) (buf : list Z) (p : option nat) : option (list nat) :=
  match p with
  | None => Some []
  | Some p =>
      match fuel with
      | O => None
      | S fuel => cons p <$> headers fuel buf (CMSG_NXTHDR buf p)
      end
  end.

(** * The layout *)

Definition header (level type : Z) (datalen : nat) : list Z :=
  le_bytes 8 (Z.of_nat (CMSG_LEN datalen)) ++ le_bytes 4 level ++ le_bytes 4 type.

(** A message in memory, with the bytes that fill it up to its alignment. *)
Definition block (m : cmsg) (pad : list Z) : list Z :=
  header (cm_level m) (cm_type m) (length (cm_data m)) ++ cm_data m ++ pad.

#[global] Arguments header : simpl never.
#[global] Arguments block : simpl never.

Definition padded (m : cmsg) (pad : list Z) : Prop :=
  (length (cm_data m) + length pad = CMSG_ALIGN (length (cm_data m)))%nat.

(** The numbers of a message fit their fields. *)
Definition fits (m : cmsg) : Prop :=
  INT_MIN <= cm_level m <= INT_MAX /\ INT_MIN <= cm_type m <= INT_MAX /\
  Z.of_nat (CMSG_LEN (length (cm_data m))) < 2 ^ 64.

Lemma length_header l t n : length (header l t n) = sizeof_cmsghdr.
Proof. unfold header. by rewrite !length_app, !length_le_bytes. Qed.

Lemma length_block m pad : padded m pad -> length (block m pad) = CMSG_SPACE (length (cm_data m)).
Proof.
  intros Hp. unfold block, CMSG_SPACE. rewrite !length_app, length_header.
  unfold padded in Hp. lia.
Qed.

Section at_offset.
Context (pre post pad : list Z) (m : cmsg) (Hfit : fits m).
Let buf := pre ++ block m pad ++ post.

Lemma cmsg_len_at : cmsg_len buf (length pre) = Some (CMSG_LEN (length (cm_data m))).
Proof.
  unfold cmsg_len, buf, block, header. rewrite <- !app_assoc.
  rewrite load_mid by (rewrite ?length_le_bytes; done). cbn [fmap option_fmap option_map]. f_equal. rewrite le_val_bytes.
  destruct Hfit as (_ & _ & Hlen). rewrite Z.mod_small; [apply Nat2Z.id|].
  split; [lia|exact Hlen].
Qed.

Lemma cmsg_level_at : cmsg_level buf (length pre) = Some (cm_level m).
Proof.
  unfold cmsg_level, buf, block, header. rewrite <- !app_assoc.
  rewrite (app_assoc pre), load_mid by (rewrite ?length_app, ?length_le_bytes; done). cbn [fmap option_fmap option_map]. f_equal.
  apply int_roundtrip, Hfit.
Qed.

Lemma cmsg_type_at : cmsg_type buf (length pre) = Some (cm_type m).
Proof.
  unfold cmsg_type, buf, block, header. rewrite <- !app_assoc.
  rewrite (app_assoc pre), (app_assoc (pre ++ _)), load_mid
    by (rewrite ?length_app, ?length_le_bytes; lia || done). cbn [fmap option_fmap option_map]. f_equal.
  apply int_roundtrip, Hfit.
Qed.

Lemma data_at : load (CMSG_DATA (length pre)) (length (cm_data m)) buf = Some (cm_data m).
Proof.
  unfold buf, block, CMSG_DATA. rewrite <- !app_assoc, (app_assoc pre).
  apply load_mid; [|done]. by rewrite length_app, length_header.
Qed.

Lemma header_at_block : header_at buf (length pre) = Some m.
Proof.
  unfold header_at. rewrite cmsg_len_at, cmsg_level_at, cmsg_type_at. cbn [mbind option_bind].
  replace (CMSG_LEN (length (cm_data m)) - sizeof_cmsghdr)%nat with (length (cm_data m)) by (unfold CMSG_LEN; lia).
  rewrite data_at. by destruct m.
Qed.

Lemma next_block (Hpad : padded m pad) : CMSG_NXTHDR buf (length pre) =
  if (sizeof_cmsghdr <=? length post)%nat then Some (length (pre ++ block m pad)) else None.
Proof.
  unfold CMSG_NXTHDR. rewrite cmsg_len_at, CMSG_ALIGN_header.
  destruct (Nat.ltb_spec (CMSG_LEN (length (cm_data m))) sizeof_cmsghdr) as [Hlt|_]; [unfold CMSG_LEN in Hlt; lia|].
  unfold buf. rewrite !length_app, length_block by done.
  destruct (Nat.ltb_spec (length pre + (CMSG_SPACE (length (cm_data m)) + length post))
              (length pre + CMSG_SPACE (length (cm_data m)) + sizeof_cmsghdr));
    destruct (Nat.leb_spec sizeof_cmsghdr (length post)); (done || lia).
Qed.
End at_offset.

(** A buffer as the kernel and the programs lay it out. *)
Fixpoint encode (ms : list (cmsg * list Z)) : list Z :=
  match ms with
  | [] => []
  | (m, pad) :: ms' => block m pad ++ encode ms'
  end.

Lemma encode_nonempty m pad ms :
  (sizeof_cmsghdr <= length (encode ((m, pad) :: ms)))%nat.
Proof. cbn [encode]. unfold block. rewrite !length_app, length_header. lia. Qed.

Lemma walk_encode ms : forall pre fuel,
  Forall (fun x => fits x.1 /\ padded x.1 x.2) ms -> (length ms <= fuel)%nat ->
  walk fuel (pre ++ encode ms)
    (if (sizeof_cmsghdr <=? length (encode ms))%nat then Some (length pre) else None) = Some (ms.*1).
Proof.
  induction ms as [|[m pad] ms IH]; intros pre fuel Hok Hfuel; [by destruct fuel|].
  apply Forall_cons in Hok as [[Hfit Hpad] Hok]. simpl in Hfit, Hpad, Hfuel.
  pose proof (encode_nonempty m pad ms) as Hne. rewrite (proj2 (Nat.leb_le _ _)) by done.
  destruct fuel as [|fuel]; [lia|]. cbn [walk encode].
  rewrite header_at_block by done. cbn [mbind option_bind].
  rewrite next_block by done. rewrite app_assoc, IH by (done || lia). done.
Qed.

Lemma length_encode_ge ms : (length ms <= length (encode ms))%nat.
Proof.
  induction ms as [|[m pad] ms IH]; cbn [encode length]; [done|]. unfold block. rewrite !length_app, length_header.
  unfold sizeof_cmsghdr. lia.
Qed.

(** Reading back a buffer of messages. *)
Lemma cmsgs_encode ms :
  Forall (fun x => fits x.1 /\ padded x.1 x.2) ms -> cmsgs (encode ms) = Some (ms.*1).
Proof.
  intros Hok. unfold cmsgs, CMSG_FIRSTHDR. apply (walk_encode ms []); [done|].
  pose proof (length_encode_ge ms). lia.
Qed.

(** * Any buffer *)

Lemma next_advances buf p q : CMSG_NXTHDR buf p = Some q ->
  (p + sizeof_cmsghdr <= q /\ q + sizeof_cmsghdr <= length buf)%nat.
Proof.
  unfold CMSG_NXTHDR. destruct (cmsg_len buf p) as [len|]; [|done].
  destruct (Nat.ltb_spec len sizeof_cmsghdr); [done|].
  destruct (Nat.ltb_spec (length buf) (p + CMSG_ALIGN len + sizeof_cmsghdr)); [done|].
  intros [= <-]. pose proof (CMSG_ALIGN_ge len). lia.
Qed.

Lemma headers_spec buf : forall fuel p,
  (p + sizeof_cmsghdr <= length buf)%nat -> (length buf - p < fuel)%nat ->
  exists hs, headers fuel buf (Some p) = Some (p :: hs) /\
    Forall (fun q => p + sizeof_cmsghdr <= q /\ q + sizeof_cmsghdr <= length buf)%nat hs /\
    (sizeof_cmsghdr * length hs <= length buf - p - sizeof_cmsghdr)%nat.
Proof.
  induction fuel as [|fuel IH]; intros p Hp Hfuel; [lia|]. cbn [headers].
  destruct (CMSG_NXTHDR buf p) as [q|] eqn:Hq.
  - apply next_advances in Hq as [Hpq Hqb]. unfold sizeof_cmsghdr in *.
    destruct (IH q ltac:(lia) ltac:(lia)) as (hs & Hh & Hall & Hlen). rewrite Hh. simpl.
    eexists. split; [done|]. split; [|simpl; lia]. constructor; [lia|].
    eapply Forall_impl; [exact Hall|]. simpl. lia.
  - exists []. replace (headers fuel buf None) with (Some (@nil nat)) by (by destruct fuel).
    split; [done|]. split; [constructor|simpl; lia].
Qed.

(** The walk visits headers that are inside the buffer, at most one for each 16
    bytes of it. *)
Lemma headers_total buf : exists hs,
  headers (S (length buf)) buf (CMSG_FIRSTHDR buf) = Some hs /\
  Forall (fun q => q + sizeof_cmsghdr <= length buf)%nat hs /\
  (sizeof_cmsghdr * length hs <= length buf)%nat.
Proof.
  unfold CMSG_FIRSTHDR. destruct (Nat.leb_spec sizeof_cmsghdr (length buf)) as [Hle|Hgt].
  - destruct (headers_spec buf (S (length buf)) 0 ltac:(lia) ltac:(lia)) as (hs & -> & Hall & Hlen).
    unfold sizeof_cmsghdr in *. eexists. split; [done|]. split; [|simpl length; lia].
    constructor; [lia|]. eapply Forall_impl; [exact Hall|]. simpl. lia.
  - exists []. split; [done|]. split; [constructor|simpl; lia].
Qed.
