(* ===== verification/UnixSockets.v ===== *)
(** book-src/sockets/unix_sockets.c: addresses of the UNIX domain, sockets that
    are connected or bound to them, and what happens to a descriptor when a
    call fails. *)
From S2P Require Import Prelude CLib Sys Calls.
#[local] Open Scope Z_scope.

Definition ENAMETOOLONG : Z := 36.
Definition AF_UNIX : Z := 1.
Definition SOCK_STREAM : Z := 1.
Definition SOCK_DGRAM : Z := 2.

(** struct sockaddr_un; [sun_path] is an array of 108 characters. *)
Record sockaddr_un := SockaddrUn { sun_family : Z; sun_path : bytes }.
Definition sun_path_size : nat := 108.
(** memset(addr, 0, sizeof(struct sockaddr_un)) *)
Definition zero_addr : sockaddr_un := SockaddrUn 0 (replicate sun_path_size NUL).

(** strncpy(dst, src, n): at most [n] bytes, filled up with nulls. *)
Definition strncpy_into (dst src : bytes) (n : nat) : bytes :=
  take n (src ++ replicate n NUL) ++ drop n dst.

(** The calls on sockets. *)
Class SockOS (S : Type) := {
  sys_socket : Z -> M S (sysres Z);
  sys_connect : Z -> sockaddr_un -> M S (sysres unit);
  sys_bind : Z -> sockaddr_un -> M S (sysres unit);
  sys_close : Z -> M S (sysres unit)
}.

Section unix_sockets.
Context {S : Type} `{HasLibc S} `{SockOS S}.

(** A null pointer is [None]; the result is the return value with what
    [*addr] then holds. *)
(** Source: book-src/sockets/unix_sockets.c:23-40 (unixBuildAddress). *)
Definition unixBuildAddress (path : option bytes) (addr : option sockaddr_un)
    : M S (Z * option sockaddr_un) :=
  match path, addr with
  | Some path, Some _ =>
      let addr := SockaddrUn AF_UNIX (sun_path zero_addr) in
      if (strlen path <? sun_path_size)%nat then
        mret (0, Some (SockaddrUn (sun_family addr) (strncpy_into (sun_path addr) path (sun_path_size - 1))))
      else set_errno ENAMETOOLONG;; mret (-1, Some addr)
  | _, _ => set_errno EINVAL;; mret (-1, addr)
  end.

(** [addr0] is the uninitialised local variable; the result is [None] for -1. *)
(** Source: book-src/sockets/unix_sockets.c:46-68 (unixConnect). *)
Definition unixConnect (addr0 : sockaddr_un) (path : option bytes) (type : Z) : M S (option Z) :=
  '(r, addr) ← unixBuildAddress path (Some addr0);
  if r =? -1 then mret None
  else
    addr ← deref addr;
    sd ← call (sys_socket type);
    match sd with
    | None => mret None
    | Some sd =>
        r ← call (sys_connect sd addr);
        match r with
        | None => savedErrno ← get_errno; call (sys_close sd);; set_errno savedErrno;; mret None
        | Some _ => mret (Some sd)
        end
    end.

(** Source: book-src/sockets/unix_sockets.c:73-94 (unixBind). *)
Definition unixBind (addr0 : sockaddr_un) (path : option bytes) (type : Z) : M S (option Z) :=
  '(r, addr) ← unixBuildAddress path (Some addr0);
  if r =? -1 then mret None
  else
    addr ← deref addr;
    sd ← call (sys_socket type);
    match sd with
    | None => mret None
    | Some sd =>
        r ← call (sys_bind sd addr);
        match r with
        | None => savedErrno ← get_errno; call (sys_close sd);; set_errno savedErrno;; mret None
        | Some _ => mret (Some sd)
        end
    end.
End unix_sockets.

(** * What is proved of them *)

(** The address of a path: the path, and nulls up to the end of the array. *)
Definition address_of (path : bytes) : sockaddr_un :=
  SockaddrUn AF_UNIX (path ++ replicate (sun_path_size - strlen path) NUL).

Lemma address_of_size path : (strlen path < sun_path_size)%nat ->
  length (sun_path (address_of path)) = sun_path_size.
Proof. intros Hl. simpl. rewrite length_app, length_replicate. unfold strlen in *. lia. Qed.

Lemma cstring_nul s n : NUL ∉ s -> cstring (s ++ NUL :: n) = s.
Proof.
  induction s as [|c s IH]; simpl; [done|]. rewrite not_elem_of_cons. intros [Hc Hs].
  unfold ceq at 1. rewrite bool_decide_eq_false_2 by congruence. f_equal. by apply IH.
Qed.

Section building.
Context {S : Type} `{HasLibc S}.

Lemma unixBuildAddress_run path a s :
  unixBuildAddress (Some path) (Some a) s =
  if (strlen path <? sun_path_size)%nat then (Done (0, Some (address_of path)), s)
  else (Done (-1, Some (SockaddrUn AF_UNIX (sun_path zero_addr))), (set_errno ENAMETOOLONG s).2).
Proof.
  unfold unixBuildAddress. destruct (Nat.ltb_spec (strlen path) sun_path_size) as [Hl|Hl]; [|done].
  unfold address_of, strncpy_into, zero_addr. unfold sun_family, sun_path.
  unfold strlen in *. rewrite take_app, take_ge by lia. rewrite take_replicate, drop_replicate, <- app_assoc.
  rewrite <- replicate_add. unfold sun_path_size in *.
  replace ((108 - 1 - length path) `min` (108 - 1) + (108 - (108 - 1)))%nat with (108 - length path)%nat by lia. done.
Qed.
End building.

(** The descriptors of the process, as the callers rely on them: a failed
    call opens nothing, and close(2) releases its descriptor even when it
    reports an error. *)
Class SockSpec (S : Type) `{HasLibc S} `{SockOS S} := {
  open_fds : S -> gset Z;
  address : S -> Z -> option sockaddr_un;
  open_fds_libc : forall l s, open_fds (set_libc l s) = open_fds s;
  address_libc : forall l s, address (set_libc l s) = address s;
  socket_spec : forall type s, post (fun r s' => match r with
    | SOk sd => 0 <= sd /\ (sd ∉ open_fds s) /\ open_fds s' = ({[ sd ]} ∪ open_fds s)
    | SErr _ => open_fds s' = open_fds s end) (fun _ _ => False) (sys_socket type s);
  connect_spec : forall sd a s, post (fun r s' => open_fds s' = open_fds s /\
    (r = SOk tt -> address s' sd = Some a)) (fun _ _ => False) (sys_connect sd a s);
  bind_spec : forall sd a s, post (fun r s' => open_fds s' = open_fds s /\
    (r = SOk tt -> address s' sd = Some a)) (fun _ _ => False) (sys_bind sd a s);
  close_spec : forall sd s, post (fun _ s' => open_fds s' = open_fds s ∖ {[ sd ]})
    (fun _ _ => False) (sys_close sd s)
}.

Section sockets.
Context {S : Type} `{HL : HasLibc S} `{HO : SockOS S} `{HS : !SockSpec S}.

(** A name for an address: what both functions do once the address is built. *)
Definition name_socket (op : Z -> sockaddr_un -> M S (sysres unit)) (a : sockaddr_un) (type : Z)
    : M S (option Z) :=
  sd ← call (sys_socket type);
  match sd with
  | None => mret None
  | Some sd =>
      r ← call (op sd a);
      match r with
      | None => savedErrno ← get_errno; call (sys_close sd);; set_errno savedErrno;; mret None
      | Some _ => mret (Some sd)
      end
  end.

Lemma unixConnect_run a0 path type s : unixConnect a0 (Some path) type s =
  if (strlen path <? sun_path_size)%nat then name_socket sys_connect (address_of path) type s
  else (Done None, (set_errno ENAMETOOLONG s).2).
Proof.
  unfold unixConnect, mbind at 1, M_bind at 1. rewrite unixBuildAddress_run.
  by destruct (strlen path <? sun_path_size)%nat.
Qed.

Lemma unixBind_run a0 path type s : unixBind a0 (Some path) type s =
  if (strlen path <? sun_path_size)%nat then name_socket sys_bind (address_of path) type s
  else (Done None, (set_errno ENAMETOOLONG s).2).
Proof.
  unfold unixBind, mbind at 1, M_bind at 1. rewrite unixBuildAddress_run.
  by destruct (strlen path <? sun_path_size)%nat.
Qed.

(** The result of a call that is to name a socket: a new descriptor with the
    address, or failure with the descriptors as they were. *)
Definition named (s : S) (a : sockaddr_un) (r : option Z) (s' : S) : Prop :=
  match r with
  | Some sd => (sd ∉ open_fds s) /\ open_fds s' = ({[ sd ]} ∪ open_fds s) /\ address s' sd = Some a
  | None => open_fds s' = open_fds s
  end.

Lemma name_socket_spec op a type s :
  (forall sd s1, post (fun r s' => open_fds s' = open_fds s1 /\ (r = SOk tt -> address s' sd = Some a))
     (fun _ _ => False) (op sd a s1)) ->
  post (named s a) (fun _ _ => False) (name_socket op a type s).
Proof.
  intros Hop. unfold name_socket. apply post_bind.
  eapply post_mono; [| |exact (call_post open_fds open_fds_libc _ _ _ _ (socket_spec type s))]; [|done].
  intros [sd|] s1 (s2 & Hv & Hr); simpl.
  2:{ destruct Hr as (e & Hr & _). congruence. }
  destruct Hr as [(Hpos & Hfresh & Hopen) ->]. apply post_bind.
  eapply post_mono; [| |exact (call_post open_fds open_fds_libc _ _ _ _ (Hop sd s2))]; [|done].
  intros [[]|] s3 (s4 & Hv3 & Hr); simpl.
  - destruct Hr as [[Hk Ha] ->]. split_and!; [done|congruence|by apply Ha].
  - destruct Hr as (e & [Hk _] & _). apply post_bind. simpl. apply post_bind.
    eapply post_mono; [| |exact (call_post open_fds open_fds_libc _ _ _ _ (close_spec sd s3))]; [|done].
    assert (Hminus : open_fds s3 ∖ {[sd]} = open_fds s).
    { rewrite Hv3, Hk, Hopen. by apply union_singleton_minus. }
    intros [u|] s5 (s6 & Hv5 & Hr); simpl; rewrite open_fds_libc, Hv5.
    + destruct Hr as [Hc ->]. congruence.
    + destruct Hr as (e' & Hc & _). congruence.
Qed.

(** The errno of a failure is that of the call that failed, whatever close()
    does to it. *)
Lemma name_socket_errno op a type s sd s1 s2 e :
  sys_socket type s = (Done (SOk sd), s1) -> op sd a s1 = (Done (SErr e), s2) ->
  post (fun r s' => r = None /\ lc_errno (libc_of s') = e) (fun _ _ => False) (name_socket op a type s).
Proof.
  intros Hs Hop. unfold name_socket.
  rewrite (bind_done _ _ _ _ _ (call_ok _ _ _ _ Hs)), (bind_done _ _ _ _ _ (call_err _ _ _ _ Hop)).
  apply post_bind. simpl. apply post_bind. rewrite libc_of_set. simpl.
  eapply post_mono; [| |exact (call_post open_fds open_fds_libc _ _ _ _ (close_spec sd _))]; [|done].
  intros [u|] s4 _; simpl; rewrite libc_of_set; done.
Qed.

(** unixConnect() and unixBind() either return a new descriptor whose
    address is the whole path, null-terminated in the array of 108 bytes, or
    fail and leave the descriptors of the process as they were: the socket
    is closed when it cannot be named. Longer paths are refused before any
    call. *)
Theorem unix_sockets_correct a0 path type s :
  post (fun r s' => named s (address_of path) r s' /\
          (is_Some r -> (strlen path < sun_path_size)%nat)) (fun _ _ => False)
    (unixConnect a0 (Some path) type s) /\
  post (fun r s' => named s (address_of path) r s' /\
          (is_Some r -> (strlen path < sun_path_size)%nat)) (fun _ _ => False)
    (unixBind a0 (Some path) type s).
Proof.
  rewrite unixConnect_run, unixBind_run.
  destruct (Nat.ltb_spec (strlen path) sun_path_size) as [Hl|Hl].
  - split; (eapply post_mono; [| |apply name_socket_spec]); try done;
      intros; [apply connect_spec|apply bind_spec].
  - split; simpl; (split; [apply open_fds_libc|by intros [? [=]]]).
Qed.
End sockets.
