(* ===== verification/Scm.v ===== *)
(** Descriptors and credentials over UNIX domain sockets:
    book-src/sockets/scm_functions.c, scm_rights_*.c, scm_cred_*.c and
    scm_multi_*.c. *)
From S2P Require Import Prelude CLib Sys ErrorFunctions Calls Memory Cmsg UnixSockets.
#[local] Open Scope Z_scope.

(** * The calls *)

(** What recvmsg(2) fills in: the data, the control buffer up to the
    msg_controllen it returns, and msg_flags. *)
Record received := Received { rc_data : list Z; rc_control : list Z; rc_flags : Z }.

Class MsgOS (S : Type) := {
  sys_sendmsg : Z -> list Z -> list Z -> M S (sysres nat);
  sys_recvmsg : Z -> nat -> nat -> M S (sysres received)
}.

(** struct ucred: pid, uid, gid. *)
Record ucred := Ucred { cr_pid : Z; cr_uid : Z; cr_gid : Z }.

Class PeerOS (S : Type) := {
  sys_listen : Z -> Z -> M S (sysres unit);
  sys_accept : Z -> M S (sysres Z);
  sys_setsockopt_passcred : Z -> Z -> M S (sysres unit);
  sys_getsockopt_peercred : Z -> M S (sysres ucred);
  sys_remove : bytes -> M S (sysres unit);
  sys_open_rdonly : bytes -> M S (sysres Z);
  sys_getids : M S ucred;
  sys_malloc : nat -> M S (sysres unit);
  sys_getpid : M S Z;
  sys_system : bytes -> M S Z
}.

Definition MSG_CTRUNC : Z := 8.
Definition STDOUT_FILENO : Z := 1.
Definition sizeof_ucred : nat := 12.
Definition ucred_bytes (c : ucred) : list Z :=
  le_bytes 4 (cr_pid c) ++ le_bytes 4 (cr_uid c) ++ le_bytes 4 (cr_gid c).

(** An [int] and a struct ucred at an offset of a buffer. *)
Definition load_int (buf : list Z) (off : nat) : option Z := (fun bs => i32 (le_val bs)) <$> load off 4 buf.
Definition load_uint (buf : list Z) (off : nat) : option Z := (fun bs => le_val bs) <$> load off 4 buf.
Definition load_ucred (buf : list Z) (off : nat) : option ucred :=
  pid ← load_int buf off; uid ← load_uint buf (off + 4); gid ← load_uint buf (off + 8);
  Some (Ucred pid uid gid).

Section scm.
Context {S : Type} `{HasLibc S} `{ReadOS S} `{WriteOS S} `{SockOS S} `{MsgOS S} `{PeerOS S}.
Context (strerror : Z -> bytes).
#[local] Abbreviation errExit := (errExit strerror).
#[local] Abbreviation fatal := (fatal strerror).
#[local] Abbreviation echecked := (echecked strerror).

(** * scm_functions.c *)

(** [controlMsg] is the buffer on the stack, with whatever bytes it holds. *)
(** Source: book-src/sockets/scm_functions.c:28-86 (sendfd). *)
Definition sendfd (controlMsg : list Z) (sockfd fd : Z) : M S Z :=
  let data := le_bytes sizeof_int 12345 in
  cmsgp ← deref (CMSG_FIRSTHDR controlMsg);
  controlMsg ← deref (set_cmsg_level cmsgp SOL_SOCKET controlMsg);
  controlMsg ← deref (set_cmsg_type cmsgp SCM_RIGHTS controlMsg);
  controlMsg ← deref (set_cmsg_len cmsgp (CMSG_LEN sizeof_int) controlMsg);
  controlMsg ← deref (store (CMSG_DATA cmsgp) (le_bytes sizeof_int fd) controlMsg);
  r ← call (sys_sendmsg sockfd data controlMsg);
  match r with None => mret (-1) | Some _ => mret 0 end.

(** The conditions of the check are evaluated from left to right. *)
(** Source: book-src/sockets/scm_functions.c:91-146 (recvfd). *)
Definition recvfd (sockfd : Z) : M S Z :=
  nr ← call (sys_recvmsg sockfd sizeof_int (CMSG_SPACE sizeof_int));
  match nr with
  | None => mret (-1)
  | Some rc =>
      let controlMsg := rc_control rc in
      bad ← (match CMSG_FIRSTHDR controlMsg with
             | None => mret true
             | Some cmsgp =>
                 len ← deref (cmsg_len controlMsg cmsgp);
                 if negb (len =? CMSG_LEN sizeof_int)%nat then mret true
                 else
                   level ← deref (cmsg_level controlMsg cmsgp);
                   if negb (level =? SOL_SOCKET) then mret true
                   else
                     type ← deref (cmsg_type controlMsg cmsgp);
                     mret (negb (type =? SCM_RIGHTS))
             end);
      if (bad : bool) then set_errno EINVAL;; mret (-1)
      else
        cmsgp ← deref (CMSG_FIRSTHDR controlMsg);
        deref (load_int controlMsg (CMSG_DATA cmsgp))
  end.

(** * Pieces of the programs *)

(** sockaddr_un of the stack *)
Context (addr0 : sockaddr_un).

Definition print_z (v : Z) : bytes := print_dec v.
Definition line (txt : bytes) : bytes := txt ++ [newline].

(** The results of getopt(3) are an argument of the programs, as the list of
    its letters with [optarg]. *)
Definition sock_type (useDatagramSocket : bool) : Z := if useDatagramSocket then SOCK_DGRAM else SOCK_STREAM.

(** The option -d of four of the programs. *)
Fixpoint dgram_option (usage : bytes) (opts : list ascii) (useDatagramSocket : bool) : M S bool :=
  match opts with
  | [] => mret useDatagramSocket
  | c :: opts' => if ceq c "d" then dgram_option usage opts' true else usageErr usage
  end.

(** The header checks of scm_rights_recv.c and scm_cred_recv.c. *)
Definition check_header (controlMsg : list Z) (datalen : nat) (type : Z) (type_name : bytes) : M S nat :=
  match CMSG_FIRSTHDR controlMsg with
  | None => fatal (str "bad cmsg header / message length")
  | Some cmsgp =>
      len ← deref (cmsg_len controlMsg cmsgp);
      (if negb (len =? CMSG_LEN datalen)%nat then fatal (str "bad cmsg header / message length") else mret tt);;
      level ← deref (cmsg_level controlMsg cmsgp);
      (if negb (level =? SOL_SOCKET) then fatal (str "cmsg_level != SOL_SOCKET") else mret tt);;
      ty ← deref (cmsg_type controlMsg cmsgp);
      (if negb (ty =? type) then fatal (str "cmsg_type != " ++ type_name) else mret tt);;
      mret cmsgp
  end.

(** The socket that the three receivers listen on or read from. *)
Definition receiving_socket (SOCK_PATH : bytes) (useDatagramSocket : bool) : M S Z :=
  r ← call (sys_remove SOCK_PATH);
  (match r with
   | Some _ => mret tt
   | None => e ← get_errno; when (negb (e =? ENOENT)) (errExit (str "remove-" ++ SOCK_PATH))
   end);;
  if useDatagramSocket then
    sfd ← unixBind addr0 (Some SOCK_PATH) SOCK_DGRAM;
    match sfd with None => errExit (str "unixBind") | Some sfd => mret sfd end
  else
    lfd ← unixBind addr0 (Some SOCK_PATH) SOCK_STREAM;
    lfd ← match lfd with None => errExit (str "unixBind") | Some lfd => mret lfd end;
    echecked (sys_listen lfd 5) (str "listen");;
    echecked (sys_accept lfd) (str "accept").

(** The loop that copies what a descriptor delivers to standard output; the
    result of write() is not looked at. *)
Definition copy_to_stdout (fuel : nat) (fd : Z) : M S unit :=
  iter fuel (fun _ : unit =>
    buf ← echecked (sys_read fd 100) (str "read");
    match buf with
    | [] => mret (inr tt)
    | _ => call (sys_write STDOUT_FILENO buf);; mret (inl tt)
    end) tt.

(** The integer of the data; it is indeterminate when fewer bytes came. *)
Definition received_data (rc : received) : M S Z := deref (load_int (rc_data rc) 0).

(** * scm_rights_send.c, scm_rights_recv.c *)

(** Source: book-src/sockets/scm_rights_send.c:32-144 (main). *)
Definition rights_send_main (argv0 : bytes) (opts : list ascii) (args : list bytes) : M S unit :=
  useDatagramSocket ← dgram_option (argv0 ++ str " [-d] file" ++ [newline] ++
                        str "        -d    use datagram socket" ++ [newline]) opts false;
  (if negb (length args =? 1)%nat then usageErr (argv0 ++ str " [-d] file" ++ [newline]) else mret tt);;
  path ← deref (head args);
  fd ← echecked (sys_open_rdonly path) (str "open");
  eprintf (line (str "Sending data = " ++ print_z 12345));;
  let data := le_bytes sizeof_int 12345 in
  let controlMsg := replicate (CMSG_SPACE sizeof_int) 0 in
  cmsgp ← deref (CMSG_FIRSTHDR controlMsg);
  controlMsg ← deref (set_cmsg_len cmsgp (CMSG_LEN sizeof_int) controlMsg);
  controlMsg ← deref (set_cmsg_level cmsgp SOL_SOCKET controlMsg);
  controlMsg ← deref (set_cmsg_type cmsgp SCM_RIGHTS controlMsg);
  controlMsg ← deref (store (CMSG_DATA cmsgp) (le_bytes sizeof_int fd) controlMsg);
  sfd ← unixConnect addr0 (Some (str "scm_rights")) (sock_type useDatagramSocket);
  sfd ← match sfd with None => errExit (str "unixConnect") | Some sfd => mret sfd end;
  eprintf (line (str "Sending FD " ++ print_z fd));;
  ns ← echecked (sys_sendmsg sfd data controlMsg) (str "sendmsg");
  eprintf (line (str "sendmsg() returned " ++ print_z (Z.of_nat ns)));;
  echecked (sys_close fd) (str "close");;
  c_exit EXIT_SUCCESS.

(** Source: book-src/sockets/scm_rights_recv.c:34-169 (main). *)
Definition rights_recv_main (fuel : nat) (argv0 : bytes) (opts : list ascii) : M S unit :=
  useDatagramSocket ← dgram_option (argv0 ++ str " [-d]" ++ [newline] ++
                        str "        -d    use datagram socket" ++ [newline]) opts false;
  sfd ← receiving_socket (str "scm_rights") useDatagramSocket;
  rc ← echecked (sys_recvmsg sfd sizeof_int (CMSG_SPACE sizeof_int)) (str "recvmsg");
  let nr := length (rc_data rc) in
  eprintf (line (str "recvmsg() returned " ++ print_z (Z.of_nat nr)));;
  when (0 <? nr)%nat
    (data ← received_data rc; eprintf (line (str "Received data = " ++ print_z data)));;
  cmsgp ← check_header (rc_control rc) sizeof_int SCM_RIGHTS (str "SCM_RIGHTS");
  fd ← deref (load_int (rc_control rc) (CMSG_DATA cmsgp));
  eprintf (line (str "Received FD " ++ print_z fd));;
  copy_to_stdout fuel fd;;
  c_exit EXIT_SUCCESS.

(** * scm_cred_send.c, scm_cred_recv.c *)

(** The options -d and -n. *)
Fixpoint cred_options (usage : bytes) (opts : list ascii) (o : bool * bool) : M S (bool * bool) :=
  match opts with
  | [] => mret o
  | c :: opts' =>
      if ceq c "d" then cred_options usage opts' (true, snd o)
      else if ceq c "n" then cred_options usage opts' (fst o, true)
      else usageErr usage
  end.

(** [argv[optind + i]], unless it is missing or "-"; [v] otherwise. *)
Definition arg_or (args : list bytes) (i : nat) (v : Z) : Z :=
  match args !! i with
  | Some a => if streq a (str "-") then v else atoi a
  | None => v
  end.

(** Source: book-src/sockets/scm_cred_send.c:32-171 (main). *)
Definition cred_send_main (argv0 : bytes) (opts : list ascii) (args : list bytes) : M S unit :=
  '(useDatagramSocket, noExplicitCreds) ← cred_options
    (argv0 ++ str " [-d] [-n] [data [PID [UID [GID]]]]" ++ [newline] ++
     str "        -d    use datagram socket" ++ [newline] ++
     str "        -n    don't construct explicit credentials structure" ++ [newline]) opts (false, false);
  let data := match args with a :: _ => atoi a | [] => 12345 end in
  eprintf (line (str "Sending data = " ++ print_z data));;
  msg_control ← (if (noExplicitCreds : bool) then
      printf (line (str "Not explicitly sending a credentials structure"));; mret []
    else
      let controlMsg := replicate (CMSG_SPACE sizeof_ucred) 0 in
      cmsgp ← deref (CMSG_FIRSTHDR controlMsg);
      controlMsg ← deref (set_cmsg_len cmsgp (CMSG_LEN sizeof_ucred) controlMsg);
      controlMsg ← deref (set_cmsg_level cmsgp SOL_SOCKET controlMsg);
      controlMsg ← deref (set_cmsg_type cmsgp SCM_CREDENTIALS controlMsg);
      self ← sys_getids;
      let cred := Ucred (arg_or args 1 (cr_pid self)) (u32 (arg_or args 2 (cr_uid self)))
                        (u32 (arg_or args 3 (cr_gid self))) in
      controlMsg ← deref (store (CMSG_DATA cmsgp) (ucred_bytes cred) controlMsg);
      printf (line (str "Send credentials pid=" ++ print_z (cr_pid cred) ++ str ", uid=" ++
                    print_z (cr_uid cred) ++ str ", gid=" ++ print_z (cr_gid cred)));;
      mret controlMsg);
  sfd ← unixConnect addr0 (Some (str "scm_cred")) (sock_type useDatagramSocket);
  sfd ← match sfd with None => errExit (str "unixConnect") | Some sfd => mret sfd end;
  ns ← echecked (sys_sendmsg sfd (le_bytes sizeof_int data) msg_control) (str "sendmsg");
  printf (line (str "sendmsg() returned " ++ print_z (Z.of_nat ns)));;
  c_exit EXIT_SUCCESS.

(** Source: book-src/sockets/scm_cred_recv.c:32-172 (main). *)
Definition cred_recv_main (argv0 : bytes) (opts : list ascii) : M S unit :=
  useDatagramSocket ← dgram_option (argv0 ++ str " [-d]" ++ [newline] ++
                        str "        -d    use datagram socket" ++ [newline]) opts false;
  sfd ← receiving_socket (str "scm_cred") useDatagramSocket;
  echecked (sys_setsockopt_passcred sfd 1) (str "setsockopt");;
  rc ← echecked (sys_recvmsg sfd sizeof_int (CMSG_SPACE sizeof_ucred)) (str "recvmsg");
  let nr := length (rc_data rc) in
  printf (line (str "recvmsg() returned " ++ print_z (Z.of_nat nr)));;
  when (0 <? nr)%nat
    (data ← received_data rc; printf (line (str "Received data = " ++ print_z data)));;
  cmsgp ← check_header (rc_control rc) sizeof_ucred SCM_CREDENTIALS (str "SCM_CREDENTIALS");
  ucredp ← deref (load_ucred (rc_control rc) (CMSG_DATA cmsgp));
  printf (line (str "Received credentials pid=" ++ print_z (cr_pid ucredp) ++ str ", uid=" ++
                print_z (cr_uid ucredp) ++ str ", gid=" ++ print_z (cr_gid ucredp)));;
  ucred ← echecked (sys_getsockopt_peercred sfd) (str "getsockopt");
  printf (line (str "Credentials from SO_PEERCRED: pid=" ++ print_z (cr_pid ucred) ++ str ", euid=" ++
                print_z (cr_uid ucred) ++ str ", egid=" ++ print_z (cr_gid ucred)));;
  c_exit EXIT_SUCCESS.

(** * scm_multi_send.c, scm_multi_recv.c *)

(** Source: book-src/sockets/scm_multi.h:26-28 (SOCK_PATH, MAX_FDS). *)
Definition SOCK_PATH : bytes := str "scm_multi".
Definition MAX_FDS : nat := Z.to_nat 1024.

(** Source: book-src/sockets/scm_multi_send.c:33-47 (usageError). *)
Definition usageError {A} (pname : bytes) : M S A :=
  eprintf (line (str "Usage: " ++ pname ++ str " [options] file..."));;
  eprintf (line (str "    Options:"));;
  eprintf (line (str "	-d        Use datagram (instead of stream) socket"));;
  eprintf (line (str "	-n        Don't send any real data with the ancillary data"));;
  eprintf (line (str "	-p <pid>  Use this PID when sending credentials"));;
  eprintf (line (str "	-u <uid>  Use this UID when sending credentials"));;
  eprintf (line (str "	-g <gid>  Use this GID when sending credentials"));;
  eprintf (line (str "    If any of any of -p/-u/-g is absent, the corresponding real" ++ [newline] ++
                 str "    credential is used."));;
  c_exit EXIT_FAILURE.

(** The variables that the options set. *)
Record multi_options := MultiOptions { mo_dgram : bool; mo_sendData : bool; mo_cred : ucred }.

(** Source: book-src/sockets/scm_multi_send.c:83-108 (main, options). *)
Fixpoint multi_send_options (pname : bytes) (opts : list (ascii * bytes)) (o : multi_options) : M S multi_options :=
  match opts with
  | [] => mret o
  | (c, optarg) :: opts' =>
      let cred := mo_cred o in
      if ceq c "d" then multi_send_options pname opts' (MultiOptions true (mo_sendData o) cred)
      else if ceq c "n" then multi_send_options pname opts' (MultiOptions (mo_dgram o) false cred)
      else if ceq c "p" then multi_send_options pname opts'
        (MultiOptions (mo_dgram o) (mo_sendData o) (Ucred (atoi optarg) (cr_uid cred) (cr_gid cred)))
      else if ceq c "u" then multi_send_options pname opts'
        (MultiOptions (mo_dgram o) (mo_sendData o) (Ucred (cr_pid cred) (u32 (atoi optarg)) (cr_gid cred)))
      else if ceq c "g" then multi_send_options pname opts'
        (MultiOptions (mo_dgram o) (mo_sendData o) (Ucred (cr_pid cred) (cr_uid cred) (u32 (atoi optarg))))
      else usageError pname
  end.

(** The two headers and the credentials; the results are the buffer and the
    offset of [fdList]. *)
(** Source: book-src/sockets/scm_multi_send.c:157-200 (main, control message). *)
Definition multi_headers (fdCnt : nat) (cred : ucred) (controlMsg : list Z) : M S (list Z * nat) :=
  cmsgp ← deref (CMSG_FIRSTHDR controlMsg);
  controlMsg ← deref (set_cmsg_level cmsgp SOL_SOCKET controlMsg);
  controlMsg ← deref (set_cmsg_type cmsgp SCM_RIGHTS controlMsg);
  controlMsg ← deref (set_cmsg_len cmsgp (CMSG_LEN (sizeof_int * fdCnt)) controlMsg);
  printf (line (str "cmsg_len 1: " ++ print_z (Z.of_nat (CMSG_LEN (sizeof_int * fdCnt)))));;
  let fdList := CMSG_DATA cmsgp in
  cmsgp ← deref (CMSG_NXTHDR controlMsg cmsgp);
  controlMsg ← deref (set_cmsg_level cmsgp SOL_SOCKET controlMsg);
  controlMsg ← deref (set_cmsg_type cmsgp SCM_CREDENTIALS controlMsg);
  controlMsg ← deref (set_cmsg_len cmsgp (CMSG_LEN sizeof_ucred) controlMsg);
  printf (line (str "cmsg_len 2: " ++ print_z (Z.of_nat (CMSG_LEN sizeof_ucred))));;
  controlMsg ← deref (store (CMSG_DATA cmsgp) (ucred_bytes cred) controlMsg);
  mret (controlMsg, fdList).

(** Source: book-src/sockets/scm_multi_send.c:205-209 (main, open the files). *)
Fixpoint open_files (files : list bytes) (fdList j : nat) (controlMsg : list Z) : M S (list Z) :=
  match files with
  | [] => mret controlMsg
  | path :: files' =>
      fd ← echecked (sys_open_rdonly path) (str "open");
      controlMsg ← deref (store (fdList + sizeof_int * j) (le_bytes sizeof_int fd) controlMsg);
      open_files files' fdList (Datatypes.S j) controlMsg
  end.

(** Source: book-src/sockets/scm_multi_send.c:49-226 (main). *)
Definition multi_send_main (argv0 : bytes) (opts : list (ascii * bytes)) (files : list bytes) : M S unit :=
  self ← sys_getids;
  o ← multi_send_options argv0 opts (MultiOptions false true self);
  let fdCnt := length files in
  (if (fdCnt =? 0)%nat then usageError argv0 else mret tt);;
  let controlMsgSize := (CMSG_SPACE (sizeof_int * fdCnt) + CMSG_SPACE sizeof_ucred)%nat in
  echecked (sys_malloc controlMsgSize) (str "malloc");;
  let controlMsg := replicate controlMsgSize 0 in
  let data := if mo_sendData o then le_bytes sizeof_int 12345 else [] in
  '(controlMsg, fdList) ← multi_headers fdCnt (mo_cred o) controlMsg;
  controlMsg ← open_files files fdList 0 controlMsg;
  sfd ← unixConnect addr0 (Some SOCK_PATH) (sock_type (mo_dgram o));
  sfd ← match sfd with None => errExit (str "unixConnect") | Some sfd => mret sfd end;
  numSent ← echecked (sys_sendmsg sfd data controlMsg) (str "sendmsg");
  printf (line (str "sendmsg() returned " ++ print_z (Z.of_nat numSent)));;
  c_exit EXIT_SUCCESS.

(** Source: book-src/sockets/scm_multi_recv.c:64-80 (main, options). *)
Fixpoint multi_recv_options (pname : bytes) (opts : list (ascii * bytes)) (o : bool * Z) : M S (bool * Z) :=
  match opts with
  | [] => mret o
  | (c, optarg) :: opts' =>
      if ceq c "d" then multi_recv_options pname opts' (true, snd o)
      else if ceq c "n" then multi_recv_options pname opts' (fst o, atoi optarg)
      else usageErr (pname ++ str " [-d]" ++ [newline] ++ str "        -d           use datagram socket" ++
             [newline] ++ str "        -n nbytes    limit on size of received ancillary data" ++ [newline])
  end.

(** One of the received descriptors: its contents are shown, and it is closed. *)
(** Source: book-src/sockets/scm_multi_recv.c:204-223 (main, file descriptors). *)
Definition show_fd (fuel : nat) (j : nat) (fd : Z) : M S unit :=
  printf (line (str "--- [" ++ print_z (Z.of_nat j) ++ str "] Received FD " ++ print_z fd));;
  copy_to_stdout fuel fd;;
  echecked (sys_close fd) (str "close");;
  mret tt.

(** Source: book-src/sockets/scm_multi_recv.c:175-243 (main, one header). *)
Definition show_cmsg (fuel : nat) (controlMsg : list Z) (cmsgp : nat) : M S unit :=
  printf (line (str "================================="));;
  len ← deref (cmsg_len controlMsg cmsgp);
  printf (line (str "cmsg_len: " ++ print_z (Z.of_nat len)));;
  level ← deref (cmsg_level controlMsg cmsgp);
  (if negb (level =? SOL_SOCKET) then fatal (str "cmsg_level != SOL_SOCKET") else mret tt);;
  type ← deref (cmsg_type controlMsg cmsgp);
  if type =? SCM_RIGHTS then
    let fdCnt := i32 (wrap_u 64 (Z.of_nat len - Z.of_nat (CMSG_LEN 0)) / Z.of_nat sizeof_int) in
    printf (line (str "SCM_RIGHTS: received " ++ print_z fdCnt ++ str " file descriptors"));;
    let fdList := CMSG_DATA cmsgp in
    for_each (seq 0 (Z.to_nat fdCnt)) (fun j =>
      fd ← deref (load_int controlMsg (fdList + sizeof_int * j));
      show_fd fuel j fd)
  else if type =? SCM_CREDENTIALS then
    (if negb (len =? CMSG_LEN sizeof_ucred)%nat then fatal (str "cmsg data has incorrect size") else mret tt);;
    ucredp ← deref (load_ucred controlMsg (CMSG_DATA cmsgp));
    printf (line (str "SCM_CREDENTIALS: pid=" ++ print_z (cr_pid ucredp) ++ str ", uid=" ++
                  print_z (cr_uid ucredp) ++ str ", gid=" ++ print_z (cr_gid ucredp)))
  else fatal (str "Bad cmsg_type (" ++ print_z type ++ str ")").

Definition show_round (fuel : nat) (controlMsg : list Z) (cmsgp : option nat) : M S (option nat + unit) :=
  match cmsgp with
  | None => mret (inr tt)
  | Some p => show_cmsg fuel controlMsg p;; mret (inl (CMSG_NXTHDR controlMsg p))
  end.

(** Source: book-src/sockets/scm_multi_recv.c:171-244 (main, headers). *)
Definition show_headers (hfuel fuel : nat) (controlMsg : list Z) : M S unit :=
  iter hfuel (show_round fuel controlMsg) (CMSG_FIRSTHDR controlMsg).

(** The size given with -n is that of a [size_t]; the rest of [main] after the
    headers is the exit. *)
(** Source: book-src/sockets/scm_multi_recv.c:31-247 (main). *)
Definition multi_recv_main (hfuel fuel : nat) (argv0 : bytes) (opts : list (ascii * bytes)) : M S unit :=
  let controlMsgSize := (CMSG_SPACE (sizeof_int * MAX_FDS) + CMSG_SPACE sizeof_ucred)%nat in
  echecked (sys_malloc controlMsgSize) (str "malloc");;
  '(useDatagramSocket, optControlMsgSize) ← multi_recv_options argv0 opts (false, -1);
  sfd ← receiving_socket SOCK_PATH useDatagramSocket;
  echecked (sys_setsockopt_passcred sfd 1) (str "setsockopt");;
  let controllen := if optControlMsgSize =? -1 then controlMsgSize
                    else Z.to_nat (wrap_u 64 optControlMsgSize) in
  rc ← echecked (sys_recvmsg sfd sizeof_int controllen) (str "recvmsg");
  (if (controlMsgSize <? length (rc_control rc))%nat then undefined else mret tt);;
  let NumReceived := length (rc_data rc) in
  printf (line (str "recvmsg() returned " ++ print_z (Z.of_nat NumReceived)));;
  when (0 <? NumReceived)%nat
    (data ← received_data rc; printf (line (str "Received data = " ++ print_z data)));;
  when (negb (optControlMsgSize =? -1))
    (printf (line (str "================================="));;
     pid ← sys_getpid;
     sys_system (snprintf 1000 (str "ls -l /proc/" ++ print_z pid ++ str "/fd"));;
     printf (line (str "=================================")));;
  when (has_bits (rc_flags rc) MSG_CTRUNC)
    (printf (line (str "********** Ancillary data was truncated!!! **********")));;
  show_headers hfuel fuel (rc_control rc);;
  c_exit EXIT_SUCCESS.
End scm.

(** * The messages of the programs *)

(** The data area of a list of descriptors. *)
Definition fds_bytes (fds : list Z) : list Z := concat (le_bytes 4 <$> fds).
Definition rights (fds : list Z) : cmsg := Cmsg SOL_SOCKET SCM_RIGHTS (fds_bytes fds).
Definition credentials (c : ucred) : cmsg := Cmsg SOL_SOCKET SCM_CREDENTIALS (ucred_bytes c).

Lemma length_fds_bytes fds : length (fds_bytes fds) = (4 * length fds)%nat.
Proof.
  unfold fds_bytes. induction fds as [|fd fds IH]; [done|].
  cbn [fmap list_fmap concat]. rewrite length_app, length_le_bytes, IH. simpl. lia.
Qed.
Lemma fds_bytes_app l1 l2 : fds_bytes (l1 ++ l2) = fds_bytes l1 ++ fds_bytes l2.
Proof. unfold fds_bytes. by rewrite fmap_app, concat_app. Qed.
Lemma length_ucred_bytes c : length (ucred_bytes c) = sizeof_ucred.
Proof. unfold ucred_bytes. by rewrite !length_app, !length_le_bytes. Qed.

(** ** Writing a header *)

Section set_header.
Context (pre a b c post : list Z) (Ha : length a = 8%nat) (Hb : length b = 4%nat) (Hc : length c = 4%nat).

Lemma set_len_at n : set_cmsg_len (length pre) n (pre ++ a ++ b ++ c ++ post) =
  Some (pre ++ le_bytes 8 (Z.of_nat n) ++ b ++ c ++ post).
Proof. apply store_mid; [done|]. by rewrite length_le_bytes. Qed.

Lemma set_level_at l : set_cmsg_level (length pre) l (pre ++ a ++ b ++ c ++ post) =
  Some (pre ++ a ++ le_bytes 4 l ++ c ++ post).
Proof.
  unfold set_cmsg_level. rewrite (app_assoc pre a), store_mid.
  - by rewrite <- app_assoc.
  - by rewrite length_app, Ha.
  - by rewrite length_le_bytes.
Qed.

Lemma set_type_at t : set_cmsg_type (length pre) t (pre ++ a ++ b ++ c ++ post) =
  Some (pre ++ a ++ b ++ le_bytes 4 t ++ post).
Proof.
  unfold set_cmsg_type. rewrite (app_assoc pre a), (app_assoc (pre ++ a) b), store_mid.
  - by rewrite <- !app_assoc.
  - rewrite !length_app, Ha, Hb. lia.
  - by rewrite length_le_bytes.
Qed.
End set_header.

Section filling.
Context {S : Type}.

(** The two orders in which the programs fill in a header. *)
Lemma fill_level_type_len {A} pre old post l t n (k : list Z -> M S A) s : length old = sizeof_cmsghdr ->
  (b1 ← deref (set_cmsg_level (length pre) l (pre ++ old ++ post));
   b2 ← deref (set_cmsg_type (length pre) t b1);
   b3 ← deref (set_cmsg_len (length pre) (CMSG_LEN n) b2); k b3) s =
  k (pre ++ header l t n ++ post) s.
Proof.
  intros Hold. destruct (split_at 8 4 old ltac:(rewrite Hold; unfold sizeof_cmsghdr; lia))
    as (a & b & c & -> & Ha & Hb). rewrite !length_app in Hold.
  assert (Hc : length c = 4%nat) by (unfold sizeof_cmsghdr in Hold; lia).
  rewrite <- !app_assoc, set_level_at by done. munfold.
  rewrite set_type_at by (rewrite ?length_le_bytes; done).
  rewrite set_len_at by (rewrite ?length_le_bytes; done). unfold header. by rewrite <- !app_assoc.
Qed.

Lemma fill_len_level_type {A} pre old post l t n (k : list Z -> M S A) s : length old = sizeof_cmsghdr ->
  (b1 ← deref (set_cmsg_len (length pre) (CMSG_LEN n) (pre ++ old ++ post));
   b2 ← deref (set_cmsg_level (length pre) l b1);
   b3 ← deref (set_cmsg_type (length pre) t b2); k b3) s =
  k (pre ++ header l t n ++ post) s.
Proof.
  intros Hold. destruct (split_at 8 4 old ltac:(rewrite Hold; unfold sizeof_cmsghdr; lia))
    as (a & b & c & -> & Ha & Hb). rewrite !length_app in Hold.
  assert (Hc : length c = 4%nat) by (unfold sizeof_cmsghdr in Hold; lia).
  rewrite <- !app_assoc, set_len_at by done. munfold.
  rewrite set_level_at by (rewrite ?length_le_bytes; done).
  rewrite set_type_at by (rewrite ?length_le_bytes; done). unfold header. by rewrite <- !app_assoc.
Qed.
End filling.

(** * What the programs rely on *)

(** A message in flight: its data, the open files that travel with it, and the
    credentials of its sender. *)
Record message := Message { m_data : list Z; m_files : list nat; m_cred : ucred }.

(** The descriptors and the credentials that a control buffer asks to send. *)
Definition sent_fds (ms : list cmsg) (fds : list Z) : Prop :=
  exists before after, ms = before ++ rights fds :: after /\
    Forall (fun m => cm_type m <> SCM_RIGHTS) (before ++ after).
Definition is_int (v : Z) : Prop := INT_MIN <= v <= INT_MAX.
Definition ucred_ok (c : ucred) : Prop :=
  is_int (cr_pid c) /\ 0 <= cr_uid c < 2 ^ 32 /\ 0 <= cr_gid c < 2 ^ 32.
Definition sent_cred (own : ucred) (ms : list cmsg) (c : ucred) : Prop :=
  (ucred_ok c /\ exists before after, ms = before ++ credentials c :: after /\
     Forall (fun m => cm_type m <> SCM_CREDENTIALS) (before ++ after)) \/
  (c = own /\ Forall (fun m => cm_type m <> SCM_CREDENTIALS) ms).

(** The control messages for a received message, in the order of the kernel. *)
Definition delivered (passcred : bool) (c : ucred) (fds : list Z) : list cmsg :=
  (if passcred then [credentials c] else []) ++ (if fds is [] then [] else [rights fds]).
Definition room (ms : list cmsg) : nat := sum_list_with (fun m => CMSG_SPACE (length (cm_data m))) ms.

(** The part of a system's state that the messages are about. *)
Record msg_view := MsgView {
  file_of : gmap Z nat;                 (* descriptors of open files *)
  sent : gmap Z (list message);         (* what was sent on each socket *)
  inbox : gmap Z (list message);        (* what each socket has yet to deliver *)
  passcred : gset Z;                    (* the sockets with SO_PASSCRED *)
  own_cred : ucred
}.
Definition quiet {S A} (view : S -> msg_view) (m : M S A) : Prop :=
  forall s, post (fun _ s' => view s' = view s) (fun _ _ => False) (m s).

Class MsgSpec (S : Type) `{HasLibc S} `{SockOS S} `{MsgOS S} `{PeerOS S} := {
  view : S -> msg_view;
  file_path : nat -> bytes;
  view_libc : forall l s, view (set_libc l s) = view s;
  quiet_malloc : forall n, quiet view (sys_malloc n);
  quiet_socket : forall type, quiet view (sys_socket type);
  quiet_connect : forall sd a, quiet view (sys_connect sd a);
  ids_spec : forall s, post (fun c s' => view s' = view s /\ c = own_cred (view s) /\ ucred_ok c)
    (fun _ _ => False) (sys_getids s);
  close_view : forall fd s, post (fun _ s' => sent (view s') = sent (view s))
    (fun _ _ => False) (sys_close fd s);
  open_view : forall path s, post (fun r s' => match r with
    | SOk fd => exists f, 0 <= fd <= INT_MAX /\ file_of (view s) !! fd = None /\ file_path f = path /\
        view s' = MsgView (<[fd := f]> (file_of (view s))) (sent (view s)) (inbox (view s))
                    (passcred (view s)) (own_cred (view s))
    | SErr _ => view s' = view s end) (fun _ _ => False) (sys_open_rdonly path s);
  (** A message is sent whole, with the files of its descriptors, or not at all. *)
  sendmsg_spec : forall sock data control ms fds c s, cmsgs control = Some ms ->
    sent_fds ms fds -> Forall is_int fds -> sent_cred (own_cred (view s)) ms c ->
    post (fun r s' => match r with
      | SOk n => n = length data /\ exists fs, Forall2 (fun fd f => file_of (view s) !! fd = Some f) fds fs /\
          view s' = MsgView (file_of (view s))
            (<[sock := sent (view s) !!! sock ++ [Message data fs c]]> (sent (view s)))
            (inbox (view s)) (passcred (view s)) (own_cred (view s))
      | SErr _ => view s' = view s end) (fun _ _ => False) (sys_sendmsg sock data control s);
  (** A received message comes with new descriptors for its files, laid out as
      control messages, when the buffer has room for them. *)
  recvmsg_spec : forall sock n clen m rest s, inbox (view s) !! sock = Some (m :: rest) ->
    (forall fds, length fds = length (m_files m) ->
       room (delivered (bool_decide (sock ∈ passcred (view s))) (m_cred m) fds) <= clen)%nat ->
    post (fun r s' => match r with
      | SOk rc => rc_data rc = take n (m_data m) /\
          exists fds pads, length fds = length (m_files m) /\ NoDup fds /\
            Forall (fun fd => 0 <= fd <= INT_MAX /\ file_of (view s) !! fd = None) fds /\
            let ms := delivered (bool_decide (sock ∈ passcred (view s))) (m_cred m) fds in
            length pads = length ms /\ Forall (fun x => padded x.1 x.2) (zip ms pads) /\
            rc_control rc = encode (zip ms pads) /\
            view s' = MsgView (list_to_map (zip fds (m_files m)) ∪ file_of (view s)) (sent (view s))
                        (<[sock := rest]> (inbox (view s))) (passcred (view s)) (own_cred (view s))
      | SErr _ => view s' = view s end) (fun _ _ => False) (sys_recvmsg sock n clen s)
}.

(** * sendfd() and recvfd() *)

Section functions.
Context {S : Type} `{HL : HasLibc S} `{HK : SockOS S} `{HM : MsgOS S} `{HP : PeerOS S} `{HS : !MsgSpec S}.

Lemma fits_rights fds : (length fds < Z.to_nat (2 ^ 32))%nat -> fits (rights fds).
Proof.
  intros Hl. unfold fits. simpl cm_level. simpl cm_type. simpl cm_data. rewrite length_fds_bytes.
  unfold SOL_SOCKET, SCM_RIGHTS, INT_MIN, INT_MAX, CMSG_LEN, sizeof_cmsghdr. split_and!; lia.
Qed.
Lemma fits_credentials c : fits (credentials c).
Proof.
  unfold fits. simpl cm_level. simpl cm_type. simpl cm_data. rewrite length_ucred_bytes.
  unfold SOL_SOCKET, SCM_CREDENTIALS, INT_MIN, INT_MAX, CMSG_LEN, sizeof_cmsghdr, sizeof_ucred. split_and!; lia.
Qed.

Lemma sendfd_run garbage sock fd s : length garbage = CMSG_SPACE sizeof_int ->
  exists pad, padded (rights [fd]) pad /\
  sendfd garbage sock fd s =
    (r ← call (sys_sendmsg sock (le_bytes sizeof_int 12345) (block (rights [fd]) pad));
     mret match r with None => -1 | Some _ => 0 end) s.
Proof.
  intros Hg. change (CMSG_SPACE sizeof_int) with 24%nat in Hg.
  destruct (split_at 0 16 garbage ltac:(lia)) as (pre & old & post & -> & Hpre & Hold).
  destruct pre; [|done]. rewrite !length_app, Hold in Hg. simpl in Hg.
  destruct (split_at 0 4 post ltac:(lia)) as (pre & old4 & pad & -> & Hpre' & Hold4).
  destruct pre; [|done]. rewrite !length_app, Hold4 in Hg. simpl in Hg. exists pad. split.
  { unfold padded. simpl. change (CMSG_ALIGN 4) with 8%nat. lia. }
  unfold sendfd, CMSG_FIRSTHDR. rewrite !length_app, Hold.
  change (sizeof_cmsghdr <=? length (@nil Z) + (16 + _))%nat with true. cbv iota.
  cbn [deref]. rewrite mret_bind.
  rewrite (fill_level_type_len [] old (old4 ++ pad)) by done.
  change ([] ++ header SOL_SOCKET SCM_RIGHTS sizeof_int ++ old4 ++ pad)
    with (header SOL_SOCKET SCM_RIGHTS sizeof_int ++ old4 ++ pad).
  rewrite (store_mid (header SOL_SOCKET SCM_RIGHTS sizeof_int) (le_bytes sizeof_int fd) old4 pad (CMSG_DATA 0)).
  - cbn [deref]. rewrite mret_bind. change (header SOL_SOCKET SCM_RIGHTS sizeof_int ++ le_bytes sizeof_int fd ++ pad)
      with (block (rights [fd]) pad). apply bind_ext. by intros [a|] s'.
  - by rewrite length_header.
  - by rewrite length_le_bytes.
Qed.

(** The first message of a buffer, as recvfd() reads it. *)
Lemma load_int_data pre m pad post fds : cm_data m = fds_bytes fds ->
  forall j fd, fds !! j = Some fd -> INT_MIN <= fd <= INT_MAX ->
  load_int (pre ++ block m pad ++ post) (CMSG_DATA (length pre) + sizeof_int * j) = Some fd.
Proof.
  intros Hd j fd Hj Hfd. rewrite <- (take_drop_middle fds j fd Hj) in Hd.
  change (fd :: drop (Datatypes.S j) fds) with ([fd] ++ drop (Datatypes.S j) fds) in Hd.
  rewrite !fds_bytes_app in Hd. change (fds_bytes [fd]) with (le_bytes 4 fd ++ []) in Hd.
  rewrite app_nil_r in Hd. unfold load_int, block. rewrite Hd, <- !app_assoc.
  rewrite (app_assoc pre), (app_assoc (pre ++ _)), load_mid.
  - cbn [fmap option_fmap option_map]. by rewrite int_roundtrip.
  - rewrite !length_app, length_header, length_fds_bytes, length_take_le; [reflexivity|].
    apply lookup_lt_Some in Hj. lia.
  - by rewrite length_le_bytes.
Qed.

Lemma load_ucred_at pre c pad post :
  INT_MIN <= cr_pid c <= INT_MAX -> 0 <= cr_uid c < 2 ^ 32 -> 0 <= cr_gid c < 2 ^ 32 ->
  load_ucred (pre ++ block (credentials c) pad ++ post) (CMSG_DATA (length pre)) = Some c.
Proof.
  intros Hp Hu Hg. unfold load_ucred, load_int, load_uint, block, credentials. simpl cm_data.
  unfold ucred_bytes. set (h := header _ _ _).
  assert (Hh : length (pre ++ h) = CMSG_DATA (length pre)) by (rewrite length_app; subst h; by rewrite length_header).
  rewrite <- !app_assoc, (app_assoc pre). set (a := pre ++ h) in *.
  set (p := le_bytes 4 (cr_pid c)). set (u := le_bytes 4 (cr_uid c)). set (g := le_bytes 4 (cr_gid c)).
  set (rest := pad ++ post).
  assert (H1 : load (CMSG_DATA (length pre)) 4 (a ++ p ++ u ++ g ++ rest) = Some p) by by apply load_mid.
  assert (H2 : load (CMSG_DATA (length pre) + 4) 4 (a ++ p ++ u ++ g ++ rest) = Some u).
  { rewrite (app_assoc a). apply load_mid; [|done]. by rewrite length_app, Hh. }
  assert (H3 : load (CMSG_DATA (length pre) + 8) 4 (a ++ p ++ u ++ g ++ rest) = Some g).
  { rewrite (app_assoc a), (app_assoc (a ++ p)). apply load_mid; [|done].
    rewrite !length_app, Hh. change (length p) with 4%nat. change (length u) with 4%nat. lia. }
  rewrite H1, H2, H3. cbn [fmap option_fmap option_map mbind option_bind]. subst p u g.
  rewrite int_roundtrip, !le_val_u32 by done. unfold u32, wrap_u. rewrite !Z.mod_small by lia. by destruct c.
Qed.

(** What recvfd() makes of a buffer laid out by the kernel. *)
Lemma recvfd_check rest fd pad (s : S) : 0 <= fd <= INT_MAX -> padded (rights [fd]) pad ->
  forall sock rc s', sys_recvmsg sock sizeof_int (CMSG_SPACE sizeof_int) s = (Done (SOk rc), s') ->
  rc_control rc = encode ((rights [fd], pad) :: rest) -> recvfd sock s = (Done fd, s').
Proof.
  intros Hfd Hpad sock rc s' Hr Hc. unfold recvfd. rewrite (bind_done _ _ _ _ _ (call_ok _ _ _ _ Hr)), Hc.
  assert (Hfits : fits (rights [fd])) by (apply fits_rights; simpl; lia).
  unfold CMSG_FIRSTHDR. rewrite (proj2 (Nat.leb_le _ _)) by apply encode_nonempty. cbn [encode].
  pose proof (cmsg_len_at [] (encode rest) pad _ Hfits) as Hlen.
  pose proof (cmsg_level_at [] (encode rest) pad _ Hfits) as Hlevel.
  pose proof (cmsg_type_at [] (encode rest) pad _ Hfits) as Htype.
  pose proof (load_int_data [] (rights [fd]) pad (encode rest) [fd] eq_refl 0 fd eq_refl ltac:(unfold INT_MIN, INT_MAX in *; lia)) as Hdata.
  rewrite app_nil_l in Hlen, Hlevel, Htype, Hdata. simpl length in Hlen, Hlevel, Htype, Hdata.
  change (CMSG_DATA 0 + sizeof_int * 0)%nat with (CMSG_DATA 0) in Hdata.
  munfold. by rewrite Hlen, Hlevel, Htype, Hdata.
Qed.

Lemma sendfd_spec garbage sock fd (s : S) : length garbage = CMSG_SPACE sizeof_int -> is_int fd ->
  post (fun r s' => (r = -1 /\ view s' = view s) \/
    (r = 0 /\ exists f, file_of (view s) !! fd = Some f /\ sent (view s') = <[sock := sent (view s) !!! sock ++
       [Message (le_bytes sizeof_int 12345) [f] (own_cred (view s))]]> (sent (view s))))
    (fun _ _ => False) (sendfd garbage sock fd s).
Proof.
  intros Hg Hint. destruct (sendfd_run garbage sock fd s Hg) as (pad & Hpad & ->).
  assert (Hms : cmsgs (block (rights [fd]) pad) = Some [rights [fd]]).
  { rewrite <- (app_nil_r (block _ _)). apply (cmsgs_encode [(rights [fd], pad)]).
    apply Forall_singleton. split; [apply fits_rights; simpl; lia|done]. }
  apply post_bind. eapply post_mono; [| |apply (call_post view view_libc), (sendmsg_spec _ _ _ _ [fd] (own_cred (view s)) _ Hms)];
    [|done| | |].
  - intros [n|] s' (s1 & Hv & Hr); simpl.
    + destruct Hr as [(_ & fs & Hfs & Hr) ->]. right. split; [done|].
      inversion Hfs as [|? f ? ? Hf Hnil]; simplify_eq. inversion Hnil; simplify_eq.
      exists f. split; [done|]. by rewrite Hr.
    + destruct Hr as (e & Hr & _). left. split; [done|congruence].
  - exists [], []. by split; [|constructor].
  - by apply Forall_singleton.
  - right. split; [done|]. by repeat constructor.
Qed.

Lemma recvfd_spec sock m rest f (t : S) :
  inbox (view t) !! sock = Some (m :: rest) -> m_files m = [f] -> sock ∉ passcred (view t) ->
  post (fun r t' => (r = -1 /\ view t' = view t) \/
    (0 <= r /\ file_of (view t) !! r = None /\ file_of (view t') = <[r := f]> (file_of (view t)) /\
     inbox (view t') = <[sock := rest]> (inbox (view t))))
    (fun _ _ => False) (recvfd sock t).
Proof.
  intros Hin Hm Hp.
  pose proof (recvmsg_spec sock sizeof_int (CMSG_SPACE sizeof_int) m rest t Hin) as Hr.
  rewrite (bool_decide_eq_false_2 _ Hp), Hm in Hr. specialize (Hr ltac:(intros [|a [|b l]] Hl; (done || vm_compute; lia))).
  destruct (sys_recvmsg sock sizeof_int (CMSG_SPACE sizeof_int) t) as [[[rc|e]| | | |] t'] eqn:Hcall; try done.
  - destruct Hr as (_ & fds & pads & Hlen & _ & Hall & Hlp & Hpad & Hc & Hv).
    destruct fds as [|fd [|]]; try done. destruct pads as [|pad [|]]; try done.
    apply Forall_singleton in Hall as [Hfd Hfresh]. apply Forall_inv in Hpad. simpl in Hpad.
    rewrite (recvfd_check [] fd pad t Hfd Hpad sock rc t' Hcall Hc). right.
    rewrite Hv. simpl. split_and!; [lia|done| |done]. by rewrite <- insert_union_l, (left_id_L ∅ (∪)).
  - unfold recvfd. rewrite (bind_done _ _ _ _ _ (call_err _ _ _ _ Hcall)). left. simpl.
    split; [done|]. by rewrite view_libc.
Qed.


(** The buffer of recvfd() has room for a second descriptor, where alignment
    leaves a gap: when the peer sends two, recvfd() fails with EINVAL, but both
    descriptors have been opened in the process and are never closed. *)
Theorem recvfd_leaks sock m rest f g rc (t t' : S) :
  inbox (view t) !! sock = Some (m :: rest) -> m_files m = [f; g] -> sock ∉ passcred (view t) ->
  sys_recvmsg sock sizeof_int (CMSG_SPACE sizeof_int) t = (Done (SOk rc), t') ->
  (exists t'', recvfd sock t = (Done (-1), t'') /\ view t'' = view t' /\ lc_errno (libc_of t'') = EINVAL) /\
  exists a b, a <> b /\ file_of (view t) !! a = None /\ file_of (view t) !! b = None /\
    file_of (view t') = <[a := f]> (<[b := g]> (file_of (view t))).
Proof.
  intros Hin Hm Hp Hcall.
  pose proof (recvmsg_spec sock sizeof_int (CMSG_SPACE sizeof_int) m rest t Hin) as Hr.
  rewrite (bool_decide_eq_false_2 _ Hp), Hm, Hcall in Hr.
  specialize (Hr ltac:(intros [|a [|b [|c l]]] Hl; (done || vm_compute; lia))).
  destruct Hr as (_ & fds & pads & Hlen & Hnd & Hall & Hlp & Hpad & Hc & Hv).
  destruct fds as [|a [|b [|]]]; try done. destruct pads as [|pad [|]]; try done.
  apply Forall_cons in Hall as [[_ Ha] Hall]. apply Forall_singleton in Hall as [_ Hb]. split.
  - exists (set_errno EINVAL t').2. split_and!.
    + unfold recvfd. rewrite (bind_done _ _ _ _ _ (call_ok _ _ _ _ Hcall)), Hc.
      unfold CMSG_FIRSTHDR. rewrite (proj2 (Nat.leb_le _ _)) by apply encode_nonempty.
      change (encode _) with (block (rights [a; b]) pad ++ []).
      assert (Hfits : fits (rights [a; b])) by (apply fits_rights; simpl; lia).
      pose proof (cmsg_len_at [] [] pad _ Hfits) as Hl. rewrite app_nil_l in Hl. simpl length in Hl.
      munfold. by rewrite Hl.
    + apply view_libc.
    + simpl. by rewrite libc_of_set.
  - exists a, b. inversion Hnd as [|? ? Hnot _]; subst. split_and!; [|done|done|].
    + intros ->. apply Hnot. left.
    + rewrite Hv. simpl. by rewrite <- !insert_union_l, (left_id_L ∅ (∪)).
Qed.
End functions.

(** * scm_multi_send.c *)

Section multi_send.
Context {S : Type} `{HL : HasLibc S} `{HK : SockOS S} `{HM : MsgOS S} `{HP : PeerOS S} `{HS : !MsgSpec S}.
Context (strerror : Z -> bytes).

Definition sentv (s : S) : gmap Z (list message) := sent (view s).
Lemma sentv_libc l s : sentv (set_libc l s) = sentv s.
Proof. unfold sentv. by rewrite view_libc. Qed.

Lemma printf_view txt (s : S) : exists s', printf txt s = (Done tt, s') /\ view s' = view s.
Proof. eexists. split; [reflexivity|]. apply view_libc. Qed.

(** The zeroed buffer is cut into its two blocks. *)
Lemma zero_blocks n : exists gap,
  padded (rights (replicate n 0)) gap /\
  replicate (CMSG_SPACE (sizeof_int * n) + CMSG_SPACE sizeof_ucred) 0 =
    replicate sizeof_cmsghdr 0 ++ replicate (4 * n) 0 ++ gap ++
    replicate sizeof_cmsghdr 0 ++ replicate sizeof_ucred 0 ++ replicate 4 0.
Proof.
  exists (replicate (CMSG_ALIGN (4 * n) - 4 * n) 0). split.
  - unfold padded, rights. simpl cm_data. rewrite length_fds_bytes, !length_replicate.
    pose proof (CMSG_ALIGN_ge (4 * n)). lia.
  - rewrite <- !replicate_add. f_equal. unfold CMSG_SPACE, sizeof_int.
    change (CMSG_ALIGN sizeof_ucred) with 16%nat. unfold sizeof_ucred, sizeof_cmsghdr.
    pose proof (CMSG_ALIGN_ge (4 * n)). lia.
Qed.

Lemma fds_bytes_zero n : fds_bytes (replicate n 0) = replicate (4 * n) 0.
Proof.
  induction n as [|n IH]; [done|]. change (replicate (Datatypes.S n) 0) with ([0] ++ replicate n 0).
  rewrite fds_bytes_app, IH. change (fds_bytes [0]) with (replicate 4 0).
  rewrite <- replicate_add. f_equal. lia.
Qed.

(** The buffer between the two loops of main(): the headers and the credentials
    are in place, the descriptors are still 0. *)
Lemma multi_headers_run n cred (s : S) : (n < Z.to_nat (2 ^ 32))%nat ->
  exists gap s', padded (rights (replicate n 0)) gap /\ view s' = view s /\
  multi_headers n cred (replicate (CMSG_SPACE (sizeof_int * n) + CMSG_SPACE sizeof_ucred) 0) s =
    (Done (block (rights (replicate n 0)) gap ++ block (credentials cred) (replicate 4 0), CMSG_DATA 0), s').
Proof.
  intros Hn. destruct (zero_blocks n) as (gap & Hgap & ->). exists gap.
  set (m := rights (replicate n 0)).
  assert (Hfits : fits m) by (apply fits_rights; rewrite length_replicate; lia).
  unfold multi_headers, CMSG_FIRSTHDR. rewrite length_app, length_replicate.
  destruct (Nat.leb_spec sizeof_cmsghdr (sizeof_cmsghdr +
    length (replicate (4 * n) 0 ++ gap ++ replicate sizeof_cmsghdr 0 ++ replicate sizeof_ucred 0 ++ replicate 4 0)));
    [|lia].
  set (tail := replicate sizeof_cmsghdr 0 ++ replicate sizeof_ucred 0 ++ replicate 4 0).
  cbn [deref]. rewrite mret_bind.
  rewrite (fill_level_type_len [] (replicate sizeof_cmsghdr 0) (replicate (4 * n) 0 ++ gap ++ tail))
    by (by rewrite length_replicate).
  rewrite app_nil_l.
  assert (Hb : header SOL_SOCKET SCM_RIGHTS (sizeof_int * n) ++ replicate (4 * n) 0 ++ gap ++ tail =
               [] ++ block m gap ++ tail).
  { unfold block, m, rights. simpl cm_data. simpl cm_level. simpl cm_type.
    rewrite length_fds_bytes, length_replicate, fds_bytes_zero, <- !app_assoc. done. }
  rewrite Hb. destruct (printf_view (line (str "cmsg_len 1: " ++ print_z (Z.of_nat (CMSG_LEN (sizeof_int * n))))) s)
    as (s1 & Hp1 & Hv1). rewrite (bind_done _ _ _ _ _ Hp1).
  pose proof (next_block [] tail gap m Hfits Hgap) as Hnext.
  change (length (@nil Z)) with 0%nat in Hnext. rewrite Hnext.
  change (sizeof_cmsghdr <=? length tail)%nat with true. cbv iota. cbn [deref]. rewrite mret_bind.
  rewrite app_assoc, app_nil_l. unfold tail.
  rewrite (fill_level_type_len (block m gap) (replicate sizeof_cmsghdr 0)) by (by rewrite length_replicate).
  destruct (printf_view (line (str "cmsg_len 2: " ++ print_z (Z.of_nat (CMSG_LEN sizeof_ucred)))) s1)
    as (s2 & Hp2 & Hv2). rewrite (bind_done _ _ _ _ _ Hp2).
  rewrite (app_assoc (block m gap)), (store_mid (block m gap ++ header _ _ _) (ucred_bytes cred)).
  - exists s2. split_and!; [done|congruence|]. cbn [deref]. rewrite mret_bind. unfold mret, M_ret.
    do 3 f_equal. by rewrite <- app_assoc.
  - unfold CMSG_DATA. rewrite length_app, length_header. done.
  - rewrite length_ucred_bytes. apply length_replicate.
Qed.

(** A list of descriptors opened in state [s], with the files they are open on. *)
Definition opened (s : S) (fds : list Z) (fs : list nat) : Prop :=
  Forall2 (fun fd f => file_of (view s) !! fd = Some f) fds fs.

Lemma opened_insert s s' fd f fds fs : opened s fds fs -> file_of (view s) !! fd = None ->
  file_of (view s') = <[fd := f]> (file_of (view s)) -> opened s' (fds ++ [fd]) (fs ++ [f]).
Proof.
  intros Ho Hfresh Hv. unfold opened. rewrite Hv. apply Forall2_app.
  - eapply Forall2_impl; [exact Ho|]. intros x y Hx. simpl in Hx. rewrite lookup_insert_ne; [done|congruence].
  - constructor; [|constructor]. by rewrite lookup_insert_eq.
Qed.

Lemma open_files_spec files : forall hdr fds fs tail s, length hdr = sizeof_cmsghdr -> opened s fds fs ->
  post (fun buf s' => exists fds' fs', buf = hdr ++ fds_bytes (fds ++ fds') ++ tail /\
      length fds' = length files /\ Forall is_int fds' /\ opened s' (fds ++ fds') (fs ++ fs') /\ file_path <$> fs' = files /\
      sentv s' = sentv s /\ own_cred (view s') = own_cred (view s))
    (stops sentv s)
    (open_files strerror files (CMSG_DATA 0) (length fds)
       (hdr ++ (fds_bytes fds ++ replicate (4 * length files) 0) ++ tail) s).
Proof.
  induction files as [|path files IH]; intros hdr fds fs tail s Hhdr Ho; cbn [open_files].
  - simpl. exists [], []. rewrite !app_nil_r. done.
  - eapply (stops_bind sentv).
    + apply (echecked_spec strerror sentv sentv_libc _ _ _ _
        (fun fd s' => exists f, 0 <= fd <= INT_MAX /\ file_of (view s) !! fd = None /\ file_path f = path /\
           view s' = MsgView (<[fd := f]> (file_of (view s))) (sent (view s)) (inbox (view s))
                    (passcred (view s)) (own_cred (view s))) (open_view path s)).
      intros [fd|e] s'; [done|]. intros Hv. unfold sentv. by rewrite Hv.
    + intros fd s1 (f & Hfd & Hfresh & Hpath & Hv). split; [unfold sentv; by rewrite Hv|].
      replace (hdr ++ (fds_bytes fds ++ replicate (4 * length (path :: files)) 0) ++ tail)
        with ((hdr ++ fds_bytes fds) ++ replicate 4 0 ++ replicate (4 * length files) 0 ++ tail).
      2:{ rewrite <- !app_assoc. do 2 f_equal. rewrite (app_assoc (replicate 4 0)), <- replicate_add.
          do 2 f_equal. simpl. lia. }
      rewrite store_mid.
      * cbn [deref]. rewrite mret_bind.
        specialize (IH hdr (fds ++ [fd]) (fs ++ [f]) tail s1 Hhdr).
        rewrite length_app, Nat.add_comm in IH. cbn [length Nat.add] in IH.
        rewrite fds_bytes_app in IH. change (fds_bytes [fd]) with (le_bytes sizeof_int fd) in IH.
        replace (hdr ++ ((fds_bytes fds ++ le_bytes sizeof_int fd) ++ replicate (4 * length files) 0) ++ tail)
          with ((hdr ++ fds_bytes fds) ++ le_bytes sizeof_int fd ++ replicate (4 * length files) 0 ++ tail) in IH
          by (by rewrite <- !app_assoc).
        eapply post_mono; [| |apply IH].
        -- intros buf s2 (fds' & fs' & -> & Hlen & Hint & Ho' & Hp & Hsent & Hown).
           exists (fd :: fds'), (f :: fs'). rewrite <- !app_assoc in Ho'. rewrite <- app_assoc.
           split_and!; simpl; try done; try congruence;
             [constructor; [unfold is_int, INT_MIN, INT_MAX in *; lia|done]|..];
             [change (list_fmap _ _ file_path fs') with (file_path <$> fs'); by rewrite Hpath, Hp
             |rewrite Hsent; unfold sentv; by rewrite Hv|by rewrite Hown, Hv].
        -- done.
        -- apply (opened_insert s); [done|done|by rewrite Hv].
      * unfold CMSG_DATA. rewrite length_app, length_fds_bytes, Hhdr. unfold sizeof_int. lia.
      * by rewrite length_le_bytes.
Qed.

Lemma call_quiet {A} (m : M S (sysres A)) s : quiet view m ->
  post (fun _ s' => view s' = view s) (fun _ _ => False) (call m s).
Proof.
  intros Hm. eapply post_mono; [| |exact (call_post view view_libc _ _ _ _ (Hm s))]; [|done].
  intros [a|] s' (s1 & Hv & Hr); [destruct Hr; congruence|]. destruct Hr as (e & Hr & _). congruence.
Qed.

Lemma unixConnect_view a0 path type (s : S) :
  post (fun r s' => (is_Some r -> view s' = view s) /\ sentv s' = sentv s) (fun _ _ => False)
    (unixConnect a0 (Some path) type s).
Proof.
  rewrite unixConnect_run. destruct (strlen path <? sun_path_size)%nat.
  2:{ simpl. split; [by intros [? [=]]|apply sentv_libc]. }
  unfold name_socket, sentv. apply post_bind.
  eapply post_mono; [| |apply (call_quiet _ s (quiet_socket type))]; [|done].
  intros [sd|] s1 Hv1; [|simpl; split; [done|congruence]]. apply post_bind.
  eapply post_mono; [| |apply (call_quiet _ s1 (quiet_connect sd (address_of path)))]; [|done].
  intros [u|] s2 Hv2; [simpl; split; intros; congruence|]. apply post_bind. simpl. apply post_bind.
  eapply post_mono; [| |exact (call_post sentv sentv_libc _ _ _ _ (close_view sd s2))]; [|done].
  intros r s3 (s4 & Hv3 & Hr). simpl. split; [by intros [? [=]]|]. rewrite view_libc.
  unfold sentv in Hv3. rewrite Hv3. destruct r; [destruct Hr as [Hr ->]|destruct Hr as (? & Hr & _)]; congruence.
Qed.

(** The argument of the last occurrence of an option. *)
Fixpoint last_arg (c : ascii) (opts : list (ascii * bytes)) : option bytes :=
  match opts with
  | [] => None
  | (d, a) :: opts' => match last_arg c opts' with Some x => Some x | None => if ceq d c then Some a else None end
  end.
Definition given (c : ascii) (opts : list (ascii * bytes)) : bool := bool_decide (c ∈ opts.*1).
Definition cred_of_options (opts : list (ascii * bytes)) (own : ucred) : ucred :=
  Ucred (match last_arg "p" opts with Some a => atoi a | None => cr_pid own end)
        (match last_arg "u" opts with Some a => u32 (atoi a) | None => cr_uid own end)
        (match last_arg "g" opts with Some a => u32 (atoi a) | None => cr_gid own end).

Lemma cred_of_options_ok opts own : ucred_ok own -> ucred_ok (cred_of_options opts own).
Proof.
  intros (Hp & Hu & Hg). unfold cred_of_options, ucred_ok. cbn [cr_pid cr_uid cr_gid].
  refine (conj _ (conj _ _)); case_match; try done; [apply i32_range|apply u32_range..].
Qed.

Lemma usageError_stops {A} pname (s : S) (Q : A -> S -> Prop) : post Q (stops sentv s) (usageError pname s).
Proof.
  unfold usageError. do 8 (apply stops_eprintf; [exact sentv_libc|]; intros).
  apply c_exit_stops. exact sentv_libc.
Qed.

Lemma given_cons c d a opts : given c ((d, a) :: opts) = ceq d c || given c opts.
Proof.
  unfold given. rewrite fmap_cons. destruct (ceq_spec d c) as [->|Hne]; simpl orb.
  - apply bool_decide_eq_true_2. left.
  - apply bool_decide_ext. rewrite elem_of_cons. simpl. split; [intros [?|?]; [by destruct Hne|done]|by right].
Qed.

Lemma multi_send_options_spec pname opts : forall o (s : S),
  post (fun o' s' => s' = s /\ o' = MultiOptions (mo_dgram o || given "d" opts)
          (mo_sendData o && negb (given "n" opts)) (cred_of_options opts (mo_cred o)))
    (stops sentv s) (multi_send_options pname opts o s).
Proof.
  induction opts as [|[c a] opts IH]; intros [dg sd [pid uid gid]] s; cbn [multi_send_options].
  - simpl. by rewrite orb_false_r, andb_true_r.
  - rewrite !given_cons. unfold cred_of_options. cbn [last_arg mo_cred mo_dgram mo_sendData cr_pid cr_uid cr_gid].
    repeat (match goal with |- post _ _ ((if ceq c ?x then _ else _) s) =>
              destruct (ceq_spec c x) as [->|?]; ceq_eval;
              [eapply post_mono; [| |apply IH]; [|done]; intros o' s' [-> ->]; split; [done|];
               unfold cred_of_options; cbn [mo_cred mo_dgram mo_sendData cr_pid cr_uid cr_gid orb negb];
               rewrite ?orb_true_r, ?andb_false_r; by repeat case_match|] end).
    apply usageError_stops.
Qed.

Lemma padded_rights fds fds' gap : length fds' = length fds ->
  padded (rights fds) gap -> padded (rights fds') gap.
Proof. unfold padded, rights. simpl cm_data. rewrite !length_fds_bytes. by intros ->. Qed.

Lemma opened_inj s s' fds fs fs' : file_of (view s') = file_of (view s) ->
  opened s fds fs -> opened s' fds fs' -> fs = fs'.
Proof.
  intros Hv Ho. revert fs'. unfold opened. rewrite Hv. induction Ho as [|fd f fds fs Hf _ IH]; intros fs' Ho'.
  - by inversion Ho'.
  - inversion Ho' as [|? f' ? fs2 Hf' Hr]; subst. f_equal; [congruence|by apply IH].
Qed.

Lemma cmsgs_multi fds gap cred : (length fds < Z.to_nat (2 ^ 32))%nat -> padded (rights fds) gap ->
  cmsgs (block (rights fds) gap ++ block (credentials cred) (replicate 4 0)) = Some [rights fds; credentials cred].
Proof.
  intros Hl Hgap. rewrite <- (app_nil_r (block (credentials _) _)).
  apply (cmsgs_encode [(rights fds, gap); (credentials cred, replicate 4 0)]).
  apply Forall_cons. split; [split; [by apply fits_rights|done]|]. apply Forall_singleton.
  split; [apply fits_credentials|done].
Qed.

(** The block of the descriptors, before and after they are filled in. *)
Lemma rights_zero_block n gap : exists hdr, length hdr = sizeof_cmsghdr /\
  (forall tail, block (rights (replicate n 0)) gap ++ tail =
     hdr ++ (fds_bytes [] ++ replicate (4 * n) 0) ++ gap ++ tail) /\
  (forall fds tail, length fds = n -> hdr ++ fds_bytes fds ++ gap ++ tail = block (rights fds) gap ++ tail).
Proof.
  exists (header SOL_SOCKET SCM_RIGHTS (4 * n)). split; [apply length_header|]. unfold block, rights.
  split; intros; simpl cm_data; simpl cm_level; simpl cm_type.
  - by rewrite length_fds_bytes, length_replicate, fds_bytes_zero, <- !app_assoc.
  - subst n. by rewrite length_fds_bytes, <- !app_assoc.
Qed.

(** The whole of the sending: the descriptors, the socket, the message. *)
Lemma multi_send_run a0 argv0 opts files (s : S) : (length files < Z.to_nat (2 ^ 32))%nat ->
  post (fun _ _ => False) (fun e s' =>
    (e = EExit EXIT_SUCCESS /\ files <> [] /\ exists sock m, file_path <$> m_files m = files /\
       m_cred m = cred_of_options opts (own_cred (view s)) /\
       m_data m = (if given "n" opts then [] else le_bytes sizeof_int 12345) /\
       sentv s' = <[sock := sentv s !!! sock ++ [m]]> (sentv s)) \/ stops sentv s e s')
    (multi_send_main strerror a0 argv0 opts files s).
Proof.
  intros Hfiles. unfold multi_send_main. set (E := fun e s' => _ \/ stops sentv s e s').
  assert (HE : forall e s', stops sentv s e s' -> E e s') by (by right).
  eapply (stops_then sentv); [exact HE|done|exact (stops_weaken _ _ _ _ (ids_spec s))|].
  intros self s0 (Hv0 & -> & Hcred). assert (Hs0 : sentv s0 = sentv s) by (unfold sentv; congruence).
  eapply (stops_then sentv); [exact HE|exact Hs0|apply multi_send_options_spec|].
  intros o s1 [-> ->]. cbn [mo_cred mo_dgram mo_sendData orb andb].
  destruct (Nat.eqb_spec (length files) 0) as [|Hne].
  { eapply (stops_then sentv _ _ _ (fun _ _ => False)); [exact HE|exact Hs0|by apply usageError_stops|done]. }
  rewrite mret_bind.
  eapply (stops_then sentv _ _ _ (fun _ s' => view s' = view s)); [exact HE|exact Hs0| |].
  { eapply (echecked_spec strerror sentv sentv_libc); [apply quiet_malloc|].
    unfold sentv. intros [u|e'] s' Hv; congruence. }
  intros _ s2 Hv2. cbv zeta.
  destruct (multi_headers_run (length files) (cred_of_options opts (own_cred (view s))) s2 Hfiles)
    as (gap & s3 & Hgap & Hv3 & Hrun).
  rewrite (bind_done _ _ _ _ _ Hrun). cbv iota beta.
  destruct (rights_zero_block (length files) gap) as (hdr & Hhdr & Hzero & Hblock). rewrite Hzero.
  eapply (stops_then sentv); [exact HE|unfold sentv in *; congruence|apply (open_files_spec files hdr [] []); [done|constructor]|].
  intros buf s4 (fds & fs & -> & Hlen & Hint & Ho & Hp & Hs4 & Hown). rewrite app_nil_l, Hblock by done.
  assert (Hs4' : sentv s4 = sentv s) by (unfold sentv in *; congruence).
  eapply (stops_then sentv); [exact HE|exact Hs4'|apply stops_weaken, unixConnect_view|].
  intros sfd s5 [Hv5 Hs5].
  eapply (stops_then sentv _ _ _ (fun sd s' => s' = s5 /\ sfd = Some sd)); [exact HE|congruence| |].
  { destruct sfd as [sd|]; [done|]. apply errExit_stops. exact sentv_libc. }
  intros sd s6 [-> ->]. specialize (Hv5 ltac:(by eexists)).
  assert (Hcm := cmsgs_multi fds gap (cred_of_options opts (own_cred (view s))) ltac:(lia)
    (padded_rights _ fds gap ltac:(rewrite length_replicate; done) Hgap)).
  set (data := if negb (given "n" opts) then _ else _).
  eapply (stops_then sentv _ _ _ (fun _ s' => exists fs', opened s5 fds fs' /\
    sentv s' = <[sd := sentv s5 !!! sd ++ [Message data fs' (cred_of_options opts (own_cred (view s)))]]> (sentv s5)));
    [exact HE|congruence| |].
  { eapply (echecked_spec strerror sentv sentv_libc).
    - apply (sendmsg_spec _ _ _ _ fds (cred_of_options opts (own_cred (view s))) _ Hcm).
      + exists [], [credentials (cred_of_options opts (own_cred (view s)))]. split; [done|by repeat constructor].
      + eapply Forall_impl; [exact Hint|done].
      + left. split; [by apply cred_of_options_ok|]. exists [rights fds], []. split; [done|by repeat constructor].
    - unfold sentv. intros [n|e'] s' Hr; [|congruence]. destruct Hr as (_ & fs' & Hfs' & ->). by exists fs'. }
  intros n s6 (fs' & Ho' & Hs6).
  assert (fs' = fs) as -> by (symmetry; eapply (opened_inj s4 s5); [by rewrite Hv5|exact Ho|exact Ho']).
  unfold c_exit, fflush_stdout, printf. munfold. simpl. left. rewrite !sentv_libc.
  split; [done|]. split; [by intros ->|]. exists sd, (Message data fs (cred_of_options opts (own_cred (view s)))).
  simpl. split_and!; [done|done|unfold data; by destruct (given "n" opts)|congruence].
Qed.

(** scm_multi_send sends what its command line says, or nothing: it ends with
    status 0 only after one message that carries the files of all its arguments,
    in order (an argument is needed), the credentials of the process with those that the
    last -p, -u and -g replace, and four bytes of data unless -n is given; the
    control messages are laid out so that the kernel reads back exactly these.
    Every other ending leaves nothing sent. *)
Theorem multi_send_correct a0 argv0 opts files (s : S) : (length files < Z.to_nat (2 ^ 32))%nat ->
  post (fun _ _ => False) (fun e s' =>
    (e = EExit EXIT_SUCCESS /\ files <> [] /\ exists sock m, file_path <$> m_files m = files /\
       m_cred m = cred_of_options opts (own_cred (view s)) /\
       m_data m = (if given "n" opts then [] else le_bytes sizeof_int 12345) /\
       sent (view s') = <[sock := sent (view s) !!! sock ++ [m]]> (sent (view s))) \/
    ((e = EExit EXIT_FAILURE \/ e = EAbort) /\ sent (view s') = sent (view s)))
    (multi_send_main strerror a0 argv0 opts files s).
Proof. apply multi_send_run. Qed.
End multi_send.

(** * scm_multi_recv.c *)

Section multi_recv.
Context {S : Type} `{HL : HasLibc S} `{HR : ReadOS S} `{HW : WriteOS S} `{HK : SockOS S}.
Context (strerror : Z -> bytes).

(** A control message, and what the program shows of it. *)
Inductive scm_message := Rights (fds : list Z) | Creds (c : ucred).
Definition cmsg_of (m : scm_message) : cmsg :=
  match m with Rights fds => rights fds | Creds c => credentials c end.
Definition message_ok (m : scm_message) : Prop :=
  match m with
  | Rights fds => Z.of_nat (length fds) <= INT_MAX /\ Forall (fun fd => INT_MIN <= fd <= INT_MAX) fds
  | Creds c => INT_MIN <= cr_pid c <= INT_MAX /\ 0 <= cr_uid c < 2 ^ 32 /\ 0 <= cr_gid c < 2 ^ 32
  end.
Definition show_message (fuel : nat) (m : scm_message) : M S unit :=
  printf (line (str "================================="));;
  printf (line (str "cmsg_len: " ++ print_z (Z.of_nat (CMSG_LEN (length (cm_data (cmsg_of m)))))));;
  match m with
  | Rights fds =>
      printf (line (str "SCM_RIGHTS: received " ++ print_z (Z.of_nat (length fds)) ++ str " file descriptors"));;
      for_each (zip (seq 0 (length fds)) fds) (fun '(j, fd) => show_fd strerror fuel j fd)
  | Creds c =>
      printf (line (str "SCM_CREDENTIALS: pid=" ++ print_z (cr_pid c) ++ str ", uid=" ++
                    print_z (cr_uid c) ++ str ", gid=" ++ print_z (cr_gid c)))
  end.

Lemma message_fits m : message_ok m -> fits (cmsg_of m).
Proof.
  destruct m as [fds|c]; intros Hok; [|apply fits_credentials]. apply fits_rights.
  destruct Hok as [Hl _]. unfold INT_MAX in Hl. lia.
Qed.

Lemma for_each_seq {A} (l : list A) (f : nat -> M S unit) (g : nat * A -> M S unit) : forall k s,
  (forall j a, l !! j = Some a -> forall s', f (k + j)%nat s' = g (k + j, a)%nat s') ->
  for_each (seq k (length l)) f s = for_each (zip (seq k (length l)) l) g s.
Proof.
  induction l as [|a l IH]; intros k s Hf; [done|]. cbn [length seq zip zip_with for_each].
  pose proof (Hf 0%nat a eq_refl s) as H0. rewrite Nat.add_0_r in H0.
  unfold mbind, M_bind. rewrite H0. destruct (g (k, a) s) as [[] s1]; try done.
  apply IH. intros j b Hj s'. rewrite Nat.add_succ_comm. by apply Hf.
Qed.

Lemma show_cmsg_run fuel pre m pad post (s : S) : message_ok m ->
  show_cmsg strerror fuel (pre ++ block (cmsg_of m) pad ++ post) (length pre) s = show_message fuel m s.
Proof.
  intros Hok. pose proof (message_fits m Hok) as Hfits. unfold show_cmsg, show_message.
  apply bind_ext. intros _ s1.
  rewrite cmsg_len_at, cmsg_level_at, cmsg_type_at by done. cbn [deref]. rewrite mret_bind.
  apply bind_ext. intros _ s2. rewrite mret_bind.
  destruct m as [fds|c]; cbn [cmsg_of rights credentials cm_level cm_type cm_data].
  - change (SOL_SOCKET =? SOL_SOCKET) with true. cbn [negb]. rewrite !mret_bind.
    change (SCM_RIGHTS =? SCM_RIGHTS) with true. cbv iota.
    destruct Hok as [Hl Hfds].
    assert (Hcnt : i32 (wrap_u 64 (Z.of_nat (CMSG_LEN (length (fds_bytes fds))) - Z.of_nat (CMSG_LEN 0)) /
                        Z.of_nat sizeof_int) = Z.of_nat (length fds)).
    { rewrite length_fds_bytes. unfold CMSG_LEN, wrap_u. unfold INT_MAX in Hl.
      rewrite Z.mod_small by lia.
      replace (Z.of_nat (sizeof_cmsghdr + 4 * length fds) - Z.of_nat (sizeof_cmsghdr + 0))
        with (Z.of_nat (length fds) * Z.of_nat sizeof_int) by (unfold sizeof_int; lia).
      rewrite Z.div_mul by done. apply i32_id. unfold INT_MIN, INT_MAX. lia. }
    cbv zeta. rewrite Hcnt, Nat2Z.id. apply bind_ext. intros _ s3.
    apply for_each_seq. intros j fd Hj s'. rewrite Forall_lookup in Hfds.
    pose proof (load_int_data pre (rights fds) pad post fds eq_refl j fd Hj (Hfds j fd Hj)) as Hload.
    cbn [Nat.add].
    match goal with |- context [deref ?x] => replace x with (Some fd) by (symmetry; exact Hload) end. done.
  - change (SOL_SOCKET =? SOL_SOCKET) with true. cbn [negb]. rewrite !mret_bind.
    change (SCM_CREDENTIALS =? SCM_RIGHTS) with false. change (SCM_CREDENTIALS =? SCM_CREDENTIALS) with true. cbv iota.
    rewrite length_ucred_bytes, Nat.eqb_refl. cbn [negb]. rewrite mret_bind.
    destruct Hok as (Hp & Hu & Hg). pose proof (load_ucred_at pre c pad post Hp Hu Hg) as Hload.
    match goal with |- context [deref ?x] => replace x with (Some c) by (symmetry; exact Hload) end. done.
Qed.

Lemma show_headers_run fuel ms : forall hfuel pads pre (s : S), Forall message_ok ms -> length pads = length ms ->
  Forall (fun x => padded (cmsg_of x.1) x.2) (zip ms pads) -> (length ms < hfuel)%nat ->
  let blocks := encode (zip (cmsg_of <$> ms) pads) in
  iter hfuel (show_round strerror fuel (pre ++ blocks)) (if (sizeof_cmsghdr <=? length blocks)%nat then Some (length pre) else None) s
  = for_each ms (show_message fuel) s.
Proof.
  induction ms as [|m ms IH]; intros hfuel pads pre s Hok Hlen Hpads Hfuel.
  - destruct hfuel as [|hfuel]; [lia|]. done.
  - destruct pads as [|pad pads]; [done|]. destruct hfuel as [|hfuel]; [lia|].
    apply Forall_cons in Hok as [Hm Hok]. apply Forall_cons in Hpads as [Hpad Hpads]. simpl in Hpad.
    cbn [fmap list_fmap zip zip_with]. cbv zeta.
    rewrite (proj2 (Nat.leb_le _ _)) by apply encode_nonempty. cbn [encode iter for_each].
    cbn [show_round]. rewrite bind_bind. unfold mbind, M_bind. rewrite show_cmsg_run by done.
    destruct (show_message fuel m s) as [[] s1]; try done.
    unfold mret, M_ret. cbv beta iota. rewrite next_block by (done || by apply message_fits).
    rewrite app_assoc. apply IH; [done|by injection Hlen|done|simpl in Hfuel; lia].
Qed.

(** For control messages as the kernel lays them out, with any bytes in the gaps
    of alignment, the walk of scm_multi_recv over CMSG_FIRSTHDR() and CMSG_NXTHDR()
    is the same as going through the list of messages: each is shown once and in
    order, every descriptor and the credentials with the values that were sent, and
    nothing is read outside the buffer. *)
Theorem multi_recv_walk fuel hfuel ms pads (s : S) : Forall message_ok ms -> length pads = length ms ->
  Forall (fun x => padded (cmsg_of x.1) x.2) (zip ms pads) -> (length ms < hfuel)%nat ->
  show_headers strerror hfuel fuel (encode (zip (cmsg_of <$> ms) pads)) s = for_each ms (show_message fuel) s.
Proof. intros. by apply (show_headers_run fuel ms hfuel pads []). Qed.
End multi_recv.
