(* ===== verification/ScmToy.v ===== *)
(** A small system with sockets that passes descriptors and credentials: it meets
    the interfaces of UnixSockets and Scm, and the programs run on it. *)
From S2P Require Import Prelude CLib Sys ErrorFunctions Calls Memory Cmsg UnixSockets Scm.
#[local] Open Scope Z_scope.

Definition ENOSPC_FDS : Z := 24.

Record toy := Toy {
  ty_files : gmap Z nat;
  ty_socks : gset Z;
  ty_addr : gmap Z sockaddr_un;
  ty_sent : gmap Z (list message);
  ty_inbox : gmap Z (list message);
  ty_pass : gset Z
}.
Definition self : ucred := Ucred 1234 1000 100.
Definition toy_view (s : libc * toy) : msg_view :=
  MsgView (ty_files (snd s)) (ty_sent (snd s)) (ty_inbox (snd s)) (ty_pass (snd s)) self.

(** Two files. *)
Definition toy_path (f : nat) : bytes := if (f =? 0)%nat then str "a" else str "b".

(** The first unused descriptor above all those in use. *)
Definition used (t : toy) : gset Z := dom (ty_files t) ∪ ty_socks t.
Definition next (t : toy) : Z := foldr Z.max 2 (elements (used t)) + 1.

Lemma foldr_max_ge b l x : x ∈ l -> x <= foldr Z.max b l.
Proof. induction 1; simpl; lia. Qed.
Lemma foldr_max_base b l : b <= foldr Z.max b l.
Proof. induction l; simpl; lia. Qed.
Lemma next_fresh t x : next t <= x -> x ∉ used t.
Proof.
  intros Hx Hin. rewrite <- elem_of_elements in Hin.
  pose proof (foldr_max_ge 2 _ _ Hin). unfold next in Hx. lia.
Qed.
Lemma next_pos t : 3 <= next t.
Proof. pose proof (foldr_max_base 2 (elements (used t))). unfold next. lia. Qed.

Abbreviation St := (libc * toy)%type.

#[export] Instance toy_sock : SockOS St := {|
  sys_socket _ := fun '(l, t) =>
    let sd := next t in
    (Done (SOk sd), (l, Toy (ty_files t) ({[ sd ]} ∪ ty_socks t) (ty_addr t) (ty_sent t) (ty_inbox t) (ty_pass t)));
  sys_connect sd a := fun '(l, t) =>
    (Done (SOk tt), (l, Toy (ty_files t) (ty_socks t) (<[sd := a]> (ty_addr t)) (ty_sent t) (ty_inbox t) (ty_pass t)));
  sys_bind sd a := fun '(l, t) =>
    (Done (SOk tt), (l, Toy (ty_files t) (ty_socks t) (<[sd := a]> (ty_addr t)) (ty_sent t) (ty_inbox t) (ty_pass t)));
  sys_close fd := fun '(l, t) =>
    (Done (SOk tt), (l, Toy (delete fd (ty_files t)) (ty_socks t ∖ {[ fd ]}) (ty_addr t) (ty_sent t) (ty_inbox t) (ty_pass t)))
|}.

#[export, refine] Instance toy_sock_spec : SockSpec St :=
  {| open_fds s := used (snd s); address s sd := ty_addr (snd s) !! sd |}.
Proof.
  - by intros l [].
  - by intros l [].
  - intros type [l t]. simpl. split_and!.
    + pose proof (next_pos t). lia.
    + by apply next_fresh.
    + unfold used. simpl. set_solver +.
  - intros sd a [l t]. simpl. split; [done|]. intros _. by rewrite lookup_insert_eq.
  - intros sd a [l t]. simpl. split; [done|]. intros _. by rewrite lookup_insert_eq.
  - intros sd [l t]. simpl. unfold used. simpl. rewrite dom_delete_L. set_solver +.
Defined.

#[export] Instance toy_peer : PeerOS St := {|
  sys_listen _ _ := mret (SOk tt);
  sys_accept _ := mret (SErr EINVAL);
  sys_setsockopt_passcred _ _ := mret (SOk tt);
  sys_getsockopt_peercred _ := mret (SOk self);
  sys_remove _ := mret (SErr ENOENT);
  sys_open_rdonly path := fun '(l, t) =>
    let fd := next t in
    if streq path (str "a") && (fd <=? INT_MAX) then
      (Done (SOk fd), (l, Toy (<[fd := 0%nat]> (ty_files t)) (ty_socks t) (ty_addr t) (ty_sent t) (ty_inbox t) (ty_pass t)))
    else if streq path (str "b") && (fd <=? INT_MAX) then
      (Done (SOk fd), (l, Toy (<[fd := 1%nat]> (ty_files t)) (ty_socks t) (ty_addr t) (ty_sent t) (ty_inbox t) (ty_pass t)))
    else (Done (SErr ENOENT), (l, t));
  sys_getids := mret self;
  sys_malloc _ := mret (SOk tt);
  sys_getpid := mret 1234;
  sys_system _ := mret 0
|}.

(** The integers of a data area. *)
Fixpoint decode_ints (bs : list Z) : list Z :=
  match bs with
  | a :: b :: c :: d :: rest => i32 (le_val [a; b; c; d]) :: decode_ints rest
  | _ => []
  end.
Lemma decode_fds fds : Forall is_int fds -> decode_ints (fds_bytes fds) = fds.
Proof.
  induction 1 as [|fd fds Hfd _ IH]; [done|].
  change (decode_ints (fds_bytes (fd :: fds))) with (i32 (le_val (le_bytes 4 fd)) :: decode_ints (fds_bytes fds)).
  by rewrite IH, int_roundtrip.
Qed.

Definition of_type (ty : Z) (ms : list cmsg) : list cmsg := filter (fun m => cm_type m = ty) ms.
Lemma of_type_none ty ms : Forall (fun m => cm_type m <> ty) ms -> of_type ty ms = [].
Proof.
  unfold of_type. induction 1 as [|m ms Hm _ IH]; [done|]. rewrite filter_cons_False; done.
Qed.
Lemma of_type_one ty m before after : cm_type m = ty ->
  Forall (fun m => cm_type m <> ty) (before ++ after) -> of_type ty (before ++ m :: after) = [m].
Proof.
  intros Hm [Hb Ha]%Forall_app. unfold of_type. rewrite filter_app, filter_cons_True by done.
  fold (of_type ty before). fold (of_type ty after). by rewrite !of_type_none.
Qed.

Definition asked_fds (ms : list cmsg) : list Z :=
  match of_type SCM_RIGHTS ms with [m] => decode_ints (cm_data m) | _ => [] end.
Definition asked_cred (ms : list cmsg) : ucred :=
  match of_type SCM_CREDENTIALS ms with
  | [m] => default self (load_ucred (replicate sizeof_cmsghdr 0 ++ cm_data m ++ []) (CMSG_DATA 0))
  | _ => self
  end.

#[export] Instance toy_msg : MsgOS St := {|
  sys_sendmsg sock data control := fun '(l, t) =>
    match cmsgs control with
    | None => (Done (SErr EINVAL), (l, t))
    | Some ms =>
        match mapM (fun fd => ty_files t !! fd) (asked_fds ms) with
        | None => (Done (SErr EBADF), (l, t))
        | Some fs =>
            (Done (SOk (length data)),
             (l, Toy (ty_files t) (ty_socks t) (ty_addr t)
                   (<[sock := ty_sent t !!! sock ++ [Message data fs (asked_cred ms)]]> (ty_sent t))
                   (ty_inbox t) (ty_pass t)))
        end
    end;
  sys_recvmsg sock n clen := fun '(l, t) =>
    match ty_inbox t !! sock with
    | Some (m :: rest) =>
        let fds := seqZ (next t) (Z.of_nat (length (m_files m))) in
        let ms := delivered (bool_decide (sock ∈ ty_pass t)) (m_cred m) fds in
        if next t + Z.of_nat (length (m_files m)) <=? INT_MAX then
          (Done (SOk (Received (take n (m_data m))
                   (encode ((fun m => (m, replicate (CMSG_ALIGN (length (cm_data m)) - length (cm_data m)) 0)) <$> ms)) 0)),
           (l, Toy (list_to_map (zip fds (m_files m)) ∪ ty_files t) (ty_socks t) (ty_addr t) (ty_sent t)
                 (<[sock := rest]> (ty_inbox t)) (ty_pass t)))
        else (Done (SErr ENOSPC_FDS), (l, t))
    | _ => (Done (SErr EAGAIN), (l, t))
    end
|}.

Lemma asked_fds_correct ms fds : sent_fds ms fds -> Forall is_int fds -> asked_fds ms = fds.
Proof.
  intros (before & after & -> & Hother) Hint. unfold asked_fds.
  rewrite of_type_one by done. by apply decode_fds.
Qed.

Lemma asked_cred_correct ms c : sent_cred self ms c -> asked_cred ms = c.
Proof.
  unfold asked_cred. intros [(Hok & before & after & -> & Hother)|[-> Hnone]].
  - rewrite of_type_one by done. destruct Hok as (Hp & Hu & Hg).
    pose proof (load_ucred_at [] c [] [] Hp Hu Hg) as Hload.
    unfold block in Hload. rewrite app_nil_l, !app_nil_r in Hload. rewrite app_nil_r.
    unfold load_ucred, load_int, load_uint in *.
    assert (Hl : forall off n, (16 <= off)%nat ->
      load off n (replicate sizeof_cmsghdr 0 ++ cm_data (credentials c)) =
      load off n (header (cm_level (credentials c)) (cm_type (credentials c)) (length (cm_data (credentials c))) ++
                  cm_data (credentials c))).
    { intros off n Hoff. unfold load. rewrite !length_app, length_header, length_replicate.
      by rewrite !drop_app_ge by (rewrite ?length_header, ?length_replicate; done || (unfold sizeof_cmsghdr; lia)). }
    rewrite !Hl by (unfold CMSG_DATA, sizeof_cmsghdr; lia). change (length (@nil Z)) with 0%nat in Hload.
    by rewrite Hload.
  - by rewrite of_type_none.
Qed.

Lemma zip_pads (ms : list cmsg) (g : cmsg -> list Z) : (fun m => (m, g m)) <$> ms = zip ms (g <$> ms).
Proof. induction ms as [|m ms IH]; [done|]. simpl. by f_equal. Qed.

#[export, refine] Instance toy_msg_spec : MsgSpec St := {| view := toy_view; file_path := toy_path |}.
Proof.
  - by intros l [].
  - by intros n [].
  - by intros type [].
  - by intros sd a [].
  - intros s. split; [done|]. split; [done|]. unfold ucred_ok, is_int, INT_MIN, INT_MAX. simpl. lia.
  - by intros fd [].
  - intros path [l t]. cbn [sys_open_rdonly toy_peer]. pose proof (next_pos t).
    assert (Hnew : forall x, ty_files t !! next t = x -> x = None).
    { intros x <-. apply not_elem_of_dom. intros Hin. apply (next_fresh t (next t)); [lia|]. set_solver. }
    destruct (streq path (str "a") && (next t <=? INT_MAX)) eqn:Ha;
      [|destruct (streq path (str "b") && (next t <=? INT_MAX)) eqn:Hb; [|done]].
    + apply andb_true_iff in Ha as [Hp Hmax]. apply bool_decide_eq_true in Hp. simpl.
      exists 0%nat. split_and!; [lia|lia|by eapply Hnew|by rewrite Hp|done].
    + apply andb_true_iff in Hb as [Hp Hmax]. apply bool_decide_eq_true in Hp. simpl.
      exists 1%nat. split_and!; [lia|lia|by eapply Hnew|by rewrite Hp|done].
  - intros sock data control ms fds c [l t] Hms Hfds Hint Hcred. cbn [sys_sendmsg toy_msg].
    rewrite Hms, (asked_fds_correct ms fds), (asked_cred_correct ms c) by done.
    destruct (mapM _ fds) as [fs|] eqn:Hm; [|done]. simpl. split; [done|]. exists fs.
    split; [by apply mapM_Some_1 in Hm|done].
  - intros sock n clen m rest [l t] Hin Hroom. cbn [sys_recvmsg toy_msg]. simpl in Hin. rewrite Hin.
    set (k := length (m_files m)) in *. destruct (Z.leb_spec (next t + Z.of_nat k) INT_MAX) as [Hmax|]; [|done].
    set (fds := seqZ (next t) (Z.of_nat k)). cbn [post rc_data rc_control]. split; [done|].
    assert (Hk : length fds = k) by (unfold fds; rewrite length_seqZ; lia).
    set (ms := delivered _ _ fds).
    exists fds, ((fun m => replicate (CMSG_ALIGN (length (cm_data m)) - length (cm_data m)) 0) <$> ms).
    split; [done|]. split; [apply NoDup_seqZ|]. split.
    { apply Forall_forall. intros x Hx. apply elem_of_seqZ in Hx. pose proof (next_pos t). split; [lia|].
      apply not_elem_of_dom. intros Hd. apply (next_fresh t x); [lia|]. simpl in Hd. set_solver. }
    cbv zeta. change (bool_decide (sock ∈ passcred (toy_view (l, t)))) with (bool_decide (sock ∈ ty_pass t)).
    fold ms. split; [apply length_fmap|]. split; [|split; [|done]].
    + apply Forall_forall. intros [m' pad] Hx. rewrite <- zip_pads in Hx.
      apply list_elem_of_fmap in Hx as (m'' & [= -> ->] & _). unfold padded. simpl.
      rewrite length_replicate. pose proof (CMSG_ALIGN_ge (length (cm_data m''))). lia.
    + by rewrite zip_pads.
Defined.

(** * The theorems on this system *)

#[export] Instance toy_read : ReadOS St := fun _ _ s => (Done (SOk []), s).
#[export] Instance toy_write : WriteOS St := fun _ bs s => (Done (SOk (length bs)), s).

Definition toy0 : toy := Toy {[ 3 := 1%nat ]} {[ 4 ]} ∅ ∅
  {[ 4 := [Message [1] [0%nat; 1%nat] self]; 5 := [Message [57; 48; 0; 0] [1%nat] self] ]} ∅.
Definition start : St := (libc0, toy0).
Definition no_strerror : Z -> bytes := fun _ => [].

Lemma unix_sockets_correct_witness :
  post (fun r s' => named start (address_of (str "scm_multi")) r s' /\
          (is_Some r -> (strlen (str "scm_multi") < sun_path_size)%nat)) (fun _ _ => False)
    (unixConnect zero_addr (Some (str "scm_multi")) SOCK_STREAM start).
Proof. exact (proj1 (unix_sockets_correct zero_addr (str "scm_multi") SOCK_STREAM start)). Defined.


Lemma recvfd_leaks_witness : exists t', (recvfd 4 start).1 = Done (-1) /\
  exists a b, a <> b /\ file_of (view t') = <[a := 0%nat]> (<[b := 1%nat]> (file_of (view start))).
Proof.
  destruct (recvfd_leaks 4 (Message [1] [0%nat; 1%nat] self) [] 0 1
    (Received [1] (encode [(rights [5; 6], [])]) 0) start (sys_recvmsg 4 4 24 start).2) as [H1 H2].
  - reflexivity.
  - reflexivity.
  - set_solver.
  - reflexivity.
  - exists (sys_recvmsg 4 4 24 start).2. destruct H1 as (t'' & -> & _). split; [done|].
    destruct H2 as (a & b & Hab & _ & _ & Hf). by exists a, b.
Defined.

Definition sample_run : outcome unit * St :=
  multi_send_main no_strerror zero_addr (str "scm_multi_send") [("u"%char, str "0")] [str "a"; str "b"] start.

Lemma multi_send_correct_witness :
  exists sock m, toy_path <$> m_files m = [str "a"; str "b"] /\ m_cred m = Ucred 1234 0 100 /\
    sent (view sample_run.2) = <[sock := sent (view start) !!! sock ++ [m]]> (sent (view start)).
Proof.
  assert (Hrun : sample_run.1 = Exited EXIT_SUCCESS) by (vm_compute; reflexivity).
  pose proof (multi_send_correct no_strerror zero_addr (str "scm_multi_send") [("u"%char, str "0")]
    [str "a"; str "b"] start ltac:(simpl; lia)) as H.
  fold sample_run in H. destruct sample_run as [r s']. simpl in Hrun. subst r.
  destruct H as [(_ & _ & sock & m & Hf & Hc & _ & Hs)|[[[=]|[=]] _]].
  exists sock, m. split; [exact Hf|]. split; [exact Hc|exact Hs].
Defined.

Lemma multi_recv_walk_witness :
  show_headers no_strerror 3 2 (encode (zip (cmsg_of <$> [Creds self; Rights [5; 6]]) [[9; 9; 9; 9]; []])) start =
  for_each [Creds self; Rights [5; 6]] (show_message no_strerror 2) start.
Proof.
  apply multi_recv_walk; [|done| |simpl; lia].
  - repeat constructor; unfold INT_MIN, INT_MAX; simpl; lia.
  - repeat constructor.
Defined.
