(* ===== verification/Seccomp.v ===== *)
(** Programs of book-src/seccomp/ under the filters they install: the decision of
    the kernel on several filters, the programs that show one filter, and the
    pair that dumps a filter and loads it. *)
From S2P Require Import Prelude CLib Sys ErrorFunctions Calls Memory Bpf.
#[local] Open Scope Z_scope.

(** * The decision of the kernel *)

Definition SECCOMP_RET_ACTION_FULL : Z := 0xffff0000.
Definition SECCOMP_RET_DATA : Z := 0xffff.
Definition action (ret : Z) : Z := Z.land ret SECCOMP_RET_ACTION_FULL.

(** Every filter runs, the newest first; the action with the least value as a
    signed number wins, and of equal actions the newest. *)
Fixpoint verdict (ret : Z) (filters : list (list sock_filter)) (d : seccomp_data) : option Z :=
  match filters with
  | [] => Some ret
  | f :: filters' =>
      match run_filter f d with
      | None => None
      | Some cur => verdict (if i32 (action cur) <? i32 (action ret) then cur else ret) filters' d
      end
  end.
Definition decision (filters : list (list sock_filter)) (d : seccomp_data) : option Z :=
  verdict SECCOMP_RET_ALLOW filters d.

(** The filters that bind the process, newest first. *)
Class HasFilters (S : Type) := {
  filters_of : S -> list (list sock_filter);
  set_filters : list (list sock_filter) -> S -> S;
  filters_of_set : forall fs s, filters_of (set_filters fs s) = fs
}.

Definition ENOSYS : Z := 38.

Section filtered.
Context {S : Type} `{HasFilters S}.

(** A system call [m] with the data [d], when filters are in force. A trap runs
    [trap] in place of the call, a notification [notify]; a process without a
    ptrace tracer gets ENOSYS where one is asked for. *)
Definition filtered {A} (trap notify : M S (sysres A)) (d : seccomp_data) (m : M S (sysres A)) : M S (sysres A) :=
  fs ← gets filters_of;
  match decision fs d with
  | None => undefined
  | Some ret =>
      let a := action ret in
      if (a =? SECCOMP_RET_ALLOW) || (a =? SECCOMP_RET_LOG) then m
      else if a =? SECCOMP_RET_ERRNO then mret (SErr (Z.land ret SECCOMP_RET_DATA))
      else if a =? SECCOMP_RET_TRAP then trap
      else if a =? SECCOMP_RET_USER_NOTIF then notify
      else if a =? SECCOMP_RET_TRACE then mret (SErr ENOSYS)
      else abort_
  end.
End filtered.

(** * The calls *)

Definition AT_FDCWD : Z := -100.
Definition O_RDONLY : Z := 0.
Definition NR_geteuid : Z := 107.
Definition NR_mq_notify : Z := 244.

(** What the kernel does for the calls it lets through. *)
Class KernOS (S : Type) := {
  k_no_new_privs : M S (sysres unit);
  k_seccomp_ok : M S (sysres unit);               (* a filter that is well formed is installed, or not *)
  k_openat : bytes -> Z -> Z -> M S (sysres Z);
  k_lseek : Z -> Z -> M S (sysres Z);
  k_getppid : M S (sysres Z);
  k_geteuid : M S (sysres Z);
  k_mq_notify : Z -> M S (sysres unit);
  k_sigaction_sigsys : M S (sysres unit);
  k_getpid : M S Z;
  k_system : bytes -> M S Z;
  k_execv : bytes -> list bytes -> M S Z          (* returns only with an error *)
}.

Section programs.
Context {S : Type} `{HasLibc S} `{HasFilters S} `{KernOS S}.
(** strerror(3), and the addresses of the strings that are passed to the kernel *)
Context (strerror : Z -> bytes) (addr : bytes -> Z).
#[local] Abbreviation errExit := (errExit strerror).
#[local] Abbreviation echecked := (echecked strerror).

Definition x86_64 (n : Z) (args : list Z) : seccomp_data := Data n AUDIT_ARCH_X86_64 0 args.

(** seccomp(SECCOMP_SET_MODE_FILTER, 0, &prog): the kernel checks the program. *)
(** Source: book-src/seccomp/seccomp_control_open.c:41-45 (seccomp). *)
Definition seccomp_set_mode_filter (prog : list sock_filter) : M S (sysres unit) :=
  if filter_ok prog then
    r ← k_seccomp_ok;
    match r with
    | SErr e => mret (SErr e)
    | SOk _ => modify (fun s => set_filters (prog :: filters_of s) s);; mret (SOk tt)
    end
  else mret (SErr EINVAL).

(** The library's open(2) makes the system call openat(2). *)
Definition sys_open (trap notify : M S (sysres Z)) (path : bytes) (flags mode : Z) : M S (sysres Z) :=
  filtered trap notify (x86_64 NR_openat [AT_FDCWD mod 2 ^ 64; addr path; flags; mode]) (k_openat path flags mode).
Definition sys_lseek (fd off : Z) : M S (sysres Z) :=
  filtered abort_ abort_ (x86_64 NR_lseek [fd; off mod 2 ^ 64; 0]) (k_lseek fd off).
Definition sys_getppid (trap : M S (sysres Z)) : M S (sysres Z) :=
  filtered trap abort_ (x86_64 NR_getppid []) k_getppid.
Definition sys_geteuid : M S (sysres Z) := filtered abort_ abort_ (x86_64 NR_geteuid []) k_geteuid.
Definition sys_mq_notify (mqd : Z) : M S (sysres unit) :=
  filtered abort_ abort_ (x86_64 NR_mq_notify [mqd; 0]) (k_mq_notify mqd).

(** ** seccomp_control_open.c *)

(** Source: book-src/seccomp/seccomp_control_open.c:47-121 (install_filter). *)
Definition control_open_install : M S unit :=
  echecked (seccomp_set_mode_filter filter_control_open) (str "seccomp").

(** One of the calls of main(): [if (open(...) == -1) perror(...)]. *)
Definition try_open (path : bytes) (flags mode : Z) (name : bytes) : M S unit :=
  r ← call (sys_open abort_ abort_ path flags mode);
  match r with None => perror strerror name | Some _ => mret tt end.

(** Source: book-src/seccomp/seccomp_control_open.c:123-141 (main). *)
Definition control_open_main : M S unit :=
  echecked k_no_new_privs (str "prctl");;
  control_open_install;;
  try_open (str "/tmp/a") O_RDONLY 0 (str "open1");;
  try_open (str "/tmp/a") O_WRONLY 0 (str "open2");;
  try_open (str "/tmp/a") O_RDWR 0 (str "open3");;
  try_open (str "/tmp/a") (Z.lor O_CREAT O_RDWR) 384 (str "open4");;
  c_exit EXIT_SUCCESS.

(** ** seccomp_deny_open.c *)

(** Source: book-src/seccomp/seccomp_deny_open.c:47-91 (install_filter). *)
Definition deny_open_install : M S unit :=
  echecked (seccomp_set_mode_filter filter_deny_open) (str "seccomp").

(** Source: book-src/seccomp/seccomp_deny_open.c:93-107 (main). *)
Definition deny_open_main : M S unit :=
  echecked k_no_new_privs (str "prctl");;
  deny_open_install;;
  echecked (sys_open abort_ abort_ (str "/tmp/a") O_RDONLY 0) (str "open");;
  printf (str "We shouldn't see this message" ++ [newline]);;
  c_exit EXIT_SUCCESS.

(** ** seccomp_arg64.c *)

(** Source: book-src/seccomp/seccomp_arg64.c:59-124 (install_filter). *)
Definition arg64_install : M S unit :=
  echecked (seccomp_set_mode_filter filter_arg64) (str "seccomp").

(** Source: book-src/seccomp/seccomp_arg64.c:126-137 (seek_test). *)
Definition seek_test (fd offset : Z) : M S unit :=
  printf (str "Seek to byte " ++ print_dec offset ++ str ": ");;
  ret ← call (sys_lseek fd offset);
  if bool_decide (ret = Some 0) then printf (str "succeeded" ++ [newline])
  else e ← get_errno; printf (str "failed with errno = " ++ print_dec e ++ [newline]).

(** Source: book-src/seccomp/seccomp_arg64.c:139-158 (main). *)
Definition arg64_main : M S unit :=
  echecked k_no_new_privs (str "prctl");;
  arg64_install;;
  fd ← echecked (sys_open abort_ abort_ (str "/dev/zero") O_RDWR 0) (str "open");
  seek_test fd 0;;
  seek_test fd 10000;;
  seek_test fd 0x100000001;;
  c_exit EXIT_SUCCESS.

(** ** seccomp_perf.c *)

(** Source: book-src/seccomp/seccomp_perf.c:58-98 (install_filter). *)
Definition perf_install : M S unit :=
  echecked (seccomp_set_mode_filter filter_perf) (str "seccomp").

(** [args] is argv. *)
(** Source: book-src/seccomp/seccomp_perf.c:100-126 (main). *)
Definition perf_main (argv : list bytes) : M S unit :=
  match argv with
  | argv0 :: argv1 :: more =>
      (if more is _ :: _ then
         printf (str "Applying BPF filter" ++ [newline]);;
         echecked k_no_new_privs (str "prctl");;
         perf_install
       else mret tt);;
      let nloops := atoi argv1 in
      for_each (seq 0 (Z.to_nat nloops)) (fun _ => sys_getppid abort_;; mret tt);;
      c_exit EXIT_SUCCESS
  | _ =>
      eprintf (str "Usage: " ++ default [] (head argv) ++ str " <num-loops> [x]" ++ [newline]);;
      eprintf (str "       (use 'x' to run with BPF filter applied)" ++ [newline]);;
      c_exit EXIT_FAILURE
  end.

(** ** seccomp_trap_sigsys.c *)

(** Source: book-src/seccomp/seccomp_trap_sigsys.c:40-82 (install_filter). *)
Definition trap_install : M S unit :=
  echecked (seccomp_set_mode_filter filter_trap) (str "seccomp").

(** Source: book-src/seccomp/seccomp_trap_sigsys.c:84-88 (sigHandler). *)
Definition sigHandler : M S unit := printf (str "SIGSYS!" ++ [newline]).

(** Source: book-src/seccomp/seccomp_trap_sigsys.c:90-119 (main). *)
Definition trap_main : M S unit :=
  echecked k_no_new_privs (str "prctl");;
  trap_install;;
  echecked k_sigaction_sigsys (str "sigaction");;
  printf (str "About to call getppid()" ++ [newline]);;
  sys_getppid (sigHandler;; mret (SOk NR_getppid));;
  printf (str "Bye" ++ [newline]);;
  c_exit EXIT_SUCCESS.

(** ** seccomp_logging.c *)

(** Source: book-src/seccomp/seccomp_logging.c:56-91 (install_filter). *)
Definition logging_install : M S unit :=
  echecked (seccomp_set_mode_filter filter_logging) (str "seccomp").

(** Source: book-src/seccomp/seccomp_logging.c:93-105 (main). *)
Definition logging_main : M S unit :=
  echecked k_no_new_privs (str "prctl");;
  logging_install;;
  sys_geteuid;;
  sys_getppid abort_;;
  c_exit EXIT_SUCCESS.

(** ** seccomp_multiarch.c *)

(** Source: book-src/seccomp/seccomp_multiarch.c:155-248 (install_filter). *)
Definition multiarch_install : M S unit :=
  echecked (seccomp_set_mode_filter filter_multiarch) (str "seccomp").

(** [setenv] is the library's, [argv] has at least the program's name. *)
(** Source: book-src/seccomp/seccomp_multiarch.c:250-310 (main). *)
Definition multiarch_main (setenv : bytes -> bytes -> M S unit) (argv : list bytes) : M S unit :=
  argv0 ← deref (head argv);
  v ← getenv (str "NO_SECCOMP_FILTER");
  (match v with
   | None =>
       echecked k_no_new_privs (str "prctl");;
       printf (str "Initial execution; installing seccomp filter" ++ [newline]);;
       multiarch_install
   | Some _ => mret tt
   end);;
  pid ← k_getpid;
  printf (str "	argv[0] = " ++ argv0 ++ str "; PID = " ++ print_dec pid ++ [newline]);;
  k_system (snprintf 1024 (str "echo -n '	'; grep Seccomp /proc/" ++ print_dec pid ++ str "/status"));;
  k_system (snprintf 1024 (str "echo -n '	'; file -L /proc/" ++ print_dec pid ++ str "/exe | sed 's/,.*//'"));;
  r ← call (sys_mq_notify 0);
  e ← get_errno;
  (if bool_decide (r = None) && negb (e =? EBADF) then
     printf (str "mq_notify() failed with errno = " ++ print_dec e ++ [newline])
   else
     printf (str "mq_notify() was not failed by seccomp() filter!" ++ [newline]);;
     printf (str "*** Make sure that the NO_SECCOMP_FILTER environment variable is not set" ++ [newline]);;
     printf (str "    when running this program." ++ [newline]);;
     printf (str "*** Otherwise, check the syscall numbers in kernel headers" ++ [newline]);;
     printf (str "    to see that they are correct" ++ [newline]);;
     c_exit EXIT_FAILURE);;
  (match argv with
   | _ :: argv1 :: more =>
       setenv (str "NO_SECCOMP_FILTER") (str "y");;
       printf [newline];;
       printf (str "About to exec: " ++ argv1 ++ [newline]);;
       e ← k_execv argv1 (argv1 :: more);
       set_errno e;; errExit (str "execvp")
   | _ => mret tt
   end);;
  c_exit EXIT_SUCCESS.
End programs.

(** * Filters in files *)

(** struct sock_filter in memory: a 16-bit code, two jump offsets, a 32-bit operand. *)
Definition sizeof_sock_filter : nat := 8.
Definition insn_bytes (i : sock_filter) : list Z :=
  le_bytes 2 (code i) ++ le_bytes 1 (Z.of_nat (jt i)) ++ le_bytes 1 (Z.of_nat (jf i)) ++ le_bytes 4 (k i).
Definition prog_bytes (prog : list sock_filter) : list Z := concat (insn_bytes <$> prog).
(** The instructions that the kernel finds in a buffer of [8 * n] bytes. *)
Definition insn_of_bytes (bs : list Z) : sock_filter :=
  Insn (le_val (take 2 bs)) (Z.to_nat (le_val (take 1 (drop 2 bs)))) (Z.to_nat (le_val (take 1 (drop 3 bs))))
       (le_val (take 4 (drop 4 bs))).
Fixpoint prog_of_bytes (n : nat) (bs : list Z) : list sock_filter :=
  match n with
  | O => []
  | Datatypes.S n => insn_of_bytes bs :: prog_of_bytes n (drop sizeof_sock_filter bs)
  end.

(** The calls of the two programs on files and processes. *)
Class FileOS (S : Type) := {
  f_open_rdonly : bytes -> M S (sysres Z);
  f_creat : bytes -> M S (sysres Z);              (* O_CREAT | O_TRUNC | O_WRONLY, owner may read and write *)
  f_size : Z -> M S (sysres Z);                   (* st_size of fstat(2) *)
  f_read : Z -> nat -> M S (sysres (list Z));
  f_write : Z -> list Z -> M S (sysres nat);
  f_close : Z -> M S (sysres unit);
  f_malloc : Z -> M S (sysres unit)
}.
Class PtraceOS (S : Type) := {
  p_attach : Z -> M S (sysres unit);
  p_waitpid : Z -> M S (sysres Z);
  (** PTRACE_SECCOMP_GET_FILTER: the number of instructions, and the program *)
  p_get_filter_len : Z -> Z -> M S (sysres nat);
  p_get_filter : Z -> Z -> M S (sysres (list sock_filter))
}.

Section files.
Context {S : Type} `{HasLibc S} `{HasFilters S} `{KernOS S} `{FileOS S} `{PtraceOS S}.
Context (strerror : Z -> bytes).
#[local] Abbreviation perror_exit := (perror_exit strerror).
#[local] Abbreviation pchecked := (pchecked strerror).

(** ** seccomp_launch.c *)

(** The result is the new value of the static variable. The length of the
    program is an unsigned short. *)
(** Source: book-src/seccomp/seccomp_launch.c:41-92 (loadFilter). *)
Definition loadFilter (noNewPrivsAlreadySet : bool) (filterPathname : bytes) : M S bool :=
  when (negb noNewPrivsAlreadySet) (pchecked k_no_new_privs (str "prctl"));;
  fd ← pchecked (f_open_rdonly filterPathname) (str "open");
  st_size ← pchecked (f_size fd) (str "fstat");
  let filterSize := i32 st_size in
  when (negb (wrap_u 64 filterSize mod Z.of_nat sizeof_sock_filter =? 0))
    (eprintf (str "Filter has odd size" ++ [newline]);; c_exit EXIT_FAILURE);;
  pchecked (f_malloc filterSize) (str "malloc");;
  r ← call (f_read fd (Z.to_nat (wrap_u 64 filterSize)));
  bs ← match r with
       | Some bs => if Z.of_nat (length bs) =? filterSize then mret bs
                    else eprintf (str "Failure reading filter" ++ [newline]);; c_exit EXIT_FAILURE
       | None => eprintf (str "Failure reading filter" ++ [newline]);; c_exit EXIT_FAILURE
       end;
  pchecked (f_close fd) (str "close");;
  let len := u16 (wrap_u 64 filterSize / Z.of_nat sizeof_sock_filter) in
  pchecked (seccomp_set_mode_filter (prog_of_bytes (Z.to_nat len) bs)) (str "seccomp");;
  mret true.

(** Source: book-src/seccomp/seccomp_launch.c:94-100 (usageError). *)
Definition launch_usageError {A} (pname msg : bytes) : M S A :=
  eprintf msg;;
  eprintf (str "Usage: " ++ pname ++ str " [-f filter] prog arg..." ++ [newline]);;
  c_exit EXIT_FAILURE.

(** [opts] are the results of getopt(3), [args] the arguments left. *)
(** Source: book-src/seccomp/seccomp_launch.c:109-119 (main, options). *)
Fixpoint launch_options (argv0 : bytes) (set : bool) (opts : list (ascii * bytes)) : M S unit :=
  match opts with
  | [] => mret tt
  | (c, optarg) :: opts' =>
      if ceq c "f" then set' ← loadFilter set optarg; launch_options argv0 set' opts'
      else launch_usageError argv0 (str "Bad option" ++ [newline])
  end.
(** [argv1] is argv[1], null when there is none. *)
(** Source: book-src/seccomp/seccomp_launch.c:102-128 (main). *)
Definition launch_main (argv0 : bytes) (argv1 : option bytes) (opts : list (ascii * bytes)) (args : list bytes)
    : M S unit :=
  launch_options argv0 false opts;;
  match args with
  | [] => launch_usageError argv0 (str "No program specified" ++ [newline])
  | prog :: _ =>
      a1 ← deref argv1;
      if streq a1 (str "--help") then launch_usageError argv0 (str "No program specified" ++ [newline])
      else e ← k_execv prog args; set_errno e;; perror_exit (str "execve")
  end.

(** ** dump_seccomp_filter.c *)

(** Source: book-src/seccomp/dump_seccomp_filter.c:50-95 (fetchFilter). *)
Definition fetchFilter (pid filterIndex : Z) : M S (list sock_filter) :=
  pchecked (p_attach pid) (str "ptrace - PTRACE_ATTACH");;
  pchecked (p_waitpid pid) (str "waitpid");;
  icnt ← call (p_get_filter_len pid filterIndex);
  icnt ← match icnt with
         | Some n => mret n
         | None =>
             e ← get_errno;
             if e =? ENOENT then
               eprintf (str "No BPF program exists at index " ++ print_dec filterIndex ++ [newline]);;
               c_exit EXIT_FAILURE
             else if e =? EACCES then
               eprintf (str "You lack the CAP_SYS_ADMIN capability; run this program as root" ++ [newline]);;
               c_exit EXIT_FAILURE
             else perror_exit (str "ptrace - PTRACE_SECCOMP_GET_FILTER-1")
         end;
  pchecked (f_malloc (Z.of_nat (icnt * sizeof_sock_filter))) (str "calloc");;
  filterProg ← pchecked (p_get_filter pid filterIndex) (str "ptrace - PTRACE_SECCOMP_GET_FILTER-2");
  (* the kernel writes as many instructions as the filter has *)
  if (icnt <? length filterProg)%nat then undefined else mret filterProg.

(** Source: book-src/seccomp/dump_seccomp_filter.c:99-115 (dumpFilter). *)
Definition dumpFilter (pathname : bytes) (filterProg : list sock_filter) : M S unit :=
  fd ← pchecked (f_creat pathname) (str "open");
  pchecked (f_write fd (prog_bytes filterProg)) (str "write");;
  pchecked (f_close fd) (str "close");;
  eprintf (str "Dumped " ++ print_dec (Z.of_nat (length filterProg)) ++ str " BPF instructions" ++ [newline]).

(** A missing argument is a null pointer. *)
(** Source: book-src/seccomp/dump_seccomp_filter.c:117-140 (main). *)
Definition dump_main (argv : list bytes) : M S unit :=
  argv0 ← deref (head argv);
  if (length argv <? 2)%nat || bool_decide (argv !! 1%nat = Some (str "--help")) then
    eprintf (argv0 ++ str " PID dump-file [filter-index]" ++ [newline]);;
    c_exit EXIT_FAILURE
  else
    argv1 ← deref (argv !! 1%nat);
    let pid := atoi argv1 in
    let filterIndex := match argv !! 3%nat with Some a => atoi a | None => 0 end in
    filterProg ← fetchFilter pid filterIndex;
    argv2 ← deref (argv !! 2%nat);
    dumpFilter argv2 filterProg;;
    c_exit EXIT_SUCCESS.
End files.

(** * The programs with one filter *)

(** What the programs rely on: a call reaches the kernel's code only where this
    log says so, and nothing else changes the filters. *)
Record kern_view := KernView {
  kv_filters : list (list sock_filter);
  kv_opened : list (bytes * Z);       (* openat(2): path and flags *)
  kv_sought : list (Z * Z)            (* lseek(2): descriptor and offset *)
}.
Class KernSpec (S : Type) `{HasLibc S} `{HasFilters S} `{KernOS S} := {
  kview : S -> kern_view;
  kview_filters : forall s, kv_filters (kview s) = filters_of s;
  kview_set : forall fs s, kview (set_filters fs s) = KernView fs (kv_opened (kview s)) (kv_sought (kview s));
  libc_set_filters : forall fs s, libc_of (set_filters fs s) = libc_of s;
  kview_libc : forall l s, kview (set_libc l s) = kview s;
  no_new_privs_spec : forall s, post (fun _ s' => kview s' = kview s /\ libc_of s' = libc_of s)
    (fun _ _ => False) (k_no_new_privs s);
  seccomp_ok_spec : forall s, post (fun _ s' => kview s' = kview s /\ libc_of s' = libc_of s)
    (fun _ _ => False) (k_seccomp_ok s);
  openat_spec : forall path flags mode s, post (fun _ s' => libc_of s' = libc_of s /\
      kview s' = KernView (kv_filters (kview s)) (kv_opened (kview s) ++ [(path, flags)]) (kv_sought (kview s)))
    (fun _ _ => False) (k_openat path flags mode s);
  lseek_spec : forall fd off s, post (fun _ s' => libc_of s' = libc_of s /\
      kview s' = KernView (kv_filters (kview s)) (kv_opened (kview s)) (kv_sought (kview s) ++ [(fd, off)]))
    (fun _ _ => False) (k_lseek fd off s)
}.

Section filtering.
Context {S : Type} `{HasFilters S}.

Lemma filtered_allow {A} (trap notify m : M S (sysres A)) d s :
  decision (filters_of s) d = Some SECCOMP_RET_ALLOW -> filtered trap notify d m s = m s.
Proof. intros Hd. unfold filtered. munfold. by rewrite Hd. Qed.

Lemma filtered_errno {A} (trap notify m : M S (sysres A)) d s e : 0 <= e < 65536 ->
  decision (filters_of s) d = Some (Z.lor SECCOMP_RET_ERRNO e) -> filtered trap notify d m s = (Done (SErr e), s).
Proof.
  intros He Hd. unfold filtered. munfold. rewrite Hd. unfold action.
  assert (Hlow : Z.land e SECCOMP_RET_ACTION_FULL = 0).
  { apply Z.bits_inj'. intros n Hn. rewrite Z.land_spec, Z.bits_0.
    destruct (Z.ltb_spec n 16).
    - change SECCOMP_RET_ACTION_FULL with (Z.shiftl 65535 16).
      rewrite (Z.shiftl_spec_low 65535 16 n) by done. apply andb_false_r.
    - rewrite Z.bits_above_log2; [done|lia|]. destruct (decide (e = 0)) as [->|]; [simpl; lia|].
      apply Z.log2_lt_pow2; [lia|]. eapply Z.lt_le_trans; [apply He|]. change 65536 with (2 ^ 16).
      apply Z.pow_le_mono_r; lia. }
  assert (Ha : Z.land (Z.lor SECCOMP_RET_ERRNO e) SECCOMP_RET_ACTION_FULL = SECCOMP_RET_ERRNO).
  { by rewrite Z.land_lor_distr_l, Hlow, Z.lor_0_r. }
  rewrite Ha. simpl. do 3 f_equal. rewrite Z.land_lor_distr_l.
  change (Z.land SECCOMP_RET_ERRNO SECCOMP_RET_DATA) with 0. rewrite Z.lor_0_l.
  change SECCOMP_RET_DATA with (Z.ones 16). rewrite Z.land_ones by lia. apply Z.mod_small. lia.
Qed.

Lemma filtered_kill {A} (trap notify m : M S (sysres A)) d s :
  decision (filters_of s) d = Some SECCOMP_RET_KILL_PROCESS -> filtered trap notify d m s = (Aborted, s).
Proof. intros Hd. unfold filtered. munfold. by rewrite Hd. Qed.
End filtering.

Section demos.
Context {S : Type} `{HL : HasLibc S} `{HF : HasFilters S} `{HK : KernOS S} `{HS : !KernSpec S}.
Context (strerror : Z -> bytes) (addr : bytes -> Z).

Definition opened (s : S) : list (bytes * Z) := kv_opened (kview s).
Lemma opened_libc l s : opened (set_libc l s) = opened s.
Proof. unfold opened. by rewrite kview_libc. Qed.
Lemma filters_libc l (s : S) : filters_of (set_libc l s) = filters_of s.
Proof. by rewrite <- !kview_filters, kview_libc. Qed.

(** Installing a filter that the kernel accepts: it is in force, or the program ends. *)
Lemma install_spec prog (s : S) : filter_ok prog = true ->
  post (fun _ s' => filters_of s' = prog :: filters_of s /\ opened s' = opened s /\
          kv_sought (kview s') = kv_sought (kview s) /\ libc_of s' = libc_of s)
    (stops kview s) (echecked strerror (seccomp_set_mode_filter prog) (str "seccomp") s).
Proof.
  intros Hok.
  set (R := fun (r : sysres unit) s' => match r with
    | SOk _ => filters_of s' = prog :: filters_of s /\ opened s' = opened s /\
        kv_sought (kview s') = kv_sought (kview s) /\ libc_of s' = libc_of s
    | SErr _ => kview s' = kview s end).
  apply (echecked_spec strerror kview kview_libc _ _ _ R); [|by intros [u|e]].
  unfold seccomp_set_mode_filter. rewrite Hok. apply post_bind.
  eapply post_mono; [| |exact (seccomp_ok_spec s)]; [|done]. intros [u|e] s1 [Hv Hl]; [|exact Hv].
  apply post_bind. simpl. unfold opened. rewrite filters_of_set, kview_set, libc_set_filters, Hl. simpl.
  by rewrite <- (kview_filters s1), Hv, kview_filters.
Qed.

Lemma no_new_privs_run (s : S) :
  post (fun _ s' => kview s' = kview s /\ libc_of s' = libc_of s) (stops kview s)
    (echecked strerror k_no_new_privs (str "prctl") s).
Proof.
  apply (echecked_spec strerror kview kview_libc _ _ _ (fun _ s' => kview s' = kview s /\ libc_of s' = libc_of s));
    [apply no_new_privs_spec|]. by intros [u|e] s' [??].
Qed.

(** What both do at the start of every program. *)
Lemma confine_spec {B} prog (k : M S B) (s : S) (E : ending -> S -> Prop) : filter_ok prog = true ->
  (forall e s', stops kview s e s' -> E e s') ->
  (forall s', filters_of s' = prog :: filters_of s -> opened s' = opened s ->
     kv_sought (kview s') = kv_sought (kview s) -> libc_of s' = libc_of s -> post (fun _ _ => False) E (k s')) ->
  post (fun _ _ => False) E ((echecked strerror k_no_new_privs (str "prctl");;
    echecked strerror (seccomp_set_mode_filter prog) (str "seccomp");; k) s).
Proof.
  intros Hok HE Hk. eapply (stops_then kview); [exact HE|done|apply no_new_privs_run|]. intros _ s1 [Hv1 Hl1].
  eapply (stops_then kview); [exact HE|done|by apply install_spec|]. intros _ s2 (Hf & Ho & Hs & Hl).
  apply Hk; [by rewrite Hf, <- !kview_filters, Hv1|unfold opened in *; congruence|congruence|congruence].
Qed.

Definition openat_data (path : bytes) (flags mode : Z) : seccomp_data :=
  x86_64 NR_openat [AT_FDCWD mod 2 ^ 64; addr path; flags; mode].

Lemma control_open_decision path flags mode : 
  decision [filter_control_open] (openat_data path flags mode) = 
  Some (if has_bits (low flags) O_CREAT then SECCOMP_RET_KILL_PROCESS
        else if has_bits (low flags) O_WRONLY || has_bits (low flags) O_RDWR then Z.lor SECCOMP_RET_ERRNO ENOTSUP
        else SECCOMP_RET_ALLOW).
Proof.
  unfold decision. cbn [verdict]. rewrite filter_control_open_run.
  change (x86_64_only (openat_data path flags mode) (policy_control_open (openat_data path flags mode)))
    with (if has_bits (low flags) O_CREAT then SECCOMP_RET_KILL_PROCESS
        else if has_bits (low flags) O_WRONLY || has_bits (low flags) O_RDWR then Z.lor SECCOMP_RET_ERRNO ENOTSUP
        else SECCOMP_RET_ALLOW).
  by destruct (has_bits (low flags) O_CREAT); [|destruct (_ || _)].
Qed.

(** A call that the filter makes fail. *)
Lemma try_open_refused path flags mode name (s : S) e : 0 <= e < 65536 ->
  decision (filters_of s) (openat_data path flags mode) = Some (Z.lor SECCOMP_RET_ERRNO e) ->
  exists s', try_open strerror addr path flags mode name s = (Done tt, s') /\ kview s' = kview s /\
    lc_out (libc_of s') = lc_out (libc_of s) ++ [(Stderr, name ++ str ": " ++ strerror e ++ [newline])].
Proof.
  intros He Hd. unfold try_open, sys_open.
  rewrite (bind_done _ _ _ _ _ (call_err _ _ _ _ (filtered_errno _ _ _ _ s e He Hd))).
  rewrite perror_run. unfold set_errno. simpl. eexists. split; [reflexivity|].
  rewrite !kview_libc, !libc_of_set. done.
Qed.

(** A call that the filter lets through. *)
Lemma try_open_allowed path flags mode name (s : S) :
  decision (filters_of s) (openat_data path flags mode) = Some SECCOMP_RET_ALLOW ->
  post (fun _ s' => filters_of s' = filters_of s /\ opened s' = opened s ++ [(path, flags)])
    (fun _ _ => False) (try_open strerror addr path flags mode name s).
Proof.
  intros Hd. unfold try_open, sys_open. apply post_bind.
  assert (Hm : post (fun _ s' => libc_of s' = libc_of s /\ kview s' = KernView (kv_filters (kview s))
      (kv_opened (kview s) ++ [(path, flags)]) (kv_sought (kview s))) (fun _ _ => False)
      (filtered abort_ abort_ (openat_data path flags mode) (k_openat path flags mode) s)).
  { rewrite filtered_allow by done. apply openat_spec. }
  eapply post_mono; [| |exact (call_post kview kview_libc _ _ _ _ Hm)]; [|done].
  intros r s1 (s2 & Hv & Hr).
  assert (Hv1 : kview s1 = KernView (kv_filters (kview s)) (kv_opened (kview s) ++ [(path, flags)]) (kv_sought (kview s))).
  { destruct r; [destruct Hr as [[_ Hr] ->]|destruct Hr as (e & [_ Hr] & _)]; congruence. }
  assert (Hgoal : filters_of s1 = filters_of s /\ opened s1 = opened s ++ [(path, flags)]).
  { unfold opened. by rewrite <- !kview_filters, Hv1. }
  destruct r as [fd|]; [exact Hgoal|]. rewrite perror_run. simpl.
  unfold opened. rewrite filters_libc, kview_libc. exact Hgoal.
Qed.

(** seccomp_control_open confines itself: unless it cannot install its filter, it is
    killed at its fourth open(), which asks for O_CREAT; the second and third fail with
    ENOTSUP, shown on standard error, and of all its calls only the first, for reading,
    reaches the file system. *)
Theorem control_open_correct (s : S) : filters_of s = [] ->
  post (fun _ _ => False) (fun e s' =>
    (e = EAbort /\ opened s' = opened s ++ [(str "/tmp/a", O_RDONLY)] /\
     exists before, lc_out (libc_of s') = before ++
       [(Stderr, str "open2: " ++ strerror ENOTSUP ++ [newline]);
        (Stderr, str "open3: " ++ strerror ENOTSUP ++ [newline])]) \/
    stops opened s e s') (control_open_main strerror addr s).
Proof.
  intros Hnone. set (E := fun e s' => _ \/ stops opened s e s').
  apply (confine_spec filter_control_open); [reflexivity| |].
  { intros e s' [He Hv]. right. split; [done|]. unfold opened. by rewrite Hv. }
  intros s1 Hf1 Ho1 _ _. rewrite Hnone in Hf1.
  eapply post_bind, post_mono; [| |apply try_open_allowed; by rewrite Hf1, control_open_decision]; [|done].
  intros _ s2 [Hf2 Ho2]. rewrite Hf1 in Hf2.
  destruct (try_open_refused (str "/tmp/a") O_WRONLY 0 (str "open2") s2 ENOTSUP) as (s3 & Hr3 & Hv3 & Hl3);
    [done|by rewrite Hf2, control_open_decision|]. rewrite (bind_done _ _ _ _ _ Hr3).
  assert (Hf3 : filters_of s3 = [filter_control_open]) by (by rewrite <- kview_filters, Hv3, kview_filters).
  destruct (try_open_refused (str "/tmp/a") O_RDWR 0 (str "open3") s3 ENOTSUP) as (s4 & Hr4 & Hv4 & Hl4);
    [done|by rewrite Hf3, control_open_decision|]. rewrite (bind_done _ _ _ _ _ Hr4).
  assert (Hf4 : filters_of s4 = [filter_control_open]) by (by rewrite <- kview_filters, Hv4, kview_filters).
  assert (Hk : try_open strerror addr (str "/tmp/a") (Z.lor O_CREAT O_RDWR) 384 (str "open4") s4 = (Aborted, s4)).
  { unfold try_open, call, mbind, M_bind, sys_open. rewrite filtered_kill; [done|].
    rewrite Hf4. exact (control_open_decision (str "/tmp/a") (Z.lor O_CREAT O_RDWR) 384). }
  unfold mbind, M_bind at 1. rewrite Hk. left. split; [done|]. split.
  - unfold opened in *. congruence.
  - exists (lc_out (libc_of s2)). by rewrite Hl4, Hl3, <- app_assoc.
Qed.

Definition sought (s : S) : list (Z * Z) := kv_sought (kview s).

Lemma arg64_lseek_decision fd off : - 2 ^ 63 <= off < 2 ^ 63 ->
  decision [filter_arg64] (x86_64 NR_lseek [fd; off mod 2 ^ 64; 0]) =
  Some (if (0 <=? off) && (off <=? 1000) then SECCOMP_RET_ALLOW
        else if (0 <=? off) && (off <? 2 ^ 32) then Z.lor SECCOMP_RET_ERRNO 1
        else Z.lor SECCOMP_RET_ERRNO 2).
Proof.
  intros Hoff. unfold decision. cbn [verdict]. rewrite (arg64_offset_run _ off) by done.
  by repeat case_match.
Qed.

Lemma arg64_openat_decision path flags mode :
  decision [filter_arg64] (openat_data path flags mode) = Some SECCOMP_RET_ALLOW.
Proof. unfold decision. cbn [verdict]. by rewrite filter_arg64_run. Qed.

Lemma seek_refused fd off (s : S) e : 0 <= e < 65536 ->
  decision (filters_of s) (x86_64 NR_lseek [fd; off mod 2 ^ 64; 0]) = Some (Z.lor SECCOMP_RET_ERRNO e) ->
  exists s', seek_test fd off s = (Done tt, s') /\ kview s' = kview s /\
    lc_pending (libc_of s') = lc_pending (libc_of s) ++ str "Seek to byte " ++ print_dec off ++ str ": " ++
      str "failed with errno = " ++ print_dec e ++ [newline] /\ lc_out (libc_of s') = lc_out (libc_of s).
Proof.
  intros He Hd. unfold seek_test, sys_lseek.
  set (msg := str "Seek to byte " ++ print_dec off ++ str ": ").
  set (s1 := set_libc (Libc (lc_errno (libc_of s)) (lc_environ (libc_of s)) (lc_pending (libc_of s) ++ msg)
               (lc_out (libc_of s))) s).
  assert (Hp : printf msg s = (Done tt, s1)) by done. rewrite (bind_done _ _ _ _ _ Hp).
  assert (Hd1 : decision (filters_of s1) (x86_64 NR_lseek [fd; off mod 2 ^ 64; 0]) = Some (Z.lor SECCOMP_RET_ERRNO e)).
  { subst s1. by rewrite filters_libc. }
  rewrite (bind_done _ _ _ _ _ (call_err _ _ _ _ (filtered_errno _ _ _ _ s1 e He Hd1))).
  rewrite bool_decide_eq_false_2 by done. unfold get_errno, printf, set_errno. munfold. simpl.
  eexists. split; [reflexivity|]. rewrite !kview_libc, !libc_of_set. subst s1. rewrite kview_libc, libc_of_set.
  simpl. split; [done|]. split; [|done]. unfold msg. by rewrite <- !app_assoc.
Qed.

Lemma seek_allowed fd off (s : S) :
  decision (filters_of s) (x86_64 NR_lseek [fd; off mod 2 ^ 64; 0]) = Some SECCOMP_RET_ALLOW ->
  post (fun _ s' => filters_of s' = filters_of s /\ sought s' = sought s ++ [(fd, off)] /\
          lc_out (libc_of s') = lc_out (libc_of s)) (fun _ _ => False) (seek_test fd off s).
Proof.
  intros Hd. unfold seek_test. apply post_bind. unfold printf, modify. cbn [post].
  set (s1 := set_libc _ s). apply post_bind. unfold sys_lseek.
  assert (Hm : post (fun _ s' => libc_of s' = libc_of s1 /\ kview s' = KernView (kv_filters (kview s1))
      (kv_opened (kview s1)) (kv_sought (kview s1) ++ [(fd, off)])) (fun _ _ => False)
      (filtered abort_ abort_ (x86_64 NR_lseek [fd; off mod 2 ^ 64; 0]) (k_lseek fd off) s1)).
  { rewrite filtered_allow; [apply lseek_spec|]. subst s1. by rewrite filters_libc. }
  assert (Hk1 : kview s1 = kview s) by (subst s1; apply kview_libc).
  assert (Ho1 : lc_out (libc_of s1) = lc_out (libc_of s)) by (subst s1; by rewrite libc_of_set).
  set (view := fun s => (kview s, lc_out (libc_of s))).
  assert (Hc : post (fun _ s' => kview s' = KernView (kv_filters (kview s)) (kv_opened (kview s))
     (kv_sought (kview s) ++ [(fd, off)]) /\ lc_out (libc_of s') = lc_out (libc_of s)) (fun _ _ => False)
     (call (filtered abort_ abort_ (x86_64 NR_lseek [fd; off mod 2 ^ 64; 0]) (k_lseek fd off)) s1)).
  { unfold call. apply post_bind. eapply post_mono; [| |exact Hm]; [|done]. intros [v|e] s2 [Hl Hv]; simpl.
    - rewrite Hv, Hl, Hk1, Ho1. done.
    - rewrite kview_libc, libc_of_set. simpl. rewrite Hv, Hl, Hk1, Ho1. done. }
  eapply post_mono; [| |exact Hc]; [|done]. intros r s2 [Hv Ho]. unfold sought.
  destruct (bool_decide _); unfold get_errno; munfold; simpl;
    rewrite filters_libc, kview_libc, libc_of_set; simpl; by rewrite <- !kview_filters, Hv, Ho.
Qed.

(** seccomp_arg64 shows its filter on 64-bit arguments: unless a step before fails,
    it exits with success, the seeks to 10000 and to 2^32 + 1 are reported to fail with
    errors 1 and 2, and only the seek to 0 reaches the kernel's lseek(). *)
Theorem arg64_correct (s : S) : filters_of s = [] ->
  post (fun _ _ => False) (fun e s' =>
    (e = EExit EXIT_SUCCESS /\ exists fd, sought s' = sought s ++ [(fd, 0)] /\
     exists before, lc_out (libc_of s') = lc_out (libc_of s) ++ [(Stdout, before ++
       str "Seek to byte 10000: failed with errno = 1" ++ [newline] ++
       str "Seek to byte 4294967297: failed with errno = 2" ++ [newline])]) \/
    stops sought s e s') (arg64_main strerror addr s).
Proof.
  intros Hnone. set (E := fun e s' => _ \/ stops sought s e s').
  assert (Hstop : forall s1 e s', sought s1 = sought s -> stops kview s1 e s' -> E e s').
  { intros s1 e s' Hs [He Hv]. right. split; [done|]. unfold sought in *. by rewrite Hv. }
  apply (confine_spec filter_arg64); [reflexivity|intros e s'; by apply Hstop|].
  intros s1 Hf1 _ Hs1 Hl1. rewrite Hnone in Hf1.
  eapply (stops_then sought _ _ _ (fun _ s' => filters_of s' = filters_of s1 /\ sought s' = sought s1 /\
    lc_out (libc_of s') = lc_out (libc_of s1)) E s1 s1).
  { intros e s' [He Hv]. right. split; [done|]. unfold sought in *. congruence. }
  { done. }
  { eapply (echecked_spec strerror sought).
    - intros l s2. unfold sought. by rewrite kview_libc.
    - unfold sys_open. fold (openat_data (str "/dev/zero") O_RDWR 0).
      rewrite filtered_allow by (by rewrite Hf1, arg64_openat_decision). apply openat_spec.
    - intros [fd|e] s2 [Hl Hv]; unfold sought; rewrite Hv, ?Hl; [|done].
      by rewrite <- !kview_filters, Hv. }
  intros fd s2 (Hf2 & Hs2 & Ho2). rewrite Hf1 in Hf2.
  apply post_bind. eapply post_mono; [| |apply seek_allowed; by rewrite Hf2, (arg64_lseek_decision fd 0)]; [|done].
  intros _ s3 (Hf3 & Hs3 & Ho3). rewrite Hf2 in Hf3.
  destruct (seek_refused fd 10000 s3 1) as (s4 & Hr4 & Hv4 & Hp4 & Ho4);
    [done|by rewrite Hf3, (arg64_lseek_decision fd 10000)|]. rewrite (bind_done _ _ _ _ _ Hr4).
  assert (Hf4 : filters_of s4 = [filter_arg64]) by (by rewrite <- kview_filters, Hv4, kview_filters).
  destruct (seek_refused fd 0x100000001 s4 2) as (s5 & Hr5 & Hv5 & Hp5 & Ho5);
    [done|by rewrite Hf4, (arg64_lseek_decision fd 0x100000001)|]. rewrite (bind_done _ _ _ _ _ Hr5).
  unfold c_exit, fflush_stdout, exit_, modify, mbind, M_bind. cbn [post]. left. split; [done|].
  exists fd. unfold sought in *. rewrite kview_libc. split; [congruence|].
  rewrite libc_of_set. cbn [lc_out]. exists (lc_pending (libc_of s3)).
  rewrite Hp5, Hp4, Ho5, Ho4, Ho3, Ho2, Hl1. rewrite <- !app_assoc.
  change (print_dec 10000) with (str "10000"). change (print_dec 4294967297) with (str "4294967297").
  change (print_dec 1) with (str "1"). change (print_dec 2) with (str "2").
  destruct (lc_pending (libc_of s3)); done.
Qed.
End demos.

(** * Two filters at once *)

(** With the filters of seccomp_user_notification.c, mkdir() is notified under the
    first filter alone and when the second returns SECCOMP_RET_TRACE, but not when the
    second returns SECCOMP_RET_ERRNO, which wins and makes the call fail with ENOTSUP;
    every other call of an x86-64 program is allowed, and any call of another
    architecture kills the process. *)
Theorem notify_precedence d :
  decision [filter_notify] d = Some (x86_64_only d (policy_mkdir SECCOMP_RET_USER_NOTIF d)) /\
  decision [filter2 SECCOMP_RET_TRACE; filter_notify] d =
    Some (x86_64_only d (policy_mkdir SECCOMP_RET_USER_NOTIF d)) /\
  decision [filter2 SECCOMP_RET_ERRNO; filter_notify] d =
    Some (x86_64_only d (policy_mkdir (Z.lor SECCOMP_RET_ERRNO ENOTSUP) d)).
Proof.
  unfold decision. cbn [verdict]. rewrite filter_notify_run, !filter2_run. unfold x86_64_only, policy_mkdir.
  destruct (u32 (arch d) =? AUDIT_ARCH_X86_64); [|by split_and!].
  destruct (u32 (nr d) >=? X32_SYSCALL_BIT); [by split_and!|].
  destruct (called NR_mkdir d); by split_and!.
Qed.

(** * Dumping and loading *)

Definition insn_wf (i : sock_filter) : Prop :=
  0 <= code i < 2 ^ 16 /\ (jt i < 256)%nat /\ (jf i < 256)%nat /\ 0 <= k i < 2 ^ 32.

#[export] Instance insn_wf_dec i : Decision (insn_wf i).
Proof. unfold insn_wf. apply _. Defined.

Lemma insn_roundtrip i rest : insn_wf i -> insn_of_bytes (insn_bytes i ++ rest) = i.
Proof.
  intros (Hc & Ht & Hf & Hk). unfold insn_of_bytes, insn_bytes.
  set (c := le_bytes 2 (code i)). set (t := le_bytes 1 (Z.of_nat (jt i))).
  set (f := le_bytes 1 (Z.of_nat (jf i))). set (v := le_bytes 4 (k i)).
  assert (H1 : take 2 ((c ++ t ++ f ++ v) ++ rest) = c) by done.
  assert (H2 : take 1 (drop 2 ((c ++ t ++ f ++ v) ++ rest)) = t) by done.
  assert (H3 : take 1 (drop 3 ((c ++ t ++ f ++ v) ++ rest)) = f) by done.
  assert (H4 : take 4 (drop 4 ((c ++ t ++ f ++ v) ++ rest)) = v) by done.
  rewrite H1, H2, H3, H4. subst c t f v. rewrite !le_val_bytes.
  rewrite !Z.mod_small by lia. rewrite !Nat2Z.id. by destruct i.
Qed.

Lemma prog_roundtrip prog : Forall insn_wf prog -> prog_of_bytes (length prog) (prog_bytes prog) = prog.
Proof.
  induction 1 as [|i prog Hi _ IH]; [done|]. unfold prog_bytes. cbn [fmap list_fmap concat length prog_of_bytes].
  rewrite insn_roundtrip by done. f_equal. change (drop sizeof_sock_filter (insn_bytes i ++ concat (insn_bytes <$> prog)))
    with (prog_bytes prog). exact IH.
Qed.

Lemma length_prog_bytes prog : length (prog_bytes prog) = (8 * length prog)%nat.
Proof.
  unfold prog_bytes. induction prog as [|i prog IH]; [done|]. cbn [fmap list_fmap concat].
  rewrite length_app, IH. simpl. lia.
Qed.

(** Files by their path, and the files that descriptors are open on, at their start. *)
Class FileSpec (S : Type) `{HasLibc S} `{HasFilters S} `{KernOS S} `{FileOS S} := {
  fview : S -> gmap bytes (list Z) * gmap Z bytes * list (list sock_filter);
  fview_filters : forall s, snd (fview s) = filters_of s;
  fview_libc : forall l s, fview (set_libc l s) = fview s;
  f_open_spec : forall path s, post (fun r s' => match r with
    | SOk fd => fview s' = ((fview s).1.1, <[fd := path]> (fview s).1.2, (fview s).2)
    | SErr _ => fview s' = fview s end) (fun _ _ => False) (f_open_rdonly path s);
  f_creat_spec : forall path s, post (fun r s' => match r with
    | SOk fd => fview s' = (<[path := []]> (fview s).1.1, <[fd := path]> (fview s).1.2, (fview s).2)
    | SErr _ => fview s' = fview s end) (fun _ _ => False) (f_creat path s);
  f_size_spec : forall fd path bs s, (fview s).1.2 !! fd = Some path -> (fview s).1.1 !! path = Some bs ->
    post (fun r s' => fview s' = fview s /\ match r with SOk n => n = Z.of_nat (length bs) | SErr _ => True end)
      (fun _ _ => False) (f_size fd s);
  f_read_spec : forall fd n path bs s, (fview s).1.2 !! fd = Some path -> (fview s).1.1 !! path = Some bs ->
    post (fun r s' => fview s' = fview s /\ match r with SOk bs' => bs' `prefix_of` bs | SErr _ => True end)
      (fun _ _ => False) (f_read fd n s);
  f_write_spec : forall fd bs path s, (fview s).1.2 !! fd = Some path -> (fview s).1.1 !! path = Some [] ->
    post (fun r s' => match r with
      | SOk n => fview s' = (<[path := take n bs]> (fview s).1.1, (fview s).1.2, (fview s).2)
      | SErr _ => fview s' = fview s end) (fun _ _ => False) (f_write fd bs s);
  f_close_spec : forall fd s, post (fun _ s' => (fview s').1.1 = (fview s).1.1 /\ (fview s').2 = (fview s).2)
    (fun _ _ => False) (f_close fd s);
  f_malloc_spec : forall n s, post (fun _ s' => fview s' = fview s) (fun _ _ => False) (f_malloc n s);
  f_no_new_privs : forall s, post (fun _ s' => (fview s').1 = (fview s).1) (fun _ _ => False) (k_no_new_privs s)
}.

Section dump_load.
Context {S : Type} `{HL : HasLibc S} `{HF : HasFilters S} `{HK : KernOS S} `{HO : FileOS S}
  `{HSK : !KernSpec S} `{HSF : !FileSpec S}.
Context (strerror : Z -> bytes).

Definition file (s : S) (path : bytes) : option (list Z) := (fview s).1.1 !! path.

Lemma filters_of_libc l (s : S) : filters_of (set_libc l s) = filters_of s.
Proof. by rewrite <- !fview_filters, fview_libc. Qed.

(** A checked call, for the filters: it goes on, or the program ends with the
    filters it had. *)
Lemma load_call {A B} (m : M S (sysres A)) msg (k : A -> M S B) R Q (s s0 : S) :
  filters_of s = filters_of s0 ->
  post (fun r s' => filters_of s' = filters_of s /\ match r with SOk a => R a s' | SErr _ => True end)
    (fun _ _ => False) (m s) ->
  (forall a s', filters_of s' = filters_of s0 -> R a s' -> post Q (stops filters_of s0) (k a s')) ->
  post Q (stops filters_of s0) ((a ← pchecked strerror m msg; k a) s).
Proof.
  intros Hf Hm Hk. eapply (stops_then filters_of _ _ _ (fun a s' => filters_of s' = filters_of s /\ R a s'));
    [done|exact Hf| |].
  - apply (pchecked_spec strerror filters_of filters_of_libc _ _ _ _ _ Hm). intros [a|e] s' [H1 H2]; [done|exact H1].
  - intros a s' [H1 H2]. apply Hk; [congruence|done].
Qed.

Lemma loadFilter_spec set path prog (s : S) : file s path = Some (prog_bytes prog) ->
  Forall insn_wf prog -> Z.of_nat (length prog) < 65536 ->
  post (fun b s' => b = true /\ filters_of s' = prog :: filters_of s) (stops filters_of s)
    (loadFilter strerror set path s).
Proof.
  intros Hfile Hwf Hlen. unfold loadFilter.
  assert (Hlen8 : Z.of_nat (length (prog_bytes prog)) = 8 * Z.of_nat (length prog)) by (rewrite length_prog_bytes; lia).
  eapply (stops_then filters_of _ _ _ (fun _ s' => filters_of s' = filters_of s /\ file s' path = Some (prog_bytes prog)));
    [done|done| |].
  { destruct set; simpl; [done|]. apply (pchecked_spec strerror filters_of filters_of_libc _ _ _
      (fun _ s' => filters_of s' = filters_of s /\ (fview s').1 = (fview s).1)).
    - pose proof (no_new_privs_spec s) as H1. pose proof (f_no_new_privs s) as H2.
      destruct (k_no_new_privs s) as [[] s1]; try done. destruct H1 as [H1 _].
      split; [by rewrite <- !kview_filters, H1|exact H2].
    - intros [u|e] s' [H1 H2]; [|done]. unfold file. by rewrite H2. }
  intros _ s1 [Hf1 Hc1].
  apply (load_call _ _ _ (fun fd s' => (fview s').1.2 !! fd = Some path /\ file s' path = Some (prog_bytes prog))); [done| |].
  { eapply post_mono; [| |apply f_open_spec]; [|done]. intros [fd|e] s2 Hv; rewrite <- !fview_filters, Hv; [|done].
    split; [done|]. unfold file. rewrite Hv. simpl. split; [apply lookup_insert_eq|exact Hc1]. }
  intros fd s2 Hf2 [Hfd2 Hc2].
  apply (load_call _ _ _ (fun n s' => n = Z.of_nat (length (prog_bytes prog)) /\
    (fview s').1.2 !! fd = Some path /\ file s' path = Some (prog_bytes prog))); [done| |].
  { eapply post_mono; [| |exact (f_size_spec fd path _ s2 Hfd2 Hc2)]; [|done].
    intros [n|e] s3 [Hv Hn]; rewrite <- !fview_filters, Hv; [|done]. unfold file. by rewrite Hv. }
  intros n s3 Hf3 (-> & Hfd3 & Hc3). rewrite Hlen8. cbv zeta.
  assert (Hsz : i32 (8 * Z.of_nat (length prog)) = 8 * Z.of_nat (length prog)).
  { apply i32_id. unfold INT_MIN, INT_MAX. lia. }
  rewrite !Hsz.
  assert (Hw : wrap_u 64 (8 * Z.of_nat (length prog)) = 8 * Z.of_nat (length prog)) by (apply Z.mod_small; lia).
  rewrite !Hw. change (Z.of_nat sizeof_sock_filter) with 8.
  rewrite (Z.mul_comm 8), Z.mod_mul by done. simpl when. rewrite mret_bind.
  apply (load_call _ _ _ (fun _ s' => fview s' = fview s3)); [done| |].
  { eapply post_mono; [| |apply f_malloc_spec]; [|done]. intros [u|e] s4 Hv; rewrite <- !fview_filters, Hv; done. }
  intros _ s4 Hf4 Hv4. rewrite <- Hv4 in Hfd3. unfold file in Hc3. rewrite <- Hv4 in Hc3.
  apply post_bind.
  eapply post_mono; [| |exact (call_post fview fview_libc _ _ _ _ (f_read_spec fd _ path _ s4 Hfd3 Hc3))]; [|done].
  intros r s5 (s6 & Hv5 & Hr).
  assert (Hf5 : filters_of s5 = filters_of s).
  { rewrite <- Hf4, <- !fview_filters, Hv5. destruct r; [destruct Hr as [[-> _] _]|destruct Hr as (e & [-> _] & _)]; done. }
  assert (Hfail : forall Q, post Q (stops filters_of s5) ((eprintf (str "Failure reading filter" ++ [newline]);;
    c_exit EXIT_FAILURE : M S (list Z)) s5)).
  { intros Q. apply (stops_eprintf filters_of filters_of_libc). intros s7. apply c_exit_stops. exact filters_of_libc. }
  eapply (stops_then filters_of _ _ _ (fun bs s' => s' = s5 /\ bs = prog_bytes prog)); [done|done| |].
  { destruct r as [bs|]; [|apply Hfail].
    destruct (Z.eqb_spec (Z.of_nat (length bs)) (Z.of_nat (length prog) * 8)) as [Hl|];
      [|apply Hfail].
    simpl. split; [done|]. destruct Hr as [[_ Hpre] _]. apply prefix_length_eq; [done|]. rewrite length_prog_bytes. lia. }
  intros bs s7 [-> ->].
  apply (load_call _ _ _ (fun _ _ => True)); [done| |].
  { eapply post_mono; [| |apply f_close_spec]; [|done]. intros r' s7 [_ Hv]. rewrite <- !fview_filters. split; [done|by destruct r']. }
  intros _ s7 Hf7 _. rewrite Z.div_mul by done. rewrite u16_id by lia. rewrite Nat2Z.id, prog_roundtrip by done.
  eapply (stops_then filters_of _ _ _ (fun _ s' => filters_of s' = prog :: filters_of s)); [done|done| |by intros [] s8].
  apply (pchecked_spec strerror filters_of filters_of_libc _ _ _
    (fun r s' => match r with SOk _ => filters_of s' = prog :: filters_of s | SErr _ => filters_of s' = filters_of s7 end));
    [|by intros [u|e]].
  unfold seccomp_set_mode_filter. destruct (filter_ok prog); [|done]. apply post_bind.
  eapply post_mono; [| |apply seccomp_ok_spec]; [|done].
  intros [u|e] s8 [Hv _]; simpl; [|by rewrite <- !kview_filters, Hv].
  by rewrite filters_of_set, <- kview_filters, Hv, kview_filters, Hf7.
Qed.

Lemma dumpFilter_spec path prog (s : S) :
  post (fun _ s' => exists n, file s' path = Some (take n (prog_bytes prog))) (stops filters_of s)
    (dumpFilter strerror path prog s).
Proof.
  unfold dumpFilter.
  apply (load_call _ _ _ (fun fd s' => (fview s').1.2 !! fd = Some path /\ file s' path = Some [])); [done| |].
  { eapply post_mono; [| |apply f_creat_spec]; [|done]. intros [fd|e] s1 Hv; rewrite <- !fview_filters, Hv; [|done].
    split; [done|]. unfold file. rewrite Hv. simpl. split; apply lookup_insert_eq. }
  intros fd s1 Hf1 [Hfd Hc].
  apply (load_call _ _ _ (fun n s' => file s' path = Some (take n (prog_bytes prog)))); [done| |].
  { eapply post_mono; [| |exact (f_write_spec fd (prog_bytes prog) path s1 Hfd Hc)]; [|done].
    intros [n|e] s2 Hv; rewrite <- !fview_filters, Hv; [|done]. unfold file. rewrite Hv. split; [done|].
    apply lookup_insert_eq. }
  intros n s2 Hf2 Hc2.
  apply (load_call _ _ _ (fun _ s' => file s' path = Some (take n (prog_bytes prog)))); [done| |].
  { eapply post_mono; [| |apply f_close_spec]; [|done]. intros r s3 [H1 H2]. rewrite <- !fview_filters.
    split; [done|]. destruct r; [|done]. unfold file. by rewrite H1. }
  intros _ s3 Hf3 Hc3. simpl. exists n. unfold file in *. by rewrite fview_libc.
Qed.

(** A filter that dump_seccomp_filter wrote to a file is the one that seccomp_launch
    -f installs: after dumpFilter() returns, the file holds the instructions, or the
    first bytes of them (a short write is not noticed); in any process that finds them
    all, loadFilter() either puts exactly the dumped program in force, before all other
    filters, or ends with the filters as they were. *)
Theorem dump_load_roundtrip path prog (s : S) : Forall insn_wf prog -> Z.of_nat (length prog) < 65536 ->
  post (fun _ s' => exists n, file s' path = Some (take n (prog_bytes prog)) /\
      ((8 * length prog <= n)%nat -> forall set t, file t path = file s' path ->
         post (fun _ t' => filters_of t' = prog :: filters_of t) (stops filters_of t) (loadFilter strerror set path t)))
    (stops filters_of s) (dumpFilter strerror path prog s).
Proof.
  intros Hwf Hlen. eapply post_mono; [| |apply dumpFilter_spec]; [|done]. intros _ s' [n Hn]. exists n.
  split; [done|]. intros Hfull set t Ht. rewrite Hn, take_ge in Ht by (rewrite length_prog_bytes; lia).
  eapply post_mono; [| |by apply (loadFilter_spec set path prog t)]; [|done]. by intros b t' [_ Hf].
Qed.
End dump_load.

(** * A system for the programs *)

(** The filters and logs, and the files. *)
Record stoy := SToy { st_kern : kern_view; st_files : gmap bytes (list Z); st_fds : gmap Z bytes }.
Definition on_kern (f : kern_view -> kern_view) (t : stoy) : stoy := SToy (f (st_kern t)) (st_files t) (st_fds t).

#[export, refine] Instance stoy_filters : HasFilters (libc * stoy) := {|
  filters_of s := kv_filters (st_kern (snd s));
  set_filters fs s := (fst s, on_kern (fun v => KernView fs (kv_opened v) (kv_sought v)) (snd s))
|}.
Proof. done. Defined.

#[export] Instance stoy_kern : KernOS (libc * stoy) := {|
  k_no_new_privs := mret (SOk tt);
  k_seccomp_ok := mret (SOk tt);
  k_openat p fl _ := fun '(l, t) => (Done (SOk 3), (l, on_kern (fun v =>
    KernView (kv_filters v) (kv_opened v ++ [(p, fl)]) (kv_sought v)) t));
  k_lseek fd off := fun '(l, t) => (Done (SOk off), (l, on_kern (fun v =>
    KernView (kv_filters v) (kv_opened v) (kv_sought v ++ [(fd, off)])) t));
  k_getppid := mret (SOk 1); k_geteuid := mret (SOk 0); k_mq_notify _ := mret (SErr EBADF);
  k_sigaction_sigsys := mret (SOk tt); k_getpid := mret 2; k_system _ := mret 0; k_execv _ _ := mret ENOENT
|}.

#[export, refine] Instance stoy_kern_spec : KernSpec (libc * stoy) := {| kview s := st_kern (snd s) |}.
Proof. all: try done; intros; by repeat match goal with s : _ * stoy |- _ => destruct s end. Defined.

#[export] Instance stoy_file_os : FileOS (libc * stoy) := {|
  f_open_rdonly p := fun '(l, t) => (Done (SOk 3), (l, SToy (st_kern t) (st_files t) (<[3 := p]> (st_fds t))));
  f_creat p := fun '(l, t) => (Done (SOk 3), (l, SToy (st_kern t) (<[p := []]> (st_files t)) (<[3 := p]> (st_fds t))));
  f_size fd := fun '(l, t) =>
    (Done (match (st_fds t !! fd) ≫= (fun p => st_files t !! p) with
           | Some bs => SOk (Z.of_nat (length bs)) | None => SErr EBADF end), (l, t));
  f_read fd n := fun '(l, t) =>
    (Done (match (st_fds t !! fd) ≫= (fun p => st_files t !! p) with
           | Some bs => SOk (take n bs) | None => SErr EBADF end), (l, t));
  f_write fd bs := fun '(l, t) =>
    match st_fds t !! fd with
    | Some p => (Done (SOk (length bs)), (l, SToy (st_kern t) (<[p := bs]> (st_files t)) (st_fds t)))
    | None => (Done (SErr EBADF), (l, t))
    end;
  f_close fd := fun '(l, t) => (Done (SOk tt), (l, SToy (st_kern t) (st_files t) (delete fd (st_fds t))));
  f_malloc _ := mret (SOk tt)
|}.

#[export, refine] Instance stoy_file_spec : FileSpec (libc * stoy) :=
  {| fview s := (st_files (snd s), st_fds (snd s), kv_filters (st_kern (snd s))) |}.
Proof.
  - done.
  - by intros l [].
  - by intros p [].
  - by intros p [].
  - intros fd p bs [l t] Hfd Hf. simpl in *. rewrite Hfd. simpl. by rewrite Hf.
  - intros fd n p bs [l t] Hfd Hf. simpl in *. rewrite Hfd. simpl. rewrite Hf. split; [done|].
    exists (drop n bs). by rewrite take_drop.
  - intros fd bs p [l t] Hfd Hf. simpl in *. rewrite Hfd. simpl. by rewrite take_ge.
  - by intros fd [].
  - by intros n [].
  - by intros [].
Defined.

Definition stoy0 : libc * stoy := (libc0, SToy (KernView [] [] []) ∅ ∅).
Definition sample_strerror (e : Z) : bytes := if e =? ENOTSUP then str "Operation not supported" else [].
Definition control_open_run : outcome unit * (libc * stoy) := control_open_main sample_strerror (fun _ => 0) stoy0.

Lemma control_open_correct_witness :
  control_open_run.1 = Aborted /\ opened control_open_run.2 = [(str "/tmp/a", O_RDONLY)] /\
  post (fun _ _ => False) (fun e s' =>
    (e = EAbort /\ opened s' = opened stoy0 ++ [(str "/tmp/a", O_RDONLY)] /\
     exists before, lc_out (libc_of s') = before ++
       [(Stderr, str "open2: " ++ sample_strerror ENOTSUP ++ [newline]);
        (Stderr, str "open3: " ++ sample_strerror ENOTSUP ++ [newline])]) \/
    stops opened stoy0 e s') control_open_run.
Proof.
  split; [vm_compute; reflexivity|]. split; [vm_compute; reflexivity|].
  exact (control_open_correct sample_strerror (fun _ => 0) stoy0 eq_refl).
Defined.

Definition arg64_run : outcome unit * (libc * stoy) := arg64_main sample_strerror (fun _ => 0) stoy0.

Lemma arg64_correct_witness :
  arg64_run.1 = Exited EXIT_SUCCESS /\ exists fd, sought arg64_run.2 = [(fd, 0)].
Proof.
  assert (Hrun : arg64_run.1 = Exited EXIT_SUCCESS) by (vm_compute; reflexivity).
  pose proof (arg64_correct sample_strerror (fun _ => 0) stoy0 eq_refl) as H.
  fold arg64_run in H. split; [done|]. destruct arg64_run as [r s']. simpl in Hrun. subst r.
  destruct H as [(_ & fd & Hs & _)|[[[=]|[=]] _]]. by exists fd.
Defined.

Lemma dump_load_roundtrip_witness :
  exists s', dumpFilter sample_strerror (str "f") filter_deny_open stoy0 = (Done tt, s') /\
  post (fun _ t' => filters_of t' = [filter_deny_open]) (stops filters_of s')
    (loadFilter sample_strerror false (str "f") s').
Proof.
  assert (Hwf : Forall insn_wf filter_deny_open).
  { apply (bool_decide_unpack _). vm_compute. exact I. }
  pose proof (dump_load_roundtrip sample_strerror (str "f") filter_deny_open stoy0 Hwf ltac:(vm_compute; reflexivity)) as H.
  destruct (dumpFilter sample_strerror (str "f") filter_deny_open stoy0) as [r s'] eqn:Hrun.
  vm_compute in Hrun. injection Hrun as <- <-. eexists. split; [reflexivity|].
  destruct H as (n & Hn & Hload). unfold file in Hn. simpl in Hn.
  assert (Hlen : (80 <= n)%nat).
  { apply (f_equal (fun o => length (default [] o))) in Hn. simpl default in Hn. rewrite length_take in Hn.
    rewrite (length_prog_bytes filter_deny_open) in Hn. simpl in Hn. lia. }
  exact (Hload Hlen false _ eq_refl).
Defined.
