(* ===== verification/Notify.v ===== *)
(** book-src/seccomp/seccomp_user_notification.c: a target whose mkdir() calls are
    notified to a tracer that answers in its place. *)
From S2P Require Import Prelude CLib Sys ErrorFunctions Calls Memory Cmsg UnixSockets Scm Bpf Seccomp.
#[local] Open Scope Z_scope.

Definition PATH_MAX : nat := Z.to_nat 4096.
#[global] Arguments PATH_MAX : simpl never.
Definition SIGTERM : Z := 15.

(** struct seccomp_notif and struct seccomp_notif_resp *)
Record seccomp_notif := Notif { req_id : Z; req_pid : Z; req_arg0 : Z; req_arg1 : Z }.
Definition zero_notif : seccomp_notif := Notif 0 0 0 0.
Record seccomp_notif_resp := Resp { resp_id : Z; resp_val : Z; resp_error : Z; resp_flags : Z }.

(** Source: book-src/seccomp/seccomp_user_notification.c:96-100 (struct cmdLineOpts). *)
Record cmdLineOpts := CmdLineOpts { delaySecs : Z; secondFilter : Z; killTracer : bool }.

(** The calls of the program that other files do not have. *)
Class NotifyOS (S : Type) := {
  n_fork : M S (sysres Z);
  n_sigaction_sigint : M S (sysres unit);
  n_mkdir : bytes -> Z -> M S (sysres unit);
  (** the call of a process whose mkdir() is notified, from the call to the answer *)
  n_mkdir_notified : bytes -> Z -> M S (sysres Z);
  n_notif_sizes : M S (sysres unit);
  n_malloc : M S (sysres unit);
  (** SECCOMP_IOCTL_NOTIF_RECV, with what the structure holds before *)
  n_notif_recv : Z -> seccomp_notif -> M S (sysres seccomp_notif);
  n_notif_send : Z -> seccomp_notif_resp -> M S (sysres unit);
  n_notif_id_valid : Z -> Z -> M S (sysres unit);
  n_sleep : Z -> M S unit;
  n_open_mem : bytes -> M S (sysres Z);
  n_lseek : Z -> Z -> M S (sysres unit);
  n_read : Z -> nat -> M S (sysres bytes);
  n_close : Z -> M S (sysres unit);
  n_socketpair : M S (sysres (Z * Z));
  n_waitpid : Z -> M S unit;
  n_kill : Z -> Z -> M S unit;
  n_listener : list sock_filter -> M S (sysres Z)    (* SECCOMP_FILTER_FLAG_NEW_LISTENER *)
}.

(** Numbers in another base, for %llx and %llo. *)
Fixpoint base_digits (base : Z) (fuel : nat) (n : Z) : bytes :=
  match fuel with
  | O => []
  | S fuel' =>
      let d := n mod base in
      let c := if d <? 10 then chr (Z.to_nat (48 + d)) else chr (Z.to_nat (87 + d)) in
      if n <? base then [c] else base_digits base fuel' (n / base) ++ [c]
  end.
Definition print_hex (n : Z) : bytes := base_digits 16 17 n.
Definition print_oct (n : Z) : bytes := base_digits 8 23 n.

Definition quoted (s : bytes) : bytes := chr 34 :: s ++ [chr 34].

Section notify.
Context {S : Type} `{HasLibc S} `{HasFilters S} `{KernOS S} `{SockOS S} `{MsgOS S} `{NotifyOS S}.
Context (strerror : Z -> bytes) (addr : bytes -> Z).
#[local] Abbreviation perror_exit := (perror_exit strerror).
#[local] Abbreviation pchecked := (pchecked strerror).
#[local] Abbreviation perror := (perror strerror).

(** setbuf(stdout, NULL): every output leaves at once. *)
Definition uprintf (txt : bytes) : M S unit := Sys.printf txt;; fflush_stdout.
#[local] Abbreviation printf := uprintf.

(** ** The target *)

(** Source: book-src/seccomp/seccomp_user_notification.c:126-158 (installNotifyFilter). *)
Definition installNotifyFilter : M S Z :=
  pchecked (if filter_ok filter_notify then
      r ← n_listener filter_notify;
      match r with
      | SErr e => mret (SErr e)
      | SOk fd => modify (fun s => set_filters (filter_notify :: filters_of s) s);; mret (SOk fd)
      end
    else mret (SErr EINVAL)) (str "seccomp-install-notify-filter").

(** Source: book-src/seccomp/seccomp_user_notification.c:165-208 (installFilter2). *)
Definition installFilter2 (opts : cmdLineOpts) : M S unit :=
  pchecked (seccomp_set_mode_filter (filter2 (secondFilter opts))) (str "seccomp-install-filter-2").

(** Source: book-src/seccomp/seccomp_user_notification.c:212-219 (handler). *)
Definition handler : M S unit := printf (str "Target process: received signal" ++ [newline]).

(** Source: book-src/seccomp/seccomp_user_notification.c:223-230 (closeSocketPair). *)
Definition closeSocketPair (sockPair : Z * Z) : M S unit :=
  pchecked (n_close (fst sockPair)) (str "closeSocketPair-close-0");;
  pchecked (n_close (snd sockPair)) (str "closeSocketPair-close-1").

(** mkdir(2) of a confined process *)
Definition sys_mkdir (path : bytes) (mode : Z) : M S (sysres Z) :=
  filtered abort_ (n_mkdir_notified path mode) (x86_64 NR_mkdir [addr path; mode])
    (r ← n_mkdir path mode; mret match r with SOk _ => SOk 0 | SErr e => SErr e end).

(** Source: book-src/seccomp/seccomp_user_notification.c:294-301 (targetProcess, directories). *)
Definition target_round (ap : bytes) : M S unit :=
  printf ([newline] ++ str "Target process: about to make directory " ++ quoted ap ++ [newline]);;
  s ← call (sys_mkdir ap 384);
  match s with
  | None => perror (str "Target process: mkdir")
  | Some s => printf (str "Target process: SUCCESS: mkdir(2) returned = " ++ print_dec s ++ [newline])
  end.

(** In the parent the result is the child's PID; the child does not return.
    [controlMsg] is the buffer of sendfd(). *)
(** Source: book-src/seccomp/seccomp_user_notification.c:242-305 (targetProcess). *)
Definition targetProcess (controlMsg : list Z) (sockPair : Z * Z) (argv : list bytes) (opts : cmdLineOpts) : M S Z :=
  targetPid ← pchecked n_fork (str "fork");
  if targetPid >? 0 then mret targetPid
  else
    pid ← k_getpid;
    printf (str "Target process: PID = " ++ print_dec pid ++ [newline]);;
    pchecked n_sigaction_sigint (str "sigaction");;
    pchecked k_no_new_privs (str "prctl");;
    notifyFd ← installNotifyFilter;
    when (negb (secondFilter opts =? -1)) (installFilter2 opts);;
    r ← sendfd controlMsg (fst sockPair) notifyFd;
    (if r =? -1 then perror_exit (str "sendfd") else mret tt);;
    pchecked (n_close notifyFd) (str "close-target-notify-fd");;
    closeSocketPair sockPair;;
    for_each argv target_round;;
    printf (str "Target process: terminating" ++ [newline]);;
    c_exit EXIT_SUCCESS.

(** ** The tracer *)

(** Source: book-src/seccomp/seccomp_user_notification.c:314-321 (checkNotificationIdIsValid). *)
Definition checkNotificationIdIsValid (notifyFd id : Z) (tag : bytes) : M S unit :=
  r ← call (n_notif_id_valid notifyFd id);
  match r with
  | None => eprintf (str "Tracer: notification ID check (" ++ tag ++ str "): target has died!!!!!!!!!!!" ++ [newline])
  | Some _ => mret tt
  end.

(** The first part of a round: the delay. *)
(** Source: book-src/seccomp/seccomp_user_notification.c:374-385 (watchForNotifications, delay). *)
Definition tracer_delay (notifyFd id : Z) (opts : cmdLineOpts) : M S unit :=
  when (delaySecs opts >? 0)
    (printf (str "Tracer: delaying for " ++ print_dec (delaySecs opts) ++ str " seconds:");;
     checkNotificationIdIsValid notifyFd id (str "pre-delay");;
     for_each (rev (seq 1 (Z.to_nat (delaySecs opts)))) (fun d =>
       printf (str " " ++ print_dec (Z.of_nat d));; n_sleep 1);;
     printf [newline];;
     checkNotificationIdIsValid notifyFd id (str "post-delay")).

(** snprintf() or read() into the array [path]: the bytes it is given replace its
    first ones. *)
Definition overwrite (path new : bytes) : bytes := new ++ drop (length new) path.

(** The string in an array that has a terminating null. *)
Definition string_in (buf : bytes) : option bytes :=
  if bool_decide (NUL ∈ buf) then Some (cstring buf) else None.

(** The pathname of the call, from the memory of the target; the result is the array. *)
(** Source: book-src/seccomp/seccomp_user_notification.c:387-430 (watchForNotifications, pathname). *)
Definition tracer_path (notifyFd : Z) (req : seccomp_notif) (path : bytes) : M S bytes :=
  let path := overwrite path (snprintf PATH_MAX (str "/proc/" ++ print_dec (req_pid req) ++ str "/mem") ++ [NUL]) in
  name ← deref (string_in path);
  procMem ← pchecked (n_open_mem name) (str "Tracer: open");
  checkNotificationIdIsValid notifyFd (req_id req) (str "post-open");;
  pchecked (n_lseek procMem (req_arg0 req)) (str "Tracer: lseek");;
  s ← pchecked (n_read procMem PATH_MAX) (str "read");
  (if s is [] then eprintf (str "Tracer: read returned EOF" ++ [newline]);; c_exit EXIT_FAILURE else mret tt);;
  let path := overwrite path s in
  p ← deref (string_in path);
  printf (str "Tracer: mkdir(" ++ quoted p ++ str ", " ++ print_oct (req_arg1 req) ++ str ")" ++ [newline]);;
  pchecked (n_close procMem) (str "close-/proc/PID/mem");;
  mret path.

(** The answer to a request for the directory [p]. *)
(** Source: book-src/seccomp/seccomp_user_notification.c:434-460 (watchForNotifications, response). *)
Definition tracer_respond (notifyFd : Z) (req : seccomp_notif) (p : bytes) : M S unit :=
  error ← (if strneq p (str "/tmp/") (strlen (str "/tmp/")) then
             call (n_mkdir p (req_arg1 req));; mret 0
           else mret (- EPERM));
  r ← call (n_notif_send notifyFd (Resp (req_id req) (Z.of_nat (strlen p)) error 0));
  match r with
  | None =>
      e ← get_errno;
      if e =? ENOENT then
        printf (str "Tracer: response failed with ENOENT; perhaps target process's syscall was interrupted by signal?" ++ [newline])
      else perror (str "ioctl-SECCOMP_IOCTL_NOTIF_SEND")
  | Some _ => mret tt
  end.

(** The structure [req] and the array [path] keep their contents from one round to
    the next. *)
(** Source: book-src/seccomp/seccomp_user_notification.c:352-470 (watchForNotifications, loop). *)
Definition tracer_round (notifyFd : Z) (opts : cmdLineOpts) (vars : seccomp_notif * bytes)
    : M S (seccomp_notif * bytes + unit) :=
  req ← pchecked (n_notif_recv notifyFd (fst vars)) (str "Tracer: ioctlSECCOMP_IOCTL_NOTIF_RECV");
  printf (str "Tracer: got notification for PID " ++ print_dec (req_pid req) ++ str "; ID is " ++
          print_hex (req_id req) ++ [newline]);;
  tracer_delay notifyFd (req_id req) opts;;
  path ← tracer_path notifyFd req (snd vars);
  p ← deref (string_in path);
  tracer_respond notifyFd req p;;
  if streq p (str "/bye") then
    printf (str "Tracer: terminating <<<<<<<<<<<<<<<<<<<<<<<<<<<<<<<<" ++ [newline]);;
    c_exit EXIT_FAILURE
  else mret (inl (req, path)).

(** [req0] and [path0] are the initial contents of the memory from malloc() and of
    the array, which are not set. *)
(** Source: book-src/seccomp/seccomp_user_notification.c:326-471 (watchForNotifications). *)
Definition watchForNotifications (fuel : nat) (req0 : seccomp_notif) (path0 : bytes) (notifyFd : Z) (opts : cmdLineOpts)
    : M S unit :=
  pchecked n_notif_sizes (str "Tracer: seccomp-SECCOMP_GET_NOTIF_SIZES");;
  pchecked n_malloc (str "Tracer: malloc");;
  pchecked n_malloc (str "Tracer: malloc");;
  iter fuel (tracer_round notifyFd opts) (req0, path0).

(** Source: book-src/seccomp/seccomp_user_notification.c:480-509 (tracerProcess). *)
Definition tracerProcess (fuel : nat) (req0 : seccomp_notif) (path0 : bytes) (sockPair : Z * Z) (opts : cmdLineOpts)
    : M S Z :=
  tracerPid ← pchecked n_fork (str "fork");
  if tracerPid >? 0 then mret tracerPid
  else
    pid ← k_getpid;
    printf (str "Tracer: PID = " ++ print_dec pid ++ [newline]);;
    notifyFd ← recvfd (snd sockPair);
    (if notifyFd =? -1 then perror_exit (str "recvfd") else mret tt);;
    closeSocketPair sockPair;;
    watchForNotifications fuel req0 path0 notifyFd opts;;
    c_exit EXIT_SUCCESS.

(** ** The parent *)

(** Source: book-src/seccomp/seccomp_user_notification.c:513-528 (usageError). *)
Definition notify_usageError {A} (msg : option bytes) (pname : bytes) : M S A :=
  (match msg with Some m => eprintf (m ++ [newline]) | None => mret tt end);;
  eprintf (str "Usage: " ++ pname ++ str " [options] <dir> <dir>..." ++ [newline]);;
  eprintf (str "      Options" ++ [newline]);;
  eprintf (str "      -d <nsecs>    Tracer delays 'nsecs' before inspecting target" ++ [newline]);;
  eprintf (str "      -f <val>      Install second filter whose return value is:" ++ [newline]);;
  eprintf (str "                    'e' - SECCOMP_RET_ERRNO" ++ [newline]);;
  eprintf (str "                    't' - SECCOMP_RET_TRACE" ++ [newline]);;
  eprintf (str "      -K            Don't kill tracer on termination of target process" ++ [newline]);;
  c_exit EXIT_FAILURE.

(** Source: book-src/seccomp/seccomp_user_notification.c:541-565 (parseCommandLineOptions, options). *)
Fixpoint parse_notify_options (argv0 : bytes) (opts : list (ascii * bytes)) (o : cmdLineOpts) : M S cmdLineOpts :=
  match opts with
  | [] => mret o
  | (c, optarg) :: opts' =>
      if ceq c "K" then parse_notify_options argv0 opts' (CmdLineOpts (delaySecs o) (secondFilter o) false)
      else if ceq c "f" then
        if ceq (char_at optarg 0) "e" then
          parse_notify_options argv0 opts' (CmdLineOpts (delaySecs o) SECCOMP_RET_ERRNO (killTracer o))
        else if ceq (char_at optarg 0) "t" then
          parse_notify_options argv0 opts' (CmdLineOpts (delaySecs o) SECCOMP_RET_TRACE (killTracer o))
        else notify_usageError (Some (str "Bad value for -f")) argv0
      else if ceq c "d" then parse_notify_options argv0 opts' (CmdLineOpts (atoi optarg) (secondFilter o) (killTracer o))
      else notify_usageError (Some (str "Bad option")) argv0
  end.

(** Source: book-src/seccomp/seccomp_user_notification.c:532-572 (parseCommandLineOptions). *)
Definition parseCommandLineOptions (argv0 : bytes) (opts : list (ascii * bytes)) (args : list bytes) : M S cmdLineOpts :=
  o ← parse_notify_options argv0 opts (CmdLineOpts 0 (-1) true);
  (if args is [] then notify_usageError (Some (str "At least one pathname argument should be supplied")) argv0
   else mret tt);;
  mret o.

(** Source: book-src/seccomp/seccomp_user_notification.c:574-627 (main). *)
Definition notify_main (fuel : nat) (controlMsg : list Z) (req0 : seccomp_notif) (path0 : bytes) (argv0 : bytes)
    (opts : list (ascii * bytes)) (args : list bytes) : M S unit :=
  opts ← parseCommandLineOptions argv0 opts args;
  sockPair ← pchecked n_socketpair (str "socketpair");
  targetPid ← targetProcess controlMsg sockPair args opts;
  tracerPid ← tracerProcess fuel req0 path0 sockPair opts;
  closeSocketPair sockPair;;
  n_waitpid targetPid;;
  printf (str "Parent: target process has terminated" ++ [newline]);;
  (if killTracer opts then
     printf (str "Parent: killing tracer" ++ [newline]);; n_kill tracerPid SIGTERM
   else n_waitpid tracerPid);;
  c_exit EXIT_SUCCESS.
End notify.

(** * What is proved of the tracer *)

(** The directories that the tracer asked for, the answers it gave, and the
    memory of which process, at which address, its descriptors are open on. *)
Record notify_view := NotifyView {
  made : list (bytes * Z);
  answered : list seccomp_notif_resp;
  mem_fds : gmap Z (Z * Z)
}.
Definition proc_mem (pid : Z) : bytes := str "/proc/" ++ print_dec pid ++ str "/mem".

Class NotifySpec (S : Type) `{HasLibc S} `{NotifyOS S} := {
  nview : S -> notify_view;
  nview_libc : forall l s, nview (set_libc l s) = nview s;
  (** the string at an address of a process, of less than PATH_MAX bytes *)
  string_at : Z -> Z -> bytes;
  string_at_ok : forall pid a, NUL ∉ string_at pid a;
  recv_spec : forall fd old s, post (fun r s' => nview s' = nview s /\
    match r with SOk req => INT_MIN <= req_pid req <= INT_MAX /\ req <> zero_notif | SErr _ => True end) (fun _ _ => False)
    (n_notif_recv fd old s);
  id_valid_spec : forall fd id s, post (fun _ s' => nview s' = nview s) (fun _ _ => False) (n_notif_id_valid fd id s);
  sizes_spec : forall s, post (fun _ s' => nview s' = nview s) (fun _ _ => False) (n_notif_sizes s);
  nmalloc_spec : forall s, post (fun _ s' => nview s' = nview s) (fun _ _ => False) (n_malloc s);
  sleep_spec : forall n s, post (fun _ s' => nview s' = nview s) (fun _ _ => False) (n_sleep n s);
  open_mem_spec : forall pid s, INT_MIN <= pid <= INT_MAX -> post (fun r s' => match r with
    | SOk fd => nview s' = NotifyView (made (nview s)) (answered (nview s)) (<[fd := (pid, 0)]> (mem_fds (nview s)))
    | SErr _ => nview s' = nview s end) (fun _ _ => False) (n_open_mem (proc_mem pid) s);
  mem_lseek_spec : forall fd off pid pos s, mem_fds (nview s) !! fd = Some (pid, pos) -> post (fun r s' => match r with
    | SOk _ => nview s' = NotifyView (made (nview s)) (answered (nview s)) (<[fd := (pid, off)]> (mem_fds (nview s)))
    | SErr _ => nview s' = nview s end) (fun _ _ => False) (n_lseek fd off s);
  mem_read_spec : forall fd pid pos s, mem_fds (nview s) !! fd = Some (pid, pos) -> post (fun r s' => nview s' = nview s /\
    match r with
    | SOk bs => bs = [] \/ exists rest, bs = string_at pid pos ++ NUL :: rest /\ (length bs <= PATH_MAX)%nat
    | SErr _ => True
    end) (fun _ _ => False) (n_read fd PATH_MAX s);
  mem_close_spec : forall fd s, post (fun _ s' => made (nview s') = made (nview s) /\ answered (nview s') = answered (nview s))
    (fun _ _ => False) (n_close fd s);
  mkdir_spec : forall p mode s, post (fun _ s' =>
      nview s' = NotifyView (made (nview s) ++ [(p, mode)]) (answered (nview s)) (mem_fds (nview s)))
    (fun _ _ => False) (n_mkdir p mode s);
  send_spec : forall fd resp s, post (fun r s' => match r with
    | SOk _ => nview s' = NotifyView (made (nview s)) (answered (nview s) ++ [resp]) (mem_fds (nview s))
    | SErr _ => nview s' = nview s end) (fun _ _ => False) (n_notif_send fd resp s)
}.

(** ** Strings in the array *)

Lemma cstring_app_nul p rest : NUL ∉ p -> string_in (p ++ NUL :: rest) = Some p.
Proof.
  intros Hp. unfold string_in. rewrite bool_decide_eq_true_2 by (rewrite elem_of_app; right; left).
  by rewrite cstring_nul.
Qed.

Lemma overwrite_string path p rest : NUL ∉ p -> string_in (overwrite path (p ++ NUL :: rest)) = Some p.
Proof. intros Hp. unfold overwrite. rewrite <- app_assoc. simpl. by apply cstring_app_nul. Qed.

Lemma length_overwrite path new : (length new <= length path)%nat -> length (overwrite path new) = length path.
Proof. intros Hl. unfold overwrite. rewrite length_app, length_drop. lia. Qed.

Lemma length_dec_digits fuel n : (length (dec_digits fuel n) <= fuel)%nat.
Proof.
  revert n. induction fuel as [|fuel IH]; intros n; simpl; [done|]. destruct (n <? 10); simpl; [lia|].
  rewrite length_app. simpl. specialize (IH (n / 10)). lia.
Qed.

Lemma digit_not_nul c : isdigit c = true -> c <> NUL.
Proof. intros Hd ->. done. Qed.

Lemma print_dec_ok z : INT_MIN <= z <= INT_MAX -> (NUL ∉ print_dec z) /\ (length (print_dec z) <= 34)%nat.
Proof.
  intros Hz. assert (Hn : forall n, 0 <= n <= 2147483648 -> (NUL ∉ print_nonneg n) /\ (length (print_nonneg n) <= 33)%nat).
  { intros n Hn. split.
    - intros Hin. pose proof (print_nonneg_digits n ltac:(lia)) as Hd. rewrite Forall_forall in Hd.
      exact (digit_not_nul NUL (Hd NUL Hin) eq_refl).
    - unfold print_nonneg. etransitivity; [apply length_dec_digits|].
      assert (Z.log2 n <= 31) by (change 31 with (Z.log2 2147483648); apply Z.log2_le_mono; lia).
      pose proof (Z.log2_nonneg n). lia. }
  unfold print_dec, INT_MIN, INT_MAX in *. destruct (Z.ltb_spec z 0).
  - destruct (Hn (- z) ltac:(lia)) as [H1 H2]. split; [|simpl; lia]. rewrite elem_of_cons. by intros [?|?].
  - destruct (Hn z ltac:(lia)) as [H1 H2]. split; [done|lia].
Qed.

Lemma proc_mem_ok pid : INT_MIN <= pid <= INT_MAX ->
  (NUL ∉ proc_mem pid) /\ snprintf PATH_MAX (proc_mem pid) = proc_mem pid /\ (length (proc_mem pid) < PATH_MAX)%nat.
Proof.
  intros Hp. destruct (print_dec_ok pid Hp) as [Hnul Hlen]. unfold proc_mem.
  assert (Hl : (length (str "/proc/" ++ print_dec pid ++ str "/mem") <= 44)%nat).
  { rewrite !length_app. change (length (str "/proc/")) with 6%nat. change (length (str "/mem")) with 4%nat. lia. }
  split_and!.
  - assert (H1 : NUL ∉ str "/proc/") by (apply (bool_decide_unpack _); vm_compute; exact I).
    assert (H2 : NUL ∉ str "/mem") by (apply (bool_decide_unpack _); vm_compute; exact I).
    rewrite !elem_of_app. by intros [?|[?|?]].
  - unfold snprintf, PATH_MAX. apply take_ge. lia.
  - unfold PATH_MAX. lia.
Qed.

Section tracer.
Context {S : Type} `{HL : HasLibc S} `{HN : NotifyOS S} `{HS : !NotifySpec S}.
Context (strerror : Z -> bytes).

(** What the tracer has done: directories and answers. *)
Definition acts (s : S) : list (bytes * Z) * list seccomp_notif_resp := (made (nview s), answered (nview s)).
Lemma acts_libc l s : acts (set_libc l s) = acts s.
Proof. unfold acts. by rewrite nview_libc. Qed.

(** Computations that return and do nothing but output. *)
Definition silent {A} (m : M S A) : Prop :=
  forall s, post (fun _ s' => nview s' = nview s) (fun _ _ => False) (m s).

Lemma silent_bind {A B} (m : M S A) (k : A -> M S B) : silent m -> (forall a, silent (k a)) -> silent (m ≫= k).
Proof.
  intros Hm Hk s. apply post_bind. eapply post_mono; [| |apply Hm]; [|done].
  intros a s1 H1. eapply post_mono; [| |apply Hk]; [|done]. intros b s2 H2. congruence.
Qed.
Lemma silent_ret {A} (a : A) : silent (mret a).
Proof. intros s. done. Qed.
Lemma silent_when b m : silent m -> silent (when b m).
Proof. intros Hm. by destruct b. Qed.
Lemma silent_for_each {X} (l : list X) f : (forall x, silent (f x)) -> silent (for_each l f).
Proof. intros Hf. induction l as [|x l IH]; [apply silent_ret|]. by apply silent_bind. Qed.
Lemma silent_uprintf txt : silent (uprintf txt).
Proof.
  intros s. unfold uprintf, Sys.printf, fflush_stdout. munfold. simpl. by rewrite !nview_libc.
Qed.
Lemma silent_eprintf txt : silent (eprintf txt).
Proof. intros s. simpl. by rewrite nview_libc. Qed.
Lemma silent_call {A} (m : M S (sysres A)) : silent m -> silent (call m).
Proof.
  intros Hm s. eapply post_mono; [| |exact (call_post nview nview_libc _ _ _ _ (Hm s))]; [|done].
  intros [a|] s1 (s2 & Hv & Hr); [destruct Hr; congruence|]. destruct Hr as (e & Hr & _). congruence.
Qed.
Lemma silent_perror msg : silent (perror strerror msg).
Proof. intros s. rewrite perror_run. simpl. by rewrite nview_libc. Qed.

Lemma silent_check fd id tag : silent (checkNotificationIdIsValid fd id tag).
Proof.
  apply silent_bind; [apply silent_call; intros s; apply id_valid_spec|].
  intros [u|]; [apply silent_ret|apply silent_eprintf].
Qed.

Lemma silent_delay fd id opts : silent (tracer_delay fd id opts).
Proof.
  apply silent_when. apply silent_bind; [apply silent_uprintf|intros _].
  apply silent_bind; [apply silent_check|intros _]. apply silent_bind.
  - apply silent_for_each. intros d. apply silent_bind; [apply silent_uprintf|intros _ s; apply sleep_spec].
  - intros _. apply silent_bind; [apply silent_uprintf|intros _; apply silent_check].
Qed.

(** A checked call of the tracer: it goes on, or the program ends having done
    nothing more. *)
Lemma tracer_call {A B} (m : M S (sysres A)) msg (k : A -> M S B) R Q (E : ending -> S -> Prop) (s : S) :
  (forall e s', stops acts s e s' -> E e s') ->
  post (fun r s' => match r with SOk a => R a s' | SErr _ => acts s' = acts s end) (fun _ _ => False) (m s) ->
  (forall a s', R a s' -> post Q E (k a s')) ->
  post Q E ((a ← pchecked strerror m msg; k a) s).
Proof.
  intros HE Hm Hk. eapply (stops_then acts _ _ _ R); [exact HE|done| |exact Hk].
  apply (pchecked_spec strerror acts acts_libc _ _ _ _ _ Hm). by intros [a|e] s'.
Qed.
Lemma then_silent {A B} (m : M S A) (k : A -> M S B) Q E (s : S) :
  silent m -> (forall a s', nview s' = nview s -> post Q E (k a s')) -> post Q E ((m ≫= k) s).
Proof. intros Hm Hk. apply post_bind. eapply post_mono; [| |apply Hm]; [|done]. done. Qed.

(** The pathname that is read is that of the target, at the address of the call. *)
Lemma tracer_path_spec fd req path (s : S) : INT_MIN <= req_pid req <= INT_MAX -> length path = PATH_MAX ->
  post (fun path' s' => acts s' = acts s /\ length path' = PATH_MAX /\
          string_in path' = Some (string_at (req_pid req) (req_arg0 req)))
    (stops acts s) (tracer_path strerror fd req path s).
Proof.
  intros Hpid Hlen. destruct (proc_mem_ok _ Hpid) as (Hnul & Hsn & Hshort). unfold tracer_path.
  fold (proc_mem (req_pid req)). rewrite Hsn. cbv zeta. rewrite overwrite_string by done.
  cbn [deref]. rewrite mret_bind. set (path1 := overwrite path (proc_mem (req_pid req) ++ [NUL])).
  assert (Hlen1 : length path1 = PATH_MAX).
  { unfold path1. rewrite length_overwrite; [done|]. rewrite length_app. change (length [NUL]) with 1%nat. lia. }
  assert (Hstop : forall s1, acts s1 = acts s -> forall e s', stops acts s1 e s' -> stops acts s e s')
    by (intros s1 Ha e s'; by apply stops_at).
  apply (tracer_call _ _ _ (fun m s' => nview s' = NotifyView (made (nview s)) (answered (nview s))
    (<[m := (req_pid req, 0)]> (mem_fds (nview s))))); [done| |].
  { eapply post_mono; [| |by apply open_mem_spec]; [|done]. intros [m|e] s1 Hv; [done|]. unfold acts. by rewrite Hv. }
  intros m s1 Hv1. assert (Ha1 : acts s1 = acts s) by (unfold acts; by rewrite Hv1).
  apply then_silent; [apply silent_check|]. intros _ s2 Hv2. rewrite Hv1 in Hv2.
  assert (Ha2 : acts s2 = acts s) by (unfold acts; by rewrite Hv2).
  assert (Hm2 : mem_fds (nview s2) !! m = Some (req_pid req, 0)) by (rewrite Hv2; apply lookup_insert_eq).
  apply (tracer_call _ _ _ (fun _ s' => acts s' = acts s /\
    mem_fds (nview s') !! m = Some (req_pid req, req_arg0 req))); [by apply Hstop| |].
  { eapply post_mono; [| |exact (mem_lseek_spec m (req_arg0 req) _ _ s2 Hm2)]; [|done].
    intros [u|e] s3 Hv3; unfold acts in *; rewrite Hv3; simpl; [|done].
    split; [done|apply lookup_insert_eq]. }
  intros _ s3 [Ha3 Hm3].
  apply (tracer_call _ _ _ (fun bs s' => acts s' = acts s /\ (bs = [] \/ exists rest,
    bs = string_at (req_pid req) (req_arg0 req) ++ NUL :: rest /\ (length bs <= PATH_MAX)%nat))); [by apply Hstop| |].
  { eapply post_mono; [| |exact (mem_read_spec m _ _ s3 Hm3)]; [|done].
    intros [bs|e] s4 [Hv4 Hr]; unfold acts in *; rewrite Hv4; done. }
  intros bs s4 [Ha4 Hbs]. pose proof (string_at_ok (req_pid req) (req_arg0 req)) as Hok.
  destruct bs as [|b bs].
  { eapply (stops_then acts _ _ _ (fun _ _ => False)); [by apply Hstop|done| |done].
    apply stops_eprintf; [exact acts_libc|]. intros s5. apply c_exit_stops. exact acts_libc. }
  destruct Hbs as [|(rest & Hbs & Hbl)]; [done|]. rewrite Hbs in *. rewrite mret_bind.
  rewrite overwrite_string by done. cbn [deref]. rewrite mret_bind.
  apply then_silent; [apply silent_uprintf|]. intros _ s5 Hv5.
  assert (Ha5 : acts s5 = acts s) by (unfold acts in *; by rewrite Hv5).
  apply (tracer_call _ _ _ (fun _ s' => acts s' = acts s)); [by apply Hstop| |].
  { eapply post_mono; [| |apply mem_close_spec]; [|done]. intros r s6 [H1 H2].
    destruct r; unfold acts in *; congruence. }
  intros _ s6 Ha6. simpl. split; [done|]. split; [|by apply overwrite_string].
  rewrite length_overwrite; [done|by rewrite Hlen1].
Qed.

(** What the tracer does about a request for the directory [p]. *)
Definition permitted (p : bytes) : bool := strneq p (str "/tmp/") 5.
Definition response (req : seccomp_notif) : seccomp_notif_resp :=
  let p := string_at (req_pid req) (req_arg0 req) in
  Resp (req_id req) (Z.of_nat (strlen p)) (if permitted p then 0 else - EPERM) 0.
Definition handled (req : seccomp_notif) (s s' : S) : Prop :=
  let p := string_at (req_pid req) (req_arg0 req) in
  made (nview s') = made (nview s) ++ (if permitted p then [(p, req_arg1 req)] else []) /\
  (answered (nview s') = answered (nview s) ++ [response req] \/ answered (nview s') = answered (nview s)).

Lemma handled_acts req s s1 s2 s' : acts s1 = acts s -> acts s' = acts s2 -> handled req s1 s2 -> handled req s s'.
Proof.
  unfold acts, handled. intros H1 H2. injection H1 as -> ->. injection H2 as -> ->. done.
Qed.

Lemma tracer_respond_spec fd req (s : S) :
  post (fun _ s' => handled req s s') (fun _ _ => False)
    (tracer_respond strerror fd req (string_at (req_pid req) (req_arg0 req)) s).
Proof.
  unfold tracer_respond. set (p := string_at _ _). apply post_bind.
  assert (Hm : post (fun error s1 => error = (if permitted p then 0 else - EPERM) /\
      made (nview s1) = made (nview s) ++ (if permitted p then [(p, req_arg1 req)] else []) /\
      answered (nview s1) = answered (nview s)) (fun _ _ => False)
      ((if strneq p (str "/tmp/") (strlen (str "/tmp/")) then call (n_mkdir p (req_arg1 req));; mret 0
        else mret (- EPERM)) s)).
  { change (strneq p (str "/tmp/") (strlen (str "/tmp/"))) with (permitted p). destruct (permitted p).
    - apply post_bind.
      eapply post_mono; [| |exact (call_post nview nview_libc _ _ _ _ (mkdir_spec p (req_arg1 req) s))]; [|done].
      intros r s1 (s2 & Hv & Hr). cbn [post mret M_ret].
      assert (nview s1 = NotifyView (made (nview s) ++ [(p, req_arg1 req)]) (answered (nview s)) (mem_fds (nview s))) as ->.
      { destruct r; [destruct Hr as [Hr ->]|destruct Hr as (e & Hr & _)]; congruence. }
      done.
    - simpl. by rewrite app_nil_r. }
  eapply post_mono; [| |exact Hm]; [|done]. intros error s1 (-> & Hmade & Hans). apply post_bind.
  fold (response req).
  change (Resp (req_id req) (Z.of_nat (strlen p)) (if permitted p then 0 else - EPERM) 0) with (response req).
  eapply post_mono; [| |exact (call_post nview nview_libc _ _ _ _ (send_spec fd (response req) s1))]; [|done].
  intros [u|] s2 (s3 & Hv & Hr).
  - destruct Hr as [Hr ->]. cbn [post mret M_ret]. unfold handled. rewrite Hr. cbn [made answered]. fold p. rewrite Hmade, Hans.
    split; [done|by left].
  - destruct Hr as (e & Hr & _). rewrite Hr in Hv. apply post_bind. cbn [post get_errno gets].
    assert (Hsil : silent (if lc_errno (libc_of s2) =? ENOENT then
      uprintf (str "Tracer: response failed with ENOENT; perhaps target process's syscall was interrupted by signal?" ++ [newline])
      else perror strerror (str "ioctl-SECCOMP_IOCTL_NOTIF_SEND")))
      by (destruct (_ =? _); [apply silent_uprintf|apply silent_perror]).
    eapply post_mono; [| |exact (Hsil s2)]; [|done]. intros u4 s4 Hv4. unfold handled. fold p.
    rewrite Hv4, Hv. split; [done|by right].
Qed.

(** One round: the next one begins after a request was handled and the path is
    not "/bye"; an ending comes from that path, or nothing was done. *)
Lemma tracer_round_spec fd opts req0 path (s : S) : length path = PATH_MAX ->
  post (fun r s' => exists req path', r = inl (req, path') /\ length path' = PATH_MAX /\ handled req s s' /\
          req <> zero_notif /\ string_at (req_pid req) (req_arg0 req) <> str "/bye")
    (fun e s' => stops acts s e s' \/
       (e = EExit EXIT_FAILURE /\ exists req, handled req s s' /\ string_at (req_pid req) (req_arg0 req) = str "/bye"))
    (tracer_round strerror fd opts (req0, path) s).
Proof.
  intros Hlen. set (E := fun e s' => _ \/ _). unfold tracer_round. cbn [fst snd].
  assert (Hstop : forall s1, acts s1 = acts s -> forall e s', stops acts s1 e s' -> E e s')
    by (intros s1 Ha e s' Hs; left; by apply (stops_at acts s s1)).
  apply (tracer_call _ _ _ (fun req s' => nview s' = nview s /\ INT_MIN <= req_pid req <= INT_MAX /\ req <> zero_notif)); [by apply Hstop| |].
  { eapply post_mono; [| |apply (recv_spec fd req0 s)]; [|done]. intros [req|e] s1 [Hv Hr]; [done|].
    unfold acts. by rewrite Hv. }
  intros req s1 (Hv1 & Hpid & Hnz).
  apply then_silent; [apply silent_uprintf|]. intros _ s2 Hv2.
  apply then_silent; [apply silent_delay|]. intros _ s3 Hv3.
  assert (Ha3 : acts s3 = acts s) by (unfold acts; by rewrite Hv3, Hv2, Hv1).
  eapply (stops_then acts); [by apply Hstop|done|by apply tracer_path_spec|].
  intros path' s4 (Ha4 & Hlen' & ->). cbn [deref]. rewrite mret_bind.
  apply post_bind. eapply post_mono; [| |apply tracer_respond_spec]; [|done]. intros u5 s5 Hh.
  assert (Hh' : handled req s s5) by (eapply (handled_acts req s s4 s5); [congruence|done|exact Hh]).
  unfold streq. case_bool_decide as Hbye.
  - apply then_silent; [apply silent_uprintf|]. intros _ s6 Hv6. unfold c_exit, exit_, fflush_stdout. munfold.
    cbn [post]. right. split; [done|]. exists req. split; [|done].
    eapply (handled_acts req s s s5); [done| |exact Hh']. unfold acts. by rewrite nview_libc, Hv6.
  - cbn [post mret M_ret]. by exists req, path'.
Qed.

(** The directories of a list of requests that the tracer is to make. *)
Definition directories (reqs : list seccomp_notif) : list (bytes * Z) :=
  flat_map (fun req => let p := string_at (req_pid req) (req_arg0 req) in
                       if permitted p then [(p, req_arg1 req)] else []) reqs.
Definition handled_all (reqs : list seccomp_notif) (s s' : S) : Prop :=
  made (nview s') = made (nview s) ++ directories reqs /\
  exists ans, sublist ans (response <$> reqs) /\ answered (nview s') = answered (nview s) ++ ans.

Lemma handled_all_nil s s' : acts s' = acts s -> handled_all [] s s'.
Proof. intros [= H1 H2]. unfold handled_all. rewrite H1, H2. split; [by rewrite app_nil_r|]. exists []. by rewrite app_nil_r. Qed.

Lemma handled_all_cons req reqs s s1 s' : handled req s s1 -> handled_all reqs s1 s' -> handled_all (req :: reqs) s s'.
Proof.
  intros [Hm Ha] [Hms (ans & Hsub & Has)]. unfold handled_all. rewrite Hms, Hm, Has.
  split; [by rewrite <- app_assoc|]. destruct Ha as [->| ->].
  - exists (response req :: ans). split; [by constructor|]. by rewrite <- app_assoc.
  - exists ans. split; [by apply sublist_cons|done].
Qed.

Lemma handled_one req s s' : handled req s s' -> handled_all [req] s s'.
Proof. intros Hh. eapply handled_all_cons; [exact Hh|]. by apply handled_all_nil. Qed.

Lemma tracer_loop_spec fuel : forall fd opts req0 path (s : S), length path = PATH_MAX ->
  post (fun _ _ => False) (fun e s' => (e = EFuel \/ e = EExit EXIT_FAILURE \/ e = EAbort) /\
      exists reqs, handled_all reqs s s')
    (iter fuel (tracer_round strerror fd opts) (req0, path) s).
Proof.
  induction fuel as [|fuel IH]; intros fd opts req0 path s Hlen; cbn [iter].
  - simpl. split; [by left|]. exists []. by apply handled_all_nil.
  - apply post_bind. eapply post_mono; [| |by apply tracer_round_spec].
    + intros r s1 (req & path' & -> & Hlen' & Hh & _ & _). eapply post_mono; [| |by apply IH]; [done|].
      intros e s' [He (reqs & Hall)]. split; [done|]. exists (req :: reqs). by eapply handled_all_cons.
    + intros e s' [[He Ha]|[-> (req & Hh & _)]].
      * split; [tauto|]. exists []. by apply handled_all_nil.
      * split; [tauto|]. exists [req]. by apply handled_one.
Qed.

(** What comes before the loop does nothing. *)
Lemma watch_start fuel req0 path0 fd opts (s : S) (E : ending -> S -> Prop) :
  (forall e s', stops acts s e s' -> E e s') ->
  (forall s1, acts s1 = acts s ->
     post (fun _ _ => False) E (iter fuel (tracer_round strerror fd opts) (req0, path0) s1)) ->
  post (fun _ _ => False) E (watchForNotifications strerror fuel req0 path0 fd opts s).
Proof.
  intros HE Hk. unfold watchForNotifications.
  assert (Hstep : forall (m : M S (sysres unit)) msg (k : unit -> M S unit) s1, acts s1 = acts s -> silent m ->
    (forall s2, acts s2 = acts s -> post (fun _ _ => False) E (k tt s2)) ->
    post (fun _ _ => False) E ((a ← pchecked strerror m msg; k a) s1)).
  { intros m msg k s1 Ha Hm Hk'. apply (tracer_call _ _ _ (fun _ s' => acts s' = acts s1)).
    - intros e s' Hs. apply HE. by apply (stops_at acts s s1).
    - eapply post_mono; [| |apply Hm]; [|done]. intros [u|e] s2 Hv; unfold acts; by rewrite Hv.
    - intros [] s2 Ha2. apply Hk'. congruence. }
  apply (Hstep _ _ _ s); [done|intros s1; apply sizes_spec|]. intros s1 H1.
  apply (Hstep _ _ _ s1); [done|intros s2; apply nmalloc_spec|]. intros s2 H2.
  apply (Hstep _ _ _ s2); [done|intros s3; apply nmalloc_spec|]. exact Hk.
Qed.


Lemma strict_round fd opts req path (s : S) :
  (forall fd req s, req <> zero_notif -> n_notif_recv fd req s = (Done (SErr EINVAL), s)) -> req <> zero_notif ->
  post (fun _ _ => False) (stops acts s) (tracer_round strerror fd opts (req, path) s).
Proof.
  intros Hstrict Hnz. apply (tracer_call _ _ _ (fun _ _ => False)); [done| |done].
  cbn [fst]. by rewrite Hstrict.
Qed.

#[export] Instance notif_eq_dec : EqDecision seccomp_notif.
Proof. solve_decision. Defined.

(** The structure of a notification is not cleared before it is received into. On
    a kernel that insists on zeroes (Linux 5.5 and later), the tracer handles at most
    one request, and none if the fresh memory is not zero; its next call fails with
    EINVAL and it exits. *)
Theorem tracer_one_request fuel req0 path0 fd opts (s : S) : length path0 = PATH_MAX -> (2 <= fuel)%nat ->
  (forall fd req s, req <> zero_notif -> n_notif_recv fd req s = (Done (SErr EINVAL), s)) ->
  post (fun _ _ => False) (fun e s' => (e = EExit EXIT_FAILURE \/ e = EAbort) /\
      exists reqs, handled_all reqs s s' /\ (length reqs <= 1)%nat /\ (req0 <> zero_notif -> reqs = []))
    (watchForNotifications strerror fuel req0 path0 fd opts s).
Proof.
  intros Hlen Hfuel Hstrict. match goal with |- post _ ?E0 _ => set (E := E0) end.
  assert (HE : forall e s', stops acts s e s' -> E e s').
  { intros e s' [He Ha]. split; [tauto|]. exists []. split; [by apply handled_all_nil|by split; [simpl; lia|]]. }
  apply watch_start; [exact HE|]. intros s1 Ha1.
  destruct fuel as [|[|fuel]]; [lia..|]. cbn [iter]. apply post_bind.
  destruct (decide (req0 = zero_notif)) as [Hz|Hnz].
  - eapply post_mono; [| |by apply tracer_round_spec].
    + intros r s2 (req & path' & -> & Hlen' & Hh & Hnz & _). apply post_bind.
      eapply post_mono; [| |exact (strict_round fd opts req path' s2 Hstrict Hnz)]; [done|].
      intros e s' [He Ha]. split; [tauto|]. exists [req]. split; [|by split; [simpl; lia|]].
      apply handled_one. by apply (handled_acts req s s1 s2).
    + intros e s' [[He Ha]|[-> (req & Hh & _)]]; [apply HE; split; [done|congruence]|].
      split; [tauto|]. exists [req]. split; [|by split; [simpl; lia|]].
      apply handled_one. by apply (handled_acts req s s1 s').
  - eapply post_mono; [| |exact (strict_round fd opts req0 path0 s1 Hstrict Hnz)]; [done|].
    intros e s' Hs. apply HE. by apply (stops_at acts s s1).
Qed.
End tracer.

(** * A system on which the tracer runs *)

(** One descriptor for the memory of a target; the requests still to come; the
    kernel insists on a cleared structure. *)
Record ntoy := NToy { nt_view : notify_view; nt_requests : list seccomp_notif }.
Definition with_view (f : notify_view -> notify_view) (t : ntoy) : ntoy := NToy (f (nt_view t)) (nt_requests t).
Definition toy_string (pid a : Z) : bytes := if a =? 1 then str "/tmp/x" else if a =? 2 then str "/etc/x" else str "/bye".

#[export] Instance ntoy_os : NotifyOS (libc * ntoy) := {|
  n_fork := mret (SOk 1);
  n_sigaction_sigint := mret (SOk tt);
  n_mkdir p mode := fun '(l, t) => (Done (SErr EEXIST), (l, with_view (fun v =>
    NotifyView (made v ++ [(p, mode)]) (answered v) (mem_fds v)) t));
  n_mkdir_notified _ _ := mret (SErr ENOSYS);
  n_notif_sizes := mret (SOk tt);
  n_malloc := mret (SOk tt);
  n_notif_recv fd old := fun '(l, t) =>
    if bool_decide (old = zero_notif) then
      match nt_requests t with
      | req :: reqs =>
          if bool_decide (req = zero_notif) || negb ((INT_MIN <=? req_pid req) && (req_pid req <=? INT_MAX))
          then (Done (SErr EINVAL), (l, t))
          else (Done (SOk req), (l, NToy (nt_view t) reqs))
      | [] => (Done (SErr ENOENT), (l, t))
      end
    else (Done (SErr EINVAL), (l, t));
  n_notif_send fd resp := fun '(l, t) => (Done (SOk tt), (l, with_view (fun v =>
    NotifyView (made v) (answered v ++ [resp]) (mem_fds v)) t));
  n_notif_id_valid _ _ := mret (SOk tt);
  n_sleep _ := mret tt;
  n_open_mem name := fun '(l, t) => (Done (SOk 9), (l, with_view (fun v =>
    NotifyView (made v) (answered v) (<[9 := (atoi (drop 6 name), 0)]> (mem_fds v))) t));
  n_lseek fd off := fun '(l, t) =>
    match mem_fds (nt_view t) !! fd with
    | Some (pid, _) => (Done (SOk tt), (l, with_view (fun v =>
        NotifyView (made v) (answered v) (<[fd := (pid, off)]> (mem_fds v))) t))
    | None => (Done (SErr EBADF), (l, t))
    end;
  n_read fd n := fun '(l, t) =>
    match mem_fds (nt_view t) !! fd with
    | Some (pid, pos) => (Done (SOk (toy_string pid pos ++ [NUL])), (l, t))
    | None => (Done (SErr EBADF), (l, t))
    end;
  n_close fd := fun '(l, t) => (Done (SOk tt), (l, with_view (fun v =>
    NotifyView (made v) (answered v) (delete fd (mem_fds v))) t));
  n_socketpair := mret (SOk (3, 4));
  n_waitpid _ := mret tt;
  n_kill _ _ := mret tt;
  n_listener _ := mret (SOk 5)
|}.

#[export, refine] Instance ntoy_spec : NotifySpec (libc * ntoy) :=
  {| nview s := nt_view (snd s); string_at := toy_string |}.
Proof.
  - by intros l [].
  - intros pid a. unfold toy_string. repeat case_match; apply (bool_decide_unpack _); vm_compute; exact I.
  - intros fd old [l [v [|req reqs]]]; simpl; destruct (bool_decide (old = zero_notif)); try done.
    destruct (bool_decide (req = zero_notif)) eqn:Hz; simpl; [done|].
    destruct ((INT_MIN <=? req_pid req) && (req_pid req <=? INT_MAX)) eqn:Hr; simpl; [|done].
    apply bool_decide_eq_false in Hz. split; [done|]. split; [lia|done].
  - by intros fd id [].
  - by intros [].
  - by intros [].
  - by intros n [].
  - intros pid [l t] Hpid. assert (Ha : atoi (drop 6 (proc_mem pid)) = pid).
    { change (drop 6 (proc_mem pid)) with (print_dec pid ++ str "/mem"). by apply atoi_print. }
    unfold n_open_mem, ntoy_os. cbn [post]. by rewrite Ha.
  - intros fd off pid pos [l t] Hm. simpl in *. by rewrite Hm.
  - intros fd pid pos [l t] Hm. simpl in *. rewrite Hm. simpl. split; [done|]. right. exists [].
    split; [done|]. unfold toy_string, PATH_MAX. rewrite length_app. repeat case_match; simpl length; lia.
  - by intros fd [].
  - by intros p mode [].
  - by intros fd resp [].
Defined.

Definition ntoy0 : libc * ntoy :=
  (libc0, NToy (NotifyView [] [] ∅) [Notif 7 1234 1 448; Notif 8 1234 2 448]).


Lemma tracer_one_request_witness :
  exists reqs, (length reqs <= 1)%nat /\ handled_all reqs ntoy0
    (watchForNotifications (fun _ => []) 5 zero_notif (replicate PATH_MAX NUL) 5 (CmdLineOpts 0 (-1) true) ntoy0).2.
Proof.
  pose proof (tracer_one_request (fun _ => []) 5 zero_notif (replicate PATH_MAX NUL) 5
    (CmdLineOpts 0 (-1) true) ntoy0 (length_replicate _ _) ltac:(lia)) as H.
  specialize (H ltac:(intros fd req [l t] Hnz; simpl; by rewrite bool_decide_eq_false_2)).
  destruct (watchForNotifications _ _ _ _ _ _ _) as [[] s']; simpl in H |- *; try done;
    destruct H as (_ & reqs & Hr & Hl & _); by exists reqs.
Defined.
