(* ===== verification/Steps.v ===== *)
(** Transition systems: invariants by induction on a run, and termination of every
    run by a measure that the invariant bounds. *)
From S2P Require Import Prelude.
From stdpp Require Import relations.
#[local] Open Scope Z_scope.

Section steps.
Context {St : Type} (step : St -> St -> Prop) (I : St -> Prop).
Context (I_step : forall s s', I s -> step s s' -> I s').

Lemma reach_inv s s' : I s -> rtc step s s' -> I s'.
Proof. intros Hi Hr. induction Hr as [|s1 s2 s3 Hs _ IH]; [done|]. by eapply IH, I_step. Qed.

(** A measure that no step leaves unchanged or increases ends every run. *)
Lemma sn_measure (m : St -> Z) s :
  (forall s s', I s -> step s s' -> 0 <= m s' < m s) -> I s -> sn step s.
Proof.
  intros Hm. remember (Z.to_nat (m s)) as n eqn:Hn. revert s Hn.
  induction (lt_wf n) as [n _ IH]. intros s -> Hi. constructor. intros s' Hs.
  pose proof (Hm s s' Hi Hs). eapply IH; [|done|by eapply I_step]. lia.
Qed.
End steps.

(** * Sums over the threads of a process *)

Section sums.
Context {A : Type}.
Implicit Types (f : A -> Z) (l : list A).

Definition sumZ f l : Z := foldr (fun x n => f x + n) 0 l.

Lemma sumZ_nil f : sumZ f [] = 0.
Proof. done. Qed.
Lemma sumZ_cons f x l : sumZ f (x :: l) = f x + sumZ f l.
Proof. done. Qed.
Lemma sumZ_one f x : sumZ f [x] = f x.
Proof. unfold sumZ. simpl. lia. Qed.
Lemma sumZ_app f l1 l2 : sumZ f (l1 ++ l2) = sumZ f l1 + sumZ f l2.
Proof. induction l1 as [|x l1 IH]; simpl; [done|]. rewrite IH. lia. Qed.

(** One thread changes. *)
Lemma sumZ_insert f l i x y : l !! i = Some x -> sumZ f (<[i:=y]> l) = sumZ f l - f x + f y.
Proof.
  revert i. induction l as [|z l IH]; intros [|i] Hi; simpl in *; try done.
  - injection Hi as ->. lia.
  - rewrite (IH i Hi). lia.
Qed.

Lemma sumZ_nonneg f l : (forall x, x ∈ l -> 0 <= f x) -> 0 <= sumZ f l.
Proof.
  intros Hf. induction l as [|x l IH]; simpl; [done|].
  pose proof (Hf x ltac:(left)). assert (0 <= sumZ f l) by (apply IH; intros; apply Hf; by right). lia.
Qed.
Lemma sumZ_elem f l i x : (forall x, x ∈ l -> 0 <= f x) -> l !! i = Some x -> f x <= sumZ f l.
Proof.
  revert i. induction l as [|z l IH]; intros [|i] Hf Hi; simpl in *; try done.
  - injection Hi as ->. assert (0 <= sumZ f l) by (apply sumZ_nonneg; intros; apply Hf; by right). lia.
  - pose proof (Hf z ltac:(left)). assert (f x <= sumZ f l) by (apply (IH i); [intros; apply Hf; by right|done]). lia.
Qed.
Lemma sumZ_zero f l : (forall x, x ∈ l -> f x = 0) -> sumZ f l = 0.
Proof.
  intros Hf. induction l as [|x l IH]; simpl; [done|].
  rewrite (Hf x ltac:(left)), IH; [done|]. intros. apply Hf. by right.
Qed.
Lemma sumZ_pos f l : 0 < sumZ f l -> exists i x, l !! i = Some x /\ 0 < f x.
Proof.
  induction l as [|x l IH]; simpl; intros Hs; [done|]. destruct (Z.ltb_spec 0 (f x)).
  - by exists 0%nat, x.
  - destruct IH as (i & y & Hi & Hy); [lia|]. by exists (S i), y.
Qed.
Lemma sumZ_ext f g l : (forall x, x ∈ l -> f x = g x) -> sumZ f l = sumZ g l.
Proof.
  intros Hf. induction l as [|x l IH]; simpl; [done|].
  rewrite (Hf x ltac:(left)), IH; [done|]. intros. apply Hf. by right.
Qed.
End sums.
#[global] Arguments sumZ : simpl never.

(** A property of every thread, when one of them changes. *)
Lemma all_insert {A} (P : nat -> A -> Prop) (l : list A) i y :
  (forall k x, l !! k = Some x -> k <> i -> P k x) -> P i y -> forall k x, <[i:=y]> l !! k = Some x -> P k x.
Proof.
  intros Hl Hy k x Hk. apply list_lookup_insert_Some in Hk as [(<- & <- & _)|[Hne Hk]]; [done|]. by apply Hl.
Qed.
Lemma all_snoc {A} (P : nat -> A -> Prop) (l : list A) y :
  (forall k x, l !! k = Some x -> P k x) -> P (length l) y -> forall k x, (l ++ [y]) !! k = Some x -> P k x.
Proof. intros Hl Hy k x Hk. apply lookup_snoc_Some in Hk as [[_ Hk]|[-> <-]]; [by apply Hl|done]. Qed.

(** Closed lists without duplicates. *)
Ltac solve_NoDup := match goal with |- NoDup ?l => apply (bool_decide_eq_true_1 (NoDup l)); vm_compute; reflexivity end.

(** * Forward simulation *)

(** Every step of the first system is matched by steps of the second, and [R] is kept. *)
Section simulation.
Context {C A : Type} (cstep : C -> C -> Prop) (astep : A -> A -> Prop) (R : C -> A -> Prop).
Context (sim : forall c a c', R c a -> cstep c c' -> exists a', rtc astep a a' /\ R c' a').

Lemma simulation_rtc c a c' : R c a -> rtc cstep c c' -> exists a', rtc astep a a' /\ R c' a'.
Proof.
  intros Hr Hc. revert a Hr. induction Hc as [c|c c1 c2 Hs _ IH]; intros a Hr; [by exists a|].
  destruct (sim _ _ _ Hr Hs) as (a1 & Ha1 & Hr1). destruct (IH a1 Hr1) as (a2 & Ha2 & Hr2).
  exists a2. split; [by etrans|done].
Qed.
End simulation.

(** * Runs by a list of choices *)

(** A choice names the process that moves and how its call ends; one that is not possible
    in a state is skipped. *)
Section runs.
Context {L St : Type} (move : L -> St -> option St) (step : St -> St -> Prop).
Context (move_step : forall c s s', move c s = Some s' -> step s s').

Definition run_choices (l : list L) (s : St) : St := foldl (fun s c => default s (move c s)) s l.
Lemma run_choices_rtc l s : rtc step s (run_choices l s).
Proof.
  revert s. induction l as [|c l IH]; intros s; [done|]. cbn. destruct (move c s) as [s'|] eqn:Hs; cbn; [|apply IH].
  eapply rtc_l; [by eapply move_step|apply IH].
Qed.
End runs.

Lemma sumZ_fmap {A B} (f : B -> Z) (g : A -> B) l : sumZ f (g <$> l) = sumZ (fun x => f (g x)) l.
Proof. induction l as [|x l IH]; [done|]. rewrite fmap_cons, !sumZ_cons, IH. done. Qed.
Lemma sumZ_le {A} (f g : A -> Z) l : (forall x, x ∈ l -> f x <= g x) -> sumZ f l <= sumZ g l.
Proof.
  induction l as [|x l IH]; intros Hle; [done|]. rewrite !sumZ_cons. pose proof (Hle x ltac:(left)).
  assert (sumZ f l <= sumZ g l) by (apply IH; intros y Hy; apply Hle; by right). lia.
Qed.
(** As many as there are: all of them. *)
Lemma sumZ_full {A} (f : A -> Z) l : (forall x, f x <= 1) -> Z.of_nat (length l) <= sumZ f l -> forall x, x ∈ l -> f x = 1.
Proof.
  intros Hf Hl x (i & Hi)%list_elem_of_lookup. revert i Hi Hl.
  assert (Hle : forall l, sumZ f l <= Z.of_nat (length l)).
  { clear -Hf. induction l as [|y l IH]; [done|]. rewrite sumZ_cons. pose proof (Hf y). cbn [length]. lia. }
  induction l as [|y l IH]; intros [|i] Hi Hl; simplify_eq/=; rewrite sumZ_cons in Hl; pose proof (Hle l).
  - pose proof (Hf x). lia.
  - apply (IH i Hi). pose proof (Hf y). lia.
Qed.
Lemma sumZ_const {A} (f : A -> Z) l : (forall x, x ∈ l -> f x = 1) -> sumZ f l = Z.of_nat (length l).
Proof. induction l as [|y l IH]; intros Hf; [done|]. rewrite sumZ_cons, (Hf y), IH; [cbn; lia|intros x Hx; apply Hf; by right|left]. Qed.
