(* ===== verification/Locks.v ===== *)
(** The locks that threads share, as the calls on them behave: an interface, what a
    client may rely on, and the mutexes, spinlocks, read-write locks and semaphores
    of the POSIX threads and semaphores libraries as its instances. *)
From S2P Require Import Prelude CLib Sys Steps.
#[local] Open Scope Z_scope.

(** What a call on a lock does: it blocks, fails with an error number, or leaves
    the lock in a new state. *)
Inductive lockres (L : Type) := Blocks | Fails (e : Z) | Holds (l : L).
Arguments Blocks {L}.
Arguments Fails {L} e.
Arguments Holds {L} l.

Class LockOps (L : Type) := {
  lock_init : L;
  acquire : nat -> L -> lockres L;
  release : nat -> L -> lockres L
}.

#[global] Arguments acquire : simpl never.
#[global] Arguments release : simpl never.

(** A lock excludes: it can be taken exactly when it is free, and given back by the
    thread that has it. *)
Class LockSpec (L : Type) `{LockOps L} := {
  free : L -> Prop;
  owned : nat -> L -> Prop;
  free_init : free lock_init;
  acquire_free : forall t l, free l -> exists l', acquire t l = Holds l' /\ owned t l';
  acquire_owned : forall t u l, owned u l -> t <> u -> acquire t l = Blocks;
  release_owned : forall t l, owned t l -> exists l', release t l = Holds l' /\ free l'
}.

(** pthread_mutex_t, of type PTHREAD_MUTEX_DEFAULT: the owner. *)
Definition mutex : Type := option nat.
#[export] Instance mutex_ops : LockOps mutex := {|
  lock_init := None;
  acquire t l := match l with None => Holds (Some t) | Some _ => Blocks end;
  release t l := match l with Some o => if (o =? t)%nat then Holds None else Fails EPERM | None => Fails EPERM end
|}.
#[export, refine] Instance mutex_spec : LockSpec mutex := {| free l := l = None; owned t l := l = Some t |}.
Proof.
  - done.
  - intros t l ->. by eexists.
  - by intros t u l ->.
  - intros t l ->. unfold release. simpl. rewrite Nat.eqb_refl. by exists None.
Defined.

(** pthread_spinlock_t: locked or not. *)
Definition spinlock : Type := bool.
#[export] Instance spinlock_ops : LockOps spinlock := {|
  lock_init := false;
  acquire _ l := if l : bool then Blocks else Holds true;
  release _ l := Holds false
|}.
#[export, refine] Instance spinlock_spec : LockSpec spinlock := {| free l := l = false; owned _ l := l = true |}.
Proof.
  - done.
  - intros t l ->. by eexists.
  - by intros t u l ->.
  - intros t l ->. by exists false.
Defined.

(** pthread_rwlock_t, as a writer uses it: how many readers, and the writer. *)
Record rwlock := RwLock { rw_readers : nat; rw_writer : option nat }.
#[export] Instance rwlock_ops : LockOps rwlock := {|
  lock_init := RwLock 0 None;
  acquire t l := match rw_readers l, rw_writer l with O, None => Holds (RwLock 0 (Some t)) | _, _ => Blocks end;
  release t l := match rw_writer l with
                 | Some w => if (w =? t)%nat then Holds (RwLock (rw_readers l) None) else Fails EPERM
                 | None => match rw_readers l with O => Fails EPERM | S n => Holds (RwLock n None) end
                 end
|}.
#[export, refine] Instance rwlock_spec : LockSpec rwlock :=
  {| free l := l = RwLock 0 None; owned t l := l = RwLock 0 (Some t) |}.
Proof.
  - done.
  - intros t l ->. by eexists.
  - by intros t u l ->.
  - intros t l ->. unfold release. simpl. rewrite Nat.eqb_refl. by eexists.
Defined.

(** sem_t: the value; sem_wait() and sem_post(). *)
Definition semaphore : Type := nat.
#[export] Instance semaphore_ops : LockOps semaphore := {|
  lock_init := 1%nat;
  acquire _ l := match l with O => Blocks | S n => Holds n end;
  release _ l := Holds (S l)
|}.
#[export, refine] Instance semaphore_spec : LockSpec semaphore := {| free l := l = 1%nat; owned _ l := l = 0%nat |}.
Proof.
  - done.
  - intros t l ->. by eexists.
  - by intros t u l ->.
  - intros t l ->. by exists 1%nat.
Defined.

(** * Who has the mutex of main() and its threads *)

Lemma mutex_acquire t (m : mutex) :
  match acquire t m with
  | Blocks => exists u, m = Some u
  | Fails _ => False
  | Holds m' => m = None /\ m' = Some t
  end.
Proof. unfold acquire. by destruct m as [u|]; [exists u|]. Qed.
Lemma mutex_release t : release t (Some t : mutex) = Holds (None : mutex).
Proof. unfold release. simpl. by rewrite Nat.eqb_refl. Qed.

Section owner.
Context {W : Type} (inside : W -> bool).
Implicit Types (m : mutex) (ws : list W) (b : bool).

(** main() is thread 0, and [b] says whether it is between lock and unlock; the
    others are the threads from 1. *)
Definition owner_ok m ws b : Prop :=
  (b = true <-> m = Some 0%nat) /\
  (forall i w, ws !! i = Some w -> (inside w = true <-> m = Some (S i))) /\
  (forall i, m = Some (S i) -> (i < length ws)%nat).

Lemma owner_same m ws b i w w' : owner_ok m ws b -> ws !! i = Some w -> inside w' = inside w ->
  owner_ok m (<[i:=w']> ws) b.
Proof.
  intros (H0 & Hw & Hl) Hi Hin. split; [done|]. split; [|intros j Hj; rewrite length_insert; by apply Hl].
  apply (all_insert (fun k x => inside x = true <-> m = Some (S k))).
  - intros k x Hk _. by apply Hw.
  - rewrite Hin. by apply Hw.
Qed.

Lemma owner_lock ws b i w w' : owner_ok None ws b -> ws !! i = Some w -> inside w' = true ->
  owner_ok (Some (S i)) (<[i:=w']> ws) b.
Proof.
  intros (H0 & Hw & Hl) Hi Hin. split; [|split].
  - destruct b; [by destruct H0 as [H0 _]; specialize (H0 eq_refl)|done].
  - apply (all_insert (fun k x => inside x = true <-> Some (S i) = Some (S k))); [|done].
    intros k x Hk Hne. destruct (inside x) eqn:Hx; [|split; [done|congruence]].
    by apply (Hw k x Hk) in Hx.
  - intros j [= <-]. rewrite length_insert. by eapply lookup_lt_Some.
Qed.

Lemma owner_unlock m ws b i w w' : owner_ok m ws b -> ws !! i = Some w -> inside w = true -> inside w' = false ->
  m = Some (S i) /\ owner_ok None (<[i:=w']> ws) b.
Proof.
  intros (H0 & Hw & Hl) Hi Hin Hin'. assert (Hm : m = Some (S i)) by by apply (Hw i w).
  split; [done|]. split; [|split; [|done]].
  - destruct b; [|done]. destruct H0 as [H0 _]. specialize (H0 eq_refl). congruence.
  - apply (all_insert (fun k x => inside x = true <-> None = Some (S k))); [|by rewrite Hin'].
    intros k x Hk Hne. destruct (inside x) eqn:Hx; [|done]. apply (Hw k x Hk) in Hx. congruence.
Qed.

Lemma owner_main_lock ws b : owner_ok None ws b -> owner_ok (Some 0%nat) ws true.
Proof.
  intros (H0 & Hw & Hl). split; [done|]. split; [|done]. intros i w Hi. destruct (inside w) eqn:Hx; [|done].
  by apply (Hw i w Hi) in Hx.
Qed.
Lemma owner_main_unlock m ws : owner_ok m ws true -> m = Some 0%nat /\ owner_ok None ws false.
Proof.
  intros (H0 & Hw & Hl). assert (Hm : m = Some 0%nat) by by apply H0. split; [done|]. split; [done|].
  split; [|done]. intros i w Hi. destruct (inside w) eqn:Hx; [|done]. apply (Hw i w Hi) in Hx. congruence.
Qed.
Lemma owner_main_outside m ws : owner_ok m ws false -> m <> Some 0%nat.
Proof. intros (H0 & _) Hm. by apply H0 in Hm. Qed.
(** While main() is inside, no thread is. *)
Lemma owner_main_alone m ws i w : owner_ok m ws true -> ws !! i = Some w -> inside w = false.
Proof.
  intros (H0 & Hw & _) Hi. destruct (inside w) eqn:Hx; [|done]. apply (Hw i w Hi) in Hx.
  destruct H0 as [H0 _]. specialize (H0 eq_refl). congruence.
Qed.

(** A thread is created outside. *)
Lemma owner_snoc m ws b w : owner_ok m ws b -> inside w = false -> owner_ok m (ws ++ [w]) b.
Proof.
  intros (H0 & Hw & Hl) Hin. split; [done|]. split.
  - apply (all_snoc (fun k x => inside x = true <-> m = Some (S k))); [done|]. rewrite Hin.
    split; [done|]. intros Hm. apply Hl in Hm. lia.
  - intros i Hi. rewrite length_app. apply Hl in Hi. lia.
Qed.

(** A mutex that is not free has an owner inside. *)
Lemma owner_taken m ws b u : owner_ok m ws b -> m = Some u ->
  b = true \/ exists i w, ws !! i = Some w /\ inside w = true.
Proof.
  intros (H0 & Hw & Hl) ->. destruct u as [|i]; [left; by apply H0|right].
  destruct (lookup_lt_is_Some_2 ws i) as [w Hi]; [by apply Hl|]. exists i, w. split; [done|]. by apply (Hw i w Hi).
Qed.
End owner.
