(* ===== verification/ThreadIncr.v ===== *)
(** Two threads that increment a variable: book-src/threads/thread_incr.c, without
    synchronisation, and thread_incr_mutex.c, thread_incr_spinlock.c,
    thread_incr_rwlock.c and book-src/psem/thread_incr_psem.c, with one kind of
    lock each. Each thread, main() included, is a step function; the programs'
    interleavings are a relation on the state they share. *)
From S2P Require Import Prelude CLib Sys Steps Locks.
From stdpp Require Import relations.
#[local] Open Scope Z_scope.

(** * The threads *)

(** Where a thread is: not created, about to test the loop's condition and lock, to
    read [glob], to add one to [loc], to write it back, to unlock, in errExitEN()
    after a failed call, or at its end. *)
Inductive pc := P_none | P_lock | P_read | P_incr | P_write | P_unlock | P_err (e : Z) | P_done.
#[export] Instance pc_eq_dec : EqDecision pc.
Proof. solve_decision. Defined.
Record thread := Thread { t_pc : pc; t_j : Z; t_loc : Z }.
Definition not_created : thread := Thread P_none 0 0.
Definition created : thread := Thread P_lock 0 0.

Section locked.
Context {L : Type} `{LockOps L}.

(** One step of thread [t] on [glob] and the lock; [None] while it blocks. *)
(** Source: book-src/threads/thread_incr_mutex.c:26-47 (threadFunc). *)
Definition threadFunc_step (loops : Z) (t : nat) (glob : Z) (lk : L) (th : thread) : option (Z * L * thread) :=
  match t_pc th with
  | P_lock =>
      if t_j th <? loops then
        match acquire t lk with
        | Blocks => None
        | Fails e => Some (glob, lk, Thread (P_err e) (t_j th) (t_loc th))
        | Holds lk' => Some (glob, lk', Thread P_read (t_j th) (t_loc th))
        end
      else Some (glob, lk, Thread P_done (t_j th) (t_loc th))
  | P_read => Some (glob, lk, Thread P_incr (t_j th) glob)
  | P_incr => Some (glob, lk, Thread P_write (t_j th) (i32 (t_loc th + 1)))
  | P_write => Some (t_loc th, lk, Thread P_unlock (t_j th) (t_loc th))
  | P_unlock =>
      match release t lk with
      | Blocks => None
      | Fails e => Some (glob, lk, Thread (P_err e) (t_j th) (t_loc th))
      | Holds lk' => Some (glob, lk', Thread P_lock (t_j th + 1) (t_loc th))
      end
  | P_none | P_err _ | P_done => None
  end.
End locked.

(** The loop of thread_incr.c has no lock. *)
(** Source: book-src/threads/thread_incr.c:26-39 (threadFunc). *)
Definition unlocked_step (loops : Z) (_ : nat) (glob : Z) (lk : unit) (th : thread) : option (Z * unit * thread) :=
  match t_pc th with
  | P_lock => Some (glob, lk, Thread (if t_j th <? loops then P_read else P_done) (t_j th) (t_loc th))
  | P_read => Some (glob, lk, Thread P_incr (t_j th) glob)
  | P_incr => Some (glob, lk, Thread P_write (t_j th) (i32 (t_loc th + 1)))
  | P_write => Some (t_loc th, lk, Thread P_lock (t_j th + 1) (t_loc th))
  | _ => None
  end.

(** * The programs *)

(** main(): its next call, or how the process ended and what printf() wrote. *)
Inductive mpc := M_create1 | M_create2 | M_join1 | M_join2 | M_printf | M_exit (status : Z) (out : bytes).
Record state (L : Type) := State { glob : Z; lock : L; th1 : thread; th2 : thread; main : mpc }.
Arguments State {L} glob lock th1 th2 main.
Arguments glob {L} s.
Arguments lock {L} s.
Arguments th1 {L} s.
Arguments th2 {L} s.
Arguments main {L} s.

(** A program: the lock's initial value and the code of its threads. *)
Record program (L : Type) := Program {
  p_lock : L;
  p_thread : nat -> Z -> L -> thread -> option (Z * L * thread)
}.
Arguments Program {L} p_lock p_thread.
Arguments p_lock {L} p.
Arguments p_thread {L} p t g l th.

(** The statement of main() that is next; pthread_create() succeeds or fails. *)
(** Source: book-src/threads/thread_incr_mutex.c:57-72 (main, threads). *)
Definition main_step {L} (created_ok : bool) (s : state L) : option (state L) :=
  match main s with
  | M_create1 => Some (if created_ok then State (glob s) (lock s) created (th2 s) M_create2
                       else State (glob s) (lock s) (th1 s) (th2 s) (M_exit EXIT_FAILURE []))
  | M_create2 => Some (if created_ok then State (glob s) (lock s) (th1 s) created M_join1
                       else State (glob s) (lock s) (th1 s) (th2 s) (M_exit EXIT_FAILURE []))
  | M_join1 => if t_pc (th1 s) is P_done then Some (State (glob s) (lock s) (th1 s) (th2 s) M_join2) else None
  | M_join2 => if t_pc (th2 s) is P_done then Some (State (glob s) (lock s) (th1 s) (th2 s) M_printf) else None
  | M_printf => Some (State (glob s) (lock s) (th1 s) (th2 s)
                        (M_exit EXIT_SUCCESS (str "glob = " ++ print_dec (glob s) ++ [newline])))
  | M_exit _ _ => None
  end.

(** errExitEN() in a thread ends the process. *)
Definition after_thread (th : thread) (m : mpc) : mpc :=
  if t_pc th is P_err _ then M_exit EXIT_FAILURE [] else m.
Definition ended (m : mpc) : bool := if m is M_exit _ _ then true else false.

(** A process that has not ended moves by one of its threads. *)
Inductive step {L} (p : program L) : state L -> state L -> Prop :=
| step1 g l a b m g' l' a' : ended m = false -> p_thread p 1 g l a = Some (g', l', a') ->
    step p (State g l a b m) (State g' l' a' b (after_thread a' m))
| step2 g l a b m g' l' b' : ended m = false -> p_thread p 2 g l b = Some (g', l', b') ->
    step p (State g l a b m) (State g' l' a b' (after_thread b' m))
| step_main s ok s' : main_step ok s = Some s' -> step p s s'.

Definition start {L} (p : program L) : state L := State 0 (p_lock p) not_created not_created M_create1.

(** Source: book-src/threads/thread_incr_mutex.c:49-73 (main). *)
Definition thread_incr_mutex (loops : Z) : program mutex := Program lock_init (threadFunc_step loops).
(** Source: book-src/threads/thread_incr_spinlock.c:26-77 (main, threadFunc). *)
Definition thread_incr_spinlock (loops : Z) : program spinlock := Program lock_init (threadFunc_step loops).
(** Source: book-src/threads/thread_incr_rwlock.c:26-77 (main, threadFunc). *)
Definition thread_incr_rwlock (loops : Z) : program rwlock := Program lock_init (threadFunc_step loops).
(** Source: book-src/psem/thread_incr_psem.c:27-81 (main, threadFunc). *)
Definition thread_incr_psem (loops : Z) : program semaphore := Program lock_init (threadFunc_step loops).
(** Source: book-src/threads/thread_incr.c:41-65 (main). *)
Definition thread_incr (loops : Z) : program unit := Program tt (unlocked_step loops).

(** * What is common to the five programs *)

Definition printed (g : Z) : bytes := str "glob = " ++ print_dec g ++ [newline].
Definition joined {L} (s : state L) : Prop := t_pc (th1 s) = P_done /\ t_pc (th2 s) = P_done.
(** Not blocked for want of anything but a lock. *)
Definition live (th : thread) : Prop := t_pc th <> P_none /\ t_pc th <> P_done.
#[export] Instance live_dec th : Decision (live th).
Proof. destruct th as [[] ? ?]; solve [left; done|right; intros []; done]. Defined.

(** Where main() is says what the threads are. *)
Definition main_ok {L} (s : state L) : Prop :=
  match main s with
  | M_create1 => th1 s = not_created /\ th2 s = not_created
  | M_create2 => t_pc (th1 s) <> P_none /\ th2 s = not_created
  | M_join1 => t_pc (th1 s) <> P_none /\ t_pc (th2 s) <> P_none
  | M_join2 => t_pc (th1 s) = P_done /\ t_pc (th2 s) <> P_none
  | M_printf => joined s
  | M_exit st out => (st = EXIT_SUCCESS /\ joined s /\ out = printed (glob s)) \/
                     (st = EXIT_FAILURE /\ th2 s = not_created)
  end.

Definition left_in_round (p : pc) : Z :=
  match p with P_none | P_lock => 5 | P_read => 4 | P_incr => 3 | P_write => 2 | P_unlock | P_done => 1 | P_err _ => 0 end.
Definition main_left (m : mpc) : Z :=
  match m with M_create1 => 5 | M_create2 => 4 | M_join1 => 3 | M_join2 => 2 | M_printf => 1 | M_exit _ _ => 0 end.

Section program.
Context {L : Type} (p : program L) (loops : Z).
(** What the threads maintain, symmetric in the two. *)
Context (TI : nat -> nat -> Z -> L -> thread -> thread -> Prop).
Context (TI_swap : forall t u g l a b, TI t u g l a b -> TI u t g l b a).
Context (TI_start : TI 1 2 0 (p_lock p) not_created not_created).
Context (TI_create : forall t u g l b, TI t u g l not_created b -> TI t u g l created b).
Context (TI_step : forall t u g l a b g' l' a', TI t u g l a b -> p_thread p t g l a = Some (g', l', a') -> TI t u g' l' a' b).
Context (TI_bound : forall t u g l a b, TI t u g l a b -> t_j a <= loops /\ forall e, t_pc a <> P_err e).
Context (TI_live : forall g l a b, TI 1 2 g l a b -> live a \/ live b ->
  exists r, p_thread p 1 g l a = Some r \/ p_thread p 2 g l b = Some r).

Definition todo (th : thread) : Z := 5 * (loops - t_j th) + left_in_round (t_pc th).
Definition measure (s : state L) : Z := todo (th1 s) + todo (th2 s) + main_left (main s).

Context (thread_live : forall t g l a g' l' a', p_thread p t g l a = Some (g', l', a') ->
  live a /\ t_pc a' <> P_none /\ todo a' < todo a).

Definition Inv (s : state L) : Prop := TI 1 2 (glob s) (lock s) (th1 s) (th2 s) /\ main_ok s.

Lemma after_ok t u g l a b m : TI t u g l a b -> after_thread a m = m.
Proof. intros Ht. unfold after_thread. destruct (TI_bound _ _ _ _ _ _ Ht) as [_ He]. by destruct (t_pc a) eqn:Hp; try done; destruct (He e). Qed.

Lemma live_not_created a : live a -> a <> not_created.
Proof. by intros [] ->. Qed.

Lemma ti_Inv_step s s' : Inv s -> step p s s' -> Inv s'.
Proof.
  intros [Ht Hm] Hs. destruct Hs as [g l a b m g' l' a' He Hs|g l a b m g' l' b' He Hs|s ok s' Hs]; cbn in *.
  - pose proof (TI_step _ _ _ _ _ _ _ _ _ Ht Hs) as Ht'.
    rewrite (after_ok _ _ _ _ _ _ m Ht'). split; [done|]. apply thread_live in Hs as (Hl & Hn & _).
    unfold main_ok, joined in *; cbn in *. destruct m; try done; cbn in *; destruct Hl, Hm; subst; done.
  - apply TI_swap in Ht. pose proof (TI_step _ _ _ _ _ _ _ _ _ Ht Hs) as Ht'.
    rewrite (after_ok _ _ _ _ _ _ m Ht'). split; [by apply TI_swap|]. apply thread_live in Hs as (Hl & Hn & _).
    unfold main_ok, joined in *; cbn in *. destruct m; try done; cbn in *; destruct Hl, Hm; subst; done.
  - destruct s as [g l a b m]. unfold main_step, main_ok, Inv, joined in *. cbn in *. destruct m; cbn in *; try done.
    + destruct Hm as [-> ->]. destruct ok; injection Hs as <-; cbn; [|by auto].
      split; [by apply TI_create|done].
    + destruct Hm as [Hm ->]. destruct ok; injection Hs as <-; cbn; [|by auto].
      split; [by apply TI_swap, TI_create, TI_swap|done].
    + destruct (t_pc a) eqn:Hp; try done. injection Hs as <-. cbn. by destruct Hm.
    + destruct (t_pc b) eqn:Hp; try done. injection Hs as <-. cbn. by destruct Hm.
    + injection Hs as <-. cbn. split; [done|]. by left.
Qed.

Lemma ti_Inv_start : Inv (start p).
Proof. done. Qed.
Lemma Inv_reach s : rtc (step p) (start p) s -> Inv s.
Proof. apply (reach_inv (step p) Inv ti_Inv_step _ _ ti_Inv_start). Qed.

Lemma ti_step_measure s s' : Inv s -> step p s s' -> 0 <= measure s' < measure s.
Proof.
  intros Hi Hs. split.
  - destruct (ti_Inv_step _ _ Hi Hs) as [Ht _]. pose proof (TI_bound _ _ _ _ _ _ Ht) as [Ha _].
    apply TI_swap in Ht. pose proof (TI_bound _ _ _ _ _ _ Ht) as [Hb _]. unfold measure, todo.
    assert (forall q, 0 <= left_in_round q) by (by intros []). assert (forall q, 0 <= main_left q) by (by intros []).
    pose proof (H (t_pc (th1 s'))). pose proof (H (t_pc (th2 s'))). specialize (H0 (main s')). lia.
  - destruct Hs as [g l a b m g' l' a' He Hs|g l a b m g' l' b' He Hs|s ok s' Hs].
    + pose proof (TI_step _ _ _ _ _ _ _ _ _ (proj1 Hi) Hs) as Ht'. apply thread_live in Hs as (_ & _ & Hd).
      unfold measure. cbn [th1 th2 main] in *. rewrite (after_ok _ _ _ _ _ _ m Ht'). lia.
    + pose proof (TI_step _ _ _ _ _ _ _ _ _ (TI_swap _ _ _ _ _ _ (proj1 Hi)) Hs) as Ht'.
      apply thread_live in Hs as (_ & _ & Hd). unfold measure. cbn [th1 th2 main] in *. rewrite (after_ok _ _ _ _ _ _ m Ht'). lia.
    + assert (Hc : todo created = todo not_created) by done.
      destruct Hi as [_ Hm]. destruct s as [g l a b m]. unfold main_step, measure, main_ok in *. cbn in *.
      destruct m; try done; cbn in *.
      * destruct Hm as [-> ->]. destruct ok; injection Hs as <-; cbn; lia.
      * destruct Hm as [? ->]. destruct ok; injection Hs as <-; cbn; lia.
      * destruct (t_pc a); try done. injection Hs as <-. cbn. lia.
      * destruct (t_pc b); try done. injection Hs as <-. cbn. lia.
      * injection Hs as <-. cbn. lia.
Qed.

(** The process moves until main() has ended it. *)
Lemma ti_progress s : Inv s -> ended (main s) = false -> exists s', step p s s'.
Proof.
  destruct s as [g l a b m]. intros [Ht Hm] He. cbn in *.
  destruct (decide (live a \/ live b)) as [Hl|Hl].
  - destruct (TI_live _ _ _ _ Ht Hl) as ([[g' l'] x] & [Hs|Hs]).
    + eexists. by apply step1.
    + eexists. by apply step2.
  - assert (Hd : forall th, ~ live th -> t_pc th <> P_none -> t_pc th = P_done).
    { intros th Hn Hp. destruct (decide (t_pc th = P_done)) as [->|Hx]; [done|]. by destruct Hn. }
    unfold main_ok, joined in Hm. cbn in *.
    destruct m; try done; (eexists; eapply (step_main p _ true); unfold main_step; cbn; try done).
    + by rewrite (Hd a) by tauto.
    + by rewrite (Hd b) by tauto.
Qed.

(** Every run ends, and only as main() says. *)
Lemma program_runs : sn (step p) (start p) /\
  forall s, rtc (step p) (start p) s -> Inv s /\ (ended (main s) = true \/ exists s', step p s s').
Proof.
  split.
  - apply (sn_measure (step p) Inv ti_Inv_step measure); [|apply ti_Inv_start]. intros. by apply ti_step_measure.
  - intros s Hr. pose proof (Inv_reach s Hr) as Hi. split; [done|].
    destruct (ended (main s)) eqn:He; [by left|right]. by apply ti_progress.
Qed.
End program.

(** * With a lock *)

Section locked_correct.
Context {L : Type} `{HL : LockOps L} `{HS : !LockSpec L}.
Context (loops : Z) (Hloops : 0 <= loops /\ 2 * loops <= INT_MAX).

Definition inside (th : thread) : bool :=
  match t_pc th with P_read | P_incr | P_write | P_unlock => true | _ => false end.
(** How many increments a thread has made. *)
Definition writes (th : thread) : Z := match t_pc th with P_unlock => t_j th + 1 | _ => t_j th end.

Definition thread_ok (g : Z) (th : thread) : Prop :=
  0 <= t_j th <= loops /\ (inside th = true -> t_j th < loops) /\
  match t_pc th with
  | P_incr => t_loc th = g
  | P_write => t_loc th = g + 1
  | P_done => t_j th = loops
  | P_err _ => False
  | _ => True
  end.

(** The lock is free when no thread is inside, and belongs to the one that is. *)
Definition locked_inv (t u : nat) (g : Z) (lk : L) (a b : thread) : Prop :=
  t <> u /\ thread_ok g a /\ thread_ok g b /\ g = writes a + writes b /\
  match inside a, inside b with
  | false, false => free lk
  | true, false => owned t lk
  | false, true => owned u lk
  | true, true => False
  end.

Lemma locked_swap t u g lk a b : locked_inv t u g lk a b -> locked_inv u t g lk b a.
Proof. intros (Htu & Ha & Hb & Hg & Hl). split_and!; [done|done|done|lia|]. by destruct (inside a), (inside b). Qed.

Lemma locked_start : locked_inv 1 2 0 lock_init not_created not_created.
Proof. unfold locked_inv, thread_ok. cbn. split_and!; try done; try lia. apply free_init. Qed.
Lemma locked_create t u g lk b : locked_inv t u g lk not_created b -> locked_inv t u g lk created b.
Proof. done. Qed.

(** The other thread does not look at [glob] while it is outside. *)
Lemma outside_ok g g' b : inside b = false -> thread_ok g b -> thread_ok g' b.
Proof. destruct b as [[] j l]; unfold thread_ok; cbn; try done; tauto. Qed.
Lemma thread_ok_writes g a : thread_ok g a -> inside a = false -> 0 <= writes a <= loops.
Proof. destruct a as [[] j l]; unfold thread_ok, writes; cbn; try done; tauto. Qed.

Lemma locked_step t u g lk a b g' lk' a' : locked_inv t u g lk a b ->
  threadFunc_step loops t g lk a = Some (g', lk', a') -> locked_inv t u g' lk' a' b.
Proof.
  intros (Htu & Ha & Hb & Hg & Hl) Hs.
  destruct (inside a) eqn:Hina.
  - destruct (inside b) eqn:Hinb; [done|].
    assert (Hb' : forall g', thread_ok g' b) by (intros ?; by eapply outside_ok).
    pose proof (thread_ok_writes g b Hb Hinb) as Hw.
    unfold locked_inv. rewrite Hinb. destruct a as [p j l]. destruct Ha as (Hj & Hin & Hx). specialize (Hin Hina).
    unfold threadFunc_step in Hs. unfold thread_ok at 1. cbn in *.
    destruct p; try done; cbn in *.
    + injection Hs as <- <- <-. cbn. auto 10 with lia.
    + injection Hs as <- <- <-. cbn. subst l. rewrite i32_id by (unfold INT_MIN, INT_MAX in *; lia). auto 10 with lia.
    + injection Hs as <- <- <-. cbn. subst l. auto 10 with lia.
    + destruct (release_owned t lk Hl) as (l1 & Hrel & Hfree). rewrite Hrel in Hs. cbn in Hs.
      injection Hs as <- <- <-. cbn. split_and!; (apply Hb' || done || lia).
  - destruct a as [p j l]. unfold threadFunc_step in Hs. cbn in *. destruct p; try done; cbn in *.
    destruct Ha as (Hj & _). cbn in Hj. destruct (Z.ltb_spec j loops) as [Hlt|Hge].
    + destruct (inside b) eqn:Hinb; [by rewrite (acquire_owned t u lk Hl Htu) in Hs|].
      destruct (acquire_free t lk Hl) as (l1 & Hacq & Hown). rewrite Hacq in Hs. injection Hs as <- <- <-.
      unfold locked_inv. rewrite Hinb. unfold thread_ok at 1. cbn. auto 10 with lia.
    + injection Hs as <- <- <-. unfold locked_inv. unfold thread_ok at 1. cbn. auto 10 with lia.
Qed.

Lemma locked_bound t u g l a b : locked_inv t u g l a b -> t_j a <= loops /\ forall e, t_pc a <> P_err e.
Proof.
  intros (_ & (Hj & _ & Hx) & _). split; [lia|]. intros e He. by rewrite He in Hx.
Qed.

(** A thread outside can move when the lock is free, one inside always. *)
Lemma ti_thread_moves t g lk a : live a -> (forall e, t_pc a <> P_err e) -> (if inside a then owned t lk else free lk) ->
  exists r, threadFunc_step loops t g lk a = Some r.
Proof.
  destruct a as [p j l]. unfold threadFunc_step, inside, live. cbn. intros [Hp1 Hp2] He Hl.
  destruct p; try done; try (by eexists).
  - destruct (j <? loops); [|by eexists]. destruct (acquire_free t lk Hl) as (l' & -> & _). by eexists.
  - destruct (release_owned t lk Hl) as (l' & -> & _). by eexists.
  - by destruct (He e).
Qed.

Lemma locked_live g lk a b : locked_inv 1 2 g lk a b -> live a \/ live b ->
  exists r, threadFunc_step loops 1 g lk a = Some r \/ threadFunc_step loops 2 g lk b = Some r.
Proof.
  intros Hi Hl. destruct (locked_bound _ _ _ _ _ _ Hi) as [_ Hea].
  destruct (locked_bound _ _ _ _ _ _ (locked_swap _ _ _ _ _ _ Hi)) as [_ Heb]. destruct Hi as (_ & _ & _ & _ & Hk).
  assert (Hin : forall th, inside th = true -> live th) by (intros [[] ? ?]; done).
  destruct (inside a) eqn:Hia.
  - destruct (inside b) eqn:Hib; [done|]. destruct (ti_thread_moves 1 g lk a) as [r Hr]; [by apply Hin|done|by rewrite Hia|].
    exists r. by left.
  - destruct (decide (live b)) as [Hb|Hb].
    + destruct (ti_thread_moves 2 g lk b) as [r Hr]; [done|done|by destruct (inside b)|]. exists r. by right.
    + assert (Ha : live a) by tauto. destruct (inside b) eqn:Hib; [by destruct Hb; apply Hin|].
      destruct (ti_thread_moves 1 g lk a) as [r Hr]; [done|done|by rewrite Hia|]. exists r. by left.
Qed.

Lemma locked_thread t g lk a g' lk' a' : threadFunc_step loops t g lk a = Some (g', lk', a') ->
  live a /\ t_pc a' <> P_none /\ todo loops a' < todo loops a.
Proof.
  destruct a as [p j l]. unfold threadFunc_step, todo, live. cbn. intros Hs. destruct p; cbn in Hs; try done.
  - destruct (j <? loops); [destruct (acquire t lk); try done|]; injection Hs as _ _ <-; cbn; split_and!; (done || lia).
  - injection Hs as _ _ <-; cbn; split_and!; (done || lia).
  - injection Hs as _ _ <-; cbn; split_and!; (done || lia).
  - injection Hs as _ _ <-; cbn; split_and!; (done || lia).
  - destruct (release t lk); try done; injection Hs as _ _ <-; cbn; split_and!; (done || lia).
Qed.

(** What a locked program does: every run ends; never are both threads between lock
    and unlock; and main() writes [2 * loops], unless pthread_create() failed. *)
Definition counts_right (p : program L) : Prop :=
  sn (step p) (start p) /\
  forall s, rtc (step p) (start p) s ->
    inside (th1 s) && inside (th2 s) = false /\
    match main s with
    | M_exit st out => (st = EXIT_SUCCESS /\ out = printed (2 * loops)) \/ (st = EXIT_FAILURE /\ th2 s = not_created)
    | _ => exists s', step p s s'
    end.

Lemma locked_counts : counts_right (Program lock_init (threadFunc_step loops)).
Proof.
  destruct (program_runs (Program lock_init (threadFunc_step loops)) loops locked_inv locked_swap locked_start
              locked_create locked_step locked_bound locked_live locked_thread) as [Hsn Hr].
  split; [exact Hsn|]. intros s Hs. destruct (Hr s Hs) as [[Hi Hm] Hp].
  destruct Hi as (_ & Ha & Hb & Hg & Hk). split.
  - destruct (inside (th1 s)), (inside (th2 s)); done.
  - unfold main_ok in Hm. destruct (main s); try (destruct Hp; done).
    destruct Hm as [(-> & [H1 H2] & ->)|Hm]; [left|by right]. split; [done|]. f_equal.
    unfold thread_ok, writes in *. rewrite H1 in *. rewrite H2 in *. lia.
Qed.
End locked_correct.
Arguments counts_right {L} loops p.

(** C23: Mutual exclusion and termination of the four locked programs. With loops
    threads for which twice the count fits an int, whatever the scheduler does: every
    run ends; the two threads are never both between lock and unlock; a run that is not
    over can go on (no deadlock, and no thread blocked for ever); no lock or unlock
    call fails; and the run ends with main() writing glob = 2 * loops, no update lost,
    or with main() giving up because pthread_create() failed. *)
Theorem thread_incr_locked_correct loops (Hloops : 0 < loops /\ 2 * loops <= INT_MAX) :
  counts_right loops (thread_incr_mutex loops) /\ counts_right loops (thread_incr_spinlock loops) /\
  counts_right loops (thread_incr_rwlock loops) /\ counts_right loops (thread_incr_psem loops).
Proof. split_and!; apply locked_counts; lia. Qed.

Lemma thread_incr_locked_correct_witness :
  counts_right 1000 (thread_incr_mutex 1000) /\ counts_right 1000 (thread_incr_spinlock 1000) /\
  counts_right 1000 (thread_incr_rwlock 1000) /\ counts_right 1000 (thread_incr_psem 1000).
Proof. apply (thread_incr_locked_correct 1000). done. Defined.

(** * Without a lock *)

Section unlocked.
Context (loops : Z) (Hloops : 0 <= loops /\ 2 * loops <= INT_MAX).

(** [w] increments have been written by the two threads together. *)
Definition racing_ok (w : Z) (th : thread) : Prop :=
  0 <= t_j th <= loops /\
  match t_pc th with
  | P_none | P_lock => True
  | P_read => t_j th < loops
  | P_incr => t_j th < loops /\ 0 <= t_loc th <= w /\ (1 <= t_j th -> 1 <= t_loc th)
  | P_write => t_j th < loops /\ 1 <= t_loc th <= w + 1 /\ (1 <= t_j th -> 2 <= t_loc th)
  | P_done => t_j th = loops
  | P_unlock | P_err _ => False
  end.

Definition racing_inv (t u : nat) (g : Z) (lk : unit) (a b : thread) : Prop :=
  racing_ok (t_j a + t_j b) a /\ racing_ok (t_j a + t_j b) b /\
  0 <= g <= t_j a + t_j b /\ (1 <= t_j a + t_j b -> 1 <= g) /\
  (2 <= loops -> t_j a = loops -> t_j b = loops -> 2 <= g).

Lemma racing_swap t u g lk a b : racing_inv t u g lk a b -> racing_inv u t g lk b a.
Proof using. unfold racing_inv. rewrite (Z.add_comm (t_j b)). by intros (Ha & Hb & Hg & Hg1 & Hf); repeat (split; [done|]); auto. Qed.
Lemma racing_start : racing_inv 1 2 0 tt not_created not_created.
Proof. unfold racing_inv, racing_ok. cbn. lia. Qed.
Lemma racing_create t u g lk b : racing_inv t u g lk not_created b -> racing_inv t u g lk created b.
Proof using. done. Qed.

Lemma racing_ok_mono w w' th : w <= w' -> racing_ok w th -> racing_ok w' th.
Proof using. destruct th as [[] j l]; unfold racing_ok; cbn; lia. Qed.

Lemma racing_step t u g lk a b g' lk' a' : racing_inv t u g lk a b ->
  unlocked_step loops t g lk a = Some (g', lk', a') -> racing_inv t u g' lk' a' b.
Proof.
  intros (Ha & Hb & Hg & Hg1 & Hf) Hs. assert (Hjb : 0 <= t_j b <= loops) by apply Hb.
  destruct a as [p j l]. unfold unlocked_step in Hs. destruct Ha as [Hj Hx]. cbn in *.
  destruct p; try done; cbn in *.
  - destruct (Z.ltb_spec j loops); injection Hs as <- <- <-; unfold racing_inv; unfold racing_ok at 1; cbn; auto 10 with lia.
  - injection Hs as <- <- <-. unfold racing_inv. unfold racing_ok at 1. cbn. auto 10 with lia.
  - injection Hs as <- <- <-. rewrite i32_id by (unfold INT_MIN, INT_MAX in *; lia).
    unfold racing_inv. unfold racing_ok at 1. cbn. auto 10 with lia.
  - injection Hs as <- <- <-. unfold racing_inv. unfold racing_ok at 1. cbn.
    split; [lia|]. split; [|lia]. eapply racing_ok_mono; [|done]. lia.
Qed.

Lemma racing_bound t u g l a b : racing_inv t u g l a b -> t_j a <= loops /\ forall e, t_pc a <> P_err e.
Proof using. intros ((Hj & Hx) & _). split; [lia|]. intros e He. by rewrite He in Hx. Qed.

Lemma racing_moves t u g lk a b : racing_inv t u g lk a b -> live a -> exists r, unlocked_step loops t g lk a = Some r.
Proof using. intros ((_ & Hx) & _) [Hl1 Hl2]. destruct a as [[] j l]; cbn in *; try done; by eexists. Qed.
Lemma racing_live g lk a b : racing_inv 1 2 g lk a b -> live a \/ live b ->
  exists r, unlocked_step loops 1 g lk a = Some r \/ unlocked_step loops 2 g lk b = Some r.
Proof using.
  intros Hi [Hl|Hl].
  - destruct (racing_moves _ _ _ _ _ _ Hi Hl) as [r Hr]. exists r. by left.
  - destruct (racing_moves _ _ _ _ _ _ (racing_swap _ _ _ _ _ _ Hi) Hl) as [r Hr]. exists r. by right.
Qed.

Lemma racing_thread t g lk a g' lk' a' : unlocked_step loops t g lk a = Some (g', lk', a') ->
  live a /\ t_pc a' <> P_none /\ todo loops a' < todo loops a.
Proof using.
  destruct a as [p j l]. unfold unlocked_step, todo, live. cbn. intros Hs. destruct p; cbn in Hs; try done;
    injection Hs as _ _ <-; cbn; try destruct (j <? loops); cbn; split_and!; (done || lia).
Qed.

(** ** Runs of one thread, and what they make of the process *)

Definition alone (x y : Z * thread) : Prop := unlocked_step loops 0 x.1 tt x.2 = Some (y.1, tt, y.2).

Lemma alone_no_err g a y : alone (g, a) y -> forall m, after_thread y.2 m = m.
Proof using.
  unfold alone, unlocked_step. destruct a as [[] j l]; cbn; intros Hs m; try done;
    injection Hs as _ <-; cbn; try destruct (j <? loops); done.
Qed.
Lemma alone1 m b x y : ended m = false -> rtc alone x y ->
  rtc (step (thread_incr loops)) (State x.1 tt x.2 b m) (State y.1 tt y.2 b m).
Proof using.
  intros He Hr. induction Hr as [x|[g a] [g1 a1] y Hs _ IH]; [done|]. eapply rtc_l; [|exact IH]. cbn.
  pose proof (alone_no_err g a _ Hs m) as Hm. rewrite <- Hm at 2. by apply step1.
Qed.
Lemma alone2 m a x y : ended m = false -> rtc alone x y ->
  rtc (step (thread_incr loops)) (State x.1 tt a x.2 m) (State y.1 tt a y.2 m).
Proof using.
  intros He Hr. induction Hr as [x|[g b] [g1 b1] y Hs _ IH]; [done|]. eapply rtc_l; [|exact IH]. cbn.
  pose proof (alone_no_err g b _ Hs m) as Hm. rewrite <- Hm at 2. by apply step2.
Qed.

(** A step from known places, evaluated. *)
Ltac go := eapply (rtc_l _ _ (_, _)); [unfold alone, unlocked_step; cbn; try rewrite (proj2 (Z.ltb_lt _ _)) by lia;
                          try rewrite i32_id by (unfold INT_MIN, INT_MAX in *; lia); reflexivity|cbn].

Lemma alone_iter k j g l : 0 <= g -> g + Z.of_nat k <= INT_MAX -> 0 <= j -> j + Z.of_nat k <= loops ->
  exists l', rtc alone (g, Thread P_lock j l) (g + Z.of_nat k, Thread P_lock (j + Z.of_nat k) l').
Proof.
  revert j g l. induction k as [|k IH]; intros j g l Hg Hgk Hj Hjk.
  - exists l. by rewrite !Z.add_0_r.
  - destruct (IH (j + 1) (g + 1) (g + 1)) as [l' Hr]; try lia. exists l'.
    replace (g + Z.of_nat (S k)) with (g + 1 + Z.of_nat k) by lia.
    replace (j + Z.of_nat (S k)) with (j + 1 + Z.of_nat k) by lia.
    go. go. go. go. exact Hr.
Qed.

Lemma alone_finish j g l : loops <= j -> rtc alone (g, Thread P_lock j l) (g, Thread P_done j l).
Proof using.
  intros Hj. apply rtc_once. unfold alone, unlocked_step. cbn.
  by rewrite (proj2 (Z.ltb_ge _ _)) by lia.
Qed.

Lemma both_started : rtc (step (thread_incr loops)) (start (thread_incr loops)) (State 0 tt created created M_join1).
Proof using.
  eapply rtc_l; [by apply (step_main _ _ true)|]. eapply rtc_l; [by apply (step_main _ _ true)|]. done.
Qed.
Lemma both_joined g j1 l1 j2 l2 : rtc (step (thread_incr loops))
  (State g tt (Thread P_done j1 l1) (Thread P_done j2 l2) M_join1)
  (State g tt (Thread P_done j1 l1) (Thread P_done j2 l2) (M_exit EXIT_SUCCESS (printed g))).
Proof using. do 3 (eapply rtc_l; [by apply (step_main _ _ true)|]). done. Qed.

(** What main() may write at the end of a run. *)
Definition may_print (g : Z) : Prop :=
  exists s, rtc (step (thread_incr loops)) (start (thread_incr loops)) s /\ main s = M_exit EXIT_SUCCESS (printed g).

(** One thread after the other loses nothing. *)
Lemma may_print_all : may_print (2 * loops).
Proof.
  destruct (alone_iter (Z.to_nat loops) 0 0 0) as [l1 H1]; try lia.
  destruct (alone_iter (Z.to_nat loops) 0 loops 0) as [l2 H2]; try lia.
  rewrite Z2Nat.id, !Z.add_0_l in H1, H2 by lia.
  eexists. split; [|shelve]. etransitivity; [exact both_started|].
  etransitivity; [exact (alone1 M_join1 _ _ _ eq_refl H1)|].
  etransitivity; [exact (alone1 M_join1 _ _ _ eq_refl (alone_finish loops loops l1 ltac:(lia)))|].
  etransitivity; [exact (alone2 M_join1 _ _ _ eq_refl H2)|].
  etransitivity; [exact (alone2 M_join1 _ _ _ eq_refl (alone_finish loops (loops + loops) l2 ltac:(lia)))|].
  apply both_joined. Unshelve. cbn. by replace (loops + loops) with (2 * loops) by lia.
Qed.

(** A thread reads 0 at its first round, and writes 1 when the other has but one round
    left; the other reads this 1, and writes 2 when everything else is over. *)
Lemma may_print_2 : 2 <= loops -> may_print 2.
Proof.
  intros H2. set (k := Z.to_nat (loops - 1)). assert (Hk : Z.of_nat k = loops - 1) by lia.
  destruct (alone_iter k 0 0 0) as [l2 Hb]; try lia. destruct (alone_iter k 1 1 1) as [l1 Ha]; try lia.
  rewrite Hk in Ha, Hb. rewrite !Z.add_0_l in Hb.
  replace (1 + (loops - 1)) with loops in Ha by lia.
  assert (A1 : rtc alone (0, created) (0, Thread P_incr 0 0)) by (go; go; done).
  assert (A2 : rtc alone (loops - 1, Thread P_incr 0 0) (1, Thread P_lock 1 1)) by (go; go; done).
  assert (B1 : rtc alone (1, Thread P_lock (loops - 1) l2) (1, Thread P_incr (loops - 1) 1)) by (go; go; done).
  assert (B2 : rtc alone (loops, Thread P_incr (loops - 1) 1) (2, Thread P_lock loops 2)).
  { go. go. by replace (loops - 1 + 1) with loops by lia. }
  eexists. split; [|shelve]. etransitivity; [exact both_started|].
  etransitivity; [exact (alone1 M_join1 _ _ _ eq_refl A1)|]. etransitivity; [exact (alone2 M_join1 _ _ _ eq_refl Hb)|].
  etransitivity; [exact (alone1 M_join1 _ _ _ eq_refl A2)|]. etransitivity; [exact (alone2 M_join1 _ _ _ eq_refl B1)|].
  etransitivity; [exact (alone1 M_join1 _ _ _ eq_refl Ha)|].
  etransitivity; [exact (alone1 M_join1 _ _ _ eq_refl (alone_finish loops loops l1 ltac:(lia)))|].
  etransitivity; [exact (alone2 M_join1 _ _ _ eq_refl B2)|].
  etransitivity; [exact (alone2 M_join1 _ _ _ eq_refl (alone_finish loops 2 2 ltac:(lia)))|].
  apply both_joined. Unshelve. done.
Qed.
End unlocked.

(** C34: What "updates are sometimes lost" amounts to. Every run of thread_incr ends, and
    what it writes is at most 2 * loops and at least 2 (at least 1 for one loop); both
    bounds are attained, so that with any number of loops all but two of the
    increments can be lost. *)
Theorem thread_incr_bounds loops (Hloops : 0 < loops /\ 2 * loops <= INT_MAX) :
  sn (step (thread_incr loops)) (start (thread_incr loops)) /\
  (forall s out, rtc (step (thread_incr loops)) (start (thread_incr loops)) s -> main s = M_exit EXIT_SUCCESS out ->
     exists g, out = printed g /\ Z.min 2 loops <= g <= 2 * loops) /\
  may_print loops (2 * loops) /\ (2 <= loops -> may_print loops 2).
Proof.
  assert (Hl : 0 <= loops /\ 2 * loops <= INT_MAX) by lia.
  destruct (program_runs (thread_incr loops) loops (racing_inv loops) (racing_swap loops) (racing_start loops Hl)
              (racing_create loops) (racing_step loops Hl) (racing_bound loops) (racing_live loops)
              (racing_thread loops)) as [Hsn Hr].
  split_and!; [exact Hsn| |by apply may_print_all|by apply may_print_2].
  intros s out Hs He. destruct (Hr s Hs) as [[((_ & Ha) & (_ & Hb) & Hg & Hg1 & Hf) Hm] _].
  unfold main_ok in Hm. rewrite He in Hm. destruct Hm as [(_ & [H1 H2] & ->)|[? _]]; [|done].
  exists (glob s). split; [done|]. rewrite H1 in Ha. rewrite H2 in Hb. lia.
Qed.

Lemma thread_incr_bounds_witness : may_print 5 2 /\ may_print 5 10.
Proof. destruct (thread_incr_bounds 5) as (_ & _ & Hmax & Hmin); [done|]. split; [by apply Hmin|exact Hmax]. Defined.
