(* ===== verification/ProdCons.v ===== *)
(** Producers and a consumer: book-src/threads/prod_condvar.c, where main() waits on a
    condition variable for units that threads produce, and prod_no_condvar.c, where
    it polls. Every access to what the threads share is a step, and so is every call
    on the mutex and the condition variable. *)
From S2P Require Import Prelude CLib Sys Steps Locks.
From stdpp Require Import relations.
#[local] Open Scope Z_scope.

(** * State *)

(** A producer: before the loop's condition (and sleep()), about to lock, to add one
    to [avail], to unlock, to signal; at its end; in errExitEN(). *)
Inductive wpc := W_loop | W_lock | W_incr | W_unlock | W_signal | W_done | W_err (e : Z).
#[export] Instance wpc_eq_dec : EqDecision wpc.
Proof. solve_decision. Defined.
Record worker := Worker { w_pc : wpc; w_cnt : Z; w_j : Z }.

(** main(): creating threads; at the top of its loop, about to lock; testing
    [avail == 0] with the mutex; inside pthread_cond_wait(); consuming; about to
    unlock; testing [done]; ended. *)
Inductive cpc := C_create | C_lock | C_test | C_wait | C_consume | C_unlock | C_check | C_exit (status : Z).
#[export] Instance cpc_eq_dec : EqDecision cpc.
Proof. solve_decision. Defined.
(** [c_out]: the values of [numConsumed] that have been printed. *)
Record consumer := Consumer {
  c_pc : cpc; c_j : nat; totRequired : Z; numConsumed : Z; c_done : bool; c_out : list Z
}.

(** [waiting]: main() is on the condition variable's queue, where nobody else ever is.
    [spurious]: how many times it will be woken up without a signal. *)
Record pstate := PState {
  avail : Z; mtx : mutex; waiting : bool; spurious : nat; workers : list worker; cons : consumer
}.
Definition with_cons (c : consumer) (s : pstate) : pstate :=
  PState (avail s) (mtx s) (waiting s) (spurious s) (workers s) c.
Definition with_cpc (p : cpc) (s : pstate) : pstate :=
  let c := cons s in
  with_cons (Consumer p (c_j c) (totRequired c) (numConsumed c) (c_done c) (c_out c)) s.
Definition with_mtx (m : mutex) (s : pstate) : pstate :=
  PState (avail s) m (waiting s) (spurious s) (workers s) (cons s).
Definition with_waiting (b : bool) (s : pstate) : pstate :=
  PState (avail s) (mtx s) b (spurious s) (workers s) (cons s).
Definition with_avail (n : Z) (s : pstate) : pstate :=
  PState n (mtx s) (waiting s) (spurious s) (workers s) (cons s).
Definition with_worker (i : nat) (w : worker) (s : pstate) : pstate :=
  PState (avail s) (mtx s) (waiting s) (spurious s) (<[i:=w]> (workers s)) (cons s).

(** [s = call(...); if (s != 0) errExitEN(s, ...)] of main(), thread 0: the rest of
    the program, the end of the process, or nothing while the call blocks. *)
Definition main_call (r : lockres mutex) (s : pstate) (k : pstate -> pstate) : option pstate :=
  match r with
  | Blocks => None
  | Fails _ => Some (with_cpc (C_exit EXIT_FAILURE) s)
  | Holds m => Some (k (with_mtx m s))
  end.
(** The same in a producer. *)
Definition worker_call (i : nat) (w : worker) (r : lockres mutex) (s : pstate) (k : pstate -> pstate) : option pstate :=
  match r with
  | Blocks => None
  | Fails e => Some (with_cpc (C_exit EXIT_FAILURE) (with_worker i (Worker (W_err e) (w_cnt w) (w_j w)) s))
  | Holds m => Some (k (with_mtx m s))
  end.

(** * Steps *)

Section program.
(** Whether the program has the condition variable. *)
Context (cv : bool).

(** Producer [i], thread [i + 1]. *)
(** Source: book-src/threads/prod_condvar.c:26-53 (threadFunc). *)
Definition threadFunc_step (i : nat) (s : pstate) : option pstate :=
  w ← workers s !! i;
  let goto p s := with_worker i (Worker p (w_cnt w) (w_j w)) s in
  let next s := with_worker i (Worker W_loop (w_cnt w) (w_j w + 1)) s in
  match w_pc w with
  | W_loop => Some (goto (if w_j w <? w_cnt w then W_lock else W_done) s)
  | W_lock => worker_call i w (acquire (S i) (mtx s)) s (goto W_incr)
  | W_incr => Some (goto W_unlock (with_avail (i32 (avail s + 1)) s))
  | W_unlock => worker_call i w (release (S i) (mtx s)) s (if cv then goto W_signal else next)
  | W_signal => Some (next (with_waiting false s))
  | W_done | W_err _ => None
  end.

(** main(); [ok] is whether pthread_create() succeeds. *)
(** Source: book-src/threads/prod_condvar.c:55-121 (main). *)
Definition main_step (args : list bytes) (ok : bool) (s : pstate) : option pstate :=
  let c := cons s in
  match c_pc c with
  | C_create =>
      match args !! c_j c with
      | None => Some (with_cons (Consumer C_lock (c_j c) (totRequired c) 0 false (c_out c)) s)
      | Some a =>
          let c' := Consumer C_create (S (c_j c)) (i32 (totRequired c + atoi a)) (numConsumed c) (c_done c) (c_out c) in
          Some (if ok then PState (avail s) (mtx s) (waiting s) (spurious s)
                                  (workers s ++ [Worker W_loop (atoi a) 0]) c'
                else with_cpc (C_exit EXIT_FAILURE) s)
      end
  | C_lock => main_call (acquire 0 (mtx s)) s (with_cpc (if cv then C_test else C_consume))
  | C_test =>
      if avail s =? 0 then main_call (release 0 (mtx s)) s (fun s => with_cpc C_wait (with_waiting true s))
      else Some (with_cpc C_consume s)
  | C_wait => if waiting s then None else main_call (acquire 0 (mtx s)) s (with_cpc C_test)
  | C_consume =>
      if 0 <? avail s then
        let n := i32 (numConsumed c + 1) in
        Some (with_cons (Consumer C_consume (c_j c) (totRequired c) n (totRequired c <=? n) (c_out c ++ [n]))
                        (with_avail (avail s - 1) s))
      else Some (with_cpc C_unlock s)
  | C_unlock => main_call (release 0 (mtx s)) s (with_cpc C_check)
  | C_check => Some (with_cpc (if c_done c then C_exit EXIT_SUCCESS else C_lock) s)
  | C_exit _ => None
  end.

Definition exited (s : pstate) : bool := if c_pc (cons s) is C_exit _ then true else false.

Inductive step (args : list bytes) : pstate -> pstate -> Prop :=
| step_worker s i s' : exited s = false -> threadFunc_step i s = Some s' -> step args s s'
| step_main s ok s' : main_step args ok s = Some s' -> step args s s'
| step_wakeup s n : exited s = false -> waiting s = true -> spurious s = S n ->
    step args s (PState (avail s) (mtx s) false n (workers s) (cons s)).

(** The process at the start of main(), with [n] spurious wake-ups to come. *)
Definition start (n : nat) : pstate := PState 0 lock_init false n [] (Consumer C_create 0 0 0 false []).
End program.

(** Source: book-src/threads/prod_condvar.c:55-121 (main). *)
Definition prod_condvar (args : list bytes) : pstate -> pstate -> Prop := step true args.
(** Source: book-src/threads/prod_no_condvar.c:28-111 (main, threadFunc). *)
Definition prod_no_condvar (args : list bytes) : pstate -> pstate -> Prop := step false args.

(** * The invariant *)

Section correct.
Context (cv : bool) (args : list bytes).
(** What the producers produce together. *)
Definition total : Z := sumZ atoi args.
Context (args_nonneg : forall a, a ∈ args -> 0 <= atoi a) (total_range : 0 < total /\ total <= INT_MAX).

(** The units a producer has still to add. *)
Definition remaining (w : worker) : Z :=
  match w_pc w with W_unlock | W_signal => w_cnt w - w_j w - 1 | _ => w_cnt w - w_j w end.
Definition w_inside (w : worker) : bool := match w_pc w with W_incr | W_unlock => true | _ => false end.
(** Between adding a unit and telling main(). *)
Definition telling (w : worker) : bool := match w_pc w with W_unlock | W_signal => true | _ => false end.
Definition worker_ok (w : worker) : Prop :=
  0 <= w_j w <= w_cnt w /\
  match w_pc w with
  | W_loop => True
  | W_lock | W_incr | W_unlock => w_j w < w_cnt w
  | W_signal => w_j w < w_cnt w /\ cv = true
  | W_done => w_j w = w_cnt w
  | W_err _ => False
  end.
Definition c_inside (p : cpc) : bool := match p with C_test | C_consume | C_unlock => true | _ => false end.

Definition pc_ok (s : pstate) : Prop :=
  let c := cons s in
  match c_pc c with
  | C_create => numConsumed c = 0
  | C_lock => numConsumed c < total
  | C_test | C_wait => numConsumed c < total /\ cv = true
  | C_exit st => (st = EXIT_SUCCESS /\ numConsumed c = total) \/ (st = EXIT_FAILURE /\ (c_j c < length args)%nat)
  | _ => True
  end /\
  match c_pc c with
  | C_create => True
  | C_exit st => st = EXIT_SUCCESS -> c_j c = length args
  | _ => c_j c = length args /\ c_done c = (total <=? numConsumed c)
  end.

Record Inv (s : pstate) : Prop := {
  i_args : (c_j (cons s) <= length args)%nat /\ w_cnt <$> workers s = take (c_j (cons s)) (atoi <$> args);
  i_tot : totRequired (cons s) = sumZ w_cnt (workers s);
  i_workers : forall i w, workers s !! i = Some w -> worker_ok w;
  i_owner : owner_ok w_inside (mtx s) (workers s) (c_inside (c_pc (cons s)));
  i_nonneg : 0 <= avail s /\ 0 <= numConsumed (cons s);
  i_units : numConsumed (cons s) + avail s + sumZ remaining (workers s) = sumZ w_cnt (workers s);
  i_out : c_out (cons s) = seqZ 1 (numConsumed (cons s));
  i_pc : pc_ok s;
  (* no wake-up is lost *)
  i_wait : waiting s = true -> c_pc (cons s) = C_wait /\
           (avail s = 0 \/ exists i w, workers s !! i = Some w /\ telling w = true)
}.

Lemma pc_Inv_start n : Inv (start n).
Proof. split; cbn; try done; try lia. split; [lia|done]. Qed.

(** ** The producers *)

Lemma remaining_nonneg s w : Inv s -> w ∈ workers s -> 0 <= remaining w.
Proof.
  intros Hi (i & Hw)%list_elem_of_lookup. pose proof (i_workers _ Hi i w Hw) as [Hj Hx].
  unfold remaining. destruct (w_pc w); lia.
Qed.
Lemma sumZ_cnt ws : sumZ w_cnt ws = sumZ id (w_cnt <$> ws).
Proof. induction ws as [|w ws IH]; [done|]. by rewrite fmap_cons, !sumZ_cons, IH. Qed.
Lemma total_split k : total = sumZ id (take k (atoi <$> args)) + sumZ id (drop k (atoi <$> args)).
Proof.
  rewrite <- sumZ_app, take_drop. unfold total. clear.
  induction args as [|a l IH]; [done|]. by rewrite fmap_cons, !sumZ_cons, IH.
Qed.
(** The units of the threads created so far, and of all. *)
Lemma created_total s : Inv s -> sumZ w_cnt (workers s) <= total.
Proof.
  intros Hi. destruct (i_args _ Hi) as [_ Ha]. rewrite sumZ_cnt, Ha, (total_split (c_j (cons s))).
  assert (0 <= sumZ id (drop (c_j (cons s)) (atoi <$> args))); [|lia].
  apply sumZ_nonneg. intros x Hx. apply subseteq_drop, list_elem_of_fmap in Hx as (x' & -> & Hx). by apply args_nonneg.
Qed.
Lemma all_total s : Inv s -> c_j (cons s) = length args -> sumZ w_cnt (workers s) = total.
Proof.
  intros Hi Hj. destruct (i_args _ Hi) as [_ Ha].
  rewrite sumZ_cnt, Ha, (total_split (c_j (cons s))), Hj, (drop_ge (atoi <$> args)), sumZ_nil by (by rewrite length_fmap).
  lia.
Qed.
Lemma units_bounds s : Inv s -> 0 <= sumZ remaining (workers s) /\ numConsumed (cons s) + avail s <= total.
Proof.
  intros Hi. assert (0 <= sumZ remaining (workers s)) by (apply sumZ_nonneg; intros; by eapply remaining_nonneg).
  pose proof (i_units _ Hi). pose proof (created_total s Hi). lia.
Qed.

(** A producer moves: what it must keep. *)
Lemma Inv_worker s i w w' a m b : Inv s -> workers s !! i = Some w ->
  w_cnt w' = w_cnt w -> worker_ok w' -> 0 <= a -> a + remaining w' = avail s + remaining w ->
  owner_ok w_inside m (<[i:=w']> (workers s)) (c_inside (c_pc (cons s))) ->
  (b = true -> waiting s = true /\ (telling w' = true \/ (telling w = false /\ a = avail s))) ->
  Inv (PState a m b (spurious s) (<[i:=w']> (workers s)) (cons s)).
Proof.
  intros Hi Hw Hc Hok Ha Hr Ho Hb. split; cbn [avail mtx waiting spurious workers cons].
  - destruct (i_args _ Hi) as [Hj Hcn]. split; [done|]. rewrite <- Hcn, list_fmap_insert, Hc.
    apply list_insert_id. by rewrite list_lookup_fmap, Hw.
  - rewrite (sumZ_insert _ _ _ w) by done. rewrite (i_tot _ Hi). lia.
  - apply (all_insert (fun _ => worker_ok)); [|done]. intros k x Hk _. by apply (i_workers _ Hi k x).
  - done.
  - split; [done|]. apply (i_nonneg _ Hi).
  - rewrite !(sumZ_insert _ _ _ w) by done. pose proof (i_units _ Hi). lia.
  - apply (i_out _ Hi).
  - apply (i_pc _ Hi).
  - intros ->. destruct (Hb eq_refl) as [Hwt Hx]. destruct (i_wait _ Hi Hwt) as [Hp Hy]. split; [done|].
    destruct Hx as [Ht|[Ht ->]].
    + right. exists i, w'. split; [|done]. apply list_lookup_insert_eq. by eapply lookup_lt_Some.
    + destruct Hy as [Hy|(k & x & Hk & Hx)]; [by left|right]. exists k, x. split; [|done].
      rewrite list_lookup_insert_ne; [done|]. intros ->. congruence.
Qed.

Lemma not_waiting s : Inv s -> cv = false -> waiting s = false.
Proof.
  intros Hi Hcv. destruct (waiting s) eqn:Hw; [|done]. destruct (i_wait _ Hi Hw) as [Hp _].
  destruct (i_pc _ Hi) as [Hx _]. rewrite Hp in Hx. destruct Hx. congruence.
Qed.

Lemma pc_Inv_threadFunc s i s' : Inv s -> threadFunc_step cv i s = Some s' -> Inv s'.
Proof.
  intros Hi Hs. unfold threadFunc_step in Hs. destruct (workers s !! i) as [w|] eqn:Hw; [|done]. cbn in Hs.
  pose proof (i_workers _ Hi i w Hw) as [Hj Hx]. pose proof (i_owner _ Hi) as Ho. destruct w as [p cnt j]. cbn in *.
  pose proof (fun w' a m b => Inv_worker s i _ w' a m b Hi Hw) as Hgo.
  pose proof (units_bounds s Hi) as [_ Hub]. destruct (i_nonneg _ Hi) as [Hav Hnc].
  assert (Hrem : remaining (Worker p cnt j) <= sumZ remaining (workers s)).
  { eapply sumZ_elem; [|done]. intros. by eapply remaining_nonneg. }
  pose proof (i_units _ Hi). pose proof (created_total s Hi). unfold remaining in *. cbn in *.
  destruct p; try done; cbn in *.
  - injection Hs as <-. destruct (Z.ltb_spec j cnt); apply Hgo; unfold worker_ok; cbn; auto with lia;
      by eapply owner_same.
  - pose proof (mutex_acquire (S i) (mtx s)) as Ha. unfold worker_call in Hs.
    destruct (acquire (S i) (mtx s)) as [| |m']; [done|done|]. destruct Ha as [Hm ->]. injection Hs as <-.
    apply Hgo; unfold worker_ok; cbn; auto with lia. rewrite Hm in Ho. by eapply owner_lock.
  - injection Hs as <-. rewrite i32_id by (unfold INT_MIN, INT_MAX in *; lia).
    apply Hgo; unfold worker_ok; cbn; auto with lia. by eapply owner_same.
  - destruct (owner_unlock w_inside _ _ _ _ _ (Worker (if cv then W_signal else W_loop) cnt (if cv then j else j + 1)) Ho Hw) as [Hm Ho'];
      [done|by destruct cv|]. unfold worker_call in Hs. rewrite Hm, mutex_release in Hs. injection Hs as <-.
    destruct cv eqn:Hcv; apply Hgo; unfold worker_ok; cbn; auto with lia.
    intros Hwt. cbn in Hwt. by rewrite (not_waiting s Hi Hcv) in Hwt.
  - injection Hs as <-. apply Hgo; unfold worker_ok; cbn; auto with lia; try done. by eapply owner_same.
Qed.

(** ** main() *)

Lemma Inv_main s c a m b : Inv s ->
  c_j c = c_j (cons s) -> totRequired c = totRequired (cons s) -> c_out c = seqZ 1 (numConsumed c) ->
  0 <= a -> 0 <= numConsumed c -> numConsumed c + a = numConsumed (cons s) + avail s ->
  owner_ok w_inside m (workers s) (c_inside (c_pc c)) ->
  pc_ok (PState a m b (spurious s) (workers s) c) ->
  (b = true -> c_pc c = C_wait /\ (a = 0 \/ exists i w, workers s !! i = Some w /\ telling w = true)) ->
  Inv (PState a m b (spurious s) (workers s) c).
Proof.
  intros Hi Hj Ht Hout Ha Hn Hu Ho Hp Hb. split; cbn [avail mtx waiting spurious workers cons]; try done.
  - rewrite Hj. apply (i_args _ Hi).
  - rewrite Ht. apply (i_tot _ Hi).
  - apply (i_workers _ Hi).
  - pose proof (i_units _ Hi). lia.
Qed.
(** main() only goes elsewhere, and leaves the queue of the condition variable. *)
Lemma pc_Inv_goto s p m : Inv s -> owner_ok w_inside m (workers s) (c_inside p) ->
  pc_ok (with_cpc p (with_mtx m s)) -> waiting s = false -> Inv (with_cpc p (with_mtx m s)).
Proof.
  intros Hi Ho Hp Hw. destruct (i_nonneg _ Hi). apply (Inv_main s); try done; try lia.
  - apply (i_out _ Hi).
  - cbn. by rewrite Hw.
Qed.
Lemma pc_awake s p : Inv s -> c_pc (cons s) = p -> p <> C_wait -> waiting s = false.
Proof. intros Hi <- Hne. destruct (waiting s) eqn:Hw; [|done]. by destruct (i_wait _ Hi Hw). Qed.

Lemma pc_Inv_create s a : Inv s -> c_pc (cons s) = C_create -> args !! c_j (cons s) = Some a ->
  let c := cons s in
  Inv (PState (avail s) (mtx s) (waiting s) (spurious s) (workers s ++ [Worker W_loop (atoi a) 0])
         (Consumer C_create (S (c_j c)) (i32 (totRequired c + atoi a)) (numConsumed c) (c_done c) (c_out c))).
Proof.
  intros Hi Hp Ha c. pose proof (args_nonneg a ltac:(by eapply list_elem_of_lookup_2)) as Hpos.
  pose proof (pc_awake s _ Hi Hp ltac:(done)) as Hw.
  assert (Hargs : (w_cnt <$> workers s ++ [Worker W_loop (atoi a) 0]) = take (S (c_j (cons s))) (atoi <$> args)).
  { destruct (i_args _ Hi) as [_ Hc]. rewrite fmap_app, Hc. erewrite take_S_r; [done|].
    by rewrite list_lookup_fmap, Ha. }
  assert (Hsum : sumZ w_cnt (workers s ++ [Worker W_loop (atoi a) 0]) <= total).
  { rewrite sumZ_cnt, Hargs, (total_split (S (c_j (cons s)))).
    assert (0 <= sumZ id (drop (S (c_j (cons s))) (atoi <$> args))); [|lia].
    apply sumZ_nonneg. intros x Hx. apply subseteq_drop, list_elem_of_fmap in Hx as (x' & -> & Hx). by apply args_nonneg. }
  pose proof (i_tot _ Hi) as Ht. rewrite sumZ_app, sumZ_one in Hsum. cbn in Hsum.
  assert (0 <= sumZ w_cnt (workers s)).
  { apply sumZ_nonneg. intros w (i & Hi')%list_elem_of_lookup. pose proof (i_workers _ Hi i w Hi') as [? _]. lia. }
  split; unfold c; cbn [avail mtx waiting spurious workers cons c_pc c_j totRequired numConsumed c_done c_out].
  - split; [|exact Hargs]. by apply lookup_lt_Some in Ha.
  - rewrite sumZ_app, sumZ_one, i32_id by (unfold INT_MIN, INT_MAX in *; lia). cbn. lia.
  - apply (all_snoc (fun _ => worker_ok)); [apply (i_workers _ Hi)|]. unfold worker_ok. cbn. lia.
  - pose proof (i_owner _ Hi) as Ho. rewrite Hp in Ho. by apply owner_snoc.
  - apply (i_nonneg _ Hi).
  - rewrite !sumZ_app, !sumZ_one. cbn. pose proof (i_units _ Hi). lia.
  - apply (i_out _ Hi).
  - destruct (i_pc _ Hi) as [Hx _]. rewrite Hp in Hx. by split.
  - by rewrite Hw.
Qed.

Lemma pc_Inv_main_step s ok s' : Inv s -> main_step cv args ok s = Some s' -> Inv s'.
Proof.
  intros Hi Hs. pose proof (i_pc _ Hi) as [Hx Hy]. pose proof (i_owner _ Hi) as Ho.
  pose proof (fun p => pc_awake s p Hi) as Haw. destruct (i_nonneg _ Hi) as [Hav Hnc].
  pose proof (units_bounds s Hi) as [_ Hub]. destruct (i_args _ Hi) as [Hj _].
  pose proof (mutex_acquire 0 (mtx s)) as Hacq.
  unfold main_step in Hs. destruct (c_pc (cons s)) eqn:Hp.
  - specialize (Haw _ eq_refl ltac:(done)). destruct (args !! c_j (cons s)) as [a|] eqn:Ha.
    + destruct ok; injection Hs as <-; [by apply pc_Inv_create|].
      apply (pc_Inv_goto s (C_exit EXIT_FAILURE) (mtx s) Hi Ho); [|done]. split; cbn; [right|done].
      split; [done|]. by apply lookup_lt_Some in Ha.
    + injection Hs as <-. apply lookup_ge_None in Ha. apply (Inv_main s); try done; try (cbn; lia); [| |by rewrite Haw].
      * cbn. rewrite <- Hx. apply (i_out _ Hi).
      * split; cbn; [lia|]. split; [lia|]. symmetry. apply Z.leb_gt. lia.
  - specialize (Haw _ eq_refl ltac:(done)). unfold main_call in Hs.
    destruct (acquire 0 (mtx s)) as [| |m']; [done|done|]. destruct Hacq as [Hm ->]. injection Hs as <-.
    rewrite Hm in Ho. apply owner_main_lock in Ho.
    apply (pc_Inv_goto s (if cv then C_test else C_consume)); [done|by destruct cv| |done].
    destruct cv eqn:Hcv; by split.
  - specialize (Haw _ eq_refl ltac:(done)). destruct (Z.eqb_spec (avail s) 0) as [Hz|Hz].
    + destruct (owner_main_unlock _ _ _ Ho) as [Hm Ho']. unfold main_call in Hs.
      rewrite Hm, mutex_release in Hs. injection Hs as <-. apply (Inv_main s); try done; try (cbn; lia).
      * apply (i_out _ Hi).
      * intros _. split; [done|]. by left.
    + injection Hs as <-. by apply (pc_Inv_goto s C_consume (mtx s)).
  - destruct (waiting s) eqn:Hw; [done|]. unfold main_call in Hs.
    destruct (acquire 0 (mtx s)) as [| |m']; [done|done|]. destruct Hacq as [Hm ->]. injection Hs as <-.
    rewrite Hm in Ho. apply owner_main_lock in Ho. by apply (pc_Inv_goto s C_test).
  - specialize (Haw _ eq_refl ltac:(done)). destruct (Z.ltb_spec 0 (avail s)) as [Hz|Hz].
    + injection Hs as <-. rewrite i32_id by (unfold INT_MIN, INT_MAX in *; lia).
      apply (Inv_main s); cbn; try done; try lia; [| |by rewrite Haw].
      * rewrite (i_out _ Hi), seqZ_app by lia. f_equal. unfold seqZ. change (Z.to_nat 1) with 1%nat. cbn. f_equal. lia.
      * split; cbn; [done|]. split; [apply Hy|]. f_equal. rewrite (i_tot _ Hi). apply all_total; [done|apply Hy].
    + injection Hs as <-. by apply (pc_Inv_goto s C_unlock (mtx s)).
  - specialize (Haw _ eq_refl ltac:(done)). destruct (owner_main_unlock _ _ _ Ho) as [Hm Ho']. unfold main_call in Hs.
    rewrite Hm, mutex_release in Hs. injection Hs as <-. by apply (pc_Inv_goto s C_check).
  - specialize (Haw _ eq_refl ltac:(done)). injection Hs as <-. destruct Hy as [Hall Hd].
    rewrite Hd. destruct (Z.leb_spec total (numConsumed (cons s))).
    + apply (pc_Inv_goto s (C_exit EXIT_SUCCESS) (mtx s)); [done|done| |done]. split; cbn; [left; split; [done|lia]|done].
    + apply (pc_Inv_goto s C_lock (mtx s)); [done|done| |done]. split; cbn; [done|]. split; [done|].
      rewrite Hd. symmetry. by apply Z.leb_gt.
  - done.
Qed.

Lemma pc_Inv_step s s' : Inv s -> step cv args s s' -> Inv s'.
Proof.
  intros Hi Hst. destruct Hst as [s i s' _ Hs|s ok s' Hs|s n He Hw Hsp].
  - by eapply pc_Inv_threadFunc.
  - by eapply pc_Inv_main_step.
  - destruct (i_wait _ Hi Hw) as [Hp _]. split; cbn; try apply Hi. done.
Qed.

(** ** Progress *)

Definition w_left (w : worker) : Z :=
  5 * (w_cnt w - w_j w) +
  match w_pc w with W_loop => 5 | W_lock => 4 | W_incr => 3 | W_unlock => 2 | W_signal => 1 | _ => 0 end.
Definition to_create (s : pstate) : Z :=
  sumZ (fun a => 10 * (5 * atoi a + 5) + 1) (drop (c_j (cons s)) args).
Definition c_left (s : pstate) : Z :=
  match c_pc (cons s) with
  | C_create => 6 + to_create s
  | C_lock => 5
  | C_test => 3
  | C_wait => if waiting s then 1 else 4
  | C_consume => if 0 <? avail s then 2 else 8
  | C_unlock => 7
  | C_check => 6
  | C_exit _ => 0
  end.
Definition measure (s : pstate) : Z :=
  10 * (sumZ w_left (workers s) + (total - numConsumed (cons s)) + Z.of_nat (spurious s)) + c_left s.

Lemma pc_measure_nonneg s : Inv s -> 0 <= measure s.
Proof.
  intros Hi. unfold measure. assert (0 <= sumZ w_left (workers s)).
  { apply sumZ_nonneg. intros w (i & Hw)%list_elem_of_lookup. pose proof (i_workers _ Hi i w Hw) as [? _].
    unfold w_left. destruct (w_pc w); lia. }
  assert (0 <= c_left s).
  { unfold c_left. destruct (c_pc (cons s)); try case_match; try done.
    assert (0 <= to_create s); [|lia]. apply sumZ_nonneg. intros a Ha. apply subseteq_drop, args_nonneg in Ha. lia. }
  pose proof (units_bounds s Hi). pose proof (i_nonneg _ Hi). lia.
Qed.

Ltac fields := cbn [avail mtx waiting spurious workers cons with_worker with_avail with_mtx with_waiting].

Lemma worker_measure s i s' : Inv s -> threadFunc_step cv i s = Some s' -> measure s' < measure s.
Proof.
  intros Hi Hs. unfold threadFunc_step in Hs. destruct (workers s !! i) as [w|] eqn:Hw; [|done]. cbn in Hs.
  pose proof (i_workers _ Hi i w Hw) as [Hj Hx]. pose proof (i_owner _ Hi) as Ho.
  destruct w as [p cnt j]. unfold measure. cbn in *.
  assert (Hsum : forall w', sumZ w_left (<[i:=w']> (workers s)) = sumZ w_left (workers s) - w_left (Worker p cnt j) + w_left w')
    by (intros w'; by apply sumZ_insert).
  unfold worker_call in Hs. destruct p; try done; cbn in *.
  - injection Hs as <-. fields. rewrite Hsum. unfold w_left, c_left, to_create. cbn. destruct (j <? cnt); lia.
  - pose proof (mutex_acquire (S i) (mtx s)) as Ha.
    destruct (acquire (S i) (mtx s)) as [| |m']; [done|done|]. injection Hs as <-. fields. rewrite Hsum.
    unfold w_left, c_left, to_create. cbn. lia.
  - injection Hs as <-. fields. rewrite Hsum. unfold w_left, c_left, to_create. cbn.
    destruct (c_pc (cons s)) eqn:Hp; try lia.
    by pose proof (owner_main_alone w_inside _ _ _ _ Ho Hw).
  - destruct (owner_unlock w_inside _ _ _ _ _ (Worker W_loop cnt j) Ho Hw) as [Hm _]; [done|done|].
    rewrite Hm, mutex_release in Hs. injection Hs as <-. destruct cv; fields; rewrite Hsum;
      unfold w_left, c_left, to_create; cbn; lia.
  - injection Hs as <-. fields. rewrite Hsum. unfold w_left, c_left, to_create. cbn.
    destruct (c_pc (cons s)); try lia. destruct (waiting s); lia.
Qed.

Lemma pc_main_measure s ok s' : Inv s -> main_step cv args ok s = Some s' ->
  cv = true \/ c_pc (cons s) <> C_lock \/ 0 < avail s -> measure s' < measure s.
Proof.
  intros Hi Hs Hc. pose proof (i_pc _ Hi) as [Hx _]. pose proof (i_owner _ Hi) as Ho.
  destruct (i_nonneg _ Hi) as [Hav Hnc]. pose proof (units_bounds s Hi) as [_ Hub].
  unfold main_step, main_call in Hs. unfold measure, c_left. destruct (c_pc (cons s)) eqn:Hp.
  - unfold to_create. destruct (args !! c_j (cons s)) as [a|] eqn:Ha.
    + rewrite (drop_S _ _ _ Ha), sumZ_cons. destruct ok; injection Hs as <-.
      * fields. rewrite sumZ_app, sumZ_one. cbn. unfold w_left at 2. cbn. lia.
      * assert (0 <= sumZ (fun a => 10 * (5 * atoi a + 5) + 1) (drop (S (c_j (cons s))) args)).
        { apply sumZ_nonneg. intros x Hx'. apply subseteq_drop, args_nonneg in Hx'. lia. }
        apply list_elem_of_lookup_2, args_nonneg in Ha. cbn. lia.
    + injection Hs as <-. apply lookup_ge_None in Ha. cbn. rewrite drop_ge, Hx by done. rewrite sumZ_nil. lia.
  - destruct (acquire 0 (mtx s)); [done|injection Hs as <-; cbn; lia|]. injection Hs as <-. cbn.
    destruct cv; cbn; [lia|]. destruct (Z.ltb_spec 0 (avail s)); [lia|]. destruct Hc as [|[]]; [done|done|lia].
  - destruct (Z.eqb_spec (avail s) 0).
    + destruct (release 0 (mtx s)); [done|injection Hs as <-; cbn; lia|]. injection Hs as <-. cbn. lia.
    + injection Hs as <-. cbn. destruct (Z.ltb_spec 0 (avail s)); lia.
  - destruct (waiting s); [done|].
    destruct (acquire 0 (mtx s)); [done|injection Hs as <-; cbn; lia|]. injection Hs as <-. cbn. lia.
  - destruct (Z.ltb_spec 0 (avail s)).
    + injection Hs as <-. cbn. rewrite i32_id by (unfold INT_MIN, INT_MAX in *; lia). case_match; lia.
    + injection Hs as <-. cbn. lia.
  - destruct (release 0 (mtx s)); [done|injection Hs as <-; cbn; lia|]. injection Hs as <-. cbn. lia.
  - injection Hs as <-. cbn. destruct (c_done (cons s)); lia.
  - done.
Qed.

Lemma wakeup_measure s n : Inv s -> waiting s = true -> spurious s = S n ->
  measure (PState (avail s) (mtx s) false n (workers s) (cons s)) < measure s.
Proof.
  intros Hi Hw Hn. destruct (i_wait _ Hi Hw) as [Hp _]. unfold measure, c_left. cbn. rewrite Hp, Hw, Hn. lia.
Qed.

(** With the condition variable every step is progress. *)
Lemma condvar_measure s s' : cv = true -> Inv s -> step cv args s s' -> 0 <= measure s' < measure s.
Proof.
  intros Hcv Hi Hs. split; [by apply pc_measure_nonneg, (pc_Inv_step s)|].
  destruct Hs as [s i s' _ Hs|s ok s' Hs|s n He Hw Hsp].
  - by eapply worker_measure.
  - eapply pc_main_measure; [done..|by left].
  - by apply wakeup_measure.
Qed.

(** A producer that has units to add moves, when it has the mutex or may take it. *)
Lemma worker_moves s i w : Inv s -> workers s !! i = Some w ->
  mtx s = None /\ w_pc w <> W_done \/ w_inside w = true -> exists s', threadFunc_step cv i s = Some s'.
Proof.
  intros Hi Hw Hm. pose proof (i_workers _ Hi i w Hw) as [_ Hx]. pose proof (i_owner _ Hi) as Ho.
  unfold threadFunc_step. rewrite Hw. cbn. unfold worker_call. destruct w as [p cnt j]. cbn in *.
  destruct p; try done; try (by eexists).
  - destruct Hm as [[-> _]|]; [by eexists|done].
  - destruct (owner_unlock w_inside _ _ _ _ _ (Worker W_loop cnt j) Ho Hw) as [-> _]; [done|done|].
    rewrite mutex_release. by eexists.
  - destruct Hm as [[_ Hm]|]; done.
Qed.

(** Units that are missing will come. *)
Lemma unit_to_come s : Inv s -> c_j (cons s) = length args -> mtx s = None -> avail s = 0 ->
  numConsumed (cons s) < total -> exists i s', threadFunc_step cv i s = Some s'.
Proof.
  intros Hi Hj Hm Ha Hn. pose proof (i_units _ Hi) as Hu. rewrite (all_total s Hi Hj) in Hu.
  destruct (sumZ_pos remaining (workers s)) as (i & w & Hw & Hr); [lia|].
  destruct (worker_moves s i w Hi Hw) as [s' Hs]; [|by exists i, s'].
  left. split; [done|]. intros Hp. pose proof (i_workers _ Hi i w Hw) as [_ Hx].
  unfold remaining in Hr. rewrite Hp in *. lia.
Qed.

Lemma main_moves s : Inv s -> c_inside (c_pc (cons s)) = true ->
  exists s', main_step cv args true s = Some s'.
Proof.
  intros Hi Hin. pose proof (i_owner _ Hi) as Ho. rewrite Hin in Ho. apply owner_main_unlock in Ho as [Hm _].
  unfold main_step, main_call. rewrite Hm, mutex_release.
  destruct (c_pc (cons s)); try done; [destruct (avail s =? 0)|destruct (0 <? avail s)|]; by eexists.
Qed.

(** A process that has not ended can make progress. *)
Lemma pc_progress s : Inv s -> exited s = false -> exists s', step cv args s s' /\ measure s' < measure s.
Proof.
  intros Hi He. pose proof (i_owner _ Hi) as Ho. pose proof (i_pc _ Hi) as [Hx Hy].
  assert (Hworker : (exists i s', threadFunc_step cv i s = Some s') -> exists s', step cv args s s' /\ measure s' < measure s).
  { intros (i & s' & Hs). exists s'. split; [by eapply step_worker|by eapply worker_measure]. }
  assert (Hmain : (exists s', main_step cv args true s = Some s') ->
                  cv = true \/ c_pc (cons s) <> C_lock \/ 0 < avail s -> exists s', step cv args s s' /\ measure s' < measure s).
  { intros (s' & Hs) Hc. exists s'. split; [by eapply step_main|by eapply pc_main_measure]. }
  destruct (mtx s) as [u|] eqn:Hm.
  - destruct (owner_taken w_inside _ _ _ u Ho eq_refl) as [Hin|(i & w & Hw & Hin)].
    + apply Hmain; [by apply main_moves|]. right. left. intros Hp. by rewrite Hp in Hin.
    + apply Hworker. exists i. apply (worker_moves s i w); auto.
  - assert (Hcons : c_inside (c_pc (cons s)) = false).
    { destruct (c_inside (c_pc (cons s))); [|done]. by apply owner_main_unlock in Ho as [? _]. }
    unfold exited in He. destruct (i_nonneg _ Hi) as [Hav _]. destruct (c_pc (cons s)) eqn:Hp; try done.
    + apply Hmain; [|by right; left]. unfold main_step. rewrite Hp. destruct (args !! _); by eexists.
    + destruct (decide (cv = true \/ 0 < avail s)) as [Hc|Hc].
      * apply Hmain; [|tauto]. unfold main_step. rewrite Hp, Hm. by eexists.
      * apply Hworker, unit_to_come; try done; [apply Hy|lia].
    + destruct (waiting s) eqn:Hw.
      * apply Hworker. destruct (i_wait _ Hi Hw) as [_ [Ha|(i & w & Hwk & Ht)]].
        -- apply unit_to_come; try done; [apply Hy|apply Hx].
        -- exists i. apply (worker_moves s i w Hi Hwk). left. split; [done|]. intros Hd. unfold telling in Ht.
           by rewrite Hd in Ht.
      * apply Hmain; [|by right; left]. unfold main_step. rewrite Hp, Hw, Hm. by eexists.
    + apply Hmain; [|by right; left]. unfold main_step. rewrite Hp. by eexists.
Qed.

Lemma run_inv n s : rtc (step cv args) (start n) s -> Inv s.
Proof. apply (reach_inv _ Inv pc_Inv_step), pc_Inv_start. Qed.

(** Whatever has happened, the end can be reached. *)
Lemma can_end s : Inv s -> exists s', rtc (step cv args) s s' /\ exited s' = true.
Proof.
  remember (Z.to_nat (measure s)) as k eqn:Hk. revert s Hk. induction (lt_wf k) as [k _ IH]. intros s -> Hi.
  destruct (exited s) eqn:He; [by exists s|]. destruct (pc_progress s Hi He) as (s1 & Hs & Hm).
  pose proof (pc_Inv_step s s1 Hi Hs) as Hi1. pose proof (pc_measure_nonneg s1 Hi1).
  destruct (IH (Z.to_nat (measure s1)) ltac:(lia) s1 eq_refl Hi1) as (s2 & Hr & He2).
  exists s2. split; [|done]. by eapply rtc_l.
Qed.

(** What the program does, in any state that a run has reached. *)
Definition consumes_all (s : pstate) : Prop :=
  c_out (cons s) = seqZ 1 (numConsumed (cons s)) /\
  numConsumed (cons s) + avail s <= total /\
  match c_pc (cons s) with
  | C_exit st =>
      (st = EXIT_SUCCESS /\ numConsumed (cons s) = total /\ avail s = 0 /\
       forall i w, workers s !! i = Some w -> remaining w = 0) \/
      (st = EXIT_FAILURE /\ (length (workers s) < length args)%nat)
  | _ => exists s', step cv args s s'
  end.

Lemma Inv_consumes s : Inv s -> consumes_all s.
Proof.
  intros Hi. split; [apply (i_out _ Hi)|]. split; [apply (units_bounds s Hi)|].
  pose proof (i_pc _ Hi) as [Hx Hy]. pose proof (pc_progress s Hi) as Hp. unfold exited in Hp.
  destruct (c_pc (cons s)); try (destruct Hp as (s' & ? & _); [done|by exists s']).
  destruct Hx as [[-> Hn]|[-> Hj]].
  - left. split; [done|]. split; [done|]. pose proof (units_bounds s Hi) as [Hr Hu]. pose proof (i_nonneg _ Hi) as [Ha _].
    pose proof (i_units _ Hi) as Hun. rewrite (all_total s Hi (Hy eq_refl)) in Hun.
    split; [lia|]. intros i w Hw.
    assert (remaining w <= sumZ remaining (workers s)).
    { eapply sumZ_elem; [|done]. intros. by eapply remaining_nonneg. }
    pose proof (remaining_nonneg s w Hi ltac:(by eapply list_elem_of_lookup_2)). lia.
  - right. split; [done|]. destruct (i_args _ Hi) as [_ Hc]. apply (f_equal length) in Hc.
    rewrite length_fmap, length_take, length_fmap in Hc. lia.
Qed.
End correct.

(** C22: The consumer of prod_condvar, for arguments that are counts of units with a
    positive total that fits an int. Every run ends, however the threads are
    interleaved and wherever a finite number of spurious wake-ups falls; no run gets
    stuck before main() has ended the process (no deadlock, no wake-up lost, although
    the producers signal after unlocking); what main() has consumed and what is
    available never exceed the total; it prints 1, 2, ... in order, and ends
    successfully exactly when it has consumed every unit and no producer has one left -
    or with a failure when pthread_create() has failed. *)
Theorem prod_condvar_correct args n
  (Hargs : forall a, a ∈ args -> 0 <= atoi a) (Htot : 0 < total args /\ total args <= INT_MAX) :
  sn (prod_condvar args) (start n) /\
  forall s, rtc (prod_condvar args) (start n) s -> consumes_all true args s.
Proof.
  split.
  - apply (sn_measure _ (Inv true args) (pc_Inv_step true args Hargs Htot) (measure args)); [|by apply pc_Inv_start].
    intros s s'. by apply condvar_measure.
  - intros s Hr. by eapply Inv_consumes, run_inv.
Qed.

Lemma prod_condvar_correct_witness : sn (prod_condvar [str "2"; str "3"]) (start 4).
Proof.
  refine (proj1 (prod_condvar_correct [str "2"; str "3"] 4 _ _)).
  - intros a Ha. apply list_elem_of_In in Ha. destruct Ha as [<-|[<-|[]]]; by vm_compute.
  - by vm_compute.
Defined.

(** The polling consumer of prod_no_condvar consumes the same units and ends in the
    same states. Its runs need not end, as the scheduler may leave it polling, but from
    every state of a run its end can be reached. *)
Theorem prod_no_condvar_correct args
  (Hargs : forall a, a ∈ args -> 0 <= atoi a) (Htot : 0 < total args /\ total args <= INT_MAX) :
  forall s, rtc (prod_no_condvar args) (start 0) s ->
  consumes_all false args s /\ exists s', rtc (prod_no_condvar args) s s' /\ exited s' = true.
Proof.
  intros s Hr. assert (Hi : Inv false args s) by by eapply run_inv. split; [by apply Inv_consumes|by apply can_end].
Qed.

Lemma prod_no_condvar_correct_witness :
  exists s', rtc (prod_no_condvar [str "2"; str "3"]) (start 0) s' /\ exited s' = true.
Proof.
  refine (proj2 (prod_no_condvar_correct [str "2"; str "3"] _ _ (start 0) (rtc_refl _ _))).
  - intros a Ha. apply list_elem_of_In in Ha. destruct Ha as [<-|[<-|[]]]; by vm_compute.
  - by vm_compute.
Defined.

(** Without arguments main() of prod_condvar waits for ever for a unit that nobody
    produces: no run ends, and once the spurious wake-ups are over it is stuck. *)
Lemma prod_condvar_hangs n : 
  (forall s, rtc (prod_condvar []) (start n) s -> exited s = false) /\
  exists s, rtc (prod_condvar []) (start n) s /\ c_pc (cons s) = C_wait /\ (n = 0%nat -> forall s', ~ prod_condvar [] s s').
Proof.
  split.
  - intros s Hr. set (J := fun s => workers s = [] /\ avail s = 0 /\
      match c_pc (cons s) with C_create | C_lock | C_wait => True | C_test => mtx s = Some 0%nat | _ => False end).
    assert (Hi : J s).
    { revert Hr. apply (reach_inv (prod_condvar []) J); [|by split_and!]. clear. intros s s' (Hw & Ha & Hp) Hs.
      destruct Hs as [s i s' _ Hs|s ok s' Hs|s k He Hwt Hsp]; [| |by split_and!].
      - unfold threadFunc_step in Hs. by rewrite Hw in Hs.
      - destruct s as [a m wt sp ws [p j t nc d o]]. cbn in *. subst. unfold main_step, main_call in Hs. cbn in *.
        pose proof (mutex_acquire 0 m) as Hq. destruct p; try done; cbn in *.
        + by injection Hs as <-.
        + destruct (acquire 0 m); try done. destruct Hq as [_ ->]. by injection Hs as <-.
        + subst m. rewrite mutex_release in Hs. by injection Hs as <-.
        + destruct wt; [done|]. destruct (acquire 0 m); try done. destruct Hq as [_ ->]. by injection Hs as <-. }
    destruct Hi as (_ & _ & Hp). unfold exited. by destruct (c_pc (cons s)).
  - exists (PState 0 None true n [] (Consumer C_wait 0 0 0 false [])). split; [|split; [done|]].
    + do 3 (eapply rtc_l; [by apply (step_main _ _ _ true)|]). done.
    + intros -> s' Hs. inversion Hs as [s i s1 _ Ht|s ok s1 Hm|s k He Hwt Hsp]; subst; done.
Qed.
