(* ===== verification/OneTimeInit.v ===== *)
(** One-time initialisation: book-src/threads/one_time_init.c, whose one_time_init()
    does the work of pthread_once() with a mutex and a flag, and the program that
    tests it with two threads that call it twice each. *)
From S2P Require Import Prelude CLib Sys Steps Locks.
From stdpp Require Import relations.
#[local] Open Scope Z_scope.

(** * State *)

(** A thread in threadFunc(): in its first call of one_time_init(), its second, or at
    its end; in a call it is about to lock, to test [called], to call the function,
    to set [called], to unlock. *)
Inductive opc := O_lock | O_test | O_init | O_set | O_unlock | O_done.
#[export] Instance opc_eq_dec : EqDecision opc.
Proof. solve_decision. Defined.
(** [o_calls]: the calls that have returned. *)
Record othread := OThread { o_pc : opc; o_calls : nat }.
Inductive mpc := M_create (k : nat) | M_join (k : nat) | M_printf (k : nat) | M_exit (status : Z).

(** Source: book-src/threads/one_time_init.c:21-28 (struct once_struct, once). *)
Record once_struct := Once { mtx : mutex; called : bool }.
Record ostate := OState { once : once_struct; threads : list othread; main : mpc; out : list bytes }.
Definition ONCE_INITIALIZER : once_struct := Once lock_init false.

Definition with_once (o : once_struct) (s : ostate) : ostate := OState o (threads s) (main s) (out s).
Definition with_mtx (m : mutex) (s : ostate) : ostate := with_once (Once m (called (once s))) s.
Definition with_thread (i : nat) (th : othread) (s : ostate) : ostate :=
  OState (once s) (<[i:=th]> (threads s)) (main s) (out s).
Definition with_main (m : mpc) (s : ostate) : ostate := OState (once s) (threads s) m (out s).
Definition print (l : bytes) (s : ostate) : ostate := OState (once s) (threads s) (main s) (out s ++ [l]).

(** * Steps *)

Definition init_line : bytes := str "Called init_func()".
(** Source: book-src/threads/one_time_init.c:53-60 (init_func). *)
Definition init_func (s : ostate) : ostate := print init_line s.

(** [s = call(...); if (s == -1) errExitEN(s, ...)]: the functions return a positive
    error number, so that the program goes on after an error. *)
Definition unchecked_call (r : lockres mutex) (s : ostate) (k : ostate -> ostate) : option ostate :=
  match r with
  | Blocks => None
  | Fails e => Some (if e =? -1 then with_main (M_exit EXIT_FAILURE) s else k s)
  | Holds m => Some (k (with_mtx m s))
  end.

(** Thread [i], thread [i + 1] of the process. *)
(** Source: book-src/threads/one_time_init.c:30-49 (one_time_init). *)
Definition one_time_init_step (init : ostate -> ostate) (i : nat) (th : othread) (s : ostate) : option ostate :=
  let goto p s := with_thread i (OThread p (o_calls th)) s in
  match o_pc th with
  | O_lock => unchecked_call (acquire (S i) (mtx (once s))) s (goto O_test)
  | O_test => Some (goto (if called (once s) then O_unlock else O_init) s)
  | O_init => Some (goto O_set (init s))
  | O_set => Some (goto O_unlock (with_once (Once (mtx (once s)) true) s))
  | O_unlock =>
      unchecked_call (release (S i) (mtx (once s))) s
        (with_thread i (OThread (if decide (o_calls th = 1%nat) then O_done else O_lock) (S (o_calls th))))
  | O_done => None
  end.
(** Source: book-src/threads/one_time_init.c:62-71 (threadFunc). *)
Definition threadFunc_step (i : nat) (s : ostate) : option ostate :=
  th ← threads s !! i; one_time_init_step init_func i th s.

(** main(); [ok] is whether pthread_create() succeeds. *)
(** Source: book-src/threads/one_time_init.c:73-100 (main). *)
Definition main_step (ok : bool) (s : ostate) : option ostate :=
  match main s with
  | M_create k =>
      Some (if ok then OState (once s) (threads s ++ [OThread O_lock 0])
                              (if decide (k = 1%nat) then M_join 0 else M_create (S k)) (out s)
            else with_main (M_exit EXIT_FAILURE) s)
  | M_join k =>
      th ← threads s !! k;
      if decide (o_pc th = O_done) then Some (with_main (M_printf k) s) else None
  | M_printf k =>
      Some (if decide (k = 1%nat) then with_main (M_exit EXIT_SUCCESS) (print (str "Second thread returned") s)
            else with_main (M_join (S k)) (print (str "First thread returned") s))
  | M_exit _ => None
  end.

Definition exited (s : ostate) : bool := if main s is M_exit _ then true else false.
Inductive step : ostate -> ostate -> Prop :=
| step_thread s i s' : exited s = false -> threadFunc_step i s = Some s' -> step s s'
| step_main s ok s' : main_step ok s = Some s' -> step s s'.
Definition start : ostate := OState ONCE_INITIALIZER [] (M_create 0) [].

(** * The invariant *)

Definition o_inside (th : othread) : bool := match o_pc th with O_lock | O_done => false | _ => true end.
Definition at_set (th : othread) : Z := if o_pc th is O_set then 1 else 0.
(** How often init_func() has been called. *)
Definition inits (s : ostate) : Z := sumZ (fun l => if decide (l = init_line) then 1 else 0) (out s).

#[local] Arguments inits : simpl never.

Definition thread_ok (c : bool) (th : othread) : Prop :=
  match o_pc th with
  | O_lock | O_test => (o_calls th <= 1)%nat
  | O_init | O_set => o_calls th = 0%nat /\ c = false
  | O_unlock => (o_calls th <= 1)%nat /\ c = true
  | O_done => o_calls th = 2%nat
  end /\ (o_calls th <> 0%nat -> c = true).
Definition main_ok (s : ostate) : Prop :=
  match main s with
  | M_create k => length (threads s) = k /\ (k <= 1)%nat
  | M_join k => length (threads s) = 2%nat /\ (k <= 1)%nat
  | M_printf k => length (threads s) = 2%nat /\ (k <= 1)%nat
  | M_exit st => (st = EXIT_SUCCESS /\ length (threads s) = 2%nat) \/ (st = EXIT_FAILURE /\ (length (threads s) <= 1)%nat)
  end /\
  match main s with
  | M_create _ => True
  | M_join k => forall i th, (i < k)%nat -> threads s !! i = Some th -> o_pc th = O_done
  | M_printf k => forall i th, (i <= k)%nat -> threads s !! i = Some th -> o_pc th = O_done
  | M_exit st => st = EXIT_SUCCESS -> forall i th, threads s !! i = Some th -> o_pc th = O_done
  end.

Record Inv (s : ostate) : Prop := {
  i_threads : forall i th, threads s !! i = Some th -> thread_ok (called (once s)) th;
  i_owner : owner_ok o_inside (mtx (once s)) (threads s) false;
  i_inits : inits s = (if called (once s) then 1 else 0) + sumZ at_set (threads s);
  i_main : main_ok s
}.

Lemma oti_Inv_start : Inv start.
Proof. split; cbn; try done. split; cbn; [lia|done]. Qed.

Lemma inits_snoc o t m l ls : inits (OState o t m (ls ++ [l])) = inits (OState o t m ls) + (if decide (l = init_line) then 1 else 0).
Proof. unfold inits. cbn. by rewrite sumZ_app, sumZ_one. Qed.

(** One thread moves. *)
Lemma oti_Inv_thread s i th th' m c o : Inv s -> threads s !! i = Some th -> o_pc th <> O_done ->
  thread_ok c th' -> (c <> called (once s) -> c = true /\ o_inside th = true) ->
  owner_ok o_inside m (<[i:=th']> (threads s)) false ->
  inits (OState (once s) (threads s) (main s) o) - (if c then 1 else 0) - at_set th' = inits s - (if called (once s) then 1 else 0) - at_set th ->
  Inv (OState (Once m c) (<[i:=th']> (threads s)) (main s) o).
Proof.
  intros Hi Hth Hd Hok Hc Ho Hn. split; cbn [once mtx called threads main].
  - apply (all_insert (fun _ => thread_ok c)); [|done]. intros k x Hk Hne.
    pose proof (i_threads _ Hi k x Hk) as Hx. destruct (decide (c = called (once s))) as [->|Hcc]; [done|].
    destruct (Hc Hcc) as [-> Hin]. destruct Hx as [Hx _]. split; [|done].
    assert (Hout : o_inside x = false).
    { destruct (i_owner _ Hi) as (_ & Hw & _). destruct (o_inside x) eqn:Hix; [|done].
      apply (Hw i th Hth) in Hin. apply (Hw k x Hk) in Hix. congruence. }
    unfold o_inside in Hout. by destruct (o_pc x).
  - done.
  - rewrite (sumZ_insert _ _ _ _ _ Hth). pose proof (i_inits _ Hi). unfold inits in *. cbn in *. lia.
  - pose proof (i_main _ Hi) as [Hx Hy]. unfold main_ok. cbn. rewrite !length_insert. split; [done|].
    assert (Hkeep : forall k x, <[i:=th']> (threads s) !! k = Some x -> (forall y, threads s !! k = Some y -> o_pc y = O_done) -> o_pc x = O_done).
    { intros k x Hk Hall. apply list_lookup_insert_Some in Hk as [(<- & <- & _)|[_ Hk]]; [|by apply Hall].
      by destruct Hd; apply Hall. }
    destruct (main s); try done; intros; (eapply Hkeep; [done|]); intros; eapply Hy; done.
Qed.

Lemma oti_Inv_threadFunc s i s' : Inv s -> threadFunc_step i s = Some s' -> Inv s'.
Proof.
  intros Hi Hs. unfold threadFunc_step, one_time_init_step, unchecked_call in Hs.
  destruct (threads s !! i) as [th|] eqn:Hth; [|done]. cbn in Hs.
  pose proof (i_threads _ Hi i th Hth) as [Hx Hc]. pose proof (i_owner _ Hi) as Ho.
  pose proof (fun th' m c o Hd => oti_Inv_thread s i th th' m c o Hi Hth Hd) as Hgo.
  destruct th as [p n]. cbn in *. destruct p; try done; cbn in *; specialize (fun th' m c o => Hgo th' m c o ltac:(done)).
  - pose proof (mutex_acquire (S i) (mtx (once s))) as Ha.
    destruct (acquire (S i) (mtx (once s))) as [| |m']; [done|done|]. destruct Ha as [Hm ->]. injection Hs as <-.
    apply Hgo; try done. rewrite Hm in Ho. by eapply owner_lock.
  - injection Hs as <-. destruct s as [[m c] ts mn o]. cbn in *. apply Hgo; try done; [destruct c; split|by eapply owner_same; [| |destruct c]|].
    + done.
    + done.
    + cbn. destruct n as [|n]; [done|]. by specialize (Hc ltac:(done)).
    + done.
    + unfold inits, at_set. cbn. by destruct c.
  - injection Hs as <-. destruct s as [[m c] ts mn o]. cbn in *. apply Hgo; try done; [by eapply owner_same|].
    cbn. rewrite inits_snoc, decide_True by done. unfold inits, at_set. cbn. lia.
  - injection Hs as <-. destruct s as [[m c] ts mn o]. cbn in *. destruct Hx as [-> ->].
    apply Hgo; try done; [by split; cbn; [split; [lia|]|]|by eapply owner_same|]. unfold inits, at_set. cbn. lia.
  - destruct (owner_unlock o_inside _ _ _ _ _ (OThread (if decide (n = 1%nat) then O_done else O_lock) (S n)) Ho Hth) as [Hm Ho'];
      [done|by destruct (decide (n = 1%nat))|]. rewrite Hm, mutex_release in Hs. injection Hs as <-. destruct Hx as [Hn Hc'].
    apply Hgo; try done.
    + split; cbn; [|done]. destruct (decide (n = 1%nat)); [lia|]. cbn. lia.
    + unfold inits, at_set. cbn. by destruct (decide (n = 1%nat)).
Qed.

Lemma oti_Inv_main_step s ok s' : Inv s -> main_step ok s = Some s' -> Inv s'.
Proof.
  intros Hi Hs. pose proof (i_main _ Hi) as [Hx Hy]. destruct Hi as [Ht Ho Hn _]. destruct s as [[m c] ts mn o].
  unfold main_step in Hs. cbn in *. destruct mn as [k|k|k|st]; try done.
  - destruct Hx as [Hl Hk]. destruct ok; injection Hs as <-; split; cbn; try done.
    + apply (all_snoc (fun _ => thread_ok c)); [done|]. split; cbn; [lia|done].
    + by apply owner_snoc.
    + rewrite sumZ_app, sumZ_one. unfold inits in *. cbn in *. lia.
    + split; cbn; rewrite ?length_app; cbn; destruct (decide (k = 1%nat)); cbn; try lia; try done.
    + split; cbn; [right; split; [done|lia]|done].
  - destruct (ts !! k) as [th|] eqn:Hth; [|done]. cbn in Hs. destruct (decide (o_pc th = O_done)) as [Hd|]; [|done].
    injection Hs as <-. split; cbn; try done. split; cbn; [done|]. intros i x Hi Hk.
    destruct (decide (i = k)) as [->|]; [congruence|]. apply (Hy i x); [lia|done].
  - destruct Hx as [Hl Hk]. destruct (decide (k = 1%nat)) as [->|Hne]; injection Hs as <-; split; cbn; try done.
    + unfold inits in *. cbn in *. rewrite sumZ_app, sumZ_one, decide_False by done. lia.
    + split; cbn; [by left|]. intros _ i x Hi. apply (Hy i x); [|done]. apply lookup_lt_Some in Hi. lia.
    + unfold inits in *. cbn in *. rewrite sumZ_app, sumZ_one, decide_False by done. lia.
    + split; cbn; [split; [done|lia]|]. intros i x Hi Hx. apply (Hy i x); [lia|done].
Qed.

Lemma oti_Inv_step s s' : Inv s -> step s s' -> Inv s'.
Proof. intros Hi Hs. destruct Hs as [s i s' _ Hs|s ok s' Hs]; [by eapply oti_Inv_threadFunc|by eapply oti_Inv_main_step]. Qed.

(** ** Progress *)

Definition o_left (th : othread) : Z :=
  match o_pc th with
  | O_lock => 5 | O_test => 4 | O_init => 3 | O_set => 2 | O_unlock => 1 | O_done => 0
  end + match o_pc th with O_done => 0 | _ => 5 * (1 - Z.of_nat (o_calls th)) end.
Definition main_left (m : mpc) : Z :=
  match m with
  | M_create k => 15 * (2 - Z.of_nat k) + 10
  | M_join k => 2 * (2 - Z.of_nat k)
  | M_printf k => 2 * (2 - Z.of_nat k) - 1
  | M_exit _ => 0
  end.
Definition measure (s : ostate) : Z := sumZ o_left (threads s) + main_left (main s).

Lemma oti_measure_nonneg s : Inv s -> 0 <= measure s.
Proof.
  intros Hi. unfold measure. assert (0 <= sumZ o_left (threads s)).
  { apply sumZ_nonneg. intros th (i & Hth)%list_elem_of_lookup. pose proof (i_threads _ Hi i th Hth) as [Hx _].
    unfold o_left. destruct (o_pc th); lia. }
  pose proof (i_main _ Hi) as [Hx _]. unfold main_left. destruct (main s); lia.
Qed.

Lemma oti_step_measure s s' : Inv s -> step s s' -> 0 <= measure s' < measure s.
Proof.
  intros Hi Hs. split; [by apply oti_measure_nonneg, (oti_Inv_step s)|]. destruct Hs as [s i s' _ Hs|s ok s' Hs].
  - unfold threadFunc_step, one_time_init_step, unchecked_call in Hs.
    destruct (threads s !! i) as [th|] eqn:Hth; [|done]. cbn in Hs.
    pose proof (i_threads _ Hi i th Hth) as [Hx _]. pose proof (i_owner _ Hi) as Ho.
    pose proof (mutex_acquire (S i) (mtx (once s))) as Ha.
    assert (Hgo : forall th' o ls, o_left th' < o_left th -> measure (OState o (<[i:=th']> (threads s)) (main s) ls) < measure s).
    { intros th' o ls Hl. unfold measure. cbn [threads main]. rewrite (sumZ_insert _ _ _ _ _ Hth). lia. }
    destruct th as [p n]. cbn in *. destruct p; try done; cbn in *.
    + destruct (acquire (S i) (mtx (once s))); try done. injection Hs as <-. apply Hgo. unfold o_left. cbn. lia.
    + injection Hs as <-. apply Hgo. unfold o_left. destruct (called (once s)); cbn; lia.
    + injection Hs as <-. apply Hgo. unfold o_left. cbn. lia.
    + injection Hs as <-. apply Hgo. unfold o_left. cbn. lia.
    + destruct (owner_unlock o_inside _ _ _ _ _ (OThread O_lock (S n)) Ho Hth) as [Hm _]; [done|done|].
      rewrite Hm, mutex_release in Hs. injection Hs as <-. apply Hgo. unfold o_left.
      destruct (decide (n = 1%nat)); cbn; lia.
  - pose proof (i_main _ Hi) as [Hx _]. destruct s as [o ts mn ls]. unfold main_step, measure in *. cbn in *.
    destruct mn as [k|k|k|st]; try done.
    + destruct ok; injection Hs as <-; cbn; [|lia]. rewrite sumZ_app, sumZ_one. unfold o_left at 2.
      destruct (decide (k = 1%nat)); cbn; lia.
    + destruct (ts !! k) as [th|]; [|done]. cbn in Hs. destruct (decide (o_pc th = O_done)); [|done]. injection Hs as <-. cbn. lia.
    + destruct (decide (k = 1%nat)); injection Hs as <-; cbn; lia.
Qed.

Lemma oti_thread_moves s i th : Inv s -> threads s !! i = Some th -> o_inside th = true \/ (mtx (once s) = None /\ o_pc th <> O_done) ->
  exists s', threadFunc_step i s = Some s'.
Proof.
  intros Hi Hth Hm. pose proof (i_owner _ Hi) as Ho. unfold threadFunc_step, one_time_init_step. rewrite Hth. cbn.
  destruct th as [p n]. unfold o_inside in Hm. cbn in *. destruct p; try (by eexists).
  - destruct Hm as [|[-> _]]; [done|by eexists].
  - destruct (owner_unlock o_inside _ _ _ _ _ (OThread O_lock (S n)) Ho Hth) as [-> _]; [done|done|].
    rewrite mutex_release. by eexists.
  - by destruct Hm as [|[_ []]].
Qed.

Lemma oti_progress s : Inv s -> exited s = false -> exists s', step s s'.
Proof.
  intros Hi He. pose proof (i_main _ Hi) as [Hx _]. unfold exited in He.
  assert (Hthread : forall i th, threads s !! i = Some th -> o_inside th = true \/ (mtx (once s) = None /\ o_pc th <> O_done) ->
            exists s', step s s').
  { intros i th Hth Hm. destruct (oti_thread_moves s i th Hi Hth Hm) as [s' Hs]. exists s'. by eapply step_thread. }
  destruct (main s) as [k|k|k|st] eqn:Hm; try done; try (eexists; eapply (step_main s true); unfold main_step; by rewrite Hm).
  destruct (lookup_lt_is_Some_2 (threads s) k) as [th Hth]; [lia|].
  destruct (decide (o_pc th = O_done)) as [Hd|Hd].
  - eexists. eapply (step_main s true). unfold main_step. rewrite Hm, Hth. cbn. by rewrite decide_True.
  - destruct (mtx (once s)) as [u|] eqn:Hmx; [|apply (Hthread k th Hth); auto].
    destruct (owner_taken o_inside _ _ _ u (i_owner _ Hi) Hmx) as [|(j & x & Hj & Hin)]; [done|].
    apply (Hthread j x Hj). by left.
Qed.

(** What one_time_init() promises: init_func() runs at most once; it has run, and is
    over, whenever a call has returned; and what main() does at the end. *)
Definition initialised_once (s : ostate) : Prop :=
  inits s <= 1 /\
  (forall i th, threads s !! i = Some th -> o_calls th <> 0%nat -> inits s = 1 /\ called (once s) = true) /\
  match main s with
  | M_exit st => (st = EXIT_SUCCESS /\ inits s = 1 /\ length (threads s) = 2%nat /\
                  forall i th, threads s !! i = Some th -> o_calls th = 2%nat) \/
                 (st = EXIT_FAILURE /\ (length (threads s) <= 1)%nat)
  | _ => exists s', step s s'
  end.

Lemma at_set_bound s : Inv s -> called (once s) = true -> sumZ at_set (threads s) = 0.
Proof.
  intros Hi Hc. apply sumZ_zero. intros th (i & Hth)%list_elem_of_lookup. pose proof (i_threads _ Hi i th Hth) as [Hx _].
  unfold at_set. destruct (o_pc th); try done. destruct Hx. congruence.
Qed.
(** Only one thread is between the call of the function and the setting of the flag. *)
Lemma at_set_one s : Inv s -> sumZ at_set (threads s) <= 1.
Proof.
  intros Hi. destruct (i_owner _ Hi) as (_ & Hw & _). destruct (mtx (once s)) as [[|i]|] eqn:Hm.
  - rewrite sumZ_zero; [done|]. intros th (k & Hth)%list_elem_of_lookup. unfold at_set. destruct (o_pc th) eqn:Hp; try done.
    destruct (Hw k th Hth) as [Hx _]. unfold o_inside in Hx. rewrite Hp in Hx. by specialize (Hx eq_refl).
  - destruct (threads s !! i) as [th|] eqn:Hth.
    + pose proof (sumZ_insert at_set (threads s) i th (OThread O_done 0) Hth) as Hs.
      rewrite (sumZ_zero at_set (<[i:=_]> _)) in Hs; [unfold at_set at 2 3 in Hs; destruct (o_pc th); cbn in Hs; lia|].
      intros x (k & Hk)%list_elem_of_lookup. apply list_lookup_insert_Some in Hk as [(<- & <- & _)|[Hne Hk]]; [done|].
      unfold at_set. destruct (o_pc x) eqn:Hp; try done. destruct (Hw k x Hk) as [Hx _]. unfold o_inside in Hx.
      rewrite Hp in Hx. specialize (Hx eq_refl). congruence.
    + rewrite sumZ_zero; [done|]. intros th (k & Hk)%list_elem_of_lookup. unfold at_set. destruct (o_pc th) eqn:Hp; try done.
      destruct (Hw k th Hk) as [Hx _]. unfold o_inside in Hx. rewrite Hp in Hx. specialize (Hx eq_refl). congruence.
  - rewrite sumZ_zero; [done|]. intros th (k & Hth)%list_elem_of_lookup. unfold at_set. destruct (o_pc th) eqn:Hp; try done.
    destruct (Hw k th Hth) as [Hx _]. unfold o_inside in Hx. rewrite Hp in Hx. by specialize (Hx eq_refl).
Qed.

Lemma Inv_once s : Inv s -> initialised_once s.
Proof.
  intros Hi. pose proof (i_inits _ Hi) as Hn. pose proof (at_set_one s Hi) as H1. pose proof (at_set_bound s Hi) as H0.
  assert (Hret : forall i th, threads s !! i = Some th -> o_calls th <> 0%nat -> inits s = 1 /\ called (once s) = true).
  { intros i th Hth Hc. pose proof (i_threads _ Hi i th Hth) as [_ Hx]. specialize (Hx Hc). split; [|done].
    rewrite Hx in Hn. rewrite Hn, H0 by done. done. }
  split; [destruct (called (once s)); [rewrite H0 in Hn by done|]; lia|]. split; [exact Hret|].
  pose proof (oti_progress s Hi) as Hp. unfold exited in Hp. pose proof (i_main _ Hi) as [Hx Hy].
  destruct (main s) as [k|k|k|st] eqn:Hm; try (by apply Hp). destruct Hx as [[-> Hl]|Hx]; [left|by right].
  assert (Hall : forall i th, threads s !! i = Some th -> o_calls th = 2%nat).
  { intros i th Hth. pose proof (i_threads _ Hi i th Hth) as [Ht _]. by rewrite (Hy eq_refl i th Hth) in Ht. }
  split; [done|]. split; [|done]. destruct (lookup_lt_is_Some_2 (threads s) 0) as [th Hth]; [lia|].
  apply (Hret 0%nat th Hth). by rewrite (Hall 0%nat th Hth).
Qed.

(** one_time_init() calls the function once. In every interleaving of two threads
    that call it twice each: every run ends and none gets stuck; the function has been
    called at most once in any state; when a call has returned to any thread, the
    function has been called, and is over; and main() ends with both threads joined, the
    function called exactly once, or with a failure of pthread_create(). *)
Theorem one_time_init_correct :
  sn step start /\ forall s, rtc step start s -> initialised_once s.
Proof.
  split.
  - apply (sn_measure _ Inv oti_Inv_step measure); [by apply oti_step_measure|apply oti_Inv_start].
  - intros s Hr. apply Inv_once. by apply (reach_inv _ Inv oti_Inv_step start), Hr; apply oti_Inv_start.
Qed.
