(* ===== verification/Strerror.v ===== *)
(** Three implementations of strerror(): book-src/threads/strerror.c with one static
    buffer, strerror_tls.c with thread-local storage, strerror_tsd.c with
    thread-specific data; and strerror_test.c, which tells them apart. *)
From S2P Require Import Prelude CLib Sys.
#[local] Open Scope Z_scope.

(** * State *)

(** The strings in memory, by address; what pthread_once() and the key of
    strerror_tsd.c hold; and what has been printed. *)
Record world := World {
  mem : gmap Z bytes;
  key_created : bool;
  specific : gmap nat Z;
  lines : list bytes
}.
Definition world0 : world := World ∅ false ∅ [].

Section strerror.
(** <stdio.h>: the number of messages and the messages. *)
Context (sys_nerr : Z) (sys_errlist : Z -> option bytes).
(** Where the linker has put the static buffer, where the thread-local buffer of each
    thread is, and what malloc() returns. *)
Context (static_buf : Z) (tls_buf : nat -> Z) (malloc : world -> option Z).

(** Source: book-src/threads/strerror.c:22-23 (MAX_ERROR_LEN). *)
Definition MAX_ERROR_LEN : nat := 256.

(** What all three write into their buffer: snprintf() or a terminated strncpy(). *)
(** Source: book-src/threads/strerror.c:30-35 (strerror, message). *)
Definition message (err : Z) : bytes :=
  if (err <? 0) || (sys_nerr <=? err) then snprintf MAX_ERROR_LEN (str "Unknown error " ++ print_dec err)
  else match sys_errlist err with
       | None => snprintf MAX_ERROR_LEN (str "Unknown error " ++ print_dec err)
       | Some m => strncpy m (MAX_ERROR_LEN - 1)
       end.
Definition write (buf : Z) (b : bytes) (w : world) : world :=
  World (<[buf:=b]> (mem w)) (key_created w) (specific w) (lines w).

(** A call of thread [t]: the pointer it returns. *)
(** Source: book-src/threads/strerror.c:25-38 (strerror). *)
Definition strerror_static (t : nat) (err : Z) (w : world) : option (Z * world) :=
  Some (static_buf, write static_buf (message err) w).

(** Source: book-src/threads/strerror_tls.c:32-46 (strerror). *)
Definition strerror_tls (t : nat) (err : Z) (w : world) : option (Z * world) :=
  Some (tls_buf t, write (tls_buf t) (message err) w).

(** pthread_once(&once, createKey): the key is created by the first call. *)
(** Source: book-src/threads/strerror_tsd.c:39-50 (createKey). *)
Definition createKey (w : world) : world :=
  if key_created w then w else World (mem w) true ∅ (lines w).

(** [None]: malloc() has failed, and the call does not return: errExit() asks this very
    function for a message. *)
(** Source: book-src/threads/strerror_tsd.c:52-84 (strerror). *)
Definition strerror_tsd (t : nat) (err : Z) (w : world) : option (Z * world) :=
  let w := createKey w in
  match specific w !! t with
  | Some buf => Some (buf, write buf (message err) w)
  | None =>
      buf ← malloc w;
      let w := World (mem w) (key_created w) (<[t:=buf]> (specific w)) (lines w) in
      Some (buf, write buf (message err) w)
  end.

(** * The test *)

Context (print_ptr : Z -> bytes).
Definition printf (l : bytes) (w : world) : world := World (mem w) (key_created w) (specific w) (lines w ++ [l]).
(** printf("... str (%p) = %s\n", str, str) *)
Definition show (who : bytes) (p : Z) (w : world) : world :=
  printf (who ++ str " str (" ++ print_ptr p ++ str ") = " ++ default [] (mem w !! p)) w.

Section test.
Context (strerror : nat -> Z -> world -> option (Z * world)).

(** Source: book-src/threads/strerror_test.c:22-32 (threadFunc). *)
Definition threadFunc (t : nat) (w : world) : option world :=
  let w := printf (str "Other thread about to call strerror()") w in
  '(p, w) ← strerror t EPERM w;
  Some (show (str "Other thread:") p w).

(** Main is thread 0, and waits for the other right after creating it. *)
(** Source: book-src/threads/strerror_test.c:34-58 (main). *)
Definition test_main (w : world) : option world :=
  '(p, w) ← strerror 0%nat EINVAL w;
  let w := printf (str "Main thread has called strerror()") w in
  w ← threadFunc 1%nat w;
  Some (show (str "Main thread: ") p w).
End test.

(** * Histories of calls *)

(** The calls of the threads of a process, in the order in which they are made; the
    pointer that each thread got last. *)
Definition history (strerror : nat -> Z -> world -> option (Z * world)) (calls : list (nat * Z)) : option (gmap nat Z * world) :=
  foldl (fun acc c => '(ps, w) ← acc; '(p, w') ← strerror c.1 c.2 w; Some (<[c.1:=p]> ps, w')) (Some (∅, world0)) calls.
(** The last message a thread has asked for. *)
Definition last_of (t : nat) (calls : list (nat * Z)) : option Z :=
  foldl (fun acc c => if decide (c.1 = t) then Some c.2 else acc) None calls.

(** The pointer of every thread holds the message of its own last call. *)
Definition isolated (calls : list (nat * Z)) (ps : gmap nat Z) (w : world) : Prop :=
  (forall t, is_Some (ps !! t) <-> is_Some (last_of t calls)) /\
  (forall t p e, ps !! t = Some p -> last_of t calls = Some e -> mem w !! p = Some (message e)) /\
  (forall t u p q, ps !! t = Some p -> ps !! u = Some q -> p = q -> t = u).

Lemma history_snoc f calls c : history f (calls ++ [c]) =
  ('(ps, w) ← history f calls; '(p, w') ← f c.1 c.2 w; Some (<[c.1:=p]> ps, w')).
Proof. unfold history. by rewrite foldl_app. Qed.
Lemma last_of_snoc t calls c : last_of t (calls ++ [c]) = if decide (c.1 = t) then Some c.2 else last_of t calls.
Proof. unfold last_of. by rewrite foldl_app. Qed.

Lemma message_length err : (length (message err) <= 255)%nat.
Proof.
  unfold message, snprintf, strncpy. repeat case_match; rewrite length_take; unfold MAX_ERROR_LEN; lia.
Qed.

(** Adding a call through a pointer that no other thread has. *)
Lemma isolated_snoc calls ps w t e p w' : isolated calls ps w ->
  (forall u q, u <> t -> ps !! u = Some q -> p <> q) ->
  mem w' = <[p:=message e]> (mem w) -> isolated (calls ++ [(t, e)]) (<[t:=p]> ps) w'.
Proof.
  intros (Hdom & Hmem & Hinj) Hp Hw. split; [|split].
  - intros u. rewrite last_of_snoc. cbn. destruct (decide (t = u)) as [->|Hne].
    + rewrite lookup_insert_eq. split; intros; by eexists.
    + by rewrite lookup_insert_ne.
  - intros u q e'. rewrite last_of_snoc, Hw. cbn. destruct (decide (t = u)) as [->|Hne].
    + rewrite lookup_insert_eq. intros [= ->] [= ->]. apply lookup_insert_eq.
    + rewrite lookup_insert_ne by done. intros Hq Hl. rewrite lookup_insert_ne; [by eapply Hmem|]. by eapply Hp.
  - intros u v q r Hu Hv Hqr. apply lookup_insert_Some in Hu as [[Htu Hu]|[Htu Hu]], Hv as [[Htv Hv]|[Htv Hv]]; subst.
    + done.
    + exfalso. by eapply Hp.
    + exfalso. by eapply Hp.
    + by eapply Hinj.
Qed.

(** ** The three implementations *)

Lemma tls_isolated calls (tls_inj : forall t u, tls_buf t = tls_buf u -> t = u) :
  exists ps w, history strerror_tls calls = Some (ps, w) /\ isolated calls ps w /\
  forall t p, ps !! t = Some p -> p = tls_buf t.
Proof.
  induction calls as [|[t e] calls IH] using rev_ind.
  - exists ∅, world0. split; [done|]. split; [|done]. by split_and!.
  - destruct IH as (ps & w & Hh & Hiso & Htls). rewrite history_snoc, Hh. cbn. do 2 eexists. split; [done|]. split.
    + eapply isolated_snoc; [done| |done]. intros u q Hu Hq Heq. apply Hu, tls_inj. by rewrite <- (Htls u q).
    + intros u p Hu. apply lookup_insert_Some in Hu as [[-> <-]|[_ Hu]]; [done|by apply Htls].
Qed.

(** The buffers of strerror_tsd.c, and only they, have been allocated. *)
Lemma tsd_isolated calls (malloc_fresh : forall w p, malloc w = Some p -> mem w !! p = None) (malloc_ok : forall w, malloc w <> None) :
  exists ps w, history strerror_tsd calls = Some (ps, w) /\ isolated calls ps w /\
  specific w = ps /\ (key_created w = false -> specific w = ∅).
Proof.
  induction calls as [|[t e] calls IH] using rev_ind.
  - exists ∅, world0. split; [done|]. split; [|done]. by split_and!.
  - destruct IH as (ps & w & Hh & Hiso & Hsp & Hkey). rewrite history_snoc, Hh. cbn. unfold strerror_tsd.
    assert (Hck : createKey w = World (mem w) true (specific w) (lines w)).
    { unfold createKey. destruct w as [m [|] sp l]; [done|]. cbn in *. by rewrite Hkey. }
    rewrite Hck. cbn. rewrite Hsp. destruct (ps !! t) as [p|] eqn:Hp.
    + cbn. do 2 eexists. split; [done|]. split; [|split; [|done]].
      * eapply isolated_snoc; [done| |done]. intros u q Hu Hq ->. by apply Hu, (proj2 (proj2 Hiso) u t q q).
      * cbn. symmetry. by apply insert_id.
    + destruct (malloc _) as [p|] eqn:Hm; [|by apply malloc_ok in Hm]. cbn. apply malloc_fresh in Hm. cbn in Hm.
      do 2 eexists. split; [done|]. split; [|done].
      eapply isolated_snoc; [done| |done]. intros u q Hu Hq ->.
      destruct (proj1 (proj1 Hiso u)) as [e' He]; [by eexists|].
      pose proof (proj1 (proj2 Hiso) u q e' Hq He) as Hmem. congruence.
Qed.

Lemma static_shared calls t e :
  exists ps w, history strerror_static (calls ++ [(t, e)]) = Some (ps, w) /\
  forall u p, ps !! u = Some p -> p = static_buf /\ mem w !! p = Some (message e).
Proof.
  assert (Hh : exists ps w, history strerror_static calls = Some (ps, w) /\ forall u p, ps !! u = Some p -> p = static_buf).
  { clear t e. induction calls as [|c calls IH] using rev_ind; [by do 2 eexists|].
    destruct IH as (ps & w & Hh & Hp). rewrite history_snoc, Hh. cbn. do 2 eexists. split; [done|].
    intros u p Hu. apply lookup_insert_Some in Hu as [[_ <-]|[_ Hu]]; [done|by eapply Hp]. }
  destruct Hh as (ps & w & Hh & Hp). rewrite history_snoc, Hh. cbn. do 2 eexists. split; [done|].
  intros u p Hu. assert (p = static_buf) as ->.
  { apply lookup_insert_Some in Hu as [[_ <-]|[_ Hu]]; [done|by eapply Hp]. }
  split; [done|]. cbn. apply lookup_insert_eq.
Qed.
End strerror.

(** What makes strerror() safe for threads. Whatever the order of the calls: with
    thread-local storage and with thread-specific data (as long as malloc() succeeds)
    the pointer that a thread got from its last call still holds the message of that
    call, at most 255 characters of it, and no two threads have the same pointer; with
    the static buffer all pointers are one, and hold the message of whichever call was
    the last. *)
Theorem strerror_threads sys_nerr sys_errlist static_buf tls_buf malloc
  (tls_inj : forall t u : nat, tls_buf t = tls_buf u -> t = u)
  (malloc_fresh : forall w p, malloc w = Some p -> mem w !! p = None) (malloc_ok : forall w, malloc w <> None) :
  (forall calls, exists ps w, history (strerror_tls sys_nerr sys_errlist tls_buf) calls = Some (ps, w) /\
     isolated sys_nerr sys_errlist calls ps w) /\
  (forall calls, exists ps w, history (strerror_tsd sys_nerr sys_errlist malloc) calls = Some (ps, w) /\
     isolated sys_nerr sys_errlist calls ps w) /\
  (forall calls t e, exists ps w, history (strerror_static sys_nerr sys_errlist static_buf) (calls ++ [(t, e)]) = Some (ps, w) /\
     forall u p, ps !! u = Some p -> p = static_buf /\ mem w !! p = Some (message sys_nerr sys_errlist e)) /\
  (forall e, (length (message sys_nerr sys_errlist e) <= 255)%nat).
Proof.
  split_and!.
  - intros calls. destruct (tls_isolated sys_nerr sys_errlist tls_buf calls tls_inj) as (ps & w & ? & ? & _). by exists ps, w.
  - intros calls. destruct (tsd_isolated sys_nerr sys_errlist malloc calls malloc_fresh malloc_ok) as (ps & w & ? & ? & _).
    by exists ps, w.
  - apply static_shared.
  - apply message_length.
Qed.

(** An allocator that gives an address above all that are in use. *)
Definition toy_malloc (w : world) : option Z := Some (fresh (dom (mem w))).
Lemma strerror_threads_witness :
  exists ps w, history (strerror_tsd 134 (fun _ => None) toy_malloc) [(0%nat, EINVAL); (1%nat, EPERM)] = Some (ps, w) /\
  isolated 134 (fun _ => None) [(0%nat, EINVAL); (1%nat, EPERM)] ps w.
Proof.
  refine (proj1 (proj2 (strerror_threads 134 (fun _ => None) 0 Z.of_nat toy_malloc _ _ _)) _).
  - intros t u Htu. lia.
  - intros w p [= <-]. apply not_elem_of_dom, is_fresh.
  - done.
Defined.

(** strerror_test shows the difference: its last line has the message of the other
    thread with the static buffer, its own with the others. *)
Example strerror_test_static :
  lines <$> test_main (fun _ => str "p") (strerror_static 134 (fun e => if e =? EPERM then Some (str "P") else Some (str "I")) 0) world0 =
  Some [str "Main thread has called strerror()"; str "Other thread about to call strerror()";
        str "Other thread: str (p) = P"; str "Main thread:  str (p) = P"].
Proof. vm_compute. reflexivity. Qed.
Example strerror_test_tls :
  lines <$> test_main (fun _ => str "p") (strerror_tls 134 (fun e => if e =? EPERM then Some (str "P") else Some (str "I")) Z.of_nat) world0 =
  Some [str "Main thread has called strerror()"; str "Other thread about to call strerror()";
        str "Other thread: str (p) = P"; str "Main thread:  str (p) = I"].
Proof. vm_compute. reflexivity. Qed.
