(* ===== verification/Malloc.v ===== *)
(** A first-fit allocator on sbrk(): exercises/07-memory-allocation/malloc.c. The
    headers of the blocks are in a memory that maps addresses to them; what the user
    stores in the blocks is not modelled, only where it may. *)
From S2P Require Import Prelude CLib Sys.
#[local] Open Scope Z_scope.

(** * State *)

(** Source: exercises/07-memory-allocation/malloc.c:8-12 (struct memBlockMeta). *)
Record memBlockMeta := Meta { size : Z; next : Z; occupied : Z }.
(** sizeof(struct memBlockMeta) on x86-64 *)
Definition MEM_BLOCK_META_SIZE : Z := 24.

(** [top]: the end of what sbrk() has given so far; [out]: what has been printed. *)
Record heap := Heap { blocks : gmap Z memBlockMeta; memBlockList : Z; top : Z; out : list bytes }.
Definition heap0 (brk : Z) : heap := Heap ∅ 0 brk [].

Definition set_block (p : Z) (m : memBlockMeta) (h : heap) : heap :=
  Heap (<[p:=m]> (blocks h)) (memBlockList h) (top h) (out h).
Definition set_list (p : Z) (h : heap) : heap := Heap (blocks h) p (top h) (out h).
Definition print (l : bytes) : M heap unit := modify (fun h => Heap (blocks h) (memBlockList h) (top h) (out h ++ [l])).
(** [p->...]: undefined where there is no header. *)
Definition block (p : Z) : M heap memBlockMeta := h ← mget; deref (blocks h !! p).

Lemma union_singleton_in (x : Z) (X : gset Z) : x ∈ X -> {[ x ]} ∪ X = X.
Proof. set_solver. Qed.

(** * Operations *)

Section malloc.
(** sbrk(n): the start of [n] new bytes, or [None] when it fails. Only the allocator
    moves the program break. *)
Context (sbrk : heap -> Z -> option Z).

(** The loop of findFreeBlock(); [last] is uninitialised until a block is visited. *)
(** Source: exercises/07-memory-allocation/malloc.c:18-28 (findFreeBlock). *)
Fixpoint findFreeBlock (fuel : nat) (sz p : Z) (last : option Z) : M heap (Z * option Z) :=
  match fuel with
  | O => no_fuel
  | S fuel' =>
      if p =? 0 then mret (0, last)
      else m ← block p;
           if (occupied m =? 0) && (sz <=? size m) then mret (p, Some p)
           else findFreeBlock fuel' sz (next m) (Some p)
  end.

(** The sum wraps around in size_t, and sbrk() takes it as a signed number. *)
(** Source: exercises/07-memory-allocation/malloc.c:30-38 (requestSpace). *)
Definition requestSpace (sz : Z) : M heap Z :=
  h ← mget;
  let n := wrap_s 64 (wrap_u 64 (sz + MEM_BLOCK_META_SIZE)) in
  match sbrk h n with
  | None => mret 0
  | Some p =>
      modify (fun h => Heap (<[p:=Meta sz 0 0]> (blocks h)) (memBlockList h) (p + n) (out h));;
      mret p
  end.

(** Source: exercises/07-memory-allocation/malloc.c:48-68 (myMalloc). *)
Definition myMalloc (sz : Z) : M heap Z :=
  if sz =? 0 then mret 0
  else
    h ← mget;
    '(p, last) ← findFreeBlock (S (base.size (blocks h))) sz (memBlockList h) None;
    p ← (if p =? 0 then
           if negb (memBlockList h =? 0) then
             p ← requestSpace sz;
             l ← deref last;
             m ← block l;
             modify (set_block l (Meta (size m) p (occupied m)));;
             mret p
           else
             p ← requestSpace sz;
             modify (set_list p);;
             mret p
         else mret p);
    if p =? 0 then mret p
    else m ← block p;
         modify (set_block p (Meta (size m) (next m) 1));;
         mret (p + MEM_BLOCK_META_SIZE).

(** A failed assert() aborts. *)
(** Source: exercises/07-memory-allocation/malloc.c:70-76 (myFree). *)
Definition myFree (ptr : Z) : M heap unit :=
  let p := ptr - MEM_BLOCK_META_SIZE in
  if p =? 0 then abort_
  else
    m ← block p;
    if negb (occupied m =? 1) then abort_
    else
      modify (set_block p (Meta (size m) (next m) 0));;
      print (str "freeCall - [" ++ print_dec (size m) ++ str "][0]").

(** Source: exercises/07-memory-allocation/malloc.c:40-46 (printMemBlockList). *)
Fixpoint print_blocks (fuel : nat) (p : Z) : M heap unit :=
  match fuel with
  | O => no_fuel
  | S fuel' =>
      if p =? 0 then print (str "--------------------")
      else m ← block p;
           print (str "Size: " ++ print_dec (size m) ++ str "   Occupied: " ++ print_dec (occupied m));;
           print_blocks fuel' (next m)
  end.
Definition printMemBlockList : M heap unit :=
  print (str "--- MemBlockList ---");;
  h ← mget;
  print_blocks (S (base.size (blocks h))) (memBlockList h).

(** The program break, as "%10p" shows it. *)
Context (print_ptr : Z -> bytes).
(** Source: exercises/07-memory-allocation/malloc.c:78-78 (printBrkAddress). *)
Definition printBrkAddress : M heap unit := h ← mget; print (str "Program break address: " ++ print_ptr (top h)).

(** The array's elements are stored and printed; a store through a null pointer is
    undefined. *)
(** Source: exercises/07-memory-allocation/malloc.c:80-93 (aloc). *)
Definition aloc (sz : Z) : M heap unit :=
  arr ← myMalloc (sz * 8);
  printMemBlockList;;
  printBrkAddress;;
  for_each (seqZ 0 sz) (fun i =>
    if arr =? 0 then undefined else print (str "[" ++ print_dec i ++ str "]: [" ++ print_dec i ++ str "]"));;
  printMemBlockList;;
  print [newline].
(** Source: exercises/07-memory-allocation/malloc.c:95-107 (main). *)
Definition main : M heap unit :=
  h ← mget;
  print (str "Initial program break address: " ++ print_ptr (top h));;
  print (str "Initial program break address: " ++ print_ptr (top h));;
  aloc 10;;
  aloc 20;;
  aloc 10;;
  printBrkAddress.

(** * The list of blocks *)

(** From [p] on, the list has the blocks [ps], one after the other between [lo] and [hi]. *)
Fixpoint chain (b : gmap Z memBlockMeta) (p lo hi : Z) (ps : list Z) : Prop :=
  match ps with
  | [] => p = 0 /\ lo <= hi
  | q :: qs => p = q /\ lo <= q /\
      exists m, b !! q = Some m /\ 0 < size m /\ (occupied m = 0 \/ occupied m = 1) /\
        chain b (next m) (q + MEM_BLOCK_META_SIZE + size m) hi qs
  end.
Definition WF (h : heap) : Prop :=
  exists ps, chain (blocks h) (memBlockList h) 1 (top h) ps /\ dom (blocks h) = list_to_set ps.
(** The block of [n] bytes at [r] is in use. *)
Definition live (h : heap) (r n : Z) : Prop :=
  exists m, blocks h !! (r - MEM_BLOCK_META_SIZE) = Some m /\ occupied m = 1 /\ size m = n.
Definition fits (h : heap) (sz q : Z) : Prop :=
  exists m, blocks h !! q = Some m /\ occupied m = 0 /\ sz <= size m.

Lemma chain_bounds b p lo hi ps : chain b p lo hi ps -> lo <= hi /\
  forall q m, q ∈ ps -> b !! q = Some m -> lo <= q /\ 0 < size m /\ q + MEM_BLOCK_META_SIZE + size m <= hi.
Proof.
  revert p lo. induction ps as [|q qs IH]; intros p lo Hc; simpl in Hc.
  - split; [lia|]. intros q m Hq. by apply not_elem_of_nil in Hq.
  - destruct Hc as (-> & Hlo & m & Hm & Hs & Ho & Hc). destruct (IH _ _ Hc) as [Hle Hb].
    unfold MEM_BLOCK_META_SIZE in *. split; [lia|].
    intros q' m' [->|Hq]%elem_of_cons Hm'.
    + rewrite Hm in Hm'. injection Hm' as <-. lia.
    + destruct (Hb q' m' Hq Hm') as (? & ? & ?). lia.
Qed.

Lemma chain_after b p lo hi ps q : chain b p lo hi ps -> q ∈ ps -> lo <= q.
Proof.
  revert p lo. induction ps as [|q' qs IH]; intros p lo Hc Hq; [by apply not_elem_of_nil in Hq|].
  destruct Hc as (-> & Hlo & m & Hm & Hs & Ho & Hc). apply elem_of_cons in Hq as [->|Hq]; [done|].
  pose proof (IH _ _ Hc Hq). unfold MEM_BLOCK_META_SIZE in *. lia.
Qed.

Lemma chain_NoDup b p lo hi ps : chain b p lo hi ps -> NoDup ps.
Proof.
  revert p lo. induction ps as [|q qs IH]; intros p lo Hc; [constructor|].
  destruct Hc as (-> & Hlo & m & Hm & Hs & Ho & Hc). constructor; [|by eapply IH].
  intros Hq. pose proof (chain_after _ _ _ _ _ _ Hc Hq). unfold MEM_BLOCK_META_SIZE in *. lia.
Qed.

(** Blocks do not overlap, headers included. *)
Lemma chain_disjoint b p lo hi ps q q' m m' : chain b p lo hi ps -> q ∈ ps -> q' ∈ ps -> q <> q' ->
  b !! q = Some m -> b !! q' = Some m' ->
  q + MEM_BLOCK_META_SIZE + size m <= q' \/ q' + MEM_BLOCK_META_SIZE + size m' <= q.
Proof.
  revert p lo. induction ps as [|x xs IH]; intros p lo Hc Hq Hq' Hne Hm Hm'; [by apply not_elem_of_nil in Hq|].
  destruct Hc as (-> & Hlo & mx & Hmx & Hs & Ho & Hc).
  apply elem_of_cons in Hq as [->|Hq], Hq' as [->|Hq']; [done| | |by eapply IH].
  - left. rewrite Hm in Hmx. injection Hmx as <-. by eapply chain_after.
  - right. rewrite Hm' in Hmx. injection Hmx as <-. by eapply chain_after.
Qed.

(** A block changes its mark. *)
Lemma chain_mark b p lo hi ps q m o : chain b p lo hi ps -> b !! q = Some m -> o = 0 \/ o = 1 ->
  chain (<[q:=Meta (size m) (next m) o]> b) p lo hi ps.
Proof.
  intros Hc Hm Ho. revert p lo Hc. induction ps as [|x xs IH]; intros p lo Hc; [done|].
  destruct Hc as (-> & Hlo & mx & Hmx & Hs & Hox & Hc). split; [done|]. split; [done|].
  destruct (decide (q = x)) as [->|Hne].
  - rewrite Hm in Hmx. injection Hmx as <-. exists (Meta (size m) (next m) o).
    rewrite lookup_insert_eq. split_and!; try done. by apply IH.
  - exists mx. rewrite lookup_insert_ne by done. split_and!; try done. by apply IH.
Qed.

(** A block is added at the end of a list that is not empty. *)
Lemma chain_append b p lo hi ps l m q sz : chain b p lo hi (ps ++ [l]) -> b !! l = Some m -> hi <= q -> q <> 0 -> 0 < sz ->
  chain (<[l:=Meta (size m) q (occupied m)]> (<[q:=Meta sz 0 0]> b)) p lo (q + MEM_BLOCK_META_SIZE + sz) ((ps ++ [l]) ++ [q]).
Proof.
  intros Hc Hm Hq Hq0 Hsz. revert p lo Hc. induction ps as [|x xs IH]; intros p lo Hc; simpl in *.
  - destruct Hc as (-> & Hlo & m' & Hm' & Hs & Ho & _ & Hhi). rewrite Hm in Hm'. injection Hm' as <-.
    split; [done|]. split; [done|]. eexists. rewrite lookup_insert_eq. split; [done|]. cbn.
    split; [done|]. split; [done|]. split; [done|]. split; [lia|].
    exists (Meta sz 0 0). rewrite lookup_insert_ne by (unfold MEM_BLOCK_META_SIZE in *; lia).
    rewrite lookup_insert_eq. cbn. split_and!; try done; by left.
  - destruct Hc as (-> & Hlo & m' & Hm' & Hs & Ho & Hc). pose proof (IH _ _ Hc) as Hc'.
    assert (Hl : x < l).
    { pose proof (chain_after _ _ _ _ _ l Hc ltac:(apply elem_of_app; right; left)). unfold MEM_BLOCK_META_SIZE in *. lia. }
    assert (Hxq : x < q).
    { destruct (chain_bounds _ _ _ _ _ Hc) as [Hle _]. unfold MEM_BLOCK_META_SIZE in *. lia. }
    split; [done|]. split; [done|]. exists m'. rewrite !lookup_insert_ne by lia. done.
Qed.

(** ** The search *)

Definition fitsb (b : gmap Z memBlockMeta) (sz q : Z) : bool :=
  if b !! q is Some m then (occupied m =? 0) && (sz <=? size m) else false.
Fixpoint first_fit (b : gmap Z memBlockMeta) (sz : Z) (ps : list Z) : option Z :=
  match ps with [] => None | q :: qs => if fitsb b sz q then Some q else first_fit b sz qs end.

Lemma fitsb_spec h sz q : fitsb (blocks h) sz q = true <-> fits h sz q.
Proof.
  unfold fitsb, fits. destruct (blocks h !! q) as [m|].
  - rewrite andb_true_iff, Z.eqb_eq, Z.leb_le. split; [intros []; by exists m|intros (? & [= <-] & ?); done].
  - split; [done|by intros (? & ? & _)].
Qed.

Lemma findFreeBlock_run fuel sz h ps p lo hi l : chain (blocks h) p lo hi ps -> 1 <= lo -> (length ps < fuel)%nat ->
  findFreeBlock fuel sz p l h =
    (Done (match first_fit (blocks h) sz ps with Some q => (q, Some q) | None => (0, if last ps is Some q then Some q else l) end), h).
Proof.
  revert fuel p lo l. induction ps as [|q qs IH]; intros fuel p lo l Hc Hlo Hf; (destruct fuel as [|fuel]; [simpl in Hf; lia|]); simpl.
  - destruct Hc as [-> _]. done.
  - destruct Hc as (-> & Hq & m & Hm & Hs & Ho & Hc). rewrite (proj2 (Z.eqb_neq q 0)) by lia.
    unfold block, fitsb. munfold. rewrite Hm. cbn.
    destruct ((occupied m =? 0) && (sz <=? size m)); [done|].
    rewrite (IH fuel _ _ _ Hc) by (unfold MEM_BLOCK_META_SIZE in *; simpl in *; lia).
    do 2 f_equal. destruct (first_fit (blocks h) sz qs); [done|]. rewrite last_cons. by destruct (last qs).
Qed.

Lemma first_fit_Some h sz ps q p lo hi : chain (blocks h) p lo hi ps -> first_fit (blocks h) sz ps = Some q ->
  q ∈ ps /\ fits h sz q /\ forall q', q' ∈ ps -> fits h sz q' -> q <= q'.
Proof.
  revert p lo. induction ps as [|x xs IH]; intros p lo Hc Hf; simpl in Hf; [done|].
  destruct Hc as (-> & Hq & m & Hm & Hs & Ho & Hc). destruct (fitsb (blocks h) sz x) eqn:Hx.
  - injection Hf as <-. split; [by left|]. split; [by apply fitsb_spec|]. intros q' [->|Hq']%elem_of_cons _; [lia|].
    pose proof (chain_after _ _ _ _ _ _ Hc Hq'). unfold MEM_BLOCK_META_SIZE in *. lia.
  - destruct (IH _ _ Hc Hf) as (Hin & Hfit & Hmin). split; [by right|]. split; [done|].
    intros q' [->|Hq']%elem_of_cons Hfit'; [|by apply Hmin]. apply fitsb_spec in Hfit'. congruence.
Qed.
Lemma first_fit_None h sz ps : first_fit (blocks h) sz ps = None -> forall q, q ∈ ps -> ~ fits h sz q.
Proof.
  induction ps as [|x xs IH]; intros Hf q Hq; [by apply not_elem_of_nil in Hq|]. simpl in Hf.
  destruct (fitsb (blocks h) sz x) eqn:Hx; [done|]. apply elem_of_cons in Hq as [->|Hq]; [|by apply IH].
  rewrite <- fitsb_spec. congruence.
Qed.

Lemma WF_size h ps : chain (blocks h) (memBlockList h) 1 (top h) ps -> dom (blocks h) = list_to_set ps ->
  base.size (blocks h) = length ps.
Proof.
  intros Hc Hd. rewrite <- size_dom, Hd, size_list_to_set; [done|]. by eapply chain_NoDup.
Qed.
Lemma WF_in h ps q : dom (blocks h) = list_to_set ps -> q ∈ ps <-> is_Some (blocks h !! q).
Proof. intros Hd. by rewrite <- elem_of_dom, Hd, elem_of_list_to_set. Qed.

Lemma live_disjoint h r n r' n' : WF h -> live h r n -> live h r' n' -> r <> r' ->
  r + n <= r' - MEM_BLOCK_META_SIZE \/ r' + n' <= r - MEM_BLOCK_META_SIZE.
Proof.
  intros (ps & Hc & Hd) (m & Hm & _ & <-) (m' & Hm' & _ & <-) Hne.
  destruct (chain_disjoint _ _ _ _ ps (r - MEM_BLOCK_META_SIZE) (r' - MEM_BLOCK_META_SIZE) m m' Hc);
    try done; try (by apply (WF_in h ps _ Hd); eexists); lia.
Qed.

(** ** myMalloc() and myFree() *)

(** What sbrk() promises: addresses above what it has given, below the end of the
    address space. *)
Context (sbrk_spec : forall h n p, 0 < n -> sbrk h n = Some p -> 0 < p /\ top h <= p /\ p + n <= 2 ^ 47).

(** A block is marked as in use, or as free. *)
Lemma WF_mark h p m o : WF h -> blocks h !! p = Some m -> o = 0 \/ o = 1 -> WF (set_block p (Meta (size m) (next m) o) h).
Proof.
  intros (ps & Hc & Hd) Hm Ho. exists ps. split; [by apply chain_mark|]. cbn.
  rewrite dom_insert_L, union_singleton_in; [done|]. by eapply elem_of_dom_2.
Qed.
Lemma live_mark h p m o r n : blocks h !! p = Some m -> 
  live (set_block p (Meta (size m) (next m) o) h) r n <->
  (r - MEM_BLOCK_META_SIZE <> p /\ live h r n) \/ (r - MEM_BLOCK_META_SIZE = p /\ o = 1 /\ n = size m).
Proof.
  intros Hm. unfold live. cbn. destruct (decide (r - MEM_BLOCK_META_SIZE = p)) as [->|Hne].
  - rewrite lookup_insert_eq. split.
    + intros (x & [= <-] & Ho & Hs). cbn in *. by right.
    + intros [[? _]|(_ & -> & ->)]; [done|]. by eexists.
  - rewrite lookup_insert_ne by done. split; [intros; by left|intros [[_ ?]|[? _]]; done].
Qed.

(** The size of the request with its header, where it does not overflow. *)
Lemma request_size sz : 0 < sz <= 2 ^ 62 -> wrap_s 64 (wrap_u 64 (sz + MEM_BLOCK_META_SIZE)) = sz + MEM_BLOCK_META_SIZE.
Proof.
  intros Hsz. unfold MEM_BLOCK_META_SIZE. unfold wrap_u. rewrite Z.mod_small by lia. apply wrap_s_id; lia.
Qed.

(** A heap with one more block at its end, the list's last pointer set. *)
Lemma WF_new h p sz : WF h -> 0 < sz -> 0 < p -> top h <= p -> memBlockList h = 0 ->
  WF (Heap (<[p:=Meta sz 0 0]> (blocks h)) p (p + (sz + MEM_BLOCK_META_SIZE)) (out h)).
Proof.
  intros (ps & Hc & Hd) Hsz Hp Ht Hl. exists [p]. destruct ps as [|q qs].
  - split; cbn.
    + split; [done|]. split; [lia|]. eexists. rewrite lookup_insert_eq. split_and!; try done; [by left|cbn; lia].
    + by rewrite dom_insert_L, Hd.
  - destruct Hc as (Hq & Hlo & _). lia.
Qed.
Lemma WF_append h ps l m p sz : chain (blocks h) (memBlockList h) 1 (top h) (ps ++ [l]) ->
  dom (blocks h) = list_to_set (ps ++ [l]) -> blocks h !! l = Some m -> 0 < sz -> 0 < p -> top h <= p ->
  WF (Heap (<[l:=Meta (size m) p (occupied m)]> (<[p:=Meta sz 0 0]> (blocks h))) (memBlockList h)
           (p + (sz + MEM_BLOCK_META_SIZE)) (out h)).
Proof.
  intros Hc Hd Hm Hsz Hp Ht. exists ((ps ++ [l]) ++ [p]). split; cbn.
  - replace (p + (sz + MEM_BLOCK_META_SIZE)) with (p + MEM_BLOCK_META_SIZE + sz) by lia. eapply chain_append; try done; lia.
  - rewrite !dom_insert_L, Hd, (list_to_set_app_L _ [p]). apply elem_of_dom_2 in Hm. rewrite Hd in Hm.
    rewrite union_singleton_in by (by apply elem_of_union_r). cbn. by rewrite union_empty_r_L, (comm_L (∪)).
Qed.

(** The outcome of myMalloc(sz) in [h]: no block, or one of at least [sz] bytes that
    nobody had; the lowest that fits if there is one, or else new memory. *)
Definition allocated (h : heap) (sz r : Z) (h' : heap) : Prop :=
  WF h' /\
  if decide (r = 0) then
    (forall r' n, live h' r' n <-> live h r' n) /\ (sz = 0 \/ (forall q, ~ fits h sz q) /\ sbrk h (sz + MEM_BLOCK_META_SIZE) = None)
  else
    (forall n, ~ live h r n) /\
    exists n, sz <= n /\ (forall r' n', live h' r' n' <-> live h r' n' \/ (r' = r /\ n' = n)) /\
    ((fits h sz (r - MEM_BLOCK_META_SIZE) /\ top h' = top h /\ forall q, fits h sz q -> r - MEM_BLOCK_META_SIZE <= q) \/
     ((forall q, ~ fits h sz q) /\ n = sz /\ top h <= r - MEM_BLOCK_META_SIZE /\ top h' = r + sz)).

Lemma myMalloc_reuse h sz ps q : chain (blocks h) (memBlockList h) 1 (top h) ps -> dom (blocks h) = list_to_set ps ->
  sz <> 0 -> first_fit (blocks h) sz ps = Some q ->
  exists h', myMalloc sz h = (Done (q + MEM_BLOCK_META_SIZE), h') /\ allocated h sz (q + MEM_BLOCK_META_SIZE) h'.
Proof.
  intros Hc Hd Hsz Hf. destruct (first_fit_Some _ _ _ _ _ _ _ Hc Hf) as (Hin & (m & Hm & Ho & Hfit) & Hmin).
  pose proof (chain_after _ _ _ _ _ _ Hc Hin) as Hq.
  exists (set_block q (Meta (size m) (next m) 1) h). split.
  - unfold myMalloc. rewrite (proj2 (Z.eqb_neq sz 0)) by done. unfold mget at 1. unfold mbind at 1, M_bind at 1.
    rewrite (bind_done _ _ _ _ _ (findFreeBlock_run (S (base.size (blocks h))) sz h ps _ 1 (top h) None Hc ltac:(lia) ltac:(rewrite (WF_size h ps Hc Hd); lia))).
    rewrite Hf. cbn. rewrite (proj2 (Z.eqb_neq q 0)) by lia. munfold. unfold block. munfold.
    rewrite (proj2 (Z.eqb_neq q 0)) by lia. by rewrite Hm.
  - unfold allocated. replace (q + MEM_BLOCK_META_SIZE - MEM_BLOCK_META_SIZE) with q by lia.
    split; [apply WF_mark; [by exists ps|done|by right]|]. rewrite decide_False by (unfold MEM_BLOCK_META_SIZE; lia).
    split; [intros n (x & Hx & Hox & _); rewrite Z.add_simpl_r in Hx; congruence|].
    exists (size m). split; [done|]. split.
    + intros r' n'. rewrite live_mark by done. split.
      * intros [[_ ?]|(He & _ & ->)]; [by left|right]. split; [lia|done].
      * intros [Hl|[-> ->]]; [|right; split_and!; (done || lia)]. left. split; [|done]. intros He.
        destruct Hl as (x & Hx & Hox & _). rewrite He in Hx. congruence.
    + left. split; [by exists m|]. split; [done|]. intros q' Hq'. apply Hmin; [|done].
      destruct Hq' as (x & Hx & _). apply (WF_in h ps _ Hd). by eexists.
Qed.

(** What a block's header says but for the link. *)
Definition marks (h : heap) (q : Z) : option (Z * Z) := (fun m => (size m, occupied m)) <$> blocks h !! q.
Lemma live_marks h r n : live h r n <-> marks h (r - MEM_BLOCK_META_SIZE) = Some (n, 1).
Proof.
  unfold live, marks. destruct (blocks h !! (r - MEM_BLOCK_META_SIZE)) as [m|]; cbn.
  - split; [intros (x & [= <-] & -> & ->); done|intros [= <- <-]; by exists m].
  - split; [by intros (? & ? & _)|done].
Qed.

(** Memory from [top h] on belongs to no block. *)
Lemma above_top h q : WF h -> top h <= q -> blocks h !! q = None.
Proof.
  intros (ps & Hc & Hd) Hq. destruct (blocks h !! q) as [m|] eqn:Hm; [|done].
  destruct (chain_bounds _ _ _ _ _ Hc) as [_ Hb]. destruct (Hb q m) as (_ & ? & ?); [|done|unfold MEM_BLOCK_META_SIZE in *; lia].
  apply (WF_in h ps _ Hd). by eexists.
Qed.

Lemma allocated_new h h' p sz : WF h -> WF h' -> 0 < sz -> (forall q, ~ fits h sz q) -> 0 < p -> top h <= p ->
  top h' = p + MEM_BLOCK_META_SIZE + sz -> marks h' p = Some (sz, 1) ->
  (forall q, q <> p -> marks h' q = marks h q) -> allocated h sz (p + MEM_BLOCK_META_SIZE) h'.
Proof.
  intros Hw Hw' Hsz Hno Hp Htp Ht Hnew Hold. split; [done|].
  rewrite decide_False by (unfold MEM_BLOCK_META_SIZE; lia). rewrite Z.add_simpl_r. split.
  - intros n (m & Hm & _). rewrite Z.add_simpl_r, (above_top h p Hw Htp) in Hm. done.
  - exists sz. split; [done|]. split; [|right; split; [done|]; split; [done|]; split; [done|lia]].
    intros r' n'. rewrite !live_marks. destruct (decide (r' - MEM_BLOCK_META_SIZE = p)) as [He|Hne].
    + rewrite He, Hnew. unfold marks. rewrite (above_top h p Hw Htp). cbn. split.
      * intros [= <-]. right. split; [lia|done].
      * intros [?|[_ ->]]; done.
    + rewrite Hold by done. split; [by left|]. intros [?|[-> _]]; [done|]. lia.
Qed.
(** sbrk() failed. *)
Lemma allocated_none h h' sz : WF h' -> (forall q, ~ fits h sz q) -> sbrk h (sz + MEM_BLOCK_META_SIZE) = None ->
  (forall q, marks h' q = marks h q) -> allocated h sz 0 h'.
Proof.
  intros Hw Hno Hs Hm. split; [done|]. rewrite decide_True by done. split; [|by right].
  intros r n. by rewrite !live_marks, Hm.
Qed.

(** The end of myMalloc(). *)
Definition occupy (p : Z) : M heap Z :=
  if p =? 0 then mret p
  else m ← block p; modify (set_block p (Meta (size m) (next m) 1));; mret (p + MEM_BLOCK_META_SIZE).

Lemma requestSpace_run h sz : 0 < sz <= 2 ^ 62 -> requestSpace sz h =
  match sbrk h (sz + MEM_BLOCK_META_SIZE) with
  | None => (Done 0, h)
  | Some p => (Done p, Heap (<[p:=Meta sz 0 0]> (blocks h)) (memBlockList h) (p + (sz + MEM_BLOCK_META_SIZE)) (out h))
  end.
Proof. intros Hsz. unfold requestSpace. munfold. rewrite request_size by done. by destruct (sbrk h _). Qed.

Lemma myMalloc_first h sz : WF h -> 0 < sz <= 2 ^ 62 -> memBlockList h = 0 -> (forall q, ~ fits h sz q) ->
  exists r h', (p ← (p ← requestSpace sz; modify (set_list p);; mret p); occupy p) h = (Done r, h') /\
  allocated h sz r h'.
Proof.
  intros Hw Hsz Hl Hno. rewrite bind_bind. unfold mbind at 1, M_bind at 1. rewrite requestSpace_run by done. unfold occupy.
  destruct (sbrk h (sz + MEM_BLOCK_META_SIZE)) as [p|] eqn:Hs.
  - destruct (sbrk_spec h (sz + MEM_BLOCK_META_SIZE) p ltac:(unfold MEM_BLOCK_META_SIZE; lia) Hs) as (Hp & Htp & Hlim).
    munfold. rewrite (proj2 (Z.eqb_neq p 0)) by lia. unfold block. munfold. cbn. rewrite lookup_insert_eq. cbn.
    do 2 eexists. split; [done|]. pose proof (WF_new h p sz Hw ltac:(lia) Hp Htp Hl) as Hw'.
    apply (WF_mark _ p (Meta sz 0 0) 1) in Hw'; [|apply lookup_insert_eq|by right].
    apply allocated_new; try done; try lia; [cbn; lia| |]; unfold marks; cbn.
    + by rewrite lookup_insert_eq.
    + intros q Hq. by rewrite !lookup_insert_ne by done.
  - munfold. do 2 eexists. split; [done|]. apply allocated_none; try done. rewrite <- Hl. by destruct h.
Qed.

Lemma myMalloc_more h sz ps l : chain (blocks h) (memBlockList h) 1 (top h) (ps ++ [l]) ->
  dom (blocks h) = list_to_set (ps ++ [l]) -> 0 < sz <= 2 ^ 62 -> (forall q, ~ fits h sz q) ->
  exists r h', (p ← (p ← requestSpace sz; m ← block l; modify (set_block l (Meta (size m) p (occupied m)));; mret p);
                occupy p) h = (Done r, h') /\
  allocated h sz r h'.
Proof.
  intros Hc Hd Hsz Hno. assert (Hw : WF h) by (by exists (ps ++ [l])). rewrite bind_bind. unfold mbind at 1, M_bind at 1. unfold occupy.
  assert (Hin : l ∈ ps ++ [l]) by (apply elem_of_app; right; left).
  destruct (proj1 (WF_in h (ps ++ [l]) l Hd) Hin) as [m Hm]. rewrite requestSpace_run by done.
  destruct (sbrk h (sz + MEM_BLOCK_META_SIZE)) as [p|] eqn:Hs.
  - destruct (sbrk_spec h (sz + MEM_BLOCK_META_SIZE) p ltac:(unfold MEM_BLOCK_META_SIZE; lia) Hs) as (Hp & Htp & Hlim).
    assert (Hlp : l <> p) by (intros ->; by rewrite (above_top h p Hw Htp) in Hm).
    unfold block. munfold. cbn. rewrite lookup_insert_ne, Hm by done. cbn. rewrite (proj2 (Z.eqb_neq p 0)) by lia. cbn.
    rewrite lookup_insert_ne, lookup_insert_eq by done. cbn. do 2 eexists. split; [done|].
    pose proof (WF_append h ps l m p sz Hc Hd Hm ltac:(lia) Hp Htp) as Hw'.
    apply (WF_mark _ p (Meta sz 0 0) 1) in Hw'; [|cbn; by rewrite lookup_insert_ne, lookup_insert_eq|by right].
    apply allocated_new; try done; try lia; [cbn; lia| |]; unfold marks; cbn.
    + by rewrite lookup_insert_eq.
    + intros q Hq. rewrite lookup_insert_ne by done. destruct (decide (q = l)) as [->|Hql].
      * by rewrite lookup_insert_eq, Hm.
      * by rewrite !lookup_insert_ne by done.
  - unfold block. munfold. rewrite Hm. cbn. do 2 eexists. split; [done|].
    apply allocated_none; try done.
    + exists (ps ++ [l]). cbn. split; [|by rewrite dom_insert_L, union_singleton_in by (by eapply elem_of_dom_2)].
      rewrite insert_id; [done|]. rewrite Hm. f_equal. 
      assert (Hn : next m = 0); [|rewrite <- Hn; by destruct m].
      clear -Hc Hm. revert Hc. generalize (memBlockList h) 1. induction ps as [|x xs IH]; intros p lo Hc; simpl in Hc.
      * destruct Hc as (_ & _ & m' & Hm' & _ & _ & Hn & _). congruence.
      * destruct Hc as (_ & _ & m' & _ & _ & _ & Hc). by eapply IH.
    + intros q. unfold marks. cbn. destruct (decide (q = l)) as [->|Hql]; [by rewrite lookup_insert_eq, Hm|].
      by rewrite lookup_insert_ne.
Qed.

Lemma myMalloc_spec h sz : WF h -> 0 <= sz <= 2 ^ 62 -> exists r h', myMalloc sz h = (Done r, h') /\ allocated h sz r h'.
Proof.
  intros (ps & Hc & Hd) Hsz. assert (HWF : WF h) by (by exists ps). destruct (decide (sz = 0)) as [->|Hnz].
  { exists 0, h. split; [done|]. split; [done|]. rewrite decide_True by done. split; [done|by left]. }
  destruct (first_fit (blocks h) sz ps) as [q|] eqn:Hf.
  { destruct (myMalloc_reuse h sz ps q Hc Hd Hnz Hf) as (h' & Hr & Ha). by exists (q + MEM_BLOCK_META_SIZE), h'. }
  assert (Hno : forall q, ~ fits h sz q).
  { intros q Hq. eapply first_fit_None; [done| |done]. destruct Hq as (m & Hm & _). apply (WF_in h ps _ Hd). by eexists. }
  unfold myMalloc. rewrite (proj2 (Z.eqb_neq sz 0)) by lia. unfold mget at 1. unfold mbind at 1, M_bind at 1.
  pose proof (findFreeBlock_run (S (base.size (blocks h))) sz h ps _ 1 (top h) None Hc ltac:(lia)
    ltac:(rewrite (WF_size h ps Hc Hd); lia)) as Hrun.
  rewrite (bind_done _ _ _ _ _ Hrun), Hf. clear Hrun.
  destruct ps as [|l ps' _] using rev_ind.
  - rewrite (proj1 Hc). destruct (myMalloc_first h sz HWF ltac:(lia) (proj1 Hc) Hno) as (r & h' & Hr & Ha).
    by exists r, h'.
  - rewrite last_snoc. assert (Hl : memBlockList h <> 0).
    { destruct ps'; destruct Hc as (-> & ? & _); lia. }
    rewrite (proj2 (Z.eqb_neq _ _) Hl).
    destruct (myMalloc_more h sz ps' l Hc Hd ltac:(lia) Hno) as (r & h' & Hr & Ha). by exists r, h'.
Qed.

Lemma myFree_spec h r n : WF h -> live h r n ->
  exists h', myFree r h = (Done tt, h') /\ WF h' /\ (forall r' n', live h' r' n' <-> live h r' n' /\ r' <> r) /\
  fits h' n (r - MEM_BLOCK_META_SIZE).
Proof.
  intros Hw (m & Hm & Ho & <-). assert (Hp : r - MEM_BLOCK_META_SIZE <> 0).
  { destruct Hw as (ps & Hc & Hd). assert (Hin : r - MEM_BLOCK_META_SIZE ∈ ps) by (apply (WF_in h ps _ Hd); by eexists).
    pose proof (chain_after _ _ _ _ _ _ Hc Hin). lia. }
  unfold myFree. rewrite (proj2 (Z.eqb_neq _ 0)) by done. unfold block. munfold. rewrite Hm. rewrite Ho. cbn.
  eexists. split; [done|].
  pose proof (WF_mark h _ m 0 Hw Hm ltac:(by left)) as Hw'. split; [exact Hw'|]. split.
  - intros r' n'. etransitivity; [exact (live_mark h (r - MEM_BLOCK_META_SIZE) m 0 r' n' Hm)|]. split.
    + intros [[Hne ?]|(_ & ? & _)]; [|done]. split; [done|]. by intros ->.
    + intros [? Hne]. left. split; [|done]. unfold MEM_BLOCK_META_SIZE. lia.
  - exists (Meta (size m) (next m) 0). cbn. rewrite lookup_insert_eq. done.
Qed.
End malloc.

(** C26: The allocator, as long as sbrk() gives new memory and no request exceeds 2^62
    bytes. myMalloc() returns a null pointer, and changes no block, only for size 0 or
    when no free block fits and sbrk() fails; otherwise a block of at least the size
    asked for that was not in use: the lowest free one that fits, without a call of
    sbrk(), or else new memory of exactly that size. Blocks in use never overlap each
    other or a header, before and after any call; myFree() of a block in use makes it
    available again, and changes no other. *)
Theorem malloc_correct sbrk
  (sbrk_spec : forall h n p, 0 < n -> sbrk h n = Some p -> 0 < p /\ top h <= p /\ p + n <= 2 ^ 47) :
  (forall brk, 0 < brk -> WF (heap0 brk)) /\
  (forall h sz, WF h -> 0 <= sz <= 2 ^ 62 -> exists r h', myMalloc sbrk sz h = (Done r, h') /\ allocated sbrk h sz r h') /\
  (forall h r n, WF h -> live h r n ->
     exists h', myFree r h = (Done tt, h') /\ WF h' /\ (forall r' n', live h' r' n' <-> live h r' n' /\ r' <> r) /\
                fits h' n (r - MEM_BLOCK_META_SIZE)) /\
  (forall h r n r' n', WF h -> live h r n -> live h r' n' -> r <> r' ->
     r + n <= r' - MEM_BLOCK_META_SIZE \/ r' + n' <= r - MEM_BLOCK_META_SIZE).
Proof.
  split_and!.
  - intros brk Hb. exists []. split; [|done]. split; [done|cbn; lia].
  - by apply myMalloc_spec.
  - apply myFree_spec.
  - apply live_disjoint.
Qed.

(** A program break that can be moved up to 2^47. *)
Definition toy_sbrk (h : heap) (n : Z) : option Z :=
  if (0 <? top h) && (0 <? n) && (top h + n <=? 2 ^ 47) then Some (top h) else None.
Lemma malloc_correct_witness : exists r h', myMalloc toy_sbrk 10 (heap0 4096) = (Done r, h') /\ allocated toy_sbrk (heap0 4096) 10 r h'.
Proof.
  destruct (malloc_correct toy_sbrk) as (H0 & Hm & _).
  - intros h n p Hn. unfold toy_sbrk. destruct (Z.ltb_spec 0 (top h)), (Z.ltb_spec 0 n), (Z.leb_spec (top h + n) (2 ^ 47));
      cbn; intros [= <-]; lia.
  - apply Hm; [by apply H0|done].
Defined.

(** A request close to SIZE_MAX wraps around when the header is added: eight bytes are
    taken from the system for a block that is listed with 2^64 - 16. *)
Lemma malloc_overflow :
  myMalloc toy_sbrk (2 ^ 64 - 16) (heap0 4096) =
  (Done 4120, Heap {[ 4096 := Meta (2 ^ 64 - 16) 0 1 ]} 4096 4104 []).
Proof. vm_compute. reflexivity. Qed.

(** Reuse: a block that was given back is found again. *)
Example malloc_reuses :
  (a ← myMalloc toy_sbrk 100; b ← myMalloc toy_sbrk 50; myFree a;; c ← myMalloc toy_sbrk 80; mret (a, b, c))
    (heap0 4096) = (Done (4120, 4244, 4120),
      Heap (list_to_map [(4096, Meta 100 4220 1); (4220, Meta 50 0 1)]) 4096 4294 [str "freeCall - [100][0]"]).
Proof. vm_compute. reflexivity. Qed.
