(* ===== verification/FileServer.v ===== *)
(** A file server on message queues: book-src/svmsg/svmsg_file_server.c and
    svmsg_file_client.c. A request names a file and the queue of the client; the
    answer is a series of messages, whose last one has a type of its own. *)
From S2P Require Import Prelude CLib Sys ErrorFunctions Calls.
#[local] Open Scope Z_scope.

(** * The protocol *)

Definition SERVER_KEY : Z := 0x1aaaaaa1.
Definition IPC_PRIVATE : Z := 0.
Definition PATH_MAX : nat := Z.to_nat 4096.
(** Source: book-src/svmsg/svmsg_file.h:27-33 (SERVER_KEY, struct requestMsg). *)
Record requestMsg := RequestMsg { clientId : Z; pathname : bytes }.
(** Source: book-src/svmsg/svmsg_file.h:42-47 (RESP_MSG_SIZE, struct responseMsg). *)
Record responseMsg := ResponseMsg { mtype : Z; data : bytes }.
Definition RESP_MSG_SIZE : nat := Z.to_nat 8192.
(** Source: book-src/svmsg/svmsg_file.h:51-51 (RESP_MT_FAILURE). *)
Definition RESP_MT_FAILURE : Z := 1.
(** Source: book-src/svmsg/svmsg_file.h:52-52 (RESP_MT_DATA). *)
Definition RESP_MT_DATA : Z := 2.
(** Source: book-src/svmsg/svmsg_file.h:53-53 (RESP_MT_END). *)
Definition RESP_MT_END : Z := 3.

(** The calls of the two programs. A message of the server's queue is a request, one of
    a client's queue a response; fork() hands the request to a child. *)
Class MsgOS (S : Type) := {
  sys_open : bytes -> M S (sysres Z);
  sys_read : Z -> nat -> M S (sysres bytes);
  sys_msgget : Z -> M S (sysres Z);
  sys_msgsnd : Z -> responseMsg -> M S (sysres unit);
  sys_msgrcv : Z -> nat -> M S (sysres responseMsg);
  sys_msgsnd_request : Z -> requestMsg -> M S (sysres unit);
  sys_msgrcv_request : Z -> M S (sysres requestMsg);
  sys_msgctl_rmid : Z -> M S (sysres unit);
  sys_sigaction_chld : M S (sysres unit);
  sys_fork_serve : requestMsg -> M S (sysres Z);
  sys_atexit_fails : M S bool
}.

Section programs.
Context {S : Type} `{HasLibc S} `{MsgOS S}.
Context (strerror : Z -> bytes).

(** * The server *)

(** One round of the loop over the file: [false] when it is over. *)
(** Source: book-src/svmsg/svmsg_file_server.c:63-65 (serveRequest, loop). *)
Definition send_round (req : requestMsg) (fd : Z) (_ : unit) : M S (unit + unit) :=
  numRead ← call (sys_read fd RESP_MSG_SIZE);
  match numRead with
  | None | Some [] => mret (inr tt)
  | Some bs =>
      r ← call (sys_msgsnd (clientId req) (ResponseMsg RESP_MT_DATA bs));
      mret (if r is None then inr tt else inl tt)
  end.

(** The text of the failure has its terminating null. *)
(** Source: book-src/svmsg/svmsg_file_server.c:44-71 (serveRequest). *)
Definition serveRequest (fuel : nat) (req : requestMsg) : M S unit :=
  fd ← call (sys_open (pathname req));
  match fd with
  | None =>
      call (sys_msgsnd (clientId req) (ResponseMsg RESP_MT_FAILURE (str "Couldn't open" ++ [NUL])));;
      c_exit EXIT_FAILURE
  | Some fd =>
      iter fuel (send_round req fd) tt;;
      call (sys_msgsnd (clientId req) (ResponseMsg RESP_MT_END []));;
      mret tt
  end.

(** The child: [serveRequest(&req); _exit(EXIT_SUCCESS);] *)
(** Source: book-src/svmsg/svmsg_file_server.c:114-117 (main, child). *)
Definition server_child (fuel : nat) (req : requestMsg) : M S unit := serveRequest fuel req;; c__exit EXIT_SUCCESS.

(** One round of the server's loop. *)
(** Source: book-src/svmsg/svmsg_file_server.c:99-120 (main, loop). *)
Definition server_round (serverId : Z) (_ : unit) : M S (unit + unit) :=
  msg ← call (sys_msgrcv_request serverId);
  match msg with
  | None =>
      e ← get_errno;
      if e =? EINTR then mret (inl tt) else errMsg strerror (str "msgrcv");; mret (inr tt)
  | Some req =>
      pid ← call (sys_fork_serve req);
      match pid with
      | None => errMsg strerror (str "fork");; mret (inr tt)
      | Some _ => mret (inl tt)
      end
  end.

(** Source: book-src/svmsg/svmsg_file_server.c:73-127 (main). *)
Definition server_main (fuel : nat) : M S unit :=
  serverId ← echecked strerror (sys_msgget SERVER_KEY) (str "msgget");
  echecked strerror sys_sigaction_chld (str "sigaction");;
  iter fuel (server_round serverId) tt;;
  echecked strerror (sys_msgctl_rmid serverId) (str "msgctl");;
  c_exit EXIT_SUCCESS.

(** * The client *)

(** Runs on every exit() once it is registered. *)
(** Source: book-src/svmsg/svmsg_file_client.c:25-30 (removeQueue). *)
Definition removeQueue (clientId : Z) : M S unit := echecked strerror (sys_msgctl_rmid clientId) (str "msgctl");; mret tt.
Definition at_exit {A} (handler : M S unit) (m : M S A) : M S A := fun s =>
  match m s with
  | (Exited n, s') => (handler;; exit_ n) s'
  | r => r
  end.

(** The loop over the messages: the total of the bytes and the number of messages. *)
(** Source: book-src/svmsg/svmsg_file_client.c:85-92 (main, loop). *)
Definition client_round (clientId : Z) (x : responseMsg * Z * Z) : M S (responseMsg * Z * Z + Z * Z) :=
  let '(resp, totBytes, numMsgs) := x in
  if mtype resp =? RESP_MT_DATA then
    resp ← echecked strerror (sys_msgrcv clientId RESP_MSG_SIZE) (str "msgrcv");
    mret (inl (resp, totBytes + Z.of_nat (length (data resp)), i32 (numMsgs + 1)))
  else mret (inr (totBytes, numMsgs)).

(** After the queues are there. *)
(** Source: book-src/svmsg/svmsg_file_client.c:60-96 (main, request and answer). *)
Definition client_talk (fuel : nat) (serverId clientId : Z) (path : bytes) : M S unit :=
  echecked strerror (sys_msgsnd_request serverId (RequestMsg clientId (strncpy path (PATH_MAX - 1)))) (str "msgsnd");;
  resp ← echecked strerror (sys_msgrcv clientId RESP_MSG_SIZE) (str "msgrcv");
  if mtype resp =? RESP_MT_FAILURE then
    printf (cstring (data resp) ++ [newline]);;
    c_exit EXIT_FAILURE
  else
    '(totBytes, numMsgs) ← iter fuel (client_round clientId) (resp, Z.of_nat (length (data resp)), 1);
    printf (str "Received " ++ print_dec totBytes ++ str " bytes (" ++ print_dec numMsgs ++ str " messages)" ++ [newline]);;
    c_exit EXIT_SUCCESS.

(** Source: book-src/svmsg/svmsg_file_client.c:32-97 (main). *)
Definition client_main (fuel : nat) (argv0 : bytes) (args : list bytes) : M S unit :=
  match args with
  | [path] =>
      if streq path (str "--help") then usageErr (argv0 ++ str " pathname" ++ [newline])
      else if (PATH_MAX - 1 <? strlen path)%nat then
        cmdLineErr (str "pathname too long (max: 4095 bytes)" ++ [newline])
      else
        serverId ← echecked strerror (sys_msgget SERVER_KEY) (str "msgget - server message queue");
        clientId ← echecked strerror (sys_msgget IPC_PRIVATE) (str "msgget - client message queue");
        bad ← sys_atexit_fails;
        if (bad : bool) then errExit strerror (str "atexit")
        else at_exit (removeQueue clientId) (client_talk fuel serverId clientId path)
  | _ => usageErr (argv0 ++ str " pathname" ++ [newline])
  end.
End programs.

(** * What the calls promise *)

(** Files, descriptors and queues: [rest] is what is still to be read on a descriptor.
    Queues are first in, first out; a call that fails changes nothing, and calls fail
    only where the system is not [reliable]. *)
Class MsgSpec (S : Type) `{HasLibc S} `{MsgOS S} := {
  reliable : Prop;
  file : S -> bytes -> option bytes;
  rest : S -> Z -> bytes;
  queue : S -> Z -> list responseMsg;
  frame : S -> S -> Prop := fun s s' => file s' = file s /\ libc_of s' = libc_of s;
  set_libc_views : forall l s, file (set_libc l s) = file s /\ rest (set_libc l s) = rest s /\ queue (set_libc l s) = queue s;
  open_spec : forall p s,
    post (fun r s' => frame s s' /\ queue s' = queue s /\
      match r with SOk fd => file s p = Some (rest s' fd) | SErr _ => reliable -> file s p = None end)
      (fun _ _ => False) (sys_open p s);
  read_spec : forall fd n s, (0 < n)%nat ->
    post (fun r s' => frame s s' /\ queue s' = queue s /\
      match r with
      | SOk bs => rest s fd = bs ++ rest s' fd /\ (length bs <= n)%nat /\ (bs = [] -> rest s fd = [])
      | SErr _ => ~ reliable
      end) (fun _ _ => False) (sys_read fd n s);
  msgsnd_spec : forall q m s,
    post (fun r s' => frame s s' /\ rest s' = rest s /\
      match r with
      | SOk _ => forall k, queue s' k = if decide (k = q) then queue s q ++ [m] else queue s k
      | SErr _ => ~ reliable /\ queue s' = queue s
      end) (fun _ _ => False) (sys_msgsnd q m s);
  msgrcv_spec : forall q n m ms s, queue s q = m :: ms -> (length (data m) <= n)%nat ->
    post (fun r s' => frame s s' /\
      match r with SOk m' => m' = m /\ queue s' q = ms | SErr _ => ~ reliable end)
      (fun _ _ => False) (sys_msgrcv q n s);
  msgsnd_request_spec : forall q req s,
    post (fun r s' => frame s s' /\ rest s' = rest s /\ queue s' = queue s /\ match r with SOk _ => True | SErr _ => ~ reliable end)
      (fun _ _ => False) (sys_msgsnd_request q req s);
  rmid_spec : forall q s,
    post (fun r s' => frame s s' /\ match r with SOk _ => queue s' q = [] | SErr _ => ~ reliable end)
      (fun _ _ => False) (sys_msgctl_rmid q s)
}.

Section correct.
Context {S : Type} `{HL : HasLibc S} `{HM : !MsgOS S} `{HS : !MsgSpec S}.
Context (strerror : Z -> bytes).

Lemma views_set l (s : S) : queue (set_libc l s) = queue s.
Proof. apply set_libc_views. Qed.
Lemma rest_set l (s : S) : rest (set_libc l s) = rest s.
Proof. apply set_libc_views. Qed.
Lemma file_set l (s : S) : file (set_libc l s) = file s.
Proof. apply set_libc_views. Qed.

(** A call whose error the program only tells from success. *)
Lemma call_views {A} (m : M S (sysres A)) (R : sysres A -> S -> Prop) s :
  post R (fun _ _ => False) (m s) ->
  post (fun o s' => exists s1, queue s' = queue s1 /\ rest s' = rest s1 /\ file s' = file s1 /\
          match o with Some a => R (SOk a) s1 /\ s' = s1 | None => exists e, R (SErr e) s1 end)
    (fun _ _ => False) (call m s).
Proof.
  intros Hm. unfold call. apply post_bind. eapply post_mono; [| |exact Hm]; [|done]. intros [a|e] s1 Hr.
  - by exists s1.
  - exists s1. munfold. unfold set_errno, modify. cbn. rewrite views_set, rest_set, file_set. split_and!; try done. by exists e.
Qed.

(** ** The server's child *)

(** Messages with the file's data, in chunks. *)
Definition data_msgs (chunks : list bytes) : list responseMsg := ResponseMsg RESP_MT_DATA <$> chunks.
Definition END_MSG : responseMsg := ResponseMsg RESP_MT_END [].
Definition chunk_ok (c : bytes) : Prop := c <> [] /\ (length c <= RESP_MSG_SIZE)%nat.
(** Only queue [q] has changed. *)
Definition other_queues (q : Z) (s s' : S) : Prop := forall k, k <> q -> queue s' k = queue s k.

Lemma RESP_MSG_SIZE_pos : (0 < RESP_MSG_SIZE)%nat.
Proof. unfold RESP_MSG_SIZE. lia. Qed.

(** The loop: what it has sent is the beginning of the file, and all of it when no call
    has failed. *)
Lemma send_loop fuel req fd s : (length (rest s fd) < fuel)%nat ->
  post (fun _ s' => other_queues (clientId req) s s' /\ file s' = file s /\
    exists chunks, queue s' (clientId req) = queue s (clientId req) ++ data_msgs chunks /\ Forall chunk_ok chunks /\
      concat chunks `prefix_of` rest s fd /\ (reliable -> concat chunks = rest s fd))
    (fun _ _ => False) (iter fuel (send_round req fd) tt s).
Proof.
  revert s. induction fuel as [|fuel IH]; intros s Hf; [lia|]. cbn [iter]. unfold send_round at 2. rewrite bind_bind.
  apply post_bind. eapply post_mono; [| |exact (call_views _ _ s (read_spec fd RESP_MSG_SIZE s RESP_MSG_SIZE_pos))]; [|done].
  assert (Hstop : forall s' s1, queue s' = queue s1 -> file s' = file s1 -> queue s1 = queue s -> file s1 = file s ->
    (reliable -> rest s fd = []) -> post (fun _ s' => other_queues (clientId req) s s' /\ file s' = file s /\
    exists chunks, queue s' (clientId req) = queue s (clientId req) ++ data_msgs chunks /\ Forall chunk_ok chunks /\
      concat chunks `prefix_of` rest s fd /\ (reliable -> concat chunks = rest s fd)) (fun _ _ => False)
      ((r ← mret (inr tt); match r with inl x' => iter fuel (send_round req fd) x' | inr res => mret res end) s')).
  { intros s' s1 Hq Hfi Hq1 Hf1 Hr. cbn. split; [intros k _; congruence|]. split; [congruence|]. exists [].
    rewrite app_nil_r. split; [congruence|]. split; [done|]. split; [apply prefix_nil|]. intros Hrel. by rewrite Hr. }
  intros o s' (s1 & Hq & Hre & Hfi & Ho). destruct o as [[|b bs]|].
  - destruct Ho as [((Hf1 & _) & Hq1 & Hb & _ & Hnil) ->]. apply (Hstop s1 s1); auto.
  - destruct Ho as [((Hf1 & _) & Hq1 & Hb & Hlen & _) ->]. rewrite bind_bind. apply post_bind.
    eapply post_mono; [| |exact (call_views _ _ s1 (msgsnd_spec (clientId req) (ResponseMsg RESP_MT_DATA (b :: bs)) s1))]; [|done].
    intros o s2 (s3 & Hq3 & Hr3 & Hf3 & Ho). destruct o as [u|].
    + destruct Ho as [((Hf2 & _) & Hr2 & Hsent) ->]. rewrite mret_bind.
      assert (Hfuel : (length (rest s3 fd) < fuel)%nat).
      { rewrite Hr2. apply (f_equal length) in Hb. rewrite length_app in Hb. simpl in Hb. lia. }
      eapply post_mono; [| |exact (IH s3 Hfuel)]; [|done]. intros _ s4 (Hoth & Hfi4 & chunks & Hq4 & Hok & Hpre & Hall).
      split; [intros k Hk; rewrite (Hoth k Hk), Hsent, decide_False by done; congruence|]. split; [congruence|].
      exists ((b :: bs) :: chunks). rewrite Hq4, Hsent, decide_True, <- app_assoc by done.
      split; [by rewrite Hq1|]. split; [by constructor|]. cbn [concat]. rewrite Hr2 in Hpre, Hall. rewrite Hb.
      split; [by apply prefix_app|]. intros Hrel. by rewrite Hall.
    + destruct Ho as (e & (Hf2 & _) & Hr2 & Hnr & Hq2). apply (Hstop s2 s3); (congruence || done).
  - destruct Ho as (e & (Hf1 & _) & Hq1 & Hnr). apply (Hstop s' s1); (congruence || done).
Qed.

(** What the child of the server does for a request. *)
Definition served (req : requestMsg) (s : S) (s' : S) : Prop :=
  other_queues (clientId req) s s' /\
  exists content chunks ends, file s (pathname req) = Some content /\
    queue s' (clientId req) = queue s (clientId req) ++ data_msgs chunks ++ ends /\ Forall chunk_ok chunks /\
    concat chunks `prefix_of` content /\ (ends = [] \/ ends = [END_MSG]) /\
    (reliable -> concat chunks = content /\ ends = [END_MSG]).
Definition FAILURE_MSG : responseMsg := ResponseMsg RESP_MT_FAILURE (str "Couldn't open" ++ [NUL]).
Definition refused (req : requestMsg) (s : S) (e : ending) (s' : S) : Prop :=
  e = EExit EXIT_FAILURE /\ other_queues (clientId req) s s' /\
  (queue s' (clientId req) = queue s (clientId req) \/ queue s' (clientId req) = queue s (clientId req) ++ [FAILURE_MSG]) /\
  (reliable -> file s (pathname req) = None /\ queue s' (clientId req) = queue s (clientId req) ++ [FAILURE_MSG]).

Lemma serveRequest_spec fuel req s : (forall c, file s (pathname req) = Some c -> (length c < fuel)%nat) ->
  post (fun _ => served req s) (refused req s) (serveRequest fuel req s).
Proof.
  intros Hfuel. unfold serveRequest. apply post_bind.
  eapply post_mono; [| |exact (call_views _ _ s (open_spec (pathname req) s))]; [|done].
  intros o s' (s1 & Hq & Hre & Hfi & Ho). destruct o as [fd|].
  - destruct Ho as [((Hf1 & _) & Hq1 & Hcont) ->]. apply post_bind.
    eapply post_mono; [| |exact (send_loop fuel req fd s1 (Hfuel _ Hcont))]; [|done].
    intros _ s2 (Hoth & Hf2 & chunks & Hq2 & Hok & Hpre & Hall). apply post_bind.
    eapply post_mono; [| |exact (call_views _ _ s2 (msgsnd_spec (clientId req) END_MSG s2))]; [|done].
    intros o s3 (s4 & Hq4 & _ & _ & Ho). assert (Hserved : forall s3 ends, (forall k, k <> clientId req -> queue s3 k = queue s2 k) ->
      queue s3 (clientId req) = queue s2 (clientId req) ++ ends -> ends = [] \/ ends = [END_MSG] ->
      (reliable -> ends = [END_MSG]) -> served req s s3).
    { intros s5 ends Ho5 Hq5 He Hr. split; [intros k Hk; rewrite Ho5, Hoth by done; by rewrite Hq1|].
      exists (rest s1 fd), chunks, ends. split; [done|]. split; [by rewrite Hq5, Hq2, Hq1, <- app_assoc|].
      split; [done|]. split; [done|]. split; [done|]. intros Hrel. split; [by apply Hall|by apply Hr]. }
    destruct o as [u|]; cbn.
    + destruct Ho as [(_ & _ & Hsent) ->]. apply (Hserved s4 [END_MSG]); [|by rewrite Hsent, decide_True|by right|done].
      intros k Hk. by rewrite Hsent, decide_False.
    + destruct Ho as (e & _ & _ & Hnr & Hq3). apply (Hserved s3 []); [intros k _; congruence|rewrite app_nil_r; congruence|by left|done].
  - destruct Ho as (e & (Hf1 & _) & Hq1 & Hnone). apply post_bind.
    eapply post_mono; [| |exact (call_views _ _ s' (msgsnd_spec (clientId req) FAILURE_MSG s'))]; [|done].
    intros o s2 (s3 & Hq3 & _ & _ & Ho). unfold c_exit, fflush_stdout, exit_. munfold. cbn.
    split; [done|]. unfold other_queues. rewrite views_set. destruct o as [u|].
    + destruct Ho as [(_ & _ & Hsent) ->]. split; [intros k Hk; rewrite Hsent, decide_False by done; congruence|].
      rewrite Hsent, decide_True by done. split; [right; congruence|]. intros Hrel. split; [by apply Hnone|congruence].
    + destruct Ho as (e' & _ & _ & Hnr & Hq2). split; [intros k _; congruence|]. split; [left; congruence|done].
Qed.

(** ** The client *)

(** A checked call of a reliable system. *)
Lemma echecked_reliable {A} (m : M S (sysres A)) msg (R : sysres A -> S -> Prop) s :
  post R (fun _ _ => False) (m s) -> (forall e s', ~ R (SErr e) s') ->
  post (fun a s' => R (SOk a) s') (fun _ _ => False) (echecked strerror m msg s).
Proof.
  intros Hm Hno. unfold echecked, checked_by, call. rewrite bind_bind. apply post_bind.
  eapply post_mono; [| |exact Hm]; [|done]. intros [a|e] s' Hr; [done|]. by destruct (Hno e s').
Qed.

Lemma msgrcv_reliable q m ms s : reliable -> queue s q = m :: ms -> (length (data m) <= RESP_MSG_SIZE)%nat ->
  post (fun m' s' => frame s s' /\ m' = m /\ queue s' q = ms) (fun _ _ => False)
    (echecked strerror (sys_msgrcv q RESP_MSG_SIZE) (str "msgrcv") s).
Proof.
  intros Hrel Hq Hl. eapply post_mono; [| |apply (echecked_reliable _ _ _ s (msgrcv_spec q RESP_MSG_SIZE m ms s Hq Hl))]; [done|done|].
  intros e s' [_ Hn]. done.
Qed.

Definition bytes_of (chunks : list bytes) : Z := Z.of_nat (length (concat chunks)).

Lemma client_loop fuel q chunks resp tot num s : reliable -> Forall chunk_ok chunks ->
  resp :: queue s q = data_msgs chunks ++ [END_MSG] -> (length chunks < fuel)%nat ->
  0 <= num /\ num + Z.of_nat (length chunks) <= INT_MAX ->
  post (fun r s' => r = (tot - Z.of_nat (length (data resp)) + bytes_of chunks, num + Z.of_nat (length chunks)) /\
                    queue s' q = [] /\ frame s s')
    (fun _ _ => False) (iter fuel (client_round strerror q) (resp, tot, num) s).
Proof.
  intros Hrel. revert chunks resp tot num s. induction fuel as [|fuel IH]; intros chunks resp tot num s Hok Hq Hf Hn; [lia|].
  cbn [iter]. unfold client_round at 2. destruct chunks as [|c cs]; cbn in Hq; injection Hq as -> Hq.
  - cbn. split_and!; try done. f_equal; unfold bytes_of; cbn; lia.
  - cbn [mtype]. rewrite Z.eqb_refl. apply Forall_cons in Hok as [[_ Hlen] Hok]. rewrite bind_bind. apply post_bind.
    change (queue s q = data_msgs cs ++ [END_MSG]) in Hq.
    destruct (data_msgs cs ++ [END_MSG]) as [|m ms] eqn:Hms; [by destruct cs|].
    assert (Hm : (length (data m) <= RESP_MSG_SIZE)%nat).
    { destruct cs as [|c' cs']; cbn in Hms; injection Hms as <- _; cbn; [lia|].
      by apply Forall_cons in Hok as [[_ ?] _]. }
    eapply post_mono; [| |exact (msgrcv_reliable q m ms s Hrel Hq Hm)]; [|done].
    intros m' s' ([Hf1 Hl1] & -> & Hq'). rewrite mret_bind. cbn in Hn, Hf. rewrite i32_id by (unfold INT_MIN, INT_MAX in *; lia).
    eapply post_mono; [| |apply (IH cs m _ _ s' Hok); [rewrite Hq'; done|lia|lia]]; [|done].
    intros r s2 (-> & Hq2 & [Hf2 Hl2]). split; [|split; [done|split; congruence]].
    unfold bytes_of. cbn [concat length data]. rewrite length_app. f_equal; lia.
Qed.

(** The line that the client writes. *)
Definition received_line (tot num : Z) : bytes :=
  str "Received " ++ print_dec tot ++ str " bytes (" ++ print_dec num ++ str " messages)" ++ [newline].

Lemma count_chunks chunks : Forall chunk_ok chunks -> (length chunks <= length (concat chunks))%nat.
Proof.
  induction 1 as [|c cs [Hc _] _ IH]; [done|]. cbn. rewrite length_app. destruct c; [done|]. cbn. lia.
Qed.

Lemma client_talk_spec fuel serverId q path chunks s : reliable -> Forall chunk_ok chunks ->
  queue s q = data_msgs chunks ++ [END_MSG] -> (length chunks < fuel)%nat -> bytes_of chunks < INT_MAX ->
  post (fun _ _ => False)
    (fun e s' => e = EExit EXIT_SUCCESS /\ queue s' q = [] /\
       libc_of s' = flushed (Libc (lc_errno (libc_of s)) (lc_environ (libc_of s))
         (lc_pending (libc_of s) ++ received_line (bytes_of chunks) (1 + Z.of_nat (length chunks))) (lc_out (libc_of s))))
    (client_talk strerror fuel serverId q path s).
Proof.
  intros Hrel Hok Hq Hf Hsz. pose proof (count_chunks _ Hok) as Hcnt. unfold bytes_of in Hsz. unfold client_talk. apply post_bind.
  eapply post_mono; [| |apply (echecked_reliable _ _ _ s (msgsnd_request_spec serverId _ s)); by intros e s' (_ & _ & _ & ?)]; [|done].
  intros _ s1 ([Hf1 Hl1] & _ & Hq1 & _). apply post_bind.
  destruct (data_msgs chunks ++ [END_MSG]) as [|m ms] eqn:Hms; [by destruct chunks|].
  assert (Hm : (length (data m) <= RESP_MSG_SIZE)%nat /\ (mtype m =? RESP_MT_FAILURE) = false).
  { destruct chunks as [|c' cs']; cbn in Hms; injection Hms as <- _; cbn; [split; [lia|done]|].
    by apply Forall_cons in Hok as [[_ ?] _]. }
  destruct Hm as [Hm Hty]. rewrite <- Hq1 in Hq.
  eapply post_mono; [| |exact (msgrcv_reliable q m ms s1 Hrel Hq Hm)]; [|done].
  intros m' s2 ([Hf2 Hl2] & -> & Hq2). rewrite Hty. apply post_bind.
  eapply post_mono; [| |apply (client_loop fuel q chunks m _ 1 s2 Hrel Hok); [by rewrite Hq2|done|unfold INT_MAX in *; lia]]; [|done].
  intros [tot num] s3 ([= -> ->] & Hq3 & [_ Hl3]). unfold printf, c_exit, fflush_stdout, modify, exit_. munfold. cbn.
  split; [done|]. rewrite !views_set. split; [done|]. rewrite !libc_of_set. rewrite Hl3, Hl2, Hl1.
  unfold flushed, received_line. cbn. replace (Z.of_nat (length (data m)) - Z.of_nat (length (data m)) + bytes_of chunks) with (bytes_of chunks) by lia.
  done.
Qed.

Lemma removeQueue_spec q s : reliable ->
  post (fun _ s' => queue s' q = [] /\ libc_of s' = libc_of s) (fun _ _ => False) (removeQueue strerror q s).
Proof.
  intros Hrel. unfold removeQueue. apply post_bind.
  eapply post_mono; [| |apply (echecked_reliable _ _ _ s (rmid_spec q s)); by intros e s' [_ ?]]; [|done].
  intros _ s' [[_ Hl] Hq]. done.
Qed.
End correct.


(** What the server's child sends, errors included. It touches no queue but that of
    its client; if it returns, it has opened the file, and has sent a beginning of its
    content in non-empty messages, perhaps with the message that ends it, and with it
    even where a read or a send has failed in between; if it exits, it has failed to
    open the file, and has tried to say so. It never runs out of the fuel of one round
    for every byte. *)
Theorem serveRequest_correct {S} `{HL : HasLibc S} `{HM : !MsgOS S} `{HS : !MsgSpec S} fuel req s :
  (forall c, file s (pathname req) = Some c -> (length c < fuel)%nat) ->
  post (fun _ => served req s) (refused req s) (serveRequest fuel req s).
Proof. apply serveRequest_spec. Qed.

(** * A system on which it runs *)

Record fs := Fs { fs_file : bytes -> option bytes; fs_rest : Z -> bytes; fs_queue : Z -> list responseMsg }.
Definition upd {A} (k : Z) (v : A) (f : Z -> A) : Z -> A := fun x => if decide (x = k) then v else f x.

#[local] Instance toy_os : MsgOS (libc * fs) := {|
  sys_open p := fun '(l, w) => match fs_file w p with
                 | Some c => (Done (SOk 3), (l, Fs (fs_file w) (upd 3 c (fs_rest w)) (fs_queue w)))
                 | None => (Done (SErr ENOENT), (l, w)) end;
  sys_read fd n := fun '(l, w) =>
    (Done (SOk (take n (fs_rest w fd))), (l, Fs (fs_file w) (upd fd (drop n (fs_rest w fd)) (fs_rest w)) (fs_queue w)));
  sys_msgget k := mret (SOk 7);
  sys_msgsnd q m := fun '(l, w) => (Done (SOk tt), (l, Fs (fs_file w) (fs_rest w) (upd q (fs_queue w q ++ [m]) (fs_queue w))));
  sys_msgrcv q n := fun '(l, w) => match fs_queue w q with
                 | m :: ms => (Done (SOk m), (l, Fs (fs_file w) (fs_rest w) (upd q ms (fs_queue w))))
                 | [] => (OutOfFuel, (l, w)) end;
  sys_msgsnd_request q r := mret (SOk tt);
  sys_msgrcv_request q := mret (SErr EINTR);
  sys_msgctl_rmid q := fun '(l, w) => (Done (SOk tt), (l, Fs (fs_file w) (fs_rest w) (upd q [] (fs_queue w))));
  sys_sigaction_chld := mret (SOk tt);
  sys_fork_serve r := mret (SOk 100);
  sys_atexit_fails := mret false
|}.
#[local, refine] Instance toy_spec : MsgSpec (libc * fs) := {|
  reliable := True;
  file s := fs_file (snd s); rest s := fs_rest (snd s); queue s := fs_queue (snd s)
|}.
Proof.
  - by intros l [l' w].
  - intros p [l w]. cbn. destruct (fs_file w p) eqn:Hf; cbn; (split; [done|]; split; [done|]); [|done].
    unfold upd. by rewrite decide_True.
  - intros fd n [l w] Hn. cbn. split; [done|]. split; [done|]. unfold upd. rewrite decide_True by done.
    rewrite take_drop, length_take. split; [done|]. split; [lia|]. intros Ht.
    destruct (fs_rest w fd); [done|]. by destruct n; [lia|].
  - intros q m [l w]. cbn. done.
  - intros q n m ms [l w] Hq Hl. cbn in *. rewrite Hq. cbn. split; [done|]. split; [done|]. unfold upd. by rewrite decide_True.
  - by intros q r [l w].
  - intros q [l w]. cbn. split; [done|]. unfold upd. by rewrite decide_True.
Defined.

Definition toy_fs : libc * fs :=
  (libc0, Fs (fun p => if decide (p = str "f") then Some (replicate 3 "x"%char) else None) (fun _ => []) (fun _ => [])).
Lemma toy_file_small (c : bytes) : file toy_fs (str "f") = Some c -> (length c < 10)%nat.
Proof. intros [= <-]. cbn. lia. Qed.


Lemma serveRequest_correct_witness :
  post (fun _ => served (RequestMsg 7 (str "f")) toy_fs) (refused (RequestMsg 7 (str "f")) toy_fs)
    (serveRequest 10 (RequestMsg 7 (str "f")) toy_fs).
Proof. apply (serveRequest_correct 10 (RequestMsg 7 (str "f")) toy_fs). intros c Hc. by apply toy_file_small. Defined.
