(* ===== verification/MultiJoin.v ===== *)
(** Joining any thread that ends: book-src/threads/thread_multijoin.c, whose main()
    waits on a condition variable for one of its threads to end, and joins it while
    it holds the mutex that the threads take to say that they end. *)
From S2P Require Import Prelude CLib Sys Steps Locks ErrorFunctions GetNum.
From stdpp Require Import relations.
#[local] Open Scope Z_scope.

(** * State *)

(** Source: book-src/threads/thread_multijoin.c:43-47 (enum tstate). *)
Inductive tstate := TS_ALIVE | TS_TERMINATED | TS_JOINED.
#[export] Instance tstate_eq_dec : EqDecision tstate.
Proof. solve_decision. Defined.

(** A thread: in sleep(); about to print, to lock, to add one to [numUnjoined], to set
    its state, to unlock, to signal; returned; in errExitEN(). *)
Inductive tpc := T_sleep | T_printf | T_lock | T_incr | T_mark | T_unlock | T_signal | T_done | T_err (e : Z).
#[export] Instance tpc_eq_dec : EqDecision tpc.
Proof. solve_decision. Defined.
(** An element of the array [thread], with where the thread is. *)
(** Source: book-src/threads/thread_multijoin.c:49-53 (thread). *)
Record thread := Thread { t_pc : tpc; state : tstate; sleepTime : Z }.

(** main(): creating threads; at the loops' conditions; inside pthread_cond_wait(); at
    an index of the scan, in pthread_join() for one; ended. *)
Inductive jpc := J_create | J_while | J_lock | J_test | J_wait | J_scan (idx : nat) | J_join (idx : nat) | J_unlock | J_exit (status : Z).
Inductive msg := Terminating (idx : nat) | Reaped (idx : nat) (live : Z).

(** The variables of the program; [waiting] and [spurious] are about the condition
    variable, as only main() waits on it. *)
Record jstate := JState {
  threads : list thread; mtx : mutex; waiting : bool; spurious : nat;
  totThreads : Z; numLive : Z; numUnjoined : Z; pc : jpc; out : list msg
}.
Definition with_pc (p : jpc) (s : jstate) : jstate :=
  JState (threads s) (mtx s) (waiting s) (spurious s) (totThreads s) (numLive s) (numUnjoined s) p (out s).
Definition with_mtx (m : mutex) (s : jstate) : jstate :=
  JState (threads s) m (waiting s) (spurious s) (totThreads s) (numLive s) (numUnjoined s) (pc s) (out s).
Definition with_waiting (b : bool) (s : jstate) : jstate :=
  JState (threads s) (mtx s) b (spurious s) (totThreads s) (numLive s) (numUnjoined s) (pc s) (out s).
Definition with_thread (i : nat) (th : thread) (s : jstate) : jstate :=
  JState (<[i:=th]> (threads s)) (mtx s) (waiting s) (spurious s) (totThreads s) (numLive s) (numUnjoined s) (pc s) (out s).
Definition with_unjoined (n : Z) (s : jstate) : jstate :=
  JState (threads s) (mtx s) (waiting s) (spurious s) (totThreads s) (numLive s) n (pc s) (out s).
Definition print (m : msg) (s : jstate) : jstate :=
  JState (threads s) (mtx s) (waiting s) (spurious s) (totThreads s) (numLive s) (numUnjoined s) (pc s) (out s ++ [m]).

(** * Steps *)

(** Thread [i] of the array is thread [i + 1] of the process. *)
(** Source: book-src/threads/thread_multijoin.c:55-79 (threadFunc). *)
Definition threadFunc_step (i : nat) (s : jstate) : option jstate :=
  th ← threads s !! i;
  let goto p s := with_thread i (Thread p (state th) (sleepTime th)) s in
  match t_pc th with
  | T_sleep => Some (goto T_printf s)
  | T_printf => Some (goto T_lock (print (Terminating i) s))
  | T_lock =>
      match acquire (S i) (mtx s) with
      | Blocks => None
      | Fails e => Some (with_pc (J_exit EXIT_FAILURE) (goto (T_err e) s))
      | Holds m => Some (goto T_incr (with_mtx m s))
      end
  | T_incr => Some (goto T_mark (with_unjoined (i32 (numUnjoined s + 1)) s))
  | T_mark => Some (with_thread i (Thread T_unlock TS_TERMINATED (sleepTime th)) s)
  | T_unlock =>
      match release (S i) (mtx s) with
      | Blocks => None
      | Fails e => Some (with_pc (J_exit EXIT_FAILURE) (goto (T_err e) s))
      | Holds m => Some (goto T_signal (with_mtx m s))
      end
  | T_signal => Some (goto T_done (with_waiting false s))
  | T_done | T_err _ => None
  end.

(** The seconds that an argument stands for, when getInt() returns. *)
Definition seconds (a : bytes) : option Z :=
  match (getInt (Some a) GN_NONNEG None : M libc Z) libc0 with
  | (Done v, _) => Some v
  | _ => None
  end.

(** A call of main() on the mutex. *)
Definition main_call (r : lockres mutex) (s : jstate) (k : jstate -> jstate) : option jstate :=
  match r with
  | Blocks => None
  | Fails _ => Some (with_pc (J_exit EXIT_FAILURE) s)
  | Holds m => Some (k (with_mtx m s))
  end.

(** main(), after its usage message; [ok] is whether pthread_create() succeeds.
    pthread_join() returns when the thread has. *)
(** Source: book-src/threads/thread_multijoin.c:93-138 (main). *)
Definition main_step (args : list bytes) (ok : bool) (s : jstate) : option jstate :=
  match pc s with
  | J_create =>
      match args !! length (threads s) with
      | None =>
          let n := Z.of_nat (length args) in
          Some (JState (threads s) (mtx s) (waiting s) (spurious s) n n (numUnjoined s) J_while (out s))
      | Some a =>
          match seconds a with
          | Some v =>
              Some (if ok then JState (threads s ++ [Thread T_sleep TS_ALIVE v]) (mtx s) (waiting s) (spurious s)
                                      (totThreads s) (numLive s) (numUnjoined s) J_create (out s)
                    else with_pc (J_exit EXIT_FAILURE) s)
          | None => Some (with_pc (J_exit EXIT_FAILURE) s)
          end
      end
  | J_while => Some (with_pc (if 0 <? numLive s then J_lock else J_exit EXIT_SUCCESS) s)
  | J_lock => main_call (acquire 0 (mtx s)) s (with_pc J_test)
  | J_test =>
      if numUnjoined s =? 0 then main_call (release 0 (mtx s)) s (fun s => with_pc J_wait (with_waiting true s))
      else Some (with_pc (J_scan 0) s)
  | J_wait => if waiting s then None else main_call (acquire 0 (mtx s)) s (with_pc J_test)
  | J_scan idx =>
      if Z.of_nat idx <? totThreads s then
        th ← threads s !! idx;
        Some (with_pc (if decide (state th = TS_TERMINATED) then J_join idx else J_scan (S idx)) s)
      else Some (with_pc J_unlock s)
  | J_join idx =>
      th ← threads s !! idx;
      if decide (t_pc th = T_done) then
        Some (JState (<[idx:=Thread T_done TS_JOINED (sleepTime th)]> (threads s)) (mtx s) (waiting s) (spurious s)
                     (totThreads s) (numLive s - 1) (numUnjoined s - 1) (J_scan (S idx))
                     (out s ++ [Reaped idx (numLive s - 1)]))
      else None
  | J_unlock => main_call (release 0 (mtx s)) s (with_pc J_while)
  | J_exit _ => None
  end.

Definition exited (s : jstate) : bool := if pc s is J_exit _ then true else false.

Inductive step (args : list bytes) : jstate -> jstate -> Prop :=
| step_thread s i s' : exited s = false -> threadFunc_step i s = Some s' -> step args s s'
| step_main s ok s' : main_step args ok s = Some s' -> step args s s'
| step_wakeup s n : exited s = false -> waiting s = true -> spurious s = S n ->
    step args s (JState (threads s) (mtx s) false n (totThreads s) (numLive s) (numUnjoined s) (pc s) (out s)).

(** The start of main(): the usage message, calloc() (which [ok] says succeeds). *)
(** Source: book-src/threads/thread_multijoin.c:81-92 (main). *)
Definition start (args : list bytes) (ok : bool) (n : nat) : jstate :=
  JState [] lock_init false n 0 0 0
    (if decide (args = [] \/ args !! 0%nat = Some (str "--help")) then J_exit EXIT_FAILURE
     else if ok then J_create else J_exit EXIT_FAILURE) [].

(** * The invariant *)

(** The "Reaped" lines, in order. *)
Definition reaped (o : list msg) : list (nat * Z) :=
  omap (fun m => match m with Reaped i v => Some (i, v) | Terminating _ => None end) o.

#[local] Arguments reaped : simpl never.

Lemma reaped_snoc o m : reaped (o ++ [m]) = reaped o ++ match m with Reaped i v => [(i, v)] | Terminating _ => [] end.
Proof. unfold reaped. rewrite omap_app. by destruct m. Qed.

Section correct.
Context (args : list bytes) (args_range : Z.of_nat (length args) <= INT_MAX).
#[local] Abbreviation n := (length args).

Definition t_inside (th : thread) : bool := match t_pc th with T_incr | T_mark | T_unlock => true | _ => false end.
Definition m_inside (p : jpc) : bool := match p with J_test | J_scan _ | J_join _ | J_unlock => true | _ => false end.
(** Between counting itself and telling main(). *)
Definition telling (th : thread) : bool := match t_pc th with T_mark | T_unlock | T_signal => true | _ => false end.
(** Counted in [numUnjoined]; joined. *)
Definition counted (th : thread) : Z :=
  match state th with TS_TERMINATED => 1 | TS_ALIVE => match t_pc th with T_mark => 1 | _ => 0 end | TS_JOINED => 0 end.
Definition joined (th : thread) : Z := if state th is TS_JOINED then 1 else 0.
Definition thread_ok (th : thread) : Prop :=
  match t_pc th with
  | T_sleep | T_printf | T_lock | T_incr | T_mark => state th = TS_ALIVE
  | T_unlock | T_signal => state th = TS_TERMINATED
  | T_done => state th <> TS_ALIVE
  | T_err _ => False
  end.

Definition pc_ok (s : jstate) : Prop :=
  match pc s with
  | J_create => (length (threads s) <= n)%nat /\ reaped (out s) = []
  | J_exit st => (st = EXIT_SUCCESS /\ length (reaped (out s)) = n /\ length (threads s) = n) \/
                 (st = EXIT_FAILURE /\ (length (threads s) < n)%nat)
  | _ => length (threads s) = n /\ totThreads s = Z.of_nat n /\
         numLive s = Z.of_nat n - Z.of_nat (length (reaped (out s)))
  end /\
  match pc s with
  | J_lock | J_test | J_wait => 0 < numLive s
  | J_scan idx => (idx <= n)%nat
  | J_join idx => exists th, threads s !! idx = Some th /\ state th = TS_TERMINATED
  | _ => True
  end.

Record Inv (s : jstate) : Prop := {
  i_threads : forall i th, threads s !! i = Some th -> thread_ok th;
  i_owner : owner_ok t_inside (mtx s) (threads s) (m_inside (pc s));
  i_unjoined : numUnjoined s = sumZ counted (threads s);
  i_joined : Z.of_nat (length (reaped (out s))) = sumZ joined (threads s);
  i_reaped : NoDup (reaped (out s)).*1 /\
             forall i, i ∈ (reaped (out s)).*1 -> exists th, threads s !! i = Some th /\ state th = TS_JOINED;
  i_live : forall k p, reaped (out s) !! k = Some p -> p.2 = Z.of_nat n - Z.of_nat k - 1;
  i_pc : pc_ok s;
  (* no wake-up is lost *)
  i_wait : waiting s = true -> pc s = J_wait /\
           (numUnjoined s = 0 \/ exists i th, threads s !! i = Some th /\ telling th = true)
}.

Lemma mj_Inv_start k : args <> [] -> args !! 0%nat <> Some (str "--help") -> Inv (start args true k).
Proof.
  intros Hne Hh. unfold start. rewrite decide_False by tauto. split; cbn; try done.
  - split; [constructor|]. intros i Hi. by apply not_elem_of_nil in Hi.
  - split; cbn; [split; [lia|done]|done].
Qed.

(** ** The threads *)

Lemma counted_sum_bound l : 0 <= sumZ counted l <= Z.of_nat (length l).
Proof.
  induction l as [|th l IH]; [done|]. rewrite sumZ_cons. cbn [length]. unfold counted at 1 3.
  destruct (state th); try lia. destruct (t_pc th); lia.
Qed.
Lemma counted_range th : 0 <= counted th <= 1.
Proof. unfold counted. destruct (state th), (t_pc th); lia. Qed.
Lemma length_threads s : Inv s -> (length (threads s) <= n)%nat.
Proof. intros Hi. pose proof (i_pc _ Hi) as [Hx _]. destruct (pc s); lia. Qed.

(** One thread moves: what it must keep. *)
Lemma mj_Inv_thread s i th th' m b u o : Inv s -> threads s !! i = Some th ->
  thread_ok th' -> (state th' = TS_JOINED <-> state th = TS_JOINED) ->
  (state th = TS_TERMINATED -> state th' = TS_TERMINATED) ->
  u = numUnjoined s - counted th + counted th' -> reaped o = reaped (out s) ->
  owner_ok t_inside m (<[i:=th']> (threads s)) (m_inside (pc s)) ->
  (b = true -> waiting s = true /\ (telling th' = true \/ (telling th = false /\ u = numUnjoined s))) ->
  Inv (JState (<[i:=th']> (threads s)) m b (spurious s) (totThreads s) (numLive s) u (pc s) o).
Proof.
  intros Hi Hth Hok Hj Htm Hu Ho Hm Hb.
  split; cbn [threads mtx waiting spurious totThreads numLive numUnjoined pc out]; rewrite ?Ho.
  - apply (all_insert (fun _ => thread_ok)); [|done]. intros k x Hk _. by apply (i_threads _ Hi k x).
  - done.
  - rewrite (sumZ_insert _ _ _ th) by done. rewrite Hu, (i_unjoined _ Hi). lia.
  - rewrite (sumZ_insert _ _ _ th) by done. rewrite (i_joined _ Hi).
    assert (joined th' = joined th); [|lia].
    unfold joined. destruct (state th), (state th'); try done; (destruct Hj as [H1 H2]; (discriminate (H1 eq_refl) || discriminate (H2 eq_refl))).
  - destruct (i_reaped _ Hi) as [Hnd Hr]. split; [done|]. intros k Hk. destruct (Hr k Hk) as (x & Hx & Hs).
    destruct (decide (k = i)) as [->|Hne].
    + exists th'. split; [apply list_lookup_insert_eq; by eapply lookup_lt_Some|]. apply Hj. congruence.
    + exists x. by rewrite list_lookup_insert_ne.
  - apply (i_live _ Hi).
  - pose proof (i_pc _ Hi) as [Hx Hy]. unfold pc_ok. cbn. rewrite ?Ho, !length_insert. split; [done|].
    destruct (pc s) as [| | | | | |idx| |]; try done. destruct Hy as (x & Hx' & Hs).
    destruct (decide (idx = i)) as [->|Hne].
    + exists th'. split; [apply list_lookup_insert_eq; by eapply lookup_lt_Some|]. apply Htm. congruence.
    + exists x. by rewrite list_lookup_insert_ne.
  - intros ->. destruct (Hb eq_refl) as [Hwt Hx]. destruct (i_wait _ Hi Hwt) as [Hp Hy]. split; [done|].
    destruct Hx as [Ht|[Ht ->]].
    + right. exists i, th'. split; [|done]. apply list_lookup_insert_eq. by eapply lookup_lt_Some.
    + destruct Hy as [Hy|(k & x & Hk & Hx)]; [by left|right]. exists k, x. split; [|done].
      rewrite list_lookup_insert_ne; [done|]. intros ->. congruence.
Qed.

Lemma mj_Inv_threadFunc s i s' : Inv s -> threadFunc_step i s = Some s' -> Inv s'.
Proof.
  intros Hi Hs. unfold threadFunc_step in Hs. destruct (threads s !! i) as [th|] eqn:Hth; [|done]. cbn in Hs.
  pose proof (i_threads _ Hi i th Hth) as Hok. pose proof (i_owner _ Hi) as Ho.
  pose proof (fun th' m b u o => mj_Inv_thread s i _ th' m b u o Hi Hth) as Hgo.
  pose proof (counted_sum_bound (threads s)). pose proof (length_threads s Hi). pose proof (i_unjoined _ Hi).
  destruct th as [p st sl]. unfold thread_ok in Hok. cbn in *. destruct p; try done; subst; cbn in *.
  - injection Hs as <-. apply Hgo; cbn; try done; [lia|by eapply owner_same|auto].
  - injection Hs as <-. apply Hgo; cbn; try done; [lia|by rewrite reaped_snoc, app_nil_r|by eapply owner_same|auto].
  - pose proof (mutex_acquire (S i) (mtx s)) as Ha.
    destruct (acquire (S i) (mtx s)) as [| |m']; [done|done|]. destruct Ha as [Hm ->]. injection Hs as <-.
    apply Hgo; cbn; try done; [lia| |auto]. rewrite Hm in Ho. by eapply owner_lock.
  - injection Hs as <-.
    assert (Hc : sumZ counted (<[i:=Thread T_mark TS_ALIVE sl]> (threads s)) = sumZ counted (threads s) + 1).
    { rewrite (sumZ_insert _ _ _ _ _ Hth). unfold counted at 2 3. cbn. lia. }
    pose proof (counted_sum_bound (<[i:=Thread T_mark TS_ALIVE sl]> (threads s))) as Hb. rewrite length_insert in Hb.
    rewrite i32_id by (unfold INT_MIN, INT_MAX in *; lia).
    apply Hgo; cbn; try done; [lia|by eapply owner_same|auto].
  - injection Hs as <-. apply Hgo; cbn; try done; [unfold counted; cbn; lia|by eapply owner_same|auto].
  - destruct (owner_unlock t_inside _ _ _ _ _ (Thread T_signal TS_TERMINATED sl) Ho Hth) as [Hm Ho']; [done|done|].
    rewrite Hm, mutex_release in Hs. injection Hs as <-. apply Hgo; cbn; try done; [lia|auto].
  - injection Hs as <-. apply Hgo; cbn; try done; [lia|by eapply owner_same].
Qed.

(** ** main() *)

Lemma mj_Inv_goto s p m : Inv s -> owner_ok t_inside m (threads s) (m_inside p) ->
  pc_ok (with_pc p (with_mtx m s)) -> waiting s = false -> Inv (with_pc p (with_mtx m s)).
Proof.
  intros Hi Ho Hp Hw. split; cbn; try apply Hi; try done. by rewrite Hw.
Qed.
Lemma mj_awake s p : Inv s -> pc s = p -> p <> J_wait -> waiting s = false.
Proof. intros Hi <- Hne. destruct (waiting s) eqn:Hw; [|done]. by destruct (i_wait _ Hi Hw). Qed.

Lemma mj_Inv_create s v : Inv s -> pc s = J_create -> (length (threads s) < n)%nat ->
  Inv (JState (threads s ++ [Thread T_sleep TS_ALIVE v]) (mtx s) (waiting s) (spurious s)
         (totThreads s) (numLive s) (numUnjoined s) J_create (out s)).
Proof.
  intros Hi Hp Hlt. pose proof (mj_awake s _ Hi Hp ltac:(done)) as Hw. pose proof (i_pc _ Hi) as [Hx _]. rewrite Hp in Hx.
  split; cbn [threads mtx waiting spurious totThreads numLive numUnjoined pc out].
  - apply (all_snoc (fun _ => thread_ok)); [apply (i_threads _ Hi)|done].
  - pose proof (i_owner _ Hi) as Ho. rewrite Hp in Ho. by apply owner_snoc.
  - rewrite sumZ_app, sumZ_one. cbn. rewrite (i_unjoined _ Hi). lia.
  - rewrite sumZ_app, sumZ_one. cbn. rewrite (i_joined _ Hi). lia.
  - destruct Hx as [_ ->]. split; [constructor|]. intros i Hi'. by apply not_elem_of_nil in Hi'.
  - apply (i_live _ Hi).
  - split; cbn; [|done]. rewrite length_app. cbn. split; [lia|apply Hx].
  - by rewrite Hw.
Qed.

(** The thread that is joined. *)
Lemma Inv_join s idx th : Inv s -> pc s = J_join idx -> threads s !! idx = Some th -> t_pc th = T_done ->
  Inv (JState (<[idx:=Thread T_done TS_JOINED (sleepTime th)]> (threads s)) (mtx s) (waiting s) (spurious s)
         (totThreads s) (numLive s - 1) (numUnjoined s - 1) (J_scan (S idx)) (out s ++ [Reaped idx (numLive s - 1)])).
Proof.
  intros Hi Hp Hth Hd. pose proof (mj_awake s _ Hi Hp ltac:(done)) as Hw. pose proof (i_pc _ Hi) as [Hx Hy].
  rewrite Hp in Hx, Hy. destruct Hx as (Hlen & Htot & Hlive). destruct Hy as (x & Hx & Hst).
  rewrite Hth in Hx. injection Hx as <-. destruct (i_reaped _ Hi) as [Hnd Hr].
  assert (Hnew : idx ∉ (reaped (out s)).*1).
  { intros Hin. destruct (Hr idx Hin) as (y & Hy & Hs). congruence. }
  split; cbn [threads mtx waiting spurious totThreads numLive numUnjoined pc out]; rewrite ?reaped_snoc.
  - apply (all_insert (fun _ => thread_ok)); [|done]. intros k y Hk _. by apply (i_threads _ Hi k y).
  - pose proof (i_owner _ Hi) as Ho. rewrite Hp in Ho. eapply owner_same; [done|done|]. unfold t_inside. by rewrite Hd.
  - rewrite (sumZ_insert _ _ _ th) by done. rewrite (i_unjoined _ Hi).
    assert (Hc : counted th = 1) by (unfold counted; by rewrite Hst). rewrite Hc. cbn. lia.
  - rewrite (sumZ_insert _ _ _ th) by done. rewrite length_app, Nat2Z.inj_add, (i_joined _ Hi).
    assert (Hc : joined th = 0) by (unfold joined; by rewrite Hst). rewrite Hc. cbn. lia.
  - rewrite fmap_app. cbn. split.
    + apply NoDup_app. split; [done|]. split; [|by apply NoDup_singleton].
      intros k Hk ->%list_elem_of_singleton. by apply Hnew.
    + intros k [Hk| ->%list_elem_of_singleton]%elem_of_app.
      * destruct (Hr k Hk) as (y & Hy & Hs). exists y. split; [|done]. rewrite list_lookup_insert_ne; [done|].
        intros ->. congruence.
      * eexists. split; [apply list_lookup_insert_eq; by eapply lookup_lt_Some|done].
  - apply all_snoc; [apply (i_live _ Hi)|]. cbn. lia.
  - split; cbn.
    + rewrite length_insert, reaped_snoc, length_app. cbn. split; [done|]. split; [done|lia].
    + apply lookup_lt_Some in Hth. lia.
  - by rewrite Hw.
Qed.

Lemma joined_all s : Inv s -> length (threads s) = n -> numLive s = Z.of_nat n - Z.of_nat (length (reaped (out s))) ->
  numLive s <= 0 -> length (reaped (out s)) = n.
Proof.
  intros Hi Hl Hn Hz. assert (Hle : sumZ joined (threads s) <= Z.of_nat (length (threads s))).
  { clear. induction (threads s) as [|th l IH]; [done|]. rewrite sumZ_cons. cbn [length]. unfold joined at 1. case_match; lia. }
  rewrite <- (i_joined _ Hi) in Hle. lia.
Qed.

Lemma mj_Inv_main_step s ok s' : Inv s -> main_step args ok s = Some s' -> Inv s'.
Proof.
  intros Hi Hs. pose proof (i_pc _ Hi) as [Hx Hy]. pose proof (i_owner _ Hi) as Ho.
  pose proof (fun p => mj_awake s p Hi) as Haw. pose proof (mutex_acquire 0 (mtx s)) as Hacq.
  unfold main_step in Hs. destruct (pc s) as [| | | | |idx|idx| |st] eqn:Hp.
  - specialize (Haw _ eq_refl ltac:(done)). destruct (args !! length (threads s)) as [a|] eqn:Ha.
    + apply lookup_lt_Some in Ha.
      assert (Hf : Inv (with_pc (J_exit EXIT_FAILURE) s)).
      { apply (mj_Inv_goto s (J_exit EXIT_FAILURE) (mtx s) Hi Ho); [|done]. split; cbn; [by right|done]. }
      destruct (seconds a) as [v|]; [|by injection Hs as <-]. destruct ok; injection Hs as <-; [by apply mj_Inv_create|done].
    + apply lookup_ge_None in Ha. injection Hs as <-. destruct Hx as [Hle Hr]. split; cbn; try apply Hi; try done.
      * split; cbn; [rewrite Hr; cbn; lia|done].
      * by rewrite Haw.
  - specialize (Haw _ eq_refl ltac:(done)). injection Hs as <-. destruct (Z.ltb_spec 0 (numLive s)).
    + by apply (mj_Inv_goto s J_lock (mtx s)).
    + apply (mj_Inv_goto s (J_exit EXIT_SUCCESS) (mtx s)); try done. split; cbn; [|done]. left. split; [done|].
      split; [apply joined_all; tauto|apply Hx].
  - specialize (Haw _ eq_refl ltac:(done)). unfold main_call in Hs.
    destruct (acquire 0 (mtx s)) as [| |m']; [done|done|]. destruct Hacq as [Hm ->]. injection Hs as <-.
    rewrite Hm in Ho. apply owner_main_lock in Ho. by apply (mj_Inv_goto s J_test).
  - specialize (Haw _ eq_refl ltac:(done)). destruct (Z.eqb_spec (numUnjoined s) 0) as [Hz|Hz].
    + destruct (owner_main_unlock _ _ _ Ho) as [Hm Ho']. unfold main_call in Hs.
      rewrite Hm, mutex_release in Hs. injection Hs as <-. split; cbn; try apply Hi; try done. by auto.
    + injection Hs as <-. apply (mj_Inv_goto s (J_scan 0) (mtx s)); try done. split; cbn; [done|lia].
  - destruct (waiting s) eqn:Hw; [done|]. unfold main_call in Hs.
    destruct (acquire 0 (mtx s)) as [| |m']; [done|done|]. destruct Hacq as [Hm ->]. injection Hs as <-.
    rewrite Hm in Ho. apply owner_main_lock in Ho. by apply (mj_Inv_goto s J_test).
  - specialize (Haw _ eq_refl ltac:(done)). destruct (Z.ltb_spec (Z.of_nat idx) (totThreads s)) as [Hlt|Hge].
    + destruct (threads s !! idx) as [th|] eqn:Hth; [|done]. cbn in Hs. injection Hs as <-.
      destruct (decide (state th = TS_TERMINATED)).
      * apply (mj_Inv_goto s (J_join idx) (mtx s)); try done. split; cbn; [done|by exists th].
      * apply (mj_Inv_goto s (J_scan (S idx)) (mtx s)); try done. split; cbn; [done|lia].
    + injection Hs as <-. by apply (mj_Inv_goto s J_unlock (mtx s)).
  - destruct (threads s !! idx) as [th|] eqn:Hth; [|done]. cbn in Hs.
    destruct (decide (t_pc th = T_done)); [|done]. injection Hs as <-. by apply Inv_join.
  - specialize (Haw _ eq_refl ltac:(done)). destruct (owner_main_unlock _ _ _ Ho) as [Hm Ho']. unfold main_call in Hs.
    rewrite Hm, mutex_release in Hs. injection Hs as <-. by apply (mj_Inv_goto s J_while).
  - done.
Qed.

Lemma mj_Inv_step s s' : Inv s -> step args s s' -> Inv s'.
Proof.
  intros Hi Hst. destruct Hst as [s i s' _ Hs|s ok s' Hs|s k He Hw Hsp].
  - by eapply mj_Inv_threadFunc.
  - by eapply mj_Inv_main_step.
  - split; cbn; try apply Hi. done.
Qed.

(** ** Progress *)

Definition t_left (th : thread) : Z :=
  match t_pc th with
  | T_sleep => 7 | T_printf => 6 | T_lock => 5 | T_incr => 4 | T_mark => 3 | T_unlock => 2 | T_signal => 1
  | T_done | T_err _ => 0
  end.
(** There is a thread to join from index [idx] on. *)
Definition pending (idx : nat) (l : list thread) : bool := bool_decide (TS_TERMINATED ∈ drop idx (state <$> l)).
#[local] Abbreviation N := (Z.of_nat n).
(** More than one round of main() takes. *)
Definition K : Z := 3 * N + 30.
Definition m_left (s : jstate) : Z :=
  match pc s with
  | J_create => 8 * K * (N - Z.of_nat (length (threads s))) + 2 * N + 10
  | J_while => 2 * N + 7
  | J_lock => 2 * N + 6
  | J_test => 2 * N + 3
  | J_wait => if waiting s then 1 else 2 * N + 4
  | J_scan idx => 2 * (N - Z.of_nat idx) + (if pending idx (threads s) then 2 else 2 * N + 9)
  | J_join idx => 2 * (N - Z.of_nat idx) + 1
  | J_unlock => 2 * N + 8
  | J_exit _ => 0
  end.
Definition measure (s : jstate) : Z :=
  K * (sumZ t_left (threads s) + (N - Z.of_nat (length (reaped (out s)))) + Z.of_nat (spurious s)) + m_left s.

Lemma t_left_nonneg th : 0 <= t_left th.
Proof. unfold t_left. destruct (t_pc th); lia. Qed.
Lemma joined_sum_bound l : 0 <= sumZ joined l <= Z.of_nat (length l).
Proof.
  induction l as [|th l IH]; [done|]. rewrite sumZ_cons. cbn [length]. unfold joined at 1 3. case_match; lia.
Qed.
Lemma mj_measure_nonneg s : Inv s -> 0 <= measure s.
Proof.
  intros Hi. unfold measure, m_left, K. pose proof (length_threads s Hi). pose proof (i_joined _ Hi).
  pose proof (joined_sum_bound (threads s)). pose proof (i_pc _ Hi) as [_ Hy].
  assert (0 <= sumZ t_left (threads s)) by (apply sumZ_nonneg; intros; apply t_left_nonneg).
  destruct (pc s) as [| | | | |idx|idx| |] eqn:Hp; try nia.
  - destruct (waiting s); nia.
  - destruct (pending idx (threads s)); nia.
  - destruct Hy as (th & Hth%lookup_lt_Some & _). nia.
Qed.

(** A thread's step counts for more than what it can make main() do. *)
Lemma thread_measure s i s' : Inv s -> threadFunc_step i s = Some s' -> measure s' < measure s.
Proof.
  intros Hi Hs. unfold threadFunc_step in Hs. destruct (threads s !! i) as [th|] eqn:Hth; [|done]. cbn in Hs.
  pose proof (i_owner _ Hi) as Ho. pose proof (i_threads _ Hi i th Hth) as Hok.
  assert (Hgo : forall th' m b u o, t_left th' < t_left th -> reaped o = reaped (out s) ->
    state th' = state th \/ m_inside (pc s) = false ->
    measure (JState (<[i:=th']> (threads s)) m b (spurious s) (totThreads s) (numLive s) u (pc s) o) < measure s).
  { intros th' m b u o Hl Hr Hst. unfold measure, K. cbn [threads out spurious]. rewrite Hr, (sumZ_insert _ _ _ _ _ Hth).
    assert (Hm : m_left (JState (<[i:=th']> (threads s)) m b (spurious s) (totThreads s) (numLive s) u (pc s) o) <= m_left s + 2 * N + 3).
    { unfold m_left. cbn [pc threads waiting]. rewrite length_insert.
      destruct (pc s); try lia; [destruct b, (waiting s); lia|]. destruct Hst as [Hst|]; [|done].
      unfold pending. rewrite list_fmap_insert, Hst, list_insert_id by (by rewrite list_lookup_fmap, Hth). lia. }
    nia. }
  destruct th as [p st sl]. cbn in *. destruct p; try done; cbn in *.
  - injection Hs as <-. apply Hgo; [done|done|by left].
  - injection Hs as <-. apply Hgo; [done|cbn; by rewrite reaped_snoc, app_nil_r|by left].
  - pose proof (mutex_acquire (S i) (mtx s)) as Ha.
    destruct (acquire (S i) (mtx s)) as [| |m']; [done|done|]. injection Hs as <-. apply Hgo; [done|done|by left].
  - injection Hs as <-. apply Hgo; [done|done|by left].
  - injection Hs as <-. apply Hgo; [done|done|]. right. destruct (m_inside (pc s)); [|done].
    by pose proof (owner_main_alone t_inside _ _ _ _ Ho Hth).
  - destruct (owner_unlock t_inside _ _ _ _ _ (Thread T_signal st sl) Ho Hth) as [Hm _]; [done|done|].
    rewrite Hm, mutex_release in Hs. injection Hs as <-. apply Hgo; [done|done|by left].
  - injection Hs as <-. apply Hgo; [done|done|by left].
Qed.

(** What has ended is counted, and the other way round while main() has the mutex. *)
Lemma pending_0 s : Inv s -> m_inside (pc s) = true -> numUnjoined s <> 0 -> pending 0 (threads s) = true.
Proof.
  intros Hi Hin Hu. unfold pending. rewrite drop_0. apply bool_decide_eq_true. rewrite (i_unjoined _ Hi) in Hu.
  pose proof (counted_sum_bound (threads s)). destruct (sumZ_pos counted (threads s)) as (i & th & Hth & Hc); [lia|].
  pose proof (i_owner _ Hi) as Ho. rewrite Hin in Ho. pose proof (owner_main_alone t_inside _ _ _ _ Ho Hth) as Hni.
  apply list_elem_of_fmap. exists th. split; [|by eapply list_elem_of_lookup_2].
  unfold counted in Hc. unfold t_inside in Hni. by destruct (state th), (t_pc th).
Qed.
Lemma pending_S idx l th : l !! idx = Some th ->
  pending idx l = (bool_decide (state th = TS_TERMINATED) || pending (S idx) l)%bool.
Proof.
  intros Hl. unfold pending. rewrite (drop_S (state <$> l) (state th) idx) by (by rewrite list_lookup_fmap, Hl).
  apply Bool.eq_iff_eq_true. rewrite orb_true_iff, !bool_decide_eq_true, elem_of_cons. by rewrite (eq_comm TS_TERMINATED).
Qed.
Lemma pending_end idx l : (length l <= idx)%nat -> pending idx l = false.
Proof.
  intros Hl. unfold pending. rewrite drop_ge by (by rewrite length_fmap). apply bool_decide_eq_false, not_elem_of_nil.
Qed.

Lemma mj_main_measure s ok s' : Inv s -> main_step args ok s = Some s' -> measure s' < measure s.
Proof.
  intros Hi Hs. pose proof (i_pc _ Hi) as [Hx Hy]. pose proof (pending_0 s Hi) as Hp0.
  pose proof (length_threads s Hi) as Hlen.
  unfold main_step, main_call in Hs. unfold measure, m_left, K. destruct (pc s) as [| | | | |idx|idx| |st] eqn:Hp.
  - destruct (args !! length (threads s)) as [a|] eqn:Ha.
    + apply lookup_lt_Some in Ha. destruct (seconds a); [destruct ok|]; injection Hs as <-;
        cbn [with_pc pc threads spurious out waiting]; [|nia|nia].
      rewrite sumZ_app, sumZ_one, length_app. cbn [t_left t_pc length]. nia.
    + injection Hs as <-. cbn [with_pc pc threads spurious out waiting]. nia.
  - injection Hs as <-. cbn. destruct (0 <? numLive s); lia.
  - destruct (acquire 0 (mtx s)); [done| |]; injection Hs as <-; cbn; lia.
  - destruct (Z.eqb_spec (numUnjoined s) 0).
    + destruct (release 0 (mtx s)); [done| |]; injection Hs as <-; cbn; lia.
    + injection Hs as <-. cbn. rewrite Hp0 by done. lia.
  - destruct (waiting s); [done|]. destruct (acquire 0 (mtx s)); [done| |]; injection Hs as <-; cbn; lia.
  - destruct (Z.ltb_spec (Z.of_nat idx) (totThreads s)).
    + destruct (threads s !! idx) as [th|] eqn:Hth; [|done]. cbn in Hs. injection Hs as <-.
      rewrite (pending_S idx _ th) by done. cbn. destruct (decide (state th = TS_TERMINATED)) as [He|He].
      * rewrite bool_decide_eq_true_2 by done. cbn. lia.
      * rewrite bool_decide_eq_false_2 by done. cbn. destruct (pending (S idx) (threads s)); lia.
    + injection Hs as <-. cbn. destruct Hx as (Hl & Ht & _). assert (idx = n) as -> by lia.
      rewrite pending_end by lia. lia.
  - destruct (threads s !! idx) as [th|] eqn:Hth; [|done]. cbn in Hs.
    destruct (decide (t_pc th = T_done)) as [Hd|]; [|done]. injection Hs as <-.
    cbn [pc threads spurious out waiting]. rewrite reaped_snoc, length_app, (sumZ_insert _ _ _ _ _ Hth).
    unfold t_left at 2 3. rewrite Hd. cbn [t_pc length]. case_match; nia.
  - destruct (release 0 (mtx s)); [done| |]; injection Hs as <-; cbn; lia.
  - done.
Qed.

Lemma mj_step_measure s s' : Inv s -> step args s s' -> 0 <= measure s' < measure s.
Proof.
  intros Hi Hs. split; [by apply mj_measure_nonneg, (mj_Inv_step s)|]. destruct Hs as [s i s' _ Hs|s ok s' Hs|s k He Hw Hsp].
  - by eapply thread_measure.
  - by eapply mj_main_measure.
  - destruct (i_wait _ Hi Hw) as [Hp _]. unfold measure, m_left, K. cbn. rewrite Hp, Hw, Hsp. nia.
Qed.

Lemma mj_thread_moves s i th : Inv s -> threads s !! i = Some th -> t_pc th <> T_done ->
  mtx s = None \/ t_pc th <> T_lock -> exists s', threadFunc_step i s = Some s'.
Proof.
  intros Hi Hth Hd Hm. pose proof (i_threads _ Hi i th Hth) as Hok. pose proof (i_owner _ Hi) as Ho.
  unfold threadFunc_step. rewrite Hth. cbn. destruct th as [p st sl]. unfold thread_ok in Hok. cbn in *.
  destruct p; try done; try (by eexists).
  - destruct Hm as [->|]; [by eexists|done].
  - destruct (owner_unlock t_inside _ _ _ _ _ (Thread T_signal st sl) Ho Hth) as [-> _]; [done|done|].
    rewrite mutex_release. by eexists.
Qed.

(** A thread that has not been joined. *)
Lemma unjoined_thread s : Inv s -> Z.of_nat (length (reaped (out s))) < Z.of_nat (length (threads s)) ->
  exists i th, threads s !! i = Some th /\ state th <> TS_JOINED.
Proof.
  intros Hi Hlt. rewrite (i_joined _ Hi) in Hlt.
  assert (Hs : sumZ (fun th => 1 - joined th) (threads s) = Z.of_nat (length (threads s)) - sumZ joined (threads s)).
  { clear. induction (threads s) as [|th l IH]; [done|]. rewrite !sumZ_cons, IH. cbn [length]. lia. }
  destruct (sumZ_pos (fun th => 1 - joined th) (threads s)) as (i & th & Hth & Hj); [lia|].
  exists i, th. split; [done|]. intros Hst. unfold joined in Hj. rewrite Hst in Hj. lia.
Qed.

Lemma mj_progress s : Inv s -> exited s = false -> exists s', step args s s'.
Proof.
  intros Hi He. pose proof (i_owner _ Hi) as Ho. pose proof (i_pc _ Hi) as [Hx Hy].
  assert (Hthread : forall i th, threads s !! i = Some th -> t_pc th <> T_done -> mtx s = None \/ t_pc th <> T_lock ->
            exists s', step args s s').
  { intros i th Hth Hd Hm. destruct (mj_thread_moves s i th Hi Hth Hd Hm) as [s' Hs]. exists s'. by eapply step_thread. }
  assert (Hmain : (exists s', main_step args true s = Some s') -> exists s', step args s s').
  { intros [s' Hs]. exists s'. by eapply step_main. }
  unfold main_step, main_call in Hmain. unfold exited in He.
  assert (Hin : m_inside (pc s) = true -> mtx s = Some 0%nat) by apply Ho.
  destruct (pc s) as [| | | | |idx|idx| |st] eqn:Hp; try done; cbn in Hin.
  - apply Hmain. destruct (args !! _); [destruct (seconds _)|]; by eexists.
  - apply Hmain. by eexists.
  - destruct (mtx s) as [u|] eqn:Hm; [|apply Hmain; by eexists].
    destruct (owner_taken t_inside _ _ _ u Ho eq_refl) as [|(i & th & Hth & Hi')]; [done|].
    apply (Hthread i th Hth); unfold t_inside in Hi'; by destruct (t_pc th); auto.
  - apply Hmain. rewrite Hin, mutex_release by done. destruct (numUnjoined s =? 0); by eexists.
  - destruct (mtx s) as [u|] eqn:Hm.
    { destruct (owner_taken t_inside _ _ _ u Ho eq_refl) as [|(i & th & Hth & Hi')]; [done|].
      apply (Hthread i th Hth); unfold t_inside in Hi'; by destruct (t_pc th); auto. }
    destruct (waiting s) eqn:Hw; [|apply Hmain; by eexists].
    destruct (i_wait _ Hi Hw) as [_ [Hz|(i & th & Hth & Ht)]].
    + destruct (unjoined_thread s Hi) as (i & th & Hth & Hst); [lia|]. apply (Hthread i th Hth); [|by left].
      intros Hd. pose proof (i_threads _ Hi i th Hth) as Hok. unfold thread_ok in Hok. rewrite Hd in Hok.
      assert (counted th <= numUnjoined s).
      { rewrite (i_unjoined _ Hi). eapply sumZ_elem; [|done]. intros. apply counted_range. }
      unfold counted in *. destruct (state th); (done || lia).
    + apply (Hthread i th Hth); [|by left]. unfold telling in Ht. by destruct (t_pc th).
  - apply Hmain. destruct (Z.ltb_spec (Z.of_nat idx) (totThreads s)) as [Hlt|]; [|by eexists].
    destruct (lookup_lt_is_Some_2 (threads s) idx) as [th ->]; [lia|]. by eexists.
  - destruct Hy as (th & Hth & Hst). destruct (decide (t_pc th = T_done)) as [Hd|Hd].
    + apply Hmain. rewrite Hth. cbn. rewrite decide_True by done. by eexists.
    + apply (Hthread idx th Hth Hd). right. intros Hl. pose proof (i_threads _ Hi idx th Hth) as Hok.
      unfold thread_ok in Hok. rewrite Hl in Hok. congruence.
  - apply Hmain. rewrite Hin, mutex_release by done. by eexists.
Qed.

(** What the program has done in a state that a run has reached. *)
Definition joins_all (s : jstate) : Prop :=
  NoDup (reaped (out s)).*1 /\
  (forall i, i ∈ (reaped (out s)).*1 -> exists th, threads s !! i = Some th /\ t_pc th = T_done) /\
  (forall k p, reaped (out s) !! k = Some p -> p.2 = Z.of_nat n - Z.of_nat k - 1) /\
  match pc s with
  | J_exit st =>
      (st = EXIT_SUCCESS /\ (reaped (out s)).*1 ≡ₚ seq 0 n /\
       forall i th, threads s !! i = Some th -> t_pc th = T_done /\ state th = TS_JOINED) \/
      (st = EXIT_FAILURE /\ (length (threads s) < n)%nat)
  | _ => exists s', step args s s'
  end.

Lemma reaped_all s : Inv s -> length (reaped (out s)) = n -> length (threads s) = n -> (reaped (out s)).*1 ≡ₚ seq 0 n.
Proof.
  intros Hi Hr Hl. destruct (i_reaped _ Hi) as [Hnd Hin].
  apply submseteq_length_Permutation; [|by rewrite length_seq, length_fmap, Hr].
  apply NoDup_submseteq; [done|]. intros i Hi'. destruct (Hin i Hi') as (th & Hth%lookup_lt_Some & _).
  apply elem_of_seq. lia.
Qed.

Lemma joined_done s i th : Inv s -> threads s !! i = Some th -> state th = TS_JOINED -> t_pc th = T_done.
Proof.
  intros Hi Hth Hst. pose proof (i_threads _ Hi i th Hth) as Hok. unfold thread_ok in Hok.
  destruct (t_pc th); (done || congruence).
Qed.

Lemma Inv_joins s : Inv s -> joins_all s.
Proof.
  intros Hi. destruct (i_reaped _ Hi) as [Hnd Hr]. split; [done|]. split.
  { intros i Hin. destruct (Hr i Hin) as (th & Hth & Hst). exists th. split; [done|]. by eapply joined_done. }
  split; [apply (i_live _ Hi)|]. pose proof (mj_progress s Hi) as Hp. unfold exited in Hp. pose proof (i_pc _ Hi) as [Hx _].
  destruct (pc s); try (by apply Hp). destruct Hx as [(-> & Hn & Hl)|[-> Hl]]; [left|by right].
  pose proof (reaped_all s Hi Hn Hl) as Hperm. split; [done|]. split; [done|]. intros i th Hth.
  destruct (Hr i) as (th' & Hth' & Hst).
  { rewrite Hperm. apply elem_of_seq. apply lookup_lt_Some in Hth. lia. }
  rewrite Hth in Hth'. injection Hth' as <-. split; [by eapply joined_done|done].
Qed.
End correct.

(** C21: thread_multijoin joins every thread that it creates exactly once. Every run
    ends, in whatever order the threads end and wherever a finite number of spurious
    wake-ups falls; no run gets stuck before main() has ended it, although main() waits
    in pthread_join() with the mutex that the threads need, and the threads signal after
    giving it back; a thread is reported as reaped at most once, and only when it has
    returned, each report with one thread less alive; and main() ends successfully
    exactly when all have been joined, or with a failure when an argument is not a
    number of seconds or a thread cannot be created. *)
Theorem multijoin_correct args k (Hne : args <> []) (Hhelp : args !! 0%nat <> Some (str "--help"))
  (Hn : Z.of_nat (length args) <= INT_MAX) :
  sn (step args) (start args true k) /\
  forall s, rtc (step args) (start args true k) s -> joins_all args s.
Proof.
  pose proof (mj_Inv_start args k Hne Hhelp) as Hstart. split.
  - apply (sn_measure _ (Inv args) (mj_Inv_step args Hn) (measure args)); [|done]. by apply mj_step_measure.
  - intros s Hr. apply Inv_joins. by apply (reach_inv _ (Inv args) (mj_Inv_step args Hn) (start args true k)).
Qed.

Lemma multijoin_correct_witness : sn (step [str "1"; str "2"]) (start [str "1"; str "2"] true 3).
Proof. by refine (proj1 (multijoin_correct [str "1"; str "2"] 3 _ _ _)). Defined.
