(* ===== verification/FifoSeqnum.v ===== *)
(** The sequence-number server over FIFOs: book-src/pipes/fifo_seqnum_server.c and
    fifo_seqnum_client.c. The server and any number of clients are step functions
    over the FIFOs they share; the interleavings of their steps are a relation, in
    which calls can fail and clients can be killed at any point. *)
From S2P Require Import Prelude CLib Sys GetNum Steps.
From stdpp Require Import relations.
#[local] Open Scope Z_scope.

(** * FIFOs *)

(** What fifo(7) and pipe(7) say of a FIFO that blocking open() calls connect. An
    opener counts from the moment it asks; it is held up while nobody has opened the
    other end, until somebody does ([r_counter], [w_counter]: how often that has
    happened). What is in the FIFO is lost when it is closed at both ends. *)
Record fifo (A : Type) := Fifo { readers : nat; writers : nat; r_counter : nat; w_counter : nat; fdata : list A }.
Arguments Fifo {A}. Arguments readers {A}. Arguments writers {A}. Arguments r_counter {A}. Arguments w_counter {A}.
Arguments fdata {A}.
Definition fifo0 {A} : fifo A := Fifo 0 0 0 0 [].

Section fifos.
Context {A : Type}.
Implicit Types (f : fifo A) (l : list A).
Definition begin_read f : fifo A := Fifo (S (readers f)) (writers f) (S (r_counter f)) (w_counter f) (fdata f).
Definition begin_write f : fifo A := Fifo (readers f) (S (writers f)) (r_counter f) (S (w_counter f)) (fdata f).
Definition set_data l f : fifo A := Fifo (readers f) (writers f) (r_counter f) (w_counter f) l.
Definition closed r w f : fifo A :=
  Fifo r w (r_counter f) (w_counter f) (if decide (r = 0%nat /\ w = 0%nat) then [] else fdata f).
Definition close_read f : fifo A := closed (readers f - 1) (writers f) f.
Definition close_write f : fifo A := closed (readers f) (writers f - 1) f.
End fifos.

(** * Messages and state *)

(** Source: book-src/pipes/fifo_seqnum.h:39-42 (struct request). *)
Record request := Request { pid : Z; seqLen : Z }.
(** Source: book-src/pipes/fifo_seqnum.h:44-46 (struct response). *)
Record response := Response { seqNum : Z }.

(** A FIFO of a client; [owner] is the PID in the name it was made under. *)
Record inode := Inode { owner : Z; pipe : fifo response }.

(** The server is about to make the well-known FIFO, to open it for reading, held up
    there, to open it for writing, to ignore SIGPIPE; then, for each request, to read
    it, to open the FIFO of the client, held up there, to write, to close, to add. *)
Inductive spc :=
| S_mkfifo | S_open | S_opening (snap : nat) | S_dummy | S_signal
| S_read | S_open_client (r : request) | S_opening_client (r : request) (ino snap : nat)
| S_write (r : request) (ino : nat) | S_close (r : request) (ino : nat) | S_update (r : request)
| S_exit (status : Z).

(** How a process ends. *)
Inductive fate := F_exit (status : Z) | F_killed.
(** A client has not been started, or is about to make its FIFO, to register the
    handler, to fill in the request, to open the server's FIFO, held up there, to write
    the request, to open its own FIFO, held up there, to read the answer, to print it. *)
Inductive cpc :=
| C_new | C_mkfifo | C_atexit | C_request | C_open_sv (len : Z) | C_wait_sv (len : Z) (snap : nat) | C_write (len : Z)
| C_open | C_opening (ino snap : nat) | C_read (ino : nat) | C_print (ino : nat) (resp : response) | C_end (f : fate).
(** [c_arg]: argv[1], if there is one. [c_out]: the numbers printed. *)
Record client := Client { c_pid : Z; c_arg : option bytes; c_pc : cpc; c_out : list Z }.

(** [linked]: the name of the server's FIFO exists; [names]: the FIFOs of clients that
    have a name, by PID; [next_num]: the server's [seqNum]. *)
Record sstate := SState {
  linked : bool; sv : fifo request; names : gmap Z nat; inodes : list inode;
  server : spc; next_num : Z; clients : list client }.

Definition with_linked b s := SState b (sv s) (names s) (inodes s) (server s) (next_num s) (clients s).
Definition with_sv f s := SState (linked s) f (names s) (inodes s) (server s) (next_num s) (clients s).
Definition with_names m s := SState (linked s) (sv s) m (inodes s) (server s) (next_num s) (clients s).
Definition with_inodes l s := SState (linked s) (sv s) (names s) l (server s) (next_num s) (clients s).
Definition with_server p s := SState (linked s) (sv s) (names s) (inodes s) p (next_num s) (clients s).
Definition with_num n s := SState (linked s) (sv s) (names s) (inodes s) (server s) n (clients s).
Definition with_client i c s := SState (linked s) (sv s) (names s) (inodes s) (server s) (next_num s) (<[i:=c]> (clients s)).
Definition with_pipe (ino : nat) (g : fifo response -> fifo response) s :=
  with_inodes (alter (fun n => Inode (owner n) (g (pipe n))) ino (inodes s)) s.

(** * The server *)

Section programs.
(** How many requests the server's FIFO takes. A request is not longer than PIPE_BUF,
    so that it is written and read whole. *)
Context (capacity : nat).

(** One step; [ok] is whether the call succeeds, where that is not decided by the state
    (an mkfifo() that finds the FIFO there counts as a success). [None]: held up. *)
(** Source: book-src/pipes/fifo_seqnum_server.c:34-91 (main). *)
Definition server_step (ok : bool) (s : sstate) : option sstate :=
  let goto p := with_server p s in
  match server s with
  | S_mkfifo => Some (if ok then with_server S_open (with_linked true s) else goto (S_exit EXIT_FAILURE))
  | S_open =>
      Some (if ok then
              with_server (if decide (writers (sv s) = 0%nat) then S_opening (w_counter (sv s)) else S_dummy)
                (with_sv (begin_read (sv s)) s)
            else goto (S_exit EXIT_FAILURE))
  | S_opening snap => if decide (w_counter (sv s) = snap) then None else Some (goto S_dummy)
  | S_dummy =>
      Some (if ok then with_server S_signal (with_sv (begin_write (sv s)) s)
            else with_server (S_exit EXIT_FAILURE) (with_sv (close_read (sv s)) s))
  | S_signal =>
      Some (if ok then goto S_read
            else with_server (S_exit EXIT_FAILURE) (with_sv (close_write (close_read (sv s))) s))
  | S_read =>
      if ok then
        match fdata (sv s) with
        | r :: rest => Some (with_server (S_open_client r) (with_sv (set_data rest (sv s)) s))
        | [] => None
        end
      else Some s
  | S_open_client r =>
      match (if ok then names s !! pid r else None) with
      | Some ino =>
          n ← inodes s !! ino;
          Some (with_server (if decide (readers (pipe n) = 0%nat) then S_opening_client r ino (r_counter (pipe n)) else S_write r ino)
                  (with_pipe ino begin_write s))
      | None => Some (goto S_read)
      end
  | S_opening_client r ino snap =>
      n ← inodes s !! ino;
      if decide (r_counter (pipe n) = snap) then None else Some (goto (S_write r ino))
  | S_write r ino =>
      n ← inodes s !! ino;
      Some (with_server (S_close r ino)
              (if ok && bool_decide (readers (pipe n) <> 0%nat)
               then with_pipe ino (set_data (fdata (pipe n) ++ [Response (next_num s)])) s else s))
  | S_close r ino => Some (with_server (S_update r) (with_pipe ino close_write s))
  | S_update r => Some (with_server S_read (with_num (i32 (next_num s + seqLen r)) s))
  | S_exit _ => None
  end.

(** * A client *)

(** [req.seqLen = (argc > 1) ? getInt(argv[1], GN_GT_0, "seq-len") : 1;] *)
(** Source: book-src/pipes/fifo_seqnum_client.c:61-61 (main, req.seqLen). *)
Definition request_len (arg : option bytes) : outcome Z :=
  match arg with
  | Some a => (getInt (Some a) GN_GT_0 (Some (str "seq-len")) libc0).1
  | None => Done 1
  end.

(** The end of a client closes its descriptors. *)
Definition has_sv_open (p : cpc) : bool :=
  match p with C_wait_sv _ _ | C_write _ | C_open | C_opening _ _ | C_read _ | C_print _ _ => true | _ => false end.
Definition own_open (p : cpc) : option nat :=
  match p with C_opening ino _ | C_read ino | C_print ino _ => Some ino | _ => None end.
Definition ends (i : nat) (c : client) (f : fate) (out : list Z) (s : sstate) : sstate :=
  with_client i (Client (c_pid c) (c_arg c) (C_end f) out)
    (with_sv (if has_sv_open (c_pc c) then close_write (sv s) else sv s)
      (match own_open (c_pc c) with Some ino => with_pipe ino close_read s | None => s end)).

(** The handler that atexit() has registered. *)
(** Source: book-src/pipes/fifo_seqnum_client.c:30-34 (removeFifo). *)
Definition removeFifo (c : client) (s : sstate) : sstate := with_names (delete (c_pid c) (names s)) s.
(** exit() once the handler is registered *)
Definition c_exits (i : nat) (c : client) (status : Z) (out : list Z) (s : sstate) : sstate :=
  removeFifo c (ends i c (F_exit status) out s).

(** A PID belongs to one live process only. *)
Definition live (p : cpc) : bool := match p with C_new | C_end _ => false | _ => true end.
Definition pid_free (p : Z) (s : sstate) : bool := forallb (fun c => negb (live (c_pc c)) || negb (c_pid c =? p)) (clients s).

(** Source: book-src/pipes/fifo_seqnum_client.c:36-83 (main). *)
Definition client_step (ok : bool) (i : nat) (s : sstate) : option sstate :=
  c ← clients s !! i;
  let goto p := with_client i (Client (c_pid c) (c_arg c) p (c_out c)) in
  let fails := Some (c_exits i c EXIT_FAILURE (c_out c) s) in
  match c_pc c with
  | C_new =>
      if pid_free (c_pid c) s then
        Some (if bool_decide (c_arg c = Some (str "--help")) then ends i c (F_exit EXIT_FAILURE) (c_out c) s
              else goto C_mkfifo s)
      else None
  | C_mkfifo =>
      Some (if ok then
              match names s !! c_pid c with
              | Some _ => goto C_atexit s
              | None => goto C_atexit (with_names (<[c_pid c := length (inodes s)]> (names s))
                                         (with_inodes (inodes s ++ [Inode (c_pid c) fifo0]) s))
              end
            else ends i c (F_exit EXIT_FAILURE) (c_out c) s)
  | C_atexit => Some (if ok then goto C_request s else ends i c (F_exit EXIT_FAILURE) (c_out c) s)
  | C_request =>
      match request_len (c_arg c) with
      | Done len => Some (goto (C_open_sv len) s)
      | Exited n => Some (c_exits i c n (c_out c) s)
      | _ => None
      end
  | C_open_sv len =>
      if ok && linked s then
        Some (goto (if decide (readers (sv s) = 0%nat) then C_wait_sv len (r_counter (sv s)) else C_write len)
                (with_sv (begin_write (sv s)) s))
      else fails
  | C_wait_sv len snap => if decide (r_counter (sv s) = snap) then None else Some (goto (C_write len) s)
  | C_write len =>
      if decide (readers (sv s) = 0%nat) then Some (ends i c F_killed (c_out c) s)
      else if negb ok then fails
      else if decide (capacity <= length (fdata (sv s)))%nat then None
      else Some (goto C_open (with_sv (set_data (fdata (sv s) ++ [Request (c_pid c) len]) (sv s)) s))
  | C_open =>
      match (if ok then names s !! c_pid c else None) with
      | Some ino =>
          n ← inodes s !! ino;
          Some (goto (if decide (writers (pipe n) = 0%nat) then C_opening ino (w_counter (pipe n)) else C_read ino)
                  (with_pipe ino begin_read s))
      | None => fails
      end
  | C_opening ino snap =>
      n ← inodes s !! ino;
      if decide (w_counter (pipe n) = snap) then None else Some (goto (C_read ino) s)
  | C_read ino =>
      n ← inodes s !! ino;
      if ok then
        match fdata (pipe n) with
        | a :: rest => Some (goto (C_print ino a) (with_pipe ino (set_data rest) s))
        | [] => if decide (writers (pipe n) = 0%nat) then fails else None
        end
      else fails
  | C_print _ a => Some (c_exits i c EXIT_SUCCESS (c_out c ++ [seqNum a]) s)
  | C_end _ => None
  end.

(** A signal ends the client: no handler runs. *)
Definition kill_client (i : nat) (s : sstate) : option sstate :=
  c ← clients s !! i;
  if live (c_pc c) then Some (ends i c F_killed (c_out c) s) else None.

Inductive step : sstate -> sstate -> Prop :=
| step_server ok s s' : server_step ok s = Some s' -> step s s'
| step_client ok i s s' : client_step ok i s = Some s' -> step s s'
| step_kill i s s' : kill_client i s = Some s' -> step s s'.

(** Where nothing fails and no client is killed. *)
Inductive calm_step : sstate -> sstate -> Prop :=
| calm_server s s' : server_step true s = Some s' -> calm_step s s'
| calm_client i s s' : client_step true i s = Some s' -> calm_step s s'.

(** At the start there may be FIFOs that earlier programs have left. *)
Definition new_client (x : Z * option bytes) : client := Client x.1 x.2 C_new [].
Definition start (left_over : bool) (old : list Z) (cl : list (Z * option bytes)) : sstate :=
  SState left_over fifo0 (list_to_map (zip old (seq 0 (length old)))) ((fun p => Inode p fifo0) <$> old)
    S_mkfifo 0 (new_client <$> cl).
End programs.

(** * The specification: an allocator *)

(** Requests wait in line; the first one is granted the numbers from [a_next] on.
    Requests can be lost. *)
Record alloc := Alloc { a_next : Z; a_pending : list request; a_grants : list (request * Z) }.
Definition alloc0 : alloc := Alloc 0 [] [].
Definition a_pids (a : alloc) : list Z := (pid <$> a_pending a) ++ ((pid ∘ fst) <$> a_grants a).

Inductive astep : alloc -> alloc -> Prop :=
| a_submit r n q g : pid r ∉ a_pids (Alloc n q g) -> 0 < seqLen r -> astep (Alloc n q g) (Alloc n (q ++ [r]) g)
| a_drop r n q1 q2 g : astep (Alloc n (q1 ++ r :: q2) g) (Alloc n (q1 ++ q2) g)
| a_grant r n q g : astep (Alloc n (r :: q) g) (Alloc (n + seqLen r) q (g ++ [(r, n)])).

(** Grants follow each other from 0 to [a_next], one for a process. *)
Record alloc_ok (a : alloc) : Prop := {
  ao_pids : NoDup (a_pids a);
  ao_pos : Forall (fun r => 0 < seqLen r) (a_pending a ++ (a_grants a).*1);
  ao_next : a_next a = sumZ (seqLen ∘ fst) (a_grants a);
  ao_range : forall r x, (r, x) ∈ a_grants a -> 0 <= x /\ x + seqLen r <= a_next a;
  ao_order : forall k j r x r' x', (k < j)%nat -> a_grants a !! k = Some (r, x) -> a_grants a !! j = Some (r', x') ->
    x + seqLen r <= x'
}.

Lemma alloc0_ok : alloc_ok alloc0.
Proof. split; cbn; try done; try constructor; set_solver. Qed.

Lemma alloc_next_nonneg a : alloc_ok a -> 0 <= a_next a.
Proof.
  intros Ha. rewrite (ao_next _ Ha). apply sumZ_nonneg. intros [r x] Hr. cbn.
  assert (0 < seqLen r); [|lia]. pose proof (ao_pos _ Ha) as Hp. rewrite Forall_forall in Hp. apply Hp.
  apply elem_of_app. right. apply list_elem_of_fmap. by exists (r, x).
Qed.

Lemma astep_ok a a' : alloc_ok a -> astep a a' -> alloc_ok a'.
Proof.
  intros Ha Hs. pose proof (alloc_next_nonneg a Ha) as Hn. destruct Ha as [Hd Hp Hx Hr Ho].
  destruct Hs as [r n q g Hf Hl|r n q1 q2 g|r n q g]; unfold a_pids in *; cbn in *.
  - split; cbn; try done.
    + rewrite fmap_app, <- app_assoc. cbn. rewrite <- (Permutation_middle (pid <$> q)). constructor; [done|done].
    + rewrite <- app_assoc. cbn. rewrite <- (Permutation_middle q). by constructor.
  - split; cbn; try done.
    + rewrite fmap_app, <- app_assoc in Hd |- *. cbn in Hd. rewrite <- Permutation_middle in Hd. by apply NoDup_cons in Hd as [_ Hd].
    + rewrite <- app_assoc in Hp |- *. cbn in Hp. rewrite <- Permutation_middle in Hp. by apply Forall_cons in Hp as [_ Hp].
  - apply Forall_cons in Hp as [Hlr Hp]. split; cbn.
    + rewrite fmap_app, app_assoc. cbn. rewrite (Permutation_app_comm _ [pid r]). done.
    + rewrite fmap_app, app_assoc. cbn. apply Forall_app. split; [done|]. by constructor.
    + rewrite sumZ_app, sumZ_one. cbn. lia.
    + intros r' x [Hin|[= -> ->]%list_elem_of_singleton]%elem_of_app; [|lia]. pose proof (Hr _ _ Hin). lia.
    + intros k j r1 x1 r2 x2 Hkj H1 H2. apply lookup_snoc_Some in H2 as [[Hj H2]|[-> [= <- <-]]].
      * rewrite lookup_app_l in H1 by lia. exact (Ho _ _ _ _ _ _ Hkj H1 H2).
      * rewrite lookup_app_l in H1 by lia. apply list_elem_of_lookup_2 in H1. destruct (Hr _ _ H1). lia.
Qed.
Lemma asteps_ok a a' : alloc_ok a -> rtc astep a a' -> alloc_ok a'.
Proof. apply (reach_inv astep alloc_ok). intros. by eapply astep_ok. Qed.

Lemma asteps_drop n l q g : l `sublist_of` q -> rtc astep (Alloc n q g) (Alloc n l g).
Proof.
  intros Hl. change (rtc astep (Alloc n ([] ++ q) g) (Alloc n ([] ++ l) g)). generalize (@nil request) as p.
  induction Hl as [|r l q _ IH|r l q _ IH]; intros p; [done| |].
  - pose proof (IH (p ++ [r])) as Hp. by rewrite <- !app_assoc in Hp.
  - eapply rtc_l; [apply a_drop|exact (IH p)].
Qed.
Lemma sumZ_sublist {A} (f : A -> Z) l q : (forall x, x ∈ q -> 0 <= f x) -> l `sublist_of` q -> sumZ f l <= sumZ f q.
Proof.
  intros Hf Hl. induction Hl as [|r l q _ IH|r l q _ IH]; rewrite ?sumZ_cons; [done| |];
    pose proof (IH ltac:(intros; apply Hf; by right)); pose proof (Hf r ltac:(left)); lia.
Qed.

Lemma grants_disjoint a r x r' x' : alloc_ok a -> (r, x) ∈ a_grants a -> (r', x') ∈ a_grants a -> pid r <> pid r' ->
  x + seqLen r <= x' \/ x' + seqLen r' <= x.
Proof.
  intros Ha [k Hk]%list_elem_of_lookup [j Hj]%list_elem_of_lookup Hne. destruct (lt_eq_lt_dec k j) as [[Hlt| ->]|Hlt].
  - left. by eapply (ao_order _ Ha k j).
  - rewrite Hk in Hj. by injection Hj as -> ->.
  - right. by eapply (ao_order _ Ha j k).
Qed.

(** * The programs implement it *)

(** What the server has taken out of its FIFO and not yet answered, and what is there. *)
Definition in_hand (p : spc) : list request :=
  match p with S_open_client r | S_opening_client r _ _ | S_write r _ => [r] | _ => [] end.
Definition inflight (s : sstate) : list request := in_hand (server s) ++ fdata (sv s).
(** Once the server has answered, the numbers are used up. *)
Definition answered (p : spc) : Z := match p with S_close r _ | S_update r => seqLen r | _ => 0 end.
Definition allocated (s : sstate) : Z := next_num s + answered (server s).
Definition abs (s : sstate) (g : list (request * Z)) : alloc := Alloc (allocated s) (inflight s) g.

(** What a client asks for, and what it may still ask for. *)
Definition wanted (arg : option bytes) : Z := if request_len arg is Done n then n else 0.
Definition unsent (p : cpc) : bool :=
  match p with C_new | C_mkfifo | C_atexit | C_request | C_open_sv _ | C_wait_sv _ _ | C_write _ => true | _ => false end.
Definition still_wanted (c : client) : Z := if unsent (c_pc c) then wanted (c_arg c) else 0.

Definition own (l : list inode) (ino : nat) (p : Z) : Prop := owner <$> l !! ino = Some p.
Definition granted (g : list (request * Z)) (p x : Z) : Prop := exists r, (r, x) ∈ g /\ pid r = p.
Definition server_handle (p : spc) : option (nat * Z) :=
  match p with S_opening_client r ino _ | S_write r ino | S_close r ino => Some (ino, pid r) | _ => None end.

Record client_ok (l : list inode) (pids : list Z) (g : list (request * Z)) (c : client) : Prop := {
  co_unsent : unsent (c_pc c) = true -> c_pid c ∉ pids;
  co_len : match c_pc c with C_open_sv n | C_wait_sv n _ | C_write n => request_len (c_arg c) = Done n | _ => True end;
  co_own : if own_open (c_pc c) is Some ino then own l ino (c_pid c) else True;
  co_read : if c_pc c is C_print _ a then granted g (c_pid c) (seqNum a) else True;
  co_out : c_out c = [] \/ exists x st, c_out c = [x] /\ c_pc c = C_end (F_exit st) /\ granted g (c_pid c) x
}.

Section refinement.
Context (capacity : nat) (total : Z) (total_int : total <= INT_MAX).

Record Inv (s : sstate) (g : list (request * Z)) : Prop := {
  i_alloc : alloc_ok (abs s g);
  i_nodup : NoDup (c_pid <$> clients s);
  i_req : forall r, r ∈ inflight s ++ g.*1 -> exists c, c ∈ clients s /\ c_pid c = pid r /\ request_len (c_arg c) = Done (seqLen r);
  i_clients : forall i c, clients s !! i = Some c -> client_ok (inodes s) (a_pids (abs s g)) g c;
  i_inodes : forall k n x, inodes s !! k = Some n -> x ∈ fdata (pipe n) -> granted g (owner n) (seqNum x);
  i_names : forall p k, names s !! p = Some k -> own (inodes s) k p;
  i_server : if server_handle (server s) is Some (ino, p) then own (inodes s) ino p else True;
  i_budget : allocated s + sumZ seqLen (inflight s) + sumZ still_wanted (clients s) <= total
}.

Lemma request_len_pos arg n : request_len arg = Done n -> 0 < n.
Proof.
  unfold request_len. destruct arg as [a|]; [|intros [= <-]; lia]. intros Ha.
  pose proof (getInt_correct (Some a) GN_GT_0 (Some (str "seq-len")) libc0) as Hc.
  destruct (getInt _ _ _ libc0) as [o s']. cbn in Ha. subst o.
  destruct Hc as (_ & (a' & _ & _ & _ & Hf) & _). by apply Hf.
Qed.
Lemma still_wanted_nonneg c : 0 <= still_wanted c.
Proof.
  unfold still_wanted, wanted. destruct (unsent (c_pc c)); [|done]. destruct (request_len (c_arg c)) eqn:Hr; try done.
  apply request_len_pos in Hr. lia.
Qed.

(** ** What the operations on FIFOs leave alone *)

Lemma own_pipe k ino p g s : own (inodes (with_pipe ino g s)) k p <-> own (inodes s) k p.
Proof.
  unfold own, with_pipe. cbn. rewrite list_lookup_alter. destruct (decide (ino = k)) as [->|]; [|done].
  by destruct (inodes s !! k).
Qed.
Lemma closed_data {A} r w (f : fifo A) : fdata (closed r w f) = [] \/ fdata (closed r w f) = fdata f.
Proof. unfold closed. cbn. destruct (decide _); auto. Qed.

(** The inodes of [s'] are those of [s] and new ones, with no more in them. *)
Definition grows (l l' : list inode) : Prop :=
  (forall k p, own l k p -> own l' k p) /\
  (forall k n x, l' !! k = Some n -> x ∈ fdata (pipe n) -> exists m, l !! k = Some m /\ owner m = owner n /\ x ∈ fdata (pipe m)).
Lemma grows_refl l : grows l l.
Proof. split; [done|]. intros k n x. by exists n. Qed.
Lemma grows_pipe ino g s : (forall n, inodes s !! ino = Some n -> fdata (g (pipe n)) ⊆ fdata (pipe n)) ->
  grows (inodes s) (inodes (with_pipe ino g s)).
Proof.
  intros Hg. split; [intros k p; by rewrite own_pipe|]. intros k n x. unfold with_pipe. cbn. rewrite list_lookup_alter.
  destruct (decide (ino = k)) as [->|]; [|intros; by exists n]. destruct (inodes s !! k) as [m|] eqn:Hm; [|done].
  intros [= <-] Hx. exists m. cbn in *. split_and!; [done|done|]. by apply (Hg m).
Qed.
Lemma grows_new p l : grows l (l ++ [Inode p fifo0]).
Proof.
  split.
  - intros k q Hk. unfold own in *. destruct (l !! k) eqn:Hl; [|done]. by rewrite (lookup_app_l_Some _ _ _ _ Hl).
  - intros k n x Hk Hx. apply lookup_snoc_Some in Hk as [[_ Hk]|[_ <-]]; [by exists n|]. by apply elem_of_nil in Hx.
Qed.

(** ** The allocator stays where it is, or drops requests *)

Lemma Inv_stutter s s' g : Inv s g ->
  inflight s' `sublist_of` inflight s -> allocated s' = allocated s -> grows (inodes s) (inodes s') ->
  (forall p k, names s' !! p = Some k -> own (inodes s') k p) ->
  (if server_handle (server s') is Some (ino, p) then own (inodes s') ino p else True) ->
  (clients s' = clients s \/
   exists i c c', clients s !! i = Some c /\ clients s' = <[i:=c']> (clients s) /\ c_pid c' = c_pid c /\ c_arg c' = c_arg c /\
     still_wanted c' <= still_wanted c /\
     (client_ok (inodes s') (a_pids (abs s g)) g c -> client_ok (inodes s') (a_pids (abs s g)) g c')) ->
  rtc astep (abs s g) (abs s' g) /\ Inv s' g.
Proof.
  intros Hi Hl Ha [Hown Hdata] Hn Hs Hc.
  assert (Hst : rtc astep (abs s g) (abs s' g)) by (unfold abs; rewrite Ha; by apply asteps_drop).
  split; [exact Hst|]. pose proof (asteps_ok _ _ (i_alloc _ _ Hi) Hst) as Hok.
  assert (Hpids : a_pids (abs s' g) ⊆ a_pids (abs s g)).
  { unfold a_pids, abs. cbn. intros p. rewrite !elem_of_app, !list_elem_of_fmap. intros [(r & -> & Hr)|Hg]; [left|by right].
    exists r. split; [done|]. by eapply elem_of_sublist. }
  assert (Hmono : forall c, client_ok (inodes s) (a_pids (abs s g)) g c -> client_ok (inodes s') (a_pids (abs s g)) g c).
  { intros c [H1 H2 H3 H4 H5]. split; try done. destruct (own_open (c_pc c)); auto. }
  assert (Hdrop : forall c, client_ok (inodes s') (a_pids (abs s g)) g c -> client_ok (inodes s') (a_pids (abs s' g)) g c).
  { intros c [H1 H2 H3 H4 H5]. split; try done. intros Hu Hin. by apply (H1 Hu), Hpids. }
  assert (Hsum : sumZ seqLen (inflight s') <= sumZ seqLen (inflight s)).
  { apply sumZ_sublist; [|done]. intros r Hr. pose proof (ao_pos _ (i_alloc _ _ Hi)) as Hp. rewrite Forall_forall in Hp.
    specialize (Hp r (proj2 (elem_of_app _ _ _) (or_introl Hr))). lia. }
  assert (Hcl : (c_pid <$> clients s') = (c_pid <$> clients s) /\ sumZ still_wanted (clients s') <= sumZ still_wanted (clients s) /\
    (forall c, c ∈ clients s -> exists c', c' ∈ clients s' /\ c_pid c' = c_pid c /\ c_arg c' = c_arg c) /\
    (forall i c, clients s' !! i = Some c -> client_ok (inodes s') (a_pids (abs s g)) g c)).
  { destruct Hc as [->|(i & c & c' & Hic & -> & Hp & Harg & Hw & Hco)].
    - split_and!; [done|done|by eauto|]. intros i c Hic. apply Hmono. by apply (i_clients _ _ Hi i).
    - split_and!.
      + rewrite list_fmap_insert, Hp. apply list_insert_id. by rewrite list_lookup_fmap, Hic.
      + rewrite (sumZ_insert _ _ _ _ _ Hic). lia.
      + intros d [k Hk]%list_elem_of_lookup. destruct (decide (k = i)) as [->|Hne].
        * exists c'. rewrite Hk in Hic. injection Hic as ->. split; [|done]. apply (list_elem_of_lookup_2 _ i).
          apply list_lookup_insert_eq. by apply lookup_lt_Some in Hk.
        * exists d. split; [|done]. apply (list_elem_of_lookup_2 _ k). by rewrite list_lookup_insert_ne.
      + apply (all_insert (fun _ => client_ok (inodes s') (a_pids (abs s g)) g)).
        * intros k d Hk _. apply Hmono. by apply (i_clients _ _ Hi k).
        * apply Hco, Hmono. by apply (i_clients _ _ Hi i). }
  destruct Hcl as (Hp1 & Hp2 & Hp3 & Hp4). split.
  - exact Hok.
  - rewrite Hp1. apply (i_nodup _ _ Hi).
  - intros r Hr. destruct (i_req _ _ Hi r) as (c & Hc1 & Hc2 & Hc3); 
      [apply elem_of_app in Hr as [Hr|Hr]; apply elem_of_app; [left; by eapply elem_of_sublist|by right]|].
    destruct (Hp3 c Hc1) as (c' & ? & ? & Harg). exists c'. split_and!; [done|congruence|by rewrite Harg].
  - intros i c Hic. by eapply Hdrop, Hp4.
  - intros k n x Hk Hx. destruct (Hdata k n x Hk Hx) as (m & Hm & <- & Hxm). by apply (i_inodes _ _ Hi k m).
  - done.
  - done.
  - pose proof (i_budget _ _ Hi). lia.
Qed.

(** ** The steps of the server *)

Lemma Inv_grant s g r ino s' : Inv s g -> server s = S_write r ino ->
  names s' = names s -> clients s' = clients s -> sv s' = sv s -> server s' = S_close r ino -> next_num s' = next_num s ->
  (forall k p, own (inodes s) k p -> own (inodes s') k p) ->
  (forall k n x, inodes s' !! k = Some n -> x ∈ fdata (pipe n) ->
     (exists m, inodes s !! k = Some m /\ owner m = owner n /\ x ∈ fdata (pipe m)) \/ (k = ino /\ seqNum x = next_num s)) ->
  rtc astep (abs s g) (abs s' (g ++ [(r, next_num s)])) /\ Inv s' (g ++ [(r, next_num s)]).
Proof.
  intros Hi Hs Hn Hc Hv Hs' Hnn Hown Hdata.
  assert (Hinf : inflight s = r :: inflight s') by (unfold inflight; by rewrite Hs, Hs', Hv).
  assert (Hall : allocated s = next_num s /\ allocated s' = next_num s + seqLen r).
  { unfold allocated. rewrite Hs, Hs', Hnn. cbn. lia. }
  assert (Hst : astep (abs s g) (abs s' (g ++ [(r, next_num s)]))).
  { unfold abs. rewrite Hinf. destruct Hall as [-> ->]. apply a_grant. }
  split; [by apply rtc_once|].
  assert (Hpids : a_pids (abs s' (g ++ [(r, next_num s)])) ⊆ a_pids (abs s g)).
  { unfold a_pids, abs. cbn. rewrite Hinf, fmap_app. cbn. set_solver. }
  assert (Hmono : forall p x, granted g p x -> granted (g ++ [(r, next_num s)]) p x).
  { intros p x (q & Hq & <-). exists q. split; [|done]. apply elem_of_app. by left. }
  split.
  - by apply (astep_ok (abs s g)); [apply (i_alloc _ _ Hi)|].
  - rewrite Hc. apply (i_nodup _ _ Hi).
  - rewrite Hc. intros q Hq. apply (i_req _ _ Hi). rewrite Hinf. rewrite fmap_app in Hq. cbn in Hq. set_solver.
  - rewrite Hc. intros i c Hic. destruct (i_clients _ _ Hi i c Hic) as [H1 H2 H3 H4 H5]. split; try done.
    + intros Hu Hin. by apply (H1 Hu), Hpids.
    + destruct (own_open (c_pc c)); auto.
    + destruct (c_pc c); auto.
    + destruct H5 as [|(x & st & ? & ? & ?)]; [by left|right]. exists x, st. auto.
  - intros k n x Hk Hx. destruct (Hdata k n x Hk Hx) as [(m & Hm & <- & Hxm)|[-> Hx']].
    + apply Hmono. by apply (i_inodes _ _ Hi k m).
    + exists r. rewrite Hx'. split; [apply elem_of_app; right; by apply list_elem_of_singleton|].
      pose proof (i_server _ _ Hi) as Hh. rewrite Hs in Hh. cbn in Hh. apply Hown in Hh. unfold own in Hh. rewrite Hk in Hh. cbn in Hh. congruence.
  - rewrite Hn. intros p k Hk. by apply Hown, (i_names _ _ Hi).
  - rewrite Hs'. cbn. pose proof (i_server _ _ Hi) as Hh. rewrite Hs in Hh. by apply Hown.
  - pose proof (i_budget _ _ Hi) as Hb. destruct Hall as [Ha1 Ha2]. rewrite Hinf, sumZ_cons in Hb. rewrite Hc. lia.
Qed.

(** The steps that leave the clients and their FIFOs alone. *)
Lemma Inv_keep s g t : Inv s g -> names t = names s -> inodes t = inodes s -> clients t = clients s ->
  inflight t `sublist_of` inflight s -> allocated t = allocated s ->
  (if server_handle (server t) is Some (ino, p) then own (inodes s) ino p else True) ->
  exists g', rtc astep (abs s g) (abs t g') /\ Inv t g'.
Proof.
  intros Hi Hn Hino Hc Hl Ha Hh. exists g. apply Inv_stutter; rewrite ?Hino, ?Hn; try done; [apply grows_refl|apply (i_names _ _ Hi)|by left].
Qed.
Ltac views Hsv := unfold inflight, allocated; cbn; rewrite ?Hsv; cbn; repeat (destruct (decide _)); try done; try apply sublist_nil_l; try lia.

(** The requests under way and the counter stay in the range of an int. *)
Lemma inflight_nonneg s g : Inv s g -> 0 <= sumZ seqLen (inflight s).
Proof.
  intros Hi. apply sumZ_nonneg. intros q Hq. pose proof (ao_pos _ (i_alloc _ _ Hi)) as Hpos. rewrite Forall_forall in Hpos.
  specialize (Hpos q (proj2 (elem_of_app _ _ _) (or_introl Hq))). lia.
Qed.
Lemma allocated_range s g : Inv s g -> 0 <= allocated s <= total.
Proof.
  intros Hi. pose proof (i_budget _ _ Hi) as Hb. pose proof (alloc_next_nonneg _ (i_alloc _ _ Hi)) as Hp. cbn in Hp.
  pose proof (inflight_nonneg _ _ Hi). assert (0 <= sumZ still_wanted (clients s)) by (apply sumZ_nonneg; intros; apply still_wanted_nonneg). lia.
Qed.

(** The server opens or closes the FIFO of a client. *)
Lemma Inv_server_pipe s g p ino op : Inv s g -> (forall f, fdata (op f) ⊆ fdata f) ->
  in_hand p = in_hand (server s) -> answered p = answered (server s) ->
  (if server_handle p is Some (k, q) then own (inodes s) k q else True) ->
  exists g', rtc astep (abs s g) (abs (with_server p (with_pipe ino op s)) g') /\ Inv (with_server p (with_pipe ino op s)) g'.
Proof.
  intros Hi Hop Hh Ha Hs. exists g. apply Inv_stutter; try done.
  - unfold inflight. cbn. by rewrite Hh.
  - unfold allocated. cbn. by rewrite Ha.
  - by apply grows_pipe.
  - intros q k Hp. cbn [with_server names with_pipe with_inodes] in *. apply own_pipe. by apply (i_names _ _ Hi).
  - cbn [server with_server]. destruct (server_handle p) as [[k q]|]; [|done]. by apply own_pipe.
  - by left.
Qed.

(** The server answers. *)
Lemma Inv_server_write s g ok r ino n : Inv s g -> server s = S_write r ino -> inodes s !! ino = Some n ->
  let t := with_server (S_close r ino)
             (if ok : bool then with_pipe ino (set_data (fdata (pipe n) ++ [Response (next_num s)])) s else s) in
  exists g', rtc astep (abs s g) (abs t g') /\ Inv t g'.
Proof.
  intros Hi Hsv Hk t. exists (g ++ [(r, next_num s)]). unfold t. destruct ok; (eapply Inv_grant; try done).
  - intros k p Hp. by apply own_pipe.
  - intros k m x Hm Hx. unfold with_pipe in Hm. cbn in Hm. rewrite list_lookup_alter in Hm.
    destruct (decide (ino = k)) as [->|]; [|left; by exists m]. rewrite Hk in Hm. injection Hm as <-. cbn in Hx.
    apply elem_of_app in Hx as [Hx|Hx]; [left; by exists n|right]. apply list_elem_of_singleton in Hx as ->. done.
  - intros k m x Hm Hx. left. by exists m.
Qed.

Lemma Inv_server s g ok s' : Inv s g -> server_step ok s = Some s' ->
  exists g', rtc astep (abs s g) (abs s' g') /\ Inv s' g'.
Proof.
  intros Hi Hs. pose proof (i_server _ _ Hi) as Hh. pose proof (i_names _ _ Hi) as Hn.
  pose proof (fun t => Inv_keep s g t Hi) as Hkeep. pose proof (fun p ino op => Inv_server_pipe s g p ino op Hi) as Hpipe.
  unfold server_step in Hs. destruct (server s) as [| |snap| | | |r|r ino snap|r ino|r ino|r|st] eqn:Hsv; try done.
  - destruct ok; injection Hs as <-; apply Hkeep; views Hsv.
  - destruct ok; injection Hs as <-; apply Hkeep; views Hsv.
  - destruct (decide _); [done|]. injection Hs as <-. apply Hkeep; views Hsv.
  - destruct ok; injection Hs as <-; apply Hkeep; views Hsv.
  - destruct ok; injection Hs as <-; apply Hkeep; views Hsv.
  - destruct ok; [|injection Hs as <-; apply Hkeep; views Hsv].
    destruct (fdata (sv s)) as [|r q] eqn:Hq; [done|]. injection Hs as <-. apply Hkeep; views Hsv. by rewrite Hq.
  - assert (Hskip : exists g', rtc astep (abs s g) (abs (with_server S_read s) g') /\ Inv (with_server S_read s) g').
    { apply Hkeep; views Hsv. by apply sublist_cons. }
    destruct ok; [|by injection Hs as <-]. destruct (names s !! pid r) as [ino|] eqn:Hino; [|by injection Hs as <-].
    destruct (inodes s !! ino) as [n|] eqn:Hk; [|done]. injection Hs as <-. specialize (Hn _ _ Hino).
    apply Hpipe; [done|..]; by destruct (decide _).
  - destruct (inodes s !! ino); [|done]. cbn in Hs. destruct (decide _); [done|]. injection Hs as <-.
    apply Hkeep; views Hsv.
  - destruct (inodes s !! ino) as [n|] eqn:Hk; [|done]. injection Hs as <-. by apply Inv_server_write.
  - injection Hs as <-. apply Hpipe; try done. intros f. unfold close_write.
    destruct (closed_data (readers f) (writers f - 1) f) as [-> | ->]; set_solver.
  - injection Hs as <-. pose proof (allocated_range _ _ Hi) as Hr. assert (Ha : allocated s = next_num s + seqLen r) by views Hsv.
    apply Hkeep; views Hsv. rewrite i32_id; unfold INT_MIN, INT_MAX in *; lia.
Qed.
(** ** The steps of a client *)

Lemma Inv_client s g i c c' t : Inv s g -> clients s !! i = Some c ->
  clients t = <[i:=c']> (clients s) -> c_pid c' = c_pid c -> c_arg c' = c_arg c ->
  server t = server s -> next_num t = next_num s -> fdata (sv t) `sublist_of` fdata (sv s) ->
  grows (inodes s) (inodes t) -> (forall p k, names t !! p = Some k -> names s !! p = Some k \/ own (inodes t) k p) ->
  (unsent (c_pc c') = true -> unsent (c_pc c) = true) ->
  (client_ok (inodes t) (a_pids (abs s g)) g c -> client_ok (inodes t) (a_pids (abs s g)) g c') ->
  exists g', rtc astep (abs s g) (abs t g') /\ Inv t g'.
Proof.
  intros Hi Hc Hct Hp Ha Hsv Hnn Hd Hg Hn Hu Hok. exists g. apply Inv_stutter; try done.
  - unfold inflight. rewrite Hsv. by apply sublist_app.
  - unfold allocated. by rewrite Hsv, Hnn.
  - intros p k Hk. destruct (Hn p k Hk) as [Hk'|]; [|done]. by apply Hg, (i_names _ _ Hi).
  - rewrite Hsv. pose proof (i_server _ _ Hi) as Hh. destruct (server_handle (server s)) as [[ino p]|]; [|done]. by apply Hg.
  - right. exists i, c, c'. split_and!; try done. pose proof (still_wanted_nonneg c) as H0. unfold still_wanted in *. rewrite Ha.
    destruct (unsent (c_pc c')); [by rewrite Hu|done].
Qed.

Lemma ok_no_output l pids g c : client_ok l pids g c -> live (c_pc c) = true \/ c_pc c = C_new -> c_out c = [].
Proof. intros [_ _ _ _ [Ho|(x & st & _ & Hp & _)]] Hl; [done|]. rewrite Hp in Hl. by destruct Hl. Qed.
Lemma ok_goto l pids g c p : client_ok l pids g c -> live (c_pc c) = true \/ c_pc c = C_new ->
  (unsent p = true -> unsent (c_pc c) = true) ->
  (match p with C_open_sv n | C_wait_sv n _ | C_write n => request_len (c_arg c) = Done n | _ => True end) ->
  (if own_open p is Some ino then own l ino (c_pid c) else True) ->
  (if p is C_print _ a then granted g (c_pid c) (seqNum a) else True) ->
  client_ok l pids g (Client (c_pid c) (c_arg c) p (c_out c)).
Proof.
  intros Hc Hl Hu Hlen Hown Hr. pose proof (ok_no_output _ _ _ _ Hc Hl) as Ho. destruct Hc as [H1 _ _ _ _]. split; cbn; auto.
Qed.
Lemma ok_ends l pids g c f : client_ok l pids g c -> live (c_pc c) = true \/ c_pc c = C_new ->
  client_ok l pids g (Client (c_pid c) (c_arg c) (C_end f) (c_out c)).
Proof. intros Hc Hl. by apply ok_goto. Qed.

Lemma ends_fields i c f out s :
  clients (ends i c f out s) = <[i:=Client (c_pid c) (c_arg c) (C_end f) out]> (clients s) /\ server (ends i c f out s) = server s /\
  next_num (ends i c f out s) = next_num s /\ names (ends i c f out s) = names s.
Proof. unfold ends. by destruct (own_open (c_pc c)). Qed.
Lemma ends_shrinks i c f out s : fdata (sv (ends i c f out s)) `sublist_of` fdata (sv s) /\ grows (inodes s) (inodes (ends i c f out s)).
Proof.
  unfold ends. split.
  - cbn. destruct (has_sv_open (c_pc c)); [|done]. unfold close_write.
    destruct (closed_data (readers (sv s)) (writers (sv s) - 1) (sv s)) as [-> | ->]; [apply sublist_nil_l|done].
  - destruct (own_open (c_pc c)) as [ino|]; cbn; [|apply grows_refl]. apply grows_pipe. intros n _. unfold close_read.
    destruct (closed_data (readers (pipe n) - 1) (writers (pipe n)) (pipe n)) as [-> | ->]; [intros y Hy; by apply elem_of_nil in Hy|done].
Qed.

Lemma Inv_ends s g i c f out t : Inv s g -> clients s !! i = Some c ->
  t = ends i c f out s \/ t = removeFifo c (ends i c f out s) ->
  (client_ok (inodes t) (a_pids (abs s g)) g c -> client_ok (inodes t) (a_pids (abs s g)) g (Client (c_pid c) (c_arg c) (C_end f) out)) ->
  exists g', rtc astep (abs s g) (abs t g') /\ Inv t g'.
Proof.
  intros Hi Hc Ht Hok. destruct (ends_fields i c f out s) as (H1 & H2 & H3 & H4), (ends_shrinks i c f out s) as [H5 H6].
  eapply (Inv_client s g i c (Client (c_pid c) (c_arg c) (C_end f) out)); try done; try (destruct Ht as [-> | ->]; done).
  intros p k Hp. left. destruct Ht as [-> | ->]; [by rewrite H4 in Hp|].
  change (delete (c_pid c) (names (ends i c f out s)) !! p = Some k) in Hp. rewrite H4 in Hp. by apply lookup_delete_Some in Hp as [_ ?].
Qed.

(** A request is submitted. *)
Lemma Inv_submit s g i c n t : Inv s g -> clients s !! i = Some c -> c_pc c = C_write n ->
  t = with_client i (Client (c_pid c) (c_arg c) C_open (c_out c)) (with_sv (set_data (fdata (sv s) ++ [Request (c_pid c) n]) (sv s)) s) ->
  exists g', rtc astep (abs s g) (abs t g') /\ Inv t g'.
Proof.
  intros Hi Hc Hp ->. pose proof (i_clients _ _ Hi i c Hc) as Hok. set (t := with_client _ _ _). exists g.
  assert (Hinf : inflight t = inflight s ++ [Request (c_pid c) n]) by (unfold inflight; cbn; by rewrite app_assoc).
  pose proof (co_len _ _ _ _ Hok) as Hlen. rewrite Hp in Hlen. pose proof (request_len_pos _ _ Hlen) as Hpos.
  pose proof (co_unsent _ _ _ _ Hok) as Hun. rewrite Hp in Hun. specialize (Hun eq_refl).
  assert (Hst : astep (abs s g) (abs t g)) by (unfold abs; rewrite Hinf; by apply a_submit).
  split; [by apply rtc_once|]. set (c' := Client _ _ _ _) in *.
  assert (Hpids : forall p, p ∈ a_pids (abs t g) -> p ∈ a_pids (abs s g) \/ p = c_pid c).
  { intros p. unfold a_pids, abs. cbn [a_pending a_grants]. rewrite Hinf, fmap_app. cbn. set_solver. }
  assert (Hpid_clients : (c_pid <$> clients t) = (c_pid <$> clients s)).
  { cbn. rewrite list_fmap_insert. apply list_insert_id. cbn. by rewrite list_lookup_fmap, Hc. }
  split.
  - by apply (astep_ok (abs s g)); [apply (i_alloc _ _ Hi)|].
  - rewrite Hpid_clients. apply (i_nodup _ _ Hi).
  - assert (Hin : c' ∈ clients t).
    { apply (list_elem_of_lookup_2 _ i). cbn. apply list_lookup_insert_eq. by apply lookup_lt_Some in Hc. }
    intros r Hr. rewrite Hinf, <- app_assoc in Hr. cbn in Hr.
    assert (r = Request (c_pid c) n \/ r ∈ inflight s ++ g.*1) as [->|Hr'] by set_solver; [by exists c'|].
    destruct (i_req _ _ Hi r Hr') as (d & [k Hk]%list_elem_of_lookup & Hd). destruct (decide (k = i)) as [->|Hne].
    + exists c'. rewrite Hk in Hc. by injection Hc as ->.
    + exists d. split; [|done]. apply (list_elem_of_lookup_2 _ k). cbn. by rewrite list_lookup_insert_ne.
  - apply (all_insert (fun _ => client_ok (inodes t) (a_pids (abs t g)) g)).
    + intros k d Hk Hne. destruct (i_clients _ _ Hi k d Hk) as [H1 H2 H3 H4 H5]. split; try done.
      intros Hu Hin. destruct (Hpids _ Hin) as [?|Heq]; [by apply (H1 Hu)|].
      apply Hne. eapply (NoDup_lookup (c_pid <$> clients s)); [apply (i_nodup _ _ Hi)| |]; rewrite list_lookup_fmap.
      * cbn in Hk. by rewrite Hk.
      * rewrite Hc. cbn. by rewrite Heq.
    + split; try done. left. apply (ok_no_output _ _ _ _ Hok). left. by rewrite Hp.
  - apply (i_inodes _ _ Hi).
  - apply (i_names _ _ Hi).
  - apply (i_server _ _ Hi).
  - pose proof (i_budget _ _ Hi) as Hb. rewrite Hinf, sumZ_app, sumZ_one. cbn [clients t with_client with_sv].
    rewrite (sumZ_insert _ _ _ _ _ Hc). unfold still_wanted at 2 3. rewrite Hp. cbn. unfold wanted at 1. rewrite Hlen.
    change (allocated t) with (allocated s). lia.
Qed.

(** A client goes on; it may open a descriptor. *)
Lemma Inv_goto s g i c p t : Inv s g -> clients s !! i = Some c -> live (c_pc c) = true \/ c_pc c = C_new ->
  clients t = <[i:=Client (c_pid c) (c_arg c) p (c_out c)]> (clients s) ->
  server t = server s -> next_num t = next_num s -> fdata (sv t) = fdata (sv s) ->
  grows (inodes s) (inodes t) -> (forall p k, names t !! p = Some k -> names s !! p = Some k \/ own (inodes t) k p) ->
  (unsent p = true -> unsent (c_pc c) = true) ->
  (match p with C_open_sv n | C_wait_sv n _ | C_write n => request_len (c_arg c) = Done n | _ => True end) ->
  (if own_open p is Some ino then own (inodes t) ino (c_pid c) else True) ->
  (if p is C_print _ a then granted g (c_pid c) (seqNum a) else True) ->
  exists g', rtc astep (abs s g) (abs t g') /\ Inv t g'.
Proof.
  intros Hi Hc Hl Hct Hsv Hnn Hd Hg Hn Hu H1 H2 H3.
  apply (Inv_client s g i c (Client (c_pid c) (c_arg c) p (c_out c))); try done; [by rewrite Hd|].
  intros Hok. by apply ok_goto.
Qed.

(** A client stops before it has printed: an error, or a signal. *)
Lemma Inv_stops s g i c f t : Inv s g -> clients s !! i = Some c -> live (c_pc c) = true \/ c_pc c = C_new ->
  t = ends i c f (c_out c) s \/ t = removeFifo c (ends i c f (c_out c) s) ->
  exists g', rtc astep (abs s g) (abs t g') /\ Inv t g'.
Proof. intros Hi Hc Hl Ht. eapply Inv_ends; [done|done|done|]. intros Hok. by apply ok_ends. Qed.

(** Up to the request. *)
Lemma Inv_client_before s g ok i c s' : Inv s g -> clients s !! i = Some c -> unsent (c_pc c) = true ->
  client_step capacity ok i s = Some s' -> exists g', rtc astep (abs s g) (abs s' g') /\ Inv s' g'.
Proof.
  intros Hi Hc Hu Hs. pose proof (co_len _ _ _ _ (i_clients _ _ Hi i c Hc)) as Hlen.
  pose proof (fun f t Hl => Inv_stops s g i c f t Hi Hc Hl) as Hstop.
  pose proof (fun p t Hl => Inv_goto s g i c p t Hi Hc Hl) as Hgo. unfold client_step in Hs. rewrite Hc in Hs. cbn [mbind option_bind] in Hs.
  destruct (c_pc c) as [| | | |n|n snap|n| | | | | ] eqn:Hp; try done; specialize (fun p t => Hgo p t ltac:(auto)); specialize (fun f t => Hstop f t ltac:(auto)).
  - destruct (pid_free _ _); [|done]. destruct (bool_decide _); injection Hs as <-; [eapply Hstop; by left|].
    eapply Hgo; try done; [apply grows_refl|by left].
  - destruct ok; [|injection Hs as <-; eapply Hstop; by left]. destruct (names s !! c_pid c) as [k|] eqn:Hk; injection Hs as <-.
    + eapply Hgo; try done; [apply grows_refl|by left].
    + eapply Hgo; try done; cbn; [apply grows_new|]. intros p k Hpk. apply lookup_insert_Some in Hpk as [[<- <-]|[_ ?]]; [|by left].
      right. unfold own. by rewrite list_lookup_middle.
  - destruct ok; injection Hs as <-; [|eapply Hstop; by left]. eapply Hgo; try done; [apply grows_refl|by left].
  - destruct (request_len (c_arg c)) as [n|n| | |] eqn:Hr; try done; injection Hs as <-; [|eapply Hstop; by right].
    eapply Hgo; try done; [apply grows_refl|by left].
  - destruct (ok && linked s); injection Hs as <-; [|eapply Hstop; by right].
    eapply Hgo; try done; [apply grows_refl|by left| | |]; by destruct (decide _).
  - destruct (decide _); [done|]. injection Hs as <-. eapply Hgo; try done; [apply grows_refl|by left].
  - destruct (decide _); [injection Hs as <-; eapply Hstop; by left|]. destruct (negb ok); [injection Hs as <-; eapply Hstop; by right|].
    destruct (decide _); [done|]. injection Hs as <-. by eapply Inv_submit.
Qed.

(** From the request on. *)
Lemma Inv_client_after s g ok i c s' : Inv s g -> clients s !! i = Some c -> unsent (c_pc c) = false ->
  client_step capacity ok i s = Some s' -> exists g', rtc astep (abs s g) (abs s' g') /\ Inv s' g'.
Proof.
  intros Hi Hc Hu Hs. pose proof (i_clients _ _ Hi i c Hc) as Hok. pose proof (co_own _ _ _ _ Hok) as Hown.
  pose proof (co_read _ _ _ _ Hok) as Hread. pose proof (ok_no_output _ _ _ _ Hok) as Hout.
  pose proof (fun f t Hl => Inv_stops s g i c f t Hi Hc Hl) as Hstop.
  pose proof (fun p t Hl => Inv_goto s g i c p t Hi Hc Hl) as Hgo. unfold client_step in Hs. rewrite Hc in Hs. cbn [mbind option_bind] in Hs.
  destruct (c_pc c) as [| | | |n|n snap|n| |ino snap|ino|ino a|] eqn:Hp; try done; specialize (fun p t => Hgo p t ltac:(auto));
    specialize (fun f t => Hstop f t ltac:(auto)); specialize (Hout ltac:(auto)).
  - destruct ok; [|injection Hs as <-; eapply Hstop; by right]. destruct (names s !! c_pid c) as [k|] eqn:Hk; [|injection Hs as <-; eapply Hstop; by right].
    destruct (inodes s !! k) as [n|] eqn:Hn; [|done]. injection Hs as <-. pose proof (i_names _ _ Hi _ _ Hk) as Hkown.
    apply (own_pipe _ k _ begin_read) in Hkown. 
    eapply Hgo; try done; [by apply grows_pipe|by left| | | |]; by destruct (decide _).
  - destruct (inodes s !! ino); [|done]. cbn in Hs. destruct (decide _); [done|]. injection Hs as <-.
    eapply Hgo; try done; [apply grows_refl|by left].
  - destruct (inodes s !! ino) as [n|] eqn:Hn; [|done]. cbn in Hs. destruct ok; [|injection Hs as <-; eapply Hstop; by right].
    destruct (fdata (pipe n)) as [|a l] eqn:Hd; [destruct (decide _); [injection Hs as <-; eapply Hstop; by right|done]|].
    injection Hs as <-. eapply Hgo; try done; cbn.
    + apply grows_pipe. intros m Hm. rewrite Hn in Hm. injection Hm as <-. rewrite Hd. cbn. set_solver.
    + by left.
    + by apply (own_pipe _ ino).
    + unfold own in Hown. cbn in Hown. rewrite Hn in Hown. injection Hown as <-. apply (i_inodes _ _ Hi ino n a Hn). rewrite Hd. by left.
  - injection Hs as <-. eapply Inv_ends; [done|done|by right|]. rewrite Hout. intros Hok'. split; cbn; try done.
    right. by exists (seqNum a), EXIT_SUCCESS.
Qed.

Lemma Inv_step s g s' : Inv s g -> step capacity s s' -> exists g', rtc astep (abs s g) (abs s' g') /\ Inv s' g'.
Proof.
  intros Hi Hs. destruct Hs as [ok s s' Hs|ok i s s' Hs|i s s' Hs]; [by eapply Inv_server| |].
  - destruct (clients s !! i) as [c|] eqn:Hc; [|by unfold client_step in Hs; rewrite Hc in Hs].
    destruct (unsent (c_pc c)) eqn:Hu; [by eapply Inv_client_before|by eapply Inv_client_after].
  - unfold kill_client in Hs. destruct (clients s !! i) as [c|] eqn:Hc; [|done]. cbn in Hs. destruct (live (c_pc c)) eqn:Hl; [|done].
    injection Hs as <-. eapply Inv_stops; [done|done|by left|by left].
Qed.
End refinement.

(** The numbers that the clients want. *)
Definition total_wanted (cl : list (Z * option bytes)) : Z := sumZ (fun x => wanted x.2) cl.

Lemma Inv_start left_over old cl : NoDup cl.*1 -> Inv (total_wanted cl) (start left_over old cl) [].
Proof.
  intros Hd. split; cbn.
  - apply alloc0_ok.
  - rewrite <- list_fmap_compose. done.
  - intros r Hr. by apply elem_of_nil in Hr.
  - intros i c Hc. rewrite list_lookup_fmap in Hc. destruct (cl !! i); [|done]. injection Hc as <-.
    split; cbn; try done; [|by left]. intros _ Hin. by apply elem_of_nil in Hin.
  - intros k n x Hk Hx. rewrite list_lookup_fmap in Hk. destruct (old !! k); [|done]. injection Hk as <-. by apply elem_of_nil in Hx.
  - intros p k Hk. apply elem_of_list_to_map_2, list_elem_of_lookup in Hk as [j Hj].
    apply lookup_zip_Some in Hj as [Hj Hs]. apply lookup_seq in Hs as [-> _]. unfold own. cbn. rewrite list_lookup_fmap. by rewrite Hj.
  - done.
  - unfold total_wanted. clear Hd. induction cl as [|x cl IH]; [done|]. rewrite fmap_cons, !sumZ_cons.
    unfold still_wanted at 1. cbn in *. unfold inflight, allocated in *. cbn in *. lia.
Qed.

(** Whatever has happened, what has been printed has been granted. *)
Lemma printed_granted total s g i c x : Inv total s g -> clients s !! i = Some c -> x ∈ c_out c ->
  c_out c = [x] /\ exists r, (r, x) ∈ g /\ pid r = c_pid c /\ request_len (c_arg c) = Done (seqLen r).
Proof.
  intros Hi Hc Hx. destruct (co_out _ _ _ _ (i_clients _ _ _ Hi i c Hc)) as [Ho|(y & st & Ho & _ & r & Hr & Hp)]; rewrite Ho in Hx |- *.
  { by apply elem_of_nil in Hx. }
  apply list_elem_of_singleton in Hx as ->. split; [done|]. exists r. split_and!; [done|done|].
  destruct (i_req _ _ _ Hi r) as (d & [k Hk]%list_elem_of_lookup & Hdp & Hd).
  { apply elem_of_app. right. apply list_elem_of_fmap. by exists (r, y). }
  assert (k = i) as ->; [|congruence].
  apply (NoDup_lookup (c_pid <$> clients s) k i (c_pid c)); [apply (i_nodup _ _ _ Hi)| |]; rewrite list_lookup_fmap, ?Hk, ?Hc; cbn; congruence.
Qed.

Lemma fifo_simulation capacity left_over old cl s : NoDup cl.*1 -> total_wanted cl <= INT_MAX ->
  rtc (step capacity) (start left_over old cl) s ->
  exists g, rtc astep alloc0 (abs s g) /\ Inv (total_wanted cl) s g.
Proof.
  intros Hd Ht Hr.
  destruct (simulation_rtc (step capacity) astep (fun s a => a = abs s (a_grants a) /\ Inv (total_wanted cl) s (a_grants a))
              (fun c a c' Hca Hs => ltac:(destruct Hca as [-> Hi]; destruct (Inv_step capacity _ Ht c _ c' Hi Hs) as (g' & H1 & H2); by exists (abs c' g')))
              (start left_over old cl) alloc0 s) as (a & Ha & Heq & Hi); [|done|exists (a_grants a); by rewrite <- Heq].
  split; [done|]. by apply Inv_start.
Qed.


(** C5: Clients get sequences that do not overlap. In every interleaving of the server
    with clients whose process IDs differ, with failing calls and killed clients, and as
    long as an int can hold all the numbers asked for together: a client prints at most
    one number, the start of a sequence within them; and the sequences of two clients
    have no number in common. *)
Theorem fifo_seqnum_unique capacity left_over old cl s : NoDup cl.*1 -> total_wanted cl <= INT_MAX ->
  rtc (step capacity) (start left_over old cl) s ->
  forall i c x, clients s !! i = Some c -> x ∈ c_out c ->
    exists n, request_len (c_arg c) = Done n /\ c_out c = [x] /\ 0 <= x /\ 0 < n /\ x + n <= total_wanted cl /\
      forall j d y m, i <> j -> clients s !! j = Some d -> y ∈ c_out d -> request_len (c_arg d) = Done m ->
        x + n <= y \/ y + m <= x.
Proof.
  intros Hd Ht Hr i c x Hc Hx. destruct (fifo_simulation _ _ _ _ _ Hd Ht Hr) as (g & _ & Hi).
  destruct (printed_granted _ _ _ _ _ _ Hi Hc Hx) as (Ho & r & Hg & Hp & Hn). exists (seqLen r).
  pose proof (i_alloc _ _ _ Hi) as Hok. destruct (ao_range _ Hok r x Hg) as [H0 H1]. cbn in H1.
  pose proof (allocated_range _ _ _ Hi). pose proof (request_len_pos _ _ Hn).
  split_and!; try done; try lia. intros j d y m Hne Hj Hy Hm.
  destruct (printed_granted _ _ _ _ _ _ Hi Hj Hy) as (_ & r' & Hg' & Hp' & Hn'). rewrite Hm in Hn'. injection Hn' as ->.
  apply (grants_disjoint _ _ _ _ _ Hok Hg Hg'). rewrite Hp, Hp'. intros Heq. apply Hne.
  apply (NoDup_lookup (c_pid <$> clients s) i j (c_pid c)); [apply (i_nodup _ _ _ Hi)| |]; rewrite list_lookup_fmap, ?Hc, ?Hj; cbn; congruence.
Qed.

(** * Runs *)

(** A schedule; a step that is held up is left out. *)
Inductive choice := Sv (ok : bool) | Cl (ok : bool) (i : nat) | Kill (i : nat).
Definition choose (capacity : nat) (ch : choice) (s : sstate) : sstate :=
  default s match ch with Sv ok => server_step ok s | Cl ok i => client_step capacity ok i s | Kill i => kill_client i s end.
Definition run (capacity : nat) (l : list choice) (s : sstate) : sstate := foldl (fun s ch => choose capacity ch s) s l.
Lemma run_steps capacity l s : rtc (step capacity) s (run capacity l s).
Proof.
  revert s. induction l as [|ch l IH]; intros s; [done|]. cbn [run foldl]. etrans; [|apply (IH (choose capacity ch s))].
  unfold choose. destruct ch as [ok|ok i|i].
  - destruct (server_step ok s) eqn:Hs; [|done]. apply rtc_once. by eapply step_server.
  - destruct (client_step capacity ok i s) eqn:Hs; [|done]. apply rtc_once. by eapply step_client.
  - destruct (kill_client i s) eqn:Hs; [|done]. apply rtc_once. by eapply step_kill.
Qed.

Definition two_clients : list (Z * option bytes) := [(11, Some (str "5")); (12, None)].
Definition fair (n k : nat) : list choice := concat (replicate n (Sv true :: (Cl true <$> seq 0 k))).
Definition two_done : sstate := run 8 (fair 20 2) (start false [] two_clients).

Lemma fifo_seqnum_unique_witness : exists i c x, clients two_done !! i = Some c /\ x ∈ c_out c /\
    exists n, request_len (c_arg c) = Done n /\ c_out c = [x] /\ 0 <= x /\ 0 < n /\ x + n <= total_wanted two_clients /\
      forall j d y m, i <> j -> clients two_done !! j = Some d -> y ∈ c_out d -> request_len (c_arg d) = Done m ->
        x + n <= y \/ y + m <= x.
Proof.
  exists 1%nat, (Client 12 None (C_end (F_exit EXIT_SUCCESS)) [5]), 5. split; [by vm_compute|]. split; [by left|].
  apply (fifo_seqnum_unique 8 false [] two_clients two_done); [solve_NoDup|by vm_compute|apply run_steps|by vm_compute|by left].
Defined.

(** A process ID that is used again undoes this: the request of a client that was killed
    is answered to a later client with its ID, which takes the answer for its own; here
    it has asked for five numbers and gets one, and the next client gets the second of
    its numbers. *)
Lemma reused_pid_overlaps : exists cl s, rtc (step 8) (start false [] cl) s /\
  c_out <$> clients s !! 1%nat = Some [0] /\ (x ← clients s !! 1%nat; Some (request_len (c_arg x))) = Some (Done 5) /\
  c_out <$> clients s !! 2%nat = Some [1].
Proof.
  pose (cl := [(7, None); (7, Some (str "5")); (8, None)]).
  pose (l := fair 1 0 ++ fair 1 0 ++ replicate 6 (Cl true 0) ++ [Kill 0] ++ replicate 8 (Cl true 1) ++
             concat (replicate 15 [Sv true; Cl true 1]) ++ concat (replicate 15 [Sv true; Cl true 2])).
  exists cl, (run 8 l (start false [] cl)). split; [apply run_steps|]. by vm_compute.
Qed.
