(* ===== verification/FifoLive.v ===== *)
(** Liveness of the sequence-number server of FifoSeqnum: where no call fails and no
    client is killed, every client is served. *)
From S2P Require Import Prelude CLib Sys GetNum Steps FifoSeqnum.
From stdpp Require Import relations.
#[local] Open Scope Z_scope.

Section live.
Context (capacity : nat) (cap_pos : (0 < capacity)%nat) (total : Z) (total_int : total <= INT_MAX).

(** * Termination *)

Definition client_left (c : client) : Z :=
  match c_pc c with
  | C_new => 18 | C_mkfifo => 17 | C_atexit => 16 | C_request => 15 | C_open_sv _ => 14 | C_wait_sv _ _ => 13 | C_write _ => 12
  | C_open => 4 | C_opening _ _ => 3 | C_read _ => 2 | C_print _ _ => 1 | C_end _ => 0
  end.
Definition server_left (p : spc) : Z :=
  match p with
  | S_mkfifo => 6 | S_open => 5 | S_opening _ => 4 | S_dummy => 3 | S_signal => 2 | S_read => 0
  | S_open_client _ => 6 | S_opening_client _ _ _ => 5 | S_write _ _ => 4 | S_close _ _ => 3 | S_update _ => 2 | S_exit _ => 0
  end.
Definition measure (s : sstate) : Z :=
  sumZ client_left (clients s) + server_left (server s) + 7 * Z.of_nat (length (fdata (sv s))).

Lemma client_left_nonneg c : 0 <= client_left c.
Proof. unfold client_left. by destruct (c_pc c). Qed.
Lemma fs_measure_nonneg s : 0 <= measure s.
Proof.
  unfold measure. assert (0 <= sumZ client_left (clients s)) by (apply sumZ_nonneg; intros; apply client_left_nonneg).
  assert (0 <= server_left (server s)) by (by destruct (server s)). lia.
Qed.
Lemma closed_length {A} r w (f : fifo A) : (length (fdata (closed r w f)) <= length (fdata f))%nat.
Proof. destruct (closed_data r w f) as [->| ->]; simpl; lia. Qed.

Lemma server_measure s s' : server_step true s = Some s' -> measure s' < measure s.
Proof.
  intros Hs. unfold server_step, measure in *. destruct (server s) as [| |snap| | | |r|r ino snap|r ino|r ino|r|st] eqn:Hsv; try done; cbn in Hs.
  - injection Hs as <-. cbn. lia.
  - injection Hs as <-. cbn. destruct (decide _); cbn; lia.
  - destruct (decide _); [done|]. injection Hs as <-. cbn. lia.
  - injection Hs as <-. cbn. lia.
  - injection Hs as <-. cbn. lia.
  - destruct (fdata (sv s)) eqn:Hd; [done|]. injection Hs as <-. cbn. lia.
  - destruct (names s !! pid r) as [ino|]; [|injection Hs as <-; cbn; lia]. destruct (inodes s !! ino); [|done]. injection Hs as <-.
    cbn. destruct (decide _); cbn; lia.
  - destruct (inodes s !! ino); [|done]. cbn in Hs. destruct (decide _); [done|]. injection Hs as <-. cbn. lia.
  - destruct (inodes s !! ino); [|done]. injection Hs as <-. cbn. destruct (bool_decide _); cbn; lia.
  - injection Hs as <-. cbn. lia.
  - injection Hs as <-. cbn. lia.
Qed.

Lemma client_measure i s s' : client_step capacity true i s = Some s' -> measure s' < measure s.
Proof.
  intros Hs. unfold client_step in Hs. destruct (clients s !! i) as [c|] eqn:Hc; [|done]. cbn [mbind option_bind] in Hs.
  assert (Hgo : forall p c' t, server t = server s -> clients t = <[i:=c']> (clients s) -> c_pc c' = p ->
            client_left c' + 7 * Z.of_nat (length (fdata (sv t))) < client_left c + 7 * Z.of_nat (length (fdata (sv s))) -> measure t < measure s).
  { intros p c' t Hsv Hcl _ Hl. unfold measure. rewrite Hsv, Hcl, (sumZ_insert _ _ _ _ _ Hc). lia. }
  assert (Hend : forall f out t, c_pc c <> C_end f -> 0 < client_left c ->
            t = ends i c f out s \/ t = removeFifo c (ends i c f out s) -> measure t < measure s).
  { intros f out t _ Hl Ht. destruct (ends_fields i c f out s) as (H1 & H2 & _), (ends_shrinks i c f out s) as [H3%sublist_length _].
    eapply (Hgo (C_end f)); try (destruct Ht as [->| ->]; first [exact H2|exact H1]); [done|].
    destruct Ht as [->| ->]; unfold client_left at 1; cbn [c_pc]; cbn [sv removeFifo with_names]; lia. }
  unfold client_left in Hend, Hgo.
  destruct (c_pc c) as [| | | |n|n snap|n| |ino snap|ino|ino a|f] eqn:Hp; try done; cbn [andb negb] in Hs.
  - destruct (pid_free _ _); [|done]. destruct (bool_decide _); injection Hs as <-; [eapply Hend; [done|done|by left]|].
    eapply Hgo; try done. cbn. lia.
  - destruct (names s !! _); injection Hs as <-; (eapply Hgo; [done..|cbn; lia]).
  - injection Hs as <-. eapply Hgo; [done..|cbn; lia].
  - destruct (request_len _); try done; injection Hs as <-; [|eapply Hend; [done|done|by right]]. eapply Hgo; [done..|cbn; lia].
  - destruct (linked s); injection Hs as <-; [|eapply Hend; [done|done|by right]]. eapply Hgo; [done..|cbn]. destruct (decide _); cbn; lia.
  - destruct (decide _); [done|]. injection Hs as <-. eapply Hgo; [done..|cbn; lia].
  - destruct (decide _); [injection Hs as <-; eapply Hend; [done|done|by left]|]. destruct (decide _); [done|]. injection Hs as <-.
    eapply Hgo; [done..|cbn]. rewrite length_app. cbn. lia.
  - destruct (names s !! _) as [k|]; [|injection Hs as <-; eapply Hend; [done|done|by right]].
    destruct (inodes s !! k); [|done]. injection Hs as <-. eapply Hgo; [done..|cbn]. destruct (decide _); cbn; lia.
  - destruct (inodes s !! ino); [|done]. cbn in Hs. destruct (decide _); [done|]. injection Hs as <-. eapply Hgo; [done..|cbn; lia].
  - destruct (inodes s !! ino) as [n|]; [|done]. cbn in Hs. destruct (fdata (pipe n)); [destruct (decide _); [|done]|];
      injection Hs as <-; [eapply Hend; [done|done|by right]|]. eapply Hgo; [done..|cbn; lia].
  - injection Hs as <-. eapply Hend; [done|done|by right].
Qed.

(** * The invariant of a run without failures *)

(** The requests that the server has yet to act on. *)
Definition waiting (s : sstate) : list Z :=
  (if server s is S_open_client r then [pid r] else []) ++ (pid <$> fdata (sv s)).

(** The FIFO [f], inode [k], of a client whose request has been sent: nothing has
    happened to it, or the server is opening it or writing to it, or the answer is there. *)
Definition stage (s : sstate) (p : Z) (k : nat) (f : fifo response) : Prop :=
  (fdata f = [] /\ writers f = 0%nat /\ w_counter f = 0%nat /\ p ∈ waiting s) \/
  (fdata f = [] /\ writers f = 1%nat /\ w_counter f = 1%nat /\
   exists r, pid r = p /\ (server s = S_opening_client r k 0 \/ (server s = S_write r k /\ r_counter f = 1%nat))) \/
  (exists a, fdata f = [a] /\ w_counter f = 1%nat).

(** The FIFO of a client, by where the client is. *)
Definition fifo_live (s : sstate) (c : client) : Prop :=
  match c_pc c with
  | C_new | C_mkfifo => forall k n, names s !! c_pid c = Some k -> inodes s !! k = Some n -> pipe n = fifo0
  | C_atexit | C_request | C_open_sv _ | C_wait_sv _ _ | C_write _ =>
      exists k n, names s !! c_pid c = Some k /\ inodes s !! k = Some n /\ pipe n = fifo0
  | C_open =>
      exists k n, names s !! c_pid c = Some k /\ inodes s !! k = Some n /\ readers (pipe n) = 0%nat /\ r_counter (pipe n) = 0%nat /\
        fdata (pipe n) = [] /\ stage s (c_pid c) k (pipe n)
  | C_opening k snap =>
      exists n, names s !! c_pid c = Some k /\ inodes s !! k = Some n /\ readers (pipe n) = 1%nat /\ r_counter (pipe n) = 1%nat /\
        snap = 0%nat /\ stage s (c_pid c) k (pipe n)
  | C_read k =>
      exists n, names s !! c_pid c = Some k /\ inodes s !! k = Some n /\ readers (pipe n) = 1%nat /\ r_counter (pipe n) = 1%nat /\
        w_counter (pipe n) = 1%nat /\ stage s (c_pid c) k (pipe n)
  | C_print _ _ => True
  | C_end f => f = F_exit EXIT_SUCCESS /\ c_out c <> []
  end.

(** The FIFO of the server, by where a client is. *)
Definition begun (p : cpc) : bool :=
  match p with C_new | C_mkfifo | C_atexit | C_request | C_open_sv _ => false | _ => true end.
Definition past_open (p : cpc) : bool := begun p && (if p is C_wait_sv _ _ then false else true).
Definition sv_live (f : fifo request) (p : cpc) : Prop :=
  (begun p = true -> w_counter f <> 0%nat) /\ (past_open p = true -> readers f = 1%nat) /\
  (if p is C_wait_sv _ snap then snap = 0%nat else True).
Definition server_live (f : fifo request) (p : spc) : Prop :=
  match p with
  | S_mkfifo | S_open => readers f = 0%nat /\ r_counter f = 0%nat /\ writers f = w_counter f
  | S_opening snap => readers f = 1%nat /\ r_counter f = 1%nat /\ snap = 0%nat
  | S_exit _ => False
  | _ => readers f = 1%nat /\ r_counter f = 1%nat
  end.

Record Live (s : sstate) : Prop := {
  l_linked : linked s = true;
  l_server : server_live (sv s) (server s);
  l_clients : forall i c, clients s !! i = Some c ->
    fifo_live s c /\ sv_live (sv s) (c_pc c) /\ exists n, request_len (c_arg c) = Done n
}.

(** ** Frames *)

(** What a step must leave alone for a client: its FIFO, and the server as far as it is
    busy with it. *)
Lemma fifo_live_frame s t c : fifo_live s c -> names t !! c_pid c = names s !! c_pid c ->
  (forall k n, names s !! c_pid c = Some k -> inodes t !! k = Some n <-> inodes s !! k = Some n) ->
  (c_pid c ∈ waiting s -> c_pid c ∈ waiting t) ->
  (server t = server s \/ forall r k, server s = S_opening_client r k 0 \/ server s = S_write r k -> pid r <> c_pid c) ->
  fifo_live t c.
Proof.
  intros Hl Hn Hk Hw Hs.
  assert (Hst : forall k f, stage s (c_pid c) k f -> stage t (c_pid c) k f).
  { intros k f [(? & ? & ? & ?)|[(? & ? & ? & r & Hp & Hr)|?]]; [left; auto| |by right; right]. right; left. split_and!; [done..|].
    exists r. split; [done|]. destruct Hs as [->|Hs]; [done|]. exfalso. apply (Hs r k); [|done]. destruct Hr as [|[? _]]; auto. }
  unfold fifo_live in *. destruct (c_pc c) as [| | | |n|n snap|n| |ino snap|ino|ino a|f]; try done; rewrite Hn.
  1,2: intros k n Hnk Hkn; by apply (Hl k n Hnk), Hk.
  1-5: destruct Hl as (k & m & Hnk & Hkm & ?); exists k, m; split; [done|]; split; [by apply Hk|done].
  - destruct Hl as (k & m & Hnk & Hkm & ? & ? & ? & ?). exists k, m. split; [done|]. split; [by apply Hk|]. auto.
  - destruct Hl as (m & Hnk & Hkm & ? & ? & ? & ?). exists m. split; [done|]. split; [by apply Hk|]. auto.
  - destruct Hl as (m & Hnk & Hkm & ? & ? & ? & ?). exists m. split; [done|]. split; [by apply Hk|]. auto.
Qed.

(** The inodes of other clients. *)
Lemma pipe_frame s ino g k p n : own (inodes s) ino p -> (forall q, own (inodes s) k q -> q <> p) ->
  inodes (with_pipe ino g s) !! k = Some n <-> inodes s !! k = Some n.
Proof.
  intros Hino Hk. unfold with_pipe. cbn. rewrite list_lookup_alter. destruct (decide (ino = k)) as [->|]; [|done].
  by destruct (Hk p Hino).
Qed.
Lemma pipe_at s ino g n : inodes s !! ino = Some n -> inodes (with_pipe ino g s) !! ino = Some (Inode (owner n) (g (pipe n))).
Proof. intros Hn. unfold with_pipe. cbn. by rewrite list_lookup_alter_eq, Hn. Qed.
Lemma own_inj l k p q : own l k p -> own l k q -> p = q.
Proof. unfold own. congruence. Qed.

(** ** The client of a request *)

Definition at_work (s : sstate) (c : client) (k : nat) (n : inode) : Prop :=
  names s !! c_pid c = Some k /\ inodes s !! k = Some n /\ fdata (pipe n) = [] /\ stage s (c_pid c) k (pipe n) /\
  ((c_pc c = C_open /\ readers (pipe n) = 0%nat /\ r_counter (pipe n) = 0%nat) \/
   (readers (pipe n) = 1%nat /\ r_counter (pipe n) = 1%nat /\ (c_pc c = C_opening k 0 \/ (c_pc c = C_read k /\ w_counter (pipe n) = 1%nat)))).

Lemma inflight_not_granted s g r x : Inv total s g -> r ∈ inflight s -> ~ granted g (pid r) x.
Proof.
  intros Hi Hr (q & Hq & Hp). pose proof (ao_pids _ (i_alloc _ _ _ Hi)) as Hd. unfold a_pids in Hd. cbn in Hd.
  apply NoDup_app in Hd as (_ & Hd & _). apply (Hd (pid r)).
  - apply list_elem_of_fmap. by exists r.
  - apply list_elem_of_fmap. by exists (q, x).
Qed.

Lemma inflight_client s g r : Inv total s g -> Live s -> r ∈ inflight s ->
  exists i c k n, clients s !! i = Some c /\ c_pid c = pid r /\ at_work s c k n.
Proof.
  intros Hi Hl Hr. destruct (i_req _ _ _ Hi r) as (c & [i Hc]%list_elem_of_lookup & Hp & _); [apply elem_of_app; by left|].
  destruct (l_clients _ Hl i c Hc) as (Hf & _ & _). pose proof (i_clients _ _ _ Hi i c Hc) as Hok.
  pose proof (fun x => inflight_not_granted s g r x Hi Hr) as Hng. rewrite <- Hp in Hng.
  assert (Hin : c_pid c ∈ a_pids (abs s g)).
  { rewrite Hp. unfold a_pids. apply elem_of_app. left. apply list_elem_of_fmap. by exists r. }
  assert (Hsent : unsent (c_pc c) = false).
  { destruct (unsent (c_pc c)) eqn:Hu; [|done]. by destruct (co_unsent _ _ _ _ Hok Hu). }
  assert (Hempty : forall k n, names s !! c_pid c = Some k -> inodes s !! k = Some n -> fdata (pipe n) = []).
  { intros k n Hk Hn. destruct (fdata (pipe n)) as [|a l] eqn:Hd; [done|]. destruct (Hng (seqNum a)).
    pose proof (i_names _ _ _ Hi _ _ Hk) as Ho. unfold own in Ho. rewrite Hn in Ho. injection Ho as <-.
    apply (i_inodes _ _ _ Hi k n a Hn). rewrite Hd. by left. }
  exists i, c. unfold fifo_live, at_work in *. destruct (c_pc c) as [| | | |n|n snap|n| |ino snap|ino|ino a|f] eqn:Hpc; try done.
  - destruct Hf as (k & n & Hk & Hn & ? & ? & ? & ?). exists k, n. split_and!; try done. left. done.
  - destruct Hf as (n & Hk & Hn & ? & ? & -> & ?). exists ino, n. split_and!; try done; [by eapply Hempty|]. right. auto.
  - destruct Hf as (n & Hk & Hn & ? & ? & ? & ?). exists ino, n. split_and!; try done; [by eapply Hempty|]. right. auto.
  - pose proof (co_read _ _ _ _ Hok) as Hg. rewrite Hpc in Hg. by destruct (Hng (seqNum a)).
  - destruct (co_out _ _ _ _ Hok) as [Ho|(x & st & _ & _ & Hg)]; [by destruct Hf|]. by destruct (Hng x).
Qed.

Lemma hand_not_waiting s g r : Inv total s g ->
  in_hand (server s) = [r] /\ (if server s is S_open_client _ then False else True) -> pid r ∉ waiting s.
Proof.
  intros Hi [Hr Hs] Hin. pose proof (ao_pids _ (i_alloc _ _ _ Hi)) as Hnd. unfold a_pids, abs, inflight in Hnd. cbn in Hnd.
  rewrite Hr in Hnd. cbn in Hnd. apply NoDup_cons in Hnd as [Hnd _]. apply Hnd. apply elem_of_app. left.
  unfold waiting in Hin. by destruct (server s).
Qed.

Lemma same_client s g i j c d : Inv total s g -> clients s !! i = Some c -> clients s !! j = Some d -> c_pid c = c_pid d -> i = j /\ c = d.
Proof.
  intros Hi Hc Hd Hp. assert (i = j) as ->; [|split; congruence].
  apply (NoDup_lookup (c_pid <$> clients s) i j (c_pid c)); [apply (i_nodup _ _ _ Hi)| |]; rewrite list_lookup_fmap, ?Hc, ?Hd; cbn; congruence.
Qed.

(** ** The steps of the server *)

(** Steps that change neither FIFOs of clients nor the server's work on one. *)
Lemma Live_server_idle s t : Live s -> linked t = true -> names t = names s -> inodes t = inodes s -> clients t = clients s ->
  waiting s ⊆ waiting t -> (w_counter (sv s) <> 0%nat -> w_counter (sv t) <> 0%nat) ->
  ((exists c, c ∈ clients s /\ past_open (c_pc c) = true) -> readers (sv s) = 1%nat -> readers (sv t) = 1%nat) ->
  server_live (sv t) (server t) ->
  (forall r k, server s <> S_opening_client r k 0 /\ server s <> S_write r k) -> Live t.
Proof.
  intros Hl Hli Hn Hino Hc Hw Hwc Hrd Hs Hidle. split; [done|done|]. rewrite Hc. intros i c Hic.
  destruct (l_clients _ Hl i c Hic) as (Hf & (H1 & H2 & H3) & Hlen). split; [|split; [|done]].
  - eapply fifo_live_frame; [done|by rewrite Hn|by rewrite Hino|apply Hw|]. right. intros r k. destruct (Hidle r k). tauto.
  - split; [auto|]. split; [|done]. intros Hp. apply Hrd; [|auto]. exists c. split; [|done]. by eapply list_elem_of_lookup_2.
Qed.

(** Steps for the request [r] on inode [k]. *)
Lemma Live_server_work s g t r k : Inv total s g -> Live s -> linked t = true -> names t = names s -> clients t = clients s -> sv t = sv s ->
  (forall p, p <> pid r -> p ∈ waiting s -> p ∈ waiting t) -> server_live (sv t) (server t) ->
  (forall q j, server s = S_opening_client q j 0 \/ server s = S_write q j -> q = r) ->
  own (inodes s) k (pid r) -> (forall j, j <> k -> inodes t !! j = inodes s !! j) ->
  (forall i c, clients s !! i = Some c -> c_pid c = pid r -> fifo_live t c) -> Live t.
Proof.
  intros Hi Hl Hli Hn Hc Hv Hw Hs Hbusy Hk Hino Hr. split; [done|done|]. rewrite Hc, Hv. intros i c Hic.
  destruct (l_clients _ Hl i c Hic) as (Hf & Hsv & Hlen). split; [|done]. destruct (decide (c_pid c = pid r)) as [Hp|Hp]; [by apply (Hr i)|].
  eapply fifo_live_frame; [done|by rewrite Hn| |auto|].
  - intros j n Hj. rewrite Hino; [done|]. intros ->. apply Hp. apply (i_names _ _ _ Hi) in Hj. by eapply own_inj.
  - right. intros q j Hq. rewrite (Hbusy q j Hq). congruence.
Qed.

Lemma Live_open_client s g r t : Inv total s g -> Live s -> server s = S_open_client r -> server_step true s = Some t -> Live t.
Proof.
  intros Hi Hl Hsv Hs. destruct (inflight_client s g r Hi Hl) as (i & c & k & n & Hc & Hp & Hk & Hn & Hd & Hst & Hpc).
  { unfold inflight. rewrite Hsv. by left. }
  unfold server_step in Hs. rewrite Hsv, <- Hp, Hk in Hs. cbn in Hs. rewrite Hn in Hs. cbn in Hs. injection Hs as <-.
  pose proof (l_server _ Hl) as Hls. rewrite Hsv in Hls. cbn in Hls.
  destruct Hst as [(_ & Hw & Hwc & _)|[(_ & _ & _ & q & _ & Hq)|(a & Ha & _)]]; [|rewrite Hsv in Hq; by destruct Hq as [|[? _]]|congruence].
  apply (Live_server_work s g _ r k); try done.
  - apply (l_linked _ Hl).
  - intros p Hne Hin. unfold waiting in *. rewrite Hsv in Hin. cbn in *. apply elem_of_cons in Hin as [->|Hin]; [done|]. by destruct (decide _).
  - cbn. by destruct (decide _).
  - intros q j Hq. rewrite Hsv in Hq. by destruct Hq.
  - rewrite <- Hp. by apply (i_names _ _ _ Hi).
  - intros j Hj. cbn. by rewrite list_lookup_alter_ne.
  - intros j d Hd' Hpd. destruct (same_client s g j i d c Hi Hd' Hc) as [-> ->]; [congruence|].
    unfold fifo_live. pose proof (pipe_at s k begin_write n Hn) as Hn'.
    assert (Hst' : forall X, X = S_opening_client r k 0 \/ (X = S_write r k /\ r_counter (pipe n) = 1%nat) ->
              stage (with_server X (with_pipe k begin_write s)) (c_pid c) k (begin_write (pipe n))).
    { intros X HX. right. left. cbn. rewrite Hw, Hwc. split_and!; [done..|]. exists r. split; [done|]. destruct HX as [->|[-> ?]]; auto. }
    destruct Hpc as [(-> & Hr & Hrc)|(Hr & Hrc & [-> |[_ ?]])]; [| |congruence]; rewrite Hr, Hrc in *; cbn [decide].
    + exists k. eexists. split; [done|]. split; [exact Hn'|]. cbn. split_and!; [done..|]. apply Hst'. by left.
    + eexists. split; [done|]. split; [exact Hn'|]. cbn. split_and!; [done..|]. apply Hst'. by right.
Qed.

Lemma Live_opening_client s g r k snap t : Inv total s g -> Live s -> server s = S_opening_client r k snap ->
  server_step true s = Some t -> Live t.
Proof.
  intros Hi Hl Hsv Hs. destruct (inflight_client s g r Hi Hl) as (i & c & k' & n & Hc & Hp & Hk & Hn & Hd & Hst & Hpc).
  { unfold inflight. rewrite Hsv. by left. }
  pose proof (l_server _ Hl) as Hls. rewrite Hsv in Hls. cbn in Hls.
  assert (Hown : own (inodes s) k (pid r)) by (pose proof (i_server _ _ _ Hi) as Hh; by rewrite Hsv in Hh).
  assert (Hwait : ~ c_pid c ∈ waiting s) by (rewrite Hp; apply (hand_not_waiting s g r Hi); rewrite Hsv; auto).
  destruct Hst as [(_ & _ & _ & Hin)|[(_ & Hw & Hwc & q & _ & Hq)|(a & Ha & _)]]; [done| |congruence].
  rewrite Hsv in Hq. destruct Hq as [[= <- <- ->]|[? _]]; [|done].
  unfold server_step in Hs. rewrite Hsv, Hn in Hs. cbn in Hs. destruct (decide _) as [|Hrc]; [done|]. injection Hs as <-.
  apply (Live_server_work s g _ r k); try done.
  - apply (l_linked _ Hl).
  - intros p _ Hin. unfold waiting in *. by rewrite Hsv in Hin.
  - intros q j Hq. rewrite Hsv in Hq. by destruct Hq as [[= -> _]|].
  - intros j d Hd' Hpd. destruct (same_client s g j i d c Hi Hd' Hc) as [-> ->]; [congruence|]. unfold fifo_live.
    assert (Hst' : r_counter (pipe n) = 1%nat -> stage (with_server (S_write r k) s) (c_pid c) k (pipe n)).
    { intros H1. right. left. split_and!; [done..|]. exists r. auto. }
    destruct Hpc as [(_ & _ & ?)|(Hr & Hrc' & [-> |[-> Hwc']])]; [done| |]; exists n; auto 10.
Qed.

Lemma Live_write s g r k t : Inv total s g -> Live s -> server s = S_write r k -> server_step true s = Some t -> Live t.
Proof.
  intros Hi Hl Hsv Hs. destruct (inflight_client s g r Hi Hl) as (i & c & k' & n & Hc & Hp & Hk & Hn & Hd & Hst & Hpc).
  { unfold inflight. rewrite Hsv. by left. }
  pose proof (l_server _ Hl) as Hls. rewrite Hsv in Hls. cbn in Hls.
  assert (Hown : own (inodes s) k (pid r)) by (pose proof (i_server _ _ _ Hi) as Hh; by rewrite Hsv in Hh).
  assert (Hwait : ~ c_pid c ∈ waiting s) by (rewrite Hp; apply (hand_not_waiting s g r Hi); rewrite Hsv; auto).
  destruct Hst as [(_ & _ & _ & Hin)|[(_ & Hw & Hwc & q & _ & Hq)|(a & Ha & _)]]; [done| |congruence].
  rewrite Hsv in Hq. destruct Hq as [?|[[= <- <-] Hrc]]; [done|].
  destruct Hpc as [(_ & _ & ?)|(Hr & _ & Hpc)]; [congruence|].
  unfold server_step in Hs. rewrite Hsv, Hn in Hs. cbn in Hs. rewrite bool_decide_eq_true_2 in Hs by (rewrite Hr; done). injection Hs as <-.
  apply (Live_server_work s g _ r k); try done.
  - apply (l_linked _ Hl).
  - intros p _ Hin. unfold waiting in *. by rewrite Hsv in Hin.
  - intros q j Hq. rewrite Hsv in Hq. by destruct Hq as [|[= -> _]].
  - intros j Hj. cbn. by rewrite list_lookup_alter_ne.
  - intros j d Hd' Hpd. destruct (same_client s g j i d c Hi Hd' Hc) as [-> ->]; [congruence|]. unfold fifo_live. rewrite Hd.
    pose proof (pipe_at s k (set_data [Response (next_num s)]) n Hn) as Hn'.
    assert (Hst' : forall X, stage (with_server X (with_pipe k (set_data [Response (next_num s)]) s)) (c_pid c) k
              (set_data [Response (next_num s)] (pipe n))).
    { intros X. right. right. by eexists. }
    destruct Hpc as [-> |[-> _]]; (eexists; split; [done|]; split; [exact Hn'|]; cbn; split_and!; [done..|apply Hst']).
Qed.

Lemma close_write_fields {A} (f : fifo A) : readers f = 1%nat \/ fdata f = [] ->
  readers (close_write f) = readers f /\ r_counter (close_write f) = r_counter f /\ w_counter (close_write f) = w_counter f /\
  fdata (close_write f) = fdata f /\ writers (close_write f) = (writers f - 1)%nat.
Proof.
  intros Hf. unfold close_write, closed. cbn. split_and!; try done. destruct (decide _) as [[Hr _]|]; [|done].
  destruct Hf as [Hf| ->]; [congruence|done].
Qed.

Lemma Live_close s r k t : Live s -> server s = S_close r k -> server_step true s = Some t -> Live t.
Proof.
  intros Hl Hsv Hs. unfold server_step in Hs. rewrite Hsv in Hs. injection Hs as <-.
  pose proof (l_server _ Hl) as Hls. rewrite Hsv in Hls. cbn in Hls. split; [apply (l_linked _ Hl)|done|].
  intros i c Hc. destruct (l_clients _ Hl i c Hc) as (Hf & Hr). split; [|exact Hr]. clear Hr.
  set (t := with_server _ _).
  assert (Hlook : forall j n, inodes s !! j = Some n -> exists m, inodes t !! j = Some m /\ (pipe m = pipe n \/ pipe m = close_write (pipe n))).
  { intros j n Hn. cbn. rewrite list_lookup_alter. destruct (decide (k = j)) as [->|]; rewrite Hn; eexists; split; eauto. }
  assert (Hst : forall p j f f', f' = f \/ f' = close_write f -> readers f = 1%nat \/ fdata f = [] -> stage s p j f -> stage t p j f').
  { intros p j f f' Hf' Hk Hst. assert (Hq : fdata f' = fdata f /\ w_counter f' = w_counter f /\ (writers f = 0%nat -> writers f' = 0%nat)).
    { destruct Hf' as [->| ->]; [auto|]. destruct (close_write_fields f Hk) as (_ & _ & ? & ? & Hw). split_and!; [done..|]. lia. }
    destruct Hq as (Hq1 & Hq2 & Hq3). unfold stage, waiting in *. rewrite Hsv in Hst. cbn in *. rewrite Hq1, Hq2.
    destruct Hst as [(? & ? & ? & ?)|[(_ & _ & _ & q & _ & Hq)|?]]; [left; auto|by destruct Hq as [|[? _]]|by right; right]. }
  unfold fifo_live in *. destruct (c_pc c) as [| | | |n|n snap|n| |ino snap|ino|ino a|f] eqn:Hpc; try done.
  1,2: intros j m Hj Hm; cbn in Hj, Hm; rewrite list_lookup_alter in Hm; destruct (decide (k = j)) as [->|]; [|by apply (Hf j m)];
    destruct (inodes s !! j) as [n|] eqn:Hn; [|done]; injection Hm as <-; cbn; by rewrite (Hf j n Hj Hn).
  1-5: destruct Hf as (j & m & Hj & Hm & Hp); exists j; destruct (Hlook j m Hm) as (m' & Hm' & [Hp'|Hp']);
    exists m'; (split; [done|]); (split; [done|]); by rewrite Hp', Hp.
  - destruct Hf as (j & m & Hj & Hm & H1 & H2 & H3 & H4). destruct (Hlook j m Hm) as (m' & Hm' & Hp'). exists j, m'. split; [done|]. split; [done|].
    pose proof (Hst _ _ _ _ Hp' ltac:(auto) H4). destruct (close_write_fields (pipe m)) as (? & ? & ? & ? & _); [by right|].
    destruct Hp' as [Hp'|Hp']; rewrite Hp' in *; split_and!; congruence.
  - destruct Hf as (m & Hj & Hm & H1 & H2 & H3 & H4). destruct (Hlook ino m Hm) as (m' & Hm' & Hp'). exists m'. split; [done|]. split; [done|].
    pose proof (Hst _ _ _ _ Hp' ltac:(auto) H4). destruct (close_write_fields (pipe m)) as (? & ? & ? & ? & _); [by left|].
    destruct Hp' as [Hp'|Hp']; rewrite Hp' in *; split_and!; congruence.
  - destruct Hf as (m & Hj & Hm & H1 & H2 & H3 & H4). destruct (Hlook ino m Hm) as (m' & Hm' & Hp'). exists m'. split; [done|]. split; [done|].
    pose proof (Hst _ _ _ _ Hp' ltac:(auto) H4). destruct (close_write_fields (pipe m)) as (? & ? & ? & ? & _); [by left|].
    destruct Hp' as [Hp'|Hp']; rewrite Hp' in *; split_and!; congruence.
Qed.

Ltac idle s Hsv :=
  apply (Live_server_idle s); cbn; rewrite ?Hsv; try done; try (unfold waiting; cbn; by rewrite Hsv).
Lemma Live_server s g t : Inv total s g -> Live s -> server_step true s = Some t -> Live t.
Proof.
  intros Hi Hl Hs. pose proof (l_server _ Hl) as Hls. pose proof (l_linked _ Hl) as Hli.
  destruct (server s) as [| |snap| | | |r|r ino snap|r ino|r ino|r|st] eqn:Hsv.
  7: by eapply Live_open_client. 7: by eapply Live_opening_client. 7: by eapply Live_write. 7: by eapply Live_close. 8: done.
  all: unfold server_step in Hs; rewrite Hsv in Hs; cbn in Hs, Hls.
  - injection Hs as <-. idle s Hsv.
  - injection Hs as <-. destruct Hls as (Hr & Hrc & Hw).
    apply (Live_server_idle s); cbn; rewrite ?Hsv, ?Hr, ?Hrc; try done; try (unfold waiting; cbn; by rewrite ?Hsv).
    + unfold waiting. cbn. rewrite Hsv. by destruct (decide _).
    + destruct (decide _) as [H0|]; cbn; rewrite ?Hr, ?Hrc; [|done]. split_and!; [done..|]. congruence.
  - destruct (decide _); [done|]. injection Hs as <-. destruct Hls as (? & ? & _).
    idle s Hsv.
  - injection Hs as <-. idle s Hsv.
  - injection Hs as <-. idle s Hsv.
  - destruct (fdata (sv s)) as [|r q] eqn:Hd; [done|]. injection Hs as <-.
    idle s Hsv. unfold waiting. cbn. by rewrite Hsv, Hd.
  - injection Hs as <-. idle s Hsv.
Qed.

(** ** The steps of a client *)

Lemma past_open_readers s i c : Live s -> clients s !! i = Some c -> past_open (c_pc c) = true ->
  readers (sv s) = 1%nat /\ r_counter (sv s) = 1%nat.
Proof.
  intros Hl Hc Hp. destruct (l_clients _ Hl i c Hc) as (_ & (_ & Hr & _) & _). specialize (Hr Hp). split; [done|].
  pose proof (l_server _ Hl) as Hs. unfold server_live in Hs. destruct (server s); destruct_and?; (done || congruence).
Qed.
(** The server has opened its FIFO, or nobody has. *)
Lemma sv_readers s : Live s -> readers (sv s) = r_counter (sv s) /\ (readers (sv s) = 0%nat \/ readers (sv s) = 1%nat).
Proof.
  intros Hl. pose proof (l_server _ Hl) as Hs. unfold server_live in Hs.
  destruct (server s); try done; destruct_and?; (split; [congruence|auto]).
Qed.

Lemma Live_client_moves s g i c c' t : Inv total s g -> Live s -> clients s !! i = Some c ->
  clients t = <[i:=c']> (clients s) -> c_arg c' = c_arg c ->
  linked t = linked s -> server t = server s -> server_live (sv t) (server s) -> (w_counter (sv s) <= w_counter (sv t))%nat ->
  readers (sv t) = readers (sv s) -> fdata (sv s) ⊆ fdata (sv t) ->
  (forall p, p <> c_pid c -> names t !! p = names s !! p) ->
  (forall k q, own (inodes s) k q -> q <> c_pid c -> inodes t !! k = inodes s !! k) ->
  fifo_live t c' -> sv_live (sv t) (c_pc c') -> Live t.
Proof.
  intros Hi Hl Hc Hct Ha Hli Hsv Hs Hw Hr Hd Hn Hino Hf' Hv'. split; [by rewrite Hli; apply (l_linked _ Hl)|by rewrite Hsv|].
  rewrite Hct. apply (all_insert (fun _ d => fifo_live t d /\ sv_live (sv t) (c_pc d) /\ exists n, request_len (c_arg d) = Done n)).
  - intros j d Hj Hne. destruct (l_clients _ Hl j d Hj) as (Hf & (H1 & H2 & H3) & Hlen).
    assert (Hp : c_pid d <> c_pid c) by (intros Hp; destruct (same_client s g j i d c Hi Hj Hc Hp); done).
    split; [|split; [|done]].
    + eapply fifo_live_frame; [done|by apply Hn| | |by left].
      * intros k n Hk. apply (i_names _ _ _ Hi) in Hk. by rewrite (Hino k _ Hk Hp).
      * unfold waiting. rewrite Hsv. intros [?|Hin]%elem_of_app; apply elem_of_app; [by left|right].
        apply list_elem_of_fmap in Hin as (r & -> & Hin). apply list_elem_of_fmap. exists r. auto.
    + split; [intros Hb; specialize (H1 Hb); lia|]. split; [|done]. intros Hb. rewrite Hr. auto.
  - split_and!; [done|done|]. rewrite Ha. destruct (l_clients _ Hl i c Hc) as (_ & _ & ?). done.
Qed.

(** A client that touches its own FIFO at most. *)
Lemma Live_client_goto s g i c p t : Inv total s g -> Live s -> clients s !! i = Some c ->
  clients t = <[i:=Client (c_pid c) (c_arg c) p (c_out c)]> (clients s) ->
  linked t = linked s -> server t = server s -> sv t = sv s ->
  (forall p, p <> c_pid c -> names t !! p = names s !! p) ->
  (forall k q, own (inodes s) k q -> q <> c_pid c -> inodes t !! k = inodes s !! k) ->
  fifo_live t (Client (c_pid c) (c_arg c) p (c_out c)) -> sv_live (sv s) p -> Live t.
Proof.
  intros Hi Hl Hc Hct Hli Hsv Hv Hn Hino Hf Hp. eapply (Live_client_moves s g i c); try done; rewrite ?Hv; try done. apply (l_server _ Hl).
Qed.

Lemma begin_write_live s : Live s -> server_live (begin_write (sv s)) (server s).
Proof.
  intros Hl. pose proof (l_server _ Hl) as Hs. unfold server_live in *. destruct (server s); cbn; destruct_and?; split_and?; (done || congruence).
Qed.

(** A live client before its request does not stop. *)
Lemma Live_client_before s g i c t : Inv total s g -> Live s -> clients s !! i = Some c -> unsent (c_pc c) = true ->
  client_step capacity true i s = Some t -> Live t.
Proof.
  intros Hi Hl Hc Hu Hs. destruct (l_clients _ Hl i c Hc) as (Hf & (H1 & H2 & H3) & len & Hlen). pose proof (sv_readers s Hl) as [Hrc Hr01].
  pose proof (fun p t => Live_client_goto s g i c p t Hi Hl Hc) as Hgo.
  unfold client_step in Hs. rewrite Hc in Hs. cbn [mbind option_bind] in Hs.
  destruct (c_pc c) as [| | | |n|n snap|n| | | | | ] eqn:Hp; try done; unfold fifo_live in Hf; rewrite Hp in Hf; cbn [andb negb] in Hs.
  - destruct (pid_free _ _); [|done]. destruct (bool_decide _) eqn:Hh.
    { apply bool_decide_eq_true in Hh. rewrite Hh in Hlen. by vm_compute in Hlen. }
    injection Hs as <-. eapply Hgo; done.
  - destruct (names s !! c_pid c) as [k|] eqn:Hk; injection Hs as <-; eapply Hgo; try done; cbn.
    + pose proof (i_names _ _ _ Hi _ _ Hk) as Ho. unfold own in Ho. destruct (inodes s !! k) as [n|] eqn:Hn; [|done].
      exists k, n. split_and!; [done|done|]. by apply (Hf k n).
    + intros p Hne. by rewrite lookup_insert_ne.
    + intros k q Ho _. apply lookup_app_l. unfold own in Ho. destruct (inodes s !! k) eqn:Hk'; [|done]. by apply lookup_lt_Some in Hk'.
    + exists (length (inodes s)). eexists. rewrite lookup_insert_eq, list_lookup_middle by done. done.
  - injection Hs as <-. eapply Hgo; try done.
  - rewrite Hlen in Hs. injection Hs as <-. eapply Hgo; try done.
  - rewrite (l_linked _ Hl) in Hs. injection Hs as <-. eapply (Live_client_moves s g i c); try done; cbn.
    + by apply begin_write_live.
    + lia.
    + by destruct (decide _).
    + destruct (decide (readers (sv s) = 0%nat)) as [H0|]; split; cbn; try done; split; try done; [congruence|]. intros _. by destruct Hr01.
  - destruct (decide _) as [|Hne]; [done|]. injection Hs as <-. eapply Hgo; try done. split; [auto|]. split; [|done]. intros _.
    rewrite H3, <- Hrc in Hne. by destruct Hr01.
  - destruct (past_open_readers s i c Hl Hc) as [Hr _]; [by rewrite Hp|]. rewrite decide_False in Hs by (rewrite Hr; done). destruct (decide _); [done|].
    injection Hs as <-. eapply (Live_client_moves s g i c); try done; cbn.
    + apply (l_server _ Hl).
    + intros r Hin. apply elem_of_app. by left.
    + destruct Hf as (k & m & Hk & Hm & Hf0). exists k, m. rewrite Hf0. split_and!; try done. left. rewrite ?Hf0. split_and!; [done..|].
      unfold waiting. cbn. rewrite fmap_app. apply elem_of_app. right. apply elem_of_app. right. by left.
Qed.

(** The pipe of a client that it has touched itself. *)
Lemma own_pipe_frame s ino g p : own (inodes s) ino p ->
  forall k q, own (inodes s) k q -> q <> p -> inodes (with_pipe ino g s) !! k = inodes s !! k.
Proof.
  intros Hino k q Hk Hne. cbn. rewrite list_lookup_alter_ne; [done|]. intros ->. apply Hne. by eapply own_inj.
Qed.

Lemma Live_client_after s g i c t : Inv total s g -> Live s -> clients s !! i = Some c -> unsent (c_pc c) = false ->
  client_step capacity true i s = Some t -> Live t.
Proof.
  intros Hi Hl Hc Hu Hs. destruct (l_clients _ Hl i c Hc) as (Hf & (H1 & H2 & H3) & _).
  pose proof (fun p t => Live_client_goto s g i c p t Hi Hl Hc) as Hgo. pose proof (i_clients _ _ _ Hi i c Hc) as Hok.
  pose proof (co_own _ _ _ _ Hok) as Hown. pose proof (past_open_readers s i c Hl Hc) as Hrd.
  unfold client_step in Hs. rewrite Hc in Hs. cbn [mbind option_bind] in Hs.
  destruct (c_pc c) as [| | | |n|n snap|n| |ino snap|ino|ino a|f] eqn:Hp; try done; unfold fifo_live in Hf; rewrite Hp in Hf.
  - destruct Hf as (k & n & Hk & Hn & Hr & Hrc & Hd & Hst). rewrite Hk in Hs. cbn in Hs. rewrite Hn in Hs. cbn in Hs. injection Hs as <-.
    pose proof (pipe_at s k begin_read n Hn) as Hn'. pose proof (i_names _ _ _ Hi _ _ Hk) as Hko.
    eapply Hgo; try done; [by apply own_pipe_frame| |by destruct (decide _)].
    unfold fifo_live. destruct Hst as [(_ & Hw & Hwc & Hin)|[(_ & Hw & Hwc & r & Hpr & Hsv)|(a & Ha & _)]]; [| |congruence]; rewrite Hw, Hwc; cbn [decide c_pc c_pid].
    + eexists. split; [done|]. split; [exact Hn'|]. cbn. rewrite Hr, Hrc. split_and!; [done..|]. left. done.
    + eexists. split; [done|]. split; [exact Hn'|]. cbn. rewrite Hr, Hrc. split_and!; [done..|]. right. left. cbn. rewrite Hrc. split_and!; [done..|].
      exists r. split; [done|]. destruct Hsv as [?|[? _]]; auto.
  - destruct Hf as (n & Hk & Hn & Hr & Hrc & -> & Hst). rewrite Hn in Hs. cbn in Hs. destruct (decide _) as [|Hwc]; [done|]. injection Hs as <-.
    eapply Hgo; try done. unfold fifo_live. cbn. exists n. split_and!; try done.
    destruct Hst as [(_ & _ & ? & _)|[(_ & _ & ? & _)|(? & _ & ?)]]; done.
  - destruct Hf as (n & Hk & Hn & Hr & Hrc & Hwc & Hst). rewrite Hn in Hs. cbn in Hs.
    destruct Hst as [(_ & _ & ? & _)|[(Hd & Hw & _)|(a & Hd & _)]]; [congruence| |]; rewrite Hd in Hs; [by rewrite Hw in Hs|].
    injection Hs as <-. eapply Hgo; try done. apply own_pipe_frame. by apply (i_names _ _ _ Hi).
  - injection Hs as <-. destruct Hrd as [Hr Hrc]; [done|].
    destruct (close_write_fields (sv s) (or_introl Hr)) as (F1 & F2 & F3 & F4 & _).
    assert (Hsv : sv (c_exits i c EXIT_SUCCESS (c_out c ++ [seqNum a]) s) = close_write (sv s)) by (unfold c_exits, ends; rewrite Hp; done).
    eapply (Live_client_moves s g i c (Client (c_pid c) (c_arg c) (C_end (F_exit EXIT_SUCCESS)) (c_out c ++ [seqNum a]))); try done; rewrite ?Hsv, ?F1, ?F3, ?F4; try done.
    + unfold c_exits, ends. by rewrite Hp.
    + unfold c_exits, ends. by rewrite Hp.
    + unfold c_exits, ends. by rewrite Hp.
    + pose proof (l_server _ Hl) as Hs. unfold server_live in *. rewrite ?F1, ?F2. destruct (server s); destruct_and?; (done || congruence).
    + intros p Hne. unfold c_exits, ends. rewrite Hp. cbn. by rewrite lookup_delete_ne.
    + intros k q Hk Hne. unfold c_exits, ends. rewrite Hp. cbn. cbn in Hown. eapply (own_pipe_frame s ino close_read (c_pid c)); done.
    + unfold fifo_live. cbn. split; [done|]. by destruct (c_out c).
Qed.

Lemma calm_is_step s t : calm_step capacity s t -> step capacity s t.
Proof. intros [s' t' Hs|i s' t' Hs]; [by eapply step_server|by eapply step_client]. Qed.

Definition Good (s : sstate) : Prop := Live s /\ exists g, Inv total s g.
Lemma Good_step s t : Good s -> calm_step capacity s t -> Good t.
Proof.
  intros [Hl [g Hi]] Hs. split.
  - destruct Hs as [s t Hs|i s t Hs]; [by eapply Live_server|]. destruct (clients s !! i) as [c|] eqn:Hc; [|by unfold client_step in Hs; rewrite Hc in Hs].
    destruct (unsent (c_pc c)) eqn:Hu; [by eapply Live_client_before|by eapply Live_client_after].
  - destruct (Inv_step capacity total total_int s g t Hi (calm_is_step s t Hs)) as (g' & _ & ?). by exists g'.
Qed.
Lemma Good_measure s t : Good s -> calm_step capacity s t -> 0 <= measure t < measure s.
Proof. intros _ Hs. split; [apply fs_measure_nonneg|]. destruct Hs; [by apply server_measure|by eapply client_measure]. Qed.

(** * Progress *)

(** The server moves while there is something for it to do. *)
Lemma server_moves s : Good s -> (inflight s <> [] \/ exists c, c ∈ clients s /\ begun (c_pc c) = true) ->
  (exists t, calm_step capacity s t) \/ (server s = S_read /\ inflight s = []).
Proof.
  intros [Hl [g Hi]] Hw. pose proof (l_server _ Hl) as Hls.
  assert (Hsv : forall t, server_step true s = Some t -> exists t, calm_step capacity s t) by (intros t ?; exists t; by constructor).
  unfold server_step in Hsv. destruct (server s) as [| |snap| | | |r|r ino snap|r ino|r ino|r|st] eqn:Hsp; [| | | | | | | | | | |done]; cbn in Hsv; try (left; by eapply Hsv).
  - left. destruct Hls as (_ & _ & ->). rewrite decide_False in Hsv; [by eapply Hsv|].
    assert (exists c, c ∈ clients s /\ begun (c_pc c) = true) as (c & [i Hc]%list_elem_of_lookup & Hb).
    { destruct Hw as [Hw|?]; [|done]. destruct (inflight s) as [|r l] eqn:Hq; [done|].
      destruct (inflight_client s g r Hi Hl) as (i & c & k & n & Hc & _ & _ & _ & _ & _ & Hp); [rewrite Hq; by left|]. exists c.
      split; [by eapply list_elem_of_lookup_2|]. by destruct Hp as [(-> & _)|(_ & _ & [-> |[-> _]])]. }
    destruct (l_clients _ Hl i c Hc) as (_ & (Hwc & _) & _). auto.
  - unfold inflight. rewrite Hsp. cbn. destruct (fdata (sv s)) as [|r q] eqn:Hd; [by right|]. left. by eapply Hsv.
  - left. destruct (names s !! pid r) as [ino|] eqn:Hk; [|by eapply Hsv]. pose proof (i_names _ _ _ Hi _ _ Hk) as Ho. unfold own in Ho.
    destruct (inodes s !! ino); [|done]. by eapply Hsv.
  - left. destruct (inflight_client s g r Hi Hl) as (i & c & k & n & Hc & Hp & Hk & Hn & Hd & Hst & Hpc); [unfold inflight; rewrite Hsp; by left|].
    assert (Hwait : c_pid c ∉ waiting s) by (rewrite Hp; apply (hand_not_waiting s g r Hi); rewrite Hsp; auto).
    destruct Hst as [(_ & _ & _ & ?)|[(_ & _ & _ & q & _ & Hq)|(a & Ha & _)]]; [done| |congruence].
    rewrite Hsp in Hq. destruct Hq as [[= <- <- ->]|[? _]]; [|done]. destruct Hpc as [(Hpc & _)|(_ & Hrc & _)].
    + eexists. eapply (calm_client capacity i). unfold client_step. rewrite Hc. cbn. rewrite Hpc, Hk. cbn. rewrite Hn. by cbn.
    + rewrite Hn in Hsv. cbn in Hsv. rewrite Hrc in Hsv. by eapply Hsv.
  - left. pose proof (i_server _ _ _ Hi) as Ho. rewrite Hsp in Ho. cbn in Ho. unfold own in Ho. destruct (inodes s !! ino); [|done]. by eapply Hsv.
Qed.

Definition c_ended (c : client) : bool := if c_pc c is C_end _ then true else false.

Lemma pid_free_new s g i c : Inv total s g -> clients s !! i = Some c -> c_pc c = C_new -> pid_free (c_pid c) s = true.
Proof.
  intros Hi Hc Hp. apply forallb_forall. intros d Hd%list_elem_of_In. apply list_elem_of_lookup in Hd as [j Hj].
  destruct (c_pid d =? c_pid c) eqn:He; [|by rewrite orb_true_r]. apply Z.eqb_eq in He.
  destruct (same_client s g j i d c Hi Hj Hc He) as [_ ->]. by rewrite Hp.
Qed.

Lemma client_moves s i c : Good s -> clients s !! i = Some c -> c_ended c = false -> exists t, calm_step capacity s t.
Proof.
  intros HG Hc He. pose proof HG as [Hl [g Hi]]. destruct (l_clients _ Hl i c Hc) as (Hf & (H1 & H2 & H3) & len & Hlen).
  assert (Hmv : forall t, client_step capacity true i s = Some t -> exists t, calm_step capacity s t) by (intros t ?; exists t; by econstructor).
  assert (Hserver : inflight s <> [] \/ begun (c_pc c) = true -> (server s = S_read /\ inflight s = [] -> False) -> exists t, calm_step capacity s t).
  { intros Hb Hn. destruct (server_moves s HG) as [?|?]; [|done|done]. destruct Hb as [?|?]; [by left|right]. exists c. split; [|done]. by eapply list_elem_of_lookup_2. }
  assert (Hstage : forall k n, stage s (c_pid c) k (pipe n) -> fdata (pipe n) = [] -> server s = S_read /\ inflight s = [] -> False).
  { intros k n Hst Hd [Hsv Hq]. unfold stage, waiting, inflight in *. rewrite Hsv in *. cbn in *. rewrite Hq in Hst. cbn in Hst.
    destruct Hst as [(_ & _ & _ & Hin)|[(_ & _ & _ & r & _ & [?|[? _]])|(a & Ha & _)]]; [by apply elem_of_nil in Hin|done|done|congruence]. }
  unfold client_step in Hmv. rewrite Hc in Hmv. cbn [mbind option_bind] in Hmv. unfold c_ended, fifo_live in *.
  destruct (c_pc c) as [| | | |n|n snap|n| |ino snap|ino|ino a|f] eqn:Hp; try done; try (by eapply Hmv).
  - rewrite (pid_free_new s g i c Hi Hc Hp) in Hmv. by eapply Hmv.
  - rewrite Hlen in Hmv. by eapply Hmv.
  - cbn in Hmv. destruct (linked s); by eapply Hmv.
  - destruct (decide (r_counter (sv s) = snap)) as [Hr|]; [|by eapply Hmv]. apply Hserver; [by right|]. intros [Hsv _].
    pose proof (l_server _ Hl) as Hls. rewrite Hsv in Hls. destruct Hls. congruence.
  - destruct (decide (readers (sv s) = 0%nat)); [by eapply Hmv|]. cbn in Hmv. destruct (decide (capacity <= length (fdata (sv s)))%nat) as [Hfull|]; [|by eapply Hmv].
    apply Hserver; [by right|]. intros [_ Hq]. unfold inflight in Hq. apply app_eq_nil in Hq as [_ Hq]. rewrite Hq in Hfull. cbn in Hfull. lia.
  - destruct Hf as (k & n & Hk & Hn & _). rewrite Hk in Hmv. cbn in Hmv. rewrite Hn in Hmv. by eapply Hmv.
  - destruct Hf as (n & Hk & Hn & Hr & Hrc & -> & Hst). rewrite Hn in Hmv. cbn in Hmv. destruct (decide (w_counter (pipe n) = 0%nat)) as [Hw|]; [|by eapply Hmv].
    apply Hserver; [by right|]. apply (Hstage ino n Hst). destruct Hst as [(? & _)|[(? & _)|(? & _ & ?)]]; [done|done|congruence].
  - destruct Hf as (n & Hk & Hn & Hr & Hrc & Hwc & Hst). rewrite Hn in Hmv. cbn in Hmv. destruct (fdata (pipe n)) as [|a l] eqn:Hd; [|by eapply Hmv].
    apply Hserver; [by right|]. by apply (Hstage ino n Hst).
Qed.

(** What a run comes to. *)
Definition all_served (s : sstate) : Prop :=
  (forall i c, clients s !! i = Some c -> exists x, c_pc c = C_end (F_exit EXIT_SUCCESS) /\ c_out c = [x]) /\
  (clients s <> [] -> server s = S_read /\ inflight s = []).

Lemma served_or_moves s : Good s -> all_served s \/ exists t, calm_step capacity s t.
Proof.
  intros HG. pose proof HG as [Hl [g Hi]]. destruct (decide (Exists (fun c => c_ended c = false) (clients s))) as [He|He].
  { right. apply Exists_exists in He as (c & [i Hc]%list_elem_of_lookup & He). by eapply client_moves. }
  assert (Hall : forall i c, clients s !! i = Some c -> exists x, c_pc c = C_end (F_exit EXIT_SUCCESS) /\ c_out c = [x]).
  { intros i c Hc. destruct (c_pc c) eqn:Hp; try (destruct He; apply Exists_exists; exists c; split; [by eapply list_elem_of_lookup_2|]; unfold c_ended; by rewrite Hp).
    destruct (l_clients _ Hl i c Hc) as (Hf & _). unfold fifo_live in Hf. rewrite Hp in Hf. destruct Hf as [-> Ho].
    destruct (co_out _ _ _ _ (i_clients _ _ _ Hi i c Hc)) as [?|(x & st & Hx & _)]; [done|]. by exists x. }
  destruct (clients s) as [|c cl] eqn:Hcl; [left; split; [rewrite Hcl; done|rewrite Hcl; done]|].
  destruct (server_moves s HG) as [?|?]; [|by right|left; split; [by rewrite Hcl|done]].
  right. exists c. rewrite Hcl. split; [by left|]. destruct (Hall 0%nat c eq_refl) as (x & -> & _). done.
Qed.
End live.

(** Every client asks for a number in proper form. *)
Definition valid_args (cl : list (Z * option bytes)) : Prop := Forall (fun x => exists n, request_len x.2 = Done n) cl.

Lemma Live_start old cl : valid_args cl -> Live (start true old cl).
Proof.
  intros Hv. split; [done|done|]. cbn. intros i c Hc. rewrite list_lookup_fmap in Hc. destruct (cl !! i) as [x|] eqn:Hx; [|done]. injection Hc as <-.
  split; [|split; [by split|]].
  - unfold fifo_live. cbn. intros k n _ Hn. rewrite list_lookup_fmap in Hn. destruct (old !! k); [|done]. by injection Hn as <-.
  - apply (Forall_lookup_1 _ _ _ _ Hv Hx).
Qed.

(** C7: Every client is served. Where no call fails and no client is killed, the server
    has been there before, and the arguments of the clients are proper numbers that an
    int can hold together: in every interleaving, the run of the clients and the server
    comes to an end; until then some process can move, so that no open() and no read()
    waits for ever; and at the end every client has printed its number and exited
    successfully, and the server waits for the next request. *)
Theorem fifo_seqnum_served capacity old cl : (0 < capacity)%nat -> NoDup cl.*1 -> total_wanted cl <= INT_MAX -> valid_args cl ->
  sn (calm_step capacity) (start true old cl) /\
  forall s, rtc (calm_step capacity) (start true old cl) s -> all_served s \/ exists t, calm_step capacity s t.
Proof.
  intros Hcap Hd Ht Hv. assert (HG : Good (total_wanted cl) (start true old cl)).
  { split; [by apply Live_start|]. exists []. by apply Inv_start. }
  split.
  - apply (sn_measure _ (Good (total_wanted cl)) (fun s t => Good_step capacity Hcap _ Ht s t) measure); [|done]. intros s t. by apply Good_measure.
  - intros s Hs. apply (served_or_moves capacity Hcap (total_wanted cl)). by eapply (reach_inv _ _ (fun s t => Good_step capacity Hcap _ Ht s t)).
Qed.

Lemma fifo_seqnum_served_witness : sn (calm_step 8) (start true [] two_clients) /\
  forall s, rtc (calm_step 8) (start true [] two_clients) s -> all_served s \/ exists t, calm_step 8 s t.
Proof.
  apply (fifo_seqnum_served 8 [] two_clients); [lia|solve_NoDup|by vm_compute|].
  constructor; [by exists 5|]. constructor; [by exists 1|]. constructor.
Defined.
