(* ===== verification/RecordLocks.v ===== *)
(** Locks on regions of files: book-src/filelock/region_locking.c, over fcntl() as an
    interface, and the table of record locks that the kernel keeps for a file. *)
From S2P Require Import Prelude CLib Sys Calls.
#[local] Open Scope Z_scope.

(** * The functions *)

Definition F_RDLCK : Z := 0.
Definition F_WRLCK : Z := 1.
Definition F_UNLCK : Z := 2.
Definition F_GETLK : Z := 5.
Definition F_SETLK : Z := 6.
Definition F_SETLKW : Z := 7.
Definition SEEK_SET : Z := 0.
Definition SEEK_CUR : Z := 1.
Definition SEEK_END : Z := 2.

(** struct flock *)
Record flock := Flock { l_type : Z; l_whence : Z; l_start : Z; l_len : Z; l_pid : Z }.

(** fcntl(fd, cmd, &fl): what [fl] holds afterwards. *)
Class FcntlOS (S : Type) := sys_fcntl_lock : Z -> Z -> flock -> M S (sysres flock).

Section region.
Context {S : Type} `{HasLibc S} `{FcntlOS S}.
(** The field [l_pid], which the functions do not set. *)
Context (garbage : Z).

(** Source: book-src/filelock/region_locking.c:22-33 (lockReg). *)
Definition lockReg (fd cmd type whence start len : Z) : M S Z :=
  r ← call (sys_fcntl_lock fd cmd (Flock (i16 type) (i16 whence) start len garbage));
  mret (if r is None then -1 else 0).

(** Source: book-src/filelock/region_locking.c:35-39 (lockRegion). *)
Definition lockRegion (fd type whence start len : Z) : M S Z := lockReg fd F_SETLK type whence start len.

(** Source: book-src/filelock/region_locking.c:41-45 (lockRegionWait). *)
Definition lockRegionWait (fd type whence start len : Z) : M S Z := lockReg fd F_SETLKW type whence start len.

(** Source: book-src/filelock/region_locking.c:47-64 (regionIsLocked). *)
Definition regionIsLocked (fd type whence start len : Z) : M S Z :=
  r ← call (sys_fcntl_lock fd F_GETLK (Flock (i16 type) (i16 whence) start len garbage));
  match r with
  | None => mret (-1)
  | Some fl => mret (if l_type fl =? F_UNLCK then 0 else l_pid fl)
  end.
End region.

(** * The table of locks of a file *)

(** The bytes from [r_from] on, up to but without [r_to] if that is given. *)
Record region := Region { r_from : Z; r_to : option Z }.
Record lock := Lock { k_owner : Z; k_type : Z; k_region : region }.

Definition in_region (r : region) (b : Z) : bool :=
  (r_from r <=? b) && (if r_to r is Some t then b <? t else true).
Definition nonempty (r : region) : bool := if r_to r is Some t then r_from r <? t else true.
(** a <= b for ends of regions *)
Definition end_le (a b : option Z) : bool :=
  match a, b with _, None => true | None, Some _ => false | Some x, Some y => x <=? y end.
Definition end_min (a b : option Z) : option Z := if end_le a b then a else b.
Definition meet (r q : region) : region := Region (Z.max (r_from r) (r_from q)) (end_min (r_to r) (r_to q)).
Definition overlap (r q : region) : bool := nonempty (meet r q).

(** What is left of [r] without [q]: before it and after it. *)
Definition cut (r q : region) : list region :=
  filter (fun x => nonempty x = true)
    (Region (r_from r) (end_min (r_to r) (Some (r_from q))) ::
     match r_to q with Some t => [Region (Z.max (r_from r) t) (r_to r)] | None => [] end).

(** Two locks cannot be held together by different processes. *)
Definition exclude (t u : Z) : bool := (t =? F_WRLCK) || (u =? F_WRLCK).
Definition conflicts (me type : Z) (r : region) (l : lock) : bool :=
  negb (k_owner l =? me) && exclude type (k_type l) && overlap r (k_region l).

(** F_SETLK: [None] when another process is in the way; the process's own locks on the
    region are replaced. *)
Definition without (me : Z) (r : region) (l : lock) : list lock :=
  if k_owner l =? me then Lock me (k_type l) <$> cut (k_region l) r else [l].
Definition setlk (me type : Z) (r : region) (tbl : list lock) : option (list lock) :=
  if type =? F_UNLCK then Some (tbl ≫= without me r)
  else if existsb (conflicts me type r) tbl then None
  else Some (Lock me type r :: (tbl ≫= without me r)).
(** F_GETLK: a lock in the way. *)
Definition getlk (me type : Z) (r : region) (tbl : list lock) : option lock :=
  if type =? F_UNLCK then None else find (conflicts me type r) tbl.

(** The locks that process [p] holds, byte by byte. *)
Definition holds (tbl : list lock) (p b t : Z) : Prop :=
  exists l, l ∈ tbl /\ k_owner l = p /\ k_type l = t /\ in_region (k_region l) b = true.

Lemma nonempty_spec r : nonempty r = true <-> exists b, in_region r b = true.
Proof.
  unfold nonempty, in_region. destruct r as [a [t|]]; cbn; (split; [intros|intros [b Hb]]).
  - exists a. lia.
  - lia.
  - exists a. lia.
  - done.
Qed.
Lemma in_meet r q b : in_region (meet r q) b = in_region r b && in_region q b.
Proof.
  unfold in_region, meet, end_min, end_le. destruct r as [a [t|]], q as [c [u|]]; cbn; try (destruct (t <=? u) eqn:?); cbn; lia.
Qed.
Lemma overlap_spec r q : overlap r q = true <-> exists b, in_region r b = true /\ in_region q b = true.
Proof.
  unfold overlap. rewrite nonempty_spec. split; intros [b Hb]; exists b; [rewrite in_meet in Hb; by apply andb_true_iff|].
  rewrite in_meet. by apply andb_true_iff.
Qed.
Lemma in_cut r q b : (exists x, x ∈ cut r q /\ in_region x b = true) <-> in_region r b = true /\ in_region q b = false.
Proof.
  unfold cut. split.
  - intros (x & [_ Hx]%list_elem_of_filter & Hb). apply elem_of_cons in Hx as [->|Hx].
    + unfold in_region, end_min, end_le in *. destruct r as [a [t|]], q as [c u]; cbn in *; [destruct (t <=? c) eqn:?|]; destruct u; cbn in *; lia.
    + destruct q as [c [u|]]; cbn in *; [|by apply elem_of_nil in Hx]. apply list_elem_of_singleton in Hx as ->.
      unfold in_region in *. destruct r as [a [t|]]; cbn in *; lia.
  - intros [Hr Hq]. assert (Hne : forall x, in_region x b = true -> nonempty x = true) by (intros; apply nonempty_spec; eauto).
    destruct (Z.ltb_spec b (r_from q)) as [Hlt|Hge].
    + exists (Region (r_from r) (end_min (r_to r) (Some (r_from q)))).
      assert (in_region (Region (r_from r) (end_min (r_to r) (Some (r_from q)))) b = true).
      { unfold in_region, end_min, end_le in *. destruct r as [a [t|]], q as [c u]; cbn in *; [destruct (t <=? c) eqn:?|]; cbn in *; lia. }
      split; [|done]. apply list_elem_of_filter. split; [auto|]. by left.
    + destruct q as [c [u|]]; [|unfold in_region in Hq; cbn in *; lia]. exists (Region (Z.max (r_from r) u) (r_to r)). cbn in Hge.
      assert (in_region (Region (Z.max (r_from r) u) (r_to r)) b = true) by (unfold in_region in *; destruct r as [a [t|]]; cbn in *; lia).
      split; [|done]. apply list_elem_of_filter. split; [auto|]. right. by left.
Qed.

(** What a successful F_SETLK does, byte by byte. *)
Lemma holds_without me r tbl p b t :
  holds (tbl ≫= without me r) p b t <-> holds tbl p b t /\ (p = me -> in_region r b = false).
Proof.
  unfold holds. split.
  - intros (l & Hl & Hp & Ht & Hb). apply list_elem_of_bind in Hl as (k & Hl & Hk). unfold without in Hl.
    destruct (Z.eqb_spec (k_owner k) me) as [Ho|Ho].
    + apply list_elem_of_fmap in Hl as (x & -> & Hx). cbn in *. destruct (proj1 (in_cut (k_region k) r b)) as [H1 H2]; [by exists x|].
      split; [|done]. exists k. split_and!; congruence.
    + apply list_elem_of_singleton in Hl as ->. split; [by exists k|]. congruence.
  - intros [(l & Hl & Hp & Ht & Hb) Hr]. destruct (Z.eqb_spec (k_owner l) me) as [Ho|Ho].
    + destruct (proj2 (in_cut (k_region l) r b)) as (x & Hx & Hxb); [split; [done|apply Hr; congruence]|].
      exists (Lock me (k_type l) x). split_and!; cbn; [|congruence|done|done]. apply list_elem_of_bind. exists l. split; [|done].
      unfold without. rewrite (proj2 (Z.eqb_eq _ _) Ho). apply list_elem_of_fmap. by exists x.
    + exists l. split_and!; try done. apply list_elem_of_bind. exists l. split; [|done]. unfold without.
      rewrite (proj2 (Z.eqb_neq _ _) Ho). by apply list_elem_of_singleton.
Qed.
Lemma setlk_holds me type r tbl tbl' p b t : setlk me type r tbl = Some tbl' ->
  holds tbl' p b t <-> (p = me /\ in_region r b = true /\ t = type /\ type <> F_UNLCK) \/
                       (holds tbl p b t /\ ~ (p = me /\ in_region r b = true)).
Proof.
  assert (Hnot : (p = me -> in_region r b = false) <-> ~ (p = me /\ in_region r b = true)) by (destruct (in_region r b); intuition congruence).
  unfold setlk. destruct (Z.eqb_spec type F_UNLCK) as [->|Hu].
  - intros [= <-]. rewrite holds_without, Hnot. intuition.
  - destruct (existsb _ _); [done|]. intros [= <-]. rewrite <- Hnot, <- holds_without. unfold holds. split.
    + intros (l & Hl & ? & ? & ?). apply elem_of_cons in Hl as [->|Hl]; cbn in *; [left; by split_and!|right; by exists l].
    + intros [(-> & ? & -> & _)|(l & ? & ?)]; [exists (Lock me type r); split; [by left|done]|exists l; split; [by right|done]].
Qed.

(** Someone else holds a lock that is in the way. *)
Definition denied (tbl : list lock) (me type : Z) (r : region) : Prop :=
  exists p b t, p <> me /\ in_region r b = true /\ holds tbl p b t /\ exclude type t = true.
Lemma conflicts_spec me type r l : conflicts me type r l = true <->
  k_owner l <> me /\ exclude type (k_type l) = true /\ exists b, in_region r b = true /\ in_region (k_region l) b = true.
Proof. unfold conflicts. rewrite !andb_true_iff, negb_true_iff, Z.eqb_neq, overlap_spec. tauto. Qed.
Lemma existsb_conflicts me type r tbl : existsb (conflicts me type r) tbl = true <-> denied tbl me type r.
Proof.
  rewrite existsb_exists. unfold denied, holds. setoid_rewrite conflicts_spec. split.
  - intros (l & Hl%list_elem_of_In & Ho & He & b & Hb & Hlb). exists (k_owner l), b, (k_type l). split_and!; try done. by exists l.
  - intros (p & b & t & Hp & Hb & (l & Hl & <- & <- & Hlb) & He). exists l. split; [by apply list_elem_of_In|]. split_and!; try done. by exists b.
Qed.

(** * A process and the files it has open *)

(** The locks on the file behind each descriptor, and where SEEK_CUR and SEEK_END are. *)
Record lockenv := LockEnv { le_me : Z; le_locks : Z -> list lock; le_base : Z -> Z -> Z }.
Definition region_of (base : Z) (fl : flock) : option region :=
  let a := base + l_start fl in
  let r := if 0 <? l_len fl then Region a (Some (a + l_len fl))
           else if l_len fl =? 0 then Region a None
           else Region (a + l_len fl) (Some a) in
  if r_from r <? 0 then None else Some r.
Definition set_locks (fd : Z) (tbl : list lock) (w : lockenv) : lockenv :=
  LockEnv (le_me w) (fun x => if decide (x = fd) then tbl else le_locks w x) (le_base w).
Definition flock_of (l : lock) : flock :=
  Flock (k_type l) SEEK_SET (r_from (k_region l)) (if r_to (k_region l) is Some t then t - r_from (k_region l) else 0) (k_owner l).

(** fcntl(2) on record locks; a process that waits does not come back here. *)
#[export] Instance kernel_locks : FcntlOS (libc * lockenv) := fun fd cmd fl '(l, w) =>
  let base := if l_whence fl =? SEEK_SET then 0 else le_base w fd (l_whence fl) in
  match region_of base fl with
  | None => (Done (SErr EINVAL), (l, w))
  | Some r =>
      if cmd =? F_GETLK then
        (Done (if l_type fl =? F_UNLCK then SErr EINVAL
               else match getlk (le_me w) (l_type fl) r (le_locks w fd) with
                    | None => SOk (Flock F_UNLCK (l_whence fl) (l_start fl) (l_len fl) (l_pid fl))
                    | Some k => SOk (flock_of k)
                    end), (l, w))
      else match setlk (le_me w) (l_type fl) r (le_locks w fd) with
           | Some tbl => (Done (SOk fl), (l, set_locks fd tbl w))
           | None => if cmd =? F_SETLK then (Done (SErr EAGAIN), (l, w)) else (OutOfFuel, (l, w))
           end
  end.

(** The region that the arguments of the functions name. *)
Definition named_region (w : lockenv) (fd whence start len : Z) : option region :=
  region_of (if whence =? SEEK_SET then 0 else le_base w fd whence) (Flock 0 0 start len 0).

Definition lock_type (t : Z) : Prop := t = F_RDLCK \/ t = F_WRLCK.
Definition whence_ok (t : Z) : Prop := t = SEEK_SET \/ t = SEEK_CUR \/ t = SEEK_END.
Lemma i16_type t : lock_type t -> i16 t = t.
Proof. by intros [->| ->]. Qed.
Lemma i16_whence t : whence_ok t -> i16 t = t.
Proof. by intros [->|[->| ->]]. Qed.
Lemma region_of_named w fd type whence start len g : whence_ok whence ->
  region_of (if i16 whence =? SEEK_SET then 0 else le_base w fd (i16 whence)) (Flock (i16 type) (i16 whence) start len g) =
  named_region w fd whence start len.
Proof. intros Hw. by rewrite (i16_whence _ Hw). Qed.

Lemma lockRegion_run garbage fd type whence start len l w r : lock_type type -> whence_ok whence ->
  named_region w fd whence start len = Some r ->
  lockRegion garbage fd type whence start len (l, w) =
  match setlk (le_me w) type r (le_locks w fd) with
  | Some tbl => (Done 0, (l, set_locks fd tbl w))
  | None => (Done (-1), (Libc EAGAIN (lc_environ l) (lc_pending l) (lc_out l), w))
  end.
Proof.
  intros Ht Hw Hr. unfold lockRegion, lockReg, call, sys_fcntl_lock, kernel_locks. munfold. cbn [l_whence l_type l_start l_len l_pid].
  rewrite region_of_named, Hr, (i16_type _ Ht) by done. cbn. by destruct (setlk _ _ _ _).
Qed.
Lemma setlk_denied me type r tbl : type <> F_UNLCK -> setlk me type r tbl = None <-> denied tbl me type r.
Proof.
  intros Hu. rewrite <- existsb_conflicts. unfold setlk. rewrite (proj2 (Z.eqb_neq _ _) Hu). by destruct (existsb _ _).
Qed.

(** What is in a table: process IDs are positive, and a lock is for reading or writing. *)
Definition table_ok (tbl : list lock) : Prop := forall k, k ∈ tbl -> 0 < k_owner k /\ lock_type (k_type k).

(** C9: The region functions agree with each other and do what they say, for read and
    write locks on any region that is not before the start of the file. lockRegion()
    fails, with EAGAIN, exactly when another process holds an incompatible lock on a byte
    of the region, and changes no lock then; otherwise the process holds a lock of that
    type on exactly the bytes of the region, and every other lock on every byte is as it
    was. regionIsLocked() returns 0 exactly when lockRegion() would succeed, and else the
    process ID of a process that is in the way; it changes nothing. *)
Theorem region_locking_correct garbage fd type whence start len l w r :
  lock_type type -> whence_ok whence -> named_region w fd whence start len = Some r ->
  table_ok (le_locks w fd) ->
  let tbl := le_locks w fd in
  (exists p, regionIsLocked garbage fd type whence start len (l, w) = (Done p, (l, w)) /\
     (p = 0 <-> ~ denied tbl (le_me w) type r) /\
     (p <> 0 -> p <> le_me w /\ exists b t, in_region r b = true /\ holds tbl p b t /\ exclude type t = true)) /\
  ((denied tbl (le_me w) type r /\
    lockRegion garbage fd type whence start len (l, w) = (Done (-1), (Libc EAGAIN (lc_environ l) (lc_pending l) (lc_out l), w))) \/
   (~ denied tbl (le_me w) type r /\
    exists tbl', lockRegion garbage fd type whence start len (l, w) = (Done 0, (l, set_locks fd tbl' w)) /\
      forall p b t, holds tbl' p b t <->
        (p = le_me w /\ in_region r b = true /\ t = type) \/ (holds tbl p b t /\ ~ (p = le_me w /\ in_region r b = true)))).
Proof.
  intros Ht Hw Hr Hpos tbl. subst tbl. assert (Hu : type <> F_UNLCK) by (by destruct Ht as [->| ->]). split.
  - unfold regionIsLocked, call, sys_fcntl_lock, kernel_locks. munfold. cbn [l_whence l_type l_start l_len l_pid].
    rewrite region_of_named, Hr, (i16_type _ Ht) by done. cbn. unfold getlk. rewrite (proj2 (Z.eqb_neq _ _) Hu).
    destruct (find _ _) as [k|] eqn:Hf; cbn.
    + apply find_some in Hf as [Hk%list_elem_of_In (Ho & He & b & Hb & Hkb)%conflicts_spec]. destruct (Hpos k Hk) as [Hp Hty].
      assert ((k_type k =? F_UNLCK) = false) as -> by (by destruct Hty as [->| ->]). exists (k_owner k). split; [done|]. split.
      * split; [lia|]. intros Hn. destruct Hn. exists (k_owner k), b, (k_type k). split_and!; try done. by exists k.
      * intros _. split; [done|]. exists b, (k_type k). split_and!; try done. by exists k.
    + exists 0. split; [done|]. split; [|done]. split; [|done]. intros _ Hd. apply existsb_conflicts in Hd. apply existsb_exists in Hd as (k & Hk & Hc).
      by rewrite (find_none _ _ Hf k Hk) in Hc.
  - rewrite (lockRegion_run _ _ _ _ _ _ _ _ _ Ht Hw Hr), <- (setlk_denied _ _ _ _ Hu).
    destruct (setlk (le_me w) type r (le_locks w fd)) as [tbl'|] eqn:Hs; [right|by left]. split; [done|]. exists tbl'. split; [done|].
    intros p b t. rewrite (setlk_holds _ _ _ _ _ p b t Hs). tauto.
Qed.

(** A process has a write lock on the first ten bytes; another looks at, and locks, what
    is after the first five. *)
Definition toy_locks : lockenv := LockEnv 12 (fun _ => [Lock 11 F_WRLCK (Region 0 (Some 10))]) (fun _ _ => 0).
Lemma region_locking_correct_witness :
  let tbl := le_locks toy_locks 3 in
  (exists p, regionIsLocked 0 3 F_RDLCK SEEK_SET 5 0 (libc0, toy_locks) = (Done p, (libc0, toy_locks)) /\
     (p = 0 <-> ~ denied tbl (le_me toy_locks) F_RDLCK (Region 5 None)) /\
     (p <> 0 -> p <> le_me toy_locks /\ exists b t, in_region (Region 5 None) b = true /\ holds tbl p b t /\ exclude F_RDLCK t = true)) /\
  ((denied tbl (le_me toy_locks) F_RDLCK (Region 5 None) /\
    lockRegion 0 3 F_RDLCK SEEK_SET 5 0 (libc0, toy_locks) = (Done (-1), (Libc EAGAIN [] [] [], toy_locks))) \/
   (~ denied tbl (le_me toy_locks) F_RDLCK (Region 5 None) /\
    exists tbl', lockRegion 0 3 F_RDLCK SEEK_SET 5 0 (libc0, toy_locks) = (Done 0, (libc0, set_locks 3 tbl' toy_locks)) /\
      forall p b t, holds tbl' p b t <->
        (p = le_me toy_locks /\ in_region (Region 5 None) b = true /\ t = F_RDLCK) \/
        (holds tbl p b t /\ ~ (p = le_me toy_locks /\ in_region (Region 5 None) b = true)))).
Proof.
  apply (region_locking_correct 0 3 F_RDLCK SEEK_SET 5 0 libc0 toy_locks (Region 5 None)); [by left|by left|done|].
  intros k ->%list_elem_of_singleton. split; [done|by right].
Defined.
