(* ===== verification/PidFile.v ===== *)
(** One instance of a program: book-src/filelock/create_pid_file.c. Any number of
    processes call createPidFile() for the same file; each is a step function, and the
    interleavings of their steps are a relation, in which calls can fail and processes
    can end at any point. *)
From S2P Require Import Prelude CLib Sys Calls Steps RecordLocks.
From stdpp Require Import relations.
#[local] Open Scope Z_scope.

Definition CPF_CLOEXEC : Z := 1.
Definition FD_CLOEXEC : Z := 1.

(** * State *)

(** A file and the locks on it; [name] is the file that the path names, if any. *)
Record pfile := PFile { f_data : bytes; f_locks : list lock }.

(** How a process ends. *)
Inductive pend := E_exit (status : Z) | E_killed.
(** A process is about to open the file, to get and set the flags of the descriptor, to
    lock, to truncate, to write; createPidFile() has returned and the program runs; it has
    deleted the file and is about to end. *)
Inductive ppc :=
| P_open | P_getfd (ino : nat) | P_setfd (ino : nat) (v : Z) | P_lock (ino : nat) | P_trunc (ino : nat) | P_write (ino : nat)
| P_running (ino : nat) | P_leaving (ino : nat) | P_end (e : pend).
(** [cloexec]: the flag of the descriptor. *)
Record proc := Proc { p_pid : Z; p_flags : Z; p_cloexec : bool; p_pc : ppc }.
Record pstate := PState { name : option nat; files : list pfile; procs : list proc }.

Definition with_proc (i : nat) (p : proc) (s : pstate) : pstate := PState (name s) (files s) (<[i:=p]> (procs s)).
Definition with_name (n : option nat) (s : pstate) : pstate := PState n (files s) (procs s).
Definition with_file (ino : nat) (g : pfile -> pfile) (s : pstate) : pstate := PState (name s) (alter g ino (files s)) (procs s).
Definition with_files (l : list pfile) (s : pstate) : pstate := PState (name s) l (procs s).
Definition set_pdata (d : bytes) (f : pfile) : pfile := PFile d (f_locks f).
Definition set_plocks (l : list lock) (f : pfile) : pfile := PFile (f_data f) l.

(** The file a process has open. *)
Definition p_file (c : ppc) : option nat :=
  match c with
  | P_getfd ino | P_setfd ino _ | P_lock ino | P_trunc ino | P_write ino | P_running ino | P_leaving ino => Some ino
  | P_open | P_end _ => None
  end.
(** The end of a process closes its descriptor and releases its locks. *)
Definition release (pid : Z) (l : list lock) : list lock := filter (fun k => k_owner k <> pid) l.
Definition ends (i : nat) (p : proc) (e : pend) (s : pstate) : pstate :=
  with_proc i (Proc (p_pid p) (p_flags p) (p_cloexec p) (P_end e))
    (match p_file (p_pc p) with Some ino => with_file ino (fun f => set_plocks (release (p_pid p) (f_locks f)) f) s | None => s end).

(** * createPidFile() *)

(** What the process writes. *)
Definition pid_line (pid : Z) : bytes := snprintf 100 (print_dec pid ++ [newline]).

(** lockRegion(fd, F_WRLCK, SEEK_SET, 0, 0) by process [pid] on a file with the locks
    [tbl]: its result and the locks afterwards. *)
Definition lock_file (pid : Z) (tbl : list lock) : option (Z * list lock) :=
  match lockRegion 0 0 F_WRLCK SEEK_SET 0 0 (libc0, LockEnv pid (fun _ => tbl) (fun _ _ => 0)) with
  | (Done r, (_, w)) => Some (r, le_locks w 0)
  | _ => None
  end.

(** One step of process [i]; [ok] is whether the call succeeds, where that is not decided
    by the state; [n] is how many bytes a write that fails has written. *)
(** Source: book-src/filelock/create_pid_file.c:36-81 (createPidFile). *)
Definition createPidFile_step (ok : bool) (n : nat) (i : nat) (s : pstate) : option pstate :=
  p ← procs s !! i;
  let goto pc s := with_proc i (Proc (p_pid p) (p_flags p) (p_cloexec p) pc) s in
  let fails := Some (ends i p (E_exit EXIT_FAILURE) s) in
  match p_pc p with
  | P_open =>
      let next ino := if has_bits (p_flags p) CPF_CLOEXEC then P_getfd ino else P_lock ino in
      if ok then
        match name s with
        | Some ino => Some (goto (next ino) s)
        | None => Some (goto (next (length (files s))) (with_name (Some (length (files s))) (with_files (files s ++ [PFile [] []]) s)))
        end
      else fails
  | P_getfd ino => if ok then Some (goto (P_setfd ino (Z.lor (if p_cloexec p then FD_CLOEXEC else 0) FD_CLOEXEC)) s) else fails
  | P_setfd ino v =>
      if ok then Some (with_proc i (Proc (p_pid p) (p_flags p) (has_bits v FD_CLOEXEC) (P_lock ino)) s) else fails
  | P_lock ino =>
      f ← files s !! ino;
      if ok then
        '(r, tbl) ← lock_file (p_pid p) (f_locks f);
        if r =? -1 then fails else Some (goto (P_trunc ino) (with_file ino (set_plocks tbl) s))
      else fails
  | P_trunc ino => if ok then Some (goto (P_write ino) (with_file ino (set_pdata []) s)) else fails
  | P_write ino =>
      let put k := with_file ino (fun f => set_pdata (take k (pid_line (p_pid p)) ++ drop k (f_data f)) f) in
      if ok then Some (goto (P_running ino) (put (length (pid_line (p_pid p))) s))
      else Some (ends i p (E_exit EXIT_FAILURE) (put (Nat.min n (length (pid_line (p_pid p)))) s))
  | P_running _ | P_leaving _ | P_end _ => None
  end.

(** The program ends, by itself or by a signal. *)
Definition p_live (c : ppc) : bool := match c with P_end _ => false | _ => true end.
Definition end_step (e : pend) (i : nat) (s : pstate) : option pstate :=
  p ← procs s !! i; if p_live (p_pc p) then Some (ends i p e s) else None.
(** It deletes the file just before it ends, as the comment of the function asks. *)
Definition unlink_step (i : nat) (s : pstate) : option pstate :=
  p ← procs s !! i;
  if p_pc p is P_running ino then Some (with_proc i (Proc (p_pid p) (p_flags p) (p_cloexec p) (P_leaving ino)) (with_name None s)) else None.

Inductive step : pstate -> pstate -> Prop :=
| step_create ok n i s s' : createPidFile_step ok n i s = Some s' -> step s s'
| step_end e i s s' : end_step e i s = Some s' -> step s s'.
(** Where no call fails and no process ends by itself. *)
Inductive calm_step : pstate -> pstate -> Prop :=
| calm_create i s s' : createPidFile_step true 0 i s = Some s' -> calm_step s s'.

(** At the start the file may be there, with any content. *)
Definition new_proc (x : Z * Z) : proc := Proc x.1 x.2 false P_open.
Definition start (old : option bytes) (ps : list (Z * Z)) : pstate :=
  PState (if old is Some _ then Some 0%nat else None) (if old is Some d then [PFile d []] else []) (new_proc <$> ps).

(** * The invariant *)

Definition whole : region := Region 0 None.
Definition owner_of (f : pfile) : option Z := head (k_owner <$> f_locks f).
(** The process holds the lock. *)
Definition holding (c : ppc) : bool := match c with P_trunc _ | P_write _ | P_running _ | P_leaving _ => true | _ => false end.

Definition proc_ok (s : pstate) (p : proc) : Prop :=
  (forall ino, p_file (p_pc p) = Some ino -> name s = Some ino) /\
  (holding (p_pc p) = true -> exists f, (k ← name s; files s !! k) = Some f /\ f_locks f = [Lock (p_pid p) F_WRLCK whole] /\
    match p_pc p with P_write _ => f_data f = [] | P_running _ => f_data f = pid_line (p_pid p) | _ => True end) /\
  (forall v ino, p_pc p = P_setfd ino v -> has_bits v FD_CLOEXEC = true) /\
  (match p_pc p with P_open | P_getfd _ | P_setfd _ _ | P_end _ => False | _ => has_bits (p_flags p) CPF_CLOEXEC = true end -> p_cloexec p = true) /\
  (if p_pc p is P_leaving _ then False else True).
Record Inv (s : pstate) : Prop := {
  i_nodup : NoDup (p_pid <$> procs s);
  i_procs : forall i p, procs s !! i = Some p -> proc_ok s p;
  i_name : forall k, name s = Some k -> exists f, files s !! k = Some f;
  i_locks : forall k f l, files s !! k = Some f -> l ∈ f_locks f ->
    name s = Some k /\ f_locks f = [l] /\ exists i p, procs s !! i = Some p /\ l = Lock (p_pid p) F_WRLCK whole /\ holding (p_pc p) = true
}.

Lemma lock_file_run p tbl : lock_file p tbl = Some match setlk p F_WRLCK whole tbl with Some tbl' => (0, tbl') | None => (-1, tbl) end.
Proof.
  unfold lock_file. rewrite (lockRegion_run 0 0 F_WRLCK SEEK_SET 0 0 libc0 (LockEnv p (fun _ => tbl) (fun _ _ => 0)) whole); [|by right|by left|done].
  cbn [le_me le_locks]. destruct (setlk p F_WRLCK whole tbl); [|done]. cbn. by rewrite decide_True.
Qed.
Lemma lock_file_free p : lock_file p [] = Some (0, [Lock p F_WRLCK whole]).
Proof. by rewrite lock_file_run. Qed.
Lemma lock_file_taken p q : p <> q -> lock_file p [Lock q F_WRLCK whole] = Some (-1, [Lock q F_WRLCK whole]).
Proof.
  intros Hne. rewrite lock_file_run. rewrite (proj2 (setlk_denied p F_WRLCK whole _ ltac:(done))); [done|].
  exists q, 0, F_WRLCK. split_and!; try done. exists (Lock q F_WRLCK whole). split; [by left|done].
Qed.
Lemma has_bits_cloexec v : has_bits (Z.lor v FD_CLOEXEC) FD_CLOEXEC = true.
Proof.
  unfold has_bits, FD_CLOEXEC. rewrite Z.land_lor_distr_l. change (Z.land 1 1) with 1. apply negb_true_iff, Z.eqb_neq.
  intros H%Z.lor_eq_0_iff. by destruct H.
Qed.

Lemma pf_Inv_start old ps : NoDup ps.*1 -> Inv (start old ps).
Proof.
  intros Hd. split; cbn.
  - rewrite <- list_fmap_compose. done.
  - intros i p Hp. rewrite list_lookup_fmap in Hp. destruct (ps !! i); [|done]. injection Hp as <-. by split_and!.
  - intros k Hk. destruct old; [|done]. injection Hk as <-. by eexists.
  - intros k f l Hk Hl. destruct old; [|done]. destruct k; [|done]. injection Hk as <-. by apply elem_of_nil in Hl.
Qed.

Lemma same_proc s i j p q : Inv s -> procs s !! i = Some p -> procs s !! j = Some q -> p_pid p = p_pid q -> i = j /\ p = q.
Proof.
  intros Hi Hp Hq He. assert (i = j) as ->; [|split; congruence].
  apply (NoDup_lookup (p_pid <$> procs s) i j (p_pid p)); [apply (i_nodup _ Hi)| |]; rewrite list_lookup_fmap, ?Hp, ?Hq; cbn; congruence.
Qed.
Lemma pids_update s i p p' : procs s !! i = Some p -> p_pid p' = p_pid p -> p_pid <$> <[i:=p']> (procs s) = p_pid <$> procs s.
Proof. intros Hp He. rewrite list_fmap_insert, He. apply list_insert_id. by rewrite list_lookup_fmap, Hp. Qed.

(** What the locks of the named file are, seen from process [i]. *)
Lemma locks_cases s i p ino f : Inv s -> procs s !! i = Some p -> files s !! ino = Some f -> holding (p_pc p) = false ->
  f_locks f = [] \/ exists j q, j <> i /\ procs s !! j = Some q /\ p_pid q <> p_pid p /\ holding (p_pc q) = true /\ f_locks f = [Lock (p_pid q) F_WRLCK whole].
Proof.
  intros Hi Hp Hf Hh. destruct (f_locks f) as [|l ls] eqn:Hl; [by left|right].
  destruct (i_locks _ Hi ino f l Hf) as (_ & Hls & j & q & Hq & -> & Hhq); [rewrite Hl; by left|]. exists j, q. rewrite <- Hl. split_and!; try done.
  - intros ->. congruence.
  - intros He. destruct (same_proc s j i q p Hi Hq Hp He) as [-> ->]. congruence.
Qed.
Lemma others_idle s i p : Inv s -> procs s !! i = Some p -> holding (p_pc p) = true ->
  forall j q, procs s !! j = Some q -> j <> i -> holding (p_pc q) = false.
Proof.
  intros Hi Hp Hh j q Hq Hne. destruct (holding (p_pc q)) eqn:Hhq; [|done].
  destruct (i_procs _ Hi i p Hp) as (_ & H1 & _). destruct (i_procs _ Hi j q Hq) as (_ & H2 & _).
  destruct (H1 Hh) as (f & Hf & Hl & _), (H2 Hhq) as (f' & Hf' & Hl' & _).
  rewrite Hf in Hf'. injection Hf' as <-. rewrite Hl in Hl'. injection Hl' as He. destruct (same_proc s i j p q Hi Hp Hq He) as [-> _]. done.
Qed.

Lemma Inv_update s i p p' ino f f' : Inv s -> procs s !! i = Some p -> p_pid p' = p_pid p -> name s = Some ino -> files s !! ino = Some f ->
  proc_ok (PState (name s) (<[ino:=f']> (files s)) (<[i:=p']> (procs s))) p' ->
  (f' = f \/ forall j q, procs s !! j = Some q -> j <> i -> holding (p_pc q) = false) ->
  (if holding (p_pc p') then f_locks f' = [Lock (p_pid p) F_WRLCK whole] else f_locks f' = release (p_pid p) (f_locks f)) ->
  Inv (PState (name s) (<[ino:=f']> (files s)) (<[i:=p']> (procs s))).
Proof.
  intros Hi Hp Hpid Hn Hf Hok Hoth Hl. pose proof (lookup_lt_Some _ _ _ Hf) as Hlt. split; cbn.
  - rewrite (pids_update s i p) by done. apply (i_nodup _ Hi).
  - apply (all_insert (fun _ => proc_ok _)); [|done]. intros j q Hq Hne. destruct (i_procs _ Hi j q Hq) as (H1 & H2 & H3).
    split; [done|]. split; [|done]. cbn. intros Hh. destruct (H2 Hh) as (g & Hg & ?). rewrite Hn in *. cbn in *. rewrite Hf in Hg. injection Hg as <-.
    exists f'. rewrite list_lookup_insert_eq by done. split; [done|]. destruct Hoth as [->|Hoth]; [done|]. by rewrite (Hoth j q Hq Hne) in Hh.
  - intros k Hk. rewrite Hn in Hk. injection Hk as <-. exists f'. by apply list_lookup_insert_eq.
  - intros k g l Hk Hin. apply list_lookup_insert_Some in Hk as [(<- & <- & _)|[Hne Hk]].
    2:{ destruct (i_locks _ Hi k g l Hk Hin) as [Hk' _]. congruence. }
    split; [done|]. destruct (holding (p_pc p')) eqn:Hh.
    + rewrite Hl in Hin |- *. apply list_elem_of_singleton in Hin as ->. split; [done|]. exists i, p'. rewrite Hpid.
      split; [apply list_lookup_insert_eq; by apply lookup_lt_Some in Hp|done].
    + rewrite Hl in Hin. apply list_elem_of_filter in Hin as [Ho Hin]. destruct (i_locks _ Hi ino f l Hf Hin) as (_ & Hls & j & q & Hq & -> & Hhq).
      split; [|exists j, q; split; [rewrite list_lookup_insert_ne; [done|]|done]].
      * rewrite Hl, Hls. unfold release. cbn in Ho |- *. by rewrite decide_True.
      * intros ->. cbn in Ho. congruence.
Qed.

(** A process moves that holds no lock, and changes no file. *)
Lemma Inv_plain s i p p' : Inv s -> procs s !! i = Some p -> p_pid p' = p_pid p -> holding (p_pc p) = false -> holding (p_pc p') = false ->
  proc_ok s p' -> Inv (with_proc i p' s).
Proof.
  intros Hi Hp Hpid Hh Hh' Hok. split; cbn.
  - rewrite (pids_update s i p) by done. apply (i_nodup _ Hi).
  - apply (all_insert (fun _ => proc_ok _)); [|done]. intros j q Hq _. by apply (i_procs _ Hi j q).
  - apply (i_name _ Hi).
  - intros k f l Hk Hin. destruct (i_locks _ Hi k f l Hk Hin) as (Hn & Hls & j & q & Hq & -> & Hhq). split; [done|]. split; [done|].
    exists j, q. split; [|done]. rewrite list_lookup_insert_ne; [done|]. intros ->. congruence.
Qed.

Lemma open_file s i p ino : Inv s -> procs s !! i = Some p -> p_file (p_pc p) = Some ino ->
  name s = Some ino /\ exists f, files s !! ino = Some f.
Proof.
  intros Hi Hp Hf. destruct (i_procs _ Hi i p Hp) as (H1 & _). specialize (H1 ino Hf). split; [done|]. by apply (i_name _ Hi).
Qed.

Lemma alter_insert {A} (g : A -> A) (l : list A) k x : l !! k = Some x -> alter g k l = <[k:=g x]> l.
Proof.
  intros Hx. apply list_eq. intros j. rewrite list_lookup_alter, list_lookup_insert. destruct (decide (k = j)) as [->|Hne].
  - rewrite Hx, decide_True by (split; [done|by apply lookup_lt_Some in Hx]). done.
  - by rewrite decide_False by tauto.
Qed.

Lemma pf_Inv_ends s i p e : Inv s -> procs s !! i = Some p -> Inv (ends i p e s).
Proof.
  intros Hi Hp. unfold ends. set (p' := Proc _ _ _ _). destruct (p_file (p_pc p)) as [ino|] eqn:Hpf.
  - destruct (open_file s i p ino Hi Hp Hpf) as (Hn & f & Hf). unfold with_proc, with_file. cbn [name files procs].
    rewrite (alter_insert _ _ _ _ Hf).
    apply (Inv_update s i p p' ino f); try done.
    destruct (holding (p_pc p)) eqn:Hh; [right; by apply (others_idle s i p)|].
    destruct (locks_cases s i p ino f Hi Hp Hf Hh) as [Hl|(j & q & _ & _ & Hq & _ & Hl)]; left; destruct f as [d l]; cbn in *; rewrite Hl; unfold set_plocks, release; cbn; [done|].
    by rewrite decide_True.
  - apply (Inv_plain s i p); try done. by destruct (p_pc p).
Qed.


(** The file is made: nobody has it open. *)
Lemma Inv_new_file s i p p' : Inv s -> procs s !! i = Some p -> p_pid p' = p_pid p -> p_pc p = P_open -> name s = None ->
  let ino := length (files s) in
  proc_ok (PState (Some ino) (files s ++ [PFile [] []]) (<[i:=p']> (procs s))) p' -> holding (p_pc p') = false ->
  Inv (PState (Some ino) (files s ++ [PFile [] []]) (<[i:=p']> (procs s))).
Proof.
  intros Hi Hp Hpid Hpc Hn ino Hok Hh. split; cbn.
  - rewrite (pids_update s i p) by done. apply (i_nodup _ Hi).
  - apply (all_insert (fun _ => proc_ok _)); [|done]. intros j q Hq Hne. destruct (i_procs _ Hi j q Hq) as (H1 & H2 & H3).
    assert (Hf : p_file (p_pc q) = None) by (destruct (p_file (p_pc q)) as [k|] eqn:Hf; [specialize (H1 k eq_refl); congruence|done]).
    split; [cbn; intros k Hk; congruence|]. split; [|done]. intros Hhq. by destruct (p_pc q).
  - intros k [= <-]. eexists. apply list_lookup_middle. done.
  - intros k f l Hk Hin. apply lookup_snoc_Some in Hk as [[_ Hk]|[_ <-]]; [|by apply elem_of_nil in Hin].
    destruct (i_locks _ Hi k f l Hk Hin) as [? _]. congruence.
Qed.

(** A write fails part of the way. *)
Lemma Inv_write_fails s i p ino f e g : Inv s -> procs s !! i = Some p -> p_pc p = P_write ino -> files s !! ino = Some f ->
  Inv (ends i p e (with_file ino (fun f => set_pdata (g f) f) s)).
Proof.
  intros Hi Hp Hpc Hf. destruct (open_file s i p ino Hi Hp) as [Hn _]; [by rewrite Hpc|]. destruct (i_procs _ Hi i p Hp) as (_ & H2 & _).
  rewrite Hpc in H2. destruct (H2 eq_refl) as (f' & Hf' & Hl & _). rewrite Hn in Hf'. cbn in Hf'. rewrite Hf in Hf'. injection Hf' as <-.
  unfold ends. rewrite Hpc. cbn [p_file]. unfold with_proc, with_file. cbn [name files procs]. rewrite (alter_insert _ _ _ _ Hf).
  rewrite (alter_insert _ _ _ (set_pdata (g f) f)) by (apply list_lookup_insert_eq; by apply lookup_lt_Some in Hf). rewrite list_insert_insert_eq.
  apply (Inv_update s i p _ ino f); try done. right. apply (others_idle s i p); try done. by rewrite Hpc.
Qed.

Lemma Inv_createPidFile s ok n i s' : Inv s -> createPidFile_step ok n i s = Some s' -> Inv s'.
Proof.
  intros Hi Hs. unfold createPidFile_step in Hs. destruct (procs s !! i) as [p|] eqn:Hp; [|done]. cbn [mbind option_bind] in Hs.
  pose proof (i_procs _ Hi i p Hp) as (H1 & H2 & H3 & H4 & H5). pose proof (fun e => pf_Inv_ends s i p e Hi Hp) as Hend.
  pose proof (fun ino => open_file s i p ino Hi Hp) as Hopen.
  destruct (p_pc p) as [|ino|ino v|ino|ino|ino|ino|ino|e] eqn:Hpc; try done; cbn in H1, H2, H4;
    try (specialize (Hopen ino eq_refl) as (Hn & f & Hf)); (destruct ok; [|try (injection Hs as <-; by apply Hend)]).
  - destruct (name s) as [ino|] eqn:Hn; injection Hs as <-.
    + apply (Inv_plain s i p); rewrite ?Hpc; try done; destruct (has_bits _ _) eqn:Hb; try done; split_and!; cbn; rewrite ?Hb; try done; congruence.
    + apply (Inv_new_file s i p); try done; destruct (has_bits _ _) eqn:Hb; try done; split_and!; cbn; rewrite ?Hb; try done; congruence.
  - injection Hs as <-. apply (Inv_plain s i p); rewrite ?Hpc; try done. split_and!; cbn; try done; try congruence.
    intros v k [= _ <-]. apply has_bits_cloexec.
  - injection Hs as <-. apply (Inv_plain s i p); rewrite ?Hpc; try done. split_and!; cbn; try done; try congruence. intros _. by eapply H3.
  - rewrite Hf in Hs. cbn in Hs. destruct (locks_cases s i p ino f Hi Hp Hf) as [Hl|(j & q & Hne & Hq & Hpq & Hh & Hl)]; [by rewrite Hpc| |]; rewrite Hl in Hs.
    + rewrite lock_file_free in Hs. cbn in Hs. injection Hs as <-. unfold with_proc, with_file. cbn [name files procs]. rewrite (alter_insert _ _ _ _ Hf).
      apply (Inv_update s i p _ ino f); try done.
      * split_and!; cbn; try done; try congruence. intros _. rewrite Hn. cbn. eexists. rewrite list_lookup_insert_eq by (by apply lookup_lt_Some in Hf). done.
      * right. intros j q Hq Hne. destruct (holding (p_pc q)) eqn:Hh; [|done]. destruct (i_procs _ Hi j q Hq) as (_ & H2' & _).
        destruct (H2' Hh) as (f' & Hf' & Hl' & _). rewrite Hn in Hf'. cbn in Hf'. rewrite Hf in Hf'. injection Hf' as <-. congruence.
    + rewrite lock_file_taken in Hs by done. cbn in Hs. injection Hs as <-. by apply Hend.
  - rewrite Hf in Hs. injection Hs as <-. by apply Hend.
  - injection Hs as <-. unfold with_proc, with_file. cbn [name files procs]. rewrite (alter_insert _ _ _ _ Hf).
    destruct (H2 eq_refl) as (f' & Hf' & Hl & _). rewrite Hn in Hf'. cbn in Hf'. rewrite Hf in Hf'. injection Hf' as <-.
    apply (Inv_update s i p _ ino f); try done; [|right; apply (others_idle s i p); try done; by rewrite Hpc].
    split_and!; cbn; try done; try congruence. intros _. rewrite Hn. cbn. eexists. rewrite list_lookup_insert_eq by (by apply lookup_lt_Some in Hf). done.
  - injection Hs as <-. unfold with_proc, with_file. cbn [name files procs]. rewrite (alter_insert _ _ _ _ Hf).
    destruct (H2 eq_refl) as (f' & Hf' & Hl & Hd). rewrite Hn in Hf'. cbn in Hf'. rewrite Hf in Hf'. injection Hf' as <-.
    apply (Inv_update s i p _ ino f); try done; [|right; apply (others_idle s i p); try done; by rewrite Hpc].
    split_and!; cbn; try done; try congruence. intros _. rewrite Hn. cbn. eexists. rewrite list_lookup_insert_eq by (by apply lookup_lt_Some in Hf).
    split; [done|]. split; [done|]. cbn. by rewrite Hd, drop_nil, app_nil_r, firstn_all.
  - injection Hs as <-. by apply (Inv_write_fails s i p ino f).
Qed.

Lemma pf_Inv_step s s' : Inv s -> step s s' -> Inv s'.
Proof.
  intros Hi Hs. destruct Hs as [ok n i s s' Hs|e i s s' Hs]; [by eapply Inv_createPidFile|].
  unfold end_step in Hs. destruct (procs s !! i) as [p|] eqn:Hp; [|done]. cbn in Hs. destruct (p_live _); [|done].
  injection Hs as <-. by apply pf_Inv_ends.
Qed.

Definition running (p : proc) : bool := match p_pc p with P_running _ => true | _ => false end.

(** C8: At most one instance runs. In every interleaving of any number of processes that
    call createPidFile() for one file, with failing calls and processes that end or are
    killed at any point, as long as nobody deletes the file: at most one process is past
    createPidFile(); while it runs the file exists and holds its process ID and a newline
    and nothing else, whatever was in it before and whatever the other processes do; and
    its descriptor is closed on exec if that was asked for. *)
Theorem pid_file_single old ps s : NoDup ps.*1 -> rtc step (start old ps) s ->
  forall i p, procs s !! i = Some p -> running p = true ->
    (forall j q, procs s !! j = Some q -> running q = true -> j = i) /\
    (exists k f, name s = Some k /\ files s !! k = Some f /\ f_data f = pid_line (p_pid p)) /\
    (has_bits (p_flags p) CPF_CLOEXEC = true -> p_cloexec p = true).
Proof.
  intros Hd Hr i p Hp Hrun. assert (Hi : Inv s) by (by eapply (reach_inv _ _ pf_Inv_step), Hr; apply pf_Inv_start).
  unfold running in *. destruct (p_pc p) as [| | | | | |ino| |] eqn:Hpc; try done. split_and!.
  - intros j q Hq Hrq. destruct (decide (j = i)) as [|Hne]; [done|].
    pose proof (others_idle s i p Hi Hp ltac:(by rewrite Hpc) j q Hq Hne) as Hh. by destruct (p_pc q).
  - destruct (i_procs _ Hi i p Hp) as (_ & H2 & _). rewrite Hpc in H2. destruct (H2 eq_refl) as (f & Hf & _ & Hdt).
    destruct (name s) as [k|]; [|done]. by exists k, f.
  - destruct (i_procs _ Hi i p Hp) as (_ & _ & _ & H4 & _). by rewrite Hpc in H4.
Qed.

(** ** Without failures *)

Definition p_left (p : proc) : Z :=
  match p_pc p with P_open => 6 | P_getfd _ => 5 | P_setfd _ _ => 4 | P_lock _ => 3 | P_trunc _ => 2 | P_write _ => 1 | _ => 0 end.
Definition measure (s : pstate) : Z := sumZ p_left (procs s).

(** Whoever has failed has found somebody else with the lock. *)
Definition calm_ok (s : pstate) : Prop :=
  (exists j q, procs s !! j = Some q /\ holding (p_pc q) = true) \/ (forall i p, procs s !! i = Some p -> p_live (p_pc p) = true).
Definition failed_only (s : pstate) : Prop :=
  forall i p e, procs s !! i = Some p -> p_pc p = P_end e -> e = E_exit EXIT_FAILURE.
Definition Calm (s : pstate) : Prop := Inv s /\ calm_ok s /\ failed_only s /\ procs s <> [].

Lemma calm_keeps s i p p' : procs s !! i = Some p -> calm_ok s ->
  (holding (p_pc p) = true -> holding (p_pc p') = true) ->
  p_live (p_pc p') = true \/ (exists j q, j <> i /\ procs s !! j = Some q /\ holding (p_pc q) = true) ->
  (exists j q, <[i:=p']> (procs s) !! j = Some q /\ holding (p_pc q) = true) \/
  (forall j q, <[i:=p']> (procs s) !! j = Some q -> p_live (p_pc q) = true).
Proof.
  intros Hp Hc Hh Hl. pose proof (lookup_lt_Some _ _ _ Hp) as Hlt. destruct Hl as [Hl|(j & q & Hne & Hq & Hhq)].
  - destruct Hc as [(j & q & Hq & Hhq)|Hall].
    + left. destruct (decide (j = i)) as [->|Hne].
      * exists i, p'. rewrite list_lookup_insert_eq by done. split; [done|]. apply Hh. rewrite Hp in Hq. by injection Hq as <-.
      * exists j, q. by rewrite list_lookup_insert_ne.
    + right. apply (all_insert (fun _ q => p_live (p_pc q) = true)); [|done]. intros j q Hq _. by apply (Hall j).
  - left. exists j, q. by rewrite list_lookup_insert_ne.
Qed.

(** A calm step moves one process on, or ends one that has found another's lock. *)
Lemma calm_step_shape s s' : Calm s -> calm_step s s' ->
  exists i p p', procs s !! i = Some p /\ procs s' = <[i:=p']> (procs s) /\ p_left p' < p_left p /\
    (holding (p_pc p) = true -> holding (p_pc p') = true) /\
    (p_live (p_pc p') = true \/ (p_pc p' = P_end (E_exit EXIT_FAILURE) /\ exists j q, j <> i /\ procs s !! j = Some q /\ holding (p_pc q) = true)).
Proof.
  intros (Hi & _) Hs. destruct Hs as [i s s' Hs]. unfold createPidFile_step in Hs. destruct (procs s !! i) as [p|] eqn:Hp; [|done].
  cbn [mbind option_bind] in Hs. pose proof (fun ino => open_file s i p ino Hi Hp) as Hopen. exists i, p. unfold p_left.
  destruct (p_pc p) as [|ino|ino v|ino|ino|ino|ino|ino|e] eqn:Hpc; try done; try (specialize (Hopen ino eq_refl) as (Hn & f & Hf)).
  - destruct (name s) as [ino|]; injection Hs as <-; eexists; (split; [done|]); (split; [done|]); cbn; destruct (has_bits _ _); cbn; (split_and!; [done|done|by left]).
  - injection Hs as <-. eexists. split; [done|]. split; [done|]. cbn. split_and!; [done|done|by left].
  - injection Hs as <-. eexists. split; [done|]. split; [done|]. cbn. split_and!; [done|done|by left].
  - rewrite Hf in Hs. cbn in Hs. destruct (locks_cases s i p ino f Hi Hp Hf) as [Hl|(j & q & Hne & Hq & Hpq & Hh & Hl)]; [by rewrite Hpc| |]; rewrite Hl in Hs.
    + rewrite lock_file_free in Hs. cbn in Hs. injection Hs as <-. eexists. split; [done|]. split; [done|]. cbn. split_and!; [done|done|by left].
    + rewrite lock_file_taken in Hs by done. cbn in Hs. injection Hs as <-. eexists. split; [done|]. unfold ends. rewrite Hpc. split; [done|].
      cbn. split; [done|]. split; [done|]. right. split; [done|]. by exists j, q.
  - injection Hs as <-. eexists. split; [done|]. split; [done|]. cbn. split_and!; [done|done|by left].
  - injection Hs as <-. eexists. split; [done|]. split; [done|]. cbn. split_and!; [done|done|by left].
Qed.

Lemma pf_calm_is_step s s' : calm_step s s' -> step s s'.
Proof. intros [i t t' Hs]. by eapply step_create. Qed.
Lemma Calm_step s s' : Calm s -> calm_step s s' -> Calm s'.
Proof.
  intros Hc Hs. pose proof Hc as (Hi & Hok & Hf & Hne). destruct (calm_step_shape s s' Hc Hs) as (i & p & p' & Hp & Hps & _ & Hh & Hl).
  split; [by eapply pf_Inv_step, pf_calm_is_step|]. unfold calm_ok, failed_only. rewrite Hps. split_and!.
  - apply (calm_keeps s i p p' Hp Hok Hh). destruct Hl as [Hl|[_ ?]]; auto.
  - intros j q e Hq. apply list_lookup_insert_Some in Hq as [(<- & <- & _)|[_ Hq]]; [|by apply (Hf j q)].
    destruct Hl as [Hl|[-> _]]; [|congruence]. intros Hpe. by rewrite Hpe in Hl.
  - intros Hnil. by apply (f_equal length) in Hnil; rewrite length_insert in Hnil; destruct (procs s).
Qed.
Lemma Calm_measure s s' : Calm s -> calm_step s s' -> 0 <= measure s' < measure s.
Proof.
  intros Hc Hs. destruct (calm_step_shape s s' Hc Hs) as (i & p & p' & Hp & Hps & Hlt & _).
  unfold measure. rewrite Hps. split; [apply sumZ_nonneg; intros; unfold p_left; by destruct (p_pc _)|].
  rewrite (sumZ_insert _ _ _ _ _ Hp). lia.
Qed.

Lemma calm_moves s i p : Inv s -> procs s !! i = Some p -> 0 < p_left p -> exists s', calm_step s s'.
Proof.
  intros Hi Hp Hl. pose proof (fun ino => open_file s i p ino Hi Hp) as Hopen.
  destruct (createPidFile_step true 0 i s) as [s'|] eqn:Hs; [exists s'; by econstructor|]. exfalso.
  unfold createPidFile_step, p_left in *. rewrite Hp in Hs. cbn [mbind option_bind] in Hs.
  destruct (p_pc p) as [|ino|ino v|ino|ino|ino|ino|ino|e] eqn:Hpc; try done; try (specialize (Hopen ino eq_refl) as (Hn & f & Hf)).
  - by destruct (name s).
  - rewrite Hf in Hs. cbn in Hs. rewrite lock_file_run in Hs. by destruct (setlk _ _ _ _).
Qed.

(** One instance gets through. Where no call fails and nobody ends by itself, for any
    positive number of processes and every interleaving: all calls of createPidFile() come
    to an end; at the end exactly one process runs, and every other has exited with a
    failure. *)
Theorem pid_file_one_wins old ps : NoDup ps.*1 -> ps <> [] ->
  sn calm_step (start old ps) /\
  forall s, rtc calm_step (start old ps) s ->
    (exists s', calm_step s s') \/
    exists i, forall j p, procs s !! j = Some p -> if decide (j = i) then running p = true else p_pc p = P_end (E_exit EXIT_FAILURE).
Proof.
  intros Hd Hne. assert (Hc : Calm (start old ps)).
  { split_and!; [by apply pf_Inv_start|right; intros i p|intros i p e|by destruct ps];
      cbn; rewrite list_lookup_fmap; destruct (ps !! i); intros [= <-]; done. }
  split; [apply (sn_measure _ Calm Calm_step measure); [apply Calm_measure|done]|].
  intros s Hr. assert (Hcs : Calm s) by (by eapply (reach_inv _ _ Calm_step)). destruct Hcs as (Hi & Hok & Hf & Hnn).
  destruct (decide (Exists (fun p => 0 < p_left p) (procs s))) as [He|He].
  { left. apply Exists_exists in He as (p & [i Hp]%list_elem_of_lookup & Hl). by eapply calm_moves. }
  right. assert (Hdone : forall j p, procs s !! j = Some p -> running p = true \/ p_pc p = P_end (E_exit EXIT_FAILURE)).
  { intros j p Hp. assert (~ 0 < p_left p) by (intros Hl; apply He, Exists_exists; exists p; split; [by eapply list_elem_of_lookup_2|done]).
    unfold p_left, running in *. pose proof (i_procs _ Hi j p Hp) as (_ & _ & _ & _ & H5).
    destruct (p_pc p) as [|ino|ino v|ino|ino|ino|ino|ino|e] eqn:Hpc; try lia; try done; try (by left). right. by rewrite (Hf j p e Hp Hpc). }
  assert (exists i p, procs s !! i = Some p /\ running p = true) as (i & p & Hp & Hrun).
  { destruct Hok as [(i & p & Hp & Hh)|Hall].
    - exists i, p. split; [done|]. destruct (Hdone i p Hp) as [?|Hx]; [done|]. by rewrite Hx in Hh.
    - destruct (procs s) as [|p ps'] eqn:Hps; [done|]. exists 0%nat, p. split; [done|].
      destruct (Hdone 0%nat p) as [?|Hx]; [done|done|]. specialize (Hall 0%nat p eq_refl). by rewrite Hx in Hall. }
  exists i. intros j q Hq. destruct (decide (j = i)) as [->|Hji]; [congruence|]. destruct (Hdone j q Hq) as [Hrq|?]; [|done].
  assert (Hh : holding (p_pc p) = true) by (unfold running in Hrun; by destruct (p_pc p)).
  pose proof (others_idle s i p Hi Hp Hh j q Hq Hji) as Hx. unfold running in Hrq. by destruct (p_pc q).
Qed.

(** * Deleting the file *)

(** A schedule; a step that is not possible is left out. *)
Inductive choice := Create (i : nat) | End (i : nat) | Unlink (i : nat).
Definition choose (c : choice) (s : pstate) : pstate :=
  default s match c with Create i => createPidFile_step true 0 i s | End i => end_step (E_exit EXIT_SUCCESS) i s | Unlink i => unlink_step i s end.
Definition run (l : list choice) (s : pstate) : pstate := foldl (fun s c => choose c s) s l.

Inductive ustep : pstate -> pstate -> Prop :=
| ustep_step s s' : step s s' -> ustep s s'
| ustep_unlink i s s' : unlink_step i s = Some s' -> ustep s s'.
Lemma run_usteps l s : rtc ustep s (run l s).
Proof.
  revert s. induction l as [|c l IH]; intros s; [done|]. cbn [run foldl]. etrans; [|apply (IH (choose c s))]. unfold choose.
  destruct c as [i|i|i].
  - destruct (createPidFile_step _ _ _ _) eqn:Hs; [|done]. apply rtc_once. apply ustep_step. by eapply step_create.
  - destruct (end_step _ _ _) eqn:Hs; [|done]. apply rtc_once. apply ustep_step. by eapply step_end.
  - destruct (unlink_step _ _) eqn:Hs; [|done]. apply rtc_once. by eapply ustep_unlink.
Qed.
Definition creates (n i : nat) : list choice := replicate n (Create i).

(** The comment of createPidFile() makes the caller delete the file just before it ends.
    Then two instances can run: the second process has opened the file of the first, which
    deletes it and ends; the second gets the lock on the deleted file, and a third makes a
    new file. *)
Lemma unlink_two_instances : exists ps s, NoDup ps.*1 /\ rtc ustep (start None ps) s /\
  (running <$> procs s !! 1%nat) = Some true /\ (running <$> procs s !! 2%nat) = Some true.
Proof.
  exists [(11, 0); (12, 0); (13, 0)], (run (creates 4 0 ++ [Create 1; Unlink 0; End 0] ++ creates 3 1 ++ creates 4 2) (start None [(11, 0); (12, 0); (13, 0)])).
  split; [solve_NoDup|]. split; [apply run_usteps|]. by vm_compute.
Qed.

(** * Runs *)

Definition three : list (Z * Z) := [(11, 0); (12, CPF_CLOEXEC); (13, 0)].
Definition fair (n k : nat) : list choice := concat (replicate n (Create <$> seq 0 k)).
Definition three_done : pstate := run (Create 1 :: fair 8 3) (start (Some (str "garbage")) three).
Lemma pf_run_steps l s : (forall i, Unlink i ∉ l) -> rtc step s (run l s).
Proof.
  revert s. induction l as [|c l IH]; intros s Hu; [done|]. cbn [run foldl]. etrans; [|apply (IH (choose c s)); intros i Hi; apply (Hu i); by right].
  unfold choose. destruct c as [i|i|i]; [| |destruct (Hu i); by left].
  - destruct (createPidFile_step _ _ _ _) eqn:Hs; [|done]. apply rtc_once. by eapply step_create.
  - destruct (end_step _ _ _) eqn:Hs; [|done]. apply rtc_once. by eapply step_end.
Qed.

Lemma pid_file_single_witness : exists i p, procs three_done !! i = Some p /\ running p = true /\
    (forall j q, procs three_done !! j = Some q -> running q = true -> j = i) /\
    (exists k f, name three_done = Some k /\ files three_done !! k = Some f /\ f_data f = pid_line (p_pid p)) /\
    (has_bits (p_flags p) CPF_CLOEXEC = true -> p_cloexec p = true).
Proof.
  exists 0%nat, (Proc 11 0 false (P_running 0)). split; [by vm_compute|]. split; [done|].
  apply (pid_file_single (Some (str "garbage")) three three_done); [solve_NoDup| |by vm_compute|done].
  apply pf_run_steps. intros i Hi. unfold fair, creates in Hi. cbn in Hi. set_solver.
Defined.
Lemma pid_file_one_wins_witness : sn calm_step (start None three) /\
  forall s, rtc calm_step (start None three) s ->
    (exists s', calm_step s s') \/
    exists i, forall j p, procs s !! j = Some p -> if decide (j = i) then running p = true else p_pc p = P_end (E_exit EXIT_FAILURE).
Proof. apply (pid_file_one_wins None three); [solve_NoDup|done]. Defined.
