(* ===== verification/FcntlLocking.v ===== *)
(** The interactive program for record locks: book-src/filelock/i_fcntl_locking.c. *)
From S2P Require Import Prelude CLib Sys ErrorFunctions Calls RecordLocks.
#[local] Open Scope Z_scope.

Definition F_OFD_GETLK : Z := 36.
Definition F_OFD_SETLK : Z := 37.
Definition F_OFD_SETLKW : Z := 38.
Definition EDEADLK : Z := 35.
Definition S_ISGID : Z := 1024.
Definition S_IXGRP : Z := 8.
Definition MAX_LINE : nat := 100.

(** * Commands *)

(** The conversions of sscanf(): " %c" and "%lld", "%d", with the text that is left.
    (glibc gives the nearest long long for a number that is out of range.) *)
Definition scan_c (s : bytes) : option (ascii * bytes) :=
  match skip_space s with c :: s' => Some (c, s') | [] => None end.
Definition scan_lld (s : bytes) : option (Z * bytes) :=
  let r := strtol s 10 in
  if bool_decide (sl_endptr r = s) then None else Some (sl_value r, sl_endptr r).
Definition scan_d (s : bytes) : option (Z * bytes) :=
  '(v, s') ← scan_lld s; Some (i32 v, s').

(** sscanf(line, " %c %c %lld %lld %c", ...): the number of conversions, and what has
    been stored. *)
Record scanned := Scanned { sc_n : Z; sc_cmd : option ascii; sc_lock : option ascii; sc_st : option Z; sc_len : option Z; sc_whence : option ascii }.
Definition sscanf_lock (s : bytes) : scanned :=
  match scan_c s with
  | None => Scanned 0 None None None None None
  | Some (c, s1) =>
      match scan_c s1 with
      | None => Scanned 1 (Some c) None None None None
      | Some (l, s2) =>
          match scan_lld s2 with
          | None => Scanned 2 (Some c) (Some l) None None None
          | Some (st, s3) =>
              match scan_lld s3 with
              | None => Scanned 3 (Some c) (Some l) (Some st) None None
              | Some (len, s4) =>
                  match scan_c s4 with
                  | None => Scanned 4 (Some c) (Some l) (Some st) (Some len) None
                  | Some (w, _) => Scanned 5 (Some c) (Some l) (Some st) (Some len) (Some w)
                  end
              end
          end
      end
  end.

(** What a line asks for; [Unset]: the file number is read before one was ever given. *)
Inductive request := BadFile | Invalid | Unset | Request (cmdCh lock : ascii) (cmd : Z) (fl : flock).

(** Source: book-src/filelock/i_fcntl_locking.c:174-179 (main, cmd). *)
Definition cmd_of (cmdCh : ascii) : Z :=
  if ceq cmdCh "G" then F_OFD_GETLK else if ceq cmdCh "S" then F_OFD_SETLK else if ceq cmdCh "W" then F_OFD_SETLKW
  else if ceq cmdCh "g" then F_GETLK else if ceq cmdCh "s" then F_SETLK else F_SETLKW.
(** Source: book-src/filelock/i_fcntl_locking.c:183-183 (main, fl.l_type). *)
Definition type_of (lock : ascii) : Z := if ceq lock "r" then F_RDLCK else if ceq lock "w" then F_WRLCK else F_UNLCK.
(** Source: book-src/filelock/i_fcntl_locking.c:184-185 (main, fl.l_whence). *)
Definition whence_of (whence : ascii) : Z := if ceq whence "c" then SEEK_CUR else if ceq whence "e" then SEEK_END else SEEK_SET.
Definition one_of (s : bytes) (c : ascii) : bool := bool_decide (is_Some (strchr s c)).

(** [argc] as main() has it; [old] is the file number of the line before, which stays
    when the line has none. *)
(** Source: book-src/filelock/i_fcntl_locking.c:146-185 (main, parsing a line). *)
Definition parse_line (argc : Z) (old : option Z) (line : bytes) : option Z * request :=
  let '(fileNum, numRead, sc) :=
    if argc =? 2 then (Some 1, sc_n (sscanf_lock line), sscanf_lock line)
    else match scan_d line with
         | None => (old, 0, Scanned 0 None None None None None)
         | Some (k, s) => (Some k, 1 + sc_n (sscanf_lock s), sscanf_lock s)
         end in
  let whence := default "s"%char (sc_whence sc) in
  (fileNum,
   match fileNum with
   | None => Unset
   | Some k =>
       if (k <? 1) || (argc <=? k) then BadFile
       else if negb (((4 <=? numRead) && (argc =? 2)) || ((5 <=? numRead) && (2 <? argc))) then Invalid
       else match sc_cmd sc, sc_lock sc, sc_st sc, sc_len sc with
            | Some cmdCh, Some lock, Some st, Some len =>
                if negb (one_of (str "gswGSW") cmdCh) || negb (one_of (str "rwu") lock) || negb (one_of (str "sce") whence) then Invalid
                else Request cmdCh lock (cmd_of cmdCh) (Flock (type_of lock) (whence_of whence) st len 0)
            | _, _, _, _ => Invalid
            end
   end).

(** * The program *)

Class LockProg (S : Type) := {
  sys_open_rdwr : bytes -> M S (sysres Z);
  sys_fstat_mode : Z -> M S (sysres Z);
  sys_fgets : nat -> M S (option bytes)
}.

Section program.
Context {S : Type} `{HasLibc S} `{FcntlOS S} `{LockProg S}.
Context (strerror : Z -> bytes) (getpid : Z).

Definition pad (n : nat) (s : bytes) : bytes := s ++ replicate (n - length s) " "%char.
Definition lpad (n : nat) (s : bytes) : bytes := replicate (n - length s) " "%char ++ s.

(** Source: book-src/filelock/i_fcntl_locking.c:49-64 (mandLockingEnabled). *)
Definition mandLockingEnabled (fd : Z) : M S bool :=
  mode ← echecked strerror (sys_fstat_mode fd) (str "stat");
  mret (has_bits mode S_ISGID && negb (has_bits mode S_IXGRP)).

(** The files and their descriptors: argv[1], ... and fdList[1], ... *)
Definition kind (fd : Z) : M S bytes := b ← mandLockingEnabled fd; mret (if (b : bool) then str "mandatory" else str "advisory").
Definition numbered (fds : list (bytes * Z)) : list (nat * (bytes * Z)) := zip (seq 1 (length fds)) fds.

(** Source: book-src/filelock/i_fcntl_locking.c:66-93 (displayCmdFmt). *)
Definition displayCmdFmt (fds : list (bytes * Z)) : M S unit :=
  match fds with
  | [_] => printf (newline :: str "Format: cmd lock start length [whence]" ++ [newline; newline])
  | _ =>
      printf (newline :: str "Format: " ++ (if bool_decide (fds = []) then [] else str "file-num ") ++
              str "cmd lock start length [whence]" ++ [newline; newline]);;
      printf (str "    file-num is a number from the following list" ++ [newline]);;
      for_each (numbered fds) (fun '(j, (name, fd)) =>
        k ← kind fd;
        printf (str "        " ++ lpad 2 (print_dec (Z.of_nat j)) ++ str "  " ++ pad 10 name ++ str " [" ++ k ++ str " locking]" ++ [newline]))
  end;;
  printf (str "    'cmd' is 'g' (GETLK), 's' (SETLK), or 'w' (SETLKW)" ++ [newline]);;
  printf (str "        or for OFD locks: 'G' (OFD_GETLK), 'S' (OFD_SETLK), or 'W' (OFD_SETLKW)" ++ [newline]);;
  printf (str "    'lock' is 'r' (READ), 'w' (WRITE), or 'u' (UNLOCK)" ++ [newline]);;
  printf (str "    'start' and 'length' specify byte range to lock" ++ [newline]);;
  printf (str "    'whence' is 's' (SEEK_SET, default), 'c' (SEEK_CUR), or 'e' (SEEK_END)" ++ [newline; newline]).

Definition mine : bytes := str "[PID=" ++ print_dec getpid ++ str "] ".
(** What is said of the result. *)
(** Source: book-src/filelock/i_fcntl_locking.c:187-217 (main, performing the request). *)
Definition perform (fd : Z) (lock : ascii) (cmd : Z) (fl : flock) : M S unit :=
  status ← call (sys_fcntl_lock fd cmd fl);
  if (cmd =? F_GETLK) || (cmd =? F_OFD_GETLK) then
    match status with
    | None => errMsg strerror (str "fcntl")
    | Some fl =>
        if l_type fl =? F_UNLCK then printf (mine ++ str "Lock can be placed" ++ [newline])
        else printf (mine ++ str "Denied by " ++ (if l_type fl =? F_RDLCK then str "READ" else str "WRITE") ++ str " lock on " ++
                     print_dec (l_start fl) ++ str ":" ++ print_dec (l_len fl) ++ str " (held by PID " ++ print_dec (l_pid fl) ++ str ")" ++ [newline])
    end
  else
    match status with
    | Some _ => printf (mine ++ (if ceq lock "u" then str "unlocked" else str "got lock") ++ [newline])
    | None =>
        e ← get_errno;
        if (e =? EAGAIN) || (e =? EACCES) then printf (mine ++ str "failed (incompatible lock)" ++ [newline])
        else if e =? EDEADLK then printf (mine ++ str "failed (deadlock)" ++ [newline])
        else errMsg strerror (str "fcntl")
    end.

(** Source: book-src/filelock/i_fcntl_locking.c:131-132 (main, prompt). *)
Definition prompt : M S unit := printf (str "PID=" ++ print_dec getpid ++ str "> ");; fflush_stdout.
(** One round of the loop; a line that starts with a null byte is undefined. *)
(** Source: book-src/filelock/i_fcntl_locking.c:130-172 (main, loop). *)
Definition lock_round (fds : list (bytes * Z)) (old : option Z) : M S (option Z + unit) :=
  prompt;;
  line ← sys_fgets MAX_LINE;
  match line with
  | None => c_exit EXIT_SUCCESS
  | Some [] => undefined
  | Some l =>
      let l := take (strlen l - 1) l in
      match l with
      | [] => mret (inl old)
      | c :: _ =>
          if ceq c "?" then displayCmdFmt fds;; mret (inl old)
          else
            let argc := Z.of_nat (1 + length fds) in
            let '(fileNum, req) := parse_line argc old l in
            match req with
            | Unset => undefined
            | BadFile => printf (str "File number must be in range 1 to " ++ print_dec (argc - 1) ++ [newline]);; mret (inl fileNum)
            | Invalid => printf (str "Invalid command!" ++ [newline]);; mret (inl fileNum)
            | Request _ lock cmd fl =>
                k ← deref fileNum;
                '(_, fd) ← deref (fds !! Z.to_nat (k - 1));
                perform fd lock cmd fl;;
                mret (inl fileNum)
            end
      end
  end.

Fixpoint open_all (names : list bytes) : M S (list (bytes * Z)) :=
  match names with
  | [] => mret []
  | n :: names' =>
      fd ← echecked strerror (sys_open_rdwr n) (str "open (" ++ n ++ str ")");
      rest ← open_all names';
      mret ((n, fd) :: rest)
  end.

(** [alloc]: whether calloc() succeeds. *)
(** Source: book-src/filelock/i_fcntl_locking.c:95-128 (main, before the loop). *)
Definition i_fcntl_main (alloc : bool) (fuel : nat) (argv0 : bytes) (names : list bytes) : M S unit :=
  match names with
  | [] => usageErr (argv0 ++ str " file..." ++ [newline])
  | n :: _ =>
      if streq n (str "--help") then usageErr (argv0 ++ str " file..." ++ [newline])
      else if negb alloc then errExit strerror (str "calloc")
      else
        fds ← open_all names;
        printf (str "File       Locking" ++ [newline]);;
        printf (str "----       -------" ++ [newline]);;
        for_each fds (fun '(name, fd) => k ← kind fd; printf (pad 10 name ++ str " " ++ k ++ [newline]));;
        printf [newline];;
        printf (str "Enter ? for help" ++ [newline]);;
        iter fuel (lock_round fds) None
  end.
End program.

(** * A command is carried out as it was typed *)

Definition request_text (file : option Z) (cmdCh lock : ascii) (st len : Z) (whence : option ascii) : bytes :=
  (if file is Some k then print_dec k ++ str " " else []) ++ [cmdCh] ++ str " " ++ [lock] ++ str " " ++ print_dec st ++ str " " ++
  print_dec len ++ (if whence is Some w then str " " ++ [w] else []).

Lemma print_dec_nonempty z rest : print_dec z ++ rest <> rest.
Proof.
  intros H. apply (f_equal length) in H. rewrite length_app in H. unfold print_dec in H. destruct (z <? 0) eqn:Hz; [cbn in H; lia|].
  destruct (print_nonneg_head z ltac:(lia)) as (c & l & Hc & _). rewrite Hc in H. cbn in H. lia.
Qed.
Lemma strtol_space s : sl_endptr (strtol s 10) <> s -> strtol (" "%char :: s) 10 = strtol s 10.
Proof.
  unfold strtol. change (skip_space (" "%char :: s)) with (skip_space s). destruct (scan_sign _) as [neg s1]. destruct (scan_base _ _) as [b s2].
  destruct (scan_digits _ _ _ _) as [[v []] rest]; [done|]. cbn. done.
Qed.
Definition long_ok (z : Z) : Prop := LONG_MIN <= z <= LONG_MAX.
Lemma scan_lld_print z rest : long_ok z -> stops_number rest -> scan_lld (print_dec z ++ rest) = Some (z, rest).
Proof.
  intros Hz Hr. unfold scan_lld. rewrite strtol_print by done. cbn. rewrite bool_decide_eq_false_2; [done|]. intros H. by apply (print_dec_nonempty z rest).
Qed.
Lemma scan_lld_space z rest : long_ok z -> stops_number rest -> scan_lld (str " " ++ print_dec z ++ rest) = Some (z, rest).
Proof.
  intros Hz Hr. unfold scan_lld. change (str " " ++ print_dec z ++ rest) with (" "%char :: (print_dec z ++ rest)).
  rewrite strtol_space; rewrite strtol_print by done; cbn.
  - rewrite bool_decide_eq_false_2; [done|]. intros H. apply (f_equal length) in H. cbn in H. rewrite length_app in H. lia.
  - intros H. by apply (print_dec_nonempty z rest).
Qed.
Lemma scan_c_char c rest : isspace c = false -> scan_c (c :: rest) = Some (c, rest).
Proof. intros Hc. unfold scan_c. cbn. by rewrite Hc. Qed.
Lemma scan_c_space c rest : isspace c = false -> scan_c (" "%char :: c :: rest) = Some (c, rest).
Proof. intros Hc. unfold scan_c. cbn. by rewrite Hc. Qed.

Lemma sscanf_request cmdCh lock st len whence : isspace cmdCh = false -> isspace lock = false -> long_ok st -> long_ok len ->
  (if whence is Some w then isspace w = false else True) ->
  let sc := Scanned (if whence is Some _ then 5 else 4) (Some cmdCh) (Some lock) (Some st) (Some len) whence in
  sscanf_lock (request_text None cmdCh lock st len whence) = sc /\
  sscanf_lock (str " " ++ request_text None cmdCh lock st len whence) = sc.
Proof.
  intros Hc Hl Hst Hlen Hw sc. unfold request_text. rewrite app_nil_l.
  set (tail := if whence is Some w then str " " ++ [w] else []). assert (Htail : stops_number tail) by (by destruct whence).
  assert (Hrest : forall s2, s2 = str " " ++ print_dec st ++ str " " ++ print_dec len ++ tail ->
    match scan_lld s2 with
    | None => Scanned 2 (Some cmdCh) (Some lock) None None None
    | Some (st, s3) =>
        match scan_lld s3 with
        | None => Scanned 3 (Some cmdCh) (Some lock) (Some st) None None
        | Some (len, s4) =>
            match scan_c s4 with
            | None => Scanned 4 (Some cmdCh) (Some lock) (Some st) (Some len) None
            | Some (w, _) => Scanned 5 (Some cmdCh) (Some lock) (Some st) (Some len) (Some w)
            end
        end
    end = sc).
  { intros s2 ->. rewrite scan_lld_space, scan_lld_space by done. unfold tail. destruct whence as [w|]; [|done].
    change (str " " ++ [w]) with [" "%char; w]. by rewrite scan_c_space. }
  split; unfold sscanf_lock; cbn [app String.list_ascii_of_string].
  - rewrite (scan_c_char cmdCh), (scan_c_space lock) by done. by apply Hrest.
  - rewrite (scan_c_space cmdCh), (scan_c_space lock) by done. by apply Hrest.
Qed.


Definition cmd_ok (c : ascii) : Prop := c ∈ str "gswGSW".
Definition lock_ok (c : ascii) : Prop := c ∈ str "rwu".
Definition wh_ok (c : ascii) : Prop := c ∈ str "sce".
(** One case for each letter. *)
Ltac letters H := unfold cmd_ok, lock_ok, wh_ok in H; cbn in H; repeat (apply elem_of_cons in H as [->|H]); [..|by apply elem_of_nil in H].
Lemma cmd_letter c : cmd_ok c -> isspace c = false /\ one_of (str "gswGSW") c = true /\ ceq c "?" = false.
Proof. intros H. letters H; by vm_compute. Qed.
Lemma lock_letter c : lock_ok c -> isspace c = false /\ one_of (str "rwu") c = true.
Proof. intros H. letters H; by vm_compute. Qed.
Lemma whence_letter c : wh_ok c -> isspace c = false /\ one_of (str "sce") c = true.
Proof. intros H. letters H; by vm_compute. Qed.

(** The file number is left out when there is one file, and given when there are more. *)
Definition names_file (fds : list (bytes * Z)) (file : option Z) (x : bytes * Z) : Prop :=
  match file with
  | None => fds = [x]
  | Some k => (2 <= length fds)%nat /\ Z.of_nat (length fds) < INT_MAX /\ 1 <= k /\ fds !! Z.to_nat (k - 1) = Some x
  end.
Definition typed (cmdCh lock : ascii) (st len : Z) (whence : option ascii) : Prop :=
  cmd_ok cmdCh /\ lock_ok lock /\ long_ok st /\ long_ok len /\ (if whence is Some w then wh_ok w else True).
Definition typed_flock (lock : ascii) (st len : Z) (whence : option ascii) : flock :=
  Flock (type_of lock) (whence_of (default "s"%char whence)) st len 0.

#[local] Arguments one_of : simpl never.
Lemma parse_typed fds old file x cmdCh lock st len whence : names_file fds file x -> typed cmdCh lock st len whence ->
  parse_line (Z.of_nat (1 + length fds)) old (request_text file cmdCh lock st len whence) =
  (Some (default 1 file), Request cmdCh lock (cmd_of cmdCh) (typed_flock lock st len whence)).
Proof.
  intros Hf (Hc & Hl & Hst & Hlen & Hw). destruct (cmd_letter _ Hc) as (Hc1 & Hc2 & _), (lock_letter _ Hl) as (Hl1 & Hl2).
  assert (Hw' : (if whence is Some w then isspace w = false else True) /\ one_of (str "sce") (default "s"%char whence) = true).
  { destruct whence as [w|]; [by apply whence_letter|by vm_compute]. }
  destruct Hw' as [Hw1 Hw2]. destruct (sscanf_request cmdCh lock st len whence Hc1 Hl1 Hst Hlen Hw1) as [Hs1 Hs2].
  unfold parse_line. destruct file as [k|]; cbn in Hf.
  - destruct Hf as (H2 & Hmax & Hk & Hx). pose proof (lookup_lt_Some _ _ _ Hx).
    assert (H2' : (2 <? Z.of_nat (1 + length fds)) = true) by (apply Z.ltb_lt; lia).
    rewrite (proj2 (Z.eqb_neq _ _)) by lia. unfold scan_d, request_text at 1. rewrite <- !app_assoc.
    change (print_dec k ++ str " " ++ [cmdCh] ++ str " " ++ [lock] ++ str " " ++ print_dec st ++ str " " ++ print_dec len ++
      (if whence is Some w then str " " ++ [w] else [])) with (print_dec k ++ str " " ++ request_text None cmdCh lock st len whence).
    rewrite scan_lld_print by (unfold long_ok, LONG_MIN, LONG_MAX, INT_MAX in *; done || lia). cbn [mbind option_bind].
    rewrite Hs2. cbn [sc_n sc_cmd sc_lock sc_st sc_len sc_whence]. rewrite i32_id by (unfold INT_MIN, INT_MAX in *; lia).
    rewrite (proj2 (Z.ltb_ge _ _)) by lia. rewrite (proj2 (Z.leb_gt _ _)) by lia. cbn [orb].
    rewrite Hc2, Hl2, Hw2, H2'. by destruct whence.
  - subst fds. cbn [length]. change (Z.of_nat (1 + 1) =? 2) with true. cbn [negb]. rewrite Hs1. cbn [sc_n sc_cmd sc_lock sc_st sc_len sc_whence]. rewrite Hc2, Hl2, Hw2. by destruct whence.
Qed.

(** What the letters stand for. *)
Definition commands : list (ascii * Z) :=
  [("g"%char, F_GETLK); ("s"%char, F_SETLK); ("w"%char, F_SETLKW); ("G"%char, F_OFD_GETLK); ("S"%char, F_OFD_SETLK); ("W"%char, F_OFD_SETLKW)].
Definition lock_types : list (ascii * Z) := [("r"%char, F_RDLCK); ("w"%char, F_WRLCK); ("u"%char, F_UNLCK)].
Definition bases : list (option ascii * Z) :=
  [(None, SEEK_SET); (Some "s"%char, SEEK_SET); (Some "c"%char, SEEK_CUR); (Some "e"%char, SEEK_END)].
Lemma command_letter c v : (c, v) ∈ commands -> cmd_ok c /\ cmd_of c = v.
Proof. unfold commands. intros Hi. repeat (apply elem_of_cons in Hi as [[= -> ->]|Hi]); [..|by apply elem_of_nil in Hi]; (split; [unfold cmd_ok; cbn; set_solver|done]). Qed.
Lemma type_letter c v : (c, v) ∈ lock_types -> lock_ok c /\ type_of c = v.
Proof. unfold lock_types. intros Hi. repeat (apply elem_of_cons in Hi as [[= -> ->]|Hi]); [..|by apply elem_of_nil in Hi]; (split; [unfold lock_ok; cbn; set_solver|done]). Qed.
Lemma base_letter w v : (w, v) ∈ bases -> (if w is Some c then wh_ok c else True) /\ whence_of (default "s"%char w) = v.
Proof. unfold bases. intros Hi. repeat (apply elem_of_cons in Hi as [[= -> ->]|Hi]); [..|by apply elem_of_nil in Hi]; (split; [unfold wh_ok; cbn; try set_solver; done|done]). Qed.

(** A command is carried out as it was typed. With one file open, or with more and a
    file number in front: for every letter of a command, a lock and (perhaps) a base, and
    all numbers in the range of a long, the line that spells them makes the program call
    fcntl() once, on the descriptor of that file, with the command, the type, the base and
    the range that the letters and numbers stand for, and report its outcome; then it goes
    on with the next line. *)
Theorem typed_command_performed {S} `{HL : HasLibc S} `{HF : !FcntlOS S} `{HP : !LockProg S} strerror getpid fds old file name fd
    cmdCh cmd lock type st len whence base s s2 :
  names_file fds file (name, fd) -> long_ok st -> long_ok len ->
  (cmdCh, cmd) ∈ commands -> (lock, type) ∈ lock_types -> (whence, base) ∈ bases ->
  sys_fgets MAX_LINE (prompt getpid s).2 =
    (Done (Some (request_text file cmdCh lock st len whence ++ [newline])), s2) ->
  lock_round strerror getpid fds old s =
  (perform strerror getpid fd lock cmd (Flock type base st len 0);; mret (inl (Some (default 1 file)))) s2.
Proof.
  intros Hf Hst Hlen Hcmd Htype Hbase Hg.
  destruct (command_letter _ _ Hcmd) as [Hc1 <-], (type_letter _ _ Htype) as [Hl1 <-], (base_letter _ _ Hbase) as [Hb1 <-].
  assert (Ht : typed cmdCh lock st len whence) by done. change (Flock _ _ st len 0) with (typed_flock lock st len whence). set (txt := request_text file cmdCh lock st len whence) in *.
  assert (Htake : take (strlen (txt ++ [newline]) - 1) (txt ++ [newline]) = txt).
  { unfold strlen. rewrite length_app. cbn. by rewrite Nat.add_sub, take_app_length. }
  assert (Hhead : exists c l, txt = c :: l /\ ceq c "?" = false).
  { unfold txt, request_text. destruct file as [k|]; [|exists cmdCh; eexists; split; [done|by apply cmd_letter; destruct Ht]].
    unfold print_dec. destruct Hf as (_ & _ & Hk & _). rewrite (proj2 (Z.ltb_ge _ _)) by lia.
    destruct (print_nonneg_head k ltac:(lia)) as (c & l & -> & Hd). exists c. eexists. split; [done|].
    unfold ceq. apply bool_decide_eq_false_2. by intros ->. }
  destruct Hhead as (c & l & Hcl & Hq). pose proof (parse_typed fds old file (name, fd) cmdCh lock st len whence Hf Ht) as Hparse. fold txt in Hparse.
  assert (Hfd : fds !! Z.to_nat (default 1 file - 1) = Some (name, fd)).
  { destruct file as [k|]; cbn in *; [by destruct Hf as (_ & _ & _ & ?)|by subst fds]. }
  unfold lock_round. rewrite (bind_done _ _ s tt (prompt getpid s).2) by done. rewrite (bind_done _ _ _ _ _ Hg).
  destruct (txt ++ [newline]) as [|c' l'] eqn:Happ; [by destruct txt|]. rewrite Htake, Hcl, Hq, <- Hcl, Hparse.
  cbn [deref]. unfold deref. rewrite mret_bind, Hfd, mret_bind. done.
Qed.

(** ** A run on the locks of RecordLocks *)

#[local] Instance toy_prog : LockProg (libc * lockenv) := {|
  sys_open_rdwr _ := mret (SOk 3);
  sys_fstat_mode _ := mret (SOk 420);
  sys_fgets _ := mret (Some (str "2 g w 5 -3 e" ++ [newline]))
|}.
Lemma typed_command_performed_witness :
  lock_round (fun _ => []) 12 [(str "a", 3); (str "b", 4)] None (libc0, toy_locks) =
  (perform (fun _ => []) 12 4 "w"%char F_GETLK (Flock F_WRLCK SEEK_END 5 (-3) 0);; mret (inl (Some 2)))
    (prompt 12 (libc0, toy_locks)).2.
Proof.
  apply (typed_command_performed (fun _ => []) 12 [(str "a", 3); (str "b", 4)] None (Some 2) (str "b") 4 "g" F_GETLK "w" F_WRLCK 5 (-3)
    (Some "e"%char) SEEK_END (libc0, toy_locks)).
  - cbn. unfold INT_MAX. split_and!; (lia || done).
  - unfold long_ok, LONG_MIN, LONG_MAX. lia.
  - unfold long_ok, LONG_MIN, LONG_MAX. lia.
  - unfold commands. set_solver.
  - unfold lock_types. set_solver.
  - unfold bases. set_solver.
  - reflexivity.
Defined.
