(* ===== verification/InetSockets.v ===== *)
(** Sockets of the Internet domains: book-src/sockets/inet_sockets.c, the functions that
    connect or bind a socket to the first address that will do. *)
From S2P Require Import Prelude CLib Sys Calls.
#[local] Open Scope Z_scope.

Definition AF_UNSPEC : Z := 0.
Definition SOCK_STREAM : Z := 1.
Definition AI_PASSIVE : Z := 1.
Definition AI_NUMERICSERV : Z := 1024.
Definition ENOSYS : Z := 38.

(** struct addrinfo, as the hints of getaddrinfo() and as an element of its result. *)
Record hints := Hints { h_flags : Z; h_family : Z; h_socktype : Z }.
Record addrinfo := AddrInfo { ai_family : Z; ai_socktype : Z; ai_protocol : Z; ai_addr : bytes; ai_addrlen : Z }.

(** The calls. getaddrinfo() gives a list that is to be freed, or fails with an error of
    its own; getnameinfo() the names of host and service. *)
Class InetOS (S : Type) := {
  sys_getaddrinfo : option bytes -> bytes -> hints -> M S (option (list addrinfo));
  sys_freeaddrinfo : M S unit;
  sys_socket : addrinfo -> M S (sysres Z);
  sys_connect : Z -> addrinfo -> M S (sysres unit);
  sys_bind : Z -> addrinfo -> M S (sysres unit);
  sys_reuseaddr : Z -> M S (sysres unit);
  sys_listen : Z -> Z -> M S (sysres unit);
  sys_close : Z -> M S (sysres unit);
  sys_getnameinfo : bytes -> M S (option (bytes * bytes))
}.

Section functions.
Context {S : Type} `{HasLibc S} `{InetOS S}.

(** The descriptor of a socket connected to one of the addresses; [None] if there is none. *)
(** Source: book-src/sockets/inet_sockets.c:62-73 (inetConnect, loop). *)
Fixpoint connect_walk (result : list addrinfo) : M S (option Z) :=
  match result with
  | [] => mret None
  | rp :: rest =>
      sfd ← call (sys_socket rp);
      match sfd with
      | None => connect_walk rest
      | Some sfd =>
          r ← call (sys_connect sfd rp);
          match r with
          | Some _ => mret (Some sfd)
          | None => call (sys_close sfd);; connect_walk rest
          end
      end
  end.

(** Source: book-src/sockets/inet_sockets.c:39-78 (inetConnect). *)
Definition inetConnect (host : option bytes) (service : bytes) (type : Z) : M S (option Z) :=
  s ← sys_getaddrinfo host service (Hints 0 AF_UNSPEC type);
  match s with
  | None => set_errno ENOSYS;; mret None
  | Some result =>
      sfd ← connect_walk result;
      sys_freeaddrinfo;;
      mret sfd
  end.

(** The end of the loop of inetPassiveSocket(). *)
Inductive walked := Bound (sfd : Z) (rp : addrinfo) | NoAddress | OptFailed.
(** Source: book-src/sockets/inet_sockets.c:112-132 (inetPassiveSocket, loop). *)
Fixpoint bind_walk (doListen : bool) (result : list addrinfo) : M S walked :=
  match result with
  | [] => mret NoAddress
  | rp :: rest =>
      sfd ← call (sys_socket rp);
      match sfd with
      | None => bind_walk doListen rest
      | Some sfd =>
          o ← (if doListen then call (sys_reuseaddr sfd) else mret (Some tt));
          match o with
          | None => call (sys_close sfd);; sys_freeaddrinfo;; mret OptFailed
          | Some _ =>
              r ← call (sys_bind sfd rp);
              match r with
              | Some _ => mret (Bound sfd rp)
              | None => call (sys_close sfd);; bind_walk doListen rest
              end
          end
      end
  end.

(** The descriptor, and what is stored through [addrlen]. *)
(** Source: book-src/sockets/inet_sockets.c:88-147 (inetPassiveSocket). *)
Definition inetPassiveSocket (service : bytes) (type : Z) (doListen : bool) (backlog : Z) : M S (option (Z * Z)) :=
  s ← sys_getaddrinfo None service (Hints AI_PASSIVE AF_UNSPEC type);
  match s with
  | None => mret None
  | Some result =>
      w ← bind_walk doListen result;
      match w with
      | OptFailed => mret None
      | NoAddress => sys_freeaddrinfo;; mret None
      | Bound sfd rp =>
          l ← (if doListen then call (sys_listen sfd backlog) else mret (Some tt));
          match l with
          | None => sys_freeaddrinfo;; mret None
          | Some _ => sys_freeaddrinfo;; mret (Some (sfd, ai_addrlen rp))
          end
      end
  end.

(** Source: book-src/sockets/inet_sockets.c:153-157 (inetListen). *)
Definition inetListen (service : bytes) (backlog : Z) : M S (option (Z * Z)) := inetPassiveSocket service SOCK_STREAM true backlog.
(** Source: book-src/sockets/inet_sockets.c:162-166 (inetBind). *)
Definition inetBind (service : bytes) (type : Z) : M S (option (Z * Z)) := inetPassiveSocket service type false 0.

(** Source: book-src/sockets/inet_sockets.c:175-188 (inetAddressStr). *)
Definition inetAddressStr (addr : bytes) (addrStrLen : nat) : M S bytes :=
  n ← sys_getnameinfo addr;
  mret (snprintf addrStrLen match n with
                            | Some (host, service) => str "(" ++ host ++ str ", " ++ service ++ str ")"
                            | None => str "(?UNKNOWN?)"
                            end).
End functions.

(** * What is proved of them *)

(** The sockets of the process: its descriptors, the address of a socket, whether it
    listens; and how many results of getaddrinfo() have not been freed. *)
Record socks := Socks { open_fds : gset Z; address : Z -> option addrinfo; listening : Z -> bool; lists : Z }.
(** The views that matter to a caller, apart from descriptor [fd]. *)
Definition same_socks (v w : socks) : Prop :=
  open_fds w = open_fds v /\ lists w = lists v /\ forall k, k ∈ open_fds v -> address w k = address v k /\ listening w k = listening v k.
Definition opened (fd : Z) (v w : socks) : Prop :=
  fd ∉ open_fds v /\ open_fds w = {[ fd ]} ∪ open_fds v /\ lists w = lists v /\
  forall k, k ∈ open_fds v -> address w k = address v k /\ listening w k = listening v k.
(** A call on [fd] that leaves the rest as it was. *)
Definition touched (fd : Z) (v w : socks) : Prop :=
  open_fds w = open_fds v /\ lists w = lists v /\ forall k, k <> fd -> address w k = address v k /\ listening w k = listening v k.

(** The calls, as relations of the sockets before, the result, and the sockets after. *)
Definition is_socket (v : socks) (r : sysres Z) (w : socks) : Prop :=
  match r with SOk fd => opened fd v w /\ listening w fd = false | SErr _ => w = v end.
Definition is_connected (fd : Z) (rp : addrinfo) (v : socks) (r : sysres unit) (w : socks) : Prop :=
  touched fd v w /\ match r with SOk _ => address w fd = Some rp | SErr _ => True end.
Definition is_bound (fd : Z) (rp : addrinfo) (v : socks) (r : sysres unit) (w : socks) : Prop :=
  touched fd v w /\ listening w fd = listening v fd /\ match r with SOk _ => address w fd = Some rp | SErr _ => True end.
Definition is_listening (fd : Z) (v : socks) (r : sysres unit) (w : socks) : Prop :=
  touched fd v w /\ address w fd = address v fd /\
  listening w fd = match r with SOk _ => true | SErr _ => listening v fd end.
Definition is_closed (fd : Z) (v : socks) (r : sysres unit) (w : socks) : Prop :=
  open_fds w = open_fds v ∖ {[ fd ]} /\ lists w = lists v /\
  forall k, k <> fd -> address w k = address v k /\ listening w k = listening v k.
(** [n] more results of getaddrinfo(). *)
Definition more_lists (n : Z) (v : socks) : socks := Socks (open_fds v) (address v) (listening v) (lists v + n).

Class InetSpec (S : Type) `{HasLibc S} `{InetOS S} := {
  view : S -> socks;
  resolved : option bytes -> bytes -> hints -> list addrinfo;
  view_libc : forall l s, view (set_libc l s) = view s;
  getaddrinfo_spec : forall h sv hi s, post (fun r s' => match r with
    | Some l => l = resolved h sv hi /\ view s' = more_lists 1 (view s)
    | None => view s' = view s end) (fun _ _ => False) (sys_getaddrinfo h sv hi s);
  freeaddrinfo_spec : forall s, post (fun _ s' => view s' = more_lists (- 1) (view s)) (fun _ _ => False) (sys_freeaddrinfo s);
  socket_spec : forall rp s, post (fun r s' => is_socket (view s) r (view s')) (fun _ _ => False) (sys_socket rp s);
  connect_spec : forall fd rp s, post (fun r s' => is_connected fd rp (view s) r (view s')) (fun _ _ => False) (sys_connect fd rp s);
  bind_spec : forall fd rp s, post (fun r s' => is_bound fd rp (view s) r (view s')) (fun _ _ => False) (sys_bind fd rp s);
  reuseaddr_spec : forall fd s, post (fun _ s' => view s' = view s) (fun _ _ => False) (sys_reuseaddr fd s);
  listen_spec : forall fd n s, post (fun r s' => is_listening fd (view s) r (view s')) (fun _ _ => False) (sys_listen fd n s);
  close_spec : forall fd s, post (fun r s' => is_closed fd (view s) r (view s')) (fun _ _ => False) (sys_close fd s)
}.

Section proofs.
Context {S : Type} `{HL : HasLibc S} `{HO : InetOS S} `{HS : !InetSpec S}.

(** A call whose effect is told by the view alone. *)
Lemma view_call {A} (m : M S (sysres A)) s (R : sysres A -> socks -> Prop) :
  post (fun r s' => R r (view s')) (fun _ _ => False) (m s) ->
  post (fun o s' => match o with Some a => R (SOk a) (view s') | None => exists e, R (SErr e) (view s') end)
    (fun _ _ => False) (call m s).
Proof.
  intros Hm. eapply post_mono; [| |exact (call_post view view_libc m s (fun r s' => R r (view s')) _ Hm)]; [|done].
  intros [a|] s1 (s2 & -> & Hr); [by destruct Hr as [Hr _]|]. destruct Hr as (e & Hr & _). by exists e.
Qed.

Lemma same_refl v : same_socks v v.
Proof. unfold same_socks. by split_and!. Qed.
Lemma same_trans u v w : same_socks u v -> same_socks v w -> same_socks u w.
Proof.
  intros (Ho & Hl & Hk) (Ho' & Hl' & Hk'). unfold same_socks. split_and!; [congruence..|]. intros k Hi.
  destruct (Hk k Hi) as [<- <-]. apply Hk'. by rewrite Ho.
Qed.
Lemma same_opened fd u v w : same_socks u v -> opened fd v w -> opened fd u w.
Proof.
  intros (Ho & Hl & Hk) (Hn & Ho' & Hl' & Hk'). unfold opened. split_and!; [by rewrite <- Ho|congruence..|]. intros k Hi.
  destruct (Hk k Hi) as [<- <-]. apply Hk'. by rewrite Ho.
Qed.
Lemma opened_touched fd u v w : opened fd u v -> touched fd v w -> opened fd u w.
Proof.
  intros (Hn & Ho & Hl & Hk) (Ho' & Hl' & Hk'). unfold opened. split_and!; [done|congruence..|]. intros k Hi.
  destruct (Hk k Hi) as [<- <-]. apply Hk'. by intros ->.
Qed.
(** A descriptor that is opened and closed again leaves no trace. *)
Lemma opened_closed fd u v r w : opened fd u v -> is_closed fd v r w -> same_socks u w.
Proof.
  intros (Hn & Ho & Hl & Hk) (Ho' & Hl' & Hk'). unfold same_socks. split_and!; [|congruence|].
  - rewrite Ho', Ho. by apply union_singleton_minus.
  - intros k Hi. destruct (Hk k Hi) as [<- <-]. apply Hk'. by intros ->.
Qed.
Lemma close_back fd u s : opened fd u (view s) ->
  post (fun _ s' => same_socks u (view s')) (fun _ _ => False) (call (sys_close fd) s).
Proof.
  intros Hop. eapply post_mono; [| |exact (view_call _ _ (is_closed fd (view s)) (close_spec fd s))]; [|done].
  intros [[]|] s' Hc; [|destruct Hc as [e Hc]]; by eapply opened_closed.
Qed.

(** The list of getaddrinfo() is taken and given back. *)
Lemma same_lists n v w : same_socks (more_lists n v) w -> same_socks v (more_lists (- n) w).
Proof. intros (Ho & Hl & Hk). unfold same_socks in *. simpl in *. split_and!; [done|lia|done]. Qed.
Lemma opened_lists fd n v w : opened fd (more_lists n v) w -> opened fd v (more_lists (- n) w).
Proof. intros (Hn & Ho & Hl & Hk). unfold opened in *. simpl in *. split_and!; [done|done|lia|done]. Qed.

(** A descriptor with one of the addresses, or nothing. *)
Definition reached (addrs : list addrinfo) (v : socks) (r : option Z) (w : socks) : Prop :=
  match r with
  | Some fd => opened fd v w /\ exists rp, rp ∈ addrs /\ address w fd = Some rp
  | None => same_socks v w
  end.
Lemma reached_lists n l v r w : reached l (more_lists n v) r w -> reached l v r (more_lists (- n) w).
Proof.
  destruct r as [fd|]; simpl; [|apply same_lists]. intros [Hop Ha]. split; [by apply opened_lists|done].
Qed.
Lemma reached_later rp l u v r w : same_socks u v -> reached l v r w -> reached (rp :: l) u r w.
Proof.
  intros Hs. destruct r as [fd|]; simpl; [|by apply same_trans]. intros (Hop & rp' & Hi & Ha). split; [by eapply same_opened|].
  exists rp'. split; [by right|done].
Qed.

Lemma connect_walk_spec addrs s :
  post (fun r s' => reached addrs (view s) r (view s')) (fun _ _ => False) (connect_walk addrs s).
Proof.
  revert s. induction addrs as [|rp addrs IH]; intros s; simpl; [apply same_refl|].
  apply post_bind. eapply post_mono; [| |exact (view_call _ _ (is_socket (view s)) (socket_spec rp s))]; [|done]. intros [fd|] s1 Hr; simpl.
  2:{ destruct Hr as [e Hr]. simpl in Hr. eapply post_mono; [| |apply IH]; [|done]. intros r s2. rewrite Hr. apply reached_later, same_refl. }
  destruct Hr as (Hop & _).
  apply post_bind. eapply post_mono; [| |exact (view_call _ _ (is_connected fd rp (view s1)) (connect_spec fd rp s1))]; [|done]. intros [[]|] s2 Hr; simpl.
  - destruct Hr as [Ht Ha]. split; [by eapply opened_touched|]. exists rp. split; [left|done].
  - destruct Hr as (e & Ht & _). apply post_bind.
    eapply post_mono; [| |apply close_back; by eapply opened_touched]; [|done]. intros o s3 Hs.
    eapply post_mono; [| |apply IH]; [|done]. intros r s4. by apply reached_later.
Qed.

(** The walk of inetPassiveSocket(): when setsockopt() fails the list is already freed. *)
Definition walk_result (addrs : list addrinfo) (v : socks) (r : walked) (w : socks) : Prop :=
  match r with
  | Bound fd rp => opened fd v w /\ rp ∈ addrs /\ address w fd = Some rp /\ listening w fd = false
  | NoAddress => same_socks v w
  | OptFailed => exists v', same_socks v v' /\ w = more_lists (- 1) v'
  end.
Lemma walk_later rp l u v r w : same_socks u v -> walk_result l v r w -> walk_result (rp :: l) u r w.
Proof.
  intros Hs. destruct r as [fd rp'| |]; simpl; [|by apply same_trans|].
  - intros (Hop & Hi & Ha). split; [by eapply same_opened|]. split; [by right|done].
  - intros (v' & Hs' & ->). exists v'. split; [by eapply same_trans|done].
Qed.

Lemma bind_walk_spec doListen addrs s :
  post (fun r s' => walk_result addrs (view s) r (view s')) (fun _ _ => False) (bind_walk doListen addrs s).
Proof.
  revert s. induction addrs as [|rp addrs IH]; intros s; simpl; [apply same_refl|].
  apply post_bind. eapply post_mono; [| |exact (view_call _ _ (is_socket (view s)) (socket_spec rp s))]; [|done]. intros [fd|] s1 Hr; simpl.
  2:{ destruct Hr as [e Hr]. simpl in Hr. eapply post_mono; [| |apply IH]; [|done]. intros r s2. rewrite Hr. apply walk_later, same_refl. }
  destruct Hr as (Hop & Hnl). apply post_bind.
  assert (Ho : post (fun _ s' => view s' = view s1) (fun _ _ => False)
                 ((if doListen then call (sys_reuseaddr fd) else mret (Some tt)) s1)).
  { destruct doListen; [|done]. eapply post_mono; [| |exact (view_call _ _ (fun _ w => w = view s1) (reuseaddr_spec fd s1))]; [|done].
    intros [?|] s' Hv; [exact Hv|by destruct Hv]. }
  eapply post_mono; [| |exact Ho]; [|done]. intros [[]|] s2 Hv; simpl; rewrite <- Hv in Hop, Hnl.
  - apply post_bind. eapply post_mono; [| |exact (view_call _ _ (is_bound fd rp (view s2)) (bind_spec fd rp s2))]; [|done]. intros [[]|] s3 Hr; simpl.
    + destruct Hr as (Ht & Hl & Ha). split_and!; [by eapply opened_touched|left|done|congruence].
    + destruct Hr as (e & Ht & _). apply post_bind.
      eapply post_mono; [| |apply close_back; by eapply opened_touched]; [|done]. intros o s4 Hs.
      eapply post_mono; [| |apply IH]; [|done]. intros r s5. by apply walk_later.
  - apply post_bind. eapply post_mono; [| |by apply close_back]; [|done]. intros o s3 Hs. apply post_bind.
    eapply post_mono; [| |apply freeaddrinfo_spec]; [|done]. intros [] s4 Hf. simpl. exists (view s3). by split.
Qed.
(** The addresses that inetConnect() and inetPassiveSocket() ask for. *)
Definition active (type : Z) : hints := Hints 0 AF_UNSPEC type.
Definition passive (type : Z) : hints := Hints AI_PASSIVE AF_UNSPEC type.

Lemma inetConnect_spec host service type s :
  post (fun r s' => reached (resolved host service (active type)) (view s) r (view s')) (fun _ _ => False)
    (inetConnect host service type s).
Proof.
  unfold inetConnect. apply post_bind. eapply post_mono; [| |exact (getaddrinfo_spec host service (active type) s)]; [|done].
  intros [l|] s1 Hr; simpl.
  - destruct Hr as [-> Hv]. apply post_bind. eapply post_mono; [| |apply connect_walk_spec]; [|done].
    intros r s2. rewrite Hv. intros Hc. apply post_bind. eapply post_mono; [| |apply freeaddrinfo_spec]; [|done].
    intros [] s3 Hf. simpl. rewrite Hf. by apply reached_lists in Hc.
  - rewrite view_libc, Hr. apply same_refl.
Qed.

(** What inetPassiveSocket() returns. A socket that cannot be made to listen stays open. *)
Definition passive_socket (addrs : list addrinfo) (doListen : bool) (v : socks) (r : option (Z * Z)) (w : socks) : Prop :=
  match r with
  | Some (fd, len) => opened fd v w /\ listening w fd = doListen /\
      exists rp, rp ∈ addrs /\ address w fd = Some rp /\ len = ai_addrlen rp
  | None => same_socks v w \/
      (doListen = true /\ exists fd rp, opened fd v w /\ rp ∈ addrs /\ address w fd = Some rp /\ listening w fd = false)
  end.

Lemma inetPassiveSocket_spec service type doListen backlog s :
  post (fun r s' => passive_socket (resolved None service (passive type)) doListen (view s) r (view s')) (fun _ _ => False)
    (inetPassiveSocket service type doListen backlog s).
Proof.
  unfold inetPassiveSocket. apply post_bind.
  eapply post_mono; [| |exact (getaddrinfo_spec None service (passive type) s)]; [|done].
  intros [l|] s1 Hr; simpl; [|left; rewrite Hr; apply same_refl].
  destruct Hr as [-> Hv]. apply post_bind. eapply post_mono; [| |apply bind_walk_spec]; [|done].
  intros [fd rp| |] s2; rewrite Hv; simpl.
  - intros (Hop & Hi & Ha & Hl).
    assert (Hls : post (fun o s' => opened fd (more_lists 1 (view s)) (view s') /\ address (view s') fd = Some rp /\
                     listening (view s') fd = (doListen && bool_decide (is_Some o))%bool /\ (o = None -> doListen = true)) (fun _ _ => False)
                   ((if doListen then call (sys_listen fd backlog) else mret (Some tt)) s2)).
    { destruct doListen; [|done].
      eapply post_mono; [| |exact (view_call _ _ (is_listening fd (view s2)) (listen_spec fd backlog s2))]; [|done].
      intros [[]|] s' Hr; [|destruct Hr as [e Hr]]; destruct Hr as (Ht & Ha' & Hl');
        (split; [by eapply opened_touched|split; [congruence|split; [rewrite Hl'; done|done]]]). }
    apply post_bind. eapply post_mono; [| |exact Hls]; [|done]. intros [[]|] s3 (Hop3 & Ha3 & Hl3 & Hd); apply post_bind;
      (eapply post_mono; [| |apply freeaddrinfo_spec]; [|done]); intros [] s4 Hf; simpl; rewrite Hf;
      apply (opened_lists fd 1) in Hop3.
    + split; [done|]. split; [by destruct doListen|]. by exists rp.
    + right. specialize (Hd eq_refl). subst. split; [done|]. by exists fd, rp.
  - intros Hs. apply post_bind. eapply post_mono; [| |apply freeaddrinfo_spec]; [|done].
    intros [] s3 Hf. simpl. rewrite Hf. left. exact (same_lists 1 _ _ Hs).
  - intros (v' & Hs & ->). left. exact (same_lists 1 _ _ Hs).
Qed.
(** C10: inetConnect() returns a new descriptor that is connected to one of the addresses of
    the name, or fails and leaves the descriptors of the process as they were; inetBind()
    and inetListen() do the same with an address to bind, return its length, and in the
    second case the socket listens. The other descriptors are untouched, and the list of
    addresses is given back on every path. The one exception: when listen() fails the
    bound socket stays open. *)
Theorem inet_sockets_correct host service type backlog s :
  post (fun r s' => reached (resolved host service (active type)) (view s) r (view s')) (fun _ _ => False)
    (inetConnect host service type s) /\
  post (fun r s' => passive_socket (resolved None service (passive type)) false (view s) r (view s')) (fun _ _ => False)
    (inetBind service type s) /\
  post (fun r s' => passive_socket (resolved None service (passive SOCK_STREAM)) true (view s) r (view s')) (fun _ _ => False)
    (inetListen service backlog s).
Proof. split_and!; [apply inetConnect_spec|apply inetPassiveSocket_spec..]. Qed.
End proofs.

(** * A small system *)

(** Calls on sockets succeed or fail as a list of decisions says; after the list they succeed. *)
Record itoy := IToy { it_socks : socks; it_fail : list bool }.
Definition it_addrs : list addrinfo := [AddrInfo 10 1 6 (str "::1") 28; AddrInfo 2 1 6 (str "127.0.0.1") 16].
Definition it_next (v : socks) : Z := foldr Z.max 2 (elements (open_fds v)) + 1.
Lemma it_next_fresh v : it_next v ∉ open_fds v.
Proof.
  rewrite <- elem_of_elements. intros Hi.
  assert (Hle : forall l x, x ∈ l -> x <= foldr Z.max 2 l) by (induction 1; simpl; lia).
  apply Hle in Hi. unfold it_next in Hi. lia.
Qed.
(** [effect], or an error and nothing else. *)
Definition decided {A} (a : A) (effect : socks -> socks) : M (libc * itoy) (sysres A) := fun '(l, t) =>
  match it_fail t with
  | true :: rest => (Done (SErr EINVAL), (l, IToy (it_socks t) rest))
  | rest => (Done (SOk a), (l, IToy (effect (it_socks t)) (tail rest)))
  end.
Definition upd {A} (k : Z) (a : A) (f : Z -> A) (k' : Z) : A := if k' =? k then a else f k'.
#[local] Instance itoy_os : InetOS (libc * itoy) := {|
  sys_getaddrinfo _ service _ := fun '(l, t) =>
    if streq service (str "none") then (Done None, (l, t))
    else (Done (Some it_addrs), (l, IToy (more_lists 1 (it_socks t)) (it_fail t)));
  sys_freeaddrinfo := fun '(l, t) => (Done tt, (l, IToy (more_lists (- 1) (it_socks t)) (it_fail t)));
  sys_socket _ := fun s => let fd := it_next (it_socks (snd s)) in
    decided fd (fun v => Socks ({[ fd ]} ∪ open_fds v) (upd fd None (address v)) (upd fd false (listening v)) (lists v)) s;
  sys_connect fd rp := decided tt (fun v => Socks (open_fds v) (upd fd (Some rp) (address v)) (listening v) (lists v));
  sys_bind fd rp := decided tt (fun v => Socks (open_fds v) (upd fd (Some rp) (address v)) (listening v) (lists v));
  sys_reuseaddr _ := mret (SOk tt);
  sys_listen fd _ := decided tt (fun v => Socks (open_fds v) (address v) (upd fd true (listening v)) (lists v));
  sys_close fd := fun '(l, t) => let v := it_socks t in
    (Done (SOk tt), (l, IToy (Socks (open_fds v ∖ {[ fd ]}) (address v) (listening v) (lists v)) (it_fail t)));
  sys_getnameinfo a := mret (Some (a, str "7"))
|}.
Lemma upd_eq {A} k (a : A) f : upd k a f k = a.
Proof. unfold upd. by rewrite Z.eqb_refl. Qed.
Lemma upd_ne {A} k k' (a : A) f : k' <> k -> upd k a f k' = f k'.
Proof. intros Hn. unfold upd. by apply Z.eqb_neq in Hn as ->. Qed.
Lemma decided_spec {A} (a : A) effect (R : sysres A -> socks -> Prop) l t :
  R (SOk a) (effect (it_socks t)) -> R (SErr EINVAL) (it_socks t) ->
  post (fun r s' => R r (it_socks (snd s'))) (fun _ _ => False) (decided a effect (l, t)).
Proof. intros Hok Herr. unfold decided. by destruct (it_fail t) as [|[] rest]. Qed.
#[local, refine] Instance itoy_spec : InetSpec (libc * itoy) := {| view s := it_socks (snd s); resolved _ _ _ := it_addrs |}.
Proof.
  - done.
  - intros h sv hi [l t]. simpl. by destruct (streq _ _).
  - by intros [l t].
  - intros rp [l t]. apply (decided_spec _ _ (is_socket (it_socks t))); [|done]. simpl. pose proof (it_next_fresh (it_socks t)) as Hf.
    split; [|by rewrite upd_eq]. split; [done|]. split; [done|]. split; [done|]. simpl. intros k Hk.
    rewrite !upd_ne by congruence. done.
  - intros fd rp [l t]. apply (decided_spec _ _ (is_connected fd rp (it_socks t))); [|done].
    split; [|apply upd_eq]. split; [done|]. split; [done|]. simpl. intros k Hk. by rewrite upd_ne.
  - intros fd rp [l t]. apply (decided_spec _ _ (is_bound fd rp (it_socks t))); [|done].
    split; [|split; [done|apply upd_eq]]. split; [done|]. split; [done|]. simpl. intros k Hk. by rewrite upd_ne.
  - by intros fd [l t].
  - intros fd n [l t]. apply (decided_spec _ _ (is_listening fd (it_socks t))); [|done].
    split; [|split; [done|apply upd_eq]]. split; [done|]. split; [done|]. simpl. intros k Hk. by rewrite upd_ne.
  - by intros fd [l t].
Defined.
Definition it_start (fail : list bool) : libc * itoy := (libc0, IToy (Socks {[ 0; 1; 2 ]} (fun _ => None) (fun _ => false) 0) fail).

(** The first address refuses, the second is connected, by the descriptor that was closed between. *)
Lemma inet_sockets_correct_witness : exists v,
  inetConnect None (str "7") SOCK_STREAM (it_start [false; true]) = (Done (Some 3), (Libc EINVAL [] [] [], IToy v [])) /\
  reached it_addrs (view (it_start [false; true])) (Some 3) v /\
  address v 3 = Some (AddrInfo 2 1 6 (str "127.0.0.1") 16) /\ lists v = 0.
Proof.
  eexists. split; [reflexivity|].
  split; [exact (proj1 (inet_sockets_correct None (str "7") SOCK_STREAM 5 (it_start [false; true])))|by vm_compute].
Defined.

(** When listen() fails, inetListen() returns -1 but leaves the socket open and bound. *)
Lemma inetListen_leaks : exists v, inetListen (str "7") 5 (it_start [false; false; true]) =
  (Done None, (Libc EINVAL [] [] [], IToy v [])) /\ 3 ∈ open_fds v /\ address v 3 = Some (AddrInfo 10 1 6 (str "::1") 28).
Proof. eexists. split; [reflexivity|]. split; [|done]. apply (bool_decide_unpack _). by vm_compute. Qed.
