(* ===== verification/Children.v ===== *)
(** The children of a process as the kernel keeps them, what happens to them, and
    waitpid() without waiting: shared by the programs that reap children in a handler
    of SIGCHLD. *)
From S2P Require Import Prelude CLib Sys Steps.
#[local] Open Scope Z_scope.

(** [Stopped seen]: whether waitpid() has told of the stop. [Continued]: not yet told. *)
Inductive cstate := Running | Stopped (seen : bool) | Continued | Dead.
#[export] Instance cstate_eq_dec : EqDecision cstate.
Proof. solve_decision. Defined.
(** [c_status] is the wait status with which the child ends. *)
Record child := Child { c_pid : Z; c_status : Z; c_state : cstate }.

(** What a child does, or what is done to it. *)
Inductive event := Exits | IsKilled (sig : Z) | Stops | Continues.
Definition child_event (e : event) (c : child) : option child :=
  match e, c_state c with
  | Exits, (Running | Continued) => Some (Child (c_pid c) (c_status c) Dead)
  | IsKilled sig, (Running | Continued | Stopped _) => Some (Child (c_pid c) sig Dead)
  | Stops, (Running | Continued) => Some (Child (c_pid c) (c_status c) (Stopped false))
  | Continues, Stopped _ => Some (Child (c_pid c) (c_status c) Continued)
  | _, _ => None
  end.
(** Whether the parent gets SIGCHLD, with or without the flag SA_NOCLDSTOP. *)
Definition notifies (nocldstop : bool) (e : event) : bool :=
  match e with Exits | IsKilled _ => true | Stops | Continues => negb nocldstop end.
(** Whether the event is a stop or a resumption, of which there may be any number. *)
Definition is_stop (e : event) : bool := match e with Stops | Continues => true | _ => false end.

Definition family_event (e : event) (i : nat) (f : list child) : option (list child) :=
  c ← f !! i; c' ← child_event e c; Some (<[i:=c']> f).

(** ** waitpid(-1, &status, WNOHANG | flags) *)

Definition stop_status : Z := 19 * 256 + 127.
Definition continue_status : Z := 65535.
(** The status that is reported for a child, and what the child is then; [None] for the
    new state: it is gone. *)
Definition reports (untraced continued : bool) (c : child) : option (Z * option cstate) :=
  match c_state c with
  | Dead => Some (c_status c, None)
  | Stopped false => if untraced then Some (stop_status, Some (Stopped true)) else None
  | Continued => if continued then Some (continue_status, Some Running) else None
  | _ => None
  end.
Definition reportable (untraced continued : bool) (c : child) : bool := bool_decide (is_Some (reports untraced continued c)).

Inductive waited := WPid (pid status : Z) | WZero | WError (e : Z).
(** If several children have something to report, [i] is the one that waitpid() takes. *)
Definition waitpid_nohang (untraced continued : bool) (i : nat) (f : list child) : option (waited * list child) :=
  if existsb (reportable untraced continued) f then
    c ← f !! i;
    '(st, new) ← reports untraced continued c;
    Some (WPid (c_pid c) st,
          match new with Some cs => <[i:=Child (c_pid c) (c_status c) cs]> f | None => delete i f end)
  else Some (if f is [] then WError ECHILD else WZero, f).

(** ** Laws *)

Definition is_dead (c : child) : bool := if c_state c is Dead then true else false.
Definition alive (c : child) : Z := if is_dead c then 0 else 1.
Definition one (c : child) : Z := 1.

Lemma sumZ_one_length f : sumZ one f = Z.of_nat (length f).
Proof. induction f as [|c f IH]; [done|]. rewrite sumZ_cons, IH. unfold one. cbn. lia. Qed.
Lemma alive_bound c : 0 <= alive c <= 1.
Proof. unfold alive. by destruct (is_dead c). Qed.
Lemma sumZ_alive f : 0 <= sumZ alive f <= Z.of_nat (length f).
Proof. induction f as [|c f IH]; [done|]. rewrite sumZ_cons. pose proof (alive_bound c). cbn. lia. Qed.

Lemma child_event_law e c c' : child_event e c = Some c' -> c_pid c' = c_pid c /\ is_dead c = false /\
  alive c' = (if is_stop e then 1 else 0).
Proof. unfold child_event, alive, is_dead. destruct e, (c_state c) eqn:Hc; intros [= <-]; done. Qed.
Lemma family_event_law e i f f' : family_event e i f = Some f' ->
  c_pid <$> f' = c_pid <$> f /\ length f' = length f /\ sumZ alive f' = sumZ alive f - (if is_stop e then 0 else 1).
Proof.
  unfold family_event. intros Hs. destruct (f !! i) as [c|] eqn:Hi; [|done]. cbn in Hs.
  destruct (child_event e c) as [c'|] eqn:Hc; [|done]. injection Hs as <-.
  destruct (child_event_law _ _ _ Hc) as (Hp & Hd & Ha). split; [|split].
  - rewrite list_fmap_insert, list_insert_id; [done|]. by rewrite list_lookup_fmap, Hi, Hp.
  - apply length_insert.
  - rewrite (sumZ_insert _ _ _ _ _ Hi), Ha. assert (alive c = 1) as -> by (unfold alive; by rewrite Hd).
    destruct (is_stop e); lia.
Qed.

(** A child that is alive can always do something that the parent hears of. *)
Lemma alive_event f : 0 < sumZ alive f -> exists i f', family_event (IsKilled 9) i f = Some f'.
Proof.
  intros Hf. destruct (sumZ_pos _ _ Hf) as (i & c & Hi & Hc). exists i. unfold family_event. rewrite Hi. cbn.
  unfold alive, is_dead, child_event in *. destruct (c_state c); cbn in *; [eexists; reflexivity..|lia].
Qed.

Lemma reportable_dead u k c : is_dead c = true -> reportable u k c = true.
Proof. unfold reportable, reports, is_dead. by destruct (c_state c). Qed.

(** Nothing to report: all are alive. *)
Lemma nothing_reported u k f : existsb (reportable u k) f = false -> sumZ alive f = Z.of_nat (length f).
Proof.
  intros Hf. rewrite <- sumZ_one_length. apply sumZ_ext. intros c Hc. unfold alive, one.
  destruct (is_dead c) eqn:Hd; [|done]. exfalso. apply (reportable_dead u k) in Hd.
  assert (existsb (reportable u k) f = true); [|congruence]. apply existsb_exists. exists c. split; [|done].
  by apply list_elem_of_In.
Qed.
Lemma waitpid_some u k f : exists i r f', waitpid_nohang u k i f = Some (r, f').
Proof.
  unfold waitpid_nohang. destruct (existsb (reportable u k) f) eqn:He; [|by exists 0%nat; do 2 eexists].
  apply existsb_exists in He as (c & (i & Hi)%list_elem_of_In%list_elem_of_lookup & Hr). exists i. rewrite Hi. cbn.
  unfold reportable in Hr. apply bool_decide_eq_true_1 in Hr as [[st new] Hr]. rewrite Hr. by do 2 eexists.
Qed.

Lemma sumZ_delete {A} (g : A -> Z) l i x : l !! i = Some x -> sumZ g (delete i l) = sumZ g l - g x.
Proof.
  revert i. induction l as [|y l IH]; intros [|i] Hi; simplify_eq/=; rewrite ?sumZ_cons; [lia|]. rewrite (IH i Hi). lia.
Qed.

(** Without WUNTRACED and WCONTINUED, waitpid() takes a child that is dead. *)
Lemma waitpid_reaps i f r f' : waitpid_nohang false false i f = Some (r, f') ->
  match r with
  | WPid pid _ => length f = S (length f') /\ sumZ alive f' = sumZ alive f /\ c_pid <$> f ≡ₚ pid :: (c_pid <$> f')
  | WZero => f' = f /\ f <> [] /\ sumZ alive f = Z.of_nat (length f)
  | WError e => f' = f /\ f = [] /\ e = ECHILD
  end.
Proof.
  unfold waitpid_nohang. destruct (existsb _ f) eqn:He.
  - intros Hs. destruct (f !! i) as [c|] eqn:Hi; [|done]. cbn in Hs. unfold reports in Hs.
    destruct (c_state c) as [|[]| |] eqn:Hc; try done. cbn in Hs. injection Hs as <- <-. split; [|split].
    + rewrite length_delete by done. apply lookup_lt_Some in Hi. lia.
    + rewrite (sumZ_delete _ _ _ _ Hi). unfold alive, is_dead. rewrite Hc. lia.
    + apply (delete_Permutation f i c) in Hi. change (c_pid c :: (c_pid <$> delete i f)) with (c_pid <$> c :: delete i f).
      by apply fmap_Permutation.
  - intros [= <- <-]. apply nothing_reported in He. by destruct f.
Qed.

(** ** With WUNTRACED and WCONTINUED *)

(** Children with a stop or a resumption that was not told. *)
Definition untold (c : child) : Z := match c_state c with Stopped false | Continued => 1 | _ => 0 end.
Lemma untold_bound c : 0 <= untold c <= 1.
Proof. unfold untold. by destruct (c_state c) as [|[]| |]. Qed.
Lemma sumZ_untold f : 0 <= sumZ untold f.
Proof. apply sumZ_nonneg. intros c _. apply untold_bound. Qed.

(** It takes a dead child away, or tells of a stop or a resumption. *)
Lemma waitpid_tells i f r f' : waitpid_nohang true true i f = Some (r, f') ->
  match r with
  | WPid pid _ => sumZ alive f' = sumZ alive f /\ sumZ untold f' <= sumZ untold f /\ c_pid <$> f' ⊆+ c_pid <$> f /\
      (length f = S (length f') \/ length f = length f' /\ sumZ untold f' = sumZ untold f - 1)
  | WZero => f' = f /\ f <> [] /\ sumZ alive f = Z.of_nat (length f)
  | WError e => f' = f /\ f = [] /\ e = ECHILD
  end.
Proof.
  unfold waitpid_nohang. destruct (existsb _ f) eqn:He.
  - intros Hs. destruct (f !! i) as [c|] eqn:Hi; [|done]. cbn in Hs. unfold reports in Hs.
    assert (Htold : forall cs, c_state c = Stopped false /\ cs = Stopped true \/ c_state c = Continued /\ cs = Running ->
      let f' := <[i:=Child (c_pid c) (c_status c) cs]> f in
      sumZ alive f' = sumZ alive f /\ sumZ untold f' <= sumZ untold f /\ c_pid <$> f' ⊆+ c_pid <$> f /\
      (length f = S (length f') \/ length f = length f' /\ sumZ untold f' = sumZ untold f - 1)).
    { intros cs Hcs. cbn. rewrite !(sumZ_insert _ _ _ _ _ Hi), length_insert, list_fmap_insert, list_insert_id by
        (by rewrite list_lookup_fmap, Hi). unfold alive, untold, is_dead. cbn.
      destruct Hcs as [[Hc ->]|[Hc ->]]; rewrite !Hc; (split; [lia|]); (split; [lia|]); (split; [done|]); right; split; lia || done. }
    destruct (c_state c) as [|[]| |] eqn:Hc; try done; cbn in Hs; injection Hs as <- <-; try (apply Htold; auto).
    rewrite !(sumZ_delete _ _ _ _ Hi). unfold alive at 2, untold at 2, is_dead. rewrite Hc. split; [lia|]. split; [lia|].
    split.
    + apply fmap_submseteq, sublist_submseteq, sublist_delete.
    + left. rewrite length_delete by done. apply lookup_lt_Some in Hi. lia.
  - intros [= <- <-]. apply nothing_reported in He. by destruct f.
Qed.

Lemma family_event_untold e i f f' : family_event e i f = Some f' ->
  sumZ untold f' <= sumZ untold f + (if is_stop e then 1 else 0).
Proof.
  unfold family_event. intros Hs. destruct (f !! i) as [c|] eqn:Hi; [|done]. cbn in Hs.
  destruct (child_event e c) as [c'|] eqn:Hc; [|done]. injection Hs as <-. rewrite (sumZ_insert _ _ _ _ _ Hi).
  unfold child_event, untold in *. destruct e, (c_state c) as [|[]| |]; try done; injection Hc as <-; cbn; lia.
Qed.
