(* ===== verification/MultiSigchld.v ===== *)
(** Children reaped in a handler: book-src/procexec/multi_SIGCHLD.c, whose handler of
    SIGCHLD waits for all children that are dead, since signals do not queue, and whose
    main() waits in sigsuspend() for the handler to have reaped every child. *)
From S2P Require Import Prelude CLib Sys Steps GetNum Formats Children.
From stdpp Require Import relations.
#[local] Open Scope Z_scope.

(** * State *)

(** In the handler: at its first line; in waitpid(); with a child that was reaped; after the
    loop, with the last result of waitpid(). *)
Inductive hpc := H_start | H_wait | H_got (pid status : Z) | H_end (r : waited).
(** main(): its test of the arguments; its calls in order; [M_suspend] is inside sigsuspend(), which only then lets
    SIGCHLD through; [M_resumed e]: sigsuspend() has returned -1 with [errno] e. *)
Inductive mpc := M_args | M_sigaction | M_procmask | M_fork (j : nat) | M_while | M_suspend | M_handler (h : hpc)
  | M_resumed (e : Z) | M_exit (status : Z).
(** [pending] is SIGCHLD, blocked and waiting; [reaped] what waitpid() has returned;
    [budget] how many times children may still be stopped or resumed. *)
Record mstate := MState {
  fam : list child; pending : bool; numLiveChildren : Z; sigCnt : Z; main : mpc; reaped : list (Z * Z); out : list bytes; budget : nat
}.
Definition goto (m : mpc) (s : mstate) : mstate :=
  MState (fam s) (pending s) (numLiveChildren s) (sigCnt s) m (reaped s) (out s) (budget s).
Definition print (l : bytes) (s : mstate) : mstate :=
  MState (fam s) (pending s) (numLiveChildren s) (sigCnt s) (main s) (reaped s) (out s ++ [l]) (budget s).
Definition with_pending (b : bool) (s : mstate) : mstate :=
  MState (fam s) b (numLiveChildren s) (sigCnt s) (main s) (reaped s) (out s) (budget s).
Definition with_fam (f : list child) (s : mstate) : mstate :=
  MState f (pending s) (numLiveChildren s) (sigCnt s) (main s) (reaped s) (out s) (budget s).
Definition with_reaped (r : list (Z * Z)) (s : mstate) : mstate :=
  MState (fam s) (pending s) (numLiveChildren s) (sigCnt s) (main s) r (out s) (budget s).
Definition with_live (n : Z) (s : mstate) : mstate :=
  MState (fam s) (pending s) n (sigCnt s) (main s) (reaped s) (out s) (budget s).
Definition count_signal (s : mstate) : mstate :=
  MState (fam s) (pending s) (numLiveChildren s) (sigCnt s + 1) (main s) (reaped s) (out s) (budget s).

Section program.
Context (strsignal : Z -> bytes) (args : list bytes).

(** * Steps *)

(** What printWaitStatus(NULL, status) prints. *)
Definition status_text (status : Z) : bytes := lc_pending (WaitStatus.printWaitStatus strsignal None status libc0).2.

(** The handler; the times that it prints are left out. [i] is which child waitpid() takes. *)
(** Source: book-src/procexec/multi_SIGCHLD.c:28-57 (sigchldHandler). *)
Definition sigchldHandler_step (i : nat) (h : hpc) (s : mstate) : option mstate :=
  match h with
  | H_start => Some (goto (M_handler H_wait) (print (str "handler: Caught SIGCHLD" ++ [newline]) s))
  | H_wait =>
      '(r, f) ← waitpid_nohang false false i (fam s);
      Some match r with
           | WPid pid st => goto (M_handler (H_got pid st)) (with_reaped (reaped s ++ [(pid, st)]) (with_fam f s))
           | r => goto (M_handler (H_end r)) s
           end
  | H_got pid st =>
      Some (goto (M_handler H_wait) (with_live (numLiveChildren s - 1)
             (print (str "handler: Reaped child " ++ print_dec pid ++ str " - " ++ status_text st) s)))
  | H_end r =>
      let s := match r with
               | WError e => if e =? ECHILD then s else print (str "waitpid") s
               | _ => s end in
      Some (goto (M_resumed EINTR) (print (str "handler: returning" ++ [newline]) s))
  end.

(** The wait status of the child for an argument. *)
(** Source: book-src/procexec/multi_SIGCHLD.c:95-99 (main, child). *)
Definition child_status (a : bytes) : Z :=
  match (getInt (Some a) GN_NONNEG (Some (str "child-sleep-time")) : M libc Z) libc0 with
  | (Exited n, _) => 256 * n
  | _ => 256 * EXIT_SUCCESS
  end.

(** main(); [ok] is whether a call succeeds, [pid] the process ID of a new child. *)
(** Source: book-src/procexec/multi_SIGCHLD.c:66-118 (main). *)
Definition main_step (ok : bool) (pid : Z) (i : nat) (s : mstate) : option mstate :=
  match main s with
  | M_args =>
      Some (goto (match args with
                  | a :: _ => if streq a (str "--help") then M_exit EXIT_FAILURE else M_sigaction
                  | [] => M_exit EXIT_FAILURE
                  end) s)
  | M_sigaction => Some (goto (if ok then M_procmask else M_exit EXIT_FAILURE) s)
  | M_procmask => Some (goto (if ok then M_fork 0 else M_exit EXIT_FAILURE) s)
  | M_fork j =>
      match args !! j with
      | None => Some (goto M_while s)
      | Some a =>
          if ok then
            if bool_decide (0 < pid /\ pid ∉ (c_pid <$> fam s)) then
              Some (goto (M_fork (S j)) (with_fam (fam s ++ [Child pid (child_status a) Running]) s))
            else None
          else Some (goto (M_exit EXIT_FAILURE) s)
      end
  | M_while =>
      if 0 <? numLiveChildren s then Some (goto M_suspend s)
      else Some (goto (M_exit EXIT_SUCCESS)
             (print (str "All " ++ print_dec (Z.of_nat (length args)) ++ str " children have terminated; SIGCHLD was caught " ++
                     print_dec (sigCnt s) ++ str " times" ++ [newline]) s))
  | M_suspend => if pending s then Some (goto (M_handler H_start) (with_pending false s)) else None
  | M_handler h => sigchldHandler_step i h s
  | M_resumed e => Some (if e =? EINTR then goto M_while (count_signal s) else goto (M_exit EXIT_FAILURE) s)
  | M_exit _ => None
  end.

Definition exited (s : mstate) : bool := if main s is M_exit _ then true else false.
Definition start (n : nat) : mstate := MState [] false (Z.of_nat (length args)) 0 M_args [] [] n.

(** Something happens to a child. *)
Definition event_step (e : event) (i : nat) (s : mstate) : option mstate :=
  f ← family_event e i (fam s);
  let s' := with_pending (pending s || notifies false e) (with_fam f s) in
  if is_stop e then
    if budget s is S b then Some (MState (fam s') (pending s') (numLiveChildren s') (sigCnt s') (main s') (reaped s') (out s') b) else None
  else Some s'.
Inductive step : mstate -> mstate -> Prop :=
| step_main ok pid i s s' : main_step ok pid i s = Some s' -> step s s'
| step_event e i s s' : exited s = false -> event_step e i s = Some s' -> step s s'.

(** * The invariant *)

Definition nargs : Z := Z.of_nat (length args).
(** How many children have been created. *)
Definition forked (s : mstate) : Z :=
  match main s with M_args | M_sigaction | M_procmask => 0 | M_fork j => Z.of_nat j | M_exit st => if st =? EXIT_SUCCESS then nargs else Z.of_nat (length (fam s)) | _ => nargs end.
(** The dead children have been noticed: SIGCHLD is pending, or the handler will look. *)
Definition noticed (s : mstate) : Prop :=
  match main s with M_handler (H_start | H_wait | H_got _ _) => True | _ => sumZ alive (fam s) < Z.of_nat (length (fam s)) -> pending s = true end.
(** Signals that were sent and are not counted yet. *)
Definition uncounted (s : mstate) : Z :=
  (if pending s then 1 else 0) + match main s with M_handler _ | M_resumed _ => 1 | _ => 0 end.
Definition setup (s : mstate) : Prop := reaped s = [] /\ sigCnt s = 0.

Record Inv (n : nat) (s : mstate) : Prop := {
  i_count : Z.of_nat (length (reaped s)) + Z.of_nat (length (fam s)) = forked s;
  i_live : match main s with
    | M_exit _ => True
    | M_handler (H_got _ _) => numLiveChildren s = nargs - Z.of_nat (length (reaped s)) + 1
    | _ => numLiveChildren s = nargs - Z.of_nat (length (reaped s))
    end;
  i_pids : NoDup ((reaped s).*1 ++ (c_pid <$> fam s));
  i_noticed : noticed s;
  i_signals : sigCnt s + uncounted s + sumZ alive (fam s) + Z.of_nat (budget s) <= forked s + Z.of_nat n;
  i_main : match main s with
    | M_args | M_sigaction | M_procmask => setup s
    | M_fork j => setup s /\ (j <= length args)%nat
    | M_exit st => st = EXIT_SUCCESS /\ Z.of_nat (length (reaped s)) = nargs \/ st = EXIT_FAILURE /\ setup s
    | M_suspend => 0 < numLiveChildren s
    | M_resumed e => e = EINTR
    | _ => True
    end;
  i_caught : 0 <= sigCnt s /\ (reaped s <> [] -> match main s with M_handler _ | M_resumed _ => True | _ => 0 < sigCnt s end)
}.

Lemma ms_Inv_start n : Inv n (start n).
Proof. split; cbn; try done; [unfold nargs; lia|constructor]. Qed.

Lemma ms_Inv_event n e i s s' : Inv n s -> exited s = false -> event_step e i s = Some s' -> Inv n s'.
Proof.
  intros Hi Hx Hs. unfold event_step in Hs. destruct (family_event e i (fam s)) as [f|] eqn:Hf; [|done]. cbn in Hs.
  destruct (family_event_law _ _ _ _ Hf) as (Hp & Hl & Ha). destruct Hi as [Hc Hv Hn Ho Hg Hm Hca].
  destruct s as [fm pd nl sc mn rp o b]. cbn in *.
  assert (Hall : forall b', (if is_stop e then b = S b' else b = b') -> Inv n (MState f (pd || notifies false e) nl sc mn rp o b')).
  { intros b' Hb. split; cbn in *; try done.
    - rewrite Hl. by destruct mn.
    - by rewrite Hp.
    - unfold noticed in *. cbn in *. rewrite Hl. destruct mn as [| | | | | |[]| |]; try done; intros _; by destruct pd, e.
    - unfold uncounted in *. cbn in *. rewrite Ha. destruct mn; cbn in *; try done; destruct pd, e; cbn in *; lia. }
  destruct (is_stop e) eqn:He; [destruct b as [|b]; [done|]|]; injection Hs as <-; by apply Hall.
Qed.

(** The fields of the invariant that one move leaves alone or that are arithmetic. *)
Ltac fields := split; unfold forked, uncounted, noticed, setup in *; cbn in *; try (done || lia || tauto || (right; lia)).

Lemma ms_Inv_fork n j ok pid i s s' : Inv n s -> main s = M_fork j -> main_step ok pid i s = Some s' -> Inv n s'.
Proof.
  intros [Hc Hv Hn Ho Hg Hm Hca] Hmn Hs. unfold main_step in Hs. rewrite Hmn in *.
  destruct s as [fm pd nl sc mn rp o b]. cbn in *. subst mn. destruct Hm as [Hset Hj]. unfold setup in Hset. cbn in Hset. destruct Hset as [-> ->].
  destruct (args !! j) as [a|] eqn:Ha; [destruct ok; [case_bool_decide as Hpid; [|done]|]|]; injection Hs as <-.
  - fields.
    + rewrite length_app. cbn. lia.
    + rewrite fmap_app. cbn in Hn. apply NoDup_app. split; [done|]. split; [|apply NoDup_singleton].
      intros x Hx ->%list_elem_of_singleton. by apply Hpid.
    + rewrite sumZ_app, sumZ_one, length_app. change (alive (Child _ _ Running)) with 1. cbn. unfold noticed in Ho. cbn in Ho. intros. apply Ho. lia.
    + rewrite sumZ_app, sumZ_one. change (alive (Child _ _ Running)) with 1. lia.
    + split; [done|]. apply lookup_lt_Some in Ha. lia.
  - fields.
  - apply lookup_ge_None in Ha. assert (Z.of_nat j = nargs) by (unfold nargs; lia). fields.
Qed.

Lemma ms_Inv_handler n h i s s' : Inv n s -> main s = M_handler h -> sigchldHandler_step i h s = Some s' -> Inv n s'.
Proof.
  intros [Hc Hv Hn Ho Hg Hm Hca] Hmn Hs. rewrite Hmn in *. destruct s as [fm pd nl sc mn rp o b]. cbn in *. subst mn.
  destruct h as [| |p st|r]; cbn in Hs.
  - injection Hs as <-. fields.
  - destruct (waitpid_nohang _ _ i fm) as [[r f]|] eqn:Hw; [|done]. cbn in Hs. apply waitpid_reaps in Hw.
    injection Hs as <-. destruct r as [p st| |e].
    + destruct Hw as (Hl & Ha & Hp). fields.
      * rewrite length_app. cbn. lia.
      * rewrite length_app. cbn. lia.
      * rewrite fmap_app. cbn. rewrite <- app_assoc. cbn. by rewrite <- Hp.
    + destruct Hw as (-> & _ & Ha). fields.
    + destruct Hw as (-> & -> & ->). fields.
  - injection Hs as <-. fields.
  - destruct r as [| |e]; [..|destruct (e =? ECHILD)]; injection Hs as <-; fields.
Qed.

Lemma ms_Inv_main n ok pid i s s' : Inv n s -> main_step ok pid i s = Some s' -> Inv n s'.
Proof.
  intros Hi Hs. destruct (main s) as [| | |j| | |h|e|st] eqn:Hmn.
  4:{ by eapply ms_Inv_fork. }
  6:{ eapply ms_Inv_handler; [done|done|]. by unfold main_step in Hs; rewrite Hmn in Hs. }
  all: unfold main_step in Hs; rewrite Hmn in Hs; destruct Hi as [Hc Hv Hn Ho Hg Hm Hca]; rewrite Hmn in *;
    destruct s as [fm pd nl sc mn rp o b]; cbn in *; subst mn.
  - destruct args as [|a l]; [|destruct (streq _ _)]; injection Hs as <-; fields.
  - destruct ok; injection Hs as <-; fields.
  - destruct ok; injection Hs as <-; fields. split; [done|lia].
  - destruct (Z.ltb_spec 0 nl); injection Hs as <-; fields.
  - destruct pd; [|done]. injection Hs as <-. fields.
  - subst e. injection Hs as <-. fields.
  - done.
Qed.

Lemma ms_Inv_step n s s' : Inv n s -> step s s' -> Inv n s'.
Proof.
  intros Hi Hs. destruct Hs as [ok pid i s1 s2 Hs|e i s1 s2 Hx Hs]; [by eapply ms_Inv_main|by eapply (ms_Inv_event n e i s1 s2)].
Qed.

(** * Every run ends *)

Definition mweight (m : mpc) : Z :=
  match m with
  | M_args => 6 + 10 * nargs
  | M_sigaction => 5 + 10 * nargs
  | M_procmask => 4 + 10 * nargs
  | M_fork j => 3 + 10 * (nargs - Z.of_nat j)
  | M_while => 2
  | M_suspend => 1
  | M_handler (H_start | H_got _ _) => 6
  | M_handler H_wait => 5
  | M_handler (H_end _) => 4
  | M_resumed _ => 3
  | M_exit _ => 0
  end.
Definition measure (s : mstate) : Z :=
  7 * sumZ alive (fam s) + 7 * Z.of_nat (budget s) + (if pending s then 6 else 0) + 2 * Z.of_nat (length (fam s)) + mweight (main s).

Lemma mweight_nonneg n s : Inv n s -> 0 <= mweight (main s).
Proof. intros Hi. pose proof (i_main _ _ Hi). unfold mweight, nargs. destruct (main s) as [| | | | | |[]| |]; lia. Qed.

Lemma measure_event e i s s' : event_step e i s = Some s' -> measure s' < measure s.
Proof.
  unfold event_step. intros Hs. destruct (family_event e i (fam s)) as [f|] eqn:Hf; [|done]. cbn in Hs.
  destruct (family_event_law _ _ _ _ Hf) as (_ & Hl & Ha). unfold measure.
  destruct s as [fm pd nl sc mn rp o b]. cbn in *.
  destruct (is_stop e); [destruct b as [|b]; [done|]|]; injection Hs as <-; cbn [fam budget pending main with_pending with_fam];
    rewrite Hl, Ha; destruct pd, e; cbn [orb notifies negb]; lia.
Qed.

Lemma measure_main n ok pid i s s' : Inv n s -> main_step ok pid i s = Some s' -> measure s' < measure s.
Proof.
  intros Hi Hs. pose proof (i_main _ _ Hi) as Hm. destruct s as [fm pd nl sc mn rp o b].
  unfold main_step, measure, mweight in *. cbn in *. assert (0 <= nargs) by (unfold nargs; lia).
  destruct mn as [| | |j| | |h|e|st]; try done.
  - destruct args as [|a l]; [|destruct (streq _ _)]; injection Hs as <-; cbn; lia.
  - destruct ok; injection Hs as <-; cbn; lia.
  - destruct ok; injection Hs as <-; cbn; lia.
  - destruct Hm as [_ Hj]. destruct (args !! j) as [a|] eqn:Ha; [destruct ok; [case_bool_decide; [|done]|]|]; injection Hs as <-; cbn.
    + rewrite sumZ_app, sumZ_one, length_app. change (alive (Child _ _ Running)) with 1. cbn. lia.
    + unfold nargs. lia.
    + unfold nargs. lia.
  - destruct (0 <? nl); injection Hs as <-; cbn; lia.
  - destruct pd; [|done]. injection Hs as <-. cbn. lia.
  - destruct h as [| |p st|r]; cbn in Hs.
    + injection Hs as <-. cbn. lia.
    + destruct (waitpid_nohang _ _ i fm) as [[r f]|] eqn:Hw; [|done]. cbn in Hs. apply waitpid_reaps in Hw.
      injection Hs as <-. destruct r as [p st| |e]; cbn.
      * destruct Hw as (Hl & Ha & _). lia.
      * lia.
      * lia.
    + injection Hs as <-. cbn. lia.
    + destruct r as [| |e]; [..|destruct (e =? ECHILD)]; injection Hs as <-; cbn; lia.
  - destruct (e =? EINTR); injection Hs as <-; cbn; lia.
Qed.

Lemma ms_step_measure n s s' : Inv n s -> step s s' -> 0 <= measure s' < measure s.
Proof.
  intros Hi Hs. split.
  - pose proof (mweight_nonneg n s' (ms_Inv_step _ _ _ Hi Hs)). pose proof (sumZ_alive (fam s')). unfold measure.
    destruct (pending s'); lia.
  - destruct Hs as [ok pid i s1 s2 Hs|e i s1 s2 Hx Hs]; [by eapply measure_main|by eapply measure_event].
Qed.

(** * No run gets stuck *)

Lemma ms_progress n s : Inv n s -> exited s = false -> exists s', step s s'.
Proof.
  intros Hi Hx. assert (Hgo : forall ok pid i s', main_step ok pid i s = Some s' -> exists s', step s s').
  { intros ok pid i s' Hs. exists s'. by eapply step_main. }
  destruct (main s) as [| | |j| | |h|e|st] eqn:Hmn; [..|by unfold exited in Hx; rewrite Hmn in Hx].
  all: unfold main_step in Hgo; rewrite Hmn in Hgo.
  - by eapply (Hgo true 0 0%nat).
  - by eapply (Hgo true 0 0%nat).
  - by eapply (Hgo true 0 0%nat).
  - specialize (Hgo false 0 0%nat). destruct (args !! j); by eapply Hgo.
  - specialize (Hgo true 0 0%nat). destruct (0 <? numLiveChildren s); by eapply Hgo.
  - destruct (pending s) eqn:Hp; [by eapply (Hgo true 0 0%nat)|].
    pose proof (i_noticed _ _ Hi) as Ho. pose proof (i_main _ _ Hi) as Hm. pose proof (i_live _ _ Hi) as Hl. pose proof (i_count _ _ Hi) as Hc.
    unfold noticed, forked in *. rewrite Hmn in *. rewrite Hp in Ho. pose proof (sumZ_alive (fam s)).
    destruct (Z.ltb_spec (sumZ alive (fam s)) (Z.of_nat (length (fam s)))) as [Hlt|Hge]; [by specialize (Ho Hlt)|].
    destruct (alive_event (fam s)) as (i & f & Hf); [lia|]. eexists. eapply (step_event (IsKilled 9) i); [done|].
    unfold event_step. rewrite Hf. cbn. done.
  - destruct h as [| |p st|r]; cbn in Hgo.
    + by eapply (Hgo true 0 0%nat).
    + destruct (waitpid_some false false (fam s)) as (i & r & f & Hw). eapply (Hgo true 0 i). by rewrite Hw.
    + by eapply (Hgo true 0 0%nat).
    + by eapply (Hgo true 0 0%nat).
  - by eapply (Hgo true 0 0%nat).
Qed.

(** * The result *)

(** What is true of a state of the program; [n] bounds the stops and resumptions of children. *)
Definition reaps_all (n : nat) (s : mstate) : Prop :=
  match main s with
  | M_exit st =>
      (st = EXIT_SUCCESS /\ fam s = [] /\ length (reaped s) = length args /\ NoDup (reaped s).*1 /\
       (args <> [] -> 1 <= sigCnt s) /\ sigCnt s <= nargs + Z.of_nat n) \/
      (st = EXIT_FAILURE /\ reaped s = [])
  | M_suspend =>
      (** Waiting with nothing to wake it up, main() has no dead children, and has some that live. *)
      (pending s = false -> forall c, c ∈ fam s -> is_dead c = false) /\ fam s <> [] /\ exists s', step s s'
  | _ => exists s', step s s'
  end.

Lemma Inv_reaps n s : Inv n s -> reaps_all n s.
Proof.
  intros Hi. pose proof (ms_progress n s Hi) as Hp. unfold exited in Hp. unfold reaps_all. destruct Hi as [Hc Hv Hn Ho Hg Hm Hca].
  unfold forked, noticed, uncounted, setup in *. destruct (main s) as [| | |j| | |h|e|st] eqn:Hmn; try (by apply Hp).
  - split; [|split; [|by apply Hp]].
    + intros Hpd c (i & Hic)%list_elem_of_lookup. rewrite Hpd in Ho. destruct (is_dead c) eqn:Hd; [|done].
      pose proof (sumZ_delete alive _ _ _ Hic) as Hs. assert (alive c = 0) as Hz by (unfold alive; by rewrite Hd).
      pose proof (sumZ_alive (delete i (fam s))) as Hb. rewrite length_delete in Hb by done.
      apply lookup_lt_Some in Hic. discriminate Ho. lia.
    + intros Hf. rewrite Hf in *. cbn in *. lia.
  - destruct Hm as [[-> Hl]|[-> [Hr _]]]; [left|by right]. rewrite Z.eqb_refl in *. unfold nargs in *.
    assert (Hf : fam s = []) by (apply nil_length_inv; lia). split; [done|]. split; [done|]. split; [lia|]. split.
    + rewrite Hf, app_nil_r in Hn. done.
    + split; [|pose proof (sumZ_alive (fam s)); destruct (pending s); lia]. intros Hne. destruct Hca as [_ Hca].
      enough (0 < sigCnt s) by lia. apply Hca. intros Hr. rewrite Hr in Hl. by destruct args.
Qed.

(** C16: The program reaps every child. Whenever the children end, are killed, stopped or
    resumed, however often and in whatever order: every run ends and none gets stuck, so
    that no SIGCHLD is lost between the test of the counter and sigsuspend(); while main()
    waits and no signal is pending, no child is dead; and at the end every child has been
    reaped exactly once, with at least one signal caught and at most one for every child
    and every stop or resumption, or a call failed before any child was reaped. *)
Theorem multi_SIGCHLD_correct n :
  sn step (start n) /\ forall s, rtc step (start n) s -> reaps_all n s.
Proof.
  split.
  - apply (sn_measure step (Inv n) (ms_Inv_step n) measure); [by apply ms_step_measure|apply ms_Inv_start].
  - intros s Hr. apply Inv_reaps. by apply (reach_inv step (Inv n) (ms_Inv_step n) (start n)), Hr; apply ms_Inv_start.
Qed.
End program.
