(* ===== verification/SimpleInit.v ===== *)
(** A small init program: book-src/namespaces/simple_init.c, which runs commands in the
    foreground of its terminal, waits for them in pause(), and reaps its children (those
    it is given as well as its own) in a handler of SIGCHLD. *)
From S2P Require Import Prelude CLib Sys Calls Steps Children.
From stdpp Require Import relations.
#[local] Open Scope Z_scope.

(** * The child *)

(** The calls of the child that runs a command; execvp() returns only when it fails. *)
Class CommandOS (S : Type) := {
  sys_wordexp : bytes -> M S (option (list bytes));
  sys_calloc : nat -> M S (sysres unit);
  sys_setpgid : M S (sysres unit);
  sys_tcsetpgrp : M S (sysres unit);
  sys_execvp : bytes -> list bytes -> M S Z
}.

Section child.
Context {S : Type} `{HasLibc S} `{CommandOS S}.
Context (strerror : Z -> bytes).

Definition expansion_failed : bytes :=
  str "Word expansion failed." ++ [newline] ++ str "	Note that only simple commands plus arguments are supported" ++ [newline] ++
  str "	(no pipelines, I/O redirection, and so on)" ++ [newline].
(** Source: book-src/namespaces/simple_init.c:68-93 (expand_words). *)
Definition expand_words (cmd : bytes) : M S (option (list bytes)) :=
  s ← sys_wordexp cmd;
  match s with
  | None => eprintf expansion_failed;; mret None
  | Some words =>
      pchecked strerror (sys_calloc (length words + 1)) (str "calloc");;
      mret (Some words)
  end.

(** [arg_vec[0]] is a null pointer when there are no words. *)
(** Source: book-src/namespaces/simple_init.c:215-235 (main, child). *)
Definition command_child (cmd : bytes) : M S unit :=
  arg_vec ← expand_words cmd;
  match arg_vec with
  | None => c_exit EXIT_FAILURE
  | Some arg_vec =>
      pchecked strerror sys_setpgid (str "setpgid");;
      pchecked strerror sys_tcsetpgrp (str "tcsetpgrp-child");;
      file ← deref (head arg_vec);
      e ← sys_execvp file arg_vec;
      set_errno e;; perror_exit strerror (str "execvp")
  end.
End child.

(** * State *)

(** In the handler: in waitpid(), or with what it has returned. *)
Inductive hpc := H_wait | H_got (r : waited).
(** main(), at its calls in order; [I_slave_errno]: about to look at [errno];
    [I_created pid]: fork() has returned; [I_pause]: inside pause(). *)
Inductive ipc := I_options | I_sigaction | I_setpgid | I_tcsetpgrp | I_slave | I_slave_errno | I_mount | I_fgets
  | I_fork (cmd : bytes) | I_created (pid : Z) | I_pause | I_foreground | I_umount | I_end (status : Z) | I_undefined.
(** [fg] is the process group in the foreground of the terminal, [input] what fgets() will
    return, [reaped] the children whose end waitpid() has told; [spare] bounds how often
    processes are still adopted, stopped or resumed. *)
Record istate := IState {
  fam : list child; pending : bool; hand : option hpc; main : ipc; errno : Z; fg : Z;
  input : list bytes; reaped : list Z; out : list bytes; spare : nat
}.
Definition goto (m : ipc) (s : istate) : istate :=
  IState (fam s) (pending s) (hand s) m (errno s) (fg s) (input s) (reaped s) (out s) (spare s).
Definition print (l : bytes) (s : istate) : istate :=
  IState (fam s) (pending s) (hand s) (main s) (errno s) (fg s) (input s) (reaped s) (out s ++ [l]) (spare s).
Definition with_hand (h : option hpc) (s : istate) : istate :=
  IState (fam s) (pending s) h (main s) (errno s) (fg s) (input s) (reaped s) (out s) (spare s).
Definition with_pending (b : bool) (s : istate) : istate :=
  IState (fam s) b (hand s) (main s) (errno s) (fg s) (input s) (reaped s) (out s) (spare s).
Definition with_fam (f : list child) (s : istate) : istate :=
  IState f (pending s) (hand s) (main s) (errno s) (fg s) (input s) (reaped s) (out s) (spare s).
Definition with_errno (e : Z) (s : istate) : istate :=
  IState (fam s) (pending s) (hand s) (main s) e (fg s) (input s) (reaped s) (out s) (spare s).
Definition with_fg (g : Z) (s : istate) : istate :=
  IState (fam s) (pending s) (hand s) (main s) (errno s) g (input s) (reaped s) (out s) (spare s).
Definition with_input (l : list bytes) (s : istate) : istate :=
  IState (fam s) (pending s) (hand s) (main s) (errno s) (fg s) l (reaped s) (out s) (spare s).
Definition with_reaped (l : list Z) (s : istate) : istate :=
  IState (fam s) (pending s) (hand s) (main s) (errno s) (fg s) (input s) l (out s) (spare s).
Definition with_spare (n : nat) (s : istate) : istate :=
  IState (fam s) (pending s) (hand s) (main s) (errno s) (fg s) (input s) (reaped s) (out s) n.

(** The options: verbose output, and where to mount a procfs. *)
(** Source: book-src/namespaces/simple_init.c:115-122 (main, options). *)
Fixpoint init_options (o : bool * option bytes) (opts : list (ascii * bytes)) : option (bool * option bytes) :=
  match opts with
  | [] => Some o
  | (c, optarg) :: opts =>
      if ceq c "p" then init_options (o.1, Some optarg) opts
      else if ceq c "v" then init_options (true, o.2) opts
      else None
  end.

Section program.
Context (strerror : Z -> bytes) (opts : list (ascii * bytes)) (me : Z).

Definition options : option (bool * option bytes) := init_options (false, None) opts.
Definition verbose : bool := if options is Some (v, _) then v else false.
Definition proc_path : option bytes := if options is Some (_, p) then p else None.
Definition log (l : bytes) (s : istate) : istate := if verbose then print l s else s.
(** perror(), and errExit() of this program. *)
Definition perror_line (msg : bytes) (s : istate) : istate := print (msg ++ str ": " ++ strerror (errno s) ++ [newline]) s.
Definition fails (e : Z) (msg : bytes) (s : istate) : istate := goto (I_end EXIT_FAILURE) (perror_line msg (with_errno e s)).

(** * Steps *)

(** A pause() that the handler has interrupted returns. *)
Definition resume (s : istate) : istate :=
  with_hand None (if main s is I_pause then goto I_foreground s else s).
(** [i] is which child waitpid() takes. *)
(** Source: book-src/namespaces/simple_init.c:41-63 (child_handler). *)
Definition child_handler_step (i : nat) (s : istate) : option istate :=
  h ← hand s;
  match h with
  | H_wait =>
      '(r, f) ← waitpid_nohang true true i (fam s);
      let dead := match r with WPid pid st => if bool_decide (length f < length (fam s))%nat then [pid] else [] | _ => [] end in
      let s := with_reaped (reaped s ++ dead) (with_fam f s) in
      Some match r with
           | WZero => resume s
           | WError e => with_hand (Some (H_got r)) (with_errno e s)
           | WPid _ _ => with_hand (Some (H_got r)) s
           end
  | H_got r =>
      let terminated pid := log (str "	init: SIGCHLD handler: PID " ++ print_dec pid ++ str " terminated" ++ [newline]) in
      Some match r with
           | WError e =>
               if errno s =? ECHILD then resume s
               else with_hand (Some H_wait) (terminated (-1) (perror_line (str "waitpid") s))
           | WPid pid _ => with_hand (Some H_wait) (terminated pid s)
           | WZero => resume s
           end
  end.

(** The handler is in place once sigaction() has returned. *)
Definition handled (m : ipc) : bool := match m with I_options | I_sigaction | I_end _ | I_undefined => false | _ => true end.
Definition deliver_step (s : istate) : option istate :=
  if pending s && handled (main s) && bool_decide (hand s = None) then Some (with_hand (Some H_wait) (with_pending false s)) else None.

(** main(), while the handler does not run; [ok] is whether the call succeeds, [e] its error,
    [pid] the process ID and [st] the wait status of a new child. *)
(** Source: book-src/namespaces/simple_init.c:115-260 (main). *)
Definition main_step (ok : bool) (e pid st : Z) (s : istate) : option istate :=
  match main s with
  | I_options => Some (goto (if options is Some _ then I_sigaction else I_end EXIT_FAILURE) s)
  | I_sigaction =>
      Some (if ok then goto I_setpgid (log (str "	init: my PID is " ++ print_dec me ++ [newline]) s) else fails e (str "sigaction") s)
  | I_setpgid => Some (if ok then goto I_tcsetpgrp s else fails e (str "setpgid") s)
  | I_tcsetpgrp =>
      Some (if ok then goto (if proc_path is Some _ then I_slave else I_fgets) (with_fg me s) else fails e (str "tcsetpgrp-child") s)
  | I_slave =>
      p ← proc_path;
      let s := log (str "Making " ++ p ++ str " a private mount" ++ [newline]) s in
      Some (if ok then goto I_mount s else goto I_slave_errno (with_errno e s))
  | I_slave_errno => Some (goto I_mount (if errno s =? EINVAL then s else perror_line (str "mount-make-slave-/") s))
  | I_mount =>
      p ← proc_path;
      let s := log (str "Mounting procfs at " ++ p ++ [newline]) s in
      Some (if ok then goto I_fgets s else fails e (str "mount-procfs") s)
  | I_fgets =>
      let s := print (str "init$ ") s in
      Some match input s with
           | [] => goto I_umount (print [newline] (log (str "	init: exiting") s))
           | line :: rest =>
               let s := with_input rest s in
               let cmd := cstring line in
               if bool_decide (cmd = []) then goto I_undefined s
               else
                 let cmd := if bool_decide (last cmd = Some newline) then take (strlen cmd - 1) cmd else cmd in
                 goto (if bool_decide (cmd = []) then I_fgets else I_fork cmd) s
           end
  | I_fork cmd =>
      if ok then
        if bool_decide (0 < pid /\ pid <> me /\ pid ∉ (c_pid <$> fam s)) then
          Some (goto (I_created pid) (with_fam (fam s ++ [Child pid st Running]) s))
        else None
      else Some (goto I_umount (perror_line (str "fork") (with_errno e s)))
  | I_created pid => Some (goto I_pause (log (str "	init: created child " ++ print_dec pid ++ [newline]) s))
  | I_pause => None
  | I_foreground => Some (if ok then goto I_fgets (with_fg me s) else fails e (str "tcsetpgrp-parent") s)
  | I_umount =>
      match proc_path with
      | None => Some (goto (I_end EXIT_SUCCESS) s)
      | Some p =>
          let s := log (str "Unmounting procfs at " ++ p ++ [newline]) s in
          Some (if ok then goto (I_end EXIT_SUCCESS) s else fails e (str "umount-procfs") s)
      end
  | I_end _ | I_undefined => None
  end.

Definition exited (s : istate) : bool := match main s with I_end _ | I_undefined => true | _ => false end.

(** Something happens to a child, which is told except for stops and resumptions, and
    not before there is a handler: until then the signal is discarded. *)
Definition event_step (e : event) (i : nat) (s : istate) : option istate :=
  f ← family_event e i (fam s);
  let s := with_pending (handled (main s) && (pending s || notifies true e)) (with_fam f s) in
  if is_stop e then if spare s is S n then Some (with_spare n s) else None else Some s.
(** A process whose parent has ended becomes a child of init; if it is dead, init is told. *)
Definition adopt_step (c : child) (s : istate) : option istate :=
  match spare s with
  | S n => if bool_decide (0 < c_pid c /\ c_pid c <> me /\ c_pid c ∉ (c_pid <$> fam s)) then
             Some (with_spare n (with_pending (handled (main s) && (pending s || is_dead c)) (with_fam (fam s ++ [c]) s)))
           else None
  | O => None
  end.
(** A child takes the terminal for its own process group. *)
Definition terminal_step (i : nat) (s : istate) : option istate :=
  c ← fam s !! i;
  if bool_decide (c_state c = Running /\ fg s = me) then Some (with_fg (c_pid c) s) else None.

Inductive step : istate -> istate -> Prop :=
| step_main ok e pid st s s' : hand s = None -> main_step ok e pid st s = Some s' -> step s s'
| step_handler i s s' : exited s = false -> child_handler_step i s = Some s' -> step s s'
| step_deliver s s' : deliver_step s = Some s' -> step s s'
| step_event e i s s' : exited s = false -> event_step e i s = Some s' -> step s s'
| step_terminal i s s' : exited s = false -> terminal_step i s = Some s' -> step s s'
| step_adopt c s s' : exited s = false -> adopt_step c s = Some s' -> step s s'.

(** [f] are the children that the process had before it executed the program. *)
Definition start (f : list child) (g : Z) (lines : list bytes) (n : nat) : istate :=
  IState f false None I_options 0 g lines [] [] n.
(** The handler has just been set. *)
Definition ready (f : list child) (g : Z) (lines : list bytes) (n : nat) : istate :=
  log (str "	init: my PID is " ++ print_dec me ++ [newline]) (goto I_setpgid (start f g lines n)).

(** * The invariant *)

(** The handler will look at the children again. *)
Definition will_look (h : option hpc) : bool := match h with Some H_wait | Some (H_got (WPid _ _)) => true | _ => false end.
Record Inv (s : istate) : Prop := {
  i_pids : Forall (fun p => p <> me) (c_pid <$> fam s);
  i_noticed : will_look (hand s) = false -> sumZ alive (fam s) < Z.of_nat (length (fam s)) -> pending s = true;
  i_hand : match hand s with Some (H_got (WError e)) => e = ECHILD /\ errno s = ECHILD | Some (H_got WZero) => False | _ => True end;
  i_handled : exited s = false -> handled (main s) = true;
  i_alone : exited s = true -> hand s = None;
  i_path : match main s with I_slave | I_slave_errno | I_mount => is_Some proc_path | _ => True end
}.

Lemma Inv_ready f g lines n : Forall (fun p => p <> me) (c_pid <$> f) -> (forall c, c ∈ f -> is_dead c = false) -> Inv (ready f g lines n).
Proof.
  intros Hp Ha. unfold ready, log. destruct verbose; split; cbn; try done; intros _ Hd; exfalso.
  all: rewrite <- sumZ_one_length, (sumZ_ext alive one) in Hd; [lia|]; intros c Hc; unfold alive, one; by rewrite Ha.
Qed.

Lemma si_Inv_event e i s s' : Inv s -> exited s = false -> event_step e i s = Some s' -> Inv s'.
Proof.
  intros [Hp Hn Hh Hd Ha Hm] Hx Hs. unfold event_step in Hs. destruct (family_event e i (fam s)) as [f|] eqn:Hf; [|done]. cbn in Hs.
  destruct (family_event_law _ _ _ _ Hf) as (Hpid & Hl & Hal). rewrite (Hd Hx) in Hs.
  assert (Hall : forall n, Inv (with_spare n (with_pending (pending s || notifies true e) (with_fam f s)))).
  { intros n. split; cbn; try done; [by rewrite Hpid|]. rewrite Hl, Hal. destruct e; cbn; rewrite ?orb_true_r, ?orb_false_r; try done.
    all: intros Hw Hlt; apply Hn; [done|lia]. }
  destruct (is_stop e); [destruct (spare s) as [|n]; [done|]; injection Hs as <-; apply Hall|]. injection Hs as <-.
  specialize (Hall (spare s)). by destruct s.
Qed.

Lemma si_Inv_adopt c s s' : Inv s -> exited s = false -> adopt_step c s = Some s' -> Inv s'.
Proof.
  intros [Hp Hn Hh Hd Ha Hm] Hx Hs. unfold adopt_step in Hs. destruct (spare s) as [|n]; [done|].
  case_bool_decide as Hc; [|done]. injection Hs as <-. rewrite (Hd Hx). split; cbn; try done.
  - rewrite fmap_app, Forall_app. split; [done|]. constructor; [tauto|done].
  - intros Hw. rewrite sumZ_app, sumZ_one, length_app. unfold alive at 2. cbn.
    destruct (is_dead c); [by rewrite orb_true_r|]. rewrite orb_false_r. intros Hlt. apply Hn; [done|lia].
Qed.

(** main() moves: what it may change of the rest. *)
Lemma si_Inv_moved s m e g l o : Inv s -> hand s = None -> (exited (goto m s) = false -> handled m = true) ->
  match m with I_slave | I_slave_errno | I_mount => is_Some proc_path | _ => True end ->
  Inv (IState (fam s) (pending s) (hand s) m e g l (reaped s) o (spare s)).
Proof. intros [Hp Hn Hh Hd Ha Hm] H0 Hx Hpath. rewrite H0 in *. by split. Qed.

Lemma si_Inv_main ok e pid st s s' : Inv s -> hand s = None -> main_step ok e pid st s = Some s' -> Inv s'.
Proof.
  intros Hi H0 Hs. pose proof (i_handled _ Hi) as Hd. pose proof (i_path _ Hi) as Hm.
  pose proof (fun m e g l o => si_Inv_moved s m e g l o Hi H0) as Hgo.
  unfold main_step, fails, perror_line, log in Hs. unfold exited in Hd.
  destruct (main s) as [| | | | | | | |cmd|p| | | |x|] eqn:Hmn; try done; try (by discriminate (Hd eq_refl)).
  - destruct ok; injection Hs as <-; by apply Hgo.
  - destruct ok; injection Hs as <-; apply Hgo; try done; by destruct proc_path.
  - destruct Hm as [q Hq]. rewrite Hq in *. cbn in Hs. destruct verbose, ok; injection Hs as <-; by apply Hgo.
  - destruct (errno s =? EINVAL); injection Hs as <-; by apply Hgo.
  - destruct Hm as [q Hq]. rewrite Hq in *. cbn in Hs. destruct verbose, ok; injection Hs as <-; by apply Hgo.
  - cbn [input print] in Hs. destruct (input s) as [|line rest]; [destruct verbose; injection Hs as <-; by apply Hgo|]. injection Hs as <-.
    case_bool_decide; [by apply Hgo|]. destruct (bool_decide (last _ = _)); case_bool_decide; by apply Hgo.
  - destruct ok; [case_bool_decide as Hpid; [|done]|]; injection Hs as <-; [|by apply Hgo].
    destruct Hi as [Hp Hn Hh _ Ha _]. rewrite H0 in *. split; cbn; rewrite ?H0; try done.
    + rewrite fmap_app, Forall_app. split; [done|]. constructor; [cbn; tauto|done].
    + intros _. rewrite sumZ_app, sumZ_one, length_app. change (alive (Child _ _ Running)) with 1. cbn. intros Hlt. apply Hn; [done|lia].
  - destruct verbose; injection Hs as <-; by apply Hgo.
  - destruct ok; injection Hs as <-; by apply Hgo.
  - destruct proc_path; [destruct verbose, ok|]; injection Hs as <-; by apply Hgo.
Qed.

Lemma si_Inv_resume s : Inv s -> exited s = false ->
  (sumZ alive (fam s) < Z.of_nat (length (fam s)) -> pending s = true) -> Inv (resume s).
Proof.
  intros [Hp Hn Hh Hd Ha Hm] Hx Hnot. specialize (Hd Hx). unfold exited in Hx. unfold resume.
  destruct (main s) eqn:Hmn; split; cbn; rewrite ?Hmn; done.
Qed.

Lemma si_Inv_handler i s s' : Inv s -> exited s = false -> child_handler_step i s = Some s' -> Inv s'.
Proof.
  intros Hi Hx Hs. pose proof (si_Inv_resume s Hi Hx) as Hre. destruct Hi as [Hp Hn Hh Hd Ha Hm]. unfold child_handler_step in Hs.
  destruct (hand s) as [h|] eqn:Hha; [|done]. cbn in Hs. destruct h as [|r].
  - destruct (waitpid_nohang _ _ i (fam s)) as [[r f]|] eqn:Hw; [|done]. cbn in Hs. apply waitpid_tells in Hw. injection Hs as <-.
    destruct r as [p st| |e].
    + destruct Hw as (Hal & _ & Hsub & _). split; cbn; try done; [|intros Hx'; change (exited s = true) in Hx'; congruence].
      apply Forall_forall. intros x Hi. rewrite Forall_forall in Hp. apply Hp. by eapply elem_of_submseteq.
    + destruct Hw as (-> & _ & Hal). apply si_Inv_resume; [split; cbn; rewrite ?Hha; try done; congruence|done|cbn; lia].
    + destruct Hw as (-> & Hf & ->). split; cbn; try done; [rewrite Hf; done|intros Hx'; change (exited s = true) in Hx'; congruence].
  - destruct r as [p st| |e]; [|done|]; injection Hs as <-.
    + unfold log. destruct verbose; split; cbn; try done; intros Hx'; change (exited s = true) in Hx'; congruence.
    + destruct Hh as [-> He]. rewrite He. apply Hre. by apply Hn.
Qed.

Lemma si_Inv_step s s' : Inv s -> step s s' -> Inv s'.
Proof.
  intros Hi Hs. destruct Hs as [ok e pid st s s' H0 Hs|i s s' Hx Hs|s s' Hs|e i s s' Hx Hs|i s s' Hx Hs|c s s' Hx Hs].
  - by eapply si_Inv_main.
  - by eapply si_Inv_handler.
  - unfold deliver_step in Hs. destruct (pending s); [|done]. destruct (handled (main s)) eqn:Hh; [|done].
    case_bool_decide; [|done]. injection Hs as <-. destruct Hi as [Hp Hn Hha Hd Ha Hm]. split; cbn; try done.
    intros Hx. unfold exited, handled in *. cbn in Hx. by destruct (main s).
  - by eapply si_Inv_event.
  - unfold terminal_step in Hs. destruct (fam s !! i) as [c|]; [|done]. cbn in Hs. case_bool_decide; [|done]. injection Hs as <-.
    destruct Hi as [Hp Hn Hha Hd Ha Hm]. by split.
  - by eapply si_Inv_adopt.
Qed.

(** * Every run ends *)

Definition lines_left (s : istate) : Z := Z.of_nat (length (input s)).
Definition main_weight (m : ipc) : Z :=
  match m with
  | I_options => 18 | I_sigaction => 17 | I_setpgid => 16 | I_tcsetpgrp => 15 | I_slave => 13 | I_slave_errno => 12 | I_mount => 11
  | I_fgets => 10 | I_fork _ => 25 | I_created _ => 18 | I_pause => 17 | I_foreground => 16 | I_umount => 5 | I_end _ | I_undefined => 0
  end.
Definition hand_weight (h : option hpc) : Z :=
  match h with None => 0 | Some H_wait => 2 | Some (H_got (WPid _ _)) => 3 | Some (H_got _) => 1 end.
Definition fam_weight (f : list child) : Z := 4 * sumZ alive f + 2 * sumZ untold f + 2 * Z.of_nat (length f).
Definition measure (s : istate) : Z :=
  fam_weight (fam s) + 12 * Z.of_nat (spare s) + (if pending s then 3 else 0) + (if fg s =? me then 1 else 0) +
  20 * lines_left s + main_weight (main s) + hand_weight (hand s).

Lemma fam_weight_nonneg f : 0 <= fam_weight f.
Proof. pose proof (sumZ_alive f). pose proof (sumZ_untold f). unfold fam_weight. lia. Qed.
Lemma measure_nonneg s : 0 <= measure s.
Proof.
  unfold measure, lines_left. pose proof (fam_weight_nonneg (fam s)).
  assert (0 <= main_weight (main s)) by (by destruct (main s)). assert (0 <= hand_weight (hand s)) by (by destruct (hand s) as [[|[]]|]).
  destruct (pending s), (fg s =? me); lia.
Qed.

Lemma si_measure_main ok e pid st s s' : hand s = None -> main_step ok e pid st s = Some s' -> measure s' < measure s.
Proof.
  intros H0 Hs. destruct s as [f pd h m er g inp rp o sp]. cbn in H0. subst h. unfold main_step, fails, perror_line, log in Hs. cbn in Hs.
  unfold measure, lines_left. cbn.
  destruct m as [| | | | | | | |cmd|p| | | |x|]; try done.
  - destruct options; injection Hs as <-; cbn; lia.
  - destruct verbose, ok; injection Hs as <-; cbn; lia.
  - destruct ok; injection Hs as <-; cbn; lia.
  - destruct ok; injection Hs as <-; cbn; [|lia]. rewrite Z.eqb_refl. destruct proc_path, (g =? me); cbn; lia.
  - destruct proc_path; [|done]. cbn in Hs. destruct verbose, ok; injection Hs as <-; cbn; lia.
  - destruct (er =? EINVAL); injection Hs as <-; cbn; lia.
  - destruct proc_path; [|done]. cbn in Hs. destruct verbose, ok; injection Hs as <-; cbn; lia.
  - destruct inp as [|line rest]; [destruct verbose; injection Hs as <-; cbn; lia|]. injection Hs as <-.
    destruct (bool_decide (cstring line = [])); [cbn; lia|].
    destruct (bool_decide (last _ = _)), (bool_decide (_ = [])); cbn; lia.
  - destruct ok; [case_bool_decide; [|done]|]; injection Hs as <-; cbn; [|lia].
    unfold fam_weight. rewrite !sumZ_app, !sumZ_one, length_app. change (alive (Child _ _ Running)) with 1.
    change (untold (Child _ _ Running)) with 0. cbn. lia.
  - destruct verbose; injection Hs as <-; cbn; lia.
  - destruct ok; injection Hs as <-; cbn; [|lia]. rewrite Z.eqb_refl. destruct (g =? me); lia.
  - destruct proc_path; [destruct verbose, ok|]; injection Hs as <-; cbn; lia.
Qed.

Lemma si_measure_resume s : measure (resume s) <= measure s - hand_weight (hand s).
Proof. unfold resume, measure, lines_left. destruct (main s) eqn:Hm; cbn; rewrite ?Hm; cbn; lia. Qed.
Lemma si_measure_handler i s s' : Inv s -> child_handler_step i s = Some s' -> measure s' < measure s.
Proof.
  intros Hi Hs. unfold child_handler_step in Hs. pose proof (i_hand _ Hi) as Hh.
  destruct (hand s) as [h|] eqn:Hha; [|done]. cbn in Hs. destruct h as [|r].
  - destruct (waitpid_nohang _ _ i (fam s)) as [[r f]|] eqn:Hw; [|done]. cbn in Hs. apply waitpid_tells in Hw. injection Hs as <-.
    destruct r as [p st| |e].
    + destruct Hw as (Ha & Hu & _ & Hl). unfold measure, lines_left, fam_weight. cbn. rewrite Hha. cbn. lia.
    + destruct Hw as (-> & _). set (s1 := with_reaped _ _). pose proof (si_measure_resume s1) as Hr.
      assert (measure s1 = measure s) as H1 by done. rewrite H1 in Hr. cbn in Hr. rewrite Hha in Hr. cbn in Hr. lia.
    + destruct Hw as (-> & _). unfold measure, lines_left. cbn. rewrite Hha. cbn. lia.
  - destruct r as [p st| |e]; [|done|]; injection Hs as <-.
    + unfold log, measure, lines_left. destruct verbose; cbn; rewrite Hha; cbn; lia.
    + destruct Hh as [-> He]. rewrite He. cbn. pose proof (si_measure_resume s) as Hr. rewrite Hha in Hr. cbn in Hr. lia.
Qed.

Lemma si_measure_event e i s s' : event_step e i s = Some s' -> measure s' < measure s.
Proof.
  unfold event_step. intros Hs. destruct (family_event e i (fam s)) as [f|] eqn:Hf; [|done]. cbn in Hs.
  destruct (family_event_law _ _ _ _ Hf) as (_ & Hl & Ha). apply family_event_untold in Hf.
  unfold measure, lines_left, fam_weight. destruct s as [fm pd h m er g inp rp o sp]. cbn in *.
  destruct (is_stop e) eqn:He; [destruct sp as [|sp]; [done|]|]; injection Hs as <-; cbn; rewrite Hl, Ha;
    destruct pd, e, (handled m); cbn; try done; lia.
Qed.

Lemma si_step_measure s s' : Inv s -> step s s' -> 0 <= measure s' < measure s.
Proof.
  intros Hi Hs. split; [apply measure_nonneg|].
  destruct Hs as [ok e pid st s s' H0 Hs|i s s' Hx Hs|s s' Hs|e i s s' Hx Hs|i s s' Hx Hs|c s s' Hx Hs].
  - by eapply si_measure_main.
  - by eapply si_measure_handler.
  - unfold deliver_step in Hs. destruct (pending s) eqn:Hp; [|done]. destruct (handled (main s)); [|done].
    case_bool_decide as H0; [|done]. injection Hs as <-. unfold measure, lines_left. cbn. rewrite Hp, H0. cbn. lia.
  - by eapply si_measure_event.
  - unfold terminal_step in Hs. destruct (fam s !! i) as [c|] eqn:Hc; [|done]. cbn in Hs. case_bool_decide as Hb; [|done].
    injection Hs as <-. destruct Hb as [_ Hg]. pose proof (i_pids _ Hi) as Hp. rewrite Forall_forall in Hp.
    assert (c_pid c <> me) as Hne by (apply Hp, list_elem_of_fmap; exists c; split; [done|]; by eapply list_elem_of_lookup_2).
    unfold measure, lines_left. cbn. rewrite (proj2 (Z.eqb_eq _ _) Hg), (proj2 (Z.eqb_neq _ _) Hne). lia.
  - unfold adopt_step in Hs. destruct s as [fm pd h m er g inp rp o sp]. cbn in *. destruct sp as [|sp]; [done|].
    case_bool_decide; [|done]. injection Hs as <-. unfold measure, lines_left, fam_weight. cbn.
    rewrite !sumZ_app, !sumZ_one, length_app. pose proof (alive_bound c). pose proof (untold_bound c). cbn.
    destruct (handled m), pd, (is_dead c); cbn; lia.
Qed.

(** * What can be said of every state *)

(** The process itself goes on, in its main program or its handler. *)
Inductive init_moves (s : istate) : Prop :=
| moves_main ok e pid st s' : hand s = None -> main_step ok e pid st s = Some s' -> init_moves s
| moves_handler i s' : child_handler_step i s = Some s' -> init_moves s
| moves_deliver s' : deliver_step s = Some s' -> init_moves s.

Lemma si_progress s : Inv s -> exited s = false ->
  init_moves s \/ (main s = I_pause /\ hand s = None /\ pending s = false).
Proof.
  intros Hi Hx. destruct (hand s) as [h|] eqn:Hh.
  - left. pose proof (i_hand _ Hi) as Hr. rewrite Hh in Hr. destruct h as [|r].
    + destruct (waitpid_some true true (fam s)) as (i & r & f & Hw). eapply (moves_handler s i).
      unfold child_handler_step. rewrite Hh. cbn. rewrite Hw. cbn. done.
    + eapply (moves_handler s 0%nat). unfold child_handler_step. rewrite Hh. cbn. done.
  - assert (Hgo : forall ok e pid st s', main_step ok e pid st s = Some s' ->
      init_moves s \/ (main s = I_pause /\ None = @None hpc /\ pending s = false)).
    { intros. left. by eapply moves_main. }
    pose proof (i_path _ Hi) as Hp. unfold main_step, exited in *. destruct (main s) eqn:Hm; try done; try (by eapply (Hgo true 0 0 0)).
    + destruct Hp as [q Hq]. eapply (Hgo true 0 0 0). by rewrite Hq.
    + destruct Hp as [q Hq]. eapply (Hgo true 0 0 0). by rewrite Hq.
    + by eapply (Hgo false 0 0 0).
    + destruct (pending s) eqn:Hpd; [left|by right]. eapply (moves_deliver s). unfold deliver_step.
      rewrite Hpd, Hm, Hh. done.
    + specialize (Hgo true 0 0 0). destruct proc_path; by eapply Hgo.
Qed.

(** With no signal pending and the handler not at work no child is dead; and the program
    goes on unless it has ended or waits in pause(), where it has no dead children. *)
Definition init_state (s : istate) : Prop :=
  (hand s = None -> pending s = false -> forall c, c ∈ fam s -> is_dead c = false) /\
  (exited s = false -> init_moves s \/
     (main s = I_pause /\ hand s = None /\ pending s = false /\ forall c, c ∈ fam s -> is_dead c = false)).

Lemma Inv_state s : Inv s -> init_state s.
Proof.
  intros Hi. assert (Hd : hand s = None -> pending s = false -> forall c, c ∈ fam s -> is_dead c = false).
  { intros Hh Hp c (i & Hc)%list_elem_of_lookup. destruct (is_dead c) eqn:Hd; [|done].
    pose proof (i_noticed _ Hi) as Hn. rewrite Hh, Hp in Hn. discriminate Hn; [done|].
    pose proof (sumZ_delete alive _ _ _ Hc) as Hs. assert (alive c = 0) as Hz by (unfold alive; by rewrite Hd).
    pose proof (sumZ_alive (delete i (fam s))) as Hb. rewrite length_delete in Hb by done. apply lookup_lt_Some in Hc. lia. }
  split; [done|]. intros Hx. destruct (si_progress s Hi Hx) as [|(Hm & Hh & Hp)]; [by left|right].
  split_and!; try done. by apply Hd.
Qed.

(** C17: The init program reaps its children. Once its handler is set, whatever the commands
    do, whichever processes it adopts, and whenever signals arrive: every run ends; when
    the handler is not at work and no SIGCHLD is pending no child is dead, so that none
    stays a zombie; the handler always returns; and the program itself can go on until it
    ends, except in pause(), where it waits for a child that lives, if there is one. *)
Theorem simple_init_correct f g lines n :
  Forall (fun p => p <> me) (c_pid <$> f) -> (forall c, c ∈ f -> is_dead c = false) ->
  sn step (ready f g lines n) /\ forall s, rtc step (ready f g lines n) s -> init_state s.
Proof.
  intros Hp Hf. pose proof (Inv_ready f g lines n Hp Hf) as H0. split.
  - by apply (sn_measure step Inv si_Inv_step measure); [apply si_step_measure|].
  - intros s Hr. apply Inv_state. by apply (reach_inv step Inv si_Inv_step (ready f g lines n)).
Qed.
End program.

(** * Runs *)

Inductive choice := Main (ok : bool) (e pid st : Z) | Handler (i : nat) | Deliver | Event (e : event) (i : nat) | Terminal (i : nat) | Adopt (c : child).
Section runs.
Context (strerror : Z -> bytes) (opts : list (ascii * bytes)) (me : Z).
Definition move (c : choice) (s : istate) : option istate :=
  match c with
  | Main ok e pid st => if bool_decide (hand s = None) then main_step strerror opts me ok e pid st s else None
  | Handler i => if exited s then None else child_handler_step strerror opts i s
  | Deliver => deliver_step s
  | Event e i => if exited s then None else event_step e i s
  | Terminal i => if exited s then None else terminal_step me i s
  | Adopt c => if exited s then None else adopt_step me c s
  end.
Lemma move_step c s s' : move c s = Some s' -> step strerror opts me s s'.
Proof.
  unfold move. destruct c; try (destruct (exited s) eqn:Hx; [done|]); intros Hs.
  - case_bool_decide; [|done]. by eapply step_main.
  - by eapply step_handler.
  - by eapply step_deliver.
  - by eapply step_event.
  - by eapply step_terminal.
  - by eapply step_adopt.
Qed.
Lemma moves l s : rtc (step strerror opts me) s (run_choices move l s).
Proof. apply run_choices_rtc, move_step. Qed.
End runs.

(** Process 1, without options. *)
Definition go : choice := Main true 0 2 0.
Definition no_error (e : Z) : bytes := [].
Definition one_command : istate := ready [] 1 [] 0 [str "true" ++ [newline]] 1.
Definition to_created : list choice := replicate 4 go.

Lemma simple_init_correct_witness : exists s, s = run_choices (move no_error [] 1) (to_created ++ [go; Event Exits 0]) one_command /\
  main s = I_pause /\ pending s = true /\ init_state no_error [] 1 s.
Proof.
  eexists. split; [reflexivity|]. split; [by vm_compute|]. split; [by vm_compute|].
  apply (simple_init_correct no_error [] 1 [] 0 [str "true" ++ [newline]] 1); [constructor|by intros c Hc%elem_of_nil|].
  apply (moves no_error [] 1).
Defined.

(** The child may end before the parent calls pause(), which then waits although no child
    is left: without another process to adopt the program hangs for good. *)
Lemma init_hangs : exists s, rtc (step no_error [] 1) one_command s /\ main s = I_pause /\ fam s = [] /\ hand s = None /\ pending s = false /\
  reaped s = [2].
Proof.
  exists (run_choices (move no_error [] 1) (to_created ++ [Event Exits 0; Deliver; Handler 0; Handler 0; Handler 0; Handler 0; go]) one_command).
  split; [apply moves|]. by vm_compute.
Qed.
(** pause() is also ended by the end of another child: the program then takes the terminal
    back, and reads the next command, while the command in the foreground runs. *)
Lemma init_takes_terminal : exists s, rtc (step no_error [] 1) one_command s /\ main s = I_fgets /\ fg s = 1 /\ fam s = [Child 2 0 Running].
Proof.
  exists (run_choices (move no_error [] 1) (to_created ++ [Terminal 0; go; Adopt (Child 9 0 Dead); Deliver; Handler 1; Handler 0; Handler 0; go]) one_command).
  split; [apply moves|]. by vm_compute.
Qed.
(** A command that stops, as on control-Z, does not end pause(). *)
Lemma init_stopped : exists s, rtc (step no_error [] 1) one_command s /\ main s = I_pause /\ pending s = false /\ hand s = None /\
  fam s = [Child 2 0 (Stopped false)].
Proof.
  exists (run_choices (move no_error [] 1) (to_created ++ [go; Event Stops 0]) one_command). split; [apply moves|]. by vm_compute.
Qed.
(** The handler changes [errno]: an error EINVAL of mount() that is to be ignored is
    reported as another. *)
Lemma handler_clobbers_errno : exists s, rtc (step no_error [("p"%char, str "/proc")] 1) (ready [("p"%char, str "/proc")] 1 [] 0 [] 1) s /\
  main s = I_mount /\ out s = [str "mount-make-slave-/: " ++ [newline]].
Proof.
  exists (run_choices (move no_error [("p"%char, str "/proc")] 1)
            [go; go; Main false EINVAL 0 0; Adopt (Child 9 0 Dead); Deliver; Handler 0; Handler 0; Handler 0; Handler 0; go]
            (ready [("p"%char, str "/proc")] 1 [] 0 [] 1)).
  split; [apply moves|]. by vm_compute.
Qed.
(** A line of blanks has no words: execvp() is called with a null pointer. *)
Section blank.
Context {S : Type} `{HasLibc S} `{CommandOS S}.
Lemma blank_command strerror cmd s s1 s2 s3 s4 :
  sys_wordexp cmd s = (Done (Some []), s1) -> sys_calloc 1 s1 = (Done (SOk tt), s2) -> sys_setpgid s2 = (Done (SOk tt), s3) ->
  sys_tcsetpgrp s3 = (Done (SOk tt), s4) -> (command_child strerror cmd s).1 = Undefined.
Proof.
  intros Hw Hc Hp Ht. unfold command_child. rewrite (bind_done _ _ s (Some []) s2).
  - unfold pchecked, checked_by. rewrite (bind_done _ _ s2 tt s3), (bind_done _ _ s3 tt s4).
    + done.
    + by rewrite (bind_done _ _ _ _ _ (call_ok _ _ _ _ Ht)).
    + by rewrite (bind_done _ _ _ _ _ (call_ok _ _ _ _ Hp)).
  - unfold expand_words. rewrite (bind_done _ _ _ _ _ Hw). unfold pchecked, checked_by. cbn [length Nat.add].
    rewrite (bind_done _ _ s1 tt s2); [done|]. by rewrite (bind_done _ _ _ _ _ (call_ok _ _ _ _ Hc)).
Qed.
End blank.
