(* ===== verification/Listener.v ===== *)
(** Notification of messages on a POSIX message queue: the queue as the kernel keeps it, the
    protocol that a program must follow to miss no message (register again first, then
    drain), and the interface through which the programs of MqNotify are shown to follow
    it. *)
From S2P Require Import Prelude CLib Sys Steps.
From stdpp Require Import relations.
#[local] Open Scope Z_scope.

Definition EBUSY : Z := 16.
Definition EMSGSIZE : Z := 90.

(** * The queue *)

Record message := Message { m_priority : Z; m_text : bytes }.
(** [todo]: what other processes are still to send; [got]: what was received here.
    [registered]: a notification has been asked for and not been given yet. *)
Record board := Board { queue : list message; todo : list message; got : list message; registered : bool }.

(** A message goes behind those of its priority. *)
Fixpoint enqueue (m : message) (q : list message) : list message :=
  match q with
  | [] => [m]
  | x :: q' => if m_priority m <=? m_priority x then x :: enqueue m q' else m :: q
  end.
Lemma enqueue_perm m q : enqueue m q ≡ₚ m :: q.
Proof. induction q as [|x q IH]; cbn; [done|]. destruct (_ <=? _); [|done]. rewrite IH. apply Permutation_swap. Qed.
Lemma enqueue_nonempty m q : enqueue m q <> [].
Proof. destruct q as [|x q]; cbn; [done|]. by destruct (_ <=? _). Qed.

(** The next message is sent, if the queue has room for it; it is told, and the
    registration used up, when the queue was empty. *)
Definition send (maxmsg : nat) (b : board) : option (bool * board) :=
  match todo b with
  | m :: rest =>
      if bool_decide (length (queue b) < maxmsg)%nat then
        let told := registered b && bool_decide (queue b = []) in
        Some (told, Board (enqueue m (queue b)) rest (got b) (registered b && negb told))
      else None
  | [] => None
  end.
(** mq_receive() on a descriptor that does not block, with a buffer of [len] bytes. *)
Definition mq_receive (msgsize len : Z) (b : board) : sysres (message * board) :=
  if len <? msgsize then SErr EMSGSIZE
  else match queue b with
       | [] => SErr EAGAIN
       | m :: q => SOk (m, Board q (todo b) (got b ++ [m]) (registered b))
       end.
(** mq_notify(); [e] is another error that it may have. *)
Definition mq_notify (ok : bool) (e : Z) (b : board) : sysres board :=
  if registered b then SErr EBUSY
  else if ok then SOk (Board (queue b) (todo b) (got b) true) else SErr e.

(** * The protocol *)

(** [woken]: who have been told of a message and are to register again; [draining]: who have
    done so and take messages until there are none. *)
Record proto := Proto { bd : board; woken : Z; draining : Z; over : bool }.
Definition live_proto (b : board) (w d : Z) : proto := Proto b w d false.

Section protocol.
(** [calm]: no call fails, so that the program has no reason to end. *)
Context (maxmsg : nat) (calm : bool).

(** [a_fail]: the program ends, as a call has failed. *)
Inductive astep : proto -> proto -> Prop :=
| a_send b w d told b' : send maxmsg b = Some (told, b') ->
    astep (live_proto b w d) (live_proto b' (if told then w + 1 else w) d)
| a_register b w d : 0 < w -> registered b = false ->
    astep (live_proto b w d) (live_proto (Board (queue b) (todo b) (got b) true) (w - 1) (d + 1))
| a_receive b w d m q : 0 < d -> queue b = m :: q ->
    astep (live_proto b w d) (live_proto (Board q (todo b) (got b ++ [m]) (registered b)) w d)
| a_empty b w d : 0 < d -> queue b = [] -> astep (live_proto b w d) (live_proto b w (d - 1))
| a_fail b w d w' d' : calm = false -> astep (live_proto b w d) (Proto b w' d' true).

(** All messages, and who is responsible for those in the queue. *)
Record AInv (all : list message) (p : proto) : Prop := {
  a_all : got (bd p) ++ queue (bd p) ++ todo (bd p) ≡ₚ all;
  a_pos : over p = false -> 0 <= woken p /\ 0 <= draining p;
  a_one : over p = false -> woken p + (if registered (bd p) then 1 else 0) = 1;
  a_calm : over p = true -> calm = false;
  a_served : over p = false -> queue (bd p) <> [] -> 0 < woken p \/ 0 < draining p
}.

Lemma AInv_step all p p' : AInv all p -> astep p p' -> AInv all p'.
Proof.
  intros [Ha Hp H1 Hcl Hq] Hs. destruct Hs as [b w d told b' Hs|b w d Hw Hr|b w d m q Hd Hm|b w d Hd He|b w d w' d' Hc]; cbn in *;
    try (specialize (H1 eq_refl); specialize (Hp eq_refl); specialize (Hq eq_refl)).
  - unfold send in Hs. destruct (todo b) as [|m rest] eqn:Ht; [done|]. case_bool_decide; [|done]. injection Hs as <- <-.
    split; cbn; try done; try intros _.
    + rewrite enqueue_perm. rewrite <- Ha. apply Permutation_app_head. cbn. apply Permutation_middle.
    + destruct (registered b && _); lia.
    + destruct (registered b); cbn in *; [|lia]. case_bool_decide; cbn; lia.
    + intros _. destruct (registered b); cbn in *; [|lia]. case_bool_decide as Hb; cbn; [lia|]. by apply Hq.
  - split; cbn; try done; try intros _; [lia| |lia]. rewrite Hr in H1. lia.
  - split; cbn; try done; try intros _; [|lia]. rewrite <- Ha, Hm. by rewrite <- app_assoc.
  - split; cbn; try done; try intros _; lia.
  - by split.
Qed.

(** A measure of the work that is left. *)
Definition ameasure (p : proto) : Z :=
  if over p then 0 else 1 + 5 * Z.of_nat (length (todo (bd p))) + Z.of_nat (length (queue (bd p))) + 3 * woken p + 2 * draining p.
Lemma ameasure_nonneg all p : AInv all p -> 0 <= ameasure p.
Proof. intros [_ Hp _ _ _]. unfold ameasure. destruct (over p); [lia|]. specialize (Hp eq_refl). lia. Qed.
Lemma ameasure_step all p p' : AInv all p -> astep p p' -> ameasure p' < ameasure p.
Proof.
  intros [_ Hp _ _ _] Hs. destruct Hs as [b w d told b' Hs|b w d Hw Hr|b w d m q Hd Hm|b w d Hd He|b w d w' d' Hc]; unfold ameasure; cbn in *;
    specialize (Hp eq_refl); try lia.
  - unfold send in Hs. destruct (todo b) as [|m rest] eqn:Ht; [done|]. case_bool_decide; [|done]. injection Hs as <- <-. cbn.
    rewrite (Permutation_length (enqueue_perm m (queue b))). cbn. destruct (registered b && _); lia.
  - rewrite Hm. cbn. lia.
Qed.
End protocol.

(** What is promised in every state of a program with these steps and this place in the
    protocol: no message is lost, doubled or invented; when no one is woken or draining the
    queue is empty; and if nothing can happen any more, all messages have been received or
    the program has ended as a call failed. *)
Definition misses_nothing {C} (calm : bool) (cstep : C -> C -> Prop) (view : C -> proto) (all : list message) (c : C) : Prop :=
  let b := bd (view c) in
  got b ++ queue b ++ todo b ≡ₚ all /\
  (over (view c) = false -> woken (view c) = 0 -> draining (view c) = 0 -> queue b = []) /\
  ((exists c', cstep c c') \/ (over (view c) = true /\ calm = false) \/ got b ≡ₚ all).

(** * Programs that follow it *)

(** [view] is where a state of the program stands in the protocol. Each of its steps is a
    step of the protocol, or one of finitely many of its own; and it stops only when its part
    in the protocol is done. *)
Class Listener (C : Type) (cstep : C -> C -> Prop) (maxmsg : nat) (calm : bool) := {
  view : C -> proto;
  weight : C -> Z;
  weight_max : Z;
  sound : C -> Prop;
  weight_nonneg : forall c, sound c -> 0 <= weight c;
  sound_step : forall all c c', sound c -> AInv calm all (view c) -> cstep c c' -> sound c';
  simulates : forall all c c', sound c -> AInv calm all (view c) -> cstep c c' ->
    (view c' = view c /\ weight c' < weight c) \/ (astep maxmsg calm (view c) (view c') /\ weight c' <= weight c + weight_max);
  goes_on : forall all c, sound c -> AInv calm all (view c) -> over (view c) = false -> (exists c', cstep c c') \/
    woken (view c) = 0 /\ draining (view c) = 0 /\ (todo (bd (view c)) = [] \/ (maxmsg <= length (queue (bd (view c))))%nat)
}.

Section listener.
Context {C : Type} {cstep : C -> C -> Prop} {maxmsg : nat} {calm : bool} `{!Listener C cstep maxmsg calm} (room : (0 < maxmsg)%nat).

Definition linv (all : list message) (c : C) : Prop := sound c /\ AInv calm all (view c).
Lemma linv_step all c c' : linv all c -> cstep c c' -> linv all c'.
Proof.
  intros [Hs Ha] Hc. split; [by eapply sound_step|]. destruct (simulates all c c' Hs Ha Hc) as [[-> _]|[Ht _]]; [done|].
  by eapply AInv_step.
Qed.

Definition lmeasure (c : C) : Z := (Z.max 0 weight_max + 1) * ameasure (view c) + weight c.
Lemma lmeasure_step all c c' : linv all c -> cstep c c' -> 0 <= lmeasure c' < lmeasure c.
Proof.
  intros [Hs Ha] Hc. destruct (linv_step all c c' ltac:(done) Hc) as [Hs' Ha'].
  pose proof (ameasure_nonneg _ _ _ Ha'). pose proof (weight_nonneg c' Hs'). pose proof (weight_nonneg c Hs).
  unfold lmeasure. split; [nia|]. destruct (simulates all c c' Hs Ha Hc) as [[-> Hw]|[Ht Hw]]; [lia|].
  apply (ameasure_step _ _ all) in Ht; [|done]. nia.
Qed.

Lemma listener_empty all c : linv all c -> over (view c) = false -> woken (view c) = 0 -> draining (view c) = 0 ->
  queue (bd (view c)) = [].
Proof.
  intros [_ [_ _ _ _ Hq]] Ho Hw Hd. specialize (Hq Ho). destruct (queue (bd (view c))) as [|m q]; [done|]. destruct Hq; [done|lia..].
Qed.

(** The protocol carries over: from a correct start every run ends and misses nothing. *)
Lemma listener_correct all c : sound c -> AInv calm all (view c) ->
  sn cstep c /\ forall c', rtc cstep c c' -> misses_nothing calm cstep view all c'.
Proof.
  intros Hs Ha. split.
  - by apply (sn_measure cstep (linv all) (linv_step all) lmeasure); [apply lmeasure_step|].
  - intros c' Hr. assert (Hi : linv all c') by (by apply (reach_inv cstep (linv all) (linv_step all) c)).
    pose proof (listener_empty all c' Hi) as He. destruct Hi as [Hs' Ha']. pose proof (a_all _ _ _ Ha') as Hall.
    split; [done|]. split; [done|]. destruct (over (view c')) eqn:Ho; [right; left; split; [done|exact (a_calm _ _ _ Ha' Ho)]|].
    destruct (goes_on all c' Hs' Ha' Ho) as [Hstep|(Hw & Hd & Ht)]; [by left|right; right].
    rewrite (He eq_refl Hw Hd) in *. destruct Ht as [Ht|Hfull]; [|cbn in Hfull; lia]. by rewrite Ht, app_nil_r in Hall.
Qed.
End listener.
