(* ===== verification/MqNotify.v ===== *)
(** Programs that are notified of messages: book-src/pmsg/mq_notify_sig.c and
    mq_notify_sigwaitinfo.c (which wait for a signal), mq_notify_via_signal.c and
    mq_notify_siginfo.c (whose handler sets a flag), mq_notify_thread.c and
    mq_notify_via_thread.c (where a thread is started). Each is a [Listener]. *)
From S2P Require Import Prelude CLib Sys Steps Listener.
From stdpp Require Import relations.
#[local] Open Scope Z_scope.

Definition read_line (m : message) : bytes := str "Read " ++ print_dec (Z.of_nat (length (m_text m))) ++ str " bytes" ++ [newline].

(** * Waiting for a signal *)

(** In the calls before the loop, by name; at the first mq_notify(); in the wait for the
    signal, which is blocked elsewhere; at mq_notify(), in the loop that receives, ended. *)
Inductive spc := S_setup (calls : list bytes) | S_register0 | S_wait | S_register | S_drain | S_exit.
Record sstate := SState { s_bd : board; s_pending : bool; s_pc : spc; s_out : list bytes }.
Definition s_goto (p : spc) (s : sstate) : sstate := SState (s_bd s) (s_pending s) p (s_out s).
Definition s_with (b : board) (p : spc) (s : sstate) : sstate := SState b (s_pending s) p (s_out s).
Definition s_print (o : list bytes) (s : sstate) : sstate := SState (s_bd s) (s_pending s) (s_pc s) (s_out s ++ o).

Definition sig_calls : list bytes := [str "mq_open"; str "mq_getattr"; str "malloc"; str "sigprocmask"; str "sigaction"].
(** [ok] is whether a call succeeds, [e] its error otherwise; the buffer has the size of the
    longest message of the queue. *)
(** Source: book-src/pmsg/mq_notify_sig.c:27-102 (handler, main). *)
Definition sig_step (msgsize : Z) (ok : bool) (e : Z) (s : sstate) : option sstate :=
  match s_pc s with
  | S_setup [] => Some (s_goto S_register0 s)
  | S_setup (_ :: calls) => Some (s_goto (if ok then S_setup calls else S_exit) s)
  | S_register0 => Some (match mq_notify ok e (s_bd s) with SOk b => s_with b S_wait s | SErr _ => s_goto S_exit s end)
  | S_wait => if s_pending s then Some (SState (s_bd s) false S_register (s_out s)) else None
  | S_register => Some (match mq_notify ok e (s_bd s) with SOk b => s_with b S_drain s | SErr _ => s_goto S_exit s end)
  | S_drain =>
      Some (match mq_receive msgsize msgsize (s_bd s) with
            | SOk (m, b) => s_print [read_line m] (s_with b S_drain s)
            | SErr e => s_goto (if negb (e =? EAGAIN) then S_exit else S_wait) s
            end)
  | S_exit => None
  end.

Definition sigwaitinfo_calls : list bytes := [str "mq_open"; str "mq_getattr"; str "malloc"; str "sigprocmask"].
(** [info] is what the program prints of the signal. *)
(** Source: book-src/pmsg/mq_notify_sigwaitinfo.c:34-111 (main). *)
Definition sigwaitinfo_step (info : list bytes) (msgsize : Z) (ok : bool) (e : Z) (s : sstate) : option sstate :=
  match s_pc s with
  | S_setup [] => Some (s_goto S_register0 s)
  | S_setup (_ :: calls) => Some (s_goto (if ok then S_setup calls else S_exit) s)
  | S_register0 => Some (match mq_notify ok e (s_bd s) with SOk b => s_with b S_wait s | SErr _ => s_goto S_exit s end)
  | S_wait => if s_pending s then Some (s_print info (SState (s_bd s) false S_register (s_out s))) else None
  | S_register => Some (match mq_notify ok e (s_bd s) with SOk b => s_with b S_drain s | SErr _ => s_goto S_exit s end)
  | S_drain =>
      Some (match mq_receive msgsize msgsize (s_bd s) with
            | SOk (m, b) => s_print [read_line m] (s_with b S_drain s)
            | SErr e => s_goto (if negb (e =? EAGAIN) then S_exit else S_wait) s
            end)
  | S_exit => None
  end.

Section waiting.
(** In a [calm] run no call fails. *)
Context (prog : bool -> Z -> sstate -> option sstate) (maxmsg : nat) (calm : bool).

Inductive s_step : sstate -> sstate -> Prop :=
| s_step_main ok e s s' : (calm = true -> ok = true) -> prog ok e s = Some s' -> s_step s s'
| s_step_send s told b : s_pc s <> S_exit -> send maxmsg (s_bd s) = Some (told, b) ->
    s_step s (SState b (s_pending s || told) (s_pc s) (s_out s)).
Definition s_start (calls : list bytes) (q msgs : list message) : sstate := SState (Board q msgs [] false) false (S_setup calls) [].
(** The first registration has been made, when there was no message. *)
Definition s_ready (msgs : list message) : sstate := SState (Board [] msgs [] true) false S_wait [].

Definition s_running (s : sstate) : Prop := match s_pc s with S_setup _ | S_register0 => False | _ => True end.
Definition s_woken (s : sstate) : Z := (if s_pending s then 1 else 0) + (if s_pc s is S_register then 1 else 0).
Definition s_draining (s : sstate) : Z := if s_pc s is S_drain then 1 else 0.
Definition s_view (s : sstate) : proto := Proto (s_bd s) (s_woken s) (s_draining s) (if s_pc s is S_exit then true else false).
Definition s_weight (s : sstate) : Z := if s_pc s is S_wait then 1 else 0.

(** The program does what mq_notify_sig.c does, but for its output. *)
Context (msgsize : Z) (same : forall ok e s, s_running s ->
  match prog ok e s with Some s' => exists o, sig_step msgsize ok e s = Some (SState (s_bd s') (s_pending s') (s_pc s') o) | None => sig_step msgsize ok e s = None end).

Lemma s_simulates all s s' : s_running s -> AInv calm all (s_view s) -> s_step s s' ->
  s_running s' /\ ((s_view s' = s_view s /\ s_weight s' < s_weight s) \/ (astep maxmsg calm (s_view s) (s_view s') /\ s_weight s' <= s_weight s + 1)).
Proof.
  intros Hr Ha Hs. destruct Hs as [ok e s s' Hok Hs|s told b Hx Hs].
  - pose proof (same ok e s Hr) as Hsame. rewrite Hs in Hsame. destruct Hsame as [o Hsame]. destruct s as [bd pd pc out], s' as [bd' pd' pc' out'].
    unfold sig_step, s_running, s_weight, s_view, s_woken, s_draining in *. cbn in *. clear Hs same.
    pose proof (a_one _ _ _ Ha) as H1. cbn in H1. destruct pc as [| | | | |]; try done.
    + destruct pd; [|done]. injection Hsame as <- <- <- <-. split; [done|]. left. split; [done|lia].
    + unfold mq_notify in Hsame. specialize (H1 eq_refl). destruct (registered bd) eqn:Hreg; [destruct pd; cbn in *; lia|].
      destruct ok; injection Hsame as <- <- <- <-; (split; [done|]); right; (split; [|lia]).
      * assert (pd = false) as -> by (destruct pd; [lia|done]). apply (a_register maxmsg calm bd 1 0); [lia|done].
      * apply a_fail. destruct calm; [by specialize (Hok eq_refl)|done].
    + unfold mq_receive in Hsame. rewrite Z.ltb_irrefl in Hsame. destruct (queue bd) as [|m q] eqn:Hq; injection Hsame as <- <- <- <-;
        (split; [done|]); right; (split; [|lia]).
      * cbn. apply a_empty; [lia|done].
      * apply a_receive; [lia|done].
  - destruct s as [bd pd pc out]. unfold s_running, s_weight, s_view, s_woken, s_draining in *. cbn in *. split; [done|]. right.
    split; [|lia]. pose proof (a_one _ _ _ Ha) as H1. cbn in H1.
    assert (Ho : (if pc is S_exit then true else false) = false) by (by destruct pc). rewrite Ho in *. specialize (H1 eq_refl).
    replace ((if pd || told then 1 else 0) + (if pc is S_register then 1 else 0)) with
      (if told then (if pd then 1 else 0) + (if pc is S_register then 1 else 0) + 1 else (if pd then 1 else 0) + (if pc is S_register then 1 else 0)).
    + by apply a_send.
    + destruct told; [|by rewrite orb_false_r]. unfold send in Hs. destruct (todo bd); [done|]. case_bool_decide; [|done].
      injection Hs as Ht _. apply andb_true_iff in Ht as [Ht _]. rewrite Ht in H1. destruct pd, pc; cbn in *; lia.
Qed.

Lemma send_goes_on b : (exists told b', send maxmsg b = Some (told, b')) \/ todo b = [] \/ (maxmsg <= length (queue b))%nat.
Proof. unfold send. destruct (todo b); [by right; left|]. case_bool_decide; [left; by do 2 eexists|right; right; lia]. Qed.

#[local] Instance s_listener : Listener sstate s_step maxmsg calm.
Proof.
  refine {| view := s_view; weight := s_weight; weight_max := 1; sound := s_running |}.
  - intros s _. unfold s_weight. destruct (s_pc s); lia.
  - intros all s s' Hr Ha Hs. by apply (s_simulates all s s').
  - intros all s s' Hr Ha Hs. by apply (s_simulates all s s').
  - intros all s Hr Ha Ho. unfold s_view in *. cbn in *.
    assert (Hgo : is_Some (sig_step msgsize true 0 s) -> exists s', s_step s s').
    { intros [s' Hs]. pose proof (same true 0 s Hr) as Hsame. destruct (prog true 0 s) as [s1|] eqn:Hp; [|congruence].
      exists s1. by eapply (s_step_main true 0). }
    unfold sig_step, s_running in *. destruct (s_pc s) eqn:Hpc; try done; try (left; apply Hgo; by eexists).
    unfold s_woken, s_draining. rewrite Hpc. destruct (s_pending s) eqn:Hp; [left; apply Hgo; by eexists|].
    destruct (send_goes_on (s_bd s)) as [(told & b & Hs)|Hno]; [left; eexists; eapply s_step_send; [by rewrite Hpc|done]|right].
    split_and!; done.
Defined.
End waiting.

(** * A flag set by the handler *)

(** In the calls before the loop; in the loop, at the test of the flag, at mq_notify(), in
    the loop that receives, at the output of [j], in sleep(); ended. *)
Inductive fpc := F_open | F_sigaction | F_getattr | F_malloc | F_test | F_register | F_drain | F_print | F_sleep | F_exit.
Record fstate := FState { f_bd : board; f_pending : bool; f_gotSig : bool; f_pc : fpc; f_j : Z; f_out : list bytes }.
Definition f_goto (p : fpc) (s : fstate) : fstate := FState (f_bd s) (f_pending s) (f_gotSig s) p (f_j s) (f_out s).
Definition f_with (b : board) (p : fpc) (s : fstate) : fstate := FState b (f_pending s) (f_gotSig s) p (f_j s) (f_out s).
Definition f_print (l : bytes) (s : fstate) : fstate := FState (f_bd s) (f_pending s) (f_gotSig s) (f_pc s) (f_j s) (f_out s ++ [l]).
Definition f_flag (g : bool) (s : fstate) : fstate := FState (f_bd s) (f_pending s) g (f_pc s) (f_j s) (f_out s).

(** Source: book-src/pmsg/mq_notify_via_signal.c:29-37 (gotSig, handler). *)
Definition flag_handler (s : fstate) : fstate := f_flag true (FState (f_bd s) false (f_gotSig s) (f_pc s) (f_j s) (f_out s)).
(** The loop of both programs, with a buffer of [len] bytes. *)
(** Source: book-src/pmsg/mq_notify_via_signal.c:82-107 (main, loop). *)
Definition flag_loop (msgsize len : Z) (ok : bool) (e : Z) (s : fstate) : option fstate :=
  match f_pc s with
  | F_test => Some (if f_gotSig s then f_goto F_register (f_flag false s) else f_goto F_print s)
  | F_register => Some (match mq_notify ok e (f_bd s) with SOk b => f_with b F_drain s | SErr _ => f_goto F_exit s end)
  | F_drain =>
      Some (match mq_receive msgsize len (f_bd s) with
            | SOk (m, b) => f_print (read_line m) (f_with b F_drain s)
            | SErr e => f_goto (if negb (e =? EAGAIN) then F_exit else F_print) s
            end)
  | F_print => Some (f_goto F_sleep (f_print (str "j = " ++ print_dec (f_j s) ++ [newline]) s))
  | F_sleep => Some (FState (f_bd s) (f_pending s) (f_gotSig s) F_test (i32 (f_j s + 1)) (f_out s))
  | _ => None
  end.
(** Source: book-src/pmsg/mq_notify_via_signal.c:39-107 (main). *)
Definition via_signal_step (msgsize : Z) (ok : bool) (e : Z) (s : fstate) : option fstate :=
  let next p := Some (f_goto (if ok then p else F_exit) s) in
  match f_pc s with
  | F_open => next F_sigaction
  | F_sigaction => next F_getattr
  | F_getattr => next F_malloc
  | F_malloc => next F_test
  | _ => flag_loop msgsize msgsize ok e s
  end.

(** The handler of the other program also prints [who] sent the signal. *)
(** Source: book-src/pmsg/mq_notify_siginfo.c:29-39 (gotSig, handler). *)
Definition siginfo_handler (who : Z) (s : fstate) : fstate :=
  f_print (str "Signaled: si_pid = " ++ print_dec who ++ [newline]) (flag_handler s).
Definition MAX_MSG_SIZE : Z := 8192.
(** Source: book-src/pmsg/mq_notify_siginfo.c:41-99 (main). *)
Definition siginfo_step (msgsize : Z) (ok : bool) (e : Z) (s : fstate) : option fstate :=
  let next p := Some (f_goto (if ok then p else F_exit) s) in
  match f_pc s with
  | F_open => next F_sigaction
  | F_sigaction => next F_test
  | F_getattr | F_malloc => None
  | _ => flag_loop msgsize MAX_MSG_SIZE ok e s
  end.

Section flags.
Context (prog : bool -> Z -> fstate -> option fstate) (handler : fstate -> fstate) (maxmsg : nat) (calm : bool).

(** Rounds of the loop that only wait are not steps: they change [j] and print it. *)
Definition f_idle (s : fstate) : Prop := f_pc s = F_sleep /\ f_gotSig s = false.
Inductive f_step : fstate -> fstate -> Prop :=
| f_step_main ok e s s' : (calm = true -> ok = true) -> ~ f_idle s -> prog ok e s = Some s' -> f_step s s'
| f_step_handler s : f_pc s <> F_exit -> f_pending s = true -> f_step s (handler s)
| f_step_send s told b : f_pc s <> F_exit -> send maxmsg (f_bd s) = Some (told, b) ->
    f_step s (FState b (f_pending s || told) (f_gotSig s) (f_pc s) (f_j s) (f_out s)).
(** [q] is in the queue already, [msgs] will be sent. *)
Definition f_start (q msgs : list message) : fstate := FState (Board q msgs [] false) false true F_open 0 [].

Definition b2z (b : bool) : Z := if b then 1 else 0.
Definition f_woken (s : fstate) : Z := b2z (f_pending s) + b2z (f_gotSig s) + (if f_pc s is F_register then 1 else 0).
Definition f_draining (s : fstate) : Z := if f_pc s is F_drain then 1 else 0.
Definition f_over (s : fstate) : bool := if f_pc s is F_exit then true else false.
Definition f_view (s : fstate) : proto := Proto (f_bd s) (f_woken s) (f_draining s) (f_over s).
(** How far the loop is from its next test of the flag. *)
Definition f_weight (s : fstate) : Z :=
  10 * b2z (f_pending s) +
  match f_pc s with
  | F_open => 8 | F_sigaction => 7 | F_getattr => 6 | F_malloc => 5
  | F_test => if f_gotSig s then 1 else 4
  | F_print => 3
  | F_sleep => 2
  | F_register | F_drain | F_exit => 0
  end.

Context (msgsize len : Z) (fits : msgsize <= len).
Definition setup_pc (p : fpc) : bool := match p with F_open | F_sigaction | F_getattr | F_malloc => true | _ => false end.
(** The program: in the set-up each call goes on to a later one, or to the loop, or ends the
    program; then come the loop and the handler of above. *)
Context (used : fpc -> bool) (used_loop : forall p, setup_pc p = false -> used p = true).
Context (in_setup : forall ok e s, setup_pc (f_pc s) = true -> used (f_pc s) = true ->
  exists p, prog ok e s = Some (f_goto p s) /\ used p = true /\
    (p = F_exit /\ ok = false \/ (setup_pc p = true \/ p = F_test) /\ f_weight (f_goto p s) < f_weight s)).
Context (in_loop : forall ok e s, setup_pc (f_pc s) = false -> prog ok e s = flag_loop msgsize len ok e s).
Context (on_signal : forall s, exists o, handler s = FState (f_bd s) false true (f_pc s) (f_j s) o).

Definition f_moved (s s' : fstate) : Prop := used (f_pc s') = true /\
  ((f_view s' = f_view s /\ f_weight s' < f_weight s) \/ (astep maxmsg calm (f_view s) (f_view s') /\ f_weight s' <= f_weight s + 20)).
Lemma f_weight_bound s : 0 <= f_weight s <= 18.
Proof. unfold f_weight, b2z. destruct (f_pending s), (f_pc s), (f_gotSig s); lia. Qed.
(** A step of the protocol, whatever it does to the weight. *)
Lemma f_protocol s s' : used (f_pc s') = true -> astep maxmsg calm (f_view s) (f_view s') -> f_moved s s'.
Proof. intros Hu Ha. split; [done|right]. split; [done|]. pose proof (f_weight_bound s). pose proof (f_weight_bound s'). lia. Qed.

Lemma f_loop_simulates all ok e s s' : (calm = true -> ok = true) -> setup_pc (f_pc s) = false -> AInv calm all (f_view s) -> ~ f_idle s ->
  flag_loop msgsize len ok e s = Some s' -> f_moved s s'.
Proof.
  intros Hok Hpc Ha Hid Hs. destruct s as [b pd g p j o]. unfold flag_loop in Hs. pose proof (a_one _ _ _ Ha) as H1.
  unfold f_idle, f_view, f_over, f_woken, f_draining in *. cbn in *.
  destruct p; try done; cbn in *; try (specialize (H1 eq_refl)).
  - injection Hs as <-. split; [destruct g; by apply used_loop|left]. unfold f_view, f_woken, f_weight. destruct g; cbn; (split; [f_equal; lia|lia]).
  - unfold mq_notify in Hs. destruct (registered b) eqn:Hr; rewrite ?Hr in *; [destruct pd, g; cbn in *; lia|].
    destruct ok; injection Hs as <-; (apply f_protocol; [by apply used_loop|]).
    + assert (pd = false /\ g = false) as [-> ->] by (destruct pd, g; cbn in *; (lia || done)). apply (a_register maxmsg calm b 1 0); [lia|done].
    + apply a_fail. destruct calm; [by specialize (Hok eq_refl)|done].
  - unfold mq_receive in Hs. rewrite (proj2 (Z.ltb_ge _ _) fits) in Hs.
    destruct (queue b) as [|m q] eqn:Hq; injection Hs as <-; (apply f_protocol; [by apply used_loop|]).
    + apply (a_empty maxmsg calm b _ 1); [lia|done].
    + apply (a_receive maxmsg calm b _ 1 m q); [lia|done].
  - injection Hs as <-. split; [by apply used_loop|left]. unfold f_view, f_woken, f_weight. cbn. split; [done|lia].
  - injection Hs as <-. split; [by apply used_loop|left]. unfold f_view, f_woken, f_weight. cbn. split; [done|].
    destruct g; [lia|by destruct Hid].
Qed.

Lemma f_simulates all s s' : used (f_pc s) = true -> AInv calm all (f_view s) -> f_step s s' -> f_moved s s'.
Proof.
  intros Hu Ha Hs. destruct Hs as [ok e s s' Hok Hid Hs|s Hx Hp|s told b Hx Hs].
  - destruct (setup_pc (f_pc s)) eqn:Hpc; [|rewrite in_loop in Hs by done; by eapply f_loop_simulates].
    destruct (in_setup ok e s Hpc Hu) as (p & Hp & Hup & Hw). rewrite Hp in Hs. injection Hs as <-.
    destruct s as [b pd g p0 j o]. cbn in *. destruct Hw as [[-> ->]|[Hp' Hw]].
    + apply f_protocol; [done|]. unfold f_view, f_over. cbn. assert (Hc : calm = false) by (destruct calm; [by specialize (Hok eq_refl)|done]).
      destruct p0; try done; by apply a_fail.
    + split; [done|left]. split; [|done]. unfold f_view, f_woken, f_draining, f_over. cbn.
      destruct p0; try done; destruct Hp' as [Hp'| ->]; try done; by destruct p.
  - destruct (on_signal s) as [o Ho]. rewrite Ho. destruct s as [b pd g p j o']. cbn in *. subst pd. pose proof (a_one _ _ _ Ha) as H1.
    unfold f_view, f_over, f_woken, f_weight in *. cbn in *. split; [done|left]. unfold f_view, f_woken, f_weight, f_over. cbn.
    destruct p; try done; specialize (H1 eq_refl); destruct g, (registered b); cbn in *; (split; [f_equal; lia|lia]) || lia.
  - apply f_protocol; [done|]. destruct s as [b0 pd g p j o]. pose proof (a_one _ _ _ Ha) as H1.
    unfold f_view, f_over, f_woken, f_draining in *. cbn in *.
    assert (Hov : (if p is F_exit then true else false) = false) by (by destruct p). rewrite Hov in *. specialize (H1 eq_refl).
    replace (b2z (pd || told) + b2z g + (if p is F_register then 1 else 0)) with
      (if told then b2z pd + b2z g + (if p is F_register then 1 else 0) + 1 else b2z pd + b2z g + (if p is F_register then 1 else 0)).
    + by apply a_send.
    + destruct told; [|by rewrite orb_false_r]. unfold send in Hs. destruct (todo b0); [done|]. case_bool_decide; [|done].
      injection Hs as Ht _. apply andb_true_iff in Ht as [Ht _]. rewrite Ht in H1. destruct pd, g, p; cbn in *; lia.
Qed.

#[local] Instance f_listener : Listener fstate f_step maxmsg calm.
Proof.
  refine {| view := f_view; weight := f_weight; weight_max := 20; sound := fun s => used (f_pc s) = true |}.
  - intros s _. apply f_weight_bound.
  - intros all s s' Hu Ha Hs. by apply (f_simulates all s s').
  - intros all s s' Hu Ha Hs. by apply (f_simulates all s s').
  - intros all s Hu Ha Ho. unfold f_view in *. cbn in *.
    assert (Hgo : forall s', ~ f_idle s -> prog true 0 s = Some s' -> exists s', f_step s s') by (intros; eexists; by eapply (f_step_main true 0)).
    destruct (setup_pc (f_pc s)) eqn:Hpc.
    { left. destruct (in_setup true 0 s Hpc Hu) as (p & Hp & _). eapply Hgo; [|exact Hp]. intros [Hs _]. by rewrite Hs in Hpc. }
    rewrite (in_loop true 0 s Hpc) in Hgo. unfold flag_loop, f_idle, f_over, f_woken, f_draining in *.
    destruct (f_pc s) eqn:Hp; try done; try (left; eapply Hgo; [by intros []|done]).
    destruct (f_gotSig s) eqn:Hg; [left; eapply Hgo; [by intros []|done]|].
    destruct (f_pending s) eqn:Hpd; [left; eexists; apply f_step_handler; congruence|].
    destruct (send_goes_on maxmsg (f_bd s)) as [(told & b & Hs)|Hno]; [left; eexists; eapply f_step_send; [congruence|done]|by right].
Defined.
End flags.

(** * A thread started by the notification *)

(** A thread: in mq_getattr(), malloc(), notifySetup(), in the loop that receives, in
    free(), returned. *)
Inductive tpc := T_getattr | T_malloc | T_register | T_drain | T_free | T_done.
#[export] Instance tpc_eq_dec : EqDecision tpc.
Proof. solve_decision. Defined.
(** main(): in mq_open(), in the first notifySetup(), in what threads do as well; after that
    it is in pause(). *)
Inductive tmain := TM_open | TM_register | TM_run (p : tpc) | TM_exit.
Record tstate := TState { t_bd : board; t_threads : list tpc; t_main : tmain; t_out : list bytes }.
Definition t_exit (s : tstate) : tstate := TState (t_bd s) (t_threads s) TM_exit (t_out s).
(** What a step of a thread does; [Ends]: errExit(). *)
Inductive tres := Go (b : board) (p : tpc) (o : list bytes) | Ends.

(** Both programs receive until the queue is empty. *)
Definition receive_all (msgsize : Z) (b : board) : tres :=
  match mq_receive msgsize msgsize b with
  | SOk (m, b') => Go b' T_drain [read_line m]
  | SErr e => if negb (e =? EAGAIN) then Ends else Go b T_free []
  end.
(** Source: book-src/pmsg/mq_notify_thread.c:63-76 (notifySetup). *)
Definition notifySetup (ok : bool) (e : Z) (next : tpc) (b : board) : tres :=
  match mq_notify ok e b with SOk b' => Go b' next [] | SErr _ => Ends end.

(** Source: book-src/pmsg/mq_notify_thread.c:30-61 (threadFunc). *)
Definition thread_step (msgsize : Z) (ok : bool) (e : Z) (b : board) (p : tpc) : option tres :=
  match p with
  | T_getattr => Some (if ok then Go b T_malloc [] else Ends)
  | T_malloc => Some (if ok then Go b T_register [] else Ends)
  | T_register => Some (notifySetup ok e T_drain b)
  | T_drain => Some (receive_all msgsize b)
  | T_free => Some (Go b T_done [])
  | T_done => None
  end.
(** Source: book-src/pmsg/mq_notify_via_thread.c:27-57 (drainQueue). *)
Definition drainQueue_step (msgsize : Z) (ok : bool) (b : board) (p : tpc) : option tres :=
  match p with
  | T_getattr => Some (if ok then Go b T_malloc [] else Ends)
  | T_malloc => Some (if ok then Go b T_drain [] else Ends)
  | T_drain => Some (receive_all msgsize b)
  | T_free => Some (Go b T_done [])
  | T_register | T_done => None
  end.
(** Source: book-src/pmsg/mq_notify_via_thread.c:59-70 (threadFunc). *)
Definition via_thread_step (msgsize : Z) (ok : bool) (e : Z) (b : board) (p : tpc) : option tres :=
  match p with
  | T_register => Some (notifySetup ok e T_getattr b)
  | _ => drainQueue_step msgsize ok b p
  end.

(** main() of the two programs. *)
(** Source: book-src/pmsg/mq_notify_thread.c:78-92 (main). *)
Definition thread_main (ok : bool) (e : Z) (s : tstate) : option tstate :=
  match t_main s with
  | TM_open => Some (if ok then TState (t_bd s) (t_threads s) TM_register (t_out s) else t_exit s)
  | TM_register =>
      Some (match mq_notify ok e (t_bd s) with
            | SOk b => TState b (t_threads s) (TM_run T_done) (t_out s)
            | SErr _ => t_exit s
            end)
  | TM_run _ | TM_exit => None
  end.
(** Source: book-src/pmsg/mq_notify_via_thread.c:87-104 (main). *)
Definition via_thread_main (msgsize : Z) (ok : bool) (e : Z) (s : tstate) : option tstate :=
  match t_main s with
  | TM_open => Some (if ok then TState (t_bd s) (t_threads s) (TM_run T_register) (t_out s) else t_exit s)
  | TM_run p =>
      r ← via_thread_step msgsize ok e (t_bd s) p;
      Some (match r with
            | Go b p o => TState b (t_threads s) (TM_run p) (t_out s ++ o)
            | Ends => t_exit s
            end)
  | TM_register | TM_exit => None
  end.

Section threads.
Context (thread : bool -> Z -> board -> tpc -> option tres) (main : bool -> Z -> tstate -> option tstate) (first : tpc) (maxmsg : nat) (calm : bool).

Inductive t_step : tstate -> tstate -> Prop :=
| t_step_thread ok e i p r s : (calm = true -> ok = true) -> t_main s <> TM_exit -> t_threads s !! i = Some p -> thread ok e (t_bd s) p = Some r ->
    t_step s (match r with
              | Go b p o => TState b (<[i:=p]> (t_threads s)) (t_main s) (t_out s ++ o)
              | Ends => t_exit s
              end)
| t_step_main ok e s s' : (calm = true -> ok = true) -> main ok e s = Some s' -> t_step s s'
| t_step_send s told b : t_main s <> TM_exit -> send maxmsg (t_bd s) = Some (told, b) ->
    t_step s (TState b (t_threads s ++ if told then [first] else []) (t_main s) (t_out s)).
Definition t_start (q msgs : list message) : tstate := TState (Board q msgs [] false) [] TM_open [].
Definition t_ready (msgs : list message) : tstate := TState (Board [] msgs [] true) [] (TM_run T_done) [].

(** Threads that are still to register, and those that receive. *)
Context (wk dr : tpc -> Z).
Definition main_part (f : tpc -> Z) (m : tmain) : Z := match m with TM_open | TM_register => f T_register | TM_run p => f p | TM_exit => 0 end.
Definition t_over (s : tstate) : bool := if t_main s is TM_exit then true else false.
Definition t_view (s : tstate) : proto :=
  Proto (t_bd s) (sumZ wk (t_threads s) + main_part wk (t_main s)) (sumZ dr (t_threads s) + main_part dr (t_main s)) (t_over s).
Definition pc_weight (p : tpc) : Z := match p with T_getattr => 4 | T_malloc => 3 | T_free => 1 | T_register | T_drain | T_done => 0 end.
Definition main_weight (m : tmain) : Z := match m with TM_open => 6 | TM_register => 5 | TM_run p => pc_weight p | TM_exit => 0 end.
Definition t_weight (s : tstate) : Z := sumZ pc_weight (t_threads s) + main_weight (t_main s).

(** One thread, in the protocol. *)
Inductive thread_move (ok : bool) (b : board) (p : tpc) : tres -> Prop :=
| move_own p' o : wk p' = wk p -> dr p' = dr p -> pc_weight p' < pc_weight p -> thread_move ok b p (Go b p' o)
| move_register p' o : registered b = false -> wk p = 1 -> dr p = 0 -> wk p' = 0 -> dr p' = 1 ->
    thread_move ok b p (Go (Board (queue b) (todo b) (got b) true) p' o)
| move_receive m q o : queue b = m :: q -> dr p = 1 ->
    thread_move ok b p (Go (Board q (todo b) (got b ++ [m]) (registered b)) p o)
| move_empty p' o : queue b = [] -> wk p = 0 -> dr p = 1 -> wk p' = 0 -> dr p' = 0 -> thread_move ok b p (Go b p' o)
| move_ends : ok = false -> thread_move ok b p Ends.
Context (in_protocol : forall ok e b p r, (0 < wk p -> registered b = false) -> thread ok e b p = Some r -> thread_move ok b p r).
Context (nonneg : forall p, 0 <= wk p /\ 0 <= dr p) (first_woken : wk first = 1 /\ dr first = 0).
Context (done_idle : wk T_done = 0 /\ dr T_done = 0) (thread_goes : forall b p, p <> T_done -> is_Some (thread true 0 b p)).
(** main() is such a thread, once the file is open. *)
Context (opened : tmain -> Prop).
Context (main_moves : forall ok e s s', opened (t_main s) -> (0 < main_part wk (t_main s) -> registered (t_bd s) = false) -> main ok e s = Some s' ->
  (s' = t_exit s /\ ok = false) \/
  (t_main s = TM_open /\ s' = TState (t_bd s) (t_threads s) (TM_run T_register) (t_out s) /\ opened (TM_run T_register)) \/
  (exists p r, t_main s = TM_run p /\ thread_move ok (t_bd s) p r /\
     match r with Go b p' o => s' = TState b (t_threads s) (TM_run p') (t_out s ++ o) /\ opened (TM_run p') | Ends => s' = t_exit s end)).
Context (main_goes : forall s, opened (t_main s) -> t_main s <> TM_exit -> is_Some (main true 0 s) \/ t_main s = TM_run T_done).
Context (exit_ends : forall ok e s, t_main s = TM_exit -> main ok e s = None).

Lemma pc_weight_bound p : 0 <= pc_weight p <= 4.
Proof. by destruct p. Qed.
Lemma main_weight_bound m : 0 <= main_weight m <= 6.
Proof. destruct m; cbn; try lia. pose proof (pc_weight_bound p). lia. Qed.

(** A thread among others that are worth [w0] and [d0]. *)
Lemma thread_astep ok b p r w0 d0 : 0 <= w0 -> 0 <= d0 -> thread_move ok b p r ->
  match r with
  | Go b' p' _ => (b' = b /\ wk p' = wk p /\ dr p' = dr p /\ pc_weight p' < pc_weight p) \/
      astep maxmsg calm (live_proto b (w0 + wk p) (d0 + dr p)) (live_proto b' (w0 + wk p') (d0 + dr p'))
  | Ends => ok = false
  end.
Proof.
  intros Hw Hd Hm. destruct Hm as [p' o Hwk Hdr Hpw|p' o Hr H1 H0 H0' H1'|m q o Hq H1|p' o Hq H0 H1 H0' H1'|]; [by left|right..|done].
  - rewrite H1, H0, H0', H1'. replace (w0 + 0) with (w0 + 1 - 1) by lia. rewrite Z.add_0_r. apply a_register; [lia|done].
  - rewrite H1. apply (a_receive maxmsg calm b _ _ m q); [lia|done].
  - rewrite H0, H1, H0', H1'. replace (d0 + 0) with (d0 + 1 - 1) by lia. apply a_empty; [lia|done].
Qed.

Definition t_moved (s s' : tstate) : Prop := (opened (t_main s') \/ t_main s' = TM_exit) /\
  ((t_view s' = t_view s /\ t_weight s' < t_weight s) \/ (astep maxmsg calm (t_view s) (t_view s') /\ t_weight s' <= t_weight s + 10)).

Lemma t_view_live s : t_over s = false -> t_view s =
  live_proto (t_bd s) (sumZ wk (t_threads s) + main_part wk (t_main s)) (sumZ dr (t_threads s) + main_part dr (t_main s)).
Proof. intros Ho. unfold t_view. by rewrite Ho. Qed.
Lemma t_exits ok s : (calm = true -> ok = true) -> ok = false -> t_over s = false -> t_moved s (t_exit s).
Proof.
  intros Hok -> Ho. split; [by right|right]. rewrite t_view_live by done. split; [apply a_fail; destruct calm; [by specialize (Hok eq_refl)|done]|].
  unfold t_weight. cbn. pose proof (main_weight_bound (t_main s)). lia.
Qed.

Lemma parts_nonneg s : 0 <= sumZ wk (t_threads s) /\ 0 <= sumZ dr (t_threads s) /\ 0 <= main_part wk (t_main s) /\ 0 <= main_part dr (t_main s).
Proof.
  split; [apply sumZ_nonneg; intros; apply nonneg|]. split; [apply sumZ_nonneg; intros; apply nonneg|].
  destruct (t_main s); cbn; split; try apply nonneg; done.
Qed.
Lemma registered_one all s w : AInv calm all (t_view s) -> t_over s = false -> w <= woken (t_view s) -> 0 < w -> registered (t_bd s) = false.
Proof.
  intros Ha Ho Hw Hp. pose proof (a_one _ _ _ Ha) as H1. unfold t_view in H1, Hw. cbn in H1, Hw. specialize (H1 Ho).
  destruct (registered (t_bd s)); [lia|done].
Qed.
Lemma not_over s : t_main s <> TM_exit -> t_over s = false.
Proof. unfold t_over. by destruct (t_main s). Qed.

Lemma t_thread_moved all s ok e i p r : (calm = true -> ok = true) -> opened (t_main s) -> AInv calm all (t_view s) -> t_main s <> TM_exit ->
  t_threads s !! i = Some p -> thread ok e (t_bd s) p = Some r ->
  t_moved s (match r with Go b p o => TState b (<[i:=p]> (t_threads s)) (t_main s) (t_out s ++ o) | Ends => t_exit s end).
Proof.
  intros Hok Hop Ha Hx Hi Hr. pose proof (not_over s Hx) as Ho. pose proof (parts_nonneg s) as (Hw & Hd & Hmw & Hmd).
  assert (Hwp : wk p <= sumZ wk (t_threads s)) by (eapply (sumZ_elem wk); [intros; apply nonneg|done]).
  assert (Hdp : dr p <= sumZ dr (t_threads s)) by (eapply (sumZ_elem dr); [intros; apply nonneg|done]).
  assert (Hm : thread_move ok (t_bd s) p r).
  { eapply in_protocol; [|done]. intros Hp. eapply (registered_one all s (wk p)); [done..|cbn; lia|done]. }
  apply (thread_astep _ _ _ _ (sumZ wk (t_threads s) - wk p + main_part wk (t_main s)) (sumZ dr (t_threads s) - dr p + main_part dr (t_main s))) in Hm;
    [|lia..]. destruct r as [b p' o|]; [|by apply (t_exits ok)]. split; [by left|].
  rewrite (t_view_live s Ho), (t_view_live (TState _ _ _ _)) by (by apply not_over). cbn [t_bd t_threads t_main].
  unfold t_weight. cbn [t_bd t_threads t_main]. rewrite !(sumZ_insert _ _ _ _ _ Hi). destruct Hm as [(-> & -> & -> & Hlt)|Hst].
  - left. split; [f_equal; lia|lia].
  - right. pose proof (pc_weight_bound p). pose proof (pc_weight_bound p'). split; [|lia].
    replace (sumZ wk (t_threads s) + main_part wk (t_main s)) with (sumZ wk (t_threads s) - wk p + main_part wk (t_main s) + wk p) by lia.
    replace (sumZ dr (t_threads s) + main_part dr (t_main s)) with (sumZ dr (t_threads s) - dr p + main_part dr (t_main s) + dr p) by lia.
    replace (sumZ wk (t_threads s) - wk p + wk p' + main_part wk (t_main s)) with (sumZ wk (t_threads s) - wk p + main_part wk (t_main s) + wk p') by lia.
    replace (sumZ dr (t_threads s) - dr p + dr p' + main_part dr (t_main s)) with (sumZ dr (t_threads s) - dr p + main_part dr (t_main s) + dr p') by lia.
    exact Hst.
Qed.

Lemma t_main_moved all s ok e s' : (calm = true -> ok = true) -> opened (t_main s) -> AInv calm all (t_view s) -> main ok e s = Some s' -> t_moved s s'.
Proof.
  intros Hok Hop Ha Hs. assert (Ho : t_over s = false).
  { apply not_over. intros Hx. by rewrite exit_ends in Hs. }
  pose proof (parts_nonneg s) as (Hw & Hd & Hmw & Hmd).
  destruct (main_moves ok e s s' Hop) as [[-> Hf]|[(Hm & -> & Hop')|(p & r & Hm & Hmv & Hr)]]; [|done|by apply (t_exits ok)|..].
  - intros Hp. eapply (registered_one all s (main_part wk (t_main s))); [done..|cbn; lia|done].
  - split; [by left|left]. unfold t_view, t_weight, t_over. cbn. rewrite Hm. split; [done|cbn; lia].
  - apply (thread_astep _ _ _ _ (sumZ wk (t_threads s)) (sumZ dr (t_threads s))) in Hmv; [|done..].
    destruct r as [b p' o|]; [|subst s'; by apply (t_exits ok)]. destruct Hr as [-> Hop']. split; [by left|].
    rewrite (t_view_live s Ho), (t_view_live (TState _ _ _ _)) by (by apply not_over). cbn [t_bd t_threads t_main].
    unfold t_weight. cbn [t_bd t_threads t_main]. rewrite Hm. cbn [main_part main_weight].
    pose proof (pc_weight_bound p). pose proof (pc_weight_bound p').
    destruct Hmv as [(-> & -> & -> & Hlt)|Hst]; [left; split; [done|lia]|right; split; [done|lia]].
Qed.

Lemma t_simulates all s s' : opened (t_main s) \/ t_main s = TM_exit -> AInv calm all (t_view s) -> t_step s s' -> t_moved s s'.
Proof.
  intros Hop Ha Hs. destruct Hs as [ok e i p r s Hok Hx Hi Hr|ok e s s' Hok Hs|s told b Hx Hs].
  - destruct Hop as [Hop|]; [|done]. by eapply t_thread_moved.
  - destruct Hop as [Hop|Hx]; [by eapply t_main_moved|]. by rewrite exit_ends in Hs.
  - destruct Hop as [Hop|]; [|done]. pose proof (not_over s Hx) as Ho. split; [by left|right].
    rewrite (t_view_live s Ho), (t_view_live (TState _ _ _ _)) by (by apply not_over). cbn [t_bd t_threads t_main].
    unfold t_weight. cbn [t_bd t_threads t_main]. rewrite !sumZ_app. destruct first_woken as [Hfw Hfd].
    pose proof (pc_weight_bound first). destruct told; rewrite ?sumZ_one, ?sumZ_nil, ?Hfw, ?Hfd, ?Z.add_0_r; (split; [|lia]).
    + rewrite <- Z.add_assoc, (Z.add_comm 1), Z.add_assoc. by apply (a_send maxmsg calm _ _ _ true).
    + by apply (a_send maxmsg calm _ _ _ false).
Qed.

#[local] Instance t_listener : Listener tstate t_step maxmsg calm.
Proof.
  refine {| view := t_view; weight := t_weight; weight_max := 10; sound := fun s => opened (t_main s) \/ t_main s = TM_exit |}.
  - intros s _. unfold t_weight. pose proof (main_weight_bound (t_main s)).
    assert (0 <= sumZ pc_weight (t_threads s)) by (apply sumZ_nonneg; intros; apply pc_weight_bound). lia.
  - intros all s s' Hop Ha Hs. by apply (t_simulates all s s').
  - intros all s s' Hop Ha Hs. by apply (t_simulates all s s').
  - intros all s Hop Ha Ho. change (t_over s = false) in Ho. assert (Hx : t_main s <> TM_exit) by (intros Hx; unfold t_over in Ho; by rewrite Hx in Ho).
    destruct Hop as [Hop|]; [|done].
    destruct (decide (Forall (fun p => p = T_done) (t_threads s))) as [Hall|Hnot].
    + destruct (main_goes s Hop Hx) as [[s' Hs]|Hm]; [left; exists s'; by eapply (t_step_main true 0)|].
      destruct (send_goes_on maxmsg (t_bd s)) as [(told & b & Hs)|Hno]; [left; eexists; by eapply t_step_send|right].
      rewrite Forall_forall in Hall. cbn. rewrite Hm. cbn. destruct done_idle as [-> ->].
      rewrite (sumZ_zero wk), (sumZ_zero dr); [done|intros p Hp; rewrite (Hall p Hp); apply done_idle..].
    + apply not_Forall_Exists in Hnot; [|intros; apply _]. apply Exists_exists in Hnot as (p & (i & Hi)%list_elem_of_lookup & Hp).
      destruct (thread_goes (t_bd s) p Hp) as [r Hr]. left. eexists. by eapply (t_step_thread true 0).
Defined.
End threads.

(** * What is proved of the six programs *)

(** From a state [c] every run ends and misses none of the messages [all]. *)
Definition serves {C} (calm : bool) (step : C -> C -> Prop) (view : C -> proto) (all : list message) (c : C) : Prop :=
  sn step c /\ forall c', rtc step c c' -> misses_nothing calm step view all c'.
Definition wk_thread (p : tpc) : Z := match p with T_getattr | T_malloc | T_register => 1 | _ => 0 end.
Definition dr_thread (p : tpc) : Z := if p is T_drain then 1 else 0.
Definition wk_via (p : tpc) : Z := if p is T_register then 1 else 0.
Definition dr_via (p : tpc) : Z := match p with T_getattr | T_malloc | T_drain => 1 | _ => 0 end.

Section programs.
Context (maxmsg : nat) (room : (0 < maxmsg)%nat) (msgsize : Z) (calm : bool).

Lemma sig_serves msgs : serves calm (s_step (sig_step msgsize) maxmsg calm) s_view msgs (s_ready msgs).
Proof.
  assert (Hsame : forall ok e s, s_running s -> match sig_step msgsize ok e s with
    | Some s' => exists o, sig_step msgsize ok e s = Some (SState (s_bd s') (s_pending s') (s_pc s') o) | None => sig_step msgsize ok e s = None end).
  { intros ok e s _. destruct (sig_step msgsize ok e s) as [[]|]; [by eexists|done]. }
  apply (listener_correct (Listener0 := s_listener _ maxmsg calm msgsize Hsame)); [done|done|]. split; cbn; try done; lia.
Qed.
Lemma sigwaitinfo_serves info msgs : serves calm (s_step (sigwaitinfo_step info msgsize) maxmsg calm) s_view msgs (s_ready msgs).
Proof.
  assert (Hsame : forall ok e s, s_running s -> match sigwaitinfo_step info msgsize ok e s with
    | Some s' => exists o, sig_step msgsize ok e s = Some (SState (s_bd s') (s_pending s') (s_pc s') o) | None => sig_step msgsize ok e s = None end).
  { intros ok e s Hr. unfold sigwaitinfo_step, sig_step, s_running in *.
    destruct (s_pc s); try done; repeat case_match; simplify_eq; try done; by eexists. }
  apply (listener_correct (Listener0 := s_listener _ maxmsg calm msgsize Hsame)); [done|done|]. split; cbn; try done; lia.
Qed.

Lemma via_signal_serves q msgs : serves calm (f_step (via_signal_step msgsize) flag_handler maxmsg calm) f_view (q ++ msgs) (f_start q msgs).
Proof.
  unshelve eapply (listener_correct (Listener0 := f_listener _ _ maxmsg calm msgsize msgsize _ (fun _ => true) _ _ _ _)); try done.
  - intros ok e s Hs _. unfold via_signal_step. destruct (f_pc s) eqn:Hp; try done; eexists; (split; [done|]); (split; [done|]);
      unfold f_weight; rewrite Hp; cbn; destruct ok; cbn; auto; right; (split; [by auto|]); destruct (f_gotSig s); lia.
  - intros ok e s Hs. unfold via_signal_step. by destruct (f_pc s).
  - intros s. by eexists.
  - split; cbn; unfold f_woken; cbn; try done; lia.
Qed.
Lemma siginfo_serves who q msgs : msgsize <= MAX_MSG_SIZE ->
  serves calm (f_step (siginfo_step msgsize) (siginfo_handler who) maxmsg calm) f_view (q ++ msgs) (f_start q msgs).
Proof.
  intros Hfit.
  unshelve eapply (listener_correct (Listener0 := f_listener _ _ maxmsg calm msgsize MAX_MSG_SIZE _
    (fun p => match p with F_getattr | F_malloc => false | _ => true end) _ _ _ _)); try done.
  - by intros [].
  - intros ok e s Hs Hu. unfold siginfo_step. destruct (f_pc s) eqn:Hp; try done; eexists; (split; [done|]); (split; [by destruct ok|]);
      unfold f_weight; rewrite Hp; cbn; destruct ok; cbn; auto; right; (split; [by auto|]); destruct (f_gotSig s); lia.
  - intros ok e s Hs. unfold siginfo_step. by destruct (f_pc s).
  - intros s. by eexists.
  - split; cbn; unfold f_woken; cbn; try done; lia.
Qed.

(** A thread that registers, receives or goes on, in both programs. *)
Ltac by_mq Hr := match goal with
  | |- context [notifySetup ?ok ?e _ ?b] => unfold notifySetup, mq_notify; rewrite Hr by (cbn; lia); destruct ok; [by apply move_register; [apply Hr; cbn; lia|..]|by apply move_ends]
  | |- context [receive_all ?m ?b] => unfold receive_all, mq_receive; rewrite Z.ltb_irrefl; destruct (queue b) as [|x q] eqn:Hq; cbn;
      [by apply move_empty|by apply (move_receive _ _ _ _ _ x q)]
  | |- context [if ?ok then Go _ _ _ else Ends] => destruct ok; [by apply move_own|by apply move_ends]
  | |- _ => by apply move_own
  end.
Lemma thread_moves ok e b p r : (0 < wk_thread p -> registered b = false) -> thread_step msgsize ok e b p = Some r ->
  thread_move wk_thread dr_thread ok b p r.
Proof. intros Hr Hs. destruct p; try done; cbn in Hs; injection Hs as <-; by_mq Hr. Qed.
Lemma via_thread_moves ok e b p r : (0 < wk_via p -> registered b = false) -> via_thread_step msgsize ok e b p = Some r ->
  thread_move wk_via dr_via ok b p r.
Proof. intros Hr Hs. destruct p; try done; cbn in Hs; injection Hs as <-; by_mq Hr. Qed.

Lemma thread_serves msgs :
  serves calm (t_step (thread_step msgsize) thread_main T_getattr maxmsg calm) (t_view wk_thread dr_thread) msgs (t_ready msgs).
Proof.
  unshelve eapply (listener_correct (Listener0 := t_listener (thread_step msgsize) thread_main T_getattr maxmsg calm wk_thread dr_thread
    thread_moves _ _ _ _ (fun m => m = TM_run T_done) _ _ _)); try done.
  - by intros [].
  - intros b [] Hp; try done; by eexists.
  - intros ok e s s' Hm _ Hs. unfold thread_main in Hs. by rewrite Hm in Hs.
  - intros s Hm _. by right.
  - intros ok e s Hm. unfold thread_main. by rewrite Hm.
  - by left.
Qed.
Lemma via_thread_serves q msgs :
  serves calm (t_step (via_thread_step msgsize) (via_thread_main msgsize) T_register maxmsg calm) (t_view wk_via dr_via) (q ++ msgs) (t_start q msgs).
Proof.
  unshelve eapply (listener_correct (Listener0 := t_listener (via_thread_step msgsize) (via_thread_main msgsize) T_register maxmsg calm wk_via dr_via
    via_thread_moves _ _ _ _ (fun m => m <> TM_register /\ m <> TM_exit) _ _ _)); try done.
  - by intros [].
  - intros b [] Hp; try done; by eexists.
  - intros ok e s s' [Hm Hx] Hr Hs. unfold via_thread_main in Hs. destruct (t_main s) as [| |p|] eqn:Hmn; try done.
    + destruct ok; injection Hs as <-; [right; left; by split_and!|by left].
    + right; right. exists p. destruct (via_thread_step msgsize ok e (t_bd s) p) as [r|] eqn:Hv; [|done]. cbn in Hs. injection Hs as <-.
      exists r. split; [done|]. split; [by apply via_thread_moves in Hv|]. by destruct r.
  - intros s [Hm Hx] _. unfold via_thread_main. destruct (t_main s) as [| |[]|]; try done; try (by left; eexists). by right.
  - intros ok e s Hm. unfold via_thread_main. by rewrite Hm.
  - by left.
  - split; cbn; rewrite ?sumZ_nil; try done; lia.
Qed.

(** C18: The six programs that are notified of messages miss none. Whatever other processes
    send, in any interleaving with the program, its signals and its threads: every run ends,
    no message is lost, doubled or invented, the queue is empty whenever no notification is
    under way and no one receives, and when nothing is left to happen all messages have been
    received, unless a call of the program has failed and ended it. mq_notify_via_signal.c,
    mq_notify_via_thread.c and mq_notify_siginfo.c (the last with messages of at most 8192
    bytes) also receive what was in the queue before they started; the others are as good
    once they have registered with an empty queue. *)
Theorem mq_notify_correct info who q msgs : msgsize <= MAX_MSG_SIZE ->
  serves calm (s_step (sig_step msgsize) maxmsg calm) s_view msgs (s_ready msgs) /\
  serves calm (s_step (sigwaitinfo_step info msgsize) maxmsg calm) s_view msgs (s_ready msgs) /\
  serves calm (t_step (thread_step msgsize) thread_main T_getattr maxmsg calm) (t_view wk_thread dr_thread) msgs (t_ready msgs) /\
  serves calm (f_step (via_signal_step msgsize) flag_handler maxmsg calm) f_view (q ++ msgs) (f_start q msgs) /\
  serves calm (f_step (siginfo_step msgsize) (siginfo_handler who) maxmsg calm) f_view (q ++ msgs) (f_start q msgs) /\
  serves calm (t_step (via_thread_step msgsize) (via_thread_main msgsize) T_register maxmsg calm) (t_view wk_via dr_via) (q ++ msgs) (t_start q msgs).
Proof.
  intros Hfit. split_and!.
  - apply sig_serves.
  - apply sigwaitinfo_serves.
  - apply thread_serves.
  - apply via_signal_serves.
  - by apply siginfo_serves.
  - apply via_thread_serves.
Qed.
End programs.

Lemma mq_notify_correct_witness :
  let m := Message 0 (str "hello") in
  serves true (s_step (sig_step 8192) 10 true) s_view [m] (s_ready [m]) /\
  serves true (s_step (sigwaitinfo_step [] 8192) 10 true) s_view [m] (s_ready [m]) /\
  serves true (t_step (thread_step 8192) thread_main T_getattr 10 true) (t_view wk_thread dr_thread) [m] (t_ready [m]) /\
  serves true (f_step (via_signal_step 8192) flag_handler 10 true) f_view ([m] ++ [m]) (f_start [m] [m]) /\
  serves true (f_step (siginfo_step 8192) (siginfo_handler 7) 10 true) f_view ([m] ++ [m]) (f_start [m] [m]) /\
  serves true (t_step (via_thread_step 8192) (via_thread_main 8192) T_register 10 true) (t_view wk_via dr_via) ([m] ++ [m]) (t_start [m] [m]).
Proof. apply (mq_notify_correct 10 ltac:(lia) 8192 true [] 7 [Message 0 (str "hello")] [Message 0 (str "hello")]). done. Defined.

(** mq_notify_siginfo.c has a buffer of a fixed size: on a queue of longer messages it ends
    at its first mq_receive(), though no other call fails. *)
Lemma siginfo_long_messages who q msgs : exists s, f_pc s = F_exit /\
  rtc (f_step (siginfo_step 8193) (siginfo_handler who) 10 true) (f_start q msgs) s.
Proof.
  exists (FState (Board q msgs [] true) false false F_exit 0 []). split; [done|].
  do 5 (eapply rtc_l; [by apply (f_step_main _ _ _ _ true 0); [|intros []|]|]). done.
Qed.
(** A program that registers when there is a message already waits for good. *)
Lemma early_message m : exists s, s_bd s = Board [m] [] [] true /\
  rtc (s_step (sig_step 8192) 10 true) (s_start [] [m] []) s /\ ~ exists s', s_step (sig_step 8192) 10 true s s'.
Proof.
  exists (SState (Board [m] [] [] true) false S_wait []). split; [done|]. split.
  - do 2 (eapply rtc_l; [by apply (s_step_main _ _ _ true 0)|]). done.
  - intros [s' Hs]. by inversion Hs; simplify_eq/=.
Qed.
