(* ===== verification/SemInit.v ===== *)
(** Who initialises a System V semaphore: book-src/svsem/svsem_good_init.c, where processes
    that find the set wait until its creator has performed an operation on it, and
    book-src/svsem/svsem_bad_init.c, where they do not. *)
From S2P Require Import Prelude CLib Sys Steps GetNum.
From stdpp Require Import relations.
#[local] Open Scope Z_scope.

Definition SEMVMX : Z := 32767.

(** * The set *)

(** A set of one semaphore: its value, which is not specified until SETVAL, and whether
    [sem_otime] is other than zero, as it is once a semop() has completed. *)
Record sem := Sem { val : Z; otime : bool }.
(** semop() with one operation; [None]: it blocks. *)
Definition semop (op : Z) (x : sem) : option (sysres sem) :=
  if op =? 0 then if val x =? 0 then Some (SOk (Sem (val x) true)) else None
  else if val x + op <? 0 then None
  else if SEMVMX <? val x + op then Some (SErr 34)
  else Some (SOk (Sem (val x + op) true)).

#[local] Arguments semop : simpl never.

(** What was done to the value, in order. *)
Inductive act := SetVal | Op (op : Z).
Definition total (l : list act) : Z := sumZ (fun a => if a is Op op then op else 0) l.
Definition is_setval (a : act) : bool := if a is SetVal then true else false.

(** A process: at semget() with IPC_CREAT and IPC_EXCL; as creator, in sleep(), at semctl(),
    at the operation that changes nothing; otherwise, at semget(), at try [j] of
    IPC_STAT, in the sleep() after it; at its own operation; ended. *)
Inductive gpc := G_create | G_sleep | G_setval | G_noop | G_get | G_stat (j : nat) | G_nap (j : nat) | G_op | G_exit (status : Z).
(** [garbage] is the value of a new semaphore. *)
Record gstate := GState { set : option sem; procs : list gpc; log : list act }.
Definition goto (i : nat) (p : gpc) (s : gstate) : gstate := GState (set s) (<[i:=p]> (procs s)) (log s).
Definition with_set (x : sem) (l : list act) (s : gstate) : gstate := GState (Some x) (procs s) (log s ++ l).

Section programs.
Context (garbage : Z) (args : list bytes).

(** The operation of process [i], which is stored in a short. *)
Definition sem_op (i : nat) : option Z :=
  match (getInt (args !! i) 0 (Some (str "sem-op")) : M libc Z) libc0 with
  | (Done v, _) => Some (i16 v)
  | _ => None
  end.

Definition MAX_TRIES : nat := 10.
(** One step of process [i]; [ok] is whether a call succeeds, where that is not decided by
    the state. *)
(** Source: book-src/svsem/svsem_good_init.c:24-103 (main). *)
Definition good_step (ok : bool) (i : nat) (s : gstate) : option gstate :=
  p ← procs s !! i;
  let fails := goto i (G_exit EXIT_FAILURE) s in
  match p with
  | G_create =>
      Some (if ok then match set s with
                       | None => goto i G_sleep (with_set (Sem garbage false) [] s)
                       | Some _ => goto i G_get s
                       end
            else fails)
  | G_sleep => Some (goto i G_setval s)
  | G_setval =>
      x ← set s;
      Some (if ok then goto i G_noop (with_set (Sem 0 (otime x)) [SetVal] s) else fails)
  | G_noop =>
      x ← set s;
      if ok then r ← semop 0 x; Some (if r is SOk x then goto i G_op (with_set x [] s) else fails) else Some fails
  | G_get => Some (if ok then goto i (G_stat 0) s else fails)
  | G_stat j =>
      x ← set s;
      Some (if ok then goto i (if otime x then G_op else G_nap j) s else fails)
  | G_nap j => Some (if (S j <? MAX_TRIES)%nat then goto i (G_stat (S j)) s else fails)
  | G_op =>
      match sem_op i with
      | None => Some fails
      | Some op =>
          x ← set s;
          if ok then
            r ← semop op x;
            Some (if r is SOk x then goto i (G_exit EXIT_SUCCESS) (with_set x [Op op] s) else fails)
          else Some fails
      end
  | G_exit _ => None
  end.

(** The other program: [G_noop] and the tries are missing, and the operation adds one. *)
(** Source: book-src/svsem/svsem_bad_init.c:25-63 (main). *)
Definition bad_step (ok : bool) (i : nat) (s : gstate) : option gstate :=
  p ← procs s !! i;
  let fails := goto i (G_exit EXIT_FAILURE) s in
  match p with
  | G_create =>
      Some (if ok then match set s with
                       | None => goto i G_setval (with_set (Sem garbage false) [] s)
                       | Some _ => goto i G_get s
                       end
            else fails)
  | G_setval =>
      x ← set s;
      Some (if ok then goto i G_op (with_set (Sem 0 (otime x)) [SetVal] s) else fails)
  | G_get => Some (if ok then goto i G_op s else fails)
  | G_op =>
      x ← set s;
      if ok then
        r ← semop 1 x;
        Some (if r is SOk x then goto i (G_exit EXIT_SUCCESS) (with_set x [Op 1] s) else fails)
      else Some fails
  | G_sleep | G_noop | G_stat _ | G_nap _ | G_exit _ => None
  end.

(** A process may also be killed. *)
Definition kill_step (i : nat) (s : gstate) : option gstate :=
  p ← procs s !! i; if p is G_exit _ then None else Some (goto i (G_exit 137) s).
Inductive step (prog : bool -> nat -> gstate -> option gstate) : gstate -> gstate -> Prop :=
| step_prog ok i s s' : prog ok i s = Some s' -> step prog s s'
| step_kill i s s' : kill_step i s = Some s' -> step prog s s'.
Definition start (n : nat) : gstate := GState None (replicate n G_create) [].

(** * The invariant *)

(** Processes that are initialising the set. *)
Definition creating (p : gpc) : Z := match p with G_sleep | G_setval | G_noop => 1 | _ => 0 end.
(** What a process knows. *)
Definition knows (s : gstate) (p : gpc) : Prop :=
  match p with
  | G_create | G_exit _ => True
  | G_sleep | G_setval => is_Some (set s) /\ log s = []
  | G_noop => is_Some (set s) /\ log s = [SetVal]
  | G_get | G_stat _ | G_nap _ => is_Some (set s)
  | G_op => exists x, set s = Some x /\ otime x = true
  end.
Record Inv (s : gstate) : Prop := {
  i_knows : forall i p, procs s !! i = Some p -> knows s p;
  i_one : sumZ creating (procs s) <= 1;
  i_none : set s = None -> log s = [];
  i_before : forall x, set s = Some x -> otime x = false -> log s = [] \/ log s = [SetVal] /\ val x = 0;
  i_after : forall x, set s = Some x -> otime x = true ->
    sumZ creating (procs s) = 0 /\ exists l, log s = SetVal :: l /\ existsb is_setval l = false /\ val x = total l
}.

Lemma creating_nonneg p : 0 <= creating p.
Proof. by destruct p. Qed.
Lemma creating_nonneg' (l : list gpc) p : p ∈ l -> 0 <= creating p.
Proof. intros _. apply creating_nonneg. Qed.
(** If one process initialises the set no other does. *)
Lemma others_not s i p k r : sumZ creating (procs s) <= 1 -> procs s !! i = Some p -> creating p = 1 ->
  procs s !! k = Some r -> k <> i -> creating r = 0.
Proof.
  intros H1 Hi Hp Hk Hne. pose proof (sumZ_insert creating _ _ _ (G_exit 0) Hi) as Hs. cbn in Hs.
  pose proof (sumZ_elem creating (<[i:=G_exit 0]> (procs s)) k r) as He. pose proof (creating_nonneg r).
  assert (creating r <= sumZ creating (<[i:=G_exit 0]> (procs s))); [|lia].
  apply He; [intros; apply creating_nonneg|]. by rewrite list_lookup_insert_ne.
Qed.
Lemma none_creating s k r : sumZ creating (procs s) = 0 -> procs s !! k = Some r -> creating r = 0.
Proof.
  intros H0 Hk. pose proof (creating_nonneg r). pose proof (sumZ_elem creating (procs s) k r ltac:(intros; apply creating_nonneg) Hk). lia.
Qed.

(** A process moves on and leaves the set alone. *)
Lemma sem_Inv_goto s i p q : Inv s -> procs s !! i = Some p -> creating q <= creating p -> knows s q -> Inv (goto i q s).
Proof.
  intros [Hk H1 Hn Hb Ha] Hi Hc Hq. assert (Hsum : sumZ creating (<[i:=q]> (procs s)) <= sumZ creating (procs s)) by
    (rewrite (sumZ_insert _ _ _ _ _ Hi); lia). split; cbn; try done.
  - apply (all_insert (fun _ => knows (goto i q s))); [|done]. intros k x Hx _. exact (Hk k x Hx).
  - lia.
  - intros x Hx Ho. destruct (Ha x Hx Ho) as [H0 Hl]. split; [|done].
    assert (0 <= sumZ creating (<[i:=q]> (procs s))) by (apply sumZ_nonneg; intros; apply creating_nonneg). lia.
Qed.

Lemma Inv_create s i : Inv s -> procs s !! i = Some G_create -> set s = None -> Inv (goto i G_sleep (with_set (Sem garbage false) [] s)).
Proof.
  intros [Hk H1 Hn Hb Ha] Hi Hset. specialize (Hn Hset).
  assert (Hr : forall k r, procs s !! k = Some r -> knows s r -> creating r = 0 /\ (r = G_create \/ exists st, r = G_exit st)).
  { intros k r _ Hr. unfold knows in Hr. rewrite Hset in Hr. assert (Hno : ~ is_Some (@None sem)) by (intros [? [=]]).
    destruct r; try (exfalso; first [by apply Hno|by apply Hno, Hr|by destruct Hr as (x & Hx & _)]).
    - split; [done|by left].
    - split; [done|right; by eexists]. }
  split; cbn; try done.
  - apply (all_insert (fun _ => knows (goto i G_sleep (with_set (Sem garbage false) [] s)))).
    + intros k r Hx _. destruct (Hr k r Hx (Hk k r Hx)) as [_ [->|[st ->]]]; done.
    + cbn. split; [by eexists|]. by rewrite Hn.
  - rewrite (sumZ_insert _ _ _ _ _ Hi). cbn. rewrite (sumZ_zero creating); [done|].
    intros r (k & Hx)%list_elem_of_lookup. by apply (Hr k r Hx), (Hk k).
  - intros x [= <-] _. left. by rewrite Hn.
  - by intros x [= <-] [=].
Qed.

(** The creator sets the value, or completes its first operation. *)
Lemma Inv_creator s i p q x' l : Inv s -> procs s !! i = Some p -> creating p = 1 ->
  (otime x' = true -> creating q = 0) -> creating q <= 1 ->
  (forall r, creating r = 0 -> knows s r -> knows (with_set x' l s) r) -> knows (with_set x' l s) q ->
  (otime x' = false -> log s ++ l = [] \/ log s ++ l = [SetVal] /\ val x' = 0) ->
  (otime x' = true -> exists l', log s ++ l = SetVal :: l' /\ existsb is_setval l' = false /\ val x' = total l') ->
  Inv (goto i q (with_set x' l s)).
Proof.
  intros [Hk H1 Hn Hb Ha] Hi Hp Hq Hq1 Hr Hkq Hf Ht.
  assert (H0 : forall k r, procs s !! k = Some r -> k <> i -> creating r = 0) by (intros k r Hx Hne; by apply (others_not s i p k r)).
  assert (Hsum : sumZ creating (<[i:=q]> (procs s)) = creating q).
  { rewrite (sumZ_insert _ _ _ _ _ Hi), Hp. enough (sumZ creating (procs s) = 1) by lia.
    pose proof (sumZ_elem creating _ _ _ ltac:(intros; apply creating_nonneg) Hi). lia. }
  split; cbn; try done.
  - apply (all_insert (fun _ => knows (goto i q (with_set x' l s)))); [|exact Hkq]. intros k r Hx Hne.
    exact (Hr r (H0 k r Hx Hne) (Hk k r Hx)).
  - lia.
  - intros x [= <-]. by apply Hf.
  - intros x [= <-] Ho. split; [|by apply Ht]. by rewrite Hsum, Hq.
Qed.

Lemma Inv_good ok i s s' : Inv s -> good_step ok i s = Some s' -> Inv s'.
Proof.
  intros Hi Hs. unfold good_step in Hs. destruct (procs s !! i) as [p|] eqn:Hp; [|done]. cbn in Hs.
  pose proof (i_knows _ Hi i p Hp) as Hk. pose proof (fun q => sem_Inv_goto s i p q Hi Hp) as Hgo.
  assert (Hfail : forall st, Inv (goto i (G_exit st) s)) by (intros st; apply Hgo; [apply creating_nonneg|done]).
  destruct p as [| | | | |j|j| |st]; cbn in Hk.
  - destruct ok; [|injection Hs as <-; apply Hfail]. destruct (set s) as [x|] eqn:Hset; injection Hs as <-.
    + apply Hgo; cbn; [done|by eexists].
    + by apply Inv_create.
  - injection Hs as <-. by apply Hgo.
  - destruct Hk as [[x Hset] Hl]. rewrite Hset in Hs. cbn in Hs. destruct ok; injection Hs as <-; [|apply Hfail].
    assert (Ho : otime x = false).
    { destruct (otime x) eqn:Ho; [|done]. destruct (i_after _ Hi x Hset Ho) as (_ & l & Hl' & _). congruence. }
    apply (Inv_creator s i G_setval); try done; cbn; rewrite ?Hl, ?Ho; try done; try (by right).
    intros r Hr Hkr. destruct r; cbn in *; try done; destruct Hkr as (y & Hy & Hoy); congruence.
  - destruct Hk as [[x Hset] Hl]. rewrite Hset in Hs. cbn in Hs. destruct ok; [|injection Hs as <-; apply Hfail].
    assert (Hv : val x = 0).
    { destruct (otime x) eqn:Ho.
      - destruct (i_after _ Hi x Hset Ho) as (Hz & _). pose proof (none_creating s i _ Hz Hp). done.
      - destruct (i_before _ Hi x Hset Ho) as [Hl'|[_ Hv]]; congruence. }
    unfold semop in Hs. rewrite Hv in Hs. cbn in Hs. injection Hs as <-.
    apply (Inv_creator s i G_noop); try done; cbn; rewrite ?Hl; try done.
    + intros r Hr Hkr. destruct r; cbn in *; try done. by eexists.
    + by eexists.
    + intros _. exists []. by split.
  - destruct ok; injection Hs as <-; [by apply Hgo|apply Hfail].
  - destruct Hk as [x Hset]. rewrite Hset in Hs. cbn in Hs. destruct ok; injection Hs as <-; [|apply Hfail].
    destruct (otime x) eqn:Ho; apply Hgo; cbn; try done; by eexists.
  - destruct (j <=? 8)%nat; injection Hs as <-; [by apply Hgo|apply Hfail].
  - destruct (sem_op i) as [op|]; [|injection Hs as <-; apply Hfail]. destruct Hk as (x & Hset & Ho). rewrite Hset in Hs. cbn in Hs.
    destruct ok; [|injection Hs as <-; apply Hfail]. destruct (semop op x) as [[x'|e]|] eqn:Hop; [| |done]; injection Hs as <-; [|apply Hfail].
    assert (Hx' : val x' = val x + op /\ otime x' = true).
    { unfold semop in Hop. destruct (Z.eqb_spec op 0); repeat case_match; simplify_eq; cbn; lia || (split; [lia|done]). }
    destruct Hx' as [Hv' Ho']. destruct (i_after _ Hi x Hset Ho) as (Hz & l & Hl & Hns & Hv).
    destruct Hi as [Hkn H1 Hn Hb Ha]. split; cbn; try done.
    + apply (all_insert (fun _ => knows (goto i (G_exit EXIT_SUCCESS) (with_set x' [Op op] s)))); [|done].
      intros k r Hr _. pose proof (none_creating s k r Hz Hr). pose proof (Hkn k r Hr) as Hkr.
      destruct r; cbn in *; try done. by eexists.
    + rewrite (sumZ_insert _ _ _ _ _ Hp). cbn. lia.
    + intros y [= <-]. congruence.
    + intros y [= <-] _. rewrite (sumZ_insert _ _ _ _ _ Hp), Hz. split; [done|]. exists (l ++ [Op op]). rewrite Hl. split; [done|].
      rewrite existsb_app, Hns. split; [done|]. unfold total in *. rewrite sumZ_app, sumZ_one. lia.
  - done.
Qed.

Lemma sem_Inv_step s s' : Inv s -> step good_step s s' -> Inv s'.
Proof.
  intros Hi Hs. destruct Hs as [ok i s s' Hs|i s s' Hs]; [by eapply Inv_good|]. unfold kill_step in Hs.
  destruct (procs s !! i) as [p|] eqn:Hp; [|done]. cbn in Hs. assert (s' = goto i (G_exit 137) s) as -> by (destruct p; congruence).
  by apply (sem_Inv_goto s i p); [| |apply creating_nonneg|].
Qed.
Lemma sem_Inv_start n : Inv (start n).
Proof.
  split; cbn; try done.
  - intros i p [-> _]%lookup_replicate. done.
  - rewrite sumZ_zero; [done|]. intros p Hp. by apply elem_of_replicate in Hp as [-> _].
Qed.

(** ** Every run ends *)

Definition weight (p : gpc) : Z :=
  match p with
  | G_create => 30 | G_sleep => 4 | G_setval => 3 | G_noop => 2 | G_get => 24
  | G_stat j => 3 + 2 * Z.of_nat (MAX_TRIES - j)
  | G_nap j => 2 + 2 * Z.of_nat (MAX_TRIES - j)
  | G_op => 1 | G_exit _ => 0
  end.
Lemma weight_nonneg p : 0 <= weight p.
Proof. destruct p; cbn; lia. Qed.
Definition sem_measure (s : gstate) : Z := sumZ weight (procs s).

Lemma goto_measure i p q s x l : procs s !! i = Some p -> weight q < weight p ->
  sem_measure (goto i q s) < sem_measure s /\ sem_measure (goto i q (with_set x l s)) < sem_measure s.
Proof. intros Hp Hw. unfold sem_measure. cbn. rewrite (sumZ_insert _ _ _ _ _ Hp). lia. Qed.

Lemma good_measure ok i s s' : good_step ok i s = Some s' -> sem_measure s' < sem_measure s.
Proof.
  intros Hs. unfold good_step in Hs. destruct (procs s !! i) as [p|] eqn:Hp; [|done]. cbn in Hs.
  assert (Hgo : forall q x l, weight q < weight p -> sem_measure (goto i q s) < sem_measure s /\ sem_measure (goto i q (with_set x l s)) < sem_measure s)
    by (intros; by apply (goto_measure i p)).
  pose proof (fun q Hw => proj1 (Hgo q (Sem 0 false) [] Hw)) as H1. pose proof (fun q x l Hw => proj2 (Hgo q x l Hw)) as H2. clear Hgo.
  destruct p as [| | | | |j|j| |st].
  - destruct ok, (set s); injection Hs as <-; (apply H1 || apply H2); cbn; lia.
  - injection Hs as <-. apply H1. cbn. lia.
  - destruct (set s); [|done]. cbn in Hs. destruct ok; injection Hs as <-; (apply H1 || apply H2); cbn; lia.
  - destruct (set s) as [x|]; [|done]. cbn in Hs. destruct ok; [|injection Hs as <-; apply H1; cbn; lia].
    destruct (semop 0 x) as [[x'|e]|]; [..|done]; injection Hs as <-; (apply H1 || apply H2); cbn; lia.
  - destruct ok; injection Hs as <-; apply H1; cbn; lia.
  - destruct (set s) as [x|]; [|done]. cbn in Hs. destruct ok, (otime x); injection Hs as <-; apply H1; cbn; lia.
  - destruct (Nat.leb_spec j 8); injection Hs as <-; apply H1; unfold weight, MAX_TRIES; lia.
  - destruct (sem_op i) as [op|]; [|injection Hs as <-; apply H1; cbn; lia]. destruct (set s) as [x|]; [|done]. cbn in Hs.
    destruct ok; [|injection Hs as <-; apply H1; cbn; lia].
    destruct (semop op x) as [[x'|e]|]; [..|done]; injection Hs as <-; (apply H1 || apply H2); cbn; lia.
  - done.
Qed.

Lemma sem_step_measure s s' : Inv s -> step good_step s s' -> 0 <= sem_measure s' < sem_measure s.
Proof.
  intros Hi Hs. split; [apply sumZ_nonneg; intros; apply weight_nonneg|].
  destruct Hs as [ok i s s' Hs|i s s' Hs]; [by eapply good_measure|]. unfold kill_step in Hs.
  destruct (procs s !! i) as [p|] eqn:Hp; [|done]. cbn in Hs. assert (Hw : 0 < weight p) by (destruct p; cbn; lia || done).
  assert (s' = goto i (G_exit 137) s) as -> by (destruct p; congruence). by apply (goto_measure i p _ _ (Sem 0 false) []).
Qed.

(** ** What is promised *)

Definition blocked (i : nat) (p : gpc) (s : gstate) : Prop :=
  p = G_op /\ exists op x, sem_op i = Some op /\ set s = Some x /\ semop op x = None.
Definition initialised_first (s : gstate) : Prop :=
  (log s = [] \/ exists l, log s = SetVal :: l /\ existsb is_setval l = false) /\
  (forall x, set s = Some x -> log s <> [] -> val x = total (log s)) /\
  (forall i p, procs s !! i = Some p -> (exists st, p = G_exit st) \/ blocked i p s \/ exists s', good_step true i s = Some s').

Lemma Inv_first s : Inv s -> initialised_first s.
Proof.
  intros Hi. assert (Hlog : forall x, set s = Some x ->
    (log s = [] \/ exists l, log s = SetVal :: l /\ existsb is_setval l = false) /\ (log s <> [] -> val x = total (log s))).
  { intros x Hx. destruct (otime x) eqn:Ho.
    - destruct (i_after _ Hi x Hx Ho) as (_ & l & -> & Hns & Hv). split; [right; by exists l|]. intros _. unfold total. rewrite sumZ_cons. exact Hv.
    - destruct (i_before _ Hi x Hx Ho) as [->|[-> Hv]]; [by split; [left|]|]. split; [right; by exists []|done]. }
  split; [|split].
  - destruct (set s) as [x|] eqn:Hx; [by apply (Hlog x)|left; by apply i_none].
  - intros x Hx. by apply Hlog.
  - intros i p Hp. pose proof (i_knows _ Hi i p Hp) as Hk.
    assert (Hgo : good_step true i s = None \/ exists s', good_step true i s = Some s') by (destruct (good_step true i s); [right; by eexists|by left]).
    destruct Hgo as [Hno|]; [|by right; right]. unfold good_step in Hno. rewrite Hp in Hno. cbn in Hno.
    destruct p as [| | | | |j|j| |st]; try done; cbn in Hk.
    + destruct Hk as [[x Hx] _]. by rewrite Hx in Hno.
    + destruct Hk as [[x Hx] Hl]. rewrite Hx in Hno. cbn in Hno. assert (Hv : val x = 0).
      { destruct (Hlog x Hx) as [_ Hv]. rewrite Hv; rewrite Hl; done. }
      unfold semop in Hno. by rewrite Hv in Hno.
    + destruct Hk as [x Hx]. by rewrite Hx in Hno.
    + right; left. split; [done|]. destruct (sem_op i) as [op|] eqn:Hop; [|done]. destruct Hk as (x & Hx & _). rewrite Hx in Hno. cbn in Hno.
      exists op, x. split_and!; try done. by destruct (semop op x) as [[]|].
    + left. by exists st.
Qed.

(** C19: However many processes run svsem_good_init.c at the same time, and whichever of them
    fail or are killed: every run ends; the semaphore is initialised at most once, and before
    every operation of a process, so that no operation is lost: once it is initialised its
    value is the sum of the operations that have been performed. A process that has not
    ended can go on, unless its operation has to wait for others. *)
Theorem sem_init_correct n :
  sn (step good_step) (start n) /\ forall s, rtc (step good_step) (start n) s -> initialised_first s.
Proof.
  split.
  - by apply (sn_measure (step good_step) Inv sem_Inv_step sem_measure); [apply sem_step_measure|apply sem_Inv_start].
  - intros s Hr. apply Inv_first. by apply (reach_inv (step good_step) Inv sem_Inv_step (start n)), Hr; apply sem_Inv_start.
Qed.
End programs.

(** ** The wrong way *)

(** In svsem_bad_init.c a second process may operate on the set before its creator has set
    the value: both end with success, and one of the two operations is lost. *)
Lemma bad_init_loses : exists s, rtc (step (bad_step 0)) (start 2) s /\
  procs s = [G_exit EXIT_SUCCESS; G_exit EXIT_SUCCESS] /\ set s = Some (Sem 1 true) /\ log s = [Op 1; SetVal; Op 1].
Proof.
  exists (run_choices (bad_step 0 true) [0; 1; 1; 1; 0; 0]%nat (start 2)). split; [|by vm_compute].
  apply (run_choices_rtc (bad_step 0 true)). intros i s s' Hs. by eapply step_prog.
Qed.
(** The operation is an int that is stored in a short: 65537 adds one. *)
Lemma sem_op_truncated : sem_op [str "65537"] 0 = Some 1.
Proof. by vm_compute. Qed.
