(* ===== verification/PthreadBarrier.v ===== *)
(** Threads that meet at a barrier: book-src/threads/pthread_barrier_demo.c. *)
From S2P Require Import Prelude CLib Sys Steps.
From stdpp Require Import relations.
#[local] Open Scope Z_scope.

Definition PTHREAD_BARRIER_SERIAL_THREAD : Z := -1.

(** * State *)

(** A thread in its loop, with [j] of the loop: at its first line; in sleep(); about to print
    and to call pthread_barrier_wait(); inside it; with its result; in the delay after the
    special result; after the loop; returned. *)
Inductive bpc := P_start | P_sleep | P_arrive | P_inside | P_ret (s : Z) | P_delay | P_term | P_done.
#[export] Instance bpc_eq_dec : EqDecision bpc.
Proof. solve_decision. Defined.
Record bthread := BThread { b_pc : bpc; b_j : nat }.
(** main(): at its calls in order; ended. *)
Inductive mpc := M_calloc | M_init | M_create | M_newline | M_join (k : nat) | M_exit (status : Z).
Inductive line := Started (i : nat) | About (i j : nat) | Passed (i j : nat) (serial : bool) | Newline | Terminating (i : nat).
#[export] Instance line_eq_dec : EqDecision line.
Proof. solve_decision. Defined.

(** [arrived]: how many threads are waiting at the barrier; [rounds]: how often it has opened. *)
Record bstate := BState { threads : list bthread; arrived : nat; rounds : nat; main : mpc; out : list line }.
Definition with_thread (i : nat) (p : bpc) (j : nat) (s : bstate) : bstate :=
  BState (<[i:=BThread p j]> (threads s)) (arrived s) (rounds s) (main s) (out s).
Definition print (l : line) (s : bstate) : bstate := BState (threads s) (arrived s) (rounds s) (main s) (out s ++ [l]).
Definition with_main (m : mpc) (s : bstate) : bstate := BState (threads s) (arrived s) (rounds s) m (out s).

Section program.
Context (numBarriers numThreads : nat).

(** * Steps *)

(** pthread_barrier_wait(): the last of the threads opens the barrier for all; one of them,
    [ser], gets the special value. *)
Definition release (th : bthread) : bthread := match b_pc th with P_inside => BThread (P_ret 0) (b_j th) | _ => th end.
Definition barrier_wait (ser i : nat) (s : bstate) : option bstate :=
  th ← threads s !! i;
  let ts := <[i:=BThread P_inside (b_j th)]> (threads s) in
  if (S (arrived s) <? numThreads)%nat then Some (BState ts (S (arrived s)) (rounds s) (main s) (out s))
  else
    sth ← ts !! ser;
    if bool_decide (b_pc sth = P_inside) then
      Some (BState (<[ser:=BThread (P_ret PTHREAD_BARRIER_SERIAL_THREAD) (b_j sth)]> (release <$> ts)) 0 (S (rounds s)) (main s) (out s))
    else None.

(** The condition of the loop. *)
Definition loop_test (j : nat) : bpc := if (j <? numBarriers)%nat then P_sleep else P_term.
(** Source: book-src/threads/pthread_barrier_demo.c:31-107 (threadFunc). *)
Definition threadFunc_step (ser i : nat) (s : bstate) : option bstate :=
  th ← threads s !! i;
  let j := b_j th in
  match b_pc th with
  | P_start => Some (with_thread i (loop_test j) j (print (Started i) s))
  | P_sleep => Some (with_thread i P_arrive j s)
  | P_arrive => barrier_wait ser i (print (About i j) s)
  | P_inside => None
  | P_ret r =>
      if r =? 0 then Some (with_thread i (loop_test (S j)) (S j) (print (Passed i j false) s))
      else if r =? PTHREAD_BARRIER_SERIAL_THREAD then Some (with_thread i P_delay j (print (Passed i j true) s))
      else Some (with_main (M_exit EXIT_FAILURE) s)
  | P_delay => Some (with_thread i (loop_test (S j)) (S j) (print Newline s))
  | P_term => Some (with_thread i P_done j (print (Terminating i) s))
  | P_done => None
  end.

(** main(), after its arguments; a barrier for no thread is refused. *)
(** Source: book-src/threads/pthread_barrier_demo.c:121-160 (main). *)
Definition main_step (ok : bool) (s : bstate) : option bstate :=
  let check m := Some (with_main (if ok then m else M_exit EXIT_FAILURE) s) in
  match main s with
  | M_calloc => check M_init
  | M_init => if (numThreads =? 0)%nat then Some (with_main (M_exit EXIT_FAILURE) s) else check M_create
  | M_create =>
      if (length (threads s) <? numThreads)%nat then
        Some (if ok then BState (threads s ++ [BThread P_start 0]) (arrived s) (rounds s) M_create (out s) else with_main (M_exit EXIT_FAILURE) s)
      else Some (with_main M_newline s)
  | M_newline => Some (with_main (M_join 0) (print Newline s))
  | M_join k =>
      if (k <? numThreads)%nat then
        th ← threads s !! k; if bool_decide (b_pc th = P_done) then Some (with_main (M_join (S k)) s) else None
      else Some (with_main (M_exit EXIT_SUCCESS) s)
  | M_exit _ => None
  end.

Definition exited (s : bstate) : bool := if main s is M_exit _ then true else false.
Inductive step : bstate -> bstate -> Prop :=
| step_thread s ser i s' : exited s = false -> threadFunc_step ser i s = Some s' -> step s s'
| step_main s ok s' : main_step ok s = Some s' -> step s s'.
Definition start : bstate := BState [] 0 0 M_calloc [].

(** * The invariant *)

(** Where a thread is, once the barrier has opened [r] times. *)
Definition thread_ok (r : nat) (th : bthread) : Prop :=
  match b_pc th with
  | P_start => b_j th = r /\ r = 0%nat
  | P_sleep | P_arrive | P_inside => b_j th = r /\ (r < numBarriers)%nat
  | P_ret s => S (b_j th) = r /\ (r <= numBarriers)%nat /\ (s = 0 \/ s = PTHREAD_BARRIER_SERIAL_THREAD)
  | P_delay => S (b_j th) = r /\ (r <= numBarriers)%nat
  | P_term | P_done => b_j th = r /\ r = numBarriers
  end.
Definition inside (th : bthread) : Z := if b_pc th is P_inside then 1 else 0.
(** Threads that have the special value of round [j] and have not printed it. *)
Definition special (j : nat) (th : bthread) : Z :=
  match b_pc th with P_ret s => if (s =? PTHREAD_BARRIER_SERIAL_THREAD) && (b_j th =? j)%nat then 1 else 0 | _ => 0 end.
(** Threads that have said that they are about to wait in round [j], and that have passed. *)
Definition at_or_after (j : nat) (th : bthread) : Z :=
  match b_pc th with
  | P_inside | P_ret _ | P_delay => if (j <=? b_j th)%nat then 1 else 0
  | _ => if (j <? b_j th)%nat then 1 else 0
  end.
Definition after (j : nat) (th : bthread) : Z :=
  if b_pc th is P_delay then if (j <=? b_j th)%nat then 1 else 0 else if (j <? b_j th)%nat then 1 else 0.
Definition one_if (b : bool) : Z := if b then 1 else 0.
Definition is_about (j : nat) (l : line) : Z := if l is About _ k then one_if (k =? j)%nat else 0.
Definition is_passed (j : nat) (l : line) : Z := if l is Passed _ k _ then one_if (k =? j)%nat else 0.
Definition is_serial (j : nat) (l : line) : Z := if l is Passed _ k true then one_if (k =? j)%nat else 0.

Record Inv (s : bstate) : Prop := {
  i_threads : forall i th, threads s !! i = Some th -> thread_ok (rounds s) th;
  i_arrived : Z.of_nat (arrived s) = sumZ inside (threads s);
  i_room : (arrived s < numThreads)%nat \/ threads s = [];
  i_length : (length (threads s) <= numThreads)%nat /\ (0 < rounds s -> length (threads s) = numThreads)%nat;
  i_serials : forall j, sumZ (is_serial j) (out s) + sumZ (special j) (threads s) = one_if (j <? rounds s)%nat;
  i_abouts : forall j, sumZ (is_about j) (out s) = sumZ (at_or_after j) (threads s);
  i_passes : forall j, sumZ (is_passed j) (out s) = sumZ (after j) (threads s);
  i_main : match main s with
    | M_calloc | M_init => threads s = []
    | M_create => True
    | M_newline => length (threads s) = numThreads
    | M_join k => length (threads s) = numThreads /\ (k <= numThreads)%nat /\ forall i th, (i < k)%nat -> threads s !! i = Some th -> b_pc th = P_done
    | M_exit st => st = EXIT_SUCCESS -> length (threads s) = numThreads /\ forall i th, threads s !! i = Some th -> b_pc th = P_done
    end
}.

Lemma bar_Inv_start : Inv start.
Proof. by split; cbn; try done; [right|split; [lia|lia]]. Qed.

(** One thread moves, without the barrier. *)
Lemma Inv_moved s i th th' ls : Inv s -> threads s !! i = Some th -> b_pc th <> P_done ->
  thread_ok (rounds s) th' -> inside th' = inside th ->
  (forall j, sumZ (is_serial j) ls + special j th' = special j th) ->
  (forall j, sumZ (is_about j) ls + at_or_after j th = at_or_after j th') ->
  (forall j, sumZ (is_passed j) ls + after j th = after j th') ->
  Inv (BState (<[i:=th']> (threads s)) (arrived s) (rounds s) (main s) (out s ++ ls)).
Proof.
  intros [Ht Ha Hr Hl Hs Hab Hpa Hm] Hi Hd Hok Hin H1 H2 H3. split; cbn [threads arrived rounds main out].
  - by apply (all_insert (fun _ => thread_ok (rounds s))); [intros k x Hx _; apply (Ht k x Hx)|].
  - rewrite (sumZ_insert _ _ _ _ _ Hi). lia.
  - destruct Hr as [|Hn]; [by left|]. by rewrite Hn in Hi.
  - by rewrite length_insert.
  - intros j. rewrite sumZ_app, (sumZ_insert _ _ _ _ _ Hi). specialize (Hs j). specialize (H1 j). lia.
  - intros j. rewrite sumZ_app, (sumZ_insert _ _ _ _ _ Hi). specialize (Hab j). specialize (H2 j). lia.
  - intros j. rewrite sumZ_app, (sumZ_insert _ _ _ _ _ Hi). specialize (Hpa j). specialize (H3 j). lia.
  - rewrite length_insert.
    assert (Hkeep : forall k x, <[i:=th']> (threads s) !! k = Some x -> (forall y, threads s !! k = Some y -> b_pc y = P_done) -> b_pc x = P_done).
    { intros k x Hk Hall. apply list_lookup_insert_Some in Hk as [(<- & <- & _)|[_ Hk]]; [|by apply Hall]. by destruct Hd; apply Hall. }
    destruct (main s) as [| | | |k|st]; try done.
    + by rewrite Hm in Hi.
    + by rewrite Hm in Hi.
    + destruct Hm as (Hm & Hk & Hall). split_and!; try done. intros a x Hlt Hx. eapply Hkeep; [done|]. intros y. by apply Hall.
    + intros Hst. destruct (Hm Hst) as [Hlen Hall]. split; [done|]. intros a x Hx. eapply Hkeep; [done|]. apply Hall.
Qed.

Lemma inside_bound th : inside th <= 1.
Proof. unfold inside. by destruct (b_pc th). Qed.
Lemma one_if_succ j r : one_if (j <? S r)%nat = one_if (j <? r)%nat + one_if (r =? j)%nat.
Proof. unfold one_if. destruct (Nat.ltb_spec j (S r)), (Nat.ltb_spec j r), (Nat.eqb_spec r j); lia. Qed.
Lemma one_if_le j r : one_if (j <=? r)%nat = one_if (j <? r)%nat + one_if (r =? j)%nat.
Proof. unfold one_if. destruct (Nat.leb_spec j r), (Nat.ltb_spec j r), (Nat.eqb_spec r j); lia. Qed.

Lemma arrives_about j r : at_or_after j (BThread P_inside r) = at_or_after j (BThread P_arrive r) + is_about j (About 0 r).
Proof. exact (one_if_le j r). Qed.

(** A thread arrives, and has to wait. *)
Lemma Inv_waits s i r : Inv s -> threads s !! i = Some (BThread P_arrive r) -> (S (arrived s) < numThreads)%nat ->
  Inv (BState (<[i:=BThread P_inside r]> (threads s)) (S (arrived s)) (rounds s) (main s) (out s ++ [About i r])).
Proof.
  intros [Ht Ha Hr Hl Hs Hab Hpa Hm] Hi Hn. pose proof (Ht _ _ Hi) as Hok. split; cbn [threads arrived rounds main out].
  - by apply (all_insert (fun _ => thread_ok (rounds s))); [intros k x Hx _; apply (Ht k x Hx)|].
  - rewrite (sumZ_insert _ _ _ _ _ Hi). cbn. lia.
  - by left.
  - by rewrite length_insert.
  - intros j. rewrite sumZ_app, (sumZ_insert _ _ _ _ _ Hi), sumZ_one. specialize (Hs j). change (special j (BThread _ r)) with 0. change (is_serial j (About i r)) with 0. lia.
  - intros j. rewrite sumZ_app, (sumZ_insert _ _ _ _ _ Hi), sumZ_one. specialize (Hab j). rewrite arrives_about.
    change (is_about j (About 0 r)) with (is_about j (About i r)). lia.
  - intros j. rewrite sumZ_app, (sumZ_insert _ _ _ _ _ Hi), sumZ_one. specialize (Hpa j). unfold after at 2 3. cbn. lia.
  - rewrite length_insert.
    assert (Hkeep : forall k x, <[i:=BThread P_inside r]> (threads s) !! k = Some x -> (forall y, threads s !! k = Some y -> b_pc y = P_done) -> b_pc x = P_done).
    { intros k x Hk Hall. apply list_lookup_insert_Some in Hk as [(<- & <- & _)|[_ Hk]]; [|by apply Hall]. by specialize (Hall _ Hi). }
    destruct (main s) as [| | | |k|st]; try done.
    + by rewrite Hm in Hi.
    + by rewrite Hm in Hi.
    + destruct Hm as (Hm & Hk & Hall). split_and!; try done. intros a x Hlt Hx. eapply Hkeep; [done|]. intros y. by apply Hall.
    + intros Hst. destruct (Hm Hst) as [Hlen Hall]. split; [done|]. intros a x Hx. eapply Hkeep; [done|]. apply Hall.
Qed.

(** When the last thread arrives all the others are inside. *)
Lemma all_inside s i r : Inv s -> threads s !! i = Some (BThread P_arrive r) -> (numThreads <= S (arrived s))%nat ->
  length (threads s) = numThreads /\ forall x, x ∈ <[i:=BThread P_inside r]> (threads s) -> x = BThread P_inside (rounds s).
Proof.
  intros Hi Hth Hn. destruct (i_length _ Hi) as [Hl _]. pose proof (i_arrived _ Hi) as Ha.
  set (ts := <[i:=BThread P_inside r]> (threads s)).
  assert (Hsum : sumZ inside ts = Z.of_nat (S (arrived s))) by (unfold ts; rewrite (sumZ_insert _ _ _ _ _ Hth); cbn; lia).
  assert (Hlen : length ts = length (threads s)) by apply length_insert.
  assert (Hall : forall x, x ∈ ts -> inside x = 1) by (apply sumZ_full; [apply inside_bound|]; lia).
  split.
  - apply sumZ_const in Hall. lia.
  - intros x Hx. pose proof (Hall x Hx) as Hin. apply list_elem_of_lookup in Hx as (k & Hk).
    assert (Hok : thread_ok (rounds s) x).
    { apply list_lookup_insert_Some in Hk as [(<- & <- & _)|[_ Hk]]; [|by eapply i_threads]. exact (i_threads _ Hi _ _ Hth). }
    destruct x as [p j]. unfold inside in Hin. cbn in *. destruct p; try done. destruct Hok as [Hj _]. cbn in Hj. by subst j.
Qed.

(** ... and the barrier opens. *)
Lemma Inv_opens s i r ser sth : Inv s -> exited s = false -> threads s !! i = Some (BThread P_arrive r) -> (numThreads <= S (arrived s))%nat ->
  <[i:=BThread P_inside r]> (threads s) !! ser = Some sth ->
  Inv (BState (<[ser:=BThread (P_ret PTHREAD_BARRIER_SERIAL_THREAD) (b_j sth)]> (release <$> <[i:=BThread P_inside r]> (threads s)))
         0 (S (rounds s)) (main s) (out s ++ [About i r])).
Proof.
  intros Hi Hx Hth Hn Hser. destruct (all_inside s i r Hi Hth Hn) as [Hlen Hall].
  pose proof (i_threads _ Hi _ _ Hth) as Hok. cbn in Hok. destruct Hok as [-> Hlt].
  assert (sth = BThread P_inside (rounds s)) as -> by (apply Hall; by eapply list_elem_of_lookup_2).
  set (ts := <[i:=BThread P_inside (rounds s)]> (threads s)) in *. cbn [b_j].
  assert (Hrel : (release <$> ts) !! ser = Some (BThread (P_ret 0) (rounds s))) by (by rewrite list_lookup_fmap, Hser).
  assert (Hex : forall f, sumZ f (release <$> ts) = sumZ (fun _ => f (BThread (P_ret 0) (rounds s))) ts).
  { intros f. rewrite sumZ_fmap. apply sumZ_ext. intros x Hxt. by rewrite (Hall x Hxt). }
  assert (Hts : forall f, sumZ f ts = sumZ (fun _ => f (BThread P_inside (rounds s))) ts).
  { intros f. apply sumZ_ext. intros x Hxt. by rewrite (Hall x Hxt). }
  assert (Hold : forall f, sumZ f (threads s) = sumZ f ts + f (BThread P_arrive (rounds s)) - f (BThread P_inside (rounds s))).
  { intros f. unfold ts. rewrite (sumZ_insert _ _ _ _ _ Hth). lia. }
  destruct Hi as [Ht Ha Hr Hl Hs Hab Hpa Hm]. split; cbn [threads arrived rounds main out].
  - intros k x Hk. assert (x = BThread (P_ret 0) (rounds s) \/ x = BThread (P_ret PTHREAD_BARRIER_SERIAL_THREAD) (rounds s)) as Hxx.
    { apply list_lookup_insert_Some in Hk as [(<- & <- & _)|[_ Hk]]; [by right|left]. rewrite list_lookup_fmap in Hk.
      destruct (ts !! k) as [y|] eqn:Hy; [|done]. cbn in Hk. injection Hk as <-. by rewrite (Hall y ltac:(by eapply list_elem_of_lookup_2)). }
    destruct Hxx as [-> | ->]; cbn; auto with lia.
  - rewrite (sumZ_insert _ _ _ _ _ Hrel), Hex. cbn. rewrite sumZ_zero; [lia|done].
  - destruct numThreads; [|by left; lia]. by rewrite (nil_length_inv _ Hlen) in Hth.
  - rewrite length_insert, length_fmap. unfold ts. rewrite length_insert. lia.
  - intros j. rewrite sumZ_app, sumZ_one, (sumZ_insert _ _ _ _ _ Hrel), Hex. specialize (Hs j). rewrite Hold, Hts in Hs.
    change (special j (BThread (P_ret 0) (rounds s))) with 0. change (special j (BThread P_inside (rounds s))) with 0 in Hs.
    change (special j (BThread P_arrive (rounds s))) with 0 in Hs. change (is_serial j (About i (rounds s))) with 0.
    change (special j (BThread (P_ret PTHREAD_BARRIER_SERIAL_THREAD) (rounds s))) with (one_if (rounds s =? j)%nat). rewrite one_if_succ. lia.
  - intros j. rewrite sumZ_app, sumZ_one, (sumZ_insert _ _ _ _ _ Hrel), Hex. specialize (Hab j). rewrite Hold, Hts, arrives_about in Hab.
    change (at_or_after j (BThread (P_ret _) (rounds s))) with (at_or_after j (BThread P_inside (rounds s))). rewrite arrives_about.
    change (is_about j (About i (rounds s))) with (is_about j (About 0 (rounds s))). lia.
  - intros j. rewrite sumZ_app, sumZ_one, (sumZ_insert _ _ _ _ _ Hrel), Hex. specialize (Hpa j). rewrite Hold, Hts in Hpa.
    change (after j (BThread (P_ret _) (rounds s))) with (after j (BThread P_inside (rounds s))).
    change (after j (BThread P_arrive (rounds s))) with (after j (BThread P_inside (rounds s))) in Hpa.
    change (is_passed j (About i (rounds s))) with 0. lia.
  - rewrite length_insert, length_fmap. unfold ts. rewrite length_insert. unfold exited in Hx.
    destruct (main s) as [| | | |k|st]; try done.
    + by rewrite Hm in Hth.
    + by rewrite Hm in Hth.
    + destruct Hm as (_ & Hk & Hdone). split_and!; try done. intros a x Ha' _. exfalso.
      destruct (lookup_lt_is_Some_2 (threads s) a) as [y Hy]; [lia|]. pose proof (Hdone a y Ha' Hy) as Hd.
      destruct (decide (a = i)) as [->|Hne]; [rewrite Hth in Hy; by simplify_eq|].
      assert (Hya : ts !! a = Some y) by (unfold ts; by rewrite list_lookup_insert_ne).
      rewrite (Hall y ltac:(by eapply list_elem_of_lookup_2)) in Hd. done.
Qed.

Lemma loop_test_counts j k s0 : special k (BThread (loop_test j) j) = 0 /\ inside (BThread (loop_test j) j) = 0 /\
  at_or_after k (BThread (loop_test j) j) = one_if (k <? j)%nat /\ after k (BThread (loop_test j) j) = one_if (k <? j)%nat /\
  (s0 = loop_test j -> s0 <> P_done).
Proof. unfold loop_test. destruct (j <? numBarriers)%nat; split_and!; try done; by intros ->. Qed.
Lemma loop_test_ok r : (r <= numBarriers)%nat -> thread_ok r (BThread (loop_test r) r).
Proof. intros Hr. unfold loop_test, thread_ok. destruct (Nat.ltb_spec r numBarriers); cbn; lia. Qed.

Lemma bar_Inv_thread ser i s s' : Inv s -> exited s = false -> threadFunc_step ser i s = Some s' -> Inv s'.
Proof.
  intros Hi Hx Hs. unfold threadFunc_step in Hs. destruct (threads s !! i) as [[p j]|] eqn:Hth; [|done]. cbn [b_pc b_j mbind option_bind] in Hs.
  pose proof (i_threads _ Hi i _ Hth) as Hok. unfold thread_ok in Hok. cbn [b_pc b_j] in Hok.
  pose proof (fun th' ls Hd => Inv_moved s i _ th' ls Hi Hth Hd) as Hgo.
  assert (Hnext : forall k, special k (BThread (loop_test (S j)) (S j)) = 0 /\ at_or_after k (BThread (loop_test (S j)) (S j)) = one_if (k <? S j)%nat /\
    after k (BThread (loop_test (S j)) (S j)) = one_if (k <? S j)%nat) by (intros k; by destruct (loop_test_counts (S j) k P_start) as (? & _ & ? & ? & _)).
  destruct p as [| | | |r| | |]; try done; try specialize (fun th' ls => Hgo th' ls ltac:(done)).
  - injection Hs as <-. destruct Hok as [-> Hr].
    apply (Hgo (BThread (loop_test (rounds s)) (rounds s)) [Started i]); [apply loop_test_ok; lia|apply (loop_test_counts (rounds s) 0 P_start)|..];
      intros k; destruct (loop_test_counts (rounds s) k P_start) as (H1 & _ & H2 & H3 & _); rewrite ?H1, ?H2, ?H3, sumZ_one; done.
  - injection Hs as <-. unfold with_thread. rewrite <- (app_nil_r (out s)). by apply (Hgo (BThread P_arrive j) []).
  - unfold barrier_wait in Hs. cbn [threads print arrived rounds main out] in Hs. rewrite Hth in Hs. cbn [mbind option_bind b_j] in Hs.
    destruct (Nat.ltb_spec (S (arrived s)) numThreads) as [Hlt|Hge].
    + injection Hs as <-. by apply Inv_waits.
    + destruct (_ !! ser) as [sth|] eqn:Hser; [|done]. cbn [mbind option_bind] in Hs. case_bool_decide as Hp; [|done]. injection Hs as <-.
      by apply Inv_opens.
  - destruct Hok as (Hj & Hle & Hr). destruct Hr as [-> | ->]; cbn [Z.eqb] in Hs; injection Hs as <-.
    + apply (Hgo (BThread (loop_test (S j)) (S j)) [Passed i j false]); [rewrite Hj in *; by apply loop_test_ok|apply (loop_test_counts (S j) 0 P_start)|..];
        intros k; destruct (Hnext k) as (H1 & H2 & H3); rewrite ?H1, ?H2, ?H3, sumZ_one; try done.
      cbn [is_passed]. rewrite one_if_succ. unfold after, one_if. cbn. lia.
    + apply (Hgo (BThread P_delay j) [Passed i j true]); try done; intros k; rewrite sumZ_one; cbn [is_serial is_about is_passed].
      * unfold special. cbn. unfold one_if. destruct (j =? k)%nat; done.
      * unfold after. cbn [b_pc b_j]. pose proof (one_if_le k j) as Hle'. unfold one_if in *. lia.
  - injection Hs as <-. destruct Hok as [Hj Hle].
    apply (Hgo (BThread (loop_test (S j)) (S j)) [Newline]); [rewrite Hj in *; by apply loop_test_ok|apply (loop_test_counts (S j) 0 P_start)|..];
      intros k; destruct (Hnext k) as (H1 & H2 & H3); rewrite ?H1, ?H2, ?H3, sumZ_one; done.
  - injection Hs as <-. by apply (Hgo (BThread P_done j) [Terminating i]).
Qed.

Lemma bar_Inv_main ok s s' : Inv s -> main_step ok s = Some s' -> Inv s'.
Proof.
  intros Hi Hs. pose proof (i_main _ Hi) as Hm. unfold main_step in Hs.
  assert (Hgo : forall m, match m with
    | M_calloc | M_init => threads s = [] | M_create => True | M_newline => length (threads s) = numThreads
    | M_join k => length (threads s) = numThreads /\ (k <= numThreads)%nat /\ forall i th, (i < k)%nat -> threads s !! i = Some th -> b_pc th = P_done
    | M_exit st => st = EXIT_SUCCESS -> length (threads s) = numThreads /\ forall i th, threads s !! i = Some th -> b_pc th = P_done
    end -> Inv (with_main m s)) by (intros m Hm'; destruct Hi; by split).
  assert (Hf : Inv (with_main (M_exit EXIT_FAILURE) s)) by (by apply Hgo).
  destruct (main s) as [| | | |k|st] eqn:Hmn; try done.
  - destruct ok; injection Hs as <-; [by apply Hgo|done].
  - destruct (numThreads =? 0)%nat; [by injection Hs as <-|]. destruct ok; injection Hs as <-; [by apply Hgo|done].
  - destruct (Nat.ltb_spec (length (threads s)) numThreads) as [Hl|Hl].
    + destruct ok; injection Hs as <-; [|done]. clear Hgo Hf. destruct Hi as [Ht Ha Hr [Hlen Hfull] Hse Hab Hpa _].
      assert (Hr0 : rounds s = 0%nat) by (destruct (rounds s); [done|]; specialize (Hfull ltac:(lia)); lia).
      split; cbn [threads arrived rounds main out]; try done.
      * by apply (all_snoc (fun _ => thread_ok (rounds s))).
      * rewrite sumZ_app, sumZ_one. cbn. lia.
      * left. destruct Hr as [|Hn]; [done|]. rewrite Hn, sumZ_nil in Ha. lia.
      * rewrite length_app. cbn. lia.
      * intros j. rewrite sumZ_app, sumZ_one. specialize (Hse j). change (special j (BThread P_start 0)) with 0. lia.
      * intros j. rewrite sumZ_app, sumZ_one. specialize (Hab j). change (at_or_after j (BThread P_start 0)) with 0. lia.
      * intros j. rewrite sumZ_app, sumZ_one. specialize (Hpa j). change (after j (BThread P_start 0)) with 0. lia.
    + injection Hs as <-. apply Hgo. pose proof (i_length _ Hi). lia.
  - injection Hs as <-. assert (Hi' : Inv (with_main (M_join 0) s)) by (apply Hgo; split; [done|]; split; [lia|]; intros; lia).
    destruct Hi' as [Ht Ha Hr Hlen Hse Hab Hpa Hm']. cbn in *. split; cbn [threads arrived rounds main out with_main print]; try done.
    * intros j. rewrite sumZ_app, sumZ_one. specialize (Hse j). cbn [is_serial]. rewrite Z.add_0_r. exact Hse.
    * intros j. rewrite sumZ_app, sumZ_one. specialize (Hab j). cbn [is_about]. rewrite Z.add_0_r. exact Hab.
    * intros j. rewrite sumZ_app, sumZ_one. specialize (Hpa j). cbn [is_passed]. rewrite Z.add_0_r. exact Hpa.
  - destruct Hm as (Hl & Hk & Hd). destruct (Nat.ltb_spec k numThreads) as [Hlt|Hge].
    + destruct (threads s !! k) as [th|] eqn:Hth; [|done]. cbn in Hs. case_bool_decide as Hp; [|done]. injection Hs as <-.
      apply Hgo. split_and!; [done|lia|]. intros a x Ha Hx. destruct (decide (a = k)) as [->|Hne]; [congruence|]. apply (Hd a); [lia|done].
    + injection Hs as <-. apply Hgo. intros _. split; [done|]. intros a x Hx. apply (Hd a); [|done]. apply lookup_lt_Some in Hx. lia.
Qed.

Lemma bar_Inv_step s s' : Inv s -> step s s' -> Inv s'.
Proof. intros Hi Hs. destruct Hs as [s ser i s' Hx Hs|s ok s' Hs]; [by eapply bar_Inv_thread|by eapply bar_Inv_main]. Qed.

(** * Every run ends *)

Definition tweight (th : bthread) : Z :=
  8 * (Z.of_nat numBarriers - Z.of_nat (b_j th)) +
  match b_pc th with P_start => 7 | P_sleep => 6 | P_arrive => 5 | P_inside => 4 | P_ret _ => 3 | P_delay => 1 | P_term => 2 | P_done => 0 end.
Definition mweight (s : bstate) : Z :=
  let n := Z.of_nat numThreads in
  let left := (8 * Z.of_nat numBarriers + 8) * (n - Z.of_nat (length (threads s))) in
  match main s with
  | M_calloc => left + n + 6 | M_init => left + n + 5 | M_create => left + n + 4 | M_newline => n + 3
  | M_join k => n - Z.of_nat k + 2 | M_exit _ => 0
  end.
Definition bmeasure (s : bstate) : Z := sumZ tweight (threads s) + mweight s.

Lemma tweight_nonneg r th : thread_ok r th -> 0 <= tweight th.
Proof. unfold thread_ok, tweight. destruct (b_pc th); lia. Qed.
Lemma bmeasure_nonneg s : Inv s -> 0 <= bmeasure s.
Proof.
  intros Hi. unfold bmeasure, mweight. assert (0 <= sumZ tweight (threads s)).
  { apply sumZ_nonneg. intros th (i & Hth)%list_elem_of_lookup. by eapply tweight_nonneg, i_threads. }
  pose proof (i_length _ Hi) as [Hl _]. pose proof (i_main _ Hi) as Hm.
  assert (0 <= (8 * Z.of_nat numBarriers + 8) * (Z.of_nat numThreads - Z.of_nat (length (threads s)))) by nia.
  destruct (main s); try lia.
Qed.

Lemma loop_test_weight j : (S j <= numBarriers)%nat -> tweight (BThread (loop_test (S j)) (S j)) < 8 * (Z.of_nat numBarriers - Z.of_nat j).
Proof. unfold loop_test, tweight. destruct (S j <? numBarriers)%nat; cbn [b_pc b_j]; lia. Qed.
Lemma with_thread_measure s i th th' a r o : Inv s -> threads s !! i = Some th -> tweight th' < tweight th ->
  bmeasure (BState (<[i:=th']> (threads s)) a r (main s) o) < bmeasure s.
Proof.
  intros Hi Hth Hw. unfold bmeasure, mweight. cbn [threads main]. rewrite (sumZ_insert _ _ _ _ _ Hth), length_insert. lia.
Qed.

Lemma exit_measure s st : Inv s -> exited s = false -> bmeasure (with_main (M_exit st) s) < bmeasure s.
Proof.
  intros Hi Hx. unfold bmeasure, mweight, exited in *. cbn [with_main threads main]. pose proof (i_main _ Hi) as Hm. pose proof (i_length _ Hi) as [Hl _].
  assert (0 <= (8 * Z.of_nat numBarriers + 8) * (Z.of_nat numThreads - Z.of_nat (length (threads s)))) by nia.
  destruct (main s); try done; lia.
Qed.

Lemma bar_thread_measure ser i s s' : Inv s -> exited s = false -> threadFunc_step ser i s = Some s' -> bmeasure s' < bmeasure s.
Proof.
  intros Hi Hx Hs. unfold threadFunc_step in Hs. destruct (threads s !! i) as [[p j]|] eqn:Hth; [|done]. cbn [b_pc b_j mbind option_bind] in Hs.
  pose proof (i_threads _ Hi i _ Hth) as Hok. unfold thread_ok in Hok. cbn [b_pc b_j] in Hok.
  pose proof (fun th' a r o => with_thread_measure s i _ th' a r o Hi Hth) as Hgo.
  destruct p as [| | | |r| | |]; try done.
  - injection Hs as <-. apply Hgo. unfold tweight, loop_test. cbn [b_pc b_j]. destruct (j <? numBarriers)%nat; lia.
  - injection Hs as <-. apply Hgo. unfold tweight. cbn [b_pc b_j]. lia.
  - unfold barrier_wait in Hs. cbn [threads print arrived rounds main out] in Hs. rewrite Hth in Hs. cbn [mbind option_bind b_j] in Hs.
    destruct (_ <? _)%nat.
    + injection Hs as <-. apply Hgo. unfold tweight. cbn [b_pc b_j]. lia.
    + destruct (_ !! ser) as [[q k]|] eqn:Hser; [|done]. cbn [mbind option_bind b_pc] in Hs. case_bool_decide as Hp; [|done]. subst q. injection Hs as <-.
      set (ts := <[i:=BThread P_inside j]> (threads s)) in *.
      assert (Hrel : (release <$> ts) !! ser = Some (BThread (P_ret 0) k)) by (by rewrite list_lookup_fmap, Hser).
      unfold bmeasure, mweight. cbn [threads main]. rewrite (sumZ_insert _ _ _ _ _ Hrel), length_insert, length_fmap.
      assert (Hlen : length ts = length (threads s)) by apply length_insert. rewrite Hlen.
      assert (Hle : sumZ tweight (release <$> ts) <= sumZ tweight ts).
      { rewrite sumZ_fmap. apply sumZ_le. intros [q m] _. unfold release, tweight. cbn [b_pc]. destruct q; cbn [b_pc b_j]; lia. }
      assert (Hlt : sumZ tweight ts < sumZ tweight (threads s)).
      { unfold ts. rewrite (sumZ_insert _ _ _ _ _ Hth). unfold tweight at 2 3. cbn [b_pc b_j]. lia. }
      unfold tweight at 2 3. cbn [b_pc b_j]. lia.
  - destruct Hok as (Hj & Hle & Hr). pose proof (loop_test_weight j ltac:(lia)) as Hw.
    destruct Hr as [-> | ->]; cbn [Z.eqb] in Hs; injection Hs as <-; apply Hgo; unfold tweight at 2; cbn [b_pc b_j]; [lia|unfold tweight; cbn [b_pc b_j]; lia].
  - injection Hs as <-. destruct Hok as [Hj Hle]. pose proof (loop_test_weight j ltac:(lia)) as Hw.
    apply Hgo. unfold tweight at 2. cbn [b_pc b_j]. lia.
  - injection Hs as <-. apply Hgo. unfold tweight. cbn [b_pc b_j]. lia.
Qed.

Lemma bar_main_measure ok s s' : Inv s -> main_step ok s = Some s' -> bmeasure s' < bmeasure s.
Proof.
  intros Hi Hs. pose proof (exit_measure s EXIT_FAILURE Hi) as Hf. pose proof (i_main _ Hi) as Hm. pose proof (i_length _ Hi) as [Hl _].
  assert (0 <= (8 * Z.of_nat numBarriers + 8) * (Z.of_nat numThreads - Z.of_nat (length (threads s)))) as Hleft by nia.
  unfold main_step, exited in *. destruct (main s) as [| | | |k|st] eqn:Hmn; try done; specialize (Hf eq_refl).
  - destruct ok; injection Hs as <-; [|done]. unfold bmeasure, mweight. cbn [with_main threads main]. rewrite Hmn. lia.
  - destruct (numThreads =? 0)%nat; [by injection Hs as <-|]. destruct ok; injection Hs as <-; [|done].
    unfold bmeasure, mweight. cbn [with_main threads main]. rewrite Hmn. lia.
  - destruct (length (threads s) <? numThreads)%nat eqn:Hlt.
    + destruct ok; injection Hs as <-; [|done]. unfold bmeasure, mweight. cbn [threads main]. rewrite Hmn, sumZ_app, sumZ_one, length_app.
      unfold tweight at 2. cbn [b_pc b_j length]. lia.
    + injection Hs as <-. unfold bmeasure, mweight. cbn [with_main threads main]. rewrite Hmn. lia.
  - injection Hs as <-. unfold bmeasure, mweight. cbn [with_main print threads main]. rewrite Hmn. lia.
  - destruct (k <? numThreads)%nat eqn:Hk.
    + destruct (threads s !! k); [|done]. cbn in Hs. case_bool_decide; [|done]. injection Hs as <-.
      unfold bmeasure, mweight. cbn [with_main threads main]. rewrite Hmn. lia.
    + injection Hs as <-. unfold bmeasure, mweight. cbn [with_main threads main]. rewrite Hmn. lia.
Qed.

Lemma bar_step_measure s s' : Inv s -> step s s' -> 0 <= bmeasure s' < bmeasure s.
Proof.
  intros Hi Hs. split; [by eapply bmeasure_nonneg, bar_Inv_step|].
  destruct Hs as [s ser i s' Hx Hs|s ok s' Hs]; [by eapply bar_thread_measure|by eapply bar_main_measure].
Qed.

(** * No run gets stuck *)

Lemma bar_thread_moves s i th : Inv s -> threads s !! i = Some th -> b_pc th <> P_inside -> b_pc th <> P_done ->
  exists ser s', threadFunc_step ser i s = Some s'.
Proof.
  intros Hi Hth Hin Hd. unfold threadFunc_step. rewrite Hth. cbn [mbind option_bind].
  pose proof (i_threads _ Hi i _ Hth) as Hok. unfold thread_ok in Hok.
  destruct th as [p j]. cbn [b_pc b_j] in *. destruct p as [| | | |r| | |]; try done; try (by exists 0%nat; eexists).
  - exists i. unfold barrier_wait. cbn [threads print arrived rounds main out]. rewrite Hth. cbn [mbind option_bind b_j].
    destruct (_ <? _)%nat; [by eexists|]. rewrite list_lookup_insert_eq by (by eapply lookup_lt_Some). cbn [mbind option_bind b_pc].
    rewrite bool_decide_eq_true_2 by done. by eexists.
  - exists 0%nat. destruct (r =? 0); [by eexists|]. destruct (r =? _); by eexists.
Qed.

(** Somebody is not waiting at the barrier, and has not ended, unless all have. *)
Lemma bar_someone s k th : Inv s -> length (threads s) = numThreads -> threads s !! k = Some th -> b_pc th <> P_done ->
  exists i x, threads s !! i = Some x /\ b_pc x <> P_inside /\ b_pc x <> P_done.
Proof.
  intros Hi Hl Hk Hd. destruct (decide (b_pc th = P_inside)) as [Hin|Hin]; [|by exists k, th].
  destruct (i_room _ Hi) as [Hr|Hn]; [|by rewrite Hn in Hk]. pose proof (i_arrived _ Hi) as Ha.
  destruct (sumZ_pos (fun x => 1 - inside x) (threads s)) as (i & x & Hx & Hpos).
  - assert (Hs : sumZ (fun x => 1 - inside x) (threads s) = Z.of_nat (length (threads s)) - sumZ inside (threads s)).
    { clear. induction (threads s) as [|x l IH]; [done|]. rewrite !sumZ_cons, IH. cbn [length]. lia. }
    lia.
  - exists i, x. split; [done|]. unfold inside in Hpos. split; [by destruct (b_pc x)|]. intros Hx'.
    pose proof (i_threads _ Hi _ _ Hx) as H1. pose proof (i_threads _ Hi _ _ Hk) as H2. unfold thread_ok in *. rewrite Hx' in H1. rewrite Hin in H2. lia.
Qed.

Lemma bar_progress s : Inv s -> exited s = false -> exists s', step s s'.
Proof.
  intros Hi Hx. assert (Hgo : forall ok s', main_step ok s = Some s' -> exists s', step s s') by (intros; eexists; by eapply step_main).
  pose proof (i_main _ Hi) as Hm. unfold main_step, exited in *. destruct (main s) as [| | | |k|st] eqn:Hmn; try done.
  - by eapply (Hgo true).
  - specialize (Hgo true). destruct (numThreads =? 0)%nat; by eapply Hgo.
  - specialize (Hgo true). destruct (_ <? _)%nat; by eapply Hgo.
  - by eapply (Hgo true).
  - destruct Hm as (Hl & Hk & Hd). specialize (Hgo true). destruct (Nat.ltb_spec k numThreads) as [Hlt|]; [|by eapply Hgo].
    destruct (lookup_lt_is_Some_2 (threads s) k) as [th Hth]; [lia|]. rewrite Hth in Hgo. cbn in Hgo.
    destruct (decide (b_pc th = P_done)) as [Hp|Hp]; [rewrite bool_decide_eq_true_2 in Hgo by done; by eapply Hgo|].
    destruct (bar_someone s k th Hi Hl Hth Hp) as (i & x & Hx' & Hin & Hdn).
    destruct (bar_thread_moves s i x Hi Hx' Hin Hdn) as (ser & s' & Hs). exists s'. eapply step_thread; [|done]. unfold exited. by rewrite Hmn.
Qed.

(** * The result *)

(** A thread that has passed barrier [j] passed it after all threads had come to it, and one
    thread at most has the special value; and at the end all have passed all barriers. *)
Definition meets (s : bstate) : Prop :=
  (forall i j b, Passed i j b ∈ out s -> sumZ (is_about j) (out s) = Z.of_nat numThreads) /\
  (forall j, sumZ (is_serial j) (out s) <= 1) /\
  match main s with
  | M_exit st => st = EXIT_SUCCESS -> forall j, (j < numBarriers)%nat ->
      sumZ (is_passed j) (out s) = Z.of_nat numThreads /\ sumZ (is_serial j) (out s) = 1
  | _ => exists s', step s s'
  end.

Lemma counted_one (f : nat -> line -> Z) i j b (l : list line) : (forall x, 0 <= f j x) -> f j (Passed i j b) = 1 -> Passed i j b ∈ l -> 1 <= sumZ (f j) l.
Proof.
  intros Hf H1 (k & Hk)%list_elem_of_lookup. pose proof (sumZ_elem (f j) l k _ ltac:(intros; apply Hf) Hk). lia.
Qed.
Lemma is_passed_nonneg j l : 0 <= is_passed j l.
Proof. unfold is_passed, one_if. destruct l; try done. by destruct (_ =? _)%nat. Qed.

Lemma passed_rounds s i j b : Inv s -> Passed i j b ∈ out s -> (j < rounds s)%nat.
Proof.
  intros Hi Hp. apply (counted_one is_passed) in Hp; [|intros; apply is_passed_nonneg|unfold is_passed, one_if; by rewrite Nat.eqb_refl].
  rewrite (i_passes _ Hi) in Hp. destruct (sumZ_pos (after j) (threads s)) as (k & th & Hk & Hpos); [lia|].
  pose proof (i_threads _ Hi _ _ Hk) as Hok. unfold thread_ok, after in *.
  destruct (b_pc th); repeat case_match; try lia;
    repeat match goal with H : (_ <? _)%nat = true |- _ => apply Nat.ltb_lt in H | H : (_ <=? _)%nat = true |- _ => apply Nat.leb_le in H end; lia.
Qed.

(** A barrier that has been made is for somebody. *)
Definition some_thread (s : bstate) : Prop :=
  match main s with M_calloc | M_init => True | M_exit st => st = EXIT_SUCCESS -> numThreads <> 0%nat | _ => numThreads <> 0%nat end.
Lemma some_thread_step s s' : some_thread s -> step s s' -> some_thread s'.
Proof.
  intros Hs Hst. destruct Hst as [s1 ser i s2 Hx Ht|s1 ok s2 Hm]; unfold some_thread in *.
  - unfold threadFunc_step, barrier_wait, print in Ht. destruct (threads s1 !! i) as [[p j]|] eqn:Hth; [|done].
    unfold exited in *. cbn [mbind option_bind b_pc b_j] in Ht.
    destruct p; try done; try (injection Ht as <-; exact Hs).
    + cbn [threads] in Ht. rewrite Hth in Ht. cbn [mbind option_bind] in Ht. destruct (_ <? _)%nat; [injection Ht as <-; exact Hs|]. apply bind_Some in Ht as (th & _ & Ht). case_bool_decide; [|done]. injection Ht as <-. exact Hs.
    + destruct (_ =? 0); [injection Ht as <-; exact Hs|]. destruct (_ =? _); injection Ht as <-; [exact Hs|done].
  - unfold main_step in Hm. destruct (main s1) eqn:Hmn; simplify_eq/=; try done.
    + destruct ok; by simplify_eq/=.
    + destruct (Nat.eqb_spec numThreads 0); [by simplify_eq/=|]. destruct ok; by simplify_eq/=.
    + destruct (_ <? _)%nat; [|by simplify_eq/=]. destruct ok; by simplify_eq/=.
    + destruct (_ <? _)%nat; [|by simplify_eq/=]. apply bind_Some in Hm as (th & _ & Hm). case_bool_decide; by simplify_eq/=.
Qed.

Lemma Inv_meets s : Inv s -> some_thread s -> meets s.
Proof.
  intros Hi Hnz. split; [|split].
  - intros i j b Hp. pose proof (passed_rounds s i j b Hi Hp) as Hr. rewrite (i_abouts _ Hi).
    destruct (i_length _ Hi) as [_ Hl]. rewrite <- (Hl ltac:(lia)). apply sumZ_const.
    intros th (k & Hk)%list_elem_of_lookup. pose proof (i_threads _ Hi _ _ Hk) as Hok. unfold thread_ok, at_or_after in *.
    destruct (b_pc th); try (rewrite (proj2 (Nat.ltb_lt _ _)) by lia; done); rewrite (proj2 (Nat.leb_le _ _)) by lia; done.
  - intros j. pose proof (i_serials _ Hi j) as Hs. assert (0 <= sumZ (special j) (threads s)).
    { apply sumZ_nonneg. intros th _. unfold special. destruct (b_pc th); try done. by destruct (_ && _). }
    unfold one_if in Hs. destruct (j <? rounds s)%nat; lia.
  - pose proof (bar_progress s Hi) as Hp. unfold exited in Hp. pose proof (i_main _ Hi) as Hm.
    destruct (main s) as [| | | |k|st] eqn:Hmn; try (by apply Hp). intros -> j Hj. destruct (Hm eq_refl) as [Hl Hd].
    assert (Hdone : forall th, th ∈ threads s -> b_pc th = P_done /\ b_j th = numBarriers /\ rounds s = numBarriers).
    { intros th (i & Hi')%list_elem_of_lookup. pose proof (i_threads _ Hi _ _ Hi') as Hok. pose proof (Hd i th Hi') as Hdn. unfold thread_ok in Hok.
      rewrite Hdn in Hok. split; [done|lia]. }
    split.
    + rewrite (i_passes _ Hi), <- Hl. apply sumZ_const. intros th Hth. destruct (Hdone th Hth) as (Hd1 & Hd2 & _). unfold after.
      rewrite Hd1, Hd2. by rewrite (proj2 (Nat.ltb_lt _ _)).
    + pose proof (i_serials _ Hi j) as Hs. rewrite (sumZ_zero (special j)) in Hs.
      2:{ intros th Hth. destruct (Hdone th Hth) as (Hd1 & _). unfold special. by rewrite Hd1. }
      destruct (threads s) as [|th ts] eqn:Hts.
      * unfold some_thread in Hnz. rewrite Hmn in Hnz. specialize (Hnz eq_refl). cbn in Hl. lia.
      * destruct (Hdone th) as (_ & _ & Hr); [left|]. rewrite Hr in Hs. unfold one_if in Hs. rewrite (proj2 (Nat.ltb_lt _ _)) in Hs by done. lia.
Qed.

(** C20: pthread_barrier_demo ends in every interleaving of its threads, whichever of its calls fail and
    whichever thread gets PTHREAD_BARRIER_SERIAL_THREAD; a thread that prints that it has passed barrier [j]
    does so after all [numThreads] threads have printed that they are about to wait for it; at most one of them
    prints the special message; a state in which main() has not ended has a next step; and when the program
    succeeds every thread has passed every barrier, with exactly one special message for each. *)
Theorem barrier_correct : sn step start /\ forall s, rtc step start s -> meets s.
Proof.
  split; [apply (sn_measure step Inv bar_Inv_step bmeasure); [intros; by apply bar_step_measure|apply bar_Inv_start]|].
  intros s Hr. apply Inv_meets; [by eapply (reach_inv step Inv bar_Inv_step), Hr; apply bar_Inv_start|].
  by eapply (reach_inv step some_thread some_thread_step), Hr.
Qed.
End program.
