(* ===== verification/Process.v ===== *)
(** The attributes of a process that daemons and terminals are about: its descriptors, its
    process group, session and controlling terminal, its file mode creation mask and its
    directory; and the calls that change them, as an interface with laws. *)
From S2P Require Import Prelude CLib Sys Calls.
#[local] Open Scope Z_scope.

Definition STDIN_FILENO : Z := 0.
Definition STDOUT_FILENO : Z := 1.
Definition STDERR_FILENO : Z := 2.
Definition EOVERFLOW : Z := 75.

(** What a descriptor refers to: a file that was opened by name, or a UNIX 98 pseudoterminal
    master. *)
Inductive file := Named (path : bytes) | Master (n : Z).
#[export] Instance file_eq_dec : EqDecision file.
Proof. solve_decision. Defined.
Record winsize := Winsize { ws_row : Z; ws_col : Z }.

(** The calls, for terminal attributes of type [T]. fork() returns in one of the two
    processes. *)
Class ProcOS (T S : Type) := {
  sys_open : bytes -> M S (sysres Z);
  sys_close : Z -> M S (sysres unit);
  sys_dup2 : Z -> Z -> M S (sysres Z);
  sys_fork : M S (sysres Z);
  sys_setsid : M S (sysres Z);
  sys_umask : Z -> M S Z;
  sys_chdir : bytes -> M S (sysres unit);
  sys_open_max : M S Z;
  sys_posix_openpt : M S (sysres Z);
  sys_grantpt : Z -> M S (sysres unit);
  sys_unlockpt : Z -> M S (sysres unit);
  sys_ptsname : Z -> M S (sysres bytes);
  sys_sctty : Z -> M S (sysres unit);
  sys_tcsetattr : Z -> T -> M S (sysres unit);
  sys_swinsz : Z -> winsize -> M S (sysres unit)
}.

(** * What the calls do *)

(** [depth]: how many fork() lie between the process and the one that began. The attributes
    and sizes of terminals are those that were set, by name. *)
Record pview (T : Type) := PView {
  fds : gmap Z file;
  depth : nat;
  pgrp_leader : bool;
  session_leader : bool;
  tty : option bytes;
  mask : Z;
  cwd : bytes;
  tios : gmap bytes T;
  wins : gmap bytes winsize
}.
Arguments PView {T}.
Arguments fds {T}. Arguments depth {T}. Arguments pgrp_leader {T}. Arguments session_leader {T}.
Arguments tty {T}. Arguments mask {T}. Arguments cwd {T}. Arguments tios {T}. Arguments wins {T}.

Section effects.
Context {T : Type}.
Implicit Types v w : pview T.

Definition with_fds (f : gmap Z file) v : pview T :=
  PView f (depth v) (pgrp_leader v) (session_leader v) (tty v) (mask v) (cwd v) (tios v) (wins v).
Definition with_tty (t : option bytes) v : pview T :=
  PView (fds v) (depth v) (pgrp_leader v) (session_leader v) t (mask v) (cwd v) (tios v) (wins v).
Definition with_mask (m : Z) v : pview T :=
  PView (fds v) (depth v) (pgrp_leader v) (session_leader v) (tty v) m (cwd v) (tios v) (wins v).
Definition with_cwd (d : bytes) v : pview T :=
  PView (fds v) (depth v) (pgrp_leader v) (session_leader v) (tty v) (mask v) d (tios v) (wins v).
Definition with_tio (p : bytes) (t : T) v : pview T :=
  PView (fds v) (depth v) (pgrp_leader v) (session_leader v) (tty v) (mask v) (cwd v) (<[p := t]> (tios v)) (wins v).
Definition with_win (p : bytes) (x : winsize) v : pview T :=
  PView (fds v) (depth v) (pgrp_leader v) (session_leader v) (tty v) (mask v) (cwd v) (tios v) (<[p := x]> (wins v)).
(** The child of a fork(), and the leader of a new session. *)
Definition forked v : pview T := PView (fds v) (S (depth v)) false false (tty v) (mask v) (cwd v) (tios v) (wins v).
Definition new_session v : pview T := PView (fds v) (depth v) true true None (mask v) (cwd v) (tios v) (wins v).

(** The descriptor that is given to the next file. *)
Definition lowest_free (f : gmap Z file) (fd : Z) : Prop :=
  0 <= fd /\ f !! fd = None /\ forall k, 0 <= k < fd -> is_Some (f !! k).

(** A session leader without a terminal gets the one it opens. *)
Definition acquires (is_tty : bytes -> bool) (p : bytes) v : option bytes :=
  if session_leader v && bool_decide (tty v = None) && is_tty p then Some p else tty v.

Definition is_open (is_tty : bytes -> bool) (p : bytes) v (r : sysres Z) w : Prop :=
  match r with
  | SOk fd => lowest_free (fds v) fd /\ w = with_tty (acquires is_tty p v) (with_fds (<[fd := Named p]> (fds v)) v)
  | SErr _ => w = v
  end.
Definition is_close (fd : Z) v (r : sysres unit) w : Prop := w = with_fds (delete fd (fds v)) v.
Definition is_dup2 (a b : Z) v (r : sysres Z) w : Prop :=
  match r with
  | SOk n => n = b /\ exists f, fds v !! a = Some f /\ w = with_fds (<[b := f]> (fds v)) v
  | SErr _ => w = v
  end.
Definition is_fork v (r : sysres Z) w : Prop :=
  match r with SOk pid => (pid = 0 /\ w = forked v) \/ (0 < pid /\ w = v) | SErr _ => w = v end.
Definition is_setsid v (r : sysres Z) w : Prop :=
  if pgrp_leader v then (exists e, r = SErr e) /\ w = v else (exists n, 0 < n /\ r = SOk n) /\ w = new_session v.
Definition is_chdir (p : bytes) v (r : sysres unit) w : Prop :=
  match r with SOk _ => w = with_cwd p v | SErr _ => w = v end.
Definition is_openpt v (r : sysres Z) w : Prop :=
  match r with
  | SOk fd => lowest_free (fds v) fd /\ exists n, w = with_fds (<[fd := Master n]> (fds v)) v
  | SErr _ => w = v
  end.
Definition is_ptsname (pts_name : Z -> bytes) (fd : Z) v (r : sysres bytes) w : Prop :=
  w = v /\ match r with SOk p => exists n, fds v !! fd = Some (Master n) /\ p = pts_name n | SErr _ => True end.
(** A call on the terminal that [fd] refers to. *)
Definition on_tty (fd : Z) (f : bytes -> pview T -> pview T) v (r : sysres unit) w : Prop :=
  match r with SOk _ => exists p, fds v !! fd = Some (Named p) /\ w = f p v | SErr _ => w = v end.
End effects.

Class ProcSpec (T S : Type) `{HasLibc S} `{ProcOS T S} := {
  view : S -> pview T;
  is_tty : bytes -> bool;
  pts_name : Z -> bytes;
  open_max : Z;
  view_libc : forall l s, view (set_libc l s) = view s;
  open_spec : forall p s, post (fun r s' => is_open is_tty p (view s) r (view s')) (fun _ _ => False) (sys_open p s);
  close_spec : forall fd s, post (fun r s' => is_close fd (view s) r (view s')) (fun _ _ => False) (sys_close fd s);
  dup2_spec : forall a b s, post (fun r s' => is_dup2 a b (view s) r (view s')) (fun _ _ => False) (sys_dup2 a b s);
  fork_spec : forall s, post (fun r s' => is_fork (view s) r (view s')) (fun _ _ => False) (sys_fork s);
  setsid_spec : forall s, post (fun r s' => is_setsid (view s) r (view s')) (fun _ _ => False) (sys_setsid s);
  umask_spec : forall m s, post (fun _ s' => view s' = with_mask m (view s)) (fun _ _ => False) (sys_umask m s);
  chdir_spec : forall p s, post (fun r s' => is_chdir p (view s) r (view s')) (fun _ _ => False) (sys_chdir p s);
  open_max_spec : forall s, post (fun r s' => r = open_max /\ view s' = view s) (fun _ _ => False) (sys_open_max s);
  openpt_spec : forall s, post (fun r s' => is_openpt (view s) r (view s')) (fun _ _ => False) (sys_posix_openpt s);
  grantpt_spec : forall fd s, post (fun _ s' => view s' = view s) (fun _ _ => False) (sys_grantpt fd s);
  unlockpt_spec : forall fd s, post (fun _ s' => view s' = view s) (fun _ _ => False) (sys_unlockpt fd s);
  ptsname_spec : forall fd s, post (fun r s' => is_ptsname pts_name fd (view s) r (view s')) (fun _ _ => False) (sys_ptsname fd s);
  sctty_spec : forall fd s, post (fun r s' => on_tty fd (fun p => with_tty (Some p)) (view s) r (view s'))
    (fun _ _ => False) (sys_sctty fd s);
  tcsetattr_spec : forall fd t s, post (fun r s' => on_tty fd (fun p => with_tio p t) (view s) r (view s'))
    (fun _ _ => False) (sys_tcsetattr fd t s);
  swinsz_spec : forall fd x s, post (fun r s' => on_tty fd (fun p => with_win p x) (view s) r (view s'))
    (fun _ _ => False) (sys_swinsz fd x s)
}.

(** * A small system *)

(** The lowest free descriptor. *)
Definition free_fd (m : gmap Z file) : Z :=
  default 0 (head (filter (fun k => m !! k = None) (Z.of_nat <$> seq 0 (S (size m))))).

Lemma head_filter_seq (P : Z -> Prop) `{forall k, Decision (P k)} a n k :
  head (filter P (Z.of_nat <$> seq a n)) = Some k ->
  P k /\ Z.of_nat a <= k /\ forall j, Z.of_nat a <= j < k -> ~ P j.
Proof.
  revert a. induction n as [|n IH]; intros a; [done|]. rewrite <- cons_seq, fmap_cons, filter_cons.
  case_decide as Hp; cbn [head].
  - intros [= <-]. split_and!; [done|lia|lia].
  - intros Hk. destruct (IH (S a) Hk) as (H1 & H2 & H3). split_and!; [done|lia|]. intros j Hj.
    destruct (decide (j = Z.of_nat a)) as [->|]; [done|]. apply H3. lia.
Qed.
Lemma free_fd_lowest m : lowest_free m (free_fd m).
Proof.
  unfold free_fd. destruct (head _) as [k|] eqn:Hk; cbn.
  - apply head_filter_seq in Hk as (H1 & H2 & H3). split_and!; [lia|done|]. intros j Hj. apply not_eq_None_Some, H3. lia.
  - exfalso. destruct (filter _ _) as [|? ?] eqn:Hf; [|done]. clear Hk.
    assert (Hsub : list_to_set (Z.of_nat <$> seq 0 (S (size m))) ⊆ (dom m : gset Z)).
    { intros k Hin%elem_of_list_to_set. apply elem_of_dom. apply not_eq_None_Some. intros Hn.
      assert (k ∈ filter (fun k => m !! k = None) (Z.of_nat <$> seq 0 (S (size m)))) as Hx by (by apply list_elem_of_filter).
      rewrite Hf in Hx. by apply not_elem_of_nil in Hx. }
    apply subseteq_size in Hsub. rewrite size_list_to_set in Hsub by (apply NoDup_fmap_2; [apply _|apply NoDup_seq]).
    rewrite size_dom, length_fmap, length_seq in Hsub. lia.
Qed.

(** The calls succeed or fail as a list of decisions says, -1 for a failure; after the list
    they succeed, and fork() returns in the child. *)
Section toy.
Context {T X : Type}.
(** [pt_rest]: what else there is. *)
Record ptoy := PToy { pt_view : pview T; pt_choices : list Z; pt_next : Z; pt_rest : X }.
Definition toy_state : Type := libc * ptoy.
Definition toy_call {A} (f : Z -> pview T -> sysres A * pview T) : M toy_state (sysres A) := fun '(l, t) =>
  let c := default 0 (head (pt_choices t)) in
  let '(r, v) := if c =? -1 then (SErr EINVAL, pt_view t) else f c (pt_view t) in
  (Done r, (l, PToy v (tail (pt_choices t)) (pt_next t) (pt_rest t))).
Definition toy_is_tty (p : bytes) : bool := bool_decide (take 9 p = str "/dev/pts/").
Definition toy_pts (n : Z) : bytes := str "/dev/pts/" ++ print_dec n.
(** A call on the terminal of [fd]. *)
Definition toy_tty (fd : Z) (f : bytes -> pview T -> pview T) (v : pview T) : sysres unit * pview T :=
  match fds v !! fd with Some (Named p) => (SOk tt, f p v) | _ => (SErr EBADF, v) end.

#[global] Instance toy_os : ProcOS T toy_state := {|
  sys_open p := toy_call (fun _ v => let fd := free_fd (fds v) in
    (SOk fd, with_tty (acquires toy_is_tty p v) (with_fds (<[fd := Named p]> (fds v)) v)));
  sys_close fd := fun '(l, t) => (Done (SOk tt), (l, PToy (with_fds (delete fd (fds (pt_view t))) (pt_view t)) (pt_choices t) (pt_next t) (pt_rest t)));
  sys_dup2 a b := toy_call (fun _ v => match fds v !! a with Some f => (SOk b, with_fds (<[b := f]> (fds v)) v) | None => (SErr EBADF, v) end);
  sys_fork := toy_call (fun c v => if 0 <? c then (SOk c, v) else (SOk 0, forked v));
  sys_setsid := fun '(l, t) =>
    let '(r, v) := if pgrp_leader (pt_view t) then (SErr EPERM, pt_view t) else (SOk 1, new_session (pt_view t)) in
    (Done r, (l, PToy v (pt_choices t) (pt_next t) (pt_rest t)));
  sys_umask m := fun '(l, t) => (Done (mask (pt_view t)), (l, PToy (with_mask m (pt_view t)) (pt_choices t) (pt_next t) (pt_rest t)));
  sys_chdir p := toy_call (fun _ v => (SOk tt, with_cwd p v));
  sys_open_max := mret 5;
  sys_posix_openpt := fun '(l, t) => toy_call (fun _ v => let fd := free_fd (fds v) in
    (SOk fd, with_fds (<[fd := Master (pt_next t)]> (fds v)) v)) (l, PToy (pt_view t) (pt_choices t) (pt_next t + 1) (pt_rest t));
  sys_grantpt _ := toy_call (fun _ v => (SOk tt, v));
  sys_unlockpt _ := toy_call (fun _ v => (SOk tt, v));
  sys_ptsname fd := toy_call (fun _ v => match fds v !! fd with Some (Master n) => (SOk (toy_pts n), v) | _ => (SErr EBADF, v) end);
  sys_sctty fd := toy_call (fun _ => toy_tty fd (fun p => with_tty (Some p)));
  sys_tcsetattr fd t := toy_call (fun _ => toy_tty fd (fun p => with_tio p t));
  sys_swinsz fd x := toy_call (fun _ => toy_tty fd (fun p => with_win p x))
|}.

Definition toy_view (s : toy_state) : pview T := pt_view (snd s).
Lemma toy_call_spec {A} f (R : sysres A -> pview T -> Prop) s :
  R (SErr EINVAL) (toy_view s) -> (forall c, R (f c (toy_view s)).1 (f c (toy_view s)).2) ->
  post (fun r s' => R r (toy_view s')) (fun _ _ => False) (toy_call f s).
Proof.
  intros He Hf. destruct s as [l t]. unfold toy_call. cbn zeta. destruct (_ =? -1); [exact He|].
  specialize (Hf (default 0 (head (pt_choices t)))). change (toy_view (l, t)) with (pt_view t) in Hf. destruct (f _ (pt_view t)) as [r v]. exact Hf.
Qed.
Lemma toy_tty_spec fd f v : on_tty fd f v (toy_tty fd f v).1 (toy_tty fd f v).2.
Proof. unfold toy_tty, on_tty. destruct (fds v !! fd) as [[p|n]|]; cbn; [by exists p|done..]. Qed.
#[global, refine] Instance toy_spec : ProcSpec T toy_state := {| view := toy_view; is_tty := toy_is_tty; pts_name := toy_pts; open_max := 5 |}.
Proof.
  - done.
  - intros p s. apply (toy_call_spec _ (is_open toy_is_tty p (toy_view s))); [done|]. intros _. split; [apply free_fd_lowest|done].
  - by intros fd [l t].
  - intros a b s. apply (toy_call_spec _ (is_dup2 a b (toy_view s))); [done|]. intros _.
    destruct (fds (toy_view s) !! a) as [f|] eqn:Hf; [|done]. split; [done|]. by exists f.
  - intros s. apply (toy_call_spec _ (is_fork (toy_view s))); [done|]. intros c. destruct (Z.ltb_spec 0 c); [by right|by left].
  - intros [l t]. cbn. unfold is_setsid, toy_view. cbn. destruct (pgrp_leader (pt_view t)); cbn; split; try done; [by eexists|by exists 1].
  - by intros m [l t].
  - intros p s. by apply (toy_call_spec _ (is_chdir p (toy_view s))).
  - done.
  - intros [l t]. apply (toy_call_spec _ (is_openpt (pt_view t)) (l, PToy (pt_view t) (pt_choices t) (pt_next t + 1) (pt_rest t))); [done|]. intros _. split; [apply free_fd_lowest|by eexists].
  - intros fd s. by apply (toy_call_spec _ (fun _ w => w = toy_view s)).
  - intros fd s. by apply (toy_call_spec _ (fun _ w => w = toy_view s)).
  - intros fd s. apply (toy_call_spec _ (is_ptsname toy_pts fd (toy_view s))); [done|]. intros _.
    destruct (fds (toy_view s) !! fd) as [[p|n]|] eqn:Hf; split; try done. by exists n.
  - intros fd s. apply (toy_call_spec _ (on_tty fd _ (toy_view s))); [done|]. intros _. apply toy_tty_spec.
  - intros fd t s. apply (toy_call_spec _ (on_tty fd _ (toy_view s))); [done|]. intros _. apply toy_tty_spec.
  - intros fd x s. apply (toy_call_spec _ (on_tty fd _ (toy_view s))); [done|]. intros _. apply toy_tty_spec.
Defined.
(** A shell with its terminal, which leads a process group, and the decisions [c]. *)
Definition toy_start (x : X) (open : list Z) (c : list Z) : toy_state :=
  (libc0, PToy (PView (list_to_map ((fun fd => (fd, Named (str "/dev/pts/0"))) <$> open)) 0 true false (Some (str "/dev/pts/0")) 18 (str "/home") ∅ ∅) c 7 x).
End toy.
