(* ===== verification/Pty.v ===== *)
(** Pseudoterminals: book-src/pty/pty_master_open.c and pty_master_open_bsd.c, the two ways to
    open a master, and pty_fork.c, which works with either. *)
From S2P Require Import Prelude CLib Sys ErrorFunctions Calls Process.
#[local] Open Scope Z_scope.

(** [ptyMasterOpen(slaveName, snLen)]: the descriptor, and the string stored in [slaveName];
    [None] for -1. *)
Class PtyMaster (S : Type) := ptyMasterOpen : nat -> M S (option (Z * bytes)).

Section masters.
Context {T S : Type} `{HL : HasLibc S} `{HO : ProcOS T S}.

(** An error after which the descriptor is closed; errno is that of the call that failed. *)
Definition close_keep {A} (fd : Z) : M S (option A) :=
  savedErrno ← get_errno;
  call (sys_close fd);;
  set_errno savedErrno;;
  mret None.

(** Source: book-src/pty/pty_master_open.c:52-93 (ptyMasterOpen). *)
Definition unix98_MasterOpen (snLen : nat) : M S (option (Z * bytes)) :=
  masterFd ← call sys_posix_openpt;
  match masterFd with
  | None => mret None
  | Some masterFd =>
      r ← call (sys_grantpt masterFd);
      if r is None then close_keep masterFd
      else
        r ← call (sys_unlockpt masterFd);
        if r is None then close_keep masterFd
        else
          p ← call (sys_ptsname masterFd);
          match p with
          | None => close_keep masterFd
          | Some p =>
              if (strlen p <? snLen)%nat then mret (Some (masterFd, strncpy p snLen))
              else
                call (sys_close masterFd);;
                set_errno EOVERFLOW;;
                mret None
          end
  end.

Definition PTYM_PREFIX : bytes := str "/dev/pty".
Definition PTYS_PREFIX : bytes := str "/dev/tty".
Definition PTY_PREFIX_LEN : nat := strlen PTYM_PREFIX.
Definition PTY_NAME_LEN : nat := (PTY_PREFIX_LEN + 3)%nat.
Definition X_RANGE : bytes := str "pqrstuvwxyzabcde".
Definition Y_RANGE : bytes := str "0123456789abcdef".

(** How a loop over names ends: it returns, or goes on. *)
Inductive scanned := Returns (r : option (Z * bytes)) | Continues.
(** Source: book-src/pty/pty_master_open_bsd.c:60-81 (ptyMasterOpen, inner loop). *)
Fixpoint scan_y (snLen : nat) (x : ascii) (ys : bytes) : M S scanned :=
  match ys with
  | [] => mret Continues
  | y :: ys =>
      masterFd ← call (sys_open (PTYM_PREFIX ++ [x; y]));
      match masterFd with
      | None =>
          e ← get_errno;
          if e =? ENOENT then mret (Returns None) else scan_y snLen x ys
      | Some masterFd =>
          let name := PTYS_PREFIX ++ [x; y] in
          if (snLen <=? strlen name)%nat then set_errno EOVERFLOW;; mret (Returns None)
          else mret (Returns (Some (masterFd, snprintf snLen name)))
      end
  end.
(** Source: book-src/pty/pty_master_open_bsd.c:57-83 (ptyMasterOpen, outer loop). *)
Fixpoint scan_x (snLen : nat) (xs : bytes) : M S (option (Z * bytes)) :=
  match xs with
  | [] => mret None
  | x :: xs =>
      r ← scan_y snLen x Y_RANGE;
      match r with Returns r => mret r | Continues => scan_x snLen xs end
  end.
(** Source: book-src/pty/pty_master_open_bsd.c:39-86 (ptyMasterOpen). *)
Definition bsd_MasterOpen (snLen : nat) : M S (option (Z * bytes)) :=
  if (snLen <? PTY_NAME_LEN)%nat then set_errno EOVERFLOW;; mret None
  else scan_x snLen X_RANGE.
End masters.

(** * ptyFork() *)

Section fork.
Context {T S : Type} `{HL : HasLibc S} `{HO : ProcOS T S} `{HM : !PtyMaster S} (strerror : Z -> bytes).

Definition MAX_SNAME : nat := 1000.

(** [if (dup2(slaveFd, fd) != fd) err_exit(msg);] *)
Definition dup_to (slaveFd fd : Z) (msg : bytes) : M S unit :=
  r ← call (sys_dup2 slaveFd fd);
  when (negb (default (-1) r =? fd)) (err_exit strerror msg).
(** [if (call == -1) err_exit(msg);] *)
Definition child_call {A} (m : M S (sysres A)) (msg : bytes) : M S A := checked_by (err_exit strerror) m msg.

(** The child of ptyFork(). *)
(** Source: book-src/pty/pty_fork.c:80-116 (ptyFork, child). *)
Definition pty_child (mfd : Z) (slname : bytes) (slaveTermios : option T) (slaveWS : option winsize) : M S unit :=
  child_call sys_setsid (str "ptyFork:setsid");;
  call (sys_close mfd);;
  slaveFd ← child_call (sys_open slname) (str "ptyFork:open-slave");
  child_call (sys_sctty slaveFd) (str "ptyFork:ioctl-TIOCSCTTY");;
  (if slaveTermios is Some t then child_call (sys_tcsetattr slaveFd t) (str "ptyFork:tcsetattr") else mret tt);;
  (if slaveWS is Some w then child_call (sys_swinsz slaveFd w) (str "ptyFork:ioctl-TIOCSWINSZ") else mret tt);;
  dup_to slaveFd STDIN_FILENO (str "ptyFork:dup2-STDIN_FILENO");;
  dup_to slaveFd STDOUT_FILENO (str "ptyFork:dup2-STDOUT_FILENO");;
  dup_to slaveFd STDERR_FILENO (str "ptyFork:dup2-STDERR_FILENO");;
  when (STDERR_FILENO <? slaveFd) (call (sys_close slaveFd);; mret tt).

(** The return value ([None] for -1), what [*masterFd] then holds if it was set, and the
    string stored in [slaveName]; [sname] is [snLen] if [slaveName] is not null. *)
Record forked_pty := ForkedPty { fp_ret : option Z; fp_master : option Z; fp_slave : option bytes }.
(** Source: book-src/pty/pty_fork.c:43-117 (ptyFork). *)
Definition ptyFork (sname : option nat) (slaveTermios : option T) (slaveWS : option winsize) : M S forked_pty :=
  m ← ptyMasterOpen MAX_SNAME;
  match m with
  | None => mret (ForkedPty None None None)
  | Some (mfd, slname) =>
      if (if sname is Some snLen then snLen <=? strlen slname else false)%nat then
        call (sys_close mfd);;
        set_errno EOVERFLOW;;
        mret (ForkedPty None None None)
      else
        let slaveName := strncpy slname <$> sname in
        childPid ← call sys_fork;
        match childPid with
        | None =>
            savedErrno ← get_errno;
            call (sys_close mfd);;
            set_errno savedErrno;;
            mret (ForkedPty None None slaveName)
        | Some childPid =>
            if negb (childPid =? 0) then mret (ForkedPty (Some childPid) (Some mfd) slaveName)
            else pty_child mfd slname slaveTermios slaveWS;; mret (ForkedPty (Some 0) None slaveName)
        end
  end.
End fork.

(** * The contract of a master *)

Section contract.
Context {T S : Type} `{HL : HasLibc S} `{HO : ProcOS T S} `{HS : !ProcSpec T S}.

(** [slave_of f]: the name of the slave, if [f] is a master. A descriptor for a master and the
    name of its slave, which is shorter than the buffer; or the process is as it was. *)
Definition master_opened (slave_of : file -> option bytes) (n : nat) (v : pview T) (r : option (Z * bytes)) (w : pview T) : Prop :=
  match r with
  | Some (fd, p) => lowest_free (fds v) fd /\ (strlen p < n)%nat /\ exists f, slave_of f = Some p /\ w = with_fds (<[fd := f]> (fds v)) v
  | None => w = v
  end.
Class PtyMasterSpec `{!PtyMaster S} := {
  slave_of : file -> option bytes;
  master_spec : forall n s, post (fun r s' => master_opened slave_of n (view s) r (view s')) (fun _ _ => False) (ptyMasterOpen n s)
}.

Lemma pty_opened_closed (v : pview T) fd f : lowest_free (fds v) fd -> 
  with_fds (delete fd (fds (with_fds (<[fd := f]> (fds v)) v))) (with_fds (<[fd := f]> (fds v)) v) = v.
Proof. intros (_ & Hn & _). cbn. rewrite delete_insert_id by done. by destruct v. Qed.

(** errno is not part of the view. *)
Lemma errno_bind {B} e (k : M S B) s Q E :
  (forall s', view s' = view s -> post Q E (k s')) -> post Q E ((set_errno e;; k) s).
Proof. intros Hk. apply post_bind. apply Hk. apply view_libc. Qed.

Lemma close_then {A} v fd f e (r : A) s : lowest_free (fds v) fd -> view s = with_fds (<[fd := f]> (fds v)) v ->
  post (fun r' s' => r' = r /\ view s' = v) (fun _ _ => False) ((call (sys_close fd);; set_errno e;; mret r) s).
Proof.
  intros Hf Hv. apply (viewed_bind view view_libc _ _ _ _ _ _ (close_spec fd s));
    intros x s' Hc; apply errno_bind; intros s2 Hs2; (split; [done|]); unfold is_close in Hc; rewrite Hs2, Hc, Hv; by apply pty_opened_closed.
Qed.
Lemma close_keep_spec {A} v fd f s : lowest_free (fds v) fd -> view s = with_fds (<[fd := f]> (fds v)) v ->
  post (fun (r : option A) s' => r = None /\ view s' = v) (fun _ _ => False) (close_keep fd s).
Proof. intros Hf Hv. unfold close_keep. apply post_bind. by eapply close_then. Qed.

(** A step that leaves the view alone. *)
Lemma same_bind {A B} (m : M S (sysres A)) (k : option A -> M S B) s v Q E :
  view s = v -> post (fun _ s' => view s' = view s) (fun _ _ => False) (m s) ->
  (forall o s', view s' = v -> post Q E (k o s')) -> post Q E ((call m ≫= k) s).
Proof.
  intros Hv Hm Hk. apply (viewed_bind view view_libc _ _ _ (fun _ w => w = view s)); [done|..]; intros a s' Hs; apply Hk; congruence.
Qed.

Definition unix98_slave (f : file) : option bytes := if f is Master n then Some (pts_name n) else None.
Lemma unix98_spec n s : post (fun r s' => master_opened unix98_slave n (view s) r (view s')) (fun _ _ => False) (unix98_MasterOpen n s).
Proof.
  unfold unix98_MasterOpen. apply (viewed_bind view view_libc _ _ _ _ _ _ (openpt_spec s)); [|by intros e s' Hs'].
  intros fd s1 (Hf & k & Hv).
  assert (Hclose : forall s', view s' = view s1 -> post (fun r s' => master_opened unix98_slave n (view s) r (view s')) (fun _ _ => False) (close_keep fd s')).
  { intros s' Hs. eapply post_mono; [| |apply (close_keep_spec (view s) fd (Master k)); [done|congruence]]; [|done]. by intros r s'' [-> Hs'']. }
  apply (same_bind _ _ _ _ _ _ eq_refl (grantpt_spec fd s1)). intros [u|] s2 Hs2; [|by apply Hclose].
  apply (same_bind _ _ _ (view s1) _ _ Hs2 (unlockpt_spec fd s2)). intros [u'|] s3 Hs3; [|by apply Hclose].
  apply (viewed_bind view view_libc _ _ _ _ _ _ (ptsname_spec fd s3)); [|intros e s4 [Hs4 _]; apply Hclose; congruence].
  intros p s4 (Hs4 & m & Hm & ->). assert (Hv4 : view s4 = with_fds (<[fd := Master k]> (fds (view s))) (view s)) by congruence.
  rewrite Hs3, Hv in Hm. cbn in Hm. rewrite lookup_insert_eq in Hm. injection Hm as <-.
  destruct (Nat.ltb_spec (strlen (pts_name k)) n) as [Hl|Hl].
  - cbn. split; [done|]. unfold strncpy. rewrite take_ge by (unfold strlen in Hl; lia). split; [done|]. by exists (Master k).
  - eapply post_mono; [| |by apply (close_then (view s) fd (Master k))]; [|done]. by intros r s' [-> Hs'].
Qed.

(** The two loops are one loop through all pairs. *)
Definition bsd_names : list (ascii * ascii) := x ← X_RANGE; y ← Y_RANGE; [(x, y)].
Fixpoint scan (snLen : nat) (names : list (ascii * ascii)) : M S (option (Z * bytes)) :=
  match names with
  | [] => mret None
  | (x, y) :: names =>
      r ← scan_y snLen x [y];
      match r with Returns r => mret r | Continues => scan snLen names end
  end.
Lemma scan_y_app n x ys names s :
  (r ← scan_y n x ys; match r with Returns r => mret r | Continues => scan n names end) s =
  scan n ((y ← ys; [(x, y)]) ++ names) s.
Proof.
  revert s. induction ys as [|y ys IH]; intros s; [done|]. cbn [scan_y scan mbind list_bind app].
  rewrite !bind_bind. apply bind_ext. intros [fd|] s1; [by destruct (n <=? _)%nat|].
  rewrite !bind_bind. apply bind_ext. intros e s2. destruct (e =? ENOENT); [done|]. apply IH.
Qed.
Lemma scan_x_flat n xs s : scan_x n xs s = scan n (x ← xs; y ← Y_RANGE; [(x, y)]) s.
Proof.
  revert s. induction xs as [|x xs IH]; intros s; [done|]. cbn [scan_x].
  change (x ← x :: xs; y ← Y_RANGE; [(x, y)]) with ((y ← Y_RANGE; [(x, y)]) ++ (x ← xs; y ← Y_RANGE; [(x, y)])).
  rewrite <- scan_y_app. apply bind_ext. intros [r|] s1; [done|]. apply IH.
Qed.

Definition bsd_slave (f : file) : option bytes :=
  if f is Named p then
    if bool_decide (take PTY_PREFIX_LEN p = PTYM_PREFIX) then Some (PTYS_PREFIX ++ drop PTY_PREFIX_LEN p) else None
  else None.
(** Opening a master does not make it the controlling terminal. *)
Context (masters_no_tty : forall x y, is_tty (PTYM_PREFIX ++ [x; y]) = false).
Lemma scan_spec n names s : (PTY_NAME_LEN <= n)%nat ->
  post (fun r s' => master_opened bsd_slave n (view s) r (view s')) (fun _ _ => False) (scan n names s).
Proof.
  intros Hn. revert s. induction names as [|[x y] names IH]; intros s; [done|]. cbn [scan scan_y]. rewrite bind_bind.
  apply (viewed_bind view view_libc _ _ _ _ _ _ (open_spec (PTYM_PREFIX ++ [x; y]) s)).
  - intros fd s1 (Hf & Hv). unfold acquires in Hv. rewrite masters_no_tty, andb_false_r in Hv.
    assert (n <=? strlen (PTYS_PREFIX ++ [x; y]) = false)%nat as -> by (apply Nat.leb_gt; unfold PTY_NAME_LEN in Hn; cbn in *; lia).
    cbn [mret M_ret post]. split; [done|]. unfold snprintf. rewrite take_ge by (unfold PTY_NAME_LEN in Hn; cbn in *; lia).
    split; [unfold PTY_NAME_LEN in Hn; cbn in *; lia|]. exists (Named (PTYM_PREFIX ++ [x; y])). split; [done|]. rewrite Hv. by destruct (view s).
  - intros e s1 Hv. rewrite bind_bind. apply post_bind. cbn. destruct (_ =? ENOENT); [exact Hv|].
    cbn in Hv. rewrite mret_bind, <- Hv. apply IH.
Qed.
Lemma bsd_spec n s : post (fun r s' => master_opened bsd_slave n (view s) r (view s')) (fun _ _ => False) (bsd_MasterOpen n s).
Proof.
  unfold bsd_MasterOpen. destruct (Nat.ltb_spec n PTY_NAME_LEN) as [Hl|Hl].
  - apply errno_bind. intros s' Hs. exact Hs.
  - rewrite scan_x_flat. by apply scan_spec.
Qed.
End contract.

(** * What ptyFork() does *)

Section fork_proofs.
Context {T S : Type} `{HL : HasLibc S} `{HO : ProcOS T S} `{HS : !ProcSpec T S} `{HM : !PtyMaster S} `{HMS : !PtyMasterSpec}.
Context (strerror : Z -> bytes).

(** A process on the slave [p]: leader of a new session on this terminal, with its attributes,
    and with it as standard input, output and error. *)
Definition attached (p : bytes) (t : option T) (x : option winsize) (v : pview T) : pview T :=
  let n := Named p in
  PView (<[STDERR_FILENO := n]> (<[STDOUT_FILENO := n]> (<[STDIN_FILENO := n]> (fds v)))) (Datatypes.S (depth v)) true true (Some p)
    (mask v) (cwd v) (if t is Some t then <[p := t]> (tios v) else tios v) (if x is Some x then <[p := x]> (wins v) else wins v).

(** The process forked, or not; a caller sees the name in [slaveName]. *)
Definition pty_forked (sname : option nat) (t : option T) (x : option winsize) (v : pview T) (r : forked_pty) (w : pview T) : Prop :=
  match fp_ret r with
  | None => w = v /\ fp_master r = None
  | Some pid => exists p, (fp_slave r = (fun _ => p) <$> sname) /\
      if pid =? 0 then fp_master r = None /\ w = attached p t x v
      else 0 < pid /\ exists fd f, fp_master r = Some fd /\ lowest_free (fds v) fd /\ slave_of f = Some p /\ w = with_fds (<[fd := f]> (fds v)) v
  end.
(** Only the child can end. *)
Definition child_ends (v : pview T) (e : ending) (s : S) : Prop :=
  (e = EExit EXIT_FAILURE \/ e = EAbort) /\ depth (view s) = Datatypes.S (depth v).

Lemma err_exit_ends {A} v msg s (Q : A -> S -> Prop) : depth (view s) = Datatypes.S (depth v) ->
  post Q (child_ends v) (err_exit strerror msg s).
Proof.
  intros Hd. destruct (exit_functions_correct strerror A msg 0 s) as (_ & _ & _ & He). rewrite He.
  destruct (dump_core _); cbn; (split; [auto|by rewrite view_libc]).
Qed.

Lemma child_bind {A B} (m : M S (sysres A)) msg (k : A -> M S B) s v (R : sysres A -> pview T -> Prop) Q :
  post (fun r s' => R r (view s')) (fun _ _ => False) (m s) ->
  (forall e w, R (SErr e) w -> depth w = Datatypes.S (depth v)) ->
  (forall a s', R (SOk a) (view s') -> post Q (child_ends v) (k a s')) ->
  post Q (child_ends v) ((child_call strerror m msg ≫= k) s).
Proof.
  intros Hm He Hok. unfold child_call, checked_by. rewrite bind_bind.
  apply (viewed_bind view view_libc _ _ _ _ _ _ Hm).
  - intros a s' Hr. rewrite mret_bind. by apply Hok.
  - intros e s' Hr. apply post_bind, err_exit_ends. by eapply He.
Qed.
Lemma dup_bind {B} slaveFd fd msg (k : M S B) s v f Q :
  0 <= fd -> depth (view s) = Datatypes.S (depth v) -> fds (view s) !! slaveFd = Some f ->
  (forall s', view s' = with_fds (<[fd := f]> (fds (view s))) (view s) -> post Q (child_ends v) (k s')) ->
  post Q (child_ends v) ((dup_to strerror slaveFd fd msg;; k) s).
Proof.
  intros H0 Hd Hf Hk. unfold dup_to. rewrite bind_bind.
  apply (viewed_bind view view_libc _ _ _ _ _ _ (dup2_spec slaveFd fd s)).
  - intros a s' (-> & f' & Hf' & Hv). rewrite Hf in Hf'. injection Hf' as <-. cbn [default]. rewrite Z.eqb_refl. cbn [negb when].
    rewrite mret_bind. by apply Hk.
  - intros e s' Hv. cbn in Hv. unfold when. cbn [default]. destruct (negb _) eqn:Hn.
    + apply post_bind, err_exit_ends. by rewrite Hv.
    + apply negb_false_iff, Z.eqb_eq in Hn. lia.
Qed.

(** Once the slave is the standard descriptors, its own descriptor is closed, and nothing
    else has changed. *)
Lemma std_fds (m : gmap Z file) slaveFd f :
  lowest_free m slaveFd ->
  let m' := <[STDERR_FILENO := f]> (<[STDOUT_FILENO := f]> (<[STDIN_FILENO := f]> (<[slaveFd := f]> m))) in
  let std := <[STDERR_FILENO := f]> (<[STDOUT_FILENO := f]> (<[STDIN_FILENO := f]> m)) in
  (STDERR_FILENO < slaveFd -> delete slaveFd m' = std) /\ (slaveFd <= STDERR_FILENO -> m' = std).
Proof.
  intros (H0 & Hn & _). unfold STDERR_FILENO, STDOUT_FILENO, STDIN_FILENO. cbn zeta. split; intros Hs; apply map_eq; intros k.
  - destruct (decide (k = slaveFd)) as [->|Hk]; [|rewrite lookup_delete_ne by done]; rewrite ?lookup_delete_eq;
      rewrite !lookup_insert; repeat case_decide; try lia; done.
  - rewrite !lookup_insert. repeat case_decide; try lia; done.
Qed.

(** An optional setting of the terminal on [fd]. *)
Lemma setting_bind {A B} (o : option A) (m : A -> M S (sysres unit)) msg (k : unit -> M S B) s v fd p (set : A -> bytes -> pview T -> pview T) Q :
  depth (view s) = Datatypes.S (depth v) -> fds (view s) !! fd = Some (Named p) ->
  (forall a s, post (fun r s' => on_tty fd (set a) (view s) r (view s')) (fun _ _ => False) (m a s)) ->
  (forall s', view s' = (if o is Some a then set a p (view s) else view s) -> post Q (child_ends v) (k tt s')) ->
  post Q (child_ends v) (((if o is Some a then child_call strerror (m a) msg else mret tt) ≫= k) s).
Proof.
  intros Hd Hf Hm Hk. destruct o as [a|]; [|rewrite mret_bind; by apply Hk].
  apply (child_bind _ _ _ _ _ _ _ (Hm a s)); [by intros e w ->|]. intros [] s' (p' & Hp & Hv). apply Hk. congruence.
Qed.

(** The child in its new session. *)
Lemma pty_slave_spec slname t x v s : view s = new_session (forked v) ->
  post (fun _ s' => view s' = attached slname t x v) (child_ends v)
    ((slaveFd ← child_call strerror (sys_open slname) (str "ptyFork:open-slave");
      child_call strerror (sys_sctty slaveFd) (str "ptyFork:ioctl-TIOCSCTTY");;
      (if t is Some t then child_call strerror (sys_tcsetattr slaveFd t) (str "ptyFork:tcsetattr") else mret tt);;
      (if x is Some w then child_call strerror (sys_swinsz slaveFd w) (str "ptyFork:ioctl-TIOCSWINSZ") else mret tt);;
      dup_to strerror slaveFd STDIN_FILENO (str "ptyFork:dup2-STDIN_FILENO");;
      dup_to strerror slaveFd STDOUT_FILENO (str "ptyFork:dup2-STDOUT_FILENO");;
      dup_to strerror slaveFd STDERR_FILENO (str "ptyFork:dup2-STDERR_FILENO");;
      when (STDERR_FILENO <? slaveFd) (call (sys_close slaveFd);; mret tt)) s).
Proof.
  intros Hv. apply (child_bind _ _ _ _ _ _ _ (open_spec slname s)); [intros e w ->; by rewrite Hv|].
  intros sfd s1 (Hl & Hs1). rewrite Hv in Hl. cbn [fds new_session forked] in Hl.
  assert (Hd1 : depth (view s1) = Datatypes.S (depth v)) by (by rewrite Hs1, Hv).
  apply (child_bind _ _ _ _ _ _ _ (sctty_spec sfd s1)); [intros e w ->; done|].
  intros u s2 (p & Hp & Hs2). rewrite Hs1, Hv in Hp. cbn in Hp. rewrite lookup_insert_eq in Hp. injection Hp as <-.
  rewrite Hs1, Hv in Hs2. unfold acquires, with_fds, with_tty, new_session, forked in Hs2. cbn in Hs2. clear u Hd1 Hs1 Hv s1 s.
  apply (setting_bind t _ _ _ _ v sfd slname (fun t p => with_tio p t)); [by rewrite Hs2|rewrite Hs2; apply lookup_insert_eq|intros; apply tcsetattr_spec|].
  intros s3 Hs3. rewrite Hs2 in Hs3.
  apply (setting_bind x _ _ _ _ v sfd slname (fun x p => with_win p x)); [rewrite Hs3; by destruct t|rewrite Hs3; destruct t; apply lookup_insert_eq|intros; apply swinsz_spec|].
  intros s4 Hs4.
  assert (Hs4' : view s4 = PView (<[sfd := Named slname]> (fds v)) (Datatypes.S (depth v)) true true (Some slname)
    (mask v) (cwd v) (if t is Some t then <[slname := t]> (tios v) else tios v) (if x is Some x then <[slname := x]> (wins v) else wins v)).
  { rewrite Hs4, Hs3. by destruct t, x. }
  clear Hs2 Hs3 Hs4 s2 s3.
  assert (Hfd : forall k, (<[k := Named slname]> (<[sfd := Named slname]> (fds v)) : gmap Z file) !! sfd = Some (Named slname)).
  { intros k. rewrite lookup_insert. case_decide; [done|]. apply lookup_insert_eq. }
  apply (dup_bind sfd STDIN_FILENO _ _ _ _ (Named slname)); [done|by rewrite Hs4'|rewrite Hs4'; apply lookup_insert_eq|].
  intros s5 Hs5. rewrite Hs4' in Hs5. unfold with_fds in Hs5. cbn in Hs5.
  apply (dup_bind sfd STDOUT_FILENO _ _ _ _ (Named slname)); [done|by rewrite Hs5|rewrite Hs5; apply Hfd|].
  intros s6 Hs6. rewrite Hs5 in Hs6. unfold with_fds in Hs6. cbn in Hs6.
  apply (dup_bind sfd STDERR_FILENO _ _ _ _ (Named slname)); [done|by rewrite Hs6|rewrite Hs6; cbn [fds]; rewrite lookup_insert; case_decide; [done|apply Hfd]|].
  intros s7 Hs7. rewrite Hs6 in Hs7. unfold with_fds in Hs7. cbn in Hs7.
  destruct (std_fds (fds v) sfd (Named slname) Hl) as [Hlt Hge]. unfold attached.
  destruct (Z.ltb_spec STDERR_FILENO sfd) as [Hs|Hs]; cbn [when].
  - apply (viewed_bind view view_libc _ _ _ _ _ _ (close_spec sfd s7)); intros e s8 Hs8; cbn in *; unfold is_close in Hs8;
      rewrite Hs8, Hs7; unfold with_fds; cbn; by rewrite <- Hlt.
  - cbn. rewrite Hs7. by rewrite <- Hge.
Qed.

Lemma pty_child_spec mfd slname t x v f s : lowest_free (fds v) mfd -> view s = forked (with_fds (<[mfd := f]> (fds v)) v) ->
  post (fun _ s' => view s' = attached slname t x v) (child_ends v) (pty_child strerror mfd slname t x s).
Proof.
  intros (_ & Hn & _) Hv. unfold pty_child.
  apply (child_bind _ _ _ _ _ _ _ (setsid_spec s)); [intros e w; unfold is_setsid; rewrite Hv; cbn; by intros [(n & _ & [=]) _]|].
  intros a s1 Hs1. unfold is_setsid in Hs1. rewrite Hv in Hs1. cbn [pgrp_leader forked] in Hs1. destruct Hs1 as [_ Hs1].
  apply (viewed_bind view view_libc _ _ _ _ _ _ (close_spec mfd s1)); intros e s2 Hs2; apply pty_slave_spec; unfold is_close in Hs2;
    rewrite Hs2, Hs1; unfold with_fds, new_session, forked; cbn; by rewrite delete_insert_id.
Qed.

(** C12: ptyFork(), with either way of opening a master, returns -1 and leaves the process as it was; or
    in the parent the process ID of a child, with the master as the one new descriptor; or 0 in the
    child, which then leads a new session with the slave as its controlling terminal, has the attributes
    and window size that were asked for, the slave as its three standard descriptors, whichever of them
    were open, and otherwise the descriptors of the caller, the master not among them. The slave is the
    one that belongs to the master, and its name is stored for the caller. A call that fails in the child
    ends the child, never the parent. *)
Theorem ptyFork_correct sname t x s :
  post (fun r s' => pty_forked sname t x (view s) r (view s')) (child_ends (view s)) (ptyFork strerror sname t x s).
Proof.
  unfold ptyFork. apply post_bind. eapply post_mono; [| |apply master_spec]; [|done].
  intros [[mfd slname]|] s1 Hm; [|by split]. destruct Hm as (Hl & Hlen & f & Hf & Hs1).
  destruct (if sname is Some snLen then snLen <=? strlen slname else false)%nat eqn:Hshort.
  - eapply post_mono; [| |by apply (close_then (view s) mfd f)]; [|done]. intros r s2 [-> Hs2]. by split.
  - assert (Hname : strncpy slname <$> sname = (fun _ => slname) <$> sname).
    { destruct sname as [n|]; [|done]. apply Nat.leb_gt in Hshort. cbn. unfold strncpy. by rewrite take_ge by (unfold strlen in Hshort; lia). }
    apply (viewed_bind view view_libc _ _ _ _ _ _ (fork_spec s1)).
    + intros pid s2 [[-> Hs2]|[Hp Hs2]].
      * cbn [Z.eqb negb]. apply post_bind. eapply post_mono; [| |apply (pty_child_spec mfd slname t x (view s) f); [done|by rewrite <- Hs1]]; [|done].
        intros [] s3 Hs3. exists slname. split; [exact Hname|]. by split.
      * assert (pid =? 0 = false) as Hz by lia. rewrite Hz. cbn [negb]. unfold pty_forked. cbn [mret M_ret post fp_ret]. exists slname. split; [exact Hname|].
        rewrite Hz. split; [done|]. exists mfd, f. split_and!; [done..|]. by rewrite Hs2.
    + intros e s2 Hs2. apply post_bind. cbn. eapply post_mono; [| |apply (close_then (view s) mfd f); [done|by rewrite Hs2]]; [|done].
      intros r s3 [-> Hs3]. by split.
Qed.
End fork_proofs.

(** * The two masters, and runs *)

Section instances.
Context {T S : Type} `{HL : HasLibc S} `{HO : ProcOS T S} `{HS : !ProcSpec T S}.
Definition unix98_master : PtyMaster S := unix98_MasterOpen.
Definition unix98_master_spec : @PtyMasterSpec T S HL HO HS unix98_master :=
  {| slave_of := unix98_slave : file -> option bytes; master_spec := unix98_spec : forall n s, post _ _ (@ptyMasterOpen S unix98_master n s) |}.
Definition bsd_master : PtyMaster S := bsd_MasterOpen.
Definition bsd_master_spec (no_tty : forall x y, is_tty (PTYM_PREFIX ++ [x; y]) = false) : @PtyMasterSpec T S HL HO HS bsd_master :=
  {| slave_of := bsd_slave; master_spec := bsd_spec no_tty : forall n s, post _ _ (@ptyMasterOpen S bsd_master n s) |}.
End instances.

(** A caller whose standard output is closed: the master takes its place in the parent, the slave in
    the child. The parent's fork() returns 41, the child's 0. *)
Definition pty_strerror (e : Z) : bytes := print_dec e.
Lemma ptyFork_correct_witness : exists s1 s2 : toy_state (T := Z) (X := unit),
  @ptyFork Z (toy_state (T := Z) (X := unit)) _ _ unix98_master pty_strerror (Some 20%nat) (Some 5) None (toy_start tt [0; 2; 3] [0; 0; 0; 0; 41]) =
    (Done (ForkedPty (Some 41) (Some 1) (Some (str "/dev/pts/7"))), s1) /\ fds (toy_view s1) !! 1 = Some (Master 7) /\
  @ptyFork Z (toy_state (T := Z) (X := unit)) _ _ unix98_master pty_strerror (Some 20%nat) (Some 5) None (toy_start tt [0; 2; 3] []) =
    (Done (ForkedPty (Some 0) None (Some (str "/dev/pts/7"))), s2) /\
  pty_forked (HMS := unix98_master_spec (T := Z) (S := toy_state (T := Z) (X := unit))) (Some 20%nat) (Some 5) None (toy_view (toy_start (X := unit) tt [0; 2; 3] []))
    (ForkedPty (Some 0) None (Some (str "/dev/pts/7"))) (toy_view s2) /\
  fds (toy_view s2) !! 1 = Some (Named (str "/dev/pts/7")) /\ fds (toy_view s2) !! 4 = None.
Proof.
  do 2 eexists. split; [vm_compute; reflexivity|]. split; [reflexivity|]. split; [vm_compute; reflexivity|].
  split; [|split; reflexivity].
  exact (ptyFork_correct (T := Z) (HMS := unix98_master_spec (T := Z) (S := toy_state (T := Z) (X := unit))) pty_strerror (Some 20%nat) (Some 5) None (toy_start tt [0; 2; 3] [])).
Defined.
