(* ===== verification/Daemon.v ===== *)
(** Daemons: book-src/daemons/become_daemon.c, the steps that make a process one. *)
From S2P Require Import Prelude CLib Sys Calls Process.
#[local] Open Scope Z_scope.

Definition BD_NO_CHDIR : Z := 1.
Definition BD_NO_CLOSE_FILES : Z := 2.
Definition BD_NO_REOPEN_STD_FDS : Z := 4.
Definition BD_NO_UMASK0 : Z := 8.
Definition BD_MAX_CLOSE : Z := 8192.
Definition has_flag (flags bit : Z) : bool := negb (Z.land flags bit =? 0).

Definition dev_null : bytes := str "/dev/null".

Section daemon.
Context {T S : Type} `{HL : HasLibc S} `{HO : ProcOS T S}.

(** [switch (fork())]: -1 is returned, the parent ends, the child goes on. *)
Definition fork_on (k : M S Z) : M S Z :=
  pid ← call sys_fork;
  match pid with
  | None => mret (-1)
  | Some pid => if pid =? 0 then k else exit_ EXIT_SUCCESS
  end.
(** Source: book-src/daemons/become_daemon.c:57-68 (becomeDaemon, standard descriptors). *)
Definition reopen_std_fds : M S Z :=
  call (sys_close STDIN_FILENO);;
  fd ← call (sys_open dev_null);
  if negb (default (-1) fd =? STDIN_FILENO) then mret (-1)
  else
    r ← call (sys_dup2 STDIN_FILENO STDOUT_FILENO);
    if negb (default (-1) r =? STDOUT_FILENO) then mret (-1)
    else
      r ← call (sys_dup2 STDIN_FILENO STDERR_FILENO);
      if negb (default (-1) r =? STDERR_FILENO) then mret (-1) else mret 0.
(** Source: book-src/daemons/become_daemon.c:42-70 (becomeDaemon, after the forks). *)
Definition daemon_rest (flags : Z) : M S Z :=
  when (negb (has_flag flags BD_NO_UMASK0)) (sys_umask 0;; mret tt);;
  when (negb (has_flag flags BD_NO_CHDIR)) (call (sys_chdir (str "/"));; mret tt);;
  when (negb (has_flag flags BD_NO_CLOSE_FILES))
    (maxfd ← sys_open_max;
     let maxfd := if maxfd =? -1 then BD_MAX_CLOSE else maxfd in
     for_each (seqZ 0 maxfd) (fun fd => call (sys_close fd);; mret tt));;
  if negb (has_flag flags BD_NO_REOPEN_STD_FDS) then reopen_std_fds else mret 0.
(** Source: book-src/daemons/become_daemon.c:22-71 (becomeDaemon). *)
Definition becomeDaemon (flags : Z) : M S Z :=
  fork_on (
    r ← call sys_setsid;
    if r is None then mret (-1)
    else fork_on (daemon_rest flags)).
End daemon.

(** * What becomes of the process *)

Section proofs.
Context {T S : Type} `{HL : HasLibc S} `{HO : ProcOS T S} `{HS : !ProcSpec T S}.

Definition maxfd : Z := if open_max =? -1 then BD_MAX_CLOSE else open_max.
(** The descriptors of the daemon. *)
Definition daemon_fds (flags : Z) (m : gmap Z file) : gmap Z file :=
  let kept := if has_flag flags BD_NO_CLOSE_FILES then m else filter (fun p => p.1 ∉ seqZ 0 maxfd) m in
  if has_flag flags BD_NO_REOPEN_STD_FDS then kept
  else <[STDERR_FILENO := Named dev_null]> (<[STDOUT_FILENO := Named dev_null]> (<[STDIN_FILENO := Named dev_null]> kept)).
(** A process without a terminal that cannot get one by opening it. *)
Definition detached (v w : pview T) : Prop :=
  depth w = Datatypes.S (Datatypes.S (depth v)) /\ tty w = None /\ session_leader w = false /\ pgrp_leader w = false.
Definition daemon_result (flags : Z) (v : pview T) (r : Z) (w : pview T) : Prop :=
  (r = 0 /\ detached v w /\ fds w = daemon_fds flags (fds v) /\
   mask w = (if has_flag flags BD_NO_UMASK0 then mask v else 0) /\
   (cwd w = str "/" \/ cwd w = cwd v) /\ (has_flag flags BD_NO_CHDIR = true -> cwd w = cwd v)) \/
  (r = -1 /\ (w = v \/ w = new_session (forked v) \/ detached v w /\ has_flag flags BD_NO_REOPEN_STD_FDS = false)).
(** The parent ends, then the first child: with success, and before anything has changed
    that others could see. *)
Definition parent_ends (v : pview T) (e : ending) (s : S) : Prop :=
  e = EExit EXIT_SUCCESS /\ (view s = v \/ view s = new_session (forked v)).

Lemma fork_on_spec (k : M S Z) Q E s :
  (forall s', view s' = forked (view s) -> post Q E (k s')) ->
  (forall s', view s' = view s -> Q (-1) s' /\ E (EExit EXIT_SUCCESS) s') -> post Q E (fork_on k s).
Proof.
  intros Hk He. unfold fork_on. apply (viewed_bind view view_libc _ _ _ _ _ _ (fork_spec s)).
  - intros pid s' [[-> Hv]|[Hp Hv]]; [by apply Hk|]. assert (pid =? 0 = false) as -> by lia. by apply He.
  - intros e s' Hv. by apply He.
Qed.

(** Closing a range of descriptors. *)
Lemma close_all l s :
  post (fun _ s' => view s' = with_fds (filter (fun p => p.1 ∉ l) (fds (view s))) (view s)) (fun _ _ => False)
    (for_each l (fun fd => call (sys_close fd);; mret tt) s).
Proof.
  revert s. induction l as [|fd l IH]; intros s; cbn [for_each].
  - cbn. rewrite map_filter_id; [by destruct (view s)|]. intros. apply not_elem_of_nil.
  - rewrite bind_bind. assert (Hk : forall s1, is_close fd (view s) (SOk tt) (view s1) ->
      post (fun _ s' => view s' = with_fds (filter (fun p => p.1 ∉ fd :: l) (fds (view s))) (view s)) (fun _ _ => False)
        (for_each l (fun fd => call (sys_close fd);; mret tt) s1)).
    { intros s1 Hv. eapply post_mono; [| |apply IH]; [|done]. intros _ s2 ->. unfold is_close in Hv. rewrite Hv. unfold with_fds. cbn. f_equal.
      apply map_eq. intros k. apply option_eq. intros f. rewrite !map_lookup_filter_Some, lookup_delete_Some. cbn. set_solver. }
    apply (viewed_bind view view_libc _ _ _ _ _ _ (close_spec fd s)); intros x s1 Hv; rewrite mret_bind; by apply Hk.
Qed.

(** A descriptor that has become free is the lowest. *)
Lemma zero_free (m : gmap Z file) fd : lowest_free (delete 0 m) fd -> fd = 0.
Proof.
  intros (H0 & _ & Hk). destruct (decide (fd = 0)) as [|Hn]; [done|]. destruct (Hk 0) as [f Hf]; [lia|]. by rewrite lookup_delete_eq in Hf.
Qed.
Lemma dup_zero {B} fd (k : option Z -> M S B) s f Q E : 0 < fd -> fds (view s) !! 0 = Some f ->
  (forall s', view s' = with_fds (<[fd := f]> (fds (view s))) (view s) -> post Q E (k (Some fd) s')) ->
  (forall s', view s' = view s -> post Q E (k None s')) -> post Q E ((call (sys_dup2 STDIN_FILENO fd) ≫= k) s).
Proof.
  intros Hp Hf Hok Herr. apply (viewed_bind view view_libc _ _ _ _ _ _ (dup2_spec STDIN_FILENO fd s)).
  - intros a s' (-> & f' & Hf' & Hv). apply Hok. assert (f' = f) as -> by (unfold STDIN_FILENO in Hf'; congruence). exact Hv.
  - intros e s'. apply Herr.
Qed.
(** Only the descriptors differ; those of [w] are [m] if the result is 0. *)
Definition reopened (v : pview T) (m : gmap Z file) (r : Z) (w : pview T) : Prop :=
  (exists m', w = with_fds m' v /\ (r = 0 -> m' = m)) /\ (r = 0 \/ r = -1).
Lemma reopen_spec s : tty (view s) = None -> session_leader (view s) = false ->
  post (fun r s' => reopened (view s) (<[STDERR_FILENO := Named dev_null]> (<[STDOUT_FILENO := Named dev_null]>
          (<[STDIN_FILENO := Named dev_null]> (fds (view s))))) r (view s')) (fun _ _ => False) (reopen_std_fds s).
Proof.
  intros Ht Hl. unfold reopen_std_fds, STDIN_FILENO, STDOUT_FILENO, STDERR_FILENO.
  assert (Hfail : forall m' s', view s' = with_fds m' (view s) -> forall m, reopened (view s) m (-1) (view s')).
  { intros m' s' Hv m. split; [|by right]. exists m'. by split. }
  assert (Hrest : forall s1, view s1 = with_fds (delete 0 (fds (view s))) (view s) ->
    post (fun r s' => reopened (view s) (<[2 := Named dev_null]> (<[1 := Named dev_null]> (<[0 := Named dev_null]> (fds (view s))))) r (view s'))
      (fun _ _ => False)
      ((fd ← call (sys_open dev_null);
        if negb (default (-1) fd =? 0) then mret (-1)
        else
          r ← call (sys_dup2 0 1);
          if negb (default (-1) r =? 1) then mret (-1)
          else r ← call (sys_dup2 0 2); if negb (default (-1) r =? 2) then mret (-1) else mret 0) s1)).
  2:{ apply (viewed_bind view view_libc _ _ _ _ _ _ (close_spec 0 s)); intros x s1 Hv; by apply Hrest. }
  intros s1 Hv. apply (viewed_bind view view_libc _ _ _ _ _ _ (open_spec dev_null s1)); [|intros e s2 Hs2; unfold is_open in Hs2; cbn; eapply Hfail; rewrite Hs2; exact Hv].
  intros fd s2 (Hlow & Hs2). rewrite Hv in Hlow, Hs2. cbn [fds with_fds] in Hlow. apply zero_free in Hlow as ->.
  unfold acquires in Hs2. cbn [session_leader with_fds] in Hs2. rewrite Hl in Hs2. cbn in Hs2. rewrite insert_delete_eq in Hs2.
  assert (Hs2' : view s2 = with_fds (<[0 := Named dev_null]> (fds (view s))) (view s)) by exact Hs2. clear Hs2.
  cbn [default Z.eqb negb].
  apply (dup_zero 1 _ _ (Named dev_null)); [done|rewrite Hs2'; apply lookup_insert_eq|..]; [|intros s3 Hs3; cbn; eapply Hfail; rewrite Hs3; exact Hs2'].
  intros s3 Hs3. rewrite Hs2' in Hs3. cbn [default].
  apply (dup_zero 2 _ _ (Named dev_null)); [done|rewrite Hs3; cbn; rewrite lookup_insert_ne by done; apply lookup_insert_eq|..];
    [|intros s4 Hs4; cbn; eapply Hfail; rewrite Hs4, Hs3; reflexivity].
  intros s4 Hs4. rewrite Hs3 in Hs4. cbn. split; [|by left]. eexists. split; [exact Hs4|done].
Qed.

Lemma umask_step flags s :
  post (fun _ s' => view s' = with_mask (if has_flag flags BD_NO_UMASK0 then mask (view s) else 0) (view s)) (fun _ _ => False)
    (when (negb (has_flag flags BD_NO_UMASK0)) (sys_umask 0;; mret tt) s).
Proof.
  destruct (has_flag _ _); cbn [negb when]; [by cbn; destruct (view s)|]. apply post_bind. eapply post_mono; [| |apply umask_spec]; [|done]. by intros m s' Hs'.
Qed.
Lemma chdir_step flags s :
  post (fun _ s' => exists d, view s' = with_cwd d (view s) /\ (d = str "/" \/ d = cwd (view s)) /\
          (has_flag flags BD_NO_CHDIR = true -> d = cwd (view s))) (fun _ _ => False)
    (when (negb (has_flag flags BD_NO_CHDIR)) (call (sys_chdir (str "/"));; mret tt) s).
Proof.
  assert (Hsame : view s = with_cwd (cwd (view s)) (view s)) by (by destruct (view s)).
  destruct (has_flag _ _); cbn [negb when]; [exists (cwd (view s)); auto|].
  apply (viewed_bind view view_libc _ _ _ _ _ _ (chdir_spec (str "/") s)).
  - intros [] s' Hv. exists (str "/"). split_and!; [exact Hv|by left|done].
  - intros e s' Hv. exists (cwd (view s)). cbn in Hv. rewrite Hv. split_and!; [done|by right|done].
Qed.
Definition kept_fds (flags : Z) (m : gmap Z file) : gmap Z file :=
  if has_flag flags BD_NO_CLOSE_FILES then m else filter (fun p => p.1 ∉ seqZ 0 maxfd) m.
Lemma close_step flags s :
  post (fun _ s' => view s' = with_fds (kept_fds flags (fds (view s))) (view s)) (fun _ _ => False)
    (when (negb (has_flag flags BD_NO_CLOSE_FILES))
      (maxfd ← sys_open_max;
       let maxfd := if maxfd =? -1 then BD_MAX_CLOSE else maxfd in
       for_each (seqZ 0 maxfd) (fun fd => call (sys_close fd);; mret tt)) s).
Proof.
  unfold kept_fds. destruct (has_flag _ _); cbn [negb when]; [by cbn; destruct (view s)|].
  apply post_bind. eapply post_mono; [| |apply open_max_spec]; [|done]. intros n s1 [-> Hv]. cbn zeta.
  eapply post_mono; [| |apply close_all]; [|done]. intros u s2. by rewrite Hv.
Qed.

Lemma daemon_rest_spec flags v s : view s = forked (new_session (forked v)) ->
  post (fun r s' => daemon_result flags v r (view s')) (fun _ _ => False) (daemon_rest flags s).
Proof.
  intros Hv. unfold daemon_rest. apply post_bind. eapply post_mono; [| |apply umask_step]; [|done]. intros u1 s1 Hs1.
  apply post_bind. eapply post_mono; [| |apply chdir_step]; [|done]. intros u2 s2 (d & Hs2 & Hd & Hnc).
  apply post_bind. eapply post_mono; [| |apply close_step]; [|done]. intros u3 s3 Hs3. rewrite Hs2, Hs1, Hv in Hs3. rewrite Hs1, Hv in Hd, Hnc.
  cbn in Hs3, Hd, Hnc. destruct (has_flag flags BD_NO_REOPEN_STD_FDS) eqn:Hro; cbn [negb].
  - left. rewrite Hs3. unfold detached, daemon_fds. rewrite Hro. auto 10.
  - eapply post_mono; [| |apply reopen_spec; by rewrite Hs3]; [|done]. intros r s4 [(m' & Hv4 & Hm') [-> | ->]]; rewrite Hs3 in *.
    + left. rewrite Hv4, (Hm' eq_refl). unfold detached, daemon_fds. rewrite Hro. auto 10.
    + right. rewrite Hv4. unfold detached. auto 10.
Qed.

End proofs.

