(* ===== verification/Relay.v ===== *)
(** Programs on a pseudoterminal: book-src/pty/script.c and unbuffer.c, which relay data between
    their terminal and a program that runs on the slave. *)
From S2P Require Import Prelude CLib Sys ErrorFunctions Calls Process Pty Formats.
Import Formats.Tty.
#[local] Open Scope Z_scope.

Definition BUF_SIZE : nat := 256.

(** The calls these programs make beyond those of ptyFork(): select() for reading on the standard
    input and on one more descriptor; the attributes and the size of the terminal on the standard
    input; execlp() and execvp(), which return only an error; atexit(). *)
Class RelayOS (S : Type) := {
  sys_select : Z -> M S (sysres (bool * bool));
  tty_get : S -> sysres termios;
  sys_gwinsz : M S (sysres winsize);
  sys_exec : bytes -> list bytes -> M S Z;
  sys_atexit : M S Z
}.

Section programs.
Context {S : Type} `{HL : HasLibc S} `{HO : ProcOS termios S} `{HM : !PtyMaster S} `{HR : ReadOS S} `{HW : WriteOS S} `{HY : RelayOS S}.
Context (strerror : Z -> bytes).

(** [if (write(fd, buf, numRead) != numRead) fatal(msg);] *)
Definition write_all (bs : bytes) (out : Z * bytes) : M S unit :=
  n ← call (sys_write out.1 bs);
  if bool_decide (n = Some (length bs)) then mret tt else fatal strerror out.2.
(** Reads what is there, and writes it to each of the descriptors. *)
Definition copy (fd : Z) (outs : list (Z * bytes)) : M S unit :=
  buf ← call (sys_read fd BUF_SIZE);
  match buf with
  | None | Some [] => c_exit EXIT_SUCCESS
  | Some buf => for_each outs (write_all buf)
  end.
Definition relay_round (masterFd : Z) (outs : list (Z * bytes)) : M S (unit + Empty_set) :=
  inFds ← echecked strerror (sys_select masterFd) (str "select");
  when inFds.1 (copy STDIN_FILENO [(masterFd, str "partial/failed write (masterFd)")]);;
  when inFds.2 (copy masterFd outs);;
  mret (inl tt).

(** Source: book-src/pty/script.c:34-39 (ttyReset). *)
Definition script_ttyReset (ttyOrig : termios) : M S unit :=
  echecked strerror (sys_tcsetattr STDIN_FILENO ttyOrig) (str "tcsetattr").
(** Source: book-src/pty/unbuffer.c:36-41 (ttyReset). *)
Definition unbuffer_ttyReset (ttyOrig : termios) : M S unit :=
  echecked strerror (sys_tcsetattr STDIN_FILENO ttyOrig) (str "tcsetattr").
(** exit() runs the functions that were registered with atexit(). *)
Definition with_atexit {A} (handler : M S unit) (m : M S A) : M S A := fun s =>
  match m s with
  | (Exited n, s') => (handler;; exit_ n) s'
  | r => r
  end.

(** Source: book-src/pty/script.c:103-130 (main, loop). *)
Definition script_loop (fuel : nat) (masterFd scriptFd : Z) : M S Empty_set :=
  iter fuel (fun _ => relay_round masterFd
    [(STDOUT_FILENO, str "partial/failed write (STDOUT_FILENO)"); (scriptFd, str "partial/failed write (scriptFd)")]) tt.
(** Source: book-src/pty/unbuffer.c:86-110 (main, loop). *)
Definition unbuffer_loop (fuel : nat) (masterFd : Z) : M S Empty_set :=
  iter fuel (fun _ => relay_round masterFd [(STDOUT_FILENO, str "partial/failed write (STDOUT_FILENO)")]) tt.

(** The terminal becomes raw; when the program exits it is as [ttyOrig] says. *)
Definition raw_session (ttyReset : termios -> M S unit) (ttyOrig : termios) (loop : M S Empty_set) : M S Empty_set :=
  '(_, prev) ← ttySetRaw tty_get (sys_tcsetattr STDIN_FILENO) true;
  let ttyOrig := default ttyOrig prev in
  a ← sys_atexit;
  if negb (a =? 0) then errExit strerror (str "atexit") else with_atexit (ttyReset ttyOrig) loop.

(** Source: book-src/pty/script.c:42-131 (main). *)
Definition script_main (fuel : nat) (argv : list bytes) : M S Empty_set :=
  ttyOrig ← echecked strerror (gets tty_get) (str "tcgetattr");
  ws ← echecked strerror sys_gwinsz (str "ioctl-TIOCGWINSZ");
  r ← ptyFork strerror (Some MAX_SNAME) (Some ttyOrig) (Some ws);
  match fp_ret r, fp_master r with
  | Some 0, _ =>
      shell ← getenv (str "SHELL");
      let shell := match shell with None | Some [] => str "/bin/sh" | Some shell => shell end in
      e ← sys_exec shell [shell];
      set_errno e;;
      errExit strerror (str "execlp")
  | Some _, Some masterFd =>
      scriptFd ← echecked strerror (sys_open (if argv is a :: _ then a else str "typescript")) (str "open typescript");
      raw_session script_ttyReset ttyOrig (script_loop fuel masterFd scriptFd)
  | Some _, None => undefined
  | None, _ => errExit strerror (str "ptyFork")
  end.
(** The arguments after the name of the program. Without any, execvp() is given a null pointer. *)
(** Source: book-src/pty/unbuffer.c:44-112 (main). *)
Definition unbuffer_main (fuel : nat) (argv : list bytes) : M S Empty_set :=
  ttyOrig ← echecked strerror (gets tty_get) (str "tcgetattr");
  ws ← echecked strerror sys_gwinsz (str "TIOCGWINSZ error");
  r ← ptyFork strerror (Some MAX_SNAME) (Some ttyOrig) (Some ws);
  match fp_ret r, fp_master r with
  | Some 0, _ =>
      match argv with
      | [] => undefined
      | file :: _ => e ← sys_exec file argv; set_errno e;; errExit strerror (str "execvp")
      end
  | Some _, Some masterFd => raw_session unbuffer_ttyReset ttyOrig (unbuffer_loop fuel masterFd)
  | Some _, None => undefined
  | None, _ => errExit strerror (str "ptyFork")
  end.
End programs.

(** * What the calls do *)

(** What has been read and written, in order, and how many bytes there are still to be read. *)
Inductive io := Rd (fd : Z) (bs : bytes) | Wr (fd : Z) (bs : bytes).
Definition from (fd : Z) (l : list io) : bytes := x ← l; if x is Rd k bs then if k =? fd then bs else [] else [].
Definition into (fd : Z) (l : list io) : bytes := x ← l; if x is Wr k bs then if k =? fd then bs else [] else [].
Record rview := RView { log : list io; remaining : nat }.
Definition logged (x : io) (v : rview) : rview := RView (log v ++ [x]) (remaining v).

Definition is_read (fd : Z) (n : nat) (v : rview) (r : sysres bytes) (w : rview) : Prop :=
  match r with
  | SOk bs => (length bs <= n)%nat /\ exists k, (k + length bs <= remaining v)%nat /\ w = RView (log v ++ [Rd fd bs]) k
  | SErr _ => w = v
  end.
Definition is_write (fd : Z) (bs : bytes) (v : rview) (r : sysres nat) (w : rview) : Prop :=
  match r with SOk k => (k <= length bs)%nat /\ w = logged (Wr fd (take k bs)) v | SErr _ => w = v end.

(** The calls on the process do not read or write, and the others leave its attributes alone. *)
Class RelaySpec (S : Type) `{HL : HasLibc S} `{HO : ProcOS termios S} `{HM : !PtyMaster S} `{HR : ReadOS S} `{HW : WriteOS S} `{HY : RelayOS S}
    `{HS : !ProcSpec termios S} := {
  io_view : S -> rview;
  io_libc : forall l s, io_view (set_libc l s) = io_view s;
  io_open : forall v p, keeps (fun s => io_view s = v) (sys_open p);
  io_close : forall v fd, keeps (fun s => io_view s = v) (sys_close fd);
  io_dup2 : forall v a b, keeps (fun s => io_view s = v) (sys_dup2 a b);
  io_fork : forall v, keeps (fun s => io_view s = v) sys_fork;
  io_setsid : forall v, keeps (fun s => io_view s = v) sys_setsid;
  io_sctty : forall v fd, keeps (fun s => io_view s = v) (sys_sctty fd);
  io_tcsetattr : forall v fd t, keeps (fun s => io_view s = v) (sys_tcsetattr fd t);
  io_swinsz : forall v fd x, keeps (fun s => io_view s = v) (sys_swinsz fd x);
  io_master : forall v n, keeps (fun s => io_view s = v) (ptyMasterOpen n);
  read_spec : forall fd n s, post (fun r s' => is_read fd n (io_view s) r (io_view s') /\ view s' = view s) (fun _ _ => False) (sys_read fd n s);
  write_spec : forall fd bs s, post (fun r s' => is_write fd bs (io_view s) r (io_view s') /\ view s' = view s) (fun _ _ => False) (sys_write fd bs s);
  select_spec : forall fd s, post (fun r s' => (view s' = view s /\ io_view s' = io_view s) /\
    match r with SOk (a, b) => a || b = true | SErr _ => True end) (fun _ _ => False) (sys_select fd s);
  tty_get_spec : forall s t, tty_get s = SOk t -> exists p, fds (view s) !! STDIN_FILENO = Some (Named p) /\ tios (view s) !! p = Some t;
  gwinsz_spec : forall s, post (fun _ s' => view s' = view s /\ io_view s' = io_view s) (fun _ _ => False) (sys_gwinsz s);
  exec_spec : forall f a s, post (fun _ s' => view s' = view s) (fun _ s' => depth (view s') = depth (view s)) (sys_exec f a s);
  atexit_spec : forall s, post (fun _ s' => view s' = view s /\ io_view s' = io_view s) (fun _ _ => False) (sys_atexit s)
}.

(** * Relaying *)

Section proofs.
Context {S : Type} `{HL : HasLibc S} `{HO : ProcOS termios S} `{HM : !PtyMaster S} `{HR : ReadOS S} `{HW : WriteOS S} `{HY : RelayOS S}.
Context `{HS : !ProcSpec termios S} `{HMS : !PtyMasterSpec} `{HRS : !RelaySpec S} (strerror : Z -> bytes).

Definition both (s : S) : pview termios * rview := (view s, io_view s).
Lemma both_libc l s : both (set_libc l s) = both s.
Proof. unfold both. by rewrite view_libc, io_libc. Qed.

(** What a copy of [bs] to [outs] leaves in the log, if it is complete, and if it is not. *)
Definition copied (fd : Z) (outs : list Z) (bs : bytes) : list io := Rd fd bs :: ((fun o => Wr o bs) <$> outs).
Definition broken (fd : Z) (outs : list Z) (l : list io) : Prop :=
  exists bs outs1 o outs2, outs = outs1 ++ o :: outs2 /\ exists k, l = copied fd outs1 bs \/ l = copied fd outs1 bs ++ [Wr o (take k bs)].

(** How a copy ends the program: at the end of the input, or because of an error, when one of the
    writes may be missing in part. *)
Definition copy_ends (fd : Z) (outs : list Z) (s : S) (e : ending) (s' : S) : Prop :=
  view s' = view s /\ exists l, log (io_view s') = log (io_view s) ++ l /\ (remaining (io_view s') <= remaining (io_view s))%nat /\
    ((e = EExit EXIT_SUCCESS /\ (l = [] \/ l = [Rd fd []])) \/ ((e = EExit EXIT_FAILURE \/ e = EAbort) /\ broken fd outs l)).

Lemma write_all_spec bs o msg s :
  post (fun _ s' => both s' = (view s, logged (Wr o bs) (io_view s)))
    (fun e s' => (e = EExit EXIT_FAILURE \/ e = EAbort) /\ view s' = view s /\
       (io_view s' = io_view s \/ exists k, io_view s' = logged (Wr o (take k bs)) (io_view s))) (write_all strerror bs (o, msg) s).
Proof.
  unfold write_all. cbn [fst snd]. apply (viewed_bind both both_libc _ _ _ (fun r w => is_write o bs (io_view s) r w.2 /\ w.1 = view s)); [exact (write_spec o bs s)|..].
  - intros k s' [[Hk Hw] Hv]. cbn in Hw, Hv. case_bool_decide as Hn.
    + injection Hn as ->. cbn. unfold both. by rewrite Hv, Hw, firstn_all.
    + eapply post_mono; [| |apply (fatal_stops strerror both both_libc)]; [intros ? ? Hq; exact Hq|]. intros e s'' [He Hb]. split; [done|].
      injection Hb as Hb1 Hb2. split; [congruence|]. right. exists k. congruence.
  - intros e s' [Hw Hv]. cbn in Hw, Hv. cbn. eapply post_mono; [| |apply (fatal_stops strerror both both_libc)]; [intros ? ? Hq; exact Hq|].
    intros e' s'' [He Hb]. split; [done|]. injection Hb as Hb1 Hb2. split; [congruence|]. left. congruence.
Qed.

Lemma writes_spec bs outs fd pre s l0 : log (io_view s) = l0 ++ copied fd pre bs ->
  post (fun _ s' => view s' = view s /\ log (io_view s') = l0 ++ copied fd (pre ++ (fst <$> outs)) bs /\ remaining (io_view s') = remaining (io_view s))
    (fun e s' => (e = EExit EXIT_FAILURE \/ e = EAbort) /\ view s' = view s /\ remaining (io_view s') = remaining (io_view s) /\
       exists l, log (io_view s') = l0 ++ l /\ broken fd (pre ++ (fst <$> outs)) l) (for_each outs (write_all strerror bs) s).
Proof.
  revert pre s. induction outs as [|[o msg] outs IH]; intros pre s Hl; cbn [for_each].
  - cbn. by rewrite app_nil_r.
  - apply post_bind. eapply post_mono; [| |apply (write_all_spec bs o msg s)].
    + intros [] s1 Hb. injection Hb as Hv Hi. specialize (IH (pre ++ [o]) s1). rewrite <- app_assoc in IH. cbn [app] in IH.
      rewrite fmap_cons. cbn [fst]. eapply post_mono; [| |apply IH].
      * intros _ s2 (H1 & H2 & H3). split_and!; [congruence|done|]. rewrite H3, Hi. done.
      * intros e s2 (He & H1 & H2 & H3). split_and!; [done|congruence| |done]. rewrite H2, Hi. done.
      * rewrite Hi. cbn. rewrite Hl. unfold copied. rewrite fmap_app, <- app_assoc. done.
    + intros e s1 (He & Hv & Hi). split_and!; [done|done|by destruct Hi as [->|[k ->]]|].
      rewrite fmap_cons. cbn [fst]. destruct Hi as [->|[k ->]].
      * exists (copied fd pre bs). split; [done|]. exists bs, pre, o, (fst <$> outs). split; [done|]. exists 0%nat. by left.
      * exists (copied fd pre bs ++ [Wr o (take k bs)]). split; [cbn; by rewrite Hl, <- app_assoc|]. exists bs, pre, o, (fst <$> outs). split; [done|]. exists k. by right.
Qed.

Lemma copy_spec fd outs s :
  post (fun _ s' => view s' = view s /\ exists bs, bs <> [] /\ log (io_view s') = log (io_view s) ++ copied fd (fst <$> outs) bs /\
          (remaining (io_view s') < remaining (io_view s))%nat) (copy_ends fd (fst <$> outs) s) (copy strerror fd outs s).
Proof.
  assert (Hexit : forall s1 l, view s1 = view s -> log (io_view s1) = log (io_view s) ++ l -> (l = [] \/ l = [Rd fd []]) ->
    (remaining (io_view s1) <= remaining (io_view s))%nat -> forall Q : unit -> S -> Prop, post Q (copy_ends fd (fst <$> outs) s) (c_exit EXIT_SUCCESS s1)).
  { intros s1 l Hv Hl Hor Hrem Q. unfold c_exit, fflush_stdout. munfold. cbn. split; [by rewrite view_libc|]. exists l. rewrite io_libc. auto. }
  unfold copy. apply (viewed_bind both both_libc _ _ _ (fun r w => is_read fd BUF_SIZE (io_view s) r w.2 /\ w.1 = view s)); [exact (read_spec fd BUF_SIZE s)|..].
  - intros bs s1 [[Hlen (k & Hk & Hw)] Hv]. cbn in Hv, Hw. destruct bs as [|b bs].
    + apply (Hexit s1 [Rd fd []]); [done|by rewrite Hw|by right|rewrite Hw; cbn in *; lia].
    + eapply post_mono; [| |apply (writes_spec (b :: bs) outs fd [] s1 (log (io_view s))); by rewrite Hw].
      * intros _ s2 (H1 & H2 & H3). split; [congruence|]. exists (b :: bs). split_and!; [done|exact H2|]. rewrite H3, Hw. cbn in *. lia.
      * intros e s2 (He & H1 & H2 & l & Hl & Hbr). split; [congruence|]. exists l. split_and!; [done| |by right]. rewrite H2, Hw. cbn in *. lia.
  - intros e s1 [Hw Hv]. cbn in Hw, Hv. apply (Hexit s1 []); [done|by rewrite Hw, app_nil_r|by left|by rewrite Hw].
Qed.

(** Everything read on one side has been written on the other; or a part of it, in order. *)
Definition balanced (m : Z) (outs : list Z) (l : list io) : Prop :=
  into m l = from STDIN_FILENO l /\ forall o, o ∈ outs -> into o l = from m l.
Definition partial (m : Z) (outs : list Z) (l : list io) : Prop :=
  into m l `prefix_of` from STDIN_FILENO l /\ forall o, o ∈ outs -> into o l `prefix_of` from m l.
(** The descriptors of a relay are distinct. *)
Definition apart (m : Z) (outs : list Z) : Prop := m <> STDIN_FILENO /\ STDIN_FILENO ∉ outs /\ m ∉ outs /\ NoDup outs.

Lemma from_app fd l1 l2 : from fd (l1 ++ l2) = from fd l1 ++ from fd l2.
Proof. apply bind_app. Qed.
Lemma into_app fd l1 l2 : into fd (l1 ++ l2) = into fd l1 ++ into fd l2.
Proof. apply bind_app. Qed.
Lemma from_copied k fd outs bs : from k (copied fd outs bs) = if k =? fd then bs else [].
Proof.
  unfold copied, from. rewrite bind_cons, (Z.eqb_sym fd k). assert (forall l : list Z, ((fun o => Wr o bs) <$> l) ≫= (fun x => if x is Rd k' bs then if k' =? k then bs else [] else []) = []) as ->
    by (induction l as [|o l IH]; [done|exact IH]).
  apply app_nil_r.
Qed.
Lemma into_copied k fd outs bs : NoDup outs -> into k (copied fd outs bs) = if bool_decide (k ∈ outs) then bs else [].
Proof.
  unfold copied, into. rewrite bind_cons. cbn [app]. induction 1 as [|o outs Hn Hd IH]; [by rewrite bool_decide_eq_false_2 by apply not_elem_of_nil|].
  rewrite fmap_cons, bind_cons, IH. destruct (Z.eqb_spec o k) as [->|Hk].
  - rewrite (bool_decide_eq_false_2 (k ∈ outs)) by done. rewrite bool_decide_eq_true_2 by left. apply app_nil_r.
  - cbn [app]. rewrite (bool_decide_ext (k ∈ o :: outs) (k ∈ outs)); [done|]. rewrite elem_of_cons. split; [by intros [->|]|by right].
Qed.

Lemma balanced_nil m outs : balanced m outs [].
Proof. done. Qed.
Lemma balanced_partial m outs l : balanced m outs l -> partial m outs l.
Proof. intros [H1 H2]. split; [by rewrite H1|]. intros o Ho. by rewrite H2. Qed.
(** A read that nothing follows. *)
Lemma balanced_eof m outs l fd : balanced m outs l -> balanced m outs (l ++ [Rd fd []]).
Proof.
  intros [H1 H2]. assert (Hf : forall k, from k (l ++ [Rd fd []]) = from k l).
  { intros k. rewrite from_app. cbn. by destruct (fd =? k); rewrite app_nil_r. }
  assert (Hi : forall k, into k (l ++ [Rd fd []]) = into k l) by (intros k; rewrite into_app; apply app_nil_r).
  split; [by rewrite Hf, Hi|]. intros o Ho. rewrite Hf, Hi. by apply H2.
Qed.
Lemma balanced_in m outs l bs : apart m outs -> balanced m outs l -> balanced m outs (l ++ copied STDIN_FILENO [m] bs).
Proof.
  intros (Hm & _ & Hmo & _) [H1 H2]. assert (Hd : NoDup [m]) by apply NoDup_singleton. split.
  - rewrite into_app, from_app, into_copied, from_copied, H1 by done. by rewrite bool_decide_eq_true_2 by left.
  - intros o Ho. rewrite into_app, from_app, into_copied, from_copied, H2 by done.
    rewrite bool_decide_eq_false_2 by (rewrite list_elem_of_singleton; by intros ->). apply Z.eqb_neq in Hm. unfold STDIN_FILENO in *. by rewrite Hm.
Qed.
Lemma balanced_out m outs l bs : apart m outs -> balanced m outs l -> balanced m outs (l ++ copied m outs bs).
Proof.
  intros (Hm & _ & Hmo & Hd) [H1 H2]. split.
  - rewrite into_app, from_app, into_copied, from_copied, H1 by done. rewrite bool_decide_eq_false_2 by done.
    assert (STDIN_FILENO =? m = false) as -> by (apply Z.eqb_neq; congruence). done.
  - intros o Ho. rewrite into_app, from_app, into_copied, from_copied, H2 by done. by rewrite bool_decide_eq_true_2, Z.eqb_refl by done.
Qed.

(** What was written before a copy broke off. *)
Lemma broken_into fd outs l o : NoDup outs -> broken fd outs l -> exists bs, from fd l = bs /\ (forall k, k <> fd -> from k l = []) /\
  into o l `prefix_of` bs /\ (o ∉ outs -> into o l = []).
Proof.
  intros Hd (bs & o1 & o' & o2 & -> & k & Hl). apply NoDup_app in Hd as (Hd1 & Hdis & Hd2). apply NoDup_cons in Hd2 as [Ho' _].
  assert (Hnew : o' ∉ o1) by (intros Hin; apply (Hdis o' Hin); left).
  exists bs. destruct Hl as [-> | ->]; rewrite ?from_app, ?into_app, ?from_copied, ?into_copied by done; rewrite ?Z.eqb_refl.
  - split_and!; [done| | |].
    + intros j Hj. rewrite from_copied. by apply Z.eqb_neq in Hj as ->.
    + case_bool_decide; [done|apply prefix_nil].
    + intros Ho. rewrite bool_decide_eq_false_2; [done|]. set_solver.
  - split_and!.
    + cbn. by rewrite app_nil_r.
    + intros j Hj. rewrite from_app, from_copied. by apply Z.eqb_neq in Hj as ->.
    + destruct (Z.eqb_spec o' o) as [->|Hne].
      * rewrite bool_decide_eq_false_2 by done. cbn. rewrite Z.eqb_refl, app_nil_r. apply prefix_take.
      * cbn. apply Z.eqb_neq in Hne. rewrite Hne, app_nil_r. case_bool_decide; [done|apply prefix_nil].
    + intros Ho. rewrite bool_decide_eq_false_2 by set_solver. cbn. assert (o' =? o = false) as -> by (apply Z.eqb_neq; set_solver). done.
Qed.

Definition session (m : Z) (outs : list Z) (v : pview termios) (l0 : list io) (s : S) : Prop :=
  view s = v /\ exists l, log (io_view s) = l0 ++ l /\ balanced m outs l.
(** The endings of a session: with success when all that was read has been written, otherwise
    with a part of it written in order. *)
Definition session_ends (m : Z) (outs : list Z) (v : pview termios) (l0 : list io) (e : ending) (s : S) : Prop :=
  view s = v /\ (e <> EUndef /\ e <> EFuel) /\ exists l, log (io_view s) = l0 ++ l /\ partial m outs l /\ (e = EExit EXIT_SUCCESS -> balanced m outs l).

Lemma session_failure m outs v l0 s e s' : session m outs v l0 s -> (e = EExit EXIT_FAILURE \/ e = EAbort) -> both s' = both s ->
  session_ends m outs v l0 e s'.
Proof.
  intros (Hv & l & Hl & Hb) He Hs. injection Hs as Hs1 Hs2. split; [congruence|]. split; [by destruct He as [-> | ->]|].
  exists l. split; [by rewrite Hs2|]. split; [by apply balanced_partial|]. by destruct He as [-> | ->].
Qed.

(** A copy in a session, from [fd] to [os]. *)
Lemma session_copy m outs v l0 fd os s : session m outs v l0 s -> NoDup (fst <$> os) ->
  (forall l bs, balanced m outs l -> balanced m outs (l ++ copied fd (fst <$> os) bs)) ->
  (forall l l', balanced m outs l -> broken fd (fst <$> os) l' -> partial m outs (l ++ l')) ->
  post (fun _ s' => session m outs v l0 s' /\ (remaining (io_view s') < remaining (io_view s))%nat) (session_ends m outs v l0)
    (copy strerror fd os s).
Proof.
  intros (Hv & l & Hl & Hb) Hd Hcopy Hbreak. eapply post_mono; [| |apply copy_spec].
  - intros _ s' (Hv' & bs & _ & Hl' & Hr). split; [|done]. split; [congruence|]. exists (l ++ copied fd (fst <$> os) bs).
    split; [by rewrite Hl', Hl, app_assoc|]. by apply Hcopy.
  - intros e s' (Hv' & l' & Hl' & Hr & He). split; [congruence|]. split; [by destruct He as [[-> _]|[[-> | ->] _]]|].
    exists (l ++ l'). split; [by rewrite Hl', Hl, app_assoc|].
    destruct He as [[-> He]|[He Hbr]].
    + assert (balanced m outs (l ++ l')) as Hb' by (destruct He as [-> | ->]; [by rewrite app_nil_r|by apply balanced_eof]).
      split; [by apply balanced_partial|done].
    + split; [by apply Hbreak|]. by destruct He as [-> | ->].
Qed.

Lemma break_in m outs l l' : apart m outs -> balanced m outs l -> broken STDIN_FILENO [m] l' -> partial m outs (l ++ l').
Proof.
  intros (Hm & _ & Hmo & _) [H1 H2] Hbr. split.
  - destruct (broken_into _ _ _ m ltac:(apply NoDup_singleton) Hbr) as (bs & Hf & _ & Hp & _). rewrite into_app, from_app, H1, Hf. by apply prefix_app.
  - intros o Ho. destruct (broken_into _ _ _ o ltac:(apply NoDup_singleton) Hbr) as (bs & _ & Hk & _ & Hn).
    rewrite into_app, from_app, H2, (Hk m), Hn by (done || set_solver). done.
Qed.
Lemma break_out m outs l l' : apart m outs -> balanced m outs l -> broken m outs l' -> partial m outs (l ++ l').
Proof.
  intros (Hm & _ & Hmo & Hd) [H1 H2] Hbr. split.
  - destruct (broken_into _ _ _ m Hd Hbr) as (bs & _ & Hk & _ & Hn). rewrite into_app, from_app, H1, (Hk STDIN_FILENO), Hn by done. done.
  - intros o Ho. destruct (broken_into _ _ _ o Hd Hbr) as (bs & Hf & _ & Hp & _). rewrite into_app, from_app, H2, Hf by done. by apply prefix_app.
Qed.

Lemma round_spec m os v l0 s : apart m (fst <$> os) -> session m (fst <$> os) v l0 s ->
  post (fun _ s' => session m (fst <$> os) v l0 s' /\ (remaining (io_view s') < remaining (io_view s))%nat) (session_ends m (fst <$> os) v l0)
    (relay_round strerror m os s).
Proof.
  intros Hap Hs. set (outs := fst <$> os) in *. unfold relay_round.
  apply (stops_then both _ _ _ (fun r s' => both s' = both s /\ r.1 || r.2 = true) _ s s);
    [intros e s' [He Hb]; by eapply session_failure|done|..].
  - eapply echecked_spec; [apply both_libc|apply select_spec|]. intros [[a b]|e] s' [[Hv Hi] Hab]; unfold both; rewrite Hv, Hi; done.
  - intros [a b] s1 [Hb Hab]. cbn [fst snd] in *. injection Hb as Hv Hi.
    assert (Hs1 : session m outs v l0 s1) by (destruct Hs as (H1 & l & H2 & H3); split; [congruence|]; exists l; by rewrite Hi).
    assert (Hin : post (fun _ s' => session m outs v l0 s' /\ (remaining (io_view s') <= remaining (io_view s))%nat /\
        (a = true -> remaining (io_view s') < remaining (io_view s))%nat) (session_ends m outs v l0)
        (when a (copy strerror STDIN_FILENO [(m, str "partial/failed write (masterFd)")]) s1)).
    { destruct a; cbn [when].
      - eapply post_mono; [| |apply (session_copy m outs v l0 STDIN_FILENO [(m, str "partial/failed write (masterFd)")] s1 Hs1)]; [|done|apply NoDup_singleton|..].
        + intros _ s' [Hs' Hr]. rewrite Hi in Hr. split; [done|]. split; [lia|done].
        + intros l bs. by apply balanced_in.
        + intros l l'. by apply break_in.
      - cbn. rewrite Hi. done. }
    apply post_bind. eapply post_mono; [| |exact Hin]; [|done]. intros _ s2 (Hs2 & Hle & Ha).
    apply post_bind. destruct b; cbn [when].
    + eapply post_mono; [| |apply (session_copy m outs v l0 m os s2 Hs2)]; [|done|by apply Hap|..].
      * intros _ s' [Hs' Hr]. cbn. split; [done|lia].
      * intros l bs. by apply balanced_out.
      * intros l l'. by apply break_out.
    + cbn. split; [done|]. apply Ha. by destruct a.
Qed.

(** Every round but the last reads something, so that the loop ends if what there is to be read does. *)
Lemma loop_spec fuel m os v l0 s : apart m (fst <$> os) -> session m (fst <$> os) v l0 s ->
  post (fun _ _ => False) (fun e s' => session_ends m (fst <$> os) v l0 e s' \/
      (e = EFuel /\ session m (fst <$> os) v l0 s' /\ (fuel <= remaining (io_view s))%nat))
    (iter fuel (fun _ => relay_round strerror m os) tt s).
Proof.
  intros Hap. revert s. induction fuel as [|fuel IH]; intros s Hs; cbn [iter].
  - right. split_and!; [done|done|lia].
  - apply post_bind. eapply post_mono; [| |by apply (round_spec m os v l0)].
    + intros [[]|[]] s1 [Hs1 Hr]. eapply post_mono; [| |apply (IH s1 Hs1)]; [done|]. intros e s2 [He|(He & Hs2 & Hf)]; [by left|right].
      split_and!; [done|done|lia].
    + intros e s1 He. by left.
Qed.

(** * The terminal *)

Lemma post_and {A} (Q1 Q2 : A -> S -> Prop) E1 E2 r : post Q1 E1 r -> post Q2 E2 r -> post (fun a s => Q1 a s /\ Q2 a s) (fun e s => E1 e s /\ E2 e s) r.
Proof. by destruct r as [[] ?]. Qed.
(** A law about the attributes of the process, for a call that does not read or write. *)
Lemma with_io {A} (m : M S A) s (R : A -> pview termios -> Prop) :
  post (fun r s' => R r (view s')) (fun _ _ => False) (m s) -> (forall v, keeps (fun s => io_view s = v) m) ->
  post (fun r s' => R r (view s') /\ io_view s' = io_view s) (fun _ _ => False) (m s).
Proof. intros Hm Hk. eapply post_mono; [| |exact (post_and _ _ _ _ _ Hm (Hk (io_view s) s eq_refl))]; [done|]. by intros e s' [[] _]. Qed.

(** The terminal [p] on the standard input has the attributes [t]. *)
Definition on_terminal (p : bytes) (t : termios) (v : pview termios) : Prop := fds v !! STDIN_FILENO = Some (Named p) /\ tios v !! p = Some t.
(** ... but for those. *)
Definition terminal_set (p : bytes) (v w : pview termios) : Prop := w = v \/ exists t, w = with_tio p t v.
Lemma terminal_restored p t v w : on_terminal p t v -> terminal_set p v w -> with_tio p t w = v.
Proof.
  intros [_ Ht] Hw. assert (with_tio p t v = v) as Hv.
  { unfold with_tio. rewrite insert_id by done. by destruct v. }
  destruct Hw as [->|[t' ->]]; [done|]. rewrite <- Hv at 2. unfold with_tio. cbn. by rewrite insert_insert_eq.
Qed.
Lemma terminal_fds p v w : terminal_set p v w -> fds w = fds v /\ depth w = depth v.
Proof. by intros [->|[t ->]]. Qed.

Lemma tcsetattr_both t s : post (fun r s' => on_tty STDIN_FILENO (fun p => with_tio p t) (view s) r (view s') /\ io_view s' = io_view s)
  (fun _ _ => False) (sys_tcsetattr STDIN_FILENO t s).
Proof. apply with_io; [apply tcsetattr_spec|intros v; apply io_tcsetattr]. Qed.

Lemma setraw_spec p t s : on_terminal p t (view s) ->
  post (fun r s' => (r.2 = None \/ r.2 = Some t) /\ terminal_set p (view s) (view s') /\ io_view s' = io_view s) (fun _ _ => False)
    (ttySetRaw tty_get (sys_tcsetattr STDIN_FILENO) true s).
Proof.
  intros [Hp Ht]. unfold ttySetRaw. apply post_bind. unfold gets. cbn [post]. destruct (tty_get s) as [t'|e] eqn:Hg; [|cbn; split_and!; [by left|by left|done]].
  apply tty_get_spec in Hg as (p' & Hp' & Ht'). assert (p' = p) as -> by congruence. assert (t' = t) as -> by congruence.
  apply post_bind. eapply post_mono; [| |apply tcsetattr_both]; [|done]. intros [[]|e] s' [Ho Hi]; cbn.
  - destruct Ho as (p' & Hp'' & Hv). assert (p' = p) as -> by congruence. split_and!; [by right|right; by eexists|done].
  - cbn in Ho. split_and!; [by right|by left|done].
Qed.

Lemma reset_spec p t v s : on_terminal p t v -> terminal_set p v (view s) ->
  post (fun _ s' => view s' = v /\ io_view s' = io_view s) (stops both s) (echecked strerror (sys_tcsetattr STDIN_FILENO t) (str "tcsetattr") s).
Proof.
  intros Hon Hset. eapply echecked_spec; [apply both_libc|apply tcsetattr_both|]. intros [[]|e] s' [Ho Hi].
  - destruct Ho as (p' & Hp' & Hv). split; [|done]. destruct (terminal_fds _ _ _ Hset) as [Hf _]. rewrite Hf in Hp'.
    assert (p' = p) as -> by (destruct Hon; congruence). rewrite Hv. by apply terminal_restored.
  - cbn in Ho. unfold both. congruence.
Qed.

(** What a program has relayed when it ends, and the terminal that it leaves: with the attributes
    it had if the program ends with success. *)
Definition relayed (m : Z) (outs : list Z) (v : pview termios) (io0 : rview) (fuel : nat) (e : ending) (s : S) : Prop :=
  depth (view s) = depth v /\ fds (view s) = fds v /\ e <> EUndef /\ exists l, log (io_view s) = log io0 ++ l /\ partial m outs l /\
    (e = EExit EXIT_SUCCESS -> balanced m outs l /\ view s = v) /\ (e = EFuel -> balanced m outs l /\ (fuel <= remaining io0)%nat).

Lemma relayed_failure m outs v io0 l fuel s e s' p : terminal_set p v (view s) -> (e = EExit EXIT_FAILURE \/ e = EAbort) -> both s' = both s ->
  log (io_view s) = log io0 ++ l -> partial m outs l -> relayed m outs v io0 fuel e s'.
Proof.
  intros Hset He Hb Hl Hp. injection Hb as Hv Hi. destruct (terminal_fds _ _ _ Hset) as [Hf Hd]. split; [congruence|]. split; [congruence|].
  split; [by destruct He as [-> | ->]|]. exists l. rewrite Hi. split; [done|]. split; [done|]. by destruct He as [-> | ->].
Qed.

Lemma raw_session_spec p t fuel m os s : apart m (fst <$> os) -> on_terminal p t (view s) ->
  post (fun _ _ => False) (relayed m (fst <$> os) (view s) (io_view s) fuel)
    (raw_session strerror (fun t => echecked strerror (sys_tcsetattr STDIN_FILENO t) (str "tcsetattr")) t (iter fuel (fun _ => relay_round strerror m os) tt) s).
Proof.
  intros Hap Hon. unfold raw_session. apply post_bind. eapply post_mono; [| |by apply (setraw_spec p t)]; [|done].
  intros [r prev] s1 (Hprev & Hset & Hi). cbn [snd] in Hprev. assert (default t prev = t) as -> by (by destruct Hprev as [-> | ->]).
  apply post_bind. eapply post_mono; [| |apply atexit_spec]; [|done]. intros a s2 [Hv2 Hi2]. rewrite <- Hv2 in Hset.
  destruct (negb (a =? 0)).
  - eapply post_mono; [| |apply (errExit_stops strerror both both_libc)]; [intros ? ? Hq; exact Hq|]. intros e s3 [He Hb].
    eapply (relayed_failure _ _ _ _ []); [done|done|done|rewrite app_nil_r; congruence|done].
  - pose proof (loop_spec fuel m os (view s2) (log (io_view s)) s2 Hap) as Hloop. unfold with_atexit.
    assert (Hs2 : session m (fst <$> os) (view s2) (log (io_view s)) s2) by (split; [done|]; exists []; rewrite app_nil_r; split; [congruence|done]).
    specialize (Hloop Hs2). destruct (terminal_fds _ _ _ Hset) as [Hf Hd].
    destruct (iter _ _ _ _) as [[[]|n| | |] s3]; cbn [post] in Hloop |- *.
    + destruct Hloop as [(Hv3 & _ & l & Hl & Hp & Hb)|(He & _)]; [|done]. rewrite <- Hv3 in Hset. apply post_bind.
      eapply post_mono; [| |by apply (reset_spec p t (view s))].
      * intros [] s4 [Hv4 Hi4]. cbn. split; [by rewrite Hv4|]. split; [by rewrite Hv4|]. split; [done|]. exists l. rewrite Hi4.
        split; [done|]. split; [done|]. split; [|done]. intros He. by split; [apply Hb|].
      * intros e s4 [He Hb4]. by eapply relayed_failure.
    + destruct Hloop as [(Hv3 & _ & l & Hl & Hp & Hb)|(He & _)]; [|done]. rewrite <- Hv3 in Hset. eapply relayed_failure; [done|by right|done|done|done].
    + by destruct Hloop as [(_ & [? _] & _)|(He & _)].
    + destruct Hloop as [(_ & [_ ?] & _)|(_ & (Hv3 & l & Hl & Hb) & Hf3)]; [done|]. split; [congruence|]. split; [congruence|]. split; [done|].
      exists l. split; [done|]. split; [by apply balanced_partial|]. split; [done|]. intros _. split; [done|]. congruence.
Qed.

(** * The programs *)

Lemma keeps_errno_io v e : keeps (fun s => io_view s = v) (set_errno e).
Proof. apply (keeps_errno io_view io_libc). Qed.
Lemma keeps_call_io {A} v (m : M S (sysres A)) : keeps (fun s => io_view s = v) m -> keeps (fun s => io_view s = v) (call m).
Proof. apply (keeps_call io_view io_libc). Qed.
Lemma keeps_err_exit_io {A} v msg : keeps (fun s => io_view s = v) (err_exit strerror msg : M S A).
Proof.
  intros s Hs. destruct (exit_functions_correct strerror A msg 0 s) as (_ & _ & _ & ->). destruct (dump_core _); cbn; by rewrite io_libc.
Qed.
Lemma keeps_checked_io {A} v (m : M S (sysres A)) msg : keeps (fun s => io_view s = v) m -> keeps (fun s => io_view s = v) (child_call strerror m msg).
Proof. intros Hm. unfold child_call, checked_by. apply keeps_bind; [by apply keeps_call_io|]. intros [a|]; [apply keeps_ret|apply keeps_err_exit_io]. Qed.
#[local] Hint Resolve keeps_errno_io keeps_call_io keeps_err_exit_io keeps_checked_io io_open io_close io_dup2 io_fork io_setsid io_sctty io_tcsetattr io_swinsz io_master : triple.
Lemma keeps_ptyFork_io v sname t x : keeps (fun s => io_view s = v) (ptyFork strerror sname t x).
Proof.
  unfold ptyFork, pty_child, dup_to, get_errno. keeps_tac.
Qed.

(** The parent when the relay starts: the master, the file if there is one, and what is written
    to besides the master. *)
Definition started (file : option bytes) (v v' : pview termios) (m : Z) (outs : list Z) : Prop :=
  exists f p, slave_of f = Some p /\ lowest_free (fds v) m /\ tios v' = tios v /\ depth v' = depth v /\
    match file with
    | None => outs = [STDOUT_FILENO] /\ fds v' = <[m := f]> (fds v)
    | Some name => exists sfd, outs = [STDOUT_FILENO; sfd] /\ lowest_free (<[m := f]> (fds v)) sfd /\
        fds v' = <[sfd := Named name]> (<[m := f]> (fds v))
    end.
(** How the program ends: in the child, which runs another program; after an error before the relay;
    or in the relay. *)
Definition program_ends (file : option bytes) (fuel : nat) (s : S) (e : ending) (s' : S) : Prop :=
  depth (view s') = Datatypes.S (depth (view s)) \/
  ((e = EExit EXIT_FAILURE \/ e = EAbort) /\ io_view s' = io_view s /\ tios (view s') = tios (view s)) \/
  exists v m outs, started file (view s) v m outs /\ relayed m outs v (io_view s) fuel e s'.

Lemma early_end file fuel s s1 e s' : stops both s1 e s' -> io_view s1 = io_view s -> tios (view s1) = tios (view s) -> program_ends file fuel s e s'.
Proof. intros [He Hb] Hi Ht. injection Hb as Hv' Hi'. right. left. split; [done|]. split; congruence. Qed.
Lemma errExit_early file fuel {A} msg s s1 (Q : A -> S -> Prop) : io_view s1 = io_view s -> tios (view s1) = tios (view s) ->
  post Q (program_ends file fuel s) (errExit strerror msg s1).
Proof.
  intros Hi Ht. eapply post_mono; [| |apply (errExit_stops strerror both both_libc)]; [intros ? ? Hq; exact Hq|]. intros e s' Hs. by eapply early_end.
Qed.
Lemma early_bind {A B} (m : M S (sysres A)) msg (k : A -> M S B) file fuel s s1 (R : sysres A -> pview termios * rview -> Prop) Q :
  post (fun r s' => R r (both s')) (fun _ _ => False) (m s1) ->
  (forall e w, R (SErr e) w -> w.2 = io_view s /\ tios w.1 = tios (view s)) ->
  (forall a s', R (SOk a) (both s') -> post Q (program_ends file fuel s) (k a s')) ->
  post Q (program_ends file fuel s) ((echecked strerror m msg ≫= k) s1).
Proof.
  intros Hm He Hok. unfold echecked, checked_by. rewrite bind_bind. apply (viewed_bind both both_libc _ _ _ _ _ _ Hm).
  - intros a s' Hr. rewrite mret_bind. by apply Hok.
  - intros e s' Hr. apply He in Hr as [H1 H2]. apply post_bind. by apply errExit_early.
Qed.

Lemma forked_spec sname t x s :
  post (fun r s' => pty_forked sname t x (view s) r (view s') /\ io_view s' = io_view s)
    (fun e s' => depth (view s') = Datatypes.S (depth (view s))) (ptyFork strerror sname t x s).
Proof.
  eapply post_mono; [| |exact (post_and _ _ _ _ _ (ptyFork_correct strerror sname t x s) (keeps_ptyFork_io (io_view s) sname t x s eq_refl))]; [done|].
  by intros e s' [[_ Hd] _].
Qed.
(** The child: it runs another program, or says why it cannot. *)
Lemma child_runs file fuel f a msg s s1 (Q : Empty_set -> S -> Prop) : depth (view s1) = Datatypes.S (depth (view s)) ->
  post Q (program_ends file fuel s) ((e ← sys_exec f a; set_errno e;; errExit strerror msg) s1).
Proof.
  intros Hd. apply post_bind. eapply post_mono; [| |apply exec_spec]; [|intros e s2 He; left; congruence].
  intros e s2 Hv. apply errno_bind. intros s3 Hs3. eapply post_mono; [| |apply (errExit_stops strerror view view_libc)]; [intros ? ? Hq; exact Hq|].
  intros e' s4 [_ Hv4]. left. congruence.
Qed.

Lemma standard_apart (v : pview termios) m : is_Some (fds v !! STDIN_FILENO) -> is_Some (fds v !! STDOUT_FILENO) -> lowest_free (fds v) m ->
  m <> STDIN_FILENO /\ m <> STDOUT_FILENO.
Proof. intros [? H0] [? H1] (_ & Hn & _). split; intros ->; congruence. Qed.

Lemma script_spec fuel argv p t s : on_terminal p t (view s) -> is_Some (fds (view s) !! STDOUT_FILENO) ->
  post (fun _ _ => False) (program_ends (Some (if argv is a :: _ then a else str "typescript")) fuel s) (script_main strerror fuel argv s).
Proof.
  intros Hon H1. unfold script_main. set (name := if argv is a :: _ then a else str "typescript").
  apply (early_bind _ _ _ _ _ _ _ (fun r w => w = both s /\ r = tty_get s)); [done|by intros e w [-> _]|]. intros t' s1 [Hb1 Hg].
  assert (t' = t) as ->. { symmetry in Hg. apply tty_get_spec in Hg as (p' & Hp' & Ht'). destruct Hon. congruence. } clear Hg.
  apply (early_bind _ _ _ _ _ _ _ (fun r w => w = both s1)); [|by intros e w ->; rewrite Hb1|].
  { eapply post_mono; [| |apply gwinsz_spec]; [|done]. intros r s2 [Hv Hi]. unfold both. congruence. }
  intros ws s2 Hb2. rewrite Hb1 in Hb2. injection Hb2 as Hv2 Hi2.
  apply post_bind. eapply post_mono; [| |apply forked_spec]; [|intros e s3 Hd; left; congruence].
  intros r s3 [Hr Hi3]. rewrite Hv2 in Hr. rewrite Hi2 in Hi3. unfold pty_forked in Hr. destruct (fp_ret r) as [pid|].
  2:{ destruct Hr as [Hv3 _]. apply errExit_early; congruence. }
  destruct Hr as (sl & _ & Hr). destruct (Z.eqb_spec pid 0) as [->|Hpid].
  - destruct Hr as [_ Hv3]. apply post_bind. cbn [gets getenv post]. apply child_runs. by rewrite Hv3.
  - destruct Hr as (Hpos & m & f & Hfm & Hm & Hf & Hv3). destruct pid as [|pid|pid]; [done| |done]. rewrite Hfm.
    assert (Hfree := standard_apart (view s) m ltac:(destruct Hon; by eexists) H1 Hm).
    apply (early_bind _ _ _ _ _ s s3 (fun r w => is_open is_tty name (view s3) r w.1 /\ w.2 = io_view s3)).
    + apply (with_io _ _ (is_open is_tty name (view s3))); [apply open_spec|intros v; apply io_open].
    + intros e w [Ho ->]. cbn in Ho. rewrite Ho, Hv3. split; [congruence|done].
    + intros sfd s4 [Ho Hi4]. cbn in Ho, Hi4. destruct Ho as [Hlow Hv4]. rewrite Hv3 in Hlow, Hv4. cbn [fds with_fds] in Hlow.
      assert (Hne : sfd <> STDIN_FILENO /\ sfd <> STDOUT_FILENO /\ sfd <> m).
      { destruct Hlow as (_ & Hn & _), Hon as [H0 _], H1 as [f1 H1]. split_and!; intros ->; [| |by rewrite lookup_insert_eq in Hn];
          (rewrite lookup_insert_ne in Hn by (by destruct Hfree)); congruence. }
      eapply post_mono; [| |apply (raw_session_spec p t fuel m [(STDOUT_FILENO, _); (sfd, _)] s4)]; [done|..].
      * intros e s5 He. right. right. exists (view s4), m, [STDOUT_FILENO; sfd]. rewrite Hi4, Hi3 in He. split; [|exact He].
        exists f, sl. split_and!; [done|done|by rewrite Hv4|by rewrite Hv4|]. exists sfd. split_and!; [done|done|by rewrite Hv4].
      * destruct Hne as (? & ? & ?), Hfree. unfold apart. cbn. split_and!; [done|set_solver|set_solver|]. apply NoDup_cons. split; [set_solver|apply NoDup_singleton].
      * destruct Hon as [H0 Ht]. destruct Hne as (Hn0 & _ & _), Hfree as [Hm0 _]. rewrite Hv4. split; [|exact Ht]. cbn. by rewrite !lookup_insert_ne by done.
Qed.

Lemma unbuffer_spec fuel argv p t s : on_terminal p t (view s) -> is_Some (fds (view s) !! STDOUT_FILENO) ->
  post (fun _ _ => False) (program_ends None fuel s) (unbuffer_main strerror fuel argv s).
Proof.
  intros Hon H1. unfold unbuffer_main.
  apply (early_bind _ _ _ _ _ _ _ (fun r w => w = both s /\ r = tty_get s)); [done|by intros e w [-> _]|]. intros t' s1 [Hb1 Hg].
  assert (t' = t) as ->. { symmetry in Hg. apply tty_get_spec in Hg as (p' & Hp' & Ht'). destruct Hon. congruence. } clear Hg.
  apply (early_bind _ _ _ _ _ _ _ (fun r w => w = both s1)); [|by intros e w ->; rewrite Hb1|].
  { eapply post_mono; [| |apply gwinsz_spec]; [|done]. intros r s2 [Hv Hi]. unfold both. congruence. }
  intros ws s2 Hb2. rewrite Hb1 in Hb2. injection Hb2 as Hv2 Hi2.
  apply post_bind. eapply post_mono; [| |apply forked_spec]; [|intros e s3 Hd; left; congruence].
  intros r s3 [Hr Hi3]. rewrite Hv2 in Hr. rewrite Hi2 in Hi3. unfold pty_forked in Hr. destruct (fp_ret r) as [pid|].
  2:{ destruct Hr as [Hv3 _]. apply errExit_early; congruence. }
  destruct Hr as (sl & _ & Hr). destruct (Z.eqb_spec pid 0) as [->|Hpid].
  - destruct Hr as [_ Hv3]. destruct argv as [|file argv]; [left; by cbn; rewrite Hv3|]. apply child_runs. by rewrite Hv3.
  - destruct Hr as (Hpos & m & f & Hfm & Hm & Hf & Hv3). destruct pid as [|pid|pid]; [done| |done]. rewrite Hfm.
    assert (Hfree := standard_apart (view s) m ltac:(destruct Hon; by eexists) H1 Hm).
    eapply post_mono; [| |apply (raw_session_spec p t fuel m [(STDOUT_FILENO, _)] s3)]; [done|..].
    * intros e s5 He. right. right. exists (view s3), m, [STDOUT_FILENO]. rewrite Hi3 in He. split; [|exact He].
      exists f, sl. split_and!; [done|done|by rewrite Hv3..|done|by rewrite Hv3].
    * destruct Hfree. unfold apart. cbn. split_and!; [done|set_solver|set_solver|apply NoDup_singleton].
    * destruct Hon as [H0 Ht], Hfree as [Hm0 _]. rewrite Hv3. split; [|exact Ht]. cbn. by rewrite lookup_insert_ne by done.
Qed.
End proofs.

Section programs_correct.
Context {S : Type} `{HL : HasLibc S} `{HO : ProcOS termios S} `{HM : !PtyMaster S} `{HR : ReadOS S} `{HW : WriteOS S} `{HY : RelayOS S}.
Context `{HS : !ProcSpec termios S} `{HMS : !PtyMasterSpec} `{HRS : !RelaySpec S} (strerror : Z -> bytes).

(** C14: script and unbuffer, run on a terminal, relay what they read: however they end, what they have
    written to the master is a beginning of what was read from the terminal, and what they have written to
    the terminal, and to the file of script, a beginning of what was read from the master, in order; if they
    end with success all of it has been written, and the terminal has the attributes it had before.
    The loop goes on only as long as there is something to read: every round but the last reads. An error
    before the relay ends the program with nothing read or written; the child of ptyFork() is the
    other program. *)
Theorem relay_programs_correct fuel argv p t s : on_terminal p t (view s) -> is_Some (fds (view s) !! STDOUT_FILENO) ->
  post (fun _ _ => False) (program_ends (Some (if argv is a :: _ then a else str "typescript")) fuel s) (script_main strerror fuel argv s) /\
  post (fun _ _ => False) (program_ends None fuel s) (unbuffer_main strerror fuel argv s).
Proof. intros Hon H1. split; [by eapply script_spec|by eapply unbuffer_spec]. Qed.
End programs_correct.

(** * A run *)

(** What will be read, a chunk at a time, from the terminal and from the master. *)
Record rtoy := RToy { rt_log : list io; rt_typed : list bytes; rt_shown : list bytes }.
Definition rt_state : Type := toy_state (T := termios) (X := rtoy).
Definition rt_set (r : rtoy) (s : rt_state) : rt_state := (fst s, PToy (pt_view (snd s)) (pt_choices (snd s)) (pt_next (snd s)) r).
Definition rt_rest (s : rt_state) : rtoy := pt_rest (snd s).
Definition chunk (n : nat) (l : list bytes) : bytes := take n (default [] (head l)).
#[local] Instance rt_read : ReadOS rt_state := fun fd n s =>
  let r := rt_rest s in
  let bs := chunk n (if fd =? STDIN_FILENO then rt_typed r else rt_shown r) in
  (Done (SOk bs), rt_set (RToy (rt_log r ++ [Rd fd bs]) (if fd =? STDIN_FILENO then tail (rt_typed r) else rt_typed r)
    (if fd =? STDIN_FILENO then rt_shown r else tail (rt_shown r))) s).
#[local] Instance rt_write : WriteOS rt_state := fun fd bs s =>
  let r := rt_rest s in (Done (SOk (length bs)), rt_set (RToy (rt_log r ++ [Wr fd bs]) (rt_typed r) (rt_shown r)) s).
Definition rt_tty (s : rt_state) : sysres termios :=
  match fds (pt_view (snd s)) !! STDIN_FILENO with
  | Some (Named p) => if tios (pt_view (snd s)) !! p is Some t then SOk t else SErr 25
  | _ => SErr 25
  end.
#[local] Instance rt_os : RelayOS rt_state := {|
  sys_select _ := fun s => let a := negb (bool_decide (rt_typed (rt_rest s) = [])) in (Done (SOk (a, negb a || negb (bool_decide (rt_shown (rt_rest s) = [])))), s);
  tty_get := rt_tty;
  sys_gwinsz := mret (SOk (Winsize 24 80));
  sys_exec _ _ := exit_ 3;
  sys_atexit := mret 0
|}.
#[local] Instance rt_master : PtyMaster rt_state := unix98_master.
#[local] Instance rt_master_spec : PtyMasterSpec := unix98_master_spec (S := rt_state).
Definition rt_view (s : rt_state) : rview :=
  RView (rt_log (rt_rest s)) (length (concat (rt_typed (rt_rest s))) + length (concat (rt_shown (rt_rest s)))).
Lemma rt_keeps_call {A} v (f : Z -> pview termios -> sysres A * pview termios) : keeps (fun s => rt_view s = v) (toy_call f).
Proof. intros [l t] Hs. unfold toy_call. cbn zeta. destruct (_ =? -1); [exact Hs|]. by destruct (f _ _). Qed.
Lemma chunk_tail n l : (length (concat (tail l)) + length (chunk n l) <= length (concat l))%nat.
Proof. destruct l as [|b l]; unfold chunk; cbn; [rewrite take_nil; cbn; lia|]. rewrite length_app, length_take. lia. Qed.
Lemma rt_libc l s : rt_view (set_libc l s) = rt_view s.
Proof. done. Qed.
Lemma rt_keeps_master v n : keeps (fun s => rt_view s = v) (unix98_MasterOpen n : M rt_state _).
Proof.
  assert (Hopen : keeps (fun s => rt_view s = v) (sys_posix_openpt : M rt_state _)) by (intros [l t] Hs; by apply rt_keeps_call).
  assert (Hclose : forall fd, keeps (fun s => rt_view s = v) (sys_close fd : M rt_state _)) by (by intros fd [l t]).
  assert (Hcall : forall A (m : M rt_state (sysres A)), keeps (fun s => rt_view s = v) m -> keeps (fun s => rt_view s = v) (call m)) by (intros A m; apply (keeps_call rt_view rt_libc)).
  assert (Herr : forall e, keeps (fun s => rt_view s = v) (set_errno e : M rt_state _)) by (intros e; apply (keeps_errno rt_view rt_libc)).
  assert (Htoy : forall A f, keeps (fun s => rt_view s = v) (toy_call f : M rt_state (sysres A))) by (intros; apply rt_keeps_call).
  unfold unix98_MasterOpen, close_keep, get_errno. keeps_tac; try apply Hcall; auto; apply Htoy.
Qed.
#[local, refine] Instance rt_spec : RelaySpec rt_state := {| io_view := rt_view |}.
Proof.
  - done.
  - intros. apply rt_keeps_call.
  - by intros v fd [l t].
  - intros. apply rt_keeps_call.
  - intros. apply rt_keeps_call.
  - intros v [l t] Hs. cbn. by destruct (pgrp_leader _).
  - intros. apply rt_keeps_call.
  - intros. apply rt_keeps_call.
  - intros. apply rt_keeps_call.
  - intros v n. apply rt_keeps_master.
  - intros fd n [l t]. cbn. split; [|done]. split; [unfold chunk; rewrite length_take; lia|].
    eexists. split; [|reflexivity]. destruct (fd =? STDIN_FILENO); cbn; unfold rt_rest, rt_set; cbn;
      [pose proof (chunk_tail n (rt_typed (pt_rest t)))|pose proof (chunk_tail n (rt_shown (pt_rest t)))]; lia.
  - intros fd bs [l t]. cbn. split; [|done]. split; [done|]. by rewrite firstn_all.
  - intros fd s. cbn. split; [done|]. by destruct (bool_decide _).
  - intros s t. cbn. unfold rt_tty, toy_view. destruct (fds _ !! _) as [[p|n]|]; try done. destruct (tios _ !! p) as [t'|] eqn:Ht; [|done].
    intros [= ->]. by exists p.
  - done.
  - done.
  - done.
Defined.

(** The terminal types ab and c, the other program shows xy; then it ends. *)
Definition rt_cooked : termios := Termios 0x500 0x5 0xbf 0x8a3b [3; 28; 127; 21; 4; 0; 1; 0].
Definition rt_start (choices : list Z) : rt_state :=
  let '(l, t) := toy_start (T := termios) (RToy [] [str "ab"; str "c"] [str "xy"]) [0; 1; 2] choices in
  (l, PToy (with_tio (str "/dev/pts/0") rt_cooked (pt_view t)) (pt_choices t) (pt_next t) (pt_rest t)).
Lemma relay_programs_correct_witness : exists s',
  script_main (HM := rt_master) pty_strerror 10 [] (rt_start [0; 0; 0; 0; 41]) = (Exited EXIT_SUCCESS, s') /\
  program_ends (HMS := rt_master_spec) (Some (str "typescript")) 10 (rt_start [0; 0; 0; 0; 41]) (EExit EXIT_SUCCESS) s' /\
  rt_log (rt_rest s') = [Rd 0 (str "ab"); Wr 3 (str "ab"); Rd 3 (str "xy"); Wr 1 (str "xy"); Wr 4 (str "xy"); Rd 0 (str "c"); Wr 3 (str "c"); Rd 3 []] /\
  rt_tty s' = SOk rt_cooked.
Proof.
  eexists. split; [vm_compute; reflexivity|]. split; [|split; vm_compute; reflexivity].
  exact (proj1 (relay_programs_correct (HMS := rt_master_spec) pty_strerror 10 [] (str "/dev/pts/0") rt_cooked (rt_start [0; 0; 0; 0; 41])
    ltac:(split; vm_compute; reflexivity) ltac:(by eexists))).
Defined.


(** Without arguments the child of unbuffer calls execvp() with a null pointer. *)
Lemma unbuffer_no_program : exists s', unbuffer_main (HM := rt_master) pty_strerror 10 [] (rt_start []) = (Undefined, s') /\ depth (toy_view s') = 1%nat.
Proof. eexists. split; vm_compute; reflexivity. Qed.
