(* ===== verification/SeqService.v ===== *)
(** Sequence-number servers over TCP: book-src/sockets/is_seqnum_sv.c and is_seqnum_v2_sv.c with their
    clients, and the solution of an exercise, which differs in little. They read a line with
    readLine() of ReadWrite.v; the second ones set up their sockets with InetSockets.v. *)
From S2P Require Import Prelude CLib Sys ErrorFunctions Calls GetNum ReadWrite InetSockets.
#[local] Open Scope Z_scope.

Definition INT_LEN : nat := 30.
Definition PORT_NUM : bytes := str "50000".
Definition BACKLOG : Z := 50.
(** The sizes of the buffers for the address of a peer. *)
Definition ADDRSTRLEN : nat := 1067.
Definition IS_ADDR_STR_LEN : nat := 4096.

(** The calls of a server beyond those on sockets: accept(), with the address of the peer;
    ignoring SIGPIPE; malloc(). *)
Class ServerOS (S : Type) := {
  sys_accept : Z -> M S (sysres (Z * bytes));
  sys_ignore_sigpipe : M S (sysres unit);
  sys_malloc : Z -> M S (sysres unit)
}.

Section programs.
Context {S : Type} `{HL : HasLibc S} `{HO : InetOS S} `{HV : ServerOS S} `{HR : ReadOS S} `{HW : WriteOS S}.
Context (strerror : Z -> bytes).

(** * Servers *)

(** What is sent for [seqNum]: "%d" shows an unsigned number as a signed one. *)
Definition reply (seqNum : Z) : bytes := snprintf INT_LEN (print_dec (i32 seqNum) ++ [newline]).

(** One connection; [seqNum] is the loop variable. *)
(** Source: book-src/sockets/is_seqnum_sv.c:100-139 (main, loop). *)
Definition serve_round (rfuel addrStrLen : nat) (lfd : Z) (seqNum : Z) : M S (Z + Empty_set) :=
  c ← call (sys_accept lfd);
  match c with
  | None => errMsg strerror (str "accept");; mret (inl seqNum)
  | Some (cfd, claddr) =>
      addrStr ← inetAddressStr claddr addrStrLen;
      printf (str "Connection from " ++ addrStr ++ [newline]);;
      r ← call (readLine rfuel cfd false INT_LEN);
      match r with
      | None | Some (_, None) => call (sys_close cfd);; mret (inl seqNum)
      | Some (_, Some reqLenStr) =>
          let reqLen := atoi reqLenStr in
          if reqLen <=? 0 then call (sys_close cfd);; mret (inl seqNum)
          else
            let seqNumStr := reply seqNum in
            w ← call (sys_write cfd seqNumStr);
            when (negb (bool_decide (w = Some (length seqNumStr)))) (eprintf (str "Error on write"));;
            let seqNum := u32 (seqNum + reqLen) in
            c ← call (sys_close cfd);
            when (bool_decide (c = None)) (errMsg strerror (str "close"));;
            mret (inl seqNum)
      end
  end.
Definition server_loop (fuel rfuel addrStrLen : nat) (lfd : Z) (seqNum : Z) : M S Empty_set := iter fuel (serve_round rfuel addrStrLen lfd) seqNum.

(** The first number, from the arguments after the name of the program. *)
Definition init_seq (name : bytes) (argv : list bytes) : M S Z :=
  when (if argv is a :: _ then streq a (str "--help") else false) (usageErr (name ++ str " [init-seq-num]" ++ [newline]));;
  seqNum ← (if argv is a :: _ then getInt (Some a) 0 (Some (str "init-seq-num")) else mret 0);
  echecked strerror sys_ignore_sigpipe (str "signal");;
  mret (u32 seqNum).

(** Source: book-src/sockets/is_seqnum_sv.c:75-90 (main, bind loop). *)
Fixpoint server_walk (result : list addrinfo) : M S (option Z) :=
  match result with
  | [] => mret None
  | rp :: rest =>
      lfd ← call (sys_socket rp);
      match lfd with
      | None => server_walk rest
      | Some lfd =>
          echecked strerror (sys_reuseaddr lfd) (str "setsockopt");;
          b ← call (sys_bind lfd rp);
          match b with
          | Some _ => mret (Some lfd)
          | None => call (sys_close lfd);; server_walk rest
          end
      end
  end.
(** Source: book-src/sockets/is_seqnum_sv.c:30-140 (main). *)
Definition is_seqnum_sv (fuel rfuel : nat) (name : bytes) (argv : list bytes) : M S Empty_set :=
  seqNum ← init_seq name argv;
  g ← sys_getaddrinfo None PORT_NUM (Hints (Z.lor AI_PASSIVE AI_NUMERICSERV) AF_UNSPEC SOCK_STREAM);
  match g with
  | None => errExit strerror (str "getaddrinfo")
  | Some result =>
      lfd ← server_walk result;
      match lfd with
      | None => fatal strerror (str "Could not bind socket to any address")
      | Some lfd =>
          echecked strerror (sys_listen lfd BACKLOG) (str "listen");;
          sys_freeaddrinfo;;
          server_loop fuel rfuel ADDRSTRLEN lfd seqNum
      end
  end.
(** Source: book-src/sockets/is_seqnum_v2_sv.c:27-94 (main). *)
Definition is_seqnum_v2_sv (fuel rfuel : nat) (name : bytes) (argv : list bytes) : M S Empty_set :=
  seqNum ← init_seq name argv;
  l ← inetListen PORT_NUM 5;
  match l with
  | None => fatal strerror (str "inetListen() failed")
  | Some (lfd, addrlen) =>
      echecked strerror (sys_malloc addrlen) (str "malloc");;
      server_loop fuel rfuel IS_ADDR_STR_LEN lfd seqNum
  end.
(** Source: exercises/59-sockets-internet-domains/seqnum2/server.c:7-65 (main). *)
Definition exercise_sv (fuel rfuel : nat) (name : bytes) (argv : list bytes) : M S Empty_set :=
  seqNum ← init_seq name argv;
  l ← inetListen PORT_NUM BACKLOG;
  match l with
  | None => errExit strerror (str "inetListen")
  | Some (lfd, _) => server_loop fuel rfuel ADDRSTRLEN lfd seqNum
  end.

(** * Clients *)

(** The request and the reply, on the connection [cfd]. *)
(** Source: book-src/sockets/is_seqnum_cl.c:71-89 (main, request). *)
Definition request (rfuel : nat) (cfd : Z) (argv : list bytes) : M S Empty_set :=
  let reqLenStr := default (str "1") (argv !! 1%nat) in
  w ← call (sys_write cfd reqLenStr);
  if negb (bool_decide (w = Some (length reqLenStr))) then fatal strerror (str "Partial/failed write (reqLenStr)")
  else
    w ← call (sys_write cfd [newline]);
    if negb (bool_decide (w = Some 1%nat)) then fatal strerror (str "Partial/failed write (newline)")
    else
      numRead ← call (readLine rfuel cfd false INT_LEN);
      match numRead with
      | None => errExit strerror (str "readLine")
      | Some (_, None) => fatal strerror (str "Unexpected EOF from server")
      | Some (_, Some seqNumStr) => printf (str "Sequence number: " ++ seqNumStr);; c_exit EXIT_SUCCESS
      end.
Definition help_or_none (argv : list bytes) : bool := if argv is a :: _ then streq a (str "--help") else true.
(** Source: book-src/sockets/is_seqnum_cl.c:23-90 (main). *)
Definition is_seqnum_cl (rfuel : nat) (name : bytes) (argv : list bytes) : M S Empty_set :=
  if help_or_none argv then usageErr (name ++ str " server-host [sequence-len]" ++ [newline])
  else
    g ← sys_getaddrinfo (argv !! 0%nat) PORT_NUM (Hints AI_NUMERICSERV AF_UNSPEC SOCK_STREAM);
    match g with
    | None => errExit strerror (str "getaddrinfo")
    | Some result =>
        cfd ← connect_walk result;
        match cfd with
        | None => fatal strerror (str "Could not connect socket to any address")
        | Some cfd => sys_freeaddrinfo;; request rfuel cfd argv
        end
    end.
(** Source: book-src/sockets/is_seqnum_v2_cl.c:26-56 (main). *)
Definition is_seqnum_v2_cl (rfuel : nat) (name : bytes) (argv : list bytes) : M S Empty_set :=
  if help_or_none argv then usageErr (name ++ str " server-host [sequence-len]" ++ [newline])
  else
    cfd ← inetConnect (argv !! 0%nat) PORT_NUM SOCK_STREAM;
    match cfd with
    | None => fatal strerror (str "inetConnect() failed")
    | Some cfd => request rfuel cfd argv
    end.
(** Source: exercises/59-sockets-internet-domains/seqnum2/client.c:4-32 (main). *)
Definition exercise_cl (rfuel : nat) (name : bytes) (argv : list bytes) : M S Empty_set :=
  if help_or_none argv then usageErr (name ++ str " server-host [sequence-len]" ++ [newline])
  else
    cfd ← inetConnect (argv !! 0%nat) PORT_NUM SOCK_STREAM;
    match cfd with
    | None => errExit strerror (str "inetConnect")
    | Some cfd => request rfuel cfd argv
    end.
End programs.

(** * What the calls do *)

(** The descriptors of the process, and what it has written, in order. *)
Record sview := SView { s_fds : gset Z; s_log : list (Z * bytes) }.
Definition is_accept (v : sview) (r : sysres (Z * bytes)) (w : sview) : Prop :=
  match r with SOk (fd, _) => fd ∉ s_fds v /\ w = SView ({[ fd ]} ∪ s_fds v) (s_log v) | SErr _ => w = v end.
Definition is_written (fd : Z) (bs : bytes) (v : sview) (r : sysres nat) (w : sview) : Prop :=
  match r with SOk k => (k <= length bs)%nat /\ w = SView (s_fds v) (s_log v ++ [(fd, take k bs)]) | SErr _ => w = v end.
Class ServiceSpec (S : Type) `{HL : HasLibc S} `{HO : InetOS S} `{HV : ServerOS S} `{HR : ReadOS S} `{HW : WriteOS S} := {
  sv : S -> sview;
  sv_libc : forall l s, sv (set_libc l s) = sv s;
  sv_accept : forall fd s, post (fun r s' => is_accept (sv s) r (sv s')) (fun _ _ => False) (sys_accept fd s);
  sv_write : forall fd bs s, post (fun r s' => is_written fd bs (sv s) r (sv s')) (fun _ _ => False) (sys_write fd bs s);
  sv_close : forall fd s, post (fun _ s' => sv s' = SView (s_fds (sv s) ∖ {[ fd ]}) (s_log (sv s))) (fun _ _ => False) (sys_close fd s);
  sv_read : forall fd n s, post (fun _ s' => sv s' = sv s) (fun _ _ => False) (sys_read fd n s);
  sv_getnameinfo : forall s a, post (fun _ s' => sv s' = sv s) (fun _ _ => False) (sys_getnameinfo a s);
  (* Nothing is written before there is a connection. *)
  log_same_getaddrinfo : forall h n i s, post (fun _ s' => s_log (sv s') = s_log (sv s)) (fun _ _ => False) (sys_getaddrinfo h n i s);
  log_same_freeaddrinfo : forall s, post (fun _ s' => s_log (sv s') = s_log (sv s)) (fun _ _ => False) (sys_freeaddrinfo s);
  log_same_socket : forall rp s, post (fun _ s' => s_log (sv s') = s_log (sv s)) (fun _ _ => False) (sys_socket rp s);
  log_same_reuseaddr : forall fd s, post (fun _ s' => s_log (sv s') = s_log (sv s)) (fun _ _ => False) (sys_reuseaddr fd s);
  log_same_bind : forall fd rp s, post (fun _ s' => s_log (sv s') = s_log (sv s)) (fun _ _ => False) (sys_bind fd rp s);
  log_same_connect : forall fd rp s, post (fun _ s' => s_log (sv s') = s_log (sv s)) (fun _ _ => False) (sys_connect fd rp s);
  log_same_listen : forall fd n s, post (fun _ s' => s_log (sv s') = s_log (sv s)) (fun _ _ => False) (sys_listen fd n s);
  log_same_sigpipe : forall s, post (fun _ s' => s_log (sv s') = s_log (sv s)) (fun _ _ => False) (sys_ignore_sigpipe s);
  log_same_malloc : forall n s, post (fun _ s' => s_log (sv s') = s_log (sv s)) (fun _ _ => False) (sys_malloc n s)
}.

(** * Sequences *)

(** A sequence that was granted: the connection, the first number and how many, what was
    written of the reply ([None] after an error). *)
Record grant := Grant { g_fd : Z; g_start : Z; g_len : Z; g_sent : option nat }.
(** Each begins where the one before ended. *)
Fixpoint chain (seq : Z) (gs : list grant) (seq' : Z) : Prop :=
  match gs with
  | [] => seq' = seq
  | g :: gs => g_start g = seq /\ 0 < g_len g <= INT_MAX /\ chain (u32 (seq + g_len g)) gs seq'
  end.
Definition sent (g : grant) : list (Z * bytes) := if g_sent g is Some k then [(g_fd g, take k (reply (g_start g)))] else [].
Definition total (gs : list grant) : Z := foldr (fun g n => g_len g + n) 0 gs.
(** The numbers of a sequence. *)
Definition numbers (g : grant) (x : Z) : Prop := exists i, 0 <= i < g_len g /\ x = u32 (g_start g + i).

#[local] Arguments total : simpl never.
Lemma total_cons g gs : total (g :: gs) = g_len g + total gs.
Proof. done. Qed.
Lemma total_nonneg gs : (forall g, g ∈ gs -> 0 < g_len g) -> 0 <= total gs.
Proof.
  induction gs as [|g gs IH]; intros Hp; [done|]. rewrite total_cons. pose proof (Hp g ltac:(left)).
  specialize (IH ltac:(intros h Hh; apply Hp; by right)). lia.
Qed.
Lemma chain_pos seq gs seq' g : chain seq gs seq' -> g ∈ gs -> 0 < g_len g.
Proof.
  revert seq. induction gs as [|h gs IH]; intros seq Hc Hg; [by apply not_elem_of_nil in Hg|]. destruct Hc as (_ & Hl & Hc).
  apply elem_of_cons in Hg as [->|Hg]; [lia|by eapply IH].
Qed.
Lemma chain_snoc seq gs seq' g : chain seq gs seq' -> g_start g = seq' -> 0 < g_len g <= INT_MAX -> chain seq (gs ++ [g]) (u32 (seq' + g_len g)).
Proof.
  revert seq. induction gs as [|h gs IH]; intros seq; cbn; [intros -> -> Hl; done|]. intros (-> & Hh & Hc) Hg Hl. auto.
Qed.
(** Where a sequence begins: after those before it. *)
Lemma chain_start seq gs seq' j g : chain seq gs seq' -> gs !! j = Some g -> u32 seq = seq -> g_start g = u32 (seq + total (take j gs)).
Proof.
  revert seq j. induction gs as [|h gs IH]; intros seq [|j] Hc Hj Hs; cbn in *; try done.
  - injection Hj as ->. destruct Hc as (-> & _). by rewrite Z.add_0_r.
  - destruct Hc as (_ & Hl & Hc). rewrite (IH _ j Hc Hj) by (unfold u32; apply Z.mod_mod; lia).
    rewrite total_cons. unfold u32, wrap_u. rewrite Zplus_mod_idemp_l. f_equal. lia.
Qed.
Lemma total_take gs i j g : (forall g, g ∈ gs -> 0 < g_len g) -> (i < j)%nat -> gs !! i = Some g -> total (take i gs) + g_len g <= total (take j gs).
Proof.
  revert i j. induction gs as [|h gs IH]; intros [|i] [|j] Hp Hij Hg; try done; try lia; cbn [take lookup list_lookup] in *; rewrite ?total_cons.
  - injection Hg as ->. assert (0 <= total (take j gs)); [|unfold total at 1; cbn; lia]. apply total_nonneg.
    intros x (k & Hk%lookup_take_Some)%list_elem_of_lookup. apply Hp. right. by eapply list_elem_of_lookup_2, Hk.
  - specialize (IH i j ltac:(intros y Hy; apply Hp; by right) ltac:(lia) Hg). lia.
Qed.

(** As long as no more numbers have been granted than there are, they are all different. *)
Lemma numbers_distinct seq gs seq' i j g h x : chain seq gs seq' -> u32 seq = seq -> total gs <= 2 ^ 32 ->
  gs !! i = Some g -> gs !! j = Some h -> i <> j -> numbers g x -> numbers h x -> False.
Proof.
  intros Hc Hs Ht.
  assert (Hlt : forall i j g h, (i < j)%nat -> gs !! i = Some g -> gs !! j = Some h -> numbers g x -> numbers h x -> False).
  { clear i j g h. intros i j g h Hij Hg Hh (a & Ha & Hx) (b & Hb & Hy).
    pose proof (chain_start _ _ _ _ _ Hc Hg Hs) as Hgs. pose proof (chain_start _ _ _ _ _ Hc Hh Hs) as Hhs.
    assert (Hpos : forall g, g ∈ gs -> 0 < g_len g) by (intros y; by apply (chain_pos _ _ _ _ Hc)).
    pose proof (total_take gs i j g Hpos Hij Hg) as Hle.
    assert (Hall : total (take j gs) + g_len h <= total gs).
    { rewrite <- (firstn_all gs) at 2. apply total_take; [done|by eapply lookup_lt_Some|done]. }
    assert (Hn : 0 <= total (take i gs)).
    { apply total_nonneg. intros y (k & Hk%lookup_take_Some)%list_elem_of_lookup. apply Hpos. by eapply list_elem_of_lookup_2, Hk. }
    set (n := total (take i gs)) in *. set (m := total (take j gs)) in *.
    rewrite Hgs in Hx. rewrite Hhs in Hy. unfold u32, wrap_u in *. rewrite Zplus_mod_idemp_l in Hx, Hy. rewrite Hx in Hy.
    rewrite <- (Z.add_assoc seq n a), <- (Z.add_assoc seq m b) in Hy.
    assert (Hd : (m + b - (n + a)) mod 2 ^ 32 = 0).
    { replace (m + b - (n + a)) with ((seq + (m + b)) - (seq + (n + a))) by lia. rewrite Zminus_mod, Hy, Z.sub_diag. done. }
    rewrite Z.mod_small in Hd; lia. }
  intros Hg Hh Hij Hx Hy. destruct (Nat.lt_total i j) as [Hl|[->|Hl]]; [|done|]; eauto.
Qed.

(** * What the servers do *)

Section proofs.
Context {S : Type} `{HL : HasLibc S} `{HO : InetOS S} `{HV : ServerOS S} `{HR : ReadOS S} `{HW : WriteOS S} `{HS : !ServiceSpec S}.
Context (strerror : Z -> bytes).

Lemma iter_same {X R} (body : X -> M S (X + R)) fuel x s :
  (forall x s, post (fun _ s' => sv s' = sv s) (fun _ _ => False) (body x s)) ->
  post (fun _ s' => sv s' = sv s) (fun e s' => e = EFuel /\ sv s' = sv s) (iter fuel body x s).
Proof.
  intros Hb. revert x s. induction fuel as [|fuel IH]; intros x s; cbn [iter]; [done|]. apply post_bind.
  eapply post_mono; [| |exact (Hb x s)]; [|done]. intros [x'|r] s1 Hs1; [|done].
  eapply post_mono; [| |exact (IH x' s1)]; [intros; congruence|]. intros e s2 [-> Hs2]. split; [done|congruence].
Qed.
Lemma readLine_same fuel fd n s : post (fun _ s' => sv s' = sv s) (fun e s' => e = EFuel /\ sv s' = sv s) (readLine fuel fd false n s).
Proof.
  unfold readLine. destruct (_ || false)%bool; [done|]. apply iter_same. intros [tot buf] s1. apply post_bind.
  eapply post_mono; [| |apply sv_read]; [|done]. intros [[|c bs]|e] s2 Hs2.
  - by destruct (tot =? 0)%nat.
  - destruct (tot <? n - 1)%nat; by destruct (ceq c newline).
  - by destruct (e =? EINTR).
Qed.

Lemma errMsg_bind {B} msg (k : M S B) s Q E : (forall s', sv s' = sv s -> post Q E (k s')) -> post Q E ((errMsg strerror msg;; k) s).
Proof.
  intros Hk. apply post_bind. destruct (errMsg_correct strerror msg s) as [-> _]. cbn. apply Hk. apply sv_libc.
Qed.

(** What a connection is granted: nothing, or one sequence. *)
Definition served (seq : Z) (s : S) (r : Z + Empty_set) (s' : S) : Prop :=
  exists seq' gs, r = inl seq' /\ chain seq gs seq' /\ sv s' = SView (s_fds (sv s)) (s_log (sv s) ++ (gs ≫= sent)).
Definition at_most_one_more (fds fds' : gset Z) : Prop := fds' = fds \/ exists cfd, fds' = {[ cfd ]} ∪ fds.
Definition out_of_fuel (s : S) (e : ending) (s' : S) : Prop :=
  e = EFuel /\ s_log (sv s') = s_log (sv s) /\ at_most_one_more (s_fds (sv s)) (s_fds (sv s')).

Lemma served_none seq s s' : sv s' = sv s -> served seq s (inl seq) s'.
Proof. intros Hs. exists seq, []. split_and!; [done|done|]. rewrite Hs. cbn. rewrite app_nil_r. by destruct (sv s). Qed.
(** The descriptor of the connection is closed again. *)
Lemma close_conn {B} cfd fds l (k : option unit -> M S B) s Q E : cfd ∉ fds -> sv s = SView ({[ cfd ]} ∪ fds) l ->
  (forall o s', sv s' = SView fds l -> post Q E (k o s')) -> post Q E ((call (sys_close cfd) ≫= k) s).
Proof.
  intros Hn Hs Hk. apply (viewed_bind sv sv_libc _ _ _ (fun _ w => w = SView (s_fds (sv s) ∖ {[ cfd ]}) (s_log (sv s)))); [exact (sv_close cfd s)|..];
    intros x s' Hs'; apply Hk; rewrite Hs', Hs; cbn; f_equal; by apply union_singleton_minus.
Qed.

Lemma serve_round_spec rfuel alen lfd seq s : post (served seq s) (out_of_fuel s) (serve_round strerror rfuel alen lfd seq s).
Proof.
  unfold serve_round. apply (viewed_bind sv sv_libc _ _ _ _ _ _ (sv_accept lfd s)).
  2:{ intros e s1 Hs1. apply errMsg_bind. intros s2 Hs2. apply served_none. cbn in Hs1. congruence. }
  intros [cfd claddr] s1 [Hn Hs1]. unfold inetAddressStr. rewrite bind_bind. apply post_bind.
  eapply post_mono; [| |apply sv_getnameinfo]; [|done]. intros nm s2 Hs2. rewrite mret_bind. apply post_bind. cbn [printf modify post].
  set (s3 := set_libc _ s2). assert (Hs3 : sv s3 = SView ({[ cfd ]} ∪ s_fds (sv s)) (s_log (sv s))) by (unfold s3; rewrite sv_libc; congruence).
  clearbody s3. clear Hs2 s2 Hs1 s1 nm.
  apply post_bind. eapply post_mono; [| |exact (call_post sv sv_libc _ _ _ _ (readLine_same rfuel cfd INT_LEN s3))].
  2:{ intros e s4 [-> Hs4]. split; [done|]. rewrite Hs4, Hs3. split; [done|]. right. by exists cfd. }
  intros r s4 Hr. assert (Hs4 : sv s4 = SView ({[ cfd ]} ∪ s_fds (sv s)) (s_log (sv s))).
  { destruct Hr as (s5 & Hv & Hr). destruct r as [a|]; [destruct Hr as [Hr ->]; congruence|]. destruct Hr as (e & Hr & _). congruence. }
  assert (Hno : post (served seq s) (out_of_fuel s) ((call (sys_close cfd);; mret (inl seq)) s4)).
  { apply (close_conn cfd (s_fds (sv s)) (s_log (sv s))); [done|done|]. intros o s5 Hs5. apply served_none. rewrite Hs5. by destruct (sv s). }
  destruct r as [[n [line|]]|]; [|exact Hno..]. cbn zeta. destruct (Z.leb_spec (atoi line) 0) as [Hl|Hl]; [exact Hno|]. clear Hno Hr.
  assert (Hmax : atoi line <= INT_MAX) by (apply i32_range).
  assert (Hend : forall k s5, sv s5 = SView ({[ cfd ]} ∪ s_fds (sv s)) (s_log (sv s) ++ sent (Grant cfd seq (atoi line) k)) ->
    forall b, post (served seq s) (out_of_fuel s)
      ((when b (eprintf (str "Error on write"));;
        c ← call (sys_close cfd); when (bool_decide (c = None)) (errMsg strerror (str "close"));; mret (inl (u32 (seq + atoi line)))) s5)).
  { intros k s5 Hs5 b. apply post_bind.
    assert (Hw : post (fun _ s' => sv s' = sv s5) (fun _ _ => False) (when b (eprintf (str "Error on write")) s5)) by (destruct b; [apply sv_libc|done]).
    eapply post_mono; [| |exact Hw]; [|done]. intros u6 s6 Hs6. rewrite Hs5 in Hs6.
    apply (close_conn cfd (s_fds (sv s)) _ _ _ _ _ Hn Hs6). intros o s7 Hs7.
    assert (Hdone : forall s8, sv s8 = sv s7 -> served seq s (inl (u32 (seq + atoi line))) s8).
    { intros s8 Hs8. exists (u32 (seq + atoi line)), [Grant cfd seq (atoi line) k]. split_and!; [done|by cbn|]. rewrite Hs8, Hs7. cbn. by rewrite app_nil_r. }
    destruct (bool_decide _); cbn [when].
    - apply errMsg_bind. intros s8 Hs8. by apply Hdone.
    - by apply Hdone. }
  apply (viewed_bind sv sv_libc _ _ _ _ _ _ (sv_write cfd (reply seq) s4)).
  - intros k s5 [Hk Hs5]. apply (Hend (Some k)). rewrite Hs5, Hs4. done.
  - intros e s5 Hs5. apply (Hend None). cbn in Hs5. rewrite Hs5, Hs4. cbn. by rewrite app_nil_r.
Qed.

(** The loop ends only with its fuel; the sequences it has granted follow each other. *)
Lemma server_loop_spec fuel rfuel alen lfd seq s :
  post (fun _ _ => False) (fun e s' => e = EFuel /\ at_most_one_more (s_fds (sv s)) (s_fds (sv s')) /\
      exists gs seq', chain seq gs seq' /\ s_log (sv s') = s_log (sv s) ++ (gs ≫= sent))
    (server_loop strerror fuel rfuel alen lfd seq s).
Proof.
  unfold server_loop. revert seq s. induction fuel as [|fuel IH]; intros seq s; cbn [iter].
  - split; [done|]. split; [by left|]. exists [], seq. cbn. by rewrite app_nil_r.
  - apply post_bind. eapply post_mono; [| |apply serve_round_spec].
    + intros r s1 (seq1 & gs & -> & Hc & Hs1). eapply post_mono; [| |exact (IH seq1 s1)]; [done|].
      intros e s2 (-> & Hf & gs' & seq' & Hc' & Hs2). rewrite Hs1 in Hf, Hs2. cbn in Hf, Hs2. split; [done|]. split; [done|].
      exists (gs ++ gs'), seq'. rewrite bind_app, app_assoc. split; [|done]. clear -Hc Hc'. revert seq Hc. induction gs as [|g gs IH]; intros seq Hc; cbn in *; [congruence|].
      destruct Hc as (Hg & Hl & Hc). auto.
    + intros e s1 (-> & Hl & Hf). split; [done|]. split; [done|]. exists [], seq. cbn. by rewrite app_nil_r.
Qed.

(** ** Setting up *)

Lemma log_libc l x s : s_log (sv (set_libc l s)) = x <-> s_log (sv s) = x.
Proof. by rewrite sv_libc. Qed.
Lemma log_call {A} l (m : M S (sysres A)) : keeps (fun s => s_log (sv s) = l) m -> keeps (fun s => s_log (sv s) = l) (call m).
Proof. apply (keeps_call (fun s => s_log (sv s))). intros. by rewrite sv_libc. Qed.
Lemma log_errno l e : keeps (fun s => s_log (sv s) = l) (set_errno e).
Proof. intros s Hs. by apply log_libc. Qed.
Lemma log_errExit {A} l msg : keeps (fun s => s_log (sv s) = l) (errExit strerror msg : M S A).
Proof. intros s Hs. eapply post_mono; [| |apply (errExit_stops strerror sv sv_libc)]; [intros ? ? Hq; exact Hq|]. intros e s' [_ Hs']. congruence. Qed.
Lemma log_fatal {A} l msg : keeps (fun s => s_log (sv s) = l) (fatal strerror msg : M S A).
Proof. intros s Hs. eapply post_mono; [| |apply (fatal_stops strerror sv sv_libc)]; [intros ? ? Hq; exact Hq|]. intros e s' [_ Hs']. congruence. Qed.
Lemma log_usageErr {A} l msg : keeps (fun s => s_log (sv s) = l) (usageErr msg : M S A).
Proof. intros s Hs. eapply post_mono; [| |apply (usageErr_stops sv sv_libc)]; [intros ? ? Hq; exact Hq|]. intros e s' [_ Hs']. congruence. Qed.
Lemma log_checked {A} l (m : M S (sysres A)) msg : keeps (fun s => s_log (sv s) = l) m -> keeps (fun s => s_log (sv s) = l) (echecked strerror m msg).
Proof. intros Hm. unfold echecked, checked_by. apply keeps_bind; [by apply log_call|]. intros [a|]; [apply keeps_ret|apply log_errExit]. Qed.
(** A computation that writes nothing and returns. *)
Definition silent {A} (m : M S A) : Prop := forall s, post (fun _ s' => s_log (sv s') = s_log (sv s)) (fun _ _ => False) (m s).
Lemma silent_keeps {A} l (m : M S A) : silent m -> keeps (fun s => s_log (sv s) = l) m.
Proof. intros Hm s <-. eapply post_mono; [| |exact (Hm s)]; done. Qed.
Lemma log_getaddrinfo l h n i : keeps (fun s => s_log (sv s) = l) (sys_getaddrinfo h n i).
Proof. apply silent_keeps. intros s. apply log_same_getaddrinfo. Qed.
Lemma log_freeaddrinfo l : keeps (fun s => s_log (sv s) = l) (sys_freeaddrinfo).
Proof. apply silent_keeps. intros s. apply log_same_freeaddrinfo. Qed.
Lemma log_socket l rp : keeps (fun s => s_log (sv s) = l) (sys_socket rp).
Proof. apply silent_keeps. intros s. apply log_same_socket. Qed.
Lemma log_reuseaddr l fd : keeps (fun s => s_log (sv s) = l) (sys_reuseaddr fd).
Proof. apply silent_keeps. intros s. apply log_same_reuseaddr. Qed.
Lemma log_bind l fd rp : keeps (fun s => s_log (sv s) = l) (sys_bind fd rp).
Proof. apply silent_keeps. intros s. apply log_same_bind. Qed.
Lemma log_connect l fd rp : keeps (fun s => s_log (sv s) = l) (sys_connect fd rp).
Proof. apply silent_keeps. intros s. apply log_same_connect. Qed.
Lemma log_listen l fd n : keeps (fun s => s_log (sv s) = l) (sys_listen fd n).
Proof. apply silent_keeps. intros s. apply log_same_listen. Qed.
Lemma log_sigpipe l : keeps (fun s => s_log (sv s) = l) (sys_ignore_sigpipe).
Proof. apply silent_keeps. intros s. apply log_same_sigpipe. Qed.
Lemma log_malloc l n : keeps (fun s => s_log (sv s) = l) (sys_malloc n).
Proof. apply silent_keeps. intros s. apply log_same_malloc. Qed.
#[local] Hint Resolve log_call log_errno log_errExit log_fatal log_usageErr log_checked log_getaddrinfo log_freeaddrinfo log_socket log_reuseaddr
  log_bind log_connect log_listen log_sigpipe log_malloc : triple.
Lemma log_close l fd : keeps (fun s => s_log (sv s) = l) (sys_close fd).
Proof. intros s Hs. eapply post_mono; [| |apply sv_close]; [|done]. intros r s' ->. exact Hs. Qed.
#[local] Hint Resolve log_close : triple.
Lemma log_getInt l a flags name : keeps (fun s => s_log (sv s) = l) (getInt a flags name).
Proof. unfold getInt, getNum, gnFail, c_exit, fflush_stdout, eprintf. keeps_tac; try apply keeps_modify; intros; by apply log_libc. Qed.
#[local] Hint Resolve log_getInt : triple.
Lemma log_init l name argv : keeps (fun s => s_log (sv s) = l) (init_seq strerror name argv).
Proof. unfold init_seq. keeps_tac. Qed.

(** How a server ends: it has granted sequences that follow each other, and written nothing but
    their beginnings; if there are any it would have gone on. *)
Definition server_ends (s : S) (e : ending) (s' : S) : Prop :=
  exists seq gs seq', u32 seq = seq /\ chain seq gs seq' /\ s_log (sv s') = s_log (sv s) ++ (gs ≫= sent) /\ (gs <> [] -> e = EFuel).
Lemma ends_nothing s e s' : s_log (sv s') = s_log (sv s) -> server_ends s e s'.
Proof. intros Hs. exists 0, [], 0. cbn. by rewrite app_nil_r. Qed.
Lemma setup_bind {A} (m : M S A) (k : A -> M S Empty_set) s s1 :
  s_log (sv s1) = s_log (sv s) -> keeps (fun x => s_log (sv x) = s_log (sv s)) m ->
  (forall a s', s_log (sv s') = s_log (sv s) -> post (fun _ _ => False) (server_ends s) (k a s')) ->
  post (fun _ _ => False) (server_ends s) ((m ≫= k) s1).
Proof.
  intros H1 Hm Hk. apply post_bind. eapply post_mono; [| |exact (Hm s1 H1)]; [exact Hk|]. intros e s'. apply ends_nothing.
Qed.
Lemma setup_stop (m : M S Empty_set) s s1 : s_log (sv s1) = s_log (sv s) -> keeps (fun x => s_log (sv x) = s_log (sv s)) m ->
  post (fun _ _ => False) (server_ends s) (m s1).
Proof. intros H1 Hm. eapply post_mono; [| |exact (Hm s1 H1)]; [by intros []|]. intros e s'. apply ends_nothing. Qed.
Lemma setup_loop fuel rfuel alen lfd seq s s1 : s_log (sv s1) = s_log (sv s) -> u32 seq = seq ->
  post (fun _ _ => False) (server_ends s) (server_loop strerror fuel rfuel alen lfd seq s1).
Proof.
  intros H1 Hu. eapply post_mono; [| |apply server_loop_spec]; [done|]. intros e s' (-> & _ & gs & seq' & Hc & Hs). exists seq, gs, seq'. rewrite <- H1. auto.
Qed.
Lemma setup_seq name argv (k : Z -> M S Empty_set) s :
  (forall seq s', u32 seq = seq -> s_log (sv s') = s_log (sv s) -> post (fun _ _ => False) (server_ends s) (k seq s')) ->
  post (fun _ _ => False) (server_ends s) ((init_seq strerror name argv ≫= k) s).
Proof.
  intros Hk. unfold init_seq. rewrite bind_bind. apply setup_bind; [done|keeps_tac|]. intros _ s1 H1. rewrite bind_bind. apply setup_bind; [done|keeps_tac|].
  intros z s2 H2. rewrite bind_bind. apply setup_bind; [done|keeps_tac|]. intros _ s3 H3. rewrite mret_bind. apply Hk; [|done].
  unfold u32, wrap_u. apply Z.mod_mod. lia.
Qed.
Lemma log_server_walk l addrs : keeps (fun s => s_log (sv s) = l) (server_walk strerror addrs).
Proof. induction addrs as [|rp addrs IH]; cbn [server_walk]; keeps_tac; done. Qed.
Lemma log_bind_walk l d addrs : keeps (fun s => s_log (sv s) = l) (bind_walk d addrs).
Proof. induction addrs as [|rp addrs IH]; cbn [bind_walk]; keeps_tac; done. Qed.
Lemma log_inetListen l service n : keeps (fun s => s_log (sv s) = l) (inetListen service n).
Proof. unfold inetListen, inetPassiveSocket. keeps_tac; apply log_bind_walk. Qed.

Lemma sv_ends fuel rfuel name argv s : post (fun _ _ => False) (server_ends s) (is_seqnum_sv strerror fuel rfuel name argv s).
Proof.
  apply setup_seq. intros seq s1 Hu H1. apply setup_bind; [done|keeps_tac|]. intros [addrs|] s2 H2; [|apply setup_stop; [done|keeps_tac]].
  apply setup_bind; [done|apply log_server_walk|]. intros [lfd|] s3 H3; [|apply setup_stop; [done|keeps_tac]].
  apply setup_bind; [done|keeps_tac|]. intros _ s4 H4. apply setup_bind; [done|keeps_tac|]. intros _ s5 H5. by apply setup_loop.
Qed.
Lemma v2_sv_ends fuel rfuel name argv s : post (fun _ _ => False) (server_ends s) (is_seqnum_v2_sv strerror fuel rfuel name argv s).
Proof.
  apply setup_seq. intros seq s1 Hu H1. apply setup_bind; [done|apply log_inetListen|]. intros [[lfd len]|] s2 H2; [|apply setup_stop; [done|keeps_tac]].
  apply setup_bind; [done|keeps_tac|]. intros _ s3 H3. by apply setup_loop.
Qed.
Lemma exercise_sv_ends fuel rfuel name argv s : post (fun _ _ => False) (server_ends s) (exercise_sv strerror fuel rfuel name argv s).
Proof.
  apply setup_seq. intros seq s1 Hu H1. apply setup_bind; [done|apply log_inetListen|]. intros [[lfd len]|] s2 H2; [|apply setup_stop; [done|keeps_tac]].
  by apply setup_loop.
Qed.

(** ** Requests and replies *)

Lemma dec_digits_length fuel k n : 0 <= n < 10 ^ Z.of_nat (Datatypes.S k) -> (length (dec_digits fuel n) <= Datatypes.S k)%nat.
Proof.
  revert fuel n. induction k as [|k IH]; intros fuel n Hn; (destruct fuel as [|fuel]; cbn [dec_digits]; [cbn; lia|]);
    destruct (Z.ltb_spec n 10) as [Hl|Hl]; try (cbn; lia).
  rewrite length_app. assert (length (dec_digits fuel (n / 10)) <= Datatypes.S k)%nat; [|cbn; lia]. apply IH.
    split; [apply Z.div_pos; lia|]. apply Z.div_lt_upper_bound; [lia|]. rewrite <- Z.pow_succ_r, <- Nat2Z.inj_succ by lia. lia.
Qed.
Lemma print_line z : INT_MIN <= z <= INT_MAX -> (length (print_dec z) <= 11)%nat /\ newline ∉ print_dec z.
Proof.
  intros Hz. assert (Hn : forall n, 0 <= n <= 2147483648 -> (length (print_nonneg n) <= 10)%nat /\ newline ∉ print_nonneg n).
  { intros n Hn. split; [apply (dec_digits_length _ 9); change (10 ^ Z.of_nat 10) with 10000000000; lia|]. intros Hin. pose proof (print_nonneg_digits n ltac:(lia)) as Hd.
    rewrite Forall_forall in Hd. specialize (Hd newline Hin). by vm_compute in Hd. }
  unfold print_dec, INT_MIN, INT_MAX in *. destruct (Z.ltb_spec z 0).
  - destruct (Hn (- z) ltac:(lia)) as [H1 H2]. split; [cbn [length]; lia|]. rewrite elem_of_cons. by intros [?|?].
  - destruct (Hn z ltac:(lia)) as [H1 H2]. split; [lia|done].
Qed.
(** A request is read as the number that was asked for, and a reply is one line. *)
Lemma print_line_read z rest : INT_MIN <= z <= INT_MAX ->
  (readLine_result INT_LEN (print_dec z ++ newline :: rest)).2 = Some (print_dec z ++ [newline]) /\ atoi (print_dec z ++ [newline]) = z.
Proof.
  intros Hz. destruct (print_line z Hz) as [Hl Hn]. split; [|by apply atoi_print].
  unfold readLine_result. rewrite line_of_newline by done. rewrite bool_decide_eq_false_2.
  - cbn. by rewrite take_ge by (rewrite length_app; cbn; lia).
  - intros [_ Hx]. apply Hx. set_solver.
Qed.
Lemma reply_line seq : reply seq = print_dec (i32 seq) ++ [newline].
Proof.
  unfold reply, snprintf. destruct (print_line (i32 seq) (i32_range seq)) as [Hl _]. rewrite take_ge; [done|]. rewrite length_app. cbn. lia.
Qed.


(** ** Clients *)

(** What a client has written on its connection is a beginning of its request, and the whole request
    in two parts if it ends with success. *)
Definition client_ends (req : bytes) (s : S) (e : ending) (s' : S) : Prop :=
  exists cfd ls, s_log (sv s') = s_log (sv s) ++ ((fun b => (cfd, b)) <$> ls) /\ concat ls `prefix_of` req ++ [newline] /\
    (e = EExit EXIT_SUCCESS -> ls = [req; [newline]]).
(** A failure in the middle. *)
Lemma client_stop req s s1 cfd ls (m : M S Empty_set) :
  s_log (sv s1) = s_log (sv s) ++ ((fun b => (cfd, b)) <$> ls) -> concat ls `prefix_of` req ++ [newline] ->
  post (fun _ _ => False) (stops sv s1) (m s1) -> post (fun _ _ => False) (client_ends req s) (m s1).
Proof.
  intros Hl Hp Hm. eapply post_mono; [| |exact Hm]; [done|]. intros e s' [He Hs]. exists cfd, ls. rewrite Hs. split_and!; [done|done|].
  intros ->. by destruct He.
Qed.
Lemma request_spec rfuel cfd argv s :
  post (fun _ _ => False) (client_ends (default (str "1") (argv !! 1%nat)) s) (request strerror rfuel cfd argv s).
Proof.
  unfold request. cbn zeta. set (req := default (str "1") (argv !! 1%nat)).
  apply (viewed_bind sv sv_libc _ _ _ _ _ _ (sv_write cfd req s)).
  2:{ intros e s1 Hs1. cbn in Hs1. rewrite bool_decide_eq_false_2 by done. cbn [negb].
      apply (client_stop req s s1 cfd []); [by rewrite Hs1, app_nil_r|apply prefix_nil|apply (fatal_stops strerror sv sv_libc)]. }
  intros k s1 [Hk Hs1]. case_bool_decide as Hw; cbn [negb].
  2:{ apply (client_stop req s s1 cfd [take k req]); [by rewrite Hs1|cbn; rewrite app_nil_r; apply prefix_app_r, prefix_take|apply (fatal_stops strerror sv sv_libc)]. }
  injection Hw as ->. rewrite firstn_all in Hs1. clear Hk.
  apply (viewed_bind sv sv_libc _ _ _ _ _ _ (sv_write cfd [newline] s1)).
  2:{ intros e s2 Hs2. cbn in Hs2. rewrite bool_decide_eq_false_2 by done. cbn [negb].
      apply (client_stop req s s2 cfd [req]); [by rewrite Hs2, Hs1|cbn; rewrite app_nil_r; by apply prefix_app_r|apply (fatal_stops strerror sv sv_libc)]. }
  intros k s2 [Hk Hs2]. rewrite Hs1 in Hs2. cbn [s_fds s_log] in Hs2. case_bool_decide as Hw; cbn [negb].
  2:{ assert (k = 0%nat) as -> by (cbn in Hk; destruct k as [|[|k]]; [done|by destruct Hw|lia]).
      apply (client_stop req s s2 cfd [req; []]); [rewrite Hs2; cbn; by rewrite <- app_assoc|cbn; rewrite app_nil_r; by apply prefix_app_r|apply (fatal_stops strerror sv sv_libc)]. }
  injection Hw as ->. cbn [take] in Hs2. rewrite <- app_assoc in Hs2.
  assert (Hs2' : forall s3, sv s3 = sv s2 -> s_log (sv s3) = s_log (sv s) ++ ((fun b => (cfd, b)) <$> [req; [newline]])) by (intros s3 ->; by rewrite Hs2).
  assert (Hp : concat [req; [newline]] `prefix_of` req ++ [newline]) by done.
  apply post_bind. eapply post_mono; [| |exact (call_post sv sv_libc _ _ _ _ (readLine_same rfuel cfd INT_LEN s2))].
  2:{ intros e s3 [-> Hs3]. exists cfd, [req; [newline]]. split_and!; [by apply Hs2'|done|done]. }
  intros r s3 Hr. assert (Hs3 : sv s3 = sv s2).
  { destruct Hr as (s4 & Hv & Hr). destruct r as [a|]; [destruct Hr as [Hr ->]; congruence|]. destruct Hr as (e & Hr & _). congruence. }
  destruct r as [[n [line|]]|].
  - exists cfd, [req; [newline]]. split_and!; [|done|done]. apply Hs2'. cbn. by rewrite !sv_libc.
  - eapply client_stop; [by apply Hs2'|done|apply (fatal_stops strerror sv sv_libc)].
  - eapply client_stop; [by apply Hs2'|done|apply (errExit_stops strerror sv sv_libc)].
Qed.

(** Nothing is written before the connection. *)
Lemma client_bind {A} req (m : M S A) (k : A -> M S Empty_set) s s1 :
  s_log (sv s1) = s_log (sv s) -> post (fun _ s' => s_log (sv s') = s_log (sv s)) (fun e s' => e <> EExit EXIT_SUCCESS /\ s_log (sv s') = s_log (sv s)) (m s1) ->
  (forall a s', s_log (sv s') = s_log (sv s) -> post (fun _ _ => False) (client_ends req s) (k a s')) ->
  post (fun _ _ => False) (client_ends req s) ((m ≫= k) s1).
Proof.
  intros H1 Hm Hk. apply post_bind. eapply post_mono; [exact Hk| |exact Hm]. intros e s' [He Hs]. exists 0, []. rewrite app_nil_r.
  split_and!; [done|apply prefix_nil|by intros ->].
Qed.
Lemma client_request req rfuel cfd argv s s1 : req = default (str "1") (argv !! 1%nat) -> s_log (sv s1) = s_log (sv s) ->
  post (fun _ _ => False) (client_ends req s) (request strerror rfuel cfd argv s1).
Proof.
  intros -> H1. eapply post_mono; [| |apply request_spec]; [done|]. intros e s' (c & ls & Hl & Hp & He). exists c, ls. rewrite <- H1. done.
Qed.
Lemma client_early req s s1 (m : M S Empty_set) : s_log (sv s1) = s_log (sv s) -> post (fun _ _ => False) (stops sv s1) (m s1) ->
  post (fun _ _ => False) (client_ends req s) (m s1).
Proof. intros H1. apply (client_stop req s s1 0 []); [by rewrite app_nil_r|apply prefix_nil]. Qed.

Lemma unwritten_bind {A B} (m : M S A) (k : A -> M S B) : silent m -> (forall a, silent (k a)) -> silent (m ≫= k).
Proof.
  intros Hm Hk s. apply post_bind. eapply post_mono; [| |exact (Hm s)]; [|done]. intros a s1 Hs1. eapply post_mono; [| |exact (Hk a s1)]; [|done].
  intros b s2 Hs2. congruence.
Qed.
Lemma unwritten_ret {A} (a : A) : silent (mret a).
Proof. by intros s. Qed.
Lemma silent_errno e : silent (set_errno e).
Proof. intros s. by apply log_libc. Qed.
Lemma unwritten_call {A} (m : M S (sysres A)) : silent m -> silent (call m).
Proof. intros Hm. unfold call. apply unwritten_bind; [done|]. intros [a|e]; [apply unwritten_ret|]. apply unwritten_bind; [apply silent_errno|intros; apply unwritten_ret]. Qed.
Lemma silent_close fd : silent (sys_close fd).
Proof. intros s. eapply post_mono; [| |apply sv_close]; [|done]. by intros r s' ->. Qed.
Lemma silent_connect_walk addrs : silent (connect_walk addrs).
Proof.
  induction addrs as [|rp addrs IH]; cbn [connect_walk]; [apply unwritten_ret|]. apply unwritten_bind; [apply unwritten_call; intros s; apply log_same_socket|].
  intros [fd|]; [|done]. apply unwritten_bind; [apply unwritten_call; intros s; apply log_same_connect|]. intros [u|]; [apply unwritten_ret|].
  apply unwritten_bind; [apply unwritten_call, silent_close|done].
Qed.
Lemma silent_inetConnect h sv' ty : silent (inetConnect h sv' ty).
Proof.
  unfold inetConnect. apply unwritten_bind; [intros s; apply log_same_getaddrinfo|]. intros [l|].
  - apply unwritten_bind; [apply silent_connect_walk|]. intros fd. apply unwritten_bind; [intros s; apply log_same_freeaddrinfo|intros; apply unwritten_ret].
  - apply unwritten_bind; [apply silent_errno|intros; apply unwritten_ret].
Qed.
Lemma client_silent {A} req (m : M S A) (k : A -> M S Empty_set) s s1 : s_log (sv s1) = s_log (sv s) -> silent m ->
  (forall a s', s_log (sv s') = s_log (sv s) -> post (fun _ _ => False) (client_ends req s) (k a s')) ->
  post (fun _ _ => False) (client_ends req s) ((m ≫= k) s1).
Proof. intros H1 Hm. apply client_bind; [done|]. eapply post_mono; [| |exact (Hm s1)]; [|done]. intros a s' Hs'. congruence. Qed.

(** The three clients end with success only if they have sent their whole request and have read a
    line; they never write anything but a beginning of the request, and that on one connection. *)
Theorem seqnum_clients_correct rfuel name argv s :
  let req := default (str "1") (argv !! 1%nat) in
  post (fun _ _ => False) (client_ends req s) (is_seqnum_cl strerror rfuel name argv s) /\
  post (fun _ _ => False) (client_ends req s) (is_seqnum_v2_cl strerror rfuel name argv s) /\
  post (fun _ _ => False) (client_ends req s) (exercise_cl strerror rfuel name argv s).
Proof.
  unfold is_seqnum_cl, is_seqnum_v2_cl, exercise_cl. cbn zeta.
  destruct (help_or_none argv); [split_and!; apply client_early; try done; apply (usageErr_stops sv sv_libc)|]. split_and!.
  - apply client_silent; [done|intros s1; apply log_same_getaddrinfo|]. intros [addrs|] s1 H1; [|by apply client_early; [|apply (errExit_stops strerror sv sv_libc)]].
    apply client_silent; [done|apply silent_connect_walk|]. intros [cfd|] s2 H2; [|by apply client_early; [|apply (fatal_stops strerror sv sv_libc)]].
    apply client_silent; [done|intros s3; apply log_same_freeaddrinfo|]. intros _ s3 H3. by apply client_request.
  - apply client_silent; [done|apply silent_inetConnect|]. intros [cfd|] s1 H1; [by apply client_request|].
    by apply client_early; [|apply (fatal_stops strerror sv sv_libc)].
  - apply client_silent; [done|apply silent_inetConnect|]. intros [cfd|] s1 H1; [by apply client_request|].
    by apply client_early; [|apply (errExit_stops strerror sv sv_libc)].
Qed.
End proofs.

(** * A small system *)

(** The lines that clients will send, one connection after the other. *)
Record qtoy := QToy { q_conns : list bytes; q_in : bytes; q_view : sview }.
Definition q_state : Type := libc * qtoy.
Definition q_get {A} (a : A) : M q_state A := mret a.
#[local] Instance q_inet : InetOS q_state := {|
  sys_getaddrinfo _ _ _ := q_get (Some [AddrInfo 2 1 6 (str "0.0.0.0") 16]);
  sys_freeaddrinfo := q_get tt;
  sys_socket _ := q_get (SOk 3);
  sys_connect _ _ := q_get (SOk tt);
  sys_bind _ _ := q_get (SOk tt);
  sys_reuseaddr _ := q_get (SOk tt);
  sys_listen _ _ := q_get (SOk tt);
  sys_close fd := fun '(l, t) => (Done (SOk tt), (l, QToy (q_conns t) (q_in t) (SView (s_fds (q_view t) ∖ {[ fd ]}) (s_log (q_view t)))));
  sys_getnameinfo a := q_get (Some (a, str "7"))
|}.
#[local] Instance q_server : ServerOS q_state := {|
  sys_accept _ := fun '(l, t) =>
    match q_conns t with
    | c :: cs => if bool_decide (4 ∈ s_fds (q_view t)) then (Done (SErr EBADF), (l, t))
                 else (Done (SOk (4, str "peer")), (l, QToy cs c (SView ({[ 4 ]} ∪ s_fds (q_view t)) (s_log (q_view t)))))
    | [] => (Done (SErr EINVAL), (l, t))
    end;
  sys_ignore_sigpipe := q_get (SOk tt);
  sys_malloc _ := q_get (SOk tt)
|}.
#[local] Instance q_read : ReadOS q_state := fun _ n '(l, t) => (Done (SOk (take n (q_in t))), (l, QToy (q_conns t) (drop n (q_in t)) (q_view t))).
#[local] Instance q_write : WriteOS q_state := fun fd bs '(l, t) =>
  (Done (SOk (length bs)), (l, QToy (q_conns t) (q_in t) (SView (s_fds (q_view t)) (s_log (q_view t) ++ [(fd, bs)])))).
#[local, refine] Instance q_spec : ServiceSpec q_state := {| sv s := q_view (snd s) |}.
Proof.
  - done.
  - intros fd [l t]. cbn. destruct (q_conns t) as [|c cs]; [done|]. case_bool_decide as Hi; [done|]. by split.
  - intros fd bs [l t]. cbn. by rewrite firstn_all.
  - by intros fd [l t].
  - by intros fd n [l t].
  - done.
  - done.
  - done.
  - done.
  - done.
  - done.
  - done.
  - done.
  - done.
  - done.
Defined.
Definition q_strerror (e : Z) : bytes := print_dec e.
Definition q_start : q_state :=
  (libc0, QToy [str "5" ++ [newline]; str "none" ++ [newline]; str "2147483647" ++ [newline]; str "7"; str "1"] [] (SView {[ 0; 1; 2 ]} [])).

