(* ===== verification/Tail.v ===== *)
(** The last lines of a file: exercises/13-file-io-buffering/tail.c, which reads the file in blocks from
    its end. *)
From S2P Require Import Prelude CLib Sys ErrorFunctions Calls.
#[local] Open Scope Z_scope.

Definition MAX_BUFFERS_CNT : nat := 1000.

(** The calls, on the one file that is open; [sys_bsize] is the block size that fstatvfs() reports. *)
Class TailOS (S : Type) := {
  sys_open : bytes -> M S (sysres Z);
  sys_bsize : Z -> M S (sysres Z);
  sys_seek_end : Z -> M S (sysres Z);
  sys_seek_set : Z -> Z -> M S (sysres Z);
  sys_malloc : Z -> M S (sysres unit)
}.

Section program.
Context {S : Type} `{HL : HasLibc S} `{HO : TailOS S} `{HR : ReadOS S} (strerror : Z -> bytes).

(** The new position, and the contents of the block; a shorter read is an error. *)
(** Source: exercises/13-file-io-buffering/tail.c:45-67 (readBuf). *)
Definition readBuf (fd filePos bufSize : Z) : M S (Z * bytes) :=
  let newPos := Z.max 0 (filePos - bufSize) in
  let size := filePos - newPos in
  echecked strerror (sys_malloc size) (str "malloc");;
  echecked strerror (sys_seek_set fd newPos) (str "lseek");;
  r ← call (sys_read fd (Z.to_nat size));
  match r with
  | Some buffer =>
      if Z.of_nat (length buffer) =? size then
        echecked strerror (sys_seek_set fd newPos) (str "lseek");;
        mret (newPos, buffer)
      else errExit strerror (str "read")
  | None => errExit strerror (str "read")
  end.

(** The inner loop, over the first [k] characters of the block, backwards: the number of lines, or
    where the output starts. *)
(** Source: exercises/13-file-io-buffering/tail.c:96-117 (tail, inner loop). *)
Fixpoint scan_buf (n : Z) (first : bool) (buffer : bytes) (k : nat) (linesCount : Z) : Z + nat :=
  match k with
  | O => inl linesCount
  | Datatypes.S i =>
      if negb (ceq (char_at buffer i) newline) then scan_buf n first buffer i linesCount
      else if first && (i =? length buffer - 1)%nat then scan_buf n first buffer i linesCount
      else if linesCount =? n then inr k
      else scan_buf n first buffer i (linesCount + 1)
  end.

(** [initBuf] and [initBufPos], with the blocks; the loop variables are [filePos], the blocks so far and
    [linesCount]. *)
(** Source: exercises/13-file-io-buffering/tail.c:90-125 (tail, loop). *)
Definition tail_loop (fd bufferSize n filePos : Z) : M S (list bytes * nat * nat) :=
  iter (Datatypes.S MAX_BUFFERS_CNT) (fun '(filePos, buffers, linesCount) =>
    let bufCount := length buffers in
    if (MAX_BUFFERS_CNT <=? bufCount)%nat then undefined
    else
      '(filePos, buffer) ← readBuf fd filePos bufferSize;
      let buffers := buffers ++ [buffer] in
      match scan_buf n (bufCount =? 0)%nat buffer (length buffer) linesCount with
      | inr p =>
          if (p =? length buffer)%nat then
            if bufCount is Datatypes.S prev then mret (inr (buffers, prev, 0%nat)) else undefined
          else mret (inr (buffers, bufCount, p))
      | inl linesCount =>
          if filePos =? 0 then mret (inr (buffers, bufCount, 0%nat)) else mret (inl (filePos, buffers, linesCount))
      end) (filePos, [], 1).

(** printf("%.*s"): up to a null byte. *)
Definition print_block (buffer : bytes) : M S unit := printf (cstring buffer).
(** Source: exercises/13-file-io-buffering/tail.c:69-134 (tail). *)
Definition tail (n : Z) (path : bytes) : M S unit :=
  fd ← echecked strerror (sys_open path) (str "fopen");
  bufferSize ← echecked strerror (sys_bsize fd) (str "fstatvfs");
  filePos ← echecked strerror (sys_seek_end fd) (str "lseek");
  '(buffers, initBuf, initBufPos) ← tail_loop fd bufferSize n filePos;
  b ← deref (buffers !! initBuf);
  print_block (drop initBufPos b);;
  for_each (reverse (take initBuf buffers)) print_block;;
  printf [newline].

(** Source: exercises/13-file-io-buffering/tail.c:6-10 (printHelp). *)
Definition printHelp : M S unit :=
  printf (str "Usage ./a.out PATH [OPT]" ++ [newline] ++ str "Options are:" ++ [newline]);;
  printf (str "  -n [NUM]: output the last NUM lines" ++ [newline]);;
  printf (str "  -h: Show this message" ++ [newline]).
(** The options that getopt() finds; it returns '?' for any other. *)
(** Source: exercises/13-file-io-buffering/tail.c:21-34 (readOpts, loop). *)
Fixpoint readOpts_loop (n : Z) (opts : list (ascii * bytes)) : M S Z :=
  match opts with
  | [] => mret n
  | (o, optarg) :: opts =>
      if ceq o "n" then readOpts_loop (atoi optarg) opts
      else if ceq o "h" then printHelp;; c_exit EXIT_SUCCESS
      else printHelp;; c_exit EXIT_FAILURE
  end.
(** Source: exercises/13-file-io-buffering/tail.c:12-35 (readOpts). *)
Definition readOpts (argv : list bytes) (opts : list (ascii * bytes)) : M S (bytes * Z) :=
  match argv with
  | [] => printHelp;; c_exit EXIT_FAILURE
  | a :: _ =>
      if (1000 <=? strlen a)%nat then undefined
      else n ← readOpts_loop 10 opts; mret (a, n)
  end.
(** Source: exercises/13-file-io-buffering/tail.c:136-142 (main). *)
Definition main (argv : list bytes) (opts : list (ascii * bytes)) : M S unit :=
  '(path, n) ← readOpts argv opts;
  tail n path.

End program.

(** * What is printed *)

(** The lines of a text, each with the newline that ends it; the last one may have none. *)
Fixpoint lines (c : bytes) : list bytes :=
  match c with
  | [] => []
  | a :: c =>
      if ceq a newline then [a] :: lines c
      else match lines c with [] => [[a]] | l :: ls => (a :: l) :: ls end
  end.
(** The last [n] of them; all for an [n] that is not positive. *)
Definition last_lines (n : Z) (c : bytes) : bytes :=
  if n <? 1 then c else concat (drop (length (lines c) - Z.to_nat n) (lines c)).

Definition newlines (l : bytes) : nat := length (filter (fun c => c = newline) l).

(** * What the calls do *)

Record tview := TView { content : bytes; pos : Z }.
Class TailSpec (S : Type) `{HL : HasLibc S} `{HO : !TailOS S} `{HR : ReadOS S} := {
  tv : S -> tview;
  bsize : Z;
  bsize_pos : 0 < bsize;
  tv_libc : forall l s, tv (set_libc l s) = tv s;
  open_spec : forall p s, post (fun _ s' => tv s' = tv s /\ libc_of s' = libc_of s) (fun _ _ => False) (sys_open p s);
  bsize_spec : forall fd s, post (fun r s' => (forall b, r = SOk b -> b = bsize) /\ tv s' = tv s /\ libc_of s' = libc_of s)
    (fun _ _ => False) (sys_bsize fd s);
  seek_end_spec : forall fd s, post (fun r s' => libc_of s' = libc_of s /\ content (tv s') = content (tv s) /\
    forall p, r = SOk p -> p = Z.of_nat (length (content (tv s)))) (fun _ _ => False) (sys_seek_end fd s);
  seek_set_spec : forall fd p s, post (fun r s' => libc_of s' = libc_of s /\ content (tv s') = content (tv s) /\
    forall q, r = SOk q -> pos (tv s') = p) (fun _ _ => False) (sys_seek_set fd p s);
  malloc_spec : forall n s, post (fun _ s' => tv s' = tv s /\ libc_of s' = libc_of s) (fun _ _ => False) (sys_malloc n s);
  tread_spec : forall fd n s, post (fun r s' => libc_of s' = libc_of s /\ content (tv s') = content (tv s) /\
    forall bs, r = SOk bs -> bs = take (length bs) (drop (Z.to_nat (pos (tv s))) (content (tv s))))
    (fun _ _ => False) (sys_read fd n s)
}.

(** * Lines *)

Lemma concat_lines c : concat (lines c) = c.
Proof.
  induction c as [|a c IH]; [done|]. simpl. destruct (ceq a newline); simpl; [by rewrite IH|].
  destruct (lines c) as [|l ls]; simpl in *; [by rewrite <- IH|]. by rewrite IH.
Qed.
Lemma lines_cons a c : lines (a :: c) <> [].
Proof. simpl. destruct (ceq _ _), (lines c); done. Qed.
Lemma newlines_cons a c : newlines (a :: c) = ((if ceq a newline then 1 else 0) + newlines c)%nat.
Proof. unfold newlines. rewrite filter_cons. destruct (ceq_spec a newline); by case_decide. Qed.
Lemma length_lines c : c <> [] -> length (lines c) = Datatypes.S (newlines (removelast c)).
Proof.
  induction c as [|a c IH]; [done|]. intros _. destruct c as [|b c].
  - simpl. by destruct (ceq a newline).
  - change (removelast (a :: b :: c)) with (a :: removelast (b :: c)). rewrite newlines_cons.
    specialize (IH ltac:(done)). cbn [lines] in *. destruct (ceq a newline); [simpl in *; lia|].
    destruct (match lines c with [] => _ | _ => _ end) eqn:E; destruct (ceq b newline); simpl in *; try lia;
      destruct (lines c); simpl in *; lia.
Qed.
Lemma lines_app x y : lines (x ++ newline :: y) = lines (x ++ [newline]) ++ lines y.
Proof.
  induction x as [|a x IH]; [done|]. simpl. rewrite IH. destruct (ceq a newline); [done|].
  destruct (lines (x ++ [newline])) eqn:E; [|done]. destruct x; by apply lines_cons in E.
Qed.

(** [start] is where the last [n] lines of [c] begin; the last character does not begin a line. *)
Definition begins (n : Z) (c : bytes) (start : nat) : Prop :=
  match start with
  | O => n < 1 \/ Z.of_nat (newlines (removelast c)) < n
  | Datatypes.S i => removelast c !! i = Some newline /\ Z.of_nat (newlines (drop start (removelast c))) = n - 1
  end.
Lemma removelast_take (c : bytes) : removelast c = take (length c - 1) c.
Proof.
  induction c as [|a c IH]; [done|]. destruct c as [|b c]; [done|]. change (removelast (a :: b :: c)) with (a :: removelast (b :: c)).
  rewrite IH. simpl. by rewrite Nat.sub_0_r.
Qed.
Lemma begins_last_lines n c start : begins n c start -> drop start c = last_lines n c.
Proof.
  unfold begins, last_lines. destruct start as [|i].
  - intros H. rewrite drop_0. destruct (Z.ltb_spec n 1); [done|]. destruct c as [|a c]; [done|].
    rewrite length_lines by done. replace (_ - _)%nat with 0%nat by lia. by rewrite drop_0, concat_lines.
  - rewrite removelast_take. intros [Hi Hn]. apply lookup_take_Some in Hi as [Hi Hlt].
    destruct (Z.ltb_spec n 1); [lia|].
    assert (Hc : c = take i c ++ newline :: drop (Datatypes.S i) c) by (rewrite <- drop_lookup_cons by done; by rewrite take_drop).
    assert (Hd : length (lines (drop (Datatypes.S i) c)) = Z.to_nat n).
    { rewrite length_lines by (intros E%(f_equal length); rewrite length_drop in E; simpl in E; lia).
      rewrite removelast_take, length_drop. rewrite skipn_firstn_comm in Hn.
      replace (length c - Datatypes.S i - 1)%nat with (length c - 1 - Datatypes.S i)%nat by lia. lia. }
    rewrite Hc at 2 3. rewrite lines_app, length_app, Hd, Nat.add_sub, drop_app_length. by rewrite concat_lines.
Qed.

(** * Scanning a block *)

(** The scan has come down to [f] without finding the beginning. *)
Definition not_yet (n : Z) (c : bytes) (f : nat) (linesCount : Z) : Prop :=
  linesCount = 1 + Z.of_nat (newlines (drop f (removelast c))) /\ (n < 1 \/ linesCount <= n).
Lemma not_yet_other n c f cnt :
  removelast c !! f <> Some newline -> not_yet n c (Datatypes.S f) cnt -> not_yet n c f cnt.
Proof.
  intros Hf [-> Hn]. unfold not_yet. destruct (removelast c !! f) as [a|] eqn:E.
  - rewrite (drop_lookup_cons _ _ _ E), newlines_cons. destruct (ceq_spec a newline); [by subst|done].
  - apply lookup_ge_None in E. rewrite !drop_ge in * by lia. done.
Qed.

Lemma scan_buf_spec n c first p0 buffer k cnt :
  (forall i x, buffer !! i = Some x -> c !! (p0 + i)%nat = Some x) ->
  (p0 + length buffer <= length c)%nat -> first = bool_decide (p0 + length buffer = length c)%nat ->
  (k <= length buffer)%nat -> not_yet n c (p0 + k) cnt ->
  match scan_buf n first buffer k cnt with
  | inl cnt' => not_yet n c p0 cnt'
  | inr p => (0 < p <= length buffer)%nat /\ begins n c (p0 + p) /\ (first = true -> p <> length buffer)
  end.
Proof.
  intros Hb Hlen Hfirst. revert cnt. induction k as [|i IH]; intros cnt Hk Hny; [by rewrite Nat.add_0_r in Hny|].
  rewrite Nat.add_succ_r in Hny. simpl. unfold char_at.
  destruct (lookup_lt_is_Some_2 buffer i) as [x Hx]; [lia|]. rewrite Hx. simpl.
  assert (Hr : removelast c !! (p0 + i)%nat = if bool_decide (p0 + i = length c - 1)%nat then None else Some x).
  { rewrite removelast_take. pose proof (lookup_lt_Some _ _ _ Hx). clear Hfirst. case_bool_decide.
    - apply lookup_ge_None. rewrite length_take. lia.
    - rewrite lookup_take_lt by lia. by apply Hb. }
  destruct (ceq_spec x newline) as [->|Hne]; simpl.
  2: { apply IH; [lia|]. apply not_yet_other; [|done]. rewrite Hr. clear Hfirst. case_bool_decide; congruence. }
  destruct (first && (i =? length buffer - 1)%nat) eqn:E.
  { apply andb_true_iff in E as [-> Hi%Nat.eqb_eq]. symmetry in Hfirst. apply bool_decide_eq_true in Hfirst.
    apply IH; [lia|]. apply not_yet_other; [|done]. rewrite Hr, bool_decide_true by lia. done. }
  rewrite bool_decide_false in Hr.
  2: { intros Hi. subst first. rewrite bool_decide_true in E by lia. simpl in E. apply Nat.eqb_neq in E. lia. }
  destruct Hny as [Hcnt Hn]. destruct (Z.eqb_spec cnt n) as [Heq|Hne].
  - split; [lia|]. split; [|intros ->; simpl in E; apply Nat.eqb_neq in E; lia].
    rewrite Nat.add_succ_r. split; [done|]. lia.
  - apply IH; [lia|]. split; [|lia]. rewrite (drop_lookup_cons _ _ _ Hr), newlines_cons. simpl. lia.
Qed.

(** * The program *)

Section proofs.
Context {S : Type} `{HL : HasLibc S} `{HO : !TailOS S} `{HR : ReadOS S} `{HS : !TailSpec S} (strerror : Z -> bytes).

Definition file (s : S) : bytes := content (tv s).
Lemma file_libc l s : file (set_libc l s) = file s.
Proof. unfold file. by rewrite tv_libc. Qed.
(** Nothing has been printed, and the file is as it was. *)
Definition same (s s' : S) : Prop := file s' = file s /\ libc_of s' = libc_of s.
Abbreviation stops := (stops file).

(** A checked call that prints nothing. *)
Lemma echecked_same {A B} (m : M S (sysres A)) msg (k : A -> M S B) (P : A -> S -> Prop) Q s s1 :
  same s s1 ->
  post (fun r s' => same s1 s' /\ forall a, r = SOk a -> P a s') (fun _ _ => False) (m s1) ->
  (forall a s', same s s' -> P a s' -> post Q (stops s) (k a s')) ->
  post Q (stops s) ((echecked strerror m msg ≫= k) s1).
Proof.
  intros [Hf Hl] Hm Hk. eapply (stops_then file) with (s := s) (R := fun a s' => same s s' /\ P a s'); [done|done| |].
  - eapply (echecked_spec strerror file file_libc); [exact Hm|]. intros [a|e] s' [[Hf' Hl'] Ha]; [|done].
    split; [split; congruence|]. by apply Ha.
  - intros a s' [Hs Ha]. by apply Hk.
Qed.

Lemma readBuf_spec fd fp s : 0 <= fp ->
  post (fun '(np, b) s' => same s s' /\ np = Z.max 0 (fp - bsize) /\
      Z.of_nat (length b) = fp - np /\ b = take (length b) (drop (Z.to_nat np) (file s)))
    (stops s) (readBuf strerror fd fp bsize s).
Proof.
  intros Hfp. unfold readBuf. set (np := Z.max 0 (fp - bsize)).
  eapply echecked_same with (P := fun _ _ => True); [done| |intros ? s1 Hs1 _].
  { eapply post_mono; [| |exact (malloc_spec _ s)]; [|done]. intros r s' [H1 H2]. unfold same, file. by rewrite H1. }
  eapply echecked_same with (P := fun _ s' => pos (tv s') = np); [done| |intros ? s2 Hs2 Hp].
  { eapply post_mono; [| |exact (seek_set_spec fd np s1)]; [|done]. intros r s' (H1 & H2 & H3). done. }
  apply post_bind. eapply post_mono; [| |exact (call_post file file_libc _ _ _ _ (tread_spec fd _ s2))]; [|done].
  assert (Hdie : forall s3, file s3 = file s -> post (fun '(np0, b) s' => same s s' /\ np0 = np /\
      Z.of_nat (length b) = fp - np0 /\ b = take (length b) (drop (Z.to_nat np0) (file s)))
    (stops s) (errExit strerror (A := Z * bytes) (str "read") s3)).
  { intros s3 Hf. eapply post_mono; [| |exact (errExit_stops strerror file file_libc _ s3 (fun _ _ => False))]; [done|]. intros e s4. by apply stops_at. }
  destruct Hs2 as [Hf2 Hl2].
  intros [b|] s3 (s4 & Hv & Hr).
  - destruct Hr as [(Hl & Hc & Hb) ->]. specialize (Hb b eq_refl). change (file s4 = file s2) in Hc.
    change (b = take (length b) (drop (Z.to_nat (pos (tv s2))) (file s2))) in Hb. rewrite Hp, Hf2 in Hb.
    destruct (Z.eqb_spec (Z.of_nat (length b)) (fp - np)) as [Hlen|]; [|apply Hdie; congruence].
    eapply echecked_same with (P := fun _ _ => True); [split; congruence| |intros ? s5 Hs5 _; done].
    eapply post_mono; [| |exact (seek_set_spec fd np s4)]; [|done]. intros r s' (H1 & H2 & H3). done.
  - destruct Hr as (e & (Hl & Hc & Hb) & _). apply Hdie. unfold file in *. congruence.
Qed.

(** Before a round of the loop, and where it leaves. *)
Definition scanned (n : Z) (c : bytes) (s0 : S) (x : Z * list bytes * Z) (s : S) : Prop :=
  let '(fp, bufs, cnt) := x in
  same s0 s /\ concat (reverse bufs) = drop (Z.to_nat fp) c /\ not_yet n c (Z.to_nat fp) cnt /\
  fp = Z.of_nat (length c) - Z.of_nat (length bufs) * bsize /\ (0 < fp \/ fp = 0 /\ bufs = []).
Definition start_found (n : Z) (c : bytes) (s0 : S) (r : list bytes * nat * nat) (s : S) : Prop :=
  let '(bufs, ib, ip) := r in
  same s0 s /\ exists b, bufs !! ib = Some b /\ drop ip b ++ concat (reverse (take ib bufs)) = last_lines n c.

Lemma found_here n c s0 s bufs b p : same s0 s -> drop p b ++ concat (reverse bufs) = last_lines n c ->
  start_found n c s0 (bufs ++ [b], length bufs, p) s.
Proof. intros Hs Hd. split; [done|]. exists b. by rewrite take_app_length, lookup_app_r, Nat.sub_diag by lia. Qed.
Lemma found_before n c s0 s bufs b prev : same s0 s -> length bufs = Datatypes.S prev -> concat (reverse bufs) = last_lines n c ->
  start_found n c s0 (bufs ++ [b], prev, 0%nat) s.
Proof.
  intros Hs Hl Hd. split; [done|]. destruct bufs as [|b' bufs _] using rev_ind; [done|].
  rewrite length_app in Hl. simpl in Hl. replace prev with (length bufs) by lia. exists b'.
  rewrite <- app_assoc, lookup_app_r, Nat.sub_diag, take_app_length by lia. split; [done|].
  by rewrite reverse_snoc in Hd.
Qed.

Lemma tail_loop_spec fd n s : Z.of_nat (length (file s)) <= Z.of_nat MAX_BUFFERS_CNT * bsize ->
  post (start_found n (file s) s) (stops s) (tail_loop strerror fd bsize n (Z.of_nat (length (file s))) s).
Proof.
  pose proof bsize_pos. assert (Hm : (0 < MAX_BUFFERS_CNT)%nat) by apply Nat.lt_0_succ.
  unfold tail_loop. revert Hm. generalize MAX_BUFFERS_CNT as m. intros m Hm Hmax. set (c := file s) in *.
  apply iter_total with (Inv := scanned n c s) (meas := fun x _ => (m - length x.1.2)%nat); [| |simpl; lia].
  2: { split_and!; simpl; try done; [by rewrite Nat2Z.id, drop_all| |lia|destruct (Nat.eq_dec (length c) 0); [right; split; [lia|done]|left; lia]].
       unfold not_yet.
       rewrite Nat2Z.id, removelast_take. split; [|lia]. rewrite drop_ge by (rewrite length_take; lia). done. }
  intros [[fp bufs] cnt] s1 (Hs & Hcat & Hny & Hfp & Hpos).
  assert (Hlt : (length bufs < m)%nat) by (destruct Hpos as [|[_ ->]]; [apply Nat2Z.inj_lt, (Z.mul_lt_mono_pos_r bsize); lia|done]).
  destruct (Nat.leb_spec m (length bufs)); [lia|].
  eapply (stops_then file) with (s := s); [done|apply Hs|apply readBuf_spec; lia|].
  intros [np b] s2 (Hs2 & Hnp & Hlb & Hb). destruct Hs as [Hf1 Hl1], Hs2 as [Hf2 Hl2]. rewrite Hf1 in Hb. fold c in Hb.
  assert (Hs2 : same s s2) by (split; congruence).
  assert (Hd : drop (Z.to_nat np) c = b ++ drop (Z.to_nat fp) c).
  { rewrite Hb at 1. replace (Z.to_nat fp) with (Z.to_nat np + length b)%nat by lia. by rewrite <- drop_drop, take_drop. }
  unshelve epose proof (scan_buf_spec n c (length bufs =? 0)%nat (Z.to_nat np) b (length b) cnt _ _ _ _ _) as Hscan.
  - intros i x Hx. rewrite Hb in Hx. apply lookup_take_Some in Hx as [Hx _]. by rewrite lookup_drop in Hx.
  - lia.
  - destruct bufs as [|? ?]; simpl in *; symmetry; [apply bool_decide_true; lia|apply bool_decide_false; lia].
  - done.
  - by replace (Z.to_nat np + length b)%nat with (Z.to_nat fp) by lia.
  - destruct (scan_buf n _ b (length b) cnt) as [cnt'|p].
    + destruct (Z.eqb_spec np 0) as [Hz|Hnz].
      * apply found_here; [done|]. rewrite Hcat, drop_0, <- Hd, Hz. apply begins_last_lines. destruct Hscan as [Hc Hn].
        rewrite Hz, drop_0 in Hc. simpl in *. lia.
      * split; [|simpl; rewrite length_app; simpl; lia]. split_and!; [done|by rewrite reverse_snoc, Hd, <- Hcat|done|rewrite length_app; simpl; lia|lia].
    + destruct Hscan as ([Hp0 Hp] & Hbeg & Hfirst). apply begins_last_lines in Hbeg.
      destruct (Nat.eqb_spec p (length b)) as [->|Hne].
      * destruct (length bufs) eqn:El; [by specialize (Hfirst eq_refl)|]. apply found_before; [done|done|].
        rewrite Hcat, <- Hbeg. f_equal. lia.
      * apply found_here; [done|]. rewrite Hcat, <- Hbeg, <- drop_drop, Hd, drop_app_le by lia. done.
Qed.

(** What has been printed since [s0]. *)
Definition printed (s0 : S) (txt : bytes) (s : S) : Prop :=
  file s = file s0 /\ lc_pending (libc_of s) = lc_pending (libc_of s0) ++ txt.

Lemma printf_printed s0 pre txt s : printed s0 pre s -> exists s', printf txt s = (Done tt, s') /\ printed s0 (pre ++ txt) s'.
Proof.
  intros [Hf Hp]. eexists. split; [reflexivity|]. unfold printed. rewrite file_libc, libc_of_set. simpl. by rewrite Hp, <- app_assoc.
Qed.
Lemma print_block_printed s0 pre b s : NUL ∉ b -> printed s0 pre s ->
  exists s', print_block b s = (Done tt, s') /\ printed s0 (pre ++ b) s'.
Proof. intros Hb. unfold print_block. rewrite cstring_id by done. apply printf_printed. Qed.
Lemma print_blocks bufs s0 pre s : (forall b, b ∈ bufs -> NUL ∉ b) -> printed s0 pre s ->
  exists s', for_each bufs print_block s = (Done tt, s') /\ printed s0 (pre ++ concat bufs) s'.
Proof.
  revert pre s. induction bufs as [|b bufs IH]; intros pre s Hb Hs; [exists s; by rewrite app_nil_r|].
  destruct (print_block_printed s0 pre b s) as (s1 & Hr & Hs1); [apply Hb; left|done|].
  destruct (IH (pre ++ b) s1) as (s2 & Hr2 & Hs2); [intros b' Hb'; apply Hb; by right|done|].
  exists s2. simpl. rewrite (bind_done _ _ _ _ _ Hr). by rewrite <- app_assoc in Hs2.
Qed.

Lemma last_lines_incl n c x : x ∈ last_lines n c -> x ∈ c.
Proof.
  unfold last_lines. destruct (_ <? _); [done|]. intros Hx. rewrite <- (concat_lines c). revert Hx.
  rewrite !list_elem_of_In, !in_concat. intros (l & Hl & Hx). exists l. split; [|done].
  rewrite <- list_elem_of_In in *. by eapply elem_of_sublist, sublist_drop.
Qed.
Lemma tail_spec n path s : Z.of_nat (length (file s)) <= Z.of_nat MAX_BUFFERS_CNT * bsize -> NUL ∉ file s ->
  post (fun _ => printed s (last_lines n (file s) ++ [newline])) (stops s) (tail strerror n path s).
Proof.
  intros Hmax Hnul. unfold tail.
  eapply echecked_same with (P := fun _ _ => True); [done| |intros fd s1 Hs1 _].
  { eapply post_mono; [| |exact (open_spec path s)]; [|done]. intros r s' [H1 H2]. unfold same, file. by rewrite H1. }
  eapply echecked_same with (P := fun b _ => b = bsize); [done| |intros b s2 Hs2 ->].
  { eapply post_mono; [| |exact (bsize_spec fd s1)]; [|done]. intros r s' (H1 & H2 & H3). unfold same, file. by rewrite H2. }
  eapply echecked_same with (P := fun p _ => p = Z.of_nat (length (file s2))); [done| |intros b s3 Hs3 ->].
  { eapply post_mono; [| |exact (seek_end_spec fd s2)]; [|done]. intros r s' (H1 & H2 & H3). split; [done|]. exact H3. }
  replace (file s2) with (file s3) by (destruct Hs2, Hs3; congruence).
  assert (Hf3 : file s3 = file s) by apply Hs3.
  eapply (stops_then file) with (s := s); [done|done|apply tail_loop_spec; by rewrite Hf3|].
  intros [[bufs ib] ip] s4 (Hs4 & b & Hb & Hcat). rewrite Hf3 in Hcat.
  assert (Hn : NUL ∉ drop ip b ++ concat (reverse (take ib bufs))) by (rewrite Hcat; by intros ?%last_lines_incl).
  rewrite not_elem_of_app in Hn. destruct Hn as [Hn1 Hn2]. rewrite Hb, (bind_done (deref (Some b)) _ s4 b s4) by done.
  assert (Hp : printed s [] s4) by (destruct Hs3, Hs4; split; [congruence|rewrite app_nil_r; congruence]).
  destruct (print_block_printed s [] (drop ip b) s4 Hn1 Hp) as (s5 & Hr5 & Hp5). rewrite (bind_done _ _ _ _ _ Hr5).
  destruct (print_blocks (reverse (take ib bufs)) s ([] ++ drop ip b) s5) as (s6 & Hr6 & Hp6); [|done|].
  { intros b' Hb' Hx. apply Hn2, list_elem_of_In, in_concat. exists b'. by rewrite <- !list_elem_of_In. }
  rewrite (bind_done _ _ _ _ _ Hr6). destruct (printf_printed s _ [newline] s6 Hp6) as (s7 & -> & Hp7). simpl.
  by rewrite <- Hcat.
Qed.

(** The number that the options give, all of them -n. *)
Definition option_n (opts : list (ascii * bytes)) : Z := from_option (fun o => atoi o.2) 10 (last opts).
Lemma readOpts_loop_n n opts s : Forall (fun o => o.1 = "n"%char) opts ->
  readOpts_loop n opts s = (Done (from_option (fun o => atoi o.2) n (last opts)), s).
Proof.
  intros H. revert n. induction H as [|[o a] opts Ho _ IH]; intros n; [done|]. simpl in Ho. subst o. simpl.
  rewrite IH. destruct opts as [|p opts]; [done|]. rewrite last_cons_cons. destruct (last (p :: opts)) eqn:E; [done|]. by apply last_None in E.
Qed.
(** The first option that is not -n ends the program. *)
Lemma readOpts_loop_other n o a opts1 opts2 s : Forall (fun o => o.1 = "n"%char) opts1 -> o <> "n"%char ->
  post (fun _ _ => False) (fun e s' => e = EExit (if ceq o "h" then EXIT_SUCCESS else EXIT_FAILURE) /\ tv s' = tv s)
    (readOpts_loop n (opts1 ++ (o, a) :: opts2) s).
Proof.
  intros H Ho. revert n. induction H as [|[o1 a1] opts Ho1 _ IH]; intros n.
  - simpl. destruct (ceq_spec o "n"); [done|]. destruct (ceq o "h"); unfold c_exit, fflush_stdout, printHelp, printf; munfold; simpl; by rewrite !tv_libc.
  - simpl in Ho1. subst o1. simpl. apply IH.
Qed.

(** C30: tail prints the last n lines of the file, then a newline: the lines in order and whole, all of them
    when there are fewer than n or when n is not positive, the n being that of the last -n, or 10. The file
    has at most 1000 blocks and no null byte. When a call fails, or reads less than a block, the program
    ends with a diagnostic and a failure status. With no file, or with an option that is not -n, nothing is read: the
    program exits, successfully for -h. *)
Theorem tail_correct argv opts s :
  (forall path rest, argv = path :: rest -> Forall (fun o => o.1 = "n"%char) opts ->
    (strlen path < 1000)%nat -> Z.of_nat (length (file s)) <= Z.of_nat MAX_BUFFERS_CNT * bsize -> NUL ∉ file s ->
    post (fun _ => printed s (last_lines (option_n opts) (file s) ++ [newline])) (stops s) (main strerror argv opts s)) /\
  (forall o a opts1 opts2, opts = opts1 ++ (o, a) :: opts2 -> Forall (fun o => o.1 = "n"%char) opts1 -> o <> "n"%char ->
    (forall path, head argv = Some path -> (strlen path < 1000)%nat) ->
    post (fun _ _ => False) (fun e s' => tv s' = tv s /\
      e = EExit (if argv is [] then EXIT_FAILURE else if ceq o "h" then EXIT_SUCCESS else EXIT_FAILURE)) (main strerror argv opts s)) /\
  (argv = [] -> post (fun _ _ => False) (fun e s' => tv s' = tv s /\ e = EExit EXIT_FAILURE) (main strerror argv opts s)).
Proof.
  assert (Hnone : argv = [] -> post (fun _ _ => False) (fun e s' => tv s' = tv s /\ e = EExit EXIT_FAILURE) (main strerror argv opts s)).
  { intros ->. unfold main, readOpts, c_exit, fflush_stdout, printHelp, printf. munfold. simpl. by rewrite !tv_libc. }
  split_and!; [| |done].
  - intros path rest -> Hopts Hlen Hmax Hnul. unfold main, readOpts. destruct (Nat.leb_spec 1000 (strlen path)); [lia|].
    rewrite bind_bind, (bind_done _ _ _ _ _ (readOpts_loop_n 10 opts s Hopts)). by apply tail_spec.
  - intros o a opts1 opts2 -> Hopts Ho Hlen. destruct argv as [|path rest]; [by apply Hnone|].
    unfold main, readOpts. destruct (Nat.leb_spec 1000 (strlen path)); [specialize (Hlen path eq_refl); lia|].
    rewrite bind_bind. apply post_bind. eapply post_mono; [| |exact (readOpts_loop_other 10 o a opts1 opts2 s Hopts Ho)]; [done|].
    by intros e s' [-> ->].
Qed.
End proofs.

(** * A run *)

(** One file, in blocks of three bytes. *)
Definition toy : Type := libc * tview.
#[export] Instance toy_tail : TailOS toy := {
  sys_open _ s := (Done (SOk 3), s);
  sys_bsize _ s := (Done (SOk 3), s);
  sys_seek_end _ s := let n := Z.of_nat (length (content s.2)) in (Done (SOk n), (s.1, TView (content s.2) n));
  sys_seek_set _ p s := (Done (SOk p), (s.1, TView (content s.2) p));
  sys_malloc _ s := (Done (SOk tt), s)
}.
#[export] Instance toy_read : ReadOS toy := fun _ n s =>
  let bs := take n (drop (Z.to_nat (pos s.2)) (content s.2)) in
  (Done (SOk bs), (s.1, TView (content s.2) (pos s.2 + Z.of_nat (length bs)))).
#[export, refine] Instance toy_spec : TailSpec toy := {| tv := snd; bsize := 3 |}.
Proof.
  - lia.
  - done.
  - done.
  - intros fd s. split; [|done]. by intros b [= <-].
  - intros fd s. split_and!; [done|done|]. by intros p [= <-].
  - intros fd p s. split_and!; done.
  - done.
  - intros fd n s. split_and!; [done|done|]. intros bs [= <-]. simpl. generalize (drop (Z.to_nat (pos s.2)) (content s.2)). intros l.
    rewrite length_take. destruct (Nat.min_spec n (length l)) as [[_ ->]|[? ->]]; [done|]. by rewrite !take_ge by lia.
Defined.

Definition abc : toy := (libc0, TView (str "one" ++ [newline] ++ str "two" ++ [newline] ++ str "three" ++ [newline]) 0).
Lemma tail_correct_witness :
  post (fun _ => printed abc (str "two" ++ [newline] ++ str "three" ++ [newline] ++ [newline])) (stops file abc)
    (main (fun _ => []) [str "f"] [("n"%char, str "2")] abc) /\
  post (fun _ _ => False) (fun e s' => tv s' = tv abc /\ e = EExit EXIT_SUCCESS) (main (fun _ => []) [str "f"] [("h"%char, [])] abc).
Proof.
  split.
  - refine (proj1 (tail_correct (fun _ => []) [str "f"] [("n"%char, str "2")] abc) (str "f") [] eq_refl _ _ _ _).
    + by repeat constructor.
    + apply Nat.ltb_lt. by vm_compute.
    + apply Z.leb_le. by vm_compute.
    + apply (bool_decide_unpack _). by vm_compute.
  - refine (proj1 (proj2 (tail_correct (fun _ => []) [str "f"] [("h"%char, [])] abc)) "h"%char [] [] [] eq_refl _ _ _).
    + constructor.
    + done.
    + intros path [= <-]. apply Nat.ltb_lt. by vm_compute.
Defined.
