(* ===== verification/DirName.v ===== *)
(** basename() and dirname() with a buffer for each thread: exercises/31-thread-safety-and-per-thread-storage/dirname-basename.c. *)
From S2P Require Import Prelude CLib Sys ErrorFunctions Calls.
#[local] Open Scope Z_scope.

(** * A buffer *)

(** [None] is a byte that has not been written. *)
Abbreviation block := (list (option ascii)).
Definition fetch (b : block) (i : nat) : option ascii := mjoin (b !! i).
Definition put (b : block) (i : nat) (c : ascii) : option block :=
  if (i <? length b)%nat then Some (<[i := Some c]> b) else None.
(** A C string that begins at the start of the buffer. *)
Fixpoint string_at (b : block) : option bytes :=
  match b with
  | Some c :: b => if ceq c NUL then Some [] else cons c <$> string_at b
  | _ => None
  end.

(** [^] on characters *)
Definition cxor (a b : ascii) : ascii :=
  match a, b with
  | Ascii a0 a1 a2 a3 a4 a5 a6 a7, Ascii b0 b1 b2 b3 b4 b5 b6 b7 =>
      Ascii (xorb a0 b0) (xorb a1 b1) (xorb a2 b2) (xorb a3 b3) (xorb a4 b4) (xorb a5 b5) (xorb a6 b6) (xorb a7 b7)
  end.
Definition value_at (j : nat) (b : block) : option (ascii * block) := x ← fetch b j; Some (x, b).
(** [b[i] ^= e]: [e] leaves a value and a buffer. C leaves open which operand is evaluated first (it gives
    no meaning to an expression where that matters, as it does here). *)
Definition xor_assign (right_first : bool) (i : nat) (e : block -> option (ascii * block)) (b : block) : option (ascii * block) :=
  if right_first then '(v, b) ← e b; x ← fetch b i; b ← put b i (cxor x v); Some (cxor x v, b)
  else x ← fetch b i; '(v, b) ← e b; b ← put b i (cxor x v); Some (cxor x v, b).

(** Source: exercises/31-thread-safety-and-per-thread-storage/dirname-basename.c:40-46 (t_safe_basename, first loop). *)
Fixpoint copy_back (path : bytes) (k : nat) (sz : nat) (buf : block) : option (nat * block) :=
  match k with
  | O => Some (sz, buf)
  | S i =>
      if ceq (char_at path i) "/" then Some (sz, buf)
      else buf ← put buf sz (char_at path i); copy_back path i (S sz) buf
  end.
(** Source: exercises/31-thread-safety-and-per-thread-storage/dirname-basename.c:50-52 (t_safe_basename, second loop). *)
Fixpoint swap_loop (right_first : bool) (fuel i sz : nat) (buf : block) : option block :=
  match fuel with
  | O => None
  | S fuel =>
      if (i <? sz - i)%nat then
        '(_, buf) ← xor_assign right_first i (xor_assign right_first (sz - i - 1) (xor_assign right_first i
                      (value_at (sz - i - 1)))) buf;
        swap_loop right_first fuel (S i) sz buf
      else Some buf
  end.
(** strcpy() *)
Fixpoint copy_str (s : bytes) (i : nat) (buf : block) : option block :=
  match s with
  | [] => put buf i NUL
  | c :: s => buf ← put buf i c; copy_str s (S i) buf
  end.
(** Source: exercises/31-thread-safety-and-per-thread-storage/dirname-basename.c:91-96 (t_safe_dirname, loop). *)
Fixpoint cut_back (k : nat) (buf : block) : option block :=
  match k with
  | O => Some buf
  | S i => c ← fetch buf i; if ceq c "/" then put buf i NUL else cut_back i buf
  end.

(** * Threads *)

(** The keys of the two functions, once they exist; the values of the keys, of each thread; the blocks that
    were allocated; and what the next calls that can fail will return, 0 when the list is empty. *)
Record world := World {
  basename_key : option nat;
  dirname_key : option nat;
  keys : nat;
  specific : gmap (nat * Z) nat;
  heap : list block;
  faults : list Z
}.
Abbreviation M' := (M (libc * world)).
Definition with_faults (l : list Z) (w : world) : world :=
  World (basename_key w) (dirname_key w) (keys w) (specific w) (heap w) l.
Definition set_world (f : world -> world) : M' unit := modify (fun s => (s.1, f s.2)).
Definition fault : M' Z := w ← gets snd; set_world (with_faults (tail (faults w)));; mret (hd 0 (faults w)).

Definition pthread_key_create : M' (Z * nat) :=
  r ← fault;
  w ← gets snd;
  when (r =? 0) (set_world (fun w => World (basename_key w) (dirname_key w) (S (keys w)) (specific w) (heap w) (faults w)));;
  mret (r, keys w).
Definition pthread_getspecific (key : nat) (tid : Z) : M' (option nat) := gets (fun s => specific s.2 !! (key, tid)).
Definition pthread_setspecific (key : nat) (tid : Z) (p : nat) : M' Z :=
  r ← fault;
  when (r =? 0) (set_world (fun w => World (basename_key w) (dirname_key w) (keys w) (<[(key, tid) := p]> (specific w)) (heap w) (faults w)));;
  mret r.
Definition malloc (n : nat) : M' (option nat) :=
  r ← fault;
  w ← gets snd;
  if r =? 0 then
    set_world (fun w => World (basename_key w) (dirname_key w) (keys w) (specific w) (heap w ++ [replicate n None]) (faults w));;
    mret (Some (length (heap w)))
  else set_errno r;; mret None.
Definition store (p : nat) (b : block) : M' unit :=
  set_world (fun w => World (basename_key w) (dirname_key w) (keys w) (specific w) (<[p := b]> (heap w)) (faults w)).
Definition load (p : nat) : M' block := b ← gets (fun s => heap s.2 !! p); deref b.

Section functions.
Context (strerror : Z -> bytes) (right_first : bool).

(** Source: exercises/31-thread-safety-and-per-thread-storage/dirname-basename.c:9-14 (create_basename_key). *)
Definition create_basename_key : M' unit :=
  '(r, key) ← pthread_key_create;
  if r =? 0 then set_world (fun w => World (Some key) (dirname_key w) (keys w) (specific w) (heap w) (faults w))
  else errExitEN strerror r (str "pthread_key_create").
(** Source: exercises/31-thread-safety-and-per-thread-storage/dirname-basename.c:60-65 (create_dirname_key). *)
Definition create_dirname_key : M' unit :=
  '(r, key) ← pthread_key_create;
  if r =? 0 then set_world (fun w => World (basename_key w) (Some key) (keys w) (specific w) (heap w) (faults w))
  else errExitEN strerror r (str "pthread_key_create").
(** pthread_once(): the first call runs the function, which sets the key or ends the process. *)
Definition pthread_once (key : world -> option nat) (create : M' unit) : M' unit :=
  w ← gets snd;
  match key w with None => create | Some _ => mret tt end.

(** Source: exercises/31-thread-safety-and-per-thread-storage/dirname-basename.c:25-36 (t_safe_basename, the buffer). *)
Definition thread_buffer (tid : Z) (key : option nat) : M' nat :=
  key ← deref key;
  buf ← pthread_getspecific key tid;
  match buf with
  | Some buf => mret buf
  | None =>
      buf ← malloc 1000;
      match buf with
      | None => errExit strerror (str "malloc")
      | Some buf =>
          r ← pthread_setspecific key tid buf;
          if r =? 0 then mret buf else errExitEN strerror r (str "pthread_setspecific")
      end
  end.
(** The destructor frees a thread's buffer when the thread ends. *)
(** Source: exercises/31-thread-safety-and-per-thread-storage/dirname-basename.c:16-55 (t_safe_basename). *)
Definition t_safe_basename (tid : Z) (path : bytes) : M' nat :=
  pthread_once basename_key create_basename_key;;
  key ← gets (fun s => basename_key s.2);
  p ← thread_buffer tid key;
  buf ← load p;
  '(sz, buf) ← deref (copy_back path (strlen path) 0 buf);
  buf ← deref (put buf sz NUL);
  buf ← deref (swap_loop right_first (S sz) 0 sz buf);
  store p buf;;
  mret p.
(** Source: exercises/31-thread-safety-and-per-thread-storage/dirname-basename.c:67-99 (t_safe_dirname). *)
Definition t_safe_dirname (tid : Z) (path : bytes) : M' nat :=
  pthread_once dirname_key create_dirname_key;;
  key ← gets (fun s => dirname_key s.2);
  p ← thread_buffer tid key;
  buf ← load p;
  buf ← deref (copy_str path 0 buf);
  s ← deref (string_at buf);
  buf ← deref (cut_back (strlen s) buf);
  store p buf;;
  mret p.
(** The string a pointer points to. *)
Definition string_of (p : nat) : M' bytes := b ← load p; deref (string_at b).
(** The thread's identifier here is the number it is given, its id. *)
(** Source: exercises/31-thread-safety-and-per-thread-storage/dirname-basename.c:101-110 (test). *)
Definition test (id : Z) : M' unit :=
  let tag := str "[" ++ print_dec id ++ str "] " in
  printf (str "ThreadID = " ++ print_dec id ++ [newline]);;
  let path := str "a/" ++ print_dec id ++ str "/c/" ++ print_dec id in
  printf (tag ++ str "path = [" ++ path ++ str "]" ++ [newline]);;
  p ← t_safe_basename id path;
  b ← string_of p;
  printf (tag ++ str "basename = [" ++ b ++ str "]" ++ [newline]);;
  p ← t_safe_dirname id path;
  d ← string_of p;
  printf (tag ++ str "dirname = [" ++ d ++ str "]" ++ [newline]).
End functions.

(** * The buffer after the loops *)

Lemma cxor_bits : (forall a b, cxor a (cxor b a) = b) /\ (forall a, cxor a a = NUL) /\ (forall a, cxor a NUL = a) /\ (forall a b, cxor a b = cxor b a).
Proof.
  split_and!; repeat intros [? ? ? ? ? ? ? ?]; unfold NUL; cbn; f_equal;
    repeat match goal with b : bool |- _ => clear b end; by repeat match goal with b : bool |- _ => destruct b end.
Qed.
Lemma fetch_put b i c b' j : put b i c = Some b' -> fetch b' j = if bool_decide (j = i) then Some c else fetch b j.
Proof.
  unfold put, fetch. destruct (Nat.ltb_spec i (length b)); [|done]. intros [= <-]. case_bool_decide.
  - subst j. by rewrite list_lookup_insert_eq by lia.
  - by rewrite list_lookup_insert_ne by lia.
Qed.
Lemma put_some b i c : (i < length b)%nat -> exists b', put b i c = Some b' /\ length b' = length b.
Proof. intros H. unfold put. destruct (Nat.ltb_spec i (length b)); [|lia]. eexists. split; [done|]. apply length_insert. Qed.

Lemma xor_assign_spec (rf : bool) i (e : block -> option (ascii * block)) b v b1 x :
  e b = Some (v, b1) -> fetch (if rf then b1 else b) i = Some x -> (i < length b1)%nat ->
  exists b', xor_assign rf i e b = Some (cxor x v, b') /\ length b' = length b1 /\
    forall k, fetch b' k = if bool_decide (k = i) then Some (cxor x v) else fetch b1 k.
Proof.
  intros He Hx Hi. destruct (put_some b1 i (cxor x v) Hi) as (b' & E & L). exists b'. split_and!; [|done|intros k; by apply fetch_put].
  unfold xor_assign. destruct rf; [rewrite He|rewrite Hx]; cbn [mbind option_bind]; [rewrite Hx|rewrite He]; cbn [mbind option_bind]; by rewrite E.
Qed.
(** The swap; a byte that is swapped with itself becomes null, as does the first one when the left operand is first. *)
Lemma swap_spec rf b i j x y : fetch b i = Some x -> fetch b j = Some y -> (i < length b)%nat -> (j < length b)%nat ->
  exists v b', xor_assign rf i (xor_assign rf j (xor_assign rf i (value_at j))) b = Some (v, b') /\
    length b' = length b /\
    forall k, fetch b' k = if bool_decide (k = i) then Some (if rf && bool_decide (i <> j) then y else NUL)
                           else if bool_decide (k = j) then Some x else fetch b k.
Proof.
  intros Hx Hy Hi Hj. destruct cxor_bits as (H1 & H2 & H3 & H4).
  destruct (xor_assign_spec rf i (value_at j) b y b x) as (b1 & E1 & L1 & F1); [unfold value_at; by rewrite Hy|by destruct rf|done|].
  destruct (xor_assign_spec rf j _ b (cxor x y) b1 (if rf && bool_decide (i = j) then cxor x y else y) E1) as (b2 & E2 & L2 & F2).
  { destruct rf; simpl; rewrite ?F1, ?Hy; [|done]. repeat case_bool_decide; congruence. }
  { lia. }
  destruct (xor_assign_spec rf i _ b _ b2 (if rf then if bool_decide (i = j) then cxor (cxor x y) (cxor x y) else cxor x y else x) E2) as (b3 & E3 & L3 & F3).
  { destruct rf; simpl in *; [|done]. rewrite F2, F1, !(bool_decide_true (i = i)) by done. by case_bool_decide. }
  { lia. }
  eexists _, b3. split; [exact E3|]. split; [congruence|]. intros k. rewrite F3, F2, F1. destruct (decide (k = i)) as [->|].
  - rewrite !(bool_decide_true (i = i)) by done. f_equal. destruct rf; simpl.
    + destruct (decide (i = j)) as [He|He].
      * rewrite (bool_decide_true (i = j)), (bool_decide_false (i <> j)) by tauto. apply H2.
      * rewrite (bool_decide_false (i = j)), (bool_decide_true (i <> j)) by done. apply H1.
    + rewrite H1. apply H2.
  - rewrite !(bool_decide_false (k = i)) by done. destruct (decide (k = j)) as [->|]; [|by rewrite bool_decide_false].
    rewrite !(bool_decide_true (j = j)) by done. f_equal. rewrite (bool_decide_false (i = j)) by congruence. rewrite andb_false_r. apply H1.
Qed.

(** Before round [i] of the second loop, on a reversed name [c]. *)
Definition swapped (rf : bool) (c : bytes) (i : nat) (b : block) : Prop :=
  forall k, (k < length c)%nat -> fetch b k =
    if (k <? i)%nat then if rf && bool_decide (2 * k + 1 <> length c)%nat then c !! k else Some NUL
    else if (length c - i <=? k)%nat then c !! k else c !! (length c - 1 - k)%nat.

Lemma swapped_step rf c i b b' x y : (i < length c - i)%nat -> c !! (length c - 1 - i)%nat = Some x -> c !! i = Some y ->
  (forall k, fetch b' k = if bool_decide (k = i) then Some (if rf && bool_decide (i <> length c - i - 1)%nat then y else NUL)
                          else if bool_decide (k = length c - i - 1)%nat then Some x else fetch b k) ->
  swapped rf c i b -> swapped rf c (S i) b'.
Proof.
  intros Hi Hx Hy Hb Hsw k Hk. rewrite Hb. specialize (Hsw k Hk). destruct (decide (k = i)) as [->|Hki].
  - rewrite bool_decide_true, (proj2 (Nat.ltb_lt i (S i))) by lia. destruct rf; [|done].
    clear Hb Hsw. rewrite !andb_true_l. do 2 case_bool_decide; try lia; congruence.
  - rewrite (bool_decide_false (k = i)) by done. clear Hb. destruct (decide (k = length c - i - 1)%nat) as [Hkj|Hkj].
    + rewrite bool_decide_true by done. destruct (Nat.ltb_spec k (S i)); [lia|]. destruct (Nat.leb_spec (length c - S i) k); [|lia].
      rewrite <- Hx. f_equal. lia.
    + rewrite (bool_decide_false (k = _)), Hsw by done. destruct (Nat.ltb_spec k i), (Nat.ltb_spec k (S i)); try lia; [done|].
      destruct (Nat.leb_spec (length c - i) k), (Nat.leb_spec (length c - S i) k); try lia; done.
Qed.
Lemma swap_loop_spec rf c fuel i b : (length c < length b)%nat -> (i <= length c < fuel + i)%nat -> swapped rf c i b ->
  fetch b (length c) = Some NUL ->
  exists b' i', swap_loop rf fuel i (length c) b = Some b' /\ length b' = length b /\ (length c <= 2 * i')%nat /\
    swapped rf c i' b' /\ fetch b' (length c) = Some NUL.
Proof.
  intros Hlen. revert i b Hlen. induction fuel as [|fuel IH]; intros i b Hlen Hfuel Hsw Hnul; [lia|].
  simpl. destruct (Nat.ltb_spec i (length c - i)) as [Hi|Hi]; [|exists b, i; split_and!; try done; lia].
  destruct (lookup_lt_is_Some_2 c i) as [y Hy]; [lia|]. destruct (lookup_lt_is_Some_2 c (length c - 1 - i)) as [x Hx]; [lia|].
  assert (Hbi : fetch b i = Some x).
  { rewrite (Hsw i) by lia. destruct (Nat.ltb_spec i i); [lia|]. destruct (Nat.leb_spec (length c - i) i); [lia|done]. }
  assert (Hbj : fetch b (length c - i - 1) = Some y).
  { rewrite (Hsw _) by lia. destruct (Nat.ltb_spec (length c - i - 1) i); [lia|]. destruct (Nat.leb_spec (length c - i) (length c - i - 1)); [lia|].
    rewrite <- Hy. f_equal. lia. }
  destruct (swap_spec rf b i (length c - i - 1) x y) as (v & b' & E & L & Hb'); [done|done|lia|lia|].
  rewrite E. cbn [mbind option_bind]. destruct (IH (S i) b') as (b2 & i' & E2 & L2 & Hi' & Hsw2 & Hn2); [lia|lia| | |].
  - by eapply swapped_step.
  - rewrite Hb', !bool_decide_false by lia. done.
  - exists b2, i'. split_and!; try done; lia.
Qed.

(** Before a character of the first loop: [sz] of them are in the buffer, the last one first. *)
Definition copied (c : bytes) (sz : nat) (b : block) : Prop := forall k, (k < sz)%nat -> fetch b k = c !! (length c - 1 - k)%nat.

Lemma copy_back_spec pre c sz b k : "/"%char ∉ c -> (pre = [] \/ last pre = Some "/"%char) ->
  (sz + k)%nat = length c -> (length c < length b)%nat -> copied c sz b ->
  exists b', copy_back (pre ++ c) (length pre + k) sz b = Some (length c, b') /\ length b' = length b /\ copied c (length c) b'.
Proof.
  intros Hc Hpre. revert sz b. induction k as [|k IH]; intros sz b Hk Hlen Hcop.
  - rewrite Nat.add_0_r in *. exists b. subst sz. split_and!; [|done|done].
    destruct Hpre as [->|Hpre]; [done|]. destruct pre as [|a pre _] using rev_ind; [done|]. rewrite last_snoc in Hpre. injection Hpre as ->.
    rewrite length_app, Nat.add_1_r. simpl. unfold char_at. by rewrite <- app_assoc, lookup_app_r, Nat.sub_diag by lia.
  - rewrite Nat.add_succ_r. simpl. unfold char_at. rewrite lookup_app_r, Nat.add_sub_swap, Nat.sub_diag by lia. simpl.
    destruct (lookup_lt_is_Some_2 c k) as [x Hx]; [lia|]. rewrite Hx. simpl.
    destruct (ceq_spec x "/"); [subst x; by apply list_elem_of_lookup_2 in Hx|].
    destruct (put_some b sz x) as (b1 & E & L); [lia|]. rewrite E. cbn [mbind option_bind].
    destruct (IH (S sz) b1) as (b2 & E2 & L2 & Hcop2); [lia|lia| |exists b2; split_and!; [done|lia|done]].
    intros j Hj. rewrite (fetch_put _ _ _ _ j E). case_bool_decide as Hs; [|apply Hcop; lia].
    rewrite <- Hx. f_equal. lia.
Qed.

Lemma string_at_spec s b : (forall k c, s !! k = Some c -> fetch b k = Some c) -> fetch b (length s) = Some NUL -> NUL ∉ s -> string_at b = Some s.
Proof.
  revert b. induction s as [|c s IH]; intros b Hs Hn Hnul.
  - destruct b as [|[a|] b]; try done. unfold fetch in Hn. simpl in *. injection Hn as ->. done.
  - apply not_elem_of_cons in Hnul as [Hc Hnul]. pose proof (Hs 0%nat c eq_refl) as H0. destruct b as [|[a|] b]; try done.
    injection H0 as ->. simpl. destruct (ceq_spec c NUL); [congruence|]. rewrite (IH b); [done| | |done].
    + intros k x Hx. exact (Hs (S k) x Hx).
    + exact Hn.
Qed.

Lemma copy_str_spec s i b : (i + length s < length b)%nat ->
  exists b', copy_str s i b = Some b' /\ length b' = length b /\ (forall k, (k < i)%nat -> fetch b' k = fetch b k) /\
    (forall k c, s !! k = Some c -> fetch b' (i + k) = Some c) /\ fetch b' (i + length s) = Some NUL.
Proof.
  revert i b. induction s as [|c s IH]; intros i b Hlen; simpl in *.
  - destruct (put_some b i NUL) as (b' & E & L); [lia|]. exists b'. split_and!; [done|done| |done|].
    + intros k Hk. rewrite (fetch_put _ _ _ _ k E), bool_decide_false by lia. done.
    + rewrite (fetch_put _ _ _ _ _ E), bool_decide_true by lia. done.
  - destruct (put_some b i c) as (b1 & E & L); [lia|]. rewrite E. cbn [mbind option_bind].
    destruct (IH (S i) b1) as (b2 & E2 & L2 & Hbelow & Hat & Hn); [lia|]. exists b2. split_and!; [done|lia| | |].
    + intros k Hk. rewrite Hbelow, (fetch_put _ _ _ _ k E), bool_decide_false by lia. done.
    + intros [|k] x Hx; simpl in Hx; [|rewrite Nat.add_succ_r; exact (Hat k x Hx)].
      rewrite Nat.add_0_r, Hbelow, (fetch_put _ _ _ _ i E), bool_decide_true by lia. done.
    + by rewrite Nat.add_succ_r.
Qed.

Lemma cut_back_none s b k : "/"%char ∉ s -> (forall k c, s !! k = Some c -> fetch b k = Some c) -> (k <= length s)%nat -> cut_back k b = Some b.
Proof.
  intros Hs Hb. induction k as [|k IH]; intros Hk; [done|]. simpl. destruct (lookup_lt_is_Some_2 s k) as [c Hc]; [lia|].
  rewrite (Hb _ _ Hc). cbn [mbind option_bind]. destruct (ceq_spec c "/"); [subst c; by apply list_elem_of_lookup_2 in Hc|]. apply IH. lia.
Qed.
Lemma cut_back_at d c b k : "/"%char ∉ c -> (forall k x, (d ++ "/"%char :: c) !! k = Some x -> fetch b k = Some x) -> (k <= length c)%nat ->
  cut_back (S (length d) + k) b = put b (length d) NUL.
Proof.
  intros Hc Hb. induction k as [|k IH]; intros Hk.
  - rewrite Nat.add_0_r. simpl. rewrite (Hb (length d) "/"%char) by (by rewrite lookup_app_r, Nat.sub_diag by lia). done.
  - rewrite Nat.add_succ_r. cbn [cut_back]. destruct (lookup_lt_is_Some_2 c k) as [x Hx]; [lia|].
    rewrite (Hb (S (length d) + k)%nat x) by (rewrite lookup_app_r by lia; by replace (_ - _)%nat with (S k) by lia).
    cbn [mbind option_bind]. destruct (ceq_spec x "/"); [subst x; by apply list_elem_of_lookup_2 in Hx|]. apply IH. lia.
Qed.

(** * The strings that are returned *)

(** The parts of a path before and after its last slash. *)
Definition splits (path d c : bytes) : Prop :=
  "/"%char ∉ c /\ (path = d ++ "/"%char :: c \/ path = c /\ d = c).
Lemma app_cons_inj_last {A} (x : A) d c d' c' : x ∉ c -> x ∉ c' -> d' ++ x :: c' = d ++ x :: c -> d = d' /\ c = c'.
Proof.
  intros Hc Hc'. revert d'. induction d as [|a d IH]; intros [|a' d'] E; simpl in *.
  - by injection E as ->.
  - injection E as Ex E. exfalso. apply Hc. rewrite <- E. apply elem_of_app. right. by left.
  - injection E as Ex E. exfalso. apply Hc'. rewrite E. apply elem_of_app. right. by left.
  - injection E as Ex E. destruct (IH d' E) as [-> ->]. by rewrite Ex.
Qed.
(** An executable form. *)
Fixpoint split_last (path : bytes) : option (bytes * bytes) :=
  match path with
  | [] => None
  | a :: path =>
      match split_last path with
      | Some (d, c) => Some (a :: d, c)
      | None => if ceq a "/" then Some ([], path) else None
      end
  end.
Definition before_slash (path : bytes) : bytes := from_option fst path (split_last path).
Definition after_slash (path : bytes) : bytes := from_option snd path (split_last path).
Lemma splits_unique path d c : splits path d c <-> d = before_slash path /\ c = after_slash path.
Proof.
  assert (H : match split_last path with Some (d, c) => path = d ++ "/"%char :: c /\ "/"%char ∉ c | None => "/"%char ∉ path end).
  { induction path as [|a path IH]; [apply not_elem_of_nil|]. simpl. destruct (split_last path) as [[d' c']|].
    - destruct IH as [-> Hc]. by split.
    - destruct (ceq_spec a "/") as [->|Hne]; [by split|]. rewrite not_elem_of_cons. by split; [congruence|]. }
  unfold before_slash, after_slash. destruct (split_last path) as [[d' c']|]; simpl.
  - destruct H as [-> Hc]. split; [|intros [-> ->]; split; [done|by left]]. intros [Hc' [E|[E _]]].
    + apply app_cons_inj_last in E as [-> ->]; done.
    + subst c. exfalso. apply Hc', elem_of_app. right. by left.
  - split; [|intros [-> ->]; split; [done|by right]]. intros [Hc' [->|[<- ->]]]; [|done].
    exfalso. apply H, elem_of_app. right. by left.
Qed.
(** What is returned for the name [c]: the name, if it has an even number of characters. *)
Definition half_name (right_first : bool) (c : bytes) : bytes :=
  if right_first then if Nat.even (length c) then c else take (length c / 2) c else [].

Lemma half_name_spec rf c b i : NUL ∉ c -> (length c <= 2 * i)%nat -> swapped rf c i b -> fetch b (length c) = Some NUL ->
  string_at b = Some (half_name rf c).
Proof.
  intros Hnul Hi Hsw Hn.
  assert (Hgood : forall k x, (2 * k + 1 <> length c)%nat -> rf = true -> c !! k = Some x -> fetch b k = Some x).
  { intros k x Hk -> Hx. pose proof (lookup_lt_Some _ _ _ Hx). rewrite Hsw by done. rewrite bool_decide_true by done. simpl.
    destruct (Nat.ltb_spec k i); [done|]. destruct (Nat.leb_spec (length c - i) k); [done|lia]. }
  assert (Hbad : forall k, (k < length c)%nat -> (k < i)%nat -> rf && bool_decide (2 * k + 1 <> length c)%nat = false -> fetch b k = Some NUL).
  { intros k Hk Hki E. rewrite Hsw by done. destruct (Nat.ltb_spec k i); [|lia]. by rewrite E. }
  unfold half_name. destruct rf.
  - destruct (Nat.even (length c)) eqn:Ev.
    + apply Nat.even_spec in Ev as [m Hm]. apply string_at_spec; [|done|done]. intros k x Hx. apply Hgood; [lia|done|done].
    + assert (Hodd : Nat.odd (length c) = true) by (unfold Nat.odd; by rewrite Ev). apply Nat.odd_spec in Hodd as [m Hm].
      replace (length c / 2)%nat with m by (apply (Nat.div_unique _ 2 m 1); lia).
      apply string_at_spec.
      * intros k x [Hx Hk]%lookup_take_Some. apply Hgood; [lia|done|done].
      * rewrite length_take, Nat.min_l by lia. apply Hbad; [lia|lia|]. by rewrite bool_decide_false by lia.
      * intros Hx. apply Hnul. eapply elem_of_sublist; [exact Hx|apply sublist_take].
  - apply string_at_spec; [done| |by apply not_elem_of_nil]. simpl. destruct c as [|a c]; [done|]. apply Hbad; simpl in *; [lia|lia|done].
Qed.

Lemma splits_pre path d c : splits path d c -> exists pre, path = pre ++ c /\ (pre = [] \/ last pre = Some "/"%char).
Proof.
  intros [_ [->|[-> _]]]; [|by exists []; split; [|left]]. exists (d ++ ["/"%char]). rewrite <- app_assoc, last_snoc. split; [done|by right].
Qed.
Lemma basename_block rf path d c buf : splits path d c -> NUL ∉ c -> (length c < length buf)%nat ->
  exists b1 b2 b3, copy_back path (strlen path) 0 buf = Some (length c, b1) /\ put b1 (length c) NUL = Some b2 /\
    swap_loop rf (S (length c)) 0 (length c) b2 = Some b3 /\ length b3 = length buf /\ string_at b3 = Some (half_name rf c).
Proof.
  intros Hs Hnul Hlen. destruct (splits_pre _ _ _ Hs) as (pre & -> & Hpre). destruct Hs as [Hc _].
  destruct (copy_back_spec pre c 0 buf (length c) Hc Hpre) as (b1 & E1 & L1 & Hcop); [done|done|intros k Hk; lia|].
  destruct (put_some b1 (length c) NUL) as (b2 & E2 & L2); [lia|].
  destruct (swap_loop_spec rf c (S (length c)) 0 b2) as (b3 & i & E3 & L3 & Hi & Hsw & Hn); [lia|lia| | |].
  - intros k Hk. rewrite (fetch_put _ _ _ _ k E2), bool_decide_false, Hcop by lia. simpl.
    rewrite Nat.sub_0_r. destruct (Nat.leb_spec (length c) k); [lia|done].
  - by rewrite (fetch_put _ _ _ _ _ E2), bool_decide_true.
  - exists b1, b2, b3. split_and!; [|done|done|lia|by eapply half_name_spec].
    unfold strlen. by rewrite length_app.
Qed.
Lemma dirname_block path d c buf : splits path d c -> NUL ∉ path -> (length path < length buf)%nat ->
  exists b1 b2, copy_str path 0 buf = Some b1 /\ string_at b1 = Some path /\ cut_back (strlen path) b1 = Some b2 /\
    length b2 = length buf /\ string_at b2 = Some d.
Proof.
  intros [Hc Hs] Hnul Hlen. destruct (copy_str_spec path 0 buf) as (b1 & E1 & L1 & _ & Hat & Hn); [lia|]. simpl in Hat, Hn.
  assert (Hstr : string_at b1 = Some path) by by apply string_at_spec. destruct Hs as [->|[<- ->]].
  - destruct (put_some b1 (length d) NUL) as (b2 & E2 & L2); [rewrite length_app in Hlen; simpl in *; lia|].
    exists b1, b2. split_and!; [done|done| |lia|].
    + rewrite <- E2, <- (cut_back_at d c b1 (length c)) by done. f_equal. unfold strlen. rewrite length_app. simpl. lia.
    + apply string_at_spec.
      * intros k x Hx. pose proof (lookup_lt_Some _ _ _ Hx). rewrite (fetch_put _ _ _ _ k E2), bool_decide_false by lia.
        apply Hat. by rewrite lookup_app_l.
      * by rewrite (fetch_put _ _ _ _ _ E2), bool_decide_true.
      * intros Hx. apply Hnul, elem_of_app. by left.
  - exists b1, b1. split_and!; [done|done| |done|done]. by eapply cut_back_none.
Qed.

(** * Threads do not disturb each other *)

Inductive fn := Basename | Dirname.
#[export] Instance fn_eq_dec : EqDecision fn.
Proof. solve_decision. Defined.
Definition key_of (f : fn) : world -> option nat := match f with Basename => basename_key | Dirname => dirname_key end.
(** The buffer of a thread, for one of the functions. *)
Definition pointer_of (f : fn) (t : Z) (w : world) : option nat := key ← key_of f w; specific w !! (key, t).
Definition buffer_of (f : fn) (t : Z) (w : world) : option block := p ← pointer_of f t w; heap w !! p.

Record wf (w : world) : Prop := Wf {
  wf_keys : forall k, basename_key w = Some k \/ dirname_key w = Some k -> (k < keys w)%nat;
  wf_key_ne : forall k, basename_key w = Some k -> dirname_key w <> Some k;
  wf_specific : forall k t p, specific w !! (k, t) = Some p -> (k < keys w)%nat /\ (p < length (heap w))%nat;
  wf_inj : forall x y p, specific w !! x = Some p -> specific w !! y = Some p -> x = y;
  wf_size : Forall (fun b => length b = 1000%nat) (heap w)
}.
(** With [l] the results of the calls that can fail: the state between two calls, and at the end of a
    process that one of them ended. *)
Definition ok (l : list Z) (w : world) : Prop := wf w /\ faults w `suffix_of` l.
Definition ended (l : list Z) (e : ending) : Prop := (e = EExit EXIT_FAILURE \/ e = EAbort) /\ Exists (fun r => r <> 0) l.

Lemma errExitEN_ended strerror l r msg A Q s : Exists (fun r => r <> 0) l ->
  post Q (fun e _ => ended l e) (@errExitEN _ _ strerror A r msg (s : libc * world)).
Proof.
  intros Hl. unfold errExitEN. rewrite (bind_done _ _ _ _ _ (outputError_run strerror true r true msg s)), terminate_run.
  destruct (dump_core _); simpl; (split; [auto|done]).
Qed.
Lemma errExit_ended strerror l msg A Q s : Exists (fun r => r <> 0) l ->
  post Q (fun e _ => ended l e) (@errExit _ _ strerror A msg (s : libc * world)).
Proof.
  intros Hl. eapply post_mono; [| |exact (errExit_stops strerror (fun s => s.2) (fun _ _ => eq_refl) msg s (fun _ _ => False))]; [done|].
  intros e s' [He _]. by split.
Qed.

(** A call that can fail; the rest of the world is as it was. *)
Lemma fault_bind {A} l (k : Z -> M' A) Q E s : ok l s.2 ->
  (forall r fs, ok l (with_faults fs s.2) -> (r <> 0 -> Exists (fun r => r <> 0) l) -> post Q E (k r (s.1, with_faults fs s.2))) ->
  post Q E ((fault ≫= k) s).
Proof.
  intros [Hwf Hs] Hk. unfold fault. munfold. apply Hk.
  - split; [destruct Hwf; split; assumption|]. simpl. destruct (faults s.2) as [|r fs]; [done|]. by eapply suffix_cons_l.
  - destruct (faults s.2) as [|r fs]; [done|]. simpl. intros Hr. destruct Hs as [l' ->]. apply Exists_app. right. by left.
Qed.

Lemma pointer_inj w f t f' t' p : wf w -> pointer_of f t w = Some p -> pointer_of f' t' w = Some p -> f = f' /\ t = t'.
Proof.
  intros Hwf. unfold pointer_of. destruct (key_of f w) as [k|] eqn:Hk; [|done]. destruct (key_of f' w) as [k'|] eqn:Hk'; [|done]. simpl.
  intros Hp Hp'. pose proof (wf_inj w Hwf _ _ _ Hp Hp') as [= -> ->]. split; [|done].
  destruct f, f'; try done; simpl in *; exfalso; by eapply (wf_key_ne w Hwf).
Qed.

Lemma pointer_of_ext f t w w' : basename_key w' = basename_key w -> dirname_key w' = dirname_key w -> specific w' = specific w ->
  pointer_of f t w' = pointer_of f t w.
Proof. intros H1 H2 H3. unfold pointer_of. rewrite H3. destruct f; simpl; by rewrite ?H1, ?H2. Qed.

(** A buffer is filled. *)
Lemma store_spec l f t p b w : ok l w -> pointer_of f t w = Some p -> length b = 1000%nat ->
  let w' := World (basename_key w) (dirname_key w) (keys w) (specific w) (<[p := b]> (heap w)) (faults w) in
  ok l w' /\ buffer_of f t w' = Some b /\ forall f' t', (f', t') <> (f, t) -> buffer_of f' t' w' = buffer_of f' t' w.
Proof.
  intros [Hwf Hs] Hp Hb. simpl.
  assert (Hlt : (p < length (heap w))%nat).
  { unfold pointer_of in Hp. destruct (key_of f w) as [k|]; [|done]. apply (wf_specific w Hwf k t p Hp). }
  split_and!.
  - split; [|done]. destruct Hwf as [H1 H2 H3 H4 H5]. split; simpl; [done|done| |done|by apply Forall_insert].
    intros k t' p' Hp'. rewrite length_insert. by eapply H3.
  - unfold buffer_of. rewrite (pointer_of_ext f t w), Hp by done. simpl. by apply list_lookup_insert_eq.
  - intros f' t' Hne. unfold buffer_of. rewrite (pointer_of_ext f' t' w) by done.
    destruct (pointer_of f' t' w) as [p'|] eqn:Hp'; [|done]. simpl. apply list_lookup_insert_ne. intros ->.
    destruct (pointer_inj w f t f' t' p' Hwf Hp Hp') as [-> ->]. done.
Qed.

Section proofs.
Context (strerror : Z -> bytes) (right_first : bool).

Definition create_key (f : fn) : M' unit :=
  match f with Basename => create_basename_key strerror | Dirname => create_dirname_key strerror end.

(** pthread_once() leaves a key, and every buffer. *)
Lemma once_spec l f s : ok l s.2 ->
  post (fun _ s' => ok l s'.2 /\ is_Some (key_of f s'.2) /\ forall f' t, buffer_of f' t s'.2 = buffer_of f' t s.2)
    (fun e _ => ended l e) (pthread_once (key_of f) (create_key f) s).
Proof.
  intros Hok. unfold pthread_once. munfold. destruct (key_of f s.2) as [k|] eqn:Hk; [by split_and!|].
  assert (Hcreate : forall r fs, ok l (with_faults fs s.2) -> r = 0 -> let w := s.2 in
    let w' := match f with Basename => World (Some (keys w)) (dirname_key w) (S (keys w)) (specific w) (heap w) fs
              | Dirname => World (basename_key w) (Some (keys w)) (S (keys w)) (specific w) (heap w) fs end in
    ok l w' /\ is_Some (key_of f w') /\ forall f' t, buffer_of f' t w' = buffer_of f' t w).
  { intros r fs [[H1 H2 H3 H4 H5] Hs] _. simpl in *. split_and!.
    - split; [|by destruct f]. destruct f; (split; simpl; [intros k [Hk'|Hk']; simplify_eq; try lia; specialize (H1 k ltac:(auto)); lia| |
        intros k t p Hp; specialize (H3 k t p Hp); lia|done|done]).
      + intros k [= <-] Hd. specialize (H1 (keys s.2) ltac:(auto)). lia.
      + intros k Hb [= <-]. specialize (H1 (keys s.2) ltac:(auto)). lia.
    - by destruct f.
    - intros f' t. unfold buffer_of, pointer_of. destruct f, f'; simpl in *; try done; rewrite Hk; simpl.
      all: destruct (specific s.2 !! (keys s.2, t)) eqn:E; [apply H3 in E; lia|done]. }
  destruct f; simpl; [unfold create_basename_key|unfold create_dirname_key]; unfold pthread_key_create;
    rewrite bind_bind; (apply (fault_bind l); [done|]); intros r fs Hok' Hr; rewrite bind_bind; munfold;
    (destruct (Z.eqb_spec r 0) as [->|Hr0]; simpl; [exact (Hcreate 0 fs Hok' eq_refl)|]);
    rewrite (proj2 (Z.eqb_neq r 0) Hr0); apply errExitEN_ended; auto.
Qed.

(** malloc() and pthread_setspecific(), which fail only by a fault. *)
Definition allocated (n : nat) (fs : list Z) (w : world) : world :=
  World (basename_key w) (dirname_key w) (keys w) (specific w) (heap w ++ [replicate n None]) fs.
Lemma malloc_bind {A} l (k : option nat -> M' A) Q E s : ok l s.2 ->
  (forall fs, ok l (allocated 1000 fs s.2) -> post Q E (k (Some (length (heap s.2))) (s.1, allocated 1000 fs s.2))) ->
  (forall s', Exists (fun r => r <> 0) l -> post Q E (k None s')) ->
  post Q E ((malloc 1000 ≫= k) s).
Proof.
  intros Hok Hs Hf. unfold malloc. rewrite bind_bind. apply (fault_bind l); [done|]. intros r fs [[H1 H2 H3 H4 H5] Hfs] Hr.
  rewrite bind_bind, (bind_done (gets snd) _ _ (with_faults fs s.2) (s.1, with_faults fs s.2)) by done.
  destruct (Z.eqb_spec r 0) as [->|Hr0]; [|rewrite bind_bind; munfold; by apply Hf, Hr].
  refine (Hs fs _). assert (Hn : Forall (fun b => length b = 1000%nat) [replicate 1000 (@None ascii)]) by (by repeat constructor).
  split; [|done]. split; simpl in *; [done|done| |done|].
  - intros k' t p Hp. rewrite length_app. destruct (H3 k' t p Hp). simpl. lia.
  - by apply Forall_app.
Qed.
Definition bound (key : nat) (t : Z) (p : nat) (fs : list Z) (w : world) : world :=
  World (basename_key w) (dirname_key w) (keys w) (<[(key, t) := p]> (specific w)) (heap w) fs.
Lemma setspecific_bind {A} l key t p (k : Z -> M' A) Q E s : ok l s.2 ->
  (key < keys s.2)%nat -> (p < length (heap s.2))%nat -> (forall x, specific s.2 !! x <> Some p) ->
  (forall fs, ok l (bound key t p fs s.2) -> post Q E (k 0 (s.1, bound key t p fs s.2))) ->
  (forall r s', r <> 0 -> Exists (fun r => r <> 0) l -> post Q E (k r s')) ->
  post Q E ((pthread_setspecific key t p ≫= k) s).
Proof.
  intros Hok Hkey Hp Hnew Hs Hf. unfold pthread_setspecific. rewrite bind_bind. apply (fault_bind l); [done|].
  intros r fs [[H1 H2 H3 H4 H5] Hfs] Hr. rewrite bind_bind. destruct (Z.eqb_spec r 0) as [->|Hr0]; [|by apply Hf; [|apply Hr]].
  refine (Hs fs _). split; [|done]. split; simpl in *; [done|done| | |done].
  - intros k' t' p'. rewrite lookup_insert_Some. intros [[[= <- <-] <-]|[_ Hp']]; [done|by eapply H3].
  - intros x y p' Hx Hy. rewrite lookup_insert_Some in Hx, Hy. destruct Hx as [[<- <-]|[_ Hx]], Hy as [[<- Hy]|[_ Hy]]; try done.
    + by destruct (Hnew y).
    + subst p'. by destruct (Hnew x).
    + by eapply H4.
Qed.

(** The buffer of the thread, which is made on its first call. *)
Lemma thread_buffer_spec l f t key s : ok l s.2 -> key_of f s.2 = key -> is_Some key ->
  post (fun p s' => ok l s'.2 /\ pointer_of f t s'.2 = Some p /\ is_Some (heap s'.2 !! p) /\
      forall f' t', (f', t') <> (f, t) -> buffer_of f' t' s'.2 = buffer_of f' t' s.2)
    (fun e _ => ended l e) (thread_buffer strerror t key s).
Proof.
  intros Hok Hk [k ->]. unfold thread_buffer. rewrite (bind_done (deref (Some k)) _ s k s) by done.
  unfold pthread_getspecific. rewrite (bind_done (gets _) _ s (specific s.2 !! (k, t)) s) by done.
  assert (Hptr : pointer_of f t s.2 = specific s.2 !! (k, t)) by (unfold pointer_of; by rewrite Hk).
  destruct (specific s.2 !! (k, t)) as [p|] eqn:Hp.
  { simpl. split_and!; [done|done| |done]. apply lookup_lt_is_Some, (wf_specific _ (proj1 Hok) k t p Hp). }
  apply (malloc_bind l); [done| |intros s' Hl; by apply errExit_ended]. intros fs Hok1.
  apply (setspecific_bind l); [done| | | | |intros r s' Hr Hl; rewrite (proj2 (Z.eqb_neq r 0) Hr); by apply errExitEN_ended].
  - apply (wf_keys _ (proj1 Hok)). destruct f; auto.
  - simpl. rewrite length_app. simpl. lia.
  - intros [k' t'] Hx. simpl in Hx. apply (wf_specific _ (proj1 Hok)) in Hx. lia.
  - intros fs2 Hok2. simpl. split_and!; [done| | |].
    + unfold pointer_of. assert (key_of f (bound k t (length (heap s.2)) fs2 (allocated 1000 fs s.2)) = Some k) as -> by (by destruct f).
      apply lookup_insert_eq.
    + rewrite lookup_app_r, Nat.sub_diag by lia. by eexists.
    + intros f' t' Hne. unfold buffer_of, pointer_of.
      assert (key_of f' (bound k t (length (heap s.2)) fs2 (allocated 1000 fs s.2)) = key_of f' s.2) as -> by (by destruct f').
      destruct (key_of f' s.2) as [k'|] eqn:Hk'; [|done]. simpl. rewrite lookup_insert_ne.
      * destruct (specific s.2 !! (k', t')) as [p'|] eqn:Hp'; [|done]. simpl. apply lookup_app_l, (wf_specific _ (proj1 Hok) _ _ _ Hp').
      * intros [= <- <-]. destruct f, f'; simpl in *; try done; by eapply (wf_key_ne _ (proj1 Hok)).
Qed.
(** One call, by thread [t]. *)
Definition call (f : fn) (t : Z) (path : bytes) : M' nat :=
  match f with Basename => t_safe_basename strerror right_first t path | Dirname => t_safe_dirname strerror t path end.
Definition answer (f : fn) (path : bytes) : bytes :=
  match f with Basename => half_name right_first (after_slash path) | Dirname => before_slash path end.
Definition fits (f : fn) (path : bytes) : Prop :=
  NUL ∉ path /\ (length (match f with Basename => after_slash path | Dirname => path end) < 1000)%nat.
Definition string_in (f : fn) (t : Z) (w : world) : option bytes := b ← buffer_of f t w; string_at b.

Lemma after_slash_incl path x : x ∈ after_slash path -> x ∈ path.
Proof.
  destruct (proj2 (splits_unique path _ _) (conj eq_refl eq_refl)) as [_ [E|[E _]]].
  - rewrite E at 2. rewrite elem_of_app, elem_of_cons. auto.
  - by rewrite <- E.
Qed.

Lemma store_then l f t p b b' (s0 s : libc * world) : ok l s.2 -> pointer_of f t s.2 = Some p -> heap s.2 !! p = Some b ->
  length b' = length b ->
  (forall f' t', (f', t') <> (f, t) -> buffer_of f' t' s.2 = buffer_of f' t' s0.2) ->
  post (fun p s' => ok l s'.2 /\ pointer_of f t s'.2 = Some p /\ buffer_of f t s'.2 = Some b' /\
      forall f' t', (f', t') <> (f, t) -> buffer_of f' t' s'.2 = buffer_of f' t' s0.2)
    (fun e _ => ended l e) ((store p b';; mret p) s).
Proof.
  intros Hok Hp Hb Hlen Hframe. assert (Hb' : length b' = 1000%nat).
  { rewrite Hlen. exact (proj1 (Forall_lookup _ _) (wf_size _ (proj1 Hok)) p b Hb). }
  destruct (store_spec l f t p b' s.2 Hok Hp Hb') as (H1 & H2 & H3). simpl. split_and!; [exact H1| |exact H2|].
  - rewrite <- Hp. by apply pointer_of_ext.
  - intros f' t' Hne. rewrite <- Hframe by done. by apply H3.
Qed.

(** What a call does with its buffer. *)
Definition fill (f : fn) (path : bytes) (p : nat) : M' nat :=
  buf ← load p;
  match f with
  | Basename => '(sz, buf) ← deref (copy_back path (strlen path) 0 buf); buf ← deref (put buf sz NUL);
                buf ← deref (swap_loop right_first (S sz) 0 sz buf); store p buf;; mret p
  | Dirname => buf ← deref (copy_str path 0 buf); x ← deref (string_at buf); buf ← deref (cut_back (strlen x) buf); store p buf;; mret p
  end.
Definition filled (l : list Z) (f : fn) (t : Z) (path : bytes) (s0 : libc * world) (p : nat) (s : libc * world) : Prop :=
  ok l s.2 /\ pointer_of f t s.2 = Some p /\ string_in f t s.2 = Some (answer f path) /\
  forall f' t', (f', t') <> (f, t) -> buffer_of f' t' s.2 = buffer_of f' t' s0.2.

Lemma fill_spec l f t path p s0 s : ok l s.2 -> fits f path -> pointer_of f t s.2 = Some p -> is_Some (heap s.2 !! p) ->
  (forall f' t', (f', t') <> (f, t) -> buffer_of f' t' s.2 = buffer_of f' t' s0.2) ->
  post (filled l f t path s0) (fun e _ => ended l e) (fill f path p s).
Proof.
  intros Hok [Hnul Hfits] Hp [b Hb] Hframe. pose proof (proj2 (splits_unique path _ _) (conj eq_refl eq_refl)) as Hsp.
  unfold fill, load. rewrite bind_bind, (bind_done (gets _) _ s (Some b) s) by (unfold gets; by rewrite Hb).
  rewrite (bind_done (deref _) _ s b s) by done.
  assert (Hlen : length b = 1000%nat) by exact (proj1 (Forall_lookup _ _) (wf_size _ (proj1 Hok)) p b Hb).
  assert (Hend : forall b', length b' = length b -> string_at b' = Some (answer f path) ->
    post (filled l f t path s0) (fun e _ => ended l e) ((store p b';; mret p) s)).
  { intros b' Hl Hs. eapply post_mono; [| |exact (store_then l f t p b b' s0 s Hok Hp Hb Hl Hframe)]; [|done].
    intros p' s' (H1 & H2 & H3 & H4). split_and!; [done|done| |done]. unfold string_in. by rewrite H3. }
  destruct f.
  - destruct (basename_block right_first path _ _ b Hsp) as (b1 & b2 & b3 & E1 & E2 & E3 & L3 & Hs); [|by rewrite Hlen|].
    { intros Hx. by apply Hnul, after_slash_incl. }
    rewrite E1, (bind_done (deref _) _ s (length (after_slash path), b1) s) by done.
    rewrite E2, (bind_done (deref _) _ s b2 s), E3, (bind_done (deref _) _ s b3 s) by done. by apply Hend.
  - destruct (dirname_block path _ _ b Hsp Hnul) as (b1 & b2 & E1 & E2 & E3 & L3 & Hs); [by rewrite Hlen|].
    rewrite E1, (bind_done (deref _) _ s b1 s), E2, (bind_done (deref _) _ s path s), E3, (bind_done (deref _) _ s b2 s) by done.
    by apply Hend.
Qed.
Lemma call_spec l f t path s : ok l s.2 -> fits f path -> post (filled l f t path s) (fun e _ => ended l e) (call f t path s).
Proof.
  intros Hok Hfits. assert (Hcall : call f t path s = (pthread_once (key_of f) (create_key f);; key ← gets (fun s => key_of f s.2);
      p ← thread_buffer strerror t key; fill f path p) s) by by destruct f.
  rewrite Hcall. apply post_bind. eapply post_mono; [| |exact (once_spec l f s Hok)]; [|done].
  intros _ s1 (Hok1 & Hkey & Hb1). rewrite (bind_done (gets _) _ s1 (key_of f s1.2) s1) by done.
  apply post_bind. eapply post_mono; [| |exact (thread_buffer_spec l f t _ s1 Hok1 eq_refl Hkey)]; [|done].
  intros p s2 (Hok2 & Hp & Hb & Hframe). apply fill_spec; try done. intros f' t' Hne. rewrite Hframe by done. apply Hb1.
Qed.

(** What the last of the calls of a thread to a function returned. *)
Definition last_answer (f : fn) (t : Z) (calls : list (fn * Z * bytes)) (o : option bytes) : option bytes :=
  foldl (fun o '(f', t', path) => if bool_decide ((f', t') = (f, t)) then Some (answer f' path) else o) o calls.

End proofs.

(** * A run *)

Definition w0 : world := World None None 0 ∅ [] [].
Lemma w0_wf : wf w0.
Proof. by split; simpl; try (intros; destruct_or?; done); intros * H; rewrite lookup_empty in H. Qed.
(** Two threads; "10" comes back whole, "7" does not. *)
Definition two_threads : list (fn * Z * bytes) :=
  [(Basename, 10, str "a/10"); (Basename, 7, str "b/7"); (Dirname, 7, str "b/7"); (Dirname, 10, str "a/10")].

(** What the threads 7 and 12 of the program print. *)
Example test_7 : lc_pending (test (fun _ => []) true 7 (libc0, w0)).2.1 =
  str "ThreadID = 7" ++ [newline] ++ str "[7] path = [a/7/c/7]" ++ [newline] ++ str "[7] basename = []" ++ [newline] ++
  str "[7] dirname = [a/7/c]" ++ [newline].
Proof. by vm_compute. Qed.
Example test_12 : lc_pending (test (fun _ => []) true 12 (libc0, w0)).2.1 =
  str "ThreadID = 12" ++ [newline] ++ str "[12] path = [a/12/c/12]" ++ [newline] ++ str "[12] basename = [12]" ++ [newline] ++
  str "[12] dirname = [a/12/c]" ++ [newline].
Proof. by vm_compute. Qed.
