(* ===== verification/Getcwd.v ===== *)
(** The path of the current directory: exercises/18-directories-and-links/getcwd.c, which climbs to the root
    and looks in each directory for the one it comes from. *)
From S2P Require Import Prelude CLib Sys ErrorFunctions Calls.
#[local] Open Scope Z_scope.

(** A device and an i-node number. *)
Abbreviation id := (Z * Z)%type.

(** The calls, all of them on the current directory; readdir() gives the next name of a stream, and none at its end. *)
Class DirOS (S : Type) := {
  sys_open_dot : M S (sysres Z);
  sys_stat : bytes -> M S (sysres id);
  sys_chdir_up : M S (sysres unit);
  sys_opendir : M S (sysres Z);
  sys_readdir : Z -> M S (sysres (option bytes));
  sys_closedir : Z -> M S (sysres unit);
  sys_fchdir : Z -> M S (sysres unit)
}.

Section program.
Context {S : Type} `{HL : HasLibc S} `{HO : DirOS S} (strerror : Z -> bytes).

(** sprintf() into [tmp], then strcpy() into [cwd], both of 500 bytes. *)
Definition put500 (txt : bytes) : M S bytes := if (strlen txt <? 500)%nat then mret txt else undefined.

(** Source: exercises/18-directories-and-links/getcwd.c:49-65 (mygetcwd, inner loop). *)
Definition find_name (fuel : nat) (dir : Z) (dirStats : id) (cwd : bytes) : M S bytes :=
  iter fuel (fun _ =>
    set_errno 0;;
    dirEntry ← call (sys_readdir dir);
    match dirEntry with
    | None | Some None => mret (inr cwd)
    | Some (Some d_name) =>
        if streq d_name (str ".") || streq d_name (str "..") then mret (inl tt)
        else
          curStats ← echecked strerror (sys_stat d_name) (str "stat");
          if bool_decide (curStats = dirStats) then
            cwd ← put500 (d_name ++ (if ceq (char_at cwd 0) NUL then [] else str "/") ++ cwd);
            mret (inr cwd)
          else mret (inl tt)
    end) tt.
(** The loop variables are [upperDirStats] and [cwd]. *)
(** Source: exercises/18-directories-and-links/getcwd.c:28-69 (mygetcwd, loop body). *)
Definition climb_round (fuel : nat) (x : id * bytes) : M S ((id * bytes) + bytes) :=
  let '(upperDirStats, cwd) := x in
  let dirStats := upperDirStats in
  upperDirStats ← echecked strerror (sys_stat (str "..")) (str "stat");
  if bool_decide (dirStats = upperDirStats) then cwd ← put500 (str "/" ++ cwd); mret (inr cwd)
  else
    echecked strerror sys_chdir_up (str "chdir");;
    dir ← echecked strerror sys_opendir (str "opendir");
    cwd ← find_name fuel dir dirStats cwd;
    e ← get_errno;
    if negb (e =? 0) then errExit strerror (str "readdir")
    else
      r ← call (sys_closedir dir);
      (if r is None then errMsg strerror (str "closedir") else mret tt);;
      mret (inl (upperDirStats, cwd)).
(** Source: exercises/18-directories-and-links/getcwd.c:9-75 (mygetcwd). *)
Definition mygetcwd (fuel : nat) : M S bytes :=
  initFd ← echecked strerror sys_open_dot (str "open");
  upperDirStats ← echecked strerror (sys_stat (str ".")) (str "stat");
  cwd ← iter fuel (climb_round fuel) (upperDirStats, []);
  echecked strerror (sys_fchdir initFd) (str "fchdir");;
  mret cwd.
(** The second line is what getcwd() itself says, or "(null)". *)
(** Source: exercises/18-directories-and-links/getcwd.c:77-84 (main). *)
Definition main (fuel : nat) (sys_getcwd : M S (option bytes)) : M S unit :=
  path ← mygetcwd fuel;
  printf (path ++ [newline]);;
  cwd ← sys_getcwd;
  printf (default (str "(null)") cwd ++ [newline]).
End program.

(** * Directories *)

(** The parent of a directory, the names in it, in the order of readdir(), and what stat() finds there by a
    name: nothing, when the name is that of a symbolic link whose target is missing. *)
Record fs := FS {
  up : id -> id;
  names : id -> list bytes;
  target : id -> bytes -> option id
}.
Definition stat_at (f : fs) (d : id) (p : bytes) : option id :=
  if streq p (str ".") then Some d else if streq p (str "..") then Some (up f d) else target f d p.

(** The components of a path name, and where it leads. *)
Fixpoint split_slash (p : bytes) : list bytes :=
  match p with
  | [] => [[]]
  | c :: p =>
      if ceq c "/" then [] :: split_slash p
      else match split_slash p with [] => [[c]] | w :: ws => (c :: w) :: ws end
  end.
Definition components (p : bytes) : list bytes := filter (fun w => w <> []) (split_slash p).
Fixpoint walk (f : fs) (d : id) (ns : list bytes) : option id :=
  match ns with [] => Some d | n :: ns => d ← stat_at f d n; walk f d ns end.
Definition resolve (f : fs) (root : id) (p : bytes) : option id := walk f root (components p).

(** The current directory, the directories that are open, and what is left of the streams. *)
Record dview := DView { cwd : id; open_dirs : gmap Z id; streams : gmap Z (list bytes) }.

Definition is_name (n : bytes) : Prop := n <> [] /\ "/"%char ∉ n /\ NUL ∉ n.
Class DirSpec (S : Type) `{HL : HasLibc S} `{HO : !DirOS S} (f : fs) := {
  dv : S -> dview;
  dv_libc : forall l s, dv (set_libc l s) = dv s;
  names_ok : forall d n, n ∈ names f d -> is_name n;
  open_dot_spec : forall s, post (fun r s' => match r with
    | SOk fd => dv s' = DView (cwd (dv s)) (<[fd := cwd (dv s)]> (open_dirs (dv s))) (streams (dv s))
    | SErr _ => dv s' = dv s end) (fun _ _ => False) (sys_open_dot s);
  stat_spec : forall p s, post (fun r s' => dv s' = dv s /\ forall i, r = SOk i -> stat_at f (cwd (dv s)) p = Some i)
    (fun _ _ => False) (sys_stat p s);
  chdir_up_spec : forall s, post (fun r s' => match r with
    | SOk _ => dv s' = DView (up f (cwd (dv s))) (open_dirs (dv s)) (streams (dv s))
    | SErr _ => dv s' = dv s end) (fun _ _ => False) (sys_chdir_up s);
  opendir_spec : forall s, post (fun r s' => match r with
    | SOk d => dv s' = DView (cwd (dv s)) (open_dirs (dv s)) (<[d := names f (cwd (dv s))]> (streams (dv s)))
    | SErr _ => dv s' = dv s end) (fun _ _ => False) (sys_opendir s);
  readdir_spec : forall d s, post (fun r s' => match r with
    | SOk (Some n) => exists l, streams (dv s) !! d = Some (n :: l) /\ dv s' = DView (cwd (dv s)) (open_dirs (dv s)) (<[d := l]> (streams (dv s)))
    | SOk None => streams (dv s) !! d = Some [] /\ dv s' = dv s
    | SErr e => e <> 0 /\ dv s' = dv s end) (fun _ _ => False) (sys_readdir d s);
  closedir_spec : forall d s, post (fun _ s' => cwd (dv s') = cwd (dv s) /\ open_dirs (dv s') = open_dirs (dv s)) (fun _ _ => False) (sys_closedir d s);
  fchdir_spec : forall fd s, post (fun r s' => match r with
    | SOk _ => exists d, open_dirs (dv s) !! fd = Some d /\ dv s' = DView d (open_dirs (dv s)) (streams (dv s))
    | SErr _ => dv s' = dv s end) (fun _ _ => False) (sys_fchdir fd s)
}.

(** The path of the current directory, relative to the directory the program has climbed to. *)
Definition path_of (ns : list bytes) : bytes := foldr (fun n cwd => n ++ (if cwd is [] then [] else str "/") ++ cwd) [] ns.
Inductive climbs (f : fs) (d0 : id) : id -> list bytes -> Prop :=
| climbs_here : climbs f d0 d0 []
| climbs_up d ns n : climbs f d0 d ns -> n ∈ names f (up f d) -> n <> str "." -> n <> str ".." ->
    target f (up f d) n = Some d -> climbs f d0 (up f d) (n :: ns).

Lemma split_name n p : "/"%char ∉ n -> split_slash (n ++ "/"%char :: p) = n :: split_slash p.
Proof.
  induction n as [|c n IH]; [done|]. rewrite not_elem_of_cons. intros [Hc Hn]. simpl.
  destruct (ceq_spec c "/"); [congruence|]. by rewrite (IH Hn).
Qed.
Lemma split_last_name n : "/"%char ∉ n -> split_slash n = [n].
Proof.
  induction n as [|c n IH]; [done|]. rewrite not_elem_of_cons. intros [Hc Hn]. simpl.
  destruct (ceq_spec c "/"); [congruence|]. by rewrite (IH Hn).
Qed.
Lemma path_of_nil ns : Forall is_name ns -> path_of ns = [] -> ns = [].
Proof. intros H. destruct H as [|n ns Hn _]; [done|]. simpl. intros [E _]%app_eq_nil. by destruct Hn. Qed.
Lemma components_path_of ns : Forall is_name ns -> components (str "/" ++ path_of ns) = ns.
Proof.
  intros H. unfold components. simpl. rewrite filter_cons_False by (intros E; by apply E).
  induction H as [|n ns Hn Hns IH]; [done|]. simpl. destruct Hn as (Hne & Hsl & _).
  destruct (path_of ns) as [|c p] eqn:E.
  - apply path_of_nil in E as ->; [|done]. rewrite !app_nil_r, split_last_name by done. by rewrite filter_cons_True.
  - rewrite <- E in *. simpl app. rewrite split_name by done. rewrite filter_cons_True by done. by rewrite IH.
Qed.
Lemma climbs_walk f d0 d ns : climbs f d0 d ns -> walk f d ns = Some d0.
Proof.
  induction 1 as [|d ns n _ IH _ H1 H2 Ht]; [done|]. simpl. unfold stat_at, streq. rewrite !bool_decide_false by done. by rewrite Ht.
Qed.
Lemma path_of_start ns : Forall is_name ns -> ceq (char_at (path_of ns) 0) NUL = if path_of ns is [] then true else false.
Proof.
  intros H. destruct H as [|n ns [Hne [_ Hn]] _]; [done|]. simpl. destruct n as [|c n]; [done|]. simpl.
  unfold char_at. simpl. apply not_elem_of_cons in Hn as [Hc _]. destruct (ceq_spec c NUL); [congruence|done].
Qed.

(** * The program *)

Section proofs.
Context {S : Type} `{HL : HasLibc S} `{HO : !DirOS S} {f : fs} `{HD : !DirSpec S f} (strerror : Z -> bytes).
(** The current directory and the root above it; every directory between is in its parent under some name,
    and the paths fit in 500 bytes. *)
Context (d0 root : id) (Hroot : up f root = root).
Context (Hnamed : forall k, let d := Nat.iter k (up f) d0 in d <> root ->
  up f d <> d /\ exists n, n ∈ names f (up f d) /\ n <> str "." /\ n <> str ".." /\ target f (up f d) n = Some d).
Context (Hshort : forall d ns, climbs f d0 d ns -> (length (path_of ns) < 499)%nat).

(** What the search in the parent of [d] has come to, from the path [ns]. *)
Definition found (d : id) (ns : list bytes) (r : bytes) (s : S) : Prop :=
  lc_errno (libc_of s) <> 0 \/ exists n, r = path_of (n :: ns) /\ climbs f d0 (up f d) (n :: ns).
Definition parent_of (d : id) (v0 : dview) (s : S) : Prop := cwd (dv s) = up f d /\ open_dirs (dv s) = open_dirs v0.

Lemma climbs_names d ns : climbs f d0 d ns -> Forall is_name ns.
Proof. induction 1; constructor; [by eapply names_ok|done]. Qed.
Lemma set_errno_view e s : dv (set_errno e s).2 = dv s.
Proof. unfold set_errno. munfold. simpl. apply dv_libc. Qed.

Lemma find_name_spec fuel dir d ns v0 l s :
  climbs f d0 d ns -> parent_of d v0 s -> streams (dv s) !! dir = Some l -> (length l < fuel)%nat ->
  (forall n, n ∈ l -> n ∈ names f (up f d)) ->
  (exists n, n ∈ l /\ n <> str "." /\ n <> str ".." /\ target f (up f d) n = Some d) ->
  post (fun r s' => parent_of d v0 s' /\ found d ns r s') failed (find_name strerror fuel dir d (path_of ns) s).
Proof.
  intros Hcl. revert l s. induction fuel as [|fuel IH]; intros l s [Hcwd Hopen] Hl Hfuel Hin Hex; [lia|].
  unfold find_name. cbn [iter]. rewrite bind_bind.
  set (s1 := (set_errno 0 s).2). rewrite (bind_done (set_errno 0) _ s tt s1) by done.
  assert (Hv1 : dv s1 = dv s) by apply set_errno_view.
  rewrite bind_bind. eapply call_bind; [exact (readdir_spec dir s1)| |].
  - intros [n|] s2; [|intros [Hs _]; rewrite Hv1, Hl in Hs; injection Hs as ->; destruct Hex as (n & Hn & _); by apply not_elem_of_nil in Hn].
    intros (l' & Hs & Hv2). rewrite Hv1, Hl in Hs. injection Hs as ->. rewrite Hv1 in Hv2.
    assert (Hp2 : parent_of d v0 s2) by (split; by rewrite Hv2).
    assert (Hl2 : streams (dv s2) !! dir = Some l') by (rewrite Hv2; apply lookup_insert_eq).
    assert (Hcont : (exists m, m ∈ l' /\ m <> str "." /\ m <> str ".." /\ target f (up f d) m = Some d) ->
      forall s3, dv s3 = dv s2 ->
      post (fun r s' => parent_of d v0 s' /\ found d ns r s') failed (find_name strerror fuel dir d (path_of ns) s3)).
    { intros Hex' s3 Hv3. apply (IH l' s3); rewrite ?Hv3; [by unfold parent_of; rewrite Hv3|done|simpl in Hfuel; lia| |done].
      intros m Hm. apply Hin. by right. }
    destruct (streq n (str ".") || streq n (str "..")) eqn:Hdots.
    + rewrite mret_bind. apply Hcont; [|done]. destruct Hex as (m & [->|Hm]%elem_of_cons & H1 & H2 & H3); [|by exists m].
      apply orb_true_iff in Hdots as [E|E]; by apply bool_decide_eq_true in E.
    + apply orb_false_iff in Hdots as [E1%bool_decide_eq_false E2%bool_decide_eq_false].
      rewrite bind_bind. eapply echecked_bind; [exact (stat_spec n s2)|]. intros i s3 [Hv3 Hi]. specialize (Hi i eq_refl).
      destruct Hp2 as [Hc2 Ho2]. unfold stat_at, streq in Hi. rewrite Hc2, !bool_decide_false in Hi by done. case_bool_decide as Hid.
      * subst i. assert (Hup : climbs f d0 (up f d) (n :: ns)) by (constructor; [done|apply Hin; by left|done..]).
        pose proof (Hshort _ _ Hup) as Hlen. rewrite path_of_start by (by eapply climbs_names). simpl in Hlen.
        assert (E : n ++ (if if path_of ns is [] then true else false then [] else str "/") ++ path_of ns = path_of (n :: ns)) by (simpl; by destruct (path_of ns)).
        rewrite E. unfold put500. destruct (Nat.ltb_spec (strlen (path_of (n :: ns))) 500) as [_|]; [|unfold strlen in *; simpl in *; lia].
        rewrite bind_bind, !mret_bind. simpl. split; [split; by rewrite Hv3|]. right. by exists n.
      * apply Hcont; [|done]. destruct Hex as (m & [->|Hm]%elem_of_cons & H1 & H2 & H3); [congruence|by exists m].
  - intros e s2 [He Hv2]. rewrite mret_bind. split.
    + unfold parent_of. rewrite set_errno_view, Hv2, Hv1. done.
    + left. unfold set_errno. munfold. simpl. by rewrite libc_of_set.
Qed.
Lemma errMsg_view msg s : exists s', errMsg strerror msg s = (Done tt, s') /\ dv s' = dv s.
Proof. eexists. split; [exact (proj1 (errMsg_correct strerror msg s))|]. apply dv_libc. Qed.

Definition climbed (v0 : dview) (x : id * bytes) (s : S) : Prop :=
  exists ns k, x.1 = Nat.iter k (up f) d0 /\ x.2 = path_of ns /\ climbs f d0 x.1 ns /\ cwd (dv s) = x.1 /\ open_dirs (dv s) = open_dirs v0.

Lemma climb_round_spec fuel v0 x s : (forall d, (length (names f d) < fuel)%nat) -> climbed v0 x s ->
  post (fun r s' => match r with
    | inl x' => x.1 <> root /\ x'.1 = up f x.1 /\ climbed v0 x' s'
    | inr p => (resolve f root p = Some d0 /\ head p = Some "/"%char) /\ open_dirs (dv s') = open_dirs v0
    end) failed (climb_round strerror fuel x s).
Proof.
  intros Hfuel (ns & k & Hu & Hp & Hcl & Hcwd & Hopen). destruct x as [u p]. simpl in *. subst p.
  eapply echecked_bind; [exact (stat_spec (str "..") s)|]. intros i s1 [Hv1 Hi]. specialize (Hi i eq_refl).
  rewrite Hcwd in Hi. injection Hi as <-.
  destruct (decide (u = root)) as [Heq|Hne].
  { rewrite bool_decide_true by congruence. unfold put500. pose proof (Hshort _ _ Hcl).
    rewrite (proj2 (Nat.ltb_lt _ _)) by (unfold strlen; simpl; lia). rewrite mret_bind. split; [|by rewrite Hv1]. split; [|done].
    change (walk f root (components (str "/" ++ path_of ns)) = Some d0). rewrite components_path_of by (by eapply climbs_names).
    rewrite <- Heq. by apply climbs_walk. }
  subst u. destruct (Hnamed k Hne) as [Hup Hex]. set (u := Nat.iter k (up f) d0) in *. rewrite bool_decide_false by congruence.
  eapply echecked_bind; [exact (chdir_up_spec s1)|]. intros [] s2 Hv2. rewrite Hv1, Hcwd in Hv2.
  eapply echecked_bind; [exact (opendir_spec s2)|]. intros dir s3 Hv3. rewrite Hv2 in Hv3. simpl in Hv3.
  apply post_bind. eapply post_mono; [|intros e s' He; exact He|].
  2: { apply (find_name_spec fuel dir u ns v0 (names f (up f u))); [done| | |done|done|done].
       - split; rewrite Hv3; [done|]. simpl. congruence.
       - rewrite Hv3. apply lookup_insert_eq. }
  intros p s4 [[Hc4 Ho4] Hf4]. unfold get_errno. rewrite (bind_done (gets _) _ s4 (lc_errno (libc_of s4)) s4) by done.
  destruct (Z.eqb_spec (lc_errno (libc_of s4)) 0) as [He|He]; [|apply errExit_failed].
  destruct Hf4 as [|(n & -> & Hcl')]; [done|].
  cbn [negb]. assert (Hend : forall s5, cwd (dv s5) = up f u -> open_dirs (dv s5) = open_dirs v0 ->
    climbed v0 (up f u, path_of (n :: ns)) s5).
  { intros s5 Hc5 Ho5. exists (n :: ns), (Datatypes.S k). done. }
  eapply call_bind; [exact (closedir_spec dir s4)| |].
  - intros [] s5 [Hc5 Ho5]. rewrite mret_bind. split; [done|]. split; [done|]. apply Hend; congruence.
  - intros e s5 [Hc5 Ho5]. destruct (errMsg_view (str "closedir") (set_errno e s5).2) as (s6 & Hr6 & Hv6).
    rewrite (bind_done _ _ _ _ _ Hr6). rewrite set_errno_view in Hv6. split; [done|]. split; [done|]. apply Hend; rewrite Hv6; congruence.
Qed.

Lemma climb_spec ifuel fuel k v0 x s : (forall d, (length (names f d) < ifuel)%nat) -> (k < fuel)%nat ->
  Nat.iter k (up f) x.1 = root -> climbed v0 x s ->
  post (fun p s' => (resolve f root p = Some d0 /\ head p = Some "/"%char) /\ open_dirs (dv s') = open_dirs v0) failed (iter fuel (climb_round strerror ifuel) x s).
Proof.
  intros Hifuel. revert fuel x s. induction k as [|k IH]; intros [|fuel] x s Hfuel Hk Hcl; try lia; simpl.
  - apply post_bind. eapply post_mono; [|intros e s' He; exact He|exact (climb_round_spec ifuel v0 x s Hifuel Hcl)].
    intros [x'|p] s' H; [|done]. destruct H as [Hne _]. by destruct Hne.
  - apply post_bind. eapply post_mono; [|intros e s' He; exact He|exact (climb_round_spec ifuel v0 x s Hifuel Hcl)].
    intros [x'|p] s' H; [|done]. destruct H as (_ & Hx & Hcl'). apply IH; [lia| |done]. by rewrite Hx, <- Nat.iter_succ_r.
Qed.
(** C11: mygetcwd() returns an absolute path that leads from the root to the current directory (through the
    symbolic links, if it went by one), and the current directory is what it was; or, when a call fails, the
    program ends with a diagnostic and a failure status. The root is above the current directory, every
    directory on the way has a name in its parent, and the path fits in 500 bytes; the loops take at most
    as many rounds as there are directories above, and entries in one of them. *)
Theorem mygetcwd_correct fuel k s : cwd (dv s) = d0 -> Nat.iter k (up f) d0 = root -> (k < fuel)%nat ->
  (forall d, (length (names f d) < fuel)%nat) ->
  post (fun p s' => resolve f root p = Some d0 /\ head p = Some "/"%char /\ cwd (dv s') = d0) failed (mygetcwd strerror fuel s).
Proof.
  intros Hcwd Hk Hfuel Hnames. unfold mygetcwd.
  eapply echecked_bind; [exact (open_dot_spec s)|]. intros fd s1 Hv1. rewrite Hcwd in Hv1.
  eapply echecked_bind; [exact (stat_spec (str ".") s1)|]. intros i s2 [Hv2 Hi]. specialize (Hi i eq_refl).
  rewrite Hv1 in Hi. injection Hi as <-.
  apply post_bind. eapply post_mono; [|intros e s' He; exact He|].
  2: { apply (climb_spec fuel fuel k (dv s2) (d0, []) s2 Hnames Hfuel Hk). exists [], 0%nat. split_and!; try done; [constructor|by rewrite Hv2, Hv1]. }
  intros p s3 [[Hp Hh] Ho3]. eapply echecked_bind; [exact (fchdir_spec fd s3)|]. intros [] s4 (d & Hd & Hv4).
  rewrite Ho3, Hv2, Hv1 in Hd. simpl in Hd. rewrite lookup_insert_eq in Hd. injection Hd as <-. simpl. by rewrite Hv4.
Qed.
End proofs.

(** * A run *)

(** The root 2 has the directory 3 as "home", 3 has 4 as "me", and, listed before it, a link to 4. *)
Definition toy_fs : fs := FS
  (fun d => if bool_decide (d = (1, 4)) then (1, 3) else (1, 2))
  (fun d => if bool_decide (d = (1, 2)) then [str "."; str ".."; str "home"] else
            if bool_decide (d = (1, 3)) then [str "."; str ".."; str "link"; str "me"] else [str "."; str ".."])
  (fun d n => if bool_decide (d = (1, 2) /\ n = str "home") then Some (1, 3) else
              if bool_decide (d = (1, 3) /\ (n = str "me" \/ n = str "link")) then Some (1, 4) else None).
Definition toy : Type := libc * dview.
#[export] Instance toy_dir : DirOS toy := {
  sys_open_dot s := (Done (SOk 3), (s.1, DView (cwd s.2) (<[3 := cwd s.2]> (open_dirs s.2)) (streams s.2)));
  sys_stat p s := (Done (from_option SOk (SErr ENOENT) (stat_at toy_fs (cwd s.2) p)), s);
  sys_chdir_up s := (Done (SOk tt), (s.1, DView (up toy_fs (cwd s.2)) (open_dirs s.2) (streams s.2)));
  sys_opendir s := (Done (SOk 4), (s.1, DView (cwd s.2) (open_dirs s.2) (<[4 := names toy_fs (cwd s.2)]> (streams s.2))));
  sys_readdir d s := match streams s.2 !! d with
    | Some (n :: l) => (Done (SOk (Some n)), (s.1, DView (cwd s.2) (open_dirs s.2) (<[d := l]> (streams s.2))))
    | Some [] => (Done (SOk None), s)
    | None => (Done (SErr EBADF), s)
    end;
  sys_closedir _ s := (Done (SOk tt), s);
  sys_fchdir fd s := match open_dirs s.2 !! fd with
    | Some d => (Done (SOk tt), (s.1, DView d (open_dirs s.2) (streams s.2)))
    | None => (Done (SErr EBADF), s)
    end
}.
#[export, refine] Instance toy_spec : DirSpec toy toy_fs := {| dv := snd |}.
Proof.
  - done.
  - intros d n Hn. simpl in Hn. repeat case_bool_decide; rewrite !elem_of_cons, elem_of_nil in Hn; destruct_or? Hn; try done; subst n;
      by apply (bool_decide_unpack _).
  - done.
  - intros p s. simpl. destruct (stat_at toy_fs (cwd s.2) p) eqn:E; simpl; split; try done. by intros i [= <-].
  - done.
  - done.
  - intros d s. simpl. destruct (streams s.2 !! d) as [[|n l]|]; simpl; [done|by exists l|done].
  - done.
  - intros fd s. simpl. destruct (open_dirs s.2 !! fd) as [d|]; simpl; [by exists d|done].
Defined.
Definition in_me : toy := (libc0, DView (1, 4) ∅ ∅).
Lemma toy_iter k : Nat.iter k (up toy_fs) (1, 4) = (1, 4) \/ Nat.iter k (up toy_fs) (1, 4) = (1, 3) \/ Nat.iter k (up toy_fs) (1, 4) = (1, 2).
Proof. induction k as [|k IH]; [by left|]. rewrite Nat.iter_succ. destruct IH as [-> | [-> | ->]]; auto. Qed.
Lemma toy_climbs d ns : climbs toy_fs (1, 4) d ns ->
  (d = (1, 4) /\ ns = []) \/ exists n, (n = str "me" \/ n = str "link") /\ (d = (1, 3) /\ ns = [n] \/ d = (1, 2) /\ ns = [str "home"; n]).
Proof.
  induction 1 as [|d ns n _ IH _ _ _ Ht]; [by left|]. right. cbn [target toy_fs] in Ht.
  destruct IH as [[-> ->]|(m & Hm & [[-> ->]|[-> ->]])].
  - exists n. case_bool_decide as H1; [done|]. case_bool_decide as H2; [|done]. split; [tauto|by left].
  - exists m. case_bool_decide as H1; [|by case_bool_decide]. destruct H1 as [_ ->]. split; [done|by right].
  - exfalso. case_bool_decide as H1; [done|]. by case_bool_decide.
Qed.
(** The link comes first: its name is in the path. *)
Lemma mygetcwd_correct_witness :
  post (fun p s' => resolve toy_fs (1, 2) p = Some (1, 4) /\ head p = Some "/"%char /\ cwd (dv s') = (1, 4)) failed (mygetcwd (fun _ => []) 10 in_me) /\
  (mygetcwd (fun _ => []) 10 in_me).1 = Done (str "/home/link").
Proof.
  split; [|by vm_compute]. refine (mygetcwd_correct (fun _ => []) (1, 4) (1, 2) eq_refl _ _ 10 2 in_me eq_refl eq_refl _ _).
  - intros k d Hd. subst d. destruct (toy_iter k) as [E|[E|E]]; rewrite E in Hd |- *; [| |done].
    + split; [done|]. exists (str "me"). split; [|done]. by apply (bool_decide_unpack _).
    + split; [done|]. exists (str "home"). split; [|done]. by apply (bool_decide_unpack _).
  - intros d ns [[_ ->]|(n & [-> | ->] & [[_ ->]|[_ ->]])]%toy_climbs; apply Nat.ltb_lt; by vm_compute.
  - lia.
  - intros d. simpl. repeat case_bool_decide; simpl; lia.
Defined.
