(* ===== verification/KvServer.v ===== *)
(** A key-value server over TCP: exercises/59-sockets-internet-domains/kv_server.c. *)
From S2P Require Import Prelude CLib Sys ErrorFunctions Calls ReadWrite InetSockets.
#[local] Open Scope Z_scope.

Definition ADDRSTRLEN : nat := 1067.
Definition SERVER_PORT : bytes := str "50000".
Definition BACKLOG : Z := 5.
Definition REQ_MAX_LEN : nat := 100.

(** accept(), with the address of the peer, and signal(SIGPIPE, SIG_IGN), which returns the disposition
    before (0 is SIG_DFL) or -1. *)
Class KvOS (S : Type) := {
  sys_accept : Z -> M S (sysres (Z * bytes));
  sys_signal_sigpipe : M S Z
}.

(** sscanf(s, "%c %d %d", &op, &k, &v): the variables it sets. *)
Definition scan_int (s : bytes) : option (Z * bytes) :=
  let r := strtol s 10 in
  if (length (sl_endptr r) =? length s)%nat then None else Some (i32 (sl_value r), sl_endptr r).
Definition sscanf_request (s : bytes) : option ascii * option Z * option Z :=
  match s with
  | [] => (None, None, None)
  | op :: s =>
      match scan_int s with
      | None => (Some op, None, None)
      | Some (k, s) => (Some op, Some k, fst <$> scan_int s)
      end
  end.

Section program.
Context {S : Type} `{HL : HasLibc S} `{HO : InetOS S} `{HK : KvOS S} `{HR : ReadOS S} `{HW : WriteOS S}.
Context (strerror : Z -> bytes) (gai_strerror : bytes).

(** It is the function of lib/read_line.c, copied. *)
(** Source: exercises/59-sockets-internet-domains/kv_server.c:17-58 (readLine). *)
Definition readLine (fuel : nat) (fd : Z) (n : nat) : M S (sysres (nat * option bytes)) := ReadWrite.readLine fuel fd false n.

Definition response (k v : Z) : bytes := str "[" ++ print_dec k ++ str "]=" ++ print_dec v ++ [newline].

(** The request on a connection, once it has been read; variables that sscanf() does not set have no value. *)
(** Source: exercises/59-sockets-internet-domains/kv_server.c:145-168 (main, request). *)
Definition answer (cfd : Z) (reqStr : bytes) (storage : list Z) : M S (list Z + Empty_set) :=
  let '(op, k, v) := sscanf_request (cstring reqStr) in
  k ← deref k;
  if 100 <=? k then call (sys_close cfd);; mret (inl storage)
  else
    op ← deref op;
    storage ← (if ceq op "S" then
                 v ← deref v;
                 printf (str "Set [" ++ print_dec k ++ str "]=" ++ print_dec v ++ [newline]);;
                 if k <? 0 then undefined else mret (<[Z.to_nat k := v]> storage)
               else mret storage);
    x ← (if k <? 0 then undefined else deref (storage !! Z.to_nat k));
    w ← call (sys_write cfd (response k x));
    if negb (bool_decide (w = Some (length (response k x)))) then
      errMsg strerror (str "write");; call (sys_close cfd);; mret (inl storage)
    else
      c ← call (sys_close cfd);
      when (bool_decide (c = None)) (errMsg strerror (str "close"));;
      mret (inl storage).
(** Source: exercises/59-sockets-internet-domains/kv_server.c:123-169 (main, loop). *)
Definition serve_round (rfuel : nat) (sfd : Z) (storage : list Z) : M S (list Z + Empty_set) :=
  c ← call (sys_accept sfd);
  match c with
  | None => errMsg strerror (str "accept");; mret (inl storage)
  | Some (cfd, claddr) =>
      nm ← sys_getnameinfo claddr;
      let str_addr := snprintf ADDRSTRLEN (match nm with
        | Some (host, service) => str "(" ++ host ++ str ", " ++ service ++ str ")"
        | None => str "(?UNKOWN?)"
        end) in
      printf (str "Connection from " ++ str_addr ++ [newline]);;
      r ← call (readLine rfuel cfd REQ_MAX_LEN);
      match r with
      | None | Some (O, _) | Some (_, None) => errMsg strerror (str "readLine");; call (sys_close cfd);; mret (inl storage)
      | Some (Datatypes.S _, Some reqStr) => answer cfd reqStr storage
      end
  end.
Definition server_loop (fuel rfuel : nat) (sfd : Z) (storage : list Z) : M S Empty_set := iter fuel (serve_round rfuel sfd) storage.

(** Source: exercises/59-sockets-internet-domains/kv_server.c:87-110 (main, bind loop). *)
Fixpoint kv_bind (result : list addrinfo) : M S (option Z) :=
  match result with
  | [] => mret None
  | rp :: rest =>
      sfd ← call (sys_socket rp);
      match sfd with
      | None => kv_bind rest
      | Some sfd =>
          if sfd <=? 0 then kv_bind rest
          else
            echecked strerror (sys_reuseaddr sfd) (str "setsockopt");;
            b ← call (sys_bind sfd rp);
            match b with
            | Some _ =>
                nm ← sys_getnameinfo (ai_addr rp);
                match nm with
                | None => printf (str "getnameinfo: " ++ gai_strerror ++ [newline]);; c_exit EXIT_FAILURE
                | Some (host, service) => printf (str "(" ++ host ++ str ", " ++ service ++ str ")" ++ [newline]);; mret (Some sfd)
                end
            | None => call (sys_close sfd);; kv_bind rest
            end
      end
  end.
(** Source: exercises/59-sockets-internet-domains/kv_server.c:60-170 (main). *)
Definition main (fuel rfuel : nat) : M S Empty_set :=
  h ← sys_signal_sigpipe;
  if negb (h =? 0) then errExit strerror (str "signal")
  else
    g ← sys_getaddrinfo None SERVER_PORT (Hints (Z.lor AI_PASSIVE AI_NUMERICSERV) AF_UNSPEC SOCK_STREAM);
    match g with
    | None => errExit strerror (str "getaddrinfo")
    | Some result =>
        sfd ← kv_bind result;
        match sfd with
        | None => fatal strerror (str "Couldn't bind socket to any address")
        | Some sfd =>
            sys_freeaddrinfo;;
            echecked strerror (sys_listen sfd BACKLOG) (str "listen");;
            server_loop fuel rfuel sfd (replicate 100 0)
        end
    end.
End program.

(** * What the calls do *)

(** A connection, with all that its client sends; what was sent to it; a read or a write that failed. *)
Inductive ev := Conn (fd : Z) (inp : bytes) | Sent (fd : Z) (bs : bytes) | Broken (fd : Z).
Class KvSpec (S : Type) `{HL : HasLibc S} `{HO : !InetOS S} `{HK : !KvOS S} `{HR : ReadOS S} `{HW : WriteOS S} `{HRS : !ReadSpec S} := {
  log : S -> list ev;
  log_libc : forall l s, log (set_libc l s) = log s;
  input_libc : forall l s fd, input (set_libc l s) fd = input s fd;
  log_accept : forall fd s, post (fun r s' => match r with
    | SOk (cfd, _) => log s' = log s ++ [Conn cfd (input s' cfd)]
    | SErr _ => log s' = log s end) (fun _ _ => False) (sys_accept fd s);
  log_read : forall fd n s, post (fun r s' => log s' = log s ++ match r with
    | SErr e => if e =? EINTR then [] else [Broken fd]
    | SOk _ => [] end) (fun _ _ => False) (sys_read fd n s);
  log_write : forall fd bs s, post (fun r s' => log s' = log s ++ match r with
    | SOk n => [Sent fd (take n bs)]
    | SErr _ => [Broken fd] end) (fun _ _ => False) (sys_write fd bs s);
  log_close : forall fd s, post (fun _ s' => log s' = log s) (fun _ _ => False) (sys_close fd s);
  log_getnameinfo : forall a s, post (fun _ s' => log s' = log s /\ forall fd, input s' fd = input s fd) (fun _ _ => False) (sys_getnameinfo a s)
}.

(** * A map from keys to values *)

(** What a client asks: the first 99 bytes of its first line. *)
Definition asked (inp : bytes) : option ascii * option Z * option Z := sscanf_request (cstring (take (REQ_MAX_LEN - 1) (line_of inp))).
(** A connection: one that is not answered, or one whose request was for the key [k]. *)
Inductive session := Idle (l : list ev) | Served (fd : Z) (inp : bytes) (k : Z) (answer : ev).
Definition events (x : session) : list ev := match x with Idle l => l | Served fd inp k a => [Conn fd inp; a] end.
Definition set_by (x : session) : option (Z * Z) :=
  match x with
  | Served _ inp k _ => if asked inp is (Some op, _, Some v) then if ceq op "S" then Some (k, v) else None else None
  | Idle _ => None
  end.
(** The value of the key: the one set last, at first 0. *)
Definition current (k : Z) (l : list session) : Z :=
  foldl (fun x y => if set_by y is Some (k', v) then if k' =? k then v else x else x) 0 l.
(** A session after those of [before]. *)
Definition proper (before : list session) (x : session) : Prop :=
  match x with
  | Idle l => l = [] \/ (exists fd inp, l = [Conn fd inp; Broken fd]) \/
      exists fd inp, l = [Conn fd inp] /\ (inp = [] \/ exists op k v, asked inp = (op, Some k, v) /\ 100 <= k)
  | Served fd inp k a => exists op v, asked inp = (Some op, Some k, v) /\ 0 <= k < 100 /\ (op = "S"%char -> is_Some v) /\
      (a = Broken fd \/ exists n, a = Sent fd (take n (response k (current k (before ++ [x])))))
  end.
Definition history (l : list session) : Prop := forall i x, l !! i = Some x -> proper (take i l) x.
(** A request that makes the server read a variable without a value, or memory before the array. *)
Definition unsafe (inp : bytes) : Prop :=
  match asked inp with
  | (_, None, _) => True
  | (op, Some k, v) => k < 0 \/ k < 100 /\ op = Some "S"%char /\ v = None
  end.

Lemma sessions_snoc l x : history l -> proper l x -> history (l ++ [x]).
Proof.
  intros Hl Hx i y Hy. apply lookup_app_Some in Hy as [Hy|[Hi Hy]].
  - rewrite take_app_le by (apply lookup_lt_Some in Hy; lia). by apply Hl.
  - apply list_lookup_singleton_Some in Hy as [Hi0 <-]. replace i with (length l) by lia. by rewrite take_app_length.
Qed.
Lemma current_snoc k l x : current k (l ++ [x]) = if set_by x is Some (k', v) then if k' =? k then v else current k l else current k l.
Proof. unfold current. rewrite foldl_app. done. Qed.
(** The array has the current values. *)
Definition stored (storage : list Z) (l : list session) : Prop :=
  length storage = 100%nat /\ forall k, 0 <= k < 100 -> storage !! Z.to_nat k = Some (current k l).

(** More fuel does not change what a loop returns. *)
Lemma iter_more {S X R} (body : X -> M S (X + R)) fuel n x s : (iter fuel body x s).1 <> OutOfFuel -> iter (fuel + n) body x s = iter fuel body x s.
Proof.
  revert x s. induction fuel as [|fuel IH]; intros x s H; [done|]. simpl in *. munfold. unfold mbind, M_bind in H.
  destruct (body x s) as [[[x'|r]| | | |] s']; try done. by apply IH.
Qed.
Lemma iter_keeps {S X R} (body : X -> M S (X + R)) (I : S -> Prop) (Q : R -> S -> Prop) fuel x s :
  (forall x s, I s -> post (fun r s' => match r with inl _ => I s' | inr r => Q r s' end) (fun _ _ => False) (body x s)) ->
  I s -> post Q (fun e s' => e = EFuel /\ I s') (iter fuel body x s).
Proof.
  intros Hb. revert x s. induction fuel as [|fuel IH]; intros x s Hs; simpl; [done|]. apply post_bind.
  eapply post_mono; [| |exact (Hb x s Hs)]; [|done]. intros [x'|r] s' H; [by apply IH|done].
Qed.

(** * The server *)

Section proofs.
Context {S : Type} `{HL : HasLibc S} `{HO : !InetOS S} `{HK : !KvOS S} `{HR : ReadOS S} `{HW : WriteOS S} `{HRS : !ReadSpec S} `{HS : !KvSpec S}.
Context (strerror : Z -> bytes).

Lemma readLine_spec fuel fd s :
  post (fun r s' => match r with
    | SOk res => res = readLine_result REQ_MAX_LEN (input s fd) /\ log s' = log s
    | SErr _ => log s' = log s ++ [Broken fd] end)
    (fun e s' => e = EFuel /\ log s' = log s) (readLine fuel fd REQ_MAX_LEN s).
Proof.
  assert (Hlog : post (fun r s' => log s' = log s ++ match r with SOk _ => [] | SErr _ => [Broken fd] end)
    (fun e s' => e = EFuel /\ log s' = log s) (readLine fuel fd REQ_MAX_LEN s)).
  { apply (iter_keeps _ (fun s' => log s' = log s)); [|done]. intros [tot buf] s1 Hs1. apply post_bind.
    eapply post_mono; [| |exact (log_read fd 1 s1)]; [|done]. rewrite Hs1. intros [[|c bs]|e] s2 Hs2; rewrite ?app_nil_r in Hs2.
    - by destruct (tot =? 0)%nat; simpl; rewrite app_nil_r.
    - destruct (tot <? REQ_MAX_LEN - 1)%nat; destruct (ceq c newline); simpl; by rewrite ?app_nil_r.
    - destruct (e =? EINTR); simpl; by rewrite ?app_nil_r in Hs2. }
  assert (E : (readLine fuel fd REQ_MAX_LEN s).1 = OutOfFuel \/ (readLine fuel fd REQ_MAX_LEN s).1 <> OutOfFuel)
    by (destruct (readLine fuel fd REQ_MAX_LEN s).1; auto; by right).
  destruct E as [E|E].
  { destruct (readLine fuel fd REQ_MAX_LEN s) as [o s']. simpl in E. by subst o. }
  set (n := Datatypes.S (length (input s fd) + signals s)).
  pose proof (readLine_correct (fuel + n) fd REQ_MAX_LEN s ltac:(unfold REQ_MAX_LEN; lia) ltac:(lia)) as Hc.
  unfold readLine, ReadWrite.readLine in *. change ((REQ_MAX_LEN =? 0)%nat || false) with false in *. cbv iota in *. rewrite iter_more in Hc by done.
  destruct (iter fuel _ _ s) as [[[res|e]| | | |] s']; simpl in *; try done.
  destruct Hc as [-> _]. rewrite app_nil_r in Hlog. done.
Qed.
(** After a round, and where the loop ends: for want of fuel, or with an unsafe request. *)
Definition logged (l0 : list ev) (l : list session) : list ev := l0 ++ (l ≫= events).
Definition after_round (l0 : list ev) (l : list session) (r : list Z + Empty_set) (s : S) : Prop :=
  exists storage x, r = inl storage /\ proper l x /\ stored storage (l ++ [x]) /\ log s = logged l0 (l ++ [x]).
Definition ends (l0 : list ev) (l : list session) (e : ending) (s : S) : Prop :=
  (e = EFuel /\ (log s = logged l0 l \/ exists fd inp, log s = logged l0 l ++ [Conn fd inp])) \/
  (e = EUndef /\ exists fd inp, log s = logged l0 l ++ [Conn fd inp] /\ unsafe inp).

Lemma logged_snoc l0 l x : logged l0 (l ++ [x]) = logged l0 l ++ events x.
Proof. unfold logged. rewrite bind_app. simpl. by rewrite app_nil_r, app_assoc. Qed.

Lemma errMsg_then {B} msg (k : M S B) Q E s : (forall s', log s' = log s -> post Q E (k s')) -> post Q E ((errMsg strerror msg;; k) s).
Proof. intros Hk. rewrite (bind_done _ _ _ _ _ (proj1 (errMsg_correct strerror msg s))). apply Hk, log_libc. Qed.
Lemma log_set_errno e s : log (set_errno e s).2 = log s.
Proof. unfold set_errno. munfold. simpl. apply log_libc. Qed.
Lemma log_close_then {B} fd (k : option unit -> M S B) Q E s : (forall o s', log s' = log s -> post Q E (k o s')) -> post Q E ((call (sys_close fd) ≫= k) s).
Proof.
  intros Hk. eapply call_bind; [exact (log_close fd s)|..]; [intros a s' H; by apply Hk|]. intros e s' H. apply Hk. by rewrite log_set_errno.
Qed.

(** A session that leaves the array as it is. *)
Lemma stored_idle storage l x : stored storage l -> set_by x = None -> stored storage (l ++ [x]).
Proof. intros [Hn Hs] Hx. split; [done|]. intros k Hk. rewrite current_snoc, Hx. by apply Hs. Qed.
Lemma idle_round l0 l storage evs s : stored storage l -> proper l (Idle evs) -> log s = logged l0 l ++ evs ->
  after_round l0 l (inl storage) s.
Proof. intros Hs Hp Hl. exists storage, (Idle evs). split_and!; [done|done|by apply stored_idle|by rewrite logged_snoc]. Qed.

(** The reply, once the array is as the request wants it. *)
Lemma reply_spec l0 l storage cfd inp op k v s :
  asked inp = (Some op, Some k, v) -> 0 <= k < 100 -> (op = "S"%char -> is_Some v) ->
  (forall a, stored storage (l ++ [Served cfd inp k a])) -> log s = logged l0 l ++ [Conn cfd inp] ->
  post (after_round l0 l) (ends l0 l) ((
    x ← deref (storage !! Z.to_nat k);
    w ← call (sys_write cfd (response k x));
    if negb (bool_decide (w = Some (length (response k x)))) then
      errMsg strerror (str "write");; call (sys_close cfd);; mret (inl storage)
    else
      c ← call (sys_close cfd);
      when (bool_decide (c = None)) (errMsg strerror (str "close"));;
      mret (inl storage)) s).
Proof.
  intros Hasked Hk Hop Hst Hl. 
  destruct (Hst (Broken cfd)) as [_ Hval]. specialize (Hval k Hk).
  set (x := current k (l ++ [Served cfd inp k (Broken cfd)])) in *. rewrite Hval, (bind_done (deref (Some x)) _ s x s) by done.
  assert (Hx : forall a, current k (l ++ [Served cfd inp k a]) = x) by (intros a; unfold x; by rewrite !current_snoc).
  assert (Hdone : forall a s', (a = Broken cfd \/ exists n, a = Sent cfd (take n (response k x))) -> log s' = logged l0 l ++ [Conn cfd inp; a] ->
    after_round l0 l (inl storage) s').
  { intros a s' Ha Hs'. exists storage, (Served cfd inp k a). split_and!; [done| |done|by rewrite logged_snoc].
    exists op, v. rewrite Hx. done. }
  assert (Hrest : forall a s1 (b : bool), (a = Broken cfd \/ exists n, a = Sent cfd (take n (response k x))) -> log s1 = logged l0 l ++ [Conn cfd inp; a] ->
    post (after_round l0 l) (ends l0 l) ((if b then errMsg strerror (str "write");; call (sys_close cfd);; mret (inl storage)
      else c ← call (sys_close cfd); when (bool_decide (c = None)) (errMsg strerror (str "close"));; mret (inl storage)) s1)).
  { intros a s1 b Ha Hs1. destruct b.
    - apply errMsg_then. intros s2 Hs2. apply log_close_then. intros o s3 Hs3. apply (Hdone a); [done|congruence].
    - apply log_close_then. intros o s2 Hs2. destruct (bool_decide _); cbn [when].
      + apply errMsg_then. intros s3 Hs3. apply (Hdone a); [done|congruence].
      + apply (Hdone a); [done|congruence]. }
  eapply call_bind; [exact (log_write cfd (response k x) s)|..]; rewrite Hl.
  - intros n s1 Hs1. rewrite <- app_assoc in Hs1. apply (Hrest (Sent cfd (take n (response k x)))); [right; by exists n|done].
  - intros e s1 Hs1. rewrite <- app_assoc in Hs1. apply (Hrest (Broken cfd)); [by left|by rewrite log_set_errno].
Qed.
Lemma deref_bind {A B} (a : A) (k : A -> M S B) s : (deref (Some a) ≫= k) s = k a s.
Proof. done. Qed.
Lemma answer_spec l0 l storage cfd inp s : stored storage l -> log s = logged l0 l ++ [Conn cfd inp] ->
  post (after_round l0 l) (ends l0 l) (answer strerror cfd (take (REQ_MAX_LEN - 1) (line_of inp)) storage s).
Proof.
  intros Hst Hl. unfold answer. fold (asked inp). destruct (asked inp) as [[op [k|]] v] eqn:Ha.
  2: { right. split; [done|]. exists cfd, inp. split; [done|]. unfold unsafe. by rewrite Ha. }
  assert (Hunsafe : (k < 0 \/ k < 100 /\ op = Some "S"%char /\ v = None) -> forall s', log s' = log s -> ends l0 l EUndef s').
  { intros H s' Hs'. right. split; [done|]. exists cfd, inp. split; [congruence|]. unfold unsafe. by rewrite Ha. }
  rewrite deref_bind. destruct (Z.leb_spec 100 k) as [Hk|Hk].
  { apply log_close_then. intros o s1 Hs1. apply (idle_round _ _ _ [Conn cfd inp]); [done| |congruence].
    right. right. exists cfd, inp. split; [done|]. right. by exists op, k, v. }
  destruct op as [op|].
  2: { exfalso. unfold asked, sscanf_request in Ha. destruct (cstring _); [done|]. by destruct (scan_int _) as [[]|]. }
  rewrite deref_bind. destruct (ceq_spec op "S") as [->|Hop].
  - destruct v as [v|]; [|apply Hunsafe; [right; done|done]]. rewrite bind_bind, deref_bind, bind_bind.
    rewrite (bind_done (printf _) _ s tt _ eq_refl). set (s1 := set_libc _ s). assert (Hs1 : log s1 = log s) by apply log_libc.
    destruct (Z.ltb_spec k 0) as [Hneg|Hpos]; [apply Hunsafe; [by left|done]|]. rewrite mret_bind.
    apply (reply_spec _ _ _ _ inp "S"%char k (Some v)); [done|lia|done| |congruence].
    intros a. assert (Hset : set_by (Served cfd inp k a) = Some (k, v)) by (simpl; by rewrite Ha).
    destruct Hst as [Hn Hs]. split; [by rewrite length_insert|]. intros k' Hk'. rewrite current_snoc, Hset.
    destruct (Z.eqb_spec k k') as [<-|Hne]; [apply list_lookup_insert_eq; lia|]. rewrite list_lookup_insert_ne by lia. by apply Hs.
  - rewrite mret_bind. destruct (Z.ltb_spec k 0) as [Hneg|Hpos]; [apply Hunsafe; [by left|done]|].
    apply (reply_spec _ _ _ _ inp op k v); [done|lia|done| |done]. intros a. apply stored_idle; [done|]. simpl. rewrite Ha.
    destruct v; [|done]. by destruct (ceq_spec op "S").
Qed.

Lemma kv_round_spec rfuel sfd l0 l storage s : stored storage l -> log s = logged l0 l ->
  post (after_round l0 l) (ends l0 l) (serve_round strerror rfuel sfd storage s).
Proof.
  intros Hst Hl. unfold serve_round. eapply call_bind; [exact (log_accept sfd s)|..].
  2: { intros e s1 Hs1. apply errMsg_then. intros s2 Hs2. apply (idle_round _ _ _ []); [done|by left|].
       rewrite app_nil_r, Hs2, log_set_errno. congruence. }
  intros [cfd claddr] s1 Hs1. apply post_bind. eapply post_mono; [| |exact (log_getnameinfo claddr s1)]; [|done].
  intros nm s2 [Hs2 Hin2]. rewrite (bind_done (printf _) _ s2 tt _ eq_refl). set (s3 := set_libc _ s2).
  assert (Hs3 : log s3 = logged l0 l ++ [Conn cfd (input s3 cfd)]).
  { unfold s3. rewrite log_libc, input_libc, Hs2, Hin2. congruence. }
  clearbody s3. set (inp := input s3 cfd) in *. unfold call. rewrite bind_bind. apply post_bind.
  eapply post_mono; [| |exact (readLine_spec rfuel cfd s3)].
  2: { intros e s4 [-> Hs4]. left. split; [done|]. right. exists cfd, inp. congruence. }
  assert (Hclose : forall evs s4, log s4 = logged l0 l ++ evs -> proper l (Idle evs) ->
    post (after_round l0 l) (ends l0 l) ((errMsg strerror (str "readLine");; call (sys_close cfd);; mret (inl storage)) s4)).
  { intros evs s4 Hs4 Hp. apply errMsg_then. intros s5 Hs5. apply log_close_then. intros o s6 Hs6. apply (idle_round _ _ _ evs); [done|done|congruence]. }
  intros [res|e] s4.
  - intros [-> Hs4]. rewrite mret_bind. fold inp. unfold readLine_result. case_bool_decide as Hnone.
    + apply (Hclose [Conn cfd inp]); [congruence|]. right. right. exists cfd, inp. split; [done|left].
      destruct Hnone as [Hnil _]. destruct inp as [|c inp']; [done|]. simpl in Hnil. by destruct (ceq c newline).
    + destruct (length (take (REQ_MAX_LEN - 1) (line_of inp))) eqn:Hlen; [|apply answer_spec; [done|congruence]].
      apply (Hclose [Conn cfd inp]); [congruence|]. right. right. exists cfd, inp. split; [done|left].
      apply length_zero_iff_nil in Hlen. destruct inp as [|c inp']; [done|]. simpl in Hlen. by destruct (ceq c newline).
  - intros Hs4. rewrite bind_bind. rewrite (bind_done (set_errno e) _ s4 tt _ eq_refl), mret_bind. apply (Hclose [Conn cfd inp; Broken cfd]).
    + fold (set_errno e s4). etransitivity; [apply log_libc|]. rewrite Hs4, Hs3. by rewrite <- app_assoc.
    + right. left. by exists cfd, inp.
Qed.

End proofs.

(** * A run *)

(** The connections to come, what is still to be read on each descriptor, and the log. *)
Record world := World { w_conns : list (Z * bytes); w_inputs : gmap Z bytes; w_log : list ev }.
Definition toy : Type := libc * world.
Definition toy_input (s : toy) (fd : Z) : bytes := default [] (w_inputs s.2 !! fd).
#[export] Instance toy_inet : InetOS toy := {
  sys_getaddrinfo _ _ _ s := (Done (Some []), s);
  sys_freeaddrinfo s := (Done tt, s);
  sys_socket _ s := (Done (SErr EACCES), s);
  sys_connect _ _ s := (Done (SErr EACCES), s);
  sys_bind _ _ s := (Done (SErr EACCES), s);
  sys_reuseaddr _ s := (Done (SOk tt), s);
  sys_listen _ _ s := (Done (SOk tt), s);
  sys_close _ s := (Done (SOk tt), s);
  sys_getnameinfo a s := (Done (Some (a, str "1")), s)
}.
#[export] Instance toy_kv : KvOS toy := {
  sys_accept _ s := match w_conns s.2 with
    | [] => (Done (SErr EAGAIN), s)
    | (fd, inp) :: l => (Done (SOk (fd, str "h")), (s.1, World l (<[fd := inp]> (w_inputs s.2)) (w_log s.2 ++ [Conn fd inp])))
    end;
  sys_signal_sigpipe s := (Done 0, s)
}.
#[export] Instance toy_read : ReadOS toy := fun fd n s =>
  (Done (SOk (take n (toy_input s fd))), (s.1, World (w_conns s.2) (<[fd := drop n (toy_input s fd)]> (w_inputs s.2)) (w_log s.2))).
#[export] Instance toy_write : WriteOS toy := fun fd bs s =>
  (Done (SOk (length bs)), (s.1, World (w_conns s.2) (w_inputs s.2) (w_log s.2 ++ [Sent fd bs]))).
#[export, refine] Instance toy_read_spec : ReadSpec toy := {| input := toy_input; signals _ := 0%nat |}.
Proof.
  intros fd n s Hn. unfold sys_read, toy_read, toy_input. simpl. rewrite lookup_insert_eq. simpl. split_and!.
  - rewrite length_take. lia.
  - by rewrite take_drop.
  - destruct (default [] (w_inputs s.2 !! fd)); [done|]. by destruct n; [lia|].
  - done.
Defined.
#[export, refine] Instance toy_kv_spec : KvSpec toy := {| log s := w_log s.2 |}.
Proof.
  - done.
  - done.
  - intros fd s. unfold sys_accept. simpl. destruct (w_conns s.2) as [|[c inp] l]; simpl; [done|]. unfold toy_input. simpl. by rewrite lookup_insert_eq.
  - intros fd n s. simpl. by rewrite app_nil_r.
  - intros fd bs s. simpl. by rewrite firstn_all.
  - done.
  - done.
Defined.

Definition three_clients : toy :=
  (libc0, World [(4, str "S 5 42" ++ [newline]); (4, str "G 5" ++ [newline]); (4, str "G -1" ++ [newline])] ∅ []).
