(* ===== verification/Copy.v ===== *)
(** Programs that copy what they read: book-src/fileio/copy.c and filebuff/copy.c, the solutions of exercises
    4-1, 4-2 and 13-1 (tee, cpholes, copy), the clients and servers of book-src/sockets/us_xfr*.c, and the
    pipelines of book-src/pipes/simple_pipe.c and change_case.c. *)
From S2P Require Import Prelude CLib Sys ErrorFunctions Calls UnixSockets.
#[local] Open Scope Z_scope.

Definition STDIN_FILENO : Z := 0.
Definition STDOUT_FILENO : Z := 1.
Definition O_RDONLY : Z := 0.
Definition O_WRONLY : Z := 1.
Definition O_CREAT : Z := 64.
Definition O_TRUNC : Z := 512.
Definition O_APPEND : Z := 1024.
Definition O_SYNC : Z := 1052672.

(** The calls beyond those on sockets. *)
Class CopyOS (S : Type) := {
  sys_open : bytes -> Z -> M S (sysres Z);
  sys_pipe : M S (sysres (Z * Z));
  sys_fork : M S (sysres Z);
  sys_wait : M S unit;
  sys_accept : Z -> M S (sysres Z);
  sys_listen : Z -> Z -> M S (sysres unit);
  sys_remove : bytes -> M S (sysres unit)
}.


Section programs.
Context {S : Type} `{HL : HasLibc S} `{HK : SockOS S} `{HO : CopyOS S} `{HR : ReadOS S} `{HW : WriteOS S}.
Context (strerror : Z -> bytes).

(** [while ((numRead = read(fd, buf, size)) > 0) { ... }]; the result is whether the last read() returned 0. *)
Definition read_loop (fuel size : nat) (fd : Z) (use : bytes -> M S unit) : M S bool :=
  iter fuel (fun _ =>
    buf ← call (sys_read fd size);
    match buf with
    | None => mret (inr false)
    | Some [] => mret (inr true)
    | Some buf => use buf;; mret (inl tt)
    end) tt.
(** [if (write(fd, buf, n) != n) fatal(msg);] *)
Definition write_all (fd : Z) (msg buf : bytes) : M S unit :=
  n ← call (sys_write fd buf);
  if bool_decide (n = Some (length buf)) then mret tt else fatal strerror msg.
(** The loop, and [if (numRead == -1) errExit("read");]. *)
Definition copy_loop (fuel size : nat) (inputFd : Z) (use : bytes -> M S unit) : M S unit :=
  ok ← read_loop fuel size inputFd use;
  if (ok : bool) then mret tt else errExit strerror (str "read").

(** ** Copying a file *)

Definition copy_with (openFlags : Z) (fuel : nat) (name : bytes) (argv : list bytes) : M S Empty_set :=
  match argv with
  | [a; b] =>
      if streq a (str "--help") then usageErr (name ++ str " old-file new-file" ++ [newline])
      else
        inputFd ← echecked strerror (sys_open a O_RDONLY) (str "opening file " ++ a);
        outputFd ← echecked strerror (sys_open b openFlags) (str "opening file " ++ b);
        copy_loop fuel 1024 inputFd (write_all outputFd (str "couldn't write whole buffer"));;
        echecked strerror (sys_close inputFd) (str "close input");;
        echecked strerror (sys_close outputFd) (str "close output");;
        c_exit EXIT_SUCCESS
  | _ => usageErr (name ++ str " old-file new-file" ++ [newline])
  end.
(** Source: book-src/fileio/copy.c:25-63 (main). *)
Definition copy_main : nat -> bytes -> list bytes -> M S Empty_set := copy_with (Z.lor O_CREAT (Z.lor O_WRONLY O_TRUNC)).
(** Source: book-src/filebuff/copy.c:25-63 (main). *)
Definition filebuff_copy_main : nat -> bytes -> list bytes -> M S Empty_set := copy_with (Z.lor O_CREAT (Z.lor O_WRONLY O_TRUNC)).
(** Source: exercises/13-file-io-buffering/copy.c:25-63 (main). *)
Definition sync_copy_main : nat -> bytes -> list bytes -> M S Empty_set :=
  copy_with (Z.lor O_CREAT (Z.lor O_WRONLY (Z.lor O_TRUNC O_SYNC))).

(** Source: exercises/04-file-io-universal-io-model/cpholes.c:6-10 (printUsage). *)
Definition cpholes_usage : M S unit :=
  printf (str "Copy file on source to dest, including holes" ++ [newline]);;
  printf (str "Usage ./a.out [OPT] source dest" ++ [newline] ++ str "Options are:" ++ [newline]);;
  printf (str "  -h: Show this message" ++ [newline]).
(** A short write goes unnoticed. *)
Definition write_some (fd : Z) (buf : bytes) : M S unit := echecked strerror (sys_write fd buf) (str "write");; mret tt.
(** With one argument, argv[2] is a null pointer, with which open() fails. *)
(** Source: exercises/04-file-io-universal-io-model/cpholes.c:12-55 (main). *)
Definition cpholes_main (fuel : nat) (argv : list bytes) : M S unit :=
  match argv with
  | [] => printf (str "Missing file arguments" ++ [newline]);; cpholes_usage;; c_exit EXIT_FAILURE
  | a :: rest =>
      fdA ← echecked strerror (sys_open a O_RDONLY) (str "open");
      fdB ← (if rest is b :: _ then echecked strerror (sys_open b (Z.lor O_CREAT (Z.lor O_TRUNC O_WRONLY))) (str "open")
             else errExit strerror (str "open"));
      copy_loop fuel 10 fdA (write_some fdB);;
      echecked strerror (sys_close fdA) (str "close");;
      echecked strerror (sys_close fdB) (str "close");;
      mret tt
  end.

(** Source: exercises/04-file-io-universal-io-model/tee.c:9-13 (printHelp). *)
Definition tee_help : M S unit :=
  printf (str "Usage ./a.out [OPT] fileToWrite" ++ [newline] ++ str "Options are:" ++ [newline]);;
  printf (str "  -h: Show this message" ++ [newline]);;
  printf (str "  -a: Append to existing file" ++ [newline]).
(** The options that getopt() finds. *)
(** Source: exercises/04-file-io-universal-io-model/tee.c:22-33 (main, options). *)
Fixpoint tee_options (shouldAppend : bool) (opts : list ascii) : M S bool :=
  match opts with
  | [] => mret shouldAppend
  | o :: opts =>
      if ceq o "a" then tee_options true opts
      else if ceq o "h" then tee_help;; c_exit EXIT_SUCCESS
      else c_exit EXIT_FAILURE
  end.
(** open() is not checked: with -1 the writes fail. [args] are the arguments that are left. *)
(** Source: exercises/04-file-io-universal-io-model/tee.c:15-78 (main). *)
Definition tee_main (fuel : nat) (opts : list ascii) (args : list bytes) : M S unit :=
  shouldAppend ← tee_options false opts;
  match args with
  | [] => printf (str "Expected fileToWrite argument" ++ [newline]);; tee_help;; c_exit EXIT_FAILURE
  | _ :: _ :: _ => printf (str "Expected just ONE fileToWrite argument" ++ [newline]);; tee_help;; c_exit EXIT_FAILURE
  | [a] =>
      fd ← call (sys_open a (Z.lor (Z.lor O_CREAT O_WRONLY) (if (shouldAppend : bool) then O_APPEND else O_TRUNC)));
      let fd := default (-1) fd in
      copy_loop fuel 10 STDIN_FILENO (fun buf => write_some fd buf;; write_some STDOUT_FILENO buf);;
      echecked strerror (sys_close fd) (str "close");;
      mret tt
  end.

(** ** UNIX domain sockets *)

Definition SV_SOCK_PATH : bytes := str "/tmp/us_xfr".
Definition SV_SOCK_PATH_V2 : bytes := str "us_xfr_v2".
Definition partial : bytes := str "partial/failed write".

(** Source: book-src/sockets/us_xfr_cl.c:22-54 (main). *)
Definition us_xfr_cl (fuel : nat) : M S Empty_set :=
  sfd ← echecked strerror (sys_socket SOCK_STREAM) (str "socket");
  let addr := SockaddrUn AF_UNIX (strncpy_into (sun_path zero_addr) SV_SOCK_PATH (sun_path_size - 1)) in
  echecked strerror (sys_connect sfd addr) (str "connect");;
  copy_loop fuel 100 STDIN_FILENO (write_all sfd partial);;
  c_exit EXIT_SUCCESS.
(** Source: book-src/sockets/us_xfr_v2_cl.c:24-44 (main). *)
Definition us_xfr_v2_cl (addr0 : sockaddr_un) (fuel : nat) : M S Empty_set :=
  sfd ← unixConnect addr0 (Some SV_SOCK_PATH_V2) SOCK_STREAM;
  match sfd with
  | None => errExit strerror (str "unixConnect")
  | Some sfd =>
      copy_loop fuel 100 STDIN_FILENO (write_all sfd partial);;
      c_exit EXIT_SUCCESS
  end.
(** Source: book-src/sockets/us_xfr_sv.c:57-78 (main, loop). *)
Definition us_xfr_round (fuel : nat) (sfd : Z) : M S (unit + Empty_set) :=
  cfd ← echecked strerror (sys_accept sfd) (str "accept");
  copy_loop fuel 100 cfd (write_all STDOUT_FILENO partial);;
  c ← call (sys_close cfd);
  (if c is None then errMsg strerror (str "close") else mret tt);;
  mret (inl tt).
(** Source: book-src/sockets/us_xfr_sv.c:23-79 (main). *)
Definition us_xfr_sv (fuel rfuel : nat) : M S Empty_set :=
  sfd ← echecked strerror (sys_socket SOCK_STREAM) (str "socket");
  if (sun_path_size - 1 <? strlen SV_SOCK_PATH)%nat then fatal strerror (str "Server socket path too long: " ++ SV_SOCK_PATH)
  else
    r ← call (sys_remove SV_SOCK_PATH);
    e ← get_errno;
    if (if r is None then negb (e =? ENOENT) else false) then errExit strerror (str "remove-" ++ SV_SOCK_PATH)
    else
      let addr := SockaddrUn AF_UNIX (strncpy_into (sun_path zero_addr) SV_SOCK_PATH (sun_path_size - 1)) in
      echecked strerror (sys_bind sfd addr) (str "bind");;
      echecked strerror (sys_listen sfd 5) (str "listen");;
      iter fuel (fun _ => us_xfr_round rfuel sfd) tt.
(** Source: book-src/sockets/us_xfr_v2_sv.c:24-54 (main). *)
Definition us_xfr_v2_sv (addr0 : sockaddr_un) (fuel rfuel : nat) : M S Empty_set :=
  sfd ← unixBind addr0 (Some SV_SOCK_PATH_V2) SOCK_STREAM;
  match sfd with
  | None => errExit strerror (str "unixBind")
  | Some sfd =>
      echecked strerror (sys_listen sfd 5) (str "listen");;
      iter fuel (fun _ => us_xfr_round rfuel sfd) tt
  end.

(** ** Pipes *)

(** Source: book-src/pipes/simple_pipe.c:30-78 (main). *)
Definition simple_pipe (fuel : nat) (name : bytes) (argv : list bytes) : M S Empty_set :=
  match argv with
  | [a] =>
      if streq a (str "--help") then usageErr (name ++ str " string" ++ [newline])
      else
        pfd ← echecked strerror sys_pipe (str "pipe");
        pid ← call sys_fork;
        match pid with
        | None => errExit strerror (str "fork")
        | Some 0 =>
            echecked strerror (sys_close pfd.2) (str "close - child");;
            copy_loop fuel 10 pfd.1 (write_all STDOUT_FILENO (str "child - partial/failed write"));;
            call (sys_write STDOUT_FILENO [newline]);;
            echecked strerror (sys_close pfd.1) (str "close");;
            c__exit EXIT_SUCCESS
        | Some _ =>
            echecked strerror (sys_close pfd.1) (str "close - parent");;
            write_all pfd.2 (str "parent - partial/failed write") a;;
            echecked strerror (sys_close pfd.2) (str "close");;
            sys_wait;;
            c_exit EXIT_SUCCESS
        end
  | _ => usageErr (name ++ str " string" ++ [newline])
  end.

(** A round of the parent, with what it has read from its input: the data go to the child, and what comes back, if anything, to the output. *)
(** Source: book-src/pipes/change_case.c:82-91 (main, parent loop). *)
Definition case_round (outbound inbound : Z) (buf : bytes) : M S unit :=
  write_all outbound (str "failed/partial write(): outbound pipe") buf;;
  buf ← echecked strerror (sys_read inbound 100) (str "read");
  match buf with
  | [] => mret tt
  | _ => write_all STDOUT_FILENO (str "failed/partial write(): STDOUT_FILENO") buf
  end.
(** Source: book-src/pipes/change_case.c:27-101 (main). *)
Definition change_case (fuel : nat) : M S Empty_set :=
  outbound ← echecked strerror sys_pipe (str "pipe");
  inbound ← echecked strerror sys_pipe (str "pipe");
  pid ← call sys_fork;
  match pid with
  | None => errExit strerror (str "fork")
  | Some 0 =>
      echecked strerror (sys_close outbound.2) (str "close");;
      echecked strerror (sys_close inbound.1) (str "close");;
      copy_loop fuel 100 outbound.1 (fun buf => write_all inbound.2 (str "failed/partial write(): inbound pipe") (toupper <$> buf));;
      c__exit EXIT_SUCCESS
  | Some _ =>
      echecked strerror (sys_close outbound.1) (str "close");;
      echecked strerror (sys_close inbound.2) (str "close");;
      copy_loop fuel 100 STDIN_FILENO (case_round outbound.2 inbound.1);;
      c_exit EXIT_SUCCESS
  end.
End programs.

(** * What the calls do *)

(** What happens to descriptors, in order; and how many bytes there are still to be read. *)
Inductive ev :=
| Opened (path : bytes) (flags fd : Z)
| Accepted (fd : Z)
| Connected (fd : Z)
| Piped (r w : Z)
| Forked (pid : Z)
| Rd (fd : Z) (bs : bytes)
| Wr (fd : Z) (bs : bytes).
Record cview := CView { log : list ev; remaining : nat }.
Definition logged (x : ev) (v : cview) : cview := CView (log v ++ [x]) (remaining v).
Definition on_success {A} (r : sysres A) (v w : cview) (x : A -> ev) : Prop :=
  match r with SOk a => w = logged (x a) v | SErr _ => w = v end.

Class CopySpec (S : Type) `{HL : HasLibc S} `{HK : !SockOS S} `{HO : !CopyOS S} `{HR : ReadOS S} `{HW : WriteOS S} := {
  cv : S -> cview;
  cv_libc : forall l s, cv (set_libc l s) = cv s;
  cv_read : forall fd n s, post (fun r s' => match r with
    | SOk bs => (length bs <= n)%nat /\ exists k, (k + length bs <= remaining (cv s))%nat /\ cv s' = CView (log (cv s) ++ [Rd fd bs]) k
    | SErr _ => cv s' = cv s end) (fun _ _ => False) (sys_read fd n s);
  cv_write : forall fd bs s, post (fun r s' => match r with
    | SOk k => (k <= length bs)%nat /\ cv s' = logged (Wr fd (take k bs)) (cv s)
    | SErr _ => cv s' = cv s end) (fun _ _ => False) (sys_write fd bs s);
  cv_open : forall p fl s, post (fun r s' => on_success r (cv s) (cv s') (Opened p fl)) (fun _ _ => False) (sys_open p fl s);
  cv_accept : forall fd s, post (fun r s' => on_success r (cv s) (cv s') Accepted) (fun _ _ => False) (sys_accept fd s);
  cv_connect : forall fd a s, post (fun r s' => on_success r (cv s) (cv s') (fun _ => Connected fd)) (fun _ _ => False) (sys_connect fd a s);
  cv_pipe : forall s, post (fun r s' => on_success r (cv s) (cv s') (fun p => Piped p.1 p.2)) (fun _ _ => False) (sys_pipe s);
  cv_fork : forall s, post (fun r s' => on_success r (cv s) (cv s') Forked) (fun _ _ => False) (sys_fork s);
  cv_wait : forall s, post (fun _ s' => cv s' = cv s) (fun _ _ => False) (sys_wait s);
  cv_close : forall fd s, post (fun _ s' => cv s' = cv s) (fun _ _ => False) (sys_close fd s);
  cv_socket : forall t s, post (fun _ s' => cv s' = cv s) (fun _ _ => False) (sys_socket t s);
  cv_bind : forall fd a s, post (fun _ s' => cv s' = cv s) (fun _ _ => False) (sys_bind fd a s);
  cv_listen : forall fd n s, post (fun _ s' => cv s' = cv s) (fun _ _ => False) (sys_listen fd n s);
  cv_remove : forall p s, post (fun _ s' => cv s' = cv s) (fun _ _ => False) (sys_remove p s)
}.

(** What was read from, and written to, a descriptor. *)
Definition from (fd : Z) (l : list ev) : bytes := x ← l; if x is Rd k bs then if k =? fd then bs else [] else [].
Definition into (fd : Z) (l : list ev) : bytes := x ← l; if x is Wr k bs then if k =? fd then bs else [] else [].
(** A loop that reads from [i]: [used buf l] says what one round does with a buffer. *)
Inductive rounds (i : Z) (used : bytes -> list ev -> Prop) : list ev -> Prop :=
| rounds_nil : rounds i used []
| rounds_snoc l buf lu : rounds i used l -> used buf lu -> rounds i used (l ++ Rd i buf :: lu).

Lemma from_cat fd l l' : from fd (l ++ l') = from fd l ++ from fd l'.
Proof. apply bind_app. Qed.
Lemma into_cat fd l l' : into fd (l ++ l') = into fd l ++ into fd l'.
Proof. apply bind_app. Qed.

Definition fails (e : ending) : Prop := e = EExit EXIT_FAILURE \/ e = EAbort.

(** A copy through the function [g]: all of it was written, or part of it. *)
Definition of_copy (i o : Z) (x : ev) : Prop := (exists bs, x = Rd i bs) \/ (exists bs, x = Wr o bs).
Definition copied (i o : Z) (g : bytes -> bytes) (whole : bool) (l : list ev) : Prop :=
  Forall (of_copy i o) l /\
  if whole then into o l = g (from i l) /\ last l = Some (Rd i []) else into o l `prefix_of` g (from i l).
Class Streaming (g : bytes -> bytes) := { g_nil : g [] = []; g_app : forall x y, g (x ++ y) = g x ++ g y }.
#[export, refine] Instance same_streaming : Streaming (fun x => x) := {}.
Proof. all: done. Defined.
#[export, refine] Instance map_streaming f : Streaming (fmap f) := {}.
Proof. all: intros; apply fmap_app || done. Defined.

Lemma from_rd i bs l : from i (Rd i bs :: l) = bs ++ from i l.
Proof. unfold from. cbn. by rewrite Z.eqb_refl. Qed.
Lemma from_wr i o bs l : from i (Wr o bs :: l) = from i l.
Proof. done. Qed.
Lemma into_wr o bs l : into o (Wr o bs :: l) = bs ++ into o l.
Proof. unfold into. cbn. by rewrite Z.eqb_refl. Qed.
Lemma into_rd i o bs l : into o (Rd i bs :: l) = into o l.
Proof. done. Qed.

(** A run of a program: it has made its descriptors, copied the whole input and finished; or it has failed,
    somewhere on that way. *)
Definition run_of (setup : Z -> Z -> list ev -> Prop) (g : bytes -> bytes) (finish : list ev -> Prop) (e : ending) (l : list ev) : Prop :=
  (e = EExit EXIT_SUCCESS /\ exists i o pre l' t, setup i o pre /\ finish t /\ l = pre ++ l' ++ t /\ copied i o g true l') \/
  (fails e /\ exists i o pre, setup i o pre /\
    (l `prefix_of` pre \/ exists l' t, (t = [] \/ finish t) /\ l = pre ++ l' ++ t /\ copied i o g false l')).
Definition nothing (l : list ev) : Prop := l = [].

(** The server: whole connections, and the one it failed at. *)
Inductive sessions (o : Z) : list ev -> Prop :=
| sessions_nil : sessions o []
| sessions_snoc l c l' : sessions o l -> copied c o (fun x => x) true l' -> sessions o (l ++ Accepted c :: l').
Definition serves (o : Z) (e : ending) (l : list ev) : Prop :=
  (e = EFuel \/ fails e) /\ exists l1 part, sessions o l1 /\ l = l1 ++ part /\
    (part = [] \/ exists c l', part = Accepted c :: l' /\ copied c o (fun x => x) false l').

(** simple_pipe: the child, which copies from the pipe to the standard output, and the parent. *)
Definition pipe_child (i o : Z) (pre : list ev) : Prop := o = STDOUT_FILENO /\ exists w, pre = [Piped i w; Forked 0].
Definition pipe_end (t : list ev) : Prop := t = [] \/ exists k, t = [Wr STDOUT_FILENO (take k [newline])].
Definition pipe_parent (a : bytes) (e : ending) (l : list ev) : Prop :=
  exists r w pid bs, l `prefix_of` [Piped r w; Forked pid; Wr w bs] /\
    (e = EExit EXIT_SUCCESS /\ l = [Piped r w; Forked pid; Wr w a] \/ fails e).
(** change_case: the child, which turns the letters to uppercase, and the parent, which sends to it what it
    reads and writes what comes back. *)
Definition case_child (i o : Z) (pre : list ev) : Prop := exists w r, pre = [Piped i w; Piped r o; Forked 0].
Definition case_used (outbound inbound : Z) (buf : bytes) (l : list ev) : Prop :=
  exists bs, l = Wr outbound buf :: Rd inbound bs :: if bs is [] then [] else [Wr STDOUT_FILENO bs].
Definition case_parent (e : ending) (l : list ev) : Prop :=
  exists r outbound inbound w pid l', rounds STDIN_FILENO (case_used outbound inbound) l' /\
    let pre := [Piped r outbound; Piped inbound w; Forked pid] in
    (e = EExit EXIT_SUCCESS /\ l = pre ++ l' ++ [Rd STDIN_FILENO []] \/
     fails e /\ (l `prefix_of` pre \/ exists part, l = pre ++ l' ++ part /\ (part = [] \/ exists buf lu, part = Rd STDIN_FILENO buf :: lu))).

Section copied.
Context (i o : Z) (g : bytes -> bytes) `{Hg : Streaming g}.
Definition writes (buf : bytes) (l : list ev) : Prop := l = [Wr o (g buf)].
Lemma rounds_copied l : rounds i writes l -> Forall (of_copy i o) l /\ into o l = g (from i l).
Proof.
  induction 1 as [|l buf lu _ [IH1 IH2] ->]; [split; [done|symmetry; apply (@g_nil g Hg)]|]. split.
  - apply Forall_app. split; [done|]. constructor; [left; by eexists|]. constructor; [right; by eexists|constructor].
  - rewrite into_cat, from_cat, into_rd, into_wr, from_rd, from_wr, (@g_app g Hg), IH2, !app_nil_r. done.
Qed.
Lemma copied_whole l : rounds i writes l -> copied i o g true (l ++ [Rd i []]).
Proof.
  intros [H1 H2]%rounds_copied. split; [apply Forall_app; split; [done|]; constructor; [left; by eexists|constructor]|].
  rewrite last_snoc, into_cat, into_rd, from_cat, from_rd, !app_nil_r. done.
Qed.
Lemma copied_part l buf lu : rounds i writes l -> (lu = [] \/ exists k, lu = [Wr o (take k (g buf))]) -> copied i o g false (l ++ Rd i buf :: lu).
Proof.
  intros [H1 H2]%rounds_copied Hlu. split.
  - apply Forall_app. split; [done|]. constructor; [left; by eexists|]. destruct Hlu as [->|[k ->]]; [constructor|]. constructor; [right; by eexists|constructor].
  - rewrite into_cat, into_rd, from_cat, from_rd, (@g_app g Hg), H2. apply prefix_app. destruct Hlu as [->|[k ->]].
    + apply prefix_nil.
    + rewrite into_wr, app_nil_r, from_wr, app_nil_r. apply prefix_take.
Qed.
Lemma copied_weaken l : copied i o g true l -> copied i o g false l.
Proof. intros [H1 [H2 _]]. split; [done|]. by rewrite H2. Qed.
Lemma copied_so_far l : rounds i writes l -> copied i o g false l.
Proof. intros [H1 H2]%rounds_copied. split; [done|]. by rewrite H2. Qed.
End copied.

Section proofs.
Context {S : Type} `{HL : HasLibc S} `{HK : !SockOS S} `{HO : !CopyOS S} `{HR : ReadOS S} `{HW : WriteOS S} `{HS : !CopySpec S}.
Context (strerror : Z -> bytes).

Lemma checked_then {A B} (m : M S (sysres A)) msg (k : A -> M S B) (R : A -> S -> Prop) Q (E : ending -> S -> Prop) s :
  post (fun r s' => match r with SOk a => R a s' | SErr _ => cv s' = cv s end) (fun _ _ => False) (m s) ->
  (forall a s', R a s' -> post Q E (k a s')) -> (forall e s', fails e -> cv s' = cv s -> E e s') ->
  post Q E ((echecked strerror m msg ≫= k) s).
Proof.
  intros Hm Hk He. eapply (stops_then cv) with (s := s) (R := R); [|done| |exact Hk].
  - intros e s' [H1 H2]. by apply He.
  - eapply (echecked_spec strerror cv cv_libc); [exact Hm|]. by intros [a|e] s' Hr.
Qed.
(** A call that leaves the view as it is. *)
Lemma same_then {A B} (m : M S (sysres A)) (k : option A -> M S B) Q E s :
  post (fun _ s' => cv s' = cv s) (fun _ _ => False) (m s) -> (forall o s', cv s' = cv s -> post Q E (k o s')) -> post Q E ((call m ≫= k) s).
Proof.
  intros Hm Hk. eapply call_bind; [exact Hm|..]; [intros a s' H; by apply Hk|]. intros e s' H. apply Hk. cbn. by rewrite cv_libc.
Qed.
Lemma fatal_ends {A} msg Q (E : ending -> S -> Prop) s : (forall e s', fails e -> cv s' = cv s -> E e s') -> post Q E (@fatal _ _ strerror A msg s).
Proof. intros He. eapply post_mono; [| |exact (fatal_stops strerror cv cv_libc msg (fun _ _ => False) s)]; [done|]. intros e s' [H1 H2]. by apply He. Qed.
Lemma errExit_ends {A} msg Q (E : ending -> S -> Prop) s : (forall e s', fails e -> cv s' = cv s -> E e s') -> post Q E (@errExit _ _ strerror A msg s).
Proof. intros He. eapply post_mono; [| |exact (errExit_stops strerror cv cv_libc msg s (fun _ _ => False))]; [done|]. intros e s' [H1 H2]. by apply He. Qed.

Lemma write_all_runs fd msg buf s :
  post (fun _ s' => cv s' = logged (Wr fd buf) (cv s))
    (fun e s' => fails e /\ (cv s' = cv s \/ exists k, cv s' = logged (Wr fd (take k buf)) (cv s))) (write_all strerror fd msg buf s).
Proof.
  unfold write_all. eapply call_bind; [exact (cv_write fd buf s)|..].
  - intros k s1 [Hk Hs1]. case_bool_decide as Hd.
    + injection Hd as ->. rewrite firstn_all in Hs1. done.
    + apply fatal_ends. intros e s2 He Hs2. split; [done|]. right. exists k. congruence.
  - intros e s1 Hs1. rewrite bool_decide_false by done. apply fatal_ends. intros e' s2 He Hs2. split; [done|]. left. rewrite Hs2. cbn. by rewrite cv_libc.
Qed.

(** The copying loop, for any use of the buffers: it comes to the end of its input. *)
Lemma copy_loop_spec fuel size i use used broken s :
  (remaining (cv s) < fuel)%nat ->
  (forall buf s, post (fun _ s' => exists l, used buf l /\ log (cv s') = log (cv s) ++ l /\ (remaining (cv s') <= remaining (cv s))%nat)
    (fun e s' => fails e /\ exists l, broken buf l /\ log (cv s') = log (cv s) ++ l) (use buf s)) ->
  post (fun _ s' => (remaining (cv s') <= remaining (cv s))%nat /\ exists l, rounds i used l /\ log (cv s') = log (cv s) ++ l ++ [Rd i []])
    (fun e s' => fails e /\ exists l, rounds i used l /\
      (log (cv s') = log (cv s) ++ l \/ exists buf lu, broken buf lu /\ log (cv s') = log (cv s) ++ l ++ Rd i buf :: lu))
    (copy_loop strerror fuel size i use s).
Proof.
  intros Hfuel Huse. unfold copy_loop. apply post_bind.
  set (L := log (cv s)).
  eapply post_mono; [| |apply (iter_total _ (fun _ s' => (remaining (cv s') <= remaining (cv s))%nat /\ exists l, rounds i used l /\ log (cv s') = L ++ l) (fun _ s' => remaining (cv s'))
    (fun ok s' => (remaining (cv s') <= remaining (cv s))%nat /\ exists l, rounds i used l /\ log (cv s') = L ++ l ++ if (ok : bool) then [Rd i []] else [])
    (fun e s' => fails e /\ exists l, rounds i used l /\ exists buf lu, broken buf lu /\ log (cv s') = L ++ l ++ Rd i buf :: lu))].
  - intros [|] s1 (Hr1 & l & Hl & Hs1); [split; [done|by exists l]|]. apply errExit_ends. intros e s2 He Hs2. split; [done|]. exists l. split; [done|]. left.
    rewrite Hs2, Hs1. by rewrite app_nil_r.
  - intros e s1 (He & l & Hl & buf & lu & Hb & Hs1). split; [done|]. exists l. split; [done|]. right. by exists buf, lu.
  - intros [] s1 (Hr1 & l & Hl & Hs1). eapply call_bind; [exact (cv_read i size s1)|..].
    + intros [|c bs] s2 [Hlen (k & Hk & Hs2)].
      * split; [rewrite Hs2; cbn in *; lia|]. exists l. split; [done|]. rewrite Hs2, app_assoc, <- Hs1. done.
      * apply post_bind. eapply post_mono; [| |exact (Huse (c :: bs) s2)].
        -- intros _ s3 (lu & Hu & Hs3 & Hr). split.
           ++ split; [rewrite Hs2 in Hr; cbn in *; lia|]. exists (l ++ Rd i (c :: bs) :: lu). split; [by constructor|]. rewrite Hs3, Hs2. cbn. by rewrite Hs1, <- !app_assoc.
           ++ rewrite Hs2 in Hr. cbn in *. lia.
        -- intros e s3 (He & lu & Hb & Hs3). split; [done|]. exists l. split; [done|]. exists (c :: bs), lu. split; [done|].
           rewrite Hs3, Hs2. cbn. by rewrite Hs1, <- !app_assoc.
    + intros e s2 Hs2. split; [cbn; rewrite cv_libc; by rewrite Hs2|]. exists l. split; [done|]. rewrite app_nil_r, <- Hs1. cbn. rewrite cv_libc. congruence.
  - split; [done|]. exists []. split; [constructor|]. by rewrite app_nil_r.
  - done.
Qed.
Lemma write_loop_spec fuel size i o g msg s `{!Streaming g} : (remaining (cv s) < fuel)%nat ->
  post (fun _ s' => (remaining (cv s') <= remaining (cv s))%nat /\ exists l, copied i o g true l /\ log (cv s') = log (cv s) ++ l)
    (fun e s' => fails e /\ exists l, copied i o g false l /\ log (cv s') = log (cv s) ++ l)
    (copy_loop strerror fuel size i (fun buf => write_all strerror o msg (g buf)) s).
Proof.
  intros Hfuel. eapply post_mono; [| |apply (copy_loop_spec fuel size i _ (writes o g) (fun buf lu => lu = [] \/ exists k, lu = [Wr o (take k (g buf))]) s Hfuel)].
  - intros _ s' (Hr & l & Hl & Hs). split; [done|]. exists (l ++ [Rd i []]). split; [by apply copied_whole|done].
  - intros e s' (He & l & Hl & [Hs|(buf & lu & Hlu & Hs)]); (split; [done|]).
    + exists l. split; [by apply copied_so_far|done].
    + exists (l ++ Rd i buf :: lu). split; [by apply copied_part|done].
  - intros buf s1. eapply post_mono; [| |exact (write_all_runs o msg (g buf) s1)].
    + intros [] s2 Hs2. exists [Wr o (g buf)]. rewrite Hs2. done.
    + intros e s2 [He [Hs2|[k Hs2]]]; (split; [done|]).
      * exists []. split; [by left|]. by rewrite Hs2, app_nil_r.
      * exists [Wr o (take k (g buf))]. split; [right; by exists k|]. by rewrite Hs2.
Qed.
(** ** Programs *)

Definition ended (s0 : S) (R : ending -> list ev -> Prop) (e : ending) (s : S) : Prop :=
  exists l, log (cv s) = log (cv s0) ++ l /\ R e l.
(** Since [s0], the events [pre]. *)
Definition since (s0 : S) (pre : list ev) (s : S) : Prop := cv s = CView (log (cv s0) ++ pre) (remaining (cv s0)).
Lemma since_start s : since s [] s.
Proof. unfold since. rewrite app_nil_r. by destruct (cv s). Qed.
Lemma since_logged s0 pre x s s1 : since s0 pre s -> cv s1 = logged x (cv s) -> since s0 (pre ++ [x]) s1.
Proof. intros H H1. unfold since. rewrite H1, H. unfold logged. cbn. by rewrite app_assoc. Qed.
Lemma since_same s0 pre s s1 : since s0 pre s -> cv s1 = cv s -> since s0 pre s1.
Proof. intros H H1. unfold since. congruence. Qed.
(** Failing on the way. *)
Lemma fails_at s0 setup g finish i o whole pre e s : setup i o whole -> pre `prefix_of` whole -> fails e -> since s0 pre s ->
  ended s0 (run_of setup g finish) e s.
Proof. intros Hset Hpre He Hs. exists pre. rewrite Hs. split; [done|]. right. split; [done|]. exists i, o, whole. split; [done|by left]. Qed.

(** The rest of a program, after its copying. *)
Definition finishes (finish : list ev -> Prop) (k : M S Empty_set) : Prop := forall s,
  post (fun _ _ => False) (fun e s' => exists t, log (cv s') = log (cv s) ++ t /\
    (e = EExit EXIT_SUCCESS /\ finish t \/ fails e /\ (t = [] \/ finish t))) (k s).

Lemma copy_then setup finish i o pre g `{!Streaming g} fuel size msg k s0 s :
  setup i o pre -> since s0 pre s -> (remaining (cv s0) < fuel)%nat -> finishes finish k ->
  post (fun _ _ => False) (ended s0 (run_of setup g finish)) ((copy_loop strerror fuel size i (fun buf => write_all strerror o msg (g buf));; k) s).
Proof.
  intros Hset Hs Hfuel Hk. apply post_bind. eapply post_mono; [| |apply (write_loop_spec fuel size i o g msg s)]; [| |by rewrite Hs].
  - intros _ s1 (_ & l & Hl & Hs1). rewrite Hs in Hs1. cbn in Hs1. eapply post_mono; [| |exact (Hk s1)]; [done|].
    intros e s2 (t & Ht & [[-> Hf]|[He Hf]]); exists (pre ++ l ++ t); (split; [by rewrite Ht, Hs1, <- !app_assoc|]).
    + left. split; [done|]. by exists i, o, pre, l, t.
    + right. split; [done|]. exists i, o, pre. split; [done|]. right. exists l, t. split; [done|]. split; [done|by apply copied_weaken].
  - intros e s1 (He & l & Hl & Hs1). rewrite Hs in Hs1. cbn in Hs1. exists (pre ++ l). split; [by rewrite Hs1, <- app_assoc|].
    right. split; [done|]. exists i, o, pre. split; [done|]. right. exists l, []. split; [by left|]. by rewrite app_nil_r.
Qed.

Lemma exit_finishes : finishes nothing (c_exit EXIT_SUCCESS).
Proof. intros s. unfold c_exit, fflush_stdout. munfold. cbn. exists []. rewrite cv_libc, app_nil_r. split; [done|by left]. Qed.
Lemma _exit_finishes : finishes nothing (c__exit EXIT_SUCCESS).
Proof. intros s. cbn. exists []. rewrite app_nil_r. split; [done|by left]. Qed.
Lemma close_finishes fd msg finish k : finishes finish k -> finishes finish (echecked strerror (sys_close fd) msg;; k).
Proof.
  intros Hk s. eapply (checked_then _ _ _ (fun _ s' => cv s' = cv s)).
  - eapply post_mono; [| |exact (cv_close fd s)]; [|done]. by intros [a|e] s' H.
  - intros _ s1 Hs1. eapply post_mono; [| |exact (Hk s1)]; [done|]. intros e s2 (t & Ht & H). exists t. by rewrite Ht, Hs1.
  - intros e s1 He Hs1. exists []. rewrite Hs1, app_nil_r. split; [done|right; split; [done|by left]].
Qed.
(** A step of the setting-up: a call that adds an event, or none. *)
Lemma setup_event {A B} (m : M S (sysres A)) msg (x : A -> ev) (k : A -> M S B) Q E s0 pre s :
  since s0 pre s -> post (fun r s' => on_success r (cv s) (cv s') x) (fun _ _ => False) (m s) ->
  (forall a s', since s0 (pre ++ [x a]) s' -> post Q E (k a s')) ->
  (forall e s', fails e -> since s0 pre s' -> E e s') -> post Q E ((echecked strerror m msg ≫= k) s).
Proof.
  intros Hs Hm Hk He. eapply (checked_then _ _ _ (fun a s' => since s0 (pre ++ [x a]) s')).
  - eapply post_mono; [| |exact Hm]; [|done]. intros [a|e] s' Hr; [by eapply since_logged|done].
  - exact Hk.
  - intros e s' Hf Hs'. by eapply He, since_same.
Qed.
Lemma setup_same {A B} (m : M S (sysres A)) msg (k : A -> M S B) Q E s0 pre s :
  since s0 pre s -> post (fun _ s' => cv s' = cv s) (fun _ _ => False) (m s) ->
  (forall a s', since s0 pre s' -> post Q E (k a s')) ->
  (forall e s', fails e -> since s0 pre s' -> E e s') -> post Q E ((echecked strerror m msg ≫= k) s).
Proof.
  intros Hs Hm Hk He. eapply (checked_then _ _ _ (fun a s' => since s0 pre s')).
  - eapply post_mono; [| |exact Hm]; [|done]. intros [a|e] s' Hr; [by eapply since_same|done].
  - exact Hk.
  - intros e s' Hf Hs'. by eapply He, since_same.
Qed.
Lemma usageErr_ends {A} msg Q s0 setup g finish i o whole s : setup i o whole -> since s0 [] s ->
  post Q (ended s0 (run_of setup g finish)) (@usageErr _ _ A msg s).
Proof.
  intros Hset Hs. eapply post_mono; [| |exact (usageErr_stops cv cv_libc msg (fun _ _ => False) s)]; [done|].
  intros e s' [He Hs']. eapply fails_at; [done|apply prefix_nil|done|by eapply since_same].
Qed.

(** The two files of copy. *)
Definition two_files (a b : bytes) (flags i o : Z) (pre : list ev) : Prop := pre = [Opened a O_RDONLY i; Opened b flags o].
Lemma copy_with_spec flags fuel name argv a b s : (remaining (cv s) < fuel)%nat -> argv = [a; b] \/ length argv <> 2%nat ->
  post (fun _ _ => False) (ended s (run_of (two_files a b flags) (fun x => x) nothing)) (copy_with strerror flags fuel name argv s).
Proof.
  intros Hfuel Hargv. assert (Husage : post (fun _ _ => False) (ended s (run_of (two_files a b flags) (fun x => x) nothing))
    ((usageErr (name ++ str " old-file new-file" ++ [newline]) : M S Empty_set) s)).
  { eapply (usageErr_ends _ _ _ _ _ _ 0 0); [done|apply since_start]. }
  destruct Hargv as [->|Hlen]; [|destruct argv as [|x [|y [|z argv]]]; (done || exact Husage)].
  unfold copy_with. destruct (streq a (str "--help")); [exact Husage|].
  eapply (setup_event _ _ _ _ _ _ s []); [apply since_start|exact (cv_open a O_RDONLY s)| |].
  2: { intros e s' He Hs'. eapply (fails_at _ _ _ _ 0 0); [done|apply prefix_nil|done|done]. }
  intros i s1 Hs1. eapply (setup_event _ _ _ _ _ _ s); [exact Hs1|exact (cv_open b flags s1)| |].
  2: { intros e s' He Hs'. eapply (fails_at _ _ _ _ i 0); [done| |done|exact Hs']. by exists [Opened b flags 0]. }
  intros o s2 Hs2. eapply (copy_then _ _ i o _ (fun x => x)); [done|exact Hs2|done|]. do 2 apply close_finishes. apply exit_finishes.
Qed.
(** The socket that a client is connected by. *)
Definition client (i o : Z) (pre : list ev) : Prop := i = STDIN_FILENO /\ pre = [Connected o].
Lemma us_xfr_cl_spec fuel s : (remaining (cv s) < fuel)%nat ->
  post (fun _ _ => False) (ended s (run_of client (fun x => x) nothing)) (us_xfr_cl strerror fuel s).
Proof.
  intros Hfuel. unfold us_xfr_cl.
  eapply (setup_same _ _ _ _ _ s []); [apply since_start|exact (cv_socket SOCK_STREAM s)| |].
  2: { intros e s' He Hs'. eapply (fails_at _ _ _ _ 0 0); [done|apply prefix_nil|done|done]. }
  intros o s1 Hs1. eapply (setup_event _ _ _ _ _ _ s); [exact Hs1|exact (cv_connect o _ s1)| |].
  2: { intros e s' He Hs'. eapply (fails_at _ _ _ _ 0 0); [done|apply prefix_nil|done|done]. }
  intros u s2 Hs2. eapply (copy_then client _ STDIN_FILENO o _ (fun x => x)); [done|exact Hs2|done|apply exit_finishes].
Qed.

Lemma unixBuildAddress_same path addr s :
  post (fun r s' => cv s' = cv s /\ (r.1 <> -1 -> is_Some r.2)) (fun _ _ => False) (unixBuildAddress (Some path) (Some addr) s).
Proof.
  unfold unixBuildAddress. destruct (_ <? _)%nat; cbn; (split; [try apply cv_libc; done|done]).
Qed.
Lemma unixConnect_spec addr0 path s :
  post (fun r s' => match r with Some sd => cv s' = logged (Connected sd) (cv s) | None => cv s' = cv s end) (fun _ _ => False)
    (unixConnect addr0 (Some path) SOCK_STREAM s).
Proof.
  unfold unixConnect. apply post_bind. eapply post_mono; [| |exact (unixBuildAddress_same path addr0 s)]; [|done].
  intros [r addr] s1 [Hs1 Haddr]. cbn in Haddr. destruct (Z.eqb_spec r (-1)) as [|Hr]; [done|]. destruct (Haddr Hr) as [a ->].
  rewrite (bind_done (deref _) _ s1 a s1) by done. apply same_then; [exact (cv_socket _ s1)|]. intros [sd|] s2 Hs2; [|cbn; congruence].
  eapply call_bind; [exact (cv_connect sd a s2)|..].
  - intros [] s3 Hs3. cbn in *. congruence.
  - intros e s3 Hs3. rewrite (bind_done get_errno _ _ (lc_errno (libc_of (set_errno e s3).2)) (set_errno e s3).2) by done.
    apply same_then; [exact (cv_close sd _)|]. intros o s4 Hs4. cbn in Hs4. rewrite cv_libc in Hs4. unfold set_errno. munfold. cbn. rewrite cv_libc. congruence.
Qed.
Lemma us_xfr_v2_cl_spec addr0 fuel s : (remaining (cv s) < fuel)%nat ->
  post (fun _ _ => False) (ended s (run_of client (fun x => x) nothing)) (us_xfr_v2_cl strerror addr0 fuel s).
Proof.
  intros Hfuel. unfold us_xfr_v2_cl. apply post_bind. eapply post_mono; [| |exact (unixConnect_spec addr0 SV_SOCK_PATH_V2 s)]; [|done].
  intros [o|] s1 Hs1.
  - eapply (copy_then client _ STDIN_FILENO o _ (fun x => x)); [done|exact (since_logged s [] _ s s1 (since_start s) Hs1)|done|apply exit_finishes].
  - apply errExit_ends. intros e s2 He Hs2. eapply (fails_at _ _ _ _ 0 0); [done|apply prefix_nil|done|].
    eapply since_same; [apply since_start|congruence].
Qed.

(** Serving a connection. *)
Lemma us_xfr_round_spec fuel sfd s : (remaining (cv s) < fuel)%nat ->
  post (fun r s' => r = inl tt /\ (remaining (cv s') <= remaining (cv s))%nat /\
      (exists c l, log (cv s') = log (cv s) ++ Accepted c :: l /\ copied c STDOUT_FILENO (fun x => x) true l))
    (fun e s' => fails e /\ exists l, log (cv s') = log (cv s) ++ l /\
      (l = [] \/ exists c l', l = Accepted c :: l' /\ copied c STDOUT_FILENO (fun x => x) false l'))
    (us_xfr_round strerror fuel sfd s).
Proof.
  intros Hfuel. unfold us_xfr_round. eapply (setup_event _ _ _ _ _ _ s []); [apply since_start|exact (cv_accept sfd s)| |].
  2: { intros e s' He Hs'. split; [done|]. exists []. rewrite Hs'. split; [done|by left]. }
  intros c s1 Hs1. unfold since in Hs1. cbn in Hs1. apply post_bind. eapply post_mono; [| |apply (write_loop_spec fuel 100 c STDOUT_FILENO (fun x => x) partial s1); by rewrite Hs1].
  - intros _ s2 (Hr & l & Hl & Hs2). rewrite Hs1 in Hr, Hs2. cbn in Hr, Hs2. rewrite <- app_assoc in Hs2.
    apply same_then; [exact (cv_close c s2)|]. intros o s3 Hs3.
    assert (Hdone : forall s4, cv s4 = cv s3 -> (remaining (cv s4) <= remaining (cv s))%nat /\
      exists c l, log (cv s4) = log (cv s) ++ Accepted c :: l /\ copied c STDOUT_FILENO (fun x => x) true l).
    { intros s4 Hs4. rewrite Hs4, Hs3. split; [done|]. exists c, l. split; [exact Hs2|done]. }
    destruct o; [rewrite mret_bind; split; [done|by apply Hdone]|].
    rewrite (bind_done _ _ _ _ _ (proj1 (errMsg_correct strerror (str "close") s3))). split; [done|]. apply Hdone, cv_libc.
  - intros e s2 (He & l & Hl & Hs2). rewrite Hs1 in Hs2. cbn in Hs2. rewrite <- app_assoc in Hs2. split; [done|].
    exists (Accepted c :: l). split; [exact Hs2|]. right. by exists c, l.
Qed.
Lemma serving_spec s0 fuel rfuel sfd s l : (remaining (cv s) < rfuel)%nat -> sessions STDOUT_FILENO l -> log (cv s) = log (cv s0) ++ l ->
  post (fun _ _ => False) (ended s0 (serves STDOUT_FILENO)) (iter fuel (fun _ : unit => us_xfr_round strerror rfuel sfd) tt s : outcome Empty_set * S).
Proof.
  revert s l. induction fuel as [|fuel IH]; intros s l Hr Hl Hs; cbn [iter].
  - exists l. split; [done|]. split; [by left|]. exists l, []. rewrite app_nil_r. split; [done|split; [done|by left]].
  - apply post_bind. eapply post_mono; [| |exact (us_xfr_round_spec rfuel sfd s Hr)].
    + intros r s1 (-> & Hr1 & c & l1 & Hs1 & Hc). apply (IH s1 (l ++ Accepted c :: l1)); [lia|by constructor|]. by rewrite Hs1, Hs, <- app_assoc.
    + intros e s1 (He & l1 & Hs1 & Hpart). exists (l ++ l1). split; [by rewrite Hs1, Hs, <- app_assoc|]. split; [by right|]. by exists l, l1.
Qed.
Lemma serves_nothing s e s' : fails e -> cv s' = cv s -> ended s (serves STDOUT_FILENO) e s'.
Proof.
  intros He Hs'. exists []. rewrite Hs', app_nil_r. split; [done|]. split; [by right|]. exists [], []. split; [constructor|split; [done|by left]].
Qed.
Lemma us_xfr_sv_spec fuel rfuel s : (remaining (cv s) < rfuel)%nat ->
  post (fun _ _ => False) (ended s (serves STDOUT_FILENO)) (us_xfr_sv strerror fuel rfuel s).
Proof.
  intros Hr. unfold us_xfr_sv. eapply (setup_same _ _ _ _ _ s []); [apply since_start|exact (cv_socket SOCK_STREAM s)| |].
  2: { intros e s' He Hs'. apply serves_nothing; [done|]. rewrite Hs'. by destruct (cv s); unfold log, remaining; rewrite app_nil_r. }
  intros sfd s1 Hs1. assert (Hv1 : cv s1 = cv s) by (rewrite Hs1, app_nil_r; by destruct (cv s)). clear Hs1.
  destruct (_ <? _)%nat; [apply fatal_ends; intros; apply serves_nothing; [done|congruence]|].
  apply same_then; [exact (cv_remove _ s1)|]. intros r s2 Hs2.
  rewrite (bind_done get_errno _ s2 (lc_errno (libc_of s2)) s2) by done.
  destruct (if r is None then _ else _); [apply errExit_ends; intros; apply serves_nothing; [done|congruence]|].
  assert (Hv2 : since s [] s2) by (eapply since_same; [apply since_start|congruence]).
  assert (Hno : forall e s', fails e -> since s [] s' -> ended s (serves STDOUT_FILENO) e s').
  { intros e s' He Hs'. apply serves_nothing; [done|]. rewrite Hs', app_nil_r. by destruct (cv s). }
  eapply (setup_same _ _ _ _ _ s []); [exact Hv2|exact (cv_bind sfd _ s2)| |done]. intros u3 s3 Hs3.
  eapply (setup_same _ _ _ _ _ s []); [exact Hs3|exact (cv_listen sfd 5 s3)| |done]. intros u4 s4 Hs4.
  apply (serving_spec s fuel rfuel sfd s4 []); [by rewrite Hs4|constructor|by rewrite Hs4].
Qed.
Lemma unixBind_spec addr0 path s :
  post (fun _ s' => cv s' = cv s) (fun _ _ => False) (unixBind addr0 (Some path) SOCK_STREAM s).
Proof.
  unfold unixBind. apply post_bind. eapply post_mono; [| |exact (unixBuildAddress_same path addr0 s)]; [|done].
  intros [r addr] s1 [Hs1 Haddr]. cbn in Haddr. destruct (Z.eqb_spec r (-1)) as [|Hr]; [done|]. destruct (Haddr Hr) as [a ->].
  rewrite (bind_done (deref _) _ s1 a s1) by done. apply same_then; [exact (cv_socket _ s1)|]. intros [sd|] s2 Hs2; [|cbn; congruence].
  apply same_then; [exact (cv_bind sd a s2)|]. intros [u|] s3 Hs3; [cbn; congruence|].
  rewrite (bind_done get_errno _ s3 (lc_errno (libc_of s3)) s3) by done.
  apply same_then; [exact (cv_close sd _)|]. intros o s4 Hs4. unfold set_errno. munfold. cbn. rewrite cv_libc. congruence.
Qed.
Lemma us_xfr_v2_sv_spec addr0 fuel rfuel s : (remaining (cv s) < rfuel)%nat ->
  post (fun _ _ => False) (ended s (serves STDOUT_FILENO)) (us_xfr_v2_sv strerror addr0 fuel rfuel s).
Proof.
  intros Hr. unfold us_xfr_v2_sv. apply post_bind. eapply post_mono; [| |exact (unixBind_spec addr0 SV_SOCK_PATH_V2 s)]; [|done].
  intros [sfd|] s1 Hs1; [|apply errExit_ends; intros; apply serves_nothing; [done|congruence]].
  eapply (setup_same _ _ _ _ _ s []); [eapply since_same; [apply since_start|exact Hs1]|exact (cv_listen sfd 5 s1)| |].
  - intros u s2 Hs2. apply (serving_spec s fuel rfuel sfd s2 []); [by rewrite Hs2|constructor|by rewrite Hs2].
  - intros e s2 He Hs2. apply serves_nothing; [done|]. rewrite Hs2, app_nil_r. by destruct (cv s).
Qed.

Lemma fork_then {B} (k : option Z -> M S B) Q E s :
  (forall pid s', cv s' = logged (Forked pid) (cv s) -> post Q E (k (Some pid) s')) -> (forall s', cv s' = cv s -> post Q E (k None s')) ->
  post Q E ((call sys_fork ≫= k) s).
Proof.
  intros Hok Herr. eapply call_bind; [exact (cv_fork s)|..]; [intros pid s' Hs'; by apply Hok|]. intros e s' Hs'. apply Herr. cbn. rewrite cv_libc. exact Hs'.
Qed.
(** Whether a run is that of the child or of the parent, which fork() tells. *)
Definition either (child parent : ending -> list ev -> Prop) (e : ending) (l : list ev) : Prop := child e l \/ parent e l.
Lemma ended_child s0 child parent e s : ended s0 child e s -> ended s0 (either child parent) e s.
Proof. intros (l & H & Hc). exists l. split; [done|by left]. Qed.
Lemma ended_at s0 (R : ending -> list ev -> Prop) pre e s : since s0 pre s -> R e pre -> ended s0 R e s.
Proof. intros Hs Hr. exists pre. by rewrite Hs. Qed.

Lemma newline_finishes msg : finishes pipe_end (call (sys_write STDOUT_FILENO [newline]);; echecked strerror (sys_close msg) (str "close");; c__exit EXIT_SUCCESS).
Proof.
  intros s. eapply call_bind; [exact (cv_write STDOUT_FILENO [newline] s)|..].
  - intros k s1 [_ Hs1]. eapply post_mono; [| |exact (close_finishes msg (str "close") nothing _ _exit_finishes s1)]; [done|].
    intros e s2 (t & Ht & H). assert (Hnil : t = []) by (destruct H as [[_ H]|[_ [H|H]]]; exact H). subst t. rewrite app_nil_r in Ht.
    exists [Wr STDOUT_FILENO (take k [newline])]. rewrite Ht, Hs1. split; [done|].
    destruct H as [[-> _]|[He _]]; [left; split; [done|]; right; by exists k|right; split; [done|]; right; right; by exists k].
  - intros e s1 Hs1. eapply post_mono; [| |exact (close_finishes msg (str "close") nothing _ _exit_finishes (set_errno e s1).2)]; [done|].
    intros e2 s2 (t & Ht & H). assert (Hnil : t = []) by (destruct H as [[_ H]|[_ [H|H]]]; exact H). subst t.
    exists []. split; [rewrite Ht; cbn; by rewrite cv_libc, Hs1|]. destruct H as [[-> _]|[He _]]; [left; split; [done|by left]|right; split; [done|by left]].
Qed.

Lemma simple_pipe_parent_spec a r w pid s0 s : since s0 [Piped r w; Forked pid] s ->
  post (fun _ _ => False) (ended s0 (pipe_parent a))
    ((echecked strerror (sys_close r) (str "close - parent");;
      write_all strerror w (str "parent - partial/failed write") a;;
      echecked strerror (sys_close w) (str "close");;
      sys_wait;;
      c_exit EXIT_SUCCESS : M S Empty_set) s).
Proof.
  intros Hs. assert (Hfail : forall pre bs e s', fails e -> pre `prefix_of` [Piped r w; Forked pid; Wr w bs] -> since s0 pre s' -> ended s0 (pipe_parent a) e s').
  { intros pre bs e s' He Hpre Hs'. eapply ended_at; [exact Hs'|]. exists r, w, pid, bs. split; [done|by right]. }
  assert (H2 : forall bs, [Piped r w; Forked pid] `prefix_of` [Piped r w; Forked pid; Wr w bs]) by (intros bs; by exists [Wr w bs]).
  eapply (setup_same _ _ _ _ _ s0); [exact Hs|exact (cv_close r s)| |intros e s' He Hs'; exact (Hfail _ [] e s' He (H2 []) Hs')]. intros u s1 Hs1.
  apply post_bind. eapply post_mono; [| |exact (write_all_runs w _ a s1)].
  - intros [] s2 Hs2. cbn in Hs2. pose proof (since_logged _ _ _ _ _ Hs1 Hs2) as Hs2'. cbn in Hs2'.
    eapply (setup_same _ _ _ _ _ s0); [exact Hs2'|exact (cv_close w s2)| |intros e s' He Hs'; by apply (Hfail _ a e s' He (reflexivity _))]. intros u2 s3 Hs3.
    apply post_bind. eapply post_mono; [| |exact (cv_wait s3)]; [|done]. intros u3 s4 Hs4.
    unfold c_exit, fflush_stdout. munfold. cbn. eapply ended_at; [eapply (since_same _ _ s3); [exact Hs3|by rewrite cv_libc]|].
    exists r, w, pid, a. split; [done|by left].
  - intros e s2 [He [Hs2|[k Hs2]]].
    + eapply (Hfail _ []); [done|apply H2|by eapply since_same].
    + eapply (Hfail _ (take k a)); [done| |eapply since_logged; [exact Hs1|exact Hs2]]. done.
Qed.
Lemma simple_pipe_spec fuel name a s : (remaining (cv s) < fuel)%nat -> a <> str "--help" ->
  post (fun _ _ => False) (ended s (either (run_of pipe_child (fun x => x) pipe_end) (pipe_parent a))) (simple_pipe strerror fuel name [a] s).
Proof.
  intros Hfuel Ha. unfold simple_pipe, streq. rewrite bool_decide_false by done.
  assert (Hfail : forall pre r w pid e s', fails e -> pre `prefix_of` [Piped r w; Forked pid] -> since s pre s' ->
    ended s (either (run_of pipe_child (fun x => x) pipe_end) (pipe_parent a)) e s').
  { intros pre r w pid e s' He Hpre Hs'. eapply ended_at; [exact Hs'|]. right. exists r, w, pid, []. split; [|by right].
    etransitivity; [exact Hpre|]. by exists [Wr w []]. }
  eapply (setup_event _ _ _ _ _ _ s []); [apply since_start|exact (cv_pipe s)| |].
  2: { intros e s' He Hs'. eapply (Hfail [] 0 0 0); [done|apply prefix_nil|done]. }
  intros [r w] s1 Hs1. cbn in Hs1. apply fork_then.
  2: { intros s2 Hs2. apply errExit_ends. intros e s3 He Hs3. eapply (Hfail _ r w 0); [done| |eapply since_same; [exact Hs1|congruence]]. by exists [Forked 0]. }
  intros pid s2 Hs2. pose proof (since_logged _ _ _ _ _ Hs1 Hs2) as Hs2'. cbn in Hs2'.
  destruct (decide (pid = 0)) as [->|Hne].
  - eapply (setup_same _ _ _ _ _ s); [exact Hs2'|exact (cv_close w s2)| |].
    2: { intros e s3 He Hs3. eapply (Hfail _ r w 0); done. }
    intros u s3 Hs3. eapply post_mono; [done| |].
    2: { eapply (copy_then pipe_child pipe_end r STDOUT_FILENO _ (fun x => x)); [|exact Hs3|done|apply newline_finishes]. split; [done|by exists w]. }
    intros e s4. apply ended_child.
  - assert (Hp : post (fun _ _ => False) (ended s (pipe_parent a))
      ((echecked strerror (sys_close r) (str "close - parent");; write_all strerror w (str "parent - partial/failed write") a;;
        echecked strerror (sys_close w) (str "close");; sys_wait;; c_exit EXIT_SUCCESS : M S Empty_set) s2)) by by apply (simple_pipe_parent_spec a r w pid).
    destruct pid; [done|..]; (eapply post_mono; [done| |exact Hp]); intros e s3 (l & H & Hl); exists l; (split; [done|by right]).
Qed.
(** A round of the parent of change_case. *)
Lemma case_round_spec outbound inbound buf s :
  post (fun _ s' => exists l, case_used outbound inbound buf l /\ log (cv s') = log (cv s) ++ l /\ (remaining (cv s') <= remaining (cv s))%nat)
    (fun e s' => fails e /\ exists l, True /\ log (cv s') = log (cv s) ++ l) (case_round strerror outbound inbound buf s).
Proof.
  unfold case_round. apply post_bind. eapply post_mono; [| |exact (write_all_runs outbound _ buf s)].
  2: { intros e s1 [He [Hs1|[k Hs1]]]; (split; [done|]); [exists []; by rewrite Hs1, app_nil_r|eexists; by rewrite Hs1]. }
  intros [] s1 Hs1. cbn in Hs1.
  eapply (checked_then _ _ _ (fun bs s' => exists k, (k <= remaining (cv s1))%nat /\ cv s' = CView (log (cv s1) ++ [Rd inbound bs]) k)).
  - eapply post_mono; [| |exact (cv_read inbound 100 s1)]; [|done]. intros [bs|e] s2; [|done]. intros [_ (k & Hk & Hs2)]. exists k. split; [lia|done].
  - intros bs s2 (k & Hk & Hs2). rewrite Hs1 in Hs2, Hk. cbn in Hs2, Hk.
    destruct bs as [|c bs].
    + exists [Wr outbound buf; Rd inbound []]. rewrite Hs2. cbn. rewrite <- app_assoc. split; [by exists []|done].
    + eapply post_mono; [| |exact (write_all_runs STDOUT_FILENO _ (c :: bs) s2)].
      * intros [] s3 Hs3. cbn in Hs3. exists [Wr outbound buf; Rd inbound (c :: bs); Wr STDOUT_FILENO (c :: bs)]. rewrite Hs3, Hs2. cbn.
        rewrite <- !app_assoc. split; [by exists (c :: bs)|done].
      * intros e s3 [He [Hs3|[j Hs3]]]; (split; [done|]); rewrite Hs3, Hs2; cbn; rewrite <- !app_assoc; by eexists.
  - intros e s2 He Hs2. split; [done|]. rewrite Hs2, Hs1. cbn. by eexists.
Qed.

Lemma change_case_parent_spec fuel r out inb w pid s s3 : (remaining (cv s) < fuel)%nat -> since s [Piped r out; Piped inb w; Forked pid] s3 ->
  post (fun _ _ => False) (ended s case_parent) ((echecked strerror (sys_close r) (str "close");; echecked strerror (sys_close w) (str "close");;
    copy_loop strerror fuel 100 STDIN_FILENO (case_round strerror out inb);; c_exit EXIT_SUCCESS : M S Empty_set) s3).
Proof.
  intros Hfuel Hs3. assert (Hf : forall e s', fails e -> since s [Piped r out; Piped inb w; Forked pid] s' -> ended s case_parent e s').
  { intros e s' He Hs'. eapply ended_at; [exact Hs'|]. exists r, out, inb, w, pid, []. split; [constructor|]. right. split; [done|by left]. }
  eapply (setup_same _ _ _ _ _ s); [exact Hs3|exact (cv_close r s3)| |exact Hf]. intros u4 s4 Hs4.
  eapply (setup_same _ _ _ _ _ s); [exact Hs4|exact (cv_close w s4)| |exact Hf]. intros u5 s5 Hs5.
  apply post_bind. eapply post_mono; [| |apply (copy_loop_spec fuel 100 STDIN_FILENO _ (case_used out inb) (fun _ _ => True) s5); [by rewrite Hs5|apply case_round_spec]].
  - intros _ s6 (_ & l & Hl & Hs6). rewrite Hs5 in Hs6. cbn in Hs6. unfold c_exit, fflush_stdout. munfold. cbn.
    exists ([Piped r out; Piped inb w; Forked pid] ++ l ++ [Rd STDIN_FILENO []]). rewrite cv_libc, Hs6, <- app_assoc. split; [done|].
    exists r, out, inb, w, pid, l. split; [done|by left].
  - intros e s6 (He & l & Hl & Hs6). rewrite Hs5 in Hs6. cbn in Hs6.
    destruct Hs6 as [Hs6|(buf & lu & _ & Hs6)].
    + exists ([Piped r out; Piped inb w; Forked pid] ++ l). rewrite Hs6, <- app_assoc. split; [done|]. exists r, out, inb, w, pid, l. split; [done|].
      right. split; [done|right]. exists []. rewrite app_nil_r. split; [done|by left].
    + exists ([Piped r out; Piped inb w; Forked pid] ++ l ++ Rd STDIN_FILENO buf :: lu). split; [rewrite Hs6, Hs5; cbn; by rewrite <- app_assoc|].
      exists r, out, inb, w, pid, l. split; [done|]. right. split; [done|right]. exists (Rd STDIN_FILENO buf :: lu). split; [done|right; by exists buf, lu].
Qed.
Lemma change_case_spec fuel s : (remaining (cv s) < fuel)%nat ->
  post (fun _ _ => False) (ended s (either (run_of case_child (fmap toupper) nothing) case_parent)) (change_case strerror fuel s).
Proof.
  intros Hfuel. unfold change_case.
  assert (Hfail : forall pre r out inb w pid e s', fails e -> pre `prefix_of` [Piped r out; Piped inb w; Forked pid] -> since s pre s' ->
    ended s (either (run_of case_child (fmap toupper) nothing) case_parent) e s').
  { intros pre r out inb w pid e s' He Hpre Hs'. eapply ended_at; [exact Hs'|]. right. exists r, out, inb, w, pid, []. split; [constructor|].
    right. split; [done|by left]. }
  eapply (setup_event _ _ _ _ _ _ s []); [apply since_start|exact (cv_pipe s)| |].
  2: { intros e s' He Hs'. eapply (Hfail [] 0 0 0 0 0); [done|apply prefix_nil|done]. }
  intros [r out] s1 Hs1. cbn in Hs1. eapply (setup_event _ _ _ _ _ _ s); [exact Hs1|exact (cv_pipe s1)| |].
  2: { intros e s' He Hs'. eapply (Hfail _ r out 0 0 0); [done| |exact Hs']. by exists [Piped 0 0; Forked 0]. }
  intros [inb w] s2 Hs2. cbn in Hs2. apply fork_then.
  2: { intros s3 Hs3. apply errExit_ends. intros e s4 He Hs4. eapply (Hfail _ r out inb w 0); [done| |eapply since_same; [exact Hs2|congruence]]. by exists [Forked 0]. }
  intros pid s3 Hs3. pose proof (since_logged _ _ _ _ _ Hs2 Hs3) as Hs3'. cbn in Hs3'. cbn [fst snd].
  destruct (decide (pid = 0)) as [->|Hne].
  - eapply (setup_same _ _ _ _ _ s); [exact Hs3'|exact (cv_close out s3)| |intros e s4 He Hs4; by eapply (Hfail _ r out inb w 0)]. intros u4 s4 Hs4.
    eapply (setup_same _ _ _ _ _ s); [exact Hs4|exact (cv_close inb s4)| |intros e s5 He Hs5; by eapply (Hfail _ r out inb w 0)]. intros u5 s5 Hs5.
    eapply post_mono; [done| |].
    2: { eapply (copy_then case_child nothing r w _ (fmap toupper)); [|exact Hs5|done|apply _exit_finishes]. by exists out, inb. }
    intros e s6. apply ended_child.
  - pose proof (change_case_parent_spec fuel r out inb w pid s s3 Hfuel Hs3') as Hp.
    destruct pid; [done|..]; (eapply post_mono; [done| |exact Hp]); intros e s4 (l & H & Hl); exists l; (split; [done|by right]).
Qed.
(** ** Copies that do not look for short writes *)

Definition some_of (fds : list Z) (buf : bytes) (l : list ev) : Prop := Forall2 (fun fd x => exists k, x = Wr fd (take k buf)) fds l.
Lemma write_some_spec fd buf s :
  post (fun _ s' => exists k, cv s' = logged (Wr fd (take k buf)) (cv s)) (fun e s' => fails e /\ cv s' = cv s) (write_some strerror fd buf s).
Proof.
  unfold write_some. eapply (checked_then _ _ _ (fun _ s' => exists k, cv s' = logged (Wr fd (take k buf)) (cv s))).
  - eapply post_mono; [| |exact (cv_write fd buf s)]; [|done]. intros [k|e] s1 Hs1; [|done]. exists k. apply Hs1.
  - by intros k s1 Hs1.
  - done.
Qed.
Lemma write_each_spec fds buf s :
  post (fun _ s' => exists l, some_of fds buf l /\ log (cv s') = log (cv s) ++ l /\ (remaining (cv s') <= remaining (cv s))%nat)
    (fun e s' => fails e /\ exists l, True /\ log (cv s') = log (cv s) ++ l) (for_each fds (fun fd => write_some strerror fd buf) s).
Proof.
  revert s. induction fds as [|fd fds IH]; intros s; cbn [for_each].
  - exists []. rewrite app_nil_r. split; [constructor|done].
  - apply post_bind. eapply post_mono; [| |exact (write_some_spec fd buf s)].
    + intros _ s1 [k Hs1]. eapply post_mono; [| |exact (IH s1)].
      * intros _ s2 (l & Hl & Hs2 & Hr). rewrite Hs1 in Hs2, Hr. cbn in Hs2, Hr. exists (Wr fd (take k buf) :: l). rewrite Hs2, <- app_assoc.
        split; [constructor; [by exists k|done]|done].
      * intros e s2 (He & l & _ & Hs2). split; [done|]. rewrite Hs1 in Hs2. cbn in Hs2. rewrite Hs2, <- app_assoc. by eexists.
    + intros e s1 [He Hs1]. split; [done|]. exists []. by rewrite Hs1, app_nil_r.
Qed.
Lemma some_loop_spec fuel size i fds use s : (remaining (cv s) < fuel)%nat ->
  (forall buf s, use buf s = for_each fds (fun fd => write_some strerror fd buf) s) ->
  post (fun _ s' => exists l, rounds i (some_of fds) l /\ log (cv s') = log (cv s) ++ l ++ [Rd i []]) (fun e _ => fails e) (copy_loop strerror fuel size i use s).
Proof.
  intros Hfuel Huse. eapply post_mono; [| |apply (copy_loop_spec fuel size i use (some_of fds) (fun _ _ => True) s Hfuel)].
  - intros _ s' (_ & l & Hl & Hs). by exists l.
  - by intros e s' [He _].
  - intros buf s1. rewrite Huse. apply write_each_spec.
Qed.

(** tee: it has opened its file, or writes to the descriptor -1. *)
Definition tee_flags (opts : list ascii) : Z := Z.lor (Z.lor O_CREAT O_WRONLY) (if opts is [] then O_TRUNC else O_APPEND).
Definition tee_copied (opts : list ascii) (a : bytes) (l : list ev) : Prop :=
  exists fd pre l', (pre = [Opened a (tee_flags opts) fd] \/ pre = [] /\ fd = -1) /\
    rounds STDIN_FILENO (some_of [fd; STDOUT_FILENO]) l' /\ l = pre ++ l' ++ [Rd STDIN_FILENO []].
Lemma tee_options_a b opts s : Forall (fun o => o = "a"%char) opts -> tee_options b opts s = (Done (if opts is [] then b else true), s).
Proof. intros H. revert b. induction H as [|o opts -> _ IH]; intros b; [done|]. change (tee_options b ("a"%char :: opts) s) with (tee_options true opts s). rewrite IH. by destruct opts. Qed.
Lemma closed_then {A} fd msg (k : M S A) Q s v : (forall s1, cv s1 = v -> post Q (fun e _ => fails e) (k s1)) -> cv s = v ->
  post Q (fun e _ => fails e) ((echecked strerror (sys_close fd) msg;; k) s).
Proof.
  intros Hk Hs. eapply (checked_then _ _ _ (fun _ s' => cv s' = v)); [| |done].
  - eapply post_mono; [| |exact (cv_close fd s)]; [|done]. intros [u|e] s1 Hs1; congruence.
  - intros _ s1 Hs1. by apply Hk.
Qed.
Lemma tee_spec fuel opts a s : (remaining (cv s) < fuel)%nat -> Forall (fun o => o = "a"%char) opts ->
  post (fun _ s' => exists l, log (cv s') = log (cv s) ++ l /\ tee_copied opts a l) (fun e _ => fails e) (tee_main strerror fuel opts [a] s).
Proof.
  intros Hfuel Hopts. unfold tee_main. rewrite (bind_done _ _ _ _ _ (tee_options_a false opts s Hopts)).
  replace (if if opts is [] then false else true then O_APPEND else O_TRUNC) with (if opts is [] then O_TRUNC else O_APPEND) by by destruct opts.
  fold (tee_flags opts).
  assert (Hrest : forall fd pre s1, (pre = [Opened a (tee_flags opts) fd] \/ pre = [] /\ fd = -1) -> since s pre s1 ->
    post (fun _ s' => exists l, log (cv s') = log (cv s) ++ l /\ tee_copied opts a l) (fun e _ => fails e)
      ((copy_loop strerror fuel 10 STDIN_FILENO (fun buf => write_some strerror fd buf;; write_some strerror STDOUT_FILENO buf);;
        echecked strerror (sys_close fd) (str "close");; mret tt) s1)).
  { intros fd pre s1 Hpre Hs1. apply post_bind. eapply post_mono; [| |apply (some_loop_spec fuel 10 STDIN_FILENO [fd; STDOUT_FILENO] _ s1); [by rewrite Hs1|]].
    - intros _ s2 (l & Hl & Hs2). rewrite Hs1 in Hs2. cbn in Hs2. eapply (closed_then _ _ _ _ _ (cv s2)); [|done]. intros s3 Hs3. cbn.
      exists (pre ++ l ++ [Rd STDIN_FILENO []]). rewrite Hs3, Hs2, <- app_assoc. split; [done|]. by exists fd, pre, l.
    - done.
    - intros buf s2. cbn [for_each]. apply bind_ext. intros u s3. munfold. by destruct (write_some strerror STDOUT_FILENO buf s3) as [[[]| | | |] s4]. }
  eapply call_bind; [exact (cv_open a (tee_flags opts) s)|..].
  - intros fd s1 Hs1. apply (Hrest fd [Opened a (tee_flags opts) fd]); [by left|]. exact (since_logged s [] _ s s1 (since_start s) Hs1).
  - intros e s1 Hs1. apply (Hrest (-1) []); [by right|]. eapply since_same; [apply since_start|]. cbn. rewrite cv_libc. exact Hs1.
Qed.
Definition cpholes_copied (a b : bytes) (l : list ev) : Prop :=
  exists i o l', rounds i (some_of [o]) l' /\ l = [Opened a O_RDONLY i; Opened b (Z.lor O_CREAT (Z.lor O_TRUNC O_WRONLY)) o] ++ l' ++ [Rd i []].
Lemma cpholes_spec fuel a b rest s : (remaining (cv s) < fuel)%nat ->
  post (fun _ s' => exists l, log (cv s') = log (cv s) ++ l /\ cpholes_copied a b l) (fun e _ => fails e) (cpholes_main strerror fuel (a :: b :: rest) s).
Proof.
  intros Hfuel. unfold cpholes_main. eapply (setup_event _ _ _ _ _ _ s []); [apply since_start|exact (cv_open a O_RDONLY s)| |done].
  intros i s1 Hs1. eapply (setup_event _ _ _ _ _ _ s); [exact Hs1|exact (cv_open b _ s1)| |done]. intros o s2 Hs2.
  apply post_bind. eapply post_mono; [| |apply (some_loop_spec fuel 10 i [o] _ s2); [by rewrite Hs2|]].
  - intros _ s3 (l & Hl & Hs3). rewrite Hs2 in Hs3. cbn in Hs3. eapply (closed_then _ _ _ _ _ (cv s3)); [|done]. intros s4 Hs4.
    eapply (closed_then _ _ _ _ _ (cv s3)); [|done]. intros s5 Hs5. cbn. eexists. rewrite Hs5, Hs3, <- app_assoc. split; [done|]. by exists i, o, l.
  - done.
  - intros buf s3. cbn [for_each]. munfold. by destruct (write_some strerror o buf s3) as [[[]| | | |] s4].
Qed.

(** C40: The programs that copy lose nothing. The three copy programs, the two clients of us_xfr (from their
    standard input to their socket), the child of simple_pipe (from the pipe to the standard output) and that
    of change_case (from one pipe to the other, every letter in uppercase) exit successfully only at the end of
    their input, having written all of it, in order; when they fail before, what they wrote is a prefix. The
    servers of us_xfr write whole connections one after the other until they fail. The parent of
    simple_pipe writes its argument, that of change_case every buffer it reads and every answer. tee and
    cpholes, which do not look for short writes, write a prefix of every buffer. The loops
    take at most one round for each byte there is to be read. *)
Theorem copy_programs_correct fuel rfuel s : (remaining (cv s) < rfuel)%nat ->
  (forall name argv a b, argv = [a; b] \/ length argv <> 2%nat ->
    let run flags := ended s (run_of (two_files a b flags) (fun x => x) nothing) in
    post (fun _ _ => False) (run (Z.lor O_CREAT (Z.lor O_WRONLY O_TRUNC))) (copy_main strerror rfuel name argv s) /\
    post (fun _ _ => False) (run (Z.lor O_CREAT (Z.lor O_WRONLY O_TRUNC))) (filebuff_copy_main strerror rfuel name argv s) /\
    post (fun _ _ => False) (run (Z.lor O_CREAT (Z.lor O_WRONLY (Z.lor O_TRUNC O_SYNC)))) (sync_copy_main strerror rfuel name argv s)) /\
  (forall addr0, post (fun _ _ => False) (ended s (run_of client (fun x => x) nothing)) (us_xfr_cl strerror rfuel s) /\
    post (fun _ _ => False) (ended s (run_of client (fun x => x) nothing)) (us_xfr_v2_cl strerror addr0 rfuel s) /\
    post (fun _ _ => False) (ended s (serves STDOUT_FILENO)) (us_xfr_sv strerror fuel rfuel s) /\
    post (fun _ _ => False) (ended s (serves STDOUT_FILENO)) (us_xfr_v2_sv strerror addr0 fuel rfuel s)) /\
  (forall name a, a <> str "--help" ->
    post (fun _ _ => False) (ended s (either (run_of pipe_child (fun x => x) pipe_end) (pipe_parent a))) (simple_pipe strerror rfuel name [a] s)) /\
  post (fun _ _ => False) (ended s (either (run_of case_child (fmap toupper) nothing) case_parent)) (change_case strerror rfuel s) /\
  (forall opts a, Forall (fun o => o = "a"%char) opts ->
    post (fun _ s' => exists l, log (cv s') = log (cv s) ++ l /\ tee_copied opts a l) (fun e _ => fails e) (tee_main strerror rfuel opts [a] s)) /\
  (forall a b rest,
    post (fun _ s' => exists l, log (cv s') = log (cv s) ++ l /\ cpholes_copied a b l) (fun e _ => fails e) (cpholes_main strerror rfuel (a :: b :: rest) s)).
Proof.
  intros Hr. split_and!.
  - intros name argv a b Hargv. split_and!; by apply copy_with_spec.
  - intros addr0. split_and!; [by apply us_xfr_cl_spec|by apply us_xfr_v2_cl_spec|by apply us_xfr_sv_spec|by apply us_xfr_v2_sv_spec].
  - intros name a Ha. by apply simple_pipe_spec.
  - by apply change_case_spec.
  - intros opts a Hopts. by apply tee_spec.
  - intros a b rest. by apply cpholes_spec.
Qed.
End proofs.

(** * A run *)

(** One input, whatever it is read from. *)
Definition toy : Type := libc * (bytes * list ev).
Definition toy_log (x : ev) (s : toy) : toy := (s.1, (s.2.1, s.2.2 ++ [x])).
#[export] Instance toy_sock : SockOS toy := {
  sys_socket _ s := (Done (SOk 3), s);
  sys_connect fd _ s := (Done (SOk tt), toy_log (Connected fd) s);
  sys_bind _ _ s := (Done (SOk tt), s);
  sys_close _ s := (Done (SOk tt), s)
}.
#[export] Instance toy_copy : CopyOS toy := {
  sys_open p fl s := let fd := if bool_decide (fl = O_RDONLY) then 4 else 5 in (Done (SOk fd), toy_log (Opened p fl fd) s);
  sys_pipe s := (Done (SOk (6, 7)), toy_log (Piped 6 7) s);
  sys_fork s := (Done (SOk 0), toy_log (Forked 0) s);
  sys_wait s := (Done tt, s);
  sys_accept _ s := (Done (SErr EAGAIN), s);
  sys_listen _ _ s := (Done (SOk tt), s);
  sys_remove _ s := (Done (SErr ENOENT), s)
}.
#[export] Instance toy_read : ReadOS toy := fun fd n s =>
  (Done (SOk (take n s.2.1)), (s.1, (drop n s.2.1, s.2.2 ++ [Rd fd (take n s.2.1)]))).
#[export] Instance toy_write : WriteOS toy := fun fd bs s => (Done (SOk (length bs)), toy_log (Wr fd bs) s).
#[export, refine] Instance toy_spec : CopySpec toy := {| cv s := CView s.2.2 (length s.2.1) |}.
Proof.
  all: try done.
  - intros fd n [l [inp evs]]. cbn. rewrite length_take. split; [lia|]. exists (length (drop n inp)). rewrite length_drop. split; [lia|done].
  - intros fd bs [l [inp evs]]. cbn. by rewrite firstn_all.
Defined.
Definition toy0 : toy := (libc0, (str "hello" ++ [newline], [])).
Lemma copy_programs_correct_witness :
  post (fun _ _ => False) (ended toy0 (run_of (two_files (str "a") (str "b") (Z.lor O_CREAT (Z.lor O_WRONLY O_TRUNC))) (fun x => x) nothing))
    (copy_main (fun _ => []) 9 (str "copy") [str "a"; str "b"] toy0) /\
  post (fun _ _ => False) (ended toy0 (either (run_of case_child (fmap toupper) nothing) case_parent)) (change_case (fun _ => []) 9 toy0) /\
  into 7 (change_case (fun _ => []) 9 toy0).2.2.2 = str "HELLO" ++ [newline].
Proof.
  assert (Hr : (remaining (cv toy0) < 9)%nat) by (apply Nat.ltb_lt; by vm_compute).
  split; [|split; [|by vm_compute]].
  - exact (proj1 (proj1 (copy_programs_correct (fun _ => []) 0 9 toy0 Hr) (str "copy") [str "a"; str "b"] (str "a") (str "b") (or_introl eq_refl))).
  - exact (proj1 (proj2 (proj2 (proj2 (copy_programs_correct (fun _ => []) 0 9 toy0 Hr))))).
Defined.
