(* ===== verification/Trace.v ===== *)
(** Programs whose effect is the sequence of the calls they make: the calls as a family indexed by the types of
    their results, the trace of a run, and the rules by which a program is followed. *)
From S2P Require Import Prelude CLib Sys ErrorFunctions Calls GetNum.
From Stdlib Require Import Btauto.
#[local] Open Scope Z_scope.

Definition S_IRUSR : Z := 256.
Definition S_IWUSR : Z := 128.
Definition u64 : Z -> Z := wrap_u 64.
Definition i64 : Z -> Z := wrap_s 64.

(** * Calls and their trace *)

(** A call with its result. *)
Inductive event (C : Type -> Type) : Type :=
| Ev {A} (c : C A) (r : sysres A).
Arguments Ev {C A} c r.

Class TraceOS (C : Type -> Type) (S : Type) := sys : forall {A}, C A -> M S (sysres A).

(** What has been written to the standard output, be it delivered or pending. *)
Definition shown (l : libc) : bytes := (x ← lc_out l; if x.1 is Stdout then x.2 else []) ++ lc_pending l.

Class TraceSpec (C : Type -> Type) (S : Type) `{HL : HasLibc S} `{HT : TraceOS C S} := {
  trace : S -> list (event C);
  trace_libc : forall l s, trace (set_libc l s) = trace s;
  sys_traced : forall A (c : C A) s,
    post (fun r s' => trace s' = trace s ++ [Ev c r] /\ libc_of s' = libc_of s) (fun _ _ => False) (sys c s)
}.

(** ["%li"] of sscanf(); unlike strtol() it does not accept "0x" without digits. *)
Definition bare_prefix (s : bytes) : bool :=
  match s with z :: x :: _ => ceq z "0" && (ceq x "x" || ceq x "X") && bool_decide (hex_prefix s = None) | _ => false end.
Definition scan_li (s : bytes) : option Z :=
  if bare_prefix (scan_sign (skip_space s)).2 then None
  else let r := strtol s 0 in if bool_decide (sl_endptr r = s) then None else Some (sl_value r).

(** * Following a program *)

Lemma bind_mret {S A} (m : M S A) s : (m ≫= mret) s = m s.
Proof. unfold mbind, M_bind. by destruct (m s) as [[] ?]. Qed.

Section rules.
Context {C : Type -> Type} {S : Type} `{HT : TraceSpec C S} (strerror : Z -> bytes).

(** A run from [s0] that ends: it succeeds with calls and output [ok], or ends otherwise after the calls [bad]. *)
Definition ended (s0 : S) (ok : list (event C) -> bytes -> Prop) (bad : ending -> list (event C) -> Prop) (e : ending) (s : S) : Prop :=
  exists l, trace s = trace s0 ++ l /\
    ((e = EExit EXIT_SUCCESS /\ exists out, shown (libc_of s) = shown (libc_of s0) ++ out /\ ok l out) \/ bad e l).
Definition fails (e : ending) : Prop := e = EExit EXIT_FAILURE \/ e = EAbort.
(** Programs that end with a success or a failure only. *)
Definition ran (s0 : S) (ok : list (event C) -> bytes -> Prop) (bad : list (event C) -> Prop) : ending -> S -> Prop :=
  ended s0 ok (fun e l => fails e /\ bad l).

(** The calls and the output so far. *)
Definition sofar (s0 : S) (l : list (event C)) (out : bytes) (s : S) : Prop :=
  trace s = trace s0 ++ l /\ shown (libc_of s) = shown (libc_of s0) ++ out.
Lemma sofar_start s : sofar s [] [] s.
Proof. split; by rewrite app_nil_r. Qed.

Lemma shown_flushed l : shown (flushed l) = shown l.
Proof. unfold shown, flushed. cbn [lc_out lc_pending]. destruct (lc_pending l); [done|]. rewrite bind_app. cbn. by rewrite !app_nil_r. Qed.
Lemma shown_emitted d l : shown (emitted d l) = shown l.
Proof. unfold shown, emitted. cbn [lc_out lc_pending]. rewrite bind_app. cbn. by rewrite app_nil_r. Qed.

Context (s0 : S) (ok : list (event C) -> bytes -> Prop) (bad : ending -> list (event C) -> Prop).
#[local] Abbreviation Ends := (ended s0 ok bad).

Lemma sofar_libc l out f s : (forall b, shown (f b) = shown b) -> sofar s0 l out s -> sofar s0 l out (set_libc (f (libc_of s)) s).
Proof. intros Hf [H1 H2]. split; [by rewrite trace_libc|]. by rewrite libc_of_set, Hf. Qed.

Lemma run_stops {A} (m : M S A) Q l out s :
  sofar s0 l out s -> post (fun _ _ => False) (stops trace s) (m s) -> (forall e, fails e -> bad e l) -> post Q Ends (m s).
Proof.
  intros [Ht _] Hm Hb. eapply post_mono; [| |exact Hm]; [done|]. intros e s' [He Hs].
  exists l. split; [by rewrite Hs|]. right. by apply Hb.
Qed.
Lemma run_try {A B} (c : C A) (k : option A -> M S B) Q l out s :
  sofar s0 l out s ->
  (forall a s', sofar s0 (l ++ [Ev c (SOk a)]) out s' -> post Q Ends (k (Some a) s')) ->
  (forall x s', sofar s0 (l ++ [Ev c (SErr x)]) out s' -> post Q Ends (k None s')) ->
  post Q Ends ((call (sys c) ≫= k) s).
Proof.
  intros [Ht Ho] Hok Herr. eapply call_bind; [apply sys_traced| |].
  - intros a s' [H1 H2]. apply Hok. split; [by rewrite H1, Ht, app_assoc|by rewrite H2].
  - intros x s' [H1 H2]. apply (Herr x). apply (sofar_libc _ _ (fun b => Libc x (lc_environ b) (lc_pending b) (lc_out b))); [done|].
    split; [by rewrite H1, Ht, app_assoc|by rewrite H2].
Qed.
Lemma run_errExit {A} msg Q l out s : sofar s0 l out s -> (forall e, fails e -> bad e l) -> post Q Ends (@errExit S _ strerror A msg s).
Proof. intros Hs. apply (run_stops _ _ _ _ _ Hs). apply errExit_stops, trace_libc. Qed.
Lemma run_die {A B} (c : C A) (die : bytes -> M S A) msg (k : A -> M S B) Q l out s :
  (forall s1 (R : A -> S -> Prop), post R (stops trace s1) (die msg s1)) ->
  sofar s0 l out s ->
  (forall a s', sofar s0 (l ++ [Ev c (SOk a)]) out s' -> post Q Ends (k a s')) ->
  (forall x e, fails e -> bad e (l ++ [Ev c (SErr x)])) ->
  post Q Ends ((checked_by die (sys c) msg ≫= k) s).
Proof.
  intros Hdie Hs Hok Herr. unfold checked_by. rewrite bind_bind. eapply run_try; [exact Hs|exact Hok|].
  intros x s' Hx. apply post_bind. eapply run_stops; [exact Hx|apply Hdie|]. intros e He. by eapply Herr.
Qed.
Lemma run_call {A B} (c : C A) msg (k : A -> M S B) Q l out s :
  sofar s0 l out s ->
  (forall a s', sofar s0 (l ++ [Ev c (SOk a)]) out s' -> post Q Ends (k a s')) ->
  (forall x e, fails e -> bad e (l ++ [Ev c (SErr x)])) ->
  post Q Ends ((echecked strerror (sys c) msg ≫= k) s).
Proof. apply run_die. intros. apply errExit_stops, trace_libc. Qed.
Lemma run_printf {B} txt (k : M S B) Q l out s :
  sofar s0 l out s -> (forall s', sofar s0 l (out ++ txt) s' -> post Q Ends (k s')) -> post Q Ends ((printf txt;; k) s).
Proof.
  intros [Ht Ho] Hk. rewrite (bind_done (printf txt) _ s tt _ eq_refl). apply Hk. split; [by rewrite trace_libc|].
  rewrite libc_of_set. unfold shown in *. simpl. by rewrite app_assoc, Ho, app_assoc.
Qed.
Lemma run_success {A} Q l out s : sofar s0 l out s -> ok l out -> post Q Ends (@c_exit S _ A EXIT_SUCCESS s).
Proof.
  intros Hs Hok. destruct (sofar_libc _ _ flushed s shown_flushed Hs) as [Ht Ho].
  exists l. split; [exact Ht|]. left. split; [done|]. exists out. done.
Qed.

(** The numeric arguments. *)
Definition int_arg (flags : Z) (arg : bytes) (v : Z) : Prop := denotes flags (Some arg) v /\ INT_MIN <= v <= INT_MAX.
Definition long_arg (flags : Z) (arg : bytes) (v : Z) : Prop := denotes flags (Some arg) v.

Lemma keeps_gnFail {A} t fname msg arg name : keeps (fun s => trace s = t) (@gnFail S _ A fname msg arg name).
Proof.
  assert (Hp : forall txt, keeps (fun s => trace s = t) (eprintf txt)) by (intros txt s Hs; cbn; by rewrite trace_libc).
  assert (He : forall B, keeps (fun s => trace s = t) (@c_exit S _ B EXIT_FAILURE)) by (intros B s Hs; unfold c_exit, fflush_stdout; munfold; cbn; by rewrite trace_libc).
  unfold gnFail. keeps_tac; by (apply Hp || apply He).
Qed.
Lemma keeps_getNum t fname arg flags name : keeps (fun s => trace s = t) (getNum fname arg flags name).
Proof. unfold getNum. keeps_tac; apply keeps_gnFail. Qed.

Lemma run_getInt {B} arg flags name (k : Z -> M S B) Q l out s :
  sofar s0 l out s -> (forall v, int_arg flags arg v -> post Q Ends (k v s)) ->
  ((forall v, ~ int_arg flags arg v) -> forall e, fails e -> bad e l) ->
  post Q Ends ((getInt (Some arg) flags name ≫= k) s).
Proof.
  intros [Ht Ho] Hk Hb. pose proof (getInt_correct (Some arg) flags name s) as H.
  assert (Hkeep : trace (getInt (Some arg) flags name s).2 = trace s).
  { refine (keeps_run (fun s' => trace s' = trace s) _ s _ eq_refl). unfold getInt. apply keeps_bind; [apply keeps_getNum|].
    intros v. destruct (_ || _); [apply keeps_gnFail|apply keeps_ret]. }
  unfold mbind, M_bind. destruct (getInt _ _ _ s) as [[v|n| | |] s']; try done.
  - destruct H as (-> & Hd & Hr). by apply Hk.
  - destruct H as [-> H]. simpl in Hkeep. exists l. split; [by rewrite Hkeep|]. right. apply Hb; [|by left]. intros v [Hd Hr]. by apply (H v).
Qed.
Lemma run_getLong {B} arg flags name (k : Z -> M S B) Q l out s :
  sofar s0 l out s -> (forall v, long_arg flags arg v -> post Q Ends (k v s)) ->
  ((forall v, ~ long_arg flags arg v) -> forall e, fails e -> bad e l) ->
  post Q Ends ((getLong (Some arg) flags name ≫= k) s).
Proof.
  intros [Ht Ho] Hk Hb. unfold getLong. pose proof (getNum_spec (str "getLong") (Some arg) flags name s) as H.
  pose proof (keeps_run (fun s' => trace s' = trace s) _ s (keeps_getNum (trace s) (str "getLong") (Some arg) flags name) eq_refl) as Hkeep.
  unfold mbind, M_bind. destruct (getNum _ _ _ _ s) as [[v|n| | |] s']; try done.
  - destruct H as [-> Hd]. by apply Hk.
  - destruct H as [-> H]. simpl in Hkeep. exists l. split; [by rewrite Hkeep|]. right. apply Hb; [done|by left].
Qed.
Lemma int_arg_unique flags arg v w : int_arg flags arg v -> int_arg flags arg w -> v = w.
Proof. intros [Hv _] [Hw _]. by eapply denotes_unique. Qed.
End rules.

(** * Programs that make a sequence of calls *)

Section performs.
Context {C : Type -> Type} {S : Type} `{HT : TraceSpec C S} (strerror : Z -> bytes).
Implicit Types ok full : list (event C) -> bytes -> Prop.

(** A run as in [full], but for the last call, which failed. *)
Definition stopped_in full (l : list (event C)) : Prop :=
  exists A (c : C A) x r l0 l1 out, l = l0 ++ [Ev c (SErr x)] /\ full (l0 ++ Ev c (SOk r) :: l1) out.
(** The program makes the calls of a run of [full], and exits successfully when it is one of [ok]; it fails at the first
    call that fails, or without any call when [full] has no run, that is, when the command line asks for nothing. *)
Definition performs_for ok full (s0 : S) : ending -> S -> Prop :=
  ran s0 ok (fun l => stopped_in full l \/ l = [] /\ forall l out, ~ full l out).

Lemma performs_die {A B} ok full s0 (c : C A) (die : bytes -> M S A) msg (k : A -> M S B) Q l out s :
  (forall s1 (R : A -> S -> Prop), post R (stops trace s1) (die msg s1)) ->
  sofar s0 l out s -> (exists r l1 out, full (l ++ Ev c (SOk r) :: l1) out) ->
  (forall a s', sofar s0 (l ++ [Ev c (SOk a)]) out s' -> post Q (performs_for ok full s0) (k a s')) ->
  post Q (performs_for ok full s0) ((checked_by die (sys c) msg ≫= k) s).
Proof.
  intros Hdie Hs (r & l1 & out' & Hf) Hk. eapply run_die; [exact Hdie|exact Hs|exact Hk|].
  intros x e He. split; [done|]. left. by exists A, c, x, r, l, l1, out'.
Qed.

Lemma performs_call {A B} ok full s0 (c : C A) msg (k : A -> M S B) Q l out s :
  sofar s0 l out s -> (exists r l1 out, full (l ++ Ev c (SOk r) :: l1) out) ->
  (forall a s', sofar s0 (l ++ [Ev c (SOk a)]) out s' -> post Q (performs_for ok full s0) (k a s')) ->
  post Q (performs_for ok full s0) ((echecked strerror (sys c) msg ≫= k) s).
Proof. apply performs_die. intros. apply errExit_stops, trace_libc. Qed.
Lemma performs_try {A B} ok full s0 (c : C A) (k : option A -> M S B) Q l out s :
  sofar s0 l out s ->
  (forall r s', sofar s0 (l ++ [Ev c r]) out s' -> post Q (performs_for ok full s0) (k (if r is SOk a then Some a else None) s')) ->
  post Q (performs_for ok full s0) ((call (sys c) ≫= k) s).
Proof. intros Hs Hk. eapply run_try; [exact Hs|intros a s' Hs'; exact (Hk (SOk a) s' Hs')|intros x s' Hs'; exact (Hk (SErr x) s' Hs')]. Qed.
Lemma performs_printf {B} txt ok full s0 (k : M S B) Q l out s :
  sofar s0 l out s -> (forall s', sofar s0 l (out ++ txt) s' -> post Q (performs_for ok full s0) (k s')) -> post Q (performs_for ok full s0) ((printf txt;; k) s).
Proof. apply run_printf. Qed.
Lemma performs_success {A} ok full s0 l out s Q : sofar s0 l out s -> ok l out -> post Q (performs_for ok full s0) (@c_exit S _ A EXIT_SUCCESS s).
Proof. apply run_success. Qed.
Lemma performs_refused {A} ok full s0 out (m : M S A) Q s : sofar s0 [] out s -> post (fun _ _ => False) (stops trace s) (m s) -> (forall l out, ~ full l out) ->
  post Q (performs_for ok full s0) (m s).
Proof. intros Hs Hm Hf. eapply run_stops; [exact Hs|exact Hm|]. intros e He. split; [done|by right]. Qed.
Lemma performs_getInt {B} ok full s0 arg flags name (k : Z -> M S B) Q out s :
  sofar s0 [] out s -> (forall v, int_arg flags arg v -> post Q (performs_for ok full s0) (k v s)) ->
  ((forall v, ~ int_arg flags arg v) -> forall l out, ~ full l out) ->
  post Q (performs_for ok full s0) ((getInt (Some arg) flags name ≫= k) s).
Proof. intros Hs Hk Hf. eapply run_getInt; [exact Hs|exact Hk|]. intros Hno e He. split; [done|]. right. split; [done|by apply Hf]. Qed.
Lemma performs_getLong {B} ok full s0 arg flags name (k : Z -> M S B) Q out s :
  sofar s0 [] out s -> (forall v, long_arg flags arg v -> post Q (performs_for ok full s0) (k v s)) ->
  ((forall v, ~ long_arg flags arg v) -> forall l out, ~ full l out) ->
  post Q (performs_for ok full s0) ((getLong (Some arg) flags name ≫= k) s).
Proof. intros Hs Hk Hf. eapply run_getLong; [exact Hs|exact Hk|]. intros Hno e He. split; [done|]. right. split; [done|by apply Hf]. Qed.

End performs.
Abbreviation performs full := (performs_for full full).

Section flags.
Context {C : Type -> Type} {S : Type} `{HT : TraceSpec C S}.
Implicit Types ok full : list (event C) -> bytes -> Prop.

(** A [switch] that turns options into flags; what the options [opts] choose from its [table], in any order. *)
Fixpoint flag_options (usage : forall A, M S A) (table : list (ascii * Z)) (opts : list ascii) (flags : Z) : M S Z :=
  match opts with
  | [] => mret flags
  | o :: opts =>
      match list_find (fun x => x.1 = o) table with
      | Some (_, (_, f)) => flag_options usage table opts (Z.lor flags f)
      | None => usage _
      end
  end.
Definition chosen (table : list (ascii * Z)) (opts : list ascii) : Z :=
  foldr (fun x acc => Z.lor (if bool_decide (x.1 ∈ opts) then x.2 else 0) acc) 0 table.
Lemma chosen_cons table o opts : chosen table (o :: opts) = Z.lor (chosen table [o]) (chosen table opts).
Proof.
  induction table as [|[c f] table IH]; [done|]. cbn [chosen foldr fst snd]. fold (chosen table (o :: opts)) (chosen table [o]) (chosen table opts).
  rewrite IH. rewrite (bool_decide_ext (c ∈ o :: opts) (c = o \/ c ∈ opts)) by apply elem_of_cons.
  rewrite (bool_decide_ext (c ∈ [o]) (c = o)) by apply list_elem_of_singleton.
  repeat case_bool_decide; try tauto; rewrite ?Z.lor_0_l; apply Z.bits_inj; intros n; rewrite !Z.lor_spec; btauto.
Qed.
Lemma chosen_ext table opts opts' : (forall o, o ∈ opts <-> o ∈ opts') -> chosen table opts = chosen table opts'.
Proof.
  intros H. induction table as [|[c f] table IH]; [done|]. cbn [chosen foldr fst snd]. fold (chosen table opts) (chosen table opts').
  by rewrite IH, (bool_decide_ext _ _ (H c)).
Qed.
Lemma chosen_nil table : chosen table [] = 0.
Proof.
  induction table as [|x table IH]; [done|]. cbn [chosen foldr]. rewrite bool_decide_eq_false_2, Z.lor_0_l by apply not_elem_of_nil. exact IH.
Qed.
Lemma chosen_app table opts opts' : chosen table (opts ++ opts') = Z.lor (chosen table opts) (chosen table opts').
Proof.
  induction opts as [|o opts IH]; [by rewrite chosen_nil, Z.lor_0_l|]. cbn [app]. by rewrite chosen_cons, IH, (chosen_cons table o opts), Z.lor_assoc.
Qed.
Lemma chosen_absent table o : o ∉ table.*1 -> chosen table [o] = 0.
Proof.
  induction table as [|[d h] table IH]; [done|]. cbn [fmap list_fmap fst]. rewrite not_elem_of_cons. intros [Hd Hc].
  cbn [chosen foldr fst snd] in *. fold (chosen table [o]).
  rewrite bool_decide_eq_false_2 by (rewrite list_elem_of_singleton; congruence). by rewrite IH.
Qed.
Lemma chosen_one table o i f : NoDup table.*1 -> list_find (fun x => x.1 = o) table = Some (i, (o, f)) -> chosen table [o] = f.
Proof.
  revert i. induction table as [|[c g] table IH]; intros i Hnd; [done|]. apply NoDup_cons in Hnd as [Hc Hnd]. cbn [list_find chosen foldr fst snd] in *.
  fold (chosen table [o]). rewrite (bool_decide_ext (c ∈ [o]) (c = o)) by apply list_elem_of_singleton. case_decide as Hco; cbn in Hco.
  - intros [= <- _ <-]. rewrite bool_decide_eq_true_2 by done. subst c.
    by rewrite chosen_absent, Z.lor_0_r.
  - rewrite bool_decide_eq_false_2, Z.lor_0_l by done. intros H. destruct (list_find _ table) as [[j x]|] eqn:E; [|done].
    cbn in H. injection H as <- ->. by eapply IH.
Qed.
Lemma flag_options_run {B} (usage : forall A, M S A) table opts ok full s0 (k : Z -> M S B) Q s :
  (forall A s1 (R : A -> S -> Prop), post R (stops trace s1) (usage A s1)) -> NoDup table.*1 -> forall flags,
  sofar s0 [] [] s -> (Forall (fun o => o ∈ table.*1) opts -> post Q (performs_for ok full s0) (k (Z.lor flags (chosen table opts)) s)) ->
  (~ Forall (fun o => o ∈ table.*1) opts -> forall l out, ~ full l out) ->
  post Q (performs_for ok full s0) ((flag_options usage table opts flags ≫= k) s).
Proof.
  intros Husage Hnd. induction opts as [|o opts IH]; intros flags Hs Hk Hb.
  { specialize (Hk (Forall_nil_2 _)). by rewrite chosen_nil, Z.lor_0_r in Hk. }
  cbn [flag_options]. destruct (list_find _ table) as [[i [c f]]|] eqn:E.
  - pose proof E as (Hi & Hco & _)%list_find_Some. cbn in Hco. subst c.
    assert (Ho : o ∈ table.*1) by (apply list_elem_of_fmap; exists (o, f); split; [done|by eapply list_elem_of_lookup_2]).
    apply IH; [done| |].
    + intros H. specialize (Hk (Forall_cons_2 (fun o => o ∈ table.*1) _ _ Ho H)). by rewrite chosen_cons, (chosen_one _ _ _ _ Hnd E), Z.lor_assoc in Hk.
    + intros H. apply Hb. intros H'. by inversion H'.
  - apply post_bind. eapply performs_refused; [exact Hs|apply Husage|]. apply Hb. intros H. inversion H as [|? ? Ho _]; subst.
    apply list_elem_of_fmap in Ho as ([c f] & -> & Ho). by eapply list_find_None, Forall_forall in E.
Qed.
End flags.

(** Options with arguments. *)
(** The argument of the last option [c]. *)
Definition last_arg (c : ascii) (opts : list (ascii * bytes)) (dflt : Z) : Z :=
  match last (filter (fun o => o.1 = c) opts) with Some o => atoi o.2 | None => dflt end.
Lemma last_arg_snoc c opts o d : last_arg c (opts ++ [o]) d = if bool_decide (o.1 = c) then atoi o.2 else last_arg c opts d.
Proof.
  unfold last_arg. rewrite filter_app. case_bool_decide as H.
  - by rewrite filter_cons_True, filter_nil, last_snoc by done.
  - rewrite filter_cons_False, filter_nil by done. by rewrite app_nil_r.
Qed.
Lemma mem_snoc (c o : ascii) (pre : list (ascii * bytes)) a : c ∈ (pre ++ [(o, a)]).*1 <-> c ∈ pre.*1 \/ o = c.
Proof. rewrite fmap_app, elem_of_app. cbn [fmap list_fmap fst]. rewrite list_elem_of_singleton. split; intros [|]; auto. Qed.

(** The permissions that a program gives to what it creates. *)
Section octal.
Context {C : Type -> Type} {S : Type} `{HT : TraceSpec C S} (strerror : Z -> bytes).
Definition octal_perms (arg : option bytes) : M S Z :=
  match arg with None => mret (Z.lor S_IRUSR S_IWUSR) | Some a => getInt (Some a) GN_BASE_8 (Some (str "octal-perms")) end.
Definition perms_of (arg : option bytes) (perms : Z) : Prop :=
  match arg with None => perms = 384 | Some a => int_arg GN_BASE_8 a perms end.

Lemma octal_run {B} s0 ok bad arg (k : Z -> M S B) Q l out s :
  sofar s0 l out s -> (forall p, perms_of arg p -> post Q (ended s0 ok bad) (k p s)) ->
  ((forall p, ~ perms_of arg p) -> forall e, fails e -> bad e l) -> post Q (ended s0 ok bad) ((octal_perms arg ≫= k) s).
Proof.
  intros Hs Hk Hb. destruct arg as [a|]; [|by apply (Hk 384)].
  by apply (run_getInt _ _ _ _ _ _ _ _ l out).
Qed.
Lemma performs_octal {B} ok full s0 arg (k : Z -> M S B) Q out s :
  sofar s0 [] out s -> (forall p, perms_of arg p -> post Q (performs_for ok full s0) (k p s)) ->
  ((forall p, ~ perms_of arg p) -> forall l out, ~ full l out) -> post Q (performs_for ok full s0) ((octal_perms arg ≫= k) s).
Proof. intros Hs Hk Hf. eapply octal_run; [exact Hs|exact Hk|]. intros Hno e He. split; [done|]. right. split; [done|by apply Hf]. Qed.
End octal.

(** * A system that answers as it is told *)

Section toy.
Context {C : Type -> Type} (answer : list (event C) -> forall A, C A -> sysres A).
Definition toy : Type := libc * list (event C).
Definition toy_os : TraceOS C toy := fun A c s => let r := answer s.2 A c in (Done r, (s.1, s.2 ++ [Ev c r])).
#[refine] Definition toy_spec : @TraceSpec C toy _ toy_os := {| trace s := s.2 |}.
Proof. all: done. Defined.
Definition toy0 : toy := (libc0, []).
End toy.
