(* ===== verification/SysvIpc.v ===== *)
(** The programs around System V IPC objects: book-src/svmsg/svmsg_create.c, svmsg_send.c, svmsg_receive.c,
    svmsg_chqbytes.c, svmsg_rm.c; svsem/svsem_create.c, svsem_setall.c, svsem_rm.c; svshm/svshm_create.c,
    svshm_attach.c, svshm_rm.c. *)
From S2P Require Import Prelude CLib Sys ErrorFunctions Calls GetNum Trace Formats.
#[local] Open Scope Z_scope.

Definition IPC_CREAT : Z := 512.
Definition IPC_EXCL : Z := 1024.
Definition IPC_NOWAIT : Z := 2048.
Definition IPC_PRIVATE : Z := 0.
Definition MSG_NOERROR : Z := 4096.
Definition MSG_EXCEPT : Z := 8192.
Definition SHM_RDONLY : Z := 4096.
Definition SHM_RND : Z := 8192.
Definition SHMLBA : Z := 4096.

(** struct msqid_ds: the field that is changed, and the others. *)
Record msqid_ds := MsqidDs { msg_qbytes : Z; msq_rest : list Z }.

Inductive ipc : Type -> Type :=
| Ftok (path : bytes) (proj : Z) : ipc Z
| Msgget (key flags : Z) : ipc Z
| Msgsnd (id mtype : Z) (mtext : bytes) (flags : Z) : ipc unit
| Msgrcv (id maxBytes type flags : Z) : ipc (Z * bytes)
| MsgStat (id : Z) : ipc msqid_ds
| MsgSet (id : Z) (ds : msqid_ds) : ipc unit
| MsgRmid (id : Z) : ipc unit
| Semget (key nsems flags : Z) : ipc Z
| SemStat (id : Z) : ipc Z
| SemSetall (id : Z) (vals : list Z) : ipc unit
| SemRmid (id : Z) : ipc unit
| Calloc (n : Z) : ipc unit
| Shmget (key size flags : Z) : ipc Z
| Shmat (id addr flags : Z) : ipc Z
| ShmRmid (id : Z) : ipc unit
| Getpid : ipc Z
| Sleep (secs : Z) : ipc unit.

(** printf("%p") in glibc. *)
Definition print_ptr (p : Z) : bytes := if p =? 0 then str "(nil)" else str "0x" ++ Formats.WaitStatus.hex_digits 16 (u64 p).

Section programs.
Context {S : Type} `{HL : HasLibc S} `{HT : TraceOS ipc S}.
Context (strerror : Z -> bytes).

#[local] Abbreviation Sys c := (sys (C := ipc) c).
#[local] Abbreviation checked c msg := (echecked strerror (sys (C := ipc) c) msg).

(** ** Creating an object *)

(** The usage message; [what]: the arguments after the options. *)
Definition create_usage {A} (name what : bytes) (msg : option bytes) : M S A :=
  match msg with Some m => eprintf m | None => mret tt end;;
  eprintf (str "Usage: " ++ name ++ str " [-cx] {-f pathname | -k key | -p} " ++ what ++ [newline]);;
  eprintf (str "    -c           Use IPC_CREAT flag" ++ [newline]);;
  eprintf (str "    -x           Use IPC_EXCL flag" ++ [newline]);;
  eprintf (str "    -f pathname  Generate key using ftok()" ++ [newline]);;
  eprintf (str "    -k key       Use 'key' as key" ++ [newline]);;
  eprintf (str "    -p           Use IPC_PRIVATE key" ++ [newline]);;
  c_exit EXIT_FAILURE.
(** The options that getopt() finds, with their arguments; [key] is not set before the first of -f, -k and -p. *)
Fixpoint create_options (usage : forall A, option bytes -> M S A) (bad_option : option bytes)
    (opts : list (ascii * bytes)) (key : option Z) (numKeyFlags flags : Z) : M S (option Z * Z * Z) :=
  match opts with
  | [] => mret (key, numKeyFlags, flags)
  | (o, optarg) :: opts =>
      if ceq o "c" then create_options usage bad_option opts key numKeyFlags (Z.lor flags IPC_CREAT)
      else if ceq o "f" then
        k ← checked (Ftok optarg 1) (str "ftok");
        create_options usage bad_option opts (Some k) (numKeyFlags + 1) flags
      else if ceq o "k" then
        match scan_li optarg with
        | None => cmdLineErr (str "-k option requires a numeric argument" ++ [newline])
        | Some lkey => create_options usage bad_option opts (Some (i32 lkey)) (numKeyFlags + 1) flags
        end
      else if ceq o "p" then create_options usage bad_option opts (Some IPC_PRIVATE) (numKeyFlags + 1) flags
      else if ceq o "x" then create_options usage bad_option opts key numKeyFlags (Z.lor flags IPC_EXCL)
      else usage _ bad_option
  end.
(** The options and the test that there is one key. *)
Definition create_key (usage : forall A, option bytes -> M S A) (bad_option : option bytes) (opts : list (ascii * bytes)) : M S (Z * Z) :=
  '(key, numKeyFlags, flags) ← create_options usage bad_option opts None 0 0;
  if negb (numKeyFlags =? 1) then usage _ (Some (str "Exactly one of the options -f, -k, or -p must be supplied" ++ [newline]))
  else
    key ← deref key;
    mret (key, flags).
(** [args] are the arguments after the options, here and below. *)
(** Source: book-src/svmsg/svmsg_create.c:23-99 (usageError, main). *)
Definition svmsg_create (name : bytes) (opts : list (ascii * bytes)) (args : list bytes) : M S Empty_set :=
  let usage := fun A => @create_usage A name (str "[octal-perms]") in
  '(key, flags) ← create_key usage (Some (str "Bad option" ++ [newline])) opts;
  perms ← octal_perms (args !! 0%nat);
  msqid ← checked (Msgget key (Z.lor flags perms)) (str "msgget");
  printf (print_dec msqid ++ [newline]);;
  c_exit EXIT_SUCCESS.
(** Source: book-src/svsem/svsem_create.c:25-106 (usageError, main). *)
Definition svsem_create (name : bytes) (opts : list (ascii * bytes)) (args : list bytes) : M S Empty_set :=
  let usage := fun A => @create_usage A name (str "num-sems [octal-perms]") in
  '(key, flags) ← create_key usage None opts;
  match args with
  | [] => usage _ (Some (str "Must specify number of semaphores" ++ [newline]))
  | a :: rest =>
      numSems ← getInt (Some a) 0 (Some (str "num-sems"));
      perms ← octal_perms (rest !! 0%nat);
      semid ← checked (Semget key numSems (Z.lor flags perms)) (str "semget");
      printf (print_dec semid ++ [newline]);;
      c_exit EXIT_SUCCESS
  end.
(** Source: book-src/svshm/svshm_create.c:26-108 (usageError, main). *)
Definition svshm_create (name : bytes) (opts : list (ascii * bytes)) (args : list bytes) : M S Empty_set :=
  let usage := fun A => @create_usage A name (str "seg-size [octal-perms]") in
  '(key, flags) ← create_key usage None opts;
  match args with
  | [] => usage _ (Some (str "Size of segment must be specified" ++ [newline]))
  | a :: rest =>
      segSize ← getLong (Some a) GN_ANY_BASE (Some (str "seg-size"));
      let segSize := i32 segSize in
      perms ← octal_perms (rest !! 0%nat);
      shmid ← checked (Shmget key (u64 segSize) (Z.lor flags perms)) (str "shmget");
      printf (print_dec shmid ++ [newline]);;
      c_exit EXIT_SUCCESS
  end.

(** ** Removing objects *)

(** [for (j = 1; j < argc; j++) if (ctl(getInt(argv[j], 0, what)) == -1) errExit("ctl %s", argv[j]);] *)
Definition rm_with (rm : Z -> ipc unit) (ctl what name : bytes) (args : list bytes) : M S Empty_set :=
  (if (match args with a :: _ => streq a (str "--help") | [] => false end) then usageErr (name ++ str " [" ++ what ++ str "...]" ++ [newline])
   else mret tt);;
  for_each args (fun a => id ← getInt (Some a) 0 (Some what); checked (rm id) (ctl ++ str " " ++ a));;
  c_exit EXIT_SUCCESS.
(** Source: book-src/svmsg/svmsg_rm.c:21-34 (main). *)
Definition svmsg_rm : bytes -> list bytes -> M S Empty_set := rm_with MsgRmid (str "msgctl") (str "msqid").
(** Source: book-src/svsem/svsem_rm.c:23-37 (main). *)
Definition svsem_rm : bytes -> list bytes -> M S Empty_set := rm_with SemRmid (str "semctl") (str "semid").
(** Source: book-src/svshm/svshm_rm.c:22-35 (main). *)
Definition svshm_rm : bytes -> list bytes -> M S Empty_set := rm_with ShmRmid (str "shmctl") (str "shmid").

(** ** Messages *)

Definition MAX_MTEXT : nat := 1024.

Definition send_usage {A} (name : bytes) (msg : option bytes) : M S A :=
  match msg with Some m => eprintf m | None => mret tt end;;
  eprintf (str "Usage: " ++ name ++ str " [-n] msqid msg-type [msg-text]" ++ [newline]);;
  eprintf (str "    -n       Use IPC_NOWAIT flag" ++ [newline]);;
  c_exit EXIT_FAILURE.
Fixpoint send_options (name : bytes) (opts : list ascii) (flags : Z) : M S Z :=
  match opts with
  | [] => mret flags
  | o :: opts => if ceq o "n" then send_options name opts (Z.lor flags IPC_NOWAIT) else send_usage name None
  end.
(** Source: book-src/svmsg/svmsg_send.c:33-83 (usageError, main). *)
Definition svmsg_send (name : bytes) (opts : list ascii) (args : list bytes) : M S Empty_set :=
  flags ← send_options name opts 0;
  match args with
  | a :: b :: rest =>
      if (1 <? length rest)%nat then send_usage name (Some (str "Wrong number of arguments" ++ [newline]))
      else
        msqid ← getInt (Some a) 0 (Some (str "msqid"));
        mtype ← getInt (Some b) 0 (Some (str "msg-type"));
        text ← match rest with
          | [] => mret []
          | txt :: _ =>
              if (MAX_MTEXT <? strlen txt + 1)%nat then
                cmdLineErr (str "msg-text too long (max: " ++ print_dec (Z.of_nat MAX_MTEXT) ++ str " characters)" ++ [newline])
              else mret (txt ++ [NUL])
          end;
        checked (Msgsnd msqid mtype text flags) (str "msgsnd");;
        c_exit EXIT_SUCCESS
  | _ => send_usage name (Some (str "Wrong number of arguments" ++ [newline]))
  end.

Definition receive_usage {A} (name : bytes) (msg : option bytes) : M S A :=
  match msg with Some m => eprintf m | None => mret tt end;;
  eprintf (str "Usage: " ++ name ++ str " [options] msqid [max-bytes]" ++ [newline]);;
  eprintf (str "Permitted options are:" ++ [newline]);;
  eprintf (str "    -e       Use MSG_NOERROR flag" ++ [newline]);;
  eprintf (str "    -t type  Select message of given type" ++ [newline]);;
  eprintf (str "    -n       Use IPC_NOWAIT flag" ++ [newline]);;
  eprintf (str "    -x       Use MSG_EXCEPT flag" ++ [newline]);;
  c_exit EXIT_FAILURE.
Fixpoint receive_options (name : bytes) (opts : list (ascii * bytes)) (flags type : Z) : M S (Z * Z) :=
  match opts with
  | [] => mret (flags, type)
  | (o, optarg) :: opts =>
      if ceq o "e" then receive_options name opts (Z.lor flags MSG_NOERROR) type
      else if ceq o "n" then receive_options name opts (Z.lor flags IPC_NOWAIT) type
      else if ceq o "t" then receive_options name opts flags (atoi optarg)
      else if ceq o "x" then receive_options name opts (Z.lor flags MSG_EXCEPT) type
      else receive_usage name None
  end.
(** A message longer than the buffer overwrites what follows it, and a text without a null byte is printed
    beyond its end. *)
(** Source: book-src/svmsg/svmsg_receive.c:34-94 (usageError, main). *)
Definition svmsg_receive (name : bytes) (opts : list (ascii * bytes)) (args : list bytes) : M S Empty_set :=
  '(flags, type) ← receive_options name opts 0 0;
  match args with
  | a :: rest =>
      if (1 <? length rest)%nat then receive_usage name (Some (str "Wrong number of arguments" ++ [newline]))
      else
        msqid ← getInt (Some a) 0 (Some (str "msqid"));
        maxBytes ← match rest with [] => mret (Z.of_nat MAX_MTEXT) | b :: _ => getInt (Some b) 0 (Some (str "max-bytes")) end;
        '(mtype, mtext) ← checked (Msgrcv msqid (u64 maxBytes) type flags) (str "msgrcv");
        if (MAX_MTEXT <? length mtext)%nat then undefined
        else
          printf (str "Received: type=" ++ print_dec mtype ++ str "; length=" ++ print_dec (Z.of_nat (length mtext)));;
          match mtext with
          | [] => mret tt
          | _ => if bool_decide (NUL ∈ mtext) then printf (str "; body=" ++ cstring mtext) else undefined
          end;;
          printf [newline];;
          c_exit EXIT_SUCCESS
  | [] => receive_usage name (Some (str "Wrong number of arguments" ++ [newline]))
  end.
(** Source: book-src/svmsg/svmsg_chqbytes.c:24-47 (main). *)
Definition svmsg_chqbytes (name : bytes) (args : list bytes) : M S Empty_set :=
  match args with
  | [a; b] =>
      if streq a (str "--help") then usageErr (name ++ str " msqid max-bytes" ++ [newline])
      else
        msqid ← getInt (Some a) 0 (Some (str "msqid"));
        ds ← checked (MsgStat msqid) (str "msgctl");
        q ← getInt (Some b) 0 (Some (str "max-bytes"));
        checked (MsgSet msqid (MsqidDs (u64 q) (msq_rest ds))) (str "msgctl");;
        c_exit EXIT_SUCCESS
  | _ => usageErr (name ++ str " msqid max-bytes" ++ [newline])
  end.

(** ** Semaphores and shared memory *)

Fixpoint sem_values (args : list bytes) : M S (list Z) :=
  match args with
  | [] => mret []
  | a :: args =>
      v ← getInt (Some a) 0 (Some (str "val"));
      vs ← sem_values args;
      mret (u16 v :: vs)
  end.
(** getpid() always succeeds. *)
(** Source: book-src/svsem/svsem_setall.c:25-64 (main). *)
Definition svsem_setall (name : bytes) (args : list bytes) : M S Empty_set :=
  match args with
  | a :: (_ :: _) as vals =>
      if streq a (str "--help") then usageErr (name ++ str " semid val..." ++ [newline])
      else
        semid ← getInt (Some a) 0 (Some (str "semid"));
        nsems ← checked (SemStat semid) (str "semctl");
        if negb (nsems =? Z.of_nat (length vals)) then
          cmdLineErr (str "Set contains " ++ print_dec nsems ++ str " semaphores, but " ++ print_dec (Z.of_nat (length vals)) ++
            str " values were supplied" ++ [newline])
        else
          checked (Calloc nsems) (str "calloc");;
          array ← sem_values vals;
          checked (SemSetall semid array) (str "semctl-SETALL");;
          pid ← call (Sys Getpid);
          printf (str "Semaphore values changed (PID=" ++ print_dec (default (-1) pid) ++ str ")" ++ [newline]);;
          c_exit EXIT_SUCCESS
  | _ => usageErr (name ++ str " semid val..." ++ [newline])
  end.

(** Source: book-src/svshm/svshm_attach.c:27-33 (usageError). *)
Definition attach_usage {A} (name : bytes) : M S A :=
  eprintf (str "Usage: " ++ name ++ str " [shmid:address[rR]]..." ++ [newline]);;
  eprintf (str "            r=SHM_RND; R=SHM_RDONLY" ++ [newline]);;
  c_exit EXIT_FAILURE.
(** One argument. *)
(** Source: book-src/svshm/svshm_attach.c:45-60 (main, loop). *)
Fixpoint attach_loop (name : bytes) (j : Z) (args : list bytes) : M S unit :=
  match args with
  | [] => mret tt
  | a :: args =>
      let r := strtol a 0 in
      let shmid := i32 (sl_value r) in
      let p := sl_endptr r in
      if negb (ceq (char_at p 0) ":") then attach_usage name
      else
        let p1 := drop 1 p in
        let addr := sl_value (strtol p1 0) in
        let flags := if strchr p1 "r" is Some _ then SHM_RND else 0 in
        let flags := if strchr p1 "R" is Some _ then Z.lor flags SHM_RDONLY else flags in
        retAddr ← checked (Shmat shmid addr flags) (str "shmat: " ++ a);
        printf (print_dec j ++ str ": " ++ a ++ str " ==> " ++ print_ptr retAddr ++ [newline]);;
        attach_loop name (j + 1) args
  end.
(** Source: book-src/svshm/svshm_attach.c:35-66 (main). *)
Definition svshm_attach (name : bytes) (args : list bytes) : M S Empty_set :=
  pid ← call (Sys Getpid);
  printf (str "SHMLBA = 4096 (0x1000), PID = " ++ print_dec (default (-1) pid) ++ [newline]);;
  attach_loop name 1 args;;
  printf (str "Sleeping 5 seconds" ++ [newline]);;
  call (Sys (Sleep 5));;
  c_exit EXIT_SUCCESS.
End programs.

(** * What is proved of them *)

#[local] Abbreviation calls := (list (event ipc)).

(** ** The command line of a program that creates *)

Definition is_key (o : ascii * bytes) : Prop := o.1 = "f"%char \/ o.1 = "k"%char \/ o.1 = "p"%char.
#[export] Instance is_key_dec o : Decision (is_key o).
Proof. unfold is_key. apply _. Defined.
Definition good_option (o : ascii * bytes) : Prop :=
  o.1 = "c"%char \/ o.1 = "x"%char \/ o.1 = "f"%char \/ o.1 = "p"%char \/ (o.1 = "k"%char /\ is_Some (scan_li o.2)).
Definition opt_flags (opts : list (ascii * bytes)) : Z :=
  Z.lor (if bool_decide ("c"%char ∈ opts.*1) then IPC_CREAT else 0) (if bool_decide ("x"%char ∈ opts.*1) then IPC_EXCL else 0).
(** The key of one of the options -f, -k and -p, and the calls that find it. *)
Inductive key_of : ascii * bytes -> Z -> calls -> Prop :=
| key_file path k : key_of ("f"%char, path) k [Ev (Ftok path 1) (SOk k)]
| key_number a n : scan_li a = Some n -> key_of ("k"%char, a) (i32 n) []
| key_private a : key_of ("p"%char, a) IPC_PRIVATE [].
(** The options name the key [key] with the calls [lk], and the rest of the call is [get key flags perms]. *)
Definition names (opts : list (ascii * bytes)) (perms_arg : option bytes) (get : Z -> Z -> ipc Z) (c : ipc Z) (lk : calls) : Prop :=
  Forall good_option opts /\ exists o key perms, filter is_key opts = [o] /\ key_of o key lk /\ perms_of perms_arg perms /\
    c = get key (Z.lor (opt_flags opts) perms).
Definition names_msg (opts : list (ascii * bytes)) (args : list bytes) : ipc Z -> calls -> Prop := names opts (args !! 0%nat) Msgget.
Definition names_sem (opts : list (ascii * bytes)) (args : list bytes) (c : ipc Z) (lk : calls) : Prop :=
  exists a n, args !! 0%nat = Some a /\ int_arg 0 a n /\ names opts (args !! 1%nat) (fun key => Semget key n) c lk.
(** The size is cut to 32 bits. *)
Definition names_shm (opts : list (ascii * bytes)) (args : list bytes) (c : ipc Z) (lk : calls) : Prop :=
  exists a n, args !! 0%nat = Some a /\ long_arg GN_ANY_BASE a n /\ names opts (args !! 1%nat) (fun key => Shmget key (u64 (i32 n))) c lk.

Definition is_ftok (x : event ipc) : Prop := exists path r, x = Ev (Ftok path 1) r.
Definition ftok_failed (l : calls) : Prop := exists path x, last l = Some (Ev (Ftok path 1) (SErr x)).
(** A program that creates the object its command line names, and nothing without such a command line. *)
Definition created (cmd : ipc Z -> calls -> Prop) (l : calls) (out : bytes) : Prop :=
  exists c lk id, cmd c lk /\ l = lk ++ [Ev c (SOk id)] /\ out = print_dec id ++ [newline].
Definition not_created (cmd : ipc Z -> calls -> Prop) (l : calls) : Prop :=
  (exists c lk x, cmd c lk /\ l = lk ++ [Ev c (SErr x)]) \/ (Forall is_ftok l /\ (ftok_failed l \/ forall c lk, ~ cmd c lk)).

(** What the loop over the options knows. *)
Record parsed (opts : list (ascii * bytes)) (key : option Z) (n flags : Z) (l : calls) : Prop := {
  p_good : Forall good_option opts;
  p_count : n = Z.of_nat (length (filter is_key opts));
  p_flags : flags = opt_flags opts;
  p_ftok : Forall is_ftok l;
  p_none : filter is_key opts = [] -> l = [];
  p_key : forall o, filter is_key opts = [o] -> exists k, key = Some k /\ key_of o k l
}.
Lemma parsed_nil : parsed [] None 0 0 [].
Proof. by split. Qed.

Lemma opt_flags_snoc opts o : opt_flags (opts ++ [o]) = Z.lor (opt_flags opts) (opt_flags [o]).
Proof.
  unfold opt_flags. rewrite fmap_app. destruct o as [o a]. cbn [fmap list_fmap fst].
  repeat (rewrite (bool_decide_ext (_ ∈ _ ++ _) _ (elem_of_app _ _ _))).
  repeat case_bool_decide; simpl; try tauto; reflexivity.
Qed.
Lemma parsed_snoc opts o key n flags l : parsed opts key n flags l -> good_option o -> ~ is_key o ->
  parsed (opts ++ [o]) key n (Z.lor flags (opt_flags [o])) l.
Proof.
  intros [Hg Hc Hf Ht Hn Hk] Ho Hno. assert (E : filter is_key (opts ++ [o]) = filter is_key opts).
  { rewrite filter_app, filter_cons_False by done. by rewrite app_nil_r. }
  split; rewrite ?E; try done.
  - apply Forall_app. split; [done|by apply Forall_singleton].
  - by rewrite opt_flags_snoc, Hf.
Qed.
Lemma parsed_key opts o key n flags l k lk : parsed opts key n flags l -> good_option o -> is_key o ->
  key_of o k lk -> Forall is_ftok lk -> parsed (opts ++ [o]) (Some k) (n + 1) flags (l ++ lk).
Proof.
  intros [Hg Hc Hf Ht Hn Hk] Ho Hyes Hko Hlk. assert (E : filter is_key (opts ++ [o]) = filter is_key opts ++ [o]).
  { by rewrite filter_app, filter_cons_True by done. }
  split; rewrite ?E.
  - apply Forall_app. split; [done|by apply Forall_singleton].
  - rewrite length_app. simpl. lia.
  - rewrite opt_flags_snoc, Hf. replace (opt_flags [o]) with 0; [by rewrite Z.lor_0_r|].
    unfold opt_flags. destruct o as [c a]. cbn. unfold is_key in Hyes. simpl in Hyes. by destruct Hyes as [-> |[-> | ->]].
  - by apply Forall_app.
  - intros H. by apply app_nil in H as [_ H].
  - intros o'. destruct (filter is_key opts) as [|x y] eqn:Ef.
    + intros [= <-]. rewrite Hn by done. by exists k.
    + intros [= _ H]. by apply app_nil in H as [_ H].
Qed.

Section proofs.
Context {S : Type} `{HT : TraceSpec ipc S} (strerror : Z -> bytes).
Context (s0 : S) (ok : calls -> bytes -> Prop) (bad : ending -> calls -> Prop).
#[local] Abbreviation Ends := (ended s0 ok bad).

Ltac stops := repeat first [apply c_exit_stops, trace_libc | apply stops_eprintf; [apply trace_libc|intros] | apply stops_flush; [apply trace_libc|intros]].
Lemma usage_stops {A} (m : M S A) msg s Q : (forall s1, post Q (stops trace s1) (m s1)) ->
  post Q (stops trace s) ((match msg with Some t => eprintf t | None => mret tt end;; m) s).
Proof. intros Hm. destruct msg; [apply stops_eprintf; [apply trace_libc|done]|apply Hm]. Qed.
Lemma create_usage_stops {A} name what msg s Q : post Q (stops trace s) (@create_usage S _ A name what msg s).
Proof. apply usage_stops. intros. stops. Qed.

Section create.
Context (usage : forall A, option bytes -> M S A) (Husage : forall A msg s (Q : A -> S -> Prop), post Q (stops trace s) (usage A msg s)).

Lemma create_options_run {B} bo opts : forall pre key n flags l out s (k : option Z * Z * Z -> M S B) Q,
  sofar s0 l out s -> parsed pre key n flags l ->
  (forall key n flags l s', parsed (pre ++ opts) key n flags l -> sofar s0 l out s' -> post Q Ends (k (key, n, flags) s')) ->
  (forall l e, fails e -> Forall is_ftok l -> ftok_failed l \/ ~ Forall good_option (pre ++ opts) -> bad e l) ->
  post Q Ends ((create_options strerror usage bo opts key n flags ≫= k) s).
Proof.
  induction opts as [|[o a] opts IH]; intros pre key n flags l out s k Q Hs Hp Hk Hb.
  { rewrite app_nil_r in Hk. by apply (Hk _ _ _ l). }
  replace (pre ++ (o, a) :: opts) with ((pre ++ [(o, a)]) ++ opts) in * by by rewrite <- app_assoc.
  assert (Hgo : good_option (o, a) -> ~ is_key (o, a) -> post Q Ends ((create_options strerror usage bo opts key n (Z.lor flags (opt_flags [(o, a)])) ≫= k) s)).
  { intros Hg Hno. apply (IH (pre ++ [(o, a)]) _ _ _ l out); [done|by eapply parsed_snoc|done|done]. }
  assert (Hkey : forall kk lk s', good_option (o, a) -> is_key (o, a) -> key_of (o, a) kk lk -> Forall is_ftok lk -> sofar s0 (l ++ lk) out s' ->
    post Q Ends ((create_options strerror usage bo opts (Some kk) (n + 1) flags ≫= k) s')).
  { intros kk lk s' Hg Hyes Hko Hlk Hs'. apply (IH (pre ++ [(o, a)]) _ _ _ (l ++ lk) out); [done|by eapply parsed_key|done|done]. }
  assert (Hbad : ~ good_option (o, a) -> forall e, fails e -> bad e l).
  { intros Hno e He. apply Hb; [done|apply Hp|]. right. intros Hg. apply Hno. apply Forall_app in Hg as [Hg _].
    apply Forall_app in Hg as [_ Hg]. by rewrite Forall_singleton in Hg. }
  cbn [create_options]. unfold good_option, is_key in Hgo, Hkey, Hbad. cbn [fst snd] in Hgo, Hkey, Hbad.
  destruct (ceq_spec o "c") as [-> |Hc]; [apply Hgo; [by auto|by intros [|[|]]]|].
  destruct (ceq_spec o "f") as [-> |Hf].
  { rewrite bind_bind. apply (run_call _ _ _ _ _ _ _ _ l out); [done| |].
    - intros kk s' Hs'. apply (Hkey kk [Ev (Ftok a 1) (SOk kk)]); [by auto|by auto|constructor|by repeat econstructor|done].
    - intros x e He. apply Hb; [done|apply Forall_app; split; [apply Hp|by repeat econstructor]|]. left. exists a, x. apply last_snoc. }
  destruct (ceq_spec o "k") as [-> |Hkk].
  { destruct (scan_li a) as [v|] eqn:Ha.
    - apply (Hkey (i32 v) []); [|by auto|by constructor|done|by rewrite app_nil_r]. do 4 right. split; [done|by eexists].
    - apply post_bind. eapply run_stops; [exact Hs| |].
      + unfold cmdLineErr. apply stops_flush; [apply trace_libc|]. intros. stops.
      + apply Hbad. intros [H|[H|[H|[H|[_ [? H]]]]]]; by simplify_eq. }
  destruct (ceq_spec o "p") as [-> |Hpp].
  { apply (Hkey IPC_PRIVATE []); [by auto|by auto|constructor|done|by rewrite app_nil_r]. }
  destruct (ceq_spec o "x") as [-> |Hx]; [apply Hgo; [by auto|by intros [|[|]]]|].
  apply post_bind. eapply run_stops; [exact Hs|apply Husage|]. apply Hbad. by intros [?|[?|[?|[?|[? ?]]]]].
Qed.

Lemma create_key_run {B} bo opts s (k : Z * Z -> M S B) out Q :
  sofar s0 [] out s ->
  (forall o key l s', Forall good_option opts -> filter is_key opts = [o] -> key_of o key l -> Forall is_ftok l -> sofar s0 l out s' ->
    post Q Ends (k (key, opt_flags opts) s')) ->
  (forall l e, fails e -> Forall is_ftok l ->
    ftok_failed l \/ ~ (Forall good_option opts /\ exists o, filter is_key opts = [o]) -> bad e l) ->
  post Q Ends ((create_key strerror usage bo opts ≫= k) s).
Proof.
  intros Hs Hk Hb. unfold create_key. rewrite bind_bind. apply (create_options_run _ _ [] _ _ _ [] out); [done|apply parsed_nil| |].
  - intros key n flags l s' [Hg Hc -> Ht _ Hkey] Hs'. rewrite app_nil_l in *. destruct (Z.eqb_spec n 1) as [Hn|Hn]; cbn [negb].
    + assert (exists o, filter is_key opts = [o]) as [o Ho].
      { destruct (filter is_key opts) as [|o [|? ?]]; [simpl in Hc; lia|by exists o|simpl in Hc; lia]. }
      destruct (Hkey o Ho) as (kk & -> & Hko). by apply (Hk o kk l).
    + apply post_bind. eapply run_stops; [exact Hs'|apply Husage|]. intros e He. apply Hb; [done|done|]. right.
      intros [_ [o Ho]]. rewrite Ho in Hc. simpl in Hc. lia.
  - intros l e He Ht [H|H]; apply Hb; try done; [by left|]. right. by intros [? _].
Qed.
End create.

End proofs.

Ltac stops := repeat first [apply c_exit_stops, trace_libc | apply stops_eprintf; [apply trace_libc|intros] | apply stops_flush; [apply trace_libc|intros]].

Section creating.
Context {S : Type} `{HT : TraceSpec ipc S} (strerror : Z -> bytes).
Context (cmd : ipc Z -> calls -> Prop) (s0 : S).
#[local] Abbreviation Creates := (ran s0 (created cmd) (not_created cmd)).

Lemma create_ends {A} c msg lk s (Q : A -> S -> Prop) : cmd c lk -> sofar s0 lk [] s ->
  post Q Creates ((id ← echecked strerror (sys c) msg; printf (print_dec id ++ [newline]);; c_exit EXIT_SUCCESS) s).
Proof.
  intros Hc Hs. apply (run_call _ _ _ _ _ _ _ _ lk []); [done| |].
  - intros id s' Hs'. eapply run_printf; [exact Hs'|]. intros s'' Hs''. eapply run_success; [exact Hs''|]. by exists c, lk, id.
  - intros x e He. split; [done|]. left. by exists c, lk, x.
Qed.
Lemma create_refused lk e : fails e -> Forall is_ftok lk -> ftok_failed lk \/ (forall c lk, ~ cmd c lk) -> fails e /\ not_created cmd lk.
Proof. intros He Hl H. split; [done|by right]. Qed.
End creating.

Section creators.
Context {S : Type} `{HT : TraceSpec ipc S} (strerror : Z -> bytes).

Lemma svmsg_create_spec name opts args s :
  post (fun _ _ => False) (ran s (created (names_msg opts args)) (not_created (names_msg opts args))) (svmsg_create strerror name opts args s).
Proof.
  unfold svmsg_create. apply create_key_run with (out := []).
  - intros. apply create_usage_stops.
  - apply sofar_start.
  - intros o key l s' Hg Ho Hk Ht Hs'. eapply octal_run; [exact Hs'| |].
    + intros p Hp. eapply create_ends; [|exact Hs']. split; [done|]. by exists o, key, p.
    + intros Hp e He. apply create_refused; [done|done|]. right. intros c lk (_ & _ & _ & p & _ & _ & H & _). by destruct (Hp p).
  - intros l e He Ht H. apply create_refused; [done|done|]. destruct H as [H|H]; [by left|right].
    intros c lk (Hg & o & _ & _ & Ho & _). apply H. split; [done|by exists o].
Qed.
Lemma svsem_create_spec name opts args s :
  post (fun _ _ => False) (ran s (created (names_sem opts args)) (not_created (names_sem opts args))) (svsem_create strerror name opts args s).
Proof.
  unfold svsem_create. apply create_key_run with (out := []).
  - intros. apply create_usage_stops.
  - apply sofar_start.
  - intros o key l s' Hg Ho Hk Ht Hs'. destruct args as [|a rest].
    { eapply run_stops; [exact Hs'|apply create_usage_stops|]. intros e He. apply create_refused; [done|done|]. right. by intros c lk (? & ? & ? & _). }
    eapply run_getInt; [exact Hs'| |].
    + intros n Hn. eapply octal_run; [exact Hs'| |].
      * intros p Hp. eapply create_ends; [|exact Hs']. exists a, n. do 3 (split; [done|]). by exists o, key, p.
      * intros Hp e He. apply create_refused; [done|done|]. right. intros c lk (a' & n' & _ & _ & _ & _ & _ & p & _ & _ & H & _). by destruct (Hp p).
    + intros Hn e He. apply create_refused; [done|done|]. right. intros c lk (a' & n' & [= <-] & H & _). by destruct (Hn n').
  - intros l e He Ht H. apply create_refused; [done|done|]. destruct H as [H|H]; [by left|right].
    intros c lk (? & ? & _ & _ & Hg & o & _ & _ & Ho & _). apply H. split; [done|by exists o].
Qed.
Lemma svshm_create_spec name opts args s :
  post (fun _ _ => False) (ran s (created (names_shm opts args)) (not_created (names_shm opts args))) (svshm_create strerror name opts args s).
Proof.
  unfold svshm_create. apply create_key_run with (out := []).
  - intros. apply create_usage_stops.
  - apply sofar_start.
  - intros o key l s' Hg Ho Hk Ht Hs'. destruct args as [|a rest].
    { eapply run_stops; [exact Hs'|apply create_usage_stops|]. intros e He. apply create_refused; [done|done|]. right. by intros c lk (? & ? & ? & _). }
    eapply run_getLong; [exact Hs'| |].
    + intros n Hn. eapply octal_run; [exact Hs'| |].
      * intros p Hp. eapply create_ends; [|exact Hs']. exists a, n. do 3 (split; [done|]). by exists o, key, p.
      * intros Hp e He. apply create_refused; [done|done|]. right. intros c lk (a' & n' & _ & _ & _ & _ & _ & p & _ & _ & H & _). by destruct (Hp p).
    + intros Hn e He. apply create_refused; [done|done|]. right. intros c lk (a' & n' & [= <-] & H & _). by destruct (Hn n').
  - intros l e He Ht H. apply create_refused; [done|done|]. destruct H as [H|H]; [by left|right].
    intros c lk (? & ? & _ & _ & Hg & o & _ & _ & Ho & _). apply H. split; [done|by exists o].
Qed.

(** ** Removal *)

(** The objects that the arguments name are removed in their order; a failure ends the program. *)
Definition removed (rm : Z -> ipc unit) (args : list bytes) (l : calls) (out : bytes) : Prop :=
  out = [] /\ exists ids, Forall2 (int_arg 0) args ids /\ l = (fun id => Ev (rm id) (SOk tt)) <$> ids.
Definition not_removed (rm : Z -> ipc unit) (args : list bytes) (l : calls) : Prop :=
  exists done a rest ids, args = done ++ a :: rest /\ Forall2 (int_arg 0) done ids /\
    let l0 := (fun id => Ev (rm id) (SOk tt)) <$> ids in
    (l = l0 /\ (a = str "--help" \/ forall v, ~ int_arg 0 a v) \/ exists id x, int_arg 0 a id /\ l = l0 ++ [Ev (rm id) (SErr x)]).

Lemma rm_loop rm ctl what args0 (s0 : S) (k : unit -> M S Empty_set) Q : forall args past ids s, args0 = past ++ args -> Forall2 (int_arg 0) past ids ->
  sofar s0 ((fun id => Ev (rm id) (SOk tt)) <$> ids) [] s ->
  (forall ids s', Forall2 (int_arg 0) args0 ids -> sofar s0 ((fun id => Ev (rm id) (SOk tt)) <$> ids) [] s' ->
    post Q (ran s0 (removed rm args0) (not_removed rm args0)) (k tt s')) ->
  post Q (ran s0 (removed rm args0) (not_removed rm args0))
    ((for_each args (fun a => id ← getInt (Some a) 0 (Some what); echecked strerror (sys (rm id)) (ctl ++ str " " ++ a)) ≫= k) s).
Proof.
  induction args as [|a args IH]; intros past ids s Ha Hids Hs Hk.
  { rewrite app_nil_r in Ha. subst past. by apply (Hk ids). }
  cbn [for_each]. rewrite !bind_bind. eapply run_getInt; [exact Hs| |].
  - intros id Hid. apply (run_call _ _ _ _ _ _ _ _ ((fun id => Ev (rm id) (SOk tt)) <$> ids) []); [done| |].
    + intros [] s' Hs'. apply (IH (past ++ [a]) (ids ++ [id])); [by rewrite <- app_assoc|by apply Forall2_app; [|constructor]|by rewrite fmap_app|done].
    + intros x e He. split; [done|]. exists past, a, args, ids. split_and!; [done|done|]. right. by exists id, x.
  - intros Hno e He. split; [done|]. exists past, a, args, ids. split_and!; [done|done|]. left. split; [done|by right].
Qed.
Lemma rm_with_spec rm ctl what name args s :
  post (fun _ _ => False) (ran s (removed rm args) (not_removed rm args)) (rm_with strerror rm ctl what name args s).
Proof.
  unfold rm_with. assert (Hgo : post (fun _ _ => False) (ran s (removed rm args) (not_removed rm args))
    ((for_each args (fun a => id ← getInt (Some a) 0 (Some what); echecked strerror (sys (rm id)) (ctl ++ str " " ++ a));; @c_exit S _ Empty_set EXIT_SUCCESS) s)).
  { apply (rm_loop _ _ _ _ _ _ _ args [] []); [done|constructor|apply sofar_start|]. intros ids s' Hids Hs'.
    eapply run_success; [exact Hs'|]. split; [done|by exists ids]. }
  destruct args as [|a args]; [exact Hgo|]. unfold streq. case_bool_decide as Ha; [|exact Hgo].
  apply post_bind. eapply run_stops; [apply sofar_start|apply usageErr_stops, trace_libc|]. intros e He. split; [done|].
  exists [], a, args, []. split_and!; [done|constructor|]. left. split; [done|by left].
Qed.

(** ** Messages *)

Definition sent (opts : list ascii) (args : list bytes) (c : ipc unit) : Prop :=
  Forall (fun o => o = "n"%char) opts /\ exists a b rest id mtype,
    args = a :: b :: rest /\ int_arg 0 a id /\ int_arg 0 b mtype /\
    match rest with
    | [] => c = Msgsnd id mtype [] (if bool_decide (opts = []) then 0 else IPC_NOWAIT)
    | [txt] => (length txt < 1024)%nat /\ c = Msgsnd id mtype (txt ++ [NUL]) (if bool_decide (opts = []) then 0 else IPC_NOWAIT)
    | _ => False
    end.
Definition send_ok (opts : list ascii) (args : list bytes) (l : calls) (out : bytes) : Prop :=
  out = [] /\ exists c, sent opts args c /\ l = [Ev c (SOk tt)].
Definition send_bad (opts : list ascii) (args : list bytes) (l : calls) : Prop :=
  (exists c x, sent opts args c /\ l = [Ev c (SErr x)]) \/ l = [] /\ forall c, ~ sent opts args c.
Lemma send_usage_stops {A} name msg s Q : post Q (stops trace s) (@send_usage S _ A name msg s).
Proof. apply usage_stops. intros. stops. Qed.
Lemma send_options_run {B} name opts (s0 : S) ok bad (k : Z -> M S B) Q : forall flags s,
  sofar s0 [] [] s ->
  (Forall (fun o => o = "n"%char) opts -> post Q (ended s0 ok bad) (k (if bool_decide (opts = []) then flags else Z.lor flags IPC_NOWAIT) s)) ->
  (~ Forall (fun o => o = "n"%char) opts -> forall e, fails e -> bad e []) ->
  post Q (ended s0 ok bad) ((send_options name opts flags ≫= k) s).
Proof.
  induction opts as [|o opts IH]; intros flags s Hs Hk Hb; [by apply Hk|]. cbn [send_options].
  destruct (ceq_spec o "n") as [-> |Ho].
  - apply IH; [done| |].
    + intros H. specialize (Hk (Forall_cons_2 _ _ _ eq_refl H)). rewrite bool_decide_eq_false_2 in Hk by done.
      case_bool_decide; [done|]. by rewrite <- Z.lor_assoc, Z.lor_diag.
    + intros H. apply Hb. intros H'. by inversion H'.
  - apply post_bind. eapply run_stops; [exact Hs|apply send_usage_stops|]. apply Hb. intros H. by inversion H.
Qed.
Lemma svmsg_send_spec name opts args s : post (fun _ _ => False) (ran s (send_ok opts args) (send_bad opts args)) (svmsg_send strerror name opts args s).
Proof.
  unfold svmsg_send. apply send_options_run; [apply sofar_start| |].
  2: { intros Ho e He. split; [done|]. right. split; [done|]. by intros c [H _]. }
  intros Ho. set (flags := if bool_decide (opts = []) then 0 else _).
  assert (Hu : forall A msg (Q : A -> S -> Prop), (forall c, ~ sent opts args c) -> post Q (ran s (send_ok opts args) (send_bad opts args)) (send_usage name msg s)).
  { intros A msg Q Hno. eapply run_stops; [apply sofar_start|apply send_usage_stops|]. intros e He. split; [done|by right]. }
  destruct args as [|a [|b rest]]; [by apply Hu; intros c (_ & ? & ? & ? & ? & ? & ? & _)..|].
  destruct (1 <? length rest)%nat eqn:Hr.
  { apply Hu. intros c (_ & a' & b' & rest' & id & m & [= <- <- <-] & _ & _ & H). by destruct rest as [|? [|]]. }
  eapply run_getInt; [apply sofar_start| |].
  2: { intros Hno e He. split; [done|]. right. split; [done|]. intros c (_ & a' & b' & rest' & id & m & [= <- <- <-] & H & _). by destruct (Hno id). }
  intros id Hid. eapply run_getInt; [apply sofar_start| |].
  2: { intros Hno e He. split; [done|]. right. split; [done|]. intros c (_ & a' & b' & rest' & ? & m & [= <- <- <-] & _ & H & _). by destruct (Hno m). }
  intros m Hm.
  assert (Hsend : forall text, sent opts (a :: b :: rest) (Msgsnd id m text flags) ->
    post (fun _ _ => False) (ran s (send_ok opts (a :: b :: rest)) (send_bad opts (a :: b :: rest)))
      ((echecked strerror (sys (Msgsnd id m text flags)) (str "msgsnd");; @c_exit S _ Empty_set EXIT_SUCCESS) s)).
  { intros text Ht. apply (run_call _ _ _ _ _ _ _ _ [] []); [apply sofar_start| |].
    - intros [] s' Hs'. eapply run_success; [exact Hs'|]. split; [done|by eexists].
    - intros x e He. split; [done|]. left. by eexists _, x. }
  destruct rest as [|txt [|? ?]]; [| |done].
  - apply (Hsend []). split; [done|]. by exists a, b, [], id, m.
  - unfold strlen, MAX_MTEXT. destruct (Nat.ltb_spec 1024 (length txt + 1)) as [Hl|Hl].
    + apply post_bind. eapply run_stops; [apply sofar_start|unfold cmdLineErr; stops|]. intros e He. split; [done|]. right. split; [done|].
      intros c (_ & a' & b' & rest' & ? & ? & [= <- <- <-] & _ & _ & H & _). lia.
    + apply (Hsend (txt ++ [NUL])). split; [done|]. exists a, b, [txt], id, m. do 3 (split; [done|]). split; [lia|done].
Qed.

Definition receive_option (o : ascii * bytes) : Prop := o.1 ∈ ["e"; "n"; "t"; "x"]%char.
Definition receive_flags (opts : list (ascii * bytes)) : Z :=
  Z.lor (if bool_decide ("e"%char ∈ opts.*1) then MSG_NOERROR else 0)
    (Z.lor (if bool_decide ("n"%char ∈ opts.*1) then IPC_NOWAIT else 0) (if bool_decide ("x"%char ∈ opts.*1) then MSG_EXCEPT else 0)).
(** The last -t counts. *)
Definition receive_type (opts : list (ascii * bytes)) : Z :=
  match last (filter (fun o => o.1 = "t"%char) opts) with Some o => atoi o.2 | None => 0 end.
Definition receives (opts : list (ascii * bytes)) (args : list bytes) (c : ipc (Z * bytes)) : Prop :=
  Forall receive_option opts /\ exists a rest id maxBytes, args = a :: rest /\ int_arg 0 a id /\
    match rest with [] => maxBytes = 1024 | [b] => int_arg 0 b maxBytes | _ => False end /\
    c = Msgrcv id (u64 maxBytes) (receive_type opts) (receive_flags opts).
Definition message_shown (mtype : Z) (text : bytes) : bytes :=
  str "Received: type=" ++ print_dec mtype ++ str "; length=" ++ print_dec (Z.of_nat (length text)) ++
    (if text is [] then [] else str "; body=" ++ cstring text) ++ [newline].
Definition receive_ok (opts : list (ascii * bytes)) (args : list bytes) (l : calls) (out : bytes) : Prop :=
  exists c mtype text, receives opts args c /\ l = [Ev c (SOk (mtype, text))] /\ out = message_shown mtype text /\
    (length text <= 1024)%nat /\ (text = [] \/ NUL ∈ text).
(** A message that is too long, or not a string, takes the program beyond its buffer. *)
Definition receive_bad (opts : list (ascii * bytes)) (args : list bytes) (e : ending) (l : calls) : Prop :=
  fails e /\ ((exists c x, receives opts args c /\ l = [Ev c (SErr x)]) \/ l = [] /\ forall c, ~ receives opts args c) \/
  e = EUndef /\ exists c mtype text, receives opts args c /\ l = [Ev c (SOk (mtype, text))] /\
    ((1024 < length text)%nat \/ text <> [] /\ NUL ∉ text).

Lemma receive_usage_stops {A} name msg s Q : post Q (stops trace s) (@receive_usage S _ A name msg s).
Proof. apply usage_stops. intros. stops. Qed.
Lemma receive_flags_snoc opts o : receive_flags (opts ++ [o]) = Z.lor (receive_flags opts) (receive_flags [o]).
Proof.
  unfold receive_flags. rewrite fmap_app. destruct o as [o a]. cbn [fmap list_fmap fst].
  repeat (rewrite (bool_decide_ext (_ ∈ _ ++ _) _ (elem_of_app _ _ _))).
  repeat case_bool_decide; simpl; try tauto; reflexivity.
Qed.
Lemma receive_options_run {B} name opts (s0 : S) ok bad (k : Z * Z -> M S B) Q s : forall pre, sofar s0 [] [] s -> Forall receive_option pre ->
  (Forall receive_option (pre ++ opts) -> post Q (ended s0 ok bad) (k (receive_flags (pre ++ opts), receive_type (pre ++ opts)) s)) ->
  (~ Forall receive_option (pre ++ opts) -> forall e, fails e -> bad e []) ->
  post Q (ended s0 ok bad) ((receive_options name opts (receive_flags pre) (receive_type pre) ≫= k) s).
Proof.
  induction opts as [|[o a] opts IH]; intros pre Hs Hpre Hk Hb; [rewrite app_nil_r in Hk; by apply Hk|].
  replace (pre ++ (o, a) :: opts) with ((pre ++ [(o, a)]) ++ opts) in * by by rewrite <- app_assoc.
  assert (Hgo : receive_option (o, a) ->
    post Q (ended s0 ok bad) ((receive_options name opts (Z.lor (receive_flags pre) (receive_flags [(o, a)])) (receive_type (pre ++ [(o, a)])) ≫= k) s)).
  { intros Ho. rewrite <- receive_flags_snoc. apply IH; [done| |done|done]. apply Forall_app. split; [done|by apply Forall_singleton]. }
  assert (Ht : o <> "t"%char -> receive_type (pre ++ [(o, a)]) = receive_type pre).
  { intros Ho. unfold receive_type. rewrite filter_app, filter_cons_False by done. by rewrite app_nil_r. }
  cbn [receive_options].
  destruct (ceq_spec o "e") as [-> |He]; [rewrite Ht in Hgo by done; apply Hgo; by left|].
  destruct (ceq_spec o "n") as [-> |Hn]; [rewrite Ht in Hgo by done; apply Hgo; by right; left|].
  destruct (ceq_spec o "t") as [-> |Htt].
  { replace (receive_type (pre ++ [("t"%char, a)])) with (atoi a) in Hgo.
    - change (receive_flags [("t"%char, a)]) with 0 in Hgo. rewrite Z.lor_0_r in Hgo. apply Hgo. by right; right; left.
    - unfold receive_type. rewrite filter_app, filter_cons_True by done. by rewrite filter_nil, last_snoc. }
  destruct (ceq_spec o "x") as [-> |Hx]; [rewrite Ht in Hgo by done; apply Hgo; by do 3 right; left|].
  apply post_bind. eapply run_stops; [exact Hs|apply receive_usage_stops|]. apply Hb. intros Hf.
  apply Forall_app in Hf as [Hf _]. apply Forall_app in Hf as [_ Hf]. rewrite Forall_singleton in Hf. unfold receive_option in Hf. cbn in Hf.
  rewrite !elem_of_cons in Hf. destruct Hf as [|[|[|[|Hf]]]]; [done..|by apply elem_of_nil in Hf].
Qed.

Lemma svmsg_receive_spec name opts args s :
  post (fun _ _ => False) (ended s (receive_ok opts args) (receive_bad opts args)) (svmsg_receive strerror name opts args s).
Proof.
  unfold svmsg_receive. apply (receive_options_run name opts s _ _ _ _ _ []); [apply sofar_start|done| |].
  2: { intros Ho e He. left. split; [done|]. right. split; [done|]. by intros c [H _]. }
  rewrite app_nil_l. intros Ho.
  assert (Hno : forall e, fails e -> (forall c, ~ receives opts args c) -> receive_bad opts args e []) by (intros; left; auto).
  destruct args as [|a rest].
  { eapply run_stops; [apply sofar_start|apply receive_usage_stops|]. intros e He. apply Hno; [done|]. by intros c (_ & ? & ? & ? & ? & ? & _). }
  destruct (1 <? length rest)%nat eqn:Hr.
  { eapply run_stops; [apply sofar_start|apply receive_usage_stops|]. intros e He. apply Hno; [done|].
    intros c (_ & a' & rest' & id & m & [= <- <-] & _ & H & _). by destruct rest as [|? [|]]. }
  eapply run_getInt; [apply sofar_start| |].
  2: { intros Ha e He. apply Hno; [done|]. intros c (_ & a' & rest' & id & m & [= <- <-] & H & _). by destruct (Ha id). }
  intros id Hid.
  assert (Hgo : forall maxBytes, receives opts (a :: rest) (Msgrcv id (u64 maxBytes) (receive_type opts) (receive_flags opts)) ->
    post (fun _ _ => False) (ended s (receive_ok opts (a :: rest)) (receive_bad opts (a :: rest)))
      (('(mtype, mtext) ← echecked strerror (sys (Msgrcv id (u64 maxBytes) (receive_type opts) (receive_flags opts))) (str "msgrcv");
        if (MAX_MTEXT <? length mtext)%nat then undefined
        else
          printf (str "Received: type=" ++ print_dec mtype ++ str "; length=" ++ print_dec (Z.of_nat (length mtext)));;
          match mtext with
          | [] => mret tt
          | _ => if bool_decide (NUL ∈ mtext) then printf (str "; body=" ++ cstring mtext) else undefined
          end;;
          printf [newline];;
          @c_exit S _ Empty_set EXIT_SUCCESS) s)).
  { intros m Hm. apply (run_call _ _ _ _ _ _ _ _ [] []); [apply sofar_start| |].
    2: { intros x e He. left. split; [done|]. left. by eexists _, x. }
    intros [mtype text] s' Hs'. rewrite app_nil_l in Hs'. unfold MAX_MTEXT. destruct (Nat.ltb_spec 1024 (length text)) as [Hl|Hl].
    { eexists. split; [exact (proj1 Hs')|]. right. right. split; [done|]. eexists _, mtype, text. split_and!; [done|done|]. by left. }
    eapply run_printf; [exact Hs'|]. intros s2 Hs2. destruct text as [|ch text].
    - rewrite (bind_done (mret tt) _ s2 tt s2 eq_refl). eapply run_printf; [exact Hs2|]. intros s3 Hs3. eapply run_success; [exact Hs3|].
      eexists _, mtype, []. split_and!; [done|done| |done|by left]. unfold message_shown. by rewrite app_nil_l, <- !app_assoc.
    - case_bool_decide as Hn.
      + eapply run_printf; [exact Hs2|]. intros s3 Hs3. eapply run_printf; [exact Hs3|]. intros s4 Hs4. eapply run_success; [exact Hs4|].
        eexists _, mtype, (ch :: text). split_and!; [done|done| |done|by right]. unfold message_shown. by rewrite app_nil_l, <- !app_assoc.
      + apply post_bind. eexists. split; [exact (proj1 Hs2)|]. right. right. split; [done|]. eexists _, mtype, (ch :: text). split_and!; [done|done|]. by right. }
  destruct rest as [|b [|? ?]]; [| |done].
  - apply Hgo. split; [done|]. by exists a, [], id, 1024.
  - eapply run_getInt; [apply sofar_start| |].
    + intros m Hm. apply Hgo. split; [done|]. by exists a, [b], id, m.
    + intros Hb e He. apply Hno; [done|]. intros c (_ & a' & rest' & id' & m & [= <- <-] & _ & H & _). by destruct (Hb m).
Qed.

Lemma help_not_a_number v : ~ int_arg 0 (str "--help") v.
Proof. intros [(a & [= <-] & _ & H & _) _]. vm_compute in H. discriminate H. Qed.
Lemma help_absurd a v : streq a (str "--help") = true -> ~ int_arg 0 a v.
Proof. unfold streq. case_bool_decide as H; [|done]. intros _. rewrite H. apply help_not_a_number. Qed.

(** svmsg_chqbytes: the attributes are those of the queue but for the size. *)
Definition chq_ok (args : list bytes) (l : calls) (out : bytes) : Prop :=
  out = [] /\ exists a b id q ds, args = [a; b] /\ int_arg 0 a id /\ int_arg 0 b q /\
    l = [Ev (MsgStat id) (SOk ds); Ev (MsgSet id (MsqidDs (u64 q) (msq_rest ds))) (SOk tt)].
Definition chq_bad (args : list bytes) (l : calls) : Prop :=
  l = [] /\ (forall a b id, args = [a; b] -> ~ int_arg 0 a id) \/
  exists a b id, args = [a; b] /\ int_arg 0 a id /\
    ((exists x, l = [Ev (MsgStat id) (SErr x)]) \/
     exists ds, l = [Ev (MsgStat id) (SOk ds)] /\ (forall q, ~ int_arg 0 b q) \/
       exists q x, int_arg 0 b q /\ l = [Ev (MsgStat id) (SOk ds); Ev (MsgSet id (MsqidDs (u64 q) (msq_rest ds))) (SErr x)]).
Lemma svmsg_chqbytes_spec name args s : post (fun _ _ => False) (ran s (chq_ok args) (chq_bad args)) (svmsg_chqbytes strerror name args s).
Proof.
  assert (Hu : forall A msg (Q : A -> S -> Prop), (forall a b id, args = [a; b] -> ~ int_arg 0 a id) ->
    post Q (ran s (chq_ok args) (chq_bad args)) (usageErr msg s)).
  { intros A msg Q H. eapply run_stops; [apply sofar_start|apply usageErr_stops, trace_libc|]. intros e He. split; [done|by left]. }
  destruct args as [|a [|b [|? ?]]]; [by apply Hu| by apply Hu| |by apply Hu]. unfold svmsg_chqbytes.
  destruct (streq a (str "--help")) eqn:Hh; [apply Hu; intros ? ? id [= <- <-]; by apply help_absurd|].
  eapply run_getInt; [apply sofar_start| |].
  2: { intros Ha e He. split; [done|]. left. split; [done|]. intros ? ? id [= <- <-]. apply Ha. }
  intros id Hid. apply (run_call _ _ _ _ _ _ _ _ [] []); [apply sofar_start| |].
  2: { intros x e He. split; [done|]. right. exists a, b, id. split; [done|]. split; [done|]. left. by exists x. }
  intros ds s' Hs'. eapply run_getInt; [exact Hs'| |].
  2: { intros Hb e He. split; [done|]. right. exists a, b, id. split; [done|]. split; [done|]. right. exists ds. by left. }
  intros q Hq. eapply run_call; [exact Hs'| |].
  - intros [] s2 Hs2. eapply run_success; [exact Hs2|]. split; [done|]. by exists a, b, id, q, ds.
  - intros x e He. split; [done|]. right. exists a, b, id. split; [done|]. split; [done|]. right. exists ds. right. by exists q, x.
Qed.

(** ** The values of a set *)

Definition is_setall (x : event ipc) : bool := match x with Ev (SemSetall _ _) (SOk _) => true | _ => false end.
Definition call_failed (l : calls) : Prop := exists A (c : ipc A) x l', l = l' ++ [Ev c (SErr x)].
(** The values are cut to 16 bits. *)
Definition setall_ok (args : list bytes) (l : calls) (out : bytes) : Prop :=
  exists a vals id vs pid, args = a :: vals /\ vals <> [] /\ int_arg 0 a id /\ Forall2 (int_arg 0) vals vs /\
    l = [Ev (SemStat id) (SOk (Z.of_nat (length vals))); Ev (Calloc (Z.of_nat (length vals))) (SOk tt);
         Ev (SemSetall id (u16 <$> vs)) (SOk tt); Ev Getpid pid] /\
    out = str "Semaphore values changed (PID=" ++ print_dec (if pid is SOk p then p else -1) ++ str ")" ++ [newline].
Definition setall_bad (args : list bytes) (l : calls) : Prop :=
  Forall (fun x => is_setall x = false) l /\
  (call_failed l \/
   (exists a vals id n, args = a :: vals /\ int_arg 0 a id /\ l = [Ev (SemStat id) (SOk n)] /\ n <> Z.of_nat (length vals)) \/
   (forall a vals id vs, args = a :: vals -> vals <> [] -> int_arg 0 a id -> ~ Forall2 (int_arg 0) vals vs)).

Lemma sem_values_run {B} vals (s0 : S) ok bad (k : list Z -> M S B) Q l out s : forall past,
  sofar s0 l out s -> (forall vs, Forall2 (int_arg 0) vals vs -> post Q (ended s0 ok bad) (k (past ++ (u16 <$> vs)) s)) ->
  ((forall vs, ~ Forall2 (int_arg 0) vals vs) -> forall e, fails e -> bad e l) ->
  post Q (ended s0 ok bad) ((sem_values vals ≫= (fun vs => k (past ++ vs))) s).
Proof.
  induction vals as [|a vals IH]; intros past Hs Hk Hb; [by apply (Hk [])|]. cbn [sem_values]. rewrite bind_bind.
  eapply run_getInt; [exact Hs| |].
  - intros v Hv. rewrite bind_bind.
    rewrite (bind_ext _ _ (fun vs => k ((past ++ [u16 v]) ++ vs))) by (intros; cbn; by rewrite <- app_assoc).
    apply IH; [done| |].
    + intros vs Hvs. rewrite <- app_assoc. apply (Hk (v :: vs)). by constructor.
    + intros Hno. apply Hb. intros vs Hvs. inversion Hvs; subst. by eapply Hno.
  - intros Hno. apply Hb. intros vs Hvs. inversion Hvs; subst. by eapply Hno.
Qed.
Lemma svsem_setall_spec name args s : post (fun _ _ => False) (ran s (setall_ok args) (setall_bad args)) (svsem_setall strerror name args s).
Proof.
  assert (Hu : forall A msg (Q : A -> S -> Prop), (forall a vals id vs, args = a :: vals -> vals <> [] -> int_arg 0 a id -> ~ Forall2 (int_arg 0) vals vs) ->
    post Q (ran s (setall_ok args) (setall_bad args)) (usageErr msg s)).
  { intros A msg Q H. eapply run_stops; [apply sofar_start|apply usageErr_stops, trace_libc|]. intros e He. split; [done|]. split; [done|by right; right]. }
  destruct args as [|a [|v vals]]; [by apply Hu|by apply Hu; intros ? ? ? ? [= <- <-]|]. unfold svsem_setall.
  destruct (streq a (str "--help")) eqn:Hh; [apply Hu; intros ? ? id vs [= <- <-] _ H _; by apply (help_absurd a id)|].
  remember (v :: vals) as all eqn:Hall. assert (Hne : all <> []) by by subst. clear Hall v vals.
  eapply run_getInt; [apply sofar_start| |].
  2: { intros Ha e He. split; [done|]. split; [done|]. right. right. intros ? ? id vs [= <- <-] _ H. by destruct (Ha id). }
  intros id Hid. apply (run_call _ _ _ _ _ _ _ _ [] []); [apply sofar_start| |].
  2: { intros x e He. split; [done|]. split; [by repeat constructor|]. left. by exists Z, (SemStat id), x, []. }
  intros n s1 Hs1. rewrite app_nil_l in Hs1. destruct (Z.eqb_spec n (Z.of_nat (length all))) as [-> |Hn]; cbn [negb].
  2: { eapply run_stops; [exact Hs1|unfold cmdLineErr; stops|]. intros e He. split; [done|]. split; [by repeat constructor|].
       right. left. by exists a, all, id, n. }
  eapply run_call; [exact Hs1| |].
  2: { intros x e He. split; [done|]. split; [by repeat constructor|]. left. by eexists unit, (Calloc _), x, [_]. }
  intros [] s2 Hs2. eapply (sem_values_run all) with (past := []); [exact Hs2| |].
  2: { intros Hno e He. split; [done|]. split; [by repeat constructor|]. right. right. intros ? ? id' vs [= <- <-] _ _. apply Hno. }
  intros vs Hvs. rewrite app_nil_l. eapply run_call; [exact Hs2| |].
  2: { intros x e He. split; [done|]. split; [by repeat constructor|]. left. by eexists unit, (SemSetall _ _), x, [_; _]. }
  intros [] s3 Hs3. eapply run_try; [exact Hs3| |].
  - intros pid s4 Hs4. eapply run_printf; [exact Hs4|]. intros s5 Hs5. eapply run_success; [exact Hs5|].
    by exists a, all, id, vs, (SOk pid).
  - intros x s4 Hs4. eapply run_printf; [exact Hs4|]. intros s5 Hs5. eapply run_success; [exact Hs5|].
    by exists a, all, id, vs, (SErr x).
Qed.

(** ** Attaching segments *)

(** "id:address" with letters after it: the call and what is printed for it. *)
Definition attach_arg (a : bytes) (c : ipc Z) : Prop :=
  exists id er p, strtol a 0 = StrtolResult id (":"%char :: p) er /\
    c = Shmat (i32 id) (sl_value (strtol p 0))
          (Z.lor (if bool_decide ("r"%char ∈ p) then SHM_RND else 0) (if bool_decide ("R"%char ∈ p) then SHM_RDONLY else 0)).
Definition attach_line (j : Z) (a : bytes) (p : Z) : bytes := print_dec j ++ str ": " ++ a ++ str " ==> " ++ print_ptr p ++ [newline].
Inductive attached : Z -> list bytes -> calls -> bytes -> Prop :=
| attached_nil j : attached j [] [] []
| attached_cons j a args c p l out : attach_arg a c -> attached (j + 1) args l out ->
    attached j (a :: args) (Ev c (SOk p) :: l) (attach_line j a p ++ out).
Definition attach_start (pid : sysres Z) : bytes :=
  str "SHMLBA = 4096 (0x1000), PID = " ++ print_dec (if pid is SOk p then p else -1) ++ [newline].
Definition attach_ok (args : list bytes) (l : calls) (out : bytes) : Prop :=
  exists pid r l' out', attached 1 args l' out' /\ l = Ev Getpid pid :: l' ++ [Ev (Sleep 5) r] /\
    out = attach_start pid ++ out' ++ str "Sleeping 5 seconds" ++ [newline].
Definition attach_bad (args : list bytes) (l : calls) : Prop :=
  exists pid past a rest l' out', args = past ++ a :: rest /\ attached 1 past l' out' /\
    (l = Ev Getpid pid :: l' /\ (forall c, ~ attach_arg a c) \/
     exists c x, attach_arg a c /\ l = Ev Getpid pid :: l' ++ [Ev c (SErr x)]).

Lemma attached_app j past l out a c p : attached j past l out -> attach_arg a c ->
  attached j (past ++ [a]) (l ++ [Ev c (SOk p)]) (out ++ attach_line (j + Z.of_nat (length past)) a p).
Proof.
  induction 1 as [j|j b past c' q l out Hb _ IH]; intros Ha.
  - cbn [length]. rewrite Z.add_0_r, <- (app_nil_r (attach_line _ _ _)). constructor; [done|constructor].
  - cbn [app]. rewrite <- app_assoc. constructor; [done|]. cbn [length]. replace (j + Z.of_nat (Datatypes.S (length past))) with (j + 1 + Z.of_nat (length past)) by lia. by apply IH.
Qed.
Lemma strchr_mem p c : ceq c NUL = false -> (strchr p c = None <-> c ∉ p).
Proof. intros Hc. unfold strchr. rewrite Hc. apply index_of_None. Qed.
Lemma attach_flags p : (if strchr p "R" is Some _ then Z.lor (if strchr p "r" is Some _ then SHM_RND else 0) SHM_RDONLY
    else if strchr p "r" is Some _ then SHM_RND else 0) =
  Z.lor (if bool_decide ("r"%char ∈ p) then SHM_RND else 0) (if bool_decide ("R"%char ∈ p) then SHM_RDONLY else 0).
Proof.
  pose proof (strchr_mem p "R" eq_refl) as HR. pose proof (strchr_mem p "r" eq_refl) as Hr.
  destruct (strchr p "R"), (strchr p "r"); repeat case_bool_decide; try done; exfalso; intuition discriminate.
Qed.

Lemma attach_loop_run {B} name args0 (s0 : S) pid (k : unit -> M S B) Q : forall args past l out s, args0 = past ++ args -> attached 1 past l out ->
  sofar s0 (Ev Getpid pid :: l) (attach_start pid ++ out) s ->
  (forall l out s', attached 1 args0 l out -> sofar s0 (Ev Getpid pid :: l) (attach_start pid ++ out) s' ->
    post Q (ran s0 (attach_ok args0) (attach_bad args0)) (k tt s')) ->
  post Q (ran s0 (attach_ok args0) (attach_bad args0)) ((attach_loop strerror name (1 + Z.of_nat (length past)) args ≫= k) s).
Proof.
  induction args as [|a args IH]; intros past l out s Hargs Hatt Hs Hk.
  { rewrite app_nil_r in Hargs. subst past. by apply (Hk l out). }
  cbn [attach_loop]. destruct (strtol a 0) as [id p er] eqn:Ha. cbn [sl_value sl_endptr].
  destruct (ceq_spec (char_at p 0) ":") as [Hp|Hp]; cbn [negb].
  2: { apply post_bind. eapply run_stops; [exact Hs|unfold attach_usage; stops|]. intros e He. split; [done|].
       exists pid, past, a, args, l, out. do 2 (split; [done|]). left. split; [done|]. intros c (id' & er' & p' & H & _).
       rewrite Ha in H. by injection H as -> -> ->. }
  destruct p as [|c0 p]; [done|]. cbn in Hp. subst c0. cbn [drop]. rewrite attach_flags. rewrite bind_bind.
  assert (Hc : attach_arg a (Shmat (i32 id) (sl_value (strtol p 0))
    (Z.lor (if bool_decide ("r"%char ∈ p) then SHM_RND else 0) (if bool_decide ("R"%char ∈ p) then SHM_RDONLY else 0)))) by by exists id, er, p.
  eapply run_call; [exact Hs| |].
  - intros q s' Hs'. rewrite bind_bind. eapply run_printf; [exact Hs'|]. intros s2 Hs2.
    replace (1 + Z.of_nat (length past) + 1) with (1 + Z.of_nat (length (past ++ [a]))) by (rewrite length_app; simpl; lia).
    rewrite <- app_comm_cons, <- app_assoc in Hs2.
    refine (IH (past ++ [a]) _ _ s2 _ _ Hs2 Hk); [by rewrite <- app_assoc|]. by apply attached_app.
  - intros x e He. split; [done|]. exists pid, past, a, args, l, out. do 2 (split; [done|]). right. by eexists _, x.
Qed.
Lemma svshm_attach_spec name args s : post (fun _ _ => False) (ran s (attach_ok args) (attach_bad args)) (svshm_attach strerror name args s).
Proof.
  unfold svshm_attach.
  assert (Hgo : forall pid s1, sofar s [Ev Getpid pid] [] s1 -> post (fun _ _ => False) (ran s (attach_ok args) (attach_bad args))
    ((printf (attach_start pid);; attach_loop strerror name 1 args;; printf (str "Sleeping 5 seconds" ++ [newline]);;
      call (sys (C := ipc) (Sleep 5));; @c_exit S _ Empty_set EXIT_SUCCESS) s1)).
  { intros pid s1 Hs1. eapply run_printf; [exact Hs1|]. intros s2 Hs2. rewrite <- (app_nil_r (attach_start pid)) in Hs2.
    refine (attach_loop_run name args s pid _ _ args [] [] [] s2 eq_refl (attached_nil 1) Hs2 _). intros l out s3 Hl Hs3.
    eapply run_printf; [exact Hs3|]. intros s4 Hs4. rewrite <- app_assoc in Hs4.
    eapply run_try; [exact Hs4|intros r s5 Hs5|intros r s5 Hs5]; (eapply run_success; [exact Hs5|]).
    - by exists pid, (SOk r), l, out.
    - by exists pid, (SErr r), l, out. }
  eapply run_try; [apply sofar_start|intros pid s1 Hs1|intros x s1 Hs1].
  - exact (Hgo (SOk pid) s1 Hs1).
  - exact (Hgo (SErr x) s1 Hs1).
Qed.

Lemma cstring_terminated txt : NUL ∉ txt -> cstring (txt ++ [NUL]) = txt.
Proof.
  induction txt as [|c txt IH]; intros H; [done|]. rewrite not_elem_of_cons in H. destruct H as [Hc H]. cbn. destruct (ceq_spec c NUL); [congruence|].
  f_equal. by apply IH.
Qed.

(** C37: The programs around System V objects make the calls that their command lines name. The three that create
    an object find the key that exactly one of -f, -k and -p gives, in whatever order the options come, and make
    one call with it, the flags of -c and -x and the permissions, and print the identifier; otherwise they fail
    and create nothing. Those that remove do so in the order of their arguments, up to the first that is not a
    number or cannot be removed. svmsg_send sends its text with the null byte, of less than 1024 characters; svmsg_receive
    asks for what its options say and prints the text that was sent (and is undefined when the message does
    not fit its buffer or is no string); svmsg_chqbytes changes the size of the queue and nothing else; svsem_setall sets
    all values of a set, or none, and only when their number is that of the set; svshm_attach attaches the
    segments one after the other. *)
Theorem sysv_programs_correct s :
  (forall name opts args,
    post (fun _ _ => False) (ran s (created (names_msg opts args)) (not_created (names_msg opts args))) (svmsg_create strerror name opts args s) /\
    post (fun _ _ => False) (ran s (created (names_sem opts args)) (not_created (names_sem opts args))) (svsem_create strerror name opts args s) /\
    post (fun _ _ => False) (ran s (created (names_shm opts args)) (not_created (names_shm opts args))) (svshm_create strerror name opts args s) /\
    post (fun _ _ => False) (ended s (receive_ok opts args) (receive_bad opts args)) (svmsg_receive strerror name opts args s)) /\
  (forall name args,
    post (fun _ _ => False) (ran s (removed MsgRmid args) (not_removed MsgRmid args)) (svmsg_rm strerror name args s) /\
    post (fun _ _ => False) (ran s (removed SemRmid args) (not_removed SemRmid args)) (svsem_rm strerror name args s) /\
    post (fun _ _ => False) (ran s (removed ShmRmid args) (not_removed ShmRmid args)) (svshm_rm strerror name args s) /\
    post (fun _ _ => False) (ran s (chq_ok args) (chq_bad args)) (svmsg_chqbytes strerror name args s) /\
    post (fun _ _ => False) (ran s (setall_ok args) (setall_bad args)) (svsem_setall strerror name args s) /\
    post (fun _ _ => False) (ran s (attach_ok args) (attach_bad args)) (svshm_attach strerror name args s)) /\
  (forall name opts args, post (fun _ _ => False) (ran s (send_ok opts args) (send_bad opts args)) (svmsg_send strerror name opts args s)) /\
  (forall mtype txt, NUL ∉ txt -> message_shown mtype (txt ++ [NUL]) =
    str "Received: type=" ++ print_dec mtype ++ str "; length=" ++ print_dec (Z.of_nat (length txt) + 1) ++ str "; body=" ++ txt ++ [newline]).
Proof.
  split_and!.
  - intros. split_and!; [apply svmsg_create_spec|apply svsem_create_spec|apply svshm_create_spec|apply svmsg_receive_spec].
  - intros. split_and!; [apply rm_with_spec..|apply svmsg_chqbytes_spec|apply svsem_setall_spec|apply svshm_attach_spec].
  - intros. apply svmsg_send_spec.
  - intros mtype txt H. unfold message_shown. rewrite cstring_terminated, length_app, Nat2Z.inj_add by done.
    destruct (txt ++ [NUL]) eqn:E; [by apply app_nil in E as [_ E]|]. by rewrite <- !app_assoc.
Qed.
End creators.

(** * A run *)

(** A queue that is created as 7 and returns what was sent to it. *)
Definition queue_answer (l : list (event ipc)) (A : Type) (c : ipc A) : sysres A :=
  match c in ipc A return sysres A with
  | Msgget _ _ => SOk 7
  | Msgrcv _ _ _ _ => if last l is Some (Ev (Msgsnd _ t txt _) _) then SOk (t, txt) else SErr EAGAIN
  | Msgsnd _ _ _ _ => SOk tt
  | _ => SErr EINVAL
  end.
#[local] Instance queue_os : TraceOS ipc (toy (C := ipc)) := toy_os queue_answer.
#[local] Instance queue_spec : TraceSpec ipc (toy (C := ipc)) := toy_spec queue_answer.
Lemma sysv_programs_correct_witness :
  let create := svmsg_create (S := toy) (fun _ => []) (str "svmsg_create") [("x"%char, []); ("k"%char, str "0x12"); ("c"%char, [])] [str "640"] toy0 in
  let send := svmsg_send (S := toy) (fun _ => []) (str "svmsg_send") [] [str "7"; str "3"; str "hello"] create.2 in
  let receive := svmsg_receive (S := toy) (fun _ => []) (str "svmsg_receive") [] [str "7"] send.2 in
  post (fun _ _ => False) (ran toy0 (created (names_msg [("x"%char, []); ("k"%char, str "0x12"); ("c"%char, [])] [str "640"]))
    (not_created (names_msg [("x"%char, []); ("k"%char, str "0x12"); ("c"%char, [])] [str "640"]))) create /\
  message_shown 3 (str "hello" ++ [NUL]) = str "Received: type=3; length=6; body=hello" ++ [newline] /\
  create.2.2 = [Ev (Msgget 18 (512 + 1024 + 6 * 64 + 4 * 8)) (SOk 7)] /\
  shown receive.2.1 = str "7" ++ [newline] ++ str "Received: type=3; length=6; body=hello" ++ [newline].
Proof.
  split_and!; [|etransitivity; [apply (proj2 (proj2 (proj2 (sysv_programs_correct (S := toy) (fun _ => []) toy0))))|] |by vm_compute|by vm_compute].
  - exact (proj1 (proj1 (sysv_programs_correct (S := toy) (fun _ => []) toy0) _ _ _)).
  - apply (bool_decide_unpack _). by vm_compute.
  - reflexivity.
Defined.
