(* ===== verification/PosixIpc.v ===== *)
(** The programs around POSIX IPC objects: book-src/pmsg/pmsg_create.c, pmsg_send.c, pmsg_receive.c,
    pmsg_getattr.c, pmsg_unlink.c; psem/psem_create.c, psem_post.c, psem_wait.c, psem_getvalue.c, psem_unlink.c;
    pshm/pshm_create.c, pshm_write.c, pshm_read.c, pshm_unlink.c. *)
From S2P Require Import Prelude CLib Sys ErrorFunctions Calls GetNum Trace.
#[local] Open Scope Z_scope.

Definition O_RDONLY : Z := 0.
Definition O_WRONLY : Z := 1.
Definition O_RDWR : Z := 2.
Definition O_CREAT : Z := 64.
Definition O_EXCL : Z := 128.
Definition O_NONBLOCK : Z := 2048.
Definition PROT_READ : Z := 1.
Definition PROT_WRITE : Z := 2.
Definition STDOUT_FILENO : Z := 1.

(** struct mq_attr without its flags. *)
Record mq_attr := MqAttr { mq_maxmsg : Z; mq_msgsize : Z; mq_curmsgs : Z }.

(** mq_open() and sem_open() have more arguments when they may create. [WriteFrom] is write() of what is at an
    address, [Store] memcpy() to one. *)
Inductive posix : Type -> Type :=
| MqOpen (name : bytes) (oflag : Z) (create : option (Z * option (Z * Z))) : posix Z
| MqSend (mqd : Z) (msg : bytes) (prio : Z) : posix unit
| MqGetattr (mqd : Z) : posix mq_attr
| Malloc (size : Z) : posix Z
| MqReceive (mqd size : Z) : posix (bytes * Z)
| MqUnlink (name : bytes) : posix unit
| SemOpen (name : bytes) (oflag : Z) (create : option (Z * Z)) : posix Z
| SemWait (sem : Z) : posix unit
| SemPost (sem : Z) : posix unit
| SemGetvalue (sem : Z) : posix Z
| SemUnlink (name : bytes) : posix unit
| ShmOpen (name : bytes) (oflag perms : Z) : posix Z
| Ftruncate (fd len : Z) : posix unit
| Mmap (len prot fd : Z) : posix Z
| Fstat (fd : Z) : posix Z
| Close (fd : Z) : posix unit
| Store (addr : Z) (bs : bytes) : posix unit
| WriteFrom (fd addr len : Z) : posix Z
| Write (fd : Z) (bs : bytes) : posix Z
| ShmUnlink (name : bytes) : posix unit
| Getpid : posix Z.

Section programs.
Context {S : Type} `{HL : HasLibc S} `{HT : TraceOS posix S}.
Context (strerror : Z -> bytes).
#[local] Abbreviation Sys c := (sys (C := posix) c).
#[local] Abbreviation checked c msg := (echecked strerror (sys (C := posix) c) msg).

(** The results of getopt(), here and below: the options, and the arguments after them. *)
Definition cx_table : list (ascii * Z) := [("c"%char, O_CREAT); ("x"%char, O_EXCL)].
Definition n_table : list (ascii * Z) := [("n"%char, O_NONBLOCK)].

(** ** Message queues *)

Definition pmsg_create_usage {A} (name : bytes) : M S A :=
  eprintf (str "Usage: " ++ name ++ str " [-cx] [-m maxmsg] [-s msgsize] mq-name [octal-perms]" ++ [newline]);;
  eprintf (str "    -c          Create queue (O_CREAT)" ++ [newline]);;
  eprintf (str "    -m maxmsg   Set maximum # of messages" ++ [newline]);;
  eprintf (str "    -s msgsize  Set maximum message size" ++ [newline]);;
  eprintf (str "    -x          Create exclusively (O_EXCL)" ++ [newline]);;
  c_exit EXIT_FAILURE.
(** The fields of [attr] with what was set of them, and whether [attrp] points to it. *)
Fixpoint pmsg_create_options (name : bytes) (opts : list (ascii * bytes)) (flags : Z) (attr : Z * Z) (attrp : bool) : M S (Z * option (Z * Z)) :=
  match opts with
  | [] => mret (flags, if attrp then Some attr else None)
  | (o, optarg) :: opts =>
      if ceq o "c" then pmsg_create_options name opts (Z.lor flags O_CREAT) attr attrp
      else if ceq o "m" then pmsg_create_options name opts flags (atoi optarg, attr.2) true
      else if ceq o "s" then pmsg_create_options name opts flags (attr.1, atoi optarg) true
      else if ceq o "x" then pmsg_create_options name opts (Z.lor flags O_EXCL) attr attrp
      else pmsg_create_usage name
  end.
(** Source: book-src/pmsg/pmsg_create.c:26-96 (usageError, main). *)
Definition pmsg_create (name : bytes) (opts : list (ascii * bytes)) (args : list bytes) : M S Empty_set :=
  '(flags, attrp) ← pmsg_create_options name opts O_RDWR (10, 2048) false;
  match args with
  | [] => pmsg_create_usage name
  | a :: rest =>
      perms ← octal_perms (rest !! 0%nat);
      mqd ← checked (MqOpen a flags (Some (u32 perms, attrp))) (str "mq_open");
      c_exit EXIT_SUCCESS
  end.

Definition pmsg_send_usage {A} (name : bytes) : M S A :=
  eprintf (str "Usage: " ++ name ++ str " [-n] mq-name msg [prio]" ++ [newline]);;
  eprintf (str "    -n           Use O_NONBLOCK flag" ++ [newline]);;
  c_exit EXIT_FAILURE.
(** Source: book-src/pmsg/pmsg_send.c:28-63 (usageError, main). *)
Definition pmsg_send (name : bytes) (opts : list ascii) (args : list bytes) : M S Empty_set :=
  flags ← flag_options (fun A => @pmsg_send_usage A name) n_table opts O_WRONLY;
  match args with
  | a :: msg :: rest =>
      mqd ← checked (MqOpen a flags None) (str "mq_open");
      let prio := match rest with p :: _ => u32 (atoi p) | [] => 0 end in
      checked (MqSend mqd msg prio) (str "mq_send");;
      c_exit EXIT_SUCCESS
  | _ => pmsg_send_usage name
  end.

Definition pmsg_receive_usage {A} (name : bytes) : M S A :=
  eprintf (str "Usage: " ++ name ++ str " [-n] mq-name" ++ [newline]);;
  eprintf (str "    -n           Use O_NONBLOCK flag" ++ [newline]);;
  c_exit EXIT_FAILURE.
(** The last write() is not checked. *)
(** Source: book-src/pmsg/pmsg_receive.c:28-81 (usageError, main). *)
Definition pmsg_receive (name : bytes) (opts : list ascii) (args : list bytes) : M S Empty_set :=
  flags ← flag_options (fun A => @pmsg_receive_usage A name) n_table opts O_RDONLY;
  match args with
  | a :: _ =>
      mqd ← checked (MqOpen a flags None) (str "mq_open");
      attr ← checked (MqGetattr mqd) (str "mq_getattr");
      _ ← checked (Malloc (mq_msgsize attr)) (str "malloc");
      '(buffer, prio) ← checked (MqReceive mqd (mq_msgsize attr)) (str "mq_receive");
      printf (str "Read " ++ print_dec (Z.of_nat (length buffer)) ++ str " bytes; priority = " ++ print_dec prio ++ [newline]);;
      _ ← checked (Write STDOUT_FILENO buffer) (str "write");
      _ ← call (Sys (Write STDOUT_FILENO [newline]));
      c_exit EXIT_SUCCESS
  | [] => pmsg_receive_usage name
  end.

(** [argc != 2 || strcmp(argv[1], "--help") == 0] *)
Definition one_argument (usage : bytes) (name : bytes) (args : list bytes) (k : bytes -> M S Empty_set) : M S Empty_set :=
  match args with
  | [a] => if streq a (str "--help") then usageErr (name ++ usage) else k a
  | _ => usageErr (name ++ usage)
  end.
(** Source: book-src/pmsg/pmsg_getattr.c:22-42 (main). *)
Definition pmsg_getattr (name : bytes) (args : list bytes) : M S Empty_set :=
  one_argument (str " mq-name" ++ [newline]) name args (fun a =>
    mqd ← checked (MqOpen a O_RDONLY None) (str "mq_open");
    attr ← checked (MqGetattr mqd) (str "mq_getattr");
    printf (str "Maximum # of messages on queue:   " ++ print_dec (mq_maxmsg attr) ++ [newline]);;
    printf (str "Maximum message size:             " ++ print_dec (mq_msgsize attr) ++ [newline]);;
    printf (str "# of messages currently on queue: " ++ print_dec (mq_curmsgs attr) ++ [newline]);;
    c_exit EXIT_SUCCESS).
(** Source: book-src/pmsg/pmsg_unlink.c:24-33 (main). *)
Definition pmsg_unlink (name : bytes) (args : list bytes) : M S Empty_set :=
  one_argument (str " mq-name" ++ [newline]) name args (fun a =>
    checked (MqUnlink a) (str "mq_unlink");;
    c_exit EXIT_SUCCESS).

(** ** Semaphores *)

Definition psem_create_usage {A} (name : bytes) : M S A :=
  eprintf (str "Usage: " ++ name ++ str " [-cx] name [octal-perms [value]]" ++ [newline]);;
  eprintf (str "    -c   Create semaphore (O_CREAT)" ++ [newline]);;
  eprintf (str "    -x   Create exclusively (O_EXCL)" ++ [newline]);;
  c_exit EXIT_FAILURE.
(** Source: book-src/psem/psem_create.c:27-68 (usageError, main). *)
Definition psem_create (name : bytes) (opts : list ascii) (args : list bytes) : M S Empty_set :=
  flags ← flag_options (fun A => @psem_create_usage A name) cx_table opts 0;
  match args with
  | [] => psem_create_usage name
  | a :: rest =>
      perms ← octal_perms (rest !! 0%nat);
      value ← match rest !! 1%nat with None => mret 0 | Some v => getInt (Some v) 0 (Some (str "value")) end;
      _ ← checked (SemOpen a flags (Some (u32 perms, u32 value))) (str "sem_open");
      c_exit EXIT_SUCCESS
  end.
(** Source: book-src/psem/psem_wait.c:25-42 (main). *)
Definition psem_wait (name : bytes) (args : list bytes) : M S Empty_set :=
  match args with
  | a :: _ =>
      if streq a (str "--help") then usageErr (name ++ str " sem-name" ++ [newline])
      else
        sem ← checked (SemOpen a 0 None) (str "sem_open");
        checked (SemWait sem) (str "sem_wait");;
        pid ← call (Sys Getpid);
        printf (print_dec (default (-1) pid) ++ str " sem_wait() succeeded" ++ [newline]);;
        c_exit EXIT_SUCCESS
  | [] => usageErr (name ++ str " sem-name" ++ [newline])
  end.
(** Source: book-src/psem/psem_post.c:25-40 (main). *)
Definition psem_post (name : bytes) (args : list bytes) : M S Empty_set :=
  match args with
  | [a] =>
      sem ← checked (SemOpen a 0 None) (str "sem_open");
      checked (SemPost sem) (str "sem_post");;
      c_exit EXIT_SUCCESS
  | _ => usageErr (name ++ str " sem-name" ++ [newline])
  end.
(** Source: book-src/psem/psem_getvalue.c:23-41 (main). *)
Definition psem_getvalue (name : bytes) (args : list bytes) : M S Empty_set :=
  match args with
  | [a] =>
      sem ← checked (SemOpen a 0 None) (str "sem_open");
      value ← checked (SemGetvalue sem) (str "sem_getvalue");
      printf (print_dec value ++ [newline]);;
      c_exit EXIT_SUCCESS
  | _ => usageErr (name ++ str " sem-name" ++ [newline])
  end.
(** Source: book-src/psem/psem_unlink.c:23-32 (main). *)
Definition psem_unlink (name : bytes) (args : list bytes) : M S Empty_set :=
  one_argument (str " sem-name" ++ [newline]) name args (fun a =>
    checked (SemUnlink a) (str "sem_unlink");;
    c_exit EXIT_SUCCESS).

(** ** Shared memory *)

Definition pshm_create_usage {A} (name : bytes) : M S A :=
  eprintf (str "Usage: " ++ name ++ str " [-cx] shm-name size [octal-perms]" ++ [newline]);;
  eprintf (str "    -c   Create shared memory (O_CREAT)" ++ [newline]);;
  eprintf (str "    -x   Create exclusively (O_EXCL)" ++ [newline]);;
  c_exit EXIT_FAILURE.
(** Source: book-src/pshm/pshm_create.c:24-73 (usageError, main). *)
Definition pshm_create (name : bytes) (opts : list ascii) (args : list bytes) : M S Empty_set :=
  flags ← flag_options (fun A => @pshm_create_usage A name) cx_table opts O_RDWR;
  match args with
  | a :: b :: rest =>
      size ← getLong (Some b) GN_ANY_BASE (Some (str "size"));
      let size := u64 size in
      perms ← match rest with
        | [] => mret (Z.lor S_IRUSR S_IWUSR)
        | c :: _ => getLong (Some c) GN_BASE_8 (Some (str "octal-perms"))
        end;
      fd ← checked (ShmOpen a flags (u32 perms)) (str "shm_open");
      checked (Ftruncate fd (i64 size)) (str "ftruncate");;
      _ ← checked (Mmap size (Z.lor PROT_READ PROT_WRITE) fd) (str "mmap");
      c_exit EXIT_SUCCESS
  | _ => pshm_create_usage name
  end.
(** Source: book-src/pshm/pshm_write.c:25-54 (main). *)
Definition pshm_write (name : bytes) (args : list bytes) : M S Empty_set :=
  match args with
  | [a; b] =>
      if streq a (str "--help") then usageErr (name ++ str " shm-name string" ++ [newline])
      else
        fd ← checked (ShmOpen a O_RDWR 0) (str "shm_open");
        let len := Z.of_nat (strlen b) in
        checked (Ftruncate fd len) (str "ftruncate");;
        printf (str "Resized to " ++ print_dec len ++ str " bytes" ++ [newline]);;
        addr ← checked (Mmap len (Z.lor PROT_READ PROT_WRITE) fd) (str "mmap");
        checked (Close fd) (str "close");;
        printf (str "copying " ++ print_dec len ++ str " bytes" ++ [newline]);;
        _ ← call (Sys (Store addr b));
        c_exit EXIT_SUCCESS
  | _ => usageErr (name ++ str " shm-name string" ++ [newline])
  end.
(** write() is not checked. *)
(** Source: book-src/pshm/pshm_read.c:27-57 (main). *)
Definition pshm_read (name : bytes) (args : list bytes) : M S Empty_set :=
  one_argument (str " shm-name" ++ [newline]) name args (fun a =>
    fd ← checked (ShmOpen a O_RDONLY 0) (str "shm_open");
    size ← checked (Fstat fd) (str "fstat");
    addr ← checked (Mmap size PROT_READ fd) (str "mmap");
    checked (Close fd) (str "close");;
    _ ← call (Sys (WriteFrom STDOUT_FILENO addr size));
    printf [newline];;
    c_exit EXIT_SUCCESS).
(** Source: book-src/pshm/pshm_unlink.c:23-32 (main). *)
Definition pshm_unlink (name : bytes) (args : list bytes) : M S Empty_set :=
  one_argument (str " shm-name" ++ [newline]) name args (fun a =>
    checked (ShmUnlink a) (str "shm_unlink");;
    c_exit EXIT_SUCCESS).
End programs.

(** * What is proved of them *)

#[local] Abbreviation calls := (list (event posix)).

Definition known (table : list (ascii * Z)) (opts : list ascii) : Prop := Forall (fun o => o ∈ table.*1) opts.
Definition queue_attrs (opts : list (ascii * bytes)) : option (Z * Z) :=
  if bool_decide ("m"%char ∈ opts.*1 \/ "s"%char ∈ opts.*1) then Some (last_arg "m" opts 10, last_arg "s" opts 2048) else None.

(** The runs of each program: its calls, with their results, and its output. *)
Definition pmsg_create_runs (opts : list (ascii * bytes)) (args : list bytes) (l : calls) (out : bytes) : Prop :=
  exists a rest perms mqd, args = a :: rest /\ Forall (fun o => o.1 ∈ ["c"; "m"; "s"; "x"]%char) opts /\ perms_of (rest !! 0%nat) perms /\
    l = [Ev (MqOpen a (Z.lor O_RDWR (chosen cx_table opts.*1)) (Some (u32 perms, queue_attrs opts))) (SOk mqd)] /\ out = [].
Definition pmsg_send_runs (opts : list ascii) (args : list bytes) (l : calls) (out : bytes) : Prop :=
  exists a msg rest mqd, args = a :: msg :: rest /\ known n_table opts /\
    l = [Ev (MqOpen a (Z.lor O_WRONLY (chosen n_table opts)) None) (SOk mqd);
         Ev (MqSend mqd msg (if rest is p :: _ then u32 (atoi p) else 0)) (SOk tt)] /\ out = [].
Definition pmsg_receive_runs (opts : list ascii) (args : list bytes) (l : calls) (out : bytes) : Prop :=
  exists a rest mqd attr addr msg prio n r, args = a :: rest /\ known n_table opts /\
    l = [Ev (MqOpen a (Z.lor O_RDONLY (chosen n_table opts)) None) (SOk mqd); Ev (MqGetattr mqd) (SOk attr);
         Ev (Malloc (mq_msgsize attr)) (SOk addr); Ev (MqReceive mqd (mq_msgsize attr)) (SOk (msg, prio));
         Ev (Write STDOUT_FILENO msg) (SOk n); Ev (Write STDOUT_FILENO [newline]) r] /\
    out = str "Read " ++ print_dec (Z.of_nat (length msg)) ++ str " bytes; priority = " ++ print_dec prio ++ [newline].
Definition pmsg_getattr_runs (args : list bytes) (l : calls) (out : bytes) : Prop :=
  exists a mqd attr, args = [a] /\ a <> str "--help" /\
    l = [Ev (MqOpen a O_RDONLY None) (SOk mqd); Ev (MqGetattr mqd) (SOk attr)] /\
    out = (str "Maximum # of messages on queue:   " ++ print_dec (mq_maxmsg attr) ++ [newline]) ++
          (str "Maximum message size:             " ++ print_dec (mq_msgsize attr) ++ [newline]) ++
          (str "# of messages currently on queue: " ++ print_dec (mq_curmsgs attr) ++ [newline]).
Definition unlink_runs (unlink : bytes -> posix unit) (args : list bytes) (l : calls) (out : bytes) : Prop :=
  exists a, args = [a] /\ a <> str "--help" /\ l = [Ev (unlink a) (SOk tt)] /\ out = [].
Definition value_of (arg : option bytes) (value : Z) : Prop := match arg with Some v => int_arg 0 v value | None => value = 0 end.
Definition psem_create_runs (opts : list ascii) (args : list bytes) (l : calls) (out : bytes) : Prop :=
  exists a rest perms value sem, args = a :: rest /\ known cx_table opts /\ perms_of (rest !! 0%nat) perms /\
    value_of (rest !! 1%nat) value /\
    l = [Ev (SemOpen a (chosen cx_table opts) (Some (u32 perms, u32 value))) (SOk sem)] /\ out = [].
Definition psem_wait_runs (args : list bytes) (l : calls) (out : bytes) : Prop :=
  exists a rest sem pid, args = a :: rest /\ a <> str "--help" /\
    l = [Ev (SemOpen a 0 None) (SOk sem); Ev (SemWait sem) (SOk tt); Ev Getpid pid] /\
    out = print_dec (if pid is SOk p then p else -1) ++ str " sem_wait() succeeded" ++ [newline].
Definition psem_post_runs (args : list bytes) (l : calls) (out : bytes) : Prop :=
  exists a sem, args = [a] /\ l = [Ev (SemOpen a 0 None) (SOk sem); Ev (SemPost sem) (SOk tt)] /\ out = [].
Definition psem_getvalue_runs (args : list bytes) (l : calls) (out : bytes) : Prop :=
  exists a sem value, args = [a] /\ l = [Ev (SemOpen a 0 None) (SOk sem); Ev (SemGetvalue sem) (SOk value)] /\ out = print_dec value ++ [newline].
Definition long_perms (arg : option bytes) (perms : Z) : Prop := match arg with Some c => long_arg GN_BASE_8 c perms | None => perms = 384 end.
Definition pshm_create_runs (opts : list ascii) (args : list bytes) (l : calls) (out : bytes) : Prop :=
  exists a b rest size perms fd addr, args = a :: b :: rest /\ known cx_table opts /\ long_arg GN_ANY_BASE b size /\
    long_perms (rest !! 0%nat) perms /\
    l = [Ev (ShmOpen a (Z.lor O_RDWR (chosen cx_table opts)) (u32 perms)) (SOk fd); Ev (Ftruncate fd (i64 (u64 size))) (SOk tt);
         Ev (Mmap (u64 size) 3 fd) (SOk addr)] /\ out = [].
(** The segment is made as long as the string, which is stored from its start. *)
Definition pshm_write_runs (args : list bytes) (l : calls) (out : bytes) : Prop :=
  exists a b fd addr r, args = [a; b] /\ a <> str "--help" /\
    l = [Ev (ShmOpen a O_RDWR 0) (SOk fd); Ev (Ftruncate fd (Z.of_nat (length b))) (SOk tt); Ev (Mmap (Z.of_nat (length b)) 3 fd) (SOk addr);
         Ev (Close fd) (SOk tt); Ev (Store addr b) r] /\
    out = (str "Resized to " ++ print_dec (Z.of_nat (length b)) ++ str " bytes" ++ [newline]) ++
          (str "copying " ++ print_dec (Z.of_nat (length b)) ++ str " bytes" ++ [newline]).
Definition pshm_read_runs (args : list bytes) (l : calls) (out : bytes) : Prop :=
  exists a fd size addr r, args = [a] /\ a <> str "--help" /\
    l = [Ev (ShmOpen a O_RDONLY 0) (SOk fd); Ev (Fstat fd) (SOk size); Ev (Mmap size PROT_READ fd) (SOk addr);
         Ev (Close fd) (SOk tt); Ev (WriteFrom STDOUT_FILENO addr size) r] /\ out = [newline].

Section proofs.
Context {S : Type} `{HT : TraceSpec posix S} (strerror : Z -> bytes).

Ltac stops := repeat first [apply c_exit_stops, trace_libc | apply stops_eprintf; [apply trace_libc|intros] | apply usageErr_stops, trace_libc].
(** A run of the given program, its parts found by their equations. *)
Ltac a_run := cbn [app]; unshelve (repeat first [eassumption | reflexivity | eexists]); try exact 0; try exact (MqAttr 0 0 0); try exact (SOk 0); try exact (SOk tt); try exact [].
Ltac step := match goal with
  | H : sofar _ _ _ ?s |- post _ _ ((echecked _ _ _ ≫= _) ?s) => eapply performs_call; [exact H|a_run|intros ? ? ?; cbn [app] in *]
  | H : sofar _ _ _ ?s |- post _ _ ((call _ ≫= _) ?s) => eapply performs_try; [exact H|intros ? ? ?; cbn [app] in *]
  | H : sofar _ _ _ ?s |- post _ _ ((printf _ ≫= _) ?s) => eapply performs_printf; [exact H|intros ? ?]
  | H : sofar _ _ _ ?s |- post _ _ (c_exit EXIT_SUCCESS ?s) => eapply performs_success; [exact H|a_run]
  end.

Lemma unlink_spec unlink msg usage name args s :
  post (fun _ _ => False) (performs (unlink_runs unlink args) s)
    (one_argument usage name args (fun a => echecked strerror (sys (unlink a)) msg;; c_exit EXIT_SUCCESS) s).
Proof.
  pose proof (sofar_start s) as Hs. destruct args as [|a [|? ?]]; unfold one_argument.
  1, 3: eapply performs_refused; [exact Hs|stops|]; by intros ? ? (? & ? & _).
  unfold streq. case_bool_decide as Ha.
  { eapply performs_refused; [exact Hs|stops|]. by intros ? ? (? & [= <-] & ? & _). }
  step. destruct a0. step.
Qed.
Lemma psem_wait_spec name args s : post (fun _ _ => False) (performs (psem_wait_runs args) s) (psem_wait strerror name args s).
Proof.
  pose proof (sofar_start s) as Hs. destruct args as [|a rest]; unfold psem_wait.
  { eapply performs_refused; [exact Hs|stops|]. by intros ? ? (? & ? & ? & ? & ? & _). }
  unfold streq. case_bool_decide as Ha.
  { eapply performs_refused; [exact Hs|stops|]. by intros ? ? (? & ? & ? & ? & [= <- <-] & ? & _). }
  step. step. destruct a1. step. step. step. by destruct r.
Qed.
Lemma psem_post_spec name args s : post (fun _ _ => False) (performs (psem_post_runs args) s) (psem_post strerror name args s).
Proof.
  pose proof (sofar_start s) as Hs. destruct args as [|a [|? ?]]; unfold psem_post.
  1, 3: eapply performs_refused; [exact Hs|stops|]; by intros ? ? (? & ? & ? & _).
  step. step. destruct a1. step.
Qed.
Lemma psem_getvalue_spec name args s : post (fun _ _ => False) (performs (psem_getvalue_runs args) s) (psem_getvalue strerror name args s).
Proof.
  pose proof (sofar_start s) as Hs. destruct args as [|a [|? ?]]; unfold psem_getvalue.
  1, 3: eapply performs_refused; [exact Hs|stops|]; by intros ? ? (? & ? & ? & ? & _).
  step. step. step. step.
Qed.
Lemma pmsg_getattr_spec name args s : post (fun _ _ => False) (performs (pmsg_getattr_runs args) s) (pmsg_getattr strerror name args s).
Proof.
  pose proof (sofar_start s) as Hs. destruct args as [|a [|? ?]]; unfold pmsg_getattr, one_argument.
  1, 3: eapply performs_refused; [exact Hs|stops|]; by intros ? ? (? & ? & ? & ? & _).
  unfold streq. case_bool_decide as Ha.
  { eapply performs_refused; [exact Hs|stops|]. by intros ? ? (? & ? & ? & [= <-] & ? & _). }
  step. step. step. step. step. eapply performs_success; [eassumption|]. exists a, a0, a1. split_and!; [done|done|done|]. by rewrite app_nil_l, <- app_assoc.
Qed.
Lemma pshm_write_spec name args s : post (fun _ _ => False) (performs (pshm_write_runs args) s) (pshm_write strerror name args s).
Proof.
  pose proof (sofar_start s) as Hs. destruct args as [|a [|b [|? ?]]]; unfold pshm_write.
  1, 2, 4: eapply performs_refused; [exact Hs|stops|]; by intros ? ? (? & ? & ? & ? & ? & ? & _).
  unfold streq. case_bool_decide as Ha.
  { eapply performs_refused; [exact Hs|stops|]. by intros ? ? (? & ? & ? & ? & ? & [= <- <-] & ? & _). }
  unfold strlen. cbv zeta. step. step. destruct a1. step. step. step. destruct a2. step. step.
  eapply performs_success; [eassumption|]. by eexists a, b, _, _, _.
Qed.
Lemma pshm_read_spec name args s : post (fun _ _ => False) (performs (pshm_read_runs args) s) (pshm_read strerror name args s).
Proof.
  pose proof (sofar_start s) as Hs. destruct args as [|a [|? ?]]; unfold pshm_read, one_argument.
  1, 3: eapply performs_refused; [exact Hs|stops|]; by intros ? ? (? & ? & ? & ? & ? & ? & _).
  unfold streq. case_bool_decide as Ha.
  { eapply performs_refused; [exact Hs|stops|]. by intros ? ? (? & ? & ? & ? & ? & [= <-] & ? & _). }
  step. step. step. step. destruct a3. step. step. step.
Qed.

(** ** Programs with options *)

Lemma pmsg_send_spec name opts args s : post (fun _ _ => False) (performs (pmsg_send_runs opts args) s) (pmsg_send strerror name opts args s).
Proof.
  unfold pmsg_send. apply flag_options_run.
  - intros. unfold pmsg_send_usage. stops.
  - apply (bool_decide_unpack _). by vm_compute.
  - apply sofar_start.
  - intros Ho. pose proof (sofar_start s) as Hs. destruct args as [|a [|msg rest]].
    1, 2: eapply performs_refused; [exact Hs|unfold pmsg_send_usage; stops|]; by intros ? ? (? & ? & ? & ? & ? & _).
    step. step. destruct a1. step.
  - by intros Ho ? ? (? & ? & ? & ? & _ & H & _).
Qed.
Lemma pmsg_receive_spec name opts args s : post (fun _ _ => False) (performs (pmsg_receive_runs opts args) s) (pmsg_receive strerror name opts args s).
Proof.
  unfold pmsg_receive. apply flag_options_run.
  - intros. unfold pmsg_receive_usage. stops.
  - apply (bool_decide_unpack _). by vm_compute.
  - apply sofar_start.
  - intros Ho. pose proof (sofar_start s) as Hs. destruct args as [|a rest].
    { eapply performs_refused; [exact Hs|unfold pmsg_receive_usage; stops|]. by intros ? ? (? & ? & ? & ? & ? & ? & ? & ? & ? & ? & _). }
    step. step. step. step. destruct a3 as [msg prio]. step. step. step. step.
  - by intros Ho ? ? (? & ? & ? & ? & ? & ? & ? & ? & ? & _ & H & _).
Qed.
Lemma psem_create_spec name opts args s : post (fun _ _ => False) (performs (psem_create_runs opts args) s) (psem_create strerror name opts args s).
Proof.
  unfold psem_create. apply flag_options_run.
  - intros. unfold psem_create_usage. stops.
  - apply (bool_decide_unpack _). by vm_compute.
  - apply sofar_start.
  - intros Ho. pose proof (sofar_start s) as Hs. destruct args as [|a rest].
    { eapply performs_refused; [exact Hs|unfold psem_create_usage; stops|]. by intros ? ? (? & ? & ? & ? & ? & ? & _). }
    eapply performs_octal; [exact Hs| |].
    2: { intros Hno ? ? (? & ? & p & ? & ? & [= <- <-] & _ & Hp & _). by apply (Hno p). }
    intros perms Hp. destruct rest as [|p [|v rest]].
    all: cbn [lookup list_lookup] in Hp |- *.
    1, 2: rewrite (bind_done (mret 0) _ s 0 s eq_refl); step; step.
    eapply performs_getInt; [exact Hs| |].
    + intros value Hv. assert (Hv' : value_of (Some v) value) by exact Hv. step. step.
    + intros Hno ? ? (? & ? & ? & v' & ? & [= <- <-] & _ & _ & Hv & _). by apply (Hno v').
  - by intros Ho ? ? (? & ? & ? & ? & ? & _ & H & _).
Qed.
Lemma pshm_create_spec name opts args s : post (fun _ _ => False) (performs (pshm_create_runs opts args) s) (pshm_create strerror name opts args s).
Proof.
  unfold pshm_create. apply flag_options_run.
  - intros. unfold pshm_create_usage. stops.
  - apply (bool_decide_unpack _). by vm_compute.
  - apply sofar_start.
  - intros Ho. pose proof (sofar_start s) as Hs. destruct args as [|a [|b rest]].
    1, 2: eapply performs_refused; [exact Hs|unfold pshm_create_usage; stops|]; by intros ? ? (? & ? & ? & ? & ? & ? & ? & ? & _).
    eapply performs_getLong; [exact Hs| |].
    2: { intros Hno ? ? (? & ? & ? & size & ? & ? & ? & [= <- <- <-] & _ & H & _). by apply (Hno size). }
    intros size Hsize. cbv zeta. destruct rest as [|c rest].
    + rewrite (bind_done (mret (Z.lor S_IRUSR S_IWUSR)) _ s 384 s eq_refl). assert (Hp : long_perms None 384) by done. step. step. destruct a1. step. step.
    + eapply performs_getLong; [exact Hs| |].
      * intros perms Hp. assert (Hp' : long_perms (Some c) perms) by exact Hp. step. step. destruct a1. step. step.
      * intros Hno ? ? (? & ? & ? & ? & p & ? & ? & [= <- <- <-] & _ & _ & H & _). by apply (Hno p).
  - by intros Ho ? ? (? & ? & ? & ? & ? & ? & ? & _ & H & _).
Qed.

(** The loop over the options after [pre]. *)
Lemma pmsg_create_options_run {B} name opts full s0 (k : Z * option (Z * Z) -> M S B) Q s : forall pre,
  sofar s0 [] [] s -> Forall (fun o => o.1 ∈ ["c"; "m"; "s"; "x"]%char) pre ->
  (Forall (fun o => o.1 ∈ ["c"; "m"; "s"; "x"]%char) (pre ++ opts) ->
    post Q (performs full s0) (k (Z.lor O_RDWR (chosen cx_table (pre ++ opts).*1), queue_attrs (pre ++ opts)) s)) ->
  (~ Forall (fun o => o.1 ∈ ["c"; "m"; "s"; "x"]%char) (pre ++ opts) -> forall l out, ~ full l out) ->
  post Q (performs full s0) ((pmsg_create_options name opts (Z.lor O_RDWR (chosen cx_table pre.*1)) (last_arg "m" pre 10, last_arg "s" pre 2048)
    (bool_decide ("m"%char ∈ pre.*1 \/ "s"%char ∈ pre.*1)) ≫= k) s).
Proof.
  induction opts as [|[o a] opts IH]; intros pre Hs Hpre Hk Hb.
  { rewrite app_nil_r in Hk. cbn [pmsg_create_options]. specialize (Hk Hpre). unfold queue_attrs in Hk. by case_bool_decide. }
  replace (pre ++ (o, a) :: opts) with ((pre ++ [(o, a)]) ++ opts) in * by by rewrite <- app_assoc.
  assert (Hgo : o ∈ ["c"; "m"; "s"; "x"]%char -> post Q (performs full s0) ((pmsg_create_options name opts (Z.lor O_RDWR (chosen cx_table (pre ++ [(o, a)]).*1))
    (last_arg "m" (pre ++ [(o, a)]) 10, last_arg "s" (pre ++ [(o, a)]) 2048)
    (bool_decide ("m"%char ∈ (pre ++ [(o, a)]).*1 \/ "s"%char ∈ (pre ++ [(o, a)]).*1)) ≫= k) s)).
  { intros Ho. apply IH; [done| |done|done]. apply Forall_app. split; [done|by apply Forall_singleton]. }
  assert (Hfl : chosen cx_table (pre ++ [(o, a)]).*1 = Z.lor (chosen cx_table pre.*1) (chosen cx_table [o])).
  { rewrite fmap_app. cbn [fmap list_fmap fst]. rewrite Z.lor_comm, <- chosen_cons. apply chosen_ext. intros c. rewrite elem_of_app, list_elem_of_singleton, elem_of_cons. tauto. }
  assert (Hat : bool_decide ("m"%char ∈ (pre ++ [(o, a)]).*1 \/ "s"%char ∈ (pre ++ [(o, a)]).*1) =
    bool_decide ("m"%char ∈ pre.*1 \/ "s"%char ∈ pre.*1) || bool_decide (o = "m"%char \/ o = "s"%char)).
  { apply Bool.eq_true_iff_eq. rewrite orb_true_iff, !bool_decide_eq_true, !mem_snoc. tauto. }
  rewrite Hfl, Hat, !last_arg_snoc in Hgo. cbn [fst snd] in Hgo. rewrite Z.lor_assoc in Hgo. clear IH Hfl Hat. cbn [pmsg_create_options].
  destruct (ceq_spec o "c") as [-> |Hc]; [cbn in Hgo; rewrite orb_false_r in Hgo; apply Hgo; by apply (bool_decide_unpack _)|].
  destruct (ceq_spec o "m") as [-> |Hm]; [cbn in Hgo; rewrite orb_true_r, Z.lor_0_r in Hgo; apply Hgo; by apply (bool_decide_unpack _)|].
  destruct (ceq_spec o "s") as [-> |Hss]; [cbn in Hgo; rewrite orb_true_r, Z.lor_0_r in Hgo; apply Hgo; by apply (bool_decide_unpack _)|].
  destruct (ceq_spec o "x") as [-> |Hx]; [cbn in Hgo; rewrite orb_false_r in Hgo; apply Hgo; by apply (bool_decide_unpack _)|].
  apply post_bind. eapply performs_refused; [exact Hs|unfold pmsg_create_usage; stops|]. apply Hb.
  rewrite !Forall_app, Forall_singleton. cbn [fst]. rewrite !elem_of_cons, elem_of_nil. tauto.
Qed.
Lemma pmsg_create_spec name opts args s : post (fun _ _ => False) (performs (pmsg_create_runs opts args) s) (pmsg_create strerror name opts args s).
Proof.
  unfold pmsg_create. apply (pmsg_create_options_run name opts _ s _ _ s []); [apply sofar_start|done| |].
  - rewrite app_nil_l. intros Ho. pose proof (sofar_start s) as Hs. destruct args as [|a rest].
    { eapply performs_refused; [exact Hs|unfold pmsg_create_usage; stops|]. by intros ? ? (? & ? & ? & ? & ? & _). }
    eapply performs_octal; [exact Hs| |].
    + intros perms Hp. step. step.
    + intros Hno ? ? (? & ? & p & ? & [= <- <-] & _ & Hp & _). by apply (Hno p).
  - by intros Ho ? ? (? & ? & ? & ? & _ & H & _).
Qed.

(** The programs around POSIX message queues, semaphores and shared memory objects perform what their command
    lines say: each makes the calls of one of its runs, with the flags of its options in whatever order they
    come, the permissions, values, priorities and attributes of its arguments, and the results of earlier calls, and
    prints what that run prints; it fails at the first call that fails, and makes no call at all when
    the command line names no run. *)
Theorem posix_programs_correct s :
  (forall name opts args,
    post (fun _ _ => False) (performs (pmsg_create_runs opts args) s) (pmsg_create strerror name opts args s)) /\
  (forall name opts args,
    post (fun _ _ => False) (performs (pmsg_send_runs opts args) s) (pmsg_send strerror name opts args s) /\
    post (fun _ _ => False) (performs (pmsg_receive_runs opts args) s) (pmsg_receive strerror name opts args s) /\
    post (fun _ _ => False) (performs (psem_create_runs opts args) s) (psem_create strerror name opts args s) /\
    post (fun _ _ => False) (performs (pshm_create_runs opts args) s) (pshm_create strerror name opts args s)) /\
  (forall name args,
    post (fun _ _ => False) (performs (pmsg_getattr_runs args) s) (pmsg_getattr strerror name args s) /\
    post (fun _ _ => False) (performs (unlink_runs MqUnlink args) s) (pmsg_unlink strerror name args s) /\
    post (fun _ _ => False) (performs (psem_wait_runs args) s) (psem_wait strerror name args s) /\
    post (fun _ _ => False) (performs (psem_post_runs args) s) (psem_post strerror name args s) /\
    post (fun _ _ => False) (performs (psem_getvalue_runs args) s) (psem_getvalue strerror name args s) /\
    post (fun _ _ => False) (performs (unlink_runs SemUnlink args) s) (psem_unlink strerror name args s) /\
    post (fun _ _ => False) (performs (pshm_write_runs args) s) (pshm_write strerror name args s) /\
    post (fun _ _ => False) (performs (pshm_read_runs args) s) (pshm_read strerror name args s) /\
    post (fun _ _ => False) (performs (unlink_runs ShmUnlink args) s) (pshm_unlink strerror name args s)).
Proof.
  split_and!; intros.
  - apply pmsg_create_spec.
  - split_and!; [apply pmsg_send_spec|apply pmsg_receive_spec|apply psem_create_spec|apply pshm_create_spec].
  - split_and!; [apply pmsg_getattr_spec|apply unlink_spec|apply psem_wait_spec|apply psem_post_spec|apply psem_getvalue_spec|
      apply unlink_spec|apply pshm_write_spec|apply pshm_read_spec|apply unlink_spec].
Qed.
End proofs.

(** * Runs *)

(** A queue with messages of up to 8 bytes that gives back what was sent to it. *)
Definition mq_answer (l : list (event posix)) (A : Type) (c : posix A) : sysres A :=
  match c in posix A return sysres A with
  | MqOpen _ _ _ => SOk 3
  | MqSend _ msg _ => if (8 <? length msg)%nat then SErr 90 else SOk tt
  | MqGetattr _ => SOk (MqAttr 10 8 1)
  | Malloc _ => SOk 4096
  | MqReceive _ _ => default (SErr EAGAIN) (head (x ← l; if x is Ev (MqSend _ msg prio) (SOk _) then [SOk (msg, prio)] else []))
  | Write _ bs => SOk (Z.of_nat (length bs))
  | _ => SErr EINVAL
  end.
#[local] Instance mq_os : TraceOS posix (toy (C := posix)) := toy_os mq_answer.
#[local] Instance mq_spec : TraceSpec posix (toy (C := posix)) := toy_spec mq_answer.
Example queue_run :
  let send := pmsg_send (S := toy) (fun _ => []) (str "pmsg_send") ["n"%char] [str "/q"; str "hello"; str "7"] toy0 in
  let receive := pmsg_receive (S := toy) (fun _ => []) (str "pmsg_receive") [] [str "/q"] send.2 in
  send.2.2 = [Ev (MqOpen (str "/q") (1 + 2048) None) (SOk 3); Ev (MqSend 3 (str "hello") 7) (SOk tt)] /\
  shown receive.2.1 = str "Read 5 bytes; priority = 7" ++ [newline] /\ receive.1 = Exited EXIT_SUCCESS.
Proof. by vm_compute. Qed.
