(* ===== verification/NsPrograms.v ===== *)
(** Programs that run a command in other namespaces: book-src/namespaces/unshare.c, ns_exec.c, ns_run.c and
    ns_child_exec.c. *)
From S2P Require Import Prelude CLib Sys ErrorFunctions Calls GetNum Trace.
#[local] Open Scope Z_scope.

Definition CLONE_NEWNS : Z := 0x20000.
Definition CLONE_NEWCGROUP : Z := 0x2000000.
Definition CLONE_NEWUTS : Z := 0x4000000.
Definition CLONE_NEWIPC : Z := 0x8000000.
Definition CLONE_NEWUSER : Z := 0x10000000.
Definition CLONE_NEWPID : Z := 0x20000000.
Definition CLONE_NEWNET : Z := 0x40000000.
Definition SIGCHLD : Z := 17.
Definition O_RDONLY_CLOEXEC : Z := 524288.
Definition STACK_SIZE : Z := 1024 * 1024.

(** The call of execvp() succeeds when the command replaces the program; the address of a new stack is its lowest. *)
Inductive ns : Type -> Type :=
| Unshare (flags : Z) : ns unit
| Fork : ns Z
| Wait : ns Z
| Waitpid (pid : Z) : ns Z
| Execvp (file : bytes) (argv : list bytes) : ns unit
| Open (path : bytes) (flags : Z) : ns Z
| Setns (fd nstype : Z) : ns unit
| Close (fd : Z) : ns unit
| MmapStack (size : Z) : ns Z
| Clone (stack flags : Z) (argv : list bytes) : ns Z.

Section programs.
Context {S : Type} `{HL : HasLibc S} `{HT : TraceOS ns S}.
Context (strerror : Z -> bytes).
#[local] Abbreviation Sys c := (sys (C := ns) c).
#[local] Abbreviation checked c msg := (pchecked strerror (sys (C := ns) c) msg).

(** A program returns here when the command has replaced it. *)
Definition exec_command (cmd : bytes) (argv : list bytes) : M S unit := checked (Execvp cmd argv) (str "execvp").

Definition ns_table : list (ascii * Z) :=
  [("C"%char, CLONE_NEWCGROUP); ("i"%char, CLONE_NEWIPC); ("m"%char, CLONE_NEWNS); ("n"%char, CLONE_NEWNET);
   ("p"%char, CLONE_NEWPID); ("u"%char, CLONE_NEWUTS); ("U"%char, CLONE_NEWUSER)].
(** The options that getopt() finds: namespaces, and one more option [extra] that sets a variable. *)
Fixpoint ns_options (usage : forall A, M S A) (extra : ascii) (opts : list ascii) (flags : Z) (x : bool) : M S (Z * bool) :=
  match opts with
  | [] => mret (flags, x)
  | o :: opts =>
      if ceq o extra then ns_options usage extra opts flags true
      else match list_find (fun e => e.1 = o) ns_table with
           | Some (_, (_, f)) => ns_options usage extra opts (Z.lor flags f) x
           | None => usage _
           end
  end.

Definition unshare_usage {A} (name : bytes) : M S A :=
  eprintf (str "Usage: " ++ name ++ str " [options] cmd [arg...]" ++ [newline]);;
  eprintf (str "Options can be:" ++ [newline]);;
  eprintf (str "    -f   fork() before executing cmd (useful when unsharing PID namespace)" ++ [newline]);;
  eprintf (str "    -C   unshare cgroup namespace" ++ [newline]);;
  eprintf (str "    -i   unshare IPC namespace" ++ [newline]);;
  eprintf (str "    -m   unshare mount namespace" ++ [newline]);;
  eprintf (str "    -n   unshare network namespace" ++ [newline]);;
  eprintf (str "    -p   unshare PID namespace" ++ [newline]);;
  eprintf (str "    -u   unshare UTS namespace" ++ [newline]);;
  eprintf (str "    -U   unshare user namespace" ++ [newline]);;
  c_exit EXIT_FAILURE.
(** [if (fork())] takes the -1 of a failed fork() for the parent. *)
(** Source: book-src/namespaces/unshare.c:37-99 (usage, main). *)
Definition unshare_main (name : bytes) (opts : list ascii) (args : list bytes) : M S unit :=
  '(flags, do_fork) ← ns_options (fun A => @unshare_usage A name) "f" opts 0 false;
  match args with
  | [] => unshare_usage name
  | cmd :: _ =>
      checked (Unshare flags) (str "unshare");;
      if (do_fork : bool) then
        pid ← call (Sys Fork);
        if bool_decide (pid = Some 0) then exec_command cmd args
        else
          _ ← call (Sys Wait);
          c_exit EXIT_SUCCESS
      else exec_command cmd args
  end.

(** Source: book-src/namespaces/ns_exec.c:37-58 (main). *)
Definition ns_exec (name : bytes) (argv : list bytes) : M S unit :=
  match argv with
  | path :: (cmd :: _) as args =>
      fd ← checked (Open path O_RDONLY_CLOEXEC) (str "open");
      checked (Setns fd 0) (str "setns");;
      exec_command cmd args
  | _ =>
      eprintf (name ++ str " /proc/PID/ns/FILE cmd [arg...]" ++ [newline]);;
      c_exit EXIT_FAILURE
  end.

Definition ns_run_usage {A} (name : bytes) : M S A :=
  eprintf (str "Usage: " ++ name ++ str " [-f] [-n /proc/PID/ns/FILE] cmd [arg...]" ++ [newline]);;
  eprintf (chr 9 :: str "-f     Execute command in child process" ++ [newline]);;
  eprintf (chr 9 :: str "-n     Join specified namespace" ++ [newline]);;
  c_exit EXIT_FAILURE.
(** The namespaces are joined while the options are read. *)
(** Source: book-src/namespaces/ns_run.c:61-85 (main, options). *)
Fixpoint ns_run_options (name : bytes) (opts : list (ascii * bytes)) (do_fork : bool) : M S bool :=
  match opts with
  | [] => mret do_fork
  | (o, optarg) :: opts =>
      if ceq o "n" then
        fd ← checked (Open optarg O_RDONLY_CLOEXEC) (str "open");
        checked (Setns fd 0) (str "setns");;
        _ ← call (Sys (Close fd));
        ns_run_options name opts do_fork
      else if ceq o "f" then ns_run_options name opts true
      else ns_run_usage name
  end.
(** Source: book-src/namespaces/ns_run.c:37-112 (usage, main). *)
Definition ns_run (name : bytes) (opts : list (ascii * bytes)) (args : list bytes) : M S unit :=
  do_fork ← ns_run_options name opts false;
  match args with
  | [] => ns_run_usage name
  | cmd :: _ =>
      if (do_fork : bool) then
        pid ← checked Fork (str "fork");
        if pid =? 0 then exec_command cmd args
        else
          _ ← checked (Waitpid pid) (str "waitpid");
          c_exit EXIT_SUCCESS
      else exec_command cmd args
  end.

Definition child_exec_usage {A} (name : bytes) : M S A :=
  eprintf (str "Usage: " ++ name ++ str " [options] cmd [arg...]" ++ [newline]);;
  eprintf (str "Options can be:" ++ [newline]);;
  eprintf (str "    -C   new cgroup namespace" ++ [newline]);;
  eprintf (str "    -i   new IPC namespace" ++ [newline]);;
  eprintf (str "    -m   new mount namespace" ++ [newline]);;
  eprintf (str "    -n   new network namespace" ++ [newline]);;
  eprintf (str "    -p   new PID namespace" ++ [newline]);;
  eprintf (str "    -u   new UTS namespace" ++ [newline]);;
  eprintf (str "    -U   new user namespace" ++ [newline]);;
  eprintf (str "    -v   Display verbose messages" ++ [newline]);;
  c_exit EXIT_FAILURE.
(** The child that clone() starts, with the arguments it is given. *)
(** Source: book-src/namespaces/ns_child_exec.c:57-64 (childFunc). *)
Definition childFunc (argv : list bytes) : M S unit := exec_command (default [] (argv !! 0%nat)) argv.
(** Source: book-src/namespaces/ns_child_exec.c:41-126 (usage, main). *)
Definition ns_child_exec (name : bytes) (opts : list ascii) (args : list bytes) : M S unit :=
  '(flags, verbose) ← ns_options (fun A => @child_exec_usage A name) "v" opts 0 false;
  match args with
  | [] => child_exec_usage name
  | _ =>
      stack ← checked (MmapStack STACK_SIZE) (str "mmap");
      child_pid ← checked (Clone (stack + STACK_SIZE) (Z.lor flags SIGCHLD) args) (str "clone");
      (if (verbose : bool) then printf (name ++ str ": PID of child created by clone() is " ++ print_dec child_pid ++ [newline]) else mret tt);;
      _ ← checked (Waitpid child_pid) (str "waitpid");
      (if (verbose : bool) then printf (name ++ str ": terminating" ++ [newline]) else mret tt);;
      c_exit EXIT_SUCCESS
  end.
End programs.

(** * What is proved of them *)

#[local] Abbreviation calls := (list (event ns)).

Definition ns_known (extra : ascii) (opts : list ascii) : Prop := Forall (fun o => o = extra \/ o ∈ ns_table.*1) opts.
Definition exec_of (args : list bytes) : event ns := Ev (Execvp (default [] (args !! 0%nat)) args) (SOk tt).

(** unshare: the process that runs the command, and the parent, if there is one. *)
Definition unshare_execs (opts : list ascii) (args : list bytes) (l : calls) : Prop :=
  args <> [] /\ ns_known "f" opts /\
  l = Ev (Unshare (chosen ns_table opts)) (SOk tt) :: (if bool_decide ("f"%char ∈ opts) then [Ev Fork (SOk 0)] else []) ++ [exec_of args].
Definition unshare_waits (opts : list ascii) (args : list bytes) (l : calls) (out : bytes) : Prop :=
  args <> [] /\ ns_known "f" opts /\ "f"%char ∈ opts /\ out = [] /\
  exists pid r, pid <> SOk 0 /\ l = [Ev (Unshare (chosen ns_table opts)) (SOk tt); Ev Fork pid; Ev Wait r].
Definition ns_execs (argv : list bytes) (l : calls) : Prop :=
  exists path args fd, argv = path :: args /\ args <> [] /\
    l = [Ev (Open path O_RDONLY_CLOEXEC) (SOk fd); Ev (Setns fd 0) (SOk tt); exec_of args].
(** ns_run: the namespaces of the options -n, joined in their order. *)
Inductive joined : list (ascii * bytes) -> calls -> Prop :=
| joined_nil : joined [] []
| joined_fork a opts l : joined opts l -> joined (("f"%char, a) :: opts) l
| joined_ns path opts fd r l : joined opts l ->
    joined (("n"%char, path) :: opts) ([Ev (Open path O_RDONLY_CLOEXEC) (SOk fd); Ev (Setns fd 0) (SOk tt); Ev (Close fd) r] ++ l).
Definition run_execs (opts : list (ascii * bytes)) (args : list bytes) (l : calls) : Prop :=
  args <> [] /\ exists l', joined opts l' /\ l = l' ++ (if bool_decide ("f"%char ∈ opts.*1) then [Ev Fork (SOk 0)] else []) ++ [exec_of args].
Definition run_waits (opts : list (ascii * bytes)) (args : list bytes) (l : calls) (out : bytes) : Prop :=
  args <> [] /\ "f"%char ∈ opts.*1 /\ out = [] /\
  exists l' pid pid', joined opts l' /\ pid <> 0 /\ l = l' ++ [Ev Fork (SOk pid); Ev (Waitpid pid) (SOk pid')].
Definition child_exec_waits (name : bytes) (opts : list ascii) (args : list bytes) (l : calls) (out : bytes) : Prop :=
  args <> [] /\ ns_known "v" opts /\ exists stack pid pid',
    l = [Ev (MmapStack STACK_SIZE) (SOk stack); Ev (Clone (stack + STACK_SIZE) (Z.lor (chosen ns_table opts) SIGCHLD) args) (SOk pid);
         Ev (Waitpid pid) (SOk pid')] /\
    out = if bool_decide ("v"%char ∈ opts) then
            name ++ str ": PID of child created by clone() is " ++ print_dec pid ++ [newline] ++ name ++ str ": terminating" ++ [newline]
          else [].

(** A program of which one process runs a command after the calls [execs], and another ends after the calls [waits]. *)
Section launches.
Context {S : Type} `{HT : TraceSpec ns S}.
Definition either (waits : calls -> bytes -> Prop) (execs : calls -> Prop) (l : calls) (out : bytes) : Prop := waits l out \/ execs l /\ out = [].
Definition replaced (execs : calls -> Prop) (s0 : S) (_ : unit) (s : S) : Prop := exists l, trace s = trace s0 ++ l /\ execs l.
Definition launches (waits : calls -> bytes -> Prop) (execs : calls -> Prop) (s : S) (r : outcome unit * S) : Prop :=
  post (replaced execs s) (performs_for waits (either waits execs) s) r.
End launches.
Definition none (l : calls) (out : bytes) : Prop := False.
Definition no_exec (l : calls) : Prop := False.
(** ns_run joins namespaces while it reads its options: it stops at one that it cannot join, at an option it does not
    know, without a command, or at a later call that fails. *)
Definition run_stopped (opts : list (ascii * bytes)) (args : list bytes) (l : calls) : Prop :=
  exists pre rest l0, opts = pre ++ rest /\ joined pre l0 /\
    ((exists path rest', rest = ("n"%char, path) :: rest' /\
       ((exists x, l = l0 ++ [Ev (Open path O_RDONLY_CLOEXEC) (SErr x)]) \/
        exists fd x, l = l0 ++ [Ev (Open path O_RDONLY_CLOEXEC) (SOk fd); Ev (Setns fd 0) (SErr x)])) \/
     l = l0 /\ (forall l out, ~ either (run_waits opts args) (run_execs opts args) l out) \/
     rest = [] /\ stopped_in (either (run_waits opts args) (run_execs opts args)) l).

Section proofs.
Context {S : Type} `{HT : TraceSpec ns S} (strerror : Z -> bytes).

Ltac stops := repeat first [apply c_exit_stops, trace_libc | apply stops_eprintf; [apply trace_libc|intros]].
Lemma perror_stops {A} msg s1 (R : A -> S -> Prop) : post R (stops trace s1) (perror_exit strerror msg s1).
Proof. apply perror_exit_stops, trace_libc. Qed.

Lemma ns_options_run {B} (usage : forall A, M S A) extra opts ok full s0 (k : Z * bool -> M S B) Q s :
  (forall A s1 (R : A -> S -> Prop), post R (stops trace s1) (usage A s1)) -> extra ∉ ns_table.*1 -> forall flags x,
  sofar s0 [] [] s ->
  (ns_known extra opts -> post Q (performs_for ok full s0) (k (Z.lor flags (chosen ns_table opts), x || bool_decide (extra ∈ opts)) s)) ->
  (~ ns_known extra opts -> forall l out, ~ full l out) ->
  post Q (performs_for ok full s0) ((ns_options usage extra opts flags x ≫= k) s).
Proof.
  intros Husage Hex. induction opts as [|o opts IH]; intros flags x Hs Hk Hb.
  { specialize (Hk (Forall_nil_2 _)). rewrite bool_decide_eq_false_2, orb_false_r in Hk by apply not_elem_of_nil.
    by rewrite chosen_nil, Z.lor_0_r in Hk. }
  assert (Hb' : ~ ns_known extra opts -> forall l out, ~ full l out) by (intros H; apply Hb; intros H'; by inversion H').
  cbn [ns_options]. destruct (ceq_spec o extra) as [-> |Ho].
  - apply IH; [done| |done]. intros H. specialize (Hk (Forall_cons_2 _ _ _ (or_introl eq_refl) H)).
    rewrite chosen_cons, Z.lor_assoc in Hk. rewrite (chosen_absent ns_table extra Hex), Z.lor_0_r in Hk.
    rewrite bool_decide_eq_true_2, orb_true_r in Hk by apply list_elem_of_here. exact Hk.
  - destruct (list_find _ ns_table) as [[i [c f]]|] eqn:E.
    + pose proof E as (Hi & Hco & _)%list_find_Some. cbn in Hco. subst c.
      assert (Hin : o ∈ ns_table.*1) by (apply list_elem_of_fmap; exists (o, f); split; [done|by eapply list_elem_of_lookup_2]).
      apply IH; [done| |done]. intros H. specialize (Hk (Forall_cons_2 (fun o => o = extra \/ o ∈ ns_table.*1) _ _ (or_intror Hin) H)).
      rewrite chosen_cons, (chosen_one ns_table o i f), Z.lor_assoc in Hk; [|by apply (bool_decide_unpack _)|done].
      rewrite (bool_decide_ext (extra ∈ o :: opts) (extra ∈ opts)) in Hk; [exact Hk|]. rewrite elem_of_cons. naive_solver.
    + apply post_bind. eapply performs_refused; [exact Hs|apply Husage|]. apply Hb. intros H. inversion H as [|? ? [Ho'|Ho'] _]; subst; [done|].
      apply list_elem_of_fmap in Ho' as ([c f] & -> & Ho'). by eapply list_find_None, Forall_forall in E.
Qed.

(** The rule for the calls of these programs; and that for a command, which ends a run. *)
Lemma ns_call {A B} ok full s0 (c : ns A) msg (k : A -> M S B) Q l out s :
  sofar s0 l out s -> (exists r l1 out, full (l ++ Ev c (SOk r) :: l1) out) ->
  (forall a s', sofar s0 (l ++ [Ev c (SOk a)]) out s' -> post Q (performs_for ok full s0) (k a s')) ->
  post Q (performs_for ok full s0) ((pchecked strerror (sys c) msg ≫= k) s).
Proof. apply performs_die. intros. apply perror_stops. Qed.
Lemma exec_run waits execs s0 cmd rest l out s :
  sofar s0 l out s -> execs (l ++ [exec_of (cmd :: rest)]) ->
  post (replaced execs s0) (performs_for waits (either waits execs) s0) (exec_command strerror cmd (cmd :: rest) s).
Proof.
  intros Hs He. unfold exec_command. rewrite <- bind_mret. eapply ns_call; [exact Hs| |].
  - exists tt, [], []. right. by split.
  - intros [] s' [Ht _]. exists (l ++ [exec_of (cmd :: rest)]). split; [exact Ht|done].
Qed.

Lemma unshare_spec name opts args s : launches (unshare_waits opts args) (unshare_execs opts args) s (unshare_main strerror name opts args s).
Proof.
  unfold unshare_main, launches. apply ns_options_run; [intros; unfold unshare_usage; stops|by apply (bool_decide_unpack _)|apply sofar_start| |].
  2: { intros Ho l out [(_ & H & _)|[(_ & H & _) _]]; by apply Ho. }
  intros Ho. rewrite Z.lor_0_l, orb_false_l. destruct args as [|cmd rest].
  { eapply performs_refused; [apply sofar_start|unfold unshare_usage; stops|]. by intros l out [(H & _)|[(H & _) _]]. }
  eapply ns_call; [apply sofar_start| |].
  { destruct (decide ("f"%char ∈ opts)) as [Hf|Hf].
    - exists tt, [Ev Fork (SOk 0); exec_of (cmd :: rest)], []. right. split; [|done]. split; [done|]. split; [done|]. by rewrite bool_decide_eq_true_2.
    - exists tt, [exec_of (cmd :: rest)], []. right. split; [|done]. split; [done|]. split; [done|]. by rewrite bool_decide_eq_false_2. }
  intros [] s1 Hs1. case_bool_decide as Hf.
  - eapply performs_try; [exact Hs1|]. intros pid s2 Hs2. case_bool_decide as Hpid.
    + destruct pid as [pid|]; [|done]. injection Hpid as ->. eapply exec_run; [exact Hs2|]. split; [done|]. split; [done|]. by rewrite bool_decide_eq_true_2.
    + eapply performs_try; [exact Hs2|]. intros r s3 Hs3. eapply performs_success; [exact Hs3|].
      do 4 (split; [done|]). exists pid, r. split; [|done]. intros ->. by apply Hpid.
  - eapply exec_run; [exact Hs1|]. split; [done|]. split; [done|]. by rewrite bool_decide_eq_false_2.
Qed.

Lemma ns_exec_spec name argv s : launches none (ns_execs argv) s (ns_exec strerror name argv s).
Proof.
  unfold launches. assert (Hu : ~ (exists path args, argv = path :: args /\ args <> []) ->
    post (replaced (ns_execs argv) s) (performs_for none (either none (ns_execs argv)) s)
      ((eprintf (name ++ str " /proc/PID/ns/FILE cmd [arg...]" ++ [newline]);; c_exit EXIT_FAILURE) s)).
  { intros Hno. eapply performs_refused; [apply sofar_start|stops|]. intros l out [[]|[(path & args & fd & ? & ? & _) _]]. apply Hno. by exists path, args. }
  destruct argv as [|path [|cmd rest]]; [apply Hu; by intros (? & ? & ? & _)|apply Hu; by intros (? & ? & [= <- <-] & ?)|]. clear Hu.
  unfold ns_exec. eapply ns_call; [apply sofar_start| |].
  { exists 0, [Ev (Setns 0 0) (SOk tt); exec_of (cmd :: rest)], []. right. split; [|done]. by exists path, (cmd :: rest), 0. }
  intros fd s1 Hs1. eapply ns_call; [exact Hs1| |].
  { exists tt, [exec_of (cmd :: rest)], []. right. split; [|done]. by exists path, (cmd :: rest), fd. }
  intros [] s2 Hs2. eapply exec_run; [exact Hs2|]. by exists path, (cmd :: rest), fd.
Qed.

Lemma child_exec_spec name opts args s : post (fun _ _ => False) (performs (child_exec_waits name opts args) s) (ns_child_exec strerror name opts args s).
Proof.
  unfold ns_child_exec. apply ns_options_run; [intros; unfold child_exec_usage; stops|by apply (bool_decide_unpack _)|apply sofar_start| |].
  2: { intros Ho l out (_ & H & _). by apply Ho. }
  intros Ho. rewrite Z.lor_0_l, orb_false_l. destruct args as [|cmd rest].
  { eapply performs_refused; [apply sofar_start|unfold child_exec_usage; stops|]. by intros l out (H & _). }
  eapply ns_call; [apply sofar_start| |].
  { exists 0. do 2 eexists. do 2 (split; [done|]). by exists 0, 0, 0. }
  intros stack s1 Hs1. eapply ns_call; [exact Hs1| |].
  { exists 0. do 2 eexists. do 2 (split; [done|]). by exists stack, 0, 0. }
  intros pid s2 Hs2.
  assert (Hend : forall out1 s3, sofar s ([Ev (MmapStack STACK_SIZE) (SOk stack)] ++ [Ev (Clone (stack + STACK_SIZE) (Z.lor (chosen ns_table opts) SIGCHLD) (cmd :: rest)) (SOk pid)]) out1 s3 ->
    out1 = (if bool_decide ("v"%char ∈ opts) then name ++ str ": PID of child created by clone() is " ++ print_dec pid ++ [newline] else []) ->
    post (fun _ _ => False) (performs (child_exec_waits name opts (cmd :: rest)) s)
      ((_ ← pchecked strerror (sys (Waitpid pid)) (str "waitpid");
        (if bool_decide ("v"%char ∈ opts) then printf (name ++ str ": terminating" ++ [newline]) else mret tt);;
        @c_exit S _ unit EXIT_SUCCESS) s3)).
  { intros out1 s3 Hs3 Hout. eapply ns_call; [exact Hs3| |].
    { exists 0. do 2 eexists. do 2 (split; [done|]). by exists stack, pid, 0. }
    intros pid' s4 Hs4. case_bool_decide as Hv; subst out1.
    - eapply performs_printf; [exact Hs4|]. intros s5 Hs5. eapply performs_success; [exact Hs5|]. do 2 (split; [done|]). exists stack, pid, pid'. split; [done|].
      rewrite bool_decide_eq_true_2 by done. by rewrite <- !app_assoc.
    - rewrite (bind_done (mret tt) _ s4 tt s4 eq_refl). eapply performs_success; [exact Hs4|]. do 2 (split; [done|]). exists stack, pid, pid'. split; [done|].
      by rewrite bool_decide_eq_false_2. }
  case_bool_decide as Hv.
  - eapply performs_printf; [exact Hs2|]. intros s3 Hs3. by eapply Hend.
  - rewrite (bind_done (mret tt) _ s2 tt s2 eq_refl). by eapply Hend.
Qed.

(** ns_run: the namespaces that have been joined for [pre], before the rest of the options. *)
Lemma joined_snoc_ns pre l path fd r : joined pre l ->
  joined (pre ++ [("n"%char, path)]) (l ++ [Ev (Open path O_RDONLY_CLOEXEC) (SOk fd); Ev (Setns fd 0) (SOk tt); Ev (Close fd) r]).
Proof.
  induction 1 as [|a opts l _ IH|p opts fd' r' l _ IH]; [apply (joined_ns path [] fd r []); constructor|by constructor|].
  rewrite <- app_assoc. by apply (joined_ns p _ fd' r').
Qed.
Lemma joined_snoc_fork pre l a : joined pre l -> joined (pre ++ [("f"%char, a)]) l.
Proof. induction 1; [repeat constructor|by constructor|by apply joined_ns]. Qed.
Lemma joined_total opts : Forall (fun o => o.1 = "n"%char \/ o.1 = "f"%char) opts -> exists l, joined opts l.
Proof.
  induction 1 as [|[o a] opts [Ho|Ho] _ [l IH]]; cbn in *; [exists []; constructor| |]; subst o.
  - eexists. by apply (joined_ns a opts 0 (SOk tt)).
  - exists l. by constructor.
Qed.
Lemma joined_known opts l : joined opts l -> Forall (fun o => o.1 = "n"%char \/ o.1 = "f"%char) opts.
Proof. induction 1; constructor; auto. Qed.
Lemma joined_app pre l rest l' : joined pre l -> joined rest l' -> joined (pre ++ rest) (l ++ l').
Proof. induction 1; intros Hr; [done|constructor; auto|]. rewrite <- app_assoc. apply joined_ns. auto. Qed.

Lemma run_none opts args : (args = [] \/ ~ Forall (fun o => o.1 = "n"%char \/ o.1 = "f"%char) opts) ->
  forall l out, ~ either (run_waits opts args) (run_execs opts args) l out.
Proof.
  intros H l out [(Ha & _ & _ & l' & _ & _ & Hj & _)|[(Ha & l' & Hj & _) _]]; apply joined_known in Hj; by destruct H.
Qed.
Lemma run_options_run {B} name opts0 args s0 (k : bool -> M S B) Q : forall opts pre l s,
  opts0 = pre ++ opts -> joined pre l -> sofar s0 l [] s ->
  (forall l s', joined opts0 l -> sofar s0 l [] s' -> post Q (ran s0 (run_waits opts0 args) (run_stopped opts0 args)) (k (bool_decide ("f"%char ∈ opts0.*1)) s')) ->
  post Q (ran s0 (run_waits opts0 args) (run_stopped opts0 args)) ((ns_run_options strerror name opts (bool_decide ("f"%char ∈ pre.*1)) ≫= k) s).
Proof.
  induction opts as [|[o a] opts IH]; intros pre l s Hopts Hj Hs Hk.
  { rewrite app_nil_r in Hopts. subst pre. by apply (Hk l). }
  assert (Hopts' : opts0 = (pre ++ [(o, a)]) ++ opts) by by rewrite <- app_assoc.
  cbn [ns_run_options]. destruct (ceq_spec o "n") as [-> |Hn].
  - replace (bool_decide ("f"%char ∈ pre.*1)) with (bool_decide ("f"%char ∈ (pre ++ [("n"%char, a)]).*1)).
    2: { apply bool_decide_ext. rewrite fmap_app, elem_of_app. cbn. rewrite list_elem_of_singleton. split; [by intros [|]|by left]. }
    assert (Hstop : forall l', (exists x, l' = l ++ [Ev (Open a O_RDONLY_CLOEXEC) (SErr x)]) \/
        (exists fd x, l' = l ++ [Ev (Open a O_RDONLY_CLOEXEC) (SOk fd); Ev (Setns fd 0) (SErr x)]) -> run_stopped opts0 args l').
    { intros l' Hl'. exists pre, (("n"%char, a) :: opts), l. split; [done|]. split; [done|]. left. by exists a, opts. }
    rewrite bind_bind. eapply run_die; [intros; apply perror_stops|exact Hs| |].
    2: { intros x e He. split; [done|]. apply Hstop. left. by exists x. }
    intros fd s1 Hs1. rewrite bind_bind. eapply run_die; [intros; apply perror_stops|exact Hs1| |].
    2: { intros x e He. split; [done|]. apply Hstop. right. exists fd, x. by rewrite <- app_assoc. }
    intros [] s2 Hs2. rewrite bind_bind. rewrite <- app_assoc in Hs2.
    eapply run_try; [exact Hs2|intros r s3 Hs3|intros r s3 Hs3]; rewrite <- app_assoc in Hs3.
    + refine (IH (pre ++ [("n"%char, a)]) _ s3 Hopts' _ Hs3 Hk). by apply (joined_snoc_ns pre l a fd (SOk r)).
    + refine (IH (pre ++ [("n"%char, a)]) _ s3 Hopts' _ Hs3 Hk). by apply (joined_snoc_ns pre l a fd (SErr r)).
  - destruct (ceq_spec o "f") as [-> |Hf].
    + replace true with (bool_decide ("f"%char ∈ (pre ++ [("f"%char, a)]).*1)).
      2: { apply bool_decide_eq_true_2. rewrite fmap_app, elem_of_app. right. by left. }
      refine (IH (pre ++ [("f"%char, a)]) l s Hopts' _ Hs Hk). by apply joined_snoc_fork.
    + apply post_bind. eapply run_stops; [exact Hs|unfold ns_run_usage; stops|]. intros e He. split; [done|].
      exists pre, ((o, a) :: opts), l. split; [done|]. split; [done|]. right. left. split; [done|]. apply run_none. right.
      rewrite Hopts, Forall_app, Forall_cons. cbn. tauto.
Qed.
Lemma ns_run_spec name opts args s :
  post (replaced (run_execs opts args) s) (ran s (run_waits opts args) (run_stopped opts args)) (ns_run strerror name opts args s).
Proof.
  unfold ns_run. replace false with (bool_decide ("f"%char ∈ ([] : list (ascii * bytes)).*1)) by done.
  apply (run_options_run name opts args s _ _ opts [] [] s); [done|constructor|apply sofar_start|]. intros l s1 Hj Hs1.
  destruct args as [|cmd rest].
  { eapply run_stops; [exact Hs1|unfold ns_run_usage; stops|]. intros e He. split; [done|].
    exists opts, [], l. split; [by rewrite app_nil_r|]. split; [done|]. right. left. split; [done|]. apply run_none. by left. }
  assert (Hlate : forall l, stopped_in (either (run_waits opts (cmd :: rest)) (run_execs opts (cmd :: rest))) l -> run_stopped opts (cmd :: rest) l).
  { intros l' Hl'. exists opts, [], l. split; [by rewrite app_nil_r|]. split; [done|]. right. by right. }
  set (fk := if bool_decide ("f"%char ∈ opts.*1) then [Ev Fork (SOk 0)] else [] : calls).
  assert (Hexec : forall s2, sofar s (l ++ fk) [] s2 ->
    post (replaced (run_execs opts (cmd :: rest)) s) (ran s (run_waits opts (cmd :: rest)) (run_stopped opts (cmd :: rest))) (exec_command strerror cmd (cmd :: rest) s2)).
  { intros s2 Hs2. assert (Hr : run_execs opts (cmd :: rest) ((l ++ fk) ++ [exec_of (cmd :: rest)])).
    { split; [done|]. exists l. split; [done|]. by rewrite <- app_assoc. }
    unfold exec_command. rewrite <- bind_mret. eapply run_die; [intros; apply perror_stops|exact Hs2| |].
    - intros [] s3 [Ht _]. by eexists.
    - intros x e He. split; [done|]. apply Hlate. eexists unit, _, x, tt, (l ++ fk), [], []. split; [done|]. right. by split. }
  case_bool_decide as Hf; [|apply Hexec; by rewrite app_nil_r].
  eapply run_die; [intros; apply perror_stops|exact Hs1| |].
  - intros pid s2 Hs2. destruct (Z.eqb_spec pid 0) as [-> |Hpid]; [by apply Hexec|].
    eapply run_die; [intros; apply perror_stops|exact Hs2| |].
    + intros pid' s3 Hs3. eapply run_success; [exact Hs3|]. do 3 (split; [done|]). exists l, pid, pid'. do 2 (split; [done|]). by rewrite <- app_assoc.
    + intros x e He. split; [done|]. apply Hlate. eexists Z, _, x, 0, (l ++ [Ev Fork (SOk pid)]), [], []. split; [done|]. left.
      do 3 (split; [done|]). exists l, pid, 0. do 2 (split; [done|]). by rewrite <- app_assoc.
  - intros x e He. split; [done|]. apply Hlate. eexists Z, _, x, 0, l, [exec_of (cmd :: rest)], []. split; [done|]. right. split; [|done].
    split; [done|]. exists l. split; [done|]. by rewrite bool_decide_eq_true_2.
Qed.

(** A process that clone() starts runs the command, or fails. *)
Lemma childFunc_spec cmd rest s : launches none (fun l => l = [exec_of (cmd :: rest)]) s (childFunc strerror (cmd :: rest) s).
Proof. apply (exec_run none (fun l => l = [exec_of (cmd :: rest)]) s cmd rest [] []); [apply sofar_start|done]. Qed.

(** The programs that run a command in other namespaces. unshare leaves exactly the namespaces of its options, in
    whatever order they come, before the command replaces it or, with -f, before it forks the child that the command
    replaces, while the parent waits (also when fork() failed and there is no child); ns_exec joins the namespace of its argument first; ns_run joins those of its
    options -n in their order, then forks and waits if -f is among them; ns_child_exec starts a child in new
    namespaces that runs the command, waits for it and says so with -v. A call that fails ends them, so
    that the command never runs in a namespace it was not meant for. *)
Theorem namespace_programs_correct name s :
  (forall opts args, launches (unshare_waits opts args) (unshare_execs opts args) s (unshare_main strerror name opts args s)) /\
  (forall argv, launches none (ns_execs argv) s (ns_exec strerror name argv s)) /\
  (forall opts args, post (replaced (run_execs opts args) s) (ran s (run_waits opts args) (run_stopped opts args)) (ns_run strerror name opts args s)) /\
  (forall opts args, post (fun _ _ => False) (performs (child_exec_waits name opts args) s) (ns_child_exec strerror name opts args s)) /\
  (forall cmd rest, launches none (fun l => l = [exec_of (cmd :: rest)]) s (childFunc strerror (cmd :: rest) s)).
Proof.
  split_and!; intros; [apply unshare_spec|apply ns_exec_spec|apply ns_run_spec|apply child_exec_spec|apply childFunc_spec].
Qed.
End proofs.

(** * A run *)

(** fork() fails. *)
Definition no_fork (l : list (event ns)) (A : Type) (c : ns A) : sysres A :=
  match c in ns A return sysres A with Fork => SErr EAGAIN | Wait => SErr ECHILD | Unshare _ => SOk tt | Execvp _ _ => SOk tt | _ => SErr EINVAL end.
#[local] Instance no_fork_os : TraceOS ns (toy (C := ns)) := toy_os no_fork.
(** The program succeeds although the command has never run. *)
Example unshare_no_child :
  let r := unshare_main (S := toy) (fun _ => []) (str "unshare") ["p"; "f"]%char [str "sh"] toy0 in
  r.1 = Exited EXIT_SUCCESS /\ r.2.2 = [Ev (Unshare CLONE_NEWPID) (SOk tt); Ev Fork (SErr EAGAIN); Ev Wait (SErr ECHILD)].
Proof. by vm_compute. Qed.
Example unshare_run :
  let r := unshare_main (S := toy) (fun _ => []) (str "unshare") ["U"; "m"; "U"]%char [str "sh"; str "-l"] toy0 in
  r.1 = Done tt /\ r.2.2 = [Ev (Unshare (CLONE_NEWUSER + CLONE_NEWNS)) (SOk tt); Ev (Execvp (str "sh") [str "sh"; str "-l"]) (SOk tt)].
Proof. by vm_compute. Qed.
