(* ===== verification/Launchers.v ===== *)
(** Programs that run a command with other credentials: book-src/cap/cap_launcher.c and
    namespaces/cred_launcher.c. *)
From S2P Require Import Prelude CLib Sys ErrorFunctions Calls GetNum Trace.
#[local] Open Scope Z_scope.

Record passwd := Passwd { pw_uid : Z; pw_gid : Z }.

(** getgrouplist() with a null pointer tells the number of groups. modifyCapSetting() is in Caps,
    display_creds_and_caps() in userns_functions.c; execvp() succeeds when the command replaces the program. *)
Inductive cred : Type -> Type :=
| Geteuid : cred Z
| SetSecurebits : cred unit
| Getpwnam (user : bytes) : cred passwd
| GroupCount (user : bytes) (gid : Z) : cred Z
| Calloc (n : Z) : cred unit
| Getgrouplist (user : bytes) (gid n : Z) : cred (list Z)
| Setgroups (groups : list Z) : cred unit
| Setresgid (r e s : Z) : cred unit
| Setresuid (r e s : Z) : cred unit
| CapFromName (name : bytes) : cred Z
| RaiseInheritable (cap : Z) : cred unit
| RaiseAmbient (cap : Z) : cred unit
| DisplayCreds (prefix : bytes) : cred unit
| Execvp (file : bytes) (argv : list bytes) : cred unit.

(** The tokens that strtok() finds one after the other. *)
Fixpoint strtok_all (delim : ascii) (tok s : bytes) : list bytes :=
  match s with
  | [] => if tok is [] then [] else [tok]
  | c :: s => if ceq c delim then (if tok is [] then strtok_all delim [] s else tok :: strtok_all delim [] s) else strtok_all delim (tok ++ [c]) s
  end.

Section programs.
Context {S : Type} `{HL : HasLibc S} `{HT : TraceOS cred S}.
Context (strerror : Z -> bytes).
#[local] Abbreviation Sys c := (sys (C := cred) c).
#[local] Abbreviation checked c msg := (echecked strerror (sys (C := cred) c) msg).
(** [if (call == -1) { fprintf(stderr, ...); exit(EXIT_FAILURE); }], with the error or without. *)
#[local] Abbreviation said c msg := (checked_by (fun m => eprintf m;; c_exit EXIT_FAILURE) (sys (C := cred) c) msg).
#[local] Abbreviation said_error c msg := (checked_by (fun m => e ← get_errno; eprintf (m ++ str "(" ++ strerror e ++ str ")" ++ [newline]);; c_exit EXIT_FAILURE) (sys (C := cred) c) msg).

(** Source: book-src/cap/cap_launcher.c:48-96 (setCredentials). *)
Definition setCredentials (user : bytes) : M S unit :=
  pwd ← said (Getpwnam user) (str "Unknown user: " ++ user ++ [newline]);
  ngroups ← call (Sys (GroupCount user (pw_gid pwd)));
  let ngroups := default 0 ngroups in
  checked (Calloc ngroups) (str "calloc");;
  groups ← checked (Getgrouplist user (pw_gid pwd) ngroups) (str "getgrouplist");
  checked (Setgroups groups) (str "setgroups");;
  checked (Setresgid (pw_gid pwd) (pw_gid pwd) (pw_gid pwd)) (str "setresgid");;
  checked (Setresuid (pw_uid pwd) (pw_uid pwd) (pw_uid pwd)) (str "setresuid").
(** Source: book-src/cap/cap_launcher.c:98-136 (setAmbientCapabilities). *)
Definition setAmbientCapabilities (capList : bytes) : M S unit :=
  for_each (strtok_all "," [] capList) (fun p =>
    cap ← said (CapFromName p) (str "Unrecognized capability name: " ++ p ++ [newline]);
    said_error (RaiseInheritable cap) (str "Could not raise '" ++ p ++ str "' inheritable capability ");;
    said_error (RaiseAmbient cap) (str "Could not raise '" ++ p ++ str "' ambient capability ")).
(** Source: book-src/cap/cap_launcher.c:35-46 (usage). *)
Definition launcher_usage {A} (name : bytes) : M S A :=
  eprintf (str "Usage: " ++ name ++ str " user cap,... cmd arg..." ++ [newline]);;
  eprintf (chr 9 :: str "'user' is the user with whose credentials" ++ [newline]);;
  eprintf (chr 9 :: chr 9 :: str "the program is to be launched" ++ [newline]);;
  eprintf (chr 9 :: str "'cap,...' is the set of capabilities with which" ++ [newline]);;
  eprintf (chr 9 :: chr 9 :: str "the program is to be launched" ++ [newline]);;
  eprintf (chr 9 :: str "'cmd' and 'arg...' specify the command plus" ++ [newline]);;
  eprintf (chr 9 :: chr 9 :: str "for the program that is to be launched" ++ [newline]);;
  c_exit EXIT_FAILURE.
(** It returns here when the command has replaced it; so does cred_launcher. *)
(** Source: book-src/cap/cap_launcher.c:138-161 (main). *)
Definition cap_launcher (name : bytes) (argv : list bytes) : M S unit :=
  match argv with
  | user :: caps :: (cmd :: _) as args =>
      if streq user (str "--help") then launcher_usage name
      else
        euid ← call (Sys Geteuid);
        if negb (bool_decide (euid = Some 0)) then fatal strerror (str "Must be run as root")
        else
          checked SetSecurebits (str "prctl");;
          setCredentials user;;
          setAmbientCapabilities caps;;
          checked (Execvp cmd args) (str "execvp")
  | _ => launcher_usage name
  end.

(** Source: book-src/namespaces/cred_launcher.c:31-37 (usage). *)
Definition cred_usage {A} (name : bytes) : M S A :=
  eprintf (str "Usage: " ++ name ++ str " [-u UID] [-g GID] [-v] command [arg...]" ++ [newline]);;
  c_exit EXIT_FAILURE.
(** Source: book-src/namespaces/cred_launcher.c:46-56 (main, options). *)
Fixpoint cred_options (name : bytes) (opts : list (ascii * bytes)) (newgid newuid : Z) (verbose : bool) : M S (Z * Z * bool) :=
  match opts with
  | [] => mret (newgid, newuid, verbose)
  | (o, optarg) :: opts =>
      if ceq o "g" then cred_options name opts (atoi optarg) newuid verbose
      else if ceq o "u" then cred_options name opts newgid (atoi optarg) verbose
      else if ceq o "v" then cred_options name opts newgid newuid true
      else cred_usage name
  end.
(** Source: book-src/namespaces/cred_launcher.c:39-85 (main). *)
Definition cred_launcher (name : bytes) (opts : list (ascii * bytes)) (args : list bytes) : M S unit :=
  '(newgid, newuid, verbose) ← cred_options name opts (-1) (-1) false;
  match args with
  | [] => cred_usage name
  | cmd :: _ =>
      (if negb (newgid =? -1) then checked (Setresgid newgid newgid newgid) (str "setresuid") else mret tt);;
      (if negb (newuid =? -1) then checked (Setresuid newuid newuid newuid) (str "setresuid") else mret tt);;
      (if (verbose : bool) then _ ← call (Sys (DisplayCreds [])); mret tt else mret tt);;
      checked (Execvp cmd args) (str "execvp")
  end.
End programs.

(** * What is proved of them *)

Lemma strtok_token d tok c s : tok ++ c <> [] -> d ∉ c -> strtok_all d tok (c ++ d :: s) = (tok ++ c) :: strtok_all d [] s.
Proof.
  revert tok. induction c as [|x c IH]; intros tok Ht Hd; cbn [app strtok_all].
  - rewrite app_nil_r in *. destruct (ceq_spec d d); [|done]. by destruct tok.
  - apply not_elem_of_cons in Hd as [Hx Hd]. destruct (ceq_spec x d); [congruence|]. rewrite IH; [by rewrite <- app_assoc| |done].
    by rewrite <- app_assoc.
Qed.


#[local] Abbreviation calls := (list (event cred)).

Definition done_ (c : cred unit) : event cred := Ev c (SOk tt).
(** The calls that make the process one of the user. *)
Definition becomes (user : bytes) (l : calls) : Prop :=
  exists u g n groups, l = [Ev (Getpwnam user) (SOk (Passwd u g)); Ev (GroupCount user g) n; done_ (Calloc (if n is SOk k then k else 0));
    Ev (Getgrouplist user g (if n is SOk k then k else 0)) (SOk groups); done_ (Setgroups groups); done_ (Setresgid g g g); done_ (Setresuid u u u)].
(** The capabilities of a list, raised one after the other, first in the inheritable and then in the ambient set. *)
Definition raised (names : list bytes) (l : calls) : Prop :=
  exists caps, length caps = length names /\
    l = concat (zip_with (fun p c => [Ev (CapFromName p) (SOk c); done_ (RaiseInheritable c); done_ (RaiseAmbient c)]) names caps).
Definition cap_launches (argv : list bytes) (l : calls) (out : bytes) : Prop :=
  exists user caps cmd args l1 l2, argv = user :: caps :: cmd :: args /\ user <> str "--help" /\ out = [] /\
    becomes user l1 /\ raised (strtok_all "," [] caps) l2 /\
    l = [Ev Geteuid (SOk 0); done_ SetSecurebits] ++ l1 ++ l2 ++ [done_ (Execvp cmd (cmd :: args))].
Definition cred_launches (opts : list (ascii * bytes)) (args : list bytes) (l : calls) (out : bytes) : Prop :=
  exists cmd rest, args = cmd :: rest /\ Forall (fun o => o.1 ∈ ["g"; "u"; "v"]%char) opts /\ out = [] /\
    let g := last_arg "g" opts (-1) in let u := last_arg "u" opts (-1) in
    exists r, l = (if decide (g = -1) then [] else [done_ (Setresgid g g g)]) ++ (if decide (u = -1) then [] else [done_ (Setresuid u u u)]) ++
      (if decide ("v"%char ∈ opts.*1) then [Ev (DisplayCreds []) r] else []) ++ [done_ (Execvp cmd args)].
(** cap_launcher does nothing unless it runs as root. *)
Definition cap_stops (argv : list bytes) (l : calls) : Prop :=
  stopped_in (cap_launches argv) l \/ (l = [] /\ forall l out, ~ cap_launches argv l out) \/ exists r, r <> SOk 0 /\ l = [Ev Geteuid r].

Lemma raised_nil : raised [] [].
Proof. by exists []. Qed.
Lemma raised_cons p names c l : raised names l -> raised (p :: names) (Ev (CapFromName p) (SOk c) :: done_ (RaiseInheritable c) :: done_ (RaiseAmbient c) :: l).
Proof. intros (caps & Hc & ->). exists (c :: caps). split; [cbn; by rewrite Hc|done]. Qed.
Lemma raised_total names : exists l, raised names l.
Proof. induction names as [|p names [l IH]]; eexists; [exact raised_nil|by apply (raised_cons p names 0)]. Qed.
Lemma raised_app names1 names2 l1 l2 : raised names1 l1 -> raised names2 l2 -> raised (names1 ++ names2) (l1 ++ l2).
Proof.
  intros (caps1 & H1 & ->) (caps2 & H2 & ->). exists (caps1 ++ caps2). split; [by rewrite !length_app, H1, H2|].
  by rewrite zip_with_app, concat_app.
Qed.

Section proofs.
Context {S : Type} `{HT : TraceSpec cred S} (strerror : Z -> bytes).
Ltac stops := repeat first [apply c_exit_stops, trace_libc | apply stops_eprintf; [apply trace_libc|intros]].

Definition reached (full : calls -> bytes -> Prop) (s0 : S) (_ : unit) (s : S) : Prop := exists l out, trace s = trace s0 ++ l /\ full l out.
Definition no_success (l : calls) (out : bytes) : Prop := False.

Section launcher.
Context (s0 : S) (user caps cmd : bytes) (args : list bytes) (Huser : user <> str "--help").
Let argv : list bytes := user :: caps :: cmd :: args.
#[local] Abbreviation Launches := (ran s0 no_success (cap_stops argv)).

(** One more call on the way to a launch. *)
Lemma launcher_call {A B} (c : cred A) die msg (k : A -> M S B) Q l s :
  (forall s1 (R : A -> S -> Prop), post R (stops trace s1) (die msg s1)) -> sofar s0 l [] s ->
  (exists r l1 out, cap_launches argv (l ++ Ev c (SOk r) :: l1) out) ->
  (forall a s', sofar s0 (l ++ [Ev c (SOk a)]) [] s' -> post Q Launches (k a s')) ->
  post Q Launches ((checked_by die (sys c) msg ≫= k) s).
Proof.
  intros Hdie Hs (r & l1 & out & Hf) Hk. eapply run_die; [exact Hdie|exact Hs|exact Hk|].
  intros x e He. split; [done|]. left. by exists A, c, x, r, l, l1, out.
Qed.
Lemma errExit_dies {A} msg s1 (R : A -> S -> Prop) : post R (stops trace s1) (errExit strerror msg s1).
Proof. apply errExit_stops, trace_libc. Qed.
Lemma said_dies {A} msg s1 (R : A -> S -> Prop) : post R (stops trace s1) ((eprintf msg;; c_exit EXIT_FAILURE) s1).
Proof. stops. Qed.
Lemma said_error_dies {A} (msg : bytes) s1 (R : A -> S -> Prop) :
  post R (stops trace s1) ((e ← get_errno; eprintf (msg ++ str "(" ++ strerror e ++ str ")" ++ [newline]);; c_exit EXIT_FAILURE) s1).
Proof. rewrite (bind_done get_errno _ s1 (lc_errno (libc_of s1)) s1) by done. stops. Qed.

Lemma launch_of l1 l2 : becomes user l1 -> raised (strtok_all "," [] caps) l2 ->
  cap_launches argv ([Ev Geteuid (SOk 0); done_ SetSecurebits] ++ l1 ++ l2 ++ [done_ (Execvp cmd (cmd :: args))]) [].
Proof. intros H1 H2. by exists user, caps, cmd, args, l1, l2. Qed.

Lemma setCredentials_run {B} (k : unit -> M S B) Q s :
  sofar s0 [Ev Geteuid (SOk 0); done_ SetSecurebits] [] s ->
  (forall l1 s', becomes user l1 -> sofar s0 ([Ev Geteuid (SOk 0); done_ SetSecurebits] ++ l1) [] s' -> post Q Launches (k tt s')) ->
  post Q Launches ((setCredentials strerror user ≫= k) s).
Proof.
  intros Hs Hk. destruct (raised_total (strtok_all "," [] caps)) as [l2 Hl2]. unfold setCredentials.
  set (them := fun u g n gs => [Ev (Getpwnam user) (SOk (Passwd u g)); Ev (GroupCount user g) n; done_ (Calloc (if n is SOk k then k else 0));
    Ev (Getgrouplist user g (if n is SOk k then k else 0)) (SOk gs); done_ (Setgroups gs); done_ (Setresgid g g g); done_ (Setresuid u u u)]).
  assert (Hb : forall u g n gs, becomes user (them u g n gs)) by (intros; by eexists _, _, _, _).
  assert (Hf : forall pre x rest u g n gs, pre ++ x :: rest = [Ev Geteuid (SOk 0); done_ SetSecurebits] ++ them u g n gs ->
    exists l out, cap_launches argv (pre ++ x :: l) out).
  { intros pre x rest u g n gs E. exists (rest ++ l2 ++ [done_ (Execvp cmd (cmd :: args))]), [].
    rewrite app_comm_cons, app_assoc, E, <- app_assoc. by apply launch_of. }
  rewrite bind_bind. eapply launcher_call; [intros; apply said_dies|exact Hs|exists (Passwd 0 0); refine (Hf _ _ _ 0 0 (SOk 0) [] _); reflexivity|].
  intros [u g] s1 Hs1. cbn [pw_uid pw_gid app] in *. rewrite bind_bind.
  assert (Hgo : forall n s2, sofar s0 ([Ev Geteuid (SOk 0); done_ SetSecurebits; Ev (Getpwnam user) (SOk (Passwd u g)); Ev (GroupCount user g) n]) [] s2 ->
    post Q Launches (((let ngroups := default 0 (if n is SOk k then Some k else None) in
      echecked strerror (sys (Calloc ngroups)) (str "calloc");;
      groups ← echecked strerror (sys (Getgrouplist user g ngroups)) (str "getgrouplist");
      echecked strerror (sys (Setgroups groups)) (str "setgroups");;
      echecked strerror (sys (Setresgid g g g)) (str "setresgid");;
      echecked strerror (sys (Setresuid u u u)) (str "setresuid")) ≫= k) s2)).
  2: { eapply run_try; [exact Hs1|intros n s2 Hs2; exact (Hgo (SOk n) s2 Hs2)|intros x s2 Hs2; exact (Hgo (SErr x) s2 Hs2)]. }
  intros n s2 Hs2. replace (default 0 (if n is SOk k then Some k else None)) with (if n is SOk k then k else 0) by by destruct n.
  cbv zeta. set (cnt := if n is SOk k then k else 0) in *. rewrite bind_bind.
  eapply launcher_call; [intros; apply errExit_dies|exact Hs2|exists tt; refine (Hf _ _ _ u g n [] _); reflexivity|]. intros [] s3 Hs3. cbn [app] in Hs3.
  rewrite bind_bind. eapply launcher_call; [intros; apply errExit_dies|exact Hs3|exists []; refine (Hf _ _ _ u g n [] _); reflexivity|]. intros gs s4 Hs4. cbn [app] in Hs4.
  rewrite bind_bind. eapply launcher_call; [intros; apply errExit_dies|exact Hs4|exists tt; refine (Hf _ _ _ u g n gs _); reflexivity|]. intros [] s5 Hs5. cbn [app] in Hs5.
  rewrite bind_bind. eapply launcher_call; [intros; apply errExit_dies|exact Hs5|exists tt; refine (Hf _ _ _ u g n gs _); reflexivity|]. intros [] s6 Hs6. cbn [app] in Hs6.
  eapply launcher_call; [intros; apply errExit_dies|exact Hs6|exists tt; refine (Hf _ _ _ u g n gs _); reflexivity|]. intros [] s7 Hs7. cbn [app] in Hs7.
  eapply Hk; [apply (Hb u g n gs)|exact Hs7].
Qed.

Lemma setAmbient_run {B} l1 (k : unit -> M S B) Q : becomes user l1 -> forall names past l2 s,
  past ++ names = strtok_all "," [] caps -> raised past l2 -> sofar s0 ([Ev Geteuid (SOk 0); done_ SetSecurebits] ++ l1 ++ l2) [] s ->
  (forall l2 s', raised (strtok_all "," [] caps) l2 -> sofar s0 ([Ev Geteuid (SOk 0); done_ SetSecurebits] ++ l1 ++ l2) [] s' -> post Q Launches (k tt s')) ->
  post Q Launches ((for_each names (fun p =>
    cap ← checked_by (fun m => eprintf m;; c_exit EXIT_FAILURE) (sys (CapFromName p)) (str "Unrecognized capability name: " ++ p ++ [newline]);
    checked_by (fun m => e ← get_errno; eprintf (m ++ str "(" ++ strerror e ++ str ")" ++ [newline]);; c_exit EXIT_FAILURE) (sys (RaiseInheritable cap)) (str "Could not raise '" ++ p ++ str "' inheritable capability ");;
    checked_by (fun m => e ← get_errno; eprintf (m ++ str "(" ++ strerror e ++ str ")" ++ [newline]);; c_exit EXIT_FAILURE) (sys (RaiseAmbient cap)) (str "Could not raise '" ++ p ++ str "' ambient capability ")) ≫= k) s).
Proof.
  intros Hl1. induction names as [|p names IH]; intros past l2 s Hpast Hl2 Hs Hk.
  { rewrite app_nil_r in Hpast. subst past. by apply (Hk l2). }
  destruct (raised_total names) as [l3 Hl3].
  cbn [for_each]. rewrite !bind_bind.
  remember ([Ev Geteuid (SOk 0); done_ SetSecurebits] ++ l1 ++ l2) as P eqn:HP.
  assert (Hf : forall c pre x rest, pre ++ x :: rest = [Ev (CapFromName p) (SOk c); done_ (RaiseInheritable c); done_ (RaiseAmbient c)] ->
    exists l out, cap_launches argv ((P ++ pre) ++ x :: l) out).
  { intros c pre x rest E. exists (rest ++ l3 ++ [done_ (Execvp cmd (cmd :: args))]), [].
    assert (Hr : raised (strtok_all "," [] caps) (l2 ++ (pre ++ x :: rest) ++ l3)).
    { rewrite <- Hpast, E. apply raised_app; [done|]. by apply raised_cons. }
    pose proof (launch_of l1 _ Hl1 Hr) as H. subst P.
    match goal with H : cap_launches _ ?a _ |- cap_launches _ ?b _ => replace b with a; [exact H|] end.
    rewrite <- ?app_assoc. cbn [app]. by rewrite <- ?app_assoc. }
  eapply launcher_call; [intros; apply said_dies|exact Hs| |].
  { exists 0. destruct (Hf 0 [] (Ev (CapFromName p) (SOk 0)) _ eq_refl) as (l & out & H). exists l, out. by rewrite app_nil_r in H. }
  intros c s1 Hs1. rewrite ?bind_bind.
  eapply launcher_call; [intros; apply said_error_dies|exact Hs1|exists tt; refine (Hf c _ _ _ _); reflexivity|].
  intros [] s2 Hs2. rewrite <- app_assoc in Hs2. cbn [app] in Hs2.
  eapply launcher_call; [intros; apply said_error_dies|exact Hs2|exists tt; refine (Hf c _ _ _ _); reflexivity|].
  intros [] s3 Hs3. rewrite <- app_assoc in Hs3. cbn [app] in Hs3. subst P. rewrite <- !app_assoc in Hs3.
  eapply (IH (past ++ [p]) (l2 ++ [_; _; _])); [by rewrite <- app_assoc| |exact Hs3|exact Hk].
  apply raised_app; [done|]. apply (raised_cons p [] c []), raised_nil.
Qed.

Lemma cap_launcher_run name s : s = s0 -> post (reached (cap_launches argv) s0) Launches (cap_launcher strerror name argv s).
Proof.
  intros ->. unfold argv, cap_launcher. cbn [cap_launcher]. unfold streq. rewrite bool_decide_eq_false_2 by done.
  assert (Hrefuse : forall r s1, r <> SOk 0 -> sofar s0 [Ev Geteuid r] [] s1 ->
    post (reached (cap_launches argv) s0) Launches (fatal strerror (str "Must be run as root") s1)).
  { intros r s1 Hr Hs1. eapply run_stops; [exact Hs1|apply fatal_stops, trace_libc|]. intros e He. split; [done|]. right. right. by exists r. }
  destruct (raised_total (strtok_all "," [] caps)) as [l2 Hl2].
  assert (Hb : becomes user [Ev (Getpwnam user) (SOk (Passwd 0 0)); Ev (GroupCount user 0) (SOk 0); done_ (Calloc 0);
    Ev (Getgrouplist user 0 0) (SOk []); done_ (Setgroups []); done_ (Setresgid 0 0 0); done_ (Setresuid 0 0 0)]) by by eexists 0, 0, (SOk 0), [].
  eapply run_try; [apply sofar_start| |].
  2: { intros x s1 Hs1. cbn. by apply (Hrefuse (SErr x)). }
  intros euid s1 Hs1. case_bool_decide as He; cbn [negb]; [|apply (Hrefuse (SOk euid)); [congruence|done]].
  injection He as ->. eapply launcher_call; [intros; apply errExit_dies|exact Hs1| |].
  { exists tt. eexists _, _. exact (launch_of _ _ Hb Hl2). }
  intros [] s2 Hs2. apply setCredentials_run; [exact Hs2|]. intros l1 s3 Hl1 Hs3. unfold setAmbientCapabilities.
  eapply (setAmbient_run l1 _ _ Hl1 _ [] []); [done|exact raised_nil|by rewrite app_nil_r|]. intros l2' s4 Hl2' Hs4.
  rewrite <- bind_mret. eapply launcher_call; [intros; apply errExit_dies|exact Hs4| |].
  { exists tt, [], []. rewrite <- !app_assoc. by apply launch_of. }
  intros [] s5 [Ht _]. eexists _, []. split; [exact Ht|]. rewrite <- !app_assoc. by apply launch_of.
Qed.
End launcher.
Lemma cap_launcher_spec name argv s : post (reached (cap_launches argv) s) (ran s no_success (cap_stops argv)) (cap_launcher strerror name argv s).
Proof.
  assert (Hu : (forall l out, ~ cap_launches argv l out) -> post (reached (cap_launches argv) s) (ran s no_success (cap_stops argv)) (launcher_usage name s)).
  { intros Hno. eapply run_stops; [apply sofar_start|unfold launcher_usage; stops|]. intros e He. split; [done|]. right. by left. }
  destruct argv as [|user [|caps [|cmd args]]]; [by apply Hu; intros l out (? & ? & ? & ? & ? & ? & ? & _)..|].
  destruct (decide (user = str "--help")) as [-> |Hh]; [|by apply cap_launcher_run].
  unfold cap_launcher, streq. rewrite bool_decide_eq_true_2 by done. apply Hu.
  intros l out (user & caps' & cmd' & args' & ? & ? & E & Hn & _). injection E as <- _ _ _. by apply Hn.
Qed.

Lemma cred_options_run {B} name opts ok full s0 (k : Z * Z * bool -> M S B) Q s : forall pre,
  sofar s0 [] [] s -> Forall (fun o => o.1 ∈ ["g"; "u"; "v"]%char) pre ->
  (Forall (fun o => o.1 ∈ ["g"; "u"; "v"]%char) (pre ++ opts) ->
    post Q (performs_for ok full s0) (k (last_arg "g" (pre ++ opts) (-1), last_arg "u" (pre ++ opts) (-1), bool_decide ("v"%char ∈ (pre ++ opts).*1)) s)) ->
  (~ Forall (fun o => o.1 ∈ ["g"; "u"; "v"]%char) (pre ++ opts) -> forall l out, ~ full l out) ->
  post Q (performs_for ok full s0) ((cred_options name opts (last_arg "g" pre (-1)) (last_arg "u" pre (-1)) (bool_decide ("v"%char ∈ pre.*1)) ≫= k) s).
Proof.
  induction opts as [|[o a] opts IH]; intros pre Hs Hpre Hk Hb; [rewrite app_nil_r in Hk; by apply Hk|].
  replace (pre ++ (o, a) :: opts) with ((pre ++ [(o, a)]) ++ opts) in * by by rewrite <- app_assoc.
  assert (Hgo : o ∈ ["g"; "u"; "v"]%char -> post Q (performs_for ok full s0) ((cred_options name opts (last_arg "g" (pre ++ [(o, a)]) (-1))
    (last_arg "u" (pre ++ [(o, a)]) (-1)) (bool_decide ("v"%char ∈ (pre ++ [(o, a)]).*1)) ≫= k) s)).
  { intros Ho. apply IH; [done| |done|done]. apply Forall_app. split; [done|by apply Forall_singleton]. }
  assert (Hv : bool_decide ("v"%char ∈ (pre ++ [(o, a)]).*1) = bool_decide ("v"%char ∈ pre.*1) || bool_decide (o = "v"%char)).
  { apply Bool.eq_true_iff_eq. rewrite orb_true_iff, !bool_decide_eq_true, mem_snoc. tauto. }
  rewrite Hv, !last_arg_snoc in Hgo. cbn [fst snd] in Hgo. clear IH Hv. cbn [cred_options].
  destruct (ceq_spec o "g") as [-> |Hg]; [cbn in Hgo; rewrite orb_false_r in Hgo; apply Hgo; by apply (bool_decide_unpack _)|].
  destruct (ceq_spec o "u") as [-> |Hu]; [cbn in Hgo; rewrite orb_false_r in Hgo; apply Hgo; by apply (bool_decide_unpack _)|].
  destruct (ceq_spec o "v") as [-> |Hvv]; [cbn in Hgo; rewrite orb_true_r in Hgo; apply Hgo; by apply (bool_decide_unpack _)|].
  apply post_bind. eapply performs_refused; [exact Hs|unfold cred_usage; stops|]. apply Hb.
  rewrite !Forall_app, Forall_singleton. cbn [fst]. rewrite !elem_of_cons, elem_of_nil. tauto.
Qed.

(** A call that is made unless [skip]. *)
Lemma optional_call {A} (full : calls -> bytes -> Prop) s0 (skip : Prop) `{Decision skip} (b : bool) (c : cred unit) msg (k : M S A) Q l s :
  b = negb (bool_decide skip) -> sofar s0 l [] s -> (~ skip -> exists l1 out, full (l ++ done_ c :: l1) out) ->
  (forall s', sofar s0 (l ++ if decide skip then [] else [done_ c]) [] s' -> post Q (performs_for no_success full s0) (k s')) ->
  post Q (performs_for no_success full s0) (((if b then echecked strerror (sys c) msg else mret tt);; k) s).
Proof.
  intros -> Hs Hf Hk. case_bool_decide as Hd; cbn [negb].
  - rewrite (bind_done (mret tt) _ s tt s eq_refl). apply Hk. rewrite decide_True by done. by rewrite app_nil_r.
  - eapply performs_call; [exact Hs|exists tt; by apply Hf|]. intros [] s' Hs'. apply Hk. by rewrite decide_False.
Qed.
Lemma cred_launcher_spec name opts args s :
  post (reached (cred_launches opts args) s) (performs_for no_success (cred_launches opts args) s) (cred_launcher strerror name opts args s).
Proof.
  unfold cred_launcher. apply (cred_options_run name opts _ _ s _ _ s []); [apply sofar_start|done| |].
  2: { by intros Ho l out (? & ? & _ & H & _). }
  rewrite app_nil_l. intros Ho. set (g := last_arg "g" opts (-1)). set (u := last_arg "u" opts (-1)).
  destruct args as [|cmd rest].
  { eapply performs_refused; [apply sofar_start|unfold cred_usage; stops|]. by intros l out (? & ? & ? & _). }
  assert (Hfull : forall r, cred_launches opts (cmd :: rest) ((if decide (g = -1) then [] else [done_ (Setresgid g g g)]) ++
    (if decide (u = -1) then [] else [done_ (Setresuid u u u)]) ++ (if decide ("v"%char ∈ opts.*1) then [Ev (DisplayCreds []) r] else []) ++
    [done_ (Execvp cmd (cmd :: rest))]) []).
  { intros r. exists cmd, rest. do 3 (split; [done|]). by exists r. }
  eapply (optional_call _ s (g = -1)); [by destruct (Z.eqb_spec g (-1)); case_bool_decide|apply sofar_start| |].
  { intros Hg. eexists _, _. rewrite decide_False in Hfull by done. exact (Hfull (SOk tt)). }
  intros s1 Hs1. cbn [app] in Hs1. eapply (optional_call _ s (u = -1)); [by destruct (Z.eqb_spec u (-1)); case_bool_decide|exact Hs1| |].
  { intros Hu. eexists _, _. rewrite (decide_False (P := u = -1)) in Hfull by done. exact (Hfull (SOk tt)). }
  intros s2 Hs2.
  assert (Hend : forall r s3, sofar s ((if decide (g = -1) then [] else [done_ (Setresgid g g g)]) ++ (if decide (u = -1) then [] else [done_ (Setresuid u u u)]) ++
      (if decide ("v"%char ∈ opts.*1) then [Ev (DisplayCreds []) r] else [])) [] s3 ->
    post (reached (cred_launches opts (cmd :: rest)) s) (performs_for no_success (cred_launches opts (cmd :: rest)) s)
      (echecked strerror (sys (Execvp cmd (cmd :: rest))) (str "execvp") s3)).
  { intros r s3 Hs3. rewrite <- bind_mret. eapply performs_call; [exact Hs3| |].
    - exists tt, [], []. rewrite <- !app_assoc. apply Hfull.
    - intros [] s4 [Ht _]. eexists _, []. split; [exact Ht|]. rewrite <- !app_assoc. apply Hfull. }
  case_bool_decide as Hv.
  - rewrite bind_bind.
    eapply performs_try; [exact Hs2|]. intros r s3 Hs3. rewrite (bind_done (mret tt) _ s3 tt s3 eq_refl). apply (Hend r). rewrite (decide_True (P := "v"%char ∈ opts.*1)) by done. by rewrite <- !app_assoc in Hs3.
  - rewrite (bind_done (mret tt) _ s2 tt s2 eq_refl). apply (Hend (SOk tt)). rewrite (decide_False (P := "v"%char ∈ opts.*1)) by done. by rewrite app_nil_r.
Qed.

(** C38: The launchers run their command only with the credentials that were asked for. cap_launcher, as root, takes the
    supplementary groups, the group and the user ID of the user, in this order, and then raises every capability of
    its list, in the inheritable and in the ambient set; cred_launcher sets the group ID and then the user ID
    of its last options -g and -u, except where they are -1. The command is executed after all these calls have
    succeeded; when one fails, or the command line is wrong, they end without it, and cap_launcher makes no
    call at all when it does not run as root. They never exit successfully themselves. *)
Theorem launchers_correct name s :
  (forall argv, post (reached (cap_launches argv) s) (ran s no_success (cap_stops argv)) (cap_launcher strerror name argv s)) /\
  (forall opts args, post (reached (cred_launches opts args) s) (performs_for no_success (cred_launches opts args) s) (cred_launcher strerror name opts args s)) /\
  (forall caps, Forall (fun c => c <> [] /\ ","%char ∉ c) caps -> strtok_all "," [] (concat (map (fun c => c ++ [","%char]) caps)) = caps).
Proof.
  split_and!; [intros; apply cap_launcher_spec|intros; apply cred_launcher_spec|].
  intros caps. induction 1 as [|c caps [Hc Hn] _ IH]; [done|]. cbn [map concat]. rewrite <- app_assoc. cbn [app].
  by rewrite strtok_token, app_nil_l, IH.
Qed.
End proofs.

(** * A run *)

(** A user with ID 1000 and two groups; the second capability is not known. *)
Definition cred_answer (l : list (event cred)) (A : Type) (c : cred A) : sysres A :=
  match c in cred A return sysres A with
  | Geteuid => SOk 0
  | Getpwnam _ => SOk (Passwd 1000 100)
  | GroupCount _ _ => SOk 2
  | Getgrouplist _ _ _ => SOk [100; 27]
  | CapFromName name => if streq name (str "cap_kill") then SOk 5 else SErr EINVAL
  | SetSecurebits | Calloc _ | Setgroups _ | Setresgid _ _ _ | Setresuid _ _ _ | RaiseInheritable _ | RaiseAmbient _ | Execvp _ _ | DisplayCreds _ => SOk tt
  end.
#[local] Instance cred_os : TraceOS cred (toy (C := cred)) := toy_os cred_answer.
#[local] Instance cred_spec : TraceSpec cred (toy (C := cred)) := toy_spec cred_answer.
Lemma launchers_correct_witness :
  let run caps := cap_launcher (S := toy) (fun _ => []) (str "cap_launcher") [str "mtk"; caps; str "sh"] toy0 in
  (run (str "cap_kill")).1 = Done tt /\ last (run (str "cap_kill")).2.2 = Some (done_ (Execvp (str "sh") [str "sh"])) /\
  (run (str "cap_kill,cap_none")).1 = Exited EXIT_FAILURE /\
  strtok_all "," [] (str "cap_kill,cap_chown,") = [str "cap_kill"; str "cap_chown"].
Proof.
  split_and!; [by vm_compute..|].
  apply (proj2 (proj2 (launchers_correct (S := toy) (fun _ => []) [] toy0)) [str "cap_kill"; str "cap_chown"]).
  repeat constructor; try done; apply (bool_decide_unpack _); by vm_compute.
Defined.
