(* ===== verification/SmallPrograms.v ===== *)
(** Programs that turn their arguments into calls one after the other: book-src/fileio/seek_io.c,
    filesys/t_mount.c, filelock/t_flock.c and procpri/sched_set.c. *)
From S2P Require Import Prelude CLib Sys ErrorFunctions Calls GetNum Formats Trace.
#[local] Open Scope Z_scope.

Definition O_RDONLY : Z := 0.
Definition O_RDWR_CREAT : Z := 66.
Definition LOCK_SH : Z := 1.
Definition LOCK_EX : Z := 2.
Definition LOCK_NB : Z := 4.
Definition LOCK_UN : Z := 8.
Definition EWOULDBLOCK : Z := 11.

(** [CurrTime] is currTime() of curr_time.c, which formats the time. *)
Inductive small : Type -> Type :=
| Open (path : bytes) (flags : Z) : small Z
| Malloc (size : Z) : small unit
| Read (fd len : Z) : small bytes
| Write (fd : Z) (bs : bytes) : small Z
| Lseek (fd offset : Z) : small Z
| Close (fd : Z) : small unit
| Mount (source target : bytes) (fstype : option bytes) (flags : Z) (data : option bytes) : small unit
| Getpid : small Z
| CurrTime (fmt : bytes) : small bytes
| Flock (fd op : Z) : small unit
| Sleep (secs : Z) : small unit
| SchedSetscheduler (pid pol prio : Z) : small unit.

(** printf("%02x ") *)
Definition hex2 (c : ascii) : bytes := [WaitStatus.hex_digit (code c / 16); WaitStatus.hex_digit (code c mod 16); " "%char].
Definition shown_char (c : ascii) : ascii := if isprint c then c else "?"%char.

Section programs.
Context {S : Type} `{HL : HasLibc S} `{HT : TraceOS small S}.
Context (strerror : Z -> bytes).
#[local] Abbreviation Sys c := (sys (C := small) c).
#[local] Abbreviation checked c msg := (echecked strerror (sys (C := small) c) msg).

(** One argument: the operation it names. The memory of the buffer is left out. *)
(** Source: book-src/fileio/seek_io.c:61-106 (main, loop). *)
Definition seek_round (fd : Z) (a : bytes) : M S unit :=
  match a with
  | c :: rest =>
      if ceq c "r" || ceq c "R" then
        len ← getLong (Some rest) GN_ANY_BASE (Some a);
        checked (Malloc (u64 len)) (str "malloc");;
        buf ← checked (Read fd (u64 len)) (str "read");
        match buf with
        | [] => printf (a ++ str ": end-of-file" ++ [newline])
        | _ =>
            printf (a ++ str ": ");;
            printf (if ceq c "r" then shown_char <$> buf else buf ≫= hex2);;
            printf [newline]
        end
      else if ceq c "w" then
        n ← checked (Write fd rest) (str "write");
        printf (a ++ str ": wrote " ++ print_dec n ++ str " bytes" ++ [newline])
      else if ceq c "s" then
        offset ← getLong (Some rest) GN_ANY_BASE (Some a);
        _ ← checked (Lseek fd offset) (str "lseek");
        printf (a ++ str ": seek succeeded" ++ [newline])
      else cmdLineErr (str "Argument must start with [rRws]: " ++ a ++ [newline])
  | [] => cmdLineErr (str "Argument must start with [rRws]: " ++ a ++ [newline])
  end.
(** Source: book-src/fileio/seek_io.c:41-113 (main). *)
Definition seek_io (name : bytes) (argv : list bytes) : M S Empty_set :=
  match argv with
  | file :: (_ :: _) as args =>
      if streq file (str "--help") then usageErr (name ++ str " file {r<length>|R<length>|w<string>|s<offset>}..." ++ [newline])
      else
        fd ← checked (Open file O_RDWR_CREAT) (str "open");
        for_each args (seek_round fd);;
        checked (Close fd) (str "close");;
        c_exit EXIT_SUCCESS
  | _ => usageErr (name ++ str " file {r<length>|R<length>|w<string>|s<offset>}..." ++ [newline])
  end.

(** The letters of -f. *)
(** Source: book-src/filesys/t_mount.c:130-150 (main, switch). *)
Definition mount_table : list (ascii * Z) :=
  [("b"%char, 4096); ("d"%char, 128); ("l"%char, 64); ("m"%char, 8192); ("A"%char, 1024); ("V"%char, 4); ("D"%char, 2048);
   ("E"%char, 8); ("S"%char, 2); ("p"%char, Z.shiftl 1 18); ("r"%char, 1); ("c"%char, 16384); ("T"%char, Z.shiftl 1 21);
   ("R"%char, 32); ("h"%char, Z.shiftl 1 20); ("v"%char, Z.shiftl 1 19); ("s"%char, 16); ("u"%char, Z.shiftl 1 17)].
Definition mount_lines : list bytes :=
  [str "b - MS_BIND         create a bind mount"; str "d - MS_DIRSYNC      synchronous directory updates";
    str "l - MS_MANDLOCK     permit mandatory locking"; str "L - MS_LAZYATIME    lazy atime updates"; str "m - MS_MOVE         atomically move subtree";
    str "A - MS_NOATIME      don't update atime (last access time)"; str "V - MS_NODEV        don't permit device access";
    str "D - MS_NODIRATIME   don't update atime on directories"; str "E - MS_NOEXEC       don't allow executables";
    str "S - MS_NOSUID       disable set-user/group-ID programs"; str "p - MS_PRIVATE      mark as private"; str "r - MS_RDONLY       read-only mount";
    str "c - MS_REC          recursive mount"; str "T - MS_RELATIME     relative atime updates"; str "R - MS_REMOUNT      remount";
    str "h - MS_SHARED       mark as shared"; str "v - MS_SLAVE        mark as slave"; str "s - MS_SYNCHRONOUS  make writes synchronous";
    str "u - MS_UNBINDABLE   mark as unbindable"].
(** Source: book-src/filesys/t_mount.c:67-101 (usageError). *)
Definition mount_usage {A} (name : bytes) (msg : option bytes) : M S A :=
  match msg with Some m => eprintf m | None => mret tt end;;
  eprintf (str "Usage: " ++ name ++ str " [options] source target" ++ [newline; newline]);;
  eprintf (str "Available options:" ++ [newline]);;
  eprintf (str "    -t fstype        [e.g., 'ext2' or 'reiserfs']" ++ [newline]);;
  eprintf (str "    -o data          [file system-dependent options," ++ [newline]);;
  eprintf (str "                     e.g., 'bsdgroups' for ext2]" ++ [newline]);;
  eprintf (str "    -f mountflags    can include any of:" ++ [newline]);;
  for_each mount_lines (fun line => eprintf (str "            " ++ line ++ [newline]));;
  c_exit EXIT_FAILURE.
(** Source: book-src/filesys/t_mount.c:114-157 (main, options). *)
Fixpoint mount_options (name : bytes) (opts : list (ascii * bytes)) (flags : Z) (data fstype : option bytes) : M S (Z * option bytes * option bytes) :=
  match opts with
  | [] => mret (flags, data, fstype)
  | (o, optarg) :: opts =>
      if ceq o "o" then mount_options name opts flags (Some optarg) fstype
      else if ceq o "t" then mount_options name opts flags data (Some optarg)
      else if ceq o "f" then
        flags ← flag_options (fun A => @mount_usage A name None) mount_table optarg flags;
        mount_options name opts flags data fstype
      else mount_usage name None
  end.
(** Source: book-src/filesys/t_mount.c:103-166 (main). *)
Definition t_mount (name : bytes) (opts : list (ascii * bytes)) (args : list bytes) : M S Empty_set :=
  '(flags, data, fstype) ← mount_options name opts 0 None None;
  match args with
  | [source; target] =>
      checked (Mount source target fstype flags data) (str "mount");;
      c_exit EXIT_SUCCESS
  | _ => mount_usage name (Some (str "Wrong number of arguments" ++ [newline]))
  end.

(** strchr() finds the null byte of an empty argument; the second character is then beyond it. getpid()
    always succeeds, and so does currTime() with a format that fits. *)
(** Source: book-src/filelock/t_flock.c:22-66 (main). *)
Definition t_flock (name : bytes) (argv : list bytes) : M S Empty_set :=
  let usage := usageErr (name ++ str " file lock [sleep-time]" ++ [newline] ++
    str "    'lock' is 's' (shared) or 'x' (exclusive)" ++ [newline] ++
    str "        optionally followed by 'n' (nonblocking)" ++ [newline] ++
    str "    'sleep-time' specifies time to hold lock" ++ [newline]) in
  match argv with
  | file :: how :: rest =>
      if streq file (str "--help") then usage
      else if bool_decide (strchr (str "sx") (char_at how 0) = None) then usage
      else if bool_decide (how = []) then undefined
      else
        let lock := if ceq (char_at how 0) "s" then LOCK_SH else LOCK_EX in
        let lock := if ceq (char_at how 1) "n" then Z.lor lock LOCK_NB else lock in
        fd ← checked (Open file O_RDONLY) (str "open");
        let lname := if has_bits lock LOCK_SH then str "LOCK_SH" else str "LOCK_EX" in
        let report := fun what =>
          pid ← call (Sys Getpid);
          now ← call (Sys (CurrTime (str "%T")));
          printf (str "PID " ++ print_dec (default (-1) pid) ++ str ": " ++ what ++ lname ++ str " at " ++ default [] now ++ [newline]) in
        report (str "requesting ");;
        r ← call (Sys (Flock fd lock));
        match r with
        | None =>
            e ← get_errno;
            pid ← call (Sys Getpid);
            if e =? EWOULDBLOCK then fatal strerror (str "PID " ++ print_dec (default (-1) pid) ++ str ": already locked - bye!")
            else errExit strerror (str "flock (PID=" ++ print_dec (default (-1) pid) ++ str ")")
        | Some _ =>
            report (str "granted    ");;
            secs ← match rest with t :: _ => getInt (Some t) GN_NONNEG (Some (str "sleep-time")) | [] => mret 10 end;
            _ ← call (Sys (Sleep secs));
            report (str "releasing  ");;
            checked (Flock fd LOCK_UN) (str "flock");;
            c_exit EXIT_SUCCESS
        end
  | _ => usage
  end.

Definition SCHED_OTHER : Z := 0.
Definition SCHED_FIFO : Z := 1.
Definition SCHED_RR : Z := 2.
Definition SCHED_BATCH : Z := 3.
Definition SCHED_IDLE : Z := 5.
(** Source: book-src/procpri/sched_set.c:29-71 (main). *)
Definition sched_set (name : bytes) (argv : list bytes) : M S Empty_set :=
  let usage := usageErr (name ++ str " policy priority [pid...]" ++ [newline] ++
    str "    policy is 'r' (RR), 'f' (FIFO), 'b' (BATCH), 'i' (IDLE), or 'o' (OTHER)" ++ [newline]) in
  match argv with
  | policy :: prio :: pids =>
      let c := char_at policy 0 in
      if bool_decide (strchr (str "rfobi") c = None) then usage
      else
        let pol := if ceq c "r" then SCHED_RR else if ceq c "f" then SCHED_FIFO else if ceq c "b" then SCHED_BATCH
                   else if ceq c "i" then SCHED_IDLE else SCHED_OTHER in
        prio ← getInt (Some prio) 0 (Some (str "priority"));
        for_each pids (fun a =>
          pid ← getLong (Some a) 0 (Some (str "pid"));
          checked (SchedSetscheduler (i32 pid) pol prio) (str "sched_setscheduler"));;
        c_exit EXIT_SUCCESS
  | _ => usage
  end.
End programs.

(** * What is proved of them *)

#[local] Abbreviation calls := (list (event small)).

(** ** seek_io *)

(** What one argument does: its calls and its output. *)
Inductive did (fd : Z) : bytes -> calls -> bytes -> Prop :=
| did_read c rest len buf : c = "r"%char \/ c = "R"%char -> long_arg GN_ANY_BASE rest len ->
    did fd (c :: rest) [Ev (Malloc (u64 len)) (SOk tt); Ev (Read fd (u64 len)) (SOk buf)]
      (if buf is [] then (c :: rest) ++ str ": end-of-file" ++ [newline]
       else (c :: rest) ++ str ": " ++ (if ceq c "r" then shown_char <$> buf else buf ≫= hex2) ++ [newline])
| did_write rest n : did fd ("w"%char :: rest) [Ev (Write fd rest) (SOk n)] (("w"%char :: rest) ++ str ": wrote " ++ print_dec n ++ str " bytes" ++ [newline])
| did_seek rest offset r : long_arg GN_ANY_BASE rest offset ->
    did fd ("s"%char :: rest) [Ev (Lseek fd offset) (SOk r)] (("s"%char :: rest) ++ str ": seek succeeded" ++ [newline]).
Inductive seeks (fd : Z) : list bytes -> calls -> bytes -> Prop :=
| seeks_nil : seeks fd [] [] []
| seeks_snoc args a l la out o : seeks fd args l out -> did fd a la o -> seeks fd (args ++ [a]) (l ++ la) (out ++ o).
Definition seek_ok (argv : list bytes) (l : calls) (out : bytes) : Prop :=
  exists file args fd l', argv = file :: args /\ args <> [] /\ file <> str "--help" /\ seeks fd args l' out /\
    l = Ev (Open file O_RDWR_CREAT) (SOk fd) :: l' ++ [Ev (Close fd) (SOk tt)].
(** It stops at an argument that names no operation, or whose operation fails. *)
Definition seek_bad (argv : list bytes) (l : calls) : Prop :=
  (l = [] /\ forall file a args, argv = file :: a :: args -> file = str "--help") \/
  exists file args, argv = file :: args /\
    ((exists x, l = [Ev (Open file O_RDWR_CREAT) (SErr x)]) \/
     exists fd past rest l' out, args = past ++ rest /\ seeks fd past l' out /\ exists last,
       l = Ev (Open file O_RDWR_CREAT) (SOk fd) :: l' ++ last /\
       match rest with
       | [] => exists x, last = [Ev (Close fd) (SErr x)]
       | a :: _ => stopped_in (did fd a) last \/ last = [] /\ forall la o, ~ did fd a la o
       end).

Section proofs.
Context {S : Type} `{HT : TraceSpec small S} (strerror : Z -> bytes).
Ltac stops := repeat first [apply c_exit_stops, trace_libc | apply stops_eprintf; [apply trace_libc|intros] | apply stops_flush; [apply trace_libc|intros]].

Lemma cmdLineErr_stops {A} msg s (Q : A -> S -> Prop) : post Q (stops trace s) (cmdLineErr msg s).
Proof. unfold cmdLineErr. stops. Qed.

(** One round: it does what the argument names, or stops. [l], [out]: what was before. *)
Lemma seek_round_run {B} (s0 : S) ok bad fd a (k : unit -> M S B) Q l out s :
  sofar s0 l out s ->
  (forall la o s', did fd a la o -> sofar s0 (l ++ la) (out ++ o) s' -> post Q (ended s0 ok bad) (k tt s')) ->
  (forall e la, fails e -> stopped_in (did fd a) la \/ la = [] /\ (forall la o, ~ did fd a la o) -> bad e (l ++ la)) ->
  post Q (ended s0 ok bad) ((seek_round strerror fd a ≫= k) s).
Proof.
  intros Hs Hk Hb.
  assert (Hno : (forall la o, ~ did fd a la o) -> forall e, fails e -> bad e l).
  { intros H e He. rewrite <- (app_nil_r l). apply Hb; [done|by right]. }
  assert (Hu : forall A msg (Q' : A -> S -> Prop), (forall la o, ~ did fd a la o) -> post Q' (ended s0 ok bad) (cmdLineErr msg s)).
  { intros A msg Q' H. eapply run_stops; [exact Hs|apply cmdLineErr_stops|]. by apply Hno. }
  destruct a as [|c rest]; [apply post_bind, Hu; by inversion 1|]. cbn [seek_round].
  destruct (ceq c "r" || ceq c "R") eqn:Hc.
  - assert (Hc' : c = "r"%char \/ c = "R"%char) by (apply orb_true_iff in Hc as [Hc|Hc]; [left; by destruct (ceq_spec c "r")|right; by destruct (ceq_spec c "R")]).
    rewrite bind_bind. eapply run_getLong; [exact Hs| |].
    2: { intros Hl. apply Hno. intros la o Hd. inversion Hd; subst; [by eapply Hl|by destruct Hc'..]. }
    intros len Hlen. rewrite bind_bind. eapply run_call; [exact Hs| |].
    2: { intros x e He. apply Hb; [done|]. left. by eexists unit, _, x, tt, [], [_], _; split; [done|eapply (did_read fd c rest len [])]. }
    intros [] s1 Hs1. rewrite bind_bind. eapply run_call; [exact Hs1| |].
    2: { intros x e He. rewrite <- app_assoc. apply Hb; [done|]. left. by eexists bytes, _, x, [], [_], [], _; split; [done|eapply (did_read fd c rest len [])]. }
    intros buf s2 Hs2. rewrite <- app_assoc in Hs2. pose proof (did_read fd c rest len buf Hc' Hlen) as Hd. destruct buf as [|b buf].
    + eapply run_printf; [exact Hs2|]. intros s3 Hs3. by eapply Hk.
    + rewrite bind_bind. eapply run_printf; [exact Hs2|]. intros s3 Hs3. rewrite bind_bind. eapply run_printf; [exact Hs3|]. intros s4 Hs4.
      eapply run_printf; [exact Hs4|]. intros s5 Hs5. eapply Hk; [exact Hd|]. by rewrite <- !app_assoc in Hs5.
  - apply orb_false_iff in Hc as [Hr HR]. assert (Hr' : c <> "r"%char) by (intros ->; done). assert (HR' : c <> "R"%char) by (intros ->; done).
    destruct (ceq_spec c "w") as [-> |Hw].
    + rewrite bind_bind. eapply run_call; [exact Hs| |].
      * intros n s1 Hs1. eapply run_printf; [exact Hs1|]. intros s2 Hs2. eapply Hk; [apply (did_write fd rest n)|exact Hs2].
      * intros x e He. apply Hb; [done|]. left. eexists Z, _, x, 0, [], [], _. split; [done|apply did_write].
    + destruct (ceq_spec c "s") as [-> |Hss].
      * rewrite bind_bind. eapply run_getLong; [exact Hs| |].
        2: { intros Hl. apply Hno. intros la o Hd. inversion Hd as [c' ? len ? Hc|?|? off ? Ho]; subst; [by destruct Hc|by eapply Hl]. }
        intros off Hoff. rewrite bind_bind. eapply run_call; [exact Hs| |].
        -- intros r s1 Hs1. eapply run_printf; [exact Hs1|]. intros s2 Hs2. eapply Hk; [by apply (did_seek fd rest off r)|exact Hs2].
        -- intros x e He. apply Hb; [done|]. left. eexists Z, _, x, 0, [], [], _. split; [done|by apply did_seek].
      * apply post_bind, Hu. intros la o Hd. inversion Hd as [c' ? len ? Hc|?|? off ? Ho]; subst; [by destruct Hc|done|done].
Qed.
Lemma seek_io_spec name argv s : post (fun _ _ => False) (ran s (seek_ok argv) (seek_bad argv)) (seek_io strerror name argv s).
Proof.
  assert (Hu : forall A msg (Q : A -> S -> Prop), (forall file a args, argv = file :: a :: args -> file = str "--help") ->
    post Q (ran s (seek_ok argv) (seek_bad argv)) (usageErr msg s)).
  { intros A msg Q H. eapply run_stops; [apply sofar_start|apply usageErr_stops, trace_libc|]. intros e He. split; [done|by left]. }
  destruct argv as [|file [|a0 args0]]; [by apply Hu..|]. unfold seek_io, streq. case_bool_decide as Hh; [apply Hu; congruence|]. clear Hu.
  remember (a0 :: args0) as args eqn:Hargs. assert (Hne : args <> []) by by subst. clear Hargs a0 args0.
  eapply run_call; [apply sofar_start| |].
  2: { intros x e He. split; [done|]. right. exists file, args. split; [done|]. left. by exists x. }
  intros fd s1 Hs1.
  assert (Hgo : forall rest past l out s2, args = past ++ rest -> seeks fd past l out ->
    sofar s (Ev (Open file O_RDWR_CREAT) (SOk fd) :: l) out s2 ->
    post (fun _ _ => False) (ran s (seek_ok (file :: args)) (seek_bad (file :: args)))
      ((for_each rest (seek_round strerror fd);; echecked strerror (sys (Close fd)) (str "close");; @c_exit S _ Empty_set EXIT_SUCCESS) s2)).
  2: { by apply (Hgo args [] [] []); [|constructor|]. }
  induction rest as [|a rest IH]; intros past l out s2 Hpast Hl Hs2; cbn [for_each].
  - rewrite app_nil_r in Hpast. subst past. rewrite (bind_done (mret tt) _ s2 tt s2 eq_refl). eapply run_call; [exact Hs2| |].
    + intros [] s3 Hs3. eapply run_success; [exact Hs3|]. by exists file, args, fd, l.
    + intros x e He. split; [done|]. right. exists file, args. split; [done|]. right. exists fd, args, [], l, out.
      split; [by rewrite app_nil_r|]. split; [done|]. exists [Ev (Close fd) (SErr x)]. split; [done|by exists x].
  - rewrite bind_bind. eapply seek_round_run; [exact Hs2| |].
    + intros la o s3 Hd Hs3. apply (IH (past ++ [a]) (l ++ la) (out ++ o)); [by rewrite <- app_assoc|by constructor|done].
    + intros e la He Hla. split; [done|]. right. exists file, args. split; [done|]. right. exists fd, past, (a :: rest), l, out.
      split; [done|]. split; [done|]. by exists la.
Qed.
End proofs.

(** ** What seek_io does to a file *)

(** A regular file at the given offset: reads return what there is, writes fill a gap with null bytes. *)
Definition file_write (content : bytes) (pos : nat) (bs : bytes) : bytes :=
  take pos content ++ replicate (pos - length content) NUL ++ bs ++ drop (pos + length bs) content.
Definition file_step (fd : Z) (f : bytes * nat) (x : event small) : option (bytes * nat) :=
  let '(content, pos) := f in
  match x with
  | Ev call r =>
      match call in small A return sysres A -> option (bytes * nat) with
      | Malloc _ => fun r => if r is SOk _ then Some f else None
      | Read fd' len => fun r =>
          match r with
          | SOk bs => if decide (fd' = fd /\ bs = take (Z.to_nat len) (drop pos content)) then Some (content, (pos + length bs)%nat) else None
          | SErr _ => None
          end
      | Write fd' bs => fun r =>
          match r with
          | SOk n => if decide (fd' = fd /\ n = Z.of_nat (length bs)) then Some (file_write content pos bs, (pos + length bs)%nat) else None
          | SErr _ => None
          end
      | Lseek fd' off => fun r =>
          match r with SOk n => if decide (fd' = fd /\ 0 <= off /\ n = off) then Some (content, Z.to_nat off) else None | SErr _ => None end
      | _ => fun _ => None
      end r
  end.
Fixpoint file_steps (fd : Z) (f : bytes * nat) (l : calls) : option (bytes * nat) :=
  match l with
  | [] => Some f
  | x :: l => f ← file_step fd f x; file_steps fd f l
  end.
(** The arguments as commands on the file. *)
Definition number (text : bytes) : Z := sl_value (strtol text 0).
Definition command (f : bytes * nat) (a : bytes) : bytes * nat * bytes :=
  let '(content, pos) := f in
  match a with
  | c :: rest =>
      if ceq c "w" then (file_write content pos rest, (pos + length rest)%nat, a ++ str ": wrote " ++ print_dec (Z.of_nat (length rest)) ++ str " bytes" ++ [newline])
      else if ceq c "s" then (content, Z.to_nat (number rest), a ++ str ": seek succeeded" ++ [newline])
      else
        let buf := take (Z.to_nat (u64 (number rest))) (drop pos content) in
        (content, (pos + length buf)%nat,
         if buf is [] then a ++ str ": end-of-file" ++ [newline] else a ++ str ": " ++ (if ceq c "r" then shown_char <$> buf else buf ≫= hex2) ++ [newline])
  | [] => (content, pos, [])
  end.
Fixpoint commands (f : bytes * nat) (args : list bytes) : bytes * nat * bytes :=
  match args with
  | [] => (f, [])
  | a :: args => let '(f1, out1) := command f a in let '(f2, out2) := commands f1 args in (f2, out1 ++ out2)
  end.

Lemma long_arg_number text v : long_arg GN_ANY_BASE text v -> number text = v.
Proof. intros (a & [= <-] & _ & H & _). unfold number. change (base_of GN_ANY_BASE) with 0 in H. by rewrite H. Qed.
Lemma command_steps fd a la o f f' : did fd a la o -> file_steps fd f la = Some f' -> command f a = (f', o).
Proof.
  destruct f as [content pos]. intros Hd Hf. destruct Hd as [c rest len buf Hc Hlen|rest n|rest off r Hoff]; cbn [file_steps file_step mbind option_bind] in Hf.
  - case_decide as Hb; [|done]. destruct Hb as [_ Hb]. injection Hf as <-. unfold command. rewrite (long_arg_number _ _ Hlen).
    rewrite <- Hb. by destruct Hc as [-> | ->].
  - case_decide as Hb; [|done]. destruct Hb as [_ ->]. by injection Hf as <-.
  - case_decide as Hb; [|done]. injection Hf as <-. unfold command. by rewrite (long_arg_number _ _ Hoff).
Qed.
Lemma file_steps_app fd f l1 l2 : file_steps fd f (l1 ++ l2) = (f1 ← file_steps fd f l1; file_steps fd f1 l2).
Proof. revert f. induction l1 as [|x l1 IH]; intros f; [done|]. cbn [app file_steps]. destruct (file_step fd f x); [apply IH|done]. Qed.
Lemma commands_snoc f args a : commands f (args ++ [a]) =
  let '(f1, out1) := commands f args in let '(f2, out2) := command f1 a in (f2, out1 ++ out2).
Proof.
  revert f. induction args as [|b args IH]; intros f; cbn [app commands].
  - destruct (command f a) as [f1 o]. by rewrite app_nil_r.
  - destruct (command f b) as [f1 o1]. rewrite IH. destruct (commands f1 args) as [f2 o2]. destruct (command f2 a) as [f3 o3]. by rewrite app_assoc.
Qed.
Lemma seeks_commands fd args l out f f' : seeks fd args l out -> file_steps fd f l = Some f' -> commands f args = (f', out).
Proof.
  intros Hs. revert f'. induction Hs as [|args a l la out o _ IH Hd]; intros f' Hf; [by injection Hf as <-|].
  rewrite file_steps_app in Hf. destruct (file_steps fd f l) as [f1|] eqn:H1; [|done].
  by rewrite commands_snoc, (IH _ eq_refl), (command_steps _ _ _ _ _ _ Hd Hf).
Qed.

(** ** t_mount *)

Definition last_of (c : ascii) (opts : list (ascii * bytes)) : option bytes := snd <$> last (filter (fun o => o.1 = c) opts).
Definition mount_letters (opts : list (ascii * bytes)) : bytes := o ← opts; if ceq o.1 "f" then o.2 else [].
Definition mount_known (opts : list (ascii * bytes)) : Prop :=
  Forall (fun o => o.1 ∈ ["o"; "t"; "f"]%char) opts /\ Forall (fun c => c ∈ mount_table.*1) (mount_letters opts).
Definition mount_runs (opts : list (ascii * bytes)) (args : list bytes) (l : calls) (out : bytes) : Prop :=
  exists source target, args = [source; target] /\ mount_known opts /\ out = [] /\
    l = [Ev (Mount source target (last_of "t" opts) (chosen mount_table (mount_letters opts)) (last_of "o" opts)) (SOk tt)].

Lemma last_arg_of_snoc c opts o : last_of c (opts ++ [o]) = if bool_decide (o.1 = c) then Some o.2 else last_of c opts.
Proof.
  unfold last_of. rewrite filter_app. case_bool_decide as H.
  - by rewrite filter_cons_True, filter_nil, last_snoc by done.
  - rewrite filter_cons_False, filter_nil by done. by rewrite app_nil_r.
Qed.
Lemma mount_letters_snoc opts o : mount_letters (opts ++ [o]) = mount_letters opts ++ (if ceq o.1 "f" then o.2 else []).
Proof. unfold mount_letters. rewrite bind_app. cbn. by rewrite app_nil_r. Qed.

Section mount.
Context {S : Type} `{HT : TraceSpec small S} (strerror : Z -> bytes).
Ltac stops := repeat first [apply c_exit_stops, trace_libc | apply stops_eprintf; [apply trace_libc|intros] | apply stops_flush; [apply trace_libc|intros]].

Lemma stops_lines {A} (lines : list bytes) (f : bytes -> bytes) (k : M S A) Q s : (forall s1, post Q (stops trace s1) (k s1)) ->
  post Q (stops trace s) ((for_each lines (fun x => eprintf (f x));; k) s).
Proof.
  intros Hk. revert s. induction lines as [|x lines IH]; intros s; cbn [for_each].
  - rewrite (bind_done (mret tt) _ s tt s eq_refl). apply Hk.
  - rewrite bind_bind. apply stops_eprintf; [apply trace_libc|]. intros. apply IH.
Qed.
Lemma mount_usage_stops {A} name msg s (Q : A -> S -> Prop) : post Q (stops trace s) (mount_usage name msg s).
Proof.
  assert (Hk : forall s1, post Q (stops trace s1) ((
    eprintf (str "Usage: " ++ name ++ str " [options] source target" ++ [newline; newline]);;
    eprintf (str "Available options:" ++ [newline]);;
    eprintf (str "    -t fstype        [e.g., 'ext2' or 'reiserfs']" ++ [newline]);;
    eprintf (str "    -o data          [file system-dependent options," ++ [newline]);;
    eprintf (str "                     e.g., 'bsdgroups' for ext2]" ++ [newline]);;
    eprintf (str "    -f mountflags    can include any of:" ++ [newline]);;
    for_each mount_lines (fun line => eprintf (str "            " ++ line ++ [newline]));;
    c_exit EXIT_FAILURE) s1)).
  { intros s1. do 6 (apply stops_eprintf; [apply trace_libc|intros]). apply stops_lines. intros. apply c_exit_stops, trace_libc. }
  unfold mount_usage. destruct msg; [apply stops_eprintf; [apply trace_libc|exact Hk]|apply Hk].
Qed.
Lemma mount_options_run {B} name ok full s0 (k : Z * option bytes * option bytes -> M S B) Q s opts : forall pre,
  sofar s0 [] [] s -> mount_known pre ->
  (mount_known (pre ++ opts) -> post Q (performs_for ok full s0)
    (k (chosen mount_table (mount_letters (pre ++ opts)), last_of "o" (pre ++ opts), last_of "t" (pre ++ opts)) s)) ->
  (~ mount_known (pre ++ opts) -> forall l out, ~ full l out) ->
  post Q (performs_for ok full s0) ((mount_options name opts (chosen mount_table (mount_letters pre)) (last_of "o" pre) (last_of "t" pre) ≫= k) s).
Proof.
  induction opts as [|[o a] opts IH]; intros pre Hs Hpre Hk Hb; [rewrite app_nil_r in Hk; by apply Hk|].
  replace (pre ++ (o, a) :: opts) with ((pre ++ [(o, a)]) ++ opts) in * by by rewrite <- app_assoc.
  assert (Hgo : mount_known (pre ++ [(o, a)]) -> post Q (performs_for ok full s0) ((mount_options name opts (chosen mount_table (mount_letters (pre ++ [(o, a)])))
    (last_of "o" (pre ++ [(o, a)])) (last_of "t" (pre ++ [(o, a)])) ≫= k) s)) by (intros H; by apply IH).
  assert (Hkn : mount_known (pre ++ [(o, a)]) <-> o ∈ ["o"; "t"; "f"]%char /\ Forall (fun c => c ∈ mount_table.*1) (if ceq o "f" then a else [])).
  { unfold mount_known. rewrite mount_letters_snoc, !Forall_app, Forall_singleton. cbn [fst snd]. unfold mount_known in Hpre. tauto. }
  assert (Hno : ~ mount_known (pre ++ [(o, a)]) -> forall l out, ~ full l out).
  { intros H. apply Hb. intros [H1 H2]. apply H. unfold mount_letters in H2. rewrite bind_app in H2. apply Forall_app in H1 as [H1 _].
    apply Forall_app in H2 as [H2 _]. by split. }
  rewrite !last_arg_of_snoc, mount_letters_snoc in Hgo. cbn [fst snd] in Hgo. clear IH. cbn [mount_options].
  destruct (ceq_spec o "o") as [-> |Ho].
  { cbn in Hgo. rewrite app_nil_r in Hgo. apply Hgo, Hkn. split; [by apply (bool_decide_unpack _)|constructor]. }
  destruct (ceq_spec o "t") as [-> |Ht].
  { cbn in Hgo. rewrite app_nil_r in Hgo. apply Hgo, Hkn. split; [by apply (bool_decide_unpack _)|constructor]. }
  destruct (ceq_spec o "f") as [-> |Hf].
  - cbn [bool_decide] in Hgo. rewrite bind_bind. apply flag_options_run.
    + intros. apply mount_usage_stops.
    + apply (bool_decide_unpack _). by vm_compute.
    + exact Hs.
    + intros Ha. rewrite <- chosen_app. apply Hgo, Hkn. split; [by apply (bool_decide_unpack _)|done].
    + intros Ha. apply Hno. intros [_ H]%Hkn. by apply Ha.
  - apply post_bind. eapply performs_refused; [exact Hs|apply mount_usage_stops|]. apply Hno. intros [H _]%Hkn.
    rewrite !elem_of_cons, elem_of_nil in H. tauto.
Qed.
Lemma t_mount_spec name opts args s : post (fun _ _ => False) (performs (mount_runs opts args) s) (t_mount strerror name opts args s).
Proof.
  unfold t_mount. apply (mount_options_run name _ _ s _ _ s opts []); [apply sofar_start|by split| |].
  2: { intros Hno l out (? & ? & _ & H & _). by apply Hno. }
  rewrite app_nil_l. intros Hkn. destruct args as [|source [|target [|? ?]]].
  1, 2, 4: eapply performs_refused; [apply sofar_start|apply mount_usage_stops|]; by intros ? ? (? & ? & ? & _).
  eapply performs_call; [apply sofar_start| |].
  - exists tt, [], []. by exists source, target.
  - intros [] s1 Hs1. eapply performs_success; [exact Hs1|]. by exists source, target.
Qed.
End mount.

(** ** t_flock *)

Definition lock_of (how : bytes) : Z := Z.lor (if ceq (char_at how 0) "s" then LOCK_SH else LOCK_EX) (if ceq (char_at how 1) "n" then LOCK_NB else 0).
Definition flock_args (argv : list bytes) (file how : bytes) (rest : list bytes) : Prop :=
  argv = file :: how :: rest /\ file <> str "--help" /\ (char_at how 0 = "s"%char \/ char_at how 0 = "x"%char).
Definition report (pid : sysres Z) (what : bytes) (how : bytes) (now : sysres bytes) : bytes :=
  str "PID " ++ print_dec (if pid is SOk p then p else -1) ++ str ": " ++ what ++ (if ceq (char_at how 0) "s" then str "LOCK_SH" else str "LOCK_EX") ++
  str " at " ++ (if now is SOk n then n else []) ++ [newline].
Definition secs_of (arg : option bytes) (secs : Z) : Prop := match arg with Some t => int_arg GN_NONNEG t secs | None => secs = 10 end.
(** The lock is placed, held for the time that was asked for, and released. *)
Definition flock_requested (file how : bytes) (fd : Z) (p1 : sysres Z) (t1 : sysres bytes) : calls :=
  [Ev (Open file O_RDONLY) (SOk fd); Ev Getpid p1; Ev (CurrTime (str "%T")) t1].
Definition flock_granted (file how : bytes) (fd : Z) (p1 : sysres Z) (t1 : sysres bytes) (p2 : sysres Z) (t2 : sysres bytes) : calls :=
  flock_requested file how fd p1 t1 ++ [Ev (Flock fd (lock_of how)) (SOk tt); Ev Getpid p2; Ev (CurrTime (str "%T")) t2].
Definition flock_held (file how : bytes) (fd : Z) p1 t1 p2 t2 (secs : Z) (r : sysres unit) p3 t3 : calls :=
  flock_granted file how fd p1 t1 p2 t2 ++ [Ev (Sleep secs) r; Ev Getpid p3; Ev (CurrTime (str "%T")) t3].
Definition flock_ok (argv : list bytes) (l : calls) (out : bytes) : Prop :=
  exists file how rest secs fd p1 t1 p2 t2 p3 t3 r, flock_args argv file how rest /\ secs_of (rest !! 0%nat) secs /\
    l = flock_held file how fd p1 t1 p2 t2 secs r p3 t3 ++ [Ev (Flock fd LOCK_UN) (SOk tt)] /\
    out = report p1 (str "requesting ") how t1 ++ report p2 (str "granted    ") how t2 ++ report p3 (str "releasing  ") how t3.
(** An empty second argument is read beyond its end. The sleep time is read when the lock is held. *)
Definition flock_bad (argv : list bytes) (e : ending) (l : calls) : Prop :=
  e = EUndef /\ l = [] /\ (exists file rest, argv = file :: [] :: rest) \/
  fails e /\ (l = [] /\ (forall file how rest, ~ flock_args argv file how rest) \/
    exists file how rest fd p1 t1, flock_args argv file how rest /\
      ((exists x, l = [Ev (Open file O_RDONLY) (SErr x)]) \/
       (exists x p, l = flock_requested file how fd p1 t1 ++ [Ev (Flock fd (lock_of how)) (SErr x); Ev Getpid p]) \/
       exists p2 t2, l = flock_granted file how fd p1 t1 p2 t2 /\ (forall secs, ~ secs_of (rest !! 0%nat) secs) \/
         exists secs r p3 t3 x, secs_of (rest !! 0%nat) secs /\ l = flock_held file how fd p1 t1 p2 t2 secs r p3 t3 ++ [Ev (Flock fd LOCK_UN) (SErr x)])).

Section flock.
Context {S : Type} `{HT : TraceSpec small S} (strerror : Z -> bytes).

Lemma try_any {A B} (s0 : S) ok bad (c : small A) (k : option A -> M S B) Q l out s : sofar s0 l out s ->
  (forall r s', sofar s0 (l ++ [Ev c r]) out s' -> post Q (ended s0 ok bad) (k (if r is SOk a then Some a else None) s')) ->
  post Q (ended s0 ok bad) ((call (sys c) ≫= k) s).
Proof. intros Hs Hk. eapply run_try; [exact Hs|intros a s' Hs'; exact (Hk (SOk a) s' Hs')|intros x s' Hs'; exact (Hk (SErr x) s' Hs')]. Qed.
(** What is reported: the process and the time. *)
Lemma report_run {B} (s0 : S) ok bad what lname (k : unit -> M S B) Q l out s : sofar s0 l out s ->
  (forall p t s', sofar s0 (l ++ [Ev Getpid p; Ev (CurrTime (str "%T")) t])
     (out ++ str "PID " ++ print_dec (if p is SOk p then p else -1) ++ str ": " ++ what ++ lname ++ str " at " ++ (if t is SOk n then n else []) ++ [newline]) s' ->
     post Q (ended s0 ok bad) (k tt s')) ->
  post Q (ended s0 ok bad) (((pid ← call (sys Getpid); now ← call (sys (CurrTime (str "%T")));
    printf (str "PID " ++ print_dec (default (-1) pid) ++ str ": " ++ what ++ lname ++ str " at " ++ default [] now ++ [newline])) ≫= k) s).
Proof.
  intros Hs Hk. rewrite bind_bind. eapply try_any; [exact Hs|]. intros p s1 Hs1. rewrite bind_bind. eapply try_any; [exact Hs1|]. intros t s2 Hs2.
  eapply run_printf; [exact Hs2|]. intros s3 Hs3. apply (Hk p t). rewrite <- app_assoc in Hs3. by destruct p, t.
Qed.
Lemma strchr_sx c : strchr (str "sx") c = None <-> ~ (c = NUL \/ c = "s"%char \/ c = "x"%char).
Proof.
  unfold strchr. destruct (ceq_spec c NUL) as [-> |Hn]; [split; [done|intros []; by left]|]. rewrite index_of_None.
  change (str "sx") with ["s"; "x"]%char. rewrite !elem_of_cons, elem_of_nil. tauto.
Qed.
Lemma lock_code how : (if ceq (char_at how 1) "n" then Z.lor (if ceq (char_at how 0) "s" then LOCK_SH else LOCK_EX) LOCK_NB
  else if ceq (char_at how 0) "s" then LOCK_SH else LOCK_EX) = lock_of how.
Proof. unfold lock_of. by destruct (ceq (char_at how 1) "n"), (ceq (char_at how 0) "s"). Qed.
Lemma lock_name how : (if has_bits (lock_of how) LOCK_SH then str "LOCK_SH" else str "LOCK_EX") =
  if ceq (char_at how 0) "s" then str "LOCK_SH" else str "LOCK_EX".
Proof. unfold lock_of. by destruct (ceq (char_at how 1) "n"), (ceq (char_at how 0) "s"). Qed.

Lemma t_flock_spec name argv s : Forall (fun a => NUL ∉ a) argv -> post (fun _ _ => False) (ended s (flock_ok argv) (flock_bad argv)) (t_flock strerror name argv s).
Proof.
  intros Hnul.
  assert (Hu : forall msg, (forall file how rest, ~ flock_args argv file how rest) ->
    post (fun _ _ => False) (ended s (flock_ok argv) (flock_bad argv)) (@usageErr S _ Empty_set msg s)).
  { intros msg H. eapply run_stops; [apply sofar_start|apply usageErr_stops, trace_libc|]. intros e He. right. split; [done|by left]. }
  unfold t_flock. destruct argv as [|file [|how rest]]; [apply Hu; by intros ? ? ? [? _]..|].
  unfold streq at 1. case_bool_decide as Hh; [apply Hu; intros ? ? ? (E & Hn & _); congruence|].
  case_bool_decide as Hc; [apply Hu; intros ? ? ? (E & _ & Hsx); injection E as <- <- <-; apply strchr_sx in Hc; tauto|].
  case_bool_decide as He.
  { subst how. eexists. split; [symmetry; apply app_nil_r|]. right. left. split; [done|]. split; [done|by eexists _, _]. }
  assert (Hargs : flock_args (file :: how :: rest) file how rest).
  { split; [done|]. split; [done|]. destruct (decide (char_at how 0 = "s"%char \/ char_at how 0 = "x"%char)) as [H|H]; [done|]. exfalso. apply Hc, strchr_sx.
    intros [H'|H']; [|tauto]. destruct how as [|c how]; [done|]. cbn in H'. subst c. rewrite !Forall_cons in Hnul. destruct Hnul as (_ & Hn & _). apply Hn. by left. }
  clear Hc Hu Hh. cbv zeta. rewrite lock_code, lock_name.
  eapply run_call; [apply sofar_start| |].
  2: { intros x e Hf. right. split; [done|]. right. exists file, how, rest, 0, (SOk 0), (SOk []). split; [done|]. left. by exists x. }
  intros fd s1 Hs1. eapply report_run; [exact Hs1|]. intros p1 t1 s2 Hs2. cbn [app] in Hs2.
  eapply try_any; [exact Hs2|]. intros r s3 Hs3. cbn [app] in Hs3.
  destruct r as [[]|x]; cbn beta iota.
  - eapply report_run; [exact Hs3|]. intros p2 t2 s4 Hs4. cbn [app] in Hs4.
    assert (Hgo : forall secs s5, secs_of (rest !! 0%nat) secs -> sofar s (flock_granted file how fd p1 t1 p2 t2)
        (report p1 (str "requesting ") how t1 ++ report p2 (str "granted    ") how t2) s5 ->
      post (fun _ _ => False) (ended s (flock_ok (file :: how :: rest)) (flock_bad (file :: how :: rest)))
        ((_ ← call (sys (Sleep secs));
          (pid ← call (sys Getpid); now ← call (sys (CurrTime (str "%T")));
           printf (str "PID " ++ print_dec (default (-1) pid) ++ str ": " ++ str "releasing  " ++ (if ceq (char_at how 0) "s" then str "LOCK_SH" else str "LOCK_EX") ++
             str " at " ++ default [] now ++ [newline]));;
          echecked strerror (sys (Flock fd LOCK_UN)) (str "flock");; @c_exit S _ Empty_set EXIT_SUCCESS) s5)).
    { intros secs s5 Hsecs Hs5. eapply try_any; [exact Hs5|]. intros r s6 Hs6. eapply report_run; [exact Hs6|]. intros p3 t3 s7 Hs7.
      rewrite <- app_assoc in Hs7. eapply run_call; [exact Hs7| |].
      - intros [] s8 Hs8. eapply run_success; [exact Hs8|]. exists file, how, rest, secs, fd, p1, t1, p2, t2, p3, t3, r.
        do 3 (split; [done|]). by rewrite <- app_assoc.
      - intros x e Hf. right. split; [done|]. right. exists file, how, rest, fd, p1, t1. split; [done|]. right. right.
        exists p2, t2. right. by exists secs, r, p3, t3, x. }
    destruct rest as [|arg rest]; [by apply (Hgo 10)|].
    eapply run_getInt; [exact Hs4| |].
    + intros secs Hsecs. by apply Hgo.
    + intros Hno e Hf. right. split; [done|]. right. exists file, how, (arg :: rest), fd, p1, t1. split; [done|]. right. right. exists p2, t2. by left.
  - rewrite (bind_done get_errno _ s3 (lc_errno (libc_of s3)) s3) by done. eapply try_any; [exact Hs3|]. intros p s4 Hs4.
    destruct (lc_errno (libc_of s3) =? EWOULDBLOCK); (eapply run_stops; [exact Hs4|first [apply fatal_stops, trace_libc|apply errExit_stops, trace_libc]|]).
    all: intros e Hf; right; (split; [done|]); right; exists file, how, rest, fd, p1, t1; (split; [done|]); right; left; by exists x, p.
Qed.
End flock.

(** ** sched_set *)

Definition policies : list (ascii * Z) := [("r", SCHED_RR); ("f", SCHED_FIFO); ("b", SCHED_BATCH); ("i", SCHED_IDLE); ("o", SCHED_OTHER)]%char.
(** The policy an argument names: its first letter decides, and an empty argument is taken for SCHED_OTHER. *)
Definition policy_of (policy : bytes) (pol : Z) : Prop :=
  match policy with [] => pol = SCHED_OTHER | c :: _ => (c, pol) ∈ policies end.
Definition sched_args (argv : list bytes) (pol prio : Z) (pids : list bytes) : Prop :=
  exists policy p, argv = policy :: p :: pids /\ policy_of policy pol /\ int_arg 0 p prio.
Definition sched_calls (pol prio : Z) (ids : list Z) : calls := (fun pid => Ev (SchedSetscheduler (i32 pid) pol prio) (SOk tt)) <$> ids.
(** Every process gets the policy and the priority, in the order of the arguments. *)
Definition sched_ok (argv : list bytes) (l : calls) (out : bytes) : Prop :=
  out = [] /\ exists pol prio pids ids, sched_args argv pol prio pids /\ Forall2 (long_arg 0) pids ids /\ l = sched_calls pol prio ids.
(** The first argument that is not a number or not a process that may be changed ends the program, and those before it stay changed. *)
Definition sched_bad (argv : list bytes) (l : calls) : Prop :=
  l = [] /\ (forall pol prio pids, ~ sched_args argv pol prio pids) \/
  exists pol prio past a rest ids, sched_args argv pol prio (past ++ a :: rest) /\ Forall2 (long_arg 0) past ids /\
    (l = sched_calls pol prio ids /\ (forall v, ~ long_arg 0 a v) \/
     exists pid x, long_arg 0 a pid /\ l = sched_calls pol prio ids ++ [Ev (SchedSetscheduler (i32 pid) pol prio) (SErr x)]).

Section sched.
Context {S : Type} `{HT : TraceSpec small S} (strerror : Z -> bytes).
#[local] Abbreviation Ran argv s0 := (ran s0 (sched_ok argv) (sched_bad argv)).

Lemma sched_loop argv pol prio pids0 (s0 : S) (k : unit -> M S Empty_set) Q : sched_args argv pol prio pids0 -> forall pids past ids s, pids0 = past ++ pids ->
  Forall2 (long_arg 0) past ids -> sofar s0 (sched_calls pol prio ids) [] s ->
  (forall ids s', Forall2 (long_arg 0) pids0 ids -> sofar s0 (sched_calls pol prio ids) [] s' -> post Q (Ran argv s0) (k tt s')) ->
  post Q (Ran argv s0) ((for_each pids (fun a => pid ← getLong (Some a) 0 (Some (str "pid"));
    echecked strerror (sys (SchedSetscheduler (i32 pid) pol prio)) (str "sched_setscheduler")) ≫= k) s).
Proof.
  intros Hargs. induction pids as [|a pids IH]; intros past ids s Ha Hids Hs Hk.
  { rewrite app_nil_r in Ha. subst past. by apply (Hk ids). }
  assert (Hbad : forall l, (l = sched_calls pol prio ids /\ (forall v, ~ long_arg 0 a v) \/
      exists pid x, long_arg 0 a pid /\ l = sched_calls pol prio ids ++ [Ev (SchedSetscheduler (i32 pid) pol prio) (SErr x)]) ->
    sched_bad argv l) by (intros l Hl; right; exists pol, prio, past, a, pids, ids; by rewrite <- Ha).
  cbn [for_each]. rewrite !bind_bind. eapply run_getLong; [exact Hs| |].
  - intros id Hid. apply (run_call _ _ _ _ _ _ _ _ (sched_calls pol prio ids) []); [done| |].
    + intros [] s' Hs'. apply (IH (past ++ [a]) (ids ++ [id])); [by rewrite <- app_assoc|by apply Forall2_app; [|constructor]| |done].
      unfold sched_calls. by rewrite fmap_app.
    + intros x e He. split; [done|]. apply Hbad. right. by exists id, x.
  - intros Hno e He. split; [done|]. apply Hbad. by left.
Qed.
Lemma strchr_rfobi c : strchr (str "rfobi") c = None <-> c <> NUL /\ c ∉ policies.*1.
Proof.
  unfold strchr. destruct (ceq_spec c NUL) as [-> |Hn]; [split; [done|by intros []]|]. rewrite index_of_None.
  change (str "rfobi") with ["r"; "f"; "o"; "b"; "i"]%char. cbn [policies fmap list_fmap fst]. rewrite !not_elem_of_cons. tauto.
Qed.
Definition policy_code (c : ascii) : Z :=
  if ceq c "r" then SCHED_RR else if ceq c "f" then SCHED_FIFO else if ceq c "b" then SCHED_BATCH else if ceq c "i" then SCHED_IDLE else SCHED_OTHER.
Lemma policy_code_elem c : c ∈ policies.*1 -> (c, policy_code c) ∈ policies.
Proof.
  cbn [policies fmap list_fmap fst]. rewrite !elem_of_cons, elem_of_nil. intros [->|[->|[->|[->|[->|[]]]]]]; by apply (bool_decide_unpack _).
Qed.

Lemma sched_set_spec name argv s : Forall (fun a => NUL ∉ a) argv -> post (fun _ _ => False) (Ran argv s) (sched_set strerror name argv s).
Proof.
  intros Hnul.
  assert (Hu : forall msg, (forall pol prio pids, ~ sched_args argv pol prio pids) -> post (fun _ _ => False) (Ran argv s) (@usageErr S _ Empty_set msg s)).
  { intros msg H. eapply run_stops; [apply sofar_start|apply usageErr_stops, trace_libc|]. intros e He. split; [done|by left]. }
  unfold sched_set. destruct argv as [|policy [|p pids]]; [apply Hu; by intros ? ? ? (? & ? & [=] & _)..|].
  case_bool_decide as Hc.
  { apply Hu. intros pol prio ? (? & ? & [= <- <- _] & Hp & _). apply strchr_rfobi in Hc as [Hn Hc]. destruct policy as [|c policy]; [done|].
    apply Hc. change (c ∈ policies.*1). apply list_elem_of_fmap. by exists (c, pol). }
  cbv zeta. fold (policy_code (char_at policy 0)). assert (Hp : policy_of policy (policy_code (char_at policy 0))).
  { rewrite strchr_rfobi in Hc. destruct policy as [|c policy]; [done|]. apply policy_code_elem. apply dec_stable. intros Hno. apply Hc. split; [|exact Hno].
    cbn. intros ->. rewrite Forall_cons in Hnul. destruct Hnul as [Hn _]. apply Hn. by left. }
  eapply run_getInt; [apply sofar_start| |].
  - intros prio Hprio. apply (sched_loop _ (policy_code (char_at policy 0)) prio pids _ _ _ (ex_intro _ policy (ex_intro _ p (conj eq_refl (conj Hp Hprio)))) pids [] []);
      [done|constructor|apply sofar_start|].
    intros ids s' Hids Hs'. eapply run_success; [exact Hs'|]. split; [done|]. exists (policy_code (char_at policy 0)), prio, pids, ids.
    split; [by exists policy, p|done].
  - intros Hno e He. split; [done|]. left. split; [done|]. intros pol prio pids' (? & ? & [= <- <- <-] & _ & H). by apply (Hno prio).
Qed.
End sched.

(** * The programs *)

(** C39: The four programs do what their arguments say, in their order. seek_io performs the operations its arguments
    name, one after the other, and stops at the first that names none or fails; whenever the calls it makes behave as
    those of a regular file at an offset, the file it leaves and everything it prints are those of running the arguments as commands on the
    file's contents: reads return what is at the offset and move it, writes overwrite and fill a gap with null bytes, seeks
    move it. t_mount makes one mount() with the flags of its letters, in whatever order they come, and the last -t and
    -o, or none. t_flock places the lock its argument names, holds it for the time asked for, releases it, and reports
    each step in between. sched_set gives every process, in order, the policy and the priority, up to the first
    that cannot have them. *)
Theorem small_programs_correct {S : Type} `{HT : TraceSpec small S} (strerror : Z -> bytes) name (s : S) :
  (forall argv,
    post (fun _ _ => False) (ran s (seek_ok argv) (seek_bad argv)) (seek_io strerror name argv s)) /\
  (forall fd args l out f f', seeks fd args l out -> file_steps fd f l = Some f' -> commands f args = (f', out)) /\
  (forall opts args, post (fun _ _ => False) (performs (mount_runs opts args) s) (t_mount strerror name opts args s)) /\
  (forall argv, Forall (fun a => NUL ∉ a) argv ->
    post (fun _ _ => False) (ended s (flock_ok argv) (flock_bad argv)) (t_flock strerror name argv s) /\
    post (fun _ _ => False) (ran s (sched_ok argv) (sched_bad argv)) (sched_set strerror name argv s)).
Proof.
  split_and!; [|apply seeks_commands| |].
  - intros. apply seek_io_spec.
  - intros. apply t_mount_spec.
  - intros argv Hn. split; [by apply t_flock_spec|by apply sched_set_spec].
Qed.

(** * A run *)

(** A file that starts empty, and locks that are granted. *)
Definition file_now (l : calls) : bytes * nat := foldl (fun f x => default f (file_step 3 f x)) ([], 0%nat) l.
Definition file_answer (l : calls) (A : Type) (c : small A) : sysres A :=
  match c in small A return sysres A with
  | Open _ _ => SOk 3
  | Malloc _ | Close _ | Flock _ _ | Sleep _ => SOk tt
  | Read _ len => SOk (take (Z.to_nat len) (drop (file_now l).2 (file_now l).1))
  | Write _ bs => SOk (Z.of_nat (length bs))
  | Lseek _ off => SOk off
  | Getpid => SOk 100
  | CurrTime _ => SOk (str "10:00:00")
  | SchedSetscheduler pid _ _ => if pid =? 1 then SErr EPERM else SOk tt
  | Mount _ _ _ _ _ => SErr EPERM
  end.
#[local] Instance file_os : TraceOS small (toy (C := small)) := toy_os file_answer.
#[local] Instance file_spec : TraceSpec small (toy (C := small)) := toy_spec file_answer.

Lemma small_programs_correct_witness :
  let argv := [str "f"; str "s3"; str "wabc"; str "s2"; str "R3"; str "r9"] in
  let locked := t_flock (S := toy) (fun _ => []) (str "t_flock") [str "f"; str "xn"; str "1"] toy0 in
  let run := seek_io (S := toy) (fun _ => []) (str "seek_io") argv toy0 in
  post (fun _ _ => False) (ended toy0 (flock_ok [str "f"; str "xn"; str "1"]) (flock_bad [str "f"; str "xn"; str "1"])) locked /\
  commands ([], 0%nat) [str "s3"; str "wabc"] = (([NUL; NUL; NUL] ++ str "abc", 6%nat), str "s3: seek succeeded" ++ [newline] ++ str "wabc: wrote 3 bytes" ++ [newline]) /\
  shown run.2.1 = str "s3: seek succeeded" ++ [newline] ++ str "wabc: wrote 3 bytes" ++ [newline] ++ str "s2: seek succeeded" ++ [newline] ++
    str "R3: 00 61 62 " ++ [newline] ++ str "r9: c" ++ [newline] /\
  (file_now run.2.2).1 = [NUL; NUL; NUL] ++ str "abc" /\
  (sched_set (S := toy) (fun _ => []) (str "sched_set") [str "fifo"; str "5"; str "7"; str "1"; str "8"] toy0).2.2 =
    [Ev (SchedSetscheduler 7 SCHED_FIFO 5) (SOk tt); Ev (SchedSetscheduler 1 SCHED_FIFO 5) (SErr EPERM)].
Proof.
  split_and!; [| |by vm_compute..].
  - apply (small_programs_correct (S := toy) (fun _ => []) (str "t_flock") toy0). by apply (bool_decide_unpack _).
  - apply (proj1 (proj2 (small_programs_correct (S := toy) (fun _ => []) (str "seek_io") toy0)) 3 [str "s3"; str "wabc"]
      [Ev (Lseek 3 3) (SOk 3); Ev (Write 3 (str "abc")) (SOk 3)]); [|reflexivity].
    assert (Hs : did 3 (str "s3") [Ev (Lseek 3 3) (SOk 3)] (str "s3: seek succeeded" ++ [newline])) by (apply did_seek; exists (str "3"); split_and!; vm_compute; done).
    exact (seeks_snoc 3 [str "s3"] (str "wabc") _ _ _ _ (seeks_snoc 3 [] _ [] _ [] _ (seeks_nil 3) Hs) (did_write 3 (str "abc") 3)).
Defined.
