(* ===== verification/Datagrams.v ===== *)
(** The datagram servers and clients: book-src/sockets/ud_ucase_sv.c and ud_ucase_cl.c over UNIX domain sockets,
    i6d_ucase_sv.c and i6d_ucase_cl.c over IPv6. *)
From S2P Require Import Prelude CLib Sys ErrorFunctions Calls GetNum UnixSockets Trace.
#[local] Open Scope Z_scope.

Definition SOCK_DGRAM : Z := 2.
Definition AF_INET6 : Z := 10.
Definition BUF_SIZE : Z := 10.
Definition SV_SOCK_PATH : bytes := str "/tmp/ud_ucase".
Definition PORT_NUM : Z := 50002.

(** struct sockaddr_in6, with the port in host order. *)
Record sockaddr_in6 := SockaddrIn6 { sin6_port : Z; sin6_flowinfo : Z; sin6_addr : bytes; sin6_scope_id : Z }.
Definition in6addr_any : bytes := replicate 16 NUL.

(** Where a datagram goes: a UNIX domain address, the address of a peer as recvfrom() left it (bytes of a local
    variable, [None] where nothing was ever stored) with its length, or an IPv6 address. *)
Inductive dest :=
| ToUn (a : sockaddr_un)
| ToPeer (path : list (option ascii)) (len : Z)
| ToIn6 (a : sockaddr_in6).

(** recvfrom() has three forms: it stores the path of a UNIX domain peer and tells the length of its address, or an
    IPv6 address, or no address. *)
Inductive dgram : Type -> Type :=
| Socket (domain type : Z) : dgram Z
| Remove (path : bytes) : dgram unit
| BindUn (fd : Z) (a : sockaddr_un) : dgram unit
| BindIn6 (fd : Z) (a : sockaddr_in6) : dgram unit
| Getpid : dgram Z
| InetPton (text : bytes) : dgram bytes
| InetNtop (a : bytes) : dgram bytes
| RecvUn (fd size : Z) : dgram (bytes * bytes * Z)
| RecvIn6 (fd size : Z) : dgram (bytes * sockaddr_in6)
| Recv (fd size : Z) : dgram bytes
| SendTo (fd : Z) (bs : bytes) (d : dest) : dgram Z.

(** A local array of characters, as a string; [None] when it has no value or no end. *)
Fixpoint text_of (l : list (option ascii)) : option bytes :=
  match l with
  | Some c :: l => if ceq c NUL then Some [] else cons c <$> text_of l
  | _ => None
  end.
(** struct sockaddr_un after memset() and strncpy(). *)
Definition un_addr (path : bytes) : sockaddr_un := SockaddrUn AF_UNIX (strncpy_into (sun_path zero_addr) path (sun_path_size - 1)).

(** The array after the path of a peer is stored into it; a message in capitals. *)
Definition store_path (path : bytes) (old : list (option ascii)) : list (option ascii) :=
  (Some <$> take sun_path_size path) ++ drop (length path) old.
Definition upcase (msg : bytes) : bytes := toupper <$> msg.

Section programs.
Context {S : Type} `{HL : HasLibc S} `{HT : TraceOS dgram S}.
Context (strerror : Z -> bytes).
#[local] Abbreviation Sys c := (sys (C := dgram) c).
#[local] Abbreviation checked c msg := (echecked strerror (sys (C := dgram) c) msg).

(** Source: book-src/sockets/ud_ucase_sv.c:31-51 (main, set-up). *)
Definition ud_setup : M S Z :=
  sfd ← checked (Socket AF_UNIX SOCK_DGRAM) (str "socket");
  if (sun_path_size - 1 <? strlen SV_SOCK_PATH)%nat then fatal strerror (str "Server socket path too long: " ++ SV_SOCK_PATH)
  else
    r ← call (Sys (Remove SV_SOCK_PATH));
    e ← get_errno;
    if bool_decide (r = None) && negb (e =? ENOENT) then errExit strerror (str "remove-" ++ SV_SOCK_PATH)
    else checked (BindUn sfd (un_addr SV_SOCK_PATH)) (str "bind");; mret sfd.
(** [claddr] is what the path of the client's address holds. *)
(** Source: book-src/sockets/ud_ucase_sv.c:55-71 (main, loop). *)
Definition ud_round (sfd : Z) (claddr : list (option ascii)) : M S (list (option ascii)) :=
  '(buf, path, len) ← checked (RecvUn sfd BUF_SIZE) (str "recvfrom");
  let claddr := store_path path claddr in
  name ← deref (text_of claddr);
  printf (str "Server received " ++ print_dec (Z.of_nat (length buf)) ++ str " bytes from " ++ name ++ [newline]);;
  n ← call (Sys (SendTo sfd (upcase buf) (ToPeer claddr len)));
  if bool_decide (n = Some (Z.of_nat (length buf))) then mret claddr else fatal strerror (str "sendto").
(** Source: book-src/sockets/ud_ucase_sv.c:22-72 (main). *)
Definition ud_ucase_sv (fuel : nat) : M S Empty_set :=
  sfd ← ud_setup;
  iter fuel (fun claddr => claddr ← ud_round sfd claddr; mret (inl claddr)) (replicate sun_path_size None).

(** Source: book-src/sockets/i6d_ucase_sv.c:34-45 (main, set-up). *)
Definition i6d_setup : M S Z :=
  sfd ← checked (Socket AF_INET6 SOCK_DGRAM) (str "socket");
  checked (BindIn6 sfd (SockaddrIn6 PORT_NUM 0 in6addr_any 0)) (str "bind");;
  mret sfd.
(** Source: book-src/sockets/i6d_ucase_sv.c:49-71 (main, loop). *)
Definition i6d_round (sfd : Z) : M S unit :=
  '(buf, claddr) ← checked (RecvIn6 sfd BUF_SIZE) (str "recvfrom");
  name ← call (Sys (InetNtop (sin6_addr claddr)));
  printf (match name with
    | None => str "Couldn't convert client address to string" ++ [newline]
    | Some name => str "Server received " ++ print_dec (Z.of_nat (length buf)) ++ str " bytes from (" ++ name ++ str ", " ++ print_dec (sin6_port claddr) ++ str ")" ++ [newline]
    end);;
  n ← call (Sys (SendTo sfd (upcase buf) (ToIn6 claddr)));
  if bool_decide (n = Some (Z.of_nat (length buf))) then mret tt else fatal strerror (str "sendto").
(** Source: book-src/sockets/i6d_ucase_sv.c:22-72 (main). *)
Definition i6d_ucase_sv (fuel : nat) : M S Empty_set :=
  sfd ← i6d_setup;
  iter fuel (fun _ => again ← i6d_round sfd; mret (inl again)) tt.

(** Message [j] and those after it; also the loop of i6d_ucase_cl.c. *)
(** Source: book-src/sockets/ud_ucase_cl.c:55-67 (main, loop). *)
Fixpoint messages (sfd : Z) (server : dest) (j : Z) (msgs : list bytes) : M S unit :=
  match msgs with
  | [] => mret tt
  | msg :: msgs =>
      n ← call (Sys (SendTo sfd msg server));
      if bool_decide (n = Some (Z.of_nat (strlen msg))) then
        resp ← checked (Recv sfd BUF_SIZE) (str "recvfrom");
        printf (str "Response " ++ print_dec j ++ str ": " ++ cstring resp ++ [newline]);;
        messages sfd server (j + 1) msgs
      else fatal strerror (str "sendto")
  end.
Definition client_path (pid : option Z) : bytes := snprintf sun_path_size (str "/tmp/ud_ucase_cl." ++ print_dec (default (-1) pid)).
(** Source: book-src/sockets/ud_ucase_cl.c:21-71 (main). *)
Definition ud_ucase_cl (name : bytes) (argv : list bytes) : M S Empty_set :=
  if bool_decide (argv = []) || bool_decide (head argv = Some (str "--help")) then usageErr (name ++ str " msg..." ++ [newline])
  else
    sfd ← checked (Socket AF_UNIX SOCK_DGRAM) (str "socket");
    pid ← call (Sys Getpid);
    checked (BindUn sfd (un_addr (client_path pid))) (str "bind");;
    messages sfd (ToUn (un_addr SV_SOCK_PATH)) 1 argv;;
    _ ← call (Sys (Remove (client_path pid)));
    c_exit EXIT_SUCCESS.
(** Source: book-src/sockets/i6d_ucase_cl.c:20-60 (main). *)
Definition i6d_ucase_cl (name : bytes) (argv : list bytes) : M S Empty_set :=
  match argv with
  | host :: (_ :: _) as msgs =>
      if streq host (str "--help") then usageErr (name ++ str " host-address msg..." ++ [newline])
      else
        sfd ← checked (Socket AF_INET6 SOCK_DGRAM) (str "socket");
        a ← checked_by (fatal strerror) (Sys (InetPton host)) (str "inet_pton failed for address '" ++ host ++ str "'");
        messages sfd (ToIn6 (SockaddrIn6 PORT_NUM 0 a 0)) 1 msgs;;
        c_exit EXIT_SUCCESS
  | _ => usageErr (name ++ str " host-address msg..." ++ [newline])
  end.
End programs.

(** * What is proved of them *)

#[local] Abbreviation calls := (list (event dgram)).

(** ** Servers *)

(** What a server does for one datagram, from one state of its variables to the next. *)
Definition ud_served (sfd : Z) (x x' : list (option ascii)) (l : calls) (out : bytes) : Prop :=
  exists buf path len name, x' = store_path path x /\ text_of x' = Some name /\
    l = [Ev (RecvUn sfd BUF_SIZE) (SOk (buf, path, len)); Ev (SendTo sfd (upcase buf) (ToPeer x' len)) (SOk (Z.of_nat (length buf)))] /\
    out = str "Server received " ++ print_dec (Z.of_nat (length buf)) ++ str " bytes from " ++ name ++ [newline].
Definition peer_line (buf : bytes) (a : sockaddr_in6) (name : sysres bytes) : bytes :=
  match name with
  | SErr _ => str "Couldn't convert client address to string" ++ [newline]
  | SOk name => str "Server received " ++ print_dec (Z.of_nat (length buf)) ++ str " bytes from (" ++ name ++ str ", " ++ print_dec (sin6_port a) ++ str ")" ++ [newline]
  end.
Definition i6d_served (sfd : Z) (_ _ : unit) (l : calls) (out : bytes) : Prop :=
  exists buf a name, out = peer_line buf a name /\
    l = [Ev (RecvIn6 sfd BUF_SIZE) (SOk (buf, a)); Ev (InetNtop (sin6_addr a)) name; Ev (SendTo sfd (upcase buf) (ToIn6 a)) (SOk (Z.of_nat (length buf)))].
(** How a round can end the server: a call fails, or not all of the datagram is sent; the first peer of a UNIX domain server has no
    name. *)
Definition ud_unserved (sfd : Z) (x : list (option ascii)) (e : ending) (l : calls) : Prop :=
  (fails e /\ exists c, l = [Ev (RecvUn sfd BUF_SIZE) (SErr c)]) \/
  exists buf path len x', x' = store_path path x /\
    ((e = EUndef /\ text_of x' = None /\ l = [Ev (RecvUn sfd BUF_SIZE) (SOk (buf, path, len))]) \/
     (fails e /\ exists r, r <> SOk (Z.of_nat (length buf)) /\
       l = [Ev (RecvUn sfd BUF_SIZE) (SOk (buf, path, len)); Ev (SendTo sfd (upcase buf) (ToPeer x' len)) r])).
Definition i6d_unserved (sfd : Z) (_ : unit) (e : ending) (l : calls) : Prop :=
  fails e /\ ((exists c, l = [Ev (RecvIn6 sfd BUF_SIZE) (SErr c)]) \/
    exists buf a name r, r <> SOk (Z.of_nat (length buf)) /\
      l = [Ev (RecvIn6 sfd BUF_SIZE) (SOk (buf, a)); Ev (InetNtop (sin6_addr a)) name; Ev (SendTo sfd (upcase buf) (ToIn6 a)) r]).
Definition ud_ready (sfd : Z) (l : calls) : Prop :=
  exists r, (r = SOk tt \/ r = SErr ENOENT) /\
    l = [Ev (Socket AF_UNIX SOCK_DGRAM) (SOk sfd); Ev (Remove SV_SOCK_PATH) r; Ev (BindUn sfd (un_addr SV_SOCK_PATH)) (SOk tt)].
Definition ud_unready (l : calls) : Prop :=
  (exists c, l = [Ev (Socket AF_UNIX SOCK_DGRAM) (SErr c)]) \/
  exists sfd r c, l = [Ev (Socket AF_UNIX SOCK_DGRAM) (SOk sfd); Ev (Remove SV_SOCK_PATH) r; Ev (BindUn sfd (un_addr SV_SOCK_PATH)) (SErr c)] /\ (r = SOk tt \/ r = SErr ENOENT) \/
    l = [Ev (Socket AF_UNIX SOCK_DGRAM) (SOk sfd); Ev (Remove SV_SOCK_PATH) r] /\ r = SErr c /\ c <> ENOENT.
Definition i6d_ready (sfd : Z) (l : calls) : Prop :=
  l = [Ev (Socket AF_INET6 SOCK_DGRAM) (SOk sfd); Ev (BindIn6 sfd (SockaddrIn6 PORT_NUM 0 in6addr_any 0)) (SOk tt)].
Definition i6d_unready (l : calls) : Prop :=
  exists c, l = [Ev (Socket AF_INET6 SOCK_DGRAM) (SErr c)] \/
    exists sfd, l = [Ev (Socket AF_INET6 SOCK_DGRAM) (SOk sfd); Ev (BindIn6 sfd (SockaddrIn6 PORT_NUM 0 in6addr_any 0)) (SErr c)].

Section servers.
Context {X : Type} (one : Z -> X -> X -> calls -> bytes -> Prop) (unserved : Z -> X -> ending -> calls -> Prop).
(** [n] datagrams served, one after the other. *)
Inductive rounds (sfd : Z) (x0 : X) : nat -> X -> calls -> bytes -> Prop :=
| rounds_nil : rounds sfd x0 0 x0 [] []
| rounds_snoc n x x' l out l1 out1 : rounds sfd x0 n x l out -> one sfd x x' l1 out1 -> rounds sfd x0 (Datatypes.S n) x' (l ++ l1) (out ++ out1).
Context {S : Type} `{HT : TraceSpec dgram S}.
(** A server that is followed for [n] rounds: it fails before the first, or serves all of them, or stops at one that cannot be served. *)
Definition serves (ready : Z -> calls -> Prop) (unready : calls -> Prop) (x0 : X) (n : nat) (s0 : S) (e : ending) (s : S) : Prop :=
  (exists l, fails e /\ unready l /\ trace s = trace s0 ++ l) \/
  exists sfd l0 k x l out, ready sfd l0 /\ rounds sfd x0 k x l out /\
    (e = EFuel /\ k = n /\ sofar s0 (l0 ++ l) out s \/
     (k < n)%nat /\ exists l1, unserved sfd x e l1 /\ trace s = trace s0 ++ l0 ++ l ++ l1).

Definition no_run (l : calls) (out : bytes) : Prop := False.
Lemma rounds_run ready unready sfd (round : X -> M S X) x0 l0 n s0 :
  (forall x s, post (fun x' s' => exists l out, one sfd x x' l out /\ sofar s l out s') (ended s no_run (unserved sfd x)) (round x s)) -> ready sfd l0 ->
  forall m k x l out s, (k + m)%nat = n -> rounds sfd x0 k x l out -> sofar s0 (l0 ++ l) out s ->
  post (fun _ _ => False) (serves ready unready x0 n s0) (iter m (fun x => x' ← round x; mret (inl (B := Empty_set) x')) x s).
Proof.
  intros Hround Hl0. induction m as [|m IH]; intros k x l out s Hk Hl Hs.
  { right. exists sfd, l0, k, x, l, out. do 2 (split; [done|]). left. split; [done|]. split; [lia|done]. }
  cbn [iter]. rewrite bind_bind. apply post_bind. destruct Hs as [Ht Ho]. eapply post_mono; [| |apply Hround].
  - intros x' s' (l1 & out1 & H1 & Ht1 & Ho1). rewrite (bind_done (mret (inl x')) _ s' (inl x') s' eq_refl).
    apply (IH (Datatypes.S k) x' (l ++ l1) (out ++ out1)); [lia|by eapply rounds_snoc|].
    split; [by rewrite Ht1, Ht, !app_assoc|by rewrite Ho1, Ho, app_assoc].
  - intros e s' (l1 & Ht1 & [(_ & _ & _ & [])|H1]). right. exists sfd, l0, k, x, l, out. do 2 (split; [done|]). right. split; [lia|].
    exists l1. split; [done|]. by rewrite Ht1, Ht, <- !app_assoc.
Qed.
Lemma server_run ready unready (setup : M S Z) (round : Z -> X -> M S X) x0 n s0 :
  post (fun sfd s' => exists l, ready sfd l /\ sofar s0 l [] s') (ended s0 no_run (fun e l => fails e /\ unready l)) (setup s0) ->
  (forall sfd x s, post (fun x' s' => exists l out, one sfd x x' l out /\ sofar s l out s') (ended s no_run (unserved sfd x)) (round sfd x s)) ->
  post (fun _ _ => False) (serves ready unready x0 n s0) ((sfd ← setup; iter n (fun x => x' ← round sfd x; mret (inl (B := Empty_set) x')) x0) s0).
Proof.
  intros Hsetup Hround. apply post_bind. eapply post_mono; [| |exact Hsetup].
  - intros sfd s' (l & Hl & Hs). apply (rounds_run ready unready sfd (round sfd) x0 l n s0 (Hround sfd) Hl n 0 x0 [] []); [done|constructor|by rewrite app_nil_r].
  - intros e s' (l & Ht & [(_ & _ & _ & [])|[He Hl]]). left. by exists l.
Qed.
End servers.

Lemma length_upcase msg : length (upcase msg) = length msg.
Proof. apply length_fmap. Qed.

Section server_specs.
Context {S : Type} `{HT : TraceSpec dgram S} (strerror : Z -> bytes).

Lemma send_run {B} (s0 : S) ok bad sfd bs d (m k : M S B) Q l out s : sofar s0 l out s ->
  (forall s', sofar s0 (l ++ [Ev (SendTo sfd bs d) (SOk (Z.of_nat (length bs)))]) out s' -> post Q (ended s0 ok bad) (k s')) ->
  (forall r s', r <> SOk (Z.of_nat (length bs)) -> sofar s0 (l ++ [Ev (SendTo sfd bs d) r]) out s' -> post Q (ended s0 ok bad) (m s')) ->
  post Q (ended s0 ok bad) ((n ← call (sys (SendTo sfd bs d)); if bool_decide (n = Some (Z.of_nat (length bs))) then k else m) s).
Proof.
  intros Hs Hk Hm. eapply run_try; [exact Hs| |].
  - intros n s' Hs'. case_bool_decide as Hn; [injection Hn as ->; by apply Hk|]. eapply Hm; [|exact Hs']. by intros [= ->].
  - intros x s' Hs'. rewrite bool_decide_eq_false_2 by done. by eapply Hm; [|exact Hs'].
Qed.
Lemma ud_round_spec sfd x s :
  post (fun x' s' => exists l out, ud_served sfd x x' l out /\ sofar s l out s') (ended s no_run (ud_unserved sfd x)) (ud_round strerror sfd x s).
Proof.
  unfold ud_round. eapply run_call; [apply sofar_start| |].
  2: { intros c e He. left. split; [done|by exists c]. }
  intros [[buf path] len] s1 Hs1. cbn beta iota zeta. set (x' := store_path path x).
  destruct (text_of x') as [name|] eqn:Hname; cbn [deref].
  2: { exists [Ev (RecvUn sfd BUF_SIZE) (SOk (buf, path, len))]. split; [apply Hs1|]. right. right. exists buf, path, len, x'. split; [done|]. by left. }
  rewrite (bind_done (mret name) _ s1 name s1 eq_refl). eapply run_printf; [exact Hs1|]. intros s2 Hs2. rewrite <- (length_upcase buf).
  eapply send_run; [exact Hs2| |]; rewrite ?length_upcase.
  - intros s3 Hs3. eexists _, _. split; [|exact Hs3]. by exists buf, path, len, name.
  - intros r s3 Hr Hs3. eapply run_stops; [exact Hs3|apply fatal_stops, trace_libc|]. intros e He. right. exists buf, path, len, x'. split; [done|]. right.
    split; [done|]. by exists r.
Qed.
Lemma i6d_round_spec sfd x s :
  post (fun x' s' => exists l out, i6d_served sfd x x' l out /\ sofar s l out s') (ended s no_run (i6d_unserved sfd x)) (i6d_round strerror sfd s).
Proof.
  unfold i6d_round. eapply run_call; [apply sofar_start| |].
  2: { intros c e He. split; [done|]. left. by exists c. }
  intros [buf a] s1 Hs1. cbn beta iota.
  assert (Hgo : forall name s2, sofar s [Ev (RecvIn6 sfd BUF_SIZE) (SOk (buf, a)); Ev (InetNtop (sin6_addr a)) name] [] s2 ->
    post (fun x' s' => exists l out, i6d_served sfd x x' l out /\ sofar s l out s') (ended s no_run (i6d_unserved sfd x))
      ((printf (peer_line buf a name);;
        n ← call (sys (SendTo sfd (upcase buf) (ToIn6 a)));
        if bool_decide (n = Some (Z.of_nat (length buf))) then mret tt else fatal strerror (str "sendto")) s2)).
  { intros name s2 Hs2. eapply run_printf; [exact Hs2|]. intros s3 Hs3. rewrite <- (length_upcase buf). eapply send_run; [exact Hs3| |]; rewrite ?length_upcase.
    - intros s4 Hs4. eexists _, _. split; [|exact Hs4]. by exists buf, a, name.
    - intros r s4 Hr Hs4. eapply run_stops; [exact Hs4|apply fatal_stops, trace_libc|]. intros e He. split; [done|]. right. by exists buf, a, name, r. }
  eapply run_try; [exact Hs1| |].
  - intros name s2 Hs2. by apply (Hgo (SOk name)).
  - intros c s2 Hs2. by apply (Hgo (SErr c)).
Qed.
Lemma ud_setup_spec s :
  post (fun sfd s' => exists l, ud_ready sfd l /\ sofar s l [] s') (ended s no_run (fun e l => fails e /\ ud_unready l)) (ud_setup strerror s).
Proof.
  unfold ud_setup. eapply run_call; [apply sofar_start| |].
  2: { intros c e He. split; [done|]. left. by exists c. }
  intros sfd s1 Hs1. change (sun_path_size - 1 <? strlen SV_SOCK_PATH)%nat with false. cbn [app] in Hs1.
  assert (Hgo : forall r s2, r = SOk tt \/ r = SErr ENOENT -> sofar s [Ev (Socket AF_UNIX SOCK_DGRAM) (SOk sfd); Ev (Remove SV_SOCK_PATH) r] [] s2 ->
    post (fun sfd s' => exists l, ud_ready sfd l /\ sofar s l [] s') (ended s no_run (fun e l => fails e /\ ud_unready l))
      ((echecked strerror (sys (BindUn sfd (un_addr SV_SOCK_PATH))) (str "bind");; mret sfd) s2)).
  { intros r s2 Hr Hs2. eapply run_call; [exact Hs2| |].
    - intros [] s3 Hs3. eexists. split; [|exact Hs3]. by exists r.
    - intros c e He. split; [done|]. right. exists sfd, r, c. by left. }
  eapply call_bind; [apply sys_traced| |]; destruct Hs1 as [Ht1 Ho1].
  - intros [] s2 [Ht2 Ho2]. rewrite (bind_done get_errno _ s2 (lc_errno (libc_of s2)) s2) by done. apply (Hgo (SOk tt)); [by left|].
    split; [by rewrite Ht2, Ht1, <- app_assoc|by rewrite Ho2, Ho1].
  - intros c s2 [Ht2 Ho2].
    assert (Hs2 : sofar s [Ev (Socket AF_UNIX SOCK_DGRAM) (SOk sfd); Ev (Remove SV_SOCK_PATH) (SErr c)] [] (set_errno c s2).2).
    { apply (sofar_libc s _ _ (fun b => Libc c (lc_environ b) (lc_pending b) (lc_out b))); [done|].
      split; [by rewrite Ht2, Ht1, <- app_assoc|by rewrite Ho2, Ho1]. }
    rewrite (bind_done get_errno _ _ c (set_errno c s2).2) by (unfold get_errno, gets; cbn; by rewrite libc_of_set).
    rewrite bool_decide_eq_true_2 by done. destruct (Z.eqb_spec c ENOENT) as [-> |Hc]; cbn [andb negb].
    + by apply (Hgo (SErr ENOENT)); [right|].
    + eapply run_errExit; [exact Hs2|]. intros e He. split; [done|]. right. exists sfd, (SErr c), c. by right.
Qed.
Lemma i6d_setup_spec s :
  post (fun sfd s' => exists l, i6d_ready sfd l /\ sofar s l [] s') (ended s no_run (fun e l => fails e /\ i6d_unready l)) (i6d_setup strerror s).
Proof.
  unfold i6d_setup. eapply run_call; [apply sofar_start| |].
  2: { intros c e He. split; [done|]. exists c. by left. }
  intros sfd s1 Hs1. eapply run_call; [exact Hs1| |].
  - intros [] s2 Hs2. eexists. split; [|exact Hs2]. done.
  - intros c e He. split; [done|]. exists c. right. by exists sfd.
Qed.
End server_specs.

(** ** Clients *)

(** Messages [j] and after, each sent and answered. *)
Inductive exchanged (sfd : Z) (server : dest) (j : Z) : list bytes -> calls -> bytes -> Prop :=
| exchanged_nil : exchanged sfd server j [] [] []
| exchanged_snoc msgs msg l out resp : exchanged sfd server j msgs l out ->
    exchanged sfd server j (msgs ++ [msg])
      (l ++ [Ev (SendTo sfd msg server) (SOk (Z.of_nat (length msg))); Ev (Recv sfd BUF_SIZE) (SOk resp)])
      (out ++ str "Response " ++ print_dec (j + Z.of_nat (length msgs)) ++ str ": " ++ cstring resp ++ [newline]).
(** A message that is not sent as a whole, or not answered. *)
Definition unanswered (sfd : Z) (server : dest) (msgs : list bytes) (l : calls) : Prop :=
  exists past msg rest l' out last, msgs = past ++ msg :: rest /\ exchanged sfd server 1 past l' out /\ l = l' ++ last /\
    ((exists r, r <> SOk (Z.of_nat (length msg)) /\ last = [Ev (SendTo sfd msg server) r]) \/
     exists c, last = [Ev (SendTo sfd msg server) (SOk (Z.of_nat (length msg))); Ev (Recv sfd BUF_SIZE) (SErr c)]).

Definition ud_opened (sfd : Z) (path : bytes) (l : calls) : Prop :=
  exists pid, path = client_path (if pid is SOk p then Some p else None) /\
    l = [Ev (Socket AF_UNIX SOCK_DGRAM) (SOk sfd); Ev Getpid pid; Ev (BindUn sfd (un_addr path)) (SOk tt)].
(** Only a client that has had all its answers removes its path. *)
Definition ud_ok (argv : list bytes) (l : calls) (out : bytes) : Prop :=
  argv <> [] /\ head argv <> Some (str "--help") /\ exists sfd path l0 l1 r, ud_opened sfd path l0 /\
    exchanged sfd (ToUn (un_addr SV_SOCK_PATH)) 1 argv l1 out /\ l = l0 ++ l1 ++ [Ev (Remove path) r].
Definition ud_bad (argv : list bytes) (l : calls) : Prop :=
  (l = [] /\ (argv = [] \/ head argv = Some (str "--help"))) \/
  (exists c, l = [Ev (Socket AF_UNIX SOCK_DGRAM) (SErr c)]) \/
  exists sfd path l0, ud_opened sfd path l0 /\
    ((exists c, l = take 2 l0 ++ [Ev (BindUn sfd (un_addr path)) (SErr c)]) \/
     exists l1, unanswered sfd (ToUn (un_addr SV_SOCK_PATH)) argv l1 /\ l = l0 ++ l1).
Definition i6d_opened (host : bytes) (sfd : Z) (server : dest) (l : calls) : Prop :=
  exists a, server = ToIn6 (SockaddrIn6 PORT_NUM 0 a 0) /\ l = [Ev (Socket AF_INET6 SOCK_DGRAM) (SOk sfd); Ev (InetPton host) (SOk a)].
Definition i6d_ok (argv : list bytes) (l : calls) (out : bytes) : Prop :=
  exists host msgs, argv = host :: msgs /\ msgs <> [] /\ host <> str "--help" /\ exists sfd server l0 l1,
    i6d_opened host sfd server l0 /\ exchanged sfd server 1 msgs l1 out /\ l = l0 ++ l1.
Definition i6d_bad (argv : list bytes) (l : calls) : Prop :=
  (l = [] /\ forall host msg msgs, argv = host :: msg :: msgs -> host = str "--help") \/
  exists host msgs, argv = host :: msgs /\
    ((exists c, l = [Ev (Socket AF_INET6 SOCK_DGRAM) (SErr c)]) \/
     (exists sfd c, l = [Ev (Socket AF_INET6 SOCK_DGRAM) (SOk sfd); Ev (InetPton host) (SErr c)]) \/
     exists sfd server l0 l1, i6d_opened host sfd server l0 /\ unanswered sfd server msgs l1 /\ l = l0 ++ l1).

Section client_specs.
Context {S : Type} `{HT : TraceSpec dgram S} (strerror : Z -> bytes).

Lemma messages_run {B} (s0 : S) ok bad sfd server msgs0 l0 (k : unit -> M S B) Q : forall msgs past l out s, msgs0 = past ++ msgs -> exchanged sfd server 1 past l out ->
  sofar s0 (l0 ++ l) out s ->
  (forall l out s', exchanged sfd server 1 msgs0 l out -> sofar s0 (l0 ++ l) out s' -> post Q (ended s0 ok bad) (k tt s')) ->
  (forall e l, fails e -> unanswered sfd server msgs0 l -> bad e (l0 ++ l)) ->
  post Q (ended s0 ok bad) ((messages strerror sfd server (1 + Z.of_nat (length past)) msgs ≫= k) s).
Proof.
  induction msgs as [|msg msgs IH]; intros past l out s Hm Hl Hs Hk Hb.
  { rewrite app_nil_r in Hm. subst past. by eapply Hk. }
  cbn [messages]. rewrite bind_bind. unfold strlen.
  assert (Hbad : forall e last, fails e -> ((exists r, r <> SOk (Z.of_nat (length msg)) /\ last = [Ev (SendTo sfd msg server) r]) \/
     exists c, last = [Ev (SendTo sfd msg server) (SOk (Z.of_nat (length msg))); Ev (Recv sfd BUF_SIZE) (SErr c)]) -> bad e ((l0 ++ l) ++ last)).
  { intros e last He Hlast. rewrite <- app_assoc. apply Hb; [done|]. by exists past, msg, msgs, l, out, last. }
  eapply run_try; [exact Hs| |].
  2: { intros c s1 Hs1. rewrite bool_decide_eq_false_2 by done. apply post_bind. eapply run_stops; [exact Hs1|apply fatal_stops, trace_libc|].
    intros e He. apply Hbad; [done|]. left. by exists (SErr c). }
  intros n s1 Hs1. case_bool_decide as Hn.
  2: { apply post_bind. eapply run_stops; [exact Hs1|apply fatal_stops, trace_libc|].
    intros e He. apply Hbad; [done|]. left. exists (SOk n). split; [congruence|done]. }
  injection Hn as ->. rewrite bind_bind. eapply run_call; [exact Hs1| |].
  2: { intros c e He. rewrite <- app_assoc. apply Hbad; [done|]. right. by exists c. }
  intros resp s2 Hs2. rewrite bind_bind. eapply run_printf; [exact Hs2|]. intros s3 Hs3.
  replace (1 + Z.of_nat (length past) + 1) with (1 + Z.of_nat (length (past ++ [msg]))) by (rewrite length_app; cbn; lia).
  eapply (IH (past ++ [msg])); [by rewrite <- app_assoc|by apply (exchanged_snoc sfd server 1 past msg l out resp)| |done|done].
  by rewrite <- !app_assoc in Hs3.
Qed.

Lemma ud_ucase_cl_spec name argv s : post (fun _ _ => False) (ran s (ud_ok argv) (ud_bad argv)) (ud_ucase_cl strerror name argv s).
Proof.
  unfold ud_ucase_cl. destruct (_ || _) eqn:Hu.
  { eapply run_stops; [apply sofar_start|apply usageErr_stops, trace_libc|]. intros e He. split; [done|]. left. split; [done|].
    by apply orb_true_iff in Hu as [Hu%bool_decide_eq_true|Hu%bool_decide_eq_true]; [left|right]. }
  apply orb_false_iff in Hu as [Hne%bool_decide_eq_false Hh%bool_decide_eq_false].
  eapply run_call; [apply sofar_start| |].
  2: { intros c e He. split; [done|]. right. left. by exists c. }
  intros sfd s1 Hs1.
  assert (Hgo : forall pid s2, sofar s [Ev (Socket AF_UNIX SOCK_DGRAM) (SOk sfd); Ev Getpid pid] [] s2 ->
    let path := client_path (if pid is SOk p then Some p else None) in
    post (fun _ _ => False) (ran s (ud_ok argv) (ud_bad argv)) ((
      echecked strerror (sys (BindUn sfd (un_addr path))) (str "bind");;
      messages strerror sfd (ToUn (un_addr SV_SOCK_PATH)) 1 argv;;
      _ ← call (sys (Remove path));
      @c_exit S _ Empty_set EXIT_SUCCESS) s2)).
  { intros pid s2 Hs2 path.
    assert (Hopen : ud_opened sfd path [Ev (Socket AF_UNIX SOCK_DGRAM) (SOk sfd); Ev Getpid pid; Ev (BindUn sfd (un_addr path)) (SOk tt)]) by (by exists pid).
    eapply run_call; [exact Hs2| |].
    2: { intros c e He. split; [done|]. do 2 right. eexists sfd, path, _. split; [exact Hopen|]. left. by exists c. }
    intros [] s3 Hs3. eapply (messages_run s _ _ sfd _ argv _ _ _ argv [] [] []); [done|apply exchanged_nil|rewrite app_nil_r; exact Hs3| |].
    - intros l out s4 Hl Hs4. eapply run_try; [exact Hs4|intros r s5 Hs5|intros c s5 Hs5]; (eapply run_success; [exact Hs5|]);
        do 2 (split; [done|]); eexists sfd, path, _, l, _; (split; [exact Hopen|]); (split; [exact Hl|]); by rewrite <- app_assoc.
    - intros e l He Hl. split; [done|]. do 2 right. eexists sfd, path, _. split; [exact Hopen|]. right. by exists l. }
  eapply run_try; [exact Hs1| |].
  - intros pid s2 Hs2. by apply (Hgo (SOk pid)).
  - intros c s2 Hs2. by apply (Hgo (SErr c)).
Qed.
Lemma i6d_ucase_cl_spec name argv s : post (fun _ _ => False) (ran s (i6d_ok argv) (i6d_bad argv)) (i6d_ucase_cl strerror name argv s).
Proof.
  assert (Hu : forall msg, (forall host m msgs, argv = host :: m :: msgs -> host = str "--help") ->
    post (fun _ _ => False) (ran s (i6d_ok argv) (i6d_bad argv)) (@usageErr S _ Empty_set msg s)).
  { intros msg H. eapply run_stops; [apply sofar_start|apply usageErr_stops, trace_libc|]. intros e He. split; [done|by left]. }
  unfold i6d_ucase_cl. destruct argv as [|host [|m msgs]]; [by apply Hu..|]. unfold streq. case_bool_decide as Hh; [apply Hu; by intros ? ? ? [= <- _ _]|].
  clear Hu. assert (Hne : m :: msgs <> []) by done. set (all := m :: msgs) in *. eapply run_call; [apply sofar_start| |].
  2: { intros c e He. split; [done|]. right. exists host, all. split; [done|]. left. by exists c. }
  intros sfd s1 Hs1. eapply run_die; [intros; apply fatal_stops, trace_libc|exact Hs1| |].
  2: { intros c e He. split; [done|]. right. exists host, all. split; [done|]. right. left. by exists sfd, c. }
  intros a s2 Hs2.
  assert (Hopen : i6d_opened host sfd (ToIn6 (SockaddrIn6 PORT_NUM 0 a 0)) [Ev (Socket AF_INET6 SOCK_DGRAM) (SOk sfd); Ev (InetPton host) (SOk a)]) by (by exists a).
  eapply (messages_run s _ _ sfd _ all _ _ _ all [] [] []); [done|apply exchanged_nil|rewrite app_nil_r; exact Hs2| |].
  - intros l out s3 Hl Hs3. eapply run_success; [exact Hs3|]. exists host, all. do 3 (split; [done|]). by eexists sfd, _, _, l.
  - intros e l He Hl. split; [done|]. right. exists host, all. split; [done|]. do 2 right. by eexists sfd, _, _, l.
Qed.
End client_specs.

(** ** The conversation *)

(** What a server received and sent, and what a client was answered. *)
Definition received (x : event dgram) : list bytes :=
  match x with
  | Ev c r => match c in dgram A return sysres A -> list bytes with
    | RecvUn _ _ => fun r => if r is SOk b then [b.1.1] else []
    | RecvIn6 _ _ => fun r => if r is SOk b then [b.1] else []
    | _ => fun _ => []
    end r
  end.
Definition sent (x : event dgram) : list bytes :=
  match x with Ev (SendTo _ bs _) (SOk _) => [bs] | _ => [] end.
Definition answers (x : event dgram) : list bytes :=
  match x with
  | Ev c r => match c in dgram A return sysres A -> list bytes with Recv _ _ => fun r => if r is SOk b then [b] else [] | _ => fun _ => [] end r
  end.
Fixpoint collect (f : event dgram -> list bytes) (l : calls) : list bytes := match l with [] => [] | x :: l => f x ++ collect f l end.
Lemma collect_app f l1 l2 : collect f (l1 ++ l2) = collect f l1 ++ collect f l2.
Proof. induction l1 as [|x l1 IH]; [done|]. cbn. by rewrite IH, app_assoc. Qed.
Definition conversation (j : Z) (resps : list bytes) : bytes :=
  mjoin (imap (fun i resp => str "Response " ++ print_dec (j + Z.of_nat i) ++ str ": " ++ resp ++ [newline]) resps).
Lemma conversation_snoc j resps r : conversation j (resps ++ [r]) =
  conversation j resps ++ str "Response " ++ print_dec (j + Z.of_nat (length resps)) ++ str ": " ++ r ++ [newline].
Proof. unfold conversation. rewrite imap_app, join_app. cbn [imap]. by rewrite Nat.add_0_r; cbn; rewrite app_nil_r. Qed.
Lemma exchanged_shown sfd server j msgs l out : exchanged sfd server j msgs l out ->
  length (collect answers l) = length msgs /\ out = conversation j (cstring <$> (collect answers l)).
Proof.
  induction 1 as [|msgs msg l out resp _ [Hn ->]]; [done|]. rewrite collect_app. cbn [collect answers app]. rewrite fmap_app. cbn [fmap list_fmap]. rewrite conversation_snoc, !length_app, length_fmap, Hn. done.
Qed.
Lemma rounds_answered {X} (one : Z -> X -> X -> calls -> bytes -> Prop) sfd x0 n x l out :
  (forall x x' l out, one sfd x x' l out -> collect sent l = upcase <$> (collect received l)) ->
  rounds one sfd x0 n x l out -> collect sent l = upcase <$> (collect received l).
Proof. intros Hone. induction 1 as [|n x x' l out l1 out1 _ IH H1]; [done|]. by rewrite !collect_app, fmap_app, IH, (Hone _ _ _ _ H1). Qed.
Lemma ud_answered sfd n x0 x l out : rounds ud_served sfd x0 n x l out -> collect sent l = upcase <$> (collect received l).
Proof. apply rounds_answered. by intros ? ? ? ? (buf & path & len & name & _ & _ & -> & _). Qed.
Lemma i6d_answered sfd n x0 x l out : rounds i6d_served sfd x0 n x l out -> collect sent l = upcase <$> (collect received l).
Proof. apply rounds_answered. by intros ? ? ? ? (buf & a & name & _ & ->). Qed.

Lemma toupper_nul c : toupper c = NUL -> c = NUL.
Proof.
  unfold toupper. destruct (islower c) eqn:H; [|done]. revert H. unfold islower, code, chr. intros H H0. exfalso.
  apply (f_equal nat_of_ascii) in H0. rewrite nat_ascii_embedding in H0 by (pose proof (nat_ascii_bounded c); lia).
  apply andb_true_iff in H as [H1 H2]. change (nat_of_ascii NUL) with 0%nat in H0. lia.
Qed.
Lemma upper_text msg n : NUL ∉ msg -> cstring (take n (upcase (take n msg))) = upcase (take n msg).
Proof. unfold upcase.
  intros H. rewrite take_ge by (rewrite length_fmap, length_take; lia). apply cstring_id. rewrite list_elem_of_fmap. intros (c & Hc & Hin).
  apply H. rewrite <- (toupper_nul c) by done. apply list_elem_of_lookup in Hin as [i Hi]. apply lookup_take_Some in Hi as [Hi _]. by eapply list_elem_of_lookup_2.
Qed.
Lemma conversation_upper sfd server j msgs l out (m : calls) : exchanged sfd server j msgs l out -> Forall (fun msg => NUL ∉ msg) msgs ->
  collect sent m = upcase <$> (collect received m) -> collect received m = take 10 <$> msgs -> collect answers l = take 10 <$> (collect sent m) ->
  out = conversation j ((fun msg => upcase (take 10 msg)) <$> msgs).
Proof.
  intros [_ ->]%exchanged_shown Hn Hs Hr Ha. rewrite Ha, Hs, Hr, <- !list_fmap_compose. f_equal. apply list_fmap_ext. intros i msg Hi.
  apply (Forall_lookup_1 _ _ _ _ Hn) in Hi. by apply upper_text.
Qed.

(** C36: The datagram servers return what they receive in capitals, and their clients show it. Both servers, followed for any
    number of rounds, get ready (or fail before the first round), and then answer every datagram they receive with
    the same bytes in capitals, to the address it came from, and report it, in order; they go on until a call fails or does not send
    a whole datagram (or, over UNIX domain sockets, until the first sender has no address to print, which is undefined). Both
    clients send their arguments one after the other, each only when the one before is answered, and number and print the answers; they fail when a message
    is not sent as a whole or not answered, and the UNIX domain client then leaves its path behind. Together: when the server has received the
    messages cut to ten bytes and the client the answers cut to ten bytes, the client prints the messages in capitals. *)
Theorem datagram_programs_correct {S : Type} `{HT : TraceSpec dgram S} (strerror : Z -> bytes) (s : S) :
  (forall n,
    post (fun _ _ => False) (serves ud_served ud_unserved ud_ready ud_unready (replicate sun_path_size None) n s) (ud_ucase_sv strerror n s) /\
    post (fun _ _ => False) (serves i6d_served i6d_unserved i6d_ready i6d_unready tt n s) (i6d_ucase_sv strerror n s)) /\
  (forall name argv,
    post (fun _ _ => False) (ran s (ud_ok argv) (ud_bad argv)) (ud_ucase_cl strerror name argv s) /\
    post (fun _ _ => False) (ran s (i6d_ok argv) (i6d_bad argv)) (i6d_ucase_cl strerror name argv s)) /\
  (forall sfd server msgs l out, exchanged sfd server 1 msgs l out -> Forall (fun msg => NUL ∉ msg) msgs ->
    forall svfd n m outs,
      ((exists x, rounds ud_served svfd (replicate sun_path_size None) n x m outs) \/ rounds i6d_served svfd tt n tt m outs) ->
      collect received m = take 10 <$> msgs -> collect answers l = take 10 <$> (collect sent m) ->
      out = conversation 1 ((fun msg => upcase (take 10 msg)) <$> msgs)).
Proof.
  split_and!.
  - intros n. split.
    + apply server_run; [apply ud_setup_spec|apply ud_round_spec].
    + apply (server_run i6d_served i6d_unserved i6d_ready i6d_unready (i6d_setup strerror) (fun sfd _ => i6d_round strerror sfd)); [apply i6d_setup_spec|].
      intros sfd x s'. apply i6d_round_spec.
  - intros. split; [apply ud_ucase_cl_spec|apply i6d_ucase_cl_spec].
  - intros sfd server msgs l out Hl Hn svfd n m outs Hm. apply (conversation_upper sfd server); [done..|].
    destruct Hm as [[x Hm]|Hm]; [by eapply ud_answered|by eapply i6d_answered].
Qed.

(** * A run *)

(** A client with messages of 5 and 12 characters, and the server that it talks to. *)
Definition talk : list bytes := [str "hello"; str "a long text."].
Definition client_answer (l : calls) (A : Type) (c : dgram A) : sysres A :=
  match c in dgram A return sysres A with
  | Socket _ _ => SOk 3
  | SendTo _ bs _ => SOk (Z.of_nat (length bs))
  | Recv _ size => if last l is Some (Ev (SendTo _ bs _) _) then SOk (take (Z.to_nat size) (toupper <$> take 10 bs)) else SErr EAGAIN
  | Getpid => SOk 100
  | Remove _ | BindUn _ _ => SOk tt
  | _ => SErr EINVAL
  end.
Definition server_answer (l : calls) (A : Type) (c : dgram A) : sysres A :=
  match c in dgram A return sysres A with
  | Socket _ _ => SOk 3
  | Remove _ => SErr ENOENT
  | RecvUn _ size => if talk !! length (collect received l) is Some msg then SOk (take (Z.to_nat size) msg, client_path (Some 100) ++ [NUL], 23) else SErr EINTR
  | SendTo _ bs _ => SOk (Z.of_nat (length bs))
  | BindUn _ _ => SOk tt
  | _ => SErr EINVAL
  end.

Lemma datagram_programs_correct_witness :
  let client := ud_ucase_cl (S := toy) (HT := toy_os client_answer) (fun _ => []) (str "ud_ucase_cl") talk toy0 in
  let server := ud_ucase_sv (S := toy) (HT := toy_os server_answer) (fun _ => []) 2 toy0 in
  post (fun _ _ => False) (ran (HT0 := toy_os client_answer) (HT := toy_spec client_answer) toy0 (ud_ok talk) (ud_bad talk)) client /\
  shown client.2.1 = str "Response 1: HELLO" ++ [newline] ++ str "Response 2: A LONG TEX" ++ [newline] /\
  server.1 = OutOfFuel /\
  collect received server.2.2 = take 10 <$> talk /\ collect answers client.2.2 = take 10 <$> (collect sent server.2.2) /\
  shown server.2.1 = str "Server received 5 bytes from /tmp/ud_ucase_cl.100" ++ [newline] ++
    str "Server received 10 bytes from /tmp/ud_ucase_cl.100" ++ [newline].
Proof.
  split_and!; [|by vm_compute..].
  apply (datagram_programs_correct (S := toy) (HT0 := toy_os client_answer) (HT := toy_spec client_answer) (fun _ => []) toy0).
Defined.
