(* ===== verification/Sync.v ===== *)
(** Processes that wait for each other: book-src/pipes/pipe_sync.c, where a parent waits for the end of a pipe that
    its children hold, and book-src/procexec/fork_sig_sync.c, where it waits for a signal of its child. *)
From S2P Require Import Prelude CLib Sys Steps GetNum.
From stdpp Require Import relations.
#[local] Open Scope Z_scope.

(** * pipe_sync *)

Module PipeSync.
(** The parent: at its start, at pipe(), at fork() number [j], at close(), at read(), about to say that it goes on,
    ended. A child: at close() of the read end, at sleep(), about to say that it is done, at close() of the write
    end, at _exit(), ended. *)
Inductive ppc := P_start | P_pipe | P_fork (j : nat) | P_close | P_read | P_ready | P_exit (status : Z).
Inductive cpc := K_close0 | K_sleep | K_print | K_close1 | K_leave | K_exit (status : Z).
Inductive line := Started | Closing (j : nat) | Ready.
Record pstate := PState { main : ppc; kids : list cpc; shown : list line }.
Definition go (p : ppc) (s : pstate) : pstate := PState p (kids s) (shown s).
Definition kid_go (k : nat) (c : cpc) (s : pstate) : pstate := PState (main s) (<[k:=c]> (kids s)) (shown s).
Definition say (x : line) (s : pstate) : pstate := PState (main s) (kids s) (shown s ++ [x]).

(** Who holds the write end. *)
Definition released (c : cpc) : bool := match c with K_leave | K_exit _ => true | _ => false end.
Definition writers (s : pstate) : bool := negb (forallb released (kids s)).

Section program.
Context (args : list bytes).

Definition sleep_time (k : nat) : option Z :=
  match (getInt (args !! k) GN_NONNEG (Some (str "sleep-time")) : M libc Z) libc0 with (Done v, _) => Some v | _ => None end.
(** One step of the parent; [ok]: whether a call succeeds. read() blocks while there are writers; nobody writes. *)
(** Source: book-src/pipes/pipe_sync.c:30-87 (main). *)
Definition pipe_parent_step (ok : bool) (s : pstate) : option pstate :=
  let fails := go (P_exit EXIT_FAILURE) s in
  match main s with
  | P_start =>
      Some (if bool_decide (args = []) || bool_decide (head args = Some (str "--help")) then fails else say Started (go P_pipe s))
  | P_pipe => Some (if ok then go (P_fork 0) s else fails)
  | P_fork j =>
      Some (if (j <? length args)%nat then
              if ok then PState (P_fork (S j)) (kids s ++ [K_close0]) (shown s) else fails
            else go P_close s)
  | P_close => Some (if ok then go P_read s else fails)
  | P_read => if ok then (if writers s then None else Some (go P_ready s)) else Some fails
  | P_ready => Some (say Ready (go (P_exit EXIT_SUCCESS) s))
  | P_exit _ => None
  end.
(** One step of child [k]; the descriptors of a process that has ended are closed. *)
(** Source: book-src/pipes/pipe_sync.c:50-68 (main, child). *)
Definition pipe_child_step (ok : bool) (k : nat) (s : pstate) : option pstate :=
  c ← kids s !! k;
  let fails := kid_go k (K_exit EXIT_FAILURE) s in
  match c with
  | K_close0 => Some (if ok then kid_go k K_sleep s else fails)
  | K_sleep => Some (if sleep_time k is Some _ then kid_go k K_print s else fails)
  | K_print => Some (say (Closing k) (kid_go k K_close1 s))
  | K_close1 => Some (if ok then kid_go k K_leave s else fails)
  | K_leave => Some (kid_go k (K_exit EXIT_SUCCESS) s)
  | K_exit _ => None
  end.
(** A process may also be killed. *)
Inductive step : pstate -> pstate -> Prop :=
| step_parent ok s s' : pipe_parent_step ok s = Some s' -> step s s'
| step_child ok k s s' : pipe_child_step ok k s = Some s' -> step s s'
| step_kill s : (forall st, main s <> P_exit st) -> step s (go (P_exit 137) s)
| step_kill_child k c s : kids s !! k = Some c -> (forall st, c <> K_exit st) -> step s (kid_go k (K_exit 137) s).
Definition start : pstate := PState P_start [] [].

(** ** The invariant *)

Definition forked (p : ppc) (n : nat) : Prop :=
  match p with
  | P_start | P_pipe => n = 0%nat
  | P_fork j => n = j /\ (j <= length args)%nat
  | P_close | P_read | P_ready => n = length args
  | P_exit _ => True
  end.
Record Inv (s : pstate) : Prop := {
  i_forked : forked (main s) (length (kids s));
  i_ready : Ready ∉ shown s \/ main s = P_exit EXIT_SUCCESS /\ length (kids s) = length args /\ exists l, shown s = l ++ [Ready] /\ Ready ∉ l;
  i_success : main s = P_exit EXIT_SUCCESS -> Ready ∈ shown s;
  i_eof : main s = P_ready \/ Ready ∈ shown s -> forall k c, kids s !! k = Some c -> released c = true;
  i_said : forall k c, kids s !! k = Some c -> match c with K_close1 | K_leave => Closing k ∈ shown s | K_exit st => st = EXIT_SUCCESS -> Closing k ∈ shown s | _ => True end
}.
Lemma pipe_Inv_start : Inv start.
Proof. split; cbn; try done; [left; apply not_elem_of_nil|by intros [|H%elem_of_nil]..]. Qed.

(** A child moves on. *)
Lemma pipe_Inv_kid s k c c' : Inv s -> kids s !! k = Some c -> (released c = true -> released c' = true) ->
  match c' with K_close1 | K_leave => Closing k ∈ shown s | K_exit st => st = EXIT_SUCCESS -> Closing k ∈ shown s | _ => True end ->
  Inv (kid_go k c' s).
Proof.
  intros [Hf Hr Hs He Hd] Hk Hrel Hsaid. split; cbn; rewrite ?length_insert; try done.
  - intros H. apply all_insert; [intros ? ? ? _; by eapply He|]. eapply Hrel, He, Hk. done.
  - by apply all_insert; [intros ? ? ? _; eapply Hd|].
Qed.
(** A line of a child that is still at work. *)
Lemma pipe_Inv_say s k : Inv s -> (exists c, kids s !! k = Some c /\ released c = false) -> Inv (say (Closing k) s).
Proof.
  intros [Hf Hr Hs He Hd] (c & Hk & Hc). assert (Hno : Ready ∉ shown s) by (intros H; rewrite (He (or_intror H) k c Hk) in Hc; done).
  split; cbn; try done.
  - left. rewrite elem_of_app, list_elem_of_singleton. by intros [|].
  - intros H%Hs. done.
  - rewrite elem_of_app, list_elem_of_singleton. intros [H|[H|]]; [by apply He; left|done..].
  - intros k' c' H. specialize (Hd k' c' H). destruct c'; try done; rewrite elem_of_app; auto.
Qed.
Lemma pipe_Inv_go s p : Inv s -> (forall st, main s <> P_exit st) -> forked p (length (kids s)) -> p <> P_exit EXIT_SUCCESS ->
  (p = P_ready -> forall k c, kids s !! k = Some c -> released c = true) -> Inv (go p s).
Proof.
  intros [Hf Hr Hs He Hd] Hm Hp Hne He'. assert (Hno : Ready ∉ shown s) by (destruct Hr as [|(H & _)]; [done|by apply Hm in H]).
  split; cbn; try done.
  - by left.
  - intros [H|H]; [by apply He'|done].
Qed.
Lemma all_released s : writers s = false -> forall k c, kids s !! k = Some c -> released c = true.
Proof.
  unfold writers. intros H k c Hk. apply negb_false_iff in H. rewrite forallb_forall in H. apply H, list_elem_of_In. by eapply list_elem_of_lookup_2.
Qed.

Lemma pipe_Inv_parent ok s s' : Inv s -> pipe_parent_step ok s = Some s' -> Inv s'.
Proof.
  intros Hi Hs. pose proof (i_forked _ Hi) as Hf. unfold pipe_parent_step in Hs.
  assert (Hfail : (forall st, main s <> P_exit st) -> Inv (go (P_exit EXIT_FAILURE) s)) by (intros; by apply pipe_Inv_go).
  destruct (main s) as [| |j| | | |st] eqn:Hm; cbn in Hf; try specialize (Hfail ltac:(congruence)).
  - injection Hs as <-. destruct (_ || _); [done|]. pose proof (pipe_Inv_go s P_pipe Hi ltac:(congruence) Hf ltac:(done) ltac:(done)) as [H1 H2 H3 H4 H5]. split; cbn in *; try done.
    + left. destruct H2 as [H2|(H2 & _)]; [|done]. rewrite elem_of_app, list_elem_of_singleton. by intros [|].
    + rewrite elem_of_app, list_elem_of_singleton. intros [H|[H|H]]; [done| |done]. by apply H4; right.
    + intros k c H. specialize (H5 k c H). destruct c; try done; rewrite elem_of_app; auto.
  - injection Hs as <-. destruct ok; [|done]. apply pipe_Inv_go; try done; [congruence|]. cbn. split; [done|lia].
  - injection Hs as <-. destruct Hf as [Hn Hj]. destruct (Nat.ltb_spec j (length args)); [destruct ok; [|done]|].
    + destruct Hi as [_ Hr Hsu He Hd]. rewrite Hm in *. split; cbn; try done.
      * rewrite length_app. cbn. lia.
      * destruct Hr as [|(? & _)]; [by left|done].
      * destruct Hr as [Hr|(? & _)]; [|done]. by intros [|].
      * apply all_snoc; [exact Hd|done].
    + apply pipe_Inv_go; try done; [congruence|]. cbn. lia.
  - injection Hs as <-. destruct ok; [|done]. by apply pipe_Inv_go; [|congruence|..].
  - destruct ok; [|by injection Hs as <-]. destruct (writers s) eqn:Hw; [done|]. injection Hs as <-.
    apply pipe_Inv_go; try done; [congruence|]. intros _. by apply all_released.
  - injection Hs as <-. destruct Hi as [_ Hr Hsu He Hd]. rewrite Hm in *. destruct Hr as [Hr|(? & _)]; [|done]. split; cbn.
    + done.
    + right. split_and!; [done|done|by exists (shown s)].
    + intros _. rewrite elem_of_app, list_elem_of_singleton. by right.
    + intros _. apply He. by left.
    + intros k c H. specialize (Hd k c H). destruct c; try done; rewrite elem_of_app; auto.
  - done.
Qed.
Lemma pipe_Inv_child ok k s s' : Inv s -> pipe_child_step ok k s = Some s' -> Inv s'.
Proof.
  intros Hi Hs. unfold pipe_child_step in Hs. destruct (kids s !! k) as [c|] eqn:Hk; [|done]. cbn in Hs. pose proof (i_said _ Hi k c Hk) as Hd.
  assert (Hfail : Inv (kid_go k (K_exit EXIT_FAILURE) s)) by (by eapply pipe_Inv_kid; [..|by intros [=]]).
  destruct c as [| | | | |st]; try injection Hs as <-; try done.
  - destruct ok; [by eapply pipe_Inv_kid|done].
  - destruct (sleep_time k); [by eapply pipe_Inv_kid|done].
  - change (say (Closing k) (kid_go k K_close1 s)) with (kid_go k K_close1 (say (Closing k) s)). eapply pipe_Inv_kid; [|exact Hk|done|].
    + apply pipe_Inv_say; [done|]. by exists K_print.
    + cbn. rewrite elem_of_app, list_elem_of_singleton. by right.
  - destruct ok; [by eapply pipe_Inv_kid|done].
  - by eapply pipe_Inv_kid.
Qed.
Lemma pipe_Inv_step s s' : Inv s -> step s s' -> Inv s'.
Proof.
  intros Hi Hs. destruct Hs as [ok s s' Hs|ok k s s' Hs|s Hm|k c s Hk Hc].
  - by eapply pipe_Inv_parent.
  - by eapply pipe_Inv_child.
  - by apply pipe_Inv_go.
  - eapply pipe_Inv_kid; [done|exact Hk|done|by intros [=]].
Qed.

(** ** Every run ends *)

Definition kid_weight (c : cpc) : Z := match c with K_close0 => 5 | K_sleep => 4 | K_print => 3 | K_close1 => 2 | K_leave => 1 | K_exit _ => 0 end.
Definition main_weight (p : ppc) : Z :=
  let n := Z.of_nat (length args) in
  match p with
  | P_start => 8 * n + 6 | P_pipe => 8 * n + 5 | P_fork j => 8 * (n - Z.of_nat j) + 4 | P_close => 3 | P_read => 2 | P_ready => 1 | P_exit _ => 0
  end.
Definition measure (s : pstate) : Z := main_weight (main s) + sumZ kid_weight (kids s).
Lemma kid_weight_nonneg (l : list cpc) : 0 <= sumZ kid_weight l.
Proof. apply sumZ_nonneg. intros []; cbn; lia. Qed.
Lemma measure_go s p : main_weight p < main_weight (main s) -> measure (go p s) < measure s.
Proof. unfold measure. cbn. lia. Qed.
Lemma measure_kid s k c c' : kids s !! k = Some c -> kid_weight c' < kid_weight c -> measure (kid_go k c' s) < measure s.
Proof. intros Hk H. unfold measure. cbn. rewrite (sumZ_insert _ _ _ _ _ Hk). lia. Qed.
Lemma pipe_measure_step s s' : Inv s -> step s s' -> 0 <= measure s' < measure s.
Proof.
  intros Hi Hs. split.
  { pose proof (pipe_Inv_step _ _ Hi Hs) as [Hf _ _ _ _]. pose proof (kid_weight_nonneg (kids s')). unfold measure.
    enough (0 <= main_weight (main s')) by lia. destruct (main s'); cbn in *; lia. }
  destruct Hs as [ok s s' Hs|ok k s s' Hs|s Hm|k c s Hk Hc].
  - pose proof (i_forked _ Hi) as Hf. unfold pipe_parent_step in Hs. pose proof (measure_go s) as Hgo.
    destruct (main s) as [| |j| | | |st] eqn:Hm; cbn in Hf; try injection Hs as <-.
    + change (measure (say Started (go P_pipe s))) with (measure (go P_pipe s)). destruct (_ || _); apply Hgo; cbn; lia.
    + destruct ok; apply Hgo; cbn; lia.
    + destruct (Nat.ltb_spec j (length args)); [destruct ok|]; [|apply Hgo; cbn; lia..].
      unfold measure. rewrite Hm. cbn [main kids main_weight]. rewrite sumZ_app, sumZ_one. cbn [kid_weight]. lia.
    + destruct ok; apply Hgo; cbn; lia.
    + destruct ok; [destruct (writers s); [done|]|]; injection Hs as <-; apply Hgo; cbn; lia.
    + change (measure (say Ready (go (P_exit EXIT_SUCCESS) s))) with (measure (go (P_exit EXIT_SUCCESS) s)). apply Hgo. cbn. lia.
    + done.
  - unfold pipe_child_step in Hs. destruct (kids s !! k) as [c|] eqn:Hk; [|done]. cbn in Hs.
    pose proof (fun c' => measure_kid s k c c' Hk) as Hgo. destruct c as [| | | | |st]; try injection Hs as <-; try done.
    + destruct ok; apply Hgo; cbn; lia.
    + destruct (sleep_time k); apply Hgo; cbn; lia.
    + change (measure (say (Closing k) (kid_go k K_close1 s))) with (measure (kid_go k K_close1 s)). apply Hgo. cbn. lia.
    + destruct ok; apply Hgo; cbn; lia.
    + apply Hgo. cbn. lia.
  - apply measure_go. pose proof (i_forked _ Hi) as Hf. destruct (main s) as [| |j| | | |st]; cbn in *; try lia. by destruct (Hm st).
  - eapply measure_kid; [exact Hk|]. destruct c; cbn; try lia. by destruct (Hc status).
Qed.

(** ** What is promised *)

(** The parent goes on once, at its end, and only when no child holds the pipe any more; a child that has
    not failed by then has said that it is done. A process that has not ended can go on, except for a parent that waits for
    a child that has not ended either. *)
Definition ended (c : cpc) : Prop := exists st, c = K_exit st.
Definition synchronised (s : pstate) : Prop :=
  (Ready ∈ shown s <-> main s = P_exit EXIT_SUCCESS) /\
  (Ready ∈ shown s -> (exists l, shown s = l ++ [Ready] /\ Ready ∉ l) /\ length (kids s) = length args /\
    forall k c, kids s !! k = Some c -> c = K_leave \/ ended c) /\
  (forall k c, kids s !! k = Some c -> c = K_leave \/ c = K_exit EXIT_SUCCESS -> Closing k ∈ shown s) /\
  ((exists st, main s = P_exit st) \/ (exists s', pipe_parent_step true s = Some s') \/
    main s = P_read /\ exists k c, kids s !! k = Some c /\ ~ ended c) /\
  (forall k c, kids s !! k = Some c -> ended c \/ exists s', pipe_child_step true k s = Some s').
Lemma pipe_Inv_synchronised s : Inv s -> synchronised s.
Proof.
  intros [Hf Hr Hs He Hd]. split_and!.
  - split; [|exact Hs]. by destruct Hr as [|(? & _)].
  - intros H. destruct Hr as [|(_ & Hn & Hl)]; [done|]. split_and!; [done|done|]. intros k c Hk. pose proof (He (or_intror H) k c Hk).
    destruct c; try done; [by left|right; by eexists].
  - intros k c Hk Hc. specialize (Hd k c Hk). destruct Hc as [-> | ->]; [done|by apply Hd].
  - destruct (pipe_parent_step true s) as [s'|] eqn:Hp; [right; left; by exists s'|]. unfold pipe_parent_step in Hp.
    destruct (main s) as [| |j| | | |st]; try done; [|left; by exists st].
    right. right. split; [done|]. destruct (writers s) eqn:Hw; [|done]. unfold writers in Hw. apply negb_true_iff in Hw.
    assert (H : exists k c, kids s !! k = Some c /\ released c = false); [|destruct H as (k & c & Hk & Hc); exists k, c; split; [done|]; by intros [st ->]].
    clear -Hw. induction (kids s) as [|c l IH]; [done|]. cbn in Hw. destruct (released c) eqn:Hc; [|by exists 0%nat, c].
    destruct (IH Hw) as (k & d & Hk & Hd). by exists (Datatypes.S k), d.
  - intros k c Hk. destruct (pipe_child_step true k s) as [s'|] eqn:Hc; [right; by exists s'|]. unfold pipe_child_step in Hc. rewrite Hk in Hc. cbn in Hc.
    destruct c; try done. left. by eexists.
Qed.
Lemma pipe_sync_run : sn step start /\ forall s, rtc step start s -> synchronised s.
Proof.
  split.
  - by apply (sn_measure step Inv pipe_Inv_step measure); [apply pipe_measure_step|apply pipe_Inv_start].
  - intros s Hr. apply pipe_Inv_synchronised. by apply (reach_inv step Inv pipe_Inv_step start), Hr; apply pipe_Inv_start.
Qed.
End program.

(** The parent goes on as well when a child has failed: here a child whose argument is no number. *)
Lemma child_failed : exists s, rtc (step [str "x"]) start s /\ shown s = [Started; Ready] /\ kids s = [K_exit EXIT_FAILURE] /\ main s = P_exit EXIT_SUCCESS.
Proof.
  exists (run_choices (fun k => if k is Some k then pipe_child_step [str "x"] true k else pipe_parent_step [str "x"] true)
    [None; None; None; None; None; Some 0; Some 0; None; None]%nat start).
  split; [|by vm_compute]. apply run_choices_rtc. intros [k|] s s' H; [by eapply step_child|by eapply step_parent].
Qed.
End PipeSync.

(** * fork_sig_sync *)

Module SigSync.
(** The parent: at sigprocmask(), at sigaction(), at fork(), about to say that it waits, at sigsuspend(), about to say
    that it has the signal, at the last sigprocmask(), ended. The child: about to say that it starts, at sleep(), about to say
    that it signals, at kill(), at _exit(), ended. *)
Inductive ppc := Q_block | Q_action | Q_fork | Q_about | Q_suspend | Q_got | Q_restore | Q_exit (status : Z).
Inductive cpc := C_started | C_sleep | C_about | C_kill | C_leave | C_exit (status : Z).
Inductive line := Child_started | Child_about | Parent_about | Parent_got.
(** The signal is blocked from the first step on, so that it stays pending until sigsuspend(). *)
Record fstate := FState { par : ppc; kid : option cpc; pending : bool; shown : list line }.
Definition par_go (p : ppc) (s : fstate) : fstate := FState p (kid s) (pending s) (shown s).
Definition kid_go (c : cpc) (s : fstate) : fstate := FState (par s) (Some c) (pending s) (shown s).
Definition say (x : line) (s : fstate) : fstate := FState (par s) (kid s) (pending s) (shown s ++ [x]).
Definition alive (s : fstate) : bool := if par s is Q_exit _ then false else true.

(** One step of the parent. sigsuspend() blocks until the handler has run, and then fails with EINTR. *)
(** Source: book-src/procexec/fork_sig_sync.c:29-93 (main). *)
Definition sig_parent_step (ok : bool) (s : fstate) : option fstate :=
  let fails := par_go (Q_exit EXIT_FAILURE) s in
  match par s with
  | Q_block => Some (if ok then par_go Q_action s else fails)
  | Q_action => Some (if ok then par_go Q_fork s else fails)
  | Q_fork => Some (if ok then FState Q_about (Some C_started) (pending s) (shown s) else fails)
  | Q_about => Some (say Parent_about (par_go Q_suspend s))
  | Q_suspend => if pending s then Some (FState Q_got (kid s) false (shown s)) else None
  | Q_got => Some (say Parent_got (par_go Q_restore s))
  | Q_restore => Some (if ok then par_go (Q_exit EXIT_SUCCESS) s else fails)
  | Q_exit _ => None
  end.
(** One step of the child. A signal for a parent that has ended goes to another process, or fails. *)
(** Source: book-src/procexec/fork_sig_sync.c:53-70 (main, child). *)
Definition sig_child_step (ok : bool) (s : fstate) : option fstate :=
  c ← kid s;
  match c with
  | C_started => Some (say Child_started (kid_go C_sleep s))
  | C_sleep => Some (kid_go C_about s)
  | C_about => Some (say Child_about (kid_go C_kill s))
  | C_kill => Some (if ok then FState (par s) (Some C_leave) (pending s || alive s) (shown s) else kid_go (C_exit EXIT_FAILURE) s)
  | C_leave => Some (kid_go (C_exit EXIT_SUCCESS) s)
  | C_exit _ => None
  end.
(** Either process may also be killed. *)
Inductive step : fstate -> fstate -> Prop :=
| step_parent ok s s' : sig_parent_step ok s = Some s' -> step s s'
| step_child ok s s' : sig_child_step ok s = Some s' -> step s s'
| step_kill s : alive s = true -> step s (par_go (Q_exit 137) s)
| step_kill_child c s : kid s = Some c -> (forall st, c <> C_exit st) -> step s (kid_go (C_exit 137) s).
Definition start : fstate := FState Q_block None false [].

(** ** The invariant *)

(** The child has sent the signal; the parent has had it. *)
Definition has_sent (c : option cpc) : bool := match c with Some C_leave => true | Some (C_exit st) => st =? EXIT_SUCCESS | _ => false end.
Definition had (p : ppc) : bool := match p with Q_got | Q_restore => true | Q_exit st => st =? EXIT_SUCCESS | _ => false end.
Definition childless (p : ppc) : bool := match p with Q_block | Q_action | Q_fork => true | _ => false end.
(** The order of two lines. *)
Definition before (x y : line) (l : list line) : Prop := forall l1 l2, l = l1 ++ y :: l2 -> x ∈ l1.
Record Inv (s : fstate) : Prop := {
  f_childless : childless (par s) = true -> kid s = None;
  f_child : alive s = true -> childless (par s) = false -> is_Some (kid s);
  f_said : pending s = true \/ had (par s) = true \/ kid s = Some C_kill \/ has_sent (kid s) = true -> Child_about ∈ shown s;
  f_kept : has_sent (kid s) = true -> alive s = true -> pending s = true \/ had (par s) = true;
  f_order : before Child_about Parent_got (shown s);
  f_got : par s = Q_exit EXIT_SUCCESS -> Parent_got ∈ shown s;
  f_restore : par s = Q_restore -> Parent_got ∈ shown s
}.
Lemma before_nil x y : before x y [].
Proof. intros l1 l2 H. by destruct l1. Qed.
Lemma before_snoc x y z l : before x y l -> (z = y -> x ∈ l) -> before x y (l ++ [z]).
Proof.
  intros Hl Hz l1 l2 H. destruct l2 as [|w l2 _] using rev_ind.
  - apply app_inj_tail in H as [<- ->]. by apply Hz.
  - change (l1 ++ y :: l2 ++ [w]) with (l1 ++ (y :: l2) ++ [w]) in H. rewrite app_assoc in H. apply app_inj_tail in H as [H _]. by eapply Hl.
Qed.
Lemma in_snoc (x y : line) l : x ∈ l -> x ∈ l ++ [y].
Proof. rewrite elem_of_app. by left. Qed.
Lemma in_last (x : line) l : x ∈ l ++ [x].
Proof. rewrite elem_of_app, list_elem_of_singleton. by right. Qed.
#[local] Hint Resolve in_snoc in_last : core.
#[local] Hint Extern 5 (before _ _ _) => apply before_snoc; [assumption|try discriminate] : core.

Lemma sig_Inv_start : Inv start.
Proof. split; cbn; try done; [by intros [|[|[]]]|apply before_nil]. Qed.
Ltac parts := split; unfold alive in *; cbn in *; try done; try solve [auto | intuition (auto; try congruence) | intros; simplify_eq; intuition (auto; try congruence)].
Lemma sig_Inv_parent ok s s' : Inv s -> sig_parent_step ok s = Some s' -> Inv s'.
Proof.
  intros [Hc Hk Hs Hp Ho Hg Hr] H. destruct s as [p c pd out], p, ok; cbn in H; try (destruct pd; cbn in H); simplify_eq; parts.
Qed.
Lemma sig_Inv_child ok s s' : Inv s -> sig_child_step ok s = Some s' -> Inv s'.
Proof.
  intros [Hc Hk Hs Hp Ho Hg Hr] H. destruct s as [p [[]|] pd out], ok; cbn in H; simplify_eq; parts.
  intros _ ->. left. apply orb_true_r.
Qed.
Lemma sig_Inv_step s s' : Inv s -> step s s' -> Inv s'.
Proof.
  intros Hi Hst. destruct Hst as [ok s s' H|ok s s' H|s H|c s H H0]; [by eapply sig_Inv_parent|by eapply sig_Inv_child|..];
    destruct Hi as [Hc Hk Hs Hp Ho Hg Hr]; destruct s as [p k pd out]; parts.
Qed.

(** ** Every run ends *)

Definition measure (s : fstate) : Z :=
  match par s with Q_block => 12 | Q_action => 11 | Q_fork => 10 | Q_about => 4 | Q_suspend => 3 | Q_got => 2 | Q_restore => 1 | Q_exit _ => 0 end +
  match kid s with Some C_started => 5 | Some C_sleep => 4 | Some C_about => 3 | Some C_kill => 2 | Some C_leave => 1 | _ => 0 end.
Lemma sig_measure_step s s' : Inv s -> step s s' -> 0 <= measure s' < measure s.
Proof.
  intros Hi Hs. assert (H0 : forall s, 0 <= measure s) by (intros [[] [[]|] ? ?]; unfold measure; cbn; lia). split; [apply H0|]. clear H0.
  pose proof (f_childless _ Hi) as Hc. clear Hi. destruct Hs as [ok s s' H|ok s s' H|s H|c s H Hne]; destruct s as [p k pd out].
  - destruct p, ok; cbn in H, Hc; try (pose proof (Hc eq_refl); subst k); try destruct pd; cbn in H; simplify_eq; unfold measure; cbn; lia.
  - destruct k as [[]|], ok; cbn in H; simplify_eq; unfold measure; cbn; lia.
  - destruct p; unfold measure; cbn; lia || done.
  - cbn in H. subst k. destruct c; unfold measure; cbn; try lia. by destruct (Hne status).
Qed.

(** ** What is promised *)

(** The parent has the signal only after the child was about to send it, and has had it when it succeeds. A process that
    has not ended can go on, except for a parent that waits for a child which has not sent the signal: no signal
    is lost. *)
Definition synchronised (s : fstate) : Prop :=
  before Child_about Parent_got (shown s) /\
  (par s = Q_exit EXIT_SUCCESS -> Parent_got ∈ shown s) /\
  ((exists st, par s = Q_exit st) \/ (exists s', sig_parent_step true s = Some s') \/
    par s = Q_suspend /\ exists c, kid s = Some c /\ c <> C_leave /\ c <> C_exit EXIT_SUCCESS) /\
  (forall c, kid s = Some c -> (exists st, c = C_exit st) \/ exists s', sig_child_step true s = Some s').
Lemma sig_Inv_synchronised s : Inv s -> synchronised s.
Proof.
  intros [Hc Hk Hs Hp Ho Hg Hr]. split_and!; [done|done| |].
  - destruct (sig_parent_step true s) as [s'|] eqn:H; [right; left; by exists s'|]. unfold sig_parent_step in H. unfold alive in *.
    destruct (par s) as [| | | | | | |st]; try done; [|left; by exists st]. right. right. split; [done|].
    destruct (Hk eq_refl eq_refl) as [c Hkid]. exists c. rewrite Hkid in *. split; [done|].
    destruct (pending s); [done|]. split; intros ->; by destruct (Hp eq_refl eq_refl).
  - intros c Hkid. destruct (sig_child_step true s) as [s'|] eqn:H; [right; by exists s'|]. unfold sig_child_step in H. rewrite Hkid in H.
    destruct c; try done. left. by eexists.
Qed.
Lemma fork_sig_sync_run : sn step start /\ forall s, rtc step start s -> synchronised s.
Proof.
  split.
  - by apply (sn_measure step Inv sig_Inv_step measure); [apply sig_measure_step|apply sig_Inv_start].
  - intros s Hr. apply sig_Inv_synchronised. by apply (reach_inv step Inv sig_Inv_step start), Hr; apply sig_Inv_start.
Qed.
End SigSync.

